(* ===== verification/_CoqProject ===== *)
-Q . S2P
Prelude.v
Bytes.v
Text.v
StrEncodings.v
FixedPoint.v
ArithUint256.v
Compact.v
Chain.v
ActiveChain.v
MedianTime.v
Coins.v
CoinsRefine.v
BlockUndo.v
Merkle.v
MerkleCommit.v
PartialMerkle.v
VersionBits.v
Pow.v
PowTargets.v
Serialize.v
TxFormat.v
Script.v
ScriptNum.v
Compressor.v
Money.v
AssetFormat.v
TxVerify.v
Ledger.v
TimeLocks.v
AssetNames.v
MerkleDamgard.v
Sha2.v
Hashes.v
Base58.v
Standard.v
Ans.v
BoolEE.v
Verifiers.v
NullAssets.v
AssetTx.v
TxCheck.v
TxAssets.v
TokenRules.v
Interpreter.v
SigHash.v
Evaluation.v
SoftFork.v
Spending.v
Multisig.v
SigCommit.v
LruCache.v
AssetsCache.v
AssetsDump.v
AssetsLayers.v
AssetsFreeze.v
AssetsTags.v
AssetsBlocks.v
AssetsReorg.v
AssetsReissue.v
AssetsConnect.v
BestChain.v
AcceptBlock.v
BlockCheck.v
BlockMalleation.v
BestChainInv.v
BestChainSelect.v
BestChainActivate.v
BestChainSteps.v
BestChainLink.v
HeaderChecks.v
BestChainAccept.v
BestChainRun.v
ChainLedger.v
BestChainTheorems.v
BestChainFaults.v
