(* ===== verification/Prelude.v ===== *)
(** * Avian Core: a verification development

    Avian is a full node of a proof-of-work currency in C++: a fork of Raven,
    itself a fork of Bitcoin, with assets carried in output scripts and with two
    proof-of-work algorithms.  The sources are under [src/src/]; this
    development translates the parts that all nodes must agree on and proves
    what they are meant to guarantee.  File names of sources are relative to
    the root of the repository ([src/] there), file names ending in [.v] are
    those of this directory.

    ** The parts of the program and how they interact

    A block arrives in [ProcessNewBlock] ([src/validation.cpp]).  It is checked
    by itself and against its parent, its header is entered into the tree of
    block index entries, and [ActivateBestChain] makes the chain with the most
    work among the usable ones the active chain, connecting and disconnecting
    blocks one at a time.  Connecting a block checks each transaction against
    the coins ([src/coins.cpp], [src/consensus/tx_verify.cpp]), the scripts of
    its inputs ([src/script/interpreter.cpp]) and the assets
    ([src/assets/assets.cpp]), and updates the coins and the assets cache,
    writing undo data; disconnecting reads them.  Coins and assets live in
    caches over databases.

    - Machine integers, bytes, text: [Prelude.v], [Bytes.v]
      ([src/crypto/common.h]), [Text.v], [StrEncodings.v], [FixedPoint.v]
      ([src/utilstrencodings.cpp]), [ArithUint256.v], [Compact.v]
      ([src/arith_uint256.cpp]).
    - Formats: [Serialize.v] ([src/serialize.h]), [TxFormat.v]
      ([src/primitives/]), [Compressor.v] ([src/compressor.cpp]), [Base58.v],
      [Standard.v] (addresses and standard scripts), [AssetFormat.v],
      [NullAssets.v], [Ans.v] (assets in scripts).
    - Hashes: [MerkleDamgard.v], [Sha2.v], [Hashes.v] ([src/crypto/],
      [src/hash.h]); [Merkle.v], [MerkleCommit.v] ([src/consensus/merkle.cpp]),
      [PartialMerkle.v] ([src/merkleblock.cpp]).
    - The tree of blocks: [Chain.v], [ActiveChain.v], [MedianTime.v]
      ([src/chain.cpp]), [VersionBits.v], [Pow.v], [PowTargets.v].
    - Coins: [Coins.v], [CoinsRefine.v] ([src/coins.cpp], [src/txdb.cpp]),
      [BlockUndo.v] (the coin part of [ConnectBlock] and [DisconnectBlock]).
    - Value: [Money.v], [TxVerify.v], [Ledger.v], [TimeLocks.v].
    - Scripts: [Script.v], [ScriptNum.v], [Interpreter.v], [SigHash.v] with
      the theorems in [Evaluation.v], [SoftFork.v], [Spending.v], [Multisig.v]
      and [SigCommit.v].
    - Rules of assets: [AssetNames.v], [BoolEE.v] ([src/LibBoolEE.cpp]),
      [Verifiers.v], [AssetTx.v], [TxCheck.v] ([CheckTransaction]),
      [TxAssets.v] ([CheckTxAssets]), [TokenRules.v].
    - The assets cache: [LruCache.v], [AssetsCache.v], [AssetsDump.v],
      [AssetsBlocks.v] (the asset part of connecting and disconnecting), with
      the theorems in [AssetsLayers.v], [AssetsFreeze.v], [AssetsTags.v],
      [AssetsReorg.v], [AssetsReissue.v] and [AssetsConnect.v].
    - The choice of the active chain: [BestChain.v], [AcceptBlock.v],
      [BlockCheck.v] ([src/validation.cpp]) with the invariant in
      [BestChainInv.v] and its preservation in [BestChainSelect.v],
      [BestChainActivate.v], [BestChainSteps.v], [BestChainLink.v],
      [HeaderChecks.v], [BestChainAccept.v]; the node as a state machine in
      [BestChainRun.v]; the coins as its ledger in [ChainLedger.v]; the theorems
      in [BestChainTheorems.v], [BestChainFaults.v] and [BlockMalleation.v].

    ** How code becomes definitions

    Definitions have the names of the functions they translate; helpers for
    loops and parts of long functions have the name of the function and a
    suffix, or a name of their own with the lines in the manifest.  State is
    passed explicitly; objects shared through pointers are entries of a map,
    and a pointer is a key.  An integer type is [Z] with the wrap-around
    written out where the code can leave its range.  Three kinds of results
    occur: [option], where [None] is a failed assertion, an uncaught exception,
    an access out of range, undefined behaviour or exhausted fuel; [Checked]
    ([TxVerify.v]), which accepts, rejects with a reason, or aborts; and pairs
    of a result and a state.

    Components meet in interfaces.  [CoinsView] with its laws
    [CoinsViewSpec] ([Coins.v]) is what a cache of coins asks of the view below
    it; the database and the cache itself are its instances.  [Codec] with
    [CodecOk] ([Serialize.v]) is what a format promises.  [AssetsView]
    ([NullAssets.v]) is what the checks of transactions ask of the assets
    cache; [AssetsConnect.v] instantiates it with the cache.  [Ledger] with
    [LedgerOk] ([BestChain.v], [BestChainInv.v]) is what the choice of the
    chain asks of connecting and disconnecting; [ChainLedger.v] discharges it
    for coins.

    Code outside [src/src/] is an argument with its documented behaviour as a
    hypothesis: the elliptic-curve library, Boost's IPv4 addresses
    ([AddressV4]), the disk.  The proof-of-work hash of a header is an
    argument too.

    ** What the theorems show

    - The chain ([BestChainTheorems.v]): operations return, the active chain is
      a best one, the coins are those of replaying it.  The operations that
      are considered are listed with [allowed] in [BestChainRun.v]; what happens
      outside them is in [BestChainFaults.v].
    - Damaged blocks do not discredit headers ([BlockMalleation.v]).
    - Coins: caches refine a map, the flush survives a crash, undoing a block
      restores the coins, and what happens when an output is created twice
      ([CoinsRefine.v], [BlockUndo.v]).
    - Money: no transaction or chain creates more than the subsidies
      ([Ledger.v]); [CheckTxAssets] conserves assets up to 64-bit wrap-around
      ([TxAssets.v]) and reserved operations spend tokens ([TokenRules.v]).
    - Assets: freezes and tags are sets through all layers of caches, blocks
      that pass the checks can be undone, and where undoing, tagging and
      the mempool go wrong ([AssetsFreeze.v] to [AssetsConnect.v]).
    - Scripts: the interpreter returns and is type safe, flags only restrict,
      standard outputs are spent by the holders of their keys, signatures commit
      to transactions.
    - Proof of work: the retargeting rule in force computes its formula without
      overflow, the check accepts exactly the hashes below the target;
      deployments settle ([VersionBits.v]).
    - Formats and hashes: what is written is read back; the hash classes compute
      the published functions; merkle roots and partial trees commit.

    ** Fuel and bounds

    Loops over data are structural.  Where a loop is not, it runs on fuel, and
    a theorem says how much is enough: the length of the script for
    [EvalScript], the length of the text for [BoolEE.v], the height of the block
    for walks along parents, the number of candidates and blocks for
    [FindMostWorkChain] and [ActivateBestChain] (the theorems there say
    that all fuel from some number on gives the same result).  Numeric bounds in
    hypotheses are those of the integer types of the code, or of the parameters
    of the main network where the statement says so.

    ** What is not modelled

    The memory pool and its policy, mining, network messages, the wallet, RPC,
    the graphical interface, flight plans, files and start-up: they are input
    and output, policy, or use the rules from outside.  The proof-of-work hash
    functions and the elliptic curve are third-party code or assembly.  The
    optional indices over addresses and spent outputs, and the databases of
    messages, rewards and snapshots, decide nothing about validity.  The second
    LWMA rule is modelled but nothing is proved of its values.  Locks and
    threads are left out: the operations on the chain state run under
    [cs_main], one after the other; where the lock is released between rounds
    of [ActivateBestChain], [BestChainFaults.v] has an example of what can come
    between. *)

From stdpp Require Export base tactics numbers list.
From Stdlib Require Export ZArith Lia.

#[export] Set Default Goal Selector "!".
Open Scope Z_scope.

(** ** Machine integers

    A [w]-bit unsigned integer is a [Z] in [0, 2^w); the wrap-around of
    the C++ arithmetic is written out with [wrapu].  A signed integer is
    a [Z] in [-2^(w-1), 2^(w-1)); a conversion to it is [wraps]. *)

Definition wrapu (w z : Z) : Z := z mod 2 ^ w.
Definition wraps (w z : Z) : Z := (z + 2 ^ (w - 1)) mod 2 ^ w - 2 ^ (w - 1).

Abbreviation u8 := (wrapu 8).
Abbreviation u16 := (wrapu 16).
Abbreviation u32 := (wrapu 32).
Abbreviation u64 := (wrapu 64).
Abbreviation i32 := (wraps 32).
Abbreviation i64 := (wraps 64).

Lemma wrapu_range w z : 0 <= w -> 0 <= wrapu w z < 2 ^ w.
Proof. intros Hw. apply Z.mod_pos_bound. lia. Qed.

Lemma wrapu_small w z : 0 <= z < 2 ^ w -> wrapu w z = z.
Proof. apply Z.mod_small. Qed.

Lemma wraps_range w z : 0 < w -> - 2 ^ (w - 1) <= wraps w z < 2 ^ (w - 1).
Proof.
  intros Hw. unfold wraps.
  pose proof (Z.mod_pos_bound (z + 2 ^ (w - 1)) (2 ^ w)).
  assert (2 ^ w = 2 * 2 ^ (w - 1)) as ->.
  { rewrite <- Z.pow_succ_r by lia. f_equal; lia. }
  assert (0 < 2 ^ (w - 1)) by lia.
  pose proof (Z.mod_pos_bound (z + 2 ^ (w - 1)) (2 * 2 ^ (w - 1))). lia.
Qed.

Lemma wraps_small w z :
  0 < w -> - 2 ^ (w - 1) <= z < 2 ^ (w - 1) -> wraps w z = z.
Proof.
  intros Hw Hz. unfold wraps.
  assert (2 ^ w = 2 * 2 ^ (w - 1)) as ->.
  { rewrite <- Z.pow_succ_r by lia. f_equal; lia. }
  rewrite Z.mod_small; lia.
Qed.

Lemma testbit_wrapu w z n :
  0 <= w -> Z.testbit (wrapu w z) n = (n <? w) && Z.testbit z n.
Proof.
  intros Hw. unfold wrapu. destruct (Z.ltb_spec n w).
  - destruct (decide (0 <= n)).
    + rewrite Z.mod_pow2_bits_low by lia. done.
    + rewrite !Z.testbit_neg_r by lia. done.
  - rewrite Z.mod_pow2_bits_high by lia. done.
Qed.

(** [machine] closes the range conditions of wrapped results. *)
Create HintDb machine.
#[export] Hint Resolve wrapu_range wraps_range : machine.
#[export] Hint Extern 1 (0 <= _) => lia : machine.
#[export] Hint Extern 1 (0 < _) => lia : machine.

(** A number below [2^w] has no bit set at or above [w]. *)
Lemma testbit_high w z n : 0 <= z < 2 ^ w -> w <= n -> Z.testbit z n = false.
Proof.
  intros Hz Hn. destruct (decide (0 <= w)).
  - rewrite <- (wrapu_small w z) by done. rewrite testbit_wrapu by done.
    destruct (Z.ltb_spec n w); [lia | done].
  - rewrite Z.pow_neg_r in Hz by lia. lia.
Qed.

(** A number with no bit at or above [w] is below [2^w]. *)
Lemma bits_below w z :
  0 <= w -> 0 <= z -> (forall n, w <= n -> Z.testbit z n = false) -> z < 2 ^ w.
Proof.
  intros Hw Hz Hb. rewrite <- (wrapu_small w z) at 1; [apply wrapu_range; done |].
  split; [done |]. destruct (decide (z = 0)) as [-> | Hne]; [lia |].
  apply Z.log2_lt_pow2; [lia |].
  destruct (decide (Z.log2 z < w)); [done |].
  exfalso. specialize (Hb (Z.log2 z)). rewrite Z.bit_log2 in Hb by lia.
  discriminate Hb. lia.
Qed.

(** Testing one bit with a mask. *)
Lemma land_pow2_testbit x k : 0 <= k -> negb (Z.land x (2 ^ k) =? 0) = Z.testbit x k.
Proof.
  intros Hk. destruct (Z.testbit x k) eqn:Ht.
  - apply negb_true_iff, Z.eqb_neq. intros Hz.
    assert (Z.testbit (Z.land x (2 ^ k)) k = true) as Hb
      by (rewrite Z.land_spec, Ht, Z.pow2_bits_true by done; done).
    rewrite Hz, Z.bits_0 in Hb. done.
  - apply negb_false_iff, Z.eqb_eq, Z.bits_inj'. intros n Hn. rewrite Z.land_spec, Z.bits_0.
    destruct (decide (n = k)) as [-> | Hne]; [by rewrite Ht |].
    rewrite Z.pow2_bits_false by done. apply andb_false_r.
Qed.

(** Two's-complement identity used by every disjoint [|=]. *)
Lemma lor_add_disjoint a b : Z.land a b = 0 -> Z.lor a b = a + b.
Proof. intros H. rewrite Z.add_nocarry_lxor by done. symmetry. by apply Z.lxor_lor. Qed.

(** Quotient and remainder read off from a division with remainder. *)
Lemma div_mod_at b q r n : 0 <= r < b -> n = b * q + r -> n / b = q /\ n mod b = r.
Proof.
  intros Hr ->. split.
  - symmetry. apply Z.div_unique with r; lia.
  - symmetry. apply Z.mod_unique with q; lia.
Qed.

(** ** Counted loops

    [for (i = 0; i < n; i++) s = f(s, i)] is [for_n n f s]. *)

Definition for_n {S : Type} (n : nat) (f : S -> nat -> S) (s : S) : S :=
  fold_left f (seq 0 n) s.

Lemma for_n_S {S : Type} n (f : S -> nat -> S) s :
  for_n (Datatypes.S n) f s = f (for_n n f s) n.
Proof. unfold for_n. rewrite seq_S, fold_left_app. done. Qed.

Lemma for_n_ext {S : Type} n (f g : S -> nat -> S) s :
  (forall i s, (i < n)%nat -> f s i = g s i) -> for_n n f s = for_n n g s.
Proof.
  intros H. induction n as [| n IH]; [done |]. rewrite !for_n_S, IH by auto with lia.
  apply H. lia.
Qed.

(** The loop rule: an invariant indexed by the iteration counter. *)
Lemma for_n_inv {S : Type} (P : nat -> S -> Prop) (f : S -> nat -> S) n s :
  P 0%nat s ->
  (forall i s, (i < n)%nat -> P i s -> P (Datatypes.S i) (f s i)) ->
  P n (for_n n f s).
Proof.
  intros H0 Hstep. induction n as [| n IH]; [done |].
  rewrite for_n_S. apply Hstep; [lia |]. apply IH.
  intros i s' Hi. apply Hstep. lia.
Qed.

(** ** Arrays: reads with [nth], in-range writes with stdpp's insert *)

Lemma nth_insert_eq {A} (l : list A) i x d :
  (i < length l)%nat -> nth i (<[i:=x]> l) d = x.
Proof.
  intros Hi. rewrite nth_lookup, list_lookup_insert_eq by done. done.
Qed.

Lemma nth_insert_ne {A} (l : list A) i j x d :
  i <> j -> nth j (<[i:=x]> l) d = nth j l d.
Proof. intros Hne. rewrite !nth_lookup, list_lookup_insert_ne by done. done. Qed.

Lemma nth_insert {A} (l : list A) i j x d :
  (i < length l)%nat ->
  nth j (<[i:=x]> l) d = if decide (i = j) then x else nth j l d.
Proof.
  intros Hi. case_decide; subst; [by apply nth_insert_eq | by apply nth_insert_ne].
Qed.

Lemma Forall_nth_default {A} (P : A -> Prop) (l : list A) d i :
  Forall P l -> P d -> P (nth i l d).
Proof.
  intros Hl Hd. destruct (decide (i < length l)%nat).
  - apply Forall_nth; done.
  - rewrite nth_overflow by lia. done.
Qed.

Lemma nth_map_seq {A} (f : nat -> A) n i d : (i < n)%nat -> nth i (map f (seq 0 n)) d = f i.
Proof.
  intros Hi. rewrite (nth_indep _ d (f 0%nat)) by (by rewrite length_map, length_seq).
  by rewrite map_nth, seq_nth.
Qed.

Lemma list_eq_nth {A} (l k : list A) d :
  length l = length k -> (forall i, (i < length l)%nat -> nth i l d = nth i k d) -> l = k.
Proof. intros Hl H. by apply (nth_ext l k d d). Qed.

(** ** Automation

    [bdestruct_all] splits every integer comparison of the goal and
    closes the contradictory branches with [lia]. *)

Ltac bdestruct_one :=
  match goal with
  | |- context [(?a <? ?b)%nat] => destruct (Nat.ltb_spec a b); try lia
  | |- context [(?a <=? ?b)%nat] => destruct (Nat.leb_spec a b); try lia
  | |- context [(?a =? ?b)%nat] => destruct (Nat.eqb_spec a b); try lia
  | |- context [?a <? ?b] => destruct (Z.ltb_spec a b); try lia
  | |- context [?a <=? ?b] => destruct (Z.leb_spec a b); try lia
  | |- context [?a =? ?b] => destruct (Z.eqb_spec a b); try lia
  end.

Ltac bdestruct_all := repeat (bdestruct_one; cbn [andb orb negb]); try lia; try done.
