(* ===== verification/Bytes.v ===== *)
(** * Byte order: [src/crypto/common.h] (and [src/compat/endian.h])

    Fixed-width integers written to and read from byte arrays.  A byte is
    a [Z] in [0, 256).  The [memcpy] + [le32toh] pairs of the source mean
    "little-endian on every host"; that is what is modelled. *)

From S2P Require Import Prelude.

Definition byte_ok (b : Z) : Prop := 0 <= b < 256.

#[export] Instance byte_ok_dec b : Decision (byte_ok b).
Proof. unfold byte_ok. apply _. Defined.

Fixpoint le_decode (l : list Z) : Z :=
  match l with
  | [] => 0
  | b :: l => b + 256 * le_decode l
  end.

Fixpoint le_encode (n : nat) (x : Z) : list Z :=
  match n with
  | O => []
  | S n => x mod 256 :: le_encode n (x / 256)
  end.

Definition ReadLE16 (ptr : list Z) : Z := le_decode (take 2 ptr).
Definition ReadLE32 (ptr : list Z) : Z := le_decode (take 4 ptr).
Definition ReadLE64 (ptr : list Z) : Z := le_decode (take 8 ptr).
Definition WriteLE16 (x : Z) : list Z := le_encode 2 x.
Definition WriteLE32 (x : Z) : list Z := le_encode 4 x.
Definition WriteLE64 (x : Z) : list Z := le_encode 8 x.
Definition ReadBE32 (ptr : list Z) : Z := le_decode (rev (take 4 ptr)).
Definition ReadBE64 (ptr : list Z) : Z := le_decode (rev (take 8 ptr)).
Definition WriteBE32 (x : Z) : list Z := rev (le_encode 4 x).
Definition WriteBE64 (x : Z) : list Z := rev (le_encode 8 x).

(** ** Lemmas *)

Lemma byte_ok_mod x : byte_ok (x mod 256).
Proof. apply Z.mod_pos_bound. lia. Qed.

Lemma pow256_S n : 256 ^ Z.of_nat (S n) = 256 * 256 ^ Z.of_nat n.
Proof. rewrite Nat2Z.inj_succ, Z.pow_succ_r by lia. done. Qed.

Lemma length_le_encode n x : length (le_encode n x) = n.
Proof. revert x. induction n as [| n IH]; intros x; cbn [le_encode length]; [done |]. by rewrite IH. Qed.

Lemma le_encode_bytes n x : Forall byte_ok (le_encode n x).
Proof.
  revert x. induction n as [| n IH]; intros x; cbn [le_encode]; [done |].
  constructor; [apply byte_ok_mod | apply IH].
Qed.

Lemma le_decode_range l : Forall byte_ok l -> 0 <= le_decode l < 256 ^ Z.of_nat (length l).
Proof.
  induction 1 as [| b l Hb _ IH]; cbn [le_decode length]; [done |].
  rewrite pow256_S. unfold byte_ok in Hb. lia.
Qed.

Lemma le_decode_encode n x : le_decode (le_encode n x) = x mod 256 ^ Z.of_nat n.
Proof.
  revert x. induction n as [| n IH]; intros x; cbn [le_encode le_decode].
  { by rewrite Z.mod_1_r. }
  rewrite IH, pow256_S. rewrite Z.rem_mul_r by lia. done.
Qed.

Lemma le_encode_decode l : Forall byte_ok l -> le_encode (length l) (le_decode l) = l.
Proof.
  induction 1 as [| b l Hb _ IH]; cbn [le_decode length le_encode]; [done |].
  destruct (div_mod_at 256 (le_decode l) b (b + 256 * le_decode l)) as [-> ->]; [done | lia |].
  by rewrite IH.
Qed.

Lemma le_decode_app l k : le_decode (l ++ k) = le_decode l + 256 ^ Z.of_nat (length l) * le_decode k.
Proof.
  induction l as [| b l IH]; cbn [le_decode length app]; [lia |].
  rewrite IH, pow256_S. lia.
Qed.

Lemma ReadLE32_WriteLE32 x l : 0 <= x < 2 ^ 32 -> ReadLE32 (WriteLE32 x ++ l) = x.
Proof.
  intros Hx. unfold ReadLE32, WriteLE32. rewrite take_app_length' by (by rewrite length_le_encode).
  rewrite le_decode_encode. apply Z.mod_small. exact Hx.
Qed.

Lemma WriteLE32_ReadLE32 l : (4 <= length l)%nat -> Forall byte_ok l -> WriteLE32 (ReadLE32 l) = take 4 l.
Proof.
  intros Hl Hb. unfold ReadLE32, WriteLE32.
  assert (length (take 4 l) = 4%nat) as E by (rewrite length_take; lia).
  rewrite <- E at 1. apply le_encode_decode. by apply Forall_take.
Qed.
