(* ===== verification/Text.v ===== *)
(** * Text: C strings and the character classes of the C locale

    A string is the list of its character codes. *)

From Stdlib Require Import String Ascii.
From stdpp Require Import list.
From S2P Require Import Prelude.

Fixpoint codes (s : string) : list Z :=
  match s with
  | EmptyString => []
  | String c s => Z.of_nat (nat_of_ascii c) :: codes s
  end.

Definition upper (c : Z) : bool := (65 <=? c) && (c <=? 90).
Definition lower (c : Z) : bool := (97 <=? c) && (c <=? 122).
Definition isdigit (c : Z) : bool := (48 <=? c) && (c <=? 57).
Definition isspace (c : Z) : bool := (c =? 32) || ((9 <=? c) && (c <=? 13)).
Definition one_of (s : string) (c : Z) : bool := existsb (Z.eqb c) (codes s).

(** The characters before the terminating zero. *)
Fixpoint c_str (s : list Z) : list Z :=
  match s with
  | [] => []
  | c :: s => if c =? 0 then [] else c :: c_str s
  end.

Fixpoint skip_while (f : Z -> bool) (s : list Z) : list Z :=
  match s with
  | [] => []
  | c :: s' => if f c then skip_while f s' else s
  end.

(** The index of the first occurrence of a character, as
    [strchr(s, c) - s] computes it. *)
Fixpoint strchr (s : list Z) (c : Z) : option Z :=
  match s with
  | [] => None
  | x :: s => if x =? c then Some 0 else i ← strchr s c; Some (i + 1)
  end.

(** ** Decimal numbers *)

(** [k] decimal digits of [n], most significant first. *)
Fixpoint digits (k : nat) (n : Z) : list Z :=
  match k with O => [] | S k => digits k (n / 10) ++ [48 + n mod 10] end.

Fixpoint count_digits (fuel : nat) (n : Z) : nat :=
  match fuel with O => 1%nat | S fuel => if n <? 10 then 1%nat else S (count_digits fuel (n / 10)) end.

(** [%d] of a non-negative [int64_t], which has at most 19 digits. *)
Definition print_dec (n : Z) : list Z := digits (count_digits 18 n) n.

(** The number a string of digits denotes. *)
Definition dec_value (s : list Z) : Z := fold_left (fun acc c => acc * 10 + (c - 48)) s 0.

Lemma dec_value_acc l : forall a,
  fold_left (fun acc c => acc * 10 + (c - 48)) l a = a * 10 ^ Z.of_nat (length l) + dec_value l.
Proof.
  unfold dec_value. induction l as [| c l IH]; intros a; cbn [fold_left length]; [cbn; lia |].
  rewrite IH, (IH (0 * 10 + (c - 48))), Nat2Z.inj_succ, Z.pow_succ_r by lia. lia.
Qed.

Lemma dec_value_app l k : dec_value (l ++ k) = dec_value l * 10 ^ Z.of_nat (length k) + dec_value k.
Proof. unfold dec_value at 1. rewrite fold_left_app. apply dec_value_acc. Qed.

Lemma dec_value_cons c l : dec_value (c :: l) = (c - 48) * 10 ^ Z.of_nat (length l) + dec_value l.
Proof. unfold dec_value at 1. cbn [fold_left]. rewrite dec_value_acc. lia. Qed.

Lemma length_digits k n : length (digits k n) = k.
Proof. revert n. induction k as [| k IH]; intros n; cbn [digits]; [done |]. rewrite length_app, IH. cbn. lia. Qed.

Lemma digits_isdigit k n : Forall (fun c => isdigit c = true) (digits k n).
Proof.
  revert n. induction k as [| k IH]; intros n; cbn [digits]; [done |]. apply Forall_app. split; [done |].
  constructor; [| done]. pose proof (Z.mod_pos_bound n 10). unfold isdigit. bdestruct_all.
Qed.

Lemma digits_value k n : 0 <= n -> dec_value (digits k n) = n mod 10 ^ Z.of_nat k.
Proof.
  revert n. induction k as [| k IH]; intros n Hn; cbn [digits]; [by rewrite Z.mod_1_r |].
  rewrite dec_value_app, IH by (apply Z.div_pos; lia). cbn [length]. change (10 ^ Z.of_nat 1) with 10.
  rewrite Nat2Z.inj_succ, Z.pow_succ_r, Z.rem_mul_r by lia.
  replace (dec_value [48 + n mod 10]) with (n mod 10) by (unfold dec_value; cbn [fold_left]; lia). lia.
Qed.

Lemma count_digits_spec fuel n :
  0 <= n < 10 ^ Z.of_nat (S fuel) ->
  let k := count_digits fuel n in
  (1 <= k)%nat /\ n < 10 ^ Z.of_nat k /\ (k = 1%nat \/ 10 ^ Z.of_nat (pred k) <= n).
Proof.
  revert n. induction fuel as [| fuel IH]; intros n Hn; cbn [count_digits]; [split; [lia |]; split; [lia | by left] |].
  destruct (Z.ltb_spec n 10); [split; [lia |]; split; [lia | by left] |].
  rewrite Nat2Z.inj_succ, Z.pow_succ_r in Hn by lia.
  assert (1 <= n / 10) by (apply Z.div_le_lower_bound; lia).
  assert (n / 10 < 10 ^ Z.of_nat (S fuel)) by (apply Z.div_lt_upper_bound; lia).
  destruct (IH (n / 10)) as (Hk1 & Hk2 & Hk3); [lia |]. set (k := count_digits fuel (n / 10)) in *. cbn zeta.
  pose proof (Z.div_mod n 10 ltac:(lia)). pose proof (Z.mod_pos_bound n 10 ltac:(lia)).
  split; [lia |]. rewrite Nat2Z.inj_succ, Z.pow_succ_r by lia. split; [lia |]. right. cbn [pred].
  destruct Hk3 as [-> | Hk3]; [cbn; lia |]. destruct k as [| k]; [lia |]. cbn [pred] in Hk3.
  rewrite Nat2Z.inj_succ, Z.pow_succ_r by lia. lia.
Qed.

Lemma dec_value_zeros l j : dec_value (l ++ replicate j 48) = dec_value l * 10 ^ Z.of_nat j.
Proof.
  rewrite dec_value_app, length_replicate. replace (dec_value (replicate j 48)) with 0; [lia |].
  induction j as [| j IH]; [done |]. cbn [replicate]. rewrite dec_value_cons, <- IH. lia.
Qed.

Lemma isdigit_facts c : isdigit c = true -> c <> 0 /\ c <> 46 /\ isspace c = false /\ 48 <= c <= 57.
Proof. unfold isdigit, isspace. intros [?%Z.leb_le ?%Z.leb_le]%andb_true_iff. bdestruct_all. Qed.

Lemma c_str_digits l : Forall (fun c => isdigit c = true) l -> forall s, c_str (l ++ s) = l ++ c_str s.
Proof.
  induction 1 as [| c l Hc _ IH]; intros s; [done |]. apply isdigit_facts in Hc as [Hc _]. cbn [app c_str].
  destruct (Z.eqb_spec c 0); [done |]. by rewrite IH.
Qed.
