(* ===== verification/StrEncodings.v ===== *)
(** * String encodings ([src/utilstrencodings.cpp], [src/utilstrencodings.h])

    Hexadecimal, base 64 and base 32, the strict integer parsers,
    the splitting of host and port and the comparison in constant time.  Characters and bytes are their codes; a
    [const char*] argument is the string up to its terminating zero, so that
    reading the zero is reading past the list. *)

From Stdlib Require Import String.
From stdpp Require Import list.
From S2P Require Import Prelude Text Bytes.

Definition CHARS_ALPHA_NUM : list Z := codes "abcdefghijklmnopqrstuvwxyzABCDEFGHIJKLMNOPQRSTUVWXYZ0123456789".

Definition SAFE_CHARS : list (list Z) :=
  [CHARS_ALPHA_NUM ++ codes " .,;-_/:?@()"; CHARS_ALPHA_NUM ++ codes " .,;-_?@"; CHARS_ALPHA_NUM ++ codes ".-_"].

Definition SanitizeString (str : list Z) (rule : nat) : list Z :=
  List.filter (fun c => existsb (Z.eqb c) (nth rule SAFE_CHARS [])) str.

(** ** Hexadecimal *)

(** The table [p_util_hexdigit]. *)
Definition HexDigit (c : Z) : Z :=
  if isdigit c then c - 48
  else if (65 <=? c) && (c <=? 70) then c - 55
  else if (97 <=? c) && (c <=? 102) then c - 87
  else -1.

Definition IsHex (str : list Z) : bool :=
  forallb (fun c => negb (HexDigit c <? 0)) str && (0 <? length str)%nat && Nat.even (length str).

Definition IsHexNumber (str : list Z) : bool :=
  let starting_location :=
    if (2 <? length str)%nat && (nth 0 str 0 =? 48) && (nth 1 str 0 =? 120) then 2%nat else 0%nat in
  forallb (fun c => negb (HexDigit c <? 0)) (drop starting_location str) && (starting_location <? length str)%nat.

(** Each round reads at least one character. *)
Fixpoint ParseHex_loop (fuel : nat) (psz : list Z) : list Z :=
  match fuel with
  | O => []
  | S fuel =>
      match skip_while isspace psz with
      | [] => []
      | c1 :: psz =>
          if HexDigit c1 =? -1 then []
          else match psz with
               | [] => []
               | c2 :: psz =>
                   if HexDigit c2 =? -1 then []
                   else Z.lor (Z.shiftl (HexDigit c1) 4) (HexDigit c2) :: ParseHex_loop fuel psz
               end
      end
  end.

Definition ParseHex (str : list Z) : list Z := ParseHex_loop (length str) (c_str str).

Definition hexmap : list Z := codes "0123456789abcdef".

Definition HexStr (vch : list Z) : list Z :=
  concat (map (fun val => [nth (Z.to_nat (Z.shiftr val 4)) hexmap 0; nth (Z.to_nat (Z.land val 15)) hexmap 0]) vch).

(** ** Base 64 *)

Definition pbase64 : list Z := codes "ABCDEFGHIJKLMNOPQRSTUVWXYZabcdefghijklmnopqrstuvwxyz0123456789+/".
Definition base64_char (i : Z) : Z := nth (Z.to_nat i) pbase64 0.
Definition chr_pad : Z := 61.

Fixpoint encode64 (pch : list Z) (mode left_ : Z) : list Z :=
  match pch with
  | [] => if mode =? 0 then [] else base64_char left_ :: chr_pad :: (if mode =? 1 then [chr_pad] else [])
  | enc :: pch =>
      if mode =? 0 then base64_char (Z.shiftr enc 2) :: encode64 pch 1 (Z.shiftl (Z.land enc 3) 4)
      else if mode =? 1 then base64_char (Z.lor left_ (Z.shiftr enc 4)) :: encode64 pch 2 (Z.shiftl (Z.land enc 15) 2)
      else base64_char (Z.lor left_ (Z.shiftr enc 6)) :: base64_char (Z.land enc 63) :: encode64 pch 0 left_
  end.

Definition EncodeBase64 (pch : list Z) : list Z := encode64 pch 0 0.

(** [decode64_table]; the characters of the encoding are at their index. *)
Definition decode64_table (c : Z) : Z := match strchr pbase64 c with Some i => i | None => -1 end.

(** The bytes, the mode and [left] at the end, and the rest of the string. *)
Fixpoint decode64 (p : list Z) (mode left_ : Z) : list Z * Z * Z * list Z :=
  match p with
  | [] => ([], mode, left_, [])
  | c :: p' =>
      let dec := decode64_table c in
      if dec =? -1 then ([], mode, left_, p)
      else
        let put b '(r, mode, left_, rest) := (u8 b :: r, mode, left_, rest) in
        if mode =? 0 then decode64 p' 1 dec
        else if mode =? 1 then put (Z.lor (Z.shiftl left_ 2) (Z.shiftr dec 4)) (decode64 p' 2 (Z.land dec 15))
        else if mode =? 2 then put (Z.lor (Z.shiftl left_ 4) (Z.shiftr dec 2)) (decode64 p' 3 (Z.land dec 3))
        else put (Z.lor (Z.shiftl left_ 6) dec) (decode64 p' 0 left_)
  end.

(** The bytes and [*pfInvalid]. *)
Definition DecodeBase64 (str : list Z) : list Z * bool :=
  let '(vchRet, mode, left_, p) := decode64 (c_str str) 0 0 in
  let at_ i := nth i p 0 in
  let fInvalid :=
    if mode =? 0 then false
    else if mode =? 1 then true
    else if mode =? 2 then
      negb (left_ =? 0) || negb (at_ 0%nat =? chr_pad) || negb (at_ 1%nat =? chr_pad) || negb (decode64_table (at_ 2%nat) =? -1)
    else negb (left_ =? 0) || negb (at_ 0%nat =? chr_pad) || negb (decode64_table (at_ 1%nat) =? -1) in
  (vchRet, fInvalid).

(** ** Base 32 *)

Definition pbase32 : list Z := codes "abcdefghijklmnopqrstuvwxyz234567".
Definition base32_char (i : Z) : Z := nth (Z.to_nat i) pbase32 0.
Definition nPadding (mode : Z) : nat := nth (Z.to_nat mode) [0; 6; 4; 3; 1]%nat 0%nat.

Fixpoint encode32 (pch : list Z) (mode left_ : Z) : list Z :=
  match pch with
  | [] => if mode =? 0 then [] else base32_char left_ :: replicate (nPadding mode) chr_pad
  | enc :: pch =>
      if mode =? 0 then base32_char (Z.shiftr enc 3) :: encode32 pch 1 (Z.shiftl (Z.land enc 7) 2)
      else if mode =? 1 then
        base32_char (Z.lor left_ (Z.shiftr enc 6)) :: base32_char (Z.land (Z.shiftr enc 1) 31) ::
        encode32 pch 2 (Z.shiftl (Z.land enc 1) 4)
      else if mode =? 2 then base32_char (Z.lor left_ (Z.shiftr enc 4)) :: encode32 pch 3 (Z.shiftl (Z.land enc 15) 1)
      else if mode =? 3 then
        base32_char (Z.lor left_ (Z.shiftr enc 7)) :: base32_char (Z.land (Z.shiftr enc 2) 31) ::
        encode32 pch 4 (Z.shiftl (Z.land enc 3) 3)
      else base32_char (Z.lor left_ (Z.shiftr enc 5)) :: base32_char (Z.land enc 31) :: encode32 pch 0 left_
  end.

Definition EncodeBase32 (pch : list Z) : list Z := encode32 pch 0 0.

(** [decode32_table]; capital letters count as small ones. *)
Definition decode32_table (c : Z) : Z :=
  match strchr pbase32 (if upper c then c + 32 else c) with Some i => i | None => -1 end.

Fixpoint decode32 (p : list Z) (mode left_ : Z) : list Z * Z * Z * list Z :=
  match p with
  | [] => ([], mode, left_, [])
  | c :: p' =>
      let dec := decode32_table c in
      if dec =? -1 then ([], mode, left_, p)
      else
        let put b '(r, mode, left_, rest) := (u8 b :: r, mode, left_, rest) in
        if mode =? 0 then decode32 p' 1 dec
        else if mode =? 1 then put (Z.lor (Z.shiftl left_ 3) (Z.shiftr dec 2)) (decode32 p' 2 (Z.land dec 3))
        else if mode =? 2 then decode32 p' 3 (Z.lor (Z.shiftl left_ 5) dec)
        else if mode =? 3 then put (Z.lor (Z.shiftl left_ 1) (Z.shiftr dec 4)) (decode32 p' 4 (Z.land dec 15))
        else if mode =? 4 then put (Z.lor (Z.shiftl left_ 4) (Z.shiftr dec 1)) (decode32 p' 5 (Z.land dec 1))
        else if mode =? 5 then decode32 p' 6 (Z.lor (Z.shiftl left_ 5) dec)
        else if mode =? 6 then put (Z.lor (Z.shiftl left_ 2) (Z.shiftr dec 3)) (decode32 p' 7 (Z.land dec 7))
        else put (Z.lor (Z.shiftl left_ 5) dec) (decode32 p' 0 left_)
  end.

(** The number of [=] each mode requires; [None] marks the impossible lengths. *)
Definition required_padding (mode : Z) : option nat :=
  if mode =? 0 then Some 0%nat else if mode =? 2 then Some 6%nat else if mode =? 4 then Some 4%nat
  else if mode =? 5 then Some 3%nat else if mode =? 7 then Some 1%nat else None.

Definition DecodeBase32 (str : list Z) : list Z * bool :=
  let '(vchRet, mode, left_, p) := decode32 (c_str str) 0 0 in
  let fInvalid :=
    if mode =? 0 then false
    else match required_padding mode with
         | None => true
         | Some n =>
             negb (left_ =? 0) || negb (forallb (fun i => nth i p 0 =? chr_pad) (seq 0 n)) ||
             negb (decode32_table (nth n p 0) =? -1)
         end in
  (vchRet, fInvalid).

(** ** Integers *)

Fixpoint span (f : Z -> bool) (s : list Z) : list Z * list Z :=
  match s with
  | [] => ([], [])
  | c :: s' => if f c then let '(a, b) := span f s' in (c :: a, b) else ([], s)
  end.

Definition read_sign (s : list Z) : bool * list Z :=
  match s with
  | c :: s' => if c =? 45 then (true, s') else if c =? 43 then (false, s') else (false, s)
  | [] => (false, [])
  end.

(** [strtoll(s, &endp, 10)]: the value, the characters at [endp] and whether
    [errno] is set to [ERANGE]. *)
Definition strtoll (s : list Z) : Z * list Z * bool :=
  let '(neg, s2) := read_sign (skip_while isspace s) in
  let '(ds, rest) := span isdigit s2 in
  if bool_decide (ds = []) then (0, s, false)
  else
    let v := if neg then - dec_value ds else dec_value ds in
    if v <? - 2 ^ 63 then (- 2 ^ 63, rest, true)
    else if 2 ^ 63 - 1 <? v then (2 ^ 63 - 1, rest, true)
    else (v, rest, false).

(** The number digits denote in a base up to 16. *)
Definition num_value (base : Z) (ds : list Z) : Z := fold_left (fun acc c => acc * base + HexDigit c) ds 0.

Definition base_digit (base c : Z) : bool := (0 <=? HexDigit c) && (HexDigit c <? base).

Definition skip_0x (base : Z) (s : list Z) : list Z :=
  match s with
  | z :: x :: d :: s' =>
      if (base =? 16) && (z =? 48) && ((x =? 120) || (x =? 88)) && base_digit 16 d then d :: s' else s
  | _ => s
  end.

(** [strtoull(s, &endp, base)] for base 10 and 16. *)
Definition strtoull (s : list Z) (base : Z) : Z * list Z * bool :=
  let '(neg, s2) := read_sign (skip_while isspace s) in
  let '(ds, rest) := span (base_digit base) (skip_0x base s2) in
  if bool_decide (ds = []) then (0, s, false)
  else if 2 ^ 64 - 1 <? num_value base ds then (2 ^ 64 - 1, rest, true)
  else (if neg then u64 (- num_value base ds) else num_value base ds, rest, false).

Definition ParsePrechecks (str : list Z) : bool :=
  negb (bool_decide (str = [])) && negb (isspace (nth 0 str 0) || isspace (List.last str 0)) &&
  (length str =? length (c_str str))%nat.

Definition ParseInt32 (str : list Z) : option Z :=
  if negb (ParsePrechecks str) then None
  else let '(n, endp, errno) := strtoll (c_str str) in
    if bool_decide (endp = []) && negb errno && (- 2 ^ 31 <=? n) && (n <=? 2 ^ 31 - 1) then Some n else None.

Definition ParseInt64 (str : list Z) : option Z :=
  if negb (ParsePrechecks str) then None
  else let '(n, endp, errno) := strtoll (c_str str) in
    if bool_decide (endp = []) && negb errno && (- 2 ^ 63 <=? n) && (n <=? 2 ^ 63 - 1) then Some n else None.

Definition ParseUInt32 (str : list Z) : option Z :=
  if negb (ParsePrechecks str) then None
  else if nth 0 str 0 =? 45 then None
  else let '(n, endp, errno) := strtoull (c_str str) 10 in
    if bool_decide (endp = []) && negb errno && (n <=? 2 ^ 32 - 1) then Some n else None.

Definition ParseUInt64 (str : list Z) (base : Z) : option Z :=
  if negb (ParsePrechecks str) then None
  else if nth 0 str 0 =? 45 then None
  else let '(n, endp, errno) := strtoull (c_str str) base in
    if bool_decide (endp = []) && negb errno && (n <=? 2 ^ 64 - 1) then Some n else None.

Definition i64tostr (n : Z) : list Z := if n <? 0 then 45 :: print_dec (- n) else print_dec n.

Definition atoi64 (str : list Z) : Z := fst (fst (strtoll (c_str str))).

(** ** Host and port *)

Fixpoint find_last_of (c : Z) (s : list Z) : option nat :=
  match s with
  | [] => None
  | x :: s => match find_last_of c s with Some i => Some (S i) | None => if x =? c then Some 0%nat else None end
  end.

(** The port and the host. *)
Definition SplitHostPort (in_ : list Z) (portOut : Z) : Z * list Z :=
  let '(in_, portOut) :=
    match find_last_of 58 in_ with
    | None => (in_, portOut)
    | Some colon =>
        let fBracketed := (nth 0 in_ 0 =? 91) && (nth (colon - 1) in_ 0 =? 93) in
        let fMultiColon := bool_decide (is_Some (find_last_of 58 (if (colon =? 0)%nat then in_ else take colon in_))) in
        if (colon =? 0)%nat || fBracketed || negb fMultiColon then
          match ParseInt32 (drop (colon + 1) in_) with
          | Some n => if (n >? 0) && (n <? 0x10000) then (take colon in_, n) else (in_, portOut)
          | None => (in_, portOut)
          end
        else (in_, portOut)
    end in
  if (0 <? length in_)%nat && (nth 0 in_ 0 =? 91) && (List.last in_ 0 =? 93)
  then (portOut, take (length in_ - 2) (drop 1 in_)) else (portOut, in_).

(** ** Constant-time comparison *)

Definition TimingResistantEqual (a b : list Z) : bool :=
  if (length b =? 0)%nat then (length a =? 0)%nat
  else
    let accumulator :=
      fold_left (fun acc i => Z.lor acc (Z.lxor (nth i a 0) (nth (i mod length b) b 0))) (seq 0 (length a))
        (Z.lxor (Z.of_nat (length a)) (Z.of_nat (length b))) in
    accumulator =? 0.

(** ** Splitting and joining bit fields *)

Lemma lor_shiftl_add hi lo k : 0 <= k -> 0 <= lo < 2 ^ k -> Z.lor (Z.shiftl hi k) lo = hi * 2 ^ k + lo.
Proof.
  intros Hk Hlo. rewrite lor_add_disjoint; [by rewrite Z.shiftl_mul_pow2|].
  apply Z.bits_inj'. intros n Hn. rewrite Z.land_spec, Z.bits_0. destruct (decide (n < k)).
  - by rewrite Z.shiftl_spec_low.
  - rewrite (testbit_high k lo) by lia. apply andb_false_r.
Qed.

Lemma shiftr_join hi lo k : 0 <= k -> 0 <= lo < 2 ^ k -> Z.shiftr (Z.lor (Z.shiftl hi k) lo) k = hi.
Proof.
  intros. rewrite lor_shiftl_add, Z.shiftr_div_pow2 by done.
  apply (div_mod_at (2 ^ k) hi lo); [lia|ring].
Qed.

Lemma land_join hi lo k : 0 <= k -> 0 <= lo < 2 ^ k -> Z.land (Z.lor (Z.shiftl hi k) lo) (Z.ones k) = lo.
Proof.
  intros. rewrite lor_shiftl_add, Z.land_ones by done.
  apply (div_mod_at (2 ^ k) hi lo); [lia|ring].
Qed.

Lemma split_join a k : 0 <= k -> Z.lor (Z.shiftl (Z.shiftr a k) k) (Z.land a (Z.ones k)) = a.
Proof.
  intros Hk. rewrite Z.land_ones, lor_shiftl_add, Z.shiftr_div_pow2 by (try apply Z.mod_pos_bound; lia).
  pose proof (Z.div_mod a (2 ^ k)). lia.
Qed.

Lemma shiftr_range a k m : 0 <= k <= m -> 0 <= a < 2 ^ m -> 0 <= Z.shiftr a k < 2 ^ (m - k).
Proof.
  intros Hk Ha. rewrite Z.shiftr_div_pow2 by lia. split; [apply Z.div_pos; lia|].
  apply Z.div_lt_upper_bound; [lia|]. rewrite <- Z.pow_add_r by lia. replace (k + (m - k)) with m by lia. lia.
Qed.

Lemma land_range a k : 0 <= k -> 0 <= Z.land a (Z.ones k) < 2 ^ k.
Proof. intros. rewrite Z.land_ones by done. apply Z.mod_pos_bound. lia. Qed.

Lemma join_range hi lo k m : 0 <= k -> 0 <= m -> 0 <= hi < 2 ^ m -> 0 <= lo < 2 ^ k -> 0 <= Z.lor (Z.shiftl hi k) lo < 2 ^ (m + k).
Proof. intros. rewrite lor_shiftl_add, Z.pow_add_r by lia. nia. Qed.

(** A table looked up at the character of an index gives the index back. *)
Lemma table_index (table char : Z -> Z) n i :
  forallb (fun i => (table (char (Z.of_nat i)) =? Z.of_nat i)) (seq 0 n) = true -> 0 <= i < Z.of_nat n -> table (char i) = i.
Proof.
  intros H Hi. rewrite forallb_forall in H. specialize (H (Z.to_nat i)). rewrite Z2Nat.id in H by lia.
  apply Z.eqb_eq, H, in_seq. lia.
Qed.

Lemma decode64_char i : 0 <= i < 2 ^ 6 -> decode64_table (base64_char i) = i.
Proof. apply (table_index _ _ 64). vm_compute. reflexivity. Qed.

Lemma decode32_char i : 0 <= i < 2 ^ 5 -> decode32_table (base32_char i) = i.
Proof. apply (table_index _ _ 32). vm_compute. reflexivity. Qed.

Lemma decode64_step i p mode left_ : 0 <= i < 2 ^ 6 ->
  decode64 (base64_char i :: p) mode left_ =
  (let put b '(r, mode, left_, rest) := (u8 b :: r, mode, left_, rest) in
   if mode =? 0 then decode64 p 1 i
   else if mode =? 1 then put (Z.lor (Z.shiftl left_ 2) (Z.shiftr i 4)) (decode64 p 2 (Z.land i 15))
   else if mode =? 2 then put (Z.lor (Z.shiftl left_ 4) (Z.shiftr i 2)) (decode64 p 3 (Z.land i 3))
   else put (Z.lor (Z.shiftl left_ 6) i) (decode64 p 0 left_)).
Proof. intros Hi. cbn [decode64]. rewrite decode64_char by done. rewrite (proj2 (Z.eqb_neq i (-1))) by lia. done. Qed.

Lemma u8_byte b : byte_ok b -> u8 b = b.
Proof. intros. by apply wrapu_small. Qed.

(** Masks as [Z.ones], then ranges of fields by their widths. *)
Ltac mask_ones :=
  repeat match goal with
  | |- context [Z.land ?a ?m] =>
      match m with
      | 1 => change (Z.land a 1) with (Z.land a (Z.ones 1))
      | 3 => change (Z.land a 3) with (Z.land a (Z.ones 2))
      | 7 => change (Z.land a 7) with (Z.land a (Z.ones 3))
      | 15 => change (Z.land a 15) with (Z.land a (Z.ones 4))
      | 31 => change (Z.land a 31) with (Z.land a (Z.ones 5))
      | 63 => change (Z.land a 63) with (Z.land a (Z.ones 6))
      end
  end.

Ltac field_range :=
  match goal with
  | |- 0 <= Z.lor (Z.shiftl ?a ?k) ?b < 2 ^ ?n =>
      change n with ((n - k) + k); apply (join_range a b k (n - k)); [lia|lia|field_range|field_range]
  | |- 0 <= Z.shiftl ?a ?k < 2 ^ ?n => rewrite <- (Z.lor_0_r (Z.shiftl a k)); field_range
  | |- 0 <= Z.land ?a (Z.ones ?k) < 2 ^ ?n => apply (land_range a k); lia
  | |- 0 <= Z.shiftr ?a ?k < 2 ^ ?n => apply (shiftr_range a k (n + k)); [lia|field_range]
  | _ => lia
  end.

Lemma shiftr_alone hi k : 0 <= k -> Z.shiftr (Z.shiftl hi k) k = hi.
Proof. intros. rewrite <- (Z.lor_0_r (Z.shiftl hi k)). apply shiftr_join; lia. Qed.

Lemma land_alone hi k : 0 <= k -> Z.land (Z.shiftl hi k) (Z.ones k) = 0.
Proof. intros. rewrite <- (Z.lor_0_r (Z.shiftl hi k)). apply land_join; lia. Qed.

(** The part of a byte above bit [j] from its part above [j + k] and the
    [k] bits between. *)
Lemma split_join_high a j k m : 0 <= j -> 0 <= k -> m = j + k ->
  Z.lor (Z.shiftl (Z.shiftr a m) k) (Z.land (Z.shiftr a j) (Z.ones k)) = Z.shiftr a j.
Proof. intros Hj Hk ->. rewrite <- Z.shiftr_shiftr by lia. by apply split_join. Qed.

(** Evaluates a decoder on fields: [u8] of a byte, the parts of a join, a byte
    put together from its parts. *)
Ltac fields :=
  mask_ones;
  repeat first
    [ rewrite shiftr_join by field_range | rewrite land_join by field_range
    | rewrite shiftr_alone by lia | rewrite land_alone by lia
    | rewrite split_join by lia | rewrite (fun a j k m => split_join_high a j k m) by lia | rewrite u8_byte by done ].

Abbreviation mod3 bs := (length bs mod 3)%nat.

Lemma decode_encode64 : forall bs l l', Forall byte_ok bs ->
  exists left_, decode64 (encode64 bs 0 l) 0 l' =
    (bs, match mod3 bs with 0%nat => 0 | 1%nat => 2 | _ => 3 end, left_,
     match mod3 bs with 0%nat => [] | 1%nat => [chr_pad; chr_pad] | _ => [chr_pad] end) /\
    (mod3 bs <> 0%nat -> left_ = 0).
Proof.
  fix IH 1. intros [|a [|b [|c bs]]] l l' Hbs.
  - exists l'. done.
  - exists 0. inversion Hbs as [|? ? Ha _]; subst. pose proof Ha as Ha'. unfold byte_ok in Ha'.
    cbn [encode64 Z.eqb Pos.eqb]. mask_ones.
    repeat (rewrite decode64_step by field_range; cbn [Z.eqb Pos.eqb]). fields. split; reflexivity.
  - exists 0. inversion Hbs as [|? ? Ha Hb]; subst. inversion Hb as [|? ? Hb' _]; subst.
    pose proof Ha as Ha'. pose proof Hb' as Hb''. unfold byte_ok in Ha', Hb''.
    cbn [encode64 Z.eqb Pos.eqb]. mask_ones.
    repeat (rewrite decode64_step by field_range; cbn [Z.eqb Pos.eqb]). fields. split; reflexivity.
  - inversion Hbs as [|? ? Ha Hb]; subst. inversion Hb as [|? ? Hb' Hc]; subst. inversion Hc as [|? ? Hc' Hr]; subst.
    destruct (IH bs (Z.shiftl (Z.land b (Z.ones 4)) 2) (Z.shiftr c 6) Hr) as (left_ & E & Hl).
    exists left_. replace (mod3 (a :: b :: c :: bs)) with (mod3 bs).
    2: { cbn [length]. replace (S (S (S (length bs)))) with (length bs + 1 * 3)%nat by lia. by rewrite Nat.Div0.mod_add. }
    split; [|done].
    assert (0 <= a < 256 /\ 0 <= b < 256 /\ 0 <= c < 256) as (? & ? & ?) by done.
    cbn [encode64 Z.eqb Pos.eqb]. mask_ones.
    repeat (rewrite decode64_step by field_range; cbn [Z.eqb Pos.eqb]). fields. rewrite E. reflexivity.
Qed.

Lemma decode32_step i p mode left_ : 0 <= i < 2 ^ 5 ->
  decode32 (base32_char i :: p) mode left_ =
  (let put b '(r, mode, left_, rest) := (u8 b :: r, mode, left_, rest) in
   if mode =? 0 then decode32 p 1 i
   else if mode =? 1 then put (Z.lor (Z.shiftl left_ 3) (Z.shiftr i 2)) (decode32 p 2 (Z.land i 3))
   else if mode =? 2 then decode32 p 3 (Z.lor (Z.shiftl left_ 5) i)
   else if mode =? 3 then put (Z.lor (Z.shiftl left_ 1) (Z.shiftr i 4)) (decode32 p 4 (Z.land i 15))
   else if mode =? 4 then put (Z.lor (Z.shiftl left_ 4) (Z.shiftr i 1)) (decode32 p 5 (Z.land i 1))
   else if mode =? 5 then decode32 p 6 (Z.lor (Z.shiftl left_ 5) i)
   else if mode =? 6 then put (Z.lor (Z.shiftl left_ 2) (Z.shiftr i 3)) (decode32 p 7 (Z.land i 7))
   else put (Z.lor (Z.shiftl left_ 5) i) (decode32 p 0 left_)).
Proof. intros Hi. cbn [decode32]. rewrite decode32_char by done. rewrite (proj2 (Z.eqb_neq i (-1))) by lia. done. Qed.

(** The mode the decoder ends in after a last group of [n] bytes. *)
Definition last_mode32 (n : nat) : Z := nth n [0; 2; 4; 5; 7] 0.
Abbreviation mod5 bs := (length bs mod 5)%nat.

Ltac decode32_group :=
  cbn [encode32 Z.eqb Pos.eqb]; mask_ones;
  repeat (rewrite decode32_step by field_range; cbn [Z.eqb Pos.eqb]); fields.

Lemma decode_encode32 : forall bs l l', Forall byte_ok bs ->
  exists left_, decode32 (encode32 bs 0 l) 0 l' =
    (bs, last_mode32 (mod5 bs), left_, if (mod5 bs =? 0)%nat then [] else replicate (nPadding (Z.of_nat (mod5 bs))) chr_pad) /\
    (mod5 bs <> 0%nat -> left_ = 0).
Proof.
  fix IH 1. intros bs l l' Hbs. destruct bs as [|a [|b [|c [|d [|e bs]]]]].
  - exists l'. done.
  - exists 0. rewrite Forall_cons in Hbs. destruct Hbs as [Ha _]. pose proof Ha as Ha'. unfold byte_ok in Ha'.
    decode32_group. split; reflexivity.
  - exists 0. rewrite !Forall_cons in Hbs. destruct Hbs as (Ha & Hb & _). assert (0 <= a < 256 /\ 0 <= b < 256) as [? ?] by done.
    decode32_group. split; reflexivity.
  - exists 0. rewrite !Forall_cons in Hbs. destruct Hbs as (Ha & Hb & Hc & _).
    assert (0 <= a < 256 /\ 0 <= b < 256 /\ 0 <= c < 256) as (? & ? & ?) by done.
    decode32_group. split; reflexivity.
  - exists 0. rewrite !Forall_cons in Hbs. destruct Hbs as (Ha & Hb & Hc & Hd & _).
    assert (0 <= a < 256 /\ 0 <= b < 256 /\ 0 <= c < 256 /\ 0 <= d < 256) as (? & ? & ? & ?) by done.
    decode32_group. split; reflexivity.
  - rewrite !Forall_cons in Hbs. destruct Hbs as (Ha & Hb & Hc & Hd & He & Hr).
    assert (0 <= a < 256 /\ 0 <= b < 256 /\ 0 <= c < 256 /\ 0 <= d < 256 /\ 0 <= e < 256) as (? & ? & ? & ? & ?) by done.
    destruct (IH bs (Z.shiftl (Z.land d (Z.ones 2)) 3) (Z.shiftr e 5) Hr) as (left_ & E & Hl).
    exists left_. replace (mod5 (a :: b :: c :: d :: e :: bs)) with (mod5 bs).
    2: { cbn [length]. replace (S (S (S (S (S (length bs)))))) with (length bs + 1 * 5)%nat by lia.
         by rewrite Nat.Div0.mod_add. }
    split; [|done]. decode32_group. rewrite E. reflexivity.
Qed.

Lemma c_str_nonzero s : forallb (fun c => negb (c =? 0)) s = true -> c_str s = s.
Proof.
  induction s as [|c s IH]; [done|]. cbn [forallb c_str]. intros [Hc Hs]%andb_prop.
  destruct (c =? 0); [done|]. by rewrite IH.
Qed.

Lemma nth_nonzero l n : forallb (fun c => negb (c =? 0)) l = true -> (n < length l)%nat -> negb (nth n l 0 =? 0) = true.
Proof. intros Hl Hn. rewrite forallb_forall in Hl. by apply Hl, nth_In. Qed.

Lemma base64_nonzero i : 0 <= i < 2 ^ 6 -> negb (base64_char i =? 0) = true.
Proof. intros. apply nth_nonzero; [reflexivity|]. change (length pbase64) with 64%nat. lia. Qed.

Lemma base32_nonzero i : 0 <= i < 2 ^ 5 -> negb (base32_char i =? 0) = true.
Proof. intros. apply nth_nonzero; [reflexivity|]. change (length pbase32) with 32%nat. lia. Qed.

Ltac nonzero_chars lem :=
  cbn [forallb]; mask_ones; repeat (rewrite lem by field_range); cbn [andb].

Lemma encode64_nonzero : forall bs l, Forall byte_ok bs -> forallb (fun c => negb (c =? 0)) (encode64 bs 0 l) = true.
Proof.
  fix IH 1. intros [|a [|b [|c bs]]] l Hbs; [done| | |]; rewrite !Forall_cons in Hbs; unfold byte_ok in Hbs;
    decompose [and] Hbs; cbn [encode64 Z.eqb Pos.eqb]; nonzero_chars base64_nonzero; [done..|].
  by apply IH.
Qed.

Lemma encode32_nonzero : forall bs l, Forall byte_ok bs -> forallb (fun c => negb (c =? 0)) (encode32 bs 0 l) = true.
Proof.
  fix IH 1. intros [|a [|b [|c [|d [|e bs]]]]] l Hbs; [done| | | | |]; rewrite !Forall_cons in Hbs; unfold byte_ok in Hbs;
    decompose [and] Hbs; cbn [encode32 Z.eqb Pos.eqb]; nonzero_chars base32_nonzero; [done..|].
  by apply IH.
Qed.

Lemma base64_decodes bs : Forall byte_ok bs -> DecodeBase64 (EncodeBase64 bs) = (bs, false).
Proof.
  intros Hbs. unfold DecodeBase64, EncodeBase64. rewrite c_str_nonzero by (by apply encode64_nonzero).
  destruct (decode_encode64 bs 0 0 Hbs) as (left_ & -> & Hl). pose proof (Nat.mod_upper_bound (length bs) 3 ltac:(lia)).
  destruct (mod3 bs) as [|[|[|]]]; [done| | |lia]; rewrite Hl by lia; reflexivity.
Qed.

Lemma base32_decodes bs : Forall byte_ok bs -> DecodeBase32 (EncodeBase32 bs) = (bs, false).
Proof.
  intros Hbs. unfold DecodeBase32, EncodeBase32. rewrite c_str_nonzero by (by apply encode32_nonzero).
  destruct (decode_encode32 bs 0 0 Hbs) as (left_ & -> & Hl). pose proof (Nat.mod_upper_bound (length bs) 5 ltac:(lia)).
  destruct (mod5 bs) as [|[|[|[|[|]]]]]; [done| | | | |lia]; rewrite Hl by lia; reflexivity.
Qed.

(** ** Hexadecimal text *)

Definition hex_char (i : Z) : Z := nth (Z.to_nat i) hexmap 0.

Lemma HexDigit_char i : 0 <= i < 2 ^ 4 -> HexDigit (hex_char i) = i.
Proof. apply (table_index _ _ 16). vm_compute. reflexivity. Qed.

Lemma HexStr_cons b vch : HexStr (b :: vch) = hex_char (Z.shiftr b 4) :: hex_char (Z.land b 15) :: HexStr vch.
Proof. reflexivity. Qed.

Lemma hex_char_plain i : 0 <= i < 2 ^ 4 -> negb (hex_char i =? 0) = true /\ isspace (hex_char i) = false.
Proof.
  intros Hi. pose proof (HexDigit_char i Hi) as H. unfold HexDigit, isdigit, isspace in *.
  destruct ((48 <=? hex_char i) && (hex_char i <=? 57)) eqn:?; [lia|].
  destruct ((65 <=? hex_char i) && (hex_char i <=? 70)) eqn:?; [lia|].
  destruct ((97 <=? hex_char i) && (hex_char i <=? 102)) eqn:?; lia.
Qed.

Lemma HexStr_nonzero vch : Forall byte_ok vch -> forallb (fun c => negb (c =? 0)) (HexStr vch) = true.
Proof.
  induction 1 as [|b vch Hb _ IH]; [done|]. unfold byte_ok in Hb. rewrite HexStr_cons. cbn [forallb]. mask_ones.
  rewrite !(fun i H => proj1 (hex_char_plain i H)) by field_range. done.
Qed.

Lemma length_HexStr vch : length (HexStr vch) = (2 * length vch)%nat.
Proof. induction vch as [|b vch IH]; [done|]. rewrite HexStr_cons. cbn [length]. lia. Qed.

Lemma ParseHex_HexStr vch : Forall byte_ok vch -> ParseHex (HexStr vch) = vch.
Proof.
  intros Hv. unfold ParseHex. rewrite c_str_nonzero by (by apply HexStr_nonzero).
  assert (H : forall fuel, (length vch <= fuel)%nat -> ParseHex_loop fuel (HexStr vch) = vch).
  { induction Hv as [|b vch Hb _ IH]; intros fuel Hf; [by destruct fuel|]. destruct fuel as [|fuel]; [cbn in Hf; lia|].
    pose proof Hb as Hb'. unfold byte_ok in Hb'.
    rewrite HexStr_cons. cbn [ParseHex_loop skip_while]. mask_ones.
    assert (isspace (hex_char (Z.shiftr b 4)) = false) as -> by (apply hex_char_plain; field_range).
    rewrite !HexDigit_char by field_range.
    pose proof (shiftr_range b 4 8 ltac:(lia) Hb'). pose proof (land_range b 4 ltac:(lia)).
    rewrite !(proj2 (Z.eqb_neq _ (-1))) by lia. rewrite split_join, IH by (cbn in Hf; lia). done. }
  apply H. rewrite length_HexStr. lia.
Qed.

Lemma IsHex_HexStr vch : Forall byte_ok vch -> vch <> [] -> IsHex (HexStr vch) = true.
Proof.
  intros Hv Hne. unfold IsHex. rewrite length_HexStr, Nat.even_mul. apply andb_true_intro; split; [apply andb_true_intro; split|done].
  - clear Hne. induction Hv as [|b vch Hb _ IH]; [done|]. unfold byte_ok in Hb. rewrite HexStr_cons. cbn [forallb]. mask_ones.
    rewrite !HexDigit_char by field_range. pose proof (shiftr_range b 4 8 ltac:(lia) Hb). pose proof (land_range b 4 ltac:(lia)).
    rewrite !(proj2 (Z.ltb_ge _ 0)) by lia. done.
  - apply Nat.ltb_lt. destruct vch; [done|cbn; lia].
Qed.

(** The text encodings of bytes are inverted by their decoders: hexadecimal
    text is recognised and read back, base 64 and base 32 come back with the
    padding accepted. *)
Theorem encodings_roundtrip vch : Forall byte_ok vch ->
  ParseHex (HexStr vch) = vch /\ (vch <> [] -> IsHex (HexStr vch) = true) /\
  DecodeBase64 (EncodeBase64 vch) = (vch, false) /\ DecodeBase32 (EncodeBase32 vch) = (vch, false).
Proof.
  intros H. split; [by apply ParseHex_HexStr|]. split; [by apply IsHex_HexStr|].
  split; [by apply base64_decodes|by apply base32_decodes].
Qed.

(** ** Comparison in constant time *)

Lemma lor_fold_zero l x : fold_left Z.lor l x = 0 <-> x = 0 /\ Forall (fun y => y = 0) l.
Proof.
  revert x. induction l as [|y l IH]; intros x; cbn [fold_left]; [by rewrite Forall_nil; tauto|].
  rewrite IH, Z.lor_eq_0_iff, Forall_cons. tauto.
Qed.

Lemma TimingResistantEqual_spec a b : TimingResistantEqual a b = true <-> a = b.
Proof.
  unfold TimingResistantEqual. destruct (Nat.eqb_spec (length b) 0) as [Hb|Hb].
  - destruct b; [|done]. rewrite Nat.eqb_eq. by destruct a.
  - rewrite Z.eqb_eq.
    replace (fold_left _ _ _) with (fold_left Z.lor
      (map (fun i => Z.lxor (nth i a 0) (nth (i mod length b) b 0)) (seq 0 (length a))) (Z.lxor (Z.of_nat (length a)) (Z.of_nat (length b))))
      by (generalize (Z.lxor (Z.of_nat (length a)) (Z.of_nat (length b))); generalize (seq 0 (length a)) as l;
          induction l as [|i l IH]; intros x; cbn; [done|]; apply IH).
    rewrite lor_fold_zero, Z.lxor_eq_0_iff, Forall_map, Forall_forall. split.
    + intros [Hl Hi]. apply (list_eq_nth a b 0); [lia|]. intros i Hil. specialize (Hi i).
      cbn beta in Hi. rewrite Z.lxor_eq_0_iff, Nat.mod_small in Hi by lia. apply Hi. apply elem_of_seq. lia.
    + intros ->. split; [done|]. intros i Hi%elem_of_seq. rewrite Nat.mod_small by lia. apply Z.lxor_nilpotent.
Qed.

(** ** Decimal integers *)

Lemma span_digits ds : Forall (fun c => isdigit c = true) ds -> span isdigit ds = (ds, []).
Proof. induction 1 as [|c ds Hc _ IH]; [done|]. cbn. by rewrite Hc, IH. Qed.

Lemma strtoll_digits (neg : bool) ds : Forall (fun c => isdigit c = true) ds -> ds <> [] ->
  let v := if neg then - dec_value ds else dec_value ds in
  - 2 ^ 63 <= v < 2 ^ 63 -> strtoll (if neg then 45 :: ds else ds) = (v, [], false).
Proof.
  intros Hds Hne v Hv. unfold strtoll.
  assert (read_sign (skip_while isspace (if neg then 45 :: ds else ds)) = (neg, ds)) as ->.
  { destruct neg; [done|]. destruct ds as [|c ds]; [done|]. apply Forall_inv in Hds.
    apply isdigit_facts in Hds as (_ & _ & Hsp & Hr). cbn. rewrite Hsp. cbn.
    rewrite (proj2 (Z.eqb_neq c 45)), (proj2 (Z.eqb_neq c 43)) by lia. done. }
  rewrite span_digits, bool_decide_false by done. fold v.
  rewrite (proj2 (Z.ltb_ge _ _)), (proj2 (Z.ltb_ge _ _)) by lia. done.
Qed.

Lemma print_dec_spec n : 0 <= n < 10 ^ 19 ->
  Forall (fun c => isdigit c = true) (print_dec n) /\ print_dec n <> [] /\ dec_value (print_dec n) = n.
Proof.
  intros Hn. destruct (count_digits_spec 18 n Hn) as (H1 & H2 & _). unfold print_dec. split; [apply digits_isdigit|].
  split; [intros E%(f_equal length); rewrite length_digits in E; cbn [length] in E; lia|]. rewrite digits_value by lia. apply Z.mod_small. lia.
Qed.

Lemma c_str_all_digits ds : Forall (fun c => isdigit c = true) ds -> c_str ds = ds.
Proof. intros H. rewrite <- (app_nil_r ds) at 1. rewrite c_str_digits by done. apply app_nil_r. Qed.

Lemma ParsePrechecks_digits (neg : bool) ds : Forall (fun c => isdigit c = true) ds -> ds <> [] ->
  ParsePrechecks (if neg then 45 :: ds else ds) = true.
Proof.
  intros Hds Hne. unfold ParsePrechecks.
  assert (Hlast : isspace (List.last (if neg then 45 :: ds else ds) 0) = false).
  { assert (isdigit (List.last ds 0) = true) as Hl.
    { destruct (exists_last Hne) as (l & x & ->). rewrite List.last_last. apply Forall_app in Hds as [_ Hx]. by apply Forall_inv in Hx. }
    destruct neg; [destruct ds; [done|]|]; by apply isdigit_facts. }
  assert (Hfirst : isspace (nth 0 (if neg then 45 :: ds else ds) 0) = false).
  { destruct neg; [done|]. destruct ds as [|c ds]; [done|]. apply Forall_inv in Hds. by apply isdigit_facts. }
  rewrite Hlast, Hfirst, bool_decide_false by (by destruct neg). cbn [negb orb andb].
  apply Nat.eqb_eq. destruct neg; cbn [c_str Z.eqb]; by rewrite c_str_all_digits.
Qed.

Lemma ParseInt64_i64tostr n : - 2 ^ 63 <= n < 2 ^ 63 -> ParseInt64 (i64tostr n) = Some n.
Proof.
  intros Hn. unfold i64tostr, ParseInt64.
  destruct (print_dec_spec (Z.abs n) ltac:(lia)) as (Hd & Hne & Hv).
  replace (if n <? 0 then 45 :: print_dec (- n) else print_dec n) with
    (if n <? 0 then 45 :: print_dec (Z.abs n) else print_dec (Z.abs n)) by (destruct (Z.ltb_spec n 0); [rewrite Z.abs_neq by lia|rewrite Z.abs_eq by lia]; done).
  rewrite ParsePrechecks_digits by done. cbn [negb].
  replace (c_str (if n <? 0 then 45 :: print_dec (Z.abs n) else print_dec (Z.abs n)))
    with (if n <? 0 then 45 :: print_dec (Z.abs n) else print_dec (Z.abs n))
    by (destruct (n <? 0); cbn [c_str Z.eqb]; by rewrite c_str_all_digits).
  assert ((if n <? 0 then - Z.abs n else Z.abs n) = n) as En by (destruct (Z.ltb_spec n 0); lia).
  rewrite strtoll_digits by (done || (rewrite Hv, En; lia)). rewrite Hv, En, bool_decide_true by done. cbn [andb negb].
  replace ((- 2 ^ 63 <=? n) && (n <=? 2 ^ 63 - 1)) with true by lia. done.
Qed.

Lemma atoi64_digits ds : Forall (fun c => isdigit c = true) ds -> ds <> [] -> dec_value ds < 2 ^ 63 -> 0 <= dec_value ds ->
  atoi64 ds = dec_value ds.
Proof.
  intros Hds Hne Hb H0. unfold atoi64. rewrite c_str_all_digits by done.
  rewrite (strtoll_digits false ds Hds Hne) by (cbn; lia). done.
Qed.

Lemma atoi64_print n : 0 <= n < 2 ^ 63 -> atoi64 (print_dec n) = n.
Proof.
  intros Hn. destruct (print_dec_spec n ltac:(lia)) as (Hd & Hne & Hv).
  rewrite atoi64_digits by (done || lia). done.
Qed.
