(* ===== verification/FixedPoint.v ===== *)
(** * Fixed-point numbers ([ParseFixedPoint] of [src/utilstrencodings.cpp])

    The parser of JSON numbers into amounts of [10^-decimals].  The loops read
    the characters left; the mantissa and the exponent are [int64_t] and are
    proved never to leave it. *)

From Stdlib Require Import String.
From stdpp Require Import list.
From S2P Require Import Prelude Text StrEncodings.

Definition UPPER_BOUND : Z := 1000000000000000000 - 1.

(** [n] multiplications by ten, each with its overflow check. *)
Fixpoint times10 (over : Z -> bool) (n : nat) (mantissa : Z) : option Z :=
  match n with
  | O => Some mantissa
  | S n => if over mantissa then None else times10 over n (mantissa * 10)
  end.

Definition ProcessMantissaDigit (ch mantissa : Z) (mantissa_tzeros : nat) : option (Z * nat) :=
  if ch =? 48 then Some (mantissa, S mantissa_tzeros)
  else
    m ← times10 (fun m => m >? Z.quot UPPER_BOUND 10) (S mantissa_tzeros) mantissa;
    Some (m + (ch - 48), 0%nat).

(** A run of digits: mantissa, trailing zeros, number of digits, rest. *)
Fixpoint mantissa_digits (s : list Z) (mantissa : Z) (mantissa_tzeros ofs : nat) : option (Z * nat * nat * list Z) :=
  match s with
  | c :: s' =>
      if isdigit c then
        '(m, tz) ← ProcessMantissaDigit c mantissa mantissa_tzeros; mantissa_digits s' m tz (S ofs)
      else Some (mantissa, mantissa_tzeros, ofs, s)
  | [] => Some (mantissa, mantissa_tzeros, ofs, [])
  end.

Fixpoint exponent_digits (s : list Z) (exponent : Z) : option (Z * list Z) :=
  match s with
  | c :: s' =>
      if isdigit c then
        if exponent >? Z.quot UPPER_BOUND 10 then None else exponent_digits s' (exponent * 10 + c - 48)
      else Some (exponent, s)
  | [] => Some (exponent, [])
  end.

Definition first_digit (s : list Z) : bool := match s with c :: _ => isdigit c | [] => false end.

Definition parse_integer_part (s : list Z) : option (Z * nat * list Z) :=
  match s with
  | c :: s' =>
      if c =? 48 then Some (0, 0%nat, s')
      else if (49 <=? c) && (c <=? 57) then '(m, tz, _, rest) ← mantissa_digits s 0 0 0; Some (m, tz, rest)
      else None
  | [] => None
  end.

Definition parse_fraction (s : list Z) (mantissa : Z) (tz : nat) : option (Z * nat * nat * list Z) :=
  match s with
  | c :: s' =>
      if c =? 46 then if first_digit s' then mantissa_digits s' mantissa tz 0 else None
      else Some (mantissa, tz, 0%nat, s)
  | [] => Some (mantissa, tz, 0%nat, [])
  end.

(** The signed exponent. *)
Definition parse_exponent (s : list Z) : option (Z * list Z) :=
  match s with
  | c :: s' =>
      if (c =? 101) || (c =? 69) then
        let '(exponent_sign, s') := read_sign s' in
        if first_digit s' then
          '(exponent, rest) ← exponent_digits s' 0; Some (if exponent_sign then - exponent else exponent, rest)
        else None
      else Some (0, s)
  | [] => Some (0, [])
  end.

Definition ParseFixedPoint (val : list Z) (decimals : Z) : option Z :=
  let '(mantissa_sign, s) :=
    match val with c :: s => if c =? 45 then (true, s) else (false, val) | [] => (false, []) end in
  '(mantissa, tz, s) ← parse_integer_part s;
  '(mantissa, tz, point_ofs, s) ← parse_fraction s mantissa tz;
  '(exponent, s) ← parse_exponent s;
  if negb (bool_decide (s = [])) then None
  else
    let exponent := exponent - Z.of_nat point_ofs + Z.of_nat tz + decimals in
    let mantissa := if mantissa_sign then - mantissa else mantissa in
    if (exponent <? 0) || (exponent >=? 18) then None
    else
      m ← times10 (fun m => (m >? 420000000000000000) || (m <? - Z.quot UPPER_BOUND 10)) (Z.to_nat exponent) mantissa;
      if (m >? 4200000000000000000) || (m <? - UPPER_BOUND) then None else Some m.

(** ** The numbers the parser reads *)

(** Whole part: a zero, or digits that do not start with one. *)
Definition whole_ok (ip : list Z) : Prop :=
  ip = [48] \/ (Forall (fun c => isdigit c = true) ip /\ exists c ip', ip = c :: ip' /\ c <> 48).

Inductive exponent_text : Z -> list Z -> Prop :=
| no_exponent : exponent_text 0 []
| plus_exponent c ds :
    c = 101 \/ c = 69 -> Forall (fun c => isdigit c = true) ds -> ds <> [] -> exponent_text (dec_value ds) (c :: 43 :: ds)
| plain_exponent c ds :
    c = 101 \/ c = 69 -> Forall (fun c => isdigit c = true) ds -> ds <> [] -> exponent_text (dec_value ds) (c :: ds)
| minus_exponent c ds :
    c = 101 \/ c = 69 -> Forall (fun c => isdigit c = true) ds -> ds <> [] -> exponent_text (- dec_value ds) (c :: 45 :: ds).

Definition fraction_text (fp : list Z) : list Z := if bool_decide (fp = []) then [] else 46 :: fp.

Record number_text (neg : bool) (ip fp : list Z) (e : Z) (val : list Z) : Prop := {
  nt_whole : whole_ok ip;
  nt_fraction : Forall (fun c => isdigit c = true) fp;
  nt_text : exists et, exponent_text e et /\
    val = (if neg then [45] else []) ++ ip ++ fraction_text fp ++ et
}.

(** [val] denotes [v] units of [10^-decimals]. *)
Definition denotes (neg : bool) (ip fp : list Z) (e decimals v : Z) : Prop :=
  let E := e + decimals - Z.of_nat (length fp) in
  v * 10 ^ Z.max 0 (- E) = (if neg then -1 else 1) * dec_value (ip ++ fp) * 10 ^ Z.max 0 E.

(** ** Digits *)

Lemma times10_spec over n m r : times10 over n m = Some r -> r = m * 10 ^ Z.of_nat n.
Proof.
  revert m. induction n as [|n IH]; intros m; cbn [times10]; [intros [= <-]; cbn; lia|].
  destruct (over m); [done|]. intros ->%IH. rewrite Nat2Z.inj_succ, Z.pow_succ_r by lia. ring.
Qed.

Lemma times10_total over n m :
  (forall i, (i < n)%nat -> over (m * 10 ^ Z.of_nat i) = false) -> times10 over n m = Some (m * 10 ^ Z.of_nat n).
Proof.
  revert m. induction n as [|n IH]; intros m H; cbn [times10]; [f_equal; cbn; lia|].
  pose proof (H 0%nat ltac:(lia)) as H0. rewrite Z.mul_1_r in H0. rewrite H0, IH.
  - f_equal. rewrite Nat2Z.inj_succ, Z.pow_succ_r by lia. ring.
  - intros i Hi. rewrite <- (H (S i)) by lia. f_equal. rewrite Nat2Z.inj_succ, Z.pow_succ_r by lia. ring.
Qed.

Lemma times10_last over n m r : times10 over (S n) m = Some r -> over (m * 10 ^ Z.of_nat n) = false.
Proof.
  revert m. induction n as [|n IH]; intros m; cbn [times10].
  - rewrite Z.mul_1_r. by destruct (over m).
  - destruct (over m); [done|]. intros H. rewrite Nat2Z.inj_succ, Z.pow_succ_r, Z.mul_assoc by lia. by apply IH.
Qed.

(** Mantissa and trailing zeros stand for the number read so far. *)
Record mantissa_ok (m : Z) (tz : nat) (D : Z) : Prop := {
  mo_value : m * 10 ^ Z.of_nat tz = D;
  mo_range : 0 <= m <= UPPER_BOUND;
  mo_stripped : m = 0 \/ m mod 10 <> 0
}.

(** A number of at most 18 digits and any number of zeros after them. *)
Definition fits (D : Z) : Prop := exists m k, 0 <= m <= UPPER_BOUND /\ 0 <= k /\ D = m * 10 ^ k.

Lemma fits_prefix P r R : 0 <= r -> 0 <= P -> 0 <= R < 10 ^ r -> fits (P * 10 ^ r + R) -> P mod 10 <> 0 -> P <= UPPER_BOUND.
Proof.
  intros Hr HP HR (m & k & Hm & Hk & E) Hmod. destruct (decide (k <= r)).
  - replace r with (k + (r - k)) in E by lia. rewrite Z.pow_add_r in E by lia.
    assert (0 < 10 ^ k /\ 0 < 10 ^ (r - k)) as [Ha Hb] by (split; apply Z.pow_pos_nonneg; lia).
    assert (P * 10 ^ (r - k) <= m) by (apply (Z.mul_le_mono_pos_r _ _ (10 ^ k)); lia). nia.
  - exfalso. replace k with (r + 1 + (k - r - 1)) in E by lia. rewrite !Z.pow_add_r in E by lia.
    set (q := 10 ^ (k - r - 1)) in *. change (10 ^ 1) with 10 in E. assert (0 < 10 ^ r) by (apply Z.pow_pos_nonneg; lia).
    assert (R = 10 ^ r * (m * q * 10 - P)) as HR' by lia.
    assert (m * q * 10 - P = 0) as E0 by nia. apply Hmod. replace P with (m * q * 10) by lia. apply Z_mod_mult.
Qed.

Lemma digit_mod q c : 48 <= c <= 57 -> (q * 10 + (c - 48)) mod 10 = c - 48.
Proof. intros. rewrite Z.add_comm, Z_mod_plus_full. apply Z.mod_small. lia. Qed.

Lemma ProcessMantissaDigit_ok c m tz D r :
  isdigit c = true -> mantissa_ok m tz D -> ProcessMantissaDigit c m tz = Some r -> mantissa_ok r.1 r.2 (D * 10 + (c - 48)).
Proof.
  intros Hc [Hv Hr Hs]. apply isdigit_facts in Hc as (_ & _ & _ & Hc). unfold ProcessMantissaDigit.
  destruct (Z.eqb_spec c 48) as [->|Hne].
  - intros [= <-]. split; cbn [fst snd]; [|done..]. rewrite Nat2Z.inj_succ, Z.pow_succ_r by lia. lia.
  - destruct (times10 _ _ m) as [m'|] eqn:E; [|done]. cbn. intros [= <-].
    pose proof (times10_last _ _ _ _ E) as Hb. cbn beta in Hb. rewrite Hv in Hb.
    apply times10_spec in E. rewrite Nat2Z.inj_succ, Z.pow_succ_r in E by lia.
    assert (m' = D * 10) as -> by lia. assert (0 <= D) by nia.
    split; cbn [fst snd]; [cbn; lia| |right; rewrite digit_mod; lia].
    revert Hb. unfold UPPER_BOUND. rewrite Z.gtb_ltb. change (Z.quot (1000000000000000000 - 1) 10) with 99999999999999999. lia.
Qed.

Lemma ProcessMantissaDigit_total c m tz D r R :
  isdigit c = true -> mantissa_ok m tz D -> 0 <= r -> 0 <= R < 10 ^ r -> fits ((D * 10 + (c - 48)) * 10 ^ r + R) ->
  exists x, ProcessMantissaDigit c m tz = Some x.
Proof.
  intros Hc [Hv Hr Hs] Hr0 HR Hfit. apply isdigit_facts in Hc as (_ & _ & _ & Hc). unfold ProcessMantissaDigit.
  destruct (Z.eqb_spec c 48); [by eexists|]. assert (0 <= D) by nia.
  pose proof (fits_prefix (D * 10 + (c - 48)) r R Hr0 ltac:(lia) HR Hfit ltac:(rewrite digit_mod; lia)) as HP.
  rewrite times10_total; [by eexists|]. intros i Hi. rewrite Z.gtb_ltb. apply Z.ltb_ge.
  assert (m * 10 ^ Z.of_nat i <= D).
  { rewrite <- Hv. apply Z.mul_le_mono_nonneg_l; [lia|]. apply Z.pow_le_mono_r; lia. }
  revert HP. unfold UPPER_BOUND. change (Z.quot (1000000000000000000 - 1) 10) with 99999999999999999. lia.
Qed.

Lemma dec_value_bound ds : Forall (fun c => isdigit c = true) ds -> 0 <= dec_value ds < 10 ^ Z.of_nat (length ds).
Proof.
  induction 1 as [|c ds Hc _ IH]; [cbn; lia|]. apply isdigit_facts in Hc as (_ & _ & _ & Hc).
  rewrite dec_value_cons. cbn [length]. rewrite Nat2Z.inj_succ, Z.pow_succ_r by lia. nia.
Qed.

(** A run of digits is read to its end. *)
Lemma mantissa_digits_ok s : forall m tz ofs D r,
  mantissa_ok m tz D -> mantissa_digits s m tz ofs = Some r ->
  exists ds, s = ds ++ r.2 /\ Forall (fun c => isdigit c = true) ds /\ r.1.2 = (ofs + length ds)%nat /\
    first_digit r.2 = false /\ mantissa_ok r.1.1.1 r.1.1.2 (D * 10 ^ Z.of_nat (length ds) + dec_value ds).
Proof.
  induction s as [|c s IH]; intros m tz ofs D r Hm; cbn [mantissa_digits].
  - intros [= <-]. exists []. cbn. rewrite Nat.add_0_r, Z.mul_1_r, Z.add_0_r. do 4 (split; [done|]). done.
  - destruct (isdigit c) eqn:Hc.
    + destruct (ProcessMantissaDigit c m tz) as [[m' tz']|] eqn:E; [|done]. cbn [mbind option_bind].
      intros H. pose proof (ProcessMantissaDigit_ok _ _ _ _ _ Hc Hm E) as Hm'.
      destruct (IH _ _ _ _ _ Hm' H) as (ds & -> & Hds & Hl & Hf & Hok). exists (c :: ds).
      split; [done|]. split; [by constructor|]. split; [cbn; lia|]. split; [done|].
      rewrite dec_value_cons. cbn [length]. rewrite Nat2Z.inj_succ, Z.pow_succ_r by lia.
      replace (D * (10 * 10 ^ Z.of_nat (length ds)) + ((c - 48) * 10 ^ Z.of_nat (length ds) + dec_value ds))
        with ((D * 10 + (c - 48)) * 10 ^ Z.of_nat (length ds) + dec_value ds) by ring. done.
    + intros [= <-]. exists []. cbn. rewrite Nat.add_0_r, Z.mul_1_r, Z.add_0_r. do 4 (split; [done|]). done.
Qed.

Lemma mantissa_digits_total ds : forall rest m tz ofs D r R,
  Forall (fun c => isdigit c = true) ds -> first_digit rest = false -> mantissa_ok m tz D -> 0 <= r -> 0 <= R < 10 ^ r ->
  fits ((D * 10 ^ Z.of_nat (length ds) + dec_value ds) * 10 ^ r + R) ->
  exists m' tz', mantissa_digits (ds ++ rest) m tz ofs = Some (m', tz', (ofs + length ds)%nat, rest) /\
    mantissa_ok m' tz' (D * 10 ^ Z.of_nat (length ds) + dec_value ds).
Proof.
  induction ds as [|c ds IH]; intros rest m tz ofs D r R Hds Hrest Hm Hr HR Hfit.
  - exists m, tz. cbn [app length]. rewrite Nat.add_0_r. split.
    + destruct rest as [|c rest]; [done|]. cbn [mantissa_digits]. cbn in Hrest. by rewrite Hrest.
    + cbn. by rewrite Z.mul_1_r, Z.add_0_r.
  - apply Forall_cons in Hds as [Hc Hds]. cbn [app mantissa_digits]. rewrite Hc.
    rewrite dec_value_cons in *. cbn [length] in *. rewrite Nat2Z.inj_succ, Z.pow_succ_r in * by lia.
    pose proof (dec_value_bound ds Hds) as Hb.
    replace (D * (10 * 10 ^ Z.of_nat (length ds)) + ((c - 48) * 10 ^ Z.of_nat (length ds) + dec_value ds))
      with ((D * 10 + (c - 48)) * 10 ^ Z.of_nat (length ds) + dec_value ds) in * by ring.
    destruct (ProcessMantissaDigit_total c m tz D (Z.of_nat (length ds) + r) (dec_value ds * 10 ^ r + R) Hc Hm) as [[m' tz'] E];
      [lia|rewrite Z.pow_add_r by lia; nia|rewrite Z.pow_add_r by lia; by replace (_ + (_ * _ + R)) with
        (((D * 10 + (c - 48)) * 10 ^ Z.of_nat (length ds) + dec_value ds) * 10 ^ r + R) by ring|].
    rewrite E. cbn [mbind option_bind]. pose proof (ProcessMantissaDigit_ok _ _ _ _ _ Hc Hm E) as Hm'.
    destruct (IH rest m' tz' (S ofs) _ r R Hds Hrest Hm' Hr HR Hfit) as (m2 & tz2 & E2 & Hok).
    exists m2, tz2. split; [|done]. rewrite E2. do 3 f_equal. lia.
Qed.

(** ** The three parts *)

Lemma exponent_digits_ok s : forall x r, 0 <= x -> exponent_digits s x = Some r ->
  exists ds, s = ds ++ r.2 /\ Forall (fun c => isdigit c = true) ds /\ r.1 = x * 10 ^ Z.of_nat (length ds) + dec_value ds.
Proof.
  induction s as [|c s IH]; intros x r Hx; cbn [exponent_digits].
  - intros [= <-]. exists []. cbn. split; [done|]. split; [constructor|lia].
  - destruct (isdigit c) eqn:Hc.
    + destruct (_ >? _); [done|]. pose proof (isdigit_facts c Hc) as (_ & _ & _ & Hr). intros H.
      apply IH in H as (ds & -> & Hds & ->); [|lia]. exists (c :: ds).
      split; [done|]. split; [by constructor|]. rewrite dec_value_cons. cbn [length].
      rewrite Nat2Z.inj_succ, Z.pow_succ_r by lia. ring.
    + intros [= <-]. exists []. cbn. split; [done|]. split; [constructor|lia].
Qed.

Lemma exponent_digits_total ds : forall x, 0 <= x -> Forall (fun c => isdigit c = true) ds ->
  x * 10 ^ Z.of_nat (length ds) + dec_value ds < 10 ^ 17 ->
  exponent_digits ds x = Some (x * 10 ^ Z.of_nat (length ds) + dec_value ds, []).
Proof.
  induction ds as [|c ds IH]; intros x Hx Hds Hb; cbn [exponent_digits]; [do 2 f_equal; cbn; lia|].
  apply Forall_cons in Hds as [Hc Hds]. rewrite Hc. pose proof (isdigit_facts c Hc) as (_ & _ & _ & Hr).
  pose proof (dec_value_bound ds Hds). rewrite dec_value_cons in *. cbn [length] in *.
  rewrite Nat2Z.inj_succ, Z.pow_succ_r in * by lia.
  replace (x * (10 * 10 ^ Z.of_nat (length ds)) + ((c - 48) * 10 ^ Z.of_nat (length ds) + dec_value ds))
    with ((x * 10 + c - 48) * 10 ^ Z.of_nat (length ds) + dec_value ds) in * by ring.
  assert (0 < 10 ^ Z.of_nat (length ds)) by (apply Z.pow_pos_nonneg; lia).
  rewrite Z.gtb_ltb, (proj2 (Z.ltb_ge _ _)); [apply IH; [lia|done..]|].
  change (Z.quot UPPER_BOUND 10) with 99999999999999999. assert (x * 10 + c - 48 < 10 ^ 17) by nia. lia.
Qed.

Lemma parse_exponent_ok s e : parse_exponent s = Some (e, []) -> exponent_text e s.
Proof.
  destruct s as [|c s]; cbn [parse_exponent]; [intros [= <-]; constructor|].
  destruct ((c =? 101) || (c =? 69)) eqn:Hc; [|done]. assert (c = 101 \/ c = 69) as Hc' by lia.
  destruct s as [|d s]; [done|]. cbn [read_sign].
  assert (Hgen : forall (neg : bool) t, first_digit t = true ->
    ('(exponent, rest) ← exponent_digits t 0; Some (if neg then - exponent else exponent, rest)) = Some (e, []) ->
    Forall (fun c => isdigit c = true) t /\ t <> [] /\ e = if neg then - dec_value t else dec_value t).
  { intros neg t Ht. destruct (exponent_digits t 0) as [[x rest]|] eqn:E; [|done]. cbn. intros [= <- ->].
    apply exponent_digits_ok in E as (ds & Et & Hds & Ex); [|lia]. cbn in Et, Ex. rewrite app_nil_r in Et. subst ds x.
    split; [done|]. split; [by destruct t|done]. }
  destruct (Z.eqb_spec d 45) as [->|]; [|destruct (Z.eqb_spec d 43) as [->|]].
  - destruct (first_digit s) eqn:Hf; [|done]. intros (? & ? & ->)%(Hgen true); [|done]. by constructor.
  - destruct (first_digit s) eqn:Hf; [|done]. intros (? & ? & ->)%(Hgen false); [|done]. by constructor.
  - destruct (first_digit (d :: s)) eqn:Hf; [|done]. intros (? & ? & ->)%(Hgen false); [|done]. by constructor.
Qed.

Lemma parse_exponent_total s e : exponent_text e s -> Z.abs e < 10 ^ 17 -> parse_exponent s = Some (e, []).
Proof.
  assert (Hc : forall c : Z, c = 101 \/ c = 69 -> ((c =? 101) || (c =? 69)) = true) by (intros; lia).
  assert (Hf : forall ds, Forall (fun c => isdigit c = true) ds -> ds <> [] -> first_digit ds = true)
    by (intros [|] [|]; done).
  destruct 1 as [|c ds H1 H2 H3|c ds H1 H2 H3|c ds H1 H2 H3]; intros Hb; [done|..]; cbn [parse_exponent];
    rewrite Hc by done.
  - cbn [read_sign Z.eqb Pos.eqb]. rewrite Hf by done. rewrite exponent_digits_total by (done || lia). done.
  - pose proof (Hf ds H2 H3) as Hfd. destruct ds as [|d ds]; [done|]. cbn [read_sign].
    pose proof (Forall_inv H2) as Hd. apply isdigit_facts in Hd as (_ & _ & _ & Hd).
    rewrite (proj2 (Z.eqb_neq d 45)), (proj2 (Z.eqb_neq d 43)), Hfd by lia.
    rewrite exponent_digits_total by (done || lia). done.
  - cbn [read_sign Z.eqb Pos.eqb]. rewrite Hf by done.
    pose proof (dec_value_bound ds H2). rewrite exponent_digits_total by (done || lia). done.
Qed.

Lemma mantissa_ok_0 : mantissa_ok 0 0 0.
Proof. split; [done|unfold UPPER_BOUND; lia|by left]. Qed.

Lemma parse_integer_part_ok s r : parse_integer_part s = Some r ->
  exists ip, s = ip ++ r.2 /\ whole_ok ip /\ mantissa_ok r.1.1 r.1.2 (dec_value ip).
Proof.
  destruct s as [|c s]; cbn [parse_integer_part]; [done|]. destruct (Z.eqb_spec c 48) as [->|Hne].
  - intros [= <-]. exists [48]. split; [done|]. split; [by left|]. apply mantissa_ok_0.
  - destruct ((49 <=? c) && (c <=? 57)) eqn:Hc; [|done].
    destruct (mantissa_digits (c :: s) 0 0 0) as [[[[m tz] n] rest]|] eqn:E; [|done]. cbn. intros [= <-].
    apply (mantissa_digits_ok _ _ _ _ 0) in E as (ds & Es & Hds & _ & Hl & Hok); [|apply mantissa_ok_0]. cbn in *.
    exists ds. split; [done|]. split; [|done]. right. split; [done|].
    destruct ds as [|d ds]; [|injection Es as -> _; by eexists _, _].
    cbn in Es, Hl. subst rest. cbn in Hl. unfold isdigit in Hl. lia.
Qed.

Lemma parse_integer_part_total ip rest : whole_ok ip -> first_digit rest = false \/ ip = [48] -> forall r R, 0 <= r -> 0 <= R < 10 ^ r ->
  fits (dec_value ip * 10 ^ r + R) ->
  exists m tz, parse_integer_part (ip ++ rest) = Some (m, tz, rest) /\ mantissa_ok m tz (dec_value ip).
Proof.
  intros [->|[Hd (c & ip' & -> & Hc)]] Hrest r R Hr HR Hfit.
  - exists 0, 0%nat. split; [done|apply mantissa_ok_0].
  - cbn [app parse_integer_part]. rewrite (proj2 (Z.eqb_neq c 48) Hc).
    pose proof (Forall_inv Hd) as Hcd. apply isdigit_facts in Hcd as (_ & _ & _ & Hcd).
    replace ((49 <=? c) && (c <=? 57)) with true by lia. destruct Hrest as [Hrest|[= -> ->]]; [|done].
    change (c :: ip' ++ rest) with ((c :: ip') ++ rest).
    destruct (mantissa_digits_total (c :: ip') rest 0 0 0 0 r R Hd Hrest mantissa_ok_0 Hr HR) as (m & tz & -> & Hok); [done|].
    exists m, tz. split; [done|]. exact Hok.
Qed.

Lemma parse_fraction_ok s m tz D r : mantissa_ok m tz D -> parse_fraction s m tz = Some r ->
  exists fp, s = fraction_text fp ++ r.2 /\ Forall (fun c => isdigit c = true) fp /\ r.1.2 = length fp /\
    mantissa_ok r.1.1.1 r.1.1.2 (D * 10 ^ Z.of_nat (length fp) + dec_value fp).
Proof.
  intros Hm. assert (Hnone : mantissa_ok m tz (D * 10 ^ Z.of_nat (length (@nil Z)) + dec_value []))
    by (cbn; by rewrite Z.mul_1_r, Z.add_0_r).
  destruct s as [|c s]; cbn [parse_fraction]; [intros [= <-]; by exists []|].
  destruct (Z.eqb_spec c 46) as [->|]; [|intros [= <-]; by exists []].
  destruct (first_digit s) eqn:Hf; [|done]. intros E.
  apply (mantissa_digits_ok _ _ _ _ D) in E as (ds & -> & Hds & Hl & Hr & Hok); [|done]. exists ds.
  unfold fraction_text. rewrite bool_decide_false; [done|]. intros ->. cbn in Hf. congruence.
Qed.

Lemma parse_fraction_total fp rest m tz D : Forall (fun c => isdigit c = true) fp -> first_digit rest = false ->
  (fp = [] -> hd 0 rest <> 46) -> mantissa_ok m tz D -> fits (D * 10 ^ Z.of_nat (length fp) + dec_value fp) ->
  exists m' tz', parse_fraction (fraction_text fp ++ rest) m tz = Some (m', tz', length fp, rest) /\
    mantissa_ok m' tz' (D * 10 ^ Z.of_nat (length fp) + dec_value fp).
Proof.
  intros Hfp Hrest Hdot Hm Hfit. unfold fraction_text. destruct (bool_decide_reflect (fp = [])) as [->|Hne].
  - exists m, tz. cbn [length]. split; [|cbn; by rewrite Z.mul_1_r, Z.add_0_r].
    destruct rest as [|c rest]; [done|]. cbn. rewrite (proj2 (Z.eqb_neq c 46)); [done|]. by apply Hdot.
  - cbn [app parse_fraction]. change (46 =? 46) with true. cbn iota.
    assert (first_digit (fp ++ rest) = true) as -> by (destruct fp; [done|by inversion Hfp]).
    apply (mantissa_digits_total fp rest m tz 0 D 0 0); [done..|lia|lia|]. by rewrite Z.mul_1_r, Z.add_0_r.
Qed.

(** ** The result *)

Abbreviation sgn neg := (if neg : bool then -1 else 1).

(** Scaling the mantissa gives the number denoted. *)
Lemma scaled_denotes neg ip fp e decimals m tz x :
  m * 10 ^ Z.of_nat tz = dec_value (ip ++ fp) -> x = e - Z.of_nat (length fp) + Z.of_nat tz + decimals -> 0 <= x ->
  denotes neg ip fp e decimals (sgn neg * m * 10 ^ x).
Proof.
  intros Hm Hx Hx0. unfold denotes. rewrite <- Hm. set (E := e + decimals - Z.of_nat (length fp)).
  rewrite <- !Z.mul_assoc. do 2 f_equal. rewrite <- !Z.pow_add_r by lia. f_equal. lia.
Qed.

(** The number denoted determines the scale. *)
Lemma denotes_scale neg ip fp e decimals m tz v :
  mantissa_ok m tz (dec_value (ip ++ fp)) -> denotes neg ip fp e decimals v -> v <> 0 ->
  let x := e - Z.of_nat (length fp) + Z.of_nat tz + decimals in 0 <= x /\ v = sgn neg * m * 10 ^ x.
Proof.
  intros [Hm Hr Hs] Hd Hv x. unfold denotes in Hd. rewrite <- Hm in Hd.
  set (E := e + decimals - Z.of_nat (length fp)) in *. assert (x = E + Z.of_nat tz) as -> by lia.
  assert (m <> 0) as Hm0. { intros ->. rewrite Z.mul_0_l, Z.mul_0_r, Z.mul_0_l in Hd. apply Z.mul_eq_0 in Hd as [|Hp]; [done|].
    pose proof (Z.pow_pos_nonneg 10 (Z.max 0 (- E))). lia. }
  destruct Hs as [|Hs]; [done|].
  assert (0 <= E + Z.of_nat tz) as Hx.
  { destruct (decide (0 <= E + Z.of_nat tz)); [done|]. exfalso. apply Hs.
    rewrite (Z.max_l 0 E), (Z.max_r 0 (- E)), Z.mul_1_r in Hd by lia.
    replace (- E) with (Z.of_nat tz + 1 + (- E - Z.of_nat tz - 1)) in Hd by lia. rewrite !Z.pow_add_r in Hd by lia.
    set (q := 10 ^ (- E - Z.of_nat tz - 1)) in *. change (10 ^ 1) with 10 in Hd.
    assert (0 < 10 ^ Z.of_nat tz) as Hp by (apply Z.pow_pos_nonneg; lia).
    assert (sgn neg * m = v * q * 10) as E1 by (apply (Z.mul_reg_r _ _ (10 ^ Z.of_nat tz)); lia).
    apply Z.mod_divide; [done|]. exists (sgn neg * (v * q)). destruct neg; lia. }
  split; [done|]. assert (0 < 10 ^ Z.max 0 (- E)) as Hp by (apply Z.pow_pos_nonneg; lia).
  apply (Z.mul_reg_r _ _ (10 ^ Z.max 0 (- E))); [lia|]. rewrite Hd, <- !Z.mul_assoc. do 2 f_equal.
  rewrite <- !Z.pow_add_r by lia. f_equal. lia.
Qed.

Lemma denotes_fits neg ip fp e decimals v : 0 <= dec_value (ip ++ fp) ->
  denotes neg ip fp e decimals v -> Z.abs v <= UPPER_BOUND -> fits (dec_value (ip ++ fp)).
Proof.
  intros HD Hd Hv. unfold denotes in Hd. set (D := dec_value (ip ++ fp)) in *. set (E := e + decimals - Z.of_nat (length fp)) in *.
  assert (Hp : forall k, 0 < 10 ^ Z.max 0 k) by (intros; apply Z.pow_pos_nonneg; lia).
  assert (Habs : Z.abs v * 10 ^ Z.max 0 (- E) = D * 10 ^ Z.max 0 E).
  { pose proof (Hp E). pose proof (Hp (- E)). destruct neg; nia. }
  destruct (decide (E <= 0)).
  - rewrite (Z.max_l 0 E), Z.mul_1_r in Habs by lia. exists (Z.abs v), (Z.max 0 (- E)). lia.
  - rewrite (Z.max_l 0 (- E)), Z.mul_1_r in Habs by lia. exists D, 0. pose proof (Hp E). split; [nia|]. split; [lia|]. cbn; lia.
Qed.

Lemma whole_digits ip : whole_ok ip -> Forall (fun c => isdigit c = true) ip /\ ip <> [].
Proof. intros [->|[H (c & ip' & -> & _)]]; [by repeat constructor|done]. Qed.

Lemma ParseFixedPoint_sound val decimals v :
  ParseFixedPoint val decimals = Some v ->
  - UPPER_BOUND <= v <= 4200000000000000000 /\
  exists neg ip fp e, number_text neg ip fp e val /\ denotes neg ip fp e decimals v.
Proof.
  unfold ParseFixedPoint.
  destruct (match val with [] => _ | _ => _ end) as [neg s] eqn:Es.
  assert (val = (if neg then [45] else []) ++ s) as ->.
  { destruct val as [|c val]; [by injection Es as <- <-|]. destruct (Z.eqb_spec c 45) as [->|]; by injection Es as <- <-. }
  clear Es. destruct (parse_integer_part s) as [[[m tz] s1]|] eqn:E1; [|done]. cbn [mbind option_bind].
  destruct (parse_fraction s1 m tz) as [[[[m2 tz2] ofs] s2]|] eqn:E2; [|done]. cbn [mbind option_bind].
  destruct (parse_exponent s2) as [[e s3]|] eqn:E3; [|done]. cbn [mbind option_bind].
  destruct (bool_decide_reflect (s3 = [])) as [->|]; [|done]. cbn [negb].
  destruct ((_ <? 0) || _) eqn:Hx; [done|]. destruct (times10 _ _ _) as [r|] eqn:Et; [|done]. cbn [mbind option_bind].
  destruct ((r >? _) || _) eqn:Hr; [done|]. intros [= <-]. split; [lia|].
  apply parse_integer_part_ok in E1 as (ip & -> & Hip & Hm). cbn in Hm.
  apply (parse_fraction_ok _ _ _ _ _ Hm) in E2 as (fp & Ef & Hfp & Hl & Hm2). cbn in Ef, Hl, Hm2. subst s1 ofs.
  apply parse_exponent_ok in E3. rewrite <- dec_value_app in Hm2.
  exists neg, ip, fp, e. split; [split; [done|done|by exists s2]|].
  apply times10_spec in Et. rewrite Z2Nat.id in Et by lia. subst r.
  replace (if neg then - m2 else m2) with (sgn neg * m2) by (destruct neg; lia).
  apply (scaled_denotes _ _ _ _ _ _ tz2); [apply Hm2|done|lia].
Qed.

Lemma ParseFixedPoint_complete val decimals neg ip fp e v :
  number_text neg ip fp e val -> denotes neg ip fp e decimals v -> v <> 0 -> Z.abs v <= UPPER_BOUND -> Z.abs e < 10 ^ 17 ->
  ParseFixedPoint val decimals = Some v.
Proof.
  intros [Hip Hfp (et & Het & ->)] Hd Hv Hb He. destruct (whole_digits ip Hip) as [Hipd Hipn].
  assert (Hall : 0 <= dec_value (ip ++ fp)) by (apply dec_value_bound; by apply Forall_app).
  pose proof (denotes_fits _ _ _ _ _ _ Hall Hd Hb) as Hfit. pose proof (dec_value_bound fp Hfp) as Hbf.
  assert (first_digit et = false /\ hd 0 et <> 46) as [Hte Hhd].
  { destruct Het as [|c ds [-> | ->]|c ds [-> | ->]|c ds [-> | ->]]; by split. }
  unfold ParseFixedPoint.
  assert ((match (if neg then [45] else []) ++ ip ++ fraction_text fp ++ et with
           | [] => (false, []) | c :: s => if c =? 45 then (true, s)
             else (false, (if neg then [45] else []) ++ ip ++ fraction_text fp ++ et) end) = (neg, ip ++ fraction_text fp ++ et)) as ->.
  { destruct neg; [done|]. destruct ip as [|c ip]; [done|]. apply Forall_inv in Hipd. apply isdigit_facts in Hipd as (_ & _ & _ & ?).
    cbn [app]. rewrite (proj2 (Z.eqb_neq c 45)) by lia. done. }
  rewrite dec_value_app in Hfit.
  destruct (parse_integer_part_total ip (fraction_text fp ++ et) Hip) with (r := Z.of_nat (length fp)) (R := dec_value fp)
    as (m & tz & -> & Hm); [left; by destruct fp|lia|done|done|]. cbn [mbind option_bind].
  destruct (parse_fraction_total fp et m tz (dec_value ip) Hfp Hte (fun _ => Hhd) Hm Hfit) as (m2 & tz2 & -> & Hm2).
  cbn [mbind option_bind]. rewrite (parse_exponent_total et e Het He). cbn [mbind option_bind].
  rewrite bool_decide_true by done. cbn [negb]. rewrite <- dec_value_app in Hm2.
  destruct (denotes_scale _ _ _ _ _ _ _ _ Hm2 Hd Hv) as [Hx Ev]. set (x := e - _ + _ + _) in *.
  assert (Hm0 : 0 < m2). { destruct Hm2 as [_ [? _] _]. destruct (decide (m2 = 0)) as [->|]; [|lia]. rewrite Z.mul_0_r in Ev. done. }
  assert (Habs : Z.abs v = m2 * 10 ^ x). { pose proof (Z.pow_pos_nonneg 10 x). rewrite Ev. destruct neg; nia. }
  assert (Hle : forall i, 0 <= i <= x -> m2 * 10 ^ i <= Z.abs v).
  { intros i Hi. rewrite Habs. apply Z.mul_le_mono_nonneg_l; [lia|]. apply Z.pow_le_mono_r; lia. }
  assert (x < 18) as Hx18.
  { destruct (decide (x < 18)); [done|]. pose proof (Hle 18 ltac:(lia)). unfold UPPER_BOUND in *. lia. }
  replace ((x <? 0) || (x >=? 18)) with false by lia.
  replace (if neg then - m2 else m2) with (sgn neg * m2) by (destruct neg; lia).
  rewrite times10_total.
  - cbn [mbind option_bind]. rewrite Z2Nat.id, <- Ev by done. unfold UPPER_BOUND in *.
    replace ((v >? 4200000000000000000) || (v <? - (1000000000000000000 - 1))) with false by lia. done.
  - intros i Hi. pose proof (Hle (Z.of_nat i + 1) ltac:(lia)) as H. rewrite Z.pow_add_r in H by lia. change (10 ^ 1) with 10 in H.
    change (Z.quot UPPER_BOUND 10) with 99999999999999999. unfold UPPER_BOUND in Hb. destruct neg; lia.
Qed.

(** The amount parser is exact: whatever it returns is the value of the
    number the text denotes, with an optional sign, a whole part without leading
    zeros, a fraction and an exponent; and every such text that denotes a whole
    non-zero amount below [10^18] units in absolute value is accepted, however
    many digits, zeros and exponent digits it is written with. *)
Theorem ParseFixedPoint_exact val decimals :
  (forall v, ParseFixedPoint val decimals = Some v ->
    - UPPER_BOUND <= v <= 4200000000000000000 /\
    exists neg ip fp e, number_text neg ip fp e val /\ denotes neg ip fp e decimals v) /\
  (forall neg ip fp e v, number_text neg ip fp e val -> denotes neg ip fp e decimals v ->
    v <> 0 -> Z.abs v <= UPPER_BOUND -> Z.abs e < 10 ^ 17 -> ParseFixedPoint val decimals = Some v).
Proof. split; [apply ParseFixedPoint_sound|intros *; apply ParseFixedPoint_complete]. Qed.

(** The bound is lower on the negative side, and a zero with a large exponent
    is out of range. *)
Example ParseFixedPoint_bounds :
  ParseFixedPoint (codes "41e17") 0 = Some 4100000000000000000 /\ ParseFixedPoint (codes "-41e17") 0 = None /\
  ParseFixedPoint (codes "-0.00000001") 8 = Some (-1) /\ ParseFixedPoint (codes "0e10") 8 = None.
Proof. vm_compute. done. Qed.
