(* ===== verification/ArithUint256.v ===== *)
(** * Fixed-width unsigned integers: [src/arith_uint256.{h,cpp}]

    [base_uint<BITS>] is an array [pn] of [WIDTH = BITS/32] little-endian
    32-bit limbs.  The model keeps the limbs (a [list Z] of length
    [WIDTH]) and every loop of the code with its carries; the theorems
    relate each operator to the arithmetic of [Z] modulo [2^BITS]. *)

From S2P Require Import Prelude.

Section BaseUint.
Variable WIDTH : nat.

(** ** Constructors and assignments *)

Abbreviation base_uint := (list Z).

Definition base_uint_zero : base_uint := replicate WIDTH 0.

(** [base_uint(uint64_t b)] and [operator=(uint64_t b)]. *)
Definition base_uint_of_u64 (b : Z) : base_uint :=
  for_n (WIDTH - 2) (fun pn i => <[(i + 2)%nat := 0]> pn)
    (<[1%nat := u32 (Z.shiftr b 32)]> (<[0%nat := u32 b]> base_uint_zero)).

(** ** Bitwise operators *)

Definition op_not (a : base_uint) : base_uint :=
  for_n WIDTH (fun ret i => <[i := u32 (Z.lnot (nth i a 0))]> ret) base_uint_zero.

Definition op_xor (a b : base_uint) : base_uint :=
  for_n WIDTH (fun pn i => <[i := Z.lxor (nth i pn 0) (nth i b 0)]> pn) a.

Definition op_and (a b : base_uint) : base_uint :=
  for_n WIDTH (fun pn i => <[i := Z.land (nth i pn 0) (nth i b 0)]> pn) a.

Definition op_or (a b : base_uint) : base_uint :=
  for_n WIDTH (fun pn i => <[i := Z.lor (nth i pn 0) (nth i b 0)]> pn) a.

(** [bool operator!() const]. *)
Definition op_is_zero (a : base_uint) : bool :=
  forallb (fun i => nth i a 0 =? 0) (seq 0 WIDTH).

(** [operator<<=(unsigned int shift)]. *)
Definition op_shl (a : base_uint) (shift : Z) : base_uint :=
  let k := Z.to_nat (shift / 32) in
  let sh := shift mod 32 in
  for_n WIDTH (fun pn i =>
    let pn := if (i + k + 1 <? WIDTH)%nat && negb (sh =? 0)
              then <[(i + k + 1)%nat := Z.lor (nth (i + k + 1) pn 0)
                                         (Z.shiftr (nth i a 0) (32 - sh))]> pn
              else pn in
    if (i + k <? WIDTH)%nat
    then <[(i + k)%nat := Z.lor (nth (i + k) pn 0) (u32 (Z.shiftl (nth i a 0) sh))]> pn
    else pn) base_uint_zero.

(** [operator>>=(unsigned int shift)]. *)
Definition op_shr (a : base_uint) (shift : Z) : base_uint :=
  let k := Z.to_nat (shift / 32) in
  let sh := shift mod 32 in
  for_n WIDTH (fun pn i =>
    let pn := if (k + 1 <=? i)%nat && negb (sh =? 0)
              then <[(i - k - 1)%nat := Z.lor (nth (i - k - 1) pn 0)
                                         (u32 (Z.shiftl (nth i a 0) (32 - sh)))]> pn
              else pn in
    if (k <=? i)%nat
    then <[(i - k)%nat := Z.lor (nth (i - k) pn 0) (Z.shiftr (nth i a 0) sh)]> pn
    else pn) base_uint_zero.

(** ** Arithmetic *)

Definition op_add (a b : base_uint) : base_uint :=
  fst (for_n WIDTH (fun '(pn, carry) i =>
    let n := u64 (carry + nth i pn 0 + nth i b 0) in
    (<[i := Z.land n 0xffffffff]> pn, Z.shiftr n 32)) (a, 0)).

(** [operator++()]: [while (i < WIDTH && ++pn[i] == 0) i++]. *)
Fixpoint incr_loop (fuel i : nat) (pn : base_uint) : base_uint :=
  match fuel with
  | O => pn
  | S fuel =>
      let pn := <[i := u32 (nth i pn 0 + 1)]> pn in
      if nth i pn 0 =? 0 then incr_loop fuel (S i) pn else pn
  end.

Definition op_incr (a : base_uint) : base_uint := incr_loop WIDTH 0 a.

(** [operator--()]: [while (i < WIDTH && --pn[i] == (uint32_t)-1) i++]. *)
Fixpoint decr_loop (fuel i : nat) (pn : base_uint) : base_uint :=
  match fuel with
  | O => pn
  | S fuel =>
      let pn := <[i := u32 (nth i pn 0 - 1)]> pn in
      if nth i pn 0 =? u32 (-1) then decr_loop fuel (S i) pn else pn
  end.

Definition op_decr (a : base_uint) : base_uint := decr_loop WIDTH 0 a.

Definition op_neg (a : base_uint) : base_uint := op_incr (op_not a).

Definition op_sub (a b : base_uint) : base_uint := op_add a (op_neg b).

(** [operator*=(uint32_t b32)]. *)
Definition op_mul32 (a : base_uint) (b32 : Z) : base_uint :=
  fst (for_n WIDTH (fun '(pn, carry) i =>
    let n := u64 (carry + u64 (b32 * nth i pn 0)) in
    (<[i := Z.land n 0xffffffff]> pn, Z.shiftr n 32)) (a, 0)).

(** [operator*=(const base_uint& b)]. *)
Definition op_mul (a b : base_uint) : base_uint :=
  for_n WIDTH (fun pn j =>
    fst (for_n (WIDTH - j) (fun '(pn, carry) i =>
      let n := u64 (u64 (carry + nth (i + j) pn 0) + u64 (nth j a 0 * nth i b 0)) in
      (<[(i + j)%nat := Z.land n 0xffffffff]> pn, Z.shiftr n 32)) (pn, 0)))
    base_uint_zero.

(** [CompareTo], from the most significant limb down. *)
Fixpoint compare_loop (n : nat) (a b : base_uint) : Z :=
  match n with
  | O => 0
  | S i => if nth i a 0 <? nth i b 0 then -1
           else if nth i a 0 >? nth i b 0 then 1
           else compare_loop i a b
  end.

Definition CompareTo (a b : base_uint) : Z := compare_loop WIDTH a b.

(** [EqualTo(uint64_t b)]. *)
Definition EqualTo (a : base_uint) (b : Z) : bool :=
  if existsb (fun i => negb (nth (i + 2) a 0 =? 0)) (seq 0 (WIDTH - 2)) then false
  else if negb (nth 1 a 0 =? Z.shiftr b 32) then false
  else if negb (nth 0 a 0 =? Z.land b 0xffffffff) then false
  else true.

(** [bits()]: one plus the index of the highest set bit. *)
Fixpoint bits_in_limb (nbits : nat) (x : Z) : Z :=
  match nbits with
  | O => 1
  | S n => if Z.land x (u32 (Z.shiftl 1 (Z.of_nat nbits))) =? 0 then bits_in_limb n x
           else Z.of_nat nbits + 1
  end.

Fixpoint bits_loop (n : nat) (a : base_uint) : Z :=
  match n with
  | O => 0
  | S pos => if nth pos a 0 =? 0 then bits_loop pos a
             else 32 * Z.of_nat pos + bits_in_limb 31 (nth pos a 0)
  end.

Definition bits (a : base_uint) : Z := bits_loop WIDTH a.

(** [operator/=]: shift-and-subtract; the counter of [div_loop] is
    [shift + 1].  [None] is the [uint_error] thrown on a zero divisor. *)
Fixpoint div_loop (n : nat) (num div quo : base_uint) : base_uint * base_uint :=
  match n with
  | O => (quo, num)
  | S shift =>
      let '(num, quo) :=
        if 0 <=? CompareTo num div
        then (op_sub num div,
              <[(shift / 32)%nat :=
                  Z.lor (nth (shift / 32) quo 0)
                        (u32 (Z.shiftl 1 (Z.land (Z.of_nat shift) 31)))]> quo)
        else (num, quo) in
      div_loop shift num (op_shr div 1) quo
  end.

Definition op_div (a b : base_uint) : option base_uint :=
  let num_bits := bits a in
  let div_bits := bits b in
  if div_bits =? 0 then None
  else if div_bits >? num_bits then Some base_uint_zero
  else let shift := num_bits - div_bits in
       Some (fst (div_loop (S (Z.to_nat shift)) a (op_shl b shift) base_uint_zero)).

(** [GetLow64]. *)
Definition GetLow64 (a : base_uint) : Z :=
  Z.lor (nth 0 a 0) (u64 (Z.shiftl (nth 1 a 0) 32)).

(** ** The value of an array of limbs *)

(** [valn a k] is the number made of the [k] low limbs. *)
Fixpoint valn (a : base_uint) (k : nat) : Z :=
  match k with
  | O => 0
  | S k => valn a k + nth k a 0 * 2 ^ (32 * Z.of_nat k)
  end.

Definition value (a : base_uint) : Z := valn a WIDTH.

Definition limb_ok (x : Z) : Prop := 0 <= x < 2 ^ 32.

(** The type invariant of [base_uint]. *)
Definition wf (a : base_uint) : Prop := length a = WIDTH /\ Forall limb_ok a.

Abbreviation MODULUS := (2 ^ (32 * Z.of_nat WIDTH)).

Lemma limb_ok_nth a i : Forall limb_ok a -> limb_ok (nth i a 0).
Proof. intros H. apply Forall_nth_default; [done |]. unfold limb_ok; lia. Qed.

Lemma pow32_S k : 2 ^ (32 * Z.of_nat (S k)) = 2 ^ 32 * 2 ^ (32 * Z.of_nat k).
Proof. rewrite <- Z.pow_add_r by lia. f_equal; lia. Qed.

Lemma pow32_pos k : 0 < 2 ^ (32 * Z.of_nat k).
Proof. apply Z.pow_pos_nonneg; lia. Qed.

Lemma valn_range a k : Forall limb_ok a -> 0 <= valn a k < 2 ^ (32 * Z.of_nat k).
Proof.
  intros Ha. induction k as [| k IH]; [done |].
  cbn [valn]. rewrite pow32_S. pose proof (limb_ok_nth a k Ha) as Hl.
  unfold limb_ok in Hl. pose proof (pow32_pos k). nia.
Qed.

Lemma value_range a : wf a -> 0 <= value a < MODULUS.
Proof. intros [_ Ha]. by apply valn_range. Qed.

Lemma valn_ext a b k : (forall i, (i < k)%nat -> nth i a 0 = nth i b 0) -> valn a k = valn b k.
Proof.
  induction k as [| k IH]; [done |]. intros H. cbn [valn].
  rewrite IH by (intros; apply H; lia). rewrite H by lia. done.
Qed.

Lemma valn_insert_ge a i x k : (k <= i)%nat -> valn (<[i:=x]> a) k = valn a k.
Proof. intros Hk. apply valn_ext. intros j Hj. apply nth_insert_ne. lia. Qed.

(** Bit [n] of the number is bit [n mod 32] of limb [n / 32]. *)
Lemma testbit_valn a k n :
  Forall limb_ok a -> 0 <= n ->
  Z.testbit (valn a k) n =
  (n <? 32 * Z.of_nat k) && Z.testbit (nth (Z.to_nat (n / 32)) a 0) (n mod 32).
Proof.
  intros Ha Hn. induction k as [| k IH].
  { cbn [valn]. rewrite Z.testbit_0_l. destruct (Z.ltb_spec n (32 * Z.of_nat 0)); [lia | done]. }
  cbn [valn]. pose proof (valn_range a k Ha) as Hr.
  rewrite <- lor_add_disjoint.
  2:{ apply Z.bits_inj'. intros m Hm. rewrite Z.land_spec, Z.testbit_0_l.
      destruct (Z.ltb_spec m (32 * Z.of_nat k)).
      - rewrite (Z.mul_pow2_bits_low _ _ m) by lia. apply andb_false_r.
      - rewrite (testbit_high (32 * Z.of_nat k)) by lia. done. }
  rewrite Z.lor_spec, IH.
  destruct (Z.ltb_spec n (32 * Z.of_nat k)); cbn [andb].
  - rewrite Z.mul_pow2_bits_low by lia. rewrite orb_false_r.
    destruct (Z.ltb_spec n (32 * Z.of_nat (S k))); [done | lia].
  - cbn [orb]. rewrite Z.mul_pow2_bits by lia.
    destruct (Z.ltb_spec n (32 * Z.of_nat (S k))); cbn [andb].
    + destruct (div_mod_at 32 (Z.of_nat k) (n - 32 * Z.of_nat k) n) as [-> ->]; [lia.. |].
      rewrite Nat2Z.id. done.
    + apply (testbit_high 32); [apply limb_ok_nth; done | lia].
Qed.

Lemma testbit_value a n :
  wf a -> 0 <= n ->
  Z.testbit (value a) n =
  (n <? 32 * Z.of_nat WIDTH) && Z.testbit (nth (Z.to_nat (n / 32)) a 0) (n mod 32).
Proof. intros [_ Ha] Hn. by apply testbit_valn. Qed.

(** Two well-formed numbers with the same value have the same limbs. *)
Lemma value_inj a b : wf a -> wf b -> value a = value b -> a = b.
Proof.
  intros Ha Hb Hv. apply (list_eq_nth _ _ 0); [by destruct Ha as [-> _], Hb as [-> _] |].
  intros i Hi. destruct (Ha) as [Hla Hfa], (Hb) as [Hlb Hfb]. rewrite Hla in Hi.
  apply Z.bits_inj'. intros n Hn. destruct (Z.ltb_spec n 32).
  - pose proof (testbit_value a (32 * Z.of_nat i + n) Ha ltac:(lia)) as H1.
    pose proof (testbit_value b (32 * Z.of_nat i + n) Hb ltac:(lia)) as H2.
    rewrite Hv, H2 in H1.
    destruct (Z.ltb_spec (32 * Z.of_nat i + n) (32 * Z.of_nat WIDTH)); [cbn [andb] in H1 | lia].
    destruct (div_mod_at 32 (Z.of_nat i) n (32 * Z.of_nat i + n)) as [E E']; [lia.. |].
    rewrite E, E', Nat2Z.id in H1. done.
  - rewrite !(testbit_high 32) by (try apply limb_ok_nth; done). done.
Qed.

Lemma valn_insert_lt a i y k :
  (i < length a)%nat -> (i < k)%nat ->
  valn (<[i:=y]> a) k = valn a k + (y - nth i a 0) * 2 ^ (32 * Z.of_nat i).
Proof.
  intros Hi. induction k as [| k IHk]; [lia |]. intros Hk. cbn [valn].
  destruct (decide (k = i)) as [-> | Hne].
  - rewrite valn_insert_ge, nth_insert_eq by done. lia.
  - rewrite IHk, nth_insert_ne by lia. lia.
Qed.

Lemma wf_insert a i x : wf a -> limb_ok x -> wf (<[i:=x]> a).
Proof.
  intros [Hl Hf] Hx. split; [by rewrite length_insert |]. by apply Forall_insert.
Qed.

Lemma wf_zero : wf base_uint_zero.
Proof.
  split; [apply length_replicate |]. apply Forall_replicate. unfold limb_ok; lia.
Qed.

Lemma nth_zero i : nth i base_uint_zero 0 = 0.
Proof.
  unfold base_uint_zero. rewrite nth_lookup.
  destruct (replicate WIDTH 0 !! i) eqn:E; [by apply lookup_replicate in E as [-> _] | done].
Qed.

Lemma valn_zero k : valn base_uint_zero k = 0.
Proof. induction k as [| k IH]; [done |]. cbn [valn]. rewrite IH, nth_zero. done. Qed.

Lemma limb_ok_u32 x : limb_ok (u32 x).
Proof. unfold limb_ok. auto with machine. Qed.

Lemma limb_ok_shiftr x s : limb_ok x -> 0 <= s -> limb_ok (Z.shiftr x s).
Proof.
  intros [H1 H2] Hs. rewrite Z.shiftr_div_pow2 by done. split; [by apply Z.div_pos; lia |].
  apply Z.le_lt_trans with x; [| done]. apply Z.div_le_upper_bound; nia.
Qed.

Lemma limb_ok_bitop f x y :
  (forall n, Z.testbit (f x y) n = true -> Z.testbit x n = true \/ Z.testbit y n = true) ->
  0 <= f x y -> limb_ok x -> limb_ok y -> limb_ok (f x y).
Proof.
  intros Hf Hp Hx Hy. split; [done |]. apply bits_below; [lia | done |].
  intros n Hn. destruct (Z.testbit (f x y) n) eqn:E; [| done].
  apply Hf in E. rewrite !(testbit_high 32) in E by done. by destruct E.
Qed.

Lemma limb_ok_lor x y : limb_ok x -> limb_ok y -> limb_ok (Z.lor x y).
Proof.
  intros Hx Hy. apply limb_ok_bitop; try done.
  - intros n. rewrite Z.lor_spec. apply orb_true_iff.
  - apply Z.lor_nonneg. unfold limb_ok in *; lia.
Qed.

Lemma limb_ok_land x y : limb_ok x -> limb_ok y -> limb_ok (Z.land x y).
Proof.
  intros Hx Hy. apply limb_ok_bitop; try done.
  - intros n. rewrite Z.land_spec, andb_true_iff. tauto.
  - apply Z.land_nonneg. unfold limb_ok in *; lia.
Qed.

Lemma limb_ok_lxor x y : limb_ok x -> limb_ok y -> limb_ok (Z.lxor x y).
Proof.
  intros Hx Hy. apply limb_ok_bitop; try done.
  - intros n. rewrite Z.lxor_spec. destruct (Z.testbit x n), (Z.testbit y n); auto.
  - apply Z.lxor_nonneg. unfold limb_ok in *; lia.
Qed.

(** ** Loops that write one limb per iteration *)

Lemma for_n_pointwise (f : nat -> Z -> Z) (a : base_uint) n :
  (n <= length a)%nat ->
  let r := for_n n (fun pn i => <[i := f i (nth i pn 0)]> pn) a in
  length r = length a /\
  forall i, nth i r 0 = if (i <? n)%nat then f i (nth i a 0) else nth i a 0.
Proof.
  intros Hn r. subst r.
  apply (for_n_inv (fun n r => length r = length a /\
    forall i, nth i r 0 = if (i <? n)%nat then f i (nth i a 0) else nth i a 0)).
  - done.
  - intros k r Hk [Hl IH]. split; [by rewrite length_insert |].
    intros i. rewrite nth_insert by lia. case_decide as Hki.
    + subst k. rewrite IH, Nat.ltb_irrefl.
      destruct (Nat.ltb_spec i (S i)); [done | lia].
    + rewrite IH. destruct (Nat.ltb_spec i k), (Nat.ltb_spec i (S k)); (done || lia).
Qed.

Lemma wf_of_nth a :
  length a = WIDTH -> (forall i, (i < WIDTH)%nat -> limb_ok (nth i a 0)) -> wf a.
Proof.
  intros Hl H. split; [done |]. apply Forall_lookup. intros i x Hx.
  pose proof (lookup_lt_Some _ _ _ Hx). specialize (H i ltac:(lia)).
  rewrite nth_lookup, Hx in H. done.
Qed.

Lemma limb_index_lt n k : 0 <= n < 32 * Z.of_nat k -> (Z.to_nat (n / 32) < k)%nat.
Proof.
  intros Hn. apply Nat2Z.inj_lt. rewrite Z2Nat.id by (apply Z.div_pos; lia).
  apply Z.div_lt_upper_bound; lia.
Qed.

(** A bitwise operator applied limb by limb is the operator on the numbers. *)
Lemma bitop_value (f : Z -> Z -> Z) (g : bool -> bool -> bool) a b :
  (forall x y n, 0 <= n -> Z.testbit (f x y) n = g (Z.testbit x n) (Z.testbit y n)) ->
  (forall x y, limb_ok x -> limb_ok y -> limb_ok (f x y)) ->
  g false false = false -> wf a -> wf b ->
  let r := for_n WIDTH (fun pn i => <[i := f (nth i pn 0) (nth i b 0)]> pn) a in
  wf r /\ value r = f (value a) (value b).
Proof.
  intros Hf Hok Hg Ha Hb r. subst r.
  destruct (for_n_pointwise (fun i x => f x (nth i b 0)) a WIDTH) as [Hl Hn].
  { by destruct Ha as [-> _]. }
  cbn zeta in Hn, Hl. rewrite (proj1 Ha) in Hl.
  match goal with |- wf ?r /\ _ => assert (wf r) as Hr end.
  { apply wf_of_nth; [done |]. intros i Hi. rewrite Hn. destruct (Nat.ltb_spec i WIDTH); [| lia].
    apply Hok; apply limb_ok_nth; [apply Ha | apply Hb]. }
  split; [done |]. apply Z.bits_inj'. intros n Hn0.
  rewrite testbit_value by done. rewrite Hf by done.
  rewrite !testbit_value by done.
  destruct (Z.ltb_spec n (32 * Z.of_nat WIDTH)) as [Hlt | _]; cbn [andb].
  - rewrite Hn, (proj2 (Nat.ltb_lt _ _)) by (apply limb_index_lt; lia).
    apply Hf. apply Z.mod_pos_bound. lia.
  - by rewrite Hg.
Qed.

Lemma op_xor_value a b : wf a -> wf b -> wf (op_xor a b) /\ value (op_xor a b) = Z.lxor (value a) (value b).
Proof.
  apply (bitop_value Z.lxor xorb); [intros; apply Z.lxor_spec | apply limb_ok_lxor | done].
Qed.

Lemma op_and_value a b : wf a -> wf b -> wf (op_and a b) /\ value (op_and a b) = Z.land (value a) (value b).
Proof.
  apply (bitop_value Z.land andb); [intros; apply Z.land_spec | apply limb_ok_land | done].
Qed.

Lemma op_or_value a b : wf a -> wf b -> wf (op_or a b) /\ value (op_or a b) = Z.lor (value a) (value b).
Proof.
  apply (bitop_value Z.lor orb); [intros; apply Z.lor_spec | apply limb_ok_lor | done].
Qed.

Lemma u32_lnot x : limb_ok x -> u32 (Z.lnot x) = 2 ^ 32 - 1 - x.
Proof.
  unfold limb_ok. intros Hx. unfold wrapu, Z.lnot.
  replace (Z.pred (- x)) with (2 ^ 32 - 1 - x + (-1) * 2 ^ 32) by lia.
  rewrite Z.mod_add by lia. apply Z.mod_small. lia.
Qed.

Lemma op_not_value a : wf a -> wf (op_not a) /\ value (op_not a) = MODULUS - 1 - value a.
Proof.
  intros Ha.
  destruct (for_n_pointwise (fun i _ => u32 (Z.lnot (nth i a 0))) base_uint_zero WIDTH) as [Hl Hn].
  { apply Nat.eq_le_incl. symmetry. apply wf_zero. }
  cbn zeta in Hn, Hl. rewrite (proj1 wf_zero) in Hl. fold (op_not a) in Hl, Hn.
  assert (wf (op_not a)) as Hr.
  { apply wf_of_nth; [done |]. intros i Hi. rewrite Hn.
    destruct (Nat.ltb_spec i WIDTH); [apply limb_ok_u32 | lia]. }
  split; [done |]. unfold value.
  assert (forall k, (k <= WIDTH)%nat -> valn (op_not a) k = 2 ^ (32 * Z.of_nat k) - 1 - valn a k) as H.
  { induction k as [| k IH]; intros Hk; [done |]. cbn [valn]. rewrite IH, pow32_S by lia.
    rewrite Hn, (proj2 (Nat.ltb_lt _ _)) by lia. rewrite u32_lnot by (apply limb_ok_nth, Ha). lia. }
  apply H. done.
Qed.

(** ** Carry chains

    The loops of [+=], [*= uint32_t] and the inner loop of [*=] all have
    the shape [n = carry + x_i; pn[i+j] = n & 0xffffffff; carry = n >> 32]. *)

Fixpoint sumx (x : nat -> Z) (n : nat) : Z :=
  match n with
  | O => 0
  | S n => sumx x n + x n * 2 ^ (32 * Z.of_nat n)
  end.

Lemma split32 n : 0 <= n < 2 ^ 64 ->
  limb_ok (Z.land n 0xffffffff) /\ 0 <= Z.shiftr n 32 < 2 ^ 32 /\
  n = Z.land n 0xffffffff + Z.shiftr n 32 * 2 ^ 32.
Proof.
  intros Hn. change 0xffffffff with (Z.ones 32). rewrite Z.land_ones by lia.
  rewrite Z.shiftr_div_pow2 by lia. split; [apply Z.mod_pos_bound; lia |].
  split; [| rewrite Z.mul_comm, Z.add_comm; apply Z.div_mod; lia].
  split; [apply Z.div_pos; lia | apply Z.div_lt_upper_bound; lia].
Qed.

Lemma carry_chain (F : Z -> Z -> nat -> Z) (x : nat -> Z) (j n : nat) (pn0 : base_uint) :
  wf pn0 -> (n + j <= WIDTH)%nat ->
  (forall i, (i < n)%nat -> 0 <= x i <= 2 ^ 64 - 2 ^ 32) ->
  (forall i c, (i < n)%nat -> 0 <= c < 2 ^ 32 -> F c (nth (i + j) pn0 0) i = c + x i) ->
  let r := for_n n (fun '(pn, carry) i =>
      let t := F carry (nth (i + j) pn 0) i in
      (<[(i + j)%nat := Z.land t 0xffffffff]> pn, Z.shiftr t 32)) (pn0, 0) in
  wf (fst r) /\ 0 <= snd r < 2 ^ 32 /\
  valn (fst r) (n + j) + snd r * 2 ^ (32 * Z.of_nat (n + j)) =
    valn pn0 j + 2 ^ (32 * Z.of_nat j) * sumx x n /\
  (forall m, (n + j <= m)%nat -> nth m (fst r) 0 = nth m pn0 0).
Proof.
  intros Hwf Hj Hx HF r.
  match goal with r := for_n n ?f ?s |- _ =>
    pose proof (for_n_inv (fun i '(pn, carry) =>
      wf pn /\ 0 <= carry < 2 ^ 32 /\
      valn pn (i + j) + carry * 2 ^ (32 * Z.of_nat (i + j)) =
        valn pn0 j + 2 ^ (32 * Z.of_nat j) * sumx x i /\
      (forall m, (i + j <= m)%nat -> nth m pn 0 = nth m pn0 0)) f n s) as Hinv end.
  fold r in Hinv. destruct r as [pn carry]. apply Hinv; clear Hinv.
  { cbn [Nat.add sumx]. repeat split; try apply Hwf; lia. }
  clear pn carry. intros i [pn carry] Hi (Hpn & Hc & Hv & Hrest).
  rewrite (Hrest (i + j)%nat), HF by lia.
  specialize (Hx i Hi). destruct (split32 (carry + x i)) as (Hlo & Hhi & Heq); [lia |].
  set (lo := Z.land _ _) in *. set (hi := Z.shiftr _ _) in *.
  split; [by apply wf_insert |]. split; [done |]. split.
  - cbn [Nat.add valn sumx]. rewrite valn_insert_ge by lia.
    rewrite nth_insert_eq by (destruct Hpn as [-> _]; lia).
    rewrite pow32_S. replace (2 ^ (32 * Z.of_nat (i + j))) with
      (2 ^ (32 * Z.of_nat j) * 2 ^ (32 * Z.of_nat i)) in * by (rewrite <- Z.pow_add_r by lia; f_equal; lia).
    set (P := 2 ^ (32 * Z.of_nat j)) in *. set (Q := 2 ^ (32 * Z.of_nat i)) in *.
    assert (lo + hi * 2 ^ 32 = carry + x i) as E by lia. nia.
  - intros m Hm. rewrite nth_insert_ne by lia. apply Hrest. lia.
Qed.

Lemma sumx_ext x y n : (forall i, (i < n)%nat -> x i = y i) -> sumx x n = sumx y n.
Proof.
  induction n as [| n IH]; [done |]. intros H. cbn [sumx].
  rewrite IH by (intros; apply H; lia). rewrite H by lia. done.
Qed.

Lemma sumx_add x y n : sumx (fun i => x i + y i) n = sumx x n + sumx y n.
Proof. induction n as [| n IH]; [done |]. cbn [sumx]. rewrite IH. lia. Qed.

Lemma sumx_scale c x n : sumx (fun i => c * x i) n = c * sumx x n.
Proof. induction n as [| n IH]; cbn [sumx]; [lia |]. rewrite IH. lia. Qed.

Lemma sumx_valn a n : sumx (fun i => nth i a 0) n = valn a n.
Proof. induction n as [| n IH]; [done |]. cbn [sumx valn]. by rewrite IH. Qed.

Lemma sumx_valn_shift a j n :
  2 ^ (32 * Z.of_nat j) * sumx (fun i => nth (i + j) a 0) n = valn a (n + j) - valn a j.
Proof.
  induction n as [| n IH]; [cbn [sumx Nat.add]; lia |]. cbn [sumx Nat.add valn].
  rewrite Z.mul_add_distr_l, IH.
  replace (2 ^ (32 * Z.of_nat (n + j))) with (2 ^ (32 * Z.of_nat j) * 2 ^ (32 * Z.of_nat n))
    by (rewrite <- Z.pow_add_r by lia; f_equal; lia). lia.
Qed.

(** ** Addition, negation, subtraction, multiplication *)

Lemma mod_of_carry v carry t :
  0 <= v < MODULUS -> v + carry * MODULUS = t -> v = t mod MODULUS.
Proof.
  intros Hv <-. rewrite Z.mod_add by (pose proof (pow32_pos WIDTH); lia).
  symmetry. by apply Z.mod_small.
Qed.

(** Identify the loop of the goal with the loop [carry_chain] speaks of. *)
Ltac carry_setup H :=
  cbn zeta in H |- *;
  match type of H with context [for_n ?n ?f ?s] =>
    match goal with |- context [for_n n ?g s] =>
      replace (for_n n g s) with (for_n n f s)
        by (apply for_n_ext; intros ? [? ?] ?; rewrite ?Nat.add_0_r; done);
      destruct (for_n n f s) as [pn carry]; cbn [fst snd] in *
    end
  end;
  rewrite ?Nat.add_0_r in H.

Lemma op_add_value a b :
  wf a -> wf b ->
  wf (op_add a b) /\ value (op_add a b) = (value a + value b) mod MODULUS.
Proof.
  intros Ha Hb. unfold op_add.
  pose proof (carry_chain (fun c p i => u64 (c + p + nth i b 0))
                (fun i => nth i a 0 + nth i b 0) 0 WIDTH a Ha) as H.
  carry_setup H.
  destruct H as (Hwf & Hc & Hv & _); [lia | | |].
  - intros i _. pose proof (limb_ok_nth a i (proj2 Ha)). pose proof (limb_ok_nth b i (proj2 Hb)).
    unfold limb_ok in *. lia.
  - intros i c _ Hc. rewrite Nat.add_0_r. pose proof (limb_ok_nth a i (proj2 Ha)).
    pose proof (limb_ok_nth b i (proj2 Hb)). unfold limb_ok in *.
    rewrite wrapu_small by lia. lia.
  - split; [done |]. apply (mod_of_carry _ carry); [by apply value_range |].
    unfold value. rewrite Hv. cbn [valn]. rewrite sumx_add, !sumx_valn. cbn -[Z.add]. lia.
Qed.

Lemma incr_loop_value fuel i pn :
  wf pn -> (i + fuel = WIDTH)%nat -> valn pn i = 0 ->
  wf (incr_loop fuel i pn) /\
  value (incr_loop fuel i pn) = (value pn + 2 ^ (32 * Z.of_nat i)) mod MODULUS.
Proof.
  revert i pn. induction fuel as [| fuel IH]; intros i pn Hwf Hi Hz.
  { cbn [incr_loop]. replace i with WIDTH in * by lia. split; [done |].
    unfold value. rewrite Hz. cbn [Z.add]. by rewrite Z_mod_same_full. }
  cbn [incr_loop]. assert (i < length pn)%nat as Hlen by (destruct Hwf as [-> _]; lia).
  rewrite nth_insert_eq by done. set (x := nth i pn 0).
  assert (limb_ok x) as Hx by (apply limb_ok_nth, Hwf).
  assert (forall y, valn (<[i:=y]> pn) WIDTH = valn pn WIDTH + (y - x) * 2 ^ (32 * Z.of_nat i)) as Hupd
    by (intros y; apply valn_insert_lt; lia).
  destruct (Z.eqb_spec (u32 (x + 1)) 0) as [E | E].
  - assert (x = 2 ^ 32 - 1) as Hx'.
    { destruct (decide (x + 1 < 2 ^ 32)); [| unfold limb_ok in Hx; lia].
      rewrite wrapu_small in E by (unfold limb_ok in Hx; lia). unfold limb_ok in Hx; lia. }
    rewrite E. destruct (IH (S i) (<[i:=0]> pn)) as [H1 H2].
    + apply wf_insert; [done |]. unfold limb_ok; lia.
    + lia.
    + cbn [valn]. rewrite valn_insert_ge, nth_insert_eq, Hz by done. lia.
    + split; [done |]. rewrite H2. f_equal. unfold value. rewrite Hupd by lia.
      rewrite pow32_S. lia.
  - assert (x + 1 < 2 ^ 32) as Hlt.
    { unfold limb_ok in Hx. destruct (decide (x + 1 < 2 ^ 32)); [done |].
      exfalso. apply E. replace (x + 1) with (2 ^ 32) by lia. reflexivity. }
    rewrite wrapu_small by (unfold limb_ok in Hx; lia).
    assert (wf (<[i:=x + 1]> pn)) as Hw.
    { apply wf_insert; [done |]. unfold limb_ok in *; lia. }
    split; [done |]. pose proof (value_range _ Hw) as Hr. unfold value in *.
    rewrite Hupd in * by lia. rewrite Z.mod_small by lia. lia.
Qed.

Lemma op_incr_value a :
  wf a -> wf (op_incr a) /\ value (op_incr a) = (value a + 1) mod MODULUS.
Proof. intros Ha. by apply (incr_loop_value WIDTH 0 a). Qed.

Lemma op_neg_value a :
  wf a -> wf (op_neg a) /\ value (op_neg a) = (- value a) mod MODULUS.
Proof.
  intros Ha. unfold op_neg. destruct (op_not_value a Ha) as [Hn Hv].
  destruct (op_incr_value _ Hn) as [Hi Hw]. split; [done |].
  rewrite Hw, Hv. replace (MODULUS - 1 - value a + 1) with (- value a + 1 * MODULUS) by lia.
  apply Z.mod_add. pose proof (pow32_pos WIDTH). lia.
Qed.

Lemma op_sub_value a b :
  wf a -> wf b -> wf (op_sub a b) /\ value (op_sub a b) = (value a - value b) mod MODULUS.
Proof.
  intros Ha Hb. destruct (op_neg_value b Hb) as [Hn Hv].
  destruct (op_add_value a _ Ha Hn) as [Hs Hw]. split; [done |].
  unfold op_sub. rewrite Hw, Hv, Zplus_mod_idemp_r. done.
Qed.

Lemma op_mul32_value a b32 :
  wf a -> limb_ok b32 ->
  wf (op_mul32 a b32) /\ value (op_mul32 a b32) = (value a * b32) mod MODULUS.
Proof.
  intros Ha Hb. unfold op_mul32.
  pose proof (carry_chain (fun c p i => u64 (c + u64 (b32 * p)))
                (fun i => b32 * nth i a 0) 0 WIDTH a Ha) as H.
  carry_setup H.
  assert (forall i, 0 <= b32 * nth i a 0 <= 2 ^ 64 - 2 ^ 32) as Hbound.
  { intros i. pose proof (limb_ok_nth a i (proj2 Ha)). unfold limb_ok in *. nia. }
  destruct H as (Hwf & Hc & Hv & _); [lia | by intros | |].
  - intros i c _ Hc. specialize (Hbound i). rewrite Nat.add_0_r.
    rewrite (wrapu_small 64 (b32 * _)) by lia. rewrite wrapu_small by lia. lia.
  - split; [done |]. apply (mod_of_carry _ carry); [by apply value_range |].
    unfold value. rewrite Hv. cbn [valn]. rewrite sumx_scale, sumx_valn. cbn -[Z.add Z.mul]. lia.
Qed.

(** One row of the schoolbook product. *)
Lemma mul_row_value (pn0 b : base_uint) (aj : Z) (j : nat) :
  wf pn0 -> wf b -> limb_ok aj -> (j <= WIDTH)%nat ->
  let r := fst (for_n (WIDTH - j) (fun '(pn, carry) i =>
      let n := u64 (u64 (carry + nth (i + j) pn 0) + u64 (aj * nth i b 0)) in
      (<[(i + j)%nat := Z.land n 0xffffffff]> pn, Z.shiftr n 32)) (pn0, 0)) in
  wf r /\ value r = (value pn0 + aj * value b * 2 ^ (32 * Z.of_nat j)) mod MODULUS.
Proof.
  intros Hp Hb Haj Hj.
  pose proof (carry_chain (fun c p i => u64 (u64 (c + p) + u64 (aj * nth i b 0)))
                (fun i => nth (i + j) pn0 0 + aj * nth i b 0) j (WIDTH - j) pn0 Hp) as H.
  carry_setup H.
  assert (forall i, 0 <= aj * nth i b 0 <= (2 ^ 32 - 1) * (2 ^ 32 - 1)) as Hbound.
  { intros i. pose proof (limb_ok_nth b i (proj2 Hb)). unfold limb_ok in *. nia. }
  destruct H as (Hwf & Hc & Hv & _); [lia | | |].
  - intros i _. specialize (Hbound i). pose proof (limb_ok_nth pn0 (i + j) (proj2 Hp)).
    unfold limb_ok in *. lia.
  - intros i c _ Hc. specialize (Hbound i). pose proof (limb_ok_nth pn0 (i + j) (proj2 Hp)).
    unfold limb_ok in *. rewrite (wrapu_small 64 (c + _)), (wrapu_small 64 (aj * _)) by lia.
    rewrite wrapu_small by lia. lia.
  - split; [done |]. replace (WIDTH - j + j)%nat with WIDTH in * by lia.
    rewrite (mod_of_carry _ carry _ (value_range _ Hwf) Hv).
    rewrite sumx_add, sumx_scale, sumx_valn, Z.mul_add_distr_l, sumx_valn_shift.
    replace (WIDTH - j + j)%nat with WIDTH by lia.
    assert (value b = valn b (WIDTH - j) +
              2 ^ (32 * Z.of_nat (WIDTH - j)) * sumx (fun i => nth (i + (WIDTH - j)) b 0) j) as ->.
    { rewrite sumx_valn_shift. unfold value. replace (j + (WIDTH - j))%nat with WIDTH by lia. lia. }
    set (q := sumx _ j). set (v := valn b (WIDTH - j)).
    assert (2 ^ (32 * Z.of_nat (WIDTH - j)) * 2 ^ (32 * Z.of_nat j) = MODULUS) as E.
    { rewrite <- Z.pow_add_r by lia. f_equal. lia. }
    rewrite <- (Z.mod_add _ (aj * q)) by (pose proof (pow32_pos WIDTH); lia).
    f_equal. unfold value. rewrite <- E. lia.
Qed.

Lemma op_mul_value a b :
  wf a -> wf b -> wf (op_mul a b) /\ value (op_mul a b) = (value a * value b) mod MODULUS.
Proof.
  intros Ha Hb. unfold op_mul.
  match goal with |- wf (for_n _ ?f ?s) /\ _ =>
    apply (for_n_inv (fun j r => wf r /\
      value r = (valn a j * value b) mod MODULUS) f WIDTH s) end.
  - split; [apply wf_zero |]. unfold value. rewrite valn_zero. done.
  - intros j r Hj [Hr Hv].
    destruct (mul_row_value r b (nth j a 0) j Hr Hb) as [H1 H2];
      [apply limb_ok_nth, Ha | lia |].
    split; [exact H1 |]. etransitivity; [exact H2 |].
    rewrite Hv, Zplus_mod_idemp_l. f_equal. cbn [valn]. lia.
Qed.

(** ** Shifts *)

Section Shift.
Variables (a : base_uint) (k : nat) (sh : Z).

(** What the first [t] iterations of [<<=] have or-ed into limb [m]. *)
Definition shl_hi (m t : nat) : Z :=
  if (k + 1 <=? m)%nat && (m <? t + k + 1)%nat && negb (sh =? 0)
  then Z.shiftr (nth (m - k - 1) a 0) (32 - sh) else 0.
Definition shl_lo (m t : nat) : Z :=
  if (k <=? m)%nat && (m <? t + k)%nat then u32 (Z.shiftl (nth (m - k) a 0) sh) else 0.

Lemma shl_loop n :
  (n <= WIDTH)%nat ->
  let r := for_n n (fun pn i =>
    let pn := if (i + k + 1 <? WIDTH)%nat && negb (sh =? 0)
              then <[(i + k + 1)%nat := Z.lor (nth (i + k + 1) pn 0)
                                         (Z.shiftr (nth i a 0) (32 - sh))]> pn
              else pn in
    if (i + k <? WIDTH)%nat
    then <[(i + k)%nat := Z.lor (nth (i + k) pn 0) (u32 (Z.shiftl (nth i a 0) sh))]> pn
    else pn) base_uint_zero in
  length r = WIDTH /\
  forall m, (m < WIDTH)%nat -> nth m r 0 = Z.lor (shl_hi m n) (shl_lo m n).
Proof.
  intros Hn r. subst r.
  match goal with |- length (for_n _ ?f ?s) = _ /\ _ =>
    apply (for_n_inv (fun t r => length r = WIDTH /\ forall m, (m < WIDTH)%nat ->
      nth m r 0 = Z.lor (shl_hi m t) (shl_lo m t)) f n s) end.
  - split; [apply wf_zero |]. intros m _. rewrite nth_zero. unfold shl_hi, shl_lo. bdestruct_all.
  - intros t pn Ht [Hl Hv]. cbn zeta.
    match goal with |- context [<[(t + k)%nat := Z.lor (nth (t + k) ?p 0) _]> ?p] =>
      set (pn1 := p) end.
    assert (length pn1 = WIDTH /\ forall m, (m < WIDTH)%nat ->
              nth m pn1 0 = Z.lor (shl_hi m (S t)) (shl_lo m t)) as [Hl1 Hv1].
    { subst pn1. destruct ((t + k + 1 <? WIDTH)%nat && negb (sh =? 0)) eqn:E.
      - apply andb_true_iff in E as [E1%Nat.ltb_lt E2]. split; [by rewrite length_insert |].
        intros m Hm. rewrite nth_insert by lia. case_decide as Hm'.
        + subst m. rewrite Hv by lia. unfold shl_hi, shl_lo. rewrite E2. bdestruct_all.
          rewrite !Z.lor_0_l, Z.lor_0_r. do 2 f_equal. lia.
        + rewrite Hv by lia. f_equal. unfold shl_hi. rewrite E2. bdestruct_all.
      - split; [done |]. intros m Hm. rewrite Hv by done. f_equal. unfold shl_hi.
        apply andb_false_iff in E as [E%Nat.ltb_ge | E]; [bdestruct_all |].
        rewrite E, !andb_false_r. done. }
    clearbody pn1. destruct (Nat.ltb_spec (t + k) WIDTH).
    + split; [by rewrite length_insert |]. intros m Hm. rewrite nth_insert by lia.
      case_decide as Hm'.
      * subst m. rewrite Hv1 by lia. rewrite <- Z.lor_assoc. f_equal. unfold shl_lo.
        bdestruct_all. rewrite Z.lor_0_l. do 3 f_equal. lia.
      * rewrite Hv1 by lia. f_equal. unfold shl_lo. bdestruct_all.
    + split; [done |]. intros m Hm. rewrite Hv1 by done. f_equal. unfold shl_lo. bdestruct_all.
Qed.

(** What the first [t] iterations of [>>=] have or-ed into limb [m]. *)
Definition shr_hi (m t : nat) : Z :=
  if (m + k + 1 <? t)%nat && negb (sh =? 0)
  then u32 (Z.shiftl (nth (m + k + 1) a 0) (32 - sh)) else 0.
Definition shr_lo (m t : nat) : Z :=
  if (m + k <? t)%nat then Z.shiftr (nth (m + k) a 0) sh else 0.

Lemma shr_loop n :
  (n <= WIDTH)%nat ->
  let r := for_n n (fun pn i =>
    let pn := if (k + 1 <=? i)%nat && negb (sh =? 0)
              then <[(i - k - 1)%nat := Z.lor (nth (i - k - 1) pn 0)
                                         (u32 (Z.shiftl (nth i a 0) (32 - sh)))]> pn
              else pn in
    if (k <=? i)%nat
    then <[(i - k)%nat := Z.lor (nth (i - k) pn 0) (Z.shiftr (nth i a 0) sh)]> pn
    else pn) base_uint_zero in
  length r = WIDTH /\
  forall m, nth m r 0 = Z.lor (shr_hi m n) (shr_lo m n).
Proof.
  intros Hn r. subst r.
  match goal with |- length (for_n _ ?f ?s) = _ /\ _ =>
    apply (for_n_inv (fun t r => length r = WIDTH /\ forall m,
      nth m r 0 = Z.lor (shr_hi m t) (shr_lo m t)) f n s) end.
  - split; [apply wf_zero |]. intros m. rewrite nth_zero. unfold shr_hi, shr_lo. bdestruct_all.
  - intros t pn Ht [Hl Hv]. cbn zeta.
    match goal with |- context [<[(t - k)%nat := Z.lor (nth (t - k) ?p 0) _]> ?p] =>
      set (pn1 := p) end.
    assert (length pn1 = WIDTH /\ forall m,
              nth m pn1 0 = Z.lor (shr_hi m (S t)) (shr_lo m t)) as [Hl1 Hv1].
    { subst pn1. destruct ((k + 1 <=? t)%nat && negb (sh =? 0)) eqn:E.
      - apply andb_true_iff in E as [E1%Nat.leb_le E2]. split; [by rewrite length_insert |].
        intros m. rewrite nth_insert by lia. case_decide as Hm'.
        + subst m. rewrite Hv. unfold shr_hi. rewrite E2. bdestruct_all.
          rewrite Z.lor_0_l, Z.lor_comm. do 4 f_equal. lia.
        + rewrite Hv. f_equal. unfold shr_hi. rewrite E2. bdestruct_all.
      - split; [done |]. intros m. rewrite Hv. f_equal. unfold shr_hi.
        apply andb_false_iff in E as [E%Nat.leb_gt | E]; [bdestruct_all |].
        rewrite E, !andb_false_r. done. }
    clearbody pn1. destruct (Nat.leb_spec k t).
    + split; [by rewrite length_insert |]. intros m. rewrite nth_insert by lia.
      case_decide as Hm'.
      * subst m. rewrite Hv1. rewrite <- Z.lor_assoc. f_equal. unfold shr_lo.
        bdestruct_all. rewrite Z.lor_0_l. do 2 f_equal. lia.
      * rewrite Hv1. f_equal. unfold shr_lo. bdestruct_all.
    + split; [done |]. intros m. rewrite Hv1. f_equal. unfold shr_lo. bdestruct_all.
Qed.

End Shift.

Lemma limb_split n : 0 <= n -> n = 32 * (n / 32) + n mod 32 /\ 0 <= n mod 32 < 32 /\ 0 <= n / 32.
Proof.
  intros Hn. split; [apply Z.div_mod; lia |]. split; [apply Z.mod_pos_bound; lia |].
  apply Z.div_pos; lia.
Qed.

Lemma op_shl_value a shift :
  wf a -> 0 <= shift ->
  wf (op_shl a shift) /\ value (op_shl a shift) = (value a * 2 ^ shift) mod MODULUS.
Proof.
  intros Ha Hs. destruct (limb_split shift Hs) as (Es & Hsh & Hk).
  destruct (shl_loop a (Z.to_nat (shift / 32)) (shift mod 32) WIDTH) as [Hl Hv]; [done |].
  set (k := Z.to_nat (shift / 32)) in *. set (sh := shift mod 32) in *.
  change (length (op_shl a shift) = WIDTH) in Hl. cbn zeta in Hv. fold (op_shl a shift) in Hv.
  assert (wf (op_shl a shift)) as Hw.
  { apply wf_of_nth; [done |]. intros m Hm. rewrite Hv by done.
    apply limb_ok_lor; [unfold shl_hi | unfold shl_lo]; destruct (_ && _);
      try (unfold limb_ok; lia); try apply limb_ok_u32.
    apply limb_ok_shiftr; [apply limb_ok_nth, Ha | lia]. }
  split; [done |]. apply Z.bits_inj'. intros n Hn.
  rewrite testbit_value by done. fold (wrapu (32 * Z.of_nat WIDTH) (value a * 2 ^ shift)).
  rewrite testbit_wrapu, Z.mul_pow2_bits by lia.
  destruct (Z.ltb_spec n (32 * Z.of_nat WIDTH)) as [Hlt | _]; cbn [andb]; [| done].
  destruct (limb_split n Hn) as (En & Hr & Hq). set (m := Z.to_nat (n / 32)) in *.
  set (r := n mod 32) in *. rewrite Hv by (apply limb_index_lt; lia).
  rewrite Z.lor_spec. unfold shl_hi, shl_lo.
  destruct (Z.ltb_spec (n - shift) 0) as [Hneg | Hpos].
  { rewrite (Z.testbit_neg_r _ (n - shift)) by lia.
    bdestruct_all; rewrite ?Z.testbit_0_l; cbn [orb]; try done.
    rewrite testbit_wrapu, Z.shiftl_spec by lia. rewrite Z.testbit_neg_r by lia. apply andb_false_r. }
  rewrite testbit_value by done.
  destruct (Z.ltb_spec (n - shift) (32 * Z.of_nat WIDTH)); [cbn [andb] | lia].
  destruct (Z.ltb_spec r sh) as [Hrs | Hrs].
  - destruct (div_mod_at 32 (Z.of_nat (m - k - 1)) (r + (32 - sh)) (n - shift)) as [-> ->]; [lia.. |].
    rewrite Nat2Z.id. bdestruct_all.
    rewrite Z.shiftr_spec by lia. rewrite testbit_wrapu, Z.shiftl_spec by lia.
    rewrite (Z.testbit_neg_r _ (r - sh)) by lia. rewrite andb_false_r, orb_false_r. done.
  - destruct (div_mod_at 32 (Z.of_nat (m - k)) (r - sh) (n - shift)) as [-> ->]; [lia.. |].
    rewrite Nat2Z.id. bdestruct_all; rewrite ?Z.testbit_0_l; cbn [orb];
      rewrite testbit_wrapu, Z.shiftl_spec by lia; bdestruct_all.
    rewrite Z.shiftr_spec by lia. rewrite (testbit_high 32 (nth (m - k - 1) a 0)); [done | | lia].
    apply limb_ok_nth, Ha.
Qed.

Lemma op_shr_value a shift :
  wf a -> 0 <= shift ->
  wf (op_shr a shift) /\ value (op_shr a shift) = value a / 2 ^ shift.
Proof.
  intros Ha Hs. destruct (limb_split shift Hs) as (Es & Hsh & Hk).
  destruct (shr_loop a (Z.to_nat (shift / 32)) (shift mod 32) WIDTH) as [Hl Hv]; [done |].
  set (k := Z.to_nat (shift / 32)) in *. set (sh := shift mod 32) in *.
  change (length (op_shr a shift) = WIDTH) in Hl. cbn zeta in Hv. fold (op_shr a shift) in Hv.
  assert (wf (op_shr a shift)) as Hw.
  { apply wf_of_nth; [done |]. intros m Hm. rewrite Hv.
    apply limb_ok_lor; [unfold shr_hi; destruct (_ && _) | unfold shr_lo; destruct (_ <? _)%nat];
      try (unfold limb_ok; lia); try apply limb_ok_u32.
    apply limb_ok_shiftr; [apply limb_ok_nth, Ha | lia]. }
  split; [done |]. apply Z.bits_inj'. intros n Hn. rewrite <- Z.shiftr_div_pow2 by done.
  rewrite Z.shiftr_spec, !testbit_value by (done || lia).
  destruct (limb_split n Hn) as (En & Hr & Hq). set (m := Z.to_nat (n / 32)) in *.
  set (r := n mod 32) in *. rewrite Hv, Z.lor_spec. unfold shr_hi, shr_lo.
  destruct (Z.ltb_spec r (32 - sh)) as [Hrs | Hrs].
  - destruct (div_mod_at 32 (Z.of_nat (m + k)) (r + sh) (n + shift)) as [-> ->]; [lia.. |].
    rewrite Nat2Z.id. bdestruct_all; rewrite ?Z.testbit_0_l; cbn [orb]; try done;
      rewrite ?testbit_wrapu, ?Z.shiftl_spec, ?Z.shiftr_spec by lia; try done.
    rewrite (Z.testbit_neg_r _ (r - (32 - sh))) by lia. rewrite andb_false_r. done.
  - destruct (div_mod_at 32 (Z.of_nat (m + k + 1)) (r - (32 - sh)) (n + shift)) as [-> ->]; [lia.. |].
    rewrite Nat2Z.id. bdestruct_all; rewrite ?Z.testbit_0_l, ?orb_false_r; try done;
      rewrite ?testbit_wrapu, ?Z.shiftl_spec, ?Z.shiftr_spec by lia; bdestruct_all;
      rewrite ?(testbit_high 32 (nth (m + k) a 0)) by (try apply limb_ok_nth, Ha; lia);
      rewrite ?orb_false_r; done.
Qed.

(** ** Comparison and bit length *)

Lemma compare_loop_valn k a b :
  Forall limb_ok a -> Forall limb_ok b ->
  compare_loop k a b = match valn a k ?= valn b k with Lt => -1 | Eq => 0 | Gt => 1 end.
Proof.
  intros Ha Hb. induction k as [| k IH]; [done |]. cbn [compare_loop valn].
  pose proof (valn_range a k Ha). pose proof (valn_range b k Hb).
  set (P := 2 ^ (32 * Z.of_nat k)) in *. set (x := nth k a 0). set (y := nth k b 0).
  destruct (Z.ltb_spec x y).
  { destruct (Z.compare_spec (valn a k + x * P) (valn b k + y * P)); [nia | done | nia]. }
  rewrite Z.gtb_ltb. destruct (Z.ltb_spec y x).
  { destruct (Z.compare_spec (valn a k + x * P) (valn b k + y * P)); [nia | nia | done]. }
  rewrite IH. replace y with x by lia.
  destruct (Z.compare_spec (valn a k) (valn b k)),
    (Z.compare_spec (valn a k + x * P) (valn b k + x * P)); (done || lia).
Qed.

Lemma CompareTo_value a b :
  wf a -> wf b ->
  CompareTo a b = match value a ?= value b with Lt => -1 | Eq => 0 | Gt => 1 end.
Proof. intros [_ Ha] [_ Hb]. by apply compare_loop_valn. Qed.

Lemma CompareTo_ge a b : wf a -> wf b -> (0 <=? CompareTo a b) = (value b <=? value a).
Proof.
  intros Ha Hb. rewrite CompareTo_value by done.
  destruct (Z.compare_spec (value a) (value b)), (Z.leb_spec (value b) (value a)); (done || lia).
Qed.

Lemma CompareTo_gt a b : wf a -> wf b -> (0 <? CompareTo a b) = (value b <? value a).
Proof.
  intros Ha Hb. rewrite CompareTo_value by done.
  destruct (Z.compare_spec (value a) (value b)), (Z.ltb_spec (value b) (value a)); (done || lia).
Qed.

Lemma land_pow2 x n : 0 <= n -> (Z.land x (2 ^ n) =? 0) = negb (Z.testbit x n).
Proof.
  intros Hn. destruct (Z.testbit x n) eqn:E; cbn [negb].
  - apply Z.eqb_neq. intros H. apply (f_equal (fun z => Z.testbit z n)) in H.
    rewrite Z.land_spec, E, Z.pow2_bits_true, Z.testbit_0_l in H by done. done.
  - apply Z.eqb_eq. apply Z.bits_inj'. intros m Hm. rewrite Z.land_spec, Z.testbit_0_l.
    destruct (decide (m = n)) as [-> | Hne]; [by rewrite E |].
    rewrite Z.pow2_bits_false by lia. apply andb_false_r.
Qed.

Lemma bits_in_limb_log2 nbits x :
  0 < x < 2 ^ (Z.of_nat nbits + 1) -> (nbits < 32)%nat -> bits_in_limb nbits x = Z.log2 x + 1.
Proof.
  induction nbits as [| n IH]; intros Hx Hn.
  { cbn -[Z.pow] in *. replace x with 1 by lia. done. }
  unfold bits_in_limb; fold bits_in_limb. rewrite Z.shiftl_1_l.
  rewrite wrapu_small by (split; [lia | apply Z.pow_lt_mono_r; lia]).
  rewrite land_pow2 by lia. destruct (Z.testbit x (Z.of_nat (S n))) eqn:E; cbn [negb].
  - f_equal. symmetry. apply Z.log2_unique; [lia |]. split; [| rewrite <- Z.add_1_r; apply Hx].
    destruct (decide (2 ^ Z.of_nat (S n) <= x)); [done |].
    rewrite (testbit_high (Z.of_nat (S n))) in E by lia. done.
  - apply IH; [| lia]. split; [lia |]. apply bits_below; [lia.. |]. intros m Hm.
    destruct (decide (m = Z.of_nat (S n))) as [-> | Hne]; [done |].
    apply (testbit_high (Z.of_nat (S n) + 1)); lia.
Qed.

Lemma bits_loop_valn k a :
  Forall limb_ok a ->
  bits_loop k a = if valn a k =? 0 then 0 else Z.log2 (valn a k) + 1.
Proof.
  intros Ha. induction k as [| k IH]; [done |]. cbn [bits_loop valn].
  pose proof (valn_range a k Ha) as Hr. pose proof (limb_ok_nth a k Ha) as Hl.
  set (x := nth k a 0) in *. destruct (Z.eqb_spec x 0) as [-> | Hx].
  { rewrite IH, Z.mul_0_l, Z.add_0_r. done. }
  unfold limb_ok in Hl. pose proof (pow32_pos k) as Hp.
  destruct (Z.eqb_spec (valn a k + x * 2 ^ (32 * Z.of_nat k)) 0); [nia |].
  rewrite bits_in_limb_log2 by (cbn -[Z.pow]; lia).
  rewrite (Z.log2_unique (valn a k + x * 2 ^ (32 * Z.of_nat k)) (32 * Z.of_nat k + Z.log2 x)); [lia | |].
  { pose proof (Z.log2_nonneg x). lia. }
  pose proof (Z.log2_spec x ltac:(lia)) as [H1 H2]. rewrite <- Z.add_succ_r.
  rewrite !Z.pow_add_r by (pose proof (Z.log2_nonneg x); lia). nia.
Qed.

Lemma bits_value a :
  wf a -> bits a = if value a =? 0 then 0 else Z.log2 (value a) + 1.
Proof. intros [_ Ha]. by apply bits_loop_valn. Qed.

(** ** Division *)

Lemma set_bit_value quo shift :
  wf quo -> (shift < 32 * WIDTH)%nat -> Z.testbit (value quo) (Z.of_nat shift) = false ->
  let r := <[(shift / 32)%nat := Z.lor (nth (shift / 32) quo 0)
               (u32 (Z.shiftl 1 (Z.land (Z.of_nat shift) 31)))]> quo in
  wf r /\ value r = value quo + 2 ^ Z.of_nat shift.
Proof.
  intros Hq Hs Hb. change 31 with (Z.ones 5). rewrite Z.land_ones, Z.shiftl_1_l by lia.
  change (2 ^ 5) with 32. destruct (limb_split (Z.of_nat shift)) as (E & Hr & Hd); [lia |].
  assert (Z.of_nat shift / 32 = Z.of_nat (shift / 32)) as Ed by (rewrite Nat2Z.inj_div; done).
  set (r := Z.of_nat shift mod 32) in *. set (i := (shift / 32)%nat) in *.
  assert (i < WIDTH)%nat as Hi by (apply Nat.Div0.div_lt_upper_bound; lia).
  rewrite wrapu_small by (split; [lia | apply Z.pow_lt_mono_r; lia]).
  rewrite testbit_value in Hb by (done || lia). rewrite Ed, Nat2Z.id in Hb. fold r in Hb.
  assert (Z.testbit (nth i quo 0) r = false) as Hbit.
  { destruct (Z.ltb_spec (Z.of_nat shift) (32 * Z.of_nat WIDTH)); [done | lia]. }
  assert (limb_ok (2 ^ r)) as Hp by (split; [lia | apply Z.pow_lt_mono_r; lia]).
  cbn zeta. split; [apply wf_insert; [done |]; apply limb_ok_lor; [apply limb_ok_nth, Hq | done] |].
  unfold value. rewrite valn_insert_lt by (rewrite ?(proj1 Hq); lia).
  rewrite lor_add_disjoint by (apply Z.eqb_eq; rewrite land_pow2, Hbit by lia; done).
  rewrite E, Ed, Z.pow_add_r by lia. lia.
Qed.

Lemma div_loop_value D n num div quo :
  0 < D -> (n <= 32 * WIDTH)%nat -> wf num -> wf div -> wf quo ->
  (forall m, n = S m -> value div = D * 2 ^ Z.of_nat m) ->
  value num < D * 2 ^ Z.of_nat n ->
  (forall m, (m < n)%nat -> Z.testbit (value quo) (Z.of_nat m) = false) ->
  let r := div_loop n num div quo in
  wf (fst r) /\ wf (snd r) /\ 0 <= value (snd r) < D /\
  value num = (value (fst r) - value quo) * D + value (snd r).
Proof.
  intros HD. revert num div quo.
  induction n as [| n IH]; intros num div quo Hn Hnum Hdiv Hquo Hv Hlt Hbits.
  { cbn [div_loop fst snd]. change (2 ^ Z.of_nat 0) with 1 in Hlt. pose proof (value_range _ Hnum). split; [done |]. split; [done |]. lia. }
  specialize (Hv n eq_refl). cbn [div_loop]. rewrite CompareTo_ge by done.
  assert (forall m, n = S m -> value (op_shr div 1) = D * 2 ^ Z.of_nat m) as Hshr.
  { intros m ->. destruct (op_shr_value div 1 Hdiv ltac:(lia)) as [_ ->].
    rewrite Hv, Nat2Z.inj_succ, Z.pow_succ_r by lia.
    rewrite (Z.mul_comm 2), Z.mul_assoc. apply Z.div_mul. lia. }
  destruct (op_shr_value div 1 Hdiv ltac:(lia)) as [Hwshr _].
  rewrite Nat2Z.inj_succ, Z.pow_succ_r in Hlt by lia.
  pose proof (value_range _ Hnum) as Hrn.
  destruct (Z.leb_spec (value div) (value num)) as [Hge | Hlt'].
  - destruct (op_sub_value num div Hnum Hdiv) as [Hws Hvs].
    rewrite Z.mod_small in Hvs by (pose proof (value_range _ Hdiv); lia).
    destruct (set_bit_value quo n Hquo) as [Hwq Hvq]; [lia | apply Hbits; lia |].
    set (quo' := <[_ := _]> quo) in *.
    destruct (IH (op_sub num div) (op_shr div 1) quo') as (H1 & H2 & H3 & H4);
      try done; try lia.
    + intros m Hm. rewrite Hvq. rewrite Z.add_nocarry_lxor; [rewrite Z.lxor_spec, Z.pow2_bits_false by lia; rewrite Hbits by lia; done |].
      apply Z.eqb_eq. rewrite land_pow2, Hbits by lia. done.
    + rewrite Hvs, Hvq in H4. split; [done |]. split; [done |]. split; [done |]. nia.
  - destruct (IH num (op_shr div 1) quo) as (H1 & H2 & H3 & H4); try done; try lia.
    intros m Hm. apply Hbits. lia.
Qed.

Lemma value_zero_iff_bits a : wf a -> (bits a = 0 <-> value a = 0).
Proof.
  intros Ha. rewrite bits_value by done. destruct (Z.eqb_spec (value a) 0); [tauto |].
  pose proof (Z.log2_nonneg (value a)). lia.
Qed.

Lemma value_base_uint_zero : value base_uint_zero = 0.
Proof. apply valn_zero. Qed.

Lemma op_div_value a b :
  wf a -> wf b -> value b <> 0 ->
  exists q, op_div a b = Some q /\ wf q /\ value q = value a / value b.
Proof.
  intros Ha Hb Hnz. unfold op_div. pose proof (value_range _ Ha) as Hra. pose proof (value_range _ Hb) as Hrb.
  destruct (Z.eqb_spec (bits b) 0) as [E | E]; [by apply value_zero_iff_bits in E |].
  rewrite Z.gtb_ltb. rewrite !bits_value in * by done.
  destruct (Z.eqb_spec (value b) 0); [done |]. clear E.
  pose proof (Z.log2_spec (value b) ltac:(lia)) as Hlb. pose proof (Z.log2_nonneg (value b)) as Hnb.
  destruct (Z.eqb_spec (value a) 0) as [Ea | Ea].
  { destruct (Z.ltb_spec 0 (Z.log2 (value b) + 1)); [| lia].
    eexists; split; [done |]. split; [apply wf_zero |]. by rewrite Ea, value_base_uint_zero. }
  pose proof (Z.log2_spec (value a) ltac:(lia)) as Hla. pose proof (Z.log2_nonneg (value a)) as Hna.
  destruct (Z.ltb_spec (Z.log2 (value a) + 1) (Z.log2 (value b) + 1)) as [Hlt | Hge].
  { eexists; split; [done |]. split; [apply wf_zero |]. rewrite value_base_uint_zero.
    symmetry. apply Z.div_small. split; [lia |].
    apply Z.log2_lt_cancel. lia. }
  set (shift := Z.log2 (value a) + 1 - (Z.log2 (value b) + 1)).
  assert (0 <= shift) as Hs by lia.
  assert (Z.log2 (value a) < 32 * Z.of_nat WIDTH) as Hw by (apply Z.log2_lt_pow2; lia).
  destruct (op_shl_value b shift Hb Hs) as [Hwd Hvd].
  assert (2 ^ Z.succ (Z.log2 (value a)) = 2 ^ Z.succ (Z.log2 (value b)) * 2 ^ shift) as Epow.
  { rewrite <- Z.pow_add_r by lia. f_equal. unfold shift. lia. }
  assert (2 ^ Z.succ (Z.log2 (value a)) <= MODULUS) as Hmod by (apply Z.pow_le_mono_r; lia).
  assert (0 < 2 ^ shift) by (apply Z.pow_pos_nonneg; lia).
  rewrite Z.mod_small in Hvd by nia.
  destruct (div_loop_value (value b) (S (Z.to_nat shift)) a (op_shl b shift) base_uint_zero)
    as (H1 & H2 & H3 & H4); try done; try lia.
  - apply wf_zero.
  - intros m [= <-]. rewrite Z2Nat.id by done. done.
  - rewrite Nat2Z.inj_succ, Z2Nat.id, Z.pow_succ_r by done.
    rewrite (Z.pow_succ_r 2 (Z.log2 (value b))) in Epow by lia. nia.
  - intros m _. rewrite value_base_uint_zero. apply Z.testbit_0_l.
  - eexists. split; [done |]. split; [done |]. rewrite value_base_uint_zero in H4.
    apply Z.div_unique with (value (snd (div_loop (S (Z.to_nat shift)) a (op_shl b shift) base_uint_zero))); lia.
Qed.

Lemma op_div_zero a b : wf b -> value b = 0 -> op_div a b = None.
Proof.
  intros Hb Hz. unfold op_div. apply value_zero_iff_bits in Hz as ->; done.
Qed.

End BaseUint.

#[global] Arguments op_add : simpl never.
#[global] Arguments op_sub : simpl never.
#[global] Arguments op_mul : simpl never.
#[global] Arguments op_mul32 : simpl never.
#[global] Arguments op_div : simpl never.
#[global] Arguments op_not : simpl never.
#[global] Arguments op_neg : simpl never.
#[global] Arguments op_shl : simpl never.
#[global] Arguments op_shr : simpl never.
#[global] Arguments CompareTo : simpl never.
#[global] Arguments EqualTo : simpl never.
#[global] Arguments value : simpl never.
#[global] Arguments base_uint_of_u64 : simpl never.

(** ** Properties *)

(** On well-formed operands the limb-by-limb operators [+=], [-=], [*=],
    unary [-], [~], [<<=] and [>>=] of [base_uint<BITS>] preserve the limb
    invariant and compute addition, subtraction, multiplication, negation,
    complement and the two shifts of [Z] modulo [2^BITS] (the right shift
    being exact floor division), for every width. *)
Theorem base_uint_arithmetic (WIDTH : nat) (a b : list Z) (shift : Z) :
  wf WIDTH a -> wf WIDTH b -> 0 <= shift ->
  let M := 2 ^ (32 * Z.of_nat WIDTH) in
  let repr r v := wf WIDTH r /\ value WIDTH r = v in
  repr (op_add WIDTH a b) ((value WIDTH a + value WIDTH b) mod M) /\
  repr (op_sub WIDTH a b) ((value WIDTH a - value WIDTH b) mod M) /\
  repr (op_mul WIDTH a b) ((value WIDTH a * value WIDTH b) mod M) /\
  repr (op_neg WIDTH a) ((- value WIDTH a) mod M) /\
  repr (op_not WIDTH a) (M - 1 - value WIDTH a) /\
  repr (op_shl WIDTH a shift) ((value WIDTH a * 2 ^ shift) mod M) /\
  repr (op_shr WIDTH a shift) (value WIDTH a / 2 ^ shift).
Proof.
  intros Ha Hb Hs. cbn zeta.
  split_and!; try apply op_add_value; try apply op_sub_value; try apply op_mul_value;
    try apply op_neg_value; try apply op_not_value; try apply op_shl_value;
    try apply op_shr_value; done.
Qed.

(** [operator/=] of [base_uint<BITS>] (shift-and-subtract long division)
    is total on well-formed operands: it throws [uint_error] exactly when the
    divisor is zero, and otherwise returns the floor quotient of the values. *)
Theorem base_uint_division (WIDTH : nat) (a b : list Z) :
  wf WIDTH a -> wf WIDTH b ->
  match op_div WIDTH a b with
  | None => value WIDTH b = 0
  | Some q => value WIDTH b <> 0 /\ wf WIDTH q /\ value WIDTH q = value WIDTH a / value WIDTH b
  end.
Proof.
  intros Ha Hb. destruct (decide (value WIDTH b = 0)) as [E | Hne].
  - rewrite (op_div_zero WIDTH a b Hb E). done.
  - destruct (op_div_value WIDTH a b Ha Hb Hne) as (q & -> & Hq & Hv). done.
Qed.

