(* ===== verification/Compact.v ===== *)
(** * The compact target format: [arith_uint256] of [src/arith_uint256.{h,cpp}]

    [arith_uint256] is [base_uint<256>], eight limbs.  [SetCompact] and
    [GetCompact] are the 32-bit floating-point-like encoding of difficulty
    targets (the [nBits] field of a block header). *)

From S2P Require Import Prelude Bytes ArithUint256.

(** ** [base_uint] at 256 bits *)

Abbreviation W256 := 8%nat.
Abbreviation val256 := (value W256).
Abbreviation wf256 := (wf W256).
Abbreviation of_u64 := (base_uint_of_u64 W256).

(** [ArithToUint256] and [UintToArith256]: limbs to 32 little-endian bytes. *)
Definition ArithToUint256 (a : list Z) : list Z :=
  for_n W256 (fun b x => b ++ WriteLE32 (nth x a 0)) [].

Definition UintToArith256 (a : list Z) : list Z :=
  for_n W256 (fun b x => <[x := ReadLE32 (drop (x * 4) a)]> b) (base_uint_zero W256).

(** [SetCompact(nCompact, &fNegative, &fOverflow)]: the new value and the two flags. *)
Definition SetCompact (nCompact : Z) : list Z * bool * bool :=
  let nSize := Z.shiftr nCompact 24 in
  let nWord := Z.land nCompact 0x007fffff in
  let '(this, nWord) :=
    if nSize <=? 3
    then let nWord := Z.shiftr nWord (8 * (3 - nSize)) in (of_u64 nWord, nWord)
    else (op_shl W256 (of_u64 nWord) (8 * (nSize - 3)), nWord) in
  (this,
   negb (nWord =? 0) && negb (Z.land nCompact 0x00800000 =? 0),
   negb (nWord =? 0) &&
     ((nSize >? 34) || ((nWord >? 0xff) && (nSize >? 33)) || ((nWord >? 0xffff) && (nSize >? 32)))).

(** [GetCompact(fNegative)]; [None] is a failed [assert]. *)
Definition GetCompact (a : list Z) (fNegative : bool) : option Z :=
  let nSize := (bits W256 a + 7) / 8 in
  let nCompact :=
    if nSize <=? 3 then u32 (u64 (Z.shiftl (GetLow64 a) (8 * (3 - nSize))))
    else u32 (GetLow64 (op_shr W256 a (8 * (nSize - 3)))) in
  let '(nCompact, nSize) :=
    if negb (Z.land nCompact 0x00800000 =? 0) then (Z.shiftr nCompact 8, nSize + 1)
    else (nCompact, nSize) in
  if negb (Z.land nCompact (u32 (Z.lnot 0x007fffff)) =? 0) then None
  else if negb (nSize <? 256) then None
  else
    let nCompact := Z.lor nCompact (u32 (Z.shiftl nSize 24)) in
    Some (Z.lor nCompact
            (if fNegative && negb (Z.land nCompact 0x007fffff =? 0) then 0x00800000 else 0)).

(** ** What a compact number denotes *)

Definition compact_size (c : Z) : Z := c / 2 ^ 24.
Definition compact_word (c : Z) : Z := c mod 2 ^ 23.

Definition compact_value (c : Z) : Z :=
  if compact_size c <=? 3 then compact_word c / 256 ^ (3 - compact_size c)
  else compact_word c * 256 ^ (compact_size c - 3).

Lemma pow256_pow2 n : 0 <= n -> 256 ^ n = 2 ^ (8 * n).
Proof. intros Hn. rewrite Z.pow_mul_r by lia. done. Qed.

(** ** Conversions *)

Lemma of_u64_value b : 0 <= b < 2 ^ 64 -> wf256 (of_u64 b) /\ val256 (of_u64 b) = b.
Proof.
  intros Hb. unfold base_uint_of_u64. cbn -[wrapu Z.shiftr Z.pow]. split.
  - split; [done |]. unfold limb_ok. repeat constructor; try lia; apply wrapu_range; lia.
  - unfold value. cbn -[wrapu Z.shiftr Z.pow Z.mul Z.add]. cbn -[wrapu Z.shiftr].
    unfold wrapu. rewrite Z.shiftr_div_pow2 by lia.
    rewrite (Z.mod_small (b / 2 ^ 32)) by (split; [apply Z.div_pos; lia | apply Z.div_lt_upper_bound; lia]).
    pose proof (Z.div_mod b (2 ^ 32)). lia.
Qed.

Lemma ArithToUint256_spec a :
  wf256 a -> length (ArithToUint256 a) = 32%nat /\ Forall byte_ok (ArithToUint256 a) /\
             le_decode (ArithToUint256 a) = val256 a.
Proof.
  intros [_ Ha]. unfold value.
  change (length (ArithToUint256 a) = (4 * 8)%nat /\ Forall byte_ok (ArithToUint256 a) /\
          le_decode (ArithToUint256 a) = valn a 8).
  unfold ArithToUint256.
  match goal with |- length (for_n _ ?f ?s) = _ /\ _ => apply (for_n_inv (fun n b =>
    length b = (4 * n)%nat /\ Forall byte_ok b /\ le_decode b = valn a n) f 8 s) end.
  - done.
  - intros i b _ (Hl & Hb & Hv). rewrite length_app. unfold WriteLE32.
    rewrite length_le_encode, Hl. split; [lia |].
    split; [apply Forall_app; split; [done | apply le_encode_bytes] |].
    rewrite le_decode_app, Hv, le_decode_encode, Hl. cbn [valn].
    pose proof (limb_ok_nth a i Ha) as Hi. unfold limb_ok in Hi.
    rewrite Z.mod_small by (change (256 ^ Z.of_nat 4) with (2 ^ 32); done).
    rewrite pow256_pow2 by lia. replace (8 * Z.of_nat (4 * i)) with (32 * Z.of_nat i) by lia. lia.
Qed.

Lemma UintToArith256_spec u :
  length u = 32%nat -> Forall byte_ok u ->
  wf256 (UintToArith256 u) /\ val256 (UintToArith256 u) = le_decode u.
Proof.
  intros Hl Hb. unfold UintToArith256, value.
  assert (forall n, (n <= 8)%nat ->
    let r := for_n n (fun b x => <[x := ReadLE32 (drop (x * 4) u)]> b) (base_uint_zero 8) in
    wf256 r /\ valn r n = le_decode (take (4 * n) u)) as H.
  { induction n as [| n IH]; intros Hn; cbn zeta; [split; [apply wf_zero | done] |].
    rewrite for_n_S. destruct (IH ltac:(lia)) as [Hw Hv]. cbn zeta in Hw, Hv.
    set (r := for_n n _ _) in *.
    assert (length (take 4 (drop (n * 4) u)) = 4%nat) as Hlt.
    { rewrite length_take, length_drop. lia. }
    assert (Forall byte_ok (take 4 (drop (n * 4) u))) as Hbt by (by apply Forall_take, Forall_drop).
    pose proof (le_decode_range _ Hbt) as Hr. rewrite Hlt in Hr.
    split; [apply wf_insert; [done | exact Hr] |]. cbn [valn].
    rewrite valn_insert_ge, nth_insert_eq by (rewrite ?(proj1 Hw); lia).
    rewrite Hv. replace (4 * S n)%nat with (4 * n + 4)%nat by lia.
    rewrite <- take_take_drop, le_decode_app, length_take.
    rewrite Nat.min_l, pow256_pow2 by lia. replace (8 * Z.of_nat (4 * n)) with (32 * Z.of_nat n) by lia.
    unfold ReadLE32. replace (n * 4)%nat with (4 * n)%nat by lia.
    rewrite (Z.mul_comm (2 ^ _)). done. }
  destruct (H 8%nat) as [Hw Hv]; [lia |]. split; [exact Hw |].
  etransitivity; [exact Hv |]. rewrite take_ge by lia. done.
Qed.

(** ** [SetCompact] *)

Lemma land_pow2_sub1 x n : 0 <= n -> Z.land x (2 ^ n - 1) = x mod 2 ^ n.
Proof. intros Hn. rewrite <- Z.land_ones, Z.ones_equiv by done. by rewrite Z.sub_1_r. Qed.

Lemma compact_word_range c : 0 <= compact_word c < 2 ^ 23.
Proof. apply Z.mod_pos_bound. lia. Qed.

Lemma compact_size_range c : 0 <= c < 2 ^ 32 -> 0 <= compact_size c < 256.
Proof.
  intros Hc. unfold compact_size. split; [apply Z.div_pos; lia | apply Z.div_lt_upper_bound; lia].
Qed.

(** Which exponents make the exact value reach [2^256]. *)
Lemma compact_overflow_iff w s :
  0 < w < 2 ^ 23 -> 3 < s ->
  (2 ^ 256 <= w * 256 ^ (s - 3) <-> 34 < s \/ (0xff < w /\ 33 < s) \/ (0xffff < w /\ 32 < s)).
Proof.
  intros Hw Hs. rewrite pow256_pow2 by lia.
  assert (s <= 32 \/ s = 33 \/ s = 34 \/ 35 <= s) as [H | [-> | [-> | H]]] by lia.
  - assert (2 ^ (8 * (s - 3)) <= 2 ^ 232) by (apply Z.pow_le_mono_r; lia).
    assert (w * 2 ^ (8 * (s - 3)) < 2 ^ 256) by (change (2 ^ 256) with (2 ^ 24 * 2 ^ 232); nia). lia.
  - change (8 * (33 - 3)) with 240. change (2 ^ 256) with (2 ^ 16 * 2 ^ 240). nia.
  - change (8 * (34 - 3)) with 248. change (2 ^ 256) with (2 ^ 8 * 2 ^ 248). nia.
  - assert (2 ^ 256 <= 2 ^ (8 * (s - 3))) by (apply Z.pow_le_mono_r; lia). nia.
Qed.

Lemma SetCompact_eq c :
  0 <= c < 2 ^ 32 ->
  exists a, SetCompact c =
    (a, negb (compact_value c =? 0) && Z.testbit c 23, 2 ^ 256 <=? compact_value c) /\
  wf256 a /\ val256 a = compact_value c mod 2 ^ 256.
Proof.
  intros Hc. unfold SetCompact, compact_value.
  change 0x007fffff with (2 ^ 23 - 1). change 0x00800000 with (2 ^ 23).
  rewrite Z.shiftr_div_pow2, land_pow2_sub1, land_pow2, negb_involutive by lia.
  fold (compact_size c) (compact_word c).
  pose proof (compact_word_range c) as Hw. pose proof (compact_size_range c Hc) as Hs.
  set (w := compact_word c) in *. set (s := compact_size c) in *.
  destruct (Z.leb_spec s 3) as [H3 | H3].
  - rewrite Z.shiftr_div_pow2, <- pow256_pow2 by lia.
    assert (1 <= 256 ^ (3 - s)) by (apply (Z.pow_le_mono_r 256 0); lia).
    assert (0 <= w / 256 ^ (3 - s) < 2 ^ 23) as Hq.
    { split; [apply Z.div_pos; lia |]. apply Z.div_lt_upper_bound; nia. }
    set (q := w / 256 ^ (3 - s)) in *.
    destruct (of_u64_value q) as [Hwf Hv]; [lia |].
    exists (of_u64 q). split; [| split; [done |]; rewrite Hv, Z.mod_small; lia].
    f_equal. rewrite !Z.gtb_ltb.
    destruct (Z.ltb_spec 34 s), (Z.ltb_spec 33 s), (Z.ltb_spec 32 s), (Z.leb_spec (2 ^ 256) q); lia.
  - destruct (of_u64_value w) as [Hwf Hv]; [lia |].
    destruct (op_shl_value W256 (of_u64 w) (8 * (s - 3)) Hwf) as [Hwf' Hv']; [lia |].
    eexists. split; [| split; [exact Hwf' |]; rewrite Hv', Hv, pow256_pow2 by lia; done].
    assert (0 < 256 ^ (s - 3)) by (apply Z.pow_pos_nonneg; lia).
    f_equal; [f_equal; f_equal; f_equal; destruct (Z.eqb_spec w 0), (Z.eqb_spec (w * 256 ^ (s - 3)) 0); (done || nia) |].
    destruct (Z.eqb_spec w 0) as [-> | Hne]; [done |]. cbn [negb andb].
    pose proof (compact_overflow_iff w s ltac:(lia) H3) as Hiff.
    apply eq_true_iff_eq. rewrite Z.leb_le, Hiff, !orb_true_iff, !andb_true_iff, !Z.gtb_lt. lia.
Qed.

(** ** [GetCompact] *)

(** Number of bytes of the canonical encoding of [v] (its top byte must
    leave the sign bit clear), and its 23-bit mantissa. *)
Definition target_size (v : Z) : Z := if v =? 0 then 0 else (Z.log2 v + 1) / 8 + 1.

Definition target_word (v : Z) : Z :=
  if target_size v <=? 3 then v * 256 ^ (3 - target_size v) else v / 256 ^ (target_size v - 3).

Lemma target_size_bounds v :
  0 < v -> 2 ^ (8 * (target_size v - 1) - 1) <= v < 2 ^ (8 * target_size v - 1) /\ 1 <= target_size v.
Proof.
  intros Hv. unfold target_size. destruct (Z.eqb_spec v 0); [lia |].
  pose proof (Z.log2_spec v Hv) as [H1 H2]. pose proof (Z.log2_nonneg v) as Hn.
  set (L := Z.log2 v) in *. pose proof (Z.div_mod (L + 1) 8 ltac:(lia)) as E.
  pose proof (Z.mod_pos_bound (L + 1) 8 ltac:(lia)). pose proof (Z.div_pos (L + 1) 8 ltac:(lia) ltac:(lia)).
  split; [split |]; [| | lia].
  - apply Z.le_trans with (2 ^ L); [| done].
    destruct (decide (0 <= 8 * ((L + 1) / 8 + 1 - 1) - 1)); [apply Z.pow_le_mono_r; lia |].
    rewrite Z.pow_neg_r by lia. lia.
  - apply Z.lt_le_trans with (2 ^ Z.succ L); [done |]. apply Z.pow_le_mono_r; lia.
Qed.

Lemma target_word_range v : 0 < v < 2 ^ 256 -> 2 ^ 15 <= target_word v < 2 ^ 23.
Proof.
  intros Hv. destruct (target_size_bounds v) as [[H1 H2] H3]; [lia |].
  unfold target_word. set (s := target_size v) in *.
  destruct (Z.leb_spec s 3).
  - assert (s = 1 \/ s = 2 \/ s = 3) as [-> | [-> | ->]] by lia; cbn in *; lia.
  - rewrite pow256_pow2 by lia.
    replace (8 * (s - 1) - 1) with (15 + 8 * (s - 3)) in H1 by lia.
    replace (8 * s - 1) with (23 + 8 * (s - 3)) in H2 by lia.
    rewrite Z.pow_add_r in H1, H2 by lia.
    assert (0 < 2 ^ (8 * (s - 3))) by (apply Z.pow_pos_nonneg; lia).
    split; [apply Z.div_le_lower_bound | apply Z.div_lt_upper_bound]; lia.
Qed.

Lemma target_size_le v : 0 <= v < 2 ^ 256 -> 0 <= target_size v <= 33.
Proof.
  intros Hv. unfold target_size. destruct (Z.eqb_spec v 0); [lia |].
  assert (Z.log2 v < 256) by (apply Z.log2_lt_pow2; lia). pose proof (Z.log2_nonneg v).
  assert (0 <= (Z.log2 v + 1) / 8 < 33); [| lia].
  split; [apply Z.div_pos; lia | apply Z.div_lt_upper_bound; lia].
Qed.

Lemma GetLow64_value a : wf256 a -> GetLow64 a = val256 a mod 2 ^ 64.
Proof.
  intros Ha. assert (GetLow64 a = valn a 2) as ->.
  { unfold GetLow64. pose proof (limb_ok_nth a 0 (proj2 Ha)) as H0.
    pose proof (limb_ok_nth a 1 (proj2 Ha)) as H1. unfold limb_ok in *.
    rewrite Z.shiftl_mul_pow2, wrapu_small by lia.
    rewrite lor_add_disjoint; [cbn [valn]; change (2 ^ (32 * Z.of_nat 0)) with 1; change (32 * Z.of_nat 1) with 32; lia |].
    apply Z.bits_inj'. intros n Hn. rewrite Z.land_spec, Z.testbit_0_l.
    destruct (Z.ltb_spec n 32).
    - rewrite (Z.mul_pow2_bits_low _ _ n) by lia. apply andb_false_r.
    - rewrite (testbit_high 32) by lia. done. }
  symmetry. apply Z.bits_inj'. intros n Hn. fold (wrapu 64 (val256 a)).
  rewrite testbit_wrapu, testbit_value by (done || lia).
  rewrite testbit_valn by (done || apply Ha). change (32 * Z.of_nat 2) with 64.
  destruct (Z.ltb_spec n 64), (Z.ltb_spec n (32 * Z.of_nat 8)); (done || lia).
Qed.

(** A [|=] of a field shifted above the other operand is an addition. *)
Lemma lor_shifted w s n : 0 <= n -> 0 <= w < 2 ^ n -> Z.lor w (s * 2 ^ n) = w + s * 2 ^ n.
Proof.
  intros Hn Hw. apply lor_add_disjoint. apply Z.bits_inj'. intros m Hm.
  rewrite Z.land_spec, Z.testbit_0_l. destruct (Z.ltb_spec m n).
  - rewrite (Z.mul_pow2_bits_low _ _ m) by lia. apply andb_false_r.
  - rewrite (testbit_high n) by lia. done.
Qed.

Lemma testbit_top x n : 0 <= n -> 0 <= x < 2 ^ (n + 1) -> Z.testbit x n = (2 ^ n <=? x).
Proof.
  intros Hn Hx. rewrite Z.pow_add_r in Hx by lia. destruct (Z.leb_spec (2 ^ n) x) as [H | H].
  - rewrite Z.testbit_true by done. replace (x / 2 ^ n) with 1; [done |].
    apply Z.div_unique with (x - 2 ^ n); lia.
  - apply (testbit_high n); lia.
Qed.

(** The packing at the end of [GetCompact]: mantissa, exponent, sign. *)
Lemma pack_compact w s (neg : bool) :
  0 <= w < 2 ^ 23 -> 0 <= s < 256 ->
  (if negb (Z.land w (u32 (Z.lnot 0x007fffff)) =? 0) then None
   else if negb (s <? 256) then None
   else let nCompact := Z.lor w (u32 (Z.shiftl s 24)) in
        Some (Z.lor nCompact (if neg && negb (Z.land nCompact 0x007fffff =? 0) then 0x00800000 else 0)))
  = Some (w + s * 2 ^ 24 + (if neg && negb (w =? 0) then 2 ^ 23 else 0)).
Proof.
  intros Hw Hs.
  assert (Z.land w (u32 (Z.lnot 0x007fffff)) = 0) as ->.
  { change (u32 (Z.lnot 0x007fffff)) with (511 * 2 ^ 23). apply Z.bits_inj'. intros m Hm.
    rewrite Z.land_spec, Z.testbit_0_l. destruct (Z.ltb_spec m 23).
    - rewrite (Z.mul_pow2_bits_low _ _ m) by lia. apply andb_false_r.
    - rewrite (testbit_high 23) by lia. done. }
  destruct (Z.ltb_spec s 256); [| lia]. cbn [negb Z.eqb]. cbn zeta.
  rewrite Z.shiftl_mul_pow2, wrapu_small, lor_shifted by lia.
  change 0x007fffff with (2 ^ 23 - 1). rewrite land_pow2_sub1 by lia.
  replace ((w + s * 2 ^ 24) mod 2 ^ 23) with w.
  2:{ replace (w + s * 2 ^ 24) with (w + 2 * s * 2 ^ 23) by lia.
      rewrite Z.mod_add by lia. symmetry. apply Z.mod_small. lia. }
  f_equal. destruct (neg && negb (w =? 0)); [| by rewrite Z.lor_0_r, Z.add_0_r].
  apply lor_add_disjoint. apply Z.eqb_eq. change 0x00800000 with (2 ^ 23).
  rewrite land_pow2 by lia. apply negb_true_iff. rewrite <- (Z.div_pow2_bits _ 23 0) by lia.
  replace ((w + s * 2 ^ 24) / 2 ^ 23) with (2 * s); [apply Z.testbit_even_0 |].
  apply Z.div_unique with w; lia.
Qed.

(** The mantissa before the sign-bit adjustment, for [N] bytes. *)
Definition raw_word (v N : Z) : Z := if N <=? 3 then v * 256 ^ (3 - N) else v / 256 ^ (N - 3).

Lemma raw_word_range v N :
  0 < v < 2 ^ (8 * N) -> 1 <= N ->
  0 <= raw_word v N < 2 ^ 24 /\ (2 ^ 23 <= raw_word v N <-> 2 ^ (8 * N - 1) <= v).
Proof.
  intros Hv HN. unfold raw_word. destruct (Z.leb_spec N 3).
  - assert (N = 1 \/ N = 2 \/ N = 3) as [-> | [-> | ->]] by lia; cbn in Hv |- *; lia.
  - rewrite pow256_pow2 by lia. assert (0 < 2 ^ (8 * (N - 3))) by (apply Z.pow_pos_nonneg; lia).
    replace (8 * N) with (24 + 8 * (N - 3)) in Hv by lia.
    replace (8 * N - 1) with (23 + 8 * (N - 3)) by lia. rewrite Z.pow_add_r in Hv |- * by lia.
    repeat split; [apply Z.div_pos; lia | apply Z.div_lt_upper_bound; lia | |].
    + intros H'. apply Z.le_trans with (2 ^ (8 * (N - 3)) * (v / 2 ^ (8 * (N - 3)))); [nia |].
      apply Z.mul_div_le; lia.
    + intros H'. apply Z.div_le_lower_bound; lia.
Qed.

Lemma raw_word_size v N :
  0 < v -> 8 * (N - 1) <= Z.log2 v < 8 * N -> 1 <= N -> v < 2 ^ (8 * N) ->
  target_size v = if 2 ^ 23 <=? raw_word v N then N + 1 else N.
Proof.
  intros Hv HN HN' Hlt. pose proof (Z.log2_spec v Hv) as [HL1 HL2].
  destruct (raw_word_range v N) as [_ Hm1]; [lia.. |].
  unfold target_size. destruct (Z.eqb_spec v 0); [lia |].
  destruct (Z.leb_spec (2 ^ 23) (raw_word v N)) as [Hb | Hb].
  - apply Hm1 in Hb. assert (Z.log2 v + 1 = 8 * N) as ->; [| rewrite Z.mul_comm, Z.div_mul; lia].
    assert (8 * N - 1 < Z.succ (Z.log2 v)); [| lia]. apply (Z.pow_lt_mono_r_iff 2); lia.
  - assert (Z.log2 v + 1 < 8 * N).
    { destruct (decide (Z.log2 v + 1 < 8 * N)); [done |].
      assert (8 * N - 1 = Z.log2 v) as EN by lia. rewrite EN in Hm1. lia. }
    destruct (div_mod_at 8 (N - 1) (Z.log2 v + 1 - 8 * (N - 1)) (Z.log2 v + 1)) as [-> _]; lia.
Qed.

Lemma raw_word_word v N :
  1 <= N -> target_size v = (if 2 ^ 23 <=? raw_word v N then N + 1 else N) ->
  target_word v = if 2 ^ 23 <=? raw_word v N then raw_word v N / 256 else raw_word v N.
Proof.
  intros HN Hts. unfold target_word. rewrite Hts. destruct (2 ^ 23 <=? raw_word v N); [| done].
  unfold raw_word. destruct (Z.leb_spec N 3), (Z.leb_spec (N + 1) 3); try lia.
  - replace (3 - N) with (Z.succ (3 - (N + 1))) by lia.
    rewrite Z.pow_succ_r, (Z.mul_comm 256), Z.mul_assoc, Z.div_mul by lia. done.
  - replace N with 3 by lia. rewrite Z.mul_1_r. done.
  - replace (N + 1 - 3) with (Z.succ (N - 3)) by lia.
    rewrite Z.pow_succ_r, Z.div_div by lia. f_equal. lia.
Qed.

(** The first assignment of [nCompact] computes [raw_word]. *)
Lemma GetCompact_raw a N :
  wf256 a -> 0 < val256 a < 2 ^ (8 * N) -> 1 <= N ->
  (if N <=? 3 then u32 (u64 (Z.shiftl (val256 a mod 2 ^ 64) (8 * (3 - N))))
   else u32 (GetLow64 (op_shr W256 a (8 * (N - 3))))) = raw_word (val256 a) N.
Proof.
  intros Ha Hv HN. destruct (raw_word_range _ _ Hv HN) as [Hm0 _]. unfold raw_word in *.
  set (v := val256 a) in *. destruct (Z.leb_spec N 3).
  - rewrite Z.shiftl_mul_pow2, <- pow256_pow2 by lia.
    assert (v < 2 ^ 24) by (apply Z.lt_le_trans with (2 ^ (8 * N)); [lia | apply Z.pow_le_mono_r; lia]).
    rewrite (Z.mod_small v) by lia. rewrite (wrapu_small 64), wrapu_small by lia. done.
  - destruct (op_shr_value W256 a (8 * (N - 3)) Ha) as [Hw Hs]; [lia |].
    rewrite GetLow64_value, Hs by done. fold v. rewrite <- pow256_pow2 by lia.
    rewrite (Z.mod_small (v / _)), wrapu_small by lia. done.
Qed.

Lemma GetCompact_eq a neg :
  wf256 a ->
  GetCompact a neg =
  Some (target_word (val256 a) + target_size (val256 a) * 2 ^ 24 +
        (if neg && negb (target_word (val256 a) =? 0) then 2 ^ 23 else 0)).
Proof.
  intros Ha. pose proof (value_range W256 a Ha) as Hv. change (32 * Z.of_nat 8) with 256 in Hv.
  unfold GetCompact. rewrite bits_value, GetLow64_value by done.
  destruct (Z.eqb_spec (val256 a) 0) as [E | Hne].
  { rewrite E. change ((0 + 7) / 8) with 0. change (0 <=? 3) with true. cbv iota.
    change (u32 (u64 (Z.shiftl (0 mod 2 ^ 64) (8 * (3 - 0))))) with 0.
    change (negb (Z.land 0 0x00800000 =? 0)) with false. cbv iota.
    apply (pack_compact 0 0); lia. }
  pose proof (Z.log2_spec (val256 a) ltac:(lia)) as [_ HL2]. pose proof (Z.log2_nonneg (val256 a)).
  set (N := (Z.log2 (val256 a) + 1 + 7) / 8).
  assert (8 * (N - 1) <= Z.log2 (val256 a) < 8 * N /\ 1 <= N) as [HN HN'].
  { subst N. pose proof (Z.div_mod (Z.log2 (val256 a) + 1 + 7) 8).
    pose proof (Z.mod_pos_bound (Z.log2 (val256 a) + 1 + 7) 8). lia. }
  assert (2 ^ Z.succ (Z.log2 (val256 a)) <= 2 ^ (8 * N)) by (apply Z.pow_le_mono_r; lia).
  clearbody N. rewrite GetCompact_raw by (done || lia).
  destruct (raw_word_range (val256 a) N) as [Hm0 _]; [lia.. |].
  change 0x00800000 with (2 ^ 23). rewrite land_pow2, negb_involutive by lia.
  rewrite testbit_top by (change (23 + 1) with 24; lia).
  pose proof (raw_word_size (val256 a) N ltac:(lia) HN HN' ltac:(lia)) as Hts.
  pose proof (raw_word_word (val256 a) N HN' Hts) as Htw.
  pose proof (target_word_range (val256 a) ltac:(lia)) as Hwr.
  pose proof (target_size_le (val256 a) ltac:(lia)) as Hsr.
  rewrite Hts in Hsr |- *. rewrite Htw in Hwr |- *.
  destruct (Z.leb_spec (2 ^ 23) (raw_word (val256 a) N)).
  - rewrite Z.shiftr_div_pow2 by lia. change (2 ^ 8) with 256. apply pack_compact; lia.
  - apply pack_compact; lia.
Qed.

(** ** Properties *)

Lemma compact_of_target v :
  0 <= v < 2 ^ 256 ->
  let c := target_word v + target_size v * 2 ^ 24 in
  0 <= c < 2 ^ 32 /\ compact_size c = target_size v /\ compact_word c = target_word v /\
  Z.testbit c 23 = false.
Proof.
  intros Hv. pose proof (target_size_le v Hv) as Hs.
  assert (0 <= target_word v < 2 ^ 23) as Hw.
  { destruct (decide (v = 0)) as [-> | Hne]; [done |].
    pose proof (target_word_range v ltac:(lia)). lia. }
  cbn zeta. set (w := target_word v) in *. set (s := target_size v) in *. unfold compact_size, compact_word.
  destruct (div_mod_at (2 ^ 24) s w (w + s * 2 ^ 24)) as [-> _]; [lia.. |].
  destruct (div_mod_at (2 ^ 23) (2 * s) w (w + s * 2 ^ 24)) as [Hd ->]; [lia.. |].
  repeat split; try lia. rewrite <- (Z.div_pow2_bits _ 23 0) by lia. rewrite Hd.
  apply Z.testbit_even_0.
Qed.

(** Clearing low bits below the leading one keeps the bit length. *)
Lemma log2_clear_low v n :
  0 < v -> 0 <= n -> 0 < v / 2 ^ n -> Z.log2 (v / 2 ^ n * 2 ^ n) = Z.log2 v.
Proof.
  intros Hv Hn Hq. pose proof (Z.log2_spec v Hv) as [H1 H2].
  assert (0 < 2 ^ n) as HP by (apply Z.pow_pos_nonneg; lia).
  pose proof (Z.mul_div_le v (2 ^ n) HP) as Hle.
  apply Z.log2_unique; [apply Z.log2_nonneg |]. split; [| lia].
  assert (n <= Z.log2 v) as HnL.
  { apply Z.log2_le_pow2; [done |]. nia. }
  replace (2 ^ Z.log2 v) with (2 ^ (Z.log2 v - n) * 2 ^ n) in H1 |- *
    by (rewrite <- Z.pow_add_r by lia; f_equal; lia).
  apply Z.mul_le_mono_nonneg_r; [lia |]. apply Z.div_le_lower_bound; lia.
Qed.

(** [v] with the digits the mantissa cannot hold cleared. *)
Definition truncate_target (v : Z) : Z :=
  if target_size v <=? 3 then v
  else v / 256 ^ (target_size v - 3) * 256 ^ (target_size v - 3).

Lemma compact_value_target v :
  0 <= v < 2 ^ 256 -> compact_value (target_word v + target_size v * 2 ^ 24) = truncate_target v.
Proof.
  intros Hv. destruct (compact_of_target v Hv) as (_ & Hs & Hw & _). cbn zeta in *.
  unfold compact_value, truncate_target. rewrite Hs, Hw. unfold target_word.
  pose proof (target_size_le v Hv). destruct (Z.leb_spec (target_size v) 3); [| done].
  apply Z.div_mul. apply Z.pow_nonzero; lia.
Qed.

Lemma truncate_target_bounds v :
  0 <= v < 2 ^ 256 ->
  0 <= truncate_target v <= v /\ (v - truncate_target v) * 2 ^ 15 <= truncate_target v /\
  target_size (truncate_target v) = target_size v /\ target_word (truncate_target v) = target_word v.
Proof.
  intros Hv. unfold truncate_target. destruct (Z.leb_spec (target_size v) 3) as [H | H]; [lia |].
  assert (0 < v) as Hpos by (destruct (decide (v = 0)) as [-> | Hne]; [done | lia]).
  pose proof (target_word_range v ltac:(lia)) as Hw. unfold target_word in Hw.
  destruct (target_size_bounds v Hpos) as [[H1 H2] _].
  destruct (Z.leb_spec (target_size v) 3) as [|_]; [lia |].
  set (s := target_size v) in *. rewrite pow256_pow2 in * by lia.
  assert (0 < 2 ^ (8 * (s - 3))) as HP by (apply Z.pow_pos_nonneg; lia).
  pose proof (Z.div_mod v (2 ^ (8 * (s - 3))) ltac:(lia)) as E.
  pose proof (Z.mod_pos_bound v (2 ^ (8 * (s - 3))) HP) as Hm.
  set (P := 2 ^ (8 * (s - 3))) in *. set (q := v / P) in *.
  assert (0 <= q * P <= v /\ (v - q * P) * 2 ^ 15 <= q * P) as [Hb He] by nia.
  split; [done |]. split; [done |].
  assert (target_size (q * P) = s) as Es.
  { subst s. unfold target_size in *. destruct (Z.eqb_spec v 0); [lia |].
    destruct (Z.eqb_spec (q * P) 0); [nia |]. do 3 f_equal.
    subst q P. apply log2_clear_low; lia. }
  split; [done |]. unfold target_word. rewrite Es.
  fold s. destruct (Z.leb_spec s 3); [lia |]. rewrite pow256_pow2 by lia. fold P.
  rewrite Z.div_mul by lia. done.
Qed.

(** [SetCompact] decodes every 32-bit compact number: the stored value is
    the exact value [mantissa * 256^(exponent-3)] reduced modulo [2^256], the
    overflow flag is raised exactly when the exact value does not fit in 256
    bits, and the negative flag exactly when the value is non-zero and the
    sign bit (bit 23) is set. *)
Theorem SetCompact_spec (c : Z) :
  0 <= c < 2 ^ 32 ->
  let '(a, fNegative, fOverflow) := SetCompact c in
  wf256 a /\ val256 a = compact_value c mod 2 ^ 256 /\
  (fOverflow = true <-> 2 ^ 256 <= compact_value c) /\
  (fNegative = true <-> compact_value c <> 0 /\ Z.testbit c 23 = true).
Proof.
  intros Hc. destruct (SetCompact_eq c Hc) as (a & -> & Ha & Hv).
  split_and!; [done | done | apply Z.leb_le |].
  rewrite andb_true_iff, negb_true_iff, Z.eqb_neq. done.
Qed.

Lemma SetCompact_spec_witness :
  let '(a, fNegative, fOverflow) := SetCompact 0x1d00ffff in
  wf256 a /\ val256 a = compact_value 0x1d00ffff mod 2 ^ 256 /\
  (fOverflow = true <-> 2 ^ 256 <= compact_value 0x1d00ffff) /\
  (fNegative = true <-> compact_value 0x1d00ffff <> 0 /\ Z.testbit 0x1d00ffff 23 = true).
Proof. apply (SetCompact_spec 0x1d00ffff). lia. Defined.

(** Encoding a 256-bit target with [GetCompact] never trips an assertion
    and yields a 32-bit number that [SetCompact] decodes, with neither flag
    raised, to a target that is not larger than the original, is within a
    relative error of [2^-15] of it, and encodes to the same compact number. *)
Theorem compact_roundtrip (a : list Z) :
  wf256 a ->
  exists c a', GetCompact a false = Some c /\ 0 <= c < 2 ^ 32 /\
    SetCompact c = (a', false, false) /\ wf256 a' /\
    val256 a' <= val256 a /\ (val256 a - val256 a') * 2 ^ 15 <= val256 a' /\
    GetCompact a' false = Some c.
Proof.
  intros Ha. pose proof (value_range W256 a Ha) as Hv. change (32 * Z.of_nat 8) with 256 in Hv.
  destruct (compact_of_target _ Hv) as (Hc & Hs & Hw & Hneg).
  destruct (truncate_target_bounds _ Hv) as (Hb & He & Hts & Htw).
  pose proof (compact_value_target _ Hv) as Hcv. cbn zeta in *.
  exists (target_word (val256 a) + target_size (val256 a) * 2 ^ 24).
  destruct (SetCompact_eq _ Hc) as (a' & HS & Ha' & Hv').
  rewrite Hcv in HS, Hv'. rewrite Hneg, andb_false_r in HS. rewrite Z.mod_small in Hv' by lia.
  exists a'. rewrite !GetCompact_eq, Hv', Hts, Htw by done. cbn [andb]. rewrite Z.add_0_r.
  split_and!; try done; try lia.
  rewrite HS. f_equal. apply Z.leb_gt. lia.
Qed.

Lemma compact_roundtrip_witness :
  exists c a', GetCompact (of_u64 0x123456789abcdef) false = Some c /\ 0 <= c < 2 ^ 32 /\
    SetCompact c = (a', false, false) /\ wf256 a' /\
    val256 a' <= val256 (of_u64 0x123456789abcdef) /\
    (val256 (of_u64 0x123456789abcdef) - val256 a') * 2 ^ 15 <= val256 a' /\
    GetCompact a' false = Some c.
Proof. apply (compact_roundtrip (of_u64 0x123456789abcdef)). apply of_u64_value. lia. Defined.

(** ** Comparison with a 64-bit number *)

Lemma wf256_destruct a :
  wf256 a -> exists a0 a1 a2 a3 a4 a5 a6 a7,
    a = [a0; a1; a2; a3; a4; a5; a6; a7] /\ limb_ok a0 /\ limb_ok a1 /\ limb_ok a2 /\ limb_ok a3 /\
    limb_ok a4 /\ limb_ok a5 /\ limb_ok a6 /\ limb_ok a7.
Proof.
  intros [Hl Hf]. do 8 (destruct a as [| ? a]; [done |]). destruct a; [| done].
  do 8 eexists. split; [done |]. rewrite !Forall_cons in Hf. tauto.
Qed.

Lemma EqualTo_value a b :
  wf256 a -> 0 <= b < 2 ^ 64 -> EqualTo W256 a b = (val256 a =? b).
Proof.
  intros Ha Hb. destruct (of_u64_value b Hb) as [Hwb Hvb].
  assert (EqualTo W256 a b = bool_decide (a = of_u64 b)) as ->.
  { destruct (wf256_destruct a Ha) as (a0 & a1 & a2 & a3 & a4 & a5 & a6 & a7 & -> & Hok).
    unfold EqualTo, base_uint_of_u64. cbn -[wrapu Z.shiftr Z.land bool_decide].
    change 0xffffffff with (2 ^ 32 - 1). rewrite land_pow2_sub1 by lia. fold (wrapu 32 b).
    assert (u32 (Z.shiftr b 32) = Z.shiftr b 32) as ->.
    { apply wrapu_small. rewrite Z.shiftr_div_pow2 by lia.
      split; [apply Z.div_pos; lia | apply Z.div_lt_upper_bound; lia]. }
    destruct (Z.eqb_spec a2 0); destruct (Z.eqb_spec a3 0); destruct (Z.eqb_spec a4 0);
      destruct (Z.eqb_spec a5 0); destruct (Z.eqb_spec a6 0); destruct (Z.eqb_spec a7 0);
      cbn [negb orb]; try (rewrite bool_decide_false; [done | congruence]).
    destruct (Z.eqb_spec a1 (Z.shiftr b 32)); cbn [negb]; [| rewrite bool_decide_false; [done | congruence]].
    destruct (Z.eqb_spec a0 (wrapu 32 b)); cbn [negb]; [| rewrite bool_decide_false; [done | congruence]].
    rewrite bool_decide_true; [done | congruence]. }
  destruct (Z.eqb_spec (val256 a) b) as [E | E].
  - apply bool_decide_true. apply (value_inj W256); [done | done | congruence].
  - apply bool_decide_false. congruence.
Qed.
