(* ===== verification/Chain.v ===== *)
(** * The block tree and the active chain: [src/chain.{h,cpp}],
      [AddToBlockIndex] of [src/validation.cpp]

    Every [CBlockIndex] of the node is owned by the map [mapBlockIndex],
    keyed by block hash, and lives as long as the process: a pointer
    [CBlockIndex*] is modelled by the key of the entry it points to, a
    null pointer by [None].  Dereferencing and [assert] failures are the
    outer [None] of an [option]. *)

From stdpp Require Import gmap sorting.
From S2P Require Import Prelude ArithUint256 Compact.

(** ** Data *)

Abbreviation ptr := Z.

(** [CBlockHeader] (the fields the block index keeps). *)
Record CBlockHeader := mkHeader {
  hdr_nVersion : Z;       (* int32_t *)
  hdr_hashPrevBlock : Z;  (* uint256 *)
  hdr_nTime : Z;          (* uint32_t *)
  hdr_nBits : Z           (* uint32_t *)
}.

(** [CBlockHeader::GetPoWType]: bits 16..23 of the version. *)
Definition GetPoWType (nVersion : Z) : Z := Z.land (Z.shiftr nVersion 16) 0xff.

Record CBlockIndex := mkIndex {
  pprev : option ptr;
  pskip : option ptr;
  nHeight : Z;
  nChainWork : list Z;  (* arith_uint256 *)
  nStatus : Z;
  nVersion : Z;
  nTime : Z;
  nBits : Z;
  nTimeMax : Z;
  nFile : Z;
  nDataPos : Z;
  nUndoPos : Z;
  nTx : Z;              (* unsigned int: transactions of the block *)
  nChainTx : Z;         (* unsigned int: transactions of the chain up to it *)
  nSequenceId : Z       (* int32_t *)
}.

Definition with_pskip (b : CBlockIndex) (s : option ptr) : CBlockIndex :=
  mkIndex (pprev b) s (nHeight b) (nChainWork b) (nStatus b) (nVersion b) (nTime b) (nBits b) (nTimeMax b)
    (nFile b) (nDataPos b) (nUndoPos b) (nTx b) (nChainTx b) (nSequenceId b).
Definition with_nStatus (b : CBlockIndex) (st : Z) : CBlockIndex :=
  mkIndex (pprev b) (pskip b) (nHeight b) (nChainWork b) st (nVersion b) (nTime b) (nBits b) (nTimeMax b)
    (nFile b) (nDataPos b) (nUndoPos b) (nTx b) (nChainTx b) (nSequenceId b).

Definition GetBlockTime (b : CBlockIndex) : Z := nTime b.
Definition GetBlockTimeMax (b : CBlockIndex) : Z := nTimeMax b.

(** ** Validity levels *)

Definition BLOCK_VALID_TREE : Z := 2.
Definition BLOCK_VALID_MASK : Z := 7.
Definition BLOCK_FAILED_MASK : Z := 96.

Definition IsValid (b : CBlockIndex) (nUpTo : Z) : bool :=
  if negb (Z.land (nStatus b) BLOCK_FAILED_MASK =? 0) then false
  else nUpTo <=? Z.land (nStatus b) BLOCK_VALID_MASK.

Definition RaiseValidity (b : CBlockIndex) (nUpTo : Z) : bool * CBlockIndex :=
  if negb (Z.land (nStatus b) BLOCK_FAILED_MASK =? 0) then (false, b)
  else if Z.land (nStatus b) BLOCK_VALID_MASK <? nUpTo
       then (true, with_nStatus b
               (Z.lor (Z.land (nStatus b) (u32 (Z.lnot BLOCK_VALID_MASK))) nUpTo))
       else (false, b).

(** ** The skip list *)

(** "Turn the lowest '1' bit in the binary representation of a number into a '0'." *)
Definition InvertLowestOne (n : Z) : Z := Z.land n (n - 1).

Definition GetSkipHeight (height : Z) : Z :=
  if height <? 2 then 0
  else if negb (Z.land height 1 =? 0)
       then InvertLowestOne (InvertLowestOne (height - 1)) + 1
       else InvertLowestOne height.

Section Store.
Variable m : gmap ptr CBlockIndex.

(** The loop of [CBlockIndex::GetAncestor]; [heightWalk] decreases in
    every iteration, so [heightWalk] iterations are enough. *)
Fixpoint GetAncestor_loop (fuel : nat) (pindexWalk : ptr) (heightWalk height : Z) : option ptr :=
  if heightWalk >? height then
    match fuel with
    | O => None
    | S fuel =>
        b ← m !! pindexWalk;
        let heightSkip := GetSkipHeight heightWalk in
        let heightSkipPrev := GetSkipHeight (heightWalk - 1) in
        let by_prev :=
          q ← pprev b; (* assert(pindexWalk->pprev) *)
          GetAncestor_loop fuel q (heightWalk - 1) height in
        match pskip b with
        | Some sk =>
            if (heightSkip =? height) ||
               ((heightSkip >? height) &&
                negb ((heightSkipPrev <? heightSkip - 2) && (heightSkipPrev >=? height)))
            then GetAncestor_loop fuel sk heightSkip height
            else by_prev
        | None => by_prev
        end
    end
  else Some pindexWalk.

(** [GetAncestor]: the inner option is the returned pointer. *)
Definition GetAncestor (p : ptr) (height : Z) : option (option ptr) :=
  b ← m !! p;
  if (height >? nHeight b) || (height <? 0) then Some None
  else r ← GetAncestor_loop (Z.to_nat (nHeight b)) p (nHeight b) height; Some (Some r).

(** [BuildSkip], the new value of [pskip] of the entry [b]. *)
Definition BuildSkip (b : CBlockIndex) : option CBlockIndex :=
  match pprev b with
  | Some q => r ← GetAncestor q (GetSkipHeight (nHeight b)); Some (with_pskip b r)
  | None => Some b
  end.

(** ** Median time past *)

Definition nMedianTimeSpan : nat := 11.

(** The times of the block and its predecessors, at most [n] of them. *)
Fixpoint collect_times (n : nat) (p : option ptr) : option (list Z) :=
  match n, p with
  | O, _ => Some []
  | _, None => Some []
  | S n, Some p =>
      b ← m !! p;
      l ← collect_times n (pprev b);
      Some (GetBlockTime b :: l)
  end.

Definition GetMedianTimePast (p : ptr) : option Z :=
  l ← collect_times nMedianTimeSpan (Some p);
  merge_sort Z.le l !! (length l / 2)%nat.

(** ** Common ancestors *)

(** [while (pa != pb && pa && pb)] of [LastCommonAncestor]. *)
Fixpoint LastCommonAncestor_loop (fuel : nat) (pa pb : option ptr) : option (option ptr * option ptr) :=
  match pa, pb with
  | Some a, Some b =>
      if decide (a = b) then Some (pa, pb)
      else match fuel with
           | O => None
           | S fuel =>
               ba ← m !! a; bb ← m !! b;
               LastCommonAncestor_loop fuel (pprev ba) (pprev bb)
           end
  | _, _ => Some (pa, pb)
  end.

Definition LastCommonAncestor (pa pb : ptr) : option (option ptr) :=
  ba ← m !! pa; bb ← m !! pb;
  '(pa, pb) ←
    (if nHeight ba >? nHeight bb then r ← GetAncestor pa (nHeight bb); Some (r, Some pb)
     else if nHeight bb >? nHeight ba then r ← GetAncestor pb (nHeight ba); Some (Some pa, r)
     else Some (Some pa, Some pb));
  '(pa, pb) ← LastCommonAncestor_loop (Z.to_nat (nHeight ba) + 1) pa pb;
  (* assert(pa == pb) *)
  if decide (pa = pb) then Some pa else None.

End Store.

(** ** [CChain]: the vector of pointers of the active chain *)

Abbreviation CChain := (list (option ptr)).

Definition Height (v : CChain) : Z := Z.of_nat (length v) - 1.

Definition Tip (v : CChain) : option ptr :=
  if (0 <? length v)%nat then nth (length v - 1) v None else None.

Definition Genesis (v : CChain) : option ptr :=
  if (0 <? length v)%nat then nth 0 v None else None.

(** [operator[](int nHeight)]. *)
Definition chain_at (v : CChain) (h : Z) : option ptr :=
  if (h <? 0) || (h >=? Z.of_nat (length v)) then None else nth (Z.to_nat h) v None.

(** [vChain.resize(n)]: truncate, or pad with null pointers. *)
Definition chain_resize (v : CChain) (n : nat) : CChain :=
  take n v ++ replicate (n - length v) None.

Section Chain.
Variable m : gmap ptr CBlockIndex.

Definition Contains (v : CChain) (p : ptr) : option bool :=
  b ← m !! p; Some (bool_decide (chain_at v (nHeight b) = Some p)).

Definition Next (v : CChain) (p : ptr) : option (option ptr) :=
  b ← m !! p;
  c ← Contains v p;
  if c : bool then Some (chain_at v (nHeight b + 1)) else Some None.

(** [while (pindex && vChain[pindex->nHeight] != pindex)]. *)
Fixpoint SetTip_loop (fuel : nat) (v : CChain) (pindex : option ptr) : option CChain :=
  match pindex with
  | None => Some v
  | Some p =>
      b ← m !! p;
      let h := Z.to_nat (nHeight b) in
      x ← v !! h;
      if decide (x = Some p) then Some v
      else match fuel with
           | O => None
           | S fuel => SetTip_loop fuel (<[h := Some p]> v) (pprev b)
           end
  end.

Definition SetTip (v : CChain) (pindex : option ptr) : option CChain :=
  match pindex with
  | None => Some []
  | Some p =>
      b ← m !! p;
      let n := Z.to_nat (nHeight b + 1) in
      SetTip_loop n (chain_resize v n) (Some p)
  end.

(** [while (pindex && !Contains(pindex))] of [FindFork]. *)
Fixpoint FindFork_loop (fuel : nat) (v : CChain) (pindex : option ptr) : option (option ptr) :=
  match pindex with
  | None => Some None
  | Some p =>
      c ← Contains v p;
      if c : bool then Some (Some p)
      else match fuel with
           | O => None
           | S fuel => b ← m !! p; FindFork_loop fuel v (pprev b)
           end
  end.

Definition FindFork (v : CChain) (pindex : option ptr) : option (option ptr) :=
  match pindex with
  | None => Some None
  | Some p =>
      b ← m !! p;
      r ← (if nHeight b >? Height v then GetAncestor m p (Height v) else Some (Some p));
      FindFork_loop (Z.to_nat (nHeight b) + 1) v r
  end.

(** [GetLocator]: the keys stand for the hashes pushed on [vHave]. *)
Fixpoint GetLocator_loop (fuel : nat) (v : CChain) (pindex : option ptr) (nStep : Z)
    (vHave : list Z) : option (list Z) :=
  match pindex with
  | None => Some vHave
  | Some p =>
      match fuel with
      | O => None
      | S fuel =>
          b ← m !! p;
          let vHave := vHave ++ [p] in
          if nHeight b =? 0 then Some vHave
          else
            let h := Z.max (nHeight b - nStep) 0 in
            c ← Contains v p;
            next ← (if c : bool then Some (chain_at v h) else GetAncestor m p h);
            let nStep := if (10 <? length vHave)%nat then nStep * 2 else nStep in
            GetLocator_loop fuel v next nStep vHave
      end
  end.

Definition GetLocator (v : CChain) (pindex : option ptr) : option (list Z) :=
  let pindex := match pindex with None => Tip v | Some _ => pindex end in
  match pindex with
  | None => Some []
  | Some p => b ← m !! p; GetLocator_loop (Z.to_nat (nHeight b) + 1) v (Some p) 1 []
  end.

(** [std::lower_bound] over [vChain[first, first+count)] with the
    predicate [GetBlockTimeMax() < time]. *)
Fixpoint lower_bound_loop (fuel : nat) (v : CChain) (first count : nat) (time : Z) : option nat :=
  match count with
  | O => Some first
  | _ =>
      match fuel with
      | O => None
      | S fuel =>
          let step := (count / 2)%nat in
          x ← v !! (first + step)%nat;
          p ← x;
          b ← m !! p;
          if GetBlockTimeMax b <? time
          then lower_bound_loop fuel v (first + step + 1) (count - (step + 1)) time
          else lower_bound_loop fuel v first step time
      end
  end.

Definition FindEarliestAtLeast (v : CChain) (time : Z) : option (option ptr) :=
  lower ← lower_bound_loop (length v) v 0 (length v) time;
  if decide (lower = length v) then Some None else v !! lower.

End Chain.

(** ** Chain work *)

(** [GetBlockProof(const CBlockIndex&)]: [~t / (t + 1) + 1]. *)
Definition GetBlockProof (bits : Z) : option (list Z) :=
  let '(bnTarget, fNegative, fOverflow) := SetCompact bits in
  if fNegative || fOverflow || EqualTo W256 bnTarget 0 then Some (of_u64 0)
  else
    q ← op_div W256 (op_not W256 bnTarget) (op_add W256 bnTarget (of_u64 1));
    Some (op_add W256 q (of_u64 1)).

(** ** [AddToBlockIndex] *)

Record BlockIndexState := mkBIState {
  mapBlockIndex : gmap ptr CBlockIndex;
  pindexBestHeader : option ptr;
  setDirtyBlockIndex : gset ptr
}.

(** The freshly constructed entry, before it is linked to its parent. *)
Definition new_index (block : CBlockHeader) : CBlockIndex :=
  mkIndex None None 0 (base_uint_zero W256) 0
    (hdr_nVersion block) (hdr_nTime block) (hdr_nBits block) 0 0 0 0 0 0 0.

(** Linking: parent pointer, height and skip pointer.  [m1] already holds
    the new entry, as in the source. *)
Definition AddToBlockIndex_link (m1 : gmap ptr CBlockIndex) (hash : Z) (block : CBlockHeader) :
    option CBlockIndex :=
  let new0 := new_index block in
  match m1 !! hdr_hashPrevBlock block with
  | Some prev =>
      let b := mkIndex (Some (hdr_hashPrevBlock block)) None (nHeight prev + 1)
                 (nChainWork new0) 0 (nVersion new0) (nTime new0) (nBits new0) 0 0 0 0 0 0 0 in
      BuildSkip (<[hash := b]> m1) b
  | None => Some new0
  end.

(** Accumulated time and work, validity, best header, dirty set. *)
Definition AddToBlockIndex_finish (st : BlockIndexState) (m1 : gmap ptr CBlockIndex)
    (hash : Z) (new1 : CBlockIndex) : option (BlockIndexState * ptr) :=
  proof ← GetBlockProof (nBits new1);
  let prev := match pprev new1 with Some q => m1 !! q | None => None end in
  let tmax := match prev with Some b => Z.max (nTimeMax b) (nTime new1) | None => nTime new1 end in
  let work := op_add W256 (match prev with Some b => nChainWork b | None => of_u64 0 end) proof in
  let new2 := snd (RaiseValidity
                (mkIndex (pprev new1) (pskip new1) (nHeight new1) work (nStatus new1)
                   (nVersion new1) (nTime new1) (nBits new1) tmax
                   (nFile new1) (nDataPos new1) (nUndoPos new1) (nTx new1) (nChainTx new1) (nSequenceId new1))
                BLOCK_VALID_TREE) in
  let m2 := <[hash := new2]> m1 in
  better ←
    match pindexBestHeader st with
    | None => Some true
    | Some best => bb ← m2 !! best; Some (CompareTo W256 (nChainWork bb) (nChainWork new2) <? 0)
    end;
  Some (mkBIState m2 (if better : bool then Some hash else pindexBestHeader st)
          ({[ hash ]} ∪ setDirtyBlockIndex st), hash).

(** [hash] is [block.GetHash()]. *)
Definition AddToBlockIndex (st : BlockIndexState) (hash : Z) (block : CBlockHeader) :
    option (BlockIndexState * ptr) :=
  match mapBlockIndex st !! hash with
  | Some _ => Some (st, hash)
  | None =>
      let m1 := <[hash := new_index block]> (mapBlockIndex st) in
      new1 ← AddToBlockIndex_link m1 hash block;
      AddToBlockIndex_finish st m1 hash new1
  end.

(** ** The tree invariant *)

(** [walk m p n]: follow [pprev] [n] times from [p]. *)
Fixpoint walk (m : gmap ptr CBlockIndex) (p : ptr) (n : nat) : option ptr :=
  match n with
  | O => Some p
  | S n => b ← m !! p; q ← pprev b; walk m q n
  end.

(** The ancestor of [p] at height [h], by definition. *)
Definition ancestor_at (m : gmap ptr CBlockIndex) (p : ptr) (h : Z) : option ptr :=
  b ← m !! p;
  if (h >? nHeight b) || (h <? 0) then None else walk m p (Z.to_nat (nHeight b - h)).

Definition wf_index (m : gmap ptr CBlockIndex) (b : CBlockIndex) : Prop :=
  match pprev b with
  | None => nHeight b = 0 /\ pskip b = None
  | Some q => exists bq, m !! q = Some bq /\ 0 <= nHeight bq /\ nHeight b = nHeight bq + 1 /\
      (pskip b = None \/
       exists s, pskip b = Some s /\ ancestor_at m q (GetSkipHeight (nHeight b)) = Some s)
  end.

Definition wf_store (m : gmap ptr CBlockIndex) : Prop := map_Forall (fun _ b => wf_index m b) m.

Lemma wf_height m p b : wf_store m -> m !! p = Some b -> 0 <= nHeight b.
Proof.
  intros Hm Hp. specialize (Hm p b Hp). unfold wf_index in Hm.
  destruct (pprev b); [destruct Hm as (bq & _ & H & H' & _); lia | destruct Hm; lia].
Qed.

Lemma walk_add m p n k : walk m p (n + k) = q ← walk m p n; walk m q k.
Proof.
  revert p. induction n as [| n IH]; intros p; [done |]. cbn [walk Nat.add].
  destruct (m !! p) as [b |]; [| done]. cbn. destruct (pprev b) as [q |]; [apply IH | done].
Qed.

(** In a well-formed store every ancestor down to height 0 exists. *)
Lemma walk_exists m p b n :
  wf_store m -> m !! p = Some b -> Z.of_nat n <= nHeight b ->
  exists r br, walk m p n = Some r /\ m !! r = Some br /\ nHeight br = nHeight b - Z.of_nat n.
Proof.
  intros Hm. revert p b. induction n as [| n IH]; intros p b Hp Hn.
  { exists p, b. split; [done |]. split; [done | lia]. }
  pose proof (Hm p b Hp) as Hb. unfold wf_index in Hb. cbn [walk]. rewrite Hp. cbn.
  destruct (pprev b) as [q |]; [| lia]. cbn.
  destruct Hb as (bq & Hq & H0 & Hh & _).
  destruct (IH q bq Hq) as (r & br & H1 & H2 & H3); [lia |].
  exists r, br. split; [done |]. split; [done | lia].
Qed.

Lemma walk_height m p b n r br :
  wf_store m -> m !! p = Some b -> walk m p n = Some r -> m !! r = Some br ->
  nHeight br = nHeight b - Z.of_nat n.
Proof.
  intros Hm. revert p b. induction n as [| n IH]; intros p b Hp Hw Hr.
  { cbn in Hw. injection Hw as <-. rewrite Hp in Hr. injection Hr as <-. lia. }
  pose proof (Hm p b Hp) as Hb. unfold wf_index in Hb. cbn [walk] in Hw. rewrite Hp in Hw. cbn in Hw.
  destruct (pprev b) as [q |]; [| done]. cbn in Hw.
  destruct Hb as (bq & Hq & H0 & Hh & _). specialize (IH q bq Hq Hw Hr). lia.
Qed.

(** ** Skip heights *)

Lemma land_le_r a b : 0 <= b -> Z.land a b <= b.
Proof.
  intros Hb. assert (Z.land a b = b - Z.ldiff b a) as ->.
  { rewrite Z.land_comm, Z.sub_nocarry_ldiff.
    - apply Z.bits_inj'. intros n Hn. rewrite Z.land_spec, !Z.ldiff_spec.
      destruct (Z.testbit b n), (Z.testbit a n); done.
    - apply Z.bits_inj'. intros n Hn. rewrite !Z.ldiff_spec, Z.testbit_0_l.
      destruct (Z.testbit b n), (Z.testbit a n); done. }
  assert (0 <= Z.ldiff b a) by (apply Z.ldiff_nonneg; left; done). lia.
Qed.

Lemma InvertLowestOne_bounds n : 0 <= n -> 0 <= InvertLowestOne n <= Z.max 0 (n - 1).
Proof.
  intros Hn. unfold InvertLowestOne. split; [apply Z.land_nonneg; left; done |].
  destruct (decide (n = 0)) as [-> | Hne]; [done |].
  pose proof (land_le_r n (n - 1) ltac:(lia)). lia.
Qed.

Lemma GetSkipHeight_bounds h : 1 <= h -> 0 <= GetSkipHeight h < h.
Proof.
  intros Hh. unfold GetSkipHeight. destruct (Z.ltb_spec h 2); [lia |].
  pose proof (InvertLowestOne_bounds h ltac:(lia)).
  pose proof (InvertLowestOne_bounds (h - 1) ltac:(lia)).
  pose proof (InvertLowestOne_bounds (InvertLowestOne (h - 1)) ltac:(lia)).
  destruct (negb _); lia.
Qed.

(** ** [GetAncestor] is the walk along [pprev] *)

Lemma ancestor_at_step m p b q h :
  wf_store m -> m !! p = Some b -> pprev b = Some q -> 0 <= h < nHeight b ->
  ancestor_at m p h = ancestor_at m q h.
Proof.
  intros Hm Hp Hq Hh. pose proof (Hm p b Hp) as Hb. unfold wf_index in Hb. rewrite Hq in Hb.
  destruct Hb as (bq & Hbq & H0 & Hn & _). unfold ancestor_at. rewrite Hp, Hbq. cbn.
  rewrite !Z.gtb_ltb. bdestruct_all.
  replace (Z.to_nat (nHeight b - h)) with (S (Z.to_nat (nHeight bq - h))) by lia.
  cbn [walk]. rewrite Hp. cbn. rewrite Hq. done.
Qed.

Lemma ancestor_at_trans m p s h h' bs :
  wf_store m -> ancestor_at m p h' = Some s -> m !! s = Some bs -> 0 <= h <= h' ->
  ancestor_at m p h = ancestor_at m s h /\ nHeight bs = h'.
Proof.
  intros Hm Ha Hs Hh. unfold ancestor_at in *. destruct (m !! p) as [b |] eqn:Hp; [| done].
  cbn in *. rewrite Z.gtb_ltb in Ha. destruct (Z.ltb_spec (nHeight b) h'); [done |].
  destruct (Z.ltb_spec h' 0); [lia |]. cbn in Ha.
  pose proof (walk_height m p b _ s bs Hm Hp Ha Hs) as Hhs.
  split; [| lia]. rewrite Hs. cbn. rewrite !Z.gtb_ltb. bdestruct_all.
  replace (Z.to_nat (nHeight b - h)) with (Z.to_nat (nHeight b - h') + Z.to_nat (nHeight bs - h))%nat by lia.
  rewrite walk_add, Ha. done.
Qed.

Lemma ancestor_at_some m p b h :
  wf_store m -> m !! p = Some b -> 0 <= h <= nHeight b ->
  exists r br, ancestor_at m p h = Some r /\ m !! r = Some br /\ nHeight br = h.
Proof.
  intros Hm Hp Hh. unfold ancestor_at. rewrite Hp. cbn. rewrite Z.gtb_ltb. bdestruct_all.
  destruct (walk_exists m p b (Z.to_nat (nHeight b - h)) Hm Hp) as (r & br & H1 & H2 & H3); [lia |].
  exists r, br. split; [done |]. split; [done | lia].
Qed.

Lemma GetAncestor_loop_correct m fuel p b h :
  wf_store m -> m !! p = Some b -> 0 <= h -> nHeight b <= Z.of_nat fuel -> h <= nHeight b ->
  GetAncestor_loop m fuel p (nHeight b) h = ancestor_at m p h.
Proof.
  intros Hm. revert p b. induction fuel as [| fuel IH]; intros p b Hp Hh Hf Hle;
    cbn [GetAncestor_loop]; rewrite Z.gtb_ltb; destruct (Z.ltb_spec h (nHeight b)) as [Hlt | Hge].
  1: lia.
  1,3: unfold ancestor_at; rewrite Hp; cbn; rewrite Z.gtb_ltb; bdestruct_all;
       replace (nHeight b - h) with 0 by lia; done.
  rewrite Hp. cbn. pose proof (Hm p b Hp) as Hb. unfold wf_index in Hb.
  destruct (pprev b) as [q |] eqn:Eq; [| lia].
  destruct Hb as (bq & Hbq & H0 & Hn & Hskip). cbn.
  assert (GetAncestor_loop m fuel q (nHeight b - 1) h = ancestor_at m p h) as Hprev.
  { replace (nHeight b - 1) with (nHeight bq) by lia. rewrite (IH q bq) by (done || lia).
    symmetry. apply (ancestor_at_step m p b q); (done || lia). }
  destruct (pskip b) as [s |] eqn:Es; [| done].
  destruct (_ || _) eqn:Econd; [| done].
  destruct Hskip as [? | (s' & [= <-] & Hs)]; [done |].
  pose proof (GetSkipHeight_bounds (nHeight b) ltac:(lia)) as Hsb.
  set (sh := GetSkipHeight (nHeight b)) in *.
  assert (h <= sh) as Hhs.
  { apply orb_true_iff in Econd as [E%Z.eqb_eq | E]; [lia |].
    apply andb_true_iff in E as [E _]. rewrite Z.gtb_ltb in E. apply Z.ltb_lt in E. lia. }
  destruct (ancestor_at_some m q bq sh Hm Hbq) as (r & br & H1 & H2 & H3); [lia |].
  rewrite Hs in H1. injection H1 as <-. rewrite <- H3 at 1.
  rewrite (IH s br) by (done || lia).
  rewrite (ancestor_at_step m p b q) by (done || lia).
  symmetry. apply (ancestor_at_trans m q s h sh br); (done || lia).
Qed.

Lemma GetAncestor_eq m p b h :
  wf_store m -> m !! p = Some b -> GetAncestor m p h = Some (ancestor_at m p h).
Proof.
  intros Hm Hp. unfold GetAncestor. rewrite Hp. cbn. rewrite Z.gtb_ltb.
  destruct (Z.ltb_spec (nHeight b) h) as [H1 | H1], (Z.ltb_spec h 0) as [H2 | H2]; cbn [orb].
  1-3: unfold ancestor_at; rewrite Hp; cbn; rewrite Z.gtb_ltb; bdestruct_all.
  pose proof (wf_height m p b Hm Hp) as H0.
  rewrite (GetAncestor_loop_correct m _ p b h) by (done || lia).
  destruct (ancestor_at_some m p b h Hm Hp) as (r & br & -> & _ & _); [lia | done].
Qed.

(** ** Chain work of a block *)

(** The value of [GetBlockProof]: [2^256 / (target + 1)], zero for an
    [nBits] that is not a valid target. *)
Definition block_work (bits : Z) : Z :=
  let t := compact_value bits in
  if (t =? 0) || Z.testbit bits 23 || (2 ^ 256 <=? t) then 0 else 2 ^ 256 / (t + 1).

Lemma compact_value_not_max c : 0 <= c < 2 ^ 32 -> compact_value c <> 2 ^ 256 - 1.
Proof.
  intros Hc. unfold compact_value. pose proof (compact_word_range c). pose proof (compact_size_range c Hc).
  destruct (Z.leb_spec (compact_size c) 3).
  - assert (0 < 256 ^ (3 - compact_size c)) by (apply Z.pow_pos_nonneg; lia).
    assert (compact_word c / 256 ^ (3 - compact_size c) <= compact_word c).
    { apply Z.div_le_upper_bound; nia. }
    lia.
  - replace (compact_size c - 3) with (Z.succ (compact_size c - 4)) by lia.
    rewrite Z.pow_succ_r by lia.
    set (x := compact_word c * _). intros E.
    assert (x mod 256 = 0) as Hx.
    { subst x. rewrite (Z.mul_comm 256), Z.mul_assoc. apply Z.mod_mul. lia. }
    rewrite E in Hx. assert ((2 ^ 256 - 1) mod 256 = 255) by (vm_compute; reflexivity). lia.
Qed.

Lemma div_pred_succ M d : 0 < d -> (M - d) / d + 1 = M / d.
Proof. intros Hd. replace (M - d) with (M + (-1) * d) by lia. rewrite Z.div_add by lia. lia. Qed.

Lemma GetBlockProof_value bits :
  0 <= bits < 2 ^ 32 ->
  exists w, GetBlockProof bits = Some w /\ wf256 w /\ val256 w = block_work bits.
Proof.
  intros Hb. unfold GetBlockProof, block_work.
  destruct (SetCompact_eq bits Hb) as (a & -> & Ha & Hv).
  rewrite EqualTo_value, Hv by (done || lia). cbn zeta.
  pose proof (compact_value_not_max bits Hb) as Hmax.
  set (t := compact_value bits) in *. destruct (of_u64_value 0) as [H0w H0v]; [lia |].
  destruct (Z.eqb_spec t 0) as [E | E]; cbn [negb andb orb].
  { rewrite E. rewrite orb_true_r. eauto. }
  destruct (Z.testbit bits 23); cbn [orb]; [eauto |].
  destruct (Z.leb_spec (2 ^ 256) t) as [Hge | Hlt]; cbn [orb]; [eauto |].
  assert (0 <= t) as Ht.
  { subst t. unfold compact_value. pose proof (compact_word_range bits).
    destruct (Z.leb_spec (compact_size bits) 3); [apply Z.div_pos; [lia | apply Z.pow_pos_nonneg; lia] | ].
    apply Z.mul_nonneg_nonneg; [lia | apply Z.pow_nonneg; lia]. }
  rewrite Z.mod_small in Hv |- * by lia. destruct (Z.eqb_spec t 0); [done |].
  destruct (of_u64_value 1) as [H1w H1v]; [lia |].
  destruct (op_add_value W256 a (of_u64 1) Ha H1w) as [Hsw Hsv]. change (32 * Z.of_nat 8) with 256 in *.
  rewrite Hv, H1v, Z.mod_small in Hsv by lia.
  destruct (op_not_value W256 a Ha) as [Hnw Hnv]. change (32 * Z.of_nat 8) with 256 in *. rewrite Hv in Hnv.
  destruct (op_div_value W256 _ _ Hnw Hsw) as (q & -> & Hqw & Hqv); [lia |]. cbn.
  destruct (op_add_value W256 q (of_u64 1) Hqw H1w) as [Hrw Hrv]. change (32 * Z.of_nat 8) with 256 in *.
  eexists. split; [done |]. split; [done |]. rewrite Hrv, H1v, Hqv, Hnv, Hsv.
  replace (2 ^ 256 - 1 - t) with (2 ^ 256 - (t + 1)) by lia. rewrite div_pred_succ by lia.
  apply Z.mod_small. split; [apply Z.div_pos; lia | apply Z.div_lt_upper_bound; lia].
Qed.

(** ** [AddToBlockIndex] keeps the tree well formed *)

Lemma walk_insert_fresh m p n r h b :
  m !! h = None -> walk m p n = Some r -> walk (<[h := b]> m) p n = Some r.
Proof.
  intros Hh. revert p. induction n as [| n IH]; intros p; [done |]. cbn [walk].
  destruct (m !! p) as [bp |] eqn:Hp; [| done]. cbn.
  rewrite lookup_insert_ne, Hp by congruence. cbn.
  destruct (pprev bp) as [q |]; [apply IH | done].
Qed.

Lemma ancestor_at_insert_fresh m p h r k b :
  m !! k = None -> ancestor_at m p h = Some r -> ancestor_at (<[k := b]> m) p h = Some r.
Proof.
  intros Hk. unfold ancestor_at. destruct (m !! p) as [bp |] eqn:Hp; [| done].
  rewrite lookup_insert_ne, Hp by congruence. cbn. destruct (_ || _); [done |].
  by apply walk_insert_fresh.
Qed.

Lemma wf_index_insert_fresh m k b c :
  m !! k = None -> wf_index m c -> wf_index (<[k := b]> m) c.
Proof.
  intros Hk. unfold wf_index. destruct (pprev c) as [q |]; [| done].
  intros (bq & Hq & H0 & Hn & Hs). exists bq. rewrite lookup_insert_ne by congruence.
  split; [done |]. split; [done |]. split; [done |].
  destruct Hs as [Hs | (s & Hs & Ha)]; [by left |]. right. exists s. split; [done |].
  by apply ancestor_at_insert_fresh.
Qed.

Lemma wf_store_insert_fresh m k b :
  m !! k = None -> wf_store m -> wf_index m b -> wf_store (<[k := b]> m).
Proof.
  intros Hk Hm Hb p c Hp. rewrite lookup_insert in Hp. case_decide.
  - injection Hp as <-. by apply wf_index_insert_fresh.
  - apply wf_index_insert_fresh; [done |]. by apply (Hm p).
Qed.

(** The data [AddToBlockIndex] derives from the parent. *)
Definition wf_meta (m : gmap ptr CBlockIndex) (b : CBlockIndex) : Prop :=
  wf256 (nChainWork b) /\ nTime b <= nTimeMax b /\ 0 <= nBits b < 2 ^ 32 /\
  match pprev b with
  | None => val256 (nChainWork b) = block_work (nBits b) /\ nTimeMax b = nTime b
  | Some q => exists bq, m !! q = Some bq /\
      nTimeMax b = Z.max (nTimeMax bq) (nTime b) /\
      val256 (nChainWork b) = (val256 (nChainWork bq) + block_work (nBits b)) mod 2 ^ 256
  end.

Definition wf_tree (m : gmap ptr CBlockIndex) : Prop :=
  wf_store m /\ map_Forall (fun _ b => wf_meta m b) m.

(** No header has more work than [pindexBestHeader]. *)
Definition best_ok (st : BlockIndexState) : Prop :=
  match pindexBestHeader st with
  | None => mapBlockIndex st = ∅
  | Some best => exists bb, mapBlockIndex st !! best = Some bb /\
      forall p b, mapBlockIndex st !! p = Some b -> val256 (nChainWork b) <= val256 (nChainWork bb)
  end.

Lemma wf_meta_insert_fresh m k b c : m !! k = None -> wf_meta m c -> wf_meta (<[k := b]> m) c.
Proof.
  intros Hk (H1 & H2 & H2' & H3). split; [done |]. split; [done |]. split; [done |].
  destruct (pprev c) as [q |]; [| done].
  destruct H3 as (bq & Hq & H). exists bq. rewrite lookup_insert_ne by congruence. done.
Qed.

Lemma wf_tree_insert_fresh m k b :
  m !! k = None -> wf_tree m -> wf_index m b -> wf_meta m b -> wf_tree (<[k := b]> m).
Proof.
  intros Hk [Hm Hf] Hb Hb'. split; [by apply wf_store_insert_fresh |].
  intros p c Hp. rewrite lookup_insert in Hp. case_decide.
  - injection Hp as <-. by apply wf_meta_insert_fresh.
  - apply wf_meta_insert_fresh; [done |]. by apply (Hf p).
Qed.

Lemma GetAncestor_loop_mono m fuel p k h b r :
  m !! b = None -> forall c, GetAncestor_loop m fuel p k h = Some r ->
  GetAncestor_loop (<[b := c]> m) fuel p k h = Some r.
Proof.
  intros Hb c. revert p k. induction fuel as [| fuel IH]; intros p k; cbn [GetAncestor_loop];
    destruct (k >? h); try done.
  destruct (m !! p) as [bp |] eqn:Hp; [| done]. rewrite lookup_insert_ne, Hp by congruence. cbn.
  assert ((q ← pprev bp; GetAncestor_loop m fuel q (k - 1) h) = Some r ->
          (q ← pprev bp; GetAncestor_loop (<[b:=c]> m) fuel q (k - 1) h) = Some r) as Hprev.
  { destruct (pprev bp) as [q |]; [cbn; apply IH | done]. }
  destruct (pskip bp) as [sk |]; [destruct (_ || _); [apply IH | done] | done].
Qed.

Lemma GetAncestor_mono m p h b c r :
  m !! b = None -> GetAncestor m p h = Some r -> GetAncestor (<[b := c]> m) p h = Some r.
Proof.
  intros Hb. unfold GetAncestor. destruct (m !! p) as [bp |] eqn:Hp; [| done].
  rewrite lookup_insert_ne, Hp by congruence. cbn. destruct (_ || _); [done |].
  destruct (GetAncestor_loop m _ p _ h) as [x |] eqn:E; [| done]. cbn. intros [= <-].
  by rewrite (GetAncestor_loop_mono m _ p _ h b x Hb c E).
Qed.

Lemma BuildSkip_new m hash b0 b q bq :
  wf_store m -> m !! hash = None -> pprev b = Some q -> m !! q = Some bq ->
  nHeight b = nHeight bq + 1 ->
  exists s, BuildSkip (<[hash := b]> (<[hash := b0]> m)) b = Some (with_pskip b (Some s)) /\
            ancestor_at m q (GetSkipHeight (nHeight b)) = Some s.
Proof.
  intros Hm Hh Hp Hq Hn. pose proof (wf_height m q bq Hm Hq) as H0.
  pose proof (GetSkipHeight_bounds (nHeight b) ltac:(lia)) as Hs.
  destruct (ancestor_at_some m q bq (GetSkipHeight (nHeight b)) Hm Hq) as (s & bs & Ha & _); [lia |].
  exists s. split; [| done]. unfold BuildSkip. rewrite Hp, insert_insert_eq.
  rewrite (GetAncestor_mono m q _ hash b (Some s) Hh); [done |].
  rewrite (GetAncestor_eq m q bq) by done. by rewrite Ha.
Qed.

(** The end of [AddToBlockIndex]: the finished entry goes into the map and
    may become the best header. *)
Lemma best_ok_insert st hash new :
  best_ok st -> mapBlockIndex st !! hash = None ->
  (forall p b, mapBlockIndex st !! p = Some b -> wf256 (nChainWork b)) -> wf256 (nChainWork new) ->
  exists better,
    match pindexBestHeader st with
    | None => Some true
    | Some best => bb ← <[hash := new]> (mapBlockIndex st) !! best;
                   Some (CompareTo W256 (nChainWork bb) (nChainWork new) <? 0)
    end = Some better /\
    best_ok (mkBIState (<[hash := new]> (mapBlockIndex st))
               (if better : bool then Some hash else pindexBestHeader st)
               ({[ hash ]} ∪ setDirtyBlockIndex st)).
Proof.
  intros Hbest Hh Hw Hnw. unfold best_ok in *. cbn.
  destruct (pindexBestHeader st) as [best |].
  - destruct Hbest as (bb & Hbb & Hmax). rewrite lookup_insert_ne, Hbb by congruence. cbn.
    rewrite CompareTo_value by (try done; by apply (Hw best)).
    eexists. split; [done |].
    destruct (Z.compare_spec (val256 (nChainWork bb)) (val256 (nChainWork new))) as [E | E | E]; cbn.
    + exists bb. rewrite lookup_insert_ne by congruence. split; [done |].
      intros p b Hp. rewrite lookup_insert in Hp. case_decide; [injection Hp as <-; lia | by apply (Hmax p)].
    + exists new. rewrite lookup_insert_eq. split; [done |].
      intros p b Hp. rewrite lookup_insert in Hp. case_decide; [injection Hp as <-; lia |].
      specialize (Hmax p b Hp). lia.
    + exists bb. rewrite lookup_insert_ne by congruence. split; [done |].
      intros p b Hp. rewrite lookup_insert in Hp. case_decide; [injection Hp as <-; lia | by apply (Hmax p)].
  - exists true. split; [done |]. exists new. rewrite lookup_insert_eq. split; [done |].
    intros p b Hp. rewrite Hbest, insert_empty in Hp. apply lookup_singleton_Some in Hp as [_ <-]. done.
Qed.

Lemma RaiseValidity_snd b v :
  let b' := snd (RaiseValidity b v) in
  pprev b' = pprev b /\ pskip b' = pskip b /\ nHeight b' = nHeight b /\ nChainWork b' = nChainWork b /\
  nTime b' = nTime b /\ nBits b' = nBits b /\ nTimeMax b' = nTimeMax b.
Proof. unfold RaiseValidity. destruct (negb _); [done |]. destruct (_ <? _); done. Qed.

Lemma AddToBlockIndex_link_ok m hash block :
  wf_store m -> m !! hash = None -> hash <> hdr_hashPrevBlock block ->
  exists new1, AddToBlockIndex_link (<[hash := new_index block]> m) hash block = Some new1 /\
    nBits new1 = hdr_nBits block /\ wf_index m new1 /\ pprev new1 <> Some hash.
Proof.
  intros Hm Hh Hne. unfold AddToBlockIndex_link. rewrite lookup_insert_ne by done.
  destruct (m !! hdr_hashPrevBlock block) as [prev |] eqn:Hprev; [| by exists (new_index block)].
  cbn zeta. match goal with |- context [BuildSkip _ ?b] => set (b1 := b) end.
  destruct (BuildSkip_new m hash (new_index block) b1 (hdr_hashPrevBlock block) prev)
    as (s & -> & Hs); try done.
  exists (with_pskip b1 (Some s)). split; [done |]. split; [done |]. split; [| cbn; congruence].
  unfold wf_index. cbn. exists prev. pose proof (wf_height _ _ _ Hm Hprev).
  split; [done |]. split; [done |]. split; [done |]. right. eauto.
Qed.

Lemma AddToBlockIndex_finish_ok st hash b0 new1 :
  wf_tree (mapBlockIndex st) -> best_ok st -> mapBlockIndex st !! hash = None ->
  0 <= nBits new1 < 2 ^ 32 -> wf_index (mapBlockIndex st) new1 -> pprev new1 <> Some hash ->
  exists st', AddToBlockIndex_finish st (<[hash := b0]> (mapBlockIndex st)) hash new1 = Some (st', hash) /\
    wf_tree (mapBlockIndex st') /\ best_ok st' /\
    mapBlockIndex st ⊆ mapBlockIndex st' /\ is_Some (mapBlockIndex st' !! hash).
Proof.
  intros [Hm Hf] Hbest Hh Hbits Hidx Hne. unfold AddToBlockIndex_finish.
  destruct (GetBlockProof_value (nBits new1) Hbits) as (w & -> & Hww & Hwv). cbn [mbind option_bind].
  set (prev := match pprev new1 with Some q => _ | None => None end). cbn zeta. rewrite insert_insert_eq.
  match goal with |- context [RaiseValidity ?x ?y] =>
    pose proof (RaiseValidity_snd x y) as HR; set (new2 := snd (RaiseValidity x y)) in * end.
  cbn in HR. destruct HR as (R1 & R2 & R3 & R4 & R5 & R6 & R7).
  assert (match pprev new1 with
          | Some q => exists bq, mapBlockIndex st !! q = Some bq /\ prev = Some bq
          | None => prev = None end) as Hprev.
  { subst prev. unfold wf_index in Hidx. destruct (pprev new1) as [q |]; [| done].
    destruct Hidx as (bq & Hq & _). exists bq. rewrite lookup_insert_ne by congruence. done. }
  destruct (op_add_value W256 (match prev with Some b => nChainWork b | None => of_u64 0 end) w) as [Haw Hav].
  { clearbody prev. destruct (pprev new1) as [q |]; [destruct Hprev as (bq & Hq & ->); by apply (Hf q) |].
    subst prev. apply of_u64_value. lia. }
  { done. }
  change (32 * Z.of_nat 8) with 256 in Hav.
  assert (wf_meta (mapBlockIndex st) new2) as Hmeta.
  { unfold wf_meta. rewrite R1, R4, R5, R6, R7. clearbody prev new2. split; [done |].
    split; [destruct prev; lia |]. split; [done |]. destruct (pprev new1) as [q |].
    - destruct Hprev as (bq & Hq & ->). exists bq. split; [done |]. split; [done |]. by rewrite Hav, Hwv.
    - subst prev. split; [| done]. rewrite Hav, (proj2 (of_u64_value 0 ltac:(lia))), <- Hwv.
      apply Z.mod_small. apply (value_range W256 w Hww). }
  destruct (best_ok_insert st hash new2 Hbest Hh) as (better & -> & Hbest').
  { intros p b Hp. by apply (Hf p). }
  { by rewrite R4. }
  cbn [mbind option_bind]. eexists. split; [done |]. cbn [mapBlockIndex].
  split; [apply wf_tree_insert_fresh; try done; unfold wf_index in *; by rewrite R1, R2, R3 |].
  split; [done |]. split; [by apply insert_subseteq |]. rewrite lookup_insert_eq. done.
Qed.

(** ** Properties *)

(** [AddToBlockIndex] on a well-formed block tree never fails an assertion,
    leaves every existing entry untouched, and preserves the tree invariant:
    parents exist one level below, each skip pointer is the ancestor at
    [GetSkipHeight], [nChainWork] is the parent's work plus
    [2^256/(target+1)], [nTimeMax] is the running maximum of the block times,
    and [pindexBestHeader] is an entry of maximal work. *)
Theorem AddToBlockIndex_invariant (st : BlockIndexState) (hash : Z) (block : CBlockHeader) :
  wf_tree (mapBlockIndex st) -> best_ok st ->
  hash <> hdr_hashPrevBlock block -> 0 <= hdr_nBits block < 2 ^ 32 ->
  exists st', AddToBlockIndex st hash block = Some (st', hash) /\
    wf_tree (mapBlockIndex st') /\ best_ok st' /\
    mapBlockIndex st ⊆ mapBlockIndex st' /\ is_Some (mapBlockIndex st' !! hash).
Proof.
  intros Htree Hbest Hne Hbits. unfold AddToBlockIndex.
  destruct (mapBlockIndex st !! hash) as [b |] eqn:Hh; [exists st; by rewrite Hh |].
  destruct (AddToBlockIndex_link_ok _ hash block (proj1 Htree) Hh Hne) as (new1 & -> & Hb & Hi & Hp).
  cbn [mbind option_bind]. apply AddToBlockIndex_finish_ok; try done. by rewrite Hb.
Qed.

Definition example_genesis : CBlockHeader := mkHeader 4 0 1000 0x1e00ffff.

