(* ===== verification/ActiveChain.v ===== *)
(** * The active chain: correctness of [CChain] and [LastCommonAncestor]
      ([src/chain.{h,cpp}])

    The vector [vChain] of a [CChain] is the path from the genesis block
    to the tip.  [SetTip] rebuilds it incrementally; [FindFork] and
    [LastCommonAncestor] find the highest common ancestor; and
    [FindEarliestAtLeast] binary-searches it by [nTimeMax]. *)

From stdpp Require Import gmap.
From S2P Require Import Prelude ArithUint256 Compact Chain.

(** ** A checker for concrete stores *)

Definition check_index (m : gmap ptr CBlockIndex) (b : CBlockIndex) : bool :=
  match pprev b with
  | None => (nHeight b =? 0) && bool_decide (pskip b = None)
  | Some q =>
      match m !! q with
      | None => false
      | Some bq => (0 <=? nHeight bq) && (nHeight b =? nHeight bq + 1) &&
          (bool_decide (pskip b = None) ||
           bool_decide (pskip b = ancestor_at m q (GetSkipHeight (nHeight b))))
      end
  end.

Definition check_store (m : gmap ptr CBlockIndex) : bool :=
  forallb (fun '(_, b) => check_index m b) (map_to_list m).

Lemma check_store_sound m : check_store m = true -> wf_store m.
Proof.
  unfold check_store. rewrite forallb_forall. intros H p b Hp.
  apply elem_of_map_to_list, list_elem_of_In in Hp. apply H in Hp. cbn in Hp.
  unfold check_index in Hp. unfold wf_index. destruct (pprev b) as [q |].
  - destruct (m !! q) as [bq |] eqn:Hq; [| done]. exists bq.
    apply andb_true_iff in Hp as [[H1%Z.leb_le H2%Z.eqb_eq]%andb_true_iff H3].
    split; [done |]. split; [done |]. split; [done |].
    apply orb_true_iff in H3 as [H3%bool_decide_eq_true | H3%bool_decide_eq_true]; [by left |].
    destruct (pskip b) as [s |]; [| by left]. right. exists s. done.
  - apply andb_true_iff in Hp as [H1%Z.eqb_eq H2%bool_decide_eq_true]. done.
Qed.

Definition check_meta (m : gmap ptr CBlockIndex) (b : CBlockIndex) : bool :=
  (length (nChainWork b) =? 8)%nat &&
  forallb (fun l => (0 <=? l) && (l <? 2 ^ 32)) (nChainWork b) &&
  (nTime b <=? nTimeMax b) && (0 <=? nBits b) && (nBits b <? 2 ^ 32) &&
  match pprev b with
  | None => (val256 (nChainWork b) =? block_work (nBits b)) && (nTimeMax b =? nTime b)
  | Some q =>
      match m !! q with
      | None => false
      | Some bq => (nTimeMax b =? Z.max (nTimeMax bq) (nTime b)) &&
          (val256 (nChainWork b) =? (val256 (nChainWork bq) + block_work (nBits b)) mod 2 ^ 256)
      end
  end.

Definition check_tree (m : gmap ptr CBlockIndex) : bool :=
  check_store m && forallb (fun '(_, b) => check_meta m b) (map_to_list m).

Lemma check_meta_sound m b : check_meta m b = true -> wf_meta m b.
Proof.
  unfold check_meta, wf_meta. rewrite !andb_true_iff.
  intros (((((Hl & Hf) & Ht) & Hb1) & Hb2) & Hp).
  apply Nat.eqb_eq in Hl. apply Z.leb_le in Ht, Hb1. apply Z.ltb_lt in Hb2.
  split; [| split; [done | split; [done |]]].
  - split; [done |]. apply Forall_forall. intros x Hx. apply list_elem_of_In in Hx.
    rewrite forallb_forall in Hf. apply Hf, andb_true_iff in Hx as [?%Z.leb_le ?%Z.ltb_lt]. done.
  - destruct (pprev b) as [q |].
    + destruct (m !! q) as [bq |]; [| done]. exists bq.
      apply andb_true_iff in Hp as [?%Z.eqb_eq ?%Z.eqb_eq]. done.
    + by apply andb_true_iff in Hp as [?%Z.eqb_eq ?%Z.eqb_eq].
Qed.

Lemma check_tree_sound m : check_tree m = true -> wf_tree m.
Proof.
  unfold check_tree. rewrite andb_true_iff, forallb_forall. intros [Hs Hf].
  split; [by apply check_store_sound |]. intros p b Hp.
  apply elem_of_map_to_list, list_elem_of_In in Hp. apply check_meta_sound. by apply Hf in Hp.
Qed.

(** ** Paths *)

(** The path from the root of the tree to [p], a block at height [n]. *)
Definition path (m : gmap ptr CBlockIndex) (p : ptr) (n : nat) : CChain :=
  map (fun i => walk m p (n - i)) (seq 0 (n + 1)).

(** [v] is the [vChain] of some tip (or of the empty chain). *)
Definition chain_ok (m : gmap ptr CBlockIndex) (v : CChain) : Prop :=
  v = [] \/ exists t bt, m !! t = Some bt /\ v = path m t (Z.to_nat (nHeight bt)).

Definition is_ancestor (m : gmap ptr CBlockIndex) (p q : ptr) : Prop :=
  exists n, walk m p n = Some q.

Lemma length_path m p n : length (path m p n) = (n + 1)%nat.
Proof. unfold path. by rewrite length_map, length_seq. Qed.

Lemma lookup_path m p n i : (i <= n)%nat -> path m p n !! i = Some (walk m p (n - i)).
Proof.
  intros Hi. unfold path. rewrite list_lookup_fmap.
  rewrite (lookup_seq_lt 0 (n + 1) i) by lia. done.
Qed.

Lemma path_ext m p n v :
  length v = (n + 1)%nat -> (forall i, (i <= n)%nat -> v !! i = Some (walk m p (n - i))) -> v = path m p n.
Proof.
  intros Hl Hv. apply list_eq. intros i. destruct (decide (i <= n)%nat).
  - by rewrite Hv, lookup_path.
  - rewrite !lookup_ge_None_2; rewrite ?length_path; (done || lia).
Qed.

Section WithStore.
Context (m : gmap ptr CBlockIndex) (Hm : wf_store m).

Lemma walk_lookup p b n q : m !! p = Some b -> walk m p n = Some q -> is_Some (m !! q).
Proof using Hm.
  revert p b. induction n as [| n IH]; intros p b Hp; cbn [walk]; [intros [= <-]; eauto |].
  rewrite Hp. cbn. pose proof (Hm p b Hp) as Hb. unfold wf_index in Hb.
  destruct (pprev b) as [r |]; [| done]. destruct Hb as (br & Hr & _). cbn. by apply (IH r br).
Qed.

Lemma walk_bound p b n q : m !! p = Some b -> walk m p n = Some q -> Z.of_nat n <= nHeight b.
Proof using Hm.
  intros Hp Hw. destruct (walk_lookup p b n q Hp Hw) as [bq Hq].
  pose proof (walk_height m p b n q bq Hm Hp Hw Hq). pose proof (wf_height m q bq Hm Hq). lia.
Qed.

(** The ancestors of a block are totally ordered by height. *)
Lemma ancestor_of_ancestor p b q bq r br :
  m !! p = Some b -> m !! q = Some bq -> m !! r = Some br ->
  is_ancestor m p q -> is_ancestor m p r -> nHeight br <= nHeight bq -> is_ancestor m q r.
Proof using Hm.
  intros Hp Hq Hr [n Hn] [k Hk] Hle.
  pose proof (walk_height m p b n q bq Hm Hp Hn Hq). pose proof (walk_height m p b k r br Hm Hp Hk Hr).
  exists (k - n)%nat. replace k with (n + (k - n))%nat in Hk by lia.
  rewrite walk_add, Hn in Hk. done.
Qed.

Lemma is_ancestor_trans p q r : is_ancestor m p q -> is_ancestor m q r -> is_ancestor m p r.
Proof. intros [n Hn] [k Hk]. exists (n + k)%nat. by rewrite walk_add, Hn. Qed.

(** [Contains] decides membership in the path of the tip. *)
Lemma chain_at_path t bt c bc :
  m !! t = Some bt -> m !! c = Some bc ->
  chain_at (path m t (Z.to_nat (nHeight bt))) (nHeight bc) = Some c <-> is_ancestor m t c.
Proof using Hm.
  intros Ht Hc. pose proof (wf_height m t bt Hm Ht). pose proof (wf_height m c bc Hm Hc).
  unfold chain_at. rewrite length_path, Z.geb_leb. split.
  - intros Heq. destruct (Z.ltb_spec (nHeight bc) 0); [lia |].
    destruct (Z.leb_spec (Z.of_nat (Z.to_nat (nHeight bt) + 1)) (nHeight bc)); [done |]. cbn [orb] in Heq.
    rewrite nth_lookup, lookup_path in Heq by lia. cbn in Heq. eexists; exact Heq.
  - intros [n Hn]. pose proof (walk_height m t bt n c bc Hm Ht Hn Hc) as Hh. bdestruct_all.
    rewrite nth_lookup, lookup_path by lia. cbn. rewrite <- Hn. f_equal. lia.
Qed.

(** ** [SetTip] *)

Lemma chain_resize_length v n : length (chain_resize v n) = n.
Proof. unfold chain_resize. rewrite length_app, length_take, length_replicate. lia. Qed.

Lemma chain_resize_lookup v n i x :
  chain_resize v n !! i = Some (Some x) -> v !! i = Some (Some x).
Proof.
  unfold chain_resize. intros H. apply lookup_app_Some in H as [H | [_ H]].
  - by apply lookup_take_Some in H as [? _].
  - apply lookup_replicate in H as [? _]. done.
Qed.

(** If the old chain already holds the block of the new path at height
    [k], the two paths agree below [k]. *)
Lemma chain_ok_below v p b k q i :
  chain_ok m v -> m !! p = Some b -> (Z.of_nat k <= nHeight b) -> (i <= k)%nat ->
  walk m p (Z.to_nat (nHeight b) - k) = Some q -> v !! k = Some (Some q) ->
  v !! i = Some (walk m p (Z.to_nat (nHeight b) - i)).
Proof using Hm.
  intros Hv Hp Hk Hi Hw Hvk. destruct Hv as [-> | (t & bt & Ht & ->)]; [done |].
  set (nt := Z.to_nat (nHeight bt)) in *.
  assert (k <= nt)%nat as Hkt.
  { apply lookup_lt_Some in Hvk. rewrite length_path in Hvk. lia. }
  rewrite lookup_path in Hvk by lia. injection Hvk as Hvk.
  rewrite lookup_path by lia. f_equal.
  replace (nt - i)%nat with ((nt - k) + (k - i))%nat by lia.
  replace (Z.to_nat (nHeight b) - i)%nat with ((Z.to_nat (nHeight b) - k) + (k - i))%nat by lia.
  rewrite !walk_add, Hvk, Hw. done.
Qed.

Lemma SetTip_loop_correct v0 p b k v q fuel :
  chain_ok m v0 -> m !! p = Some b ->
  let n := Z.to_nat (nHeight b) in
  (k <= n)%nat -> (k + 1 <= fuel)%nat -> walk m p (n - k) = Some q -> length v = (n + 1)%nat ->
  (forall i, (k < i <= n)%nat -> v !! i = Some (walk m p (n - i))) ->
  (forall i, (i <= k)%nat -> v !! i = chain_resize v0 (n + 1) !! i) ->
  SetTip_loop m fuel v (Some q) = Some (path m p n).
Proof using Hm.
  intros Hv0 Hp n. revert v q fuel. pose proof (wf_height m p b Hm Hp) as H0.
  induction k as [| k IH]; intros v q fuel Hk Hf Hw Hl Hhi Hlo;
    (destruct fuel as [| fuel]; [lia |]); cbn [SetTip_loop];
    destruct (walk_lookup p b _ q Hp Hw) as [bq Hq]; rewrite Hq; cbn [mbind option_bind];
    pose proof (walk_height m p b _ q bq Hm Hp Hw Hq) as Hh;
    match goal with |- context [v !! Z.to_nat (nHeight bq)] =>
      replace (Z.to_nat (nHeight bq)) with (n - (n - Z.to_nat (nHeight bq)))%nat by lia end.
  - replace (n - (n - Z.to_nat (nHeight bq)))%nat with 0%nat by lia.
    destruct (lookup_lt_is_Some_2 v 0) as [x Hx]; [lia |]. rewrite Hx. cbn [mbind option_bind].
    case_decide as Hd.
    + subst x. f_equal. apply path_ext; [done |]. intros i Hi.
      destruct (decide (i = 0%nat)) as [-> | Hne]; [by rewrite Hx, Hw | apply Hhi; lia].
    + assert (pprev bq = None) as Hpn.
      { pose proof (Hm q bq Hq) as Hb. unfold wf_index in Hb.
        destruct (pprev bq); [destruct Hb as (? & _ & ? & ? & _); lia | done]. }
      rewrite Hpn. destruct fuel; cbn [SetTip_loop]; f_equal;
        (apply path_ext; [by rewrite length_insert |]; intros i Hi;
         destruct (decide (i = 0%nat)) as [-> | Hne];
         [rewrite list_lookup_insert_eq by lia; by rewrite Hw
         | rewrite list_lookup_insert_ne by lia; apply Hhi; lia]).
  - replace (n - (n - Z.to_nat (nHeight bq)))%nat with (S k) by lia.
    destruct (lookup_lt_is_Some_2 v (S k)) as [x Hx]; [lia |]. rewrite Hx. cbn [mbind option_bind].
    case_decide as Hd.
    + subst x. f_equal. apply path_ext; [done |]. intros i Hi.
      destruct (decide (S k < i)%nat); [apply Hhi; lia |]. rewrite Hlo by lia.
      rewrite Hlo in Hx by lia. pose proof (chain_resize_lookup _ _ _ _ Hx) as Hx0.
      pose proof (chain_ok_below v0 p b (S k) q i Hv0 Hp ltac:(lia) ltac:(lia) Hw Hx0) as Hi0.
      unfold chain_resize. rewrite lookup_app_l.
      2:{ apply lookup_lt_Some in Hx0. rewrite length_take. lia. }
      rewrite lookup_take_lt by lia. done.
    + assert (exists r, pprev bq = Some r /\ walk m p (n - k) = Some r) as (r & Hr & Hwr).
      { destruct (walk_exists m p b (n - k) Hm Hp) as (r & br & Hwr & _); [lia |].
        exists r. split; [| done]. replace (n - k)%nat with ((n - S k) + 1)%nat in Hwr by lia.
        rewrite walk_add, Hw in Hwr. cbn in Hwr. rewrite Hq in Hwr. cbn in Hwr.
        by destruct (pprev bq); cbn in Hwr. }
      rewrite Hr. apply IH; try lia; try done; [by rewrite length_insert | |].
      * intros i Hi. destruct (decide (i = S k)) as [-> | Hne];
          [rewrite list_lookup_insert_eq by lia; by rewrite Hw |].
        rewrite list_lookup_insert_ne by lia. apply Hhi. lia.
      * intros i Hi. rewrite list_lookup_insert_ne by lia. apply Hlo. lia.
Qed.

Lemma SetTip_eq v p b :
  chain_ok m v -> m !! p = Some b -> SetTip m v (Some p) = Some (path m p (Z.to_nat (nHeight b))).
Proof using Hm.
  intros Hv Hp. pose proof (wf_height m p b Hm Hp). unfold SetTip. rewrite Hp. cbn [mbind option_bind].
  replace (Z.to_nat (nHeight b + 1)) with (Z.to_nat (nHeight b) + 1)%nat by lia.
  apply (SetTip_loop_correct v p b (Z.to_nat (nHeight b))); try done; try lia.
  - by replace (Z.to_nat (nHeight b) - Z.to_nat (nHeight b))%nat with 0%nat by lia.
  - apply chain_resize_length.
Qed.

(** ** Common ancestors *)

(** [r] is the highest common ancestor of [p] and [t]: every common
    ancestor is an ancestor of [r]. *)
Definition highest_common (p t : ptr) (r : option ptr) : Prop :=
  match r with
  | Some f => is_ancestor m p f /\ is_ancestor m t f /\
              forall q, is_ancestor m p q -> is_ancestor m t q -> is_ancestor m f q
  | None => forall q, is_ancestor m p q -> is_ancestor m t q -> False
  end.

Lemma is_ancestor_refl p : is_ancestor m p p.
Proof. by exists 0%nat. Qed.

Lemma is_ancestor_lookup p b q : m !! p = Some b -> is_ancestor m p q -> is_Some (m !! q).
Proof using Hm. intros Hp [n Hn]. by apply (walk_lookup p b n). Qed.

(** An ancestor is the block itself or an ancestor of its parent. *)
Lemma is_ancestor_step p b q :
  m !! p = Some b ->
  is_ancestor m p q <-> q = p \/ exists r, pprev b = Some r /\ is_ancestor m r q.
Proof.
  intros Hp. split.
  - intros [[| n] Hn]; cbn in Hn; [left; congruence |]. rewrite Hp in Hn. cbn in Hn.
    destruct (pprev b) as [r |]; [| done]. right. exists r. split; [done |]. by exists n.
  - intros [-> | (r & Hr & [n Hn])]; [apply is_ancestor_refl |].
    exists (S n). cbn. rewrite Hp. cbn. by rewrite Hr.
Qed.

(** Two different blocks at one height are not related. *)
Lemma same_height_ancestor p b q bq :
  m !! p = Some b -> m !! q = Some bq -> nHeight b = nHeight bq -> is_ancestor m p q -> p = q.
Proof using Hm.
  intros Hp Hq Hh [n Hn]. pose proof (walk_height m p b n q bq Hm Hp Hn Hq).
  replace n with 0%nat in Hn by lia. by injection Hn.
Qed.

Lemma parent_height p b r :
  m !! p = Some b -> pprev b = Some r ->
  exists br, m !! r = Some br /\ 0 <= nHeight br /\ nHeight b = nHeight br + 1.
Proof using Hm.
  intros Hp Hr. pose proof (Hm p b Hp) as Hb. unfold wf_index in Hb. rewrite Hr in Hb.
  destruct Hb as (br & ? & ? & ? & _). eauto.
Qed.

(** Stepping both sides of a common-ancestor query down. *)
Lemma highest_common_step c bc r t x :
  m !! c = Some bc -> pprev bc = Some r -> ~ is_ancestor m t c ->
  highest_common r t x -> highest_common c t x.
Proof.
  intros Hc Hr Hn Hx.
  assert (forall q, is_ancestor m c q -> is_ancestor m t q -> is_ancestor m r q) as Hstep.
  { intros q Hq1 Hq2. apply (is_ancestor_step c bc q Hc) in Hq1 as [-> | (r' & Hr' & Hq1)]; [done |].
    congruence. }
  destruct x as [f |]; cbn in *; [| by eauto].
  destruct Hx as (H1 & H2 & H3). split; [| split; [done | by eauto]].
  apply (is_ancestor_step c bc f Hc). eauto.
Qed.

Lemma highest_common_sym p t x : highest_common p t x -> highest_common t p x.
Proof. destruct x; cbn; [intros (? & ? & H); eauto | eauto]. Qed.

(** Descending to an ancestor that is at least as high as the other side
    does not change the highest common ancestor. *)
Lemma highest_common_descend p bp c bc t bt x :
  m !! p = Some bp -> m !! c = Some bc -> m !! t = Some bt -> is_ancestor m p c ->
  nHeight bt <= nHeight bc -> highest_common c t x -> highest_common p t x.
Proof using Hm.
  intros Hp Hc Ht Hpc Hle Hx.
  assert (forall q, is_ancestor m p q -> is_ancestor m t q -> is_ancestor m c q) as Hstep.
  { intros q Hq1 Hq2. destruct (is_ancestor_lookup p bp q Hp Hq1) as [bq Hq].
    apply (ancestor_of_ancestor p bp c bc q bq); try done.
    destruct Hq2 as [k Hk]. pose proof (walk_height m t bt k q bq Hm Ht Hk Hq). lia. }
  destruct x as [f |]; cbn in *; [| by eauto].
  destruct Hx as (H1 & H2 & H3). split; [by apply (is_ancestor_trans p c f) | by eauto].
Qed.

Lemma GetAncestor_ancestor p b h :
  m !! p = Some b -> 0 <= h <= nHeight b ->
  exists c bc, GetAncestor m p h = Some (Some c) /\ m !! c = Some bc /\ nHeight bc = h /\ is_ancestor m p c.
Proof using Hm.
  intros Hp Hh. destruct (walk_exists m p b (Z.to_nat (nHeight b - h)) Hm Hp) as (c & bc & Hw & Hc & Hhc); [lia |].
  exists c, bc. split; [| split; [done | split; [lia | by eexists]]].
  rewrite (GetAncestor_eq m p b h Hm Hp). unfold ancestor_at. rewrite Hp. cbn. rewrite Z.gtb_ltb. bdestruct_all. by rewrite Hw.
Qed.

Lemma FindFork_loop_correct t bt fuel c bc :
  m !! t = Some bt -> m !! c = Some bc -> nHeight bc < Z.of_nat fuel ->
  exists r, FindFork_loop m fuel (path m t (Z.to_nat (nHeight bt))) (Some c) = Some r /\ highest_common c t r.
Proof using Hm.
  intros Ht. revert c bc. induction fuel as [| fuel IH]; intros c bc Hc Hf;
    [pose proof (wf_height m c bc Hm Hc); lia |].
  cbn [FindFork_loop]. unfold Contains. rewrite Hc. cbn [mbind option_bind].
  pose proof (chain_at_path t bt c bc Ht Hc) as Hin. case_bool_decide as Hd.
  - exists (Some c). split; [done |]. apply Hin in Hd. split; [apply is_ancestor_refl | by eauto].
  - destruct (pprev bc) as [r |] eqn:Hr.
    + destruct (parent_height c bc r Hc Hr) as (br & Hbr & ? & ?).
      destruct (IH r br Hbr ltac:(lia)) as (x & Hx & Hspec). exists x. split; [done |].
      apply (highest_common_step c bc r t x); [done | done | by rewrite <- Hin | done].
    + exists None. split; [by destruct fuel |]. intros q Hq1 Hq2.
      apply (is_ancestor_step c bc q Hc) in Hq1 as [-> | (r' & Hr' & _)]; [by apply Hd, Hin | congruence].
Qed.

Lemma LastCommonAncestor_loop_correct fuel a ba b bb :
  m !! a = Some ba -> m !! b = Some bb -> nHeight ba = nHeight bb -> nHeight ba < Z.of_nat fuel ->
  exists r, LastCommonAncestor_loop m fuel (Some a) (Some b) = Some (r, r) /\ highest_common a b r.
Proof using Hm.
  revert a ba b bb. induction fuel as [| fuel IH]; intros a ba b bb Ha Hb Hh Hf;
    [pose proof (wf_height m a ba Hm Ha); lia |].
  cbn [LastCommonAncestor_loop]. case_decide as Hd.
  { subst b. exists (Some a). split; [done |]. cbn. auto using is_ancestor_refl. }
  rewrite Ha. cbn [mbind option_bind]. rewrite Hb. cbn [mbind option_bind].
  assert (~ is_ancestor m b a) as Hba.
  { intros H. apply Hd. symmetry. by apply (same_height_ancestor b bb a ba). }
  destruct (pprev ba) as [ra |] eqn:Hra; destruct (pprev bb) as [rb |] eqn:Hrb.
  - destruct (parent_height a ba ra Ha Hra) as (bra & Hbra & ? & ?).
    destruct (parent_height b bb rb Hb Hrb) as (brb & Hbrb & ? & ?).
    destruct (IH ra bra rb brb Hbra Hbrb ltac:(lia) ltac:(lia)) as (x & Hx & Hspec).
    exists x. split; [done |]. apply (highest_common_step a ba ra b x); [done | done | done |].
    apply highest_common_sym, (highest_common_step b bb rb ra x); [done | done | | by apply highest_common_sym].
    intros [n Hn]. pose proof (walk_height m ra bra n b bb Hm Hbra Hn Hb). lia.
  - destruct (parent_height a ba ra Ha Hra) as (bra & Hbra & ? & ?).
    pose proof (Hm b bb Hb) as Hw. unfold wf_index in Hw. rewrite Hrb in Hw. lia.
  - destruct (parent_height b bb rb Hb Hrb) as (brb & Hbrb & ? & ?).
    pose proof (Hm a ba Ha) as Hw. unfold wf_index in Hw. rewrite Hra in Hw. lia.
  - exists None. split; [by destruct fuel |]. intros q Hq1 Hq2.
    apply (is_ancestor_step a ba q Ha) in Hq1 as [-> | (r' & Hr' & _)]; [done | congruence].
Qed.

Lemma FindFork_correct t bt p bp :
  m !! t = Some bt -> m !! p = Some bp ->
  exists r, FindFork m (path m t (Z.to_nat (nHeight bt))) (Some p) = Some r /\ highest_common p t r.
Proof using Hm.
  intros Ht Hp. pose proof (wf_height m t bt Hm Ht). pose proof (wf_height m p bp Hm Hp).
  unfold FindFork. rewrite Hp. cbn [mbind option_bind].
  assert (Height (path m t (Z.to_nat (nHeight bt))) = nHeight bt) as ->
    by (unfold Height; rewrite length_path; lia).
  rewrite Z.gtb_ltb. destruct (Z.ltb_spec (nHeight bt) (nHeight bp)) as [Hgt | Hle].
  - destruct (GetAncestor_ancestor p bp (nHeight bt) Hp) as (c & bc & -> & Hc & Hhc & Hpc); [lia |].
    cbn [mbind option_bind].
    destruct (FindFork_loop_correct t bt (Z.to_nat (nHeight bp) + 1) c bc Ht Hc) as (r & Hr & Hs); [lia |].
    exists r. split; [done |]. apply (highest_common_descend p bp c bc t bt); (done || lia).
  - apply (FindFork_loop_correct t bt _ p bp Ht Hp). lia.
Qed.

Lemma LastCommonAncestor_correct a ba b bb :
  m !! a = Some ba -> m !! b = Some bb ->
  exists r, LastCommonAncestor m a b = Some r /\ highest_common a b r.
Proof using Hm.
  intros Ha Hb. pose proof (wf_height m a ba Hm Ha). pose proof (wf_height m b bb Hm Hb).
  unfold LastCommonAncestor. rewrite Ha. cbn [mbind option_bind]. rewrite Hb. cbn [mbind option_bind].
  rewrite !Z.gtb_ltb.
  destruct (Z.ltb_spec (nHeight bb) (nHeight ba)) as [Hgt | Hle];
    [| destruct (Z.ltb_spec (nHeight ba) (nHeight bb)) as [Hgt | Hle']].
  - destruct (GetAncestor_ancestor a ba (nHeight bb) Ha) as (c & bc & -> & Hc & Hhc & Hpc); [lia |].
    cbn [mbind option_bind].
    destruct (LastCommonAncestor_loop_correct (Z.to_nat (nHeight ba) + 1) c bc b bb Hc Hb)
      as (r & -> & Hs); [lia | lia |].
    exists r. cbn [mbind option_bind]. rewrite decide_True by done. split; [done |].
    apply (highest_common_descend a ba c bc b bb); (done || lia).
  - destruct (GetAncestor_ancestor b bb (nHeight ba) Hb) as (c & bc & -> & Hc & Hhc & Hpc); [lia |].
    cbn [mbind option_bind].
    destruct (LastCommonAncestor_loop_correct (Z.to_nat (nHeight ba) + 1) a ba c bc Ha Hc)
      as (r & -> & Hs); [lia | lia |].
    exists r. cbn [mbind option_bind]. rewrite decide_True by done. split; [done |].
    apply highest_common_sym, (highest_common_descend b bb c bc a ba); try (done || lia).
    by apply highest_common_sym.
  - cbn [mbind option_bind].
    destruct (LastCommonAncestor_loop_correct (Z.to_nat (nHeight ba) + 1) a ba b bb Ha Hb)
      as (r & -> & Hs); [lia | lia |].
    exists r. cbn [mbind option_bind]. by rewrite decide_True.
Qed.

Lemma highest_common_unique p bp t x y :
  m !! p = Some bp -> highest_common p t x -> highest_common p t y -> x = y.
Proof using Hm.
  intros Hp Hx Hy.
  destruct x as [f |], y as [g |]; cbn in *; [| destruct Hx as (? & ? & _); exfalso; eauto
    | destruct Hy as (? & ? & _); exfalso; eauto | done].
  destruct Hx as (Hpf & Htf & Hf), Hy as (Hpg & Htg & Hg). f_equal.
  destruct (is_ancestor_lookup p bp f Hp Hpf) as [bf Hbf].
  destruct (is_ancestor_lookup p bp g Hp Hpg) as [bg Hbg].
  destruct (Hf g Hpg Htg) as [n Hn], (Hg f Hpf Htf) as [k Hk].
  pose proof (walk_height m f bf n g bg Hm Hbf Hn Hbg).
  pose proof (walk_height m g bg k f bf Hm Hbg Hk Hbf).
  replace n with 0%nat in Hn by lia. by injection Hn.
Qed.

End WithStore.

(** ** [FindEarliestAtLeast] *)

(** The entries of a chain with their index data. *)
Definition entry (m : gmap ptr CBlockIndex) (v : CChain) (i : nat) (p : ptr) (b : CBlockIndex) : Prop :=
  v !! i = Some (Some p) /\ m !! p = Some b.

Lemma entry_path m t bt i :
  wf_store m -> m !! t = Some bt -> (i <= Z.to_nat (nHeight bt))%nat ->
  exists p b, entry m (path m t (Z.to_nat (nHeight bt))) i p b.
Proof.
  intros Hm Ht Hi. pose proof (wf_height m t bt Hm Ht).
  destruct (walk_exists m t bt (Z.to_nat (nHeight bt) - i) Hm Ht) as (p & b & Hw & Hp & _); [lia |].
  exists p, b. split; [| done]. rewrite lookup_path, Hw by lia. done.
Qed.

Lemma nTimeMax_walk m p b n q bq :
  wf_tree m -> m !! p = Some b -> walk m p n = Some q -> m !! q = Some bq -> nTimeMax bq <= nTimeMax b.
Proof.
  intros [Hs Hmeta]. revert p b. induction n as [| n IH]; intros p b Hp Hw Hq; cbn in Hw.
  - injection Hw as <-. replace bq with b by congruence. lia.
  - rewrite Hp in Hw. cbn in Hw. pose proof (Hmeta p b Hp) as (_ & _ & _ & Hpr).
    destruct (pprev b) as [r |]; [| done]. destruct Hpr as (br & Hr & Hmax & _).
    cbn in Hw. specialize (IH r br Hr Hw Hq). lia.
Qed.

Lemma nTimeMax_entry m v i j p b q bq :
  wf_tree m -> chain_ok m v -> entry m v i p b -> entry m v j q bq -> (i <= j)%nat ->
  nTimeMax b <= nTimeMax bq.
Proof.
  intros Ht Hv [Hi Hp] [Hj Hq] Hij. destruct Hv as [-> | (t & bt & Htt & ->)]; [done |].
  set (n := Z.to_nat (nHeight bt)) in *.
  assert (j <= n)%nat by (apply lookup_lt_Some in Hj; rewrite length_path in Hj; lia).
  rewrite lookup_path in Hi, Hj by lia. injection Hi as Hi. injection Hj as Hj.
  apply (nTimeMax_walk m q bq (j - i) p b Ht Hq); [| done].
  replace (n - i)%nat with ((n - j) + (j - i))%nat in Hi by lia. rewrite walk_add, Hj in Hi. done.
Qed.

Lemma chain_ok_entry m v i :
  wf_store m -> chain_ok m v -> (i < length v)%nat -> exists p b, entry m v i p b.
Proof.
  intros Hm [-> | (t & bt & Ht & ->)] Hi; [cbn in Hi; lia |].
  rewrite length_path in Hi. apply entry_path; (done || lia).
Qed.

(** The binary search keeps the answer in [[first, first+count]]. *)
Lemma lower_bound_loop_correct m v time fuel first count :
  wf_tree m -> chain_ok m v -> (count <= fuel)%nat -> (first + count <= length v)%nat ->
  (forall i p b, entry m v i p b -> (i < first)%nat -> nTimeMax b < time) ->
  (forall i p b, entry m v i p b -> (first + count <= i)%nat -> time <= nTimeMax b) ->
  exists l, lower_bound_loop m fuel v first count time = Some l /\ (l <= length v)%nat /\
    (forall i p b, entry m v i p b -> (i < l)%nat -> nTimeMax b < time) /\
    (forall i p b, entry m v i p b -> (l <= i)%nat -> time <= nTimeMax b).
Proof.
  intros Ht Hv. revert first count. induction fuel as [| fuel IH]; intros first count Hf Hl Hlo Hhi.
  { replace count with 0%nat in * by lia. exists first. split; [done |]. split; [lia |].
    split; [done |]. intros. eapply Hhi; [done | lia]. }
  destruct count as [| c].
  { exists first. split; [done |]. split; [lia |]. split; [done |]. intros. eapply Hhi; [done | lia]. }
  cbn [lower_bound_loop]. set (step := (S c / 2)%nat).
  assert (step < S c)%nat as Hstep by (apply Nat.div_lt; lia).
  destruct (chain_ok_entry m v (first + step) (proj1 Ht) Hv) as (p & b & He); [lia |].
  destruct He as [Hvi Hp] eqn:E. clear E. rewrite Hvi. cbn [mbind option_bind]. rewrite Hp.
  cbn [mbind option_bind]. unfold GetBlockTimeMax. destruct (Z.ltb_spec (nTimeMax b) time) as [Hlt | Hge].
  - apply IH; try lia.
    + intros i q bq Hq Hi. pose proof (nTimeMax_entry m v i (first + step) q bq p b Ht Hv Hq He ltac:(lia)). lia.
    + intros i q bq Hq Hi. apply (Hhi i q bq Hq). lia.
  - apply IH; try lia; [done |].
    intros i q bq Hq Hi. pose proof (nTimeMax_entry m v (first + step) i p b q bq Ht Hv He Hq ltac:(lia)). lia.
Qed.

(** ** The theorems *)

(** The skip-list search [CBlockIndex::GetAncestor] equals the naive walk
    along [pprev]: on a well-formed tree it never trips its assertion and
    returns the unique ancestor at the requested height, or null exactly when
    the height is negative or above the block. *)
Theorem GetAncestor_is_walk (m : gmap ptr CBlockIndex) (p : ptr) (b : CBlockIndex) (height : Z) :
  wf_store m -> m !! p = Some b ->
  (height < 0 \/ nHeight b < height -> GetAncestor m p height = Some None) /\
  (0 <= height <= nHeight b ->
   exists r br, GetAncestor m p height = Some (Some r) /\
     walk m p (Z.to_nat (nHeight b - height)) = Some r /\
     m !! r = Some br /\ nHeight br = height).
Proof.
  intros Hm Hp. rewrite (GetAncestor_eq m p b height Hm Hp). unfold ancestor_at. rewrite Hp. cbn.
  rewrite Z.gtb_ltb. split; [intros H; bdestruct_all |]. intros H. bdestruct_all.
  destruct (walk_exists m p b (Z.to_nat (nHeight b - height)) Hm Hp) as (r & br & -> & H2 & H3); [lia |].
  exists r, br. repeat split; try done. lia.
Qed.

(** A tree of six headers with a fork above height 1, built by
    [AddToBlockIndex]. *)
Definition example_headers : list (Z * CBlockHeader) :=
  [(10, mkHeader 4 0 1000 0x1e00ffff);
   (11, mkHeader 4 10 1060 0x1e00ffff);
   (12, mkHeader 4 11 1020 0x1e00ffff);
   (13, mkHeader 4 12 1180 0x1e00ffff);
   (21, mkHeader 4 11 1100 0x1e00ffff);
   (22, mkHeader 4 21 1090 0x1d00ffff)].

Definition example_state : BlockIndexState :=
  fold_left (fun st '(h, hdr) =>
    match AddToBlockIndex st h hdr with Some (st', _) => st' | None => st end)
    example_headers (mkBIState ∅ None ∅).

Definition example_tree : gmap ptr CBlockIndex := Eval vm_compute in mapBlockIndex example_state.

Definition example_block (p : ptr) : CBlockIndex := default (new_index example_genesis) (example_tree !! p).

(** [CChain::SetTip] rebuilds the whole chain: from any previously
    valid [vChain] (in particular one on another branch, longer or shorter)
    it produces exactly the path from the root to the new tip, although its
    loop stops at the first entry that is already in place. *)
Theorem SetTip_correct (m : gmap ptr CBlockIndex) (v : CChain) (p : ptr) (b : CBlockIndex) :
  wf_store m -> chain_ok m v -> m !! p = Some b ->
  exists v', SetTip m v (Some p) = Some v' /\ chain_ok m v' /\
    Height v' = nHeight b /\ Tip v' = Some p /\
    forall h, 0 <= h <= nHeight b -> Some (chain_at v' h) = GetAncestor m p h.
Proof.
  intros Hm Hv Hp. pose proof (wf_height m p b Hm Hp) as H0.
  exists (path m p (Z.to_nat (nHeight b))). split; [by apply SetTip_eq |].
  split; [right; eauto |]. split; [unfold Height; rewrite length_path; lia |]. split.
  - unfold Tip. rewrite length_path. destruct (Nat.ltb_spec 0 (Z.to_nat (nHeight b) + 1)); [| lia].
    rewrite nth_lookup, lookup_path by lia.
    by replace (Z.to_nat (nHeight b) - (Z.to_nat (nHeight b) + 1 - 1))%nat with 0%nat by lia.
  - intros h Hh. rewrite (GetAncestor_eq m p b h Hm Hp). unfold ancestor_at, chain_at.
    rewrite Hp. cbn. rewrite length_path, Z.gtb_ltb, Z.geb_leb. bdestruct_all.
    rewrite nth_lookup, lookup_path by lia. cbn. do 2 f_equal. lia.
Qed.

(** [CChain::FindFork] returns the last block of the active chain that is
    an ancestor of the given block (every common ancestor of the block and
    the tip is an ancestor of the result; null when there is none), and
    [LastCommonAncestor] computes the same for two arbitrary blocks without
    failing its final assertion. *)
Theorem FindFork_highest_common (m : gmap ptr CBlockIndex) (t p : ptr) (bt bp : CBlockIndex) (v0 v : CChain) :
  wf_store m -> m !! t = Some bt -> m !! p = Some bp ->
  chain_ok m v0 -> SetTip m v0 (Some t) = Some v ->
  exists r, FindFork m v (Some p) = Some r /\ highest_common m p t r /\
    LastCommonAncestor m p t = Some r.
Proof.
  intros Hm Ht Hp Hv0 Hv. rewrite (SetTip_eq m Hm v0 t bt Hv0 Ht) in Hv. injection Hv as <-.
  pose proof (wf_height m t bt Hm Ht). pose proof (wf_height m p bp Hm Hp).
  destruct (FindFork_correct m Hm t bt p bp Ht Hp) as (r & Hr & Hs).
  destruct (LastCommonAncestor_correct m Hm p bp t bt Hp Ht) as (r' & Hr' & Hs').
  exists r. rewrite Hr'. split; [done |]. split; [done |]. f_equal.
  by apply (highest_common_unique m Hm p bp t).
Qed.

(** [CChain::FindEarliestAtLeast] is correct although block times are not
    monotone: it returns the first block of the active chain whose running
    maximum time is at least the given time, and null exactly when every
    block of the chain is older. *)
Theorem FindEarliestAtLeast_earliest (m : gmap ptr CBlockIndex) (v : CChain) (time : Z) :
  wf_tree m -> chain_ok m v ->
  exists r, FindEarliestAtLeast m v time = Some r /\
    match r with
    | None => forall i p b, entry m v i p b -> nTimeMax b < time
    | Some p => exists i b, entry m v i p b /\ time <= nTimeMax b /\
        forall j q bq, entry m v j q bq -> (j < i)%nat -> nTimeMax bq < time
    end.
Proof.
  intros Ht Hv. destruct (lower_bound_loop_correct m v time (length v) 0 (length v) Ht Hv)
    as (l & Hl & Hle & Hlo & Hhi); [lia | lia | intros; lia | |].
  { intros i p b [Hi _] Hge. apply lookup_lt_Some in Hi. lia. }
  unfold FindEarliestAtLeast. rewrite Hl. cbn [mbind option_bind]. case_decide as Hd.
  - exists None. split; [done |]. intros i p b He. apply (Hlo i p b He).
    destruct He as [Hi _]. apply lookup_lt_Some in Hi. lia.
  - destruct (chain_ok_entry m v l (proj1 Ht) Hv) as (p & b & He); [lia |].
    exists (Some p). split; [apply He |]. exists l, b. split; [done |].
    split; [by apply (Hhi l p b He) | by apply Hlo].
Qed.

