(* ===== verification/MedianTime.v ===== *)
(** * Median time past: [CBlockIndex::GetMedianTimePast] ([src/chain.h])

    The median of the times of the last eleven blocks is always defined on a
    well-formed tree, and when every block is later than the median of its
    parent (the rule [ContextualCheckBlockHeader] enforces in
    [src/validation.cpp]) it never decreases along the chain. *)

From stdpp Require Import gmap sorting.
From S2P Require Import Prelude ArithUint256 Compact Chain ActiveChain.

(** ** Counting in sorted lists *)

(** How many elements are at least [v]. *)
Definition count_ge (v : Z) (l : list Z) : nat := length (List.filter (fun x => v <=? x) l).

Lemma count_ge_cons v x l : count_ge v (x :: l) = ((if (v <=? x)%Z then 1 else 0) + count_ge v l)%nat.
Proof. unfold count_ge. cbn. by destruct (v <=? x). Qed.

Lemma count_ge_app v l k : count_ge v (l ++ k) = (count_ge v l + count_ge v k)%nat.
Proof. unfold count_ge. by rewrite List.filter_app, length_app. Qed.

Lemma count_ge_le v l : (count_ge v l <= length l)%nat.
Proof. apply List.filter_length_le. Qed.

Lemma count_ge_perm v l k : l ≡ₚ k -> count_ge v l = count_ge v k.
Proof.
  induction 1 as [| x l k _ IH | x y l | l k j _ IH1 _ IH2]; rewrite ?count_ge_cons; lia.
Qed.

(** In a sorted list the element at index [i] is at least [v] exactly when
    enough elements are. *)
Lemma sorted_index_ge v l : StronglySorted Z.le l -> forall i x,
  l !! i = Some x -> v <= x <-> (length l - i <= count_ge v l)%nat.
Proof.
  induction 1 as [| y l Hs IH Hy]; intros i x Hi; [done |]. rewrite count_ge_cons. destruct i as [| i]; cbn in Hi.
  - injection Hi as ->. cbn [length]. rewrite Nat.sub_0_r. split.
    + intros Hv. assert (count_ge v l = length l) as ->.
      { unfold count_ge. f_equal. clear IH Hs. induction Hy as [| z l Hz _ IH]; [done |]. cbn.
        rewrite (proj2 (Z.leb_le v z)) by lia. by rewrite IH. }
      rewrite (proj2 (Z.leb_le v x)) by done. lia.
    + intros Hc. pose proof (count_ge_le v l). destruct (Z.leb_spec v x); [done | lia].
  - specialize (IH i x Hi). cbn [length]. rewrite Nat.sub_succ. rewrite IH.
    assert (y <= x) as Hyx.
    { rewrite List.Forall_forall in Hy. apply Hy, list_elem_of_In. by apply list_elem_of_lookup_2 with i. }
    apply lookup_lt_Some in Hi. split; intros Hc.
    + lia.
    + destruct (Z.leb_spec v y) as [Hv |]; [| lia]. apply IH. lia.
Qed.

(** ** The window *)

Section Window.
Context (m : gmap ptr CBlockIndex) (Hm : wf_store m).

(** The median of a non-empty list, as the code takes it. *)
Definition median (l : list Z) : option Z := merge_sort Z.le l !! (length l / 2)%nat.

Lemma collect_times_total n p b :
  m !! p = Some b ->
  exists l, collect_times m (S n) (Some p) = Some (GetBlockTime b :: l) /\ (length l <= n)%nat /\
    collect_times m n (pprev b) = Some l.
Proof using Hm.
  revert p b. induction n as [| n IH]; intros p b Hp; cbn [collect_times]; rewrite Hp; cbn [mbind option_bind].
  { exists []. by destruct (pprev b). }
  pose proof (Hm p b Hp) as Hb. unfold wf_index in Hb. destruct (pprev b) as [q |].
  - destruct Hb as (bq & Hq & _). destruct (IH q bq Hq) as (l & Hl & Hlen & _).
    cbn [collect_times] in Hl. rewrite Hl. exists (GetBlockTime bq :: l). split; [done |]. cbn. split; [lia | done].
  - exists []. split; [done |]. cbn. split; [lia | done].
Qed.

Lemma median_some l : l <> [] -> is_Some (median l).
Proof.
  intros Hl. apply lookup_lt_is_Some_2. rewrite merge_sort_Permutation.
  apply Nat.div_lt; [| lia]. destruct l; [done | cbn; lia].
Qed.

Lemma GetMedianTimePast_total p b : m !! p = Some b -> is_Some (GetMedianTimePast m p).
Proof using Hm.
  intros Hp. unfold GetMedianTimePast. destruct (collect_times_total 10 p b Hp) as (l & Hl & _).
  change nMedianTimeSpan with 11%nat. rewrite Hl. apply median_some. done.
Qed.

(** At least [length l - length l / 2] elements reach the median. *)
Lemma median_count l v w :
  median l = Some w -> v <= w <-> (length l - length l / 2 <= count_ge v l)%nat.
Proof.
  intros Hw. unfold median in Hw.
  assert (StronglySorted Z.le (merge_sort Z.le l)) as Hs
    by (apply StronglySorted_merge_sort; apply _).
  pose proof (sorted_index_ge v _ Hs _ w Hw) as Hi.
  rewrite (count_ge_perm v _ l) in Hi by apply merge_sort_Permutation.
  assert (length (merge_sort Z.le l) = length l) as Hl by (by rewrite merge_sort_Permutation).
  by rewrite Hl in Hi.
Qed.

(** A new time above the median enters a window that still grows, or that
    loses its oldest element. *)
Lemma median_grow l v t w :
  median l = Some v -> v < t -> median (t :: l) = Some w -> v <= w.
Proof.
  intros Hv Ht Hw. apply (median_count _ v w Hw). rewrite count_ge_cons, (proj2 (Z.leb_le v t)) by lia.
  pose proof (proj1 (median_count l v v Hv) ltac:(lia)) as Hc. cbn [length].
  pose proof (Nat.Div0.div_le_mono (length l) (S (length l)) 2 ltac:(lia)). lia.
Qed.

Lemma median_shift l x v t w :
  median (l ++ [x]) = Some v -> v < t -> median (t :: l) = Some w -> v <= w.
Proof.
  intros Hv Ht Hw. apply (median_count _ v w Hw). rewrite count_ge_cons, (proj2 (Z.leb_le v t)) by lia.
  pose proof (proj1 (median_count (l ++ [x]) v v Hv) ltac:(lia)) as Hc.
  rewrite count_ge_app, count_ge_cons, length_app in Hc. change (count_ge v []) with 0%nat in Hc. cbn [length] in *.
  rewrite Nat.add_1_r in Hc. destruct (v <=? x); lia.
Qed.

(** Each block is later than the median of its parent. *)
Definition times_advance : Prop :=
  forall p b q t, m !! p = Some b -> pprev b = Some q -> GetMedianTimePast m q = Some t -> t < nTime b.

(** The window of [n] times is a prefix of the window of [n + 1] times. *)
Lemma collect_times_prefix n p l :
  collect_times m (S n) p = Some l -> exists l', collect_times m n p = Some l' /\
    (l = l' \/ exists x, l = l' ++ [x]).
Proof.
  revert p l. induction n as [| n IH]; intros p l Hl.
  - exists []. split; [by destruct p |]. cbn in Hl. destruct p as [p |]; [| left; congruence].
    destruct (m !! p) as [b |]; [| done]. cbn in Hl. destruct (pprev b); injection Hl as <-; right; eexists; reflexivity.
  - destruct p as [p |]; [| cbn in Hl |- *; injection Hl as <-; exists []; auto].
    cbn [collect_times] in Hl |- *. destruct (m !! p) as [b |]; [| done]. cbn [mbind option_bind] in *.
    destruct (match pprev b with Some p0 => _ | None => _ end) as [l1 |] eqn:H1; [| done].
    injection Hl as <-. destruct (IH (pprev b) l1 H1) as (l' & Hl' & Hcase). 
    cbn [collect_times] in Hl'. rewrite Hl'. cbn. exists (GetBlockTime b :: l'). split; [done |].
    destruct Hcase as [-> | [x ->]]; [by left | right; by exists x].
Qed.

Lemma median_step p b q t t' :
  times_advance -> m !! p = Some b -> pprev b = Some q ->
  GetMedianTimePast m q = Some t -> GetMedianTimePast m p = Some t' -> t <= t'.
Proof using Hm.
  intros Hadv Hp Hq Ht Ht'. pose proof (Hadv p b q t Hp Hq Ht) as Hlt.
  unfold GetMedianTimePast in Ht, Ht'. change nMedianTimeSpan with 11%nat in *.
  destruct (collect_times_total 10 p b Hp) as (lp & Hlp & _ & Hlq). rewrite Hlp in Ht'. cbn [mbind option_bind] in Ht'.
  rewrite Hq in Hlq. destruct (collect_times m 11 (Some q)) as [l |] eqn:Hl; [| done]. cbn [mbind option_bind] in Ht.
  destruct (collect_times_prefix 10 (Some q) l Hl) as (l' & Hl' & Hcase). rewrite Hlq in Hl'. injection Hl' as <-.
  unfold GetBlockTime in Ht'. destruct Hcase as [-> | [x ->]].
  - by apply (median_grow lp t (nTime b)).
  - by apply (median_shift lp x t (nTime b)).
Qed.

(** The median never decreases towards descendants. *)
Lemma median_monotone n p q t t' :
  times_advance -> is_Some (m !! p) -> walk m p n = Some q ->
  GetMedianTimePast m q = Some t -> GetMedianTimePast m p = Some t' -> t <= t'.
Proof using Hm.
  intros Hadv. revert p t'. induction n as [| n IH]; intros p t' [b Hp] Hw Ht Ht'; cbn in Hw.
  { injection Hw as ->. rewrite Ht in Ht'. injection Ht' as ->. lia. }
  rewrite Hp in Hw. cbn in Hw. destruct (pprev b) as [r |] eqn:Hr; [| done]. cbn in Hw.
  pose proof (Hm p b Hp) as Hb. unfold wf_index in Hb. rewrite Hr in Hb. destruct Hb as (br & Hbr & _).
  destruct (GetMedianTimePast_total r br Hbr) as [tr Htr].
  pose proof (IH r tr ltac:(by eexists) Hw Ht Htr). pose proof (median_step p b r tr t' Hadv Hp Hr Htr Ht'). lia.
Qed.

End Window.

(** A checker for concrete trees. *)
Definition check_times (m : gmap ptr CBlockIndex) : bool :=
  forallb (fun '(_, b) =>
    match pprev b with
    | Some q => match GetMedianTimePast m q with Some t => t <? nTime b | None => true end
    | None => true
    end) (map_to_list m).

Lemma check_times_sound m : check_times m = true -> times_advance m.
Proof.
  unfold check_times. rewrite forallb_forall. intros H p b q t Hp Hq Ht.
  apply elem_of_map_to_list, list_elem_of_In, H in Hp. cbv beta iota in Hp. rewrite Hq, Ht in Hp. by apply Z.ltb_lt.
Qed.

(** Median time past never decreases.  On a well-formed block tree in
    which every block is later than the median time of its parent, the median
    time of any ancestor is defined and at most that of the block, whether
    the window of eleven blocks is full or still growing. *)
Theorem GetMedianTimePast_monotone (m : gmap ptr CBlockIndex) (p q : ptr) (b : CBlockIndex) :
  wf_store m -> times_advance m -> m !! p = Some b -> is_ancestor m p q ->
  exists t t', GetMedianTimePast m q = Some t /\ GetMedianTimePast m p = Some t' /\ t <= t'.
Proof.
  intros Hm Hadv Hp [n Hw]. destruct (walk_lookup m Hm p b n q Hp Hw) as [bq Hq].
  destruct (GetMedianTimePast_total m Hm q bq Hq) as [t Ht].
  destruct (GetMedianTimePast_total m Hm p b Hp) as [t' Ht'].
  exists t, t'. split; [done |]. split; [done |]. apply (median_monotone m Hm n p q); done.
Qed.

(** A chain of fourteen headers, one minute apart. *)
Definition minute_chain : gmap ptr CBlockIndex := Eval vm_compute in
  mapBlockIndex (fold_left (fun st i =>
    match AddToBlockIndex st (100 + i) (mkHeader 0x20000000 (99 + i) (1000 + 60 * i) 0x1e00ffff) with
    | Some (st', _) => st'
    | None => st
    end) (seqZ 0 14) (mkBIState ∅ None ∅)).

