(* ===== verification/Coins.v ===== *)
(** * The UTXO views: [src/coins.{h,cpp}], [CCoinsViewDB] of [src/txdb.cpp]

    A coins view maps outpoints to unspent coins.  The class [CoinsView]
    has the virtual functions of [CCoinsView]; [CoinsViewSpec] says what an
    implementation promises to its clients in terms of an abstract UTXO map.
    [CCoinsViewDB] (over an abstract key-value database with atomic batches)
    and [CCoinsViewCache] (over any view) are the implementations; the cache
    is proved against the interface of its base, so every stack of caches
    over the database refines the abstract map. *)

From stdpp Require Import gmap fin_maps.
From S2P Require Import Prelude.

(** ** Data *)

Record CTxOut := mkTxOut {
  nValue : Z;              (* CAmount, int64_t *)
  scriptPubKey : list Z    (* bytes *)
}.

Definition txout_null : CTxOut := mkTxOut (-1) [].
Definition CTxOut_IsNull (o : CTxOut) : bool := nValue o =? -1.

(** [COutPoint]: transaction hash and output index. *)
Abbreviation COutPoint := (Z * Z)%type.

Record Coin := mkCoin {
  out : CTxOut;
  fCoinBase : bool;
  coin_nHeight : Z
}.

Definition IsSpent (c : Coin) : bool := CTxOut_IsNull (out c).

(** The empty constructor, the result of [Clear], and [coinEmpty]. *)
Definition Coin_Clear : Coin := mkCoin txout_null false 0.

Record CCoinsCacheEntry := mkEntry {
  coin : Coin;
  flags : Z
}.

Definition DIRTY : Z := 1.
Definition FRESH : Z := 2.

Definition has_flag (e : CCoinsCacheEntry) (f : Z) : bool := negb (Z.land (flags e) f =? 0).

Abbreviation CCoinsMap := (gmap COutPoint CCoinsCacheEntry).

(** The pairs of a [CCoinsMap] in the (unspecified) iteration order of the
    hash table. *)
Abbreviation CoinsBatch := (list (COutPoint * CCoinsCacheEntry)).

#[export] Instance CTxOut_eq_dec : EqDecision CTxOut.
Proof. solve_decision. Defined.
#[export] Instance Coin_eq_dec : EqDecision Coin.
Proof. solve_decision. Defined.
#[export] Instance CCoinsCacheEntry_eq_dec : EqDecision CCoinsCacheEntry.
Proof. solve_decision. Defined.

(** ** The interface *)

(** The virtual functions of [CCoinsView].  Reads return the updated view
    because caches fill themselves; [GetCoin] returns the coin when the C++
    function returns true; [BatchWrite] returns [None] when it throws or
    fails an assertion. *)
Class CoinsView (V : Type) := {
  view_GetCoin : V -> COutPoint -> option Coin * V;
  view_HaveCoin : V -> COutPoint -> bool * V;
  view_GetBestBlock : V -> Z * V;
  view_BatchWrite : V -> CoinsBatch -> Z -> option (bool * V)
}.

(** The coin an entry stands for in a view that consists of it alone. *)
Definition entry_coin (e : CCoinsCacheEntry) : option Coin :=
  if IsSpent (coin e) then None else Some (coin e).

(** The UTXO set after the dirty entries of [m] have been written to [u]. *)
Definition apply_batch (u : gmap COutPoint Coin) (m : CCoinsMap) : gmap COutPoint Coin :=
  merge (fun e c => match e with
                    | Some e => if has_flag e DIRTY then entry_coin e else c
                    | None => c
                    end) m u.

(** A dirty entry that claims to be fresh is absent below. *)
Definition batch_ok (u : gmap COutPoint Coin) (m : CCoinsMap) : Prop :=
  forall o e, m !! o = Some e -> has_flag e DIRTY = true -> has_flag e FRESH = true -> u !! o = None.

(** What a coins view promises. *)
Class CoinsViewSpec (V : Type) `{CoinsView V} := {
  view_ok : V -> Prop;
  view_utxo : V -> gmap COutPoint Coin;
  view_best : V -> Z;
  view_unspent : forall v o c, view_ok v -> view_utxo v !! o = Some c -> IsSpent c = false;
  view_GetCoin_spec : forall v o, view_ok v ->
    exists v', view_GetCoin v o = (view_utxo v !! o, v') /\
      view_ok v' /\ view_utxo v' = view_utxo v /\ view_best v' = view_best v;
  view_HaveCoin_spec : forall v o, view_ok v ->
    exists v', view_HaveCoin v o = (bool_decide (is_Some (view_utxo v !! o)), v') /\
      view_ok v' /\ view_utxo v' = view_utxo v /\ view_best v' = view_best v;
  view_GetBestBlock_spec : forall v, view_ok v ->
    exists v', view_GetBestBlock v = (view_best v, v') /\
      view_ok v' /\ view_utxo v' = view_utxo v /\ view_best v' = view_best v;
  view_BatchWrite_spec : forall v l h, view_ok v -> NoDup l.*1 ->
    batch_ok (view_utxo v) (list_to_map l) -> h <> 0 ->
    exists v', view_BatchWrite v l h = Some (true, v') /\ view_ok v' /\
      view_utxo v' = apply_batch (view_utxo v) (list_to_map l) /\ view_best v' = h
}.

(** ** [CCoinsViewCache] *)

Section Cache.
Context {V : Type} `{CoinsView V}.

(** [memusage::DynamicUsage(scriptPubKey)], which depends on the allocator. *)
Variable script_usage : list Z -> Z.

Record CCoinsViewCache := mkCache {
  base : V;
  hashBlock : Z;
  cacheCoins : CCoinsMap;
  cachedCoinsUsage : Z   (* size_t *)
}.

Definition DynamicMemoryUsage (c : Coin) : Z := script_usage (scriptPubKey (out c)).

Definition usage_add (c : CCoinsViewCache) (co : Coin) : CCoinsViewCache :=
  mkCache (base c) (hashBlock c) (cacheCoins c) (u64 (cachedCoinsUsage c + DynamicMemoryUsage co)).
Definition usage_sub (c : CCoinsViewCache) (co : Coin) : CCoinsViewCache :=
  mkCache (base c) (hashBlock c) (cacheCoins c) (u64 (cachedCoinsUsage c - DynamicMemoryUsage co)).
Definition set_entry (c : CCoinsViewCache) (o : COutPoint) (e : CCoinsCacheEntry) : CCoinsViewCache :=
  mkCache (base c) (hashBlock c) (<[o := e]> (cacheCoins c)) (cachedCoinsUsage c).
Definition erase_entry (c : CCoinsViewCache) (o : COutPoint) : CCoinsViewCache :=
  mkCache (base c) (hashBlock c) (delete o (cacheCoins c)) (cachedCoinsUsage c).
Definition with_base (c : CCoinsViewCache) (b : V) : CCoinsViewCache :=
  mkCache b (hashBlock c) (cacheCoins c) (cachedCoinsUsage c).

(** [FetchCoin]; [None] is [cacheCoins.end()]. *)
Definition FetchCoin (c : CCoinsViewCache) (outpoint : COutPoint) :
    option CCoinsCacheEntry * CCoinsViewCache :=
  match cacheCoins c !! outpoint with
  | Some e => (Some e, c)
  | None =>
      let '(tmp, b') := view_GetCoin (base c) outpoint in
      let c := with_base c b' in
      match tmp with
      | None => (None, c)
      | Some tmp =>
          let e := mkEntry tmp (if IsSpent tmp then FRESH else 0) in
          (Some e, usage_add (set_entry c outpoint e) tmp)
      end
  end.

Definition GetCoin (c : CCoinsViewCache) (outpoint : COutPoint) : option Coin * CCoinsViewCache :=
  let '(it, c) := FetchCoin c outpoint in
  match it with
  | Some e => (if negb (IsSpent (coin e)) then Some (coin e) else None, c)
  | None => (None, c)
  end.

Definition AccessCoin (c : CCoinsViewCache) (outpoint : COutPoint) : Coin * CCoinsViewCache :=
  let '(it, c) := FetchCoin c outpoint in
  (match it with Some e => coin e | None => Coin_Clear end, c).

Definition HaveCoin (c : CCoinsViewCache) (outpoint : COutPoint) : bool * CCoinsViewCache :=
  let '(it, c) := FetchCoin c outpoint in
  (match it with Some e => negb (IsSpent (coin e)) | None => false end, c).

Definition HaveCoinInCache (c : CCoinsViewCache) (outpoint : COutPoint) : bool :=
  match cacheCoins c !! outpoint with Some e => negb (IsSpent (coin e)) | None => false end.

Definition GetBestBlock (c : CCoinsViewCache) : Z * CCoinsViewCache :=
  if hashBlock c =? 0 then
    let '(h, b') := view_GetBestBlock (base c) in
    (h, mkCache b' h (cacheCoins c) (cachedCoinsUsage c))
  else (hashBlock c, c).

Definition SetBestBlock (c : CCoinsViewCache) (h : Z) : CCoinsViewCache :=
  mkCache (base c) h (cacheCoins c) (cachedCoinsUsage c).

(** [AddCoin]; [None] is the failed assertion or the [logic_error].
    [unspendable] is [scriptPubKey.IsUnspendable()]. *)
Definition AddCoin (unspendable : list Z -> bool) (c : CCoinsViewCache) (outpoint : COutPoint)
    (new : Coin) (possible_overwrite : bool) : option CCoinsViewCache :=
  if IsSpent new then None
  else if unspendable (scriptPubKey (out new)) then Some c
  else
    let inserted := match cacheCoins c !! outpoint with Some _ => false | None => true end in
    let it := default (mkEntry Coin_Clear 0) (cacheCoins c !! outpoint) in
    let c := if negb inserted then usage_sub c (coin it) else c in
    if negb possible_overwrite && negb (IsSpent (coin it)) then None
    else
      let fresh := negb possible_overwrite && negb (has_flag it DIRTY) in
      let e := mkEntry new (Z.lor (flags it) (Z.lor DIRTY (if fresh then FRESH else 0))) in
      Some (usage_add (set_entry c outpoint e) new).

(** The output loop of [AddCoins]: [vout] with its indices from [i]. *)
Fixpoint AddCoins_loop (unspendable : list Z -> bool) (c : CCoinsViewCache) (txid : Z) (i : Z)
    (vout : list CTxOut) (nHeight : Z) (coinbase check : bool) : option CCoinsViewCache :=
  match vout with
  | [] => Some c
  | o :: vout =>
      let '(overwrite, c) := if check then HaveCoin c (txid, i) else (coinbase, c) in
      c ← AddCoin unspendable c (txid, i) (mkCoin o coinbase (wrapu 31 nHeight)) overwrite;
      AddCoins_loop unspendable c txid (i + 1) vout nHeight coinbase check
  end.

(** [SpendCoin], with the asset cache of type [A] and its [TrySpendCoin];
    [assets] is [None] for a null [assetsCache] or before deployment. *)
Definition SpendCoin {A : Type} (TrySpendCoin : A -> COutPoint -> CTxOut -> bool * A)
    (c : CCoinsViewCache) (outpoint : COutPoint) (assets : option A) :
    bool * option Coin * CCoinsViewCache * option A :=
  let '(it, c) := FetchCoin c outpoint in
  match it with
  | None => (false, None, c, assets)
  | Some e =>
      let c := usage_sub c (coin e) in
      let tempCoin := coin e in
      let c := if has_flag e FRESH then erase_entry c outpoint
               else set_entry c outpoint (mkEntry Coin_Clear (Z.lor (flags e) DIRTY)) in
      match assets with
      | None => (true, Some tempCoin, c, None)
      | Some a =>
          let '(ok, a) := TrySpendCoin a outpoint (out tempCoin) in
          (ok, Some tempCoin, c, Some a)
      end
  end.

(** One iteration of [BatchWrite]. *)
Definition BatchWrite_entry (c : CCoinsViewCache) (o : COutPoint) (it : CCoinsCacheEntry) :
    option CCoinsViewCache :=
  if has_flag it DIRTY then
    match cacheCoins c !! o with
    | None =>
        if negb (has_flag it FRESH && IsSpent (coin it)) then
          let entry := mkEntry (coin it) (if has_flag it FRESH then Z.lor DIRTY FRESH else DIRTY) in
          Some (usage_add (set_entry c o entry) (coin it))
        else Some c
    | Some itUs =>
        if has_flag it FRESH && negb (IsSpent (coin itUs)) then None
        else if has_flag itUs FRESH && IsSpent (coin it) then
          Some (erase_entry (usage_sub c (coin itUs)) o)
        else
          let c := usage_sub c (coin itUs) in
          Some (usage_add (set_entry c o (mkEntry (coin it) (Z.lor (flags itUs) DIRTY))) (coin it))
    end
  else Some c.

Fixpoint BatchWrite_loop (c : CCoinsViewCache) (mapCoins : CoinsBatch) : option CCoinsViewCache :=
  match mapCoins with
  | [] => Some c
  | (o, it) :: rest => c ← BatchWrite_entry c o it; BatchWrite_loop c rest
  end.

Definition BatchWrite (c : CCoinsViewCache) (mapCoins : CoinsBatch) (hashBlockIn : Z) :
    option (bool * CCoinsViewCache) :=
  c ← BatchWrite_loop c mapCoins;
  Some (true, SetBestBlock c hashBlockIn).

(** [Flush]; [order] is the iteration order of [cacheCoins]. *)
Definition Flush (order : CCoinsMap -> CoinsBatch) (c : CCoinsViewCache) : option (bool * CCoinsViewCache) :=
  '(fOk, b) ← view_BatchWrite (base c) (order (cacheCoins c)) (hashBlock c);
  Some (fOk, mkCache b (hashBlock c) ∅ 0).

Definition Uncache (c : CCoinsViewCache) (o : COutPoint) : CCoinsViewCache :=
  match cacheCoins c !! o with
  | Some e => if flags e =? 0 then erase_entry (usage_sub c (coin e)) o else c
  | None => c
  end.

Definition GetCacheSize (c : CCoinsViewCache) : Z := u32 (Z.of_nat (size (cacheCoins c))).

(** [GetValueIn] over the list of prevouts of a transaction. *)
Fixpoint GetValueIn_loop (c : CCoinsViewCache) (prevouts : list COutPoint) (nResult : Z) :
    Z * CCoinsViewCache :=
  match prevouts with
  | [] => (nResult, c)
  | p :: rest =>
      let '(co, c) := AccessCoin c p in
      GetValueIn_loop c rest (nResult + nValue (out co))
  end.

Definition GetValueIn (c : CCoinsViewCache) (coinbase : bool) (prevouts : list COutPoint) :
    Z * CCoinsViewCache :=
  if coinbase then (0, c) else GetValueIn_loop c prevouts 0.

Fixpoint HaveInputs_loop (c : CCoinsViewCache) (prevouts : list COutPoint) : bool * CCoinsViewCache :=
  match prevouts with
  | [] => (true, c)
  | p :: rest =>
      let '(h, c) := HaveCoin c p in
      if negb h then (false, c) else HaveInputs_loop c rest
  end.

Definition HaveInputs (c : CCoinsViewCache) (coinbase : bool) (prevouts : list COutPoint) :
    bool * CCoinsViewCache :=
  if negb coinbase then HaveInputs_loop c prevouts else (true, c).

(** [AccessByTxid] with [max] = [GetMaxBlockWeight() / MIN_TRANSACTION_OUTPUT_WEIGHT]. *)
Fixpoint AccessByTxid_loop (n : nat) (c : CCoinsViewCache) (txid i : Z) : Coin * CCoinsViewCache :=
  match n with
  | O => (Coin_Clear, c)
  | S n =>
      let '(alternate, c) := AccessCoin c (txid, i) in
      if negb (IsSpent alternate) then (alternate, c) else AccessByTxid_loop n c txid (i + 1)
  end.

Definition AccessByTxid (max : nat) (c : CCoinsViewCache) (txid : Z) : Coin * CCoinsViewCache :=
  AccessByTxid_loop max c txid 0.

End Cache.

Arguments CCoinsViewCache : clear implicits.

#[export] Instance CCoinsViewCache_view (V : Type) `{CoinsView V} (script_usage : list Z -> Z) :
    CoinsView (CCoinsViewCache V) := {
  view_GetCoin := GetCoin script_usage;
  view_HaveCoin := HaveCoin script_usage;
  view_GetBestBlock := GetBestBlock;
  view_BatchWrite := BatchWrite script_usage
}.

(** ** [CCoinsViewDB] *)

(** The chainstate database: a key-value store with the three kinds of keys
    the view uses ([DB_COIN], [DB_BEST_BLOCK], [DB_HEAD_BLOCKS]).  Coins are
    stored as they are; the bytes they are written as, and that they are read
    back from them, are the matter of [Compressor.v]. *)
Record CoinsDB := mkDB {
  db_coins : gmap COutPoint Coin;
  db_best : option Z;
  db_heads : option (list Z)
}.

(** The records of a [CDBBatch]. *)
Inductive DbOp :=
| WriteCoin (o : COutPoint) (c : Coin)
| EraseCoin (o : COutPoint)
| WriteBest (h : Z)
| EraseBest
| WriteHeads (l : list Z)
| EraseHeads.

Definition apply_op (db : CoinsDB) (op : DbOp) : CoinsDB :=
  match op with
  | WriteCoin o c => mkDB (<[o := c]> (db_coins db)) (db_best db) (db_heads db)
  | EraseCoin o => mkDB (delete o (db_coins db)) (db_best db) (db_heads db)
  | WriteBest h => mkDB (db_coins db) (Some h) (db_heads db)
  | EraseBest => mkDB (db_coins db) None (db_heads db)
  | WriteHeads l => mkDB (db_coins db) (db_best db) (Some l)
  | EraseHeads => mkDB (db_coins db) (db_best db) None
  end.

(** [WriteBatch] applies a batch atomically. *)
Definition WriteBatch (db : CoinsDB) (batch : list DbOp) : CoinsDB := fold_left apply_op batch db.

Definition DB_GetCoin (db : CoinsDB) (o : COutPoint) : option Coin := db_coins db !! o.
Definition DB_HaveCoin (db : CoinsDB) (o : COutPoint) : bool := bool_decide (is_Some (db_coins db !! o)).
Definition DB_GetBestBlock (db : CoinsDB) : Z := default 0 (db_best db).
Definition DB_GetHeadBlocks (db : CoinsDB) : list Z := default [] (db_heads db).

Section DB.
(** [batch.SizeEstimate() > batch_size]: when a partial batch is written. *)
Variable over_limit : list DbOp -> bool.

(** The loop over [mapCoins]: the states committed by partial batches, the
    database and the pending batch at the end. *)
Fixpoint DB_BatchWrite_loop (db : CoinsDB) (batch : list DbOp) (mapCoins : CoinsBatch) :
    list CoinsDB * CoinsDB * list DbOp :=
  match mapCoins with
  | [] => ([], db, batch)
  | (o, it) :: rest =>
      let batch := if has_flag it DIRTY
                   then batch ++ [if IsSpent (coin it) then EraseCoin o else WriteCoin o (coin it)]
                   else batch in
      if over_limit batch then
        let db := WriteBatch db batch in
        let '(trace, db', batch') := DB_BatchWrite_loop db [] rest in
        (db :: trace, db', batch')
      else DB_BatchWrite_loop db batch rest
  end.

Definition DB_old_tip (db : CoinsDB) (hashBlock : Z) : option Z :=
  let old_tip := DB_GetBestBlock db in
  if old_tip =? 0 then
    match DB_GetHeadBlocks db with
    | [h0; h1] => if h0 =? hashBlock then Some h1 else None (* assert *)
    | _ => Some old_tip
    end
  else Some old_tip.

(** [CCoinsViewDB::BatchWrite]: the states committed by partial batches and
    the final state. *)
Definition DB_BatchWrite (db : CoinsDB) (mapCoins : CoinsBatch) (hashBlock : Z) :
    option (list CoinsDB * CoinsDB) :=
  if hashBlock =? 0 then None (* assert(!hashBlock.IsNull()) *)
  else
    old_tip ← DB_old_tip db hashBlock;
    let '(trace, db, batch) :=
      DB_BatchWrite_loop db [EraseBest; WriteHeads [hashBlock; old_tip]] mapCoins in
    Some (trace, WriteBatch db (batch ++ [EraseHeads; WriteBest hashBlock])).

#[export] Instance CCoinsViewDB_view : CoinsView CoinsDB := {
  view_GetCoin db o := (DB_GetCoin db o, db);
  view_HaveCoin db o := (DB_HaveCoin db o, db);
  view_GetBestBlock db := (DB_GetBestBlock db, db);
  view_BatchWrite db l h := '(_, db') ← DB_BatchWrite db l h; Some (true, db')
}.

End DB.
