(* ===== verification/CoinsRefine.v ===== *)
(** * The coins views refine the abstract UTXO map

    The laws of [CoinsViewSpec] for [CCoinsViewDB] and, over any base with
    these laws, for [CCoinsViewCache]; crash safety of the database flush;
    and a trace refinement for sequences of cache operations. *)

From stdpp Require Import gmap fin_maps.
From S2P Require Import Prelude Coins.

(** ** Flags *)

Lemma dirty_bit e : has_flag e DIRTY = Z.testbit (flags e) 0.
Proof. apply (land_pow2_testbit (flags e) 0). lia. Qed.
Lemma fresh_bit e : has_flag e FRESH = Z.testbit (flags e) 1.
Proof. apply (land_pow2_testbit (flags e) 1). lia. Qed.

(** Setting [DIRTY] and possibly [FRESH]. *)
Lemma dirty_lor c f g : has_flag (mkEntry c (Z.lor f (Z.lor DIRTY g))) DIRTY = true.
Proof. rewrite dirty_bit. cbn [flags]. by rewrite !Z.lor_spec, orb_true_l, orb_true_r. Qed.

Lemma dirty_lor' c f : has_flag (mkEntry c (Z.lor f DIRTY)) DIRTY = true.
Proof. rewrite dirty_bit. cbn [flags]. by rewrite Z.lor_spec, orb_true_r. Qed.

Lemma fresh_lor c f (b : bool) :
  has_flag (mkEntry c (Z.lor f (Z.lor DIRTY (if b then FRESH else 0)))) FRESH = Z.testbit f 1 || b.
Proof. rewrite fresh_bit. cbn [flags]. rewrite !Z.lor_spec. by destruct b. Qed.

Lemma fresh_lor' c f : has_flag (mkEntry c (Z.lor f DIRTY)) FRESH = Z.testbit f 1.
Proof. rewrite fresh_bit. cbn [flags]. rewrite Z.lor_spec. by rewrite orb_false_r. Qed.

(** ** Abstract maps *)

Lemma apply_batch_lookup u m o :
  apply_batch u m !! o =
  match m !! o with
  | Some e => if has_flag e DIRTY then entry_coin e else u !! o
  | None => u !! o
  end.
Proof. unfold apply_batch. rewrite lookup_merge. by destruct (m !! o), (u !! o). Qed.

Lemma entry_coin_unspent e c : entry_coin e = Some c -> IsSpent c = false.
Proof. unfold entry_coin. destruct (IsSpent (coin e)) eqn:E; [done |]. by intros [= <-]. Qed.

(** Writing one more dirty or clean entry. *)
Lemma apply_batch_cons u o e l :
  ~ o ∈ l.*1 ->
  apply_batch u (list_to_map ((o, e) :: l)) =
  apply_batch (apply_batch u {[ o := e ]}) (list_to_map l).
Proof.
  intros Ho. apply map_eq. intros i. rewrite !apply_batch_lookup. cbn [list_to_map foldr fst snd].
  apply not_elem_of_list_to_map_1 in Ho. destruct (decide (o = i)) as [<- | Hne].
  - by rewrite lookup_insert_eq, Ho, lookup_singleton_eq.
  - by rewrite lookup_insert_ne, lookup_singleton_ne by done.
Qed.

(** Writing a prefix first does not change the outcome. *)
Lemma apply_batch_prefix u l l1 l2 :
  NoDup l.*1 -> l = l1 ++ l2 ->
  apply_batch (apply_batch u (list_to_map l1)) (list_to_map l) = apply_batch u (list_to_map l).
Proof.
  intros Hnd ->. apply map_eq. intros i. rewrite !apply_batch_lookup.
  destruct (list_to_map (l1 ++ l2) !! i) as [e |] eqn:Hl.
  - destruct (has_flag e DIRTY) eqn:Hd; [done |].
    destruct (list_to_map l1 !! i) as [e1 |] eqn:H1; [| done].
    rewrite list_to_map_app in Hl. rewrite (lookup_union_Some_l _ _ _ _ H1) in Hl. injection Hl as ->. by rewrite Hd.
  - rewrite list_to_map_app in Hl. apply lookup_union_None in Hl as [-> _]. done.
Qed.

(** ** The database *)

Section DB.
Context (over_limit : list DbOp -> bool).

Definition coin_op (op : DbOp) : bool := match op with WriteCoin _ _ | EraseCoin _ => true | _ => false end.

(** The coin records an entry adds to a batch. *)
Definition entry_ops (o : COutPoint) (e : CCoinsCacheEntry) : list DbOp :=
  if has_flag e DIRTY then [if IsSpent (coin e) then EraseCoin o else WriteCoin o (coin e)] else [].

Definition db_with_coins (db : CoinsDB) (u : gmap COutPoint Coin) : CoinsDB :=
  mkDB u (db_best db) (db_heads db).

Lemma WriteBatch_app db b1 b2 : WriteBatch db (b1 ++ b2) = WriteBatch (WriteBatch db b1) b2.
Proof. apply fold_left_app. Qed.

Lemma WriteBatch_entry db o e :
  WriteBatch db (entry_ops o e) = db_with_coins db (apply_batch (db_coins db) {[ o := e ]}).
Proof.
  unfold entry_ops, WriteBatch, db_with_coins. destruct (has_flag e DIRTY) eqn:Hd.
  - assert (forall i, apply_batch (db_coins db) {[ o := e ]} !! i =
                      if decide (o = i) then entry_coin e else db_coins db !! i) as Hl.
    { intros i. rewrite apply_batch_lookup. case_decide as Hi.
      - subst i. by rewrite lookup_singleton_eq, Hd.
      - by rewrite lookup_singleton_ne. }
    unfold entry_coin in Hl. destruct (IsSpent (coin e)); cbn; f_equal; apply map_eq; intros i; rewrite Hl;
      case_decide as Hi; [subst; by rewrite lookup_delete_eq | by rewrite lookup_delete_ne
                         | subst; by rewrite lookup_insert_eq | by rewrite lookup_insert_ne].
  - cbn. destruct db. cbn. f_equal. apply map_eq. intros i. rewrite apply_batch_lookup.
    destruct (decide (o = i)) as [<- | Hi]; [by rewrite lookup_singleton_eq, Hd | by rewrite lookup_singleton_ne].
Qed.

(** The loop commits the pending batch followed by the coin records, in
    some grouping; every state it commits on the way is the database after
    a prefix of the entries. *)
Lemma DB_BatchWrite_loop_spec db batch l :
  NoDup l.*1 ->
  let '(trace, db', batch') := DB_BatchWrite_loop over_limit db batch l in
  WriteBatch db' batch' =
    db_with_coins (WriteBatch db batch) (apply_batch (db_coins (WriteBatch db batch)) (list_to_map l)) /\
  Forall (fun s => exists l1 l2, l = l1 ++ l2 /\
    s = db_with_coins (WriteBatch db batch)
          (apply_batch (db_coins (WriteBatch db batch)) (list_to_map l1))) trace.
Proof.
  revert db batch. induction l as [| [o e] l IH]; intros db batch Hnd; cbn [DB_BatchWrite_loop].
  { split; [| constructor]. unfold db_with_coins. cbn [list_to_map foldr].
    replace (apply_batch (db_coins (WriteBatch db batch)) ∅) with (db_coins (WriteBatch db batch));
      [by destruct (WriteBatch db batch) |].
    apply map_eq. intros i. by rewrite apply_batch_lookup, lookup_empty. }
  apply NoDup_cons in Hnd as [Ho Hnd].
  assert ((if has_flag e DIRTY
           then batch ++ [if IsSpent (coin e) then EraseCoin o else WriteCoin o (coin e)]
           else batch) = batch ++ entry_ops o e) as ->.
  { unfold entry_ops. destruct (has_flag e DIRTY); [done | by rewrite app_nil_r]. }
  set (d := WriteBatch db batch).
  assert (WriteBatch db (batch ++ entry_ops o e) =
          db_with_coins d (apply_batch (db_coins d) {[ o := e ]})) as Hb
    by (rewrite WriteBatch_app; apply WriteBatch_entry).
  assert (forall l1, (forall x, x ∈ l1 -> x ∈ l) ->
    db_with_coins (WriteBatch db (batch ++ entry_ops o e))
      (apply_batch (db_coins (WriteBatch db (batch ++ entry_ops o e))) (list_to_map l1)) =
    db_with_coins d (apply_batch (db_coins d) (list_to_map ((o, e) :: l1)))) as Hstep.
  { intros l1 Hl1. rewrite Hb. unfold db_with_coins. cbn [db_coins db_best db_heads]. f_equal.
    symmetry. apply apply_batch_cons. intros Hin. apply Ho.
    apply list_elem_of_fmap in Hin as (x & -> & Hx). apply list_elem_of_fmap. exists x. auto. }
  assert (forall l1 l2, l = l1 ++ l2 -> forall x, x ∈ l1 -> x ∈ l) as Hpre
    by (intros l1 l2 -> x Hx; apply elem_of_app; auto).
  destruct (over_limit (batch ++ entry_ops o e)).
  - specialize (IH (WriteBatch db (batch ++ entry_ops o e)) [] Hnd).
    destruct (DB_BatchWrite_loop over_limit _ [] l) as [[trace db'] batch']. cbn [WriteBatch fold_left] in IH.
    destruct IH as [IH1 IH2]. split; [rewrite IH1; by apply Hstep |]. constructor.
    + exists [(o, e)], l. split; [done |]. rewrite <- (Hstep []) by (intros x Hx; inversion Hx).
      unfold db_with_coins. cbn [list_to_map foldr]. destruct (WriteBatch db _) as [u bb hh]. cbn. f_equal.
      apply map_eq. intros i. by rewrite apply_batch_lookup, lookup_empty.
    + eapply Forall_impl; [exact IH2 |]. intros s (l1 & l2 & Hl & ->). exists ((o, e) :: l1), l2.
      split; [by rewrite Hl |]. by apply Hstep, (Hpre l1 l2).
  - specialize (IH db (batch ++ entry_ops o e) Hnd).
    destruct (DB_BatchWrite_loop over_limit db _ l) as [[trace db'] batch'].
    destruct IH as [IH1 IH2]. split; [rewrite IH1; by apply Hstep |].
    eapply Forall_impl; [exact IH2 |]. intros s (l1 & l2 & Hl & ->). exists ((o, e) :: l1), l2.
    split; [by rewrite Hl |]. by apply Hstep, (Hpre l1 l2).
Qed.

(** The final state, and the states a crash can leave behind. *)
Lemma DB_BatchWrite_spec db l h old :
  NoDup l.*1 -> h <> 0 -> DB_old_tip db h = Some old ->
  exists trace, DB_BatchWrite over_limit db l h =
    Some (trace, mkDB (apply_batch (db_coins db) (list_to_map l)) (Some h) None) /\
  Forall (fun s => exists l1 l2, l = l1 ++ l2 /\
    s = mkDB (apply_batch (db_coins db) (list_to_map l1)) None (Some [h; old])) trace.
Proof.
  intros Hnd Hh Hold. unfold DB_BatchWrite. rewrite (proj2 (Z.eqb_neq h 0) Hh), Hold. cbn [mbind option_bind].
  pose proof (DB_BatchWrite_loop_spec db [EraseBest; WriteHeads [h; old]] l Hnd) as Hl.
  destruct (DB_BatchWrite_loop over_limit db _ l) as [[trace db'] batch']. destruct Hl as [H1 H2].
  exists trace. split; [| exact H2]. do 2 f_equal. rewrite WriteBatch_app, H1. done.
Qed.

End DB.

(** [CCoinsViewDB] keeps its promises when no write was interrupted. *)
#[export] Instance CCoinsViewDB_spec (over_limit : list DbOp -> bool) :
  @CoinsViewSpec CoinsDB (CCoinsViewDB_view over_limit).
Proof.
  refine {|
    view_ok := fun db => map_Forall (fun _ c => IsSpent c = false) (db_coins db) /\ db_heads db = None;
    view_utxo := db_coins;
    view_best := DB_GetBestBlock |}.
  - intros db o c [Hu _] Ho. exact (Hu o c Ho).
  - intros db o Hok. by exists db.
  - intros db o Hok. by exists db.
  - intros db Hok. by exists db.
  - intros db l h [Hu Hh] Hnd _ Hne.
    assert (DB_old_tip db h = Some (DB_GetBestBlock db)) as Hold.
    { unfold DB_old_tip, DB_GetHeadBlocks. rewrite Hh. cbn. by destruct (_ =? 0). }
    destruct (DB_BatchWrite_spec over_limit db l h _ Hnd Hne Hold) as (trace & Heq & _).
    eexists. cbn [view_BatchWrite CCoinsViewDB_view]. rewrite Heq. cbn [mbind option_bind].
    split; [done |]. split; [split; [| done] | done].
    intros i c. cbn [db_coins]. rewrite apply_batch_lookup.
    destruct (list_to_map l !! i) as [e |]; [destruct (has_flag e DIRTY) |]; intros Hi;
      [by apply entry_coin_unspent in Hi | exact (Hu i c Hi) | exact (Hu i c Hi)].
Defined.

(** ** The cache *)

Section Cache.
Context {V : Type} `{HV : CoinsView V} `{!CoinsViewSpec V}.
Context (script_usage : list Z -> Z) (usage_nil : script_usage [] = 0).

Abbreviation cache := (CCoinsViewCache V).

(** An entry is coherent with what the base holds. *)
Definition entry_ok (below : option Coin) (e : CCoinsCacheEntry) : Prop :=
  (has_flag e FRESH = true -> below = None) /\ (has_flag e DIRTY = false -> entry_coin e = below).

Definition total_usage (m : CCoinsMap) : Z :=
  map_fold (fun _ e acc => DynamicMemoryUsage script_usage (coin e) + acc) 0 m.

Definition cache_ok (c : cache) : Prop :=
  view_ok (base c) /\
  (forall o e, cacheCoins c !! o = Some e -> entry_ok (view_utxo (base c) !! o) e) /\
  cachedCoinsUsage c = u64 (total_usage (cacheCoins c)).

(** The abstraction function. *)
Definition cache_utxo (c : cache) : gmap COutPoint Coin :=
  merge (fun e b => match e with Some e => entry_coin e | None => b end)
    (cacheCoins c) (view_utxo (base c)).

Definition cache_best (c : cache) : Z :=
  if hashBlock c =? 0 then view_best (base c) else hashBlock c.

Lemma cache_utxo_lookup c o :
  cache_utxo c !! o =
  match cacheCoins c !! o with Some e => entry_coin e | None => view_utxo (base c) !! o end.
Proof. unfold cache_utxo. rewrite lookup_merge. by destruct (cacheCoins c !! o), (view_utxo (base c) !! o). Qed.

Lemma cache_unspent c o co : cache_ok c -> cache_utxo c !! o = Some co -> IsSpent co = false.
Proof.
  intros [Hb _]. rewrite cache_utxo_lookup. destruct (cacheCoins c !! o) as [e |]; intros Ho.
  - by apply (entry_coin_unspent e).
  - by apply (view_unspent (base c) o).
Qed.

(** *** Memory accounting *)

Lemma total_usage_insert m o e :
  total_usage (<[o := e]> m) = total_usage (delete o m) + DynamicMemoryUsage script_usage (coin e).
Proof.
  rewrite <- insert_delete_eq. unfold total_usage. rewrite map_fold_insert_L.
  - lia.
  - intros. lia.
  - apply lookup_delete_eq.
Qed.

Lemma total_usage_lookup m o e :
  m !! o = Some e -> total_usage m = total_usage (delete o m) + DynamicMemoryUsage script_usage (coin e).
Proof. intros Ho. rewrite <- (insert_id m o e Ho) at 1. apply total_usage_insert. Qed.

Lemma total_usage_absent m o : m !! o = None -> total_usage m = total_usage (delete o m).
Proof. intros Ho. by rewrite delete_id. Qed.

Lemma u64_add_l a b : u64 (u64 a + b) = u64 (a + b).
Proof. unfold wrapu. by rewrite Z.add_mod_idemp_l. Qed.

Lemma u64_sub_l a b : u64 (u64 a - b) = u64 (a - b).
Proof. unfold wrapu. by rewrite Zminus_mod_idemp_l. Qed.

(** What was counted for [o] before. *)
Definition old_usage (m : CCoinsMap) (o : COutPoint) : Z :=
  match m !! o with Some e => DynamicMemoryUsage script_usage (coin e) | None => 0 end.

Lemma total_usage_old m o : total_usage m = total_usage (delete o m) + old_usage m o.
Proof.
  unfold old_usage. destruct (m !! o) as [e |] eqn:Ho.
  - by apply total_usage_lookup.
  - rewrite (total_usage_absent m o Ho). lia.
Qed.

(** *** Changing one entry *)

Lemma cache_ok_set c c' o e :
  cache_ok c -> base c' = base c -> cacheCoins c' = <[o := e]> (cacheCoins c) ->
  entry_ok (view_utxo (base c) !! o) e ->
  cachedCoinsUsage c' =
    u64 (cachedCoinsUsage c - old_usage (cacheCoins c) o + DynamicMemoryUsage script_usage (coin e)) ->
  cache_ok c'.
Proof.
  intros (Hb & He & Hu) Hbase Hm Hok Hus. unfold cache_ok. rewrite Hbase, Hm. split; [done |]. split.
  - intros i x. destruct (decide (o = i)) as [<- | Hne].
    + rewrite lookup_insert_eq. by intros [= <-].
    + rewrite lookup_insert_ne by done. apply He.
  - rewrite Hus, Hu, total_usage_insert, (total_usage_old (cacheCoins c) o).
    rewrite <- u64_add_l, u64_sub_l, u64_add_l. f_equal. lia.
Qed.

Lemma cache_ok_erase c c' o :
  cache_ok c -> base c' = base c -> cacheCoins c' = delete o (cacheCoins c) ->
  cachedCoinsUsage c' = u64 (cachedCoinsUsage c - old_usage (cacheCoins c) o) ->
  cache_ok c'.
Proof.
  intros (Hb & He & Hu) Hbase Hm Hus. unfold cache_ok. rewrite Hbase, Hm. split; [done |]. split.
  - intros i x. destruct (decide (o = i)) as [<- | Hne].
    + by rewrite lookup_delete_eq.
    + rewrite lookup_delete_ne by done. apply He.
  - rewrite Hus, Hu, (total_usage_old (cacheCoins c) o), u64_sub_l. f_equal. lia.
Qed.

Lemma cache_utxo_set c c' o e :
  base c' = base c -> cacheCoins c' = <[o := e]> (cacheCoins c) ->
  cache_utxo c' = partial_alter (fun _ => entry_coin e) o (cache_utxo c).
Proof.
  intros Hb Hm. apply map_eq. intros i. rewrite cache_utxo_lookup, Hb, Hm.
  destruct (decide (o = i)) as [<- | Hne].
  - by rewrite lookup_insert_eq, lookup_partial_alter_eq.
  - rewrite lookup_insert_ne, lookup_partial_alter_ne by done. by rewrite cache_utxo_lookup.
Qed.

Lemma cache_utxo_erase c c' o :
  base c' = base c -> cacheCoins c' = delete o (cacheCoins c) ->
  cache_utxo c' = partial_alter (fun _ => view_utxo (base c) !! o) o (cache_utxo c).
Proof.
  intros Hb Hm. apply map_eq. intros i. rewrite cache_utxo_lookup, Hb, Hm.
  destruct (decide (o = i)) as [<- | Hne].
  - by rewrite lookup_delete_eq, lookup_partial_alter_eq.
  - rewrite lookup_delete_ne, lookup_partial_alter_ne by done. by rewrite cache_utxo_lookup.
Qed.

Lemma partial_alter_const_None {A} (m : gmap COutPoint A) o : partial_alter (fun _ => None) o m = delete o m.
Proof. done. Qed.

(** *** Reads *)

Lemma FetchCoin_spec c o :
  cache_ok c ->
  exists it c', FetchCoin script_usage c o = (it, c') /\ cache_ok c' /\
    cache_utxo c' = cache_utxo c /\ cache_best c' = cache_best c /\ hashBlock c' = hashBlock c /\
    cacheCoins c' !! o = it /\
    cache_utxo c !! o = (e ← it; entry_coin e) /\
    (it = None -> cacheCoins c' = cacheCoins c).
Proof.
  intros Hok. unfold FetchCoin. destruct (cacheCoins c !! o) as [e |] eqn:Ho.
  { exists (Some e), c. rewrite cache_utxo_lookup, Ho. by repeat (split; [done |]). }
  destruct Hok as (Hb & He & Hu).
  destruct (view_GetCoin_spec (base c) o Hb) as (b' & -> & Hb' & Hutxo & Hbest).
  assert (cache_ok (with_base c b')) as Hok'.
  { split; [done |]. split; [| done]. intros i x. cbn [base with_base cacheCoins]. rewrite Hutxo. apply He. }
  assert (forall c', base c' = b' -> hashBlock c' = hashBlock c -> cache_best c' = cache_best c) as Hbst.
  { intros c' Hc' Hh. unfold cache_best. by rewrite Hc', Hh, Hbest. }
  assert (cache_utxo (with_base c b') = cache_utxo c) as Hutx.
  { unfold cache_utxo. cbn [base with_base cacheCoins]. by rewrite Hutxo. }
  destruct (view_utxo (base c) !! o) as [co |] eqn:Hbo.
  - assert (IsSpent co = false) as Hsp by (by apply (view_unspent (base c) o)).
    rewrite Hsp. eexists _, _. split; [reflexivity |]. split.
    { eapply (cache_ok_set (with_base c b') _ o (mkEntry co 0)); [done | done | done | |].
      - cbn [base with_base]. rewrite Hutxo, Hbo. split; [done |]. intros _. unfold entry_coin. cbn [coin]. by rewrite Hsp.
      - unfold old_usage. cbn [usage_add set_entry with_base cachedCoinsUsage cacheCoins].
        rewrite Ho. cbn [coin]. f_equal. lia. }
    split.
    { rewrite (cache_utxo_set (with_base c b') _ o (mkEntry co 0)) by done. rewrite Hutx.
      apply map_eq. intros i. destruct (decide (o = i)) as [<- | Hne].
      - rewrite lookup_partial_alter_eq, cache_utxo_lookup, Ho, Hbo. unfold entry_coin. cbn [coin]. by rewrite Hsp.
      - by rewrite lookup_partial_alter_ne. }
    split; [by apply Hbst |]. split; [done |].
    cbn [usage_add set_entry with_base cacheCoins]. split; [apply lookup_insert_eq |].
    split; [| done]. rewrite cache_utxo_lookup, Ho, Hbo. cbn. unfold entry_coin. cbn [coin]. by rewrite Hsp.
  - exists None, (with_base c b'). split; [done |]. split; [done |]. split; [done |].
    split; [by apply Hbst |]. split; [done |]. split; [done |]. split; [| done].
    by rewrite cache_utxo_lookup, Ho, Hbo.
Qed.

Lemma GetCoin_spec c o :
  cache_ok c ->
  exists c', GetCoin script_usage c o = (cache_utxo c !! o, c') /\
    cache_ok c' /\ cache_utxo c' = cache_utxo c /\ cache_best c' = cache_best c.
Proof.
  intros Hok. destruct (FetchCoin_spec c o Hok) as (it & c' & Hf & Hok' & Hu & Hb & _ & _ & Hit & _).
  exists c'. unfold GetCoin. rewrite Hf, Hit. split; [| done].
  destruct it as [e |]; [| done]. cbn. unfold entry_coin. by destruct (IsSpent (coin e)).
Qed.

Lemma HaveCoin_spec c o :
  cache_ok c ->
  exists c', HaveCoin script_usage c o = (bool_decide (is_Some (cache_utxo c !! o)), c') /\
    cache_ok c' /\ cache_utxo c' = cache_utxo c /\ cache_best c' = cache_best c.
Proof.
  intros Hok. destruct (FetchCoin_spec c o Hok) as (it & c' & Hf & Hok' & Hu & Hb & _ & _ & Hit & _).
  exists c'. unfold HaveCoin. rewrite Hf, Hit. split; [| done]. f_equal.
  destruct it as [e |]; cbn; [| done]. unfold entry_coin. by destruct (IsSpent (coin e)).
Qed.

Lemma GetBestBlock_spec c :
  cache_ok c ->
  exists c', GetBestBlock c = (cache_best c, c') /\
    cache_ok c' /\ cache_utxo c' = cache_utxo c /\ cache_best c' = cache_best c.
Proof.
  intros (Hb & He & Hu). unfold GetBestBlock, cache_best. destruct (Z.eqb_spec (hashBlock c) 0) as [Hz | Hnz].
  - destruct (view_GetBestBlock_spec (base c) Hb) as (b' & -> & Hb' & Hutxo & Hbest).
    eexists. split; [reflexivity |]. split; [| split].
    + split; [done |]. split; [| done]. intros i x. cbn [base cacheCoins]. rewrite Hutxo. apply He.
    + unfold cache_utxo. cbn [base cacheCoins]. by rewrite Hutxo.
    + cbn [base hashBlock]. rewrite Hbest. by destruct (_ =? 0).
  - exists c. split; [done |]. split; [done |]. split; [done |]. by rewrite (proj2 (Z.eqb_neq _ _) Hnz).
Qed.

(** *** Writes *)

Lemma SetBestBlock_spec c h :
  cache_ok c -> h <> 0 ->
  cache_ok (SetBestBlock c h) /\ cache_utxo (SetBestBlock c h) = cache_utxo c /\ cache_best (SetBestBlock c h) = h.
Proof.
  intros Hok Hh. split; [exact Hok |]. split; [done |].
  unfold cache_best. cbn [SetBestBlock hashBlock]. by rewrite (proj2 (Z.eqb_neq h 0) Hh).
Qed.

Lemma insert_as_alter {A} (m : gmap COutPoint A) o (x : A) : partial_alter (fun _ => Some x) o m = <[o := x]> m.
Proof. done. Qed.

Lemma AddCoin_spec unspendable c o new ow :
  cache_ok c -> IsSpent new = false -> (ow = false -> cache_utxo c !! o = None) ->
  exists c', AddCoin script_usage unspendable c o new ow = Some c' /\ cache_ok c' /\
    cache_best c' = cache_best c /\
    cache_utxo c' = if unspendable (scriptPubKey (out new)) then cache_utxo c
                    else <[o := new]> (cache_utxo c).
Proof.
  intros Hok Hsp How. unfold AddCoin. rewrite Hsp. destruct (unspendable _); [by exists c |].
  set (it := default (mkEntry Coin_Clear 0) (cacheCoins c !! o)).
  assert (negb ow && negb (IsSpent (coin it)) = false) as ->.
  { destruct ow; [done |]. specialize (How eq_refl). rewrite cache_utxo_lookup in How. unfold it.
    destruct (cacheCoins c !! o) as [e |]; [| done]. unfold entry_coin in How. cbn.
    by destruct (IsSpent (coin e)). }
  set (e' := mkEntry new _). eexists. split; [reflexivity |].
  assert (entry_coin e' = Some new) as Hec by (unfold entry_coin, e'; cbn [coin]; by rewrite Hsp).
  split; [| split].
  - apply (cache_ok_set c _ o e'); try done.
    + by destruct (cacheCoins c !! o).
    + by destruct (cacheCoins c !! o).
    + split; [| unfold e'; by rewrite dirty_lor]. unfold e'. rewrite fresh_lor. intros Hf.
      destruct Hok as (_ & He & _). unfold it in Hf. rewrite cache_utxo_lookup in How.
      destruct (cacheCoins c !! o) as [e |] eqn:Ho; cbn [default] in Hf.
      * destruct (He o e Ho) as [Hfr Hcl]. rewrite fresh_bit in Hfr.
        apply orb_true_iff in Hf as [Hf | [Hw%negb_true_iff Hd%negb_true_iff]%andb_true_iff]; [by apply Hfr |].
        rewrite <- Hcl by done. by apply How.
      * cbn [flags] in Hf. rewrite Z.bits_0 in Hf. cbn in Hf.
        destruct ow; [done |]. by apply How.
    + unfold old_usage. cbn [usage_add set_entry cachedCoinsUsage]. unfold it.
      destruct (cacheCoins c !! o) as [e |] eqn:Ho; cbn [negb usage_sub cachedCoinsUsage default].
      * by rewrite u64_add_l.
      * f_equal. cbn [e' coin]. lia.
  - by destruct (cacheCoins c !! o).
  - rewrite (cache_utxo_set c _ o e'), Hec by (by destruct (cacheCoins c !! o)). done.
Qed.

(** Adding over an unspent cached coin without permission is rejected. *)
Lemma AddCoin_overwrite_fails unspendable (c : cache) o e new :
  cacheCoins c !! o = Some e -> IsSpent (coin e) = false -> unspendable (scriptPubKey (out new)) = false ->
  AddCoin script_usage unspendable c o new false = None.
Proof.
  intros Ho Hs Hu. unfold AddCoin. destruct (IsSpent new); [done |]. rewrite Hu, Ho. cbn. by rewrite Hs.
Qed.

Lemma SpendCoin_spec {A} (T : A -> COutPoint -> CTxOut -> bool * A) c o :
  cache_ok c ->
  exists found moved c', SpendCoin script_usage T c o None = (found, moved, c', None) /\ cache_ok c' /\
    cache_best c' = cache_best c /\ cache_utxo c' = delete o (cache_utxo c) /\
    found = bool_decide (is_Some moved) /\
    cache_utxo c !! o = (co ← moved; if IsSpent co then None else Some co).
Proof using usage_nil.
  intros Hok. unfold SpendCoin.
  destruct (FetchCoin_spec c o Hok) as (it & c1 & -> & Hok1 & Hu1 & Hb1 & _ & Hc1 & Hit & _).
  destruct it as [e |].
  2:{ exists false, None, c1. do 3 (split; [done |]). rewrite Hu1. split; [| done].
      symmetry. by apply delete_id. }
  exists true, (Some (coin e)). rewrite <- Hu1.
  assert (old_usage (cacheCoins c1) o = DynamicMemoryUsage script_usage (coin e)) as Hold
    by (unfold old_usage; by rewrite Hc1).
  destruct (has_flag e FRESH) eqn:Hf; eexists; split; [reflexivity | | reflexivity |].
  - split; [| split; [done | split; [| split; [done | by rewrite Hu1, Hit]]]].
    + apply (cache_ok_erase c1 _ o); try done. cbn. by rewrite Hold.
    + rewrite (cache_utxo_erase c1 _ o) by done.
      destruct Hok1 as (_ & He & _). by rewrite (proj1 (He o e Hc1) Hf).
  - split; [| split; [done | split; [| split; [done | by rewrite Hu1, Hit]]]].
    + apply (cache_ok_set c1 _ o (mkEntry Coin_Clear (Z.lor (flags e) DIRTY))); try done.
      * split; [rewrite fresh_lor', <- fresh_bit; congruence | by rewrite dirty_lor'].
      * cbn [set_entry usage_sub cachedCoinsUsage]. rewrite Hold. f_equal.
        unfold DynamicMemoryUsage at 3. cbn [coin Coin_Clear out txout_null scriptPubKey]. rewrite usage_nil. lia.
    + rewrite (cache_utxo_set c1 _ o (mkEntry Coin_Clear (Z.lor (flags e) DIRTY))) by done. done.
Qed.

Lemma Uncache_spec c o :
  cache_ok c ->
  cache_ok (Uncache script_usage c o) /\ cache_utxo (Uncache script_usage c o) = cache_utxo c /\
  cache_best (Uncache script_usage c o) = cache_best c.
Proof.
  intros Hok. unfold Uncache. destruct (cacheCoins c !! o) as [e |] eqn:Ho; [| done].
  destruct (Z.eqb_spec (flags e) 0) as [Hz |]; [| done]. split; [| split; [| done]].
  - apply (cache_ok_erase c _ o); try done. unfold old_usage. by rewrite Ho.
  - rewrite (cache_utxo_erase c _ o) by done. destruct Hok as (_ & He & _). destruct (He o e Ho) as [_ Hcl].
    rewrite <- Hcl by (rewrite dirty_bit, Hz; done). apply map_eq. intros i.
    destruct (decide (o = i)) as [<- | Hne].
    + by rewrite lookup_partial_alter_eq, cache_utxo_lookup, Ho.
    + by rewrite lookup_partial_alter_ne.
Qed.

Lemma apply_batch_dirty u o e :
  has_flag e DIRTY = true -> apply_batch u {[ o := e ]} = partial_alter (fun _ => entry_coin e) o u.
Proof.
  intros Hd. apply map_eq. intros i. rewrite apply_batch_lookup. destruct (decide (o = i)) as [<- | Hne].
  - by rewrite lookup_singleton_eq, Hd, lookup_partial_alter_eq.
  - by rewrite lookup_singleton_ne, lookup_partial_alter_ne.
Qed.

Lemma apply_batch_clean u o e : has_flag e DIRTY = false -> apply_batch u {[ o := e ]} = u.
Proof.
  intros Hd. apply map_eq. intros i. rewrite apply_batch_lookup. destruct (decide (o = i)) as [<- | Hne].
  - by rewrite lookup_singleton_eq, Hd.
  - by rewrite lookup_singleton_ne.
Qed.

Lemma BatchWrite_entry_spec c o e :
  cache_ok c -> (has_flag e DIRTY = true -> has_flag e FRESH = true -> cache_utxo c !! o = None) ->
  exists c', BatchWrite_entry script_usage c o e = Some c' /\ cache_ok c' /\
    cache_utxo c' = apply_batch (cache_utxo c) {[ o := e ]}.
Proof.
  intros Hok Hfr. unfold BatchWrite_entry. destruct (has_flag e DIRTY) eqn:Hd.
  2:{ exists c. by rewrite apply_batch_clean. }
  specialize (Hfr eq_refl). rewrite apply_batch_dirty by done. rewrite cache_utxo_lookup in Hfr.
  destruct (cacheCoins c !! o) as [us |] eqn:Ho.
  - pose proof (proj1 (proj2 Hok) o us Ho) as [Hus _].
    assert (has_flag e FRESH && negb (IsSpent (coin us)) = false) as ->.
    { destruct (has_flag e FRESH); [| done]. specialize (Hfr eq_refl). unfold entry_coin in Hfr.
      by destruct (IsSpent (coin us)). }
    assert (old_usage (cacheCoins c) o = DynamicMemoryUsage script_usage (coin us)) as Hold
      by (unfold old_usage; by rewrite Ho).
    destruct (has_flag us FRESH && IsSpent (coin e)) eqn:Hcase; eexists; split; [reflexivity | | reflexivity |].
    + apply andb_true_iff in Hcase as [Hf Hs]. split.
      * apply (cache_ok_erase c _ o); try done. cbn. by rewrite Hold.
      * rewrite (cache_utxo_erase c _ o) by done. unfold entry_coin. by rewrite Hs, (Hus Hf).
    + split.
      * apply (cache_ok_set c _ o (mkEntry (coin e) (Z.lor (flags us) DIRTY))); try done.
        -- split; [rewrite fresh_lor', <- fresh_bit; done | by rewrite dirty_lor'].
        -- cbn. by rewrite Hold, u64_add_l.
      * by rewrite (cache_utxo_set c _ o (mkEntry (coin e) (Z.lor (flags us) DIRTY))) by done.
  - destruct (has_flag e FRESH && IsSpent (coin e)) eqn:Hcase; cbn [negb].
    + apply andb_true_iff in Hcase as [Hf Hs]. exists c. split; [done |]. split; [done |].
      unfold entry_coin. rewrite Hs, partial_alter_const_None. symmetry. apply delete_id.
      rewrite cache_utxo_lookup, Ho. by apply Hfr.
    + eexists. split; [reflexivity |]. split.
      * apply (cache_ok_set c _ o (mkEntry (coin e) (if has_flag e FRESH then Z.lor DIRTY FRESH else DIRTY))); try done.
        -- split; [| by destruct (has_flag e FRESH)].
           destruct (has_flag e FRESH); [intros _; by apply Hfr | done].
        -- unfold old_usage. rewrite Ho. cbn [usage_add set_entry cachedCoinsUsage coin]. f_equal. lia.
      * by rewrite (cache_utxo_set c _ o
          (mkEntry (coin e) (if has_flag e FRESH then Z.lor DIRTY FRESH else DIRTY))) by done.
Qed.

Lemma BatchWrite_loop_spec c l :
  cache_ok c -> NoDup l.*1 -> batch_ok (cache_utxo c) (list_to_map l) ->
  exists c', BatchWrite_loop script_usage c l = Some c' /\ cache_ok c' /\
    cache_utxo c' = apply_batch (cache_utxo c) (list_to_map l).
Proof.
  revert c. induction l as [| [o e] l IH]; intros c Hok Hnd Hb; cbn [BatchWrite_loop].
  { exists c. split; [done |]. split; [done |]. apply map_eq. intros i.
    rewrite apply_batch_lookup. cbn. by rewrite lookup_empty. }
  apply NoDup_cons in Hnd as [Ho Hnd].
  destruct (BatchWrite_entry_spec c o e Hok) as (c1 & -> & Hok1 & Hu1).
  { apply (Hb o e). cbn. apply lookup_insert_eq. }
  cbn [mbind option_bind]. destruct (IH c1 Hok1 Hnd) as (c' & Hc' & Hok' & Hu').
  - intros i x Hi Hd Hf. rewrite Hu1, apply_batch_lookup.
    assert (o <> i) as Hne.
    { intros ->. apply not_elem_of_list_to_map_1 in Ho. cbn in Ho. congruence. }
    rewrite lookup_singleton_ne by done. apply (Hb i x); [| done | done].
    cbn [list_to_map foldr fst snd]. by rewrite lookup_insert_ne.
  - exists c'. split; [done |]. split; [done |]. by rewrite Hu', Hu1, apply_batch_cons.
Qed.

Lemma BatchWrite_spec c l h :
  cache_ok c -> NoDup l.*1 -> batch_ok (cache_utxo c) (list_to_map l) -> h <> 0 ->
  exists c', BatchWrite script_usage c l h = Some (true, c') /\ cache_ok c' /\
    cache_utxo c' = apply_batch (cache_utxo c) (list_to_map l) /\ cache_best c' = h.
Proof.
  intros Hok Hnd Hb Hh. destruct (BatchWrite_loop_spec c l Hok Hnd Hb) as (c1 & Hc1 & Hok1 & Hu1).
  exists (SetBestBlock c1 h). unfold BatchWrite. rewrite Hc1. split; [done |].
  destruct (SetBestBlock_spec c1 h Hok1 Hh) as (H1 & H2 & H3). by rewrite H2.
Qed.

(** The entries of a coherent cache form a legal batch for its base, and
    writing them makes the base equal to the cache. *)
Lemma cache_batch_ok c : cache_ok c -> batch_ok (view_utxo (base c)) (cacheCoins c).
Proof. intros (_ & He & _) o e Ho _ Hf. by apply (He o e Ho). Qed.

Lemma cache_batch_utxo c : cache_ok c -> apply_batch (view_utxo (base c)) (cacheCoins c) = cache_utxo c.
Proof.
  intros (_ & He & _). apply map_eq. intros i. rewrite apply_batch_lookup, cache_utxo_lookup.
  destruct (cacheCoins c !! i) as [e |] eqn:Hi; [| done].
  destruct (has_flag e DIRTY) eqn:Hd; [done |]. symmetry. by apply (He i e Hi).
Qed.

Lemma Flush_spec order c :
  (forall m, order m ≡ₚ map_to_list m) -> cache_ok c -> hashBlock c <> 0 ->
  exists c', Flush order c = Some (true, c') /\ cache_ok c' /\ cacheCoins c' = ∅ /\
    view_utxo (base c') = cache_utxo c /\ view_best (base c') = hashBlock c /\
    cache_utxo c' = cache_utxo c /\ hashBlock c' = hashBlock c.
Proof.
  intros Hord Hok Hh. unfold Flush.
  assert (NoDup (order (cacheCoins c)).*1) as Hnd
    by (rewrite Hord; apply NoDup_fst_map_to_list).
  assert (list_to_map (order (cacheCoins c)) = cacheCoins c) as Hmap.
  { rewrite (list_to_map_proper _ (map_to_list (cacheCoins c))) by (try done; by rewrite Hord).
    apply list_to_map_to_list. }
  destruct (view_BatchWrite_spec (base c) (order (cacheCoins c)) (hashBlock c)) as (b & -> & Hb & Hu & Hbest);
    [apply Hok | done | rewrite Hmap; by apply cache_batch_ok | done |].
  rewrite Hmap, cache_batch_utxo in Hu by done.
  eexists. split; [reflexivity |]. split; [| split; [done | split; [done | split; [done |]]]].
  - split; [done |]. split; [intros o e; cbn [cacheCoins]; by rewrite lookup_empty |].
    cbn [cachedCoinsUsage cacheCoins]. unfold total_usage. by rewrite map_fold_empty.
  - split; [| done]. apply map_eq. intros i. rewrite cache_utxo_lookup. cbn [cacheCoins base].
    by rewrite lookup_empty, Hu.
Qed.

(** A cache over a view with these laws is such a view. *)
#[export] Instance CCoinsViewCache_spec : @CoinsViewSpec cache (CCoinsViewCache_view V script_usage).
Proof using CoinsViewSpec0.
  refine {| view_ok := cache_ok; view_utxo := cache_utxo; view_best := cache_best |}.
  - exact cache_unspent.
  - exact GetCoin_spec.
  - exact HaveCoin_spec.
  - exact GetBestBlock_spec.
  - exact BatchWrite_spec.
Defined.

(** *** The outputs of a transaction *)

(** The UTXO entry [AddCoins] creates for an output, if any. *)
Definition output_coin (unspendable : list Z -> bool) (coinbase : bool) (nHeight : Z) (o : CTxOut) : option Coin :=
  if unspendable (scriptPubKey o) then None else Some (mkCoin o coinbase (wrapu 31 nHeight)).

Lemma AddCoins_loop_spec unspendable txid nHeight coinbase check vout : forall c i,
  cache_ok c -> Forall (fun o => nValue o <> -1) vout ->
  (check = false -> coinbase = false ->
   forall k, 0 <= k < Z.of_nat (length vout) -> cache_utxo c !! (txid, i + k) = None) ->
  exists c', AddCoins_loop script_usage unspendable c txid i vout nHeight coinbase check = Some c' /\
    cache_ok c' /\ cache_best c' = cache_best c /\
    (forall k o, vout !! k = Some o ->
      cache_utxo c' !! (txid, i + Z.of_nat k) =
      match output_coin unspendable coinbase nHeight o with
      | Some co => Some co
      | None => cache_utxo c !! (txid, i + Z.of_nat k)
      end) /\
    (forall p, ~ (p.1 = txid /\ i <= p.2 < i + Z.of_nat (length vout)) -> cache_utxo c' !! p = cache_utxo c !! p).
Proof.
  induction vout as [| o vout IH]; intros c i Hok Hv Hab; cbn [AddCoins_loop].
  { exists c. by repeat (split; [done |]). }
  apply Forall_cons in Hv as [Ho Hv].
  assert (exists ow c1, (if check then HaveCoin script_usage c (txid, i) else (coinbase, c)) = (ow, c1) /\
    cache_ok c1 /\ cache_utxo c1 = cache_utxo c /\ cache_best c1 = cache_best c /\
    (ow = false -> cache_utxo c !! (txid, i) = None)) as (ow & c1 & -> & Hok1 & Hu1 & Hb1 & How).
  { destruct check.
    - destruct (HaveCoin_spec c (txid, i) Hok) as (c1 & -> & ? & ? & ?). eexists _, c1. split; [done |].
      do 3 (split; [done |]). intros Hf%bool_decide_eq_false. by apply eq_None_not_Some.
    - exists coinbase, c. do 4 (split; [done |]). intros ->. rewrite <- (Z.add_0_r i). apply Hab; try done. }
  set (co := mkCoin o coinbase (wrapu 31 nHeight)).
  assert (IsSpent co = false) as Hsp by (by apply Z.eqb_neq).
  destruct (AddCoin_spec unspendable c1 (txid, i) co ow Hok1 Hsp) as (c2 & -> & Hok2 & Hb2 & Hu2).
  { by rewrite Hu1. }
  cbn [mbind option_bind].
  assert (forall p, p <> (txid, i) -> cache_utxo c2 !! p = cache_utxo c !! p) as Hother.
  { intros p Hp. rewrite Hu2, Hu1. destruct (unspendable _); [done |]. by rewrite lookup_insert_ne. }
  destruct (IH c2 (i + 1) Hok2 Hv) as (c' & -> & Hok' & Hb' & Hin & Hout).
  { intros Hc Hcb k Hk. rewrite Hother by (intros [= H]; lia). rewrite <- Z.add_assoc.
    apply (Hab Hc Hcb). cbn [length]. lia. }
  exists c'. split; [done |]. split; [done |]. split; [by rewrite Hb', Hb2 |]. split.
  - intros [| k] o' Hk; cbn in Hk.
    + injection Hk as <-. rewrite Z.add_0_r, Hout by (cbn; lia). rewrite Hu2, Hu1.
      unfold output_coin. cbn [co out]. destruct (unspendable (scriptPubKey o)); [done |].
      apply lookup_insert_eq.
    + replace (i + Z.of_nat (S k)) with (i + 1 + Z.of_nat k) by lia. rewrite (Hin k o' Hk).
      by rewrite Hother by (intros [= H]; lia).
  - intros p Hp. cbn [length] in Hp. rewrite Hout by lia. apply Hother. intros ->. apply Hp. cbn. lia.
Qed.

(** *** Sequences of operations *)

Inductive CoinOp :=
| OpGetCoin (o : COutPoint)
| OpHaveCoin (o : COutPoint)
| OpAddCoin (o : COutPoint) (new : Coin) (possible_overwrite : bool)
| OpSpendCoin (o : COutPoint)
| OpUncache (o : COutPoint)
| OpGetBestBlock
| OpSetBestBlock (h : Z)
| OpFlush.

Inductive CoinObs :=
| ObsCoin (r : option Coin)
| ObsBool (r : bool)
| ObsHash (r : Z)
| ObsUnit.

Section Traces.
Context (unspendable : list Z -> bool) (order : CCoinsMap -> CoinsBatch).

(** One operation on the cache.  Of [SpendCoin] the coin it moves out is
    observed, when that is an unspent coin. *)
Definition run_op (c : cache) (op : CoinOp) : option (CoinObs * cache) :=
  match op with
  | OpGetCoin o => let '(r, c) := GetCoin script_usage c o in Some (ObsCoin r, c)
  | OpHaveCoin o => let '(r, c) := HaveCoin script_usage c o in Some (ObsBool r, c)
  | OpAddCoin o new ow => c ← AddCoin script_usage unspendable c o new ow; Some (ObsUnit, c)
  | OpSpendCoin o =>
      let '(_, moved, c, _) := SpendCoin script_usage (fun (a : unit) _ _ => (true, a)) c o None in
      Some (ObsCoin (co ← moved; if IsSpent co then None else Some co), c)
  | OpUncache o => Some (ObsUnit, Uncache script_usage c o)
  | OpGetBestBlock => let '(h, c) := GetBestBlock c in Some (ObsHash h, c)
  | OpSetBestBlock h => Some (ObsUnit, SetBestBlock c h)
  | OpFlush => '(ok, c) ← Flush order c; Some (ObsBool ok, c)
  end.

(** The specification: a finite map of unspent coins, the best block, and
    whether a flush is allowed (the cache knows its best block). *)
Record UtxoSpec := mkSpec { s_utxo : gmap COutPoint Coin; s_best : Z; s_known : bool }.

(** [None] marks calls that violate the documented preconditions. *)
Definition spec_op (s : UtxoSpec) (op : CoinOp) : option (CoinObs * UtxoSpec) :=
  match op with
  | OpGetCoin o => Some (ObsCoin (s_utxo s !! o), s)
  | OpHaveCoin o => Some (ObsBool (bool_decide (is_Some (s_utxo s !! o))), s)
  | OpAddCoin o new ow =>
      if IsSpent new then None
      else if negb ow && bool_decide (is_Some (s_utxo s !! o)) then None
      else if unspendable (scriptPubKey (out new)) then Some (ObsUnit, s)
      else Some (ObsUnit, mkSpec (<[o := new]> (s_utxo s)) (s_best s) (s_known s))
  | OpSpendCoin o => Some (ObsCoin (s_utxo s !! o), mkSpec (delete o (s_utxo s)) (s_best s) (s_known s))
  | OpUncache o => Some (ObsUnit, s)
  | OpGetBestBlock => Some (ObsHash (s_best s), mkSpec (s_utxo s) (s_best s) (negb (s_best s =? 0)))
  | OpSetBestBlock h => if h =? 0 then None else Some (ObsUnit, mkSpec (s_utxo s) h true)
  | OpFlush => if s_known s then Some (ObsBool true, s) else None
  end.

Fixpoint run_ops {S} (step : S -> CoinOp -> option (CoinObs * S)) (s : S) (ops : list CoinOp) :
    option (list CoinObs * S) :=
  match ops with
  | [] => Some ([], s)
  | op :: ops =>
      '(o, s) ← step s op;
      '(os, s) ← run_ops step s ops;
      Some (o :: os, s)
  end.

(** The simulation relation. *)
Definition represents (c : cache) (s : UtxoSpec) : Prop :=
  cache_ok c /\ cache_utxo c = s_utxo s /\ cache_best c = s_best s /\
  (s_known s = true -> hashBlock c <> 0).

Lemma FetchCoin_hashBlock c o : hashBlock (snd (FetchCoin script_usage c o)) = hashBlock c.
Proof.
  unfold FetchCoin. destruct (cacheCoins c !! o); [done |].
  by destruct (view_GetCoin (base c) o) as [[] ?].
Qed.

(** Only [SetBestBlock] and [GetBestBlock] touch [hashBlock]. *)
Lemma run_op_hashBlock c op obs c' :
  run_op c op = Some (obs, c') ->
  match op with OpSetBestBlock _ | OpGetBestBlock | OpFlush => True | _ => hashBlock c' = hashBlock c end.
Proof.
  destruct op as [o | o | o new ow | o | o | | h |]; cbn [run_op]; try done;
    try pose proof (FetchCoin_hashBlock c o) as Hf.
  - unfold GetCoin. destruct (FetchCoin script_usage c o) as [[e |] c1]; by intros [= <- <-].
  - unfold HaveCoin. destruct (FetchCoin script_usage c o) as [[e |] c1]; by intros [= <- <-].
  - clear Hf. unfold AddCoin. destruct (IsSpent new); [done |]. destruct (unspendable _); [by intros [= <- <-] |].
    destruct (cacheCoins c !! o) as [e |]; cbn; destruct (_ && _); try done; by intros [= <- <-].
  - unfold SpendCoin. destruct (FetchCoin script_usage c o) as [[e |] c1]; [| by intros [= <- <-]].
    destruct (has_flag e FRESH); by intros [= <- <-].
  - clear Hf. intros [= <- <-]. unfold Uncache. destruct (cacheCoins c !! o) as [e |]; [| done].
    by destruct (flags e =? 0).
Qed.

Context (Horder : forall m, order m ≡ₚ map_to_list m).

(** Each operation is simulated by its specification. *)
Lemma run_op_refines c s op obs s' :
  represents c s -> spec_op s op = Some (obs, s') ->
  exists c', run_op c op = Some (obs, c') /\ represents c' s'.
Proof using usage_nil Horder.
  intros (Hok & Hu & Hb & Hk) Hs.
  assert (forall c', run_op c op = Some (obs, c') -> cache_ok c' /\ cache_utxo c' = s_utxo s' /\
    cache_best c' = s_best s' /\ s_known s' = s_known s ->
    match op with OpSetBestBlock _ | OpGetBestBlock | OpFlush => False | _ => True end ->
    exists c', run_op c op = Some (obs, c') /\ represents c' s') as Hframe.
  { intros c' Hr (H1 & H2 & H3 & H4) Hop. exists c'. split; [done |]. do 3 (split; [done |]).
    rewrite H4. intros Hkn. apply run_op_hashBlock in Hr. destruct op; try done; rewrite Hr; by apply Hk. }
  destruct op as [o | o | o new ow | o | o | | h |]; cbn [spec_op] in Hs.
  - injection Hs as <- <-. destruct (GetCoin_spec c o Hok) as (c' & Hc & ? & ? & ?).
    apply (Hframe c'); [cbn [run_op]; by rewrite Hc, Hu | by rewrite <- Hu, <- Hb | done].
  - injection Hs as <- <-. destruct (HaveCoin_spec c o Hok) as (c' & Hc & ? & ? & ?).
    apply (Hframe c'); [cbn [run_op]; by rewrite Hc, Hu | by rewrite <- Hu, <- Hb | done].
  - destruct (IsSpent new) eqn:Hsp; [done |]. destruct (negb ow && _) eqn:Hp; [done |].
    destruct (AddCoin_spec unspendable c o new ow Hok Hsp) as (c' & Hc & ? & ? & Hu').
    { intros ->. rewrite Hu. cbn in Hp. apply bool_decide_eq_false in Hp. by apply eq_None_not_Some. }
    apply (Hframe c'); [| | done];
      destruct (unspendable _); injection Hs as <- <-; cbn [run_op s_utxo s_best s_known];
      rewrite ?Hc, ?Hu', ?Hu; try done; by rewrite <- Hb.
  - injection Hs as <- <-.
    destruct (SpendCoin_spec (fun (a : unit) _ _ => (true, a)) c o Hok) as (found & moved & c' & Hc & ? & ? & ? & _ & Hm).
    apply (Hframe c'); [cbn [run_op]; by rewrite Hc, <- Hu, Hm | | done]. cbn. by rewrite <- Hu, <- Hb.
  - injection Hs as <- <-. destruct (Uncache_spec c o Hok) as (? & ? & ?).
    apply (Hframe (Uncache script_usage c o)); [done | by rewrite <- Hu, <- Hb | done].
  - injection Hs as <- <-. destruct (GetBestBlock_spec c Hok) as (c' & Hc & ? & ? & ?).
    exists c'. cbn [run_op]. rewrite Hc, Hb. split; [done |]. split; [done |]. split; [by rewrite <- Hu |].
    split; [by rewrite <- Hb |]. cbn. intros Hz%negb_true_iff%Z.eqb_neq.
    revert Hc. unfold GetBestBlock. destruct (Z.eqb_spec (hashBlock c) 0) as [Hz0 |].
    + destruct (view_GetBestBlock (base c)) as [h b]. intros [= Hh <-]. cbn. congruence.
    + by intros [= _ <-].
  - destruct (Z.eqb_spec h 0) as [|Hh]; [done |]. injection Hs as <- <-.
    destruct (SetBestBlock_spec c h Hok Hh) as (? & ? & ?). exists (SetBestBlock c h).
    split; [done |]. split; [done |]. split; [by rewrite <- Hu |]. split; [done |]. by intros _.
  - destruct (s_known s) eqn:Hkn; [| done]. injection Hs as <- <-. specialize (Hk eq_refl).
    destruct (Flush_spec order c Horder Hok Hk) as (c' & Hc & Hok' & _ & _ & Hbb & Hu' & Hh').
    exists c'. cbn [run_op]. rewrite Hc. split; [done |]. split; [done |]. split; [by rewrite Hu' |].
    split; [| by rewrite Hh']. unfold cache_best in *. rewrite Hh'. by destruct (Z.eqb_spec (hashBlock c) 0).
Qed.

Lemma run_ops_refines ops : forall c s obs s',
  represents c s -> run_ops spec_op s ops = Some (obs, s') ->
  exists c', run_ops run_op c ops = Some (obs, c') /\ represents c' s'.
Proof using usage_nil Horder.
  induction ops as [| op ops IH]; intros c s obs s' Hr Hs; cbn [run_ops] in *.
  { injection Hs as <- <-. by exists c. }
  destruct (spec_op s op) as [[o s1] |] eqn:H1; [| done]. cbn in Hs.
  destruct (run_ops spec_op s1 ops) as [[os s2] |] eqn:H2; [| done]. injection Hs as <- <-.
  destruct (run_op_refines c s op o s1 Hr H1) as (c1 & -> & Hr1). cbn.
  destruct (IH c1 s1 os s2 Hr1 H2) as (c2 & -> & Hr2). by exists c2.
Qed.
End Traces.
End Cache.

(** ** The theorems *)

(** A database with two coins, and a stack of two caches over it. *)
Definition example_coin (v : Z) : Coin := mkCoin (mkTxOut v [118; 169]) false 7.
Definition example_db : CoinsDB :=
  mkDB {[ (1, 0) := example_coin 50; (2, 1) := example_coin 60 ]} (Some 99) None.

Abbreviation never_over := (fun _ : list DbOp => false).
Abbreviation example_usage := (fun l : list Z => Z.of_nat (length l)).

#[local] Instance example_db_view : CoinsView CoinsDB := CCoinsViewDB_view never_over.
#[local] Instance example_cache_view : CoinsView (CCoinsViewCache CoinsDB) :=
  CCoinsViewCache_view CoinsDB example_usage.
#[local] Instance example_cache_spec : @CoinsViewSpec (CCoinsViewCache CoinsDB) example_cache_view :=
  CCoinsViewCache_spec example_usage.

Definition example_stack : CCoinsViewCache (CCoinsViewCache CoinsDB) :=
  mkCache (mkCache example_db 0 ∅ 0) 0 ∅ 0.

(** C5: A [CCoinsViewCache] over any base view that keeps its contract behaves
    like a plain finite map of unspent coins, for every sequence of [GetCoin],
    [HaveCoin], [AddCoin], [SpendCoin], [Uncache], [GetBestBlock],
    [SetBestBlock] and [Flush] calls that keeps to four rules: no spent coin is
    added; a coin is added over an unspent one only with
    [possible_overwrite]; the best block is not set to zero; and the cache is
    flushed only once it knows a best block.  (The rules are those under which
    the specification [spec_op] is defined.)  For such a sequence no assertion
    or exception fires, the observations are equal, and the cache represents
    the final map, with coherent [DIRTY] and [FRESH] flags and exact
    [cachedCoinsUsage]. *)
Theorem CCoinsViewCache_refines_map {V : Type} `{CoinsView V} `{!CoinsViewSpec V}
    (script_usage : list Z -> Z) (unspendable : list Z -> bool) (order : CCoinsMap -> CoinsBatch)
    (ops : list CoinOp) (c : CCoinsViewCache V) (s s' : UtxoSpec) (obs : list CoinObs) :
  script_usage [] = 0 -> (forall m, order m ≡ₚ map_to_list m) ->
  represents script_usage c s -> run_ops (spec_op unspendable) s ops = Some (obs, s') ->
  exists c', run_ops (run_op script_usage unspendable order) c ops = Some (obs, c') /\
    represents script_usage c' s'.
Proof. intros Hu Ho. by apply run_ops_refines. Qed.

Definition example_ops : list CoinOp :=
  [OpGetCoin (1, 0); OpSpendCoin (1, 0); OpHaveCoin (1, 0); OpAddCoin (3, 0) (example_coin 5) false;
   OpSpendCoin (3, 0); OpAddCoin (2, 1) (example_coin 8) true; OpSetBestBlock 100; OpFlush;
   OpGetCoin (2, 1); OpUncache (2, 1); OpGetBestBlock].

Lemma example_stack_ok :
  represents example_usage example_stack (mkSpec (db_coins example_db) 99 false).
Proof.
  unfold example_stack. split; [| done].
  split; [| split; [intros o e; cbn [cacheCoins]; by rewrite lookup_empty | done]]. cbn [base].
  split; [| split; [intros o e; cbn [cacheCoins]; by rewrite lookup_empty | done]].
  split; [| done]. apply map_Forall_insert_2; [done |]. by apply map_Forall_singleton.
Qed.

Lemma CCoinsViewCache_refines_map_witness :
  exists c', run_ops (run_op example_usage (fun _ => false) map_to_list) example_stack example_ops =
      Some ([ObsCoin (Some (example_coin 50)); ObsCoin (Some (example_coin 50)); ObsBool false; ObsUnit;
             ObsCoin (Some (example_coin 5)); ObsUnit; ObsUnit; ObsBool true;
             ObsCoin (Some (example_coin 8)); ObsUnit; ObsHash 100], c') /\
    represents example_usage c' (mkSpec {[ (2, 1) := example_coin 8 ]} 100 true).
Proof.
  apply (CCoinsViewCache_refines_map example_usage (fun _ => false) map_to_list example_ops example_stack
           (mkSpec (db_coins example_db) 99 false)).
  - reflexivity.
  - reflexivity.
  - exact example_stack_ok.
  - vm_compute. reflexivity.
Defined.

(** [CCoinsViewCache::Flush] hands every modification to the base
    whatever the iteration order of the hash table: afterwards the base
    alone is the UTXO set the cache represented, its best block is the
    cache's, the cache is empty, and the view it presents is unchanged. *)
Theorem Flush_transfers_to_base {V : Type} `{CoinsView V} `{!CoinsViewSpec V}
    (script_usage : list Z -> Z) (order : CCoinsMap -> CoinsBatch) (c : CCoinsViewCache V) :
  (forall m, order m ≡ₚ map_to_list m) -> cache_ok script_usage c -> hashBlock c <> 0 ->
  exists c', Flush order c = Some (true, c') /\ cache_ok script_usage c' /\ cacheCoins c' = ∅ /\
    view_utxo (base c') = cache_utxo c /\ view_best (base c') = hashBlock c /\
    cache_utxo c' = cache_utxo c /\ hashBlock c' = hashBlock c.
Proof. apply Flush_spec. Qed.

(** C34: What [AddCoin] does without [possible_overwrite] over an unspent coin,
    as [UpdateCoins] calls it for every transaction but a coinbase, depends on
    where the coin is.  If the cache has it, [AddCoin] throws.  If only the base
    view has it, the new coin is entered as [FRESH]; spending it erases the
    entry, and the old coin of the base view is unspent again.  BIP30, which
    would exclude the case, is commented out in [ConnectBlock]. *)
Theorem AddCoin_over_unspent {V : Type} `{CoinsView V} `{!CoinsViewSpec V}
    (script_usage : list Z -> Z) (unspendable : list Z -> bool) (c : CCoinsViewCache V) (o : COutPoint) (old new : Coin) :
  cache_ok script_usage c -> cache_utxo c !! o = Some old ->
  IsSpent new = false -> unspendable (scriptPubKey (out new)) = false ->
  match cacheCoins c !! o with
  | Some _ => AddCoin script_usage unspendable c o new false = None
  | None =>
      exists c1 c2, AddCoin script_usage unspendable c o new false = Some c1 /\ cache_utxo c1 !! o = Some new /\
        SpendCoin script_usage (fun (a : unit) _ _ => (true, a)) c1 o None = (true, Some new, c2, None) /\
        cache_utxo c2 !! o = Some old
  end.
Proof.
  intros Hok Ho Hs Hu. rewrite cache_utxo_lookup in Ho. destruct (cacheCoins c !! o) as [e |] eqn:E.
  - apply (AddCoin_overwrite_fails script_usage unspendable c o e new E); [| done].
    unfold entry_coin in Ho. by destruct (IsSpent (coin e)).
  - unfold AddCoin. rewrite Hs, Hu, E. cbn -[DynamicMemoryUsage cache_utxo]. eexists _, _. split; [reflexivity |].
    unfold SpendCoin, FetchCoin. cbn -[DynamicMemoryUsage cache_utxo]. rewrite !lookup_insert_eq. cbn -[DynamicMemoryUsage cache_utxo].
    split; [| split; [reflexivity |]]; rewrite cache_utxo_lookup.
    + cbn -[DynamicMemoryUsage]. rewrite lookup_insert_eq. unfold entry_coin. cbn. by rewrite Hs.
    + match goal with |- context [has_flag ?e FRESH] => change (has_flag e FRESH) with true end.
      cbn -[DynamicMemoryUsage]. by rewrite lookup_delete_eq.
Qed.

Lemma AddCoin_over_unspent_witness :
  let c : CCoinsViewCache CoinsDB := mkCache example_db 0 ∅ 0 in
  exists c1 c2, AddCoin example_usage (fun _ => false) c (1, 0) (example_coin 5) false = Some c1 /\
    cache_utxo c1 !! (1, 0) = Some (example_coin 5) /\
    SpendCoin example_usage (fun (a : unit) _ _ => (true, a)) c1 (1, 0) None = (true, Some (example_coin 5), c2, None) /\
    cache_utxo c2 !! (1, 0) = Some (example_coin 50).
Proof.
  pose proof (AddCoin_over_unspent example_usage (fun _ => false) (mkCache example_db 0 ∅ 0) (1, 0) (example_coin 50) (example_coin 5)) as H.
  cbn [cacheCoins] in H. rewrite lookup_empty in H. apply H; try reflexivity.
  split; [split; [apply map_Forall_insert_2; [done | by apply map_Forall_singleton] | done] |].
  split; [| done]. intros o e. cbn [cacheCoins]. by rewrite lookup_empty.
Defined.

(** C6: The database flush is crash safe.  Whatever the batching policy, each
    state committed by a partial batch names the transition ([hashBlock],
    old tip) in [DB_HEAD_BLOCKS], has no best block, and holds the old coins
    with some of the entries already applied; running the same [BatchWrite]
    again from any such state, with any batching, reaches the same final
    state as an uninterrupted flush. *)
Theorem DB_BatchWrite_crash_safe (over over' : list DbOp -> bool) (db : CoinsDB) (l : CoinsBatch) (h : Z) :
  NoDup l.*1 -> h <> 0 -> db_heads db = None ->
  exists trace final, DB_BatchWrite over db l h = Some (trace, final) /\
    db_coins final = apply_batch (db_coins db) (list_to_map l) /\
    db_best final = Some h /\ db_heads final = None /\
    forall s, s ∈ trace ->
      db_best s = None /\ db_heads s = Some [h; DB_GetBestBlock db] /\
      exists trace', DB_BatchWrite over' s l h = Some (trace', final).
Proof.
  intros Hnd Hh Hheads.
  assert (DB_old_tip db h = Some (DB_GetBestBlock db)) as Hold.
  { unfold DB_old_tip, DB_GetHeadBlocks. rewrite Hheads. cbn. by destruct (_ =? 0). }
  destruct (DB_BatchWrite_spec over db l h _ Hnd Hh Hold) as (trace & Heq & Htr).
  exists trace. eexists. split; [exact Heq |]. do 3 (split; [done |]).
  intros s Hs. rewrite Forall_forall in Htr. destruct (Htr s Hs) as (l1 & l2 & Hl & ->).
  split; [done |]. split; [done |].
  destruct (DB_BatchWrite_spec over' (mkDB (apply_batch (db_coins db) (list_to_map l1)) None
    (Some [h; DB_GetBestBlock db])) l h (DB_GetBestBlock db) Hnd Hh) as (trace' & -> & _).
  { unfold DB_old_tip, DB_GetHeadBlocks. cbn. by rewrite Z.eqb_refl. }
  exists trace'. do 3 f_equal. cbn [db_coins]. apply (apply_batch_prefix _ l l1 l2); done.
Qed.

Lemma DB_BatchWrite_crash_safe_witness :
  let l := [((1, 0), mkEntry Coin_Clear 1); ((7, 0), mkEntry (example_coin 3) 3)] in
  exists trace final, DB_BatchWrite (fun _ => true) example_db l 100 = Some (trace, final) /\
    db_coins final = apply_batch (db_coins example_db) (list_to_map l) /\
    db_best final = Some 100 /\ db_heads final = None /\
    forall s, s ∈ trace ->
      db_best s = None /\ db_heads s = Some [100; DB_GetBestBlock example_db] /\
      exists trace', DB_BatchWrite never_over s l 100 = Some (trace', final).
Proof.
  apply DB_BatchWrite_crash_safe.
  - apply (bool_decide_unpack _). vm_compute. exact I.
  - done.
  - done.
Defined.
