(* ===== verification/BlockUndo.v ===== *)
(** * Connecting and disconnecting blocks on the UTXO set
      ([UpdateCoins], [ApplyTxInUndo] and the coin part of [ConnectBlock]
      and [DisconnectBlock] in [src/validation.cpp])

    The effect of a block on a [CCoinsViewCache] and the undo records that
    reverse it.  The asset cache is absent here (a null [assetsCache], or
    before deployment), as are the optional address and spent indexes. *)

From stdpp Require Import gmap fin_maps.
From S2P Require Import Prelude Coins CoinsRefine.

(** ** Data *)

(** What [UpdateCoins] uses of a [CTransaction]. *)
Record UtxoTx := mkUtxoTx {
  tx_hash : Z;
  tx_coinbase : bool;           (* IsCoinBase() *)
  tx_prevouts : list COutPoint; (* vin[j].prevout *)
  tx_vout : list CTxOut
}.

(** [CTxUndo::vprevout]. *)
Abbreviation CTxUndo := (list Coin).

Inductive DisconnectResult := DISCONNECT_OK | DISCONNECT_UNCLEAN | DISCONNECT_FAILED.

#[export] Instance DisconnectResult_eq_dec : EqDecision DisconnectResult.
Proof. solve_decision. Defined.

Section Undo.
Context {V : Type} `{CoinsView V}.
Variable script_usage : list Z -> Z.
Variable unspendable : list Z -> bool.
(** [GetMaxBlockWeight() / MIN_TRANSACTION_OUTPUT_WEIGHT]. *)
Variable max_outputs : nat.

Abbreviation cache := (CCoinsViewCache V).
Abbreviation spend := (SpendCoin script_usage (fun (a : unit) _ _ => (true, a))).

(** The input loop of [UpdateCoins]; [None] is [assert(is_spent)]. *)
Fixpoint UpdateCoins_spend (c : cache) (prevouts : list COutPoint) : option (CTxUndo * cache) :=
  match prevouts with
  | [] => Some ([], c)
  | p :: rest =>
      let '(is_spent, moved, c, _) := spend c p None in
      if is_spent : bool then
        '(undo, c) ← UpdateCoins_spend c rest;
        Some (default Coin_Clear moved :: undo, c)
      else None
  end.

Definition UpdateCoins (c : cache) (tx : UtxoTx) (nHeight : Z) : option (CTxUndo * cache) :=
  '(undo, c) ← (if negb (tx_coinbase tx) then UpdateCoins_spend c (tx_prevouts tx) else Some ([], c));
  c ← AddCoins_loop script_usage unspendable c (tx_hash tx) 0 (tx_vout tx) nHeight (tx_coinbase tx) false;
  Some (undo, c).

(** The coin part of the loop of [ConnectBlock]: the undo data of the
    transactions, the first one's ([undoDummy]) included. *)
Fixpoint ConnectBlock_coins (c : cache) (vtx : list UtxoTx) (nHeight : Z) : option (list CTxUndo * cache) :=
  match vtx with
  | [] => Some ([], c)
  | tx :: rest =>
      '(undo, c) ← UpdateCoins c tx nHeight;
      '(undos, c) ← ConnectBlock_coins c rest nHeight;
      Some (undo :: undos, c)
  end.

(** [ConnectBlock]: [blockundo.vtxundo] has no record for the coinbase. *)
Definition ConnectBlock_utxo (c : cache) (vtx : list UtxoTx) (nHeight hash : Z) : option (list CTxUndo * cache) :=
  '(undos, c) ← ConnectBlock_coins c vtx nHeight;
  Some (tail undos, SetBestBlock c hash).

(** [ApplyTxInUndo]; [None] is a failed assertion of [AddCoin]. *)
Definition ApplyTxInUndo (undo : Coin) (view : cache) (o : COutPoint) : option (DisconnectResult * cache) :=
  let '(have, view) := HaveCoin script_usage view o in
  let fClean := negb have in
  let '(meta, view) :=
    if coin_nHeight undo =? 0 then
      let '(alternate, view) := AccessByTxid script_usage max_outputs view o.1 in
      (if negb (IsSpent alternate)
       then Some (mkCoin (out undo) (fCoinBase alternate) (coin_nHeight alternate))
       else None, view)
    else (Some undo, view) in
  match meta with
  | None => Some (DISCONNECT_FAILED, view)
  | Some undo =>
      view ← AddCoin script_usage unspendable view o undo (negb fClean);
      Some (if fClean then DISCONNECT_OK else DISCONNECT_UNCLEAN, view)
  end.

(** One iteration of the output loop of [DisconnectBlock]. *)
Definition DisconnectBlock_output (view : cache) (hash i : Z) (o : CTxOut) (nHeight : Z)
    (is_coinbase : bool) (fClean : bool) : bool * cache :=
  if negb (unspendable (scriptPubKey o)) then
    let '(is_spent, moved, view, _) := spend view (hash, i) None in
    let co := default Coin_Clear moved in
    let mismatch := negb is_spent || negb (bool_decide (o = out co)) ||
                    negb (nHeight =? coin_nHeight co) || negb (Bool.eqb is_coinbase (fCoinBase co)) in
    (if mismatch then false else fClean, view)
  else (fClean, view).

Fixpoint DisconnectBlock_outputs (view : cache) (hash i : Z) (vout : list CTxOut) (nHeight : Z)
    (is_coinbase : bool) (fClean : bool) : bool * cache :=
  match vout with
  | [] => (fClean, view)
  | o :: rest =>
      let '(fClean, view) := DisconnectBlock_output view hash i o nHeight is_coinbase fClean in
      DisconnectBlock_outputs view hash (i + 1) rest nHeight is_coinbase fClean
  end.

(** The input loop of [DisconnectBlock], from the last input to the first:
    it is given the reversed lists. *)
Fixpoint DisconnectBlock_inputs (view : cache) (ins : list (COutPoint * Coin)) (fClean : bool) :
    option (DisconnectResult * bool * cache) :=
  match ins with
  | [] => Some (DISCONNECT_OK, fClean, view)
  | (o, undo) :: rest =>
      '(res, view) ← ApplyTxInUndo undo view o;
      if decide (res = DISCONNECT_FAILED) then Some (DISCONNECT_FAILED, fClean, view)
      else DisconnectBlock_inputs view rest (fClean && negb (bool_decide (res = DISCONNECT_UNCLEAN)))
  end.

(** One iteration of the transaction loop; [undo] is [None] for the first
    transaction of the block. *)
Definition DisconnectBlock_tx (view : cache) (tx : UtxoTx) (undo : option CTxUndo) (nHeight : Z)
    (fClean : bool) : option (DisconnectResult * bool * cache) :=
  let '(fClean, view) :=
    DisconnectBlock_outputs view (tx_hash tx) 0 (tx_vout tx) nHeight (tx_coinbase tx) fClean in
  match undo with
  | None => Some (DISCONNECT_OK, fClean, view)
  | Some vprevout =>
      if decide (length vprevout = length (tx_prevouts tx))
      then DisconnectBlock_inputs view (reverse (combine (tx_prevouts tx) vprevout)) fClean
      else Some (DISCONNECT_FAILED, fClean, view)
  end.

(** The transactions in reverse order. *)
Fixpoint DisconnectBlock_loop (view : cache) (l : list (UtxoTx * option CTxUndo)) (nHeight : Z)
    (fClean : bool) : option (DisconnectResult * bool * cache) :=
  match l with
  | [] => Some (DISCONNECT_OK, fClean, view)
  | (tx, undo) :: rest =>
      '(res, fClean, view) ← DisconnectBlock_tx view tx undo nHeight fClean;
      if decide (res = DISCONNECT_FAILED) then Some (DISCONNECT_FAILED, fClean, view)
      else DisconnectBlock_loop view rest nHeight fClean
  end.

(** Pair each transaction with its undo record: [vtxundo[i - 1]] for [i > 0]. *)
Definition with_undo (vtx : list UtxoTx) (vtxundo : list CTxUndo) : list (UtxoTx * option CTxUndo) :=
  combine vtx (None :: map Some vtxundo).

Definition DisconnectBlock_utxo (view : cache) (vtx : list UtxoTx) (vtxundo : list CTxUndo)
    (nHeight hashPrev : Z) : option (DisconnectResult * cache) :=
  if decide (length vtxundo + 1 = length vtx)%nat then
    '(res, fClean, view) ← DisconnectBlock_loop view (reverse (with_undo vtx vtxundo)) nHeight true;
    if decide (res = DISCONNECT_FAILED) then Some (DISCONNECT_FAILED, view)
    else Some (if fClean : bool then DISCONNECT_OK else DISCONNECT_UNCLEAN, SetBestBlock view hashPrev)
  else Some (DISCONNECT_FAILED, view).

End Undo.

(** ** Specification: the effect on the abstract UTXO map *)

Section Spec.
Variable unspendable : list Z -> bool.

Definition spend_all (u : gmap COutPoint Coin) (ps : list COutPoint) : gmap COutPoint Coin :=
  foldr (fun p u => delete p u) u ps.

Fixpoint add_outputs (u : gmap COutPoint Coin) (hash i : Z) (vout : list CTxOut) (nHeight : Z)
    (coinbase : bool) : gmap COutPoint Coin :=
  match vout with
  | [] => u
  | o :: rest =>
      add_outputs
        (match output_coin unspendable coinbase nHeight o with
         | Some co => <[(hash, i) := co]> u
         | None => u
         end) hash (i + 1) rest nHeight coinbase
  end.

Definition connect_spec (nHeight : Z) (u : gmap COutPoint Coin) (tx : UtxoTx) : gmap COutPoint Coin :=
  add_outputs (if tx_coinbase tx then u else spend_all u (tx_prevouts tx))
    (tx_hash tx) 0 (tx_vout tx) nHeight (tx_coinbase tx).

(** What [UpdateCoins] needs of the UTXO set it is applied to.  A coinbase
    may overwrite coins; nothing in the code prevents that other transactions
    do, but then the cache is left in disorder. *)
Definition updatable (u : gmap COutPoint Coin) (tx : UtxoTx) : Prop :=
  NoDup (tx_prevouts tx) /\
  (tx_coinbase tx = false -> Forall (fun p => is_Some (u !! p)) (tx_prevouts tx)) /\
  (tx_coinbase tx = false -> forall k, 0 <= k < Z.of_nat (length (tx_vout tx)) -> u !! (tx_hash tx, k) = None) /\
  Forall (fun o => nValue o <> -1) (tx_vout tx).

(** A coin that can be spent and later restored. *)
Definition restorable (co : Coin) : Prop :=
  coin_nHeight co <> 0 /\ unspendable (scriptPubKey (out co)) = false.

Definition valid_tx (u : gmap COutPoint Coin) (tx : UtxoTx) : Prop :=
  NoDup (tx_prevouts tx) /\
  (tx_coinbase tx = false ->
   Forall (fun p => exists co, u !! p = Some co /\ restorable co) (tx_prevouts tx)) /\
  (tx_coinbase tx = false -> forall k, 0 <= k < Z.of_nat (length (tx_vout tx)) -> u !! (tx_hash tx, k) = None) /\
  Forall (fun o => nValue o <> -1) (tx_vout tx).

Fixpoint valid_txs (nHeight : Z) (u : gmap COutPoint Coin) (vtx : list UtxoTx) : Prop :=
  match vtx with
  | [] => True
  | tx :: rest => valid_tx u tx /\ valid_txs nHeight (connect_spec nHeight u tx) rest
  end.

(** The coin a transaction creates at [q]. *)
Definition own_output (nHeight : Z) (tx : UtxoTx) (q : COutPoint) : option Coin :=
  if decide (q.1 = tx_hash tx /\ 0 <= q.2)
  then o ← tx_vout tx !! Z.to_nat q.2; output_coin unspendable (tx_coinbase tx) nHeight o
  else None.

(** The coins that a transaction does not overwrite. *)
Definition uncovered (nHeight : Z) (tx : UtxoTx) (u : gmap COutPoint Coin) : gmap COutPoint Coin :=
  filter (fun e => own_output nHeight tx e.1 = None) u.

Lemma uncovered_lookup h tx u q :
  uncovered h tx u !! q = match own_output h tx q with Some _ => None | None => u !! q end.
Proof.
  unfold uncovered. rewrite map_lookup_filter. destruct (u !! q) as [co |]; cbn.
  - destruct (own_output h tx q) eqn:E; [by rewrite option_guard_False | by rewrite option_guard_True].
  - by destruct (own_output h tx q).
Qed.

(** Outputs that are all new overwrite nothing. *)
Lemma uncovered_new h tx u :
  (forall k, 0 <= k < Z.of_nat (length (tx_vout tx)) -> u !! (tx_hash tx, k) = None) -> uncovered h tx u = u.
Proof.
  intros Hnew. apply map_eq. intros [qh qi]. rewrite uncovered_lookup. unfold own_output. cbn [fst snd].
  case_decide as Hd; [| done]. destruct Hd as [-> Hq]. destruct (tx_vout tx !! Z.to_nat qi) as [o |] eqn:Ho; [| done].
  cbn. apply lookup_lt_Some in Ho. rewrite Hnew by lia. by destruct (output_coin _ _ _ _).
Qed.

Lemma spend_all_lookup u ps q : spend_all u ps !! q = if decide (q ∈ ps) then None else u !! q.
Proof.
  induction ps as [| p ps IH]; [case_decide as Hq; [by apply elem_of_nil in Hq | done] |].
  cbn [spend_all foldr]. fold (spend_all u ps). destruct (decide (p = q)) as [-> | Hne].
  - rewrite lookup_delete_eq, decide_True; [done | apply elem_of_cons; auto].
  - rewrite lookup_delete_ne, IH by done.
    destruct (decide (q ∈ ps)) as [Hin | Hin];
      [by rewrite decide_True by (apply elem_of_cons; auto) |].
    rewrite decide_False; [done |]. intros [-> | ?]%elem_of_cons; done.
Qed.

Lemma add_outputs_lookup hash vout h cb : forall u i q,
  add_outputs u hash i vout h cb !! q =
  match (if decide (q.1 = hash /\ i <= q.2)
         then o ← vout !! Z.to_nat (q.2 - i); output_coin unspendable cb h o else None) with
  | Some co => Some co
  | None => u !! q
  end.
Proof.
  induction vout as [| o vout IH]; intros u i [qh qi]; cbn [add_outputs fst snd].
  { by case_decide. }
  rewrite IH. cbn [fst snd]. destruct (decide (qh = hash /\ i + 1 <= qi)) as [[-> Hle] | Hno].
  - rewrite decide_True by lia.
    replace (Z.to_nat (qi - i)) with (S (Z.to_nat (qi - (i + 1)))) by lia. cbn [lookup list_lookup].
    destruct (o0 ← vout !! Z.to_nat (qi - (i + 1)); output_coin unspendable cb h o0) as [co |]; [done |].
    destruct (output_coin unspendable cb h o); [| done]. rewrite lookup_insert_ne; [done |].
    intros [= He]. lia.
  - destruct (decide (qh = hash /\ i <= qi)) as [[-> Hle] | Hno'].
    + replace qi with i by lia. rewrite Z.sub_diag. change (Z.to_nat 0) with 0%nat. cbn.
      destruct (output_coin unspendable cb h o); [apply lookup_insert_eq | done].
    + destruct (output_coin unspendable cb h o); [| done]. rewrite lookup_insert_ne; [done |].
      intros [= -> ->]. lia.
Qed.

Lemma connect_spec_lookup h u tx q :
  connect_spec h u tx !! q =
  match own_output h tx q with
  | Some co => Some co
  | None => if tx_coinbase tx then u !! q else if decide (q ∈ tx_prevouts tx) then None else u !! q
  end.
Proof.
  unfold connect_spec, own_output. rewrite add_outputs_lookup, Z.sub_0_r.
  destruct (if decide _ then _ else _); [done |]. destruct (tx_coinbase tx); [done |]. apply spend_all_lookup.
Qed.

Lemma valid_updatable u tx : valid_tx u tx -> updatable u tx.
Proof.
  intros (Hnd & Hin & Hrest). split; [done |]. split; [| done]. intros Hcb.
  eapply Forall_impl; [by apply Hin |]. intros p (co & -> & _). by eexists.
Qed.

(** Outputs of a valid transaction other than a coinbase are new. *)
Lemma own_output_fresh h u tx q co : valid_tx u tx -> tx_coinbase tx = false -> own_output h tx q = Some co -> u !! q = None.
Proof.
  intros (_ & _ & Habs & _) Hcb. specialize (Habs Hcb). unfold own_output. case_decide as Hd; [| done].
  destruct (tx_vout tx !! Z.to_nat q.2) as [o |] eqn:Ho; [| done]. intros _.
  destruct q as [qh qi]. cbn in *. destruct Hd as [-> Hq]. apply Habs.
  apply lookup_lt_Some in Ho. lia.
Qed.

End Spec.

(** ** Connecting *)

Section Proofs.
Context {V : Type} `{HV : CoinsView V} `{!CoinsViewSpec V}.
Context (script_usage : list Z -> Z) (usage_nil : script_usage [] = 0).
Context (unspendable : list Z -> bool) (max_outputs : nat).

Abbreviation cache := (CCoinsViewCache V).
Abbreviation ok := (cache_ok script_usage).

Lemma spend_existing (c : cache) p co :
  ok c -> cache_utxo c !! p = Some co ->
  exists c', SpendCoin script_usage (fun (a : unit) _ _ => (true, a)) c p None = (true, Some co, c', None) /\
    ok c' /\ cache_best c' = cache_best c /\ cache_utxo c' = delete p (cache_utxo c).
Proof using usage_nil CoinsViewSpec0.
  intros Hok Hp.
  destruct (SpendCoin_spec script_usage usage_nil (fun (a : unit) _ _ => (true, a)) c p Hok)
    as (found & moved & c' & Heq & Hok' & Hb & Hu & Hf & Hm).
  rewrite Hp in Hm. destruct moved as [co' |]; [| done]. cbn in Hm.
  destruct (IsSpent co'); [done |]. injection Hm as <-. exists c'. rewrite Heq, Hf. done.
Qed.

Lemma UpdateCoins_spend_spec ps : forall c,
  ok c -> NoDup ps -> Forall (fun p => is_Some (cache_utxo c !! p)) ps ->
  exists undo c', UpdateCoins_spend script_usage c ps = Some (undo, c') /\ ok c' /\
    cache_best c' = cache_best c /\ cache_utxo c' = spend_all (cache_utxo c) ps /\
    Forall2 (fun p co => cache_utxo c !! p = Some co) ps undo.
Proof using usage_nil CoinsViewSpec0.
  induction ps as [| p ps IH]; intros c Hok Hnd Hall; cbn [UpdateCoins_spend].
  { exists [], c. by repeat (split; [done |]). }
  apply NoDup_cons in Hnd as [Hp Hnd]. apply Forall_cons in Hall as [[co Hco] Hall].
  destruct (spend_existing c p co Hok Hco) as (c1 & -> & Hok1 & Hb1 & Hu1).
  assert (forall q, q ∈ ps -> cache_utxo c1 !! q = cache_utxo c !! q) as Hsame.
  { intros q Hq. rewrite Hu1, lookup_delete_ne; [done | by intros ->]. }
  destruct (IH c1 Hok1 Hnd) as (undo & c' & -> & Hok' & Hb' & Hu' & Hf2).
  { rewrite Forall_forall in Hall |- *. intros q Hq. rewrite Hsame by done. by apply Hall. }
  exists (co :: undo), c'. split; [done |]. split; [done |]. split; [congruence |]. split.
  - rewrite Hu'. apply map_eq. intros q. rewrite !spend_all_lookup, Hu1.
    destruct (decide (q ∈ ps)) as [Hq | Hq].
    + by rewrite decide_True by (apply elem_of_cons; auto).
    + destruct (decide (p = q)) as [-> | Hne].
      * rewrite decide_True by (apply elem_of_cons; auto). apply lookup_delete_eq.
      * rewrite decide_False by (intros [-> | ?]%elem_of_cons; done). by apply lookup_delete_ne.
  - constructor; [done |]. rewrite Forall2_lookup in Hf2 |- *. intros i. specialize (Hf2 i).
    inversion Hf2 as [q x Hq Hi Hx |]; constructor. rewrite <- Hsame; [done |].
    by apply list_elem_of_lookup_2 with i.
Qed.

Lemma UpdateCoins_spec c tx h :
  ok c -> updatable (cache_utxo c) tx ->
  exists undo c', UpdateCoins script_usage unspendable c tx h = Some (undo, c') /\ ok c' /\
    cache_best c' = cache_best c /\ cache_utxo c' = connect_spec unspendable h (cache_utxo c) tx /\
    (tx_coinbase tx = false -> Forall2 (fun p co => cache_utxo c !! p = Some co) (tx_prevouts tx) undo).
Proof using usage_nil CoinsViewSpec0.
  intros Hok (Hnd & Hin & Habs & Hval). unfold UpdateCoins.
  set (u1 := if tx_coinbase tx then cache_utxo c else spend_all (cache_utxo c) (tx_prevouts tx)).
  assert (exists undo c1, (if negb (tx_coinbase tx) then UpdateCoins_spend script_usage c (tx_prevouts tx)
                           else Some ([], c)) = Some (undo, c1) /\ ok c1 /\
    cache_best c1 = cache_best c /\ cache_utxo c1 = u1 /\
    (tx_coinbase tx = false -> Forall2 (fun p co => cache_utxo c !! p = Some co) (tx_prevouts tx) undo))
    as (undo & c1 & -> & Hok1 & Hb1 & Hu1 & Hf2).
  { subst u1. destruct (tx_coinbase tx); cbn [negb]; [by exists [], c |].
    destruct (UpdateCoins_spend_spec (tx_prevouts tx) c Hok Hnd (Hin eq_refl)) as (undo & c1 & ? & ? & ? & ? & ?).
    by exists undo, c1. }
  cbn [mbind option_bind].
  destruct (AddCoins_loop_spec script_usage unspendable (tx_hash tx) h (tx_coinbase tx) false (tx_vout tx) c1 0 Hok1 Hval)
    as (c' & -> & Hok' & Hb' & Hins & Hout).
  { intros _ Hcb k Hk. rewrite Hu1. unfold u1. rewrite Hcb, spend_all_lookup. case_decide; [done |]. by apply (Habs Hcb). }
  exists undo, c'. split; [done |]. split; [done |]. split; [congruence |]. split; [| done].
  apply map_eq. intros [qh qi]. rewrite connect_spec_lookup. unfold own_output. cbn [fst snd].
  assert (cache_utxo c1 !! (qh, qi) = if tx_coinbase tx then cache_utxo c !! (qh, qi)
    else if decide ((qh, qi) ∈ tx_prevouts tx) then None else cache_utxo c !! (qh, qi)) as Hc1.
  { rewrite Hu1. unfold u1. destruct (tx_coinbase tx); [done | apply spend_all_lookup]. }
  rewrite <- Hc1. clear Hc1. destruct (decide (qh = tx_hash tx /\ 0 <= qi)) as [[-> Hq] | Hd].
  - destruct (tx_vout tx !! Z.to_nat qi) as [o |] eqn:Ho; cbn.
    + specialize (Hins _ o Ho). rewrite Z2Nat.id, Z.add_0_l in Hins by done. exact Hins.
    + apply Hout. cbn. apply lookup_ge_None in Ho. lia.
  - apply Hout. cbn. lia.
Qed.

Lemma ConnectBlock_coins_spec vtx h : forall c,
  ok c -> valid_txs unspendable h (cache_utxo c) vtx ->
  exists undos c', ConnectBlock_coins script_usage unspendable c vtx h = Some (undos, c') /\ ok c' /\
    cache_utxo c' = fold_left (connect_spec unspendable h) vtx (cache_utxo c) /\ length undos = length vtx.
Proof using usage_nil CoinsViewSpec0.
  induction vtx as [| tx vtx IH]; intros c Hok Hv; cbn [ConnectBlock_coins].
  { by exists [], c. }
  destruct Hv as [Hv Hrest]. destruct (UpdateCoins_spec c tx h Hok (valid_updatable _ _ _ Hv)) as (undo & c1 & -> & Hok1 & _ & Hu1 & _).
  cbn [mbind option_bind]. rewrite <- Hu1 in Hrest.
  destruct (IH c1 Hok1 Hrest) as (undos & c' & -> & Hok' & Hu' & Hl).
  exists (undo :: undos), c'. cbn. rewrite Hu', Hu1, Hl. done.
Qed.

(** ** Disconnecting *)

Lemma DisconnectBlock_outputs_spec hash h cb vout : forall view i fClean,
  ok view -> 0 <= h < 2 ^ 31 ->
  (forall k o co, vout !! k = Some o -> output_coin unspendable cb h o = Some co ->
    cache_utxo view !! (hash, i + Z.of_nat k) = Some co) ->
  exists view', DisconnectBlock_outputs script_usage unspendable view hash i vout h cb fClean = (fClean, view') /\
    ok view' /\
    forall q, cache_utxo view' !! q =
      match (if decide (q.1 = hash /\ i <= q.2)
             then o ← vout !! Z.to_nat (q.2 - i); output_coin unspendable cb h o else None) with
      | Some _ => None
      | None => cache_utxo view !! q
      end.
Proof using usage_nil CoinsViewSpec0.
  induction vout as [| o vout IH]; intros view i fClean Hok Hh Hall; cbn [DisconnectBlock_outputs].
  { exists view. split; [done |]. split; [done |]. intros q. by case_decide. }
  assert (exists view1, DisconnectBlock_output script_usage unspendable view hash i o h cb fClean = (fClean, view1) /\
     ok view1 /\ cache_utxo view1 =
       (if output_coin unspendable cb h o then delete (hash, i) (cache_utxo view) else cache_utxo view))
    as (view1 & -> & Hok1 & Hu1).
  { unfold DisconnectBlock_output. unfold output_coin in *.
    destruct (unspendable (scriptPubKey o)) eqn:Hun; cbn [negb]; [by exists view |].
    pose proof (Hall 0%nat o (mkCoin o cb (wrapu 31 h)) eq_refl) as H0. rewrite Hun, Z.add_0_r in H0.
    destruct (spend_existing view (hash, i) _ Hok (H0 eq_refl)) as (c1 & -> & ? & _ & ?).
    exists c1. split; [| done]. cbn [default out coin_nHeight fCoinBase].
    by rewrite bool_decide_eq_true_2, wrapu_small, Z.eqb_refl, eqb_reflx by done. }
  destruct (IH view1 (i + 1) fClean Hok1 Hh) as (view' & -> & Hok' & Hq).
  { intros k o' co Hk Hco. rewrite Hu1. replace (i + 1 + Z.of_nat k) with (i + Z.of_nat (S k)) by lia.
    specialize (Hall (S k) o' co Hk Hco). destruct (output_coin _ _ _ o); [| done].
    rewrite lookup_delete_ne; [done | intros [= He]; lia]. }
  exists view'. split; [done |]. split; [done |]. intros [qh qi]. rewrite Hq, Hu1. cbn [fst snd].
  destruct (decide (qh = hash /\ i + 1 <= qi)) as [[-> Hle] | Hno].
  - rewrite decide_True by lia.
    replace (Z.to_nat (qi - i)) with (S (Z.to_nat (qi - (i + 1)))) by lia. cbn [lookup list_lookup].
    destruct (o0 ← vout !! Z.to_nat (qi - (i + 1)); output_coin unspendable cb h o0) as [co |]; [done |].
    destruct (output_coin unspendable cb h o); [| done]. rewrite lookup_delete_ne; [done |].
    intros [= He]. lia.
  - destruct (decide (qh = hash /\ i <= qi)) as [[-> Hle] | Hno'].
    + replace qi with i by lia. rewrite Z.sub_diag. change (Z.to_nat 0) with 0%nat. cbn.
      destruct (output_coin unspendable cb h o); [apply lookup_delete_eq | done].
    + destruct (output_coin unspendable cb h o); [| done]. rewrite lookup_delete_ne; [done |].
      intros [= -> ->]. lia.
Qed.

Lemma ApplyTxInUndo_spec undo view o :
  ok view -> cache_utxo view !! o = None -> IsSpent undo = false -> restorable unspendable undo ->
  exists view', ApplyTxInUndo script_usage unspendable max_outputs undo view o = Some (DISCONNECT_OK, view') /\
    ok view' /\ cache_utxo view' = <[o := undo]> (cache_utxo view).
Proof using CoinsViewSpec0.
  intros Hok Ho Hsp [Hh Hun]. unfold ApplyTxInUndo.
  destruct (HaveCoin_spec script_usage view o Hok) as (v1 & -> & Hok1 & Hu1 & _). rewrite Ho.
  rewrite (proj2 (Z.eqb_neq _ _) Hh). cbn [negb bool_decide decide_rel].
  destruct (AddCoin_spec script_usage unspendable v1 o undo false Hok1 Hsp) as (v2 & Hv2 & Hok2 & _ & Hu2).
  { by rewrite Hu1. }
  rewrite bool_decide_eq_false_2 by (intros [x Hx]; done). cbn [negb]. rewrite Hv2. cbn [mbind option_bind].
  exists v2. split; [done |]. split; [done |]. by rewrite Hu2, Hun, Hu1.
Qed.

Lemma DisconnectBlock_inputs_spec l : forall view fClean,
  ok view -> NoDup l.*1 ->
  Forall (fun x => cache_utxo view !! x.1 = None /\ IsSpent x.2 = false /\ restorable unspendable x.2) l ->
  exists view', DisconnectBlock_inputs script_usage unspendable max_outputs view l fClean =
      Some (DISCONNECT_OK, fClean, view') /\ ok view' /\
    forall q, cache_utxo view' !! q =
      match (list_to_map l : gmap COutPoint Coin) !! q with Some co => Some co | None => cache_utxo view !! q end.
Proof using CoinsViewSpec0.
  induction l as [| [p co] l IH]; intros view fClean Hok Hnd Hall; cbn [DisconnectBlock_inputs].
  { exists view. split; [done |]. split; [done |]. intros q. cbn. by rewrite lookup_empty. }
  apply NoDup_cons in Hnd as [Hp Hnd]. apply Forall_cons in Hall as [(Hno & Hsp & Hres) Hall].
  destruct (ApplyTxInUndo_spec co view p Hok Hno Hsp Hres) as (v1 & -> & Hok1 & Hu1). cbn.
  rewrite andb_true_r. destruct (IH v1 fClean Hok1 Hnd) as (v' & -> & Hok' & Hq).
  { rewrite Forall_forall in Hall |- *. intros x Hx. destruct (Hall x Hx) as (H1 & H2). split; [| done].
    rewrite Hu1, lookup_insert_ne; [done |]. intros ->. apply Hp. apply list_elem_of_fmap. exists x. done. }
  exists v'. split; [done |]. split; [done |]. intros q. rewrite Hq, Hu1.
  apply not_elem_of_list_to_map_1 in Hp. cbn [fst] in Hp. cbn [list_to_map foldr fst snd]. destruct (decide (p = q)) as [<- | Hne].
  - by rewrite Hp, !lookup_insert_eq.
  - by rewrite !lookup_insert_ne.
Qed.

(** Disconnecting a transaction restores the map it was connected to, but
    for the coins that a coinbase overwrote. *)
Lemma DisconnectBlock_tx_spec (u : gmap COutPoint Coin) tx h view undo fClean :
  ok view -> 0 <= h < 2 ^ 31 -> valid_tx unspendable u tx ->
  (forall q co, u !! q = Some co -> IsSpent co = false) ->
  cache_utxo view = connect_spec unspendable h u tx ->
  (if tx_coinbase tx then undo = None
   else exists l, undo = Some l /\ Forall2 (fun p co => u !! p = Some co) (tx_prevouts tx) l) ->
  exists view', DisconnectBlock_tx script_usage unspendable max_outputs view tx undo h fClean =
      Some (DISCONNECT_OK, fClean, view') /\ ok view' /\
    cache_utxo view' = if tx_coinbase tx then uncovered unspendable h tx u else u.
Proof using usage_nil CoinsViewSpec0.
  intros Hok Hh Hv Hun Hu Hundo. unfold DisconnectBlock_tx.
  destruct (DisconnectBlock_outputs_spec (tx_hash tx) h (tx_coinbase tx) (tx_vout tx) view 0 fClean Hok Hh)
    as (v1 & -> & Hok1 & Hq1).
  { intros k o co Hk Hco. rewrite Hu, connect_spec_lookup. unfold own_output. cbn [fst snd].
    rewrite decide_True by lia. rewrite Z.add_0_l, Nat2Z.id, Hk. cbn. by rewrite Hco. }
  assert (forall q, cache_utxo v1 !! q =
    if tx_coinbase tx then uncovered unspendable h tx u !! q else if decide (q ∈ tx_prevouts tx) then None else u !! q) as Hq.
  { intros q. rewrite Hq1, Hu, connect_spec_lookup, uncovered_lookup, Z.sub_0_r. fold (own_output unspendable h tx q).
    destruct (own_output unspendable h tx q) as [co |] eqn:Ho; [| by destruct (tx_coinbase tx)].
    destruct (tx_coinbase tx) eqn:Hcb; [done |]. rewrite (own_output_fresh unspendable h u tx q co Hv Hcb Ho). by case_decide. }
  clear Hq1. destruct (tx_coinbase tx) eqn:Hcb.
  { subst undo. exists v1. split; [done |]. split; [done |]. apply map_eq. intros q. apply Hq. }
  destruct Hundo as (l & -> & Hf2). pose proof (Forall2_length _ _ _ Hf2) as Hlen.
  rewrite decide_True by done. destruct Hv as (Hnd & Hin & _ & _). specialize (Hin Hcb).
  assert ((combine (tx_prevouts tx) l).*1 = tx_prevouts tx) as Hfst by (apply fst_zip; lia).
  assert (forall q co, (q, co) ∈ combine (tx_prevouts tx) l -> q ∈ tx_prevouts tx /\ u !! q = Some co) as Hz.
  { intros q co [i Hi]%list_elem_of_lookup. apply lookup_zip_Some in Hi as [Hi1 Hi2].
    split; [by apply list_elem_of_lookup_2 with i |]. by apply (Forall2_lookup_lr _ _ _ _ _ _ Hf2 Hi1 Hi2). }
  destruct (DisconnectBlock_inputs_spec (reverse (combine (tx_prevouts tx) l)) v1 fClean Hok1)
    as (v2 & -> & Hok2 & Hq2).
  { rewrite fmap_reverse, Hfst, reverse_Permutation. done. }
  { apply Forall_forall. intros [q co] Hqc. rewrite elem_of_reverse in Hqc.
    apply Hz in Hqc as [Hqp Hqu]. cbn. rewrite Hq, decide_True by done. split; [done |].
    split; [by apply (Hun q) |]. rewrite Forall_forall in Hin. destruct (Hin q Hqp) as (co' & Hco' & Hr).
    congruence. }
  exists v2. split; [done |]. split; [done |]. apply map_eq. intros q. rewrite Hq2, Hq.
  assert ((list_to_map (reverse (combine (tx_prevouts tx) l)) : gmap COutPoint Coin) =
          list_to_map (combine (tx_prevouts tx) l)) as ->.
  { apply list_to_map_proper; [| by rewrite reverse_Permutation].
    rewrite fmap_reverse, Hfst, reverse_Permutation. done. }
  destruct (list_to_map (combine (tx_prevouts tx) l) !! q) as [co |] eqn:Hl.
  - apply elem_of_list_to_map_2, Hz in Hl as [_ ->]. done.
  - apply not_elem_of_list_to_map_2 in Hl. rewrite Hfst in Hl. by rewrite decide_False.
Qed.

Abbreviation disconnect := (DisconnectBlock_loop script_usage unspendable max_outputs).

Lemma DisconnectBlock_loop_app l1 l2 h : forall view fClean v1 f1,
  disconnect view l1 h fClean = Some (DISCONNECT_OK, f1, v1) ->
  disconnect view (l1 ++ l2) h fClean = disconnect v1 l2 h f1.
Proof.
  induction l1 as [| [tx undo] l1 IH]; intros view fClean v1 f1; cbn [DisconnectBlock_loop app].
  { by intros [= <- <-]. }
  destruct (DisconnectBlock_tx _ _ _ _ _ _ _ _) as [[[res f] v] |]; [cbn | done].
  case_decide; [by intros [= -> <- <-] | apply IH].
Qed.

(** One transaction connected, more connected and disconnected on top, then
    disconnected. *)
Lemma disconnect_one c tx h undo c1 (o : option CTxUndo) view fClean :
  ok c -> 0 <= h < 2 ^ 31 -> valid_tx unspendable (cache_utxo c) tx ->
  UpdateCoins script_usage unspendable c tx h = Some (undo, c1) ->
  o = (if tx_coinbase tx then None else Some undo) ->
  ok view -> cache_utxo view = cache_utxo c1 ->
  exists view', disconnect view [(tx, o)] h fClean = Some (DISCONNECT_OK, fClean, view') /\
    ok view' /\ cache_utxo view' = if tx_coinbase tx then uncovered unspendable h tx (cache_utxo c) else cache_utxo c.
Proof using usage_nil CoinsViewSpec0.
  intros Hok Hh Hv Hup Ho Hokv Hu.
  destruct (UpdateCoins_spec c tx h Hok (valid_updatable _ _ _ Hv)) as (undo' & c1' & Heq & _ & _ & Hu1 & Hf2).
  rewrite Hup in Heq. injection Heq as <- <-. rewrite Hu1 in Hu.
  destruct (DisconnectBlock_tx_spec (cache_utxo c) tx h view o fClean Hokv Hh Hv) as (view' & Heq & Hok' & Hu').
  - intros q co. by apply (cache_unspent script_usage).
  - done.
  - rewrite Ho. destruct (tx_coinbase tx); [done | by eauto].
  - exists view'. cbn [DisconnectBlock_loop]. by rewrite Heq.
Qed.

Lemma disconnect_rest vtx h : forall c undos c' view fClean,
  ok c -> 0 <= h < 2 ^ 31 -> valid_txs unspendable h (cache_utxo c) vtx ->
  Forall (fun tx => tx_coinbase tx = false) vtx ->
  ConnectBlock_coins script_usage unspendable c vtx h = Some (undos, c') ->
  ok view -> cache_utxo view = cache_utxo c' ->
  exists view', disconnect view (reverse (combine vtx (map Some undos))) h fClean =
      Some (DISCONNECT_OK, fClean, view') /\ ok view' /\ cache_utxo view' = cache_utxo c.
Proof using usage_nil CoinsViewSpec0.
  induction vtx as [| tx vtx IH]; intros c undos c' view fClean Hok Hh Hv Hcb Hcon Hokv Hu;
    cbn [ConnectBlock_coins] in Hcon.
  { injection Hcon as <- <-. exists view. done. }
  destruct Hv as [Hv Hrest]. apply Forall_cons in Hcb as [Hcb Hcbs].
  destruct (UpdateCoins_spec c tx h Hok (valid_updatable _ _ _ Hv)) as (undo & c1 & Heq & Hok1 & _ & Hu1 & _).
  rewrite Heq in Hcon. cbn in Hcon.
  destruct (ConnectBlock_coins script_usage unspendable c1 vtx h) as [[undos' c''] |] eqn:Hc; [| done].
  injection Hcon as <- <-. rewrite <- Hu1 in Hrest.
  destruct (IH c1 undos' c'' view fClean Hok1 Hh Hrest Hcbs Hc Hokv Hu) as (v1 & Hv1 & Hokv1 & Huv1).
  cbn [map combine]. rewrite reverse_cons, (DisconnectBlock_loop_app _ _ _ _ _ _ _ Hv1).
  destruct (disconnect_one c tx h undo c1 (Some undo) v1 fClean) as (v2 & Hd & ? & Hu2); try done; [by rewrite Hcb |].
  rewrite Hcb in Hu2. by exists v2.
Qed.

Lemma connect_disconnect c vtx h hash hashPrev tx0 rest :
  ok c -> 0 <= h < 2 ^ 31 -> vtx = tx0 :: rest ->
  tx_coinbase tx0 = true -> Forall (fun tx => tx_coinbase tx = false) rest ->
  valid_txs unspendable h (cache_utxo c) vtx ->
  exists vtxundo c1,
    ConnectBlock_utxo script_usage unspendable c vtx h hash = Some (vtxundo, SetBestBlock c1 hash) /\
    ok c1 /\ cache_utxo c1 = fold_left (connect_spec unspendable h) vtx (cache_utxo c) /\
    (forall view, ok view -> cache_utxo view = cache_utxo c1 -> exists c3,
      DisconnectBlock_utxo script_usage unspendable max_outputs view vtx vtxundo h hashPrev =
        Some (DISCONNECT_OK, SetBestBlock c3 hashPrev) /\
      ok c3 /\ cache_utxo c3 = uncovered unspendable h tx0 (cache_utxo c)).
Proof using usage_nil CoinsViewSpec0.
  intros Hok Hh -> Hcb Hrest Hv.
  destruct (ConnectBlock_coins_spec (tx0 :: rest) h c Hok Hv) as (undos & c1 & Hcon & Hok1 & Hu1 & Hl).
  unfold ConnectBlock_utxo. rewrite Hcon. cbn [mbind option_bind].
  cbn [ConnectBlock_coins] in Hcon. destruct Hv as [Hv0 Hvr].
  destruct (UpdateCoins_spec c tx0 h Hok (valid_updatable _ _ _ Hv0)) as (undo0 & c0 & Heq0 & Hok0 & _ & Hu0 & _).
  rewrite Heq0 in Hcon. cbn in Hcon. rewrite <- Hu0 in Hvr.
  destruct (ConnectBlock_coins script_usage unspendable c0 rest h) as [[undos' c''] |] eqn:Hc; [| done].
  injection Hcon as <- <-. cbn [tail]. cbn in Hl.
  exists undos', c''. split; [done |]. split; [done |]. split; [done |]. intros view Hokv Huv.
  destruct (disconnect_rest rest h c0 undos' c'' view true Hok0 Hh Hvr Hrest Hc Hokv Huv) as (v1 & Hd1 & Hokv1 & Huv1).
  destruct (disconnect_one c tx0 h undo0 c0 None v1 true Hok Hh Hv0 Heq0) as (v2 & Hd2 & Hokv2 & Huv2);
    [by rewrite Hcb | done | done |].
  rewrite Hcb in Huv2. exists v2. split; [| done].
  unfold DisconnectBlock_utxo. rewrite decide_True by (cbn; lia).
  unfold with_undo. cbn [combine]. rewrite reverse_cons, (DisconnectBlock_loop_app _ _ _ _ _ _ _ Hd1), Hd2. done.
Qed.
End Proofs.

(** ** The theorem *)

(** C7: Disconnecting a block undoes connecting it.  Take a block whose first
    transaction alone is a coinbase, in which every transaction spends distinct
    inputs that exist where it stands, with a height other than zero and a
    spendable script, no transaction but the coinbase recreates an unspent
    output, and no output has the value -1 of a spent coin.  [ConnectBlock]
    succeeds on the coins; its effect is to spend the inputs and create the
    spendable outputs of each transaction in order.  [DisconnectBlock] with the
    undo data it produced returns [DISCONNECT_OK], restores the best block, and
    restores the UTXO set except for the coins that the coinbase overwrote
    ([uncovered]); with a coinbase whose outputs are new, as BIP30 would demand,
    the set is restored exactly.  No assertion fires and the cache stays
    coherent. *)
Theorem connect_disconnect_roundtrip {V : Type} `{CoinsView V} `{!CoinsViewSpec V}
    (script_usage : list Z -> Z) (unspendable : list Z -> bool) (max_outputs : nat)
    (c : CCoinsViewCache V) (coinbase : UtxoTx) (rest : list UtxoTx) (nHeight hash hashPrev : Z) :
  script_usage [] = 0 -> cache_ok script_usage c -> 0 <= nHeight < 2 ^ 31 -> hash <> 0 -> hashPrev <> 0 ->
  tx_coinbase coinbase = true -> Forall (fun tx => tx_coinbase tx = false) rest ->
  valid_txs unspendable nHeight (cache_utxo c) (coinbase :: rest) ->
  exists vtxundo c1 c2,
    ConnectBlock_utxo script_usage unspendable c (coinbase :: rest) nHeight hash = Some (vtxundo, c1) /\
    cache_utxo c1 = fold_left (connect_spec unspendable nHeight) (coinbase :: rest) (cache_utxo c) /\
    cache_best c1 = hash /\
    DisconnectBlock_utxo script_usage unspendable max_outputs c1 (coinbase :: rest) vtxundo nHeight hashPrev =
      Some (DISCONNECT_OK, c2) /\
    cache_ok script_usage c2 /\ cache_utxo c2 = uncovered unspendable nHeight coinbase (cache_utxo c) /\
    ((forall k, 0 <= k < Z.of_nat (length (tx_vout coinbase)) -> cache_utxo c !! (tx_hash coinbase, k) = None) ->
     cache_utxo c2 = cache_utxo c) /\
    cache_best c2 = hashPrev.
Proof.
  intros Hus Hok Hh H1 H2 Hcb Hr Hv.
  destruct (connect_disconnect script_usage Hus unspendable max_outputs c _ nHeight hash hashPrev coinbase rest Hok Hh eq_refl Hcb Hr Hv)
    as (vtxundo & c1 & -> & Hok1 & Hu1 & Hd).
  destruct (SetBestBlock_spec script_usage c1 hash Hok1 H1) as (Hok1' & Hu1' & Hb1').
  destruct (Hd (SetBestBlock c1 hash) Hok1' Hu1') as (c3 & Ed & Hok3 & Hu3).
  destruct (SetBestBlock_spec script_usage c3 hashPrev Hok3 H2) as (Hok3' & Hu3' & Hb3').
  exists vtxundo, (SetBestBlock c1 hash), (SetBestBlock c3 hashPrev). rewrite Hu1', Hu3', Hu3.
  do 6 (split; [done |]). split; [| done]. intros Hnew. by apply uncovered_new.
Qed.

Definition example_block_txs : list UtxoTx :=
  [mkUtxoTx 10 true [] [mkTxOut 100 [118]; mkTxOut 0 [106]];
   mkUtxoTx 11 false [(1, 0); (2, 1)] [mkTxOut 90 [118]];
   mkUtxoTx 12 false [(11, 0)] [mkTxOut 40 [118]; mkTxOut 49 [118]]].

Definition example_unspendable (s : list Z) : bool :=
  match s with x :: _ => x =? 106 | [] => false end.

Definition example_view : CCoinsViewCache CoinsDB := mkCache example_db 99 ∅ 0.

#[local] Instance example_view_base : CoinsView CoinsDB := CCoinsViewDB_view (fun _ => false).

Lemma connect_disconnect_roundtrip_witness :
  exists vtxundo c1 c2,
    ConnectBlock_utxo (fun _ => 0) example_unspendable example_view example_block_txs 8 100 = Some (vtxundo, c1) /\
    cache_utxo c1 = fold_left (connect_spec example_unspendable 8) example_block_txs (cache_utxo example_view) /\
    cache_best c1 = 100 /\
    DisconnectBlock_utxo (fun _ => 0) example_unspendable 1000 c1 example_block_txs vtxundo 8 99 =
      Some (DISCONNECT_OK, c2) /\
    cache_ok (fun _ => 0) c2 /\ cache_utxo c2 = cache_utxo example_view /\ cache_best c2 = 99.
Proof.
  destruct (connect_disconnect_roundtrip (fun _ => 0) example_unspendable 1000 example_view (mkUtxoTx 10 true [] [mkTxOut 100 [118]; mkTxOut 0 [106]])
      (tail example_block_txs) 8 100 99) as (vtxundo & c1 & c2 & H1 & H2 & H3 & H4 & H5 & _ & H6 & H7).
  - reflexivity.
  - split; [split; [apply map_Forall_insert_2; [done | by apply map_Forall_singleton] | done] |].
    split; [| done]. intros o e. unfold example_view. cbn [cacheCoins]. by rewrite lookup_empty.
  - lia.
  - done.
  - done.
  - reflexivity.
  - repeat constructor.
  - split; [| split; [| split; [| exact I]]].
    + split; [constructor |]. split; [done |]. split; [done | by repeat constructor].
    + split; [by apply (bool_decide_unpack _) |]. split; [| split; [| by repeat constructor]].
      * intros _. repeat constructor; eexists; (split; [vm_compute; reflexivity | split; [done | reflexivity]]).
      * intros _ k Hk. cbn in Hk. assert (k = 0) as -> by lia. reflexivity.
    + split; [by apply (bool_decide_unpack _) |]. split; [| split; [| by repeat constructor]].
      * intros _. repeat constructor. eexists. split; [vm_compute; reflexivity | split; [done | reflexivity]].
      * intros _ k Hk. cbn in Hk. assert (k = 0 \/ k = 1) as [-> | ->] by lia; reflexivity.
  - exists vtxundo, c1, c2. do 5 (split; [assumption |]). split; [| assumption]. apply H6.
    intros k Hk. cbn in Hk. assert (k = 0 \/ k = 1) as [-> | ->] by lia; reflexivity.
Defined.
