(* ===== verification/Merkle.v ===== *)
(** * Merkle trees: [src/consensus/merkle.cpp]

    The constant-space computation of the root, the mutation flag and a
    branch, compared with the tree it stands for: the node at [level] and
    [pos] is the hash of its two children, a missing right child being
    replaced by the left one.  The double SHA-256 of two hashes is the
    parameter [hash2]. *)

From S2P Require Import Prelude.

Section Merkle.
Context {H : Type} `{EqDecision H}.
Variable hash2 : H -> H -> H.
Variable null : H.

(** ** [MerkleComputation] *)

(** [count & (((uint32_t)1) << level)]. *)
Definition count_bit (count : Z) (level : nat) : bool :=
  negb (Z.land count (u32 (Z.shiftl 1 (Z.of_nat level))) =? 0).

Record MerkleState := mkMerkle {
  inner : list H;      (* uint256 inner[32] *)
  mutated : bool;
  matchlevel : Z;
  branch : list H
}.

Definition inner_at (st : MerkleState) (level : nat) : H := nth level (inner st) null.

(** The branch bookkeeping of both combination loops. *)
Definition push_branch (pbranch : bool) (level : nat) (h : H) (matchh : bool) (st : MerkleState) :
    bool * MerkleState :=
  if pbranch then
    if matchh then (matchh, mkMerkle (inner st) (mutated st) (matchlevel st) (branch st ++ [inner_at st level]))
    else if matchlevel st =? Z.of_nat level
         then (true, mkMerkle (inner st) (mutated st) (matchlevel st) (branch st ++ [h]))
         else (matchh, st)
  else (matchh, st).

(** [for (level = 0; !(count & (1 << level)); level++)]: combine the new leaf
    with the complete subtrees to its left. *)
Fixpoint combine_up (fuel : nat) (pbranch : bool) (count : Z) (level : nat) (h : H) (matchh : bool)
    (st : MerkleState) : option (nat * H * bool * MerkleState) :=
  if count_bit count level then Some (level, h, matchh, st)
  else
    match fuel with
    | O => None
    | S fuel =>
        let '(matchh, st) := push_branch pbranch level h matchh st in
        let st := mkMerkle (inner st) (mutated st || bool_decide (inner_at st level = h))
                    (matchlevel st) (branch st) in
        combine_up fuel pbranch count (S level) (hash2 (inner_at st level) h) matchh st
    end.

(** One iteration of the loop over the leaves. *)
Definition add_leaf (pbranch : bool) (branchpos count : Z) (leaf : H) (st : MerkleState) :
    option (Z * MerkleState) :=
  let matchh := count =? branchpos in
  let count := u32 (count + 1) in
  '(level, h, matchh, st) ← combine_up 32 pbranch count 0 leaf matchh st;
  Some (count, mkMerkle (<[level := h]> (inner st)) (mutated st)
                 (if matchh : bool then Z.of_nat level else matchlevel st) (branch st)).

Fixpoint add_leaves (pbranch : bool) (branchpos count : Z) (leaves : list H) (st : MerkleState) :
    option (Z * MerkleState) :=
  match leaves with
  | [] => Some (count, st)
  | h :: rest =>
      '(count, st) ← add_leaf pbranch branchpos count h st;
      add_leaves pbranch branchpos count rest st
  end.

(** [while (!(count & (1 << level))) level++]. *)
Fixpoint lowest_level (fuel : nat) (count : Z) (level : nat) : option nat :=
  if count_bit count level then Some level
  else match fuel with O => None | S fuel => lowest_level fuel count (S level) end.

(** The inner loop of the final sweep. *)
Fixpoint sweep_up (fuel : nat) (pbranch : bool) (count : Z) (level : nat) (h : H) (matchh : bool)
    (st : MerkleState) : option (nat * H * bool * MerkleState) :=
  if count_bit count level then Some (level, h, matchh, st)
  else
    match fuel with
    | O => None
    | S fuel =>
        let '(matchh, st) := push_branch pbranch level h matchh st in
        sweep_up fuel pbranch count (S level) (hash2 (inner_at st level) h) matchh st
    end.

(** [while (count != (1 << level))]: the rightmost branch. *)
Fixpoint sweep (fuel : nat) (pbranch : bool) (count : Z) (level : nat) (h : H) (matchh : bool)
    (st : MerkleState) : option (H * MerkleState) :=
  if count =? u32 (Z.shiftl 1 (Z.of_nat level)) then Some (h, st)
  else
    match fuel with
    | O => None
    | S fuel =>
        let st := if pbranch && matchh
                  then mkMerkle (inner st) (mutated st) (matchlevel st) (branch st ++ [h]) else st in
        let h := hash2 h h in
        let count := u32 (count + u32 (Z.shiftl 1 (Z.of_nat level))) in
        '(level, h, matchh, st) ← sweep_up 32 pbranch count (S level) h matchh st;
        sweep fuel pbranch count level h matchh st
    end.

(** The root, the mutation flag and the branch. *)
Definition MerkleComputation (leaves : list H) (branchpos : Z) (pbranch : bool) :
    option (H * bool * list H) :=
  match leaves with
  | [] => Some (null, false, [])
  | _ =>
      '(count, st) ← add_leaves pbranch branchpos 0 leaves (mkMerkle (replicate 32 null) false (-1) []);
      level ← lowest_level 32 count 0;
      '(h, st) ← sweep 32 pbranch count level (inner_at st level) (matchlevel st =? Z.of_nat level) st;
      Some (h, mutated st, branch st)
  end.

Definition ComputeMerkleRoot (leaves : list H) : option (H * bool) :=
  '(root, mut, _) ← MerkleComputation leaves (u32 (-1)) false; Some (root, mut).

Definition ComputeMerkleBranch (leaves : list H) (position : Z) : option (list H) :=
  '(_, _, br) ← MerkleComputation leaves position true; Some br.

Fixpoint ComputeMerkleRootFromBranch (hash : H) (vMerkleBranch : list H) (nIndex : Z) : H :=
  match vMerkleBranch with
  | [] => hash
  | it :: rest =>
      let hash := if negb (Z.land nIndex 1 =? 0) then hash2 it hash else hash2 hash it in
      ComputeMerkleRootFromBranch hash rest (Z.shiftr nIndex 1)
  end.

(** The hashes of the transactions of a block. *)
Definition BlockMerkleRoot (txids : list H) : option (H * bool) := ComputeMerkleRoot txids.

(** The witness hashes; the coinbase counts as zero.  [leaves[0]] does not
    exist in an empty block. *)
Definition BlockWitnessMerkleRoot (wtxids : list H) : option (H * bool) :=
  match wtxids with
  | [] => None
  | _ :: rest => ComputeMerkleRoot (null :: rest)
  end.

Definition BlockMerkleBranch (txids : list H) (position : Z) : option (list H) :=
  ComputeMerkleBranch txids position.

(** ** The tree *)

Section Tree.
Variable leaves : list H.

Abbreviation n := (Z.of_nat (length leaves)).

Definition leaf (p : Z) : H := nth (Z.to_nat p) leaves null.

(** The number of nodes at a level. *)
Definition width (l : nat) : Z := (n + 2 ^ Z.of_nat l - 1) / 2 ^ Z.of_nat l.

(** The node at level [l] and position [p]. *)
Fixpoint node (l : nat) (p : Z) : H :=
  match l with
  | O => leaf p
  | S l => hash2 (node l (2 * p)) (if 2 * p + 1 <? width l then node l (2 * p + 1) else node l (2 * p))
  end.

(** A complete subtree. *)
Fixpoint full (l : nat) (p : Z) : H :=
  match l with
  | O => leaf p
  | S l => hash2 (full l (2 * p)) (full l (2 * p + 1))
  end.

Lemma pow2_pos l : 0 < 2 ^ Z.of_nat l.
Proof. apply Z.pow_pos_nonneg; lia. Qed.

Lemma pow2_S l : 2 ^ Z.of_nat (S l) = 2 * 2 ^ Z.of_nat l.
Proof. rewrite Nat2Z.inj_succ, Z.pow_succ_r by lia. done. Qed.

(** [width l] is [n / 2^l] rounded up. *)
Lemma width_spec l : (width l - 1) * 2 ^ Z.of_nat l < n <= width l * 2 ^ Z.of_nat l.
Proof.
  unfold width. pose proof (pow2_pos l) as Hp. set (P := 2 ^ Z.of_nat l) in *.
  pose proof (Z.div_mod (n + P - 1) P). pose proof (Z.mod_pos_bound (n + P - 1) P). nia.
Qed.

Lemma width_unique l w : (w - 1) * 2 ^ Z.of_nat l < n <= w * 2 ^ Z.of_nat l -> width l = w.
Proof. intros Hw. pose proof (width_spec l). pose proof (pow2_pos l). nia. Qed.

Lemma width_0 : width 0 = n.
Proof. apply width_unique. change (2 ^ Z.of_nat 0) with 1. lia. Qed.

(** Levels halve, rounding up. *)
Lemma width_S_even l k : width l = 2 * k -> width (S l) = k.
Proof. intros Hw. apply width_unique. rewrite pow2_S. pose proof (width_spec l). pose proof (pow2_pos l). nia. Qed.

Lemma width_S_odd l k : width l = 2 * k + 1 -> width (S l) = k + 1.
Proof. intros Hw. apply width_unique. rewrite pow2_S. pose proof (width_spec l). pose proof (pow2_pos l). nia. Qed.

(** Where no leaf is missing, nodes are complete subtrees. *)
Lemma node_full l : forall p, 0 <= p -> (p + 1) * 2 ^ Z.of_nat l <= n -> node l p = full l p.
Proof.
  induction l as [| l IH]; intros p Hp Hn; [done |]. cbn [node full]. rewrite pow2_S in Hn.
  pose proof (pow2_pos l). pose proof (width_spec l).
  rewrite !IH by nia. destruct (Z.ltb_spec (2 * p + 1) (width l)) as [| Hw]; [done |]. nia.
Qed.

(** The height of the tree: the first level with a single node. *)
Definition is_height (h : nat) : Prop := width h = 1 /\ (h = 0%nat \/ 2 <= width (pred h)).

Lemma width_stays_1 l k : width l = 1 -> width (l + k) = 1.
Proof.
  intros Hw. induction k as [| k IH]; [by rewrite Nat.add_0_r |]. rewrite Nat.add_succ_r.
  by rewrite (width_S_odd (l + k) 0 IH).
Qed.

Lemma is_height_unique h h' : is_height h -> is_height h' -> h = h'.
Proof.
  assert (forall a b, is_height a -> is_height b -> (a < b)%nat -> False) as Hno.
  { intros a b [Ha _] [_ [-> | Hb]] Hlt; [lia |].
    pose proof (width_stays_1 a (pred b - a) Ha) as Hw.
    replace (a + (pred b - a))%nat with (pred b) in Hw by lia. lia. }
  intros H1 H2. destruct (Nat.lt_trichotomy h h') as [Hlt | [-> | Hlt]]; [| done |]; exfalso; eauto.
Qed.

(** ** Bits of the counter *)

Lemma count_bit_odd c l : 0 <= c < 2 ^ 32 -> (l < 32)%nat -> count_bit c l = Z.odd (c / 2 ^ Z.of_nat l).
Proof.
  intros Hc Hl. unfold count_bit. rewrite Z.shiftl_mul_pow2, Z.mul_1_l by lia.
  rewrite wrapu_small by (split; [pose proof (pow2_pos l); lia | apply Z.pow_lt_mono_r; lia]).
  rewrite <- Z.shiftr_div_pow2, <- Z.testbit_odd by lia. apply land_pow2_testbit. lia.
Qed.

(** A multiple [c] of [2^l] seen from level [l + 1]. *)
Lemma div_step c l k : c = k * 2 ^ Z.of_nat l -> c / 2 ^ Z.of_nat l = k.
Proof. intros ->. apply Z.div_mul. pose proof (pow2_pos l). lia. Qed.

(** The number of complete subtrees before and after the leaf [c]. *)
Lemma pred_div c l k :
  0 < k -> c + 1 = k * 2 ^ Z.of_nat l -> c / 2 ^ Z.of_nat l = k - 1.
Proof.
  intros Hk Hc. pose proof (pow2_pos l). symmetry.
  apply Z.div_unique with (2 ^ Z.of_nat l - 1); [left; lia | nia].
Qed.

(** Above the level where the counter is odd, a new leaf changes nothing. *)
Lemma high_div c l k m :
  0 <= k -> c + 1 = (2 * k + 1) * 2 ^ Z.of_nat l -> (l < m)%nat ->
  (c + 1) / 2 ^ Z.of_nat m = c / 2 ^ Z.of_nat m.
Proof.
  intros Hk Hc Hm. pose proof (pow2_pos m) as Hpm. pose proof (pow2_pos l) as Hpl.
  assert (2 ^ Z.of_nat m = 2 ^ Z.of_nat l * (2 * 2 ^ Z.of_nat (m - l - 1))) as HP.
  { rewrite <- Z.pow_succ_r by lia. rewrite <- Z.pow_add_r by lia. f_equal. lia. }
  pose proof (Z.div_mod (c + 1) (2 ^ Z.of_nat m)) as Hd.
  pose proof (Z.mod_pos_bound (c + 1) (2 ^ Z.of_nat m) Hpm) as Hr.
  set (q := (c + 1) / 2 ^ Z.of_nat m) in *. set (r := (c + 1) mod 2 ^ Z.of_nat m) in *.
  destruct (Z.eq_dec r 0) as [Hz | Hnz].
  - exfalso. assert ((2 * k + 1) * 2 ^ Z.of_nat l = (2 * (2 ^ Z.of_nat (m - l - 1) * q)) * 2 ^ Z.of_nat l) as He by nia.
    apply Z.mul_cancel_r in He; lia.
  - apply Z.div_unique with (r - 1); [left; lia | nia].
Qed.

(** Below it, the counter is even. *)
Lemma low_div c l k m :
  c = (2 * k + 1) * 2 ^ Z.of_nat l -> (m < l)%nat ->
  c / 2 ^ Z.of_nat m = 2 * ((2 * k + 1) * 2 ^ Z.of_nat (l - m - 1)).
Proof.
  intros -> Hm. apply div_step.
  replace (Z.of_nat l) with (Z.of_nat (l - m - 1) + 1 + Z.of_nat m) by lia.
  rewrite !Z.pow_add_r by lia. ring.
Qed.

Lemma even_double k : Z.even (2 * k) = true.
Proof. by rewrite Z.even_mul. Qed.

Lemma even_pred_double k : Z.even (2 * k - 1) = false.
Proof. replace (2 * k - 1) with (1 + 2 * (k - 1)) by lia. by rewrite Z.even_add_mul_2. Qed.

(** ** The invariant of the leaf loop *)

Definition inner_ok (c : Z) (st : MerkleState) : Prop :=
  length (inner st) = 32%nat /\
  forall l k, (l < 32)%nat -> 0 <= k -> c / 2 ^ Z.of_nat l = 2 * k + 1 -> inner_at st l = full l (2 * k).

(** Two equal sibling subtrees, the right one ending at leaf [c]. *)
Definition pair_at (c : Z) (l : nat) : Prop :=
  exists p, 0 <= p /\ (2 * p + 2) * 2 ^ Z.of_nat l = c /\ full l (2 * p) = full l (2 * p + 1).

(** Two equal sibling subtrees among the first [c] leaves. *)
Definition has_equal_pair (c : Z) : Prop :=
  exists l p, 0 <= p /\ (2 * p + 2) * 2 ^ Z.of_nat l <= c /\ full l (2 * p) = full l (2 * p + 1).

(** The sibling of the ancestor of leaf [b] at level [l], among complete
    subtrees, and the branch up to a level. *)
Definition full_sibling (b : Z) (l : nat) : H :=
  let p := b / 2 ^ Z.of_nat l in full l (if Z.even p then p + 1 else p - 1).
Definition full_branch (b : Z) (m : nat) : list H := map (full_sibling b) (seq 0 m).

Lemma full_branch_S b m : full_branch b (S m) = full_branch b m ++ [full_sibling b m].
Proof. unfold full_branch. by rewrite seq_S, map_app. Qed.

(** Where the branch computation stands after [c] leaves. *)
Definition tracks (b c : Z) (st : MerkleState) : Prop :=
  (c <= b /\ matchlevel st = -1 /\ branch st = []) \/
  (b < c /\ exists m j, (m < 32)%nat /\ 0 <= j /\ matchlevel st = Z.of_nat m /\
    c / 2 ^ Z.of_nat m = 2 * j + 1 /\ b / 2 ^ Z.of_nat m = 2 * j /\ branch st = full_branch b m).

(** ... and while a leaf is being combined: [h] covers the subtree [k - 1]
    at level [l]. *)
Definition tracks_up (b c : Z) (l : nat) (k : Z) (matchh : bool) (st : MerkleState) : Prop :=
  (matchh = true /\ b / 2 ^ Z.of_nat l = k - 1 /\ branch st = full_branch b l) \/
  (matchh = false /\ c < b /\ matchlevel st = -1 /\ branch st = []) \/
  (matchh = false /\ b < c /\ exists m j, (l <= m < 32)%nat /\ 0 <= j /\ matchlevel st = Z.of_nat m /\
    c / 2 ^ Z.of_nat m = 2 * j + 1 /\ b / 2 ^ Z.of_nat m = 2 * j /\ branch st = full_branch b m).

Lemma inner_ok_at c l k st :
  inner_ok c st -> (l < 32)%nat -> 0 < k -> c + 1 = (2 * k) * 2 ^ Z.of_nat l ->
  inner_at st l = full l (2 * (k - 1)).
Proof.
  intros [_ Hi] Hl Hk Hc. apply Hi; [done | lia |]. rewrite (pred_div c l (2 * k)) by lia. lia.
Qed.

(** Pushing a sibling on the branch. *)
Lemma push_branch_tracks b c l k h matchh st matchh' st' :
  inner_ok c st -> (l < 32)%nat -> 0 < k -> 0 <= b -> c + 1 = (2 * k) * 2 ^ Z.of_nat l ->
  h = full l (2 * k - 1) -> tracks_up b c l (2 * k) matchh st ->
  push_branch true l h matchh st = (matchh', st') -> tracks_up b c (S l) k matchh' st'.
Proof.
  intros Hin Hl Hk Hb Hc Hh Htr. unfold push_branch.
  assert (forall q, b / 2 ^ Z.of_nat l = q -> b / 2 ^ Z.of_nat (S l) = q / 2) as HbS.
  { intros q <-. rewrite pow2_S, Z.mul_comm, Z.div_div by (pose proof (pow2_pos l); lia). done. }
  destruct Htr as [(-> & Hbl & Hbr) | [(-> & Hcb & Hm & Hbr) | (-> & Hcb & m & j & Hm & Hj & Hml & Hcm & Hbm & Hbr)]].
  - intros [= <- <-]. left. split; [done |]. cbn [branch]. split.
    + rewrite (HbS _ Hbl). symmetry. apply Z.div_unique with 1; lia.
    + rewrite full_branch_S, Hbr, (inner_ok_at c l k st Hin Hl Hk Hc). do 2 f_equal. unfold full_sibling.
      rewrite Hbl, even_pred_double. f_equal. lia.
  - destruct (Z.eqb_spec (matchlevel st) (Z.of_nat l)); [lia |]. intros [= <- <-]. right. left. done.
  - destruct (Z.eqb_spec (matchlevel st) (Z.of_nat l)) as [He | Hne].
    + intros [= <- <-]. left. replace m with l in * by lia. rewrite (pred_div c l (2 * k)) in Hcm by lia.
      split; [done |]. cbn [branch]. split.
      * rewrite (HbS _ Hbm). symmetry. apply Z.div_unique with 0; lia.
      * rewrite full_branch_S, Hbr, Hh. do 2 f_equal. unfold full_sibling. rewrite Hbm, even_double. f_equal. lia.
    + intros [= <- <-]. right. right. split; [done |]. split; [done |]. exists m, j.
      split; [lia |]. done.
Qed.

Lemma push_branch_frame p l h matchh st matchh' st' :
  push_branch p l h matchh st = (matchh', st') -> inner st' = inner st /\ mutated st' = mutated st.
Proof.
  unfold push_branch. destruct p; [destruct matchh; [| destruct (_ =? _)] |]; by intros [= <- <-].
Qed.

(** A power of two that divides a counter of at most 31 bits. *)
Lemma level_bound c l k : 0 < k -> c = k * 2 ^ Z.of_nat l -> c <= 2 ^ 31 -> (l < 32)%nat.
Proof.
  intros Hk Hc Hle. destruct (Nat.lt_ge_cases l 32) as [| Hge]; [done |]. exfalso.
  assert (2 ^ 32 <= 2 ^ Z.of_nat l) by (apply Z.pow_le_mono_r; lia). nia.
Qed.

Lemma combine_up_spec (M : Prop) pbranch b c fuel : forall l k h matchh st,
  0 <= b -> 0 < k -> c + 1 = k * 2 ^ Z.of_nat l -> c + 1 <= 2 ^ 31 -> (32 <= fuel + l)%nat ->
  inner_ok c st -> h = full l (k - 1) ->
  (mutated st = true <-> M \/ exists l', (l' < l)%nat /\ pair_at (c + 1) l') ->
  (pbranch = true -> tracks_up b c l k matchh st) ->
  exists l' k' matchh' st', combine_up fuel pbranch (c + 1) l h matchh st = Some (l', full l' (2 * k'), matchh', st') /\
    0 <= k' /\ c + 1 = (2 * k' + 1) * 2 ^ Z.of_nat l' /\ (l' < 32)%nat /\ inner st' = inner st /\
    (mutated st' = true <-> M \/ exists l'', (l'' < l')%nat /\ pair_at (c + 1) l'') /\
    (pbranch = true -> tracks_up b c l' (2 * k' + 1) matchh' st').
Proof.
  induction fuel as [| fuel IH]; intros l k h matchh st Hb Hk Hc Hle Hf Hin Hh Hmut Htr;
    pose proof (level_bound (c + 1) l k Hk Hc Hle) as Hl; [lia |].
  cbn [combine_up]. rewrite count_bit_odd by (pose proof (pow2_pos l); nia).
  rewrite (div_step (c + 1) l k Hc). destruct (Z.odd k) eqn:Hodd.
  - apply Z.odd_spec in Hodd as [k' ->]. exists l, k', matchh, st. rewrite Hh.
    replace (2 * k' + 1 - 1) with (2 * k') by lia. split; [done |]. split; [lia |]. done.
  - assert (exists k', k = 2 * k') as [k' ->]
      by (apply Z.even_spec; rewrite <- Z.negb_odd, Hodd; done).
    destruct (push_branch pbranch l h matchh st) as [matchh1 st1] eqn:Hpush.
    destruct (push_branch_frame _ _ _ _ _ _ _ Hpush) as [Hi1 Hm1].
    pose proof (inner_ok_at c l k' st Hin Hl ltac:(lia) Hc) as Hil.
    assert (inner_at st1 l = inner_at st l) as Hat by (unfold inner_at; by rewrite Hi1).
    set (st2 := mkMerkle (inner st1) (mutated st1 || bool_decide (inner_at st1 l = h)) (matchlevel st1) (branch st1)).
    assert (inner_at st2 l = inner_at st l) as Hat2 by (unfold inner_at; cbn; by rewrite Hi1).
    assert (hash2 (inner_at st2 l) h = full (S l) (k' - 1)) as Hfull.
    { cbn [full]. rewrite Hat2, Hil, Hh. do 2 f_equal. lia. }
    destruct (IH (S l) k' (hash2 (inner_at st2 l) h) matchh1 st2) as (l' & kk & mh & st' & Heq & H1 & H2 & H3 & H4 & H5 & H6);
      try done; try lia.
    + rewrite pow2_S. lia.
    + unfold inner_ok, inner_at. cbn [st2 inner]. rewrite Hi1. exact Hin.
    + cbn [st2 mutated]. rewrite orb_true_iff, Hm1, Hmut, bool_decide_eq_true, Hat, Hil, Hh. split.
      * intros [[HM | (l' & Hl' & Hp)] | Heq]; [by left | right; exists l'; split; [lia | done] |].
        right. exists l. split; [lia |]. exists (k' - 1). split; [lia |]. split; [rewrite Hc; ring |].
        rewrite Heq. f_equal. lia.
      * intros [HM | (l' & Hl' & Hp)]; [by left; left |]. destruct (decide (l' = l)) as [-> | Hne].
        -- right. destruct Hp as (p & Hp0 & Hpc & Hpe). rewrite Hc in Hpc.
           apply Z.mul_cancel_r in Hpc; [| pose proof (pow2_pos l); lia].
           replace (k' - 1) with p by lia. rewrite Hpe. f_equal. lia.
        -- left. right. exists l'. split; [lia | done].
    + intros Hpb. subst pbranch. specialize (Htr eq_refl).
      assert (h = full l (2 * k' - 1)) as Hh' by done.
      pose proof (push_branch_tracks b c l k' h matchh st matchh1 st1 Hin Hl ltac:(lia) Hb Hc Hh' Htr Hpush) as Ht.
      exact Ht.
    + exists l', kk, mh, st'. rewrite Heq, H4. cbn [st2 inner]. rewrite Hi1. done.
Qed.

(** Equal pairs are found when their last leaf is added. *)
Lemma has_equal_pair_S c l k :
  0 <= c -> 0 <= k -> c + 1 = (2 * k + 1) * 2 ^ Z.of_nat l ->
  has_equal_pair (c + 1) <-> has_equal_pair c \/ exists l', (l' < l)%nat /\ pair_at (c + 1) l'.
Proof.
  intros Hc0 Hk Hc. split.
  - intros (l' & p & Hp & Hle & He). destruct (Z.eq_dec ((2 * p + 2) * 2 ^ Z.of_nat l') (c + 1)) as [Heq | Hne].
    + right. exists l'. split; [| by exists p].
      destruct (Nat.lt_ge_cases l' l) as [| Hge]; [done |]. exfalso.
      replace l' with (l + (l' - l))%nat in Heq by lia. rewrite Nat2Z.inj_add, Z.pow_add_r in Heq by lia.
      assert (((p + 1) * 2 ^ Z.of_nat (l' - l) * 2) * 2 ^ Z.of_nat l = (2 * k + 1) * 2 ^ Z.of_nat l) as He' by nia.
      apply Z.mul_cancel_r in He'; pose proof (pow2_pos l); lia.
    + left. exists l', p. split; [done |]. split; [lia | done].
  - intros [(l' & p & Hp & Hle & He) | (l' & _ & p & Hp & Hle & He)];
      exists l', p; (split; [done |]); (split; [lia | done]).
Qed.

Definition leaf_inv (pbranch : bool) (b c : Z) (st : MerkleState) : Prop :=
  inner_ok c st /\ (mutated st = true <-> has_equal_pair c) /\ (pbranch = true -> tracks b c st).

Lemma add_leaf_spec pbranch b c st :
  0 <= b -> 0 <= c < 2 ^ 31 -> leaf_inv pbranch b c st ->
  exists st', add_leaf pbranch b c (leaf c) st = Some (c + 1, st') /\ leaf_inv pbranch b (c + 1) st'.
Proof.
  intros Hb Hc (Hin & Hmut & Htr). unfold add_leaf. rewrite wrapu_small by lia.
  destruct (combine_up_spec (has_equal_pair c) pbranch b c 32 0 (c + 1) (leaf c) (c =? b) st)
    as (l & k & mh & st1 & -> & Hk & Hc1 & Hl & Hi & Hm & Ht); try done; try lia.
  - cbn [full]. f_equal. lia.
  - rewrite Hmut. split; [by left | intros [? | (? & ? & _)]; [done | lia]].
  - intros Hp. change (2 ^ Z.of_nat 0) with 1. unfold tracks_up. change (2 ^ Z.of_nat 0) with 1.
    destruct (Htr Hp) as [(Hcb & Hml & Hbr) | (Hcb & m & j & Hm)].
    + destruct (Z.eqb_spec c b) as [<- | Hne]; [left; rewrite Z.div_1_r; split; [done |]; split; [lia | done] |].
      right. left. split; [done |]. split; [lia | done].
    + right. right. destruct (Z.eqb_spec c b); [lia |]. split; [done |]. split; [done |]. exists m, j.
      destruct Hm as (H1 & H2). split; [lia | done].
  - eexists. split; [reflexivity |]. split; [| split].
    + split; [cbn [inner]; rewrite length_insert, Hi; apply Hin |].
      intros l' k' Hl' Hk' Hd. unfold inner_at. cbn [inner]. destruct (decide (l' = l)) as [-> | Hne].
      * rewrite nth_lookup, list_lookup_insert_eq by (rewrite Hi; destruct Hin; lia). cbn.
        rewrite (div_step (c + 1) l (2 * k + 1) Hc1) in Hd. f_equal. lia.
      * rewrite nth_lookup, list_lookup_insert_ne, <- nth_lookup, Hi by done.
        apply Hin; [done | done |]. destruct (Nat.lt_ge_cases l l') as [Hlt | Hge].
        -- rewrite <- Hd. symmetry. by apply (high_div c l k l').
        -- exfalso. rewrite (low_div (c + 1) l k l' Hc1) in Hd by lia. lia.
    + cbn [mutated]. rewrite Hm. symmetry. apply (has_equal_pair_S c l k); (done || lia).
    + intros Hp. specialize (Ht Hp). unfold tracks. cbn [matchlevel branch].
      destruct Ht as [(-> & Hbl & Hbr) | [(-> & Hcb & Hml & Hbr) | (-> & Hcb & m & j & Hm' & Hj & Hml & Hcm & Hbm & Hbr)]].
      * right. split.
        { pose proof (Z.mul_succ_div_gt b (2 ^ Z.of_nat l) (pow2_pos l)). pose proof (pow2_pos l). nia. }
        exists l, k. split; [done |]. split; [done |]. split; [done |].
        split; [by apply div_step |]. split; [lia | done].
      * left. split; [lia | done].
      * right. split; [lia |]. exists m, j. split; [lia |]. split; [done |]. split; [done |]. split; [| done].
        destruct (decide (m = l)) as [-> | Hne].
        -- exfalso. rewrite (pred_div c l (2 * k + 1)) in Hcm by lia. lia.
        -- rewrite <- Hcm. apply (high_div c l k m); (done || lia).
Qed.

Lemma add_leaves_spec pbranch b rest : forall c st,
  0 <= b -> 0 <= c -> n <= 2 ^ 31 -> drop (Z.to_nat c) leaves = rest -> c <= n -> leaf_inv pbranch b c st ->
  exists st', add_leaves pbranch b c rest st = Some (n, st') /\ leaf_inv pbranch b n st'.
Proof.
  induction rest as [| h rest IH]; intros c st Hb Hc Hn Hd Hcn Hinv; cbn [add_leaves].
  - assert (length (drop (Z.to_nat c) leaves) = 0%nat) as Hl by (by rewrite Hd).
    rewrite length_drop in Hl. assert (c = n) as -> by lia. by exists st.
  - assert (leaves !! Z.to_nat c = Some h) as Hh.
    { rewrite <- (Nat.add_0_r (Z.to_nat c)), <- lookup_drop, Hd. done. }
    assert (h = leaf c) as -> by (unfold leaf; rewrite nth_lookup, Hh; done).
    pose proof (lookup_lt_Some _ _ _ Hh).
    destruct (add_leaf_spec pbranch b c st Hb ltac:(lia) Hinv) as (st1 & -> & Hinv1). cbn [mbind option_bind].
    apply (IH (c + 1) st1); try done; try lia.
    replace (Z.to_nat (c + 1)) with (Z.to_nat c + 1)%nat by lia. rewrite <- drop_drop, Hd. done.
Qed.

(** ** The final sweep *)

(** The sibling of the ancestor of leaf [b] at level [l]: itself when it is
    the last of an odd level. *)
Definition sibling (b : Z) (l : nat) : H :=
  let p := b / 2 ^ Z.of_nat l in
  let q := if Z.even p then p + 1 else p - 1 in
  node l (if q <? width l then q else p).
Definition merkle_branch (b : Z) (m : nat) : list H := map (sibling b) (seq 0 m).

Lemma merkle_branch_S b m : merkle_branch b (S m) = merkle_branch b m ++ [sibling b m].
Proof. unfold merkle_branch. by rewrite seq_S, map_app. Qed.

(** Inside a complete subtree the two notions of branch agree. *)
Lemma full_branch_eq b m j :
  0 <= b -> 0 <= j -> b / 2 ^ Z.of_nat m = j -> (j + 1) * 2 ^ Z.of_nat m <= n ->
  full_branch b m = merkle_branch b m.
Proof.
  intros Hb Hj Hbm Hn. apply map_ext_in. intros l Hl. apply in_seq in Hl.
  unfold full_sibling, sibling. pose proof (pow2_pos l) as Hpl. pose proof (pow2_pos (m - l)) as Hpd.
  assert (2 ^ Z.of_nat m = 2 ^ Z.of_nat (m - l) * 2 ^ Z.of_nat l) as HP.
  { rewrite <- Z.pow_add_r by lia. f_equal. lia. }
  assert (2 ^ Z.of_nat (m - l) = 2 * 2 ^ Z.of_nat (m - l - 1)) as HP2.
  { rewrite <- pow2_S. do 2 f_equal. lia. }
  set (p := b / 2 ^ Z.of_nat l). assert (0 <= p) as Hp0 by (apply Z.div_pos; lia).
  assert (p < (j + 1) * 2 ^ Z.of_nat (m - l)) as Hp.
  { apply Z.div_lt_upper_bound; [done |].
    pose proof (Z.mul_succ_div_gt b (2 ^ Z.of_nat m) (pow2_pos m)). nia. }
  set (q := if Z.even p then p + 1 else p - 1).
  assert (0 <= q /\ (q + 1) * 2 ^ Z.of_nat l <= n) as [Hq0 Hq].
  { unfold q. destruct (Z.even p) eqn:He.
    - apply Z.even_spec in He as [x Hx]. split; [lia |].
      rewrite HP, HP2 in Hn. rewrite HP2 in Hp. set (Q := 2 ^ Z.of_nat (m - l - 1)) in *.
      assert (x + 1 <= (j + 1) * Q) by nia. rewrite Hx. nia.
    - rewrite <- Z.negb_odd in He. apply negb_false_iff, Z.odd_spec in He as [x Hx]. split; [lia |]. nia. }
  pose proof (width_spec l). destruct (Z.ltb_spec q (width l)) as [| Hge]; [symmetry; by apply node_full | nia].
Qed.

(** The rounded-up counter stays within 31 bits. *)
Lemma width_le l : n <= 2 ^ 31 -> (l <= 31)%nat -> width l * 2 ^ Z.of_nat l <= 2 ^ 31.
Proof.
  intros Hn Hl. pose proof (width_spec l) as Hw. pose proof (pow2_pos l).
  assert (2 ^ 31 = 2 ^ Z.of_nat (31 - l) * 2 ^ Z.of_nat l) as HP.
  { rewrite <- Z.pow_add_r by lia. f_equal. lia. }
  assert (width l - 1 < 2 ^ Z.of_nat (31 - l)) by (apply (Z.mul_lt_mono_pos_r (2 ^ Z.of_nat l)); lia).
  rewrite HP. apply Z.mul_le_mono_nonneg_r; lia.
Qed.

Lemma width_ge2_level l : n <= 2 ^ 31 -> (l <= 31)%nat -> 2 <= width l -> (l <= 30)%nat.
Proof.
  intros Hn Hl Hw. destruct (decide (l = 31%nat)) as [-> | Hne]; [| lia].
  pose proof (width_le 31 Hn ltac:(lia)). change (Z.of_nat 31) with 31 in *. lia.
Qed.

Definition sweep_tracks (b : Z) (l : nat) (strict : bool) (matchh : bool) (st : MerkleState) : Prop :=
  (matchh = true /\ b / 2 ^ Z.of_nat l = width l - 1 /\ branch st = merkle_branch b l) \/
  (matchh = false /\ exists m j, (if strict then l < m else l <= m)%nat /\ 0 <= j /\
    matchlevel st = Z.of_nat m /\
    n / 2 ^ Z.of_nat m = 2 * j + 1 /\ b / 2 ^ Z.of_nat m = 2 * j /\ branch st = merkle_branch b m).

Lemma div_half b l : b / 2 ^ Z.of_nat (S l) = b / 2 ^ Z.of_nat l / 2.
Proof. rewrite pow2_S, Z.mul_comm, Z.div_div by (pose proof (pow2_pos l); lia). done. Qed.

(** The complete subtree to the left of the last node of an even level. *)
Lemma sweep_inner st l j :
  inner_ok n st -> (l < 32)%nat -> 0 < j -> width l = 2 * j -> n < width l * 2 ^ Z.of_nat l ->
  inner_at st l = node l (2 * j - 2) /\ n / 2 ^ Z.of_nat l = 2 * (j - 1) + 1.
Proof.
  intros [_ Hin] Hl Hj Hw Hlt. pose proof (width_spec l). pose proof (pow2_pos l).
  assert (n / 2 ^ Z.of_nat l = 2 * (j - 1) + 1) as Hd.
  { symmetry. apply Z.div_unique with (n - (2 * j - 1) * 2 ^ Z.of_nat l); [left; nia | nia]. }
  split; [| done]. rewrite (Hin l (j - 1)) by (done || lia).
  rewrite node_full by nia. f_equal. lia.
Qed.

Lemma sweep_push b l j h matchh st matchh' st' :
  inner_ok n st -> (l < 32)%nat -> 0 < j -> width l = 2 * j -> n < width l * 2 ^ Z.of_nat l ->
  h = node l (2 * j - 1) -> sweep_tracks b l false matchh st ->
  push_branch true l h matchh st = (matchh', st') -> sweep_tracks b (S l) false matchh' st'.
Proof.
  intros Hin Hl Hj Hw Hlt Hh Htr. destruct (sweep_inner st l j Hin Hl Hj Hw Hlt) as [Hat Hdn].
  unfold push_branch.
  destruct Htr as [(-> & Hbl & Hbr) | (-> & m & i & Hm & Hi & Hml & Hnm & Hbm & Hbr)].
  - intros [= <- <-]. left. split; [done |]. cbn [branch]. rewrite (width_S_even l j Hw), div_half, Hbl, Hw. split.
    + symmetry. apply Z.div_unique with 1; lia.
    + rewrite merkle_branch_S, Hbr, Hat. do 2 f_equal. unfold sibling. rewrite Hbl, Hw.
      rewrite even_pred_double. destruct (Z.ltb_spec (2 * j - 1 - 1) (2 * j)); [f_equal; lia | lia].
  - destruct (Z.eqb_spec (matchlevel st) (Z.of_nat l)) as [He | Hne]; intros [= <- <-].
    + replace m with l in * by lia. left. split; [done |]. cbn [branch].
      rewrite (width_S_even l j Hw), div_half, Hbm. split.
      * symmetry. apply Z.div_unique with 0; lia.
      * rewrite merkle_branch_S, Hbr, Hh. do 2 f_equal. unfold sibling. rewrite Hbm, Hw.
        rewrite even_double. destruct (Z.ltb_spec (2 * i + 1) (2 * j)); [f_equal; lia | lia].
    + right. split; [done |]. exists m, i. split; [lia | done].
Qed.

Lemma node_even l j : 0 < j -> width l = 2 * j -> node (S l) (j - 1) = hash2 (node l (2 * j - 2)) (node l (2 * j - 1)).
Proof.
  intros Hj Hw. cbn [node]. replace (2 * (j - 1)) with (2 * j - 2) by lia. rewrite Hw.
  destruct (Z.ltb_spec (2 * j - 2 + 1) (2 * j)); [do 2 f_equal; lia | lia].
Qed.

Lemma node_odd l k : width l = 2 * k + 1 -> node (S l) k = hash2 (node l (2 * k)) (node l (2 * k)).
Proof. intros Hw. cbn [node]. rewrite Hw. destruct (Z.ltb_spec (2 * k + 1) (2 * k + 1)); [lia | done]. Qed.
(** The rightmost branch at level [l]: [h] is the last node. *)
Definition last_node (l : nat) (h : H) : Prop := h = node l (width l - 1).

Lemma sweep_up_spec pbranch b fuel : forall l h matchh st,
  n <= 2 ^ 31 -> (1 <= l <= 31)%nat -> (32 <= fuel + l)%nat -> 2 <= width (pred l) -> 0 < width l ->
  n < width l * 2 ^ Z.of_nat l -> inner_ok n st -> last_node l h ->
  (pbranch = true /\ b < n -> sweep_tracks b l false matchh st) ->
  exists l' matchh' st', sweep_up fuel pbranch (width l * 2 ^ Z.of_nat l) l h matchh st =
      Some (l', node l' (width l' - 1), matchh', st') /\
    (l <= l' <= 31)%nat /\ 2 <= width (pred l') /\ Z.odd (width l') = true /\
    width l' * 2 ^ Z.of_nat l' = width l * 2 ^ Z.of_nat l /\
    inner_ok n st' /\ mutated st' = mutated st /\ (pbranch = true /\ b < n -> sweep_tracks b l' true matchh' st').
Proof.
  induction fuel as [| fuel IH]; intros l h matchh st Hn Hl Hf Hw2 Hw0 Hlt Hin Hh Htr; [lia |].
  cbn [sweep_up]. pose proof (width_le l Hn ltac:(lia)) as Hwl. pose proof (pow2_pos l) as Hp.
  rewrite count_bit_odd by nia.
  rewrite (div_step (width l * 2 ^ Z.of_nat l) l (width l) eq_refl). destruct (Z.odd (width l)) eqn:Hodd.
  - exists l, matchh, st. rewrite Hh. split; [done |]. split; [lia |]. do 5 (split; [done |]).
    intros Hp'. destruct (Htr Hp') as [? | (-> & m & j & Hm & Hj & Hml & Hnm & Hbm & Hbr)]; [by left |].
    right. split; [done |]. exists m, j. split; [| done]. destruct (decide (m = l)) as [-> | Hne]; [exfalso | lia].
    assert (n / 2 ^ Z.of_nat l = width l - 1) as Hd.
    { pose proof (width_spec l). symmetry.
      apply Z.div_unique with (n - (width l - 1) * 2 ^ Z.of_nat l); [left; nia | nia]. }
    apply Z.odd_spec in Hodd as [x Hx]. lia.
  - assert (exists j, width l = 2 * j) as [j Hj] by (apply Z.even_spec; rewrite <- Z.negb_odd, Hodd; done).
    destruct (push_branch pbranch l h matchh st) as [matchh1 st1] eqn:Hpush.
    destruct (push_branch_frame _ _ _ _ _ _ _ Hpush) as [Hi1 Hm1].
    destruct (sweep_inner st l j Hin ltac:(lia) ltac:(lia) Hj Hlt) as [Hat _].
    assert (inner_ok n st1) as Hin1 by (unfold inner_ok, inner_at; rewrite Hi1; exact Hin).
    assert (l <= 30)%nat as Hl30 by (apply width_ge2_level; lia).
    assert (h = node l (2 * j - 1)) as Hh' by (unfold last_node in Hh; by rewrite Hj in Hh).
    assert (last_node (S l) (hash2 (inner_at st1 l) h)) as Hh1.
    { unfold last_node. rewrite (width_S_even l j Hj), node_even by (done || lia).
      unfold inner_at. rewrite Hi1. fold (inner_at st l). by rewrite Hat, Hh'. }
    assert (width l * 2 ^ Z.of_nat l = width (S l) * 2 ^ Z.of_nat (S l)) as Hc
      by (rewrite (width_S_even l j Hj), pow2_S, Hj; ring).
    rewrite Hc in Hlt |- *.
    destruct (IH (S l) (hash2 (inner_at st1 l) h) matchh1 st1) as (l' & mh & st' & -> & H1 & H2 & H3 & H4 & H5 & H6 & H7);
      try done; try lia.
    + cbn [pred]. lia.
    + intros [-> Hbn]. specialize (Htr (conj eq_refl Hbn)).
      by apply (sweep_push b l j h matchh st matchh1 st1 Hin ltac:(lia) ltac:(lia) Hj ltac:(lia) Hh' Htr Hpush).
    + exists l', mh, st'. split; [done |]. split; [lia |]. split; [done |]. split; [done |]. split; [done |].
      split; [done |]. split; [congruence | done].
Qed.

(** Doubling the last node of an odd level. *)
Lemma sweep_double b l k h matchh st :
  width l = 2 * k + 1 -> last_node l h -> sweep_tracks b l true matchh st ->
  sweep_tracks b (S l) false matchh
    (if matchh then mkMerkle (inner st) (mutated st) (matchlevel st) (branch st ++ [h]) else st).
Proof.
  intros Hw Hh [(-> & Hbl & Hbr) | (-> & m & j & Hm & Hrest)].
  - left. split; [done |]. rewrite (width_S_odd l k Hw), div_half, Hbl, Hw. cbn [branch]. split.
    + symmetry. apply Z.div_unique with 0; lia.
    + rewrite merkle_branch_S, Hbr. do 2 f_equal. unfold sibling. rewrite Hbl, Hh, Hw.
      replace (2 * k + 1 - 1) with (2 * k) by lia. rewrite even_double.
      destruct (Z.ltb_spec (2 * k + 1) (2 * k + 1)); [lia | done].
  - right. split; [done |]. exists m, j. split; [lia | done].
Qed.

Lemma sweep_spec pbranch b fuel : forall l h matchh st,
  n <= 2 ^ 31 -> (l <= 31)%nat -> (32 <= fuel + l)%nat -> (l = 0%nat \/ 2 <= width (pred l)) ->
  Z.odd (width l) = true -> 0 < width l -> inner_ok n st -> last_node l h ->
  (pbranch = true /\ b < n -> sweep_tracks b l true matchh st) ->
  exists hgt st', sweep fuel pbranch (width l * 2 ^ Z.of_nat l) l h matchh st = Some (node hgt 0, st') /\
    is_height hgt /\ mutated st' = mutated st /\
    (pbranch = true -> 0 <= b < n -> branch st' = merkle_branch b hgt).
Proof.
  induction fuel as [| fuel IH]; intros l h matchh st Hn Hl Hf Hmin Hodd Hw0 Hin Hh Htr; [lia |].
  cbn [sweep]. pose proof (width_le l Hn Hl) as Hwl. pose proof (pow2_pos l) as Hp.
  rewrite Z.shiftl_mul_pow2, Z.mul_1_l by lia. rewrite (wrapu_small 32 (2 ^ _)) by nia.
  apply Z.odd_spec in Hodd as [k Hk]. destruct (Z.eqb_spec (width l * 2 ^ Z.of_nat l) (2 ^ Z.of_nat l)) as [He | Hne].
  - assert (width l = 1) as Hw1 by nia. exists l, st. unfold last_node in Hh. rewrite Hw1 in Hh.
    split; [by rewrite Hh |]. split; [done |]. split; [done |]. intros Hp' Hb.
    destruct (Htr (conj Hp' (proj2 Hb))) as [(_ & _ & ?) | (_ & m & j & Hm & Hj & _ & Hnm & Hbm & _)]; [done | exfalso].
    pose proof (width_spec l) as Hws. rewrite Hw1 in Hws.
    assert (2 ^ Z.of_nat m = 2 ^ Z.of_nat (m - l) * 2 ^ Z.of_nat l) as HP
      by (rewrite <- Z.pow_add_r by lia; f_equal; lia).
    assert (2 ^ Z.of_nat (m - l) = 2 * 2 ^ Z.of_nat (m - l - 1)) as HP2
      by (rewrite <- pow2_S; do 2 f_equal; lia).
    pose proof (pow2_pos (m - l - 1)). rewrite Z.div_small in Hnm by nia. lia.
  - assert (3 <= width l) as Hw3 by nia. assert (l <= 30)%nat as Hl30 by (apply width_ge2_level; lia).
    set (st1 := if pbranch && matchh then mkMerkle (inner st) (mutated st) (matchlevel st) (branch st ++ [h]) else st).
    assert (inner st1 = inner st /\ mutated st1 = mutated st) as [Hi1 Hm1] by (unfold st1; by destruct (pbranch && matchh)).
    assert (inner_ok n st1) as Hin1 by (unfold inner_ok, inner_at; rewrite Hi1; exact Hin).
    pose proof (width_S_odd l k Hk) as HwS. pose proof (width_spec l) as Hws.
    assert (width l * 2 ^ Z.of_nat l + 2 ^ Z.of_nat l = width (S l) * 2 ^ Z.of_nat (S l)) as Hc
      by (rewrite HwS, pow2_S, Hk; ring).
    pose proof (width_le (S l) Hn ltac:(lia)) as HwlS.
    rewrite (wrapu_small 32 (_ + _)), Hc by nia.
    destruct (sweep_up_spec pbranch b 32 (S l) (hash2 h h) matchh st1)
      as (l' & mh & st2 & -> & H1 & H2 & H3 & H4 & H5 & H6 & H7); try done; try lia.
    + cbn [pred]. lia.
    + unfold last_node. rewrite HwS. replace (k + 1 - 1) with k by lia. rewrite (node_odd l k Hk).
      unfold last_node in Hh. rewrite Hk in Hh. replace (2 * k + 1 - 1) with (2 * k) in Hh by lia. by rewrite <- Hh.
    + intros [-> Hbn]. unfold st1. cbn [andb]. apply (sweep_double b l k h matchh st Hk Hh). by apply Htr.
    + cbn [mbind option_bind]. rewrite <- H4.
      destruct (IH l' (node l' (width l' - 1)) mh st2) as (hgt & st' & -> & Hh1 & Hh2 & Hh3); try done; try lia.
      exists hgt, st'. split; [done |]. split; [done |]. split; [congruence | done].
Qed.

(** ** The whole computation *)

Lemma lowest_level_spec c fuel : forall l k,
  0 < k -> c = k * 2 ^ Z.of_nat l -> c <= 2 ^ 31 -> (32 <= fuel + l)%nat ->
  exists l' k', lowest_level fuel c l = Some l' /\ 0 <= k' /\ c = (2 * k' + 1) * 2 ^ Z.of_nat l' /\ (l' < 32)%nat.
Proof.
  induction fuel as [| fuel IH]; intros l k Hk Hc Hle Hf; pose proof (level_bound c l k Hk Hc Hle) as Hl; [lia |].
  cbn [lowest_level]. rewrite count_bit_odd by (pose proof (pow2_pos l); nia). rewrite (div_step c l k Hc).
  destruct (Z.odd k) eqn:Hodd.
  - apply Z.odd_spec in Hodd as [k' ->]. exists l, k'. split; [done |]. split; [lia | done].
  - assert (exists k', k = 2 * k') as [k' ->] by (apply Z.even_spec; rewrite <- Z.negb_odd, Hodd; done).
    apply (IH (S l) k'); try lia. rewrite pow2_S. lia.
Qed.

Lemma MerkleComputation_spec b pbranch :
  0 < n <= 2 ^ 31 -> 0 <= b ->
  exists hgt mut br, MerkleComputation leaves b pbranch = Some (node hgt 0, mut, br) /\
    is_height hgt /\ (mut = true <-> has_equal_pair n) /\
    (pbranch = true -> b < n -> br = merkle_branch b hgt).
Proof.
  intros Hn Hb. unfold MerkleComputation. destruct leaves as [| h0 rest] eqn:Hleaves; [cbn in Hn; lia |].
  rewrite <- Hleaves in *. clear h0 rest Hleaves.
  destruct (add_leaves_spec pbranch b leaves 0 (mkMerkle (replicate 32 null) false (-1) []))
    as (st & -> & (Hin & Hmut & Htr)); try done; try lia.
  { split; [| split].
    - split; [done |]. intros l k Hl Hk. rewrite Z.div_0_l by (pose proof (pow2_pos l); lia). lia.
    - split; [done |]. intros (l & p & Hp & Hle & _). pose proof (pow2_pos l). nia.
    - intros _. left. done. }
  cbn [mbind option_bind].
  destruct (lowest_level_spec n 32 0 n) as (l & k & -> & Hk & Hc & Hl); try lia.
  cbn [mbind option_bind].
  assert (width l = 2 * k + 1) as Hw by (apply width_unique; pose proof (pow2_pos l); nia).
  assert (inner_at st l = node l (2 * k)) as Hat.
  { destruct Hin as [_ Hi]. rewrite (Hi l k Hl Hk) by (by apply div_step). symmetry.
    apply node_full; [lia |]. pose proof (pow2_pos l). nia. }
  rewrite Hat.
  destruct (sweep_spec pbranch b 32 l (node l (2 * k)) (matchlevel st =? Z.of_nat l) st)
    as (hgt & st' & Hs & Hh & Hm & Hbr); try done; try lia.
  - destruct l as [| l]; [by left | right]. cbn [pred].
    assert (width l = 2 * (2 * k + 1)) as -> by (apply width_unique; rewrite pow2_S in Hc; pose proof (pow2_pos l); nia).
    lia.
  - rewrite Hw, Z.add_comm. by rewrite Z.odd_add_mul_2.
  - unfold last_node. rewrite Hw. f_equal. lia.
  - intros [Hp Hbn]. destruct (Htr Hp) as [(Hnb & _) | (_ & m & j & Hm & Hj & Hml & Hnm & Hbm & Hbr0)]; [lia |].
    pose proof (pow2_pos m). pose proof (Z.mul_div_le n (2 ^ Z.of_nat m) ltac:(lia)).
    rewrite (full_branch_eq b m (2 * j) Hb ltac:(lia) Hbm) in Hbr0 by nia.
    destruct (Z.eqb_spec (matchlevel st) (Z.of_nat l)) as [He | Hne].
    + left. replace m with l in * by lia. rewrite (div_step n l (2 * k + 1) Hc) in Hnm.
      split; [done |]. rewrite Hw. split; [lia | done].
    + right. split; [done |]. exists m, j. split; [| done].
      destruct (Nat.lt_ge_cases l m) as [| Hge]; [done | exfalso].
      rewrite (low_div n l k m Hc) in Hnm by lia. lia.
  - replace (width l * 2 ^ Z.of_nat l) with n in Hs by lia. rewrite Hs.
    cbn [mbind option_bind]. exists hgt, (mutated st'), (branch st'). split; [done |]. split; [done |].
    rewrite Hm. split; [done |]. intros Hp Hbn. by apply Hbr.
Qed.
(** ** Branches *)

Lemma branch_step b l :
  0 <= b < n -> (if Z.odd (b / 2 ^ Z.of_nat l) then hash2 (sibling b l) (node l (b / 2 ^ Z.of_nat l))
                 else hash2 (node l (b / 2 ^ Z.of_nat l)) (sibling b l)) =
                node (S l) (b / 2 ^ Z.of_nat (S l)).
Proof.
  intros Hb. rewrite div_half. unfold sibling. set (p := b / 2 ^ Z.of_nat l). cbn [node].
  pose proof (pow2_pos l) as Hp. pose proof (width_spec l) as Hw.
  assert (0 <= p < width l) as Hpw.
  { split; [apply Z.div_pos; lia |]. apply Z.div_lt_upper_bound; lia. }
  rewrite <- Z.negb_odd. destruct (Z.odd p) eqn:Hodd; cbn [negb].
  - apply Z.odd_spec in Hodd as [x Hx]. replace (p / 2) with x by (apply Z.div_unique with 1; lia).
    replace (2 * x + 1) with p by lia. replace (p - 1) with (2 * x) by lia.
    destruct (Z.ltb_spec (2 * x) (width l)); [| lia]. destruct (Z.ltb_spec p (width l)); [done | lia].
  - assert (exists x, p = 2 * x) as [x Hx] by (apply Z.even_spec; rewrite <- Z.negb_odd, Hodd; done).
    replace (p / 2) with x by (apply Z.div_unique with 0; lia). rewrite Hx.
    by destruct (Z.ltb_spec (2 * x + 1) (width l)).
Qed.

Lemma land_1_odd z : negb (Z.land z 1 =? 0) = Z.odd z.
Proof. rewrite <- Z.bit0_odd. apply (land_pow2_testbit z 0). lia. Qed.

(** Folding the upper part of a branch into a node. *)
Lemma fold_branch b m : forall l,
  0 <= b < n ->
  ComputeMerkleRootFromBranch (node l (b / 2 ^ Z.of_nat l)) (map (sibling b) (seq l m)) (b / 2 ^ Z.of_nat l) =
  node (l + m) (b / 2 ^ Z.of_nat (l + m)).
Proof.
  induction m as [| m IH]; intros l Hb; cbn [seq map ComputeMerkleRootFromBranch].
  { by rewrite Nat.add_0_r. }
  rewrite land_1_odd, branch_step by done.
  rewrite Z.shiftr_div_pow2 by lia. change (2 ^ 1) with 2. rewrite <- div_half, IH by done.
  by replace (S l + m)%nat with (l + S m)%nat by lia.
Qed.

(** ** Equal siblings *)

Definition collision : Prop := exists a b c d, (a, b) <> (c, d) /\ hash2 a b = hash2 c d.

Lemma hash2_inv a b c d : hash2 a b = hash2 c d -> (a = c /\ b = d) \/ collision.
Proof.
  intros He. destruct (decide (a = c)) as [-> |]; [destruct (decide (b = d)) as [-> |] |];
    [by left | right; exists c, b, c, d; naive_solver | right; exists a, b, c, d; naive_solver].
Qed.

(** A complete subtree that equals an incomplete one contains two equal
    complete siblings. *)
Lemma full_eq_partial l : forall p q,
  0 <= p -> (p + 1) * 2 ^ Z.of_nat l <= n -> 0 <= q < width l -> n < (q + 1) * 2 ^ Z.of_nat l ->
  full l p = node l q -> has_equal_pair n \/ collision.
Proof.
  induction l as [| l IH]; intros p q Hp Hpn Hq Hqn He.
  { exfalso. rewrite width_0 in Hq. change (2 ^ Z.of_nat 0) with 1 in *. lia. }
  cbn [full node] in He. rewrite pow2_S in Hpn, Hqn. pose proof (pow2_pos l). pose proof (width_spec l).
  pose proof (width_spec (S l)) as HwS. rewrite pow2_S in HwS.
  apply hash2_inv in He as [[Hl Hr] | Hc]; [| by right].
  destruct (Z.ltb_spec (2 * q + 1) (width l)) as [Hlt | Hge].
  - apply (IH (2 * p + 1) (2 * q + 1)); try done; try lia; nia.
  - left. exists l, p. split; [done |]. split; [nia | congruence].
Qed.

(** Equal siblings reveal a mutation (or a collision). *)
Lemma siblings_equal l p :
  0 <= p -> 2 * p + 1 < width l -> node l (2 * p) = node l (2 * p + 1) -> has_equal_pair n \/ collision.
Proof.
  intros Hp Hw He. pose proof (pow2_pos l). pose proof (width_spec l).
  rewrite (node_full l (2 * p)) in He by nia.
  destruct (Z.le_gt_cases ((2 * p + 2) * 2 ^ Z.of_nat l) n) as [Hle | Hgt].
  - left. exists l, p. split; [done |]. split; [done |]. rewrite He. apply node_full; nia.
  - apply (full_eq_partial l (2 * p) (2 * p + 1)); try done; nia.
Qed.

End Tree.
(** ** Two leaf lists with one root *)

Section Binding.
Variables leaves1 leaves2 : list H.

Abbreviation bad := (has_equal_pair leaves1 (Z.of_nat (length leaves1)) \/
                     has_equal_pair leaves2 (Z.of_nat (length leaves2)) \/ collision).

(** The two trees agree at level [l]. *)
Definition same_level (l : nat) : Prop :=
  width leaves1 l = width leaves2 l /\
  forall p, 0 <= p < width leaves1 l -> node leaves1 l p = node leaves2 l p.

Lemma same_children l p :
  node leaves1 (S l) p = node leaves2 (S l) p ->
  (node leaves1 l (2 * p) = node leaves2 l (2 * p) /\
   (if 2 * p + 1 <? width leaves1 l then node leaves1 l (2 * p + 1) else node leaves1 l (2 * p)) =
   (if 2 * p + 1 <? width leaves2 l then node leaves2 l (2 * p + 1) else node leaves2 l (2 * p))) \/ collision.
Proof. cbn [node]. apply hash2_inv. Qed.

Lemma width_halves leaves l :
  width leaves l = 2 * width leaves (S l) \/ width leaves l = 2 * width leaves (S l) - 1.
Proof.
  destruct (Z.Even_or_Odd (width leaves l)) as [[k Hk] | [k Hk]].
  - left. rewrite (width_S_even leaves l k Hk). lia.
  - right. rewrite (width_S_odd leaves l k Hk). lia.
Qed.

Lemma pointwise_or_bad (P : Z -> Prop) (B : Prop) k :
  (forall p, 0 <= p < k -> P p \/ B) -> (forall p, 0 <= p < k -> P p) \/ B.
Proof.
  intros HP. destruct (Z.le_gt_cases k 0) as [Hk | Hk]; [left; intros; lia |].
  assert (forall m, (Z.of_nat m <= k) -> (forall p, 0 <= p < Z.of_nat m -> P p) \/ B) as Hall.
  { induction m as [| m IH]; intros Hm; [left; intros; lia |].
    destruct IH as [IH | IH]; [lia | | by right].
    destruct (HP (Z.of_nat m)) as [Hp | Hb]; [lia | | by right]. left. intros p Hp'.
    destruct (Z.eq_dec p (Z.of_nat m)) as [-> |]; [done | apply IH; lia]. }
  destruct (Hall (Z.to_nat k)) as [Hl | Hb]; [lia | | by right]. left. intros p Hp'. apply Hl. lia.
Qed.

Lemma same_level_down l : 0 < width leaves1 (S l) -> same_level (S l) -> same_level l \/ bad.
Proof.
  intros Hpos [Hw Hn]. set (w := width leaves1 (S l)) in *.
  destruct (pointwise_or_bad (fun p => node leaves1 l (2 * p) = node leaves2 l (2 * p) /\
     (if 2 * p + 1 <? width leaves1 l then node leaves1 l (2 * p + 1) else node leaves1 l (2 * p)) =
     (if 2 * p + 1 <? width leaves2 l then node leaves2 l (2 * p + 1) else node leaves2 l (2 * p))) collision w)
    as [Hch | Hc]; [intros p Hp; by apply same_children, Hn | | by right; right; right].
  destruct (Hch (w - 1) ltac:(lia)) as [Hl Hr].
  pose proof (width_halves leaves1 l) as H1. pose proof (width_halves leaves2 l) as H2.
  rewrite <- Hw in H2. fold w in H1.
  replace (2 * (w - 1) + 1) with (2 * w - 1) in * by lia.
  destruct H1 as [H1 | H1], H2 as [H2 | H2].
  3: { (* odd and even *)
    right. destruct (Z.ltb_spec (2 * w - 1) (width leaves1 l)); [lia |].
    destruct (Z.ltb_spec (2 * w - 1) (width leaves2 l)); [| lia].
    destruct (siblings_equal leaves2 l (w - 1)) as [? | ?]; [lia | lia | | auto | auto].
    replace (2 * (w - 1) + 1) with (2 * w - 1) by lia. congruence. }
  2: { right. destruct (Z.ltb_spec (2 * w - 1) (width leaves1 l)); [| lia].
    destruct (Z.ltb_spec (2 * w - 1) (width leaves2 l)); [lia |].
    destruct (siblings_equal leaves1 l (w - 1)) as [? | ?]; [lia | lia | | auto | auto].
    replace (2 * (w - 1) + 1) with (2 * w - 1) by lia. congruence. }
  all: left; split; [lia |]; intros p Hp; destruct (Z.Even_or_Odd p) as [[q Hq] | [q Hq]]; subst p;
    destruct (Hch q ltac:(lia)) as [Hel Her]; [exact Hel |];
    destruct (Z.ltb_spec (2 * q + 1) (width leaves1 l)); [| lia];
    destruct (Z.ltb_spec (2 * q + 1) (width leaves2 l)); [exact Her | lia].
Qed.

Lemma same_level_all l : 0 < Z.of_nat (length leaves1) -> same_level l -> same_level 0 \/ bad.
Proof.
  intros Hn. induction l as [| l IH]; intros Hs; [by left |].
  destruct (same_level_down l) as [Hl | Hb]; [| done | by apply IH | by right].
  pose proof (width_spec leaves1 (S l)). pose proof (pow2_pos (S l)). nia.
Qed.

Lemma same_level_0 : same_level 0 -> leaves1 = leaves2.
Proof.
  intros [Hw Hn]. rewrite !width_0 in Hw. rewrite width_0 in Hn.
  apply list_eq_nth with null; [lia |]. intros i Hi.
  specialize (Hn (Z.of_nat i) ltac:(lia)). cbn [node] in Hn. unfold leaf in Hn. by rewrite Nat2Z.id in Hn.
Qed.

End Binding.

End Merkle.

(** ** The theorems *)

(** C30: For 1 to 2^31 leaves the constant-space [ComputeMerkleRoot] returns
    the root of the merkle tree of the leaves, in which an odd node at the end of
    a level is paired with itself, and its mutation flag is set exactly when two
    sibling subtrees, neither of them such a copy nor containing one, are
    equal. *)
Theorem ComputeMerkleRoot_correct {H : Type} `{EqDecision H} (hash2 : H -> H -> H) (null : H) (leaves : list H) :
  0 < Z.of_nat (length leaves) <= 2 ^ 31 ->
  exists hgt mut, ComputeMerkleRoot hash2 null leaves = Some (node hash2 null leaves hgt 0, mut) /\
    is_height leaves hgt /\
    (mut = true <-> has_equal_pair hash2 null leaves (Z.of_nat (length leaves))).
Proof.
  intros Hn. destruct (MerkleComputation_spec hash2 null leaves (u32 (-1)) false Hn)
    as (hgt & mut & br & Heq & Hh & Hm & _); [vm_compute; discriminate |].
  exists hgt, mut. unfold ComputeMerkleRoot. rewrite Heq. done.
Qed.

Abbreviation example_hash2 := (fun a b : Z => (1000003 * a + 7919 * b + 17) mod 1000000007).

Lemma ComputeMerkleRoot_correct_witness :
  let leaves := [11; 12; 13; 14; 15] in
  exists hgt mut, ComputeMerkleRoot example_hash2 0 leaves = Some (node example_hash2 0 leaves hgt 0, mut) /\
    is_height leaves hgt /\ (mut = true <-> has_equal_pair example_hash2 0 leaves 5).
Proof. apply (ComputeMerkleRoot_correct example_hash2 0 [11; 12; 13; 14; 15]). cbn. lia. Defined.

(** Branches verify: for every leaf position the branch computed by
    [ComputeMerkleBranch] makes [ComputeMerkleRootFromBranch] return the root
    of [ComputeMerkleRoot], and it has one hash per level of the tree. *)
Theorem merkle_branch_verifies {H : Type} `{EqDecision H} (hash2 : H -> H -> H) (null : H)
    (leaves : list H) (position : Z) :
  0 <= position < Z.of_nat (length leaves) -> Z.of_nat (length leaves) <= 2 ^ 31 ->
  exists br mut, ComputeMerkleBranch hash2 null leaves position = Some br /\
    is_height leaves (length br) /\
    ComputeMerkleRoot hash2 null leaves =
      Some (ComputeMerkleRootFromBranch hash2 (leaf null leaves position) br position, mut).
Proof.
  intros Hp Hn.
  destruct (MerkleComputation_spec hash2 null leaves position true ltac:(lia) ltac:(lia))
    as (hgt & mut & br & Heq & Hh & _ & Hbr).
  destruct (MerkleComputation_spec hash2 null leaves (u32 (-1)) false ltac:(lia))
    as (hgt' & mut' & br' & Heq' & Hh' & _ & _); [vm_compute; discriminate |].
  rewrite (is_height_unique leaves hgt' hgt Hh' Hh) in Heq'.
  exists br, mut'. unfold ComputeMerkleBranch, ComputeMerkleRoot. rewrite Heq, Heq'. split; [done |].
  rewrite Hbr by (done || lia). split; [by unfold merkle_branch; rewrite length_map, length_seq |].
  pose proof (fold_branch hash2 null leaves position hgt 0 Hp) as Hf.
  change (2 ^ Z.of_nat 0) with 1 in Hf. rewrite Z.div_1_r in Hf. cbn [node] in Hf.
  unfold merkle_branch. cbn [mbind option_bind]. rewrite Hf. do 3 f_equal. symmetry. apply Z.div_small.
  destruct Hh as [Hw _]. pose proof (width_spec leaves hgt). cbn [Nat.add]. lia.
Qed.

(** The root commits to the leaves.  Two lists of leaves whose trees have
    the same height, that give the same root and that are both reported
    unmutated are equal, or they exhibit a collision of the hash function:
    the mutation flag rules out the duplicated-subtree ambiguity of odd
    levels.  (A function to strings of fixed length has collisions, so the
    theorem is of use for functions to a free type; [MerkleCommit.v] derives from
    it that two lists are equal when the hash tells apart the pairs that are
    hashed for them.) *)
Theorem merkle_root_binding {H : Type} `{EqDecision H} (hash2 : H -> H -> H) (null root : H)
    (leaves1 leaves2 : list H) (hgt : nat) :
  0 < Z.of_nat (length leaves1) <= 2 ^ 31 -> 0 < Z.of_nat (length leaves2) <= 2 ^ 31 ->
  is_height leaves1 hgt -> is_height leaves2 hgt ->
  ComputeMerkleRoot hash2 null leaves1 = Some (root, false) ->
  ComputeMerkleRoot hash2 null leaves2 = Some (root, false) ->
  leaves1 = leaves2 \/ collision hash2.
Proof.
  intros Hn1 Hn2 Hh1 Hh2 Hr1 Hr2.
  destruct (MerkleComputation_spec hash2 null leaves1 (u32 (-1)) false Hn1)
    as (h1 & m1 & br1 & Heq1 & Hi1 & Hm1 & _); [vm_compute; discriminate |].
  destruct (MerkleComputation_spec hash2 null leaves2 (u32 (-1)) false Hn2)
    as (h2 & m2 & br2 & Heq2 & Hi2 & Hm2 & _); [vm_compute; discriminate |].
  unfold ComputeMerkleRoot in Hr1, Hr2. rewrite Heq1 in Hr1. rewrite Heq2 in Hr2.
  injection Hr1 as Hr1 ->. injection Hr2 as Hr2 ->.
  rewrite (is_height_unique leaves1 h1 hgt Hi1 Hh1) in Hr1.
  rewrite (is_height_unique leaves2 h2 hgt Hi2 Hh2) in Hr2.
  destruct (same_level_all hash2 null leaves1 leaves2 hgt) as [Hs | [He | [He | Hc]]].
  - lia.
  - destruct Hh1 as [Hw1 _], Hh2 as [Hw2 _]. split; [congruence |].
    intros p Hp. replace p with 0 by lia. congruence.
  - left. by apply (same_level_0 hash2 null).
  - apply Hm1 in He. done.
  - apply Hm2 in He. done.
  - by right.
Qed.

