(* ===== verification/MerkleCommit.v ===== *)
(** * What a merkle root commits to

    A root fixes the leaves as far as the hash function tells apart the pairs
    that are hashed on the way ([tree_pairs]): two lists that are not reported
    as mutated and whose trees have the same height are equal, lists of the same
    length are equal without a condition on mutation, and trees of different
    heights make the first leaf of the lower one an inner node of the other. *)

From stdpp Require Import list.
From S2P Require Import Prelude Merkle.

Section Commit.
Context {H : Type} `{EqDecision H}.
Variable hash2 : H -> H -> H.
Variable null : H.
Implicit Types (leaves : list H) (l : nat) (p : Z).

Abbreviation node := (node hash2 null).

(** The pair hashed for the node above [2 p]. *)
Definition node_pair leaves l p : H * H :=
  (node leaves l (2 * p), if 2 * p + 1 <? width leaves l then node leaves l (2 * p + 1) else node leaves l (2 * p)).

Definition levels leaves : nat := Nat.log2_up (length leaves).

Definition tree_pairs leaves : list (H * H) :=
  flat_map (fun l => map (node_pair leaves l) (seqZ 0 (width leaves (S l)))) (seq 0 (levels leaves)).

(** The hash function tells apart the pairs of a list. *)
Definition injective_on (pairs : list (H * H)) : Prop :=
  forall x y, x ∈ pairs -> y ∈ pairs -> hash2 x.1 x.2 = hash2 y.1 y.2 -> x = y.

Lemma tree_pairs_elem leaves l p : (l < levels leaves)%nat -> 0 <= p < width leaves (S l) -> node_pair leaves l p ∈ tree_pairs leaves.
Proof.
  intros Hl Hp. apply list_elem_of_In, in_flat_map. exists l. split; [apply in_seq; lia |].
  apply in_map, list_elem_of_In, elem_of_seqZ. lia.
Qed.

Lemma levels_ok leaves : (0 < length leaves)%nat -> is_height leaves (levels leaves).
Proof.
  intros Hn. unfold levels. destruct (decide (length leaves = 1)%nat) as [E | Hne].
  { rewrite E. cbn. split; [by rewrite width_0, E | by left]. }
  pose proof (Nat.log2_up_spec (length leaves) ltac:(lia)) as [Hlo Hhi].
  apply inj_lt in Hlo. apply inj_le in Hhi. rewrite Nat2Z.inj_pow in Hlo, Hhi.
  split; [apply width_unique; lia |]. right.
  pose proof (width_spec leaves (pred (Nat.log2_up (length leaves)))). nia.
Qed.

Lemma root_spec leaves : 0 < Z.of_nat (length leaves) <= 2 ^ 31 ->
  exists mut, ComputeMerkleRoot hash2 null leaves = Some (node leaves (levels leaves) 0, mut) /\
    (mut = true <-> has_equal_pair hash2 null leaves (Z.of_nat (length leaves))).
Proof.
  intros Hn. destruct (MerkleComputation_spec hash2 null leaves (u32 (-1)) false Hn) as (hgt & mut & br & Heq & Hh & Hm & _);
    [vm_compute; discriminate |].
  rewrite (is_height_unique leaves hgt (levels leaves) Hh) in Heq by (apply levels_ok; lia).
  exists mut. unfold ComputeMerkleRoot. rewrite Heq. done.
Qed.

Lemma tree_pairs_Forall (P : H -> Prop) leaves : (forall a b, P (hash2 a b)) -> P null -> Forall P leaves ->
  Forall (fun x => P x.1 /\ P x.2) (tree_pairs leaves).
Proof.
  intros Hh Hnull Hl. assert (forall l p, P (node leaves l p)) as Hnode.
  { intros [| l] p; [cbn; unfold leaf; by apply Forall_nth_default | apply Hh]. }
  apply Forall_forall. intros x Hx. apply list_elem_of_In, in_flat_map in Hx as (l & _ & Hx).
  apply in_map_iff in Hx as (p & <- & _). unfold node_pair. cbn. split; [apply Hnode |]. destruct (_ <? _); apply Hnode.
Qed.

Lemma width_pos leaves l : (0 < length leaves)%nat -> 0 < width leaves l.
Proof. intros Hn. pose proof (width_spec leaves l). pose proof (pow2_pos l). nia. Qed.

Lemma width_down leaves l p : 0 <= p < width leaves (S l) -> 0 <= 2 * p < width leaves l.
Proof. intros Hp. destruct (width_halves leaves l); lia. Qed.

(** ** Lists of one length *)

Section SameLength.
Variables leaves1 leaves2 : list H.
Hypothesis same_length : length leaves1 = length leaves2.
Hypothesis inj : injective_on (tree_pairs leaves1 ++ tree_pairs leaves2).

Lemma same_width l : width leaves1 l = width leaves2 l.
Proof using same_length. unfold width. by rewrite same_length. Qed.

Lemma same_nodes_down l : (l < levels leaves1)%nat ->
  same_level hash2 null leaves1 leaves2 (S l) -> same_level hash2 null leaves1 leaves2 l.
Proof using same_length inj.
  intros Hl [_ Hn]. split; [apply same_width |].
  assert (forall p, 0 <= p < width leaves1 (S l) -> node_pair leaves1 l p = node_pair leaves2 l p) as Hp.
  { intros p Hp. apply inj; [apply elem_of_app; left | apply elem_of_app; right | by apply (Hn p)]; apply tree_pairs_elem; try done.
    - unfold levels. by rewrite <- same_length.
    - by rewrite <- same_width. }
  intros p Hr. pose proof (width_halves leaves1 l) as Hw.
  destruct (Z.Even_or_Odd p) as [[q ->] | [q ->]]; specialize (Hp q ltac:(lia)); unfold node_pair in Hp;
    rewrite <- (same_width l) in Hp; injection Hp as Hel Her; [exact Hel |].
  destruct (Z.ltb_spec (2 * q + 1) (width leaves1 l)); [done | lia].
Qed.

Lemma same_length_commits : (0 < length leaves1)%nat ->
  node leaves1 (levels leaves1) 0 = node leaves2 (levels leaves2) 0 -> leaves1 = leaves2.
Proof using same_length inj.
  intros Hn E. assert (levels leaves2 = levels leaves1) as Eh by (unfold levels; by rewrite same_length).
  rewrite Eh in E. destruct (levels_ok leaves1 Hn) as [Hw _]. apply (same_level_0 hash2 null).
  assert (forall k, (k <= levels leaves1)%nat -> same_level hash2 null leaves1 leaves2 (levels leaves1 - k)) as Hall.
  { induction k as [| k IH]; intros Hk.
    - rewrite Nat.sub_0_r. split; [apply same_width |]. intros p Hp. by replace p with 0 by lia.
    - apply same_nodes_down; [lia |]. replace (S (levels leaves1 - S k)) with (levels leaves1 - k)%nat by lia. apply IH. lia. }
  specialize (Hall (levels leaves1) ltac:(lia)). by rewrite Nat.sub_diag in Hall.
Qed.
End SameLength.

(** ** Trees of different heights *)

Section Heights.
Variables leaves1 leaves2 : list H.
Hypothesis inj : injective_on (tree_pairs leaves1 ++ tree_pairs leaves2).
Hypothesis some_leaf : (0 < length leaves1)%nat /\ (0 < length leaves2)%nat.

Lemma left_path k : (k <= levels leaves1)%nat -> (levels leaves1 <= levels leaves2)%nat ->
  node leaves1 (levels leaves1) 0 = node leaves2 (levels leaves2) 0 ->
  node leaves1 (levels leaves1 - k) 0 = node leaves2 (levels leaves2 - k) 0.
Proof using inj some_leaf.
  intros Hk Hle E. induction k as [| k IH]; [by rewrite !Nat.sub_0_r |]. specialize (IH ltac:(lia)).
  replace (levels leaves1 - k)%nat with (S (levels leaves1 - S k)) in IH by lia.
  replace (levels leaves2 - k)%nat with (S (levels leaves2 - S k)) in IH by lia.
  assert (node_pair leaves1 (levels leaves1 - S k) 0 = node_pair leaves2 (levels leaves2 - S k) 0) as Hp.
  { apply inj; [apply elem_of_app; left | apply elem_of_app; right | exact IH]; apply tree_pairs_elem; try lia;
      split; try done; apply width_pos; lia. }
  by injection Hp.
Qed.

(** The first leaf of the lower tree is an inner node of the higher one. *)
Lemma leaf_is_inner : (levels leaves1 < levels leaves2)%nat ->
  node leaves1 (levels leaves1) 0 = node leaves2 (levels leaves2) 0 ->
  exists x, x ∈ tree_pairs leaves2 /\ nth 0 leaves1 null = hash2 x.1 x.2.
Proof using inj some_leaf.
  intros Hlt E. apply (left_path (levels leaves1)) in E; [| lia | lia]. rewrite Nat.sub_diag in E.
  replace (levels leaves2 - levels leaves1)%nat with (S (levels leaves2 - levels leaves1 - 1)) in E by lia.
  exists (node_pair leaves2 (levels leaves2 - levels leaves1 - 1) 0). split; [| exact E].
  apply tree_pairs_elem; [lia |]. split; [done | apply width_pos; lia].
Qed.
End Heights.

(** ** Lists that are not reported as mutated

    A hash function that is injective on the pairs of a list extends to one
    that is injective everywhere, with formal pairs as its other values. *)

Inductive Term : Type :=
| Digest (h : H)
| Formal (a b : Term).

#[local] Instance Term_eq_dec : EqDecision Term.
Proof. solve_decision. Defined.

Definition join (pairs : list (H * H)) (a b : Term) : Term :=
  match a, b with
  | Digest x, Digest y => if decide ((x, y) ∈ pairs) then Digest (hash2 x y) else Formal a b
  | _, _ => Formal a b
  end.

Lemma join_no_collision pairs : injective_on pairs -> ~ collision (join pairs).
Proof.
  intros Hi (a & b & c & d & Hne & E).
  destruct a as [a |], b as [b |], c as [c |], d as [d |]; cbn in E; repeat case_decide; try discriminate E; try congruence.
  injection E as E. specialize (Hi (a, b) (c, d)). cbn in Hi. naive_solver.
Qed.

Lemma join_node pairs leaves l : tree_pairs leaves ⊆ pairs ->
  forall p, (l <= levels leaves)%nat -> 0 <= p < width leaves l ->
  Merkle.node (join pairs) (Digest null) (map Digest leaves) l p = Digest (node leaves l p).
Proof.
  intros Hs. induction l as [| l IH]; intros p Hl Hp; cbn [Merkle.node].
  - unfold leaf. apply map_nth.
  - assert (width (map Digest leaves) l = width leaves l) as Ew by (unfold width; by rewrite length_map).
    pose proof (width_down leaves l p Hp). rewrite Ew, IH by lia.
    replace (if 2 * p + 1 <? width leaves l then _ else _) with (Digest (node_pair leaves l p).2)
      by (unfold node_pair; cbn; destruct (Z.ltb_spec (2 * p + 1) (width leaves l)); by rewrite ?IH by lia).
    cbn [join]. rewrite decide_True; [done |]. apply (Hs (node_pair leaves l p)), tree_pairs_elem; [lia | done].
Qed.

Lemma level_below leaves l p : 0 <= p -> (2 * p + 2) * 2 ^ Z.of_nat l <= Z.of_nat (length leaves) -> (l < levels leaves)%nat.
Proof.
  intros Hp Hl. destruct (decide (l < levels leaves)%nat) as [| Hge]; [done | exfalso].
  pose proof (pow2_pos l). assert (0 < length leaves)%nat as Hn by nia. destruct (levels_ok leaves Hn) as [Hw _].
  pose proof (width_stays_1 leaves (levels leaves) (l - levels leaves) Hw) as Hw'.
  replace (levels leaves + (l - levels leaves))%nat with l in Hw' by lia. pose proof (width_spec leaves l). nia.
Qed.

Lemma join_equal_pair pairs leaves : tree_pairs leaves ⊆ pairs ->
  has_equal_pair (join pairs) (Digest null) (map Digest leaves) (Z.of_nat (length (map Digest leaves))) ->
  has_equal_pair hash2 null leaves (Z.of_nat (length leaves)).
Proof.
  intros Hs (l & p & Hp & Hl & E). rewrite length_map in Hl. exists l, p. split; [done |]. split; [done |].
  pose proof (pow2_pos l). pose proof (level_below leaves l p Hp Hl). pose proof (width_spec leaves l).
  rewrite <- !node_full in E by (rewrite ?length_map; nia). rewrite !join_node in E by (done || lia || nia).
  injection E as E. by rewrite !node_full in E by nia.
Qed.

Lemma unmutated_commits leaves1 leaves2 :
  (0 < length leaves1)%nat -> (0 < length leaves2)%nat -> levels leaves1 = levels leaves2 ->
  injective_on (tree_pairs leaves1 ++ tree_pairs leaves2) ->
  ~ has_equal_pair hash2 null leaves1 (Z.of_nat (length leaves1)) ->
  ~ has_equal_pair hash2 null leaves2 (Z.of_nat (length leaves2)) ->
  node leaves1 (levels leaves1) 0 = node leaves2 (levels leaves2) 0 -> leaves1 = leaves2.
Proof.
  intros H1 H2 Hh Hi Hm1 Hm2 E. set (pairs := tree_pairs leaves1 ++ tree_pairs leaves2) in *.
  assert (tree_pairs leaves1 ⊆ pairs) as Hs1 by (intros x Hx; apply elem_of_app; by left).
  assert (tree_pairs leaves2 ⊆ pairs) as Hs2 by (intros x Hx; apply elem_of_app; by right).
  destruct (levels_ok leaves1 H1) as [Hw1 _], (levels_ok leaves2 H2) as [Hw2 _].
  assert (forall l leaves, width (map Digest leaves) l = width leaves l) as Ew by (intros; unfold width; by rewrite length_map).
  destruct (same_level_all (join pairs) (Digest null) (map Digest leaves1) (map Digest leaves2) (levels leaves1))
    as [Hs | [He | [He | Hc]]].
  - rewrite length_map. lia.
  - split; [rewrite !Ew; congruence |]. rewrite Ew. intros p Hp. replace p with 0 by lia.
    rewrite join_node by (done || lia). rewrite Hh in *. rewrite join_node by (done || lia). by rewrite E.
  - apply same_level_0 in Hs. apply (f_equal (map (fun t => match t with Digest h => h | Formal _ _ => null end))) in Hs.
    by rewrite !map_map, !map_id in Hs.
  - by apply join_equal_pair in He.
  - by apply join_equal_pair in He.
  - by apply join_no_collision in Hc.
Qed.
End Commit.
