(* ===== verification/PartialMerkle.v ===== *)
(** * Partial merkle trees: [src/merkleblock.{h,cpp}]

    [CPartialMerkleTree] proves that a subset of the transactions belongs to
    a block.  Building it and extracting the matches again gives the merkle
    root and exactly the selected transactions (also after the flag bits
    have been packed into bytes), and an extraction that yields a known root
    authenticates every match it reports. *)

From S2P Require Import Prelude Merkle MerkleCommit.

Section PartialMerkle.
Context {H : Type} `{EqDecision H}.
Variable hash2 : H -> H -> H.
Variable null : H.

Record CPartialMerkleTree := mkPMT {
  nTransactions : Z;  (* unsigned int *)
  vBits : list bool;
  vHash : list H;
  fBad : bool
}.

(** [(nTransactions + (1 << height) - 1) >> height]. *)
Definition CalcTreeWidth (n : Z) (height : nat) : Z :=
  Z.shiftr (u32 (n + Z.shiftl 1 (Z.of_nat height) - 1)) (Z.of_nat height).

(** [while (CalcTreeWidth(nHeight) > 1) nHeight++]. *)
Fixpoint tree_height (fuel : nat) (n : Z) (nHeight : nat) : option nat :=
  if CalcTreeWidth n nHeight >? 1
  then match fuel with O => None | S fuel => tree_height fuel n (S nHeight) end
  else Some nHeight.

Fixpoint CalcHash (vTxid : list H) (height : nat) (pos : Z) : H :=
  match height with
  | O => nth (Z.to_nat pos) vTxid null
  | S height =>
      let left' := CalcHash vTxid height (u32 (pos * 2)) in
      let right' := if u32 (pos * 2 + 1) <? CalcTreeWidth (Z.of_nat (length vTxid)) height
                   then CalcHash vTxid height (u32 (pos * 2 + 1)) else left' in
      hash2 left' right'
  end.

(** The leaves [p] with [pos << height <= p < (pos + 1) << height] and
    [p < nTransactions]. *)
Definition leaves_under (n : Z) (height : nat) (pos : Z) : list nat :=
  let lo := u32 (Z.shiftl pos (Z.of_nat height)) in
  let hi := Z.min (u32 (Z.shiftl (pos + 1) (Z.of_nat height))) n in
  seq (Z.to_nat lo) (Z.to_nat (hi - lo)).

Definition ParentOfMatch (n : Z) (vMatch : list bool) (height : nat) (pos : Z) : bool :=
  existsb (fun p => nth p vMatch false) (leaves_under n height pos).

(** The bits and hashes appended for the subtree. *)
Fixpoint TraverseAndBuild (vTxid : list H) (vMatch : list bool) (height : nat) (pos : Z) :
    list bool * list H :=
  let n := Z.of_nat (length vTxid) in
  let fParentOfMatch := ParentOfMatch n vMatch height pos in
  match height with
  | O => ([fParentOfMatch], [CalcHash vTxid 0 pos])
  | S height' =>
      if negb fParentOfMatch then ([fParentOfMatch], [CalcHash vTxid height pos])
      else
        let '(bl, hl) := TraverseAndBuild vTxid vMatch height' (u32 (pos * 2)) in
        let '(br, hr) := if u32 (pos * 2 + 1) <? CalcTreeWidth n height'
                         then TraverseAndBuild vTxid vMatch height' (u32 (pos * 2 + 1))
                         else ([], []) in
        (fParentOfMatch :: bl ++ br, hl ++ hr)
  end.

(** The constructor from a list of transaction ids and a selection; [CalcHash]
    asserts that there is a transaction. *)
Definition CPartialMerkleTree_build (vTxid : list H) (vMatch : list bool) : option CPartialMerkleTree :=
  match vTxid with
  | [] => None
  | _ =>
      nHeight ← tree_height 32 (u32 (Z.of_nat (length vTxid))) 0;
      let '(bits, hashes) := TraverseAndBuild vTxid vMatch nHeight 0 in
      Some (mkPMT (u32 (Z.of_nat (length vTxid))) bits hashes false)
  end.

(** The by-reference arguments of [TraverseAndExtract]. *)
Record ExtractState := mkES {
  nBitsUsed : nat;
  nHashUsed : nat;
  es_vMatch : list H;
  vnIndex : list Z;
  es_fBad : bool
}.

Definition set_bad (st : ExtractState) : ExtractState :=
  mkES (nBitsUsed st) (nHashUsed st) (es_vMatch st) (vnIndex st) true.

(** The case of a stored hash. *)
Definition use_stored_hash (t : CPartialMerkleTree) (height : nat) (pos : Z) (fParentOfMatch : bool)
    (st : ExtractState) : H * ExtractState :=
  match vHash t !! nHashUsed st with
  | None => (null, set_bad st)
  | Some hash =>
      let m := match height with O => fParentOfMatch | S _ => false end in
      (hash, mkES (nBitsUsed st) (S (nHashUsed st))
               (if m then es_vMatch st ++ [hash] else es_vMatch st)
               (if m then vnIndex st ++ [pos] else vnIndex st) (es_fBad st))
  end.

Fixpoint TraverseAndExtract (t : CPartialMerkleTree) (height : nat) (pos : Z) (st : ExtractState) :
    H * ExtractState :=
  match vBits t !! nBitsUsed st with
  | None => (null, set_bad st)
  | Some fParentOfMatch =>
      let st := mkES (S (nBitsUsed st)) (nHashUsed st) (es_vMatch st) (vnIndex st) (es_fBad st) in
      match height with
      | O => use_stored_hash t O pos fParentOfMatch st
      | S height' =>
          if negb fParentOfMatch then use_stored_hash t height pos fParentOfMatch st
          else
            let '(left', st) := TraverseAndExtract t height' (u32 (pos * 2)) st in
            if u32 (pos * 2 + 1) <? CalcTreeWidth (nTransactions t) height' then
              let '(right', st) := TraverseAndExtract t height' (u32 (pos * 2 + 1)) st in
              (hash2 left' right', if decide (right' = left') then set_bad st else st)
            else (hash2 left' left', st)
      end
  end.

(** [ExtractMatches]: the root (null on failure), [vMatch] and [vnIndex].
    [vMatch] is cleared first; [vnIndex] keeps what the caller had put there.
    [max_tx] is [GetMaxBlockWeight() / MIN_TRANSACTION_WEIGHT]. *)
Definition ExtractMatches (max_tx : Z) (t : CPartialMerkleTree) (vnIndex0 : list Z) : option (H * list H * list Z) :=
  if nTransactions t =? 0 then Some (null, [], vnIndex0)
  else if nTransactions t >? max_tx then Some (null, [], vnIndex0)
  else if Z.of_nat (length (vHash t)) >? nTransactions t then Some (null, [], vnIndex0)
  else if (length (vBits t) <? length (vHash t))%nat then Some (null, [], vnIndex0)
  else
    nHeight ← tree_height 32 (nTransactions t) 0;
    let '(root, st) := TraverseAndExtract t nHeight 0 (mkES 0 0 [] vnIndex0 (fBad t)) in
    if es_fBad st then Some (null, es_vMatch st, vnIndex st)
    else if negb ((nBitsUsed st + 7) / 8 =? (length (vBits t) + 7) / 8)%nat
         then Some (null, es_vMatch st, vnIndex st)
    else if negb (nHashUsed st =? length (vHash t))%nat then Some (null, es_vMatch st, vnIndex st)
    else Some (root, es_vMatch st, vnIndex st).

(** The packing of [vBits] into bytes, least significant bit first. *)
Definition pack_byte (vb : list bool) (i : nat) : Z :=
  fold_left (fun acc p => Z.lor acc (Z.shiftl (if nth (8 * i + p) vb false then 1 else 0) (Z.of_nat p)))
    (seq 0 8) 0.

Definition pack_bits (vb : list bool) : list Z :=
  map (pack_byte vb) (seq 0 ((length vb + 7) / 8)).

Definition unpack_bits (vBytes : list Z) : list bool :=
  map (fun p => negb (Z.land (nth (p / 8) vBytes 0) (Z.shiftl 1 (Z.of_nat (p mod 8))) =? 0))
    (seq 0 (length vBytes * 8)).
(** ** Arithmetic of the tree *)

Section Tree.
Variable vTxid : list H.
Abbreviation n := (Z.of_nat (length vTxid)).
Abbreviation wd := (width vTxid).
Abbreviation nd := (node hash2 null vTxid).
Hypothesis Hn : n <= 2 ^ 31.

Lemma CalcTreeWidth_width h : (h <= 31)%nat -> CalcTreeWidth n h = wd h.
Proof using Hn.
  intros Hh. unfold CalcTreeWidth, width. pose proof (pow2_pos h).
  assert (2 ^ Z.of_nat h <= 2 ^ 31) by (apply Z.pow_le_mono_r; lia).
  rewrite Z.shiftl_mul_pow2, Z.mul_1_l, wrapu_small, Z.shiftr_div_pow2 by lia. done.
Qed.

(** Children of an existing node do not overflow. *)
Lemma child_bounds h pos :
  (S h <= 31)%nat -> 0 <= pos < wd (S h) ->
  u32 (pos * 2) = 2 * pos /\ u32 (pos * 2 + 1) = 2 * pos + 1 /\ 0 <= 2 * pos < wd h.
Proof using Hn.
  intros Hh Hp. pose proof (width_spec vTxid h). pose proof (pow2_pos h).
  assert (2 * pos + 1 <= wd h) by (destruct (width_halves vTxid h); lia).
  assert (wd h <= 2 ^ 31) by (pose proof (width_le vTxid h Hn ltac:(lia)); nia).
  rewrite !wrapu_small by lia. lia.
Qed.

Lemma CalcHash_node h : forall pos, (h <= 31)%nat -> 0 <= pos < wd h -> CalcHash vTxid h pos = nd h pos.
Proof using Hn.
  induction h as [| h IH]; intros pos Hh Hp; [done |]. cbn [CalcHash node].
  destruct (child_bounds h pos Hh Hp) as (-> & -> & Hc). rewrite CalcTreeWidth_width by lia.
  rewrite (IH (2 * pos)) by lia. destruct (Z.ltb_spec (2 * pos + 1) (wd h)); [| done].
  rewrite IH by lia. done.
Qed.

(** The leaves below a node. *)
Lemma leaves_under_eq h pos :
  (h <= 31)%nat -> 0 <= pos < wd h ->
  leaves_under n h pos =
  seq (Z.to_nat (pos * 2 ^ Z.of_nat h)) (Z.to_nat (Z.min ((pos + 1) * 2 ^ Z.of_nat h) n - pos * 2 ^ Z.of_nat h)).
Proof using Hn.
  intros Hh Hp. unfold leaves_under. pose proof (width_le vTxid h Hn Hh). pose proof (pow2_pos h).
  rewrite !Z.shiftl_mul_pow2, !wrapu_small by nia. done.
Qed.

Lemma leaves_under_nonempty h pos :
  (h <= 31)%nat -> 0 <= pos < wd h -> (1 <= length (leaves_under n h pos))%nat.
Proof using Hn.
  intros Hh Hp. rewrite leaves_under_eq, length_seq by done.
  pose proof (width_spec vTxid h). pose proof (pow2_pos h). nia.
Qed.

Lemma leaves_under_S h pos :
  (S h <= 31)%nat -> 0 <= pos < wd (S h) ->
  leaves_under n (S h) pos =
  leaves_under n h (2 * pos) ++ (if 2 * pos + 1 <? wd h then leaves_under n h (2 * pos + 1) else []).
Proof using Hn.
  intros Hh Hp. destruct (child_bounds h pos Hh Hp) as (_ & _ & Hc).
  pose proof (width_spec vTxid h) as Hw. pose proof (pow2_pos h) as H0.
  rewrite !leaves_under_eq by lia. rewrite pow2_S. set (P := 2 ^ Z.of_nat h) in *.
  replace (pos * (2 * P)) with (2 * pos * P) by ring. replace ((pos + 1) * (2 * P)) with ((2 * pos + 2) * P) by ring.
  destruct (Z.ltb_spec (2 * pos + 1) (wd h)) as [Hlt | Hge].
  - rewrite leaves_under_eq by lia. fold P. replace (2 * pos + 1 + 1) with (2 * pos + 2) by lia.
    rewrite (Z.min_l ((2 * pos + 1) * P)) by nia.
    replace (Z.to_nat ((2 * pos + 1) * P)) with (Z.to_nat (2 * pos * P) + Z.to_nat ((2 * pos + 1) * P - 2 * pos * P))%nat by nia.
    rewrite <- seq_app. f_equal. nia.
  - rewrite app_nil_r. do 2 f_equal. nia.
Qed.

(** The selected leaves below a node. *)
Definition selected (vMatch : list bool) (h : nat) (pos : Z) : list nat :=
  List.filter (fun p => nth p vMatch false) (leaves_under n h pos).

Lemma selected_S vMatch h pos :
  (S h <= 31)%nat -> 0 <= pos < wd (S h) ->
  selected vMatch (S h) pos =
  selected vMatch h (2 * pos) ++ (if 2 * pos + 1 <? wd h then selected vMatch h (2 * pos + 1) else []).
Proof using Hn.
  intros Hh Hp. unfold selected. rewrite leaves_under_S, List.filter_app by done.
  by destruct (2 * pos + 1 <? wd h).
Qed.

Lemma not_parent_selected vMatch h pos :
  ParentOfMatch n vMatch h pos = false -> selected vMatch h pos = [].
Proof.
  unfold ParentOfMatch, selected. induction (leaves_under n h pos) as [| p l IH]; [done |].
  cbn. destruct (nth p vMatch false); [done | exact IH].
Qed.

(** ** Building and extracting *)

(** No two existing siblings are equal, as for distinct transactions. *)
Definition distinct_siblings : Prop :=
  forall h p, 0 <= p -> 2 * p + 1 < wd h -> nd h (2 * p) <> nd h (2 * p + 1).

Lemma build_sizes vMatch h : forall pos, (h <= 31)%nat -> 0 <= pos < wd h ->
  let '(bs, hs) := TraverseAndBuild vTxid vMatch h pos in
  (1 <= length hs <= length (leaves_under n h pos))%nat /\ (length hs <= length bs)%nat.
Proof using Hn.
  induction h as [| h IH]; intros pos Hh Hp; cbn [TraverseAndBuild];
    pose proof (leaves_under_nonempty _ pos Hh Hp) as Hne; [cbn; lia |].
  destruct (ParentOfMatch _ vMatch (S h) pos); cbn [negb]; [| cbn; lia].
  destruct (child_bounds h pos Hh Hp) as (-> & -> & Hc). rewrite CalcTreeWidth_width by lia.
  rewrite leaves_under_S by done. pose proof (IH (2 * pos) ltac:(lia) ltac:(lia)) as IHl.
  destruct (TraverseAndBuild vTxid vMatch h (2 * pos)) as [bl hl].
  destruct (Z.ltb_spec (2 * pos + 1) (wd h)).
  - pose proof (IH (2 * pos + 1) ltac:(lia) ltac:(lia)) as IHr.
    destruct (TraverseAndBuild vTxid vMatch h (2 * pos + 1)) as [br hr]. cbn. rewrite !length_app. lia.
  - cbn. rewrite !app_nil_r. lia.
Qed.

(** What extracting the encoding of a subtree does to the state. *)
Definition extracted (vMatch : list bool) (h : nat) (pos : Z) (bs : list bool) (hs : list H)
    (st : ExtractState) : ExtractState :=
  mkES (nBitsUsed st + length bs) (nHashUsed st + length hs)
    (es_vMatch st ++ map (fun p => leaf null vTxid (Z.of_nat p)) (selected vMatch h pos))
    (vnIndex st ++ map Z.of_nat (selected vMatch h pos)) (es_fBad st).

Lemma drop_lookup {A} (l : list A) k x rest : drop k l = x :: rest -> l !! k = Some x.
Proof. intros Hd. rewrite <- (Nat.add_0_r k), <- lookup_drop, Hd. done. Qed.

Lemma drop_more {A} (l : list A) k pre rest : drop k l = pre ++ rest -> drop (k + length pre) l = rest.
Proof. intros Hd. rewrite <- drop_drop, Hd. apply drop_app_length. Qed.

Lemma selected_0 vMatch pos :
  0 <= pos < wd 0 -> selected vMatch 0 pos = if ParentOfMatch n vMatch 0 pos then [Z.to_nat pos] else [].
Proof using Hn.
  intros Hp. unfold selected, ParentOfMatch. rewrite leaves_under_eq by lia.
  rewrite width_0 in Hp. change (2 ^ Z.of_nat 0) with 1. rewrite !Z.mul_1_r, Z.min_l by lia.
  replace (Z.to_nat (pos + 1 - pos)) with 1%nat by lia. cbn. by destruct (nth (Z.to_nat pos) vMatch false).
Qed.

Lemma extract_build vMatch t : distinct_siblings -> nTransactions t = n ->
  forall h pos st bs hs restb resth, (h <= 31)%nat -> 0 <= pos < wd h ->
  TraverseAndBuild vTxid vMatch h pos = (bs, hs) ->
  drop (nBitsUsed st) (vBits t) = bs ++ restb -> drop (nHashUsed st) (vHash t) = hs ++ resth ->
  TraverseAndExtract t h pos st = (nd h pos, extracted vMatch h pos bs hs st).
Proof using Hn.
  intros Hdist Hnt. induction h as [| h IH]; intros pos st bs hs restb resth Hh Hp Hb Hdb Hdh.
  - cbn [TraverseAndBuild] in Hb. injection Hb as <- <-. cbn [TraverseAndExtract].
    rewrite (drop_lookup _ _ _ _ Hdb). unfold use_stored_hash. cbn [nHashUsed].
    rewrite (drop_lookup _ _ _ _ Hdh). unfold extracted. rewrite selected_0 by done.
    cbn [nBitsUsed es_vMatch vnIndex es_fBad length]. rewrite !Nat.add_1_r.
    destruct (ParentOfMatch n vMatch 0 pos); cbn [map]; rewrite ?app_nil_r; [| done].
    rewrite Z2Nat.id by lia. done.
  - cbn [TraverseAndBuild] in Hb. cbn [TraverseAndExtract].
    destruct (ParentOfMatch n vMatch (S h) pos) eqn:Hpm; cbn [negb] in Hb.
    + destruct (child_bounds h pos Hh Hp) as (Hu1 & Hu2 & Hc). rewrite Hu1, Hu2 in Hb |- *.
      rewrite CalcTreeWidth_width in Hb by lia. rewrite Hnt, CalcTreeWidth_width by lia.
      destruct (TraverseAndBuild vTxid vMatch h (2 * pos)) as [bl hl] eqn:Hbl. cbn [node].
      unfold extracted. rewrite selected_S by done.
      destruct (Z.ltb_spec (2 * pos + 1) (wd h)) as [Hlt | Hge].
      * destruct (TraverseAndBuild vTxid vMatch h (2 * pos + 1)) as [br hr] eqn:Hbr.
        injection Hb as <- <-. cbn [app] in Hdb. rewrite (drop_lookup _ _ _ _ Hdb). cbn [negb].
        apply (drop_more _ _ [_]) in Hdb. cbn [length] in Hdb. rewrite <- !app_assoc in Hdb, Hdh.
        rewrite Nat.add_1_r in Hdb.
        rewrite (IH (2 * pos) _ bl hl (br ++ restb) (hr ++ resth)) by (done || lia).
        rewrite (IH (2 * pos + 1) _ br hr restb resth); [| lia | lia | done | by apply drop_more | by apply drop_more].
        rewrite decide_False by (intros He; by apply (Hdist h pos); [lia | lia | symmetry]).
        unfold extracted. cbn [nBitsUsed nHashUsed es_vMatch vnIndex es_fBad length].
        rewrite !length_app, !map_app, !app_assoc. f_equal. f_equal; lia.
      * injection Hb as <- <-. cbn [app] in Hdb. rewrite (drop_lookup _ _ _ _ Hdb). cbn [negb].
        apply (drop_more _ _ [_]) in Hdb. cbn [length] in Hdb. rewrite !app_nil_r in Hdb, Hdh.
        rewrite Nat.add_1_r in Hdb.
        rewrite (IH (2 * pos) _ bl hl restb resth) by (done || lia).
        unfold extracted. cbn [nBitsUsed nHashUsed es_vMatch vnIndex es_fBad length].
        rewrite !app_nil_r. f_equal. f_equal. lia.
    + injection Hb as <- <-. rewrite (drop_lookup _ _ _ _ Hdb). cbn [negb]. unfold use_stored_hash.
      cbn [nHashUsed]. rewrite (drop_lookup _ _ _ _ Hdh).
      change (hash2 (CalcHash vTxid h (u32 (pos * 2)))
        (if u32 (pos * 2 + 1) <? CalcTreeWidth n h then CalcHash vTxid h (u32 (pos * 2 + 1))
         else CalcHash vTxid h (u32 (pos * 2)))) with (CalcHash vTxid (S h) pos).
      rewrite CalcHash_node by done. unfold extracted. rewrite not_parent_selected by done.
      cbn [map]. rewrite !app_nil_r. cbn [nBitsUsed es_vMatch vnIndex es_fBad length]. by rewrite !Nat.add_1_r.
Qed.

Lemma tree_height_spec fuel : forall l,
  0 < n -> (l <= 31)%nat -> (32 <= fuel + l)%nat -> (l = 0%nat \/ 2 <= wd (pred l)) ->
  exists h, tree_height fuel n l = Some h /\ is_height vTxid h /\ (h <= 31)%nat.
Proof using Hn.
  induction fuel as [| fuel IH]; intros l H0 Hl Hf Hmin; [lia |]. cbn [tree_height].
  rewrite CalcTreeWidth_width, Z.gtb_ltb by lia. pose proof (width_spec vTxid l). pose proof (pow2_pos l).
  destruct (Z.ltb_spec 1 (wd l)) as [Hw | Hw].
  - assert (l <= 30)%nat by (apply (width_ge2_level vTxid); lia). apply IH; try lia. right. cbn [pred]. lia.
  - exists l. split; [done |]. split; [split; [nia | done] | lia].
Qed.

(** Extraction from a built tree whose flag bits have been padded to whole
    bytes. *)
Lemma extract_padded vMatch max_tx hgt bs hs pad :
  distinct_siblings -> 0 < n <= max_tx -> is_height vTxid hgt -> (hgt <= 31)%nat ->
  tree_height 32 n 0 = Some hgt -> TraverseAndBuild vTxid vMatch hgt 0 = (bs, hs) ->
  (length hs <= length vTxid)%nat -> (length hs <= length bs)%nat ->
  ((length bs + 7) / 8 = (length (bs ++ pad) + 7) / 8)%nat ->
  ExtractMatches max_tx (mkPMT n (bs ++ pad) hs false) [] =
  Some (nd hgt 0, map (fun p => leaf null vTxid (Z.of_nat p)) (selected vMatch hgt 0),
        map Z.of_nat (selected vMatch hgt 0)).
Proof using Hn.
  intros Hd H0 Hh Hle Hth Hb Hs1 Hs2 Hpad. unfold ExtractMatches. cbn [nTransactions vBits vHash fBad].
  rewrite !Z.gtb_ltb. destruct (Z.eqb_spec n 0) as [| Hne]; [lia |].
  destruct (Z.ltb_spec max_tx n); [lia |].
  destruct (Z.ltb_spec n (Z.of_nat (length hs))); [lia |].
  destruct (Nat.ltb_spec (length (bs ++ pad)) (length hs)); [rewrite length_app in *; lia |].
  rewrite Hth. cbn [mbind option_bind].
  rewrite (extract_build vMatch (mkPMT n (bs ++ pad) hs false) Hd eq_refl hgt 0 _ bs hs pad []); try done.
  - unfold extracted. cbn [es_fBad nBitsUsed nHashUsed es_vMatch vnIndex app Nat.add].
    rewrite <- Hpad, !Nat.eqb_refl. done.
  - destruct Hh as [-> _]. lia.
  - by rewrite app_nil_r.
Qed.

(** ** Soundness of the extraction *)

(** The matches [ms] at the indices [idx] are leaves of the tree. *)
Definition authentic (ms : list H) (idx : list Z) : Prop :=
  Forall2 (fun m i => 0 <= i < n /\ leaf null vTxid i = m) ms idx.

(** The pairs that a traversal hashes. *)
Fixpoint traversed_pairs (t : CPartialMerkleTree) (height : nat) (pos : Z) (st : ExtractState) : list (H * H) :=
  match height, vBits t !! nBitsUsed st with
  | S height', Some true =>
      let st := mkES (S (nBitsUsed st)) (nHashUsed st) (es_vMatch st) (vnIndex st) (es_fBad st) in
      let '(left', st1) := TraverseAndExtract t height' (u32 (pos * 2)) st in
      traversed_pairs t height' (u32 (pos * 2)) st ++
      (if u32 (pos * 2 + 1) <? CalcTreeWidth (nTransactions t) height' then
         traversed_pairs t height' (u32 (pos * 2 + 1)) st1 ++
         [(left', fst (TraverseAndExtract t height' (u32 (pos * 2 + 1)) st1))]
       else [(left', left')])
  | _, _ => []
  end.

(** The hash function tells the pairs of the traversal from those of the
    tree. *)
Definition tells_apart (pairs : list (H * H)) : Prop :=
  forall x y, x ∈ pairs -> y ∈ tree_pairs hash2 null vTxid -> hash2 x.1 x.2 = hash2 y.1 y.2 -> x = y.

Lemma tells_apart_app l k : tells_apart (l ++ k) -> tells_apart l /\ tells_apart k.
Proof. intros Ht. split; intros x y Hx; apply Ht; apply elem_of_app; auto. Qed.

(** A subtree whose computed hash is the node of the tree reports leaves of
    the tree only. *)
Lemma extract_authentic t : nTransactions t = n ->
  forall h pos st hash st', (h <= 31)%nat -> (h <= levels vTxid)%nat -> 0 <= pos < wd h ->
  tells_apart (traversed_pairs t h pos st) ->
  TraverseAndExtract t h pos st = (hash, st') -> hash = nd h pos ->
  exists ms idx, es_vMatch st' = es_vMatch st ++ ms /\ vnIndex st' = vnIndex st ++ idx /\ authentic ms idx.
Proof using Hn.
  intros Hnt.
  assert (forall st st', es_vMatch st' = es_vMatch st -> vnIndex st' = vnIndex st ->
    exists ms idx, es_vMatch st' = es_vMatch st ++ ms /\ vnIndex st' = vnIndex st ++ idx /\ authentic ms idx) as Hnone.
  { intros st st' H1 H2. exists [], []. rewrite !app_nil_r. repeat split; try done. constructor. }
  induction h as [| h IH]; intros pos st hash st' Hh Hlv Hp Hta He Hhash; cbn [TraverseAndExtract] in He.
  - destruct (vBits t !! nBitsUsed st) as [b |]; [| injection He as <- <-; by apply Hnone].
    unfold use_stored_hash in He. cbn [nHashUsed] in He.
    destruct (vHash t !! nHashUsed st) as [hs |]; [| injection He as <- <-; by apply Hnone].
    injection He as -> <-. destruct b; [| by apply Hnone]. exists [hash], [pos].
    split; [done |]. split; [done |]. constructor; [| constructor]. rewrite width_0 in Hp.
    split; [done |]. by rewrite Hhash.
  - cbn [traversed_pairs] in Hta. destruct (vBits t !! nBitsUsed st) as [b |]; [| injection He as <- <-; by apply Hnone].
    destruct b; cbn [negb] in He.
    2:{ unfold use_stored_hash in He. cbn [nHashUsed] in He.
        destruct (vHash t !! nHashUsed st) as [hs |]; injection He as _ <-; by apply Hnone. }
    destruct (child_bounds h pos Hh Hp) as (Hu1 & Hu2 & Hc). rewrite Hu1, Hu2 in He, Hta.
    rewrite Hnt, CalcTreeWidth_width in He, Hta by lia. cbn [node] in Hhash.
    pose proof (tree_pairs_elem hash2 null vTxid h pos ltac:(lia) Hp) as Hpair. unfold node_pair in Hpair.
    set (st0 := mkES _ _ _ _ _) in He, Hta.
    destruct (TraverseAndExtract t h (2 * pos) st0) as [lh st1] eqn:Hl. apply tells_apart_app in Hta as [Hta1 Hta].
    destruct (Z.ltb_spec (2 * pos + 1) (wd h)) as [Hlt | Hge].
    + destruct (TraverseAndExtract t h (2 * pos + 1) st1) as [rh st2] eqn:Hr. apply tells_apart_app in Hta as [Hta2 Hta].
      injection He as <- <-. cbn [fst] in Hta.
      pose proof (Hta (lh, rh) _ (list_elem_of_here _ _) Hpair Hhash) as E. injection E as Hlh Hrh.
      destruct (IH (2 * pos) st0 lh st1 ltac:(lia) ltac:(lia) ltac:(lia) Hta1 Hl Hlh) as (ms1 & is1 & Hm1 & Hi1 & Ha1).
      destruct (IH (2 * pos + 1) st1 rh st2 ltac:(lia) ltac:(lia) ltac:(lia) Hta2 Hr Hrh) as (ms2 & is2 & Hm2 & Hi2 & Ha2).
      exists (ms1 ++ ms2), (is1 ++ is2). rewrite !app_assoc. rewrite Hm1 in Hm2. rewrite Hi1 in Hi2.
      split; [by destruct (decide (rh = lh)) |]. split; [by destruct (decide (rh = lh)) |].
      by apply Forall2_app.
    + injection He as <- <-.
      pose proof (Hta (lh, lh) _ (list_elem_of_here _ _) Hpair Hhash) as E. injection E as Hlh _.
      exact (IH (2 * pos) st0 lh st1 ltac:(lia) ltac:(lia) ltac:(lia) Hta1 Hl Hlh).
Qed.

End Tree.

(** ** Packing of the flag bits *)

Lemma testbit_bool_shiftl (b : bool) p j : 0 <= j ->
  Z.testbit (Z.shiftl (if b then 1 else 0) (Z.of_nat p)) j = b && (j =? Z.of_nat p).
Proof.
  intros Hj. rewrite Z.shiftl_spec by done. destruct b; [| by rewrite Z.bits_0].
  change 1 with (2 ^ 0). destruct (Z.eqb_spec j (Z.of_nat p)) as [-> | Hne].
  - by rewrite Z.sub_diag.
  - by apply Z.pow2_bits_false; lia.
Qed.

Lemma testbit_pack vb i l j : forall acc, 0 <= j ->
  Z.testbit (fold_left (fun acc p => Z.lor acc
    (Z.shiftl (if nth (8 * i + p) vb false then 1 else 0) (Z.of_nat p))) l acc) j =
  Z.testbit acc j || existsb (fun p => nth (8 * i + p) vb false && (j =? Z.of_nat p)) l.
Proof.
  induction l as [| p l IH]; intros acc Hj; cbn [fold_left existsb]; [by rewrite orb_false_r |].
  rewrite IH, Z.lor_spec, testbit_bool_shiftl by done. by rewrite orb_assoc.
Qed.

Lemma testbit_pack_byte vb i j : (j < 8)%nat -> Z.testbit (pack_byte vb i) (Z.of_nat j) = nth (8 * i + j) vb false.
Proof.
  intros Hj. unfold pack_byte. rewrite testbit_pack, Z.bits_0 by lia. cbn [orb].
  destruct (existsb _ _) eqn:He.
  - apply existsb_exists in He as (p & _ & [Hb Hp%Z.eqb_eq]%andb_true_iff).
    replace j with p by lia. by rewrite Hb.
  - destruct (nth (8 * i + j) vb false) eqn:Hb; [| done]. rewrite <- He. apply existsb_exists.
    exists j. split; [apply in_seq; lia |]. by rewrite Hb, Z.eqb_refl.
Qed.

Lemma padded_bytes k : ((k + 7) / 8 = (k + (8 * ((k + 7) / 8) - k) + 7) / 8)%nat.
Proof.
  pose proof (Nat.div_mod_eq (k + 7) 8). pose proof (Nat.mod_upper_bound (k + 7) 8).
  apply Nat.div_unique with 7%nat; lia.
Qed.

(** Unpacking restores the bits, padded to whole bytes. *)
Lemma unpack_pack_bits vb :
  unpack_bits (pack_bits vb) = vb ++ replicate (8 * ((length vb + 7) / 8) - length vb) false.
Proof.
  assert (length vb <= 8 * ((length vb + 7) / 8))%nat as Hk
    by (pose proof (Nat.div_mod_eq (length vb + 7) 8); pose proof (Nat.mod_upper_bound (length vb + 7) 8); lia).
  assert (length (pack_bits vb) = ((length vb + 7) / 8)%nat) as Hlen
    by (unfold pack_bits; by rewrite length_map, length_seq).
  set (k := ((length vb + 7) / 8)%nat) in *. unfold unpack_bits. rewrite Hlen.
  apply list_eq_nth with false; [rewrite length_map, length_seq, length_app, length_replicate; lia |].
  rewrite length_map, length_seq. intros p Hp. rewrite nth_map_seq by done.
  rewrite Z.shiftl_mul_pow2, Z.mul_1_l, land_pow2_testbit by lia.
  assert (p / 8 < k)%nat as Hq by (apply Nat.Div0.div_lt_upper_bound; lia).
  unfold pack_bits. fold k. rewrite nth_map_seq by done.
  rewrite testbit_pack_byte by (apply Nat.mod_upper_bound; lia).
  rewrite <- Nat.div_mod_eq. destruct (Nat.lt_ge_cases p (length vb)) as [Hlt | Hge].
  - by rewrite app_nth1.
  - rewrite app_nth2, nth_overflow by lia. symmetry. destruct (Nat.lt_ge_cases (p - length vb) (8 * k - length vb)).
    + by rewrite nth_lookup, lookup_replicate_2.
    + rewrite nth_overflow; [done | rewrite length_replicate; lia].
Qed.

End PartialMerkle.

(** ** The theorems *)

(** Round trip of partial merkle trees.  For every block (of distinct
    transactions, so that no two sibling nodes are equal) and every selection,
    the tree that is built, also after its flag bits have been packed into
    bytes and unpacked again, passes all checks of [ExtractMatches], which
    returns the merkle root and exactly the selected transactions with their
    positions in order. *)
Theorem partial_merkle_roundtrip {H : Type} `{EqDecision H} (hash2 : H -> H -> H) (null : H)
    (vTxid : list H) (vMatch : list bool) (max_tx : Z) :
  0 < Z.of_nat (length vTxid) <= 2 ^ 31 -> Z.of_nat (length vTxid) <= max_tx ->
  distinct_siblings hash2 null vTxid ->
  exists t hgt, CPartialMerkleTree_build hash2 null vTxid vMatch = Some t /\ is_height vTxid hgt /\
    let sel := List.filter (fun p => nth p vMatch false) (seq 0 (length vTxid)) in
    let expected := Some (node hash2 null vTxid hgt 0,
                          map (fun p => leaf null vTxid (Z.of_nat p)) sel, map Z.of_nat sel) in
    ExtractMatches hash2 null max_tx t [] = expected /\
    ExtractMatches hash2 null max_tx
      (mkPMT (nTransactions t) (unpack_bits (pack_bits (vBits t))) (vHash t) (fBad t)) [] = expected.
Proof.
  intros Hn Hmax Hd. destruct (tree_height_spec vTxid ltac:(lia) 32 0) as (hgt & Hth & Hh & Hle); try lia.
  unfold CPartialMerkleTree_build. destruct vTxid as [| x0 rest] eqn:Hv; [cbn in Hn; lia |].
  rewrite <- Hv in *. clear x0 rest Hv. rewrite wrapu_small, Hth by lia. cbn [mbind option_bind].
  destruct (TraverseAndBuild hash2 null vTxid vMatch hgt 0) as [bs hs] eqn:Hb.
  eexists _, hgt. split; [reflexivity |]. split; [done |].
  assert (0 <= 0 < width vTxid hgt) as H0 by (destruct Hh as [-> _]; lia).
  pose proof (build_sizes hash2 null vTxid ltac:(lia) vMatch hgt 0 Hle H0) as Hsz. rewrite Hb in Hsz.
  assert (leaves_under (Z.of_nat (length vTxid)) hgt 0 = seq 0 (length vTxid)) as Hall.
  { rewrite leaves_under_eq by (done || lia). destruct Hh as [Hw _]. pose proof (width_spec vTxid hgt) as Hws.
    rewrite Hw in Hws. rewrite Z.mul_0_l, Z.min_r, Z.sub_0_r, Nat2Z.id by lia. done. }
  rewrite Hall, length_seq in Hsz. cbn [nTransactions vBits vHash fBad].
  split; [pose proof (extract_padded hash2 null vTxid ltac:(lia) vMatch max_tx hgt bs hs []) as He
         | rewrite unpack_pack_bits;
           pose proof (extract_padded hash2 null vTxid ltac:(lia) vMatch max_tx hgt bs hs
             (replicate (8 * ((length bs + 7) / 8) - length bs) false)) as He];
    rewrite ?app_nil_r in He; unfold selected in He; rewrite Hall in He;
    apply He; try done; try lia; rewrite length_app, length_replicate; apply padded_bytes.
Qed.

(** What the peer claims about the number of transactions is not checked: a
    tree of one transaction reports the root of any block as a match. *)
Lemma root_as_transaction {H : Type} `{EqDecision H} (hash2 : H -> H -> H) (null root : H) (max_tx : Z) :
  0 < max_tx -> ExtractMatches hash2 null max_tx (mkPMT 1 [true] [root] false) [] = Some (root, [root], [0]).
Proof.
  intros Hm. unfold ExtractMatches. cbn [nTransactions vBits vHash fBad]. rewrite Z.gtb_ltb.
  destruct (Z.ltb_spec max_tx 1); [lia |]. reflexivity.
Qed.

(** C32: Partial merkle trees authenticate.  Whatever bits and hashes a peer
    sends along with the true number of transactions of a block, if extraction
    yields the (non-null) merkle root of the block, then every reported match
    is the transaction at the reported position of that block, provided the
    hash function tells the pairs hashed by the extraction from the pairs of
    the block's tree.  (The number of transactions is not checked by the code;
    [root_as_transaction] shows what a wrong number does.) *)
Theorem ExtractMatches_authentic {H : Type} `{EqDecision H} (hash2 : H -> H -> H) (null root : H)
    (vTxid : list H) (mut : bool) (t : CPartialMerkleTree) (max_tx : Z) (ms : list H) (idx : list Z) :
  0 < Z.of_nat (length vTxid) <= 2 ^ 31 -> nTransactions t = Z.of_nat (length vTxid) ->
  ComputeMerkleRoot hash2 null vTxid = Some (root, mut) -> root <> null ->
  tells_apart hash2 null vTxid (traversed_pairs hash2 null t (levels vTxid) 0 (mkES 0 0 [] [] (fBad t))) ->
  ExtractMatches hash2 null max_tx t [] = Some (root, ms, idx) ->
  Forall2 (fun m i => 0 <= i < Z.of_nat (length vTxid) /\ leaf null vTxid i = m) ms idx.
Proof.
  intros Hn Hnt Hroot Hnn Hta He.
  destruct (MerkleComputation_spec hash2 null vTxid (u32 (-1)) false Hn)
    as (hgt & m & br & Heq & Hh & _ & _); [vm_compute; discriminate |].
  unfold ComputeMerkleRoot in Hroot. rewrite Heq in Hroot. injection Hroot as <- _.
  destruct (tree_height_spec vTxid ltac:(lia) 32 0) as (hgt' & Hth & Hh' & Hle); try lia.
  rewrite (is_height_unique vTxid hgt' hgt Hh' Hh) in *. unfold ExtractMatches in He. rewrite Hnt, Hth in He.
  rewrite (is_height_unique vTxid (levels vTxid) hgt (levels_ok vTxid ltac:(lia)) Hh) in Hta.
  repeat match type of He with
    (if ?b then _ else _) = _ => destruct b; [injection He as Hc _ _; congruence |] end.
  cbn [mbind option_bind] in He.
  destruct (TraverseAndExtract hash2 null t hgt 0 _) as [r st] eqn:Ht.
  repeat match type of He with
    (if ?b then _ else _) = _ => destruct b; [injection He as Hc _ _; congruence |] end.
  injection He as Hr <- <-.
  destruct (extract_authentic hash2 null vTxid ltac:(lia) t Hnt hgt 0 _ _ _ Hle
    ltac:(by rewrite (is_height_unique vTxid (levels vTxid) hgt (levels_ok vTxid ltac:(lia)) Hh))
    ltac:(destruct Hh as [-> _]; lia) Hta Ht Hr) as (ms & idx & Hm & Hi & Ha).
  cbn in Hm, Hi. rewrite Hm, Hi. exact Ha.
Qed.

Lemma ExtractMatches_authentic_witness :
  Forall2 (fun m i => 0 <= i < 3 /\ leaf 0 [11; 12; 13] i = m) [13] [2].
Proof.
  apply (ExtractMatches_authentic example_hash2 0
           (example_hash2 (example_hash2 11 12) (example_hash2 13 13)) [11; 12; 13] false
           (mkPMT 3 [true; false; true; true; false; false; false; false] [example_hash2 11 12; 13] false) 1000).
  - cbn. lia.
  - reflexivity.
  - vm_compute. reflexivity.
  - vm_compute. discriminate.
  - intros x y Hx Hy. rewrite list_elem_of_In in Hx, Hy. vm_compute in Hx, Hy.
    destruct Hx as [<- | [<- | []]], Hy as [<- | [<- | [<- | []]]]; vm_compute; intros E; congruence.
  - vm_compute. reflexivity.
Defined.
