(* ===== verification/VersionBits.v ===== *)
(** * Version-bits deployments: [src/versionbits.{h,cpp}]

    The threshold state machine of BIP 9 as a step relation, and the cached
    computation [GetStateFor] of the state of a block, proved to return the
    state of the relation whatever coherent cache it starts from. *)

From stdpp Require Import gmap.
From S2P Require Import Prelude ArithUint256 Compact Chain ActiveChain MedianTime.

(** ** Data *)

Inductive ThresholdState :=
| THRESHOLD_DEFINED
| THRESHOLD_STARTED
| THRESHOLD_LOCKED_IN
| THRESHOLD_ACTIVE
| THRESHOLD_FAILED.

#[export] Instance ThresholdState_eq_dec : EqDecision ThresholdState.
Proof. solve_decision. Defined.

(** The virtual functions of [AbstractThresholdConditionChecker]. *)
Record ThresholdChecker := mkChecker {
  Condition : CBlockIndex -> bool;
  BeginTime : Z;   (* int64_t *)
  EndTime : Z;     (* int64_t *)
  Period : Z;      (* int *)
  Threshold : Z    (* int *)
}.

(** Keyed by the parent of the first block of a period. *)
Abbreviation ThresholdConditionCache := (gmap (option ptr) ThresholdState).

Record BIP9Stats := mkStats {
  period : Z;
  threshold : Z;
  elapsed : Z;
  count : Z;
  possible : bool
}.

Section Checker.
Variable m : gmap ptr CBlockIndex.
Variable chk : ThresholdChecker.

(** The last block of the period before the one that follows [p]:
    [GetAncestor(nHeight - ((nHeight + 1) % nPeriod))]. *)
Definition period_parent (p : ptr) : option (option ptr) :=
  b ← m !! p;
  GetAncestor m p (nHeight b - Z.rem (nHeight b + 1) (Period chk)).

(** Counting signalling blocks backwards; [None] is a null dereference. *)
Fixpoint count_signals (n : nat) (pindexCount : option ptr) : option Z :=
  match n with
  | O => Some 0
  | S n =>
      p ← pindexCount;
      b ← m !! p;
      rest ← count_signals n (pprev b);
      Some ((if Condition chk b then 1 else 0) + rest)
  end.

(** The [switch] of the forward walk. *)
Definition next_state (pindexPrev : ptr) (state : ThresholdState) : option ThresholdState :=
  match state with
  | THRESHOLD_DEFINED =>
      t ← GetMedianTimePast m pindexPrev;
      Some (if t >=? EndTime chk then THRESHOLD_FAILED
            else if t >=? BeginTime chk then THRESHOLD_STARTED else THRESHOLD_DEFINED)
  | THRESHOLD_STARTED =>
      t ← GetMedianTimePast m pindexPrev;
      if t >=? EndTime chk then Some THRESHOLD_FAILED
      else
        c ← count_signals (Z.to_nat (Period chk)) (Some pindexPrev);
        Some (if c >=? Threshold chk then THRESHOLD_LOCKED_IN else THRESHOLD_STARTED)
  | THRESHOLD_LOCKED_IN => Some THRESHOLD_ACTIVE
  | THRESHOLD_FAILED => Some THRESHOLD_FAILED
  | THRESHOLD_ACTIVE => Some THRESHOLD_ACTIVE
  end.

(** The backward walk: the stack [vToCompute] (its back first), the block
    where it stopped, and the cache. *)
Fixpoint walk_back (fuel : nat) (pindexPrev : option ptr) (vToCompute : list ptr)
    (cache : ThresholdConditionCache) : option (list ptr * option ptr * ThresholdConditionCache) :=
  match cache !! pindexPrev with
  | Some _ => Some (vToCompute, pindexPrev, cache)
  | None =>
      match pindexPrev with
      | None => Some (vToCompute, None, <[None := THRESHOLD_DEFINED]> cache)
      | Some p =>
          t ← GetMedianTimePast m p;
          if t <? BeginTime chk then Some (vToCompute, Some p, <[Some p := THRESHOLD_DEFINED]> cache)
          else
            match fuel with
            | O => None
            | S fuel =>
                b ← m !! p;
                prev ← GetAncestor m p (nHeight b - Period chk);
                walk_back fuel prev (p :: vToCompute) cache
            end
      end
  end.

(** The forward walk. *)
Fixpoint walk_forward (vToCompute : list ptr) (state : ThresholdState) (cache : ThresholdConditionCache) :
    option (ThresholdState * ThresholdConditionCache) :=
  match vToCompute with
  | [] => Some (state, cache)
  | p :: rest =>
      stateNext ← next_state p state;
      walk_forward rest stateNext (<[Some p := stateNext]> cache)
  end.

(** Every step of the backward walk goes down by at least one block. *)
Definition walk_fuel (p : option ptr) : nat :=
  match p with
  | Some p => match m !! p with Some b => Z.to_nat (nHeight b) + 1 | None => 0 end
  | None => 0
  end%nat.

Definition GetStateFor (pindexPrev : option ptr) (cache : ThresholdConditionCache) :
    option (ThresholdState * ThresholdConditionCache) :=
  pindexPrev ← (match pindexPrev with None => Some None | Some p => period_parent p end);
  '(vToCompute, p, cache) ← walk_back (walk_fuel pindexPrev) pindexPrev [] cache;
  state ← cache !! p; (* assert(cache.count(pindexPrev)) *)
  walk_forward vToCompute state cache.

(** [while (pindexEndOfPrevPeriod->nHeight != currentIndex->nHeight)]. *)
Fixpoint count_since (fuel : nat) (endHeight : Z) (currentIndex : option ptr) : option Z :=
  p ← currentIndex;
  b ← m !! p;
  if endHeight =? nHeight b then Some 0
  else
    match fuel with
    | O => None
    | S fuel =>
        rest ← count_since fuel endHeight (pprev b);
        Some ((if Condition chk b then 1 else 0) + rest)
    end.

Definition GetStateStatisticsFor (pindex : option ptr) : option BIP9Stats :=
  match pindex with
  | None => Some (mkStats (Period chk) (Threshold chk) 0 0 false)
  | Some p =>
      b ← m !! p;
      e ← period_parent p;
      e ← e; (* pindexEndOfPrevPeriod->nHeight *)
      be ← m !! e;
      let el := nHeight b - nHeight be in
      c ← count_since (Z.to_nat (nHeight b) + 1) (nHeight be) (Some p);
      Some (mkStats (Period chk) (Threshold chk) el c (Period chk - Threshold chk >=? el - c))
  end.

(** The loop of [GetStateSinceHeightFor]. *)
Fixpoint since_loop (fuel : nat) (initialState : ThresholdState) (pindexPrev : ptr)
    (previousPeriodParent : option ptr) (cache : ThresholdConditionCache) :
    option (ptr * ThresholdConditionCache) :=
  match previousPeriodParent with
  | None => Some (pindexPrev, cache)
  | Some q =>
      '(s, cache) ← GetStateFor (Some q) cache;
      if decide (s = initialState) then
        match fuel with
        | O => None
        | S fuel =>
            b ← m !! q;
            pp ← GetAncestor m q (nHeight b - Period chk);
            since_loop fuel initialState q pp cache
        end
      else Some (pindexPrev, cache)
  end.

Definition GetStateSinceHeightFor (pindexPrev : option ptr) (cache : ThresholdConditionCache) :
    option (Z * ThresholdConditionCache) :=
  '(initialState, cache) ← GetStateFor pindexPrev cache;
  if decide (initialState = THRESHOLD_DEFINED) then Some (0, cache)
  else
    p ← pindexPrev;
    q ← period_parent p;
    q ← q;
    b ← m !! q;
    pp ← GetAncestor m q (nHeight b - Period chk);
    '(r, cache) ← since_loop (Z.to_nat (nHeight b) + 1) initialState q pp cache;
    br ← m !! r;
    Some (nHeight br + 1, cache).

End Checker.

(** ** [VersionBitsConditionChecker] *)

Definition VERSIONBITS_TOP_BITS : Z := 0x20000000.
Definition VERSIONBITS_TOP_MASK : Z := i32 0xE0000000.

(** The consensus parameters a deployment uses. *)
Record VBParams := mkVBParams {
  vb_bit : Z;
  vb_nStartTime : Z;
  vb_nTimeout : Z;
  nMinerConfirmationWindow : Z;
  nRuleChangeActivationThreshold : Z;
  powForkTime : Z
}.

Definition VersionBitsMask (params : VBParams) : Z := u32 (Z.shiftl 1 (vb_bit params)).

(** [Condition]; [nVersion & Mask] is computed in [uint32_t]. *)
Definition VersionBitsCondition (params : VBParams) (b : CBlockIndex) : bool :=
  let signals := negb (Z.land (u32 (nVersion b)) (VersionBitsMask params) =? 0) in
  if nTime b >? powForkTime params then signals
  else (Z.land (nVersion b) VERSIONBITS_TOP_MASK =? VERSIONBITS_TOP_BITS) && signals.

Definition VersionBitsConditionChecker (params : VBParams) : ThresholdChecker :=
  mkChecker (VersionBitsCondition params) (vb_nStartTime params) (vb_nTimeout params)
    (nMinerConfirmationWindow params) (nRuleChangeActivationThreshold params).

Definition VersionBitsState (m : gmap ptr CBlockIndex) (params : VBParams) (pindexPrev : option ptr)
    (cache : ThresholdConditionCache) : option (ThresholdState * ThresholdConditionCache) :=
  GetStateFor m (VersionBitsConditionChecker params) pindexPrev cache.

Definition VersionBitsStatistics (m : gmap ptr CBlockIndex) (params : VBParams) (pindexPrev : option ptr) :
    option BIP9Stats :=
  GetStateStatisticsFor m (VersionBitsConditionChecker params) pindexPrev.

Definition VersionBitsStateSinceHeight (m : gmap ptr CBlockIndex) (params : VBParams) (pindexPrev : option ptr)
    (cache : ThresholdConditionCache) : option (Z * ThresholdConditionCache) :=
  GetStateSinceHeightFor m (VersionBitsConditionChecker params) pindexPrev cache.

(** [VersionBitsCache::Clear]: one cache per deployment. *)
Definition VersionBitsCache_Clear (caches : list ThresholdConditionCache) : list ThresholdConditionCache :=
  map (fun _ => ∅) caches.

(** ** The BIP 9 state machine *)

Section Spec.
Variable m : gmap ptr CBlockIndex.
Variable chk : ThresholdChecker.

(** How many of the [n] blocks ending at [p] signal. *)
Definition signals_at (p : ptr) (i : nat) : bool :=
  match walk m p i with
  | Some q => match m !! q with Some b => Condition chk b | None => false end
  | None => false
  end.
Definition signals (n : nat) (p : ptr) : Z := Z.of_nat (length (List.filter (signals_at p) (seq 0 n))).

(** The transition at the end of a period whose last block is [p]. *)
Inductive bip9_step (p : ptr) : ThresholdState -> ThresholdState -> Prop :=
| defined_timeout t : GetMedianTimePast m p = Some t -> EndTime chk <= t ->
    bip9_step p THRESHOLD_DEFINED THRESHOLD_FAILED
| defined_starts t : GetMedianTimePast m p = Some t -> t < EndTime chk -> BeginTime chk <= t ->
    bip9_step p THRESHOLD_DEFINED THRESHOLD_STARTED
| defined_stays t : GetMedianTimePast m p = Some t -> t < EndTime chk -> t < BeginTime chk ->
    bip9_step p THRESHOLD_DEFINED THRESHOLD_DEFINED
| started_timeout t : GetMedianTimePast m p = Some t -> EndTime chk <= t ->
    bip9_step p THRESHOLD_STARTED THRESHOLD_FAILED
| started_locks t : GetMedianTimePast m p = Some t -> t < EndTime chk ->
    Threshold chk <= signals (Z.to_nat (Period chk)) p ->
    bip9_step p THRESHOLD_STARTED THRESHOLD_LOCKED_IN
| started_stays t : GetMedianTimePast m p = Some t -> t < EndTime chk ->
    signals (Z.to_nat (Period chk)) p < Threshold chk ->
    bip9_step p THRESHOLD_STARTED THRESHOLD_STARTED
| locked_in_activates : bip9_step p THRESHOLD_LOCKED_IN THRESHOLD_ACTIVE
| failed_stays : bip9_step p THRESHOLD_FAILED THRESHOLD_FAILED
| active_stays : bip9_step p THRESHOLD_ACTIVE THRESHOLD_ACTIVE.

(** The last block of a period. *)
Definition period_end (p : ptr) (b : CBlockIndex) : Prop :=
  m !! p = Some b /\ (nHeight b + 1) mod Period chk = 0.

Definition previous_end (p : ptr) (b : CBlockIndex) : option ptr := ancestor_at m p (nHeight b - Period chk).

(** The state of the period that follows a block (the one after genesis for
    [None]). *)
Inductive bip9_state : option ptr -> ThresholdState -> Prop :=
| bip9_genesis : bip9_state None THRESHOLD_DEFINED
| bip9_next p b s s' : period_end p b -> bip9_state (previous_end p b) s -> bip9_step p s s' ->
    bip9_state (Some p) s'.

(** The state a block has is the one of its period. *)
Definition state_parent (p : option ptr) : option ptr :=
  p ← p; b ← m !! p; ancestor_at m p (nHeight b - (nHeight b + 1) mod Period chk).

(** All cached states are right. *)
Definition cache_coherent (cache : ThresholdConditionCache) : Prop :=
  forall p s, cache !! p = Some s -> bip9_state p s.

Lemma bip9_step_functional p s s1 s2 : bip9_step p s s1 -> bip9_step p s s2 -> s1 = s2.
Proof.
  intros H1 H2. inversion H1; inversion H2; subst; try done; exfalso;
    match goal with A : GetMedianTimePast m p = Some ?x, B : GetMedianTimePast m p = Some ?y |- _ =>
      assert (x = y) by congruence end; lia.
Qed.

Lemma bip9_state_functional p s : bip9_state p s -> forall s', bip9_state p s' -> s = s'.
Proof.
  induction 1 as [| p b s s' Hp _ IH Hst]; intros s2 H2; inversion H2 as [| p' b' t t' Hp' Ht Hst']; [done |]; subst.
  destruct Hp as [Hp _], Hp' as [Hp' _]. rewrite Hp in Hp'. injection Hp' as <-.
  apply IH in Ht as <-. by apply (bip9_step_functional p s).
Qed.

Context (Hm : wf_store m) (Hadv : times_advance m).
Context (Hperiod : 0 < Period chk) (Htimes : BeginTime chk <= EndTime chk).

(** ** One period *)

Lemma count_signals_spec n : forall p b,
  m !! p = Some b -> Z.of_nat n <= nHeight b + 1 ->
  count_signals m chk n (Some p) = Some (signals n p).
Proof using Hm.
  induction n as [| n IH]; intros p b Hp Hn; [done |]. cbn [count_signals mbind option_bind]. rewrite Hp. cbn [mbind option_bind].
  assert (count_signals m chk n (pprev b) =
          Some (Z.of_nat (length (List.filter (signals_at p) (seq 1 n))))) as ->.
  { destruct n as [| n]; [done |].
    pose proof (Hm p b Hp) as Hb. unfold wf_index in Hb. destruct (pprev b) as [q |] eqn:Hq; [| lia].
    destruct Hb as (bq & Hbq & _ & Hh & _). rewrite (IH q bq Hbq) by lia. unfold signals. do 2 f_equal.
    rewrite <- seq_shift. generalize (seq 0 (S n)). induction l as [| i l IHl]; [done |]. cbn [map List.filter].
    assert (signals_at p (S i) = signals_at q i) as ->.
    { unfold signals_at. cbn [walk]. rewrite Hp. cbn [mbind option_bind]. rewrite Hq. done. }
    destruct (signals_at q i); cbn [length]; by rewrite IHl. }
  cbn [mbind option_bind]. unfold signals. cbn [seq List.filter].
  assert (signals_at p 0 = Condition chk b) as -> by (unfold signals_at; cbn [walk]; by rewrite Hp).
  f_equal. destruct (Condition chk b); cbn [length]; lia.
Qed.

Lemma next_state_spec p b s :
  period_end p b -> exists s', next_state m chk p s = Some s' /\ bip9_step p s s'.
Proof using Hm Hperiod.
  intros [Hp Hpe]. destruct (GetMedianTimePast_total m Hm p b Hp) as [t Ht].
  pose proof (wf_height m p b Hm Hp) as H0.
  assert (Z.of_nat (Z.to_nat (Period chk)) <= nHeight b + 1) as Hle.
  { rewrite Z2Nat.id by lia. apply Z.mod_divide in Hpe as [k Hk]; [| lia]. assert (1 <= k) by nia. nia. }
  pose proof (count_signals_spec (Z.to_nat (Period chk)) p b Hp Hle) as Hc.
  destruct s; cbn [next_state]; rewrite ?Ht; cbn [mbind option_bind]; rewrite ?Z.geb_leb.
  - destruct (Z.leb_spec (EndTime chk) t), (Z.leb_spec (BeginTime chk) t); eexists; (split; [reflexivity |]);
      econstructor; eauto.
  - destruct (Z.leb_spec (EndTime chk) t); [eexists; split; [reflexivity |]; econstructor; eauto |].
    rewrite Hc. cbn [mbind option_bind]. rewrite Z.geb_leb.
    destruct (Z.leb_spec (Threshold chk) (signals (Z.to_nat (Period chk)) p)); eexists; (split; [reflexivity |]);
      econstructor; eauto.
  - eexists. split; [reflexivity | constructor].
  - eexists. split; [reflexivity | constructor].
  - eexists. split; [reflexivity | constructor].
Qed.

(** The period before. *)
Lemma previous_end_spec p b :
  period_end p b ->
  GetAncestor m p (nHeight b - Period chk) = Some (previous_end p b) /\
  (previous_end p b = None \/
   exists q bq, previous_end p b = Some q /\ period_end q bq /\ nHeight bq = nHeight b - Period chk /\
     is_ancestor m p q).
Proof using Hm Hperiod.
  intros [Hp Hpe]. split; [by apply (GetAncestor_eq m p b) |]. pose proof (wf_height m p b Hm Hp).
  unfold previous_end. destruct (Z.lt_ge_cases (nHeight b - Period chk) 0) as [Hlt | Hge].
  - left. unfold ancestor_at. rewrite Hp. cbn. rewrite Z.gtb_ltb. bdestruct_all.
  - right. destruct (ancestor_at_some m p b (nHeight b - Period chk) Hm Hp) as (q & bq & Hq & Hbq & Hh); [lia |].
    exists q, bq. split; [done |]. split; [split; [done |] | split; [done |]].
    + replace (nHeight bq + 1) with (nHeight b + 1 + (-1) * Period chk) by lia. by rewrite Z.mod_add by lia.
    + unfold ancestor_at in Hq. rewrite Hp in Hq. cbn in Hq. rewrite Z.gtb_ltb in Hq.
      destruct (_ || _); [done |]. by eexists.
Qed.

(** Before the start time the deployment is DEFINED: the early stop of the
    backward walk is sound. *)
Lemma before_start_defined n : forall p b t,
  nHeight b < Z.of_nat n -> period_end p b -> GetMedianTimePast m p = Some t -> t < BeginTime chk ->
  bip9_state (Some p) THRESHOLD_DEFINED.
Proof using Hm Hadv Hperiod Htimes.
  induction n as [| n IH]; intros p b t Hn Hp Ht Hlt;
    [destruct Hp as [Hp _]; pose proof (wf_height m p b Hm Hp); lia |].
  apply (bip9_next p b THRESHOLD_DEFINED); [done | | by apply (defined_stays p t); [| lia |]].
  destruct (previous_end_spec p b Hp) as [_ [-> | (q & bq & -> & Hq & Hh & Hanc)]]; [constructor |].
  destruct Hq as [Hbq Hqe] eqn:Hq'. destruct (GetMedianTimePast_total m Hm q bq Hbq) as [tq Htq].
  destruct Hanc as [k Hk]. destruct Hp as [Hp _].
  pose proof (median_monotone m Hm k p q tq t Hadv ltac:(by eexists) Hk Htq Ht).
  apply (IH q bq tq); (done || lia).
Qed.
(** ** The two walks *)

(** The stack of period ends to compute, lowest first, starting above [p]. *)
Fixpoint linked (p : option ptr) (stack : list ptr) : Prop :=
  match stack with
  | [] => True
  | x :: rest => (exists b, period_end x b /\ previous_end x b = p) /\ linked (Some x) rest
  end.

(** The block whose state is wanted. *)
Definition stack_top (p : option ptr) (stack : list ptr) : option ptr :=
  match last stack with Some x => Some x | None => p end.

Lemma stack_top_cons p q x stack : stack_top p (x :: stack) = stack_top q (x :: stack).
Proof. unfold stack_top. rewrite last_cons. by destruct (last stack). Qed.

Lemma stack_top_push p x stack : stack_top p (x :: stack) = stack_top (Some x) stack.
Proof. unfold stack_top. rewrite last_cons. by destruct (last stack). Qed.

Lemma walk_back_spec fuel : forall p stack cache,
  cache_coherent cache -> linked p stack ->
  (p = None \/ exists q b, p = Some q /\ period_end q b /\ nHeight b < Z.of_nat fuel) ->
  exists stack' p' cache', walk_back m chk fuel p stack cache = Some (stack', p', cache') /\
    cache_coherent cache' /\ linked p' stack' /\ is_Some (cache' !! p') /\ stack_top p' stack' = stack_top p stack.
Proof using Hm Hadv Hperiod Htimes.
  induction fuel as [| fuel IH]; intros p stack cache Hco Hli Hp;
    (assert (forall q s, bip9_state q s -> cache_coherent (<[q := s]> cache)) as Hins
      by (intros q s Hqs r t Hr; apply lookup_insert_Some in Hr as [[<- <-] | [_ Hr]]; [done | by apply Hco]));
    (assert (forall c, cache_coherent c -> is_Some (c !! p) ->
       exists stack' p' cache', Some (stack, p, c) = Some (stack', p', cache') /\ cache_coherent cache' /\
         linked p' stack' /\ is_Some (cache' !! p') /\ stack_top p' stack' = stack_top p stack) as Hstop
      by (intros c Hc Hs; by exists stack, p, c));
    cbn [walk_back]; destruct (cache !! p) as [s |] eqn:Hc;
    try (apply Hstop; [done | rewrite Hc; by eexists]);
    destruct Hp as [-> | (q & b & -> & Hqe & Hf)];
    try (apply Hstop; [apply Hins; constructor | rewrite lookup_insert_eq; by eexists]).
  { destruct Hqe as [Hq _]. pose proof (wf_height m q b Hm Hq). lia. }
  destruct (GetMedianTimePast_total m Hm q b (proj1 Hqe)) as [t Ht]. rewrite Ht. cbn [mbind option_bind].
  destruct (Z.ltb_spec t (BeginTime chk)) as [Hlt | Hge].
  - apply Hstop; [| rewrite lookup_insert_eq; by eexists].
    apply Hins. by apply (before_start_defined (S fuel) q b t).
  - destruct (previous_end_spec q b Hqe) as [Hanc Hprev]. rewrite (proj1 Hqe). cbn [mbind option_bind].
    rewrite Hanc. cbn [mbind option_bind].
    destruct (IH (previous_end q b) (q :: stack) cache Hco) as (st' & p' & c' & Heq & H1 & H2 & H3 & H4).
    + split; [by eexists | done].
    + destruct Hprev as [-> | (r & br & -> & Hr & Hh & _)]; [by left | right]. exists r, br. split; [done |]. split; [done | lia].
    + exists st', p', c'. split; [done |]. do 3 (split; [done |]). by rewrite H4, stack_top_push.
Qed.

Lemma walk_forward_spec stack : forall p s cache,
  cache_coherent cache -> bip9_state p s -> linked p stack ->
  exists s' cache', walk_forward m chk stack s cache = Some (s', cache') /\
    bip9_state (stack_top p stack) s' /\ cache_coherent cache'.
Proof using Hm Hperiod.
  induction stack as [| x stack IH]; intros p s cache Hco Hs Hli; cbn [walk_forward]; [by exists s, cache |].
  destruct Hli as [(b & Hx & Hprev) Hli].
  destruct (next_state_spec x b s Hx) as (s1 & -> & Hstep). cbn [mbind option_bind].
  assert (bip9_state (Some x) s1) as Hs1 by (apply (bip9_next x b s); [done | by rewrite Hprev | done]).
  rewrite stack_top_push. apply IH; [| done | done].
  intros r t Hr. apply lookup_insert_Some in Hr as [[<- <-] | [_ Hr]]; [done | by apply Hco].
Qed.

(** The parent of the first block of a period. *)
Lemma period_parent_spec p b :
  m !! p = Some b ->
  period_parent m chk p = Some (state_parent (Some p)) /\
  (state_parent (Some p) = None \/
   exists q bq, state_parent (Some p) = Some q /\ period_end q bq /\
     nHeight bq = nHeight b - (nHeight b + 1) mod Period chk).
Proof using Hm Hperiod.
  intros Hp. pose proof (wf_height m p b Hm Hp) as H0.
  assert (Z.rem (nHeight b + 1) (Period chk) = (nHeight b + 1) mod Period chk) as Hr
    by (apply Z.rem_mod_nonneg; lia).
  unfold period_parent, state_parent. cbn [mbind option_bind]. rewrite Hp. cbn [mbind option_bind]. rewrite Hr.
  split; [by apply (GetAncestor_eq m p b) |].
  pose proof (Z.mod_pos_bound (nHeight b + 1) (Period chk) Hperiod) as Hmod.
  destruct (Z.lt_ge_cases (nHeight b - (nHeight b + 1) mod Period chk) 0) as [Hlt | Hge].
  - left. unfold ancestor_at. rewrite Hp. cbn. rewrite Z.gtb_ltb. bdestruct_all.
  - right. destruct (ancestor_at_some m p b (nHeight b - (nHeight b + 1) mod Period chk) Hm Hp)
      as (q & bq & Hq & Hbq & Hh); [lia |].
    exists q, bq. split; [done |]. split; [split; [done |] | done]. rewrite Hh.
    replace (nHeight b - (nHeight b + 1) mod Period chk + 1)
      with (nHeight b + 1 - (nHeight b + 1) mod Period chk) by lia.
    rewrite Zminus_mod, Z.mod_mod, Z.sub_diag by lia. apply Z.mod_0_l. lia.
Qed.

Lemma GetStateFor_spec p cache :
  cache_coherent cache -> (p = None \/ exists q b, p = Some q /\ m !! q = Some b) ->
  exists s cache', GetStateFor m chk p cache = Some (s, cache') /\
    bip9_state (state_parent p) s /\ cache_coherent cache'.
Proof using Hm Hadv Hperiod Htimes.
  intros Hco Hp. unfold GetStateFor.
  assert ((match p with None => Some None | Some p => period_parent m chk p end) = Some (state_parent p) /\
    (state_parent p = None \/ exists q b, state_parent p = Some q /\ period_end q b)) as [-> Hsp].
  { destruct Hp as [-> | (q & b & -> & Hq)]; [by split; [| left] |].
    destruct (period_parent_spec q b Hq) as [-> [? | (r & br & ? & ? & _)]]; (split; [done |]); [by left | right; eauto]. }
  cbn [mbind option_bind]. 
  destruct (walk_back_spec (walk_fuel m (state_parent p)) (state_parent p) [] cache Hco I) as (st & p' & c & -> & H1 & H2 & [s Hs] & H4).
  { destruct Hsp as [-> | (q & b & Hq & Hqe)]; [by left | right]. exists q, b. split; [done |]. split; [done |].
    unfold walk_fuel. rewrite Hq, (proj1 Hqe). destruct Hqe as [Hb _]. pose proof (wf_height m q b Hm Hb). lia. }
  cbn [mbind option_bind]. rewrite Hs. cbn [mbind option_bind].
  destruct (walk_forward_spec st p' s c H1 (H1 p' s Hs) H2) as (s' & c' & -> & H5 & H6).
  exists s', c'. rewrite H4 in H5. done.
Qed.

(** ** The height at which a state began *)

Lemma state_parent_end p b : period_end p b -> state_parent (Some p) = Some p.
Proof using Hm.
  intros [Hp Hpe]. unfold state_parent. cbn [mbind option_bind]. rewrite Hp. cbn [mbind option_bind].
  rewrite Hpe, Z.sub_0_r. unfold ancestor_at. rewrite Hp. cbn. pose proof (wf_height m p b Hm Hp).
  rewrite Z.gtb_ltb. bdestruct_all. by rewrite Z.sub_diag.
Qed.

(** [r] is the earliest period end of the current run of the state [s0]. *)
Definition state_began (s0 : ThresholdState) (r : ptr) : Prop :=
  exists b, period_end r b /\ bip9_state (Some r) s0 /\ ~ bip9_state (previous_end r b) s0.

Lemma since_loop_spec s0 fuel : forall p b pp cache,
  s0 <> THRESHOLD_DEFINED -> cache_coherent cache -> period_end p b -> nHeight b < Z.of_nat fuel ->
  bip9_state (Some p) s0 -> pp = previous_end p b ->
  exists r cache', since_loop m chk fuel s0 p pp cache = Some (r, cache') /\ state_began s0 r /\
    cache_coherent cache' /\ is_ancestor m p r.
Proof using Hm Hadv Hperiod Htimes.
  induction fuel as [| fuel IH]; intros p b pp cache Hs0 Hco Hp Hf Hst ->;
    [destruct Hp as [Hp _]; pose proof (wf_height m p b Hm Hp); lia |].
  cbn [since_loop]. destruct (previous_end_spec p b Hp) as [_ Hprev].
  destruct Hprev as [Hnone | (q & bq & Hq & Hqe & Hh & Hanc)].
  - rewrite Hnone. exists p, cache. split; [done |]. split; [| split; [done | by exists 0%nat]].
    exists b. split; [done |]. split; [done |]. rewrite Hnone. intros Hbad. inversion Hbad. congruence.
  - rewrite Hq. destruct (GetStateFor_spec (Some q) cache Hco) as (s & c1 & -> & Hs & Hco1);
      [right; exists q, bq; split; [done | apply Hqe] |].
    rewrite (state_parent_end q bq Hqe) in Hs. cbn [mbind option_bind]. case_decide as Hd.
    + subst s. rewrite (proj1 Hqe). cbn [mbind option_bind].
      rewrite (proj1 (previous_end_spec q bq Hqe)). cbn [mbind option_bind].
      destruct (IH q bq (previous_end q bq) c1) as (r & c2 & Heq & H1 & H2 & H3); try done; [lia |].
      exists r, c2. split; [done |]. split; [done |]. split; [done |]. by apply (is_ancestor_trans m p q r).
    + exists p, c1. split; [done |]. split; [| split; [done | by exists 0%nat]].
      exists b. split; [done |]. split; [done |]. rewrite Hq. intros Hbad. apply Hd.
      by apply (bip9_state_functional (Some q)).
Qed.
(** ** Final states *)

(** The state of a period end below another one on the same chain. *)
Lemma active_persists n : forall q bq p b,
  nHeight bq < Z.of_nat n -> period_end q bq -> period_end p b -> is_ancestor m q p ->
  bip9_state (Some p) THRESHOLD_ACTIVE -> bip9_state (Some q) THRESHOLD_ACTIVE.
Proof using Hm Hperiod.
  induction n as [| n IH]; intros q bq p b Hn Hq Hp Hanc Hst;
    [destruct Hq as [Hq _]; pose proof (wf_height m q bq Hm Hq); lia |].
  destruct (Hanc) as [k Hk].
  pose proof (walk_height m q bq k p b Hm (proj1 Hq) Hk (proj1 Hp)) as Hh.
  destruct (Z.eq_dec (nHeight b) (nHeight bq)) as [He | Hne].
  { replace k with 0%nat in Hk by lia. injection Hk as ->. done. }
  assert (Period chk <= nHeight bq - nHeight b) as Hgap.
  { destruct Hq as [_ Hq], Hp as [_ Hp]. apply Z.mod_divide in Hq as [x Hx]; [| lia].
    apply Z.mod_divide in Hp as [y Hy]; [| lia]. assert (y + 1 <= x) by nia. nia. }
  destruct (previous_end_spec q bq Hq) as [_ [Hnone | (r & br & Hr & Hre & Hhr & Hra)]].
  - exfalso. unfold previous_end, ancestor_at in Hnone. rewrite (proj1 Hq) in Hnone. cbn in Hnone.
    pose proof (wf_height m p b Hm (proj1 Hp)). rewrite Z.gtb_ltb in Hnone.
    destruct (Z.ltb_spec (nHeight bq) (nHeight bq - Period chk)); [lia |].
    destruct (Z.ltb_spec (nHeight bq - Period chk) 0); [lia |]. cbn in Hnone.
    destruct (walk_exists m q bq (Z.to_nat (nHeight bq - (nHeight bq - Period chk))) Hm (proj1 Hq)) as (? & ? & Hx & _);
      [lia | congruence].
  - apply (bip9_next q bq THRESHOLD_ACTIVE); [done | | constructor]. rewrite Hr.
    apply (IH r br p b); try done; [lia |].
    apply (ancestor_of_ancestor m Hm q bq r br p b); try done; try apply Hre; try apply Hp; [apply Hq | lia].
Qed.

Lemma state_parent_ancestor p b q :
  m !! p = Some b -> state_parent (Some p) = Some q -> is_ancestor m p q.
Proof.
  intros Hp Hq. unfold state_parent in Hq. cbn [mbind option_bind] in Hq. rewrite Hp in Hq. cbn [mbind option_bind] in Hq.
  unfold ancestor_at in Hq. rewrite Hp in Hq. cbn in Hq. destruct (_ || _); [done |]. by eexists.
Qed.

(** Descendants have the same or a later period end. *)
Lemma active_descendant p b q bq :
  m !! p = Some b -> m !! q = Some bq -> is_ancestor m q p ->
  bip9_state (state_parent (Some p)) THRESHOLD_ACTIVE -> bip9_state (state_parent (Some q)) THRESHOLD_ACTIVE.
Proof using Hm Hperiod.
  intros Hp Hq Hanc Hst. destruct (period_parent_spec p b Hp) as [_ [Hn | (ep & bp & Hep & Hpe & Hph)]].
  { rewrite Hn in Hst. inversion Hst. }
  destruct Hanc as [k Hk]. pose proof (walk_height m q bq k p b Hm Hq Hk Hp) as Hh.
  pose proof (wf_height m p b Hm Hp). pose proof (wf_height m ep bp Hm (proj1 Hpe)).
  pose proof (Z.mod_pos_bound (nHeight b + 1) (Period chk) Hperiod).
  pose proof (Z.mod_pos_bound (nHeight bq + 1) (Period chk) Hperiod).
  assert (nHeight bp <= nHeight bq - (nHeight bq + 1) mod Period chk) as Hle.
  { rewrite Hph. pose proof (Z.div_mod (nHeight b + 1) (Period chk) ltac:(lia)).
    pose proof (Z.div_mod (nHeight bq + 1) (Period chk) ltac:(lia)).
    pose proof (Z.div_le_mono (nHeight b + 1) (nHeight bq + 1) (Period chk) Hperiod ltac:(lia)). nia. }
  destruct (period_parent_spec q bq Hq) as [_ [Hn | (eq & beq & Heq & Hqe & Hqh)]].
  { exfalso. unfold state_parent in Hn. cbn [mbind option_bind] in Hn. rewrite Hq in Hn. cbn [mbind option_bind] in Hn.
    destruct (ancestor_at_some m q bq (nHeight bq - (nHeight bq + 1) mod Period chk) Hm Hq) as (? & ? & Hx & _);
      [lia | congruence]. }
  rewrite Heq. rewrite Hep in Hst.
  apply (active_persists (Z.to_nat (nHeight beq) + 1) eq beq ep bp); try done; [lia |].
  apply (ancestor_of_ancestor m Hm q bq eq beq ep bp); try done; try apply Hqe; try apply Hpe.
  - by apply (state_parent_ancestor q bq).
  - apply (is_ancestor_trans m q p ep); [by exists k | by apply (state_parent_ancestor p b)].
  - lia.
Qed.

(** ** Statistics *)

(** A locked-in deployment is active one period later. *)
Lemma locked_in_descendant p b q bq :
  m !! p = Some b -> m !! q = Some bq -> is_ancestor m q p -> nHeight b + Period chk <= nHeight bq ->
  bip9_state (state_parent (Some p)) THRESHOLD_LOCKED_IN -> bip9_state (state_parent (Some q)) THRESHOLD_ACTIVE.
Proof using Hm Hperiod.
  intros Hp Hq Hanc Hlater Hst. destruct (period_parent_spec p b Hp) as [_ [Hn | (e & be & He & Hee & Heh)]].
  { rewrite Hn in Hst. inversion Hst. }
  rewrite He in Hst. pose proof (Z.mod_pos_bound (nHeight b + 1) (Period chk) Hperiod).
  pose proof (wf_height m e be Hm (proj1 Hee)).
  destruct (ancestor_at_some m q bq (nHeight be + Period chk) Hm Hq) as (r & br & Hr & Hbr & Hrh); [lia |].
  assert (is_ancestor m q r) as Har.
  { unfold ancestor_at in Hr. rewrite Hq in Hr. cbn in Hr. destruct (_ || _); [done |]. by eexists. }
  assert (period_end r br) as Hre.
  { split; [done |]. rewrite Hrh. replace (nHeight be + Period chk + 1) with (nHeight be + 1 + 1 * Period chk) by lia.
    rewrite Z.mod_add by lia. apply Hee. }
  assert (is_ancestor m r e) as Hre'.
  { apply (ancestor_of_ancestor m Hm q bq r br e be); try done; [apply Hee | | lia].
    apply (is_ancestor_trans m q p e); [done | by apply (state_parent_ancestor p b)]. }
  apply (active_descendant r br q bq); try done. rewrite (state_parent_end r br Hre).
  apply (bip9_next r br THRESHOLD_LOCKED_IN); [done | | constructor]. replace (previous_end r br) with (Some e); [done |].
  destruct Hre' as [k Hk]. pose proof (walk_height m r br k e be Hm Hbr Hk (proj1 Hee)). unfold previous_end, ancestor_at.
  rewrite Hbr. cbn [mbind option_bind]. rewrite Z.gtb_ltb. bdestruct_all. rewrite <- Hk. f_equal. lia.
Qed.

(** Past the timeout a deployment is decided. *)
Lemma decided_after_timeout e s t : bip9_state (Some e) s -> GetMedianTimePast m e = Some t -> EndTime chk <= t ->
  s = THRESHOLD_ACTIVE \/ s = THRESHOLD_FAILED.
Proof.
  intros Hs Ht He. inversion Hs as [| p b s0 s' _ _ Hstep]; subst. inversion Hstep; subst; try (by left); try (by right);
    match goal with H1 : GetMedianTimePast m ?z = Some ?x, H2 : GetMedianTimePast m ?z = Some ?y |- _ => assert (x = y) by congruence; lia end.
Qed.

Lemma count_since_spec fuel : forall p b e,
  m !! p = Some b -> 0 <= e <= nHeight b -> (Z.to_nat (nHeight b - e) < fuel)%nat ->
  count_since m chk fuel e (Some p) = Some (signals (Z.to_nat (nHeight b - e)) p).
Proof using Hm.
  intros p b e Hp He Hf.
  assert (forall fuel p b, m !! p = Some b -> 0 <= e <= nHeight b -> (Z.to_nat (nHeight b - e) < fuel)%nat ->
    count_since m chk fuel e (Some p) = count_signals m chk (Z.to_nat (nHeight b - e)) (Some p)) as Heq.
  { clear p b fuel Hp He Hf. induction fuel as [| fuel IH]; intros p b Hp He Hf; [lia |].
    cbn [count_since mbind option_bind]. rewrite Hp. cbn [mbind option_bind].
    destruct (Z.eqb_spec e (nHeight b)) as [-> | Hne]; [by rewrite Z.sub_diag |].
    replace (Z.to_nat (nHeight b - e)) with (S (Z.to_nat (nHeight b - 1 - e))) by lia.
    cbn [count_signals mbind option_bind]. rewrite Hp. cbn [mbind option_bind].
    pose proof (Hm p b Hp) as Hb. unfold wf_index in Hb. destruct (pprev b) as [q |]; [| lia].
    destruct Hb as (bq & Hbq & _ & Hh & _). rewrite (IH q bq Hbq) by lia.
    by replace (nHeight bq - e) with (nHeight b - 1 - e) by lia. }
  rewrite (Heq fuel p b Hp He Hf). apply (count_signals_spec _ p b Hp). lia.
Qed.

Lemma GetStateStatisticsFor_spec p b :
  m !! p = Some b ->
  GetStateStatisticsFor m chk (Some p) =
  if nHeight b + 1 <? Period chk then None
  else let el := (nHeight b + 1) mod Period chk in
       let c := signals (Z.to_nat el) p in
       Some (mkStats (Period chk) (Threshold chk) el c (Period chk - Threshold chk >=? el - c)).
Proof using Hm Hperiod.
  intros Hp. pose proof (wf_height m p b Hm Hp) as H0. unfold GetStateStatisticsFor. rewrite Hp. cbn [mbind option_bind].
  destruct (period_parent_spec p b Hp) as [-> Hcase]. cbn [mbind option_bind].
  pose proof (Z.mod_pos_bound (nHeight b + 1) (Period chk) Hperiod) as Hmod.
  destruct (Z.ltb_spec (nHeight b + 1) (Period chk)) as [Hlt | Hge].
  - destruct Hcase as [-> | (q & bq & _ & [Hq _] & Hh)]; [done |]. exfalso.
    rewrite Z.mod_small in Hh by lia. pose proof (wf_height m q bq Hm Hq). lia.
  - assert (0 <= nHeight b - (nHeight b + 1) mod Period chk) as Hnn.
    { pose proof (Z.div_mod (nHeight b + 1) (Period chk) ltac:(lia)).
      assert (1 <= (nHeight b + 1) / Period chk) by (apply Z.div_le_lower_bound; lia). nia. }
    destruct Hcase as [Hn | (q & bq & -> & [Hq _] & Hh)].
    { exfalso. unfold state_parent in Hn. cbn [mbind option_bind] in Hn. rewrite Hp in Hn. cbn [mbind option_bind] in Hn.
      destruct (ancestor_at_some m p b (nHeight b - (nHeight b + 1) mod Period chk) Hm Hp) as (? & ? & Hx & _);
        [lia | congruence]. }
    cbn [mbind option_bind]. rewrite Hq. cbn [mbind option_bind].
    rewrite (count_since_spec _ p b (nHeight bq) Hp) by lia. cbn [mbind option_bind].
    replace (nHeight b - nHeight bq) with ((nHeight b + 1) mod Period chk) by lia. done.
Qed.

End Spec.

(** ** The theorems *)

(** [GetStateFor] computes the BIP 9 state machine.  On a well-formed chain
    whose median time never goes back, from any coherent cache (in particular
    the empty one), it terminates without failing its assertion, returns the
    unique state the machine has in the period of the block (the shortcut for
    blocks before the start time included), and leaves the cache coherent. *)
Theorem GetStateFor_correct (m : gmap ptr CBlockIndex) (chk : ThresholdChecker) (p : ptr) (b : CBlockIndex)
    (cache : ThresholdConditionCache) :
  wf_store m -> times_advance m -> 0 < Period chk -> BeginTime chk <= EndTime chk ->
  cache_coherent m chk cache -> m !! p = Some b ->
  exists s cache', GetStateFor m chk (Some p) cache = Some (s, cache') /\
    (forall s', bip9_state m chk (state_parent m chk (Some p)) s' <-> s' = s) /\
    cache_coherent m chk cache'.
Proof.
  intros Hm Hadv Hper Htim Hco Hp.
  destruct (GetStateFor_spec m chk Hm Hadv Hper Htim (Some p) cache Hco) as (s & c' & Heq & Hs & Hco');
    [right; eauto |].
  exists s, c'. split; [done |]. split; [| done]. intros s'. split; [| by intros ->].
  intros Hs'. by apply (bip9_state_functional m chk (state_parent m chk (Some p))).
Qed.

(** A deployment on bit 1 with periods of four blocks. *)
Definition example_deployment : ThresholdChecker :=
  VersionBitsConditionChecker (mkVBParams 1 1150 5000 4 3 0).

(** C28: Every deployment is decided, and stays so.  [GetStateFor] returns for
    every block and coherent cache; once the last block of the period before
    has a median time past the timeout the state is ACTIVE or FAILED; a
    deployment that is LOCKED_IN is ACTIVE on every chain extended by a further
    period; and one that is ACTIVE is ACTIVE for all descendants. *)
Theorem deployments_settle (m : gmap ptr CBlockIndex) (chk : ThresholdChecker) (p q : ptr) (b bq : CBlockIndex)
    (c1 c2 : ThresholdConditionCache) :
  wf_store m -> times_advance m -> 0 < Period chk -> BeginTime chk <= EndTime chk ->
  m !! p = Some b -> m !! q = Some bq -> is_ancestor m q p -> cache_coherent m chk c1 -> cache_coherent m chk c2 ->
  exists sp c1' sq c2', GetStateFor m chk (Some p) c1 = Some (sp, c1') /\ GetStateFor m chk (Some q) c2 = Some (sq, c2') /\
    (forall e t, state_parent m chk (Some p) = Some e -> GetMedianTimePast m e = Some t -> EndTime chk <= t ->
       sp = THRESHOLD_ACTIVE \/ sp = THRESHOLD_FAILED) /\
    (sp = THRESHOLD_LOCKED_IN -> nHeight b + Period chk <= nHeight bq -> sq = THRESHOLD_ACTIVE) /\
    (sp = THRESHOLD_ACTIVE -> sq = THRESHOLD_ACTIVE).
Proof.
  intros Hm Hadv Hper Htim Hp Hq Hanc Hc1 Hc2.
  destruct (GetStateFor_spec m chk Hm Hadv Hper Htim (Some p) c1 Hc1) as (sp & c1' & Ep & Hsp & _); [right; eauto |].
  destruct (GetStateFor_spec m chk Hm Hadv Hper Htim (Some q) c2 Hc2) as (sq & c2' & Eq & Hsq & _); [right; eauto |].
  exists sp, c1', sq, c2'. do 2 (split; [done |]). split; [| split].
  - intros e t He. rewrite He in Hsp. by apply decided_after_timeout.
  - intros -> Hl. apply (bip9_state_functional m chk _ _ Hsq). by apply (locked_in_descendant m chk Hm Hper p b q bq).
  - intros ->. apply (bip9_state_functional m chk _ _ Hsq). by apply (active_descendant m chk Hm Hper p b q bq).
Qed.

(** Here every block signals. *)
Definition example_active : ThresholdChecker := mkChecker (fun _ => true) 0 100000 3 3.

Lemma deployments_settle_witness :
  exists c1' c2', GetStateFor minute_chain example_active (Some 105) ∅ = Some (THRESHOLD_LOCKED_IN, c1') /\
    GetStateFor minute_chain example_active (Some 113) ∅ = Some (THRESHOLD_ACTIVE, c2').
Proof.
  destruct (minute_chain !! 105) as [b |] eqn:Hb; [| vm_compute in Hb; discriminate].
  destruct (minute_chain !! 113) as [bq |] eqn:Hbq; [| vm_compute in Hbq; discriminate].
  destruct (deployments_settle minute_chain example_active 105 113 b bq ∅ ∅) as (sp & c1 & sq & c2 & E1 & E2 & _ & Hlock & _);
    [| | | | exact Hb | exact Hbq | | | |].
  - apply check_store_sound. vm_compute. reflexivity.
  - apply check_times_sound. vm_compute. reflexivity.
  - vm_compute. reflexivity.
  - vm_compute. discriminate.
  - exists 8%nat. vm_compute. reflexivity.
  - intros q s. by rewrite lookup_empty.
  - intros q s. by rewrite lookup_empty.
  - assert (sp = THRESHOLD_LOCKED_IN) as ->.
    { assert (fst <$> GetStateFor minute_chain example_active (Some 105) ∅ = Some THRESHOLD_LOCKED_IN) as H by (vm_compute; reflexivity).
      rewrite E1 in H. by injection H. }
    rewrite Hlock in E2; [by exists c1, c2 | done |].
    vm_compute in Hb, Hbq. injection Hb as <-. injection Hbq as <-. vm_compute. discriminate.
Defined.

(** [GetStateSinceHeightFor] returns 0 while the deployment is DEFINED and
    otherwise the height of the first block of the first period of the current
    uninterrupted run of the state. *)
Theorem GetStateSinceHeightFor_correct (m : gmap ptr CBlockIndex) (chk : ThresholdChecker) (p : ptr)
    (b : CBlockIndex) (cache : ThresholdConditionCache) :
  wf_store m -> times_advance m -> 0 < Period chk -> BeginTime chk <= EndTime chk ->
  cache_coherent m chk cache -> m !! p = Some b ->
  exists s h cache', GetStateSinceHeightFor m chk (Some p) cache = Some (h, cache') /\
    bip9_state m chk (state_parent m chk (Some p)) s /\ cache_coherent m chk cache' /\
    (s = THRESHOLD_DEFINED -> h = 0) /\
    (s <> THRESHOLD_DEFINED ->
     exists r br, state_began m chk s r /\ is_ancestor m p r /\ m !! r = Some br /\ h = nHeight br + 1).
Proof.
  intros Hm Hadv Hper Htim Hco Hp. unfold GetStateSinceHeightFor.
  destruct (GetStateFor_spec m chk Hm Hadv Hper Htim (Some p) cache Hco) as (s & c1 & -> & Hs & Hco1); [right; eauto |].
  cbn [mbind option_bind]. case_decide as Hd; [by exists s, 0, c1 |].
  destruct (period_parent_spec m chk Hm Hper p b Hp) as [-> [Hn | (q & bq & Hq & Hqe & _)]].
  { rewrite Hn in Hs. inversion Hs. congruence. }
  rewrite Hq in Hs |- *. cbn [mbind option_bind]. rewrite (proj1 Hqe). cbn [mbind option_bind].
  rewrite (proj1 (previous_end_spec m chk Hm Hper q bq Hqe)). cbn [mbind option_bind].
  pose proof (wf_height m q bq Hm (proj1 Hqe)).
  destruct (since_loop_spec m chk Hm Hadv Hper Htim s (Z.to_nat (nHeight bq) + 1) q bq (previous_end m chk q bq) c1)
    as (r & c2 & -> & Hr & Hco2 & Hanc); try done; [lia |].
  destruct (Hr) as (br & [Hbr _] & _). cbn [mbind option_bind]. rewrite Hbr.
  exists s, (nHeight br + 1), c2. split; [done |]. split; [done |]. split; [done |]. split; [done |].
  intros _. exists r, br. split; [done |]. split; [| done].
  apply (is_ancestor_trans m p q r); [by apply (state_parent_ancestor m chk p b) | done].
Qed.

(** [GetStateStatisticsFor] counts the signalling blocks of the current
    period, except that in the very first period it dereferences the null
    result of [GetAncestor(-1)] (here: no result). *)
Theorem GetStateStatisticsFor_correct (m : gmap ptr CBlockIndex) (chk : ThresholdChecker) (p : ptr) (b : CBlockIndex) :
  wf_store m -> 0 < Period chk -> m !! p = Some b ->
  (nHeight b + 1 < Period chk -> GetStateStatisticsFor m chk (Some p) = None) /\
  (Period chk <= nHeight b + 1 ->
   exists st, GetStateStatisticsFor m chk (Some p) = Some st /\
     elapsed st = (nHeight b + 1) mod Period chk /\
     count st = signals m chk (Z.to_nat (elapsed st)) p /\
     (possible st = true <-> Threshold chk <= count st + (Period chk - elapsed st))).
Proof.
  intros Hm Hper Hp. rewrite (GetStateStatisticsFor_spec m chk Hm Hper p b Hp).
  destruct (Z.ltb_spec (nHeight b + 1) (Period chk)) as [Hlt | Hge]; (split; [| intros Hle]); try lia; try done.
  eexists. split; [reflexivity |]. cbn [elapsed count possible]. split; [done |]. split; [done |].
  rewrite Z.geb_leb, Z.leb_le. lia.
Qed.

