(* ===== verification/Pow.v ===== *)
(** * Proof of work: [src/pow.cpp]

    The retargeting algorithms (DarkGravityWave, the two-week rule, and the
    three LWMA variants of the dual-algorithm chain) and the check of a
    block hash against its target.  The overloads of [arith_uint256] are
    resolved as the compiler does: [x *= n] and [x * n] with an integer [n]
    on the right multiply by [(uint32_t)n], [n * x] and [x / n] convert [n]
    to a 256-bit number through [uint64_t]. *)

From stdpp Require Import gmap.
From S2P Require Import Prelude Bytes ArithUint256 Compact Chain ActiveChain.

(** ** Parameters *)

(** The consensus parameters used here; [uint256] values are 32 bytes. *)
Record PowParams := mkPowParams {
  powLimit : list Z;
  fPowAllowMinDifficultyBlocks : bool;
  fPowNoRetargeting : bool;
  nPowTargetSpacing : Z;     (* int64_t *)
  nPowTargetTimespan : Z;    (* int64_t *)
  nX16rtTimestamp : Z;       (* uint32_t *)
  pow_powForkTime : Z;       (* uint32_t *)
  diffRetargetFix : Z;       (* int64_t *)
  diffRetargetTake2 : Z;     (* int64_t *)
  lwmaAveragingWindow : Z;   (* int64_t *)
  powTypeLimits : list (list Z)
}.

Definition DifficultyAdjustmentInterval (params : PowParams) : Z :=
  Z.quot (nPowTargetTimespan params) (nPowTargetSpacing params).

(** ** Shorthands for the operators *)

Definition mul_int (a : list Z) (n : Z) : list Z := op_mul32 W256 a (u32 n).
Definition int_mul (n : Z) (a : list Z) : list Z := op_mul W256 (of_u64 (u64 n)) a.
Definition div_int (a : list Z) (n : Z) : option (list Z) := op_div W256 a (of_u64 (u64 n)).
Definition gt256 (a b : list Z) : bool := 0 <? CompareTo W256 a b.
Definition target_of (bits : Z) : list Z := fst (fst (SetCompact bits)).

Section Retarget.
Variable m : gmap ptr CBlockIndex.
Variable params : PowParams.

Definition bnPowLimit : list Z := UintToArith256 (powLimit params).

(** [while (pindex->pprev && pindex->nHeight % interval != 0 && pindex->nBits == nProofOfWorkLimit)]. *)
Fixpoint last_non_special (fuel : nat) (pindex : ptr) (nProofOfWorkLimit : Z) : option Z :=
  b ← m !! pindex;
  match pprev b with
  | Some q =>
      if negb (Z.rem (nHeight b) (DifficultyAdjustmentInterval params) =? 0) && (nBits b =? nProofOfWorkLimit)
      then match fuel with O => None | S fuel => last_non_special fuel q nProofOfWorkLimit end
      else Some (nBits b)
  | None => Some (nBits b)
  end.

(** ** DarkGravityWave *)

Definition nPastBlocks : Z := 180.

(** The averaging loop, from [nCountBlocks] on: the average and the last
    block visited. *)
Fixpoint dgw_loop (n : nat) (nCountBlocks : Z) (pindex : ptr) (avg : list Z) : option (list Z * ptr) :=
  match n with
  | O => Some (avg, pindex)
  | S n =>
      b ← m !! pindex;
      let bnTarget := target_of (nBits b) in
      avg ← (if nCountBlocks =? 1 then Some bnTarget
             else div_int (op_add W256 (mul_int avg nCountBlocks) bnTarget) (u32 (nCountBlocks + 1)));
      pindex ← (if negb (nCountBlocks =? nPastBlocks) then pprev b (* assert(pindex->pprev) *)
                else Some pindex);
      dgw_loop n (nCountBlocks + 1) pindex avg
  end.

Definition clamp (x lo hi : Z) : Z :=
  let x := if x <? lo then lo else x in if x >? hi then hi else x.

Definition DarkGravityWave (pindexLast : ptr) (pblockTime : Z) : option Z :=
  nProofOfWorkLimit ← GetCompact bnPowLimit false;
  b ← m !! pindexLast;
  if nHeight b <? nPastBlocks then GetCompact bnPowLimit false
  else if fPowAllowMinDifficultyBlocks params && fPowNoRetargeting params then
    if pblockTime >? GetBlockTime b + nPowTargetSpacing params * 2 then Some nProofOfWorkLimit
    else last_non_special (Z.to_nat (nHeight b)) pindexLast nProofOfWorkLimit
  else
    '(bnPastTargetAvg, pindex) ← dgw_loop (Z.to_nat nPastBlocks) 1 pindexLast (base_uint_zero W256);
    bf ← m !! pindex;
    let nTargetTimespan := nPastBlocks * nPowTargetSpacing params in
    let nActualTimespan := clamp (GetBlockTime b - GetBlockTime bf)
                             (Z.quot nTargetTimespan 3) (nTargetTimespan * 3) in
    bnNew ← div_int (mul_int bnPastTargetAvg nActualTimespan) nTargetTimespan;
    GetCompact (if gt256 bnNew bnPowLimit then bnPowLimit else bnNew) false.

(** ** The two-week rule *)

Definition CalculateNextWorkRequired (pindexLast : ptr) (nFirstBlockTime : Z) : option Z :=
  b ← m !! pindexLast;
  if fPowNoRetargeting params then Some (nBits b)
  else
    let nActualTimespan := clamp (GetBlockTime b - nFirstBlockTime)
                             (Z.quot (nPowTargetTimespan params) 4) (nPowTargetTimespan params * 4) in
    bnNew ← div_int (mul_int (target_of (nBits b)) nActualTimespan) (nPowTargetTimespan params);
    GetCompact (if gt256 bnNew bnPowLimit then bnPowLimit else bnNew) false.

Definition GetNextWorkRequiredBTC (pindexLast : ptr) (pblockTime : Z) : option Z :=
  b ← m !! pindexLast;
  nProofOfWorkLimit ← GetCompact bnPowLimit false;
  if negb (Z.rem (nHeight b + 1) (DifficultyAdjustmentInterval params) =? 0) then
    if fPowAllowMinDifficultyBlocks params then
      if pblockTime >? GetBlockTime b + nPowTargetSpacing params * 2 then Some nProofOfWorkLimit
      else last_non_special (Z.to_nat (nHeight b)) pindexLast nProofOfWorkLimit
    else Some (nBits b)
  else
    let nHeightFirst := nHeight b - (DifficultyAdjustmentInterval params - 1) in
    if nHeightFirst <? 0 then None (* assert *)
    else
      pindexFirst ← GetAncestor m pindexLast nHeightFirst;
      pindexFirst ← pindexFirst; (* assert(pindexFirst) *)
      bf ← m !! pindexFirst;
      CalculateNextWorkRequired pindexLast (GetBlockTime bf).

(** The rule in force before the dual-algorithm fork. *)
Definition GetNextWorkRequired (IsDGWActive : Z -> bool) (pindexLast : ptr) (pblockTime : Z) : option Z :=
  dgw ← DarkGravityWave pindexLast pblockTime;
  btc ← GetNextWorkRequiredBTC pindexLast pblockTime;
  b ← m !! pindexLast;
  Some (if IsDGWActive (nHeight b + 1) then dgw else btc).

(** The window [dgwWindow] is zero, so the loop never runs. *)
Definition IsTransitioningToX16rt (pindexLast : ptr) (pblockTime : Z) : option bool :=
  if pblockTime <=? nX16rtTimestamp params then Some false
  else b ← m !! pindexLast; Some (nTime b <=? nX16rtTimestamp params).

(** ** LWMA, first version *)

(** Find the [N]-th block of the wanted type backwards; the inner [None] is
    the early return of the limit at the fork point. *)
Fixpoint find_previous (fuel : nat) (powType blocksFound N : Z) (p : ptr) : option (option ptr) :=
  match fuel with
  | O => None
  | S fuel =>
      b ← m !! p;
      if nTime b <? pow_powForkTime params then Some None
      else if negb (GetPoWType (nVersion b) =? powType) then
        q ← pprev b; find_previous fuel powType blocksFound N q
      else if blocksFound + 1 =? N then Some (Some p)
      else q ← pprev b; find_previous fuel powType (blocksFound + 1) N q
  end.

(** The weighted sum over the [N] most recent blocks of the wanted type. *)
Fixpoint lwma1_loop (fuel : nat) (powType N k T blocksFound j previousTimestamp sumWeightedSolvetimes : Z)
    (avgTarget : list Z) (p : ptr) : option (list Z * Z) :=
  if blocksFound <? N then
    match fuel with
    | O => None
    | S fuel =>
        b ← m !! p;
        if negb (GetPoWType (nVersion b) =? powType) then
          q ← pprev b;
          lwma1_loop fuel powType N k T blocksFound j previousTimestamp sumWeightedSolvetimes avgTarget q
        else
          let thisTimestamp := if GetBlockTime b >? previousTimestamp then GetBlockTime b
                               else previousTimestamp + 1 in
          let solvetime := Z.min (6 * T) (thisTimestamp - previousTimestamp) in
          let j := j + 1 in
          let sumWeightedSolvetimes := sumWeightedSolvetimes + solvetime * j in
          d1 ← div_int (target_of (nBits b)) N;
          d2 ← div_int d1 k;
          let avgTarget := op_add W256 avgTarget d2 in
          q ← pprev b; (* assert(pindexLast->pprev) *)
          lwma1_loop fuel powType N k T (blocksFound + 1) j thisTimestamp sumWeightedSolvetimes avgTarget q
    end
  else Some (avgTarget, sumWeightedSolvetimes).

Definition GetNextWorkRequiredLWMA1 (pindexLast : ptr) (pblockTime powType : Z) : option Z :=
  let T := nPowTargetSpacing params * 2 in
  let N := 90 in
  let k := Z.quot (N * (N + 1) * T) 2 in
  b ← m !! pindexLast;
  if fPowAllowMinDifficultyBlocks params && (pblockTime >? GetBlockTime b + T * 10)
  then GetCompact bnPowLimit false
  else if nHeight b <? N then GetCompact bnPowLimit false
  else
    let fuel := Z.to_nat (nHeight b + 1) in
    r ← find_previous fuel powType 0 N pindexLast;
    match r with
    | None => GetCompact bnPowLimit false
    | Some q =>
        bq ← m !! q;
        '(avgTarget, sum) ← lwma1_loop fuel powType N k T 0 0 (GetBlockTime bq) 0 (base_uint_zero W256) pindexLast;
        let nextTarget := mul_int avgTarget sum in
        GetCompact (if gt256 nextTarget bnPowLimit then bnPowLimit else nextTarget) false
    end.

(** ** LWMA, second version *)

(** [for (int i = height - N; i < height; i++)]; the result is
    [(sum_target, t, blocksFound)]. *)
Fixpoint lwma2_loop (n : nat) (powType N k i t j blocksFound : Z) (sum_target : list Z) (pindexLast : ptr) :
    option (list Z * Z * Z) :=
  match n with
  | O => Some (sum_target, t, blocksFound)
  | S n =>
      b ← m !! pindexLast;
      if negb (GetPoWType (nVersion b) =? powType) then
        q ← pprev b;
        lwma2_loop n powType N k (i + 1) t j blocksFound sum_target q
      else
        let blocksFound := blocksFound + 1 in
        block ← GetAncestor m pindexLast i;
        block ← block; (* block->GetAncestor(i - 1) *)
        block_Prev ← GetAncestor m block (i - 1);
        match block_Prev with
        | None =>
            q ← pprev b;
            lwma2_loop n powType N k (i + 1) t j blocksFound sum_target q
        | Some bp =>
            bb ← m !! block;
            bpp ← m !! bp;
            let solvetime := GetBlockTime bb - GetBlockTime bpp in
            let j := i32 (j + 1) in
            let t := i32 (t + solvetime * j) in
            d ← div_int (target_of (nBits bb)) (k * N * N);
            lwma2_loop n powType N k (i + 1) t j blocksFound (op_add W256 sum_target d) pindexLast
        end
  end.

Definition GetNextWorkRequiredLWMA2 (pindexLast : ptr) (pblockTime powType : Z) : option Z :=
  let N := lwmaAveragingWindow params in
  let k := 1277 in
  b ← m !! pindexLast;
  let height := nHeight b + 1 in
  if negb (height >? N) then None (* assert(height > N) *)
  else if fPowAllowMinDifficultyBlocks params &&
          (pblockTime >? GetBlockTime b + nPowTargetSpacing params * 2)
  then GetCompact bnPowLimit false
  else if fPowNoRetargeting params then Some (nBits b)
  else
    '(sum_target, t, blocksFound) ←
      lwma2_loop (Z.to_nat N) powType N k (height - N) 0 0 0 (base_uint_zero W256) pindexLast;
    let t := if t <? Z.quot (N * k) 3 then i32 (Z.quot (N * k) 3) else t in
    let next_target := int_mul t sum_target in
    let next_target := if gt256 next_target bnPowLimit then bnPowLimit else next_target in
    if blocksFound =? 0 then GetCompact bnPowLimit false else GetCompact next_target false.

(** ** LWMA, third version *)

(** Collect [N + 1] blocks of the wanted type; the inner [None] is the early
    return of the limit. *)
Fixpoint same_algo_blocks (fuel : nat) (powType N c : Z) (pindexLast : ptr) (found : list CBlockIndex) :
    option (option (list CBlockIndex)) :=
  if Z.of_nat (length found) <? N + 1 then
    match fuel with
    | O => None
    | S fuel =>
        block ← GetAncestor m pindexLast c;
        block ← block; (* block->GetBlockHeader() *)
        b ← m !! block;
        let found := if GetPoWType (nVersion b) =? powType then found ++ [b] else found in
        if c <? 100 then Some None
        else same_algo_blocks fuel powType N (c - 1) pindexLast found
    end
  else Some (Some found).

(** [for (int i = N; i > 0; i--)]: the result is [(sum_target, t)]. *)
Fixpoint lwma3_loop (i : nat) (blocks : list CBlockIndex) (N k T t j : Z) (sum_target : list Z) :
    option (list Z * Z) :=
  match i with
  | O => Some (sum_target, t)
  | S i' =>
      block ← blocks !! i';
      block_Prev ← blocks !! S i';
      let solvetime := Z.min (GetBlockTime block - GetBlockTime block_Prev) (6 * T) in
      let solvetime := if solvetime <? 1 then 1 else solvetime in
      let j := j + 1 in
      let t := t + solvetime * j in
      d1 ← div_int (target_of (nBits block)) N;
      d2 ← div_int d1 k;
      lwma3_loop i' blocks N k T t j (op_add W256 sum_target d2)
  end.

Definition GetNextWorkRequiredLWMA3 (pindexLast : ptr) (powType : Z) : option Z :=
  limit ← powTypeLimits params !! Z.to_nat powType;
  let powLimit := UintToArith256 limit in
  let T := nPowTargetSpacing params * 2 in
  let N := 60 in
  let k := Z.quot (N * (N + 1) * T) 2 in
  b ← m !! pindexLast;
  r ← same_algo_blocks (Z.to_nat (nHeight b + 2)) powType N (nHeight b) pindexLast [];
  match r with
  | None => GetCompact powLimit false
  | Some blocks =>
      '(sum_target, t) ← lwma3_loop (Z.to_nat N) blocks N k T 0 0 (base_uint_zero W256);
      let next_target := int_mul t sum_target in
      GetCompact (if gt256 next_target powLimit then powLimit else next_target) false
  end.

(** The dispatcher of the dual-algorithm chain. *)
Definition GetNextWorkRequiredLWMA (pindexLast : ptr) (pblockTime powType : Z) : option Z :=
  b ← m !! pindexLast;
  if nHeight b <? diffRetargetFix params then GetNextWorkRequiredLWMA1 pindexLast pblockTime powType
  else if (nHeight b >=? diffRetargetFix params) && (GetBlockTime b <? diffRetargetTake2 params)
  then GetNextWorkRequiredLWMA2 pindexLast pblockTime powType
  else GetNextWorkRequiredLWMA3 pindexLast powType.

End Retarget.

(** ** Checking a hash *)

(** Compare a hash with the target encoded by [nBits]. *)
Definition CheckProofOfWork (hash : list Z) (nBits : Z) (params : PowParams) : bool :=
  let '(bnTarget, fNegative, fOverflow) := SetCompact nBits in
  if fNegative || EqualTo W256 bnTarget 0 || fOverflow || gt256 bnTarget (UintToArith256 (powLimit params))
  then false
  else negb (gt256 (UintToArith256 hash) bnTarget).

(** [None] is the access of [powTypeLimits] out of range; the other tests
    come first. *)
Definition CheckProofOfWorkDualAlgo (hash : list Z) (nBits : Z) (params : PowParams) (powType : Z) : option bool :=
  let '(bnTarget, fNegative, fOverflow) := SetCompact nBits in
  if fNegative || EqualTo W256 bnTarget 0 || fOverflow then Some false
  else
    limit ← powTypeLimits params !! Z.to_nat powType;
    if gt256 bnTarget (UintToArith256 limit) then Some false
    else Some (negb (gt256 (UintToArith256 hash) bnTarget)).

(** [CheckProofOfWork] of a header; [hash] is [GetHash], read from the cache
    or not. *)
Definition CheckHeaderProofOfWork (hash : list Z) (blockheader : CBlockHeader) (params : PowParams) : option bool :=
  if hdr_nTime blockheader >? diffRetargetTake2 params
  then CheckProofOfWorkDualAlgo hash (hdr_nBits blockheader) params (GetPoWType (hdr_nVersion blockheader))
  else Some (CheckProofOfWork hash (hdr_nBits blockheader) params).
