(* ===== verification/PowTargets.v ===== *)
(** * Correctness of the retargeting rules and of the hash check

    The 256-bit arithmetic of [Pow] is replaced by integer formulas: under
    bounds that the main and test networks satisfy nothing wraps, no
    division or assertion fails, and the compact number returned denotes the
    intended target, cut at the proof-of-work limit. *)

From stdpp Require Import gmap.
From S2P Require Import Prelude Bytes ArithUint256 Compact Chain ActiveChain Pow.

(** ** The operators, when nothing wraps *)

Lemma mul_int_value a n :
  wf256 a -> 0 <= n < 2 ^ 32 -> val256 a * n < 2 ^ 256 ->
  wf256 (mul_int a n) /\ val256 (mul_int a n) = val256 a * n.
Proof.
  intros Ha Hn Hlt. unfold mul_int. rewrite wrapu_small by lia.
  destruct (op_mul32_value W256 a n Ha Hn) as [Hw Hv]. split; [done |].
  rewrite Hv. apply Z.mod_small. pose proof (value_range W256 a Ha).
  change (2 ^ (32 * Z.of_nat W256)) with (2 ^ 256). nia.
Qed.

Lemma int_mul_value n a :
  wf256 a -> 0 <= n < 2 ^ 64 -> n * val256 a < 2 ^ 256 ->
  wf256 (int_mul n a) /\ val256 (int_mul n a) = n * val256 a.
Proof.
  intros Ha Hn Hlt. unfold int_mul. rewrite wrapu_small by lia.
  destruct (of_u64_value n Hn) as [Hwn Hvn].
  destruct (op_mul_value W256 (of_u64 n) a Hwn Ha) as [Hw Hv]. split; [done |].
  rewrite Hv, Hvn. apply Z.mod_small. pose proof (value_range W256 a Ha).
  change (2 ^ (32 * Z.of_nat W256)) with (2 ^ 256). nia.
Qed.

Lemma div_int_value a n :
  wf256 a -> 0 < n < 2 ^ 64 ->
  exists q, div_int a n = Some q /\ wf256 q /\ val256 q = val256 a / n.
Proof.
  intros Ha Hn. unfold div_int. rewrite wrapu_small by lia.
  destruct (of_u64_value n) as [Hwn Hvn]; [lia |].
  destruct (op_div_value W256 a (of_u64 n) Ha Hwn) as (q & ? & ? & E); [lia |].
  exists q. rewrite Hvn in E. done.
Qed.

Lemma add_value a b :
  wf256 a -> wf256 b -> val256 a + val256 b < 2 ^ 256 ->
  wf256 (op_add W256 a b) /\ val256 (op_add W256 a b) = val256 a + val256 b.
Proof.
  intros Ha Hb Hlt. destruct (op_add_value W256 a b Ha Hb) as [Hw Hv]. split; [done |].
  rewrite Hv. apply Z.mod_small. pose proof (value_range W256 a Ha). pose proof (value_range W256 b Hb).
  change (2 ^ (32 * Z.of_nat W256)) with (2 ^ 256). lia.
Qed.

Lemma gt256_value a b : wf256 a -> wf256 b -> gt256 a b = (val256 b <? val256 a).
Proof. apply CompareTo_gt. Qed.

Lemma compact_value_nonneg c : 0 <= c < 2 ^ 32 -> 0 <= compact_value c.
Proof.
  intros Hc. unfold compact_value. pose proof (compact_word_range c). pose proof (compact_size_range c Hc).
  destruct (Z.leb_spec (compact_size c) 3).
  - apply Z.div_pos; [lia |]. apply Z.pow_pos_nonneg; lia.
  - apply Z.mul_nonneg_nonneg; [lia |]. apply Z.pow_nonneg. lia.
Qed.

Lemma target_of_value c :
  0 <= c < 2 ^ 32 -> compact_value c < 2 ^ 256 ->
  wf256 (target_of c) /\ val256 (target_of c) = compact_value c.
Proof.
  intros Hc Hlt. destruct (SetCompact_eq c Hc) as (a & E & Hw & Hv).
  unfold target_of. rewrite E. cbn. split; [done |].
  rewrite Hv. apply Z.mod_small. pose proof (compact_value_nonneg c Hc). lia.
Qed.

(** ** What a returned compact number denotes *)

(** [c] is a non-negative compact number for [v], up to the precision of the
    encoding. *)
Definition denotes (c v : Z) : Prop :=
  0 <= c < 2 ^ 32 /\ Z.testbit c 23 = false /\ compact_value c = truncate_target v.

Lemma GetCompact_denotes a :
  wf256 a -> exists c, GetCompact a false = Some c /\ denotes c (val256 a).
Proof.
  intros Ha. pose proof (value_range W256 a Ha) as Hv. change (32 * Z.of_nat 8) with 256 in Hv.
  rewrite GetCompact_eq by done. eexists. split; [done |]. cbn [andb]. rewrite Z.add_0_r.
  destruct (compact_of_target _ Hv) as (? & _ & _ & ?). unfold denotes.
  rewrite compact_value_target by done. done.
Qed.

Lemma GetCompact_capped a limit :
  wf256 a -> wf256 limit ->
  exists c, GetCompact (if gt256 a limit then limit else a) false = Some c /\
    denotes c (Z.min (val256 a) (val256 limit)).
Proof.
  intros Ha Hl. rewrite gt256_value by done. destruct (Z.ltb_spec (val256 limit) (val256 a)).
  - rewrite Z.min_r by lia. by apply GetCompact_denotes.
  - rewrite Z.min_l by lia. by apply GetCompact_denotes.
Qed.

(** ** Blocks below a block *)

(** [pindex], [pindex->pprev], ...: [n] blocks. *)
Fixpoint blocks_down (m : gmap ptr CBlockIndex) (n : nat) (p : ptr) : list CBlockIndex :=
  match n with
  | O => []
  | S n => match m !! p with
           | None => []
           | Some b => b :: match pprev b with None => [] | Some q => blocks_down m n q end
           end
  end.

Definition targets (l : list CBlockIndex) : list Z := map (fun b => compact_value (nBits b)) l.

(** A 32-byte limit with value [L]. *)
Definition limit_ok (limit : list Z) (L : Z) : Prop :=
  length limit = 32%nat /\ Forall byte_ok limit /\ le_decode limit = L.

Lemma limit_value limit L :
  limit_ok limit L -> wf256 (UintToArith256 limit) /\ val256 (UintToArith256 limit) = L.
Proof. intros (Hl & Hb & <-). by apply UintToArith256_spec. Qed.

(** A block that claims a target of at most [L]. *)
Definition within (L : Z) (b : CBlockIndex) : Prop := 0 <= nBits b < 2 ^ 32 /\ compact_value (nBits b) <= L.

(** Every block of the tree does. *)
Definition bits_ok (m : gmap ptr CBlockIndex) (L : Z) : Prop := map_Forall (fun _ => within L) m.

Lemma bits_ok_target m L p b :
  bits_ok m L -> L < 2 ^ 256 -> m !! p = Some b ->
  wf256 (target_of (nBits b)) /\ val256 (target_of (nBits b)) = compact_value (nBits b) /\
  0 <= compact_value (nBits b) <= L.
Proof.
  intros Hm HL Hp. destruct (Hm p b Hp) as [Hr Hle].
  destruct (target_of_value (nBits b)) as [? ?]; [done | lia |].
  pose proof (compact_value_nonneg _ Hr). done.
Qed.

Lemma clamp_range x lo hi : lo <= hi -> lo <= clamp x lo hi <= hi.
Proof. unfold clamp. rewrite Z.gtb_ltb. destruct (Z.ltb_spec x lo); bdestruct_all; lia. Qed.

(** ** DarkGravityWave *)

(** Its running "average": block [n] is averaged with weight [1] against [n]. *)
Fixpoint dgw_avg (n avg : Z) (ts : list Z) : Z :=
  match ts with
  | [] => avg
  | t :: ts => dgw_avg (n + 1) ((avg * n + t) / (n + 1)) ts
  end.

Definition dgw_average (ts : list Z) : Z :=
  match ts with [] => 0 | t :: ts => dgw_avg 2 t ts end.

Lemma dgw_step_bounds n avg t lo hi :
  0 <= n -> lo <= avg <= hi -> lo <= t <= hi -> lo <= (avg * n + t) / (n + 1) <= hi.
Proof.
  intros Hn Ha Ht. split.
  - apply Z.div_le_lower_bound; nia.
  - apply Z.div_le_upper_bound; nia.
Qed.

Lemma dgw_avg_bounds ts lo hi : forall n avg,
  0 <= n -> lo <= avg <= hi -> Forall (fun t => lo <= t <= hi) ts -> lo <= dgw_avg n avg ts <= hi.
Proof.
  induction ts as [| t ts IH]; intros n avg Hn Ha Hts; [done |].
  apply Forall_cons in Hts as [Ht Hts]. cbn [dgw_avg].
  apply IH; [lia | by apply dgw_step_bounds | done].
Qed.

Lemma dgw_loop_S m n c p avg b :
  m !! p = Some b ->
  dgw_loop m (S n) c p avg =
  (avg ← (if c =? 1 then Some (target_of (nBits b))
          else div_int (op_add W256 (mul_int avg c) (target_of (nBits b))) (u32 (c + 1)));
   pindex ← (if negb (c =? nPastBlocks) then pprev b else Some p);
   dgw_loop m n (c + 1) pindex avg).
Proof. intros Hp. cbn [dgw_loop]. by rewrite Hp. Qed.

Lemma blocks_down_S m n p b q :
  m !! p = Some b -> pprev b = Some q -> blocks_down m (S n) p = b :: blocks_down m n q.
Proof. intros Hp Hq. cbn [blocks_down]. by rewrite Hp, Hq. Qed.

Lemma dgw_loop_correct m L n : forall count p b avg,
  wf_store m -> bits_ok m L -> L * 200 < 2 ^ 256 ->
  m !! p = Some b -> Z.of_nat n <= nHeight b -> 2 <= count -> count + Z.of_nat n = nPastBlocks ->
  wf256 avg -> val256 avg <= L ->
  exists a q, dgw_loop m (S n) count p avg = Some (a, q) /\ walk m p n = Some q /\ wf256 a /\
    val256 a = dgw_avg count (val256 avg) (targets (blocks_down m (S n) p)).
Proof.
  induction n as [| n IH]; intros count p b avg Hm Hb HL Hp Hn Hc Hsum Ha Hav;
    unfold nPastBlocks in *;
    destruct (bits_ok_target m L p b Hb ltac:(lia) Hp) as (Htw & Htv & Ht);
    pose proof (value_range W256 avg Ha);
    destruct (mul_int_value avg count Ha) as [Hw1 Hv1]; try nia;
    destruct (add_value _ _ Hw1 Htw) as [Hw2 Hv2]; try nia;
    destruct (div_int_value _ (u32 (count + 1)) Hw2) as (d & Hd & Hdw & Hdv);
    try (rewrite wrapu_small by lia; lia);
    rewrite wrapu_small in Hdv by lia; rewrite Hv2, Hv1, Htv in Hdv;
    pose proof (dgw_step_bounds count (val256 avg) (compact_value (nBits b)) 0 L ltac:(lia) ltac:(lia) Ht).
  - exists d, p. rewrite (dgw_loop_S _ _ _ _ _ b Hp), Hd. unfold nPastBlocks.
    destruct (Z.eqb_spec count 1); [lia |]. destruct (Z.eqb_spec count 180); [| lia].
    cbn [negb mbind option_bind dgw_loop blocks_down walk]. rewrite Hp, Hdv.
    split; [done |]. split; [done |]. split; [done |]. destruct (pprev b); reflexivity.
  - pose proof (Hm p b Hp) as Hi. unfold wf_index in Hi.
    destruct (pprev b) as [q |] eqn:Eq; [| lia]. destruct Hi as (bq & Hq & ? & ? & _).
    destruct (IH (count + 1) q bq d) as (a & r & E & Hwk & Haw & Haval); try done; try lia.
    exists a, r. rewrite (dgw_loop_S _ _ _ _ _ b Hp), (blocks_down_S _ _ _ b q Hp Eq), Hd.
    destruct (Z.eqb_spec count 1); [lia |]. unfold nPastBlocks.
    destruct (Z.eqb_spec count 180); [lia |]. cbn [negb mbind option_bind]. rewrite Eq.
    split; [exact E |]. cbn [walk]. rewrite Hp. cbn [mbind option_bind]. rewrite Eq.
    split; [exact Hwk |]. split; [done |]. by rewrite Haval, Hdv.
Qed.

(** The whole window, from the first iteration. *)
Lemma dgw_window m L p b avg0 :
  wf_store m -> bits_ok m L -> L * 200 < 2 ^ 256 ->
  m !! p = Some b -> nPastBlocks <= nHeight b ->
  exists a q, dgw_loop m (Z.to_nat nPastBlocks) 1 p avg0 = Some (a, q) /\
    walk m p 179 = Some q /\ wf256 a /\
    val256 a = dgw_average (targets (blocks_down m 180 p)).
Proof.
  intros Hm Hb HL Hp Hh. unfold nPastBlocks in *.
  destruct (bits_ok_target m L p b Hb ltac:(lia) Hp) as (Htw & Htv & Ht).
  pose proof (Hm p b Hp) as Hi. unfold wf_index in Hi.
  destruct (pprev b) as [q |] eqn:Eq; [| lia]. destruct Hi as (bq & Hq & ? & ? & _).
  destruct (dgw_loop_correct m L 178 2 q bq (target_of (nBits b))) as (a & r & E & Hwk & Haw & Haval);
    try done; try (unfold nPastBlocks; lia).
  exists a, r. change (Z.to_nat 180) with (S 179).
  rewrite (dgw_loop_S _ _ _ _ _ b Hp), (blocks_down_S _ _ _ b q Hp Eq).
  change (1 =? 1) with true. change (1 =? nPastBlocks) with false. cbn [negb mbind option_bind].
  rewrite Eq. split; [exact E |]. change 179%nat with (S 178) at 1. cbn [walk]. rewrite Hp.
  cbn [mbind option_bind]. rewrite Eq. split; [exact Hwk |]. split; [done |].
  rewrite Haval, Htv. done.
Qed.

(** Retargeting an average [avg] by the ratio [span / T], cut at [L]. *)
Definition retarget (avg span T L : Z) : Z := Z.min (avg * span / T) L.

Lemma retarget_value avg span T L params :
  wf256 avg -> limit_ok (powLimit params) L -> val256 avg <= L ->
  0 <= span < 2 ^ 32 -> 0 < T < 2 ^ 64 -> L * span < 2 ^ 256 ->
  exists c, (bnNew ← div_int (mul_int avg span) T;
             GetCompact (if gt256 bnNew (bnPowLimit params) then bnPowLimit params else bnNew) false) = Some c /\
    denotes c (retarget (val256 avg) span T L).
Proof.
  intros Ha Hl Hle Hs HT HL. pose proof (value_range W256 avg Ha).
  destruct (limit_value _ _ Hl) as [Hlw Hlv].
  destruct (mul_int_value avg span Ha Hs) as [Hmw Hmv]; [nia |].
  destruct (div_int_value _ T Hmw HT) as (q & -> & Hqw & Hqv). cbn [mbind option_bind].
  destruct (GetCompact_capped q _ Hqw Hlw) as (c & E & Hc). exists c.
  split; [exact E |]. unfold retarget. by rewrite <- Hmv, <- Hqv, <- Hlv.
Qed.

Lemma blocks_down_sub m n : forall p, Forall (fun b => exists q, m !! q = Some b) (blocks_down m n p).
Proof.
  induction n as [| n IH]; intros p; [constructor |]. cbn [blocks_down].
  destruct (m !! p) as [b |] eqn:Hp; [| constructor]. constructor; [by exists p |].
  destruct (pprev b); [apply IH | constructor].
Qed.

Lemma targets_bounded m L n p :
  bits_ok m L -> Forall (fun t => 0 <= t <= L) (targets (blocks_down m n p)).
Proof.
  intros Hb. apply Forall_map. eapply Forall_impl; [apply blocks_down_sub |].
  cbn. intros b [q Hq]. destruct (Hb q b Hq). split; [by apply compact_value_nonneg | done].
Qed.

Lemma dgw_average_bounds ts lo hi :
  ts <> [] -> Forall (fun t => lo <= t <= hi) ts -> lo <= dgw_average ts <= hi.
Proof.
  destruct ts as [| t ts]; [done |]. intros _ [Ht Hts]%Forall_cons. by apply dgw_avg_bounds.
Qed.

(** On a chain of at least 181 blocks whose claimed targets are within the
    limit, DarkGravityWave fails no assertion and no 256-bit operation wraps:
    it returns a compact number for [min(avg * span / T, limit)], where [avg]
    is the running average of the targets of the last 180 blocks, a value
    between the smallest and the largest of them, and [span] is the time they
    took, clamped between a third and three times the intended [T]. *)
Theorem DarkGravityWave_retargets (m : gmap ptr CBlockIndex) (params : PowParams) (L p : Z)
    (b : CBlockIndex) (pblockTime : Z) :
  wf_store m -> bits_ok m L -> m !! p = Some b -> nPastBlocks <= nHeight b ->
  fPowAllowMinDifficultyBlocks params && fPowNoRetargeting params = false ->
  limit_ok (powLimit params) L -> 0 < nPowTargetSpacing params < 2 ^ 20 ->
  L * (540 * nPowTargetSpacing params) < 2 ^ 256 -> L * 200 < 2 ^ 256 ->
  let T := nPastBlocks * nPowTargetSpacing params in
  let ts := targets (blocks_down m 180 p) in
  exists q bq c, walk m p 179 = Some q /\ m !! q = Some bq /\
    DarkGravityWave m params p pblockTime = Some c /\
    denotes c (retarget (dgw_average ts) (clamp (GetBlockTime b - GetBlockTime bq) (T / 3) (3 * T)) T L) /\
    forall lo hi, Forall (fun t => lo <= t <= hi) ts -> lo <= dgw_average ts <= hi.
Proof.
  intros Hm Hb Hp Hh Hspec Hl Hsp HL HL' T ts.
  destruct (dgw_window m L p b (base_uint_zero W256)) as (a & q & E & Hq & Haw & Hav); [done.. |].
  destruct (walk_exists m p b 179 Hm Hp) as (r & bq & Hr & Hbq & _); [unfold nPastBlocks in Hh; lia |].
  rewrite Hr in Hq. injection Hq as ->.
  assert (ts <> []) as Hne. { subst ts. cbn [blocks_down]. by rewrite Hp. }
  pose proof (dgw_average_bounds ts 0 L Hne (targets_bounded m L 180 p Hb)) as Hbd. fold ts in Hav.
  set (span := clamp (GetBlockTime b - GetBlockTime bq) (T / 3) (3 * T)).
  assert (0 <= span <= 3 * T) as Hspan.
  { pose proof (clamp_range (GetBlockTime b - GetBlockTime bq) (T / 3) (3 * T)).
    assert (0 <= T / 3 <= 3 * T) by (subst T; unfold nPastBlocks in *; split;
      [apply Z.div_pos; lia | apply Z.div_le_upper_bound; lia]). lia. }
  assert (T = 180 * nPowTargetSpacing params) as HT by done.
  destruct (retarget_value a span T L params) as (c & Ec & Hc); [done | done | lia | lia | lia | nia |].
  exists q, bq, c. split; [done |]. split; [done |]. split.
  - unfold DarkGravityWave. destruct (limit_value _ _ Hl) as [Hlw _].
    fold (bnPowLimit params) in Hlw. destruct (GetCompact_denotes _ Hlw) as (c0 & -> & _). cbn [mbind option_bind].
    rewrite Hp. cbn [mbind option_bind]. destruct (Z.ltb_spec (nHeight b) nPastBlocks); [lia |].
    rewrite Hspec, E. cbn [mbind option_bind]. rewrite Hbq. cbn [mbind option_bind].
    rewrite Z.quot_div_nonneg by (fold T; lia). fold T. rewrite (Z.mul_comm T 3). exact Ec.
  - rewrite <- Hav. split; [done |]. intros lo hi Hlohi. rewrite Hav. by apply dgw_average_bounds.
Qed.

(** ** A concrete chain and concrete parameters *)

Definition uniform_block (version spacing bits i : Z) : CBlockIndex :=
  mkIndex (if i =? 0 then None else Some (i - 1)) None i (base_uint_zero W256) 0
    version (1600000000 + spacing * i) bits 0 0 0 0 0 0 0.

(** [n] blocks with the same target and block spacing; block [i] is at [i]. *)
Definition uniform_chain (version spacing bits n : Z) : gmap ptr CBlockIndex :=
  map_seqZ 0 (uniform_block version spacing bits <$> seqZ 0 n).

Lemma lookup_uniform_chain version spacing bits n p b :
  uniform_chain version spacing bits n !! p = Some b <->
  0 <= p < n /\ b = uniform_block version spacing bits p.
Proof.
  unfold uniform_chain. rewrite lookup_map_seqZ_Some, Z.sub_0_r, list_lookup_fmap, fmap_Some. split.
  - intros (Hp & x & Hx & ->). apply lookup_seqZ in Hx as [-> ?].
    rewrite Z.add_0_l, Z2Nat.id by lia. split; [lia | done].
  - intros [Hp ->]. split; [lia |]. exists p. split; [| done]. apply lookup_seqZ. lia.
Qed.

Lemma uniform_chain_wf version spacing bits n : wf_store (uniform_chain version spacing bits n).
Proof.
  intros p b [Hp ->]%lookup_uniform_chain. unfold wf_index, uniform_block. cbn.
  destruct (Z.eqb_spec p 0) as [-> |]; [done |].
  exists (uniform_block version spacing bits (p - 1)).
  split; [apply lookup_uniform_chain; split; [lia | done] |]. cbn. split_and!; try lia. by left.
Qed.

Lemma uniform_chain_bits version spacing bits n L :
  0 <= bits < 2 ^ 32 -> compact_value bits <= L -> bits_ok (uniform_chain version spacing bits n) L.
Proof. intros Hb HL p b [_ ->]%lookup_uniform_chain. done. Qed.

(** The main network's limits: 236 and 244 one bits. *)
Definition mainnet_params : PowParams :=
  mkPowParams (replicate 29 255 ++ [15; 0; 0]) false false 30 (2016 * 30) 0 1638847407 275109 1639269000 45
    [replicate 29 255 ++ [15; 0; 0]; replicate 30 255 ++ [15; 0]].

Lemma mainnet_limits :
  limit_ok (powLimit mainnet_params) (2 ^ 236 - 1) /\
  limit_ok (replicate 30 255 ++ [15; 0]) (2 ^ 244 - 1).
Proof. split; (split; [done |]); (split; [repeat constructor; unfold byte_ok; lia | done]). Qed.

(** ** The two-week rule *)

(** Without the special rules of the test networks, the two-week rule keeps
    the previous compact target inside a retargeting period; at its end, when
    the height has reached one period, it looks up the first block of the
    period, fails no assertion, wraps nothing, and returns a compact number
    for [min(target * span / T, limit)], with [span] the time the period took,
    clamped between a quarter and four times the intended [T]. *)
Theorem GetNextWorkRequiredBTC_retargets (m : gmap ptr CBlockIndex) (params : PowParams) (L p : Z)
    (b : CBlockIndex) (pblockTime : Z) :
  wf_store m -> bits_ok m L -> m !! p = Some b ->
  fPowAllowMinDifficultyBlocks params = false -> fPowNoRetargeting params = false ->
  limit_ok (powLimit params) L -> 0 < nPowTargetSpacing params ->
  nPowTargetSpacing params <= nPowTargetTimespan params < 2 ^ 30 ->
  L * (4 * nPowTargetTimespan params) < 2 ^ 256 ->
  let I := DifficultyAdjustmentInterval params in
  let T := nPowTargetTimespan params in
  ((nHeight b + 1) mod I <> 0 -> GetNextWorkRequiredBTC m params p pblockTime = Some (nBits b)) /\
  ((nHeight b + 1) mod I = 0 ->
   exists q bq c, ancestor_at m p (nHeight b - (I - 1)) = Some q /\ m !! q = Some bq /\
     nHeight bq = nHeight b - (I - 1) /\
     GetNextWorkRequiredBTC m params p pblockTime = Some c /\
     denotes c (retarget (compact_value (nBits b))
                  (clamp (GetBlockTime b - GetBlockTime bq) (T / 4) (4 * T)) T L)).
Proof.
  intros Hm Hb Hp Hmin Hno Hl Hsp HT HL I T.
  assert (0 < T) as HT0 by (subst T; lia).
  assert (1 <= I) as HI.
  { subst I. unfold DifficultyAdjustmentInterval. rewrite Z.quot_div_nonneg by lia.
    apply Z.div_le_lower_bound; lia. }
  pose proof (wf_height m p b Hm Hp) as Hh.
  destruct (limit_value _ _ Hl) as [Hlw _]. fold (bnPowLimit params) in Hlw.
  destruct (GetCompact_denotes _ Hlw) as (c0 & Ec0 & _).
  unfold GetNextWorkRequiredBTC. rewrite Hp. cbn [mbind option_bind]. rewrite Ec0. cbn [mbind option_bind].
  fold I. rewrite Z.rem_mod_nonneg, Hmin by lia. split; intros Hmod.
  { destruct (Z.eqb_spec ((nHeight b + 1) mod I) 0); done. }
  rewrite Hmod. cbn [negb Z.eqb]. apply Z.div_exact in Hmod; [| lia].
  assert (1 <= (nHeight b + 1) / I) by nia. assert (I <= nHeight b + 1) as HIh by nia.
  destruct (ancestor_at_some m p b (nHeight b - (I - 1)) Hm Hp) as (q & bq & Hq & Hbq & Hqh); [lia |].
  destruct (Z.ltb_spec (nHeight b - (I - 1)) 0); [lia |].
  rewrite (GetAncestor_eq m p b) by done. rewrite Hq. cbn [mbind option_bind]. rewrite Hbq. cbn [mbind option_bind].
  unfold CalculateNextWorkRequired. rewrite Hp. cbn [mbind option_bind]. rewrite Hno.
  rewrite Z.quot_div_nonneg by lia. fold T. rewrite (Z.mul_comm T 4).
  assert (0 <= T / 4 <= 4 * T) as Hq4 by (split; [apply Z.div_pos; lia | apply Z.div_le_upper_bound; lia]).
  pose proof (clamp_range (GetBlockTime b - GetBlockTime bq) (T / 4) (4 * T) ltac:(lia)) as Hspan.
  set (span := clamp _ _ _) in *.
  assert (0 <= L) as HL0 by (destruct Hl as (_ & Hbytes & <-); by apply le_decode_range).
  assert (L < 2 ^ 256) by nia.
  destruct (bits_ok_target m L p b Hb ltac:(done) Hp) as (Htw & Htv & Ht).
  destruct (retarget_value (target_of (nBits b)) span T L params) as (c & Ec & Hc);
    [done | done | lia | lia | lia | subst T; nia |].
  exists q, bq, c. rewrite <- Htv. done.
Qed.

(** The end of a period of four blocks. *)
(** ** LWMA-3 *)

Fixpoint zsum (f : nat -> Z) (n : nat) : Z :=
  match n with O => 0 | S n => zsum f n + f n end.

Lemma zsum_le f g n : (forall i, (i < n)%nat -> f i <= g i) -> zsum f n <= zsum g n.
Proof.
  induction n as [| n IH]; intros H; [done |]. cbn [zsum].
  pose proof (H n ltac:(lia)). pose proof (IH ltac:(intros i Hi; apply H; lia)). lia.
Qed.

Lemma zsum_scale f c n : zsum (fun i => f i * c) n = zsum f n * c.
Proof. induction n as [| n IH]; cbn [zsum]; lia. Qed.

Lemma zsum_const c n : zsum (fun _ => c) n = Z.of_nat n * c.
Proof. induction n as [| n IH]; cbn [zsum]; lia. Qed.

(** The blocks of type [powType] among the blocks of height at least 100
    below block [q] of height [c], newest first. *)
Definition same_algo (m : gmap ptr CBlockIndex) (powType c : Z) (q : ptr) : list CBlockIndex :=
  List.filter (fun b => GetPoWType (nVersion b) =? powType) (blocks_down m (Z.to_nat (c - 99)) q).

Lemma same_algo_blocks_correct m powType N p b fuel : forall c q bq found,
  wf_store m -> m !! p = Some b -> 0 <= N ->
  ancestor_at m p c = Some q -> m !! q = Some bq -> nHeight bq = c ->
  Z.of_nat (length found) <= N + 1 -> Z.max 1 (c - 98) <= Z.of_nat fuel ->
  same_algo_blocks m fuel powType N c p found =
  Some (let l := found ++ same_algo m powType c q in
        if N + 1 <=? Z.of_nat (length l) then Some (take (Z.to_nat (N + 1)) l) else None).
Proof.
  induction fuel as [| fuel IH]; intros c q bq found Hm Hp HN Hq Hbq Hc Hf Hfuel; [lia |].
  cbn [same_algo_blocks]. destruct (Z.ltb_spec (Z.of_nat (length found)) (N + 1)) as [Hlt | Hge].
  2: { cbn zeta. destruct (Z.leb_spec (N + 1) (Z.of_nat (length (found ++ same_algo m powType c q)))) as [_ | Hl];
         [| rewrite length_app in Hl; lia].
       rewrite take_app_le, take_ge by lia. done. }
  rewrite (GetAncestor_eq m p b), Hq by done. cbn [mbind option_bind]. rewrite Hbq. cbn [mbind option_bind].
  destruct (Z.ltb_spec c 100) as [H100 | H100].
  { cbn zeta. unfold same_algo. replace (Z.to_nat (c - 99)) with 0%nat by lia. cbn [blocks_down List.filter].
    rewrite app_nil_r. bdestruct_all. }
  pose proof (Hm q bq Hbq) as Hi. unfold wf_index in Hi.
  destruct (pprev bq) as [r |] eqn:Er; [| lia]. destruct Hi as (br & Hr & Hr0 & Hh & _).
  assert (ancestor_at m p (c - 1) = Some r) as Har.
  { assert (ancestor_at m q (c - 1) = Some r) as Hqr.
    { unfold ancestor_at. rewrite Hbq. cbn. rewrite Z.gtb_ltb. bdestruct_all.
      replace (Z.to_nat (nHeight bq - (c - 1))) with 1%nat by lia. cbn. rewrite Hbq. cbn. by rewrite Er. }
    rewrite <- Hqr. apply (ancestor_at_trans m p q (c - 1) c bq); try done. lia. }
  rewrite (IH (c - 1) r br); try done; try lia.
  - f_equal. cbn zeta. unfold same_algo. replace (Z.to_nat (c - 99)) with (S (Z.to_nat (c - 1 - 99))) by lia.
    rewrite (blocks_down_S m _ q bq r) by done. cbn [List.filter].
    destruct (GetPoWType (nVersion bq) =? powType); [| done]. rewrite <- app_assoc. done.
  - destruct (GetPoWType (nVersion bq) =? powType); rewrite ?length_app; cbn [length]; lia.
Qed.

(** Solve time and target of the [i]-th newest of the collected blocks. *)
Definition lwma_solvetime (T : Z) (blocks : list CBlockIndex) (i : nat) : Z :=
  match blocks !! i, blocks !! S i with
  | Some b, Some b' => clamp (GetBlockTime b - GetBlockTime b') 1 (6 * T)
  | _, _ => 0
  end.

Definition lwma_target (blocks : list CBlockIndex) (i : nat) : Z :=
  match blocks !! i with Some b => compact_value (nBits b) | None => 0 end.

Lemma lwma3_loop_correct L blocks N k T i : forall t j sum,
  L < 2 ^ 256 -> Forall (within L) blocks ->
  (N < length blocks)%nat -> (i <= N)%nat -> 0 < T -> 0 < k < 2 ^ 64 -> 0 < Z.of_nat N < 2 ^ 32 ->
  j = Z.of_nat N - Z.of_nat i -> wf256 sum -> val256 sum <= j * (L / Z.of_nat N / k) ->
  exists sum', lwma3_loop i blocks (Z.of_nat N) k T t j sum =
      Some (sum', t + zsum (fun x => (Z.of_nat N - Z.of_nat x) * lwma_solvetime T blocks x) i) /\
    wf256 sum' /\ val256 sum' = val256 sum + zsum (fun x => lwma_target blocks x / Z.of_nat N / k) i.
Proof.
  induction i as [| i IH]; intros t j sum HL Hsub Hlen Hi HT Hk HN Hj Hw Hv.
  { exists sum. cbn [lwma3_loop zsum]. by rewrite !Z.add_0_r. }
  cbn [lwma3_loop zsum]. unfold lwma_solvetime at 2, lwma_target at 2.
  destruct (lookup_lt_is_Some_2 blocks i) as [b Hbi]; [lia |].
  destruct (lookup_lt_is_Some_2 blocks (S i)) as [b' Hbi']; [lia |].
  rewrite Hbi, Hbi'. cbn [mbind option_bind].
  destruct (Forall_lookup_1 _ _ _ _ Hsub Hbi) as [Hr Hle]. pose proof (compact_value_nonneg _ Hr).
  destruct (target_of_value (nBits b)) as [Htw Htv]; [done | lia |].
  destruct (div_int_value _ (Z.of_nat N) Htw) as (d1 & -> & Hd1w & Hd1v); [lia |]. cbn [mbind option_bind].
  destruct (div_int_value _ k Hd1w Hk) as (d2 & -> & Hd2w & Hd2v). cbn [mbind option_bind].
  rewrite Hd1v, Htv in Hd2v.
  assert (0 <= val256 d2 <= L / Z.of_nat N / k) as Hd2.
  { rewrite Hd2v. split; [apply Z.div_pos; [apply Z.div_pos |]; lia |].
    apply Z.div_le_mono; [lia |]. apply Z.div_le_mono; lia. }
  assert (Z.of_nat N * (L / Z.of_nat N / k) <= L) as Hcap.
  { assert (L / Z.of_nat N / k <= L / Z.of_nat N) by (apply Z.div_le_upper_bound; [lia |];
      assert (0 <= L / Z.of_nat N) by (apply Z.div_pos; lia); nia).
    pose proof (Z.mul_div_le L (Z.of_nat N) ltac:(lia)). nia. }
  destruct (add_value sum d2 Hw Hd2w) as [Haw Hav]; [nia |].
  destruct (IH (t + clamp (GetBlockTime b - GetBlockTime b') 1 (6 * T) * (j + 1)) (j + 1)
              (op_add W256 sum d2)) as (sum' & E & Hw' & Hv'); try done; try lia.
  exists sum'. split; [| split; [done |]; rewrite Hv', Hav, Hd2v; lia].
  assert (clamp (GetBlockTime b - GetBlockTime b') 1 (6 * T) =
          (if Z.min (GetBlockTime b - GetBlockTime b') (6 * T) <? 1 then 1
           else Z.min (GetBlockTime b - GetBlockTime b') (6 * T))) as <-.
  { unfold clamp. rewrite Z.gtb_ltb. destruct (Z.ltb_spec (GetBlockTime b - GetBlockTime b') 1); bdestruct_all; lia. }
  rewrite E. do 2 f_equal. subst j. lia.
Qed.

(** The weights add up: [t] is at most six times the divisor [k]. *)
Lemma lwma_sum_bounds T blocks :
  0 < T -> (60 < length blocks)%nat ->
  1830 <= zsum (fun x => (60 - Z.of_nat x) * lwma_solvetime T blocks x) 60 <= 6 * (1830 * T).
Proof.
  intros HT Hlen.
  assert (forall i, (i < 60)%nat -> 1 <= lwma_solvetime T blocks i <= 6 * T) as Hs.
  { intros i Hi. unfold lwma_solvetime.
    destruct (lookup_lt_is_Some_2 blocks i) as [b ->]; [lia |].
    destruct (lookup_lt_is_Some_2 blocks (S i)) as [b' ->]; [lia |]. apply clamp_range. lia. }
  split.
  - transitivity (zsum (fun x => (60 - Z.of_nat x) * 1) 60); [done |].
    apply zsum_le. intros i Hi. specialize (Hs i Hi). nia.
  - transitivity (zsum (fun x => (60 - Z.of_nat x) * (6 * T)) 60).
    + apply zsum_le. intros i Hi. specialize (Hs i Hi). nia.
    + rewrite zsum_scale. change (zsum (fun x => 60 - Z.of_nat x) 60) with 1830. lia.
Qed.

Lemma same_algo_sub m powType c q : Forall (fun b => exists r, m !! r = Some b) (same_algo m powType c q).
Proof.
  unfold same_algo. apply Forall_forall. intros b Hb.
  apply list_elem_of_In, filter_In in Hb as [Hb _]. apply list_elem_of_In in Hb.
  pose proof (blocks_down_sub m (Z.to_nat (c - 99)) q) as Hall. rewrite Forall_forall in Hall. by apply Hall.
Qed.

(** C12: The retargeting rule in force after the dual-algorithm fork.  On a
    well-formed block tree, with a limit [L] of the algorithm such that [6L] is
    below [2^256] (both limits of the main network are, the limit of the
    regression test network is not) and the blocks of this algorithm above
    height 99 within [L], the rule fails no assertion and wraps nothing.  It
    considers these blocks only: with fewer than 61 of them it returns the limit;
    otherwise it returns a compact number for [min(t * s, L)], where [t] is the
    linearly weighted sum of the last 60 solve times, each clamped between 1
    second and [6T], and [s] is the sum of the 60 targets divided by [60 * k].
    The unclamped value is at most [6L].  ([GetNextWorkRequiredLWMA3_total] says
    that the rule returns without these bounds too.) *)
Theorem GetNextWorkRequiredLWMA3_retargets (m : gmap ptr CBlockIndex) (params : PowParams) (L p powType : Z)
    (b : CBlockIndex) (limit : list Z) :
  wf_store m -> m !! p = Some b ->
  powTypeLimits params !! Z.to_nat powType = Some limit -> limit_ok limit L -> 6 * L < 2 ^ 256 ->
  0 < nPowTargetSpacing params < 2 ^ 30 ->
  let T := nPowTargetSpacing params * 2 in
  let k := 1830 * T in
  let own := same_algo m powType (nHeight b) p in
  let t := zsum (fun x => (60 - Z.of_nat x) * lwma_solvetime T (take 61 own) x) 60 in
  let s := zsum (fun x => lwma_target (take 61 own) x / 60 / k) 60 in
  Forall (within L) own ->
  exists c, GetNextWorkRequiredLWMA3 m params p powType = Some c /\
    denotes c (if (length own <? 61)%nat then L else Z.min (t * s) L) /\
    ((61 <= length own)%nat -> 0 <= t * s <= 6 * L).
Proof.
  intros Hm Hp Hlim Hl HL Hsp T k own t s Hb.
  destruct (limit_value _ _ Hl) as [Hlw Hlv]. pose proof (wf_height m p b Hm Hp) as Hh.
  assert (0 <= L) as HL0 by (destruct Hl as (_ & Hbytes & <-); by apply le_decode_range).
  unfold GetNextWorkRequiredLWMA3. rewrite Hlim. cbn [mbind option_bind]. rewrite Hp. cbn [mbind option_bind].
  assert (ancestor_at m p (nHeight b) = Some p) as Hself.
  { unfold ancestor_at. rewrite Hp. cbn. rewrite Z.gtb_ltb. bdestruct_all. by rewrite Z.sub_diag. }
  rewrite (same_algo_blocks_correct m powType 60 p b _ (nHeight b) p b []) by (done || cbn [length]; lia).
  cbn [mbind option_bind app]. cbn zeta. fold own. change (Z.to_nat (60 + 1)) with 61%nat.
  destruct (Z.leb_spec (60 + 1) (Z.of_nat (length own))) as [Hlen | Hlen].
  2: { destruct (GetCompact_denotes _ Hlw) as (c & Hc & Hd). exists c. split; [done |].
       split; [| lia]. rewrite Hlv in Hd. destruct (Nat.ltb_spec (length own) 61); [done | lia]. }
  assert (length (take 61 own) = 61%nat) as Hl61 by (rewrite length_take; lia).
  replace (Z.quot (60 * (60 + 1) * (nPowTargetSpacing params * 2)) 2) with k
    by (subst k T; rewrite Z.quot_div_nonneg by lia; apply Z.div_unique with 0; lia).
  change (nPowTargetSpacing params * 2) with T. change (Z.to_nat 60) with 60%nat.
  destruct (lwma3_loop_correct L (take 61 own) 60 k T 60 0 0 (base_uint_zero W256))
    as (sum & E & Hsw & Hsv); try done; try (subst k T; lia).
  { by apply Forall_take. }
  { apply wf_zero. }
  change (Z.of_nat 60) with 60 in E, Hsv. rewrite E. cbn [mbind option_bind]. rewrite Z.add_0_l. fold t.
  rewrite value_base_uint_zero, Z.add_0_l in Hsv. fold s in Hsv.
  assert (1830 <= t <= 6 * k) as Ht by (apply lwma_sum_bounds; [subst T; lia | lia]).
  assert (0 <= s <= 60 * (L / 60 / k)) as Hs.
  { pose proof (value_range W256 sum Hsw). split; [lia |].
    subst s. change (60 * (L / 60 / k)) with (Z.of_nat 60 * (L / 60 / k)).
    rewrite <- zsum_const. apply zsum_le. intros i Hi.
    apply Z.div_le_mono; [subst k T; lia |]. apply Z.div_le_mono; [lia |]. unfold lwma_target.
    destruct (take 61 own !! i) as [bi |] eqn:Ei; [| done].
    apply (Forall_lookup_1 _ _ _ _ (Forall_take _ 61 _ Hb) Ei). }
  assert (0 <= t * s <= 6 * L) as Hts.
  { split; [nia |].
    pose proof (Z.mul_div_le (L / 60) k ltac:(subst k T; lia)).
    pose proof (Z.mul_div_le L 60 ltac:(lia)). assert (k * s <= L) by nia. nia. }
  destruct (int_mul_value t sum Hsw) as [Hmw Hmv]; [subst k T; lia | rewrite Hsv; lia |].
  destruct (GetCompact_capped _ _ Hmw Hlw) as (c & Ec & Hc). exists c. split; [exact Ec |].
  rewrite Hmv, Hsv, Hlv in Hc. destruct (Nat.ltb_spec (length own) 61); [lia |].
  split; [exact Hc | intros _; exact Hts].
Qed.

Lemma GetNextWorkRequiredLWMA3_retargets_witness :
  let m := uniform_chain 0x10004 90 0x1d00ffff 200 in
  let own := same_algo m 1 199 199 in
  let t := zsum (fun x => (60 - Z.of_nat x) * lwma_solvetime 60 (take 61 own) x) 60 in
  let s := zsum (fun x => lwma_target (take 61 own) x / 60 / 109800) 60 in
  exists c, GetNextWorkRequiredLWMA3 m mainnet_params 199 1 = Some c /\
    denotes c (if (length own <? 61)%nat then 2 ^ 244 - 1 else Z.min (t * s) (2 ^ 244 - 1)) /\
    ((61 <= length own)%nat -> 0 <= t * s <= 6 * (2 ^ 244 - 1)).
Proof.
  apply (GetNextWorkRequiredLWMA3_retargets (uniform_chain 0x10004 90 0x1d00ffff 200) mainnet_params
           (2 ^ 244 - 1) 199 1 (uniform_block 0x10004 90 0x1d00ffff 199) (replicate 30 255 ++ [15; 0])).
  - apply uniform_chain_wf.
  - apply lookup_uniform_chain. done.
  - done.
  - apply mainnet_limits.
  - done.
  - done.
  - apply Forall_forall. intros b [r Hr]%(proj1 (Forall_forall _ _) (same_algo_sub (uniform_chain 0x10004 90 0x1d00ffff 200) 1 199 199)).
    apply lookup_uniform_chain in Hr as [_ ->]. vm_compute. done.
Defined.

(** ** Checking a hash *)

(** The hash is no larger than the target that [bits] denotes, a positive
    target no larger than [L]. *)
Definition pow_valid (hash : list Z) (bits L : Z) : Prop :=
  Z.testbit bits 23 = false /\ 0 < compact_value bits <= L /\ le_decode hash <= compact_value bits.

Lemma pow_check_iff hash bits limit L :
  length hash = 32%nat -> Forall byte_ok hash -> 0 <= bits < 2 ^ 32 -> limit_ok limit L ->
  let '(bnTarget, fNegative, fOverflow) := SetCompact bits in
  negb (fNegative || EqualTo W256 bnTarget 0 || fOverflow || gt256 bnTarget (UintToArith256 limit)) &&
  negb (gt256 (UintToArith256 hash) bnTarget) = true <-> pow_valid hash bits L.
Proof.
  intros Hlen Hby Hbits Hl. destruct (SetCompact_eq bits Hbits) as (a & -> & Ha & Hv).
  destruct (limit_value _ _ Hl) as [Hlw Hlv]. destruct (UintToArith256_spec hash Hlen Hby) as [Hhw Hhv].
  rewrite EqualTo_value, !gt256_value, Hlv, Hhv, Hv by (done || lia).
  pose proof (compact_value_nonneg bits Hbits) as Hnn.
  assert (L < 2 ^ 256) by (rewrite <- Hlv; apply (value_range W256 _ Hlw)).
  unfold pow_valid. destruct (Z.leb_spec (2 ^ 256) (compact_value bits)) as [Hov | Hov].
  { rewrite orb_true_r. cbn. split; [done | lia]. }
  rewrite Z.mod_small, orb_false_r by lia.
  destruct (Z.eqb_spec (compact_value bits) 0) as [-> | Hnz].
  { rewrite orb_true_r. cbn. split; [done | lia]. }
  cbn [negb andb]. rewrite orb_false_r, andb_true_iff, !negb_true_iff, orb_false_iff, !Z.ltb_ge.
  destruct (Z.testbit bits 23); split; intros; intuition (done || lia).
Qed.

(** C13: The proof-of-work check of a header accepts exactly the hashes that are
    no larger than a non-negative, non-zero target within the limit: the common
    limit up to [diffRetargetTake2], the limit of the header's own algorithm
    afterwards.  When, after that time, the header names an algorithm without a
    limit, the check of a positive target that does not overflow reads past the
    end of [powTypeLimits]. *)
Theorem CheckProofOfWork_accepts (hash : list Z) (blockheader : CBlockHeader) (params : PowParams) :
  let type := GetPoWType (hdr_nVersion blockheader) in
  let dual := hdr_nTime blockheader >? diffRetargetTake2 params in
  let bits := hdr_nBits blockheader in
  length hash = 32%nat -> Forall byte_ok hash -> 0 <= bits < 2 ^ 32 ->
  (forall limit L,
     (if dual then powTypeLimits params !! Z.to_nat type else Some (powLimit params)) = Some limit ->
     limit_ok limit L ->
     (CheckHeaderProofOfWork hash blockheader params = Some true <-> pow_valid hash bits L) /\
     is_Some (CheckHeaderProofOfWork hash blockheader params)) /\
  (dual = true -> powTypeLimits params !! Z.to_nat type = None ->
   Z.testbit bits 23 = false -> 0 < compact_value bits < 2 ^ 256 ->
   CheckHeaderProofOfWork hash blockheader params = None).
Proof.
  intros type dual bits Hlen Hby Hbits.
  unfold CheckHeaderProofOfWork, CheckProofOfWorkDualAlgo, CheckProofOfWork.
  fold type dual bits. split.
  - intros limit L Hlim Hl. pose proof (pow_check_iff hash bits limit L Hlen Hby Hbits Hl) as Hiff.
    destruct (SetCompact bits) as [[a fNegative] fOverflow].
    destruct dual; [| injection Hlim as ->]; [rewrite Hlim |];
      destruct (fNegative || EqualTo W256 a 0 || fOverflow); cbn [mbind option_bind orb] in *;
      try destruct (gt256 a (UintToArith256 limit)); cbn [negb andb] in Hiff;
      (split; [rewrite <- Hiff | by eexists]);
      (split; [congruence | intros E; try discriminate E; by rewrite E]).
  - intros -> -> Hs Hv. destruct (SetCompact_eq bits Hbits) as (a & -> & Ha & Hav).
    rewrite EqualTo_value, Hav, Z.mod_small by (done || lia). rewrite Hs, andb_false_r.
    cbn [orb]. bdestruct_all. 
Qed.

(** A difficulty-one header whose hash is small enough passes, checked against
    the common limit; after the fork a header with the unknown algorithm 5 is
    read out of range. *)
Lemma CheckProofOfWork_accepts_witness :
  let hash := replicate 26 7 ++ replicate 6 0 in
  CheckHeaderProofOfWork hash (mkHeader 4 0 1600000000 0x1d00ffff) mainnet_params = Some true /\
  CheckHeaderProofOfWork hash (mkHeader 0x50004 0 1700000000 0x1d00ffff) mainnet_params = None.
Proof.
  intros hash. assert (Forall byte_ok hash) as Hb by (repeat constructor; unfold byte_ok; lia).
  split.
  - refine (proj2 (proj1 (proj1 (CheckProofOfWork_accepts hash (mkHeader 4 0 1600000000 0x1d00ffff) mainnet_params eq_refl Hb _)
      _ _ eq_refl (proj1 mainnet_limits))) _); [done |]. vm_compute. repeat split; discriminate.
  - apply (CheckProofOfWork_accepts hash (mkHeader 0x50004 0 1700000000 0x1d00ffff) mainnet_params eq_refl Hb ltac:(done));
      vm_compute; repeat split; discriminate.
Defined.

(** ** LWMA-2 *)

Lemma lwma2_loop_S m n powType N k i t j found sum p b :
  m !! p = Some b -> wf_store m ->
  lwma2_loop m (S n) powType N k i t j found sum p =
  if negb (GetPoWType (nVersion b) =? powType)
  then q ← pprev b; lwma2_loop m n powType N k (i + 1) t j found sum q
  else
    block ← ancestor_at m p i;
    block_Prev ← GetAncestor m block (i - 1);
    match block_Prev with
    | None => q ← pprev b; lwma2_loop m n powType N k (i + 1) t j (found + 1) sum q
    | Some bp =>
        bb ← m !! block;
        bpp ← m !! bp;
        d ← div_int (target_of (nBits bb)) (k * N * N);
        lwma2_loop m n powType N k (i + 1)
          (i32 (t + (GetBlockTime bb - GetBlockTime bpp) * i32 (j + 1))) (i32 (j + 1))
          (found + 1) (op_add W256 sum d) p
    end.
Proof.
  intros Hp Hm. cbn [lwma2_loop]. rewrite Hp. cbn [mbind option_bind].
  destruct (negb (GetPoWType (nVersion b) =? powType)); [done |].
  by rewrite (GetAncestor_eq m p b).
Qed.

(** Once the loop stands on a block of the wanted type below the tip, the last
    iteration asks for an ancestor above that block. *)
Lemma lwma2_loop_fails m powType N k h q bq n : forall t j found sum,
  wf_store m -> m !! q = Some bq -> GetPoWType (nVersion bq) = powType ->
  nHeight bq < h -> Z.of_nat (S n) <= h ->
  lwma2_loop m (S n) powType N k (h - Z.of_nat n) t j found sum q = None.
Proof.
  induction n as [| n IH]; intros t j found sum Hm Hq Hty Hlt Hn;
    (rewrite (lwma2_loop_S _ _ _ _ _ _ _ _ _ _ _ bq) by done; rewrite Hty, Z.eqb_refl; cbn [negb]).
  - destruct (ancestor_at m q (h - Z.of_nat 0)) as [block |] eqn:Eb; [| done].
    unfold ancestor_at in Eb. rewrite Hq in Eb. cbn in Eb. rewrite Z.gtb_ltb in Eb.
    revert Eb. bdestruct_all.
  - set (i := h - Z.of_nat (S n)).
    destruct (ancestor_at m q i) as [block |] eqn:Eb; [| done]. cbn [mbind option_bind].
    destruct (decide (i <= nHeight bq)) as [Hi |].
    2: { unfold ancestor_at in Eb. rewrite Hq in Eb. cbn in Eb. rewrite Z.gtb_ltb in Eb.
         revert Eb. bdestruct_all. }
    destruct (ancestor_at_some m q bq i Hm Hq) as (r & br & Hr & Hbr & Hhr); [lia |].
    rewrite Eb in Hr. injection Hr as <-. rewrite (GetAncestor_eq m block br) by done.
    destruct (ancestor_at_some m block br (i - 1) Hm Hbr) as (r' & br' & -> & Hbr' & _); [lia |].
    cbn [mbind option_bind]. rewrite Hbr, Hbr'. cbn [mbind option_bind].
    destruct (div_int (target_of (nBits br)) (k * N * N)) as [d |]; [| done]. cbn [mbind option_bind].
    replace (i + 1) with (h - Z.of_nat n) by lia. apply IH; try done; lia.
Qed.

(** The second LWMA version dereferences a null pointer whenever the tip was
    mined with the other algorithm and its parent with the wanted one: the
    loop moves to the parent, and its last iteration calls
    [block->GetAncestor(i - 1)] on the ancestor of the parent at the height
    of the tip, which does not exist; the test of [block] against [nullptr]
    comes after the call. *)
Theorem GetNextWorkRequiredLWMA2_null_dereference (m : gmap ptr CBlockIndex) (params : PowParams)
    (p q : ptr) (b bq : CBlockIndex) (pblockTime powType : Z) :
  wf_store m -> m !! p = Some b -> pprev b = Some q -> m !! q = Some bq ->
  GetPoWType (nVersion b) <> powType -> GetPoWType (nVersion bq) = powType ->
  2 <= lwmaAveragingWindow params <= nHeight b ->
  fPowAllowMinDifficultyBlocks params = false -> fPowNoRetargeting params = false ->
  GetNextWorkRequiredLWMA2 m params p pblockTime powType = None.
Proof.
  intros Hm Hp Hpq Hq Hty Htyq HN Hmin Hno. unfold GetNextWorkRequiredLWMA2. rewrite Hp. cbn [mbind option_bind].
  rewrite Hmin, Hno, Z.gtb_ltb. destruct (Z.ltb_spec (lwmaAveragingWindow params) (nHeight b + 1)); [| done].
  cbn [negb andb]. destruct (parent_height m Hm p b q Hp Hpq) as (bq' & Hq' & _ & Hh).
  rewrite Hq in Hq'. injection Hq' as <-.
  set (N := lwmaAveragingWindow params) in *.
  replace (Z.to_nat N) with (S (S (Z.to_nat (N - 2)))) by lia.
  rewrite (lwma2_loop_S _ _ _ _ _ _ _ _ _ _ _ b) by done.
  destruct (Z.eqb_spec (GetPoWType (nVersion b)) powType) as [| _]; [done |]. cbn [negb]. rewrite Hpq.
  cbn [mbind option_bind].
  replace (nHeight b + 1 - N + 1) with (nHeight b - Z.of_nat (Z.to_nat (N - 2))) by lia.
  by rewrite (lwma2_loop_fails m powType N 1277 (nHeight b) q bq) by (done || lia).
Qed.

(** A chain of blocks of type 0, asked for the next target of type 1 above a
    parent of type 1. *)
Definition mixed_chain : gmap ptr CBlockIndex :=
  <[58 := uniform_block 0x10004 60 0x1d00ffff 58]> (uniform_chain 4 60 0x1d00ffff 60).

