(* ===== verification/Serialize.v ===== *)
(** * Serialization: [src/serialize.h]

    A stream is the list of bytes that follow; writing appends, reading
    consumes a prefix, [None] is a thrown [std::ios_base::failure] (short
    input, non-canonical or oversized length).  A [Codec] pairs the two
    directions of one type and [CodecOk] is the contract the clients rely
    on: what was written is read back, whatever follows it. *)

From stdpp Require Import list.
From S2P Require Import Prelude Bytes.

Definition MAX_SIZE : Z := 0x02000000.

(** ** Raw access *)

(** [s.read(pch, n)]. *)
Definition read_bytes (n : Z) (s : list Z) : option (list Z * list Z) :=
  if Z.of_nat (length s) <? n then None else Some (take (Z.to_nat n) s, drop (Z.to_nat n) s).

Definition ser_writedata8 (obj : Z) : list Z := le_encode 1 obj.
Definition ser_writedata16 (obj : Z) : list Z := le_encode 2 obj.
Definition ser_writedata32 (obj : Z) : list Z := le_encode 4 obj.
Definition ser_writedata64 (obj : Z) : list Z := le_encode 8 obj.

Definition read_le (n : Z) (s : list Z) : option (Z * list Z) :=
  '(b, s) ← read_bytes n s; Some (le_decode b, s).

Definition ser_readdata8 (s : list Z) : option (Z * list Z) := read_le 1 s.
Definition ser_readdata16 (s : list Z) : option (Z * list Z) := read_le 2 s.
Definition ser_readdata32 (s : list Z) : option (Z * list Z) := read_le 4 s.
Definition ser_readdata64 (s : list Z) : option (Z * list Z) := read_le 8 s.

(** ** Compact sizes *)

Definition GetSizeOfCompactSize (nSize : Z) : Z :=
  if nSize <? 253 then 1
  else if nSize <=? 0xffff then 3
  else if nSize <=? 0xffffffff then 5
  else 9.

Definition WriteCompactSize (nSize : Z) : list Z :=
  if nSize <? 253 then ser_writedata8 nSize
  else if nSize <=? 0xffff then ser_writedata8 253 ++ ser_writedata16 nSize
  else if nSize <=? 0xffffffff then ser_writedata8 254 ++ ser_writedata32 nSize
  else ser_writedata8 255 ++ ser_writedata64 nSize.

Definition ReadCompactSize (s : list Z) : option (Z * list Z) :=
  '(chSize, s) ← ser_readdata8 s;
  '(nSizeRet, s) ←
    (if chSize <? 253 then Some (chSize, s)
     else if chSize =? 253 then
       '(n, s) ← ser_readdata16 s; if n <? 253 then None else Some (n, s)
     else if chSize =? 254 then
       '(n, s) ← ser_readdata32 s; if n <? 0x10000 then None else Some (n, s)
     else
       '(n, s) ← ser_readdata64 s; if n <? 0x100000000 then None else Some (n, s));
  if nSizeRet >? MAX_SIZE then None else Some (nSizeRet, s).

(** ** Variable-length integers *)

(** Iterations of the loops: [tmp] has [(8 * sizeof(I) + 6) / 7] places; a
    write beyond it would be out of bounds. *)
Definition varint_places (bits : Z) : nat := Z.to_nat ((bits + 6) / 7).

Fixpoint GetSizeOfVarInt_loop (fuel : nat) (n nRet : Z) : option Z :=
  match fuel with
  | O => None
  | S fuel => if n <=? 0x7F then Some (nRet + 1)
              else GetSizeOfVarInt_loop fuel (Z.shiftr n 7 - 1) (nRet + 1)
  end.

Definition GetSizeOfVarInt (bits n : Z) : option Z := GetSizeOfVarInt_loop (varint_places bits) n 0.

(** [tmp] is kept with its last element first: the order of writing. *)
Fixpoint WriteVarInt_loop (fuel : nat) (n : Z) (len : nat) (tmp : list Z) : option (list Z) :=
  match fuel with
  | O => None
  | S fuel =>
      let tmp := Z.lor (Z.land n 0x7F) (if (len =? 0)%nat then 0x00 else 0x80) :: tmp in
      if n <=? 0x7F then Some tmp
      else WriteVarInt_loop fuel (Z.shiftr n 7 - 1) (S len) tmp
  end.

Definition WriteVarInt (bits n : Z) : option (list Z) := WriteVarInt_loop (varint_places bits) n 0 [].

(** [max] is [std::numeric_limits<I>::max()]. *)
Fixpoint ReadVarInt_loop (fuel : nat) (max n : Z) (s : list Z) : option (Z * list Z) :=
  match fuel with
  | O => None
  | S fuel =>
      '(chData, s) ← ser_readdata8 s;
      if n >? Z.shiftr max 7 then None
      else
        let n := Z.lor (Z.shiftl n 7) (Z.land chData 0x7F) in
        if negb (Z.land chData 0x80 =? 0) then
          if n =? max then None else ReadVarInt_loop fuel max (n + 1) s
        else Some (n, s)
  end.

(** Every iteration consumes a byte, so the length of the stream bounds them. *)
Definition ReadVarInt (max : Z) (s : list Z) : option (Z * list Z) :=
  ReadVarInt_loop (S (length s)) max 0 s.

(** ** Codecs *)

Record Codec (A : Type) := mkCodec {
  encode : A -> list Z;
  decode : list Z -> option (A * list Z)
}.
Arguments mkCodec {A} _ _.
Arguments encode {A} _ _.
Arguments decode {A} _ _.

(** What a client relies on, for the values that satisfy [P]. *)
Class CodecOk {A : Type} (c : Codec A) (P : A -> Prop) : Prop :=
  codec_ok : forall a rest, P a -> decode c (encode c a ++ rest) = Some (a, rest).

(** [uint8_t], [uint32_t], [uint64_t], [int32_t], [int64_t], [uint256]. *)
Definition uint8_codec : Codec Z := mkCodec ser_writedata8 ser_readdata8.
Definition uint32_codec : Codec Z := mkCodec ser_writedata32 ser_readdata32.
Definition uint64_codec : Codec Z := mkCodec ser_writedata64 ser_readdata64.
Definition int32_codec : Codec Z :=
  mkCodec ser_writedata32 (fun s => '(x, s) ← ser_readdata32 s; Some (i32 x, s)).
Definition int64_codec : Codec Z :=
  mkCodec ser_writedata64 (fun s => '(x, s) ← ser_readdata64 s; Some (i64 x, s)).
Definition uint256_codec : Codec Z := mkCodec (le_encode 32) (read_le 32).

(** *** Byte vectors and strings *)

(** [Unserialize_impl] of a byte vector: blocks of at most five million. *)
Fixpoint read_blocks (fuel : nat) (i nSize : Z) (s v : list Z) : option (list Z * list Z) :=
  if i <? nSize then
    match fuel with
    | O => None
    | S fuel =>
        let blk := Z.min (nSize - i) (1 + 4999999) in
        '(b, s) ← read_bytes blk s;
        read_blocks fuel (i + blk) nSize s (v ++ b)
    end
  else Some (v, s).

Definition bytes_encode (v : list Z) : list Z :=
  WriteCompactSize (Z.of_nat (length v)) ++ (if decide (v = []) then [] else v).

Definition bytes_decode (s : list Z) : option (list Z * list Z) :=
  '(nSize, s) ← ReadCompactSize s;
  read_blocks (S (Z.to_nat (nSize / 5000000))) 0 nSize s [].

Definition bytes_codec : Codec (list Z) := mkCodec bytes_encode bytes_decode.

(** [std::string]: one read of the whole size. *)
Definition string_decode (s : list Z) : option (list Z * list Z) :=
  '(nSize, s) ← ReadCompactSize s;
  if negb (nSize =? 0) then read_bytes nSize s else Some ([], s).

Definition string_codec : Codec (list Z) := mkCodec bytes_encode string_decode.

(** *** Vectors of other types *)

Definition vector_encode {A} (c : Codec A) (v : list A) : list Z :=
  WriteCompactSize (Z.of_nat (length v)) ++ concat (map (encode c) v).

Fixpoint read_n {A} (c : Codec A) (n : nat) (s : list Z) : option (list A * list Z) :=
  match n with
  | O => Some ([], s)
  | S n => '(a, s) ← decode c s; '(l, s) ← read_n c n s; Some (a :: l, s)
  end.

Definition vector_decode {A} (c : Codec A) (s : list Z) : option (list A * list Z) :=
  '(nSize, s) ← ReadCompactSize s; read_n c (Z.to_nat nSize) s.

Definition vector_codec {A} (c : Codec A) : Codec (list A) := mkCodec (vector_encode c) (vector_decode c).

(** ** Reading back what was written *)

Lemma read_bytes_app n a rest : Z.of_nat (length a) = n -> read_bytes n (a ++ rest) = Some (a, rest).
Proof.
  intros <-. unfold read_bytes. rewrite length_app. bdestruct_all.
  by rewrite Nat2Z.id, take_app_length, drop_app_length.
Qed.

Lemma read_le_encode k n x rest :
  n = Z.of_nat k -> 0 <= x < 256 ^ n -> read_le n (le_encode k x ++ rest) = Some (x, rest).
Proof.
  intros -> Hx. unfold read_le. rewrite read_bytes_app by (by rewrite length_le_encode). cbn.
  by rewrite le_decode_encode, Z.mod_small.
Qed.

#[export] Instance uint8_ok : CodecOk uint8_codec (fun x => 0 <= x < 2 ^ 8).
Proof. intros x rest Hx. by apply (read_le_encode 1). Qed.

#[export] Instance uint32_ok : CodecOk uint32_codec (fun x => 0 <= x < 2 ^ 32).
Proof. intros x rest Hx. by apply (read_le_encode 4). Qed.

#[export] Instance uint64_ok : CodecOk uint64_codec (fun x => 0 <= x < 2 ^ 64).
Proof. intros x rest Hx. by apply (read_le_encode 8). Qed.

#[export] Instance uint256_ok : CodecOk uint256_codec (fun x => 0 <= x < 2 ^ 256).
Proof. intros x rest Hx. by apply (read_le_encode 32). Qed.

(** A signed integer is written as the unsigned one with the same bytes. *)
Lemma le_encode_mod k x : le_encode k (x mod 256 ^ Z.of_nat k) = le_encode k x.
Proof. rewrite <- le_decode_encode. rewrite <- (length_le_encode k x) at 1. apply le_encode_decode, le_encode_bytes. Qed.

Lemma wraps_mod w x : 0 < w -> - 2 ^ (w - 1) <= x < 2 ^ (w - 1) -> wraps w (x mod 2 ^ w) = x.
Proof.
  intros Hw Hx. unfold wraps. rewrite Zplus_mod_idemp_l. apply (wraps_small w x Hw Hx).
Qed.

Lemma read_signed k n x rest :
  n = Z.of_nat k -> 0 < n -> - 2 ^ (8 * n - 1) <= x < 2 ^ (8 * n - 1) ->
  ('(y, s) ← read_le n (le_encode k x ++ rest); Some (wraps (8 * n) y, s)) = Some (x, rest).
Proof.
  intros -> Hn Hx.
  assert (256 ^ Z.of_nat k = 2 ^ (8 * Z.of_nat k)) as E by (rewrite Z.pow_mul_r by lia; done).
  rewrite <- le_encode_mod, (read_le_encode k) by (done || apply Z.mod_pos_bound; lia).
  cbn [mbind option_bind]. rewrite E, wraps_mod by lia. done.
Qed.

#[export] Instance int32_ok : CodecOk int32_codec (fun x => - 2 ^ 31 <= x < 2 ^ 31).
Proof. intros x rest Hx. apply (read_signed 4 4); [done | done | exact Hx]. Qed.

#[export] Instance int64_ok : CodecOk int64_codec (fun x => - 2 ^ 63 <= x < 2 ^ 63).
Proof. intros x rest Hx. apply (read_signed 8 8); [done | done | exact Hx]. Qed.

(** ** Compact sizes *)

Lemma ReadCompactSize_Write n rest :
  0 <= n <= MAX_SIZE -> ReadCompactSize (WriteCompactSize n ++ rest) = Some (n, rest).
Proof.
  unfold MAX_SIZE. intros Hn.
  unfold ReadCompactSize, WriteCompactSize, ser_writedata8, ser_readdata8, ser_writedata16, ser_readdata16,
    ser_writedata32, ser_readdata32.
  destruct (Z.ltb_spec n 253); [| destruct (Z.leb_spec n 0xffff); [| destruct (Z.leb_spec n 0xffffffff); [| lia]]];
    rewrite <- ?app_assoc; rewrite (read_le_encode 1) by lia; cbn [mbind option_bind].
  - bdestruct_one. cbn [mbind option_bind]. rewrite Z.gtb_ltb. unfold MAX_SIZE. bdestruct_all.
  - change (253 <? 253) with false. change (253 =? 253) with true. cbv iota.
    rewrite (read_le_encode 2) by lia. cbn [mbind option_bind].
    bdestruct_one. cbn [mbind option_bind]. rewrite Z.gtb_ltb. unfold MAX_SIZE. bdestruct_all.
  - change (254 <? 253) with false. change (254 =? 253) with false. change (254 =? 254) with true. cbv iota.
    rewrite (read_le_encode 4) by lia. cbn [mbind option_bind].
    bdestruct_one. cbn [mbind option_bind]. rewrite Z.gtb_ltb. unfold MAX_SIZE. bdestruct_all.
Qed.

Lemma read_bytes_inv n s b rest : read_bytes n s = Some (b, rest) ->
  s = b ++ rest /\ (0 <= n -> Z.of_nat (length b) = n).
Proof.
  unfold read_bytes. destruct (Z.ltb_spec (Z.of_nat (length s)) n); [done |]. intros [= <- <-].
  split; [by rewrite take_drop |]. intros Hn. rewrite length_take. lia.
Qed.

Lemma read_le_inv k s x rest :
  Forall byte_ok s -> read_le (Z.of_nat k) s = Some (x, rest) ->
  s = le_encode k x ++ rest /\ 0 <= x < 256 ^ Z.of_nat k.
Proof.
  intros Hs. unfold read_le. destruct (read_bytes (Z.of_nat k) s) as [[b s'] |] eqn:E; [| done].
  cbn. intros [= <- <-]. apply read_bytes_inv in E as [-> Hl]. apply Forall_app in Hs as [Hb _].
  assert (length b = k) as Hk by lia. subst k.
  rewrite le_encode_decode by done. split; [done | by apply le_decode_range].
Qed.

(** Only the shortest encoding of a size within [MAX_SIZE] is accepted. *)
Lemma ReadCompactSize_inv s n rest :
  Forall byte_ok s -> ReadCompactSize s = Some (n, rest) ->
  s = WriteCompactSize n ++ rest /\ 0 <= n <= MAX_SIZE.
Proof.
  intros Hs. unfold ReadCompactSize, ser_readdata8.
  destruct (read_le 1 s) as [[ch s1] |] eqn:E1; [| done]. cbn [mbind option_bind].
  apply (read_le_inv 1) in E1 as [-> Hch]; [| done]. apply Forall_app in Hs as [_ Hs].
  assert (forall k lo, (k = 2 \/ k = 4 \/ k = 8)%nat ->
            ('(n0, s0) ← ('(n0, s0) ← read_le (Z.of_nat k) s1; if n0 <? lo then None else Some (n0, s0));
             if n0 >? MAX_SIZE then None else Some (n0, s0)) = Some (n, rest) ->
            s1 = le_encode k n ++ rest /\ lo <= n <= MAX_SIZE /\ 0 <= n < 256 ^ Z.of_nat k) as Hwide.
  { intros k lo _. destruct (read_le (Z.of_nat k) s1) as [[x s2] |] eqn:E2; [| done].
    cbn [mbind option_bind]. apply read_le_inv in E2 as [-> Hx]; [| done].
    destruct (Z.ltb_spec x lo); [done |]. cbn [mbind option_bind]. rewrite Z.gtb_ltb.
    destruct (Z.ltb_spec MAX_SIZE x); [done |]. intros [= <- <-]. split; [done | lia]. }
  unfold WriteCompactSize, ser_writedata8, ser_writedata16, ser_writedata32, ser_writedata64.
  destruct (Z.ltb_spec ch 253).
  { cbn [mbind option_bind]. rewrite Z.gtb_ltb. destruct (Z.ltb_spec MAX_SIZE ch); [done |].
    intros [= <- <-]. bdestruct_all. split; [done | lia]. }
  unfold MAX_SIZE in *.
  destruct (Z.eqb_spec ch 253) as [-> |]; [| destruct (Z.eqb_spec ch 254) as [-> |]].
  - intros (-> & Hn & Hb)%(Hwide 2%nat 253); [| tauto]. bdestruct_all. split; [done | lia].
  - intros (-> & Hn & _)%(Hwide 4%nat 0x10000); [| tauto]. bdestruct_all. split; [done | lia].
  - intros (-> & Hn & _)%(Hwide 8%nat 0x100000000); [| tauto]. lia.
Qed.

(** ** Variable-length integers *)

Lemma land_127 x : Z.land x 0x7F = x mod 128.
Proof. change 0x7F with (Z.ones 7). by rewrite Z.land_ones. Qed.

Lemma land_128 x : negb (Z.land x 0x80 =? 0) = Z.testbit x 7.
Proof. change 0x80 with (2 ^ 7). apply land_pow2_testbit. lia. Qed.

(** The byte with digit [d], flagged or not. *)
Lemma varint_byte d (f : bool) :
  0 <= d < 128 ->
  let c := Z.lor d (if f then 0x80 else 0x00) in
  0 <= c < 256 /\ c mod 128 = d /\ Z.testbit c 7 = f.
Proof.
  intros Hd. cbn zeta. destruct f.
  - rewrite lor_add_disjoint.
    + destruct (div_mod_at 128 1 d (d + 128)) as [Hq ->]; [lia.. |]. split; [lia |]. split; [done |].
      rewrite <- (Z.div_pow2_bits _ 7 0) by lia. change (2 ^ 7) with 128. by rewrite Hq.
    + apply Z.bits_inj'. intros n Hn. rewrite Z.land_spec, Z.bits_0. change 0x80 with (2 ^ 7).
      destruct (decide (n = 7)) as [-> |]; [by rewrite (testbit_high 7) |].
      rewrite Z.pow2_bits_false by done. apply andb_false_r.
  - rewrite Z.lor_0_r. split; [lia |]. split; [by apply Z.mod_small |]. by apply (testbit_high 7).
Qed.

Lemma ser_readdata8_cons c s : byte_ok c -> ser_readdata8 (c :: s) = Some (c, s).
Proof.
  intros Hc. unfold byte_ok in Hc. change (c :: s) with ([c] ++ s).
  replace [c] with (le_encode 1 c) by (cbn; by rewrite Z.mod_small).
  apply (read_le_encode 1); [done | lia].
Qed.

(** One iteration of the reader on a byte with digit [d]. *)
Lemma ReadVarInt_byte fuel max n d (f : bool) s :
  0 <= d < 128 -> 0 <= n <= Z.shiftr max 7 ->
  ReadVarInt_loop (S fuel) max n (Z.lor d (if f then 0x80 else 0x00) :: s) =
  let v := n * 128 + d in
  if f then (if v =? max then None else ReadVarInt_loop fuel max (v + 1) s) else Some (v, s).
Proof.
  intros Hd Hn. cbn [ReadVarInt_loop]. destruct (varint_byte d f Hd) as (Hb & Hm & Ht).
  rewrite ser_readdata8_cons by done. cbn [mbind option_bind]. rewrite Z.gtb_ltb.
  destruct (Z.ltb_spec (Z.shiftr max 7) n); [lia |]. rewrite land_127, Hm, land_128, Ht.
  rewrite Z.shiftl_mul_pow2 by lia. rewrite lor_add_disjoint; [done |].
  apply Z.bits_inj'. intros k Hk. rewrite Z.land_spec, Z.bits_0. destruct (decide (k < 7)).
  - by rewrite Z.mul_pow2_bits_low.
  - rewrite (testbit_high 7 d) by (done || lia). apply andb_false_r.
Qed.

Lemma WriteVarInt_loop_read max fuel : forall n len tmp out,
  0 <= n -> (if (len =? 0)%nat then n <= max else n < max) ->
  WriteVarInt_loop fuel n len tmp = Some out ->
  exists p, out = p ++ tmp /\ Forall byte_ok p /\
    forall k s, ReadVarInt_loop (length p + k) max 0 (p ++ s) =
      if (len =? 0)%nat then Some (n, s) else ReadVarInt_loop k max (n + 1) s.
Proof.
  induction fuel as [| fuel IH]; intros n len tmp out Hn Hmax; [done |].
  assert (0 <= max) by (destruct (len =? 0)%nat; lia).
  assert (0 <= Z.shiftr max 7) by (by apply Z.shiftr_nonneg).
  cbn [WriteVarInt_loop]. rewrite land_127. pose proof (Z.mod_pos_bound n 128 ltac:(lia)) as Hd.
  set (c := Z.lor (n mod 128) _).
  replace c with (Z.lor (n mod 128) (if negb (len =? 0)%nat then 0x80 else 0x00)) by (by destruct (len =? 0)%nat).
  clear c. destruct (varint_byte (n mod 128) (negb (len =? 0)%nat) Hd) as (Hb & _).
  destruct (Z.leb_spec n 0x7F) as [Hsmall | Hbig].
  - intros [= <-]. exists [Z.lor (n mod 128) (if negb (len =? 0)%nat then 0x80 else 0x00)].
    split; [done |]. split; [by constructor |]. intros k s. cbn [app length plus].
    rewrite ReadVarInt_byte by lia. cbn zeta. rewrite Z.mod_small by lia.
    destruct (len =? 0)%nat; cbn [negb]; [do 2 f_equal; lia |]. bdestruct_all.
  - intros Hout.
    pose proof (Z.div_mod n 128 ltac:(lia)) as E. rewrite Z.shiftr_div_pow2 in Hout by lia.
    change (2 ^ 7) with 128 in Hout.
    assert (1 <= n / 128) by (apply Z.div_le_lower_bound; lia).
    apply IH in Hout as (p & -> & Hp & Hread); [| lia |].
    2: { cbn [Nat.eqb]. destruct (len =? 0)%nat; lia. }
    exists (p ++ [Z.lor (n mod 128) (if negb (len =? 0)%nat then 0x80 else 0x00)]).
    split; [by rewrite <- app_assoc |]. split; [apply Forall_app; split; [done | by constructor] |].
    intros k s. rewrite length_app, <- app_assoc, <- Nat.add_assoc. cbn [length app plus].
    rewrite Hread. cbn [Nat.eqb]. rewrite ReadVarInt_byte.
    + cbn zeta. replace ((n / 128 - 1 + 1) * 128 + n mod 128) with n by lia.
      destruct (len =? 0)%nat; cbn [negb]; [done |]. bdestruct_all.
    + done.
    + split; [lia |]. rewrite Z.shiftr_div_pow2 by lia. change (2 ^ 7) with 128.
      assert (n / 128 <= max / 128) by (apply Z.div_le_mono; [lia | destruct (len =? 0)%nat; lia]). lia.
Qed.

Lemma WriteVarInt_loop_total fuel : forall n len tmp,
  0 <= n < 128 ^ Z.of_nat (S fuel) -> is_Some (WriteVarInt_loop (S fuel) n len tmp).
Proof.
  induction fuel as [| fuel IH]; intros n len tmp Hn;
    rewrite Nat2Z.inj_succ, Z.pow_succ_r in Hn by lia;
    change (WriteVarInt_loop (S ?f) n len tmp) with
      (let tmp := Z.lor (Z.land n 0x7F) (if (len =? 0)%nat then 0x00 else 0x80) :: tmp in
       if n <=? 0x7F then Some tmp else WriteVarInt_loop f (Z.shiftr n 7 - 1) (S len) tmp);
    cbv zeta; destruct (Z.leb_spec n 0x7F); try done.
  - change (Z.of_nat 0) with 0 in Hn. lia.
  - apply IH. rewrite Z.shiftr_div_pow2 by lia.
    change (2 ^ 7) with 128. assert (1 <= n / 128) by (apply Z.div_le_lower_bound; lia).
    assert (n / 128 < 128 ^ Z.of_nat (S fuel)) by (apply Z.div_lt_upper_bound; lia). lia.
Qed.

(** Writing never runs out of [tmp] and reading returns the number. *)
Lemma ReadVarInt_Write bits n max rest :
  0 < bits -> 0 <= n < 2 ^ bits -> n <= max ->
  exists out, WriteVarInt bits n = Some out /\ Forall byte_ok out /\
    ReadVarInt max (out ++ rest) = Some (n, rest).
Proof.
  intros Hb Hn Hmax. unfold WriteVarInt.
  assert (1 <= (bits + 6) / 7) by (apply Z.div_le_lower_bound; lia).
  destruct (WriteVarInt_loop_total (pred (varint_places bits)) n 0 []) as [out E];
    replace (S (pred (varint_places bits))) with (varint_places bits) in * by (unfold varint_places; lia).
  { unfold varint_places. rewrite Z2Nat.id by (apply Z.div_pos; lia).
    change 128 with (2 ^ 7). rewrite <- Z.pow_mul_r by (try lia; apply Z.div_pos; lia).
    split; [lia |]. eapply Z.lt_le_trans; [apply Hn |]. apply Z.pow_le_mono_r; [lia |].
    pose proof (Z.div_mod (bits + 6) 7). pose proof (Z.mod_pos_bound (bits + 6) 7). lia. }
  destruct (WriteVarInt_loop_read max _ n 0 [] out ltac:(lia) Hmax E) as (p & -> & Hp & Hread).
  exists (p ++ []). split; [done |]. rewrite app_nil_r. split; [done |].
  unfold ReadVarInt. rewrite length_app, <- Nat.add_succ_r. apply Hread.
Qed.

(** The encodings, from the first byte on; [f] flags the last byte. *)
Inductive venc : bool -> Z -> list Z -> Prop :=
| venc_digit f n : 0 <= n < 128 -> venc f n [Z.lor n (if f then 0x80 else 0x00)]
| venc_more f n p : 128 <= n -> venc true (n / 128 - 1) p ->
    venc f n (p ++ [Z.lor (n mod 128) (if f then 0x80 else 0x00)]).

Lemma venc_write f n p : venc f n p -> forall fuel len tmp,
  f = negb (len =? 0)%nat -> (length p <= fuel)%nat -> WriteVarInt_loop fuel n len tmp = Some (p ++ tmp).
Proof.
  induction 1 as [f n Hn | f n p Hn _ IH]; intros fuel len tmp -> Hf.
  - destruct fuel as [| fuel]; [cbn in Hf; lia |]. cbn [WriteVarInt_loop].
    rewrite land_127, Z.mod_small by done. destruct (Z.leb_spec n 0x7F); [| lia]. by destruct (len =? 0)%nat.
  - rewrite length_app in Hf. cbn [length] in Hf. destruct fuel as [| fuel]; [lia |].
    cbn [WriteVarInt_loop]. rewrite land_127. destruct (Z.leb_spec n 0x7F); [lia |].
    rewrite Z.shiftr_div_pow2 by lia. change (2 ^ 7) with 128. rewrite IH by (done || lia).
    rewrite <- app_assoc. by destruct (len =? 0)%nat.
Qed.

Lemma byte_split c : byte_ok c -> c = Z.lor (c mod 128) (if Z.testbit c 7 then 0x80 else 0x00).
Proof.
  intros Hc. unfold byte_ok in Hc. pose proof (Z.mod_pos_bound c 128 ltac:(lia)) as Hd.
  destruct (varint_byte (c mod 128) (Z.testbit c 7) Hd) as (Hb & Hm & Ht).
  apply Z.bits_inj'. intros n Hn. destruct (Z.lt_trichotomy n 7) as [Hlt | [-> | Hgt]].
  - rewrite <- (Z.mod_pow2_bits_low c 7 n), <- (Z.mod_pow2_bits_low (Z.lor _ _) 7 n) by lia.
    change (2 ^ 7) with 128. by rewrite Hm.
  - by rewrite Ht.
  - by rewrite !(testbit_high 8) by (change (2 ^ 8) with 256; lia).
Qed.

(** What the reader has consumed is an encoding of what it accumulated. *)
Lemma ReadVarInt_loop_venc fuel max : forall a p s n rest,
  Forall byte_ok s -> (a = 0 /\ p = [] \/ 1 <= a /\ venc true (a - 1) p) ->
  ReadVarInt_loop fuel max a s = Some (n, rest) ->
  exists q, s = q ++ rest /\ venc false n (p ++ q) /\ 0 <= n.
Proof.
  induction fuel as [| fuel IH]; intros a p s n rest Hs Hp; [done |].
  destruct s as [| c s]; [by cbn |]. apply Forall_cons in Hs as [Hc Hs].
  rewrite (byte_split c Hc). pose proof (Z.mod_pos_bound c 128 ltac:(lia)) as Hd.
  set (d := c mod 128) in *. set (f := Z.testbit c 7). clearbody d f.
  assert (0 <= a) as Ha by (destruct Hp as [[-> _] | []]; lia).
  assert (venc f (a * 128 + d) (p ++ [Z.lor d (if f then 0x80 else 0x00)])) as Hv.
  { destruct Hp as [[-> ->] | [Ha1 Hv]]; [by constructor |].
    destruct (div_mod_at 128 a d (a * 128 + d)) as [Hq Hr]; [lia.. |].
    rewrite <- Hr at 2. constructor; [lia |]. by rewrite Hq. }
  destruct (Z.leb_spec a (Z.shiftr max 7)).
  2: { cbn [ReadVarInt_loop]. destruct (varint_byte d f Hd) as (Hb & _).
       rewrite ser_readdata8_cons by done. cbn [mbind option_bind]. rewrite Z.gtb_ltb. bdestruct_all. }
  rewrite ReadVarInt_byte by lia. cbn zeta. destruct f.
  - destruct (Z.eqb_spec (a * 128 + d) max); [done |].
    intros (q & -> & Hq & Hn)%(IH _ (p ++ [Z.lor d 0x80])).
    + exists (Z.lor d 0x80 :: q). split; [done |]. by rewrite <- app_assoc in Hq.
    + done.
    + right. split; [lia |]. by replace (a * 128 + d + 1 - 1) with (a * 128 + d) by lia.
  - intros [= <- <-]. exists [Z.lor d 0x00]. split; [done |]. split; [done | lia].
Qed.

Lemma venc_bound f n p : venc f n p -> 128 ^ (Z.of_nat (length p) - 1) <= Z.max 1 n /\ (1 <= length p)%nat.
Proof.
  induction 1 as [f n Hn | f n p Hn _ [IH Hl]]; [cbn; lia |].
  rewrite length_app. cbn [length]. split; [| lia].
  replace (Z.of_nat (length p + 1) - 1) with (Z.of_nat (length p) - 1 + 1) by lia.
  rewrite Z.pow_add_r by lia. change (128 ^ 1) with 128.
  pose proof (Z.div_mod n 128 ltac:(lia)). pose proof (Z.mod_pos_bound n 128 ltac:(lia)). lia.
Qed.

(** The reader accepts exactly the writer's encodings. *)
Lemma ReadVarInt_inv bits max s n rest :
  0 < bits -> max < 2 ^ bits -> Forall byte_ok s -> ReadVarInt max s = Some (n, rest) -> 0 <= n <= max ->
  exists out, WriteVarInt bits n = Some out /\ s = out ++ rest.
Proof.
  intros Hb Hmax Hs Hr Hn.
  destruct (ReadVarInt_loop_venc _ _ 0 [] s n rest Hs ltac:(left; done) Hr) as (q & -> & Hv & _).
  cbn [app] in Hv. exists q. split; [| done]. unfold WriteVarInt.
  rewrite (venc_write false n q Hv); [by rewrite app_nil_r | done |].
  destruct (venc_bound _ _ _ Hv) as [H1 H2].
  assert (7 * (Z.of_nat (length q) - 1) < bits) as H7.
  { apply (Z.pow_lt_mono_r_iff 2); [lia | lia |]. rewrite Z.pow_mul_r by lia. change (2 ^ 7) with 128.
    assert (2 ^ 1 <= 2 ^ bits) by (apply Z.pow_le_mono_r; lia). lia. }
  unfold varint_places. apply Nat2Z.inj_le. rewrite Z2Nat.id by (apply Z.div_pos; lia).
  apply Z.div_le_lower_bound; lia.
Qed.

Lemma ReadVarInt_loop_bound fuel bits : forall a s n rest,
  8 <= bits -> Forall byte_ok s -> 0 <= a -> ReadVarInt_loop fuel (2 ^ bits - 1) a s = Some (n, rest) ->
  0 <= n < 2 ^ bits.
Proof.
  induction fuel as [| fuel IH]; intros a s n rest Hbits Hs Ha; [done |].
  destruct s as [| c s]; [by cbn |]. apply Forall_cons in Hs as [Hc Hs].
  rewrite (byte_split c Hc). pose proof (Z.mod_pos_bound c 128 ltac:(lia)) as Hd.
  destruct (Z.leb_spec a (Z.shiftr (2 ^ bits - 1) 7)) as [Hle | Hgt].
  2: { cbn [ReadVarInt_loop]. destruct (varint_byte (c mod 128) (Z.testbit c 7) Hd) as (Hb & _).
       rewrite ser_readdata8_cons by done. cbn [mbind option_bind]. rewrite Z.gtb_ltb. bdestruct_all. }
  rewrite ReadVarInt_byte by lia. cbn zeta.
  assert (a * 128 + c mod 128 < 2 ^ bits) as Hlt.
  { rewrite Z.shiftr_div_pow2 in Hle by lia. change (2 ^ 7) with 128 in Hle.
    replace (2 ^ bits) with (128 * 2 ^ (bits - 7)) in * by (change 128 with (2 ^ 7);
      rewrite <- Z.pow_add_r by lia; f_equal; lia).
    destruct (div_mod_at 128 (2 ^ (bits - 7) - 1) 127 (128 * 2 ^ (bits - 7) - 1)) as [E _]; [lia | lia |].
    rewrite E in Hle. lia. }
  destruct (Z.testbit c 7).
  - destruct (Z.eqb_spec (a * 128 + c mod 128) (2 ^ bits - 1)); [done |]. apply IH; (done || lia).
  - intros [= <- <-]. lia.
Qed.

(** Lengths have exactly one encoding.  A compact size is read from a byte
    stream if and only if the stream starts with what [WriteCompactSize]
    writes for a size within [MAX_SIZE]; an unsigned [bits]-wide integer is
    read by [ReadVarInt] if and only if the stream starts with what
    [WriteVarInt] writes for it, which never overruns its buffer. *)
Theorem length_encodings_unique (bits : Z) (s : list Z) (n : Z) (rest : list Z) :
  8 <= bits -> Forall byte_ok s ->
  (ReadCompactSize s = Some (n, rest) <-> s = WriteCompactSize n ++ rest /\ 0 <= n <= MAX_SIZE) /\
  (ReadVarInt (2 ^ bits - 1) s = Some (n, rest) <->
   exists out, WriteVarInt bits n = Some out /\ s = out ++ rest /\ 0 <= n < 2 ^ bits).
Proof.
  intros Hbits Hs. split; split.
  - by apply ReadCompactSize_inv.
  - intros [-> Hn]. by apply ReadCompactSize_Write.
  - intros Hr. pose proof (ReadVarInt_loop_bound _ bits 0 s n rest Hbits Hs ltac:(lia) Hr) as Hn.
    destruct (ReadVarInt_inv bits (2 ^ bits - 1) s n rest) as (out & E & ->); try (done || lia).
    by exists out.
  - intros (out & E & -> & Hn).
    destruct (ReadVarInt_Write bits n (2 ^ bits - 1) rest) as (out' & E' & _ & Hr); [lia.. |].
    rewrite E in E'. by injection E' as <-.
Qed.

(** ** Vectors *)

Lemma read_blocks_app fuel : forall i nSize v w rest,
  0 <= nSize - i <= 5000000 * Z.of_nat fuel -> Z.of_nat (length w) = nSize - i ->
  read_blocks fuel i nSize (w ++ rest) v = Some (v ++ w, rest).
Proof.
  induction fuel as [| fuel IH]; intros i nSize v w rest Hf Hw; cbn [read_blocks].
  { destruct w; [| cbn in Hw; lia]. bdestruct_all. by rewrite app_nil_r. }
  destruct (Z.ltb_spec i nSize).
  2: { destruct w; [| cbn in Hw; lia]. by rewrite app_nil_r. }
  change (1 + 4999999) with 5000000. set (blk := Z.min (nSize - i) 5000000).
  rewrite <- (take_drop (Z.to_nat blk) w) at 1. rewrite <- app_assoc.
  rewrite read_bytes_app by (rewrite length_take; lia). cbn [mbind option_bind].
  rewrite IH by (rewrite ?length_drop; lia). by rewrite <- app_assoc, take_drop.
Qed.

Lemma bytes_encode_eq v : bytes_encode v = WriteCompactSize (Z.of_nat (length v)) ++ v.
Proof. unfold bytes_encode. by destruct (decide (v = [])) as [-> |]. Qed.

#[export] Instance bytes_ok : CodecOk bytes_codec (fun v => Z.of_nat (length v) <= MAX_SIZE).
Proof.
  intros v rest Hv. cbn [decode encode bytes_codec]. unfold bytes_decode.
  rewrite bytes_encode_eq, <- app_assoc, ReadCompactSize_Write by lia. cbn [mbind option_bind].
  rewrite read_blocks_app; [done | | lia].
  pose proof (Z.div_mod (Z.of_nat (length v)) 5000000). pose proof (Z.mod_pos_bound (Z.of_nat (length v)) 5000000).
  assert (0 <= Z.of_nat (length v) / 5000000) by (apply Z.div_pos; lia). lia.
Qed.

#[export] Instance string_ok : CodecOk string_codec (fun v => Z.of_nat (length v) <= MAX_SIZE).
Proof.
  intros v rest Hv. cbn [decode encode string_codec]. unfold string_decode.
  rewrite bytes_encode_eq, <- app_assoc, ReadCompactSize_Write by lia. cbn [mbind option_bind].
  destruct (Z.eqb_spec (Z.of_nat (length v)) 0); cbn [negb].
  - by destruct v.
  - by apply read_bytes_app.
Qed.

Lemma read_n_app {A} (c : Codec A) P `{!CodecOk c P} v rest :
  Forall P v -> read_n c (length v) (concat (map (encode c) v) ++ rest) = Some (v, rest).
Proof.
  induction 1 as [| a v Ha _ IH]; [done |]. cbn [length map concat read_n].
  rewrite <- app_assoc, (codec_ok a _ Ha). cbn [mbind option_bind]. rewrite IH. done.
Qed.

#[export] Instance vector_ok {A} (c : Codec A) P `{!CodecOk c P} :
  CodecOk (vector_codec c) (fun v => Z.of_nat (length v) <= MAX_SIZE /\ Forall P v).
Proof.
  intros v rest [Hl Hv]. cbn [decode encode vector_codec]. unfold vector_decode, vector_encode.
  rewrite <- app_assoc, ReadCompactSize_Write by lia. cbn [mbind option_bind].
  rewrite Nat2Z.id. by apply (read_n_app c P).
Qed.

(** The sizes a reader accepts, and one step of a round trip: the first value
    of the stream is read back by its codec's instance. *)
Definition size_ok {A} (l : list A) : Prop := Z.of_nat (length l) <= MAX_SIZE.

Ltac read_back := rewrite <- ?app_assoc; rewrite codec_ok by done; cbn [mbind option_bind].
