(* ===== verification/TxFormat.v ===== *)
(** * Transactions and blocks on the wire
      ([src/primitives/transaction.h], [src/primitives/block.h])

    The two transaction formats (basic, and extended with witnesses) and the
    block format, composed from the codecs of [Serialize].  A [uint256] is
    the integer whose little-endian bytes it stores. *)

From stdpp Require Import list.
From S2P Require Import Prelude Bytes Serialize Coins.

(** ** Data *)

Definition SEQUENCE_FINAL : Z := 0xffffffff.

Record CTxIn := mkTxIn {
  prevout : COutPoint;
  scriptSig : list Z;
  nSequence : Z;                (* uint32_t *)
  scriptWitness : list (list Z) (* CScriptWitness::stack *)
}.

(** [CMutableTransaction], and the public fields of [CTransaction]. *)
Record CTransaction := mkTransaction {
  vin : list CTxIn;
  vout : list CTxOut;
  tx_nVersion : Z;              (* int32_t *)
  nLockTime : Z                 (* uint32_t *)
}.

Definition COutPoint_IsNull (o : COutPoint) : bool := (o.1 =? 0) && (o.2 =? 0xffffffff).

Definition IsCoinBase (tx : CTransaction) : bool :=
  match vin tx with [i] => COutPoint_IsNull (prevout i) | _ => false end.

Definition CTransaction_IsNull (tx : CTransaction) : bool :=
  bool_decide (vin tx = []) && bool_decide (vout tx = []).

Definition HasWitness (tx : CTransaction) : bool :=
  existsb (fun i => negb (bool_decide (scriptWitness i = []))) (vin tx).

(** ** Codecs *)

Definition COutPoint_codec : Codec COutPoint :=
  mkCodec (fun o => encode uint256_codec o.1 ++ encode uint32_codec o.2)
    (fun s => '(hash, s) ← decode uint256_codec s;
              '(n, s) ← decode uint32_codec s;
              Some ((hash, n), s)).

Definition CTxIn_codec : Codec CTxIn :=
  mkCodec (fun i => encode COutPoint_codec (prevout i) ++ encode bytes_codec (scriptSig i) ++
                    encode uint32_codec (nSequence i))
    (fun s => '(o, s) ← decode COutPoint_codec s;
              '(sig, s) ← decode bytes_codec s;
              '(q, s) ← decode uint32_codec s;
              Some (mkTxIn o sig q [], s)).

Definition CTxOut_codec : Codec CTxOut :=
  mkCodec (fun o => encode int64_codec (nValue o) ++ encode bytes_codec (scriptPubKey o))
    (fun s => '(v, s) ← decode int64_codec s;
              '(pk, s) ← decode bytes_codec s;
              Some (mkTxOut v pk, s)).

Definition vin_codec : Codec (list CTxIn) := vector_codec CTxIn_codec.
Definition vout_codec : Codec (list CTxOut) := vector_codec CTxOut_codec.
Definition witness_codec : Codec (list (list Z)) := vector_codec bytes_codec.

Definition with_witness (i : CTxIn) (w : list (list Z)) : CTxIn :=
  mkTxIn (prevout i) (scriptSig i) (nSequence i) w.

(** [for (size_t i = 0; i < tx.vin.size(); i++) s >> tx.vin[i].scriptWitness.stack]. *)
Fixpoint read_witnesses (ins : list CTxIn) (s : list Z) : option (list CTxIn * list Z) :=
  match ins with
  | [] => Some ([], s)
  | i :: ins =>
      '(w, s) ← decode witness_codec s;
      '(ins, s) ← read_witnesses ins s;
      Some (with_witness i w :: ins, s)
  end.

(** [fAllowWitness] is [!(s.GetVersion() & SERIALIZE_TRANSACTION_NO_WITNESS)]. *)
Definition UnserializeTransaction (fAllowWitness : bool) (s : list Z) : option (CTransaction * list Z) :=
  '(version, s) ← decode int32_codec s;
  '(ins, s) ← decode vin_codec s;
  '(flags, ins, outs, s) ←
    (if bool_decide (ins = []) && fAllowWitness then
       '(flags, s) ← decode uint8_codec s;
       if negb (flags =? 0) then
         '(ins, s) ← decode vin_codec s;
         '(outs, s) ← decode vout_codec s;
         Some (flags, ins, outs, s)
       else Some (flags, ins, [], s)
     else
       '(outs, s) ← decode vout_codec s;
       Some (0, ins, outs, s));
  '(flags, ins, s) ←
    (if negb (Z.land flags 1 =? 0) && fAllowWitness then
       '(ins, s) ← read_witnesses ins s;
       Some (Z.lxor flags 1, ins, s)
     else Some (flags, ins, s));
  if negb (flags =? 0) then None
  else '(lock, s) ← decode uint32_codec s; Some (mkTransaction ins outs version lock, s).

Definition SerializeTransaction (fAllowWitness : bool) (tx : CTransaction) : list Z :=
  let flags := if fAllowWitness then (if HasWitness tx then Z.lor 0 1 else 0) else 0 in
  encode int32_codec (tx_nVersion tx) ++
  (if negb (flags =? 0) then encode vin_codec [] ++ encode uint8_codec flags else []) ++
  encode vin_codec (vin tx) ++
  encode vout_codec (vout tx) ++
  (if negb (Z.land flags 1 =? 0)
   then concat (map (fun i => encode witness_codec (scriptWitness i)) (vin tx)) else []) ++
  encode uint32_codec (nLockTime tx).

Definition Transaction_codec (fAllowWitness : bool) : Codec CTransaction :=
  mkCodec (SerializeTransaction fAllowWitness) (UnserializeTransaction fAllowWitness).

(** [CBlockHeader] with all its fields, and [CBlock]. *)
Record BlockHeader := mkBlockHeader {
  bh_nVersion : Z;        (* int32_t *)
  bh_hashPrevBlock : Z;
  bh_hashMerkleRoot : Z;
  bh_nTime : Z;           (* uint32_t *)
  bh_nBits : Z;           (* uint32_t *)
  bh_nNonce : Z           (* uint32_t *)
}.

Definition BlockHeader_codec : Codec BlockHeader :=
  mkCodec (fun h => encode int32_codec (bh_nVersion h) ++ encode uint256_codec (bh_hashPrevBlock h) ++
                    encode uint256_codec (bh_hashMerkleRoot h) ++ encode uint32_codec (bh_nTime h) ++
                    encode uint32_codec (bh_nBits h) ++ encode uint32_codec (bh_nNonce h))
    (fun s => '(v, s) ← decode int32_codec s;
              '(p, s) ← decode uint256_codec s;
              '(r, s) ← decode uint256_codec s;
              '(t, s) ← decode uint32_codec s;
              '(b, s) ← decode uint32_codec s;
              '(n, s) ← decode uint32_codec s;
              Some (mkBlockHeader v p r t b n, s)).

Record CBlock := mkBlock { block_header : BlockHeader; vtx : list CTransaction }.

Definition CBlock_codec (fAllowWitness : bool) : Codec CBlock :=
  mkCodec (fun b => encode BlockHeader_codec (block_header b) ++
                    encode (vector_codec (Transaction_codec fAllowWitness)) (vtx b))
    (fun s => '(h, s) ← decode BlockHeader_codec s;
              '(txs, s) ← decode (vector_codec (Transaction_codec fAllowWitness)) s;
              Some (mkBlock h txs, s)).

(** ** Well-formed values *)

Definition uint32_range (x : Z) : Prop := 0 <= x < 2 ^ 32.
Definition hash_range (x : Z) : Prop := 0 <= x < 2 ^ 256.

Definition outpoint_ok (o : COutPoint) : Prop := hash_range o.1 /\ uint32_range o.2.

Definition txin_ok (i : CTxIn) : Prop :=
  outpoint_ok (prevout i) /\ size_ok (scriptSig i) /\ uint32_range (nSequence i) /\
  size_ok (scriptWitness i) /\ Forall size_ok (scriptWitness i).

Definition txout_ok (o : CTxOut) : Prop := - 2 ^ 63 <= nValue o < 2 ^ 63 /\ size_ok (scriptPubKey o).

Definition tx_ok (tx : CTransaction) : Prop :=
  - 2 ^ 31 <= tx_nVersion tx < 2 ^ 31 /\ uint32_range (nLockTime tx) /\
  size_ok (vin tx) /\ Forall txin_ok (vin tx) /\ size_ok (vout tx) /\ Forall txout_ok (vout tx).

(** The transaction without its witnesses. *)
Definition strip_witness (tx : CTransaction) : CTransaction :=
  mkTransaction (map (fun i => with_witness i []) (vin tx)) (vout tx) (tx_nVersion tx) (nLockTime tx).

(** ** Round trips of the parts *)

#[export] Instance COutPoint_ok : CodecOk COutPoint_codec outpoint_ok.
Proof. intros [h n] rest [Hh Hn]. cbn [decode encode COutPoint_codec]. do 2 read_back. done. Qed.

(** Inputs come back without their witness. *)
Lemma CTxIn_read i rest :
  txin_ok i -> decode CTxIn_codec (encode CTxIn_codec i ++ rest) = Some (with_witness i [], rest).
Proof.
  intros (Ho & Hs & Hq & _). cbn [decode encode CTxIn_codec]. do 3 read_back. done.
Qed.

#[export] Instance CTxOut_ok : CodecOk CTxOut_codec txout_ok.
Proof. intros o rest [Hv Hs]. cbn [decode encode CTxOut_codec]. do 2 read_back. by destruct o. Qed.

#[export] Instance vout_ok : CodecOk vout_codec (fun v => size_ok v /\ Forall txout_ok v).
Proof. apply (vector_ok CTxOut_codec txout_ok). Qed.

#[export] Instance witness_ok : CodecOk witness_codec (fun v => size_ok v /\ Forall size_ok v).
Proof. apply (vector_ok bytes_codec size_ok). Qed.

Lemma vin_read l rest :
  size_ok l -> Forall txin_ok l ->
  decode vin_codec (encode vin_codec l ++ rest) = Some (map (fun i => with_witness i []) l, rest).
Proof.
  intros Hs Hl. unfold vin_codec. cbn [decode encode vector_codec]. unfold vector_decode, vector_encode.
  unfold size_ok in Hs. rewrite <- app_assoc, ReadCompactSize_Write by lia. cbn [mbind option_bind].
  rewrite Nat2Z.id. clear Hs. induction Hl as [| i l Hi _ IH]; [done |].
  cbn [length map concat read_n]. rewrite <- app_assoc, CTxIn_read by done. cbn [mbind option_bind].
  by rewrite IH.
Qed.

Lemma read_witnesses_read l rest :
  Forall txin_ok l ->
  read_witnesses (map (fun i => with_witness i []) l)
    (concat (map (fun i => encode witness_codec (scriptWitness i)) l) ++ rest) = Some (l, rest).
Proof.
  induction 1 as [| i l (_ & _ & _ & Hw & Hws) _ IH]; [done |].
  cbn [map concat read_witnesses]. rewrite <- app_assoc, (codec_ok (scriptWitness i)) by done.
  cbn [mbind option_bind]. rewrite IH. cbn. by destruct i.
Qed.

(** ** Transactions *)

Lemma no_witness_strip l :
  existsb (fun i => negb (bool_decide (scriptWitness i = []))) l = false ->
  map (fun i => with_witness i []) l = l.
Proof.
  induction l as [| i l IH]; [done |]. cbn [existsb map].
  intros [Hi Hl]%orb_false_iff. apply negb_false_iff, bool_decide_eq_true in Hi.
  rewrite IH by done. f_equal. destruct i as [o sg q w]. cbn in Hi. by subst w.
Qed.

(** Reading the basic format, when its first vector is not taken for the
    marker of the extended one. *)
Lemma read_basic allow tx rest :
  tx_ok tx -> allow = false \/ vin tx <> [] ->
  UnserializeTransaction allow
    (encode int32_codec (tx_nVersion tx) ++ encode vin_codec (vin tx) ++
     encode vout_codec (vout tx) ++ encode uint32_codec (nLockTime tx) ++ rest) =
  Some (strip_witness tx, rest).
Proof.
  intros (Hv & Hl & Hvin & Hins & Hvout & Houts) Hcase. unfold UnserializeTransaction.
  read_back. rewrite vin_read by done. cbn [mbind option_bind].
  assert (bool_decide (map (fun i => with_witness i []) (vin tx) = []) && allow = false) as ->.
  { destruct Hcase as [-> | Hne]; [apply andb_false_r |].
    rewrite bool_decide_false; [done |]. by destruct (vin tx). }
  rewrite (codec_ok (c := vout_codec)) by done. cbn [mbind option_bind].
  change (negb (Z.land 0 1 =? 0)) with false. cbn [andb mbind option_bind].
  change (negb (0 =? 0)) with false. cbv iota. read_back. done.
Qed.

Lemma SerializeTransaction_basic (allow : bool) tx :
  (if allow then HasWitness tx else false) = false ->
  SerializeTransaction allow tx =
  encode int32_codec (tx_nVersion tx) ++ encode vin_codec (vin tx) ++
  encode vout_codec (vout tx) ++ encode uint32_codec (nLockTime tx).
Proof.
  intros H. unfold SerializeTransaction.
  replace (if allow then if HasWitness tx then Z.lor 0 1 else 0 else 0) with 0.
  - done.
  - destruct allow; [| done]. by rewrite H.
Qed.

(** Reading the extended format. *)
Lemma read_extended tx rest :
  tx_ok tx -> HasWitness tx = true ->
  UnserializeTransaction true (SerializeTransaction true tx ++ rest) = Some (tx, rest).
Proof.
  intros (Hv & Hl & Hvin & Hins & Hvout & Houts) Hw.
  unfold SerializeTransaction. rewrite Hw. change (Z.lor 0 1) with 1.
  change (negb (1 =? 0)) with true. change (negb (Z.land 1 1 =? 0)) with true. cbv iota zeta.
  unfold UnserializeTransaction. read_back.
  rewrite (vin_read []) by done. cbn [map mbind option_bind].
  rewrite bool_decide_true by done. cbn [andb]. rewrite (codec_ok (c := uint8_codec)) by done.
  cbn [mbind option_bind]. change (negb (1 =? 0)) with true. cbv iota.
  rewrite vin_read by done. cbn [mbind option_bind].
  rewrite (codec_ok (c := vout_codec)) by done. cbn [mbind option_bind].
  change (negb (Z.land 1 1 =? 0)) with true. cbn [andb].
  rewrite read_witnesses_read by done. cbn [mbind option_bind].
  change (negb (Z.lxor 1 1 =? 0)) with false. cbv iota. read_back. by destruct tx.
Qed.

(** What [UnserializeTransaction] reads from the serialization. *)
Lemma transaction_read (allow : bool) tx rest :
  tx_ok tx -> (vin tx = [] -> vout tx = [] \/ allow = false) ->
  UnserializeTransaction allow (SerializeTransaction allow tx ++ rest) =
  Some (if allow then tx else strip_witness tx, rest).
Proof.
  intros Hok Hne. destruct (if allow then HasWitness tx else false) eqn:Hw.
  { destruct allow; [| done]. by apply read_extended. }
  rewrite SerializeTransaction_basic by done. rewrite <- !app_assoc.
  assert ((if allow then tx else strip_witness tx) = strip_witness tx) as ->.
  { destruct allow; [| done]. unfold strip_witness, HasWitness in *. rewrite no_witness_strip by done. by destruct tx. }
  destruct allow; [| apply read_basic; auto].
  destruct (decide (vin tx = [])) as [E |]; [| apply read_basic; auto].
  destruct (Hne E) as [E' |]; [| done]. rewrite E, E'. unfold UnserializeTransaction.
  destruct Hok as (Hv & Hl & _). read_back. rewrite (vin_read []) by done. cbn [map mbind option_bind].
  rewrite bool_decide_true by done. cbn [andb].
  change (encode vout_codec []) with (encode uint8_codec 0). rewrite (codec_ok (c := uint8_codec)) by done.
  cbn [mbind option_bind]. change (negb (0 =? 0)) with false. cbn [mbind option_bind].
  change (negb (Z.land 0 1 =? 0)) with false. cbn [andb mbind option_bind].
  change (negb (0 =? 0)) with false. cbv iota. read_back. unfold strip_witness. by rewrite E, E'.
Qed.

(** ** Blocks *)

Definition header_ok (h : BlockHeader) : Prop :=
  - 2 ^ 31 <= bh_nVersion h < 2 ^ 31 /\ hash_range (bh_hashPrevBlock h) /\ hash_range (bh_hashMerkleRoot h) /\
  uint32_range (bh_nTime h) /\ uint32_range (bh_nBits h) /\ uint32_range (bh_nNonce h).

#[export] Instance BlockHeader_ok : CodecOk BlockHeader_codec header_ok.
Proof.
  intros h rest (? & ? & ? & ? & ? & ?). cbn [decode encode BlockHeader_codec]. do 6 read_back. by destruct h.
Qed.

(** A transaction every format can carry: with inputs, or with nothing. *)
Definition wire_tx (tx : CTransaction) : Prop := tx_ok tx /\ (vin tx = [] -> vout tx = []).

#[export] Instance Transaction_ok : CodecOk (Transaction_codec true) wire_tx.
Proof. intros tx rest [Hok Hne]. apply transaction_read; auto. Qed.

#[export] Instance Transactions_ok :
  CodecOk (vector_codec (Transaction_codec true)) (fun l => size_ok l /\ Forall wire_tx l).
Proof. apply (vector_ok (Transaction_codec true) wire_tx). Qed.

Lemma transactions_read l rest :
  size_ok l -> Forall tx_ok l ->
  decode (vector_codec (Transaction_codec false)) (encode (vector_codec (Transaction_codec false)) l ++ rest) =
  Some (map strip_witness l, rest).
Proof.
  intros Hs Hl. cbn [decode encode vector_codec]. unfold vector_decode, vector_encode.
  unfold size_ok in Hs. rewrite <- app_assoc, ReadCompactSize_Write by lia. cbn [mbind option_bind].
  rewrite Nat2Z.id. clear Hs. induction Hl as [| tx l Htx _ IH]; [done |].
  cbn [length map concat read_n]. rewrite <- app_assoc. cbn [decode encode Transaction_codec].
  rewrite transaction_read by auto. cbn [mbind option_bind]. cbn [decode encode Transaction_codec] in IH. by rewrite IH.
Qed.

(** ** Properties *)

(** C25: Serializing and reading back.  A transaction with fields in range
    comes back unchanged from the format with witnesses and without its
    witnesses from the format without, whatever bytes follow; excluded from the
    format with witnesses are only the transactions with outputs and no input,
    whose empty input vector reads as the marker of the extended format.  The
    same holds of blocks of such transactions: unchanged with witnesses, and
    with the witnesses of every transaction dropped without. *)
Theorem transaction_roundtrip (tx : CTransaction) (b : CBlock) (rest : list Z) :
  tx_ok tx -> header_ok (block_header b) -> size_ok (vtx b) -> Forall tx_ok (vtx b) ->
  ((vin tx = [] -> vout tx = []) ->
   UnserializeTransaction true (SerializeTransaction true tx ++ rest) = Some (tx, rest)) /\
  UnserializeTransaction false (SerializeTransaction false tx ++ rest) = Some (strip_witness tx, rest) /\
  (Forall wire_tx (vtx b) -> decode (CBlock_codec true) (encode (CBlock_codec true) b ++ rest) = Some (b, rest)) /\
  decode (CBlock_codec false) (encode (CBlock_codec false) b ++ rest) =
    Some (mkBlock (block_header b) (map strip_witness (vtx b)), rest).
Proof.
  intros Hok Hh Hs Htx. split; [intros Hne; apply transaction_read; auto |]. split; [apply transaction_read; auto |]. split.
  - intros Hw. cbn [decode encode CBlock_codec]. do 2 read_back. by destruct b.
  - cbn [decode encode CBlock_codec]. read_back. by rewrite transactions_read.
Qed.

Definition example_tx : CTransaction :=
  mkTransaction [mkTxIn (7, 1) [81; 82] SEQUENCE_FINAL [[1; 2]; []]] [mkTxOut (-1) [118]; mkTxOut 500 []] 2 0.

Lemma transaction_roundtrip_witness :
  let b := mkBlock (mkBlockHeader (-5) 1 2 3 4 5) [example_tx] in
  UnserializeTransaction true (SerializeTransaction true example_tx ++ [9]) = Some (example_tx, [9]) /\
  UnserializeTransaction false (SerializeTransaction false example_tx ++ [9]) = Some (strip_witness example_tx, [9]) /\
  decode (CBlock_codec true) (encode (CBlock_codec true) b ++ [9]) = Some (b, [9]) /\
  decode (CBlock_codec false) (encode (CBlock_codec false) b ++ [9]) =
    Some (mkBlock (block_header b) [strip_witness example_tx], [9]).
Proof.
  assert (tx_ok example_tx) as Hok.
  { unfold tx_ok, example_tx. cbn.
    repeat first [apply List.Forall_nil | apply List.Forall_cons | split]; vm_compute; done. }
  destruct (transaction_roundtrip example_tx (mkBlock (mkBlockHeader (-5) 1 2 3 4 5) [example_tx]) [9]) as (H1 & H2 & H3 & H4).
  - exact Hok.
  - unfold header_ok, hash_range, uint32_range. cbn. lia.
  - done.
  - by constructor.
  - split; [by apply H1 |]. split; [exact H2 |]. split; [| exact H4]. apply H3. constructor; [split; [exact Hok | done] | done].
Defined.
