(* ===== verification/Script.v ===== *)
(** * Scripts: [src/script/script.h], [src/script/script.cpp]

    A script is its list of bytes; an iterator into it is the suffix that
    remains.  Opcodes are their byte values.  [CScriptNum] is an [int64_t]
    with its variable-length sign-magnitude encoding. *)

From stdpp Require Import list.
From S2P Require Import Prelude Bytes.

(** ** Opcodes and limits *)

Definition OP_0 : Z := 0x00.
Definition OP_PUSHDATA1 : Z := 0x4c.
Definition OP_PUSHDATA2 : Z := 0x4d.
Definition OP_PUSHDATA4 : Z := 0x4e.
Definition OP_1NEGATE : Z := 0x4f.
Definition OP_RESERVED : Z := 0x50.
Definition OP_1 : Z := 0x51.
Definition OP_16 : Z := 0x60.
Definition OP_RETURN : Z := 0x6a.
Definition OP_DUP : Z := 0x76.
Definition OP_EQUAL : Z := 0x87.
Definition OP_EQUALVERIFY : Z := 0x88.
Definition OP_HASH160 : Z := 0xa9.
Definition OP_CHECKSIG : Z := 0xac.
Definition OP_CHECKSIGVERIFY : Z := 0xad.
Definition OP_CHECKMULTISIG : Z := 0xae.
Definition OP_CHECKMULTISIGVERIFY : Z := 0xaf.
Definition OP_NOP10 : Z := 0xb9.
Definition OP_AVN_ASSET : Z := 0xc0.
Definition OP_INVALIDOPCODE : Z := 0xff.
Definition MAX_OPCODE : Z := OP_NOP10.

Definition MAX_SCRIPT_ELEMENT_SIZE : Z := 520.
Definition MAX_PUBKEYS_PER_MULTISIG : Z := 20.
Definition MAX_SCRIPT_SIZE : Z := 10000.

(** ** Script numbers *)

(** [while(absvalue) { result.push_back(absvalue & 0xff); absvalue >>= 8; }]:
    at most eight iterations. *)
Fixpoint abs_bytes (fuel : nat) (absvalue : Z) : list Z :=
  match fuel with
  | O => []
  | S fuel => if absvalue =? 0 then [] else Z.land absvalue 0xff :: abs_bytes fuel (Z.shiftr absvalue 8)
  end.

(** [result.back() |= x]. *)
Fixpoint or_back (l : list Z) (x : Z) : list Z :=
  match l with
  | [] => []
  | [b] => [Z.lor b x]
  | b :: l => b :: or_back l x
  end.

Definition back (l : list Z) : Z := List.last l 0.

Definition CScriptNum_serialize (value : Z) : list Z :=
  if value =? 0 then []
  else
    let neg := value <? 0 in
    let absvalue := u64 (if neg then - value else value) in
    let result := abs_bytes 8 absvalue in
    if negb (Z.land (back result) 0x80 =? 0) then result ++ [if neg then 0x80 else 0]
    else if neg then or_back result 0x80
    else result.

(** The loop of [set_vch]: [result |= (int64_t)vch[i] << 8*i]. *)
Fixpoint vch_loop (vch : list Z) (i result : Z) : Z :=
  match vch with
  | [] => result
  | b :: vch => vch_loop vch (i + 1) (Z.lor result (i64 (Z.shiftl b (8 * i))))
  end.

Definition set_vch (vch : list Z) : Z :=
  match vch with
  | [] => 0
  | _ =>
      let result := vch_loop vch 0 0 in
      if negb (Z.land (back vch) 0x80 =? 0)
      then - i64 (Z.land (u64 result)
                    (u64 (Z.lnot (u64 (Z.shiftl 0x80 (8 * (Z.of_nat (length vch) - 1)))))))
      else result
  end.

(** [CScriptNum(vch, fRequireMinimal, nMaxNumSize)]; [None] is [scriptnum_error]. *)
Definition CScriptNum_decode (vch : list Z) (fRequireMinimal : bool) (nMaxNumSize : Z) : option Z :=
  if Z.of_nat (length vch) >? nMaxNumSize then None
  else if fRequireMinimal && (0 <? length vch)%nat && (Z.land (back vch) 0x7f =? 0) &&
          ((length vch <=? 1)%nat || (Z.land (nth (length vch - 2) vch 0) 0x80 =? 0))
  then None
  else Some (set_vch vch).

Definition getint (m_value : Z) : Z :=
  if m_value >? 2 ^ 31 - 1 then 2 ^ 31 - 1
  else if m_value <? - 2 ^ 31 then - 2 ^ 31
  else m_value.

(** ** Building scripts *)

(** [operator<<] of a byte vector: the bytes appended. *)
Definition push_data (b : list Z) : list Z :=
  let size := Z.of_nat (length b) in
  (if size <? OP_PUSHDATA1 then [u8 size]
   else if size <=? 0xff then [OP_PUSHDATA1; u8 size]
   else if size <=? 0xffff then OP_PUSHDATA2 :: WriteLE16 size
   else OP_PUSHDATA4 :: WriteLE32 size) ++ b.

Definition push_int64 (n : Z) : list Z :=
  if (n =? -1) || ((1 <=? n) && (n <=? 16)) then [u8 (n + (OP_1 - 1))]
  else if n =? 0 then [OP_0]
  else push_data (CScriptNum_serialize n).

(** ** Reading scripts *)

(** [GetOp2]: opcode, operand and the rest of the script. *)
Definition GetOp (pc : list Z) : option (Z * list Z * list Z) :=
  match pc with
  | [] => None
  | opcode :: pc =>
      '(vch, pc) ←
        (if opcode <=? OP_PUSHDATA4 then
           '(nSize, pc) ←
             (if opcode <? OP_PUSHDATA1 then Some (opcode, pc)
              else if opcode =? OP_PUSHDATA1 then
                match pc with [] => None | n :: pc => Some (n, pc) end
              else if opcode =? OP_PUSHDATA2 then
                if (length pc <? 2)%nat then None else Some (ReadLE16 pc, drop 2 pc)
              else
                if (length pc <? 4)%nat then None else Some (ReadLE32 pc, drop 4 pc));
           if Z.of_nat (length pc) <? nSize then None
           else Some (take (Z.to_nat nSize) pc, drop (Z.to_nat nSize) pc)
         else Some ([], pc));
      if opcode =? OP_AVN_ASSET then Some (opcode, pc, [])
      else Some (opcode, vch, pc)
  end.

(** [None] is the assertion. *)
Definition DecodeOP_N (opcode : Z) : option Z :=
  if opcode =? OP_0 then Some 0
  else if (OP_1 <=? opcode) && (opcode <=? OP_16) then Some (opcode - (OP_1 - 1))
  else None.

Definition EncodeOP_N (n : Z) : option Z :=
  if (0 <=? n) && (n <=? 16) then Some (if n =? 0 then OP_0 else OP_1 + n - 1) else None.

(** [while (end() - pc >= b.size() && std::equal(b.begin(), b.end(), pc))]. *)
Fixpoint skip_matches (fuel : nat) (b pc : list Z) (nFound : Z) : list Z * Z :=
  match fuel with
  | O => (pc, nFound)
  | S fuel =>
      if (length b <=? length pc)%nat && bool_decide (take (length b) pc = b)
      then skip_matches fuel b (drop (length b) pc) (nFound + 1)
      else (pc, nFound)
  end.

(** The [do] loop; [pc2] is a suffix that contains [pc]. *)
Fixpoint FindAndDelete_loop (fuel : nat) (b result pc pc2 : list Z) (nFound : Z) : list Z * list Z * Z :=
  let result := result ++ take (length pc2 - length pc) pc2 in
  let '(pc, nFound) := skip_matches (length pc) b pc nFound in
  match fuel, GetOp pc with
  | S fuel, Some (_, _, pc') => FindAndDelete_loop fuel b result pc' pc nFound
  | _, _ => (result, pc, nFound)
  end.

Definition FindAndDelete (script b : list Z) : Z * list Z :=
  if bool_decide (b = []) then (0, script)
  else
    let '(result, pc2, nFound) := FindAndDelete_loop (length script) b [] script script 0 in
    (nFound, if nFound >? 0 then result ++ pc2 else script).

Fixpoint Find_loop (fuel : nat) (pc : list Z) (op nFound : Z) : Z :=
  match fuel, GetOp pc with
  | S fuel, Some (opcode, _, pc) => Find_loop fuel pc op (if opcode =? op then nFound + 1 else nFound)
  | _, _ => nFound
  end.

Definition Find (script : list Z) (op : Z) : Z := Find_loop (length script) script op 0.

(** ** Signature operations *)

Fixpoint GetSigOpCount_loop (fuel : nat) (pc : list Z) (fAccurate : bool) (lastOpcode n : Z) : Z :=
  match fuel, GetOp pc with
  | S fuel, Some (opcode, _, pc) =>
      let n :=
        if (opcode =? OP_CHECKSIG) || (opcode =? OP_CHECKSIGVERIFY) then n + 1
        else if (opcode =? OP_CHECKMULTISIG) || (opcode =? OP_CHECKMULTISIGVERIFY) then
          if fAccurate && (OP_1 <=? lastOpcode) && (lastOpcode <=? OP_16)
          then n + default 0 (DecodeOP_N lastOpcode)
          else n + MAX_PUBKEYS_PER_MULTISIG
        else n in
      GetSigOpCount_loop fuel pc fAccurate opcode n
  | _, _ => n
  end.

Definition GetSigOpCount (script : list Z) (fAccurate : bool) : Z :=
  GetSigOpCount_loop (length script) script fAccurate OP_INVALIDOPCODE 0.

Definition byte_at (script : list Z) (i : nat) (x : Z) : bool := nth i script 0 =? x.

Definition IsPayToScriptHash (script : list Z) : bool :=
  (length script =? 23)%nat && byte_at script 0 OP_HASH160 && byte_at script 1 0x14 && byte_at script 22 OP_EQUAL.

(** The last item pushed by [scriptSig]; [None] is [return 0]. *)
Fixpoint last_push (fuel : nat) (pc vData : list Z) : option (list Z) :=
  match pc with
  | [] => Some vData
  | _ =>
      match fuel with
      | O => None
      | S fuel =>
          '(opcode, vData, pc) ← GetOp pc;
          if opcode >? OP_16 then None else last_push fuel pc vData
      end
  end.

Definition GetP2SHSigOps (script scriptSig : list Z) : Z :=
  if negb (IsPayToScriptHash script) then GetSigOpCount script true
  else match last_push (length scriptSig) scriptSig [] with
       | None => 0
       | Some vData => GetSigOpCount vData true
       end.

(** ** Classification *)

Definition IsPayToPublicKeyHash (script : list Z) : bool :=
  (length script =? 25)%nat && byte_at script 0 OP_DUP && byte_at script 1 OP_HASH160 &&
  byte_at script 2 0x14 && byte_at script 23 OP_EQUALVERIFY && byte_at script 24 OP_CHECKSIG.

Definition IsPayToWitnessScriptHash (script : list Z) : bool :=
  (length script =? 34)%nat && byte_at script 0 OP_0 && byte_at script 1 0x20.

(** Version and program. *)
Definition IsWitnessProgram (script : list Z) : option (Z * list Z) :=
  if (length script <? 4)%nat || (42 <? length script)%nat then None
  else
    let op := nth 0 script 0 in
    if negb (op =? OP_0) && ((op <? OP_1) || (op >? OP_16)) then None
    else if nth 1 script 0 + 2 =? Z.of_nat (length script)
    then version ← DecodeOP_N op; Some (version, drop 2 script)
    else None.

Definition IsPayToPublicKey (script : list Z) : bool :=
  if (length script =? 35)%nat then
    (byte_at script 1 0x02 || byte_at script 1 0x03) && byte_at script 34 OP_CHECKSIG
  else if (length script =? 67)%nat then byte_at script 1 0x04 && byte_at script 66 OP_CHECKSIG
  else false.

Fixpoint IsPushOnly_loop (fuel : nat) (pc : list Z) : bool :=
  match pc with
  | [] => true
  | _ =>
      match fuel, GetOp pc with
      | S fuel, Some (opcode, _, pc) => if opcode >? OP_16 then false else IsPushOnly_loop fuel pc
      | _, _ => false
      end
  end.

Definition IsPushOnly (script : list Z) : bool := IsPushOnly_loop (length script) script.

Fixpoint HasValidOps_loop (fuel : nat) (it : list Z) : bool :=
  match it with
  | [] => true
  | _ =>
      match fuel, GetOp it with
      | S fuel, Some (opcode, item, it) =>
          if (opcode >? MAX_OPCODE) || (Z.of_nat (length item) >? MAX_SCRIPT_ELEMENT_SIZE)
          then false else HasValidOps_loop fuel it
      | _, _ => false
      end
  end.

Definition HasValidOps (script : list Z) : bool := HasValidOps_loop (length script) script.

(** *** Asset scripts *)

Inductive AssetScriptType := TX_NEW_ASSET | TX_REISSUE_ASSET | TX_TRANSFER_ASSET.

#[export] Instance AssetScriptType_eq_dec : EqDecision AssetScriptType.
Proof. solve_decision. Defined.

Definition AVN_R : Z := 114.
Definition AVN_V : Z := 118.
Definition AVN_N : Z := 110.
Definition AVN_Q : Z := 113.
Definition AVN_T : Z := 116.
Definition AVN_O : Z := 111.

(** Type, owner flag and the index where the asset data begins. *)
Definition IsAssetScript (script : list Z) : option (AssetScriptType * bool * nat) :=
  if (31 <? length script)%nat && byte_at script 25 OP_AVN_ASSET then
    index ←
      (if byte_at script 27 AVN_R then
         if byte_at script 28 AVN_V && byte_at script 29 AVN_N then Some 30%nat else None
       else if byte_at script 28 AVN_R && byte_at script 29 AVN_V && byte_at script 30 AVN_N
       then Some 31%nat else None);
    if byte_at script index AVN_T then Some (TX_TRANSFER_ASSET, false, S index)
    else if byte_at script index AVN_Q && (39 <? length script)%nat then Some (TX_NEW_ASSET, false, S index)
    else if byte_at script index AVN_O then Some (TX_NEW_ASSET, true, S index)
    else if byte_at script index AVN_R then Some (TX_REISSUE_ASSET, false, S index)
    else None
  else None.

Definition is_asset_script (script : list Z) : bool := bool_decide (is_Some (IsAssetScript script)).

Definition IsNewAsset (script : list Z) : bool :=
  match IsAssetScript script with Some (TX_NEW_ASSET, fIsOwner, _) => negb fIsOwner | _ => false end.

Definition IsOwnerAsset (script : list Z) : bool :=
  match IsAssetScript script with Some (TX_NEW_ASSET, fIsOwner, _) => fIsOwner | _ => false end.

Definition IsReissueAsset (script : list Z) : bool :=
  match IsAssetScript script with Some (TX_REISSUE_ASSET, _, _) => true | _ => false end.

Definition IsTransferAsset (script : list Z) : bool :=
  match IsAssetScript script with Some (TX_TRANSFER_ASSET, _, _) => true | _ => false end.

Definition IsNullAssetTxDataScript (script : list Z) : bool :=
  (23 <? length script)%nat && byte_at script 0 OP_AVN_ASSET && byte_at script 1 0x14.

Definition IsNullGlobalRestrictionAssetTxDataScript (script : list Z) : bool :=
  (6 <? length script)%nat && byte_at script 0 OP_AVN_ASSET && byte_at script 1 OP_RESERVED &&
  byte_at script 2 OP_RESERVED.

Definition IsNullAssetVerifierTxDataScript (script : list Z) : bool :=
  (3 <? length script)%nat && byte_at script 0 OP_AVN_ASSET && byte_at script 1 OP_RESERVED &&
  negb (byte_at script 2 OP_RESERVED).

Definition IsNullAsset (script : list Z) : bool :=
  IsNullAssetTxDataScript script || IsNullGlobalRestrictionAssetTxDataScript script ||
  IsNullAssetVerifierTxDataScript script.
