(* ===== verification/ScriptNum.v ===== *)
(** * Script numbers and data pushes: lemmas and properties of [Script] *)

From stdpp Require Import list.
From S2P Require Import Prelude Bytes Script.

(** ** Numbers *)

Lemma back_snoc l b : back (l ++ [b]) = b.
Proof. apply last_last. Qed.

Lemma or_back_snoc l b x : or_back (l ++ [b]) x = l ++ [Z.lor b x].
Proof. induction l as [| c l IH]; [done |]. destruct l; [done |]. cbn [app or_back] in *. by rewrite IH. Qed.

Lemma land_0x80 b : byte_ok b -> negb (Z.land b 0x80 =? 0) = (128 <=? b).
Proof.
  intros Hb. unfold byte_ok in Hb. change 0x80 with (2 ^ 7). rewrite land_pow2_testbit by lia.
  rewrite Z.testbit_odd, Z.shiftr_div_pow2 by lia. change (2 ^ 7) with 128.
  destruct (Z.leb_spec 128 b).
  - by replace (b / 128) with 1 by (apply Z.div_unique with (b - 128); lia).
  - by rewrite Z.div_small by lia.
Qed.

Lemma land_0x7f b : Z.land b 0x7f = b mod 128.
Proof. change 0x7f with (Z.ones 7). by rewrite Z.land_ones. Qed.

Lemma lor_0x80 b : 0 <= b < 128 -> Z.lor b 0x80 = b + 128.
Proof.
  intros Hb. apply lor_add_disjoint. apply Z.bits_inj'. intros n Hn. rewrite Z.land_spec, Z.bits_0.
  change 0x80 with (2 ^ 7). destruct (decide (n = 7)) as [-> |].
  - by rewrite (testbit_high 7).
  - rewrite Z.pow2_bits_false by done. apply andb_false_r.
Qed.

(** The magnitude bytes: minimal little-endian form of a positive number. *)
Lemma abs_bytes_decode fuel : forall a,
  0 < a < 256 ^ Z.of_nat fuel ->
  exists l b, abs_bytes fuel a = l ++ [b] /\ Forall byte_ok l /\ 1 <= b < 256 /\ le_decode (l ++ [b]) = a.
Proof.
  induction fuel as [| fuel IH]; intros a Ha; [cbn in Ha; lia |].
  rewrite Nat2Z.inj_succ, Z.pow_succ_r in Ha by lia. cbn [abs_bytes].
  destruct (Z.eqb_spec a 0); [lia |].
  assert (Z.land a 0xff = a mod 256) as -> by (change 0xff with (Z.ones 8); by rewrite Z.land_ones).
  rewrite Z.shiftr_div_pow2 by lia. change (2 ^ 8) with 256.
  pose proof (Z.div_mod a 256 ltac:(lia)) as E. pose proof (Z.mod_pos_bound a 256 ltac:(lia)) as Hm.
  destruct (decide (a / 256 = 0)) as [Hz | Hnz].
  - exists [], a. rewrite Hz. replace (a mod 256) with a by lia.
    destruct fuel; cbn [abs_bytes app]; (split; [done |]); (split; [done |]); (split; [lia |]); cbn [le_decode]; lia.
  - destruct (IH (a / 256)) as (l & b & -> & Hl & Hb & Hd).
    { pose proof (Z.div_pos a 256). split; [lia |]. apply Z.div_lt_upper_bound; lia. }
    exists (a mod 256 :: l), b. split; [done |]. split; [by constructor |]. split; [done |].
    cbn [app le_decode]. rewrite Hd. lia.
Qed.

Lemma abs_bytes_encode fuel : forall l b,
  Forall byte_ok l -> 1 <= b < 256 -> (S (length l) <= fuel)%nat ->
  abs_bytes fuel (le_decode (l ++ [b])) = l ++ [b].
Proof.
  induction fuel as [| fuel IH]; intros l b Hl Hb Hf; [lia |].
  destruct l as [| c l]; cbn [app le_decode abs_bytes].
  - destruct (Z.eqb_spec (b + 256 * 0) 0); [lia |].
    rewrite Z.mul_0_r, Z.add_0_r. change 0xff with (Z.ones 8).
    rewrite Z.land_ones, Z.shiftr_div_pow2 by lia. change (2 ^ 8) with 256.
    rewrite Z.mod_small, Z.div_small by lia. by destruct fuel.
  - apply Forall_cons in Hl as [Hc Hl]. unfold byte_ok in Hc. cbn [length] in Hf.
    assert (0 < le_decode (l ++ [b])) as Hpos.
    { rewrite le_decode_app. cbn [le_decode]. pose proof (le_decode_range l Hl).
      assert (0 < 256 ^ Z.of_nat (length l)) by lia. nia. }
    destruct (Z.eqb_spec (c + 256 * le_decode (l ++ [b])) 0); [lia |].
    change 0xff with (Z.ones 8). rewrite Z.land_ones, Z.shiftr_div_pow2 by lia. change (2 ^ 8) with 256.
    destruct (div_mod_at 256 (le_decode (l ++ [b])) c (c + 256 * le_decode (l ++ [b]))) as [-> ->]; [lia.. |].
    rewrite IH by (done || lia). done.
Qed.

(** The loop of [set_vch] reads the bytes as a little-endian number. *)
Lemma vch_loop_value vch : forall i result,
  Forall byte_ok vch -> 0 <= i -> i + Z.of_nat (length vch) <= 7 -> 0 <= result < 256 ^ i ->
  vch_loop vch i result = result + 256 ^ i * le_decode vch.
Proof.
  induction vch as [| b vch IH]; intros i result Hb Hi Hlen Hr; cbn [vch_loop le_decode length] in *; [lia |].
  apply Forall_cons in Hb as [Hb0 Hb]. unfold byte_ok in Hb0.
  assert (256 ^ i = 2 ^ (8 * i)) as E by (rewrite Z.pow_mul_r by lia; done).
  assert (256 ^ (i + 1) <= 256 ^ 7) by (apply Z.pow_le_mono_r; lia).
  assert (256 ^ (i + 1) = 256 ^ i * 256) as E1 by (rewrite Z.pow_add_r by lia; done).
  change (256 ^ 7) with (2 ^ 56) in *. assert (0 < 256 ^ i) by lia.
  rewrite Z.shiftl_mul_pow2, <- E, wraps_small by (try lia; nia). rewrite lor_add_disjoint.
  - rewrite IH by (done || nia). nia.
  - apply Z.bits_inj'. intros n Hn. rewrite Z.land_spec, Z.bits_0, E. destruct (decide (n < 8 * i)).
    + rewrite Z.mul_pow2_bits_low by lia. apply andb_false_r.
    + rewrite (testbit_high (8 * i) result) by (rewrite <- ?E; lia). done.
Qed.

Lemma clear_top r k : 0 <= k < 63 -> 2 ^ k <= r < 2 ^ (k + 1) ->
  Z.land (u64 r) (u64 (Z.lnot (u64 (2 ^ k)))) = r - 2 ^ k.
Proof.
  intros Hk Hr.
  assert (2 ^ (k + 1) <= 2 ^ 63) by (apply Z.pow_le_mono_r; lia).
  assert (2 ^ (k + 1) = 2 * 2 ^ k) as E2 by (rewrite Z.pow_add_r by lia; lia).
  replace (r - 2 ^ k) with (r mod 2 ^ k) by (symmetry; apply Z.mod_unique with 1; lia).
  rewrite (wrapu_small 64 r), (wrapu_small 64 (2 ^ k)) by lia.
  apply Z.bits_inj'. intros n Hn. rewrite Z.land_spec, testbit_wrapu, Z.lnot_spec by lia.
  destruct (Z.lt_trichotomy n k) as [Hlt | [-> | Hgt]].
  - rewrite Z.mod_pow2_bits_low, Z.pow2_bits_false by lia. destruct (Z.ltb_spec n 64); [| lia].
    by rewrite andb_true_r.
  - rewrite Z.mod_pow2_bits_high, Z.pow2_bits_true by lia. cbn [negb]. by rewrite !andb_false_r.
  - rewrite Z.mod_pow2_bits_high, (testbit_high (k + 1) r) by lia. done.
Qed.

Lemma set_vch_snoc l b :
  Forall byte_ok l -> byte_ok b -> (length l <= 6)%nat ->
  set_vch (l ++ [b]) =
  if 128 <=? b then - (le_decode l + 256 ^ Z.of_nat (length l) * (b - 128))
  else le_decode l + 256 ^ Z.of_nat (length l) * b.
Proof.
  intros Hl Hb Hlen. unfold set_vch. destruct (l ++ [b]) as [| x y] eqn:E0; [by destruct l |]. rewrite <- E0. clear x y E0.
  assert (Forall byte_ok (l ++ [b])) as Hlb by (apply Forall_app; split; [done | by constructor]).
  rewrite vch_loop_value, back_snoc, land_0x80 by (try done; rewrite ?length_app; cbn [length]; lia).
  rewrite Z.pow_0_r, Z.add_0_l, Z.mul_1_l, le_decode_app. cbn [le_decode]. rewrite Z.mul_0_r, Z.add_0_r.
  destruct (Z.leb_spec 128 b) as [H128 |]; [| done]. f_equal.
  unfold byte_ok in Hb. pose proof (le_decode_range l Hl) as Hd.
  set (n := Z.of_nat (length l)) in *.
  replace (Z.of_nat (length (l ++ [b])) - 1) with n by (rewrite length_app; cbn [length]; lia).
  assert (256 ^ n = 2 ^ (8 * n)) as E by (rewrite Z.pow_mul_r by lia; done).
  assert (2 ^ (8 * n + 7) = 128 * 256 ^ n) as E7 by (rewrite Z.pow_add_r, <- E by lia; lia).
  assert (2 ^ (8 * n + 7 + 1) = 256 * 256 ^ n) as E8 by (rewrite Z.pow_add_r, E7 by lia; lia).
  rewrite Z.shiftl_mul_pow2 by lia. change 0x80 with (2 ^ 7). rewrite <- Z.pow_add_r by lia.
  replace (7 + 8 * n) with (8 * n + 7) by lia.
  rewrite clear_top by (lia || (rewrite E7, E8; nia)). rewrite E7.
  assert (256 ^ n <= 256 ^ 6) by (apply Z.pow_le_mono_r; lia). change (256 ^ 6) with (2 ^ 48) in *.
  rewrite wraps_small by (try lia; nia). lia.
Qed.

(** Serialization of a number whose magnitude has the bytes [l ++ [b]]. *)
Lemma serialize_snoc (neg : bool) l b :
  Forall byte_ok l -> 1 <= b < 256 -> (length l <= 6)%nat ->
  let m := le_decode (l ++ [b]) in
  CScriptNum_serialize (if neg then - m else m) =
  if 128 <=? b then l ++ [b; if neg then 0x80 else 0]
  else l ++ [if neg then b + 128 else b].
Proof.
  intros Hl Hb Hlen m.
  assert (Forall byte_ok (l ++ [b])) as Hlb by (apply Forall_app; split; [done | by constructor; [unfold byte_ok; lia |]]).
  assert (0 < m < 2 ^ 56) as Hm.
  { subst m. pose proof (le_decode_range _ Hlb) as Hr. rewrite length_app in Hr. cbn [length] in Hr.
    assert (256 ^ Z.of_nat (length l + 1) <= 256 ^ 7) by (apply Z.pow_le_mono_r; lia).
    change (256 ^ 7) with (2 ^ 56) in *. rewrite le_decode_app in *. cbn [le_decode] in *.
    pose proof (le_decode_range l Hl). assert (0 < 256 ^ Z.of_nat (length l)) by lia. nia. }
  unfold CScriptNum_serialize.
  destruct (Z.eqb_spec (if neg then - m else m) 0); [destruct neg; lia |].
  assert (((if neg then - m else m) <? 0) = neg) as -> by (destruct neg; bdestruct_all).
  cbv zeta. replace (if neg then - (if neg then - m else m) else if neg then - m else m) with m by (destruct neg; lia).
  rewrite wrapu_small by lia. subst m. rewrite abs_bytes_encode by (done || lia).
  rewrite back_snoc, land_0x80 by (unfold byte_ok; lia).
  destruct (Z.leb_spec 128 b); [by rewrite <- app_assoc |].
  destruct neg; [| done]. by rewrite or_back_snoc, lor_0x80 by lia.
Qed.

Lemma length_snoc_sub2 (l : list Z) b c : nth (length (l ++ [b; c]) - 2) (l ++ [b; c]) 0 = b.
Proof.
  rewrite length_app. cbn [length]. replace (length l + 2 - 2)%nat with (length l) by lia.
  by rewrite app_nth2, Nat.sub_diag by lia.
Qed.

(** A serialized number decodes to itself, also when minimality is required. *)
Lemma decode_serialize v minimal max :
  - 2 ^ 55 < v < 2 ^ 55 -> Z.of_nat (length (CScriptNum_serialize v)) <= max <= 7 ->
  CScriptNum_decode (CScriptNum_serialize v) minimal max = Some v.
Proof.
  intros Hv Hlen. destruct (decide (v = 0)) as [-> | Hv0].
  { unfold CScriptNum_decode. cbn. rewrite Z.gtb_ltb. change (Z.of_nat 0) with 0. destruct (Z.ltb_spec max 0); [cbn in Hlen; lia |].
    by destruct minimal. }
  destruct (abs_bytes_decode 7 (Z.abs v)) as (l & b & _ & Hl & Hb & Hd); [cbn; lia |].
  assert (length l <= 6)%nat as Hl6.
  { destruct (decide (length l <= 6)%nat); [done |]. exfalso. rewrite le_decode_app in Hd. cbn [le_decode] in Hd.
    pose proof (le_decode_range l Hl).
    assert (256 ^ 7 <= 256 ^ Z.of_nat (length l)) by (apply Z.pow_le_mono_r; lia).
    change (256 ^ 7) with (2 ^ 56) in *. nia. }
  set (neg := v <? 0). assert (v = if neg then - le_decode (l ++ [b]) else le_decode (l ++ [b])) as Ev.
  { subst neg. rewrite Hd. destruct (Z.ltb_spec v 0); lia. }
  rewrite Ev in Hlen |- *. clearbody neg. rewrite serialize_snoc in Hlen |- * by done.
  unfold CScriptNum_decode. destruct (Z.leb_spec 128 b) as [H128 | H128].
  - rewrite Z.gtb_ltb. destruct (Z.ltb_spec max (Z.of_nat (length (l ++ [b; if neg then 128 else 0])))); [lia |].
    rewrite length_snoc_sub2. rewrite length_app. cbn [length]. change (length l + 2)%nat with (length l + 2)%nat.
    destruct (Nat.leb_spec (length l + 2) 1); [lia |]. cbn [orb].
    assert (Z.land b 0x80 =? 0 = false) as ->.
    { pose proof (land_0x80 b ltac:(unfold byte_ok; lia)) as E. destruct (Z.leb_spec 128 b); [| lia].
      by apply negb_true_iff in E. }
    rewrite andb_false_r. f_equal.
    change (l ++ [b; if neg then 128 else 0]) with (l ++ [b] ++ [if neg then 128 else 0]). rewrite app_assoc.
    assert (length l <= 5)%nat.
    { destruct (decide (length l <= 5)%nat); [done |]. exfalso. rewrite length_app in Hlen. cbn [length] in Hlen. lia. }
    rewrite set_vch_snoc.
    + destruct neg; cbn -[le_decode]; lia.
    + apply Forall_app. split; [done |]. constructor; [unfold byte_ok; lia | done].
    + destruct neg; unfold byte_ok; lia.
    + rewrite length_app. cbn [length]. lia.
  - rewrite Z.gtb_ltb. destruct (Z.ltb_spec max (Z.of_nat (length (l ++ [if neg then b + 128 else b])))); [lia |].
    rewrite back_snoc, land_0x7f.
    replace ((if neg then b + 128 else b) mod 128) with b.
    2: { destruct neg; [| by rewrite Z.mod_small by lia].
         apply Z.mod_unique with 1; lia. }
    destruct (Z.eqb_spec b 0); [lia |]. rewrite andb_false_r. cbn [andb]. f_equal.
    rewrite set_vch_snoc by (done || (destruct neg; unfold byte_ok; lia)).
    rewrite le_decode_app. cbn [le_decode].
    destruct neg; bdestruct_all.
Qed.

(** A minimal encoding is the serialization of the number it denotes. *)
Lemma serialize_decode vch max v :
  Forall byte_ok vch -> max <= 7 -> CScriptNum_decode vch true max = Some v ->
  vch = CScriptNum_serialize v.
Proof.
  intros Hb Hmax. unfold CScriptNum_decode. rewrite Z.gtb_ltb.
  destruct (Z.ltb_spec max (Z.of_nat (length vch))) as [| Hlen]; [done |].
  destruct (decide (vch = [])) as [-> | Hne]; [by intros [= <-] |].
  destruct (exists_last Hne) as (l & b & ->). rewrite back_snoc, land_0x7f.
  apply Forall_app in Hb as [Hl Hb]. apply Forall_cons in Hb as [Hb _]. pose proof Hb as Hb'. unfold byte_ok in Hb'.
  rewrite length_app in *. cbn [length] in *. assert (length l <= 6)%nat as Hl6 by lia.
  destruct (Nat.ltb_spec 0 (length l + 1)); [| lia]. cbn [andb].
  pose proof (Z.mod_pos_bound b 128 ltac:(lia)) as Hbm.
  assert (b = (if 128 <=? b then 128 else 0) + b mod 128) as Hbs.
  { destruct (Z.leb_spec 128 b); [| by rewrite Z.mod_small by lia].
    replace (b mod 128) with (b - 128) by (apply Z.mod_unique with 1; lia). lia. }
  destruct (Z.eqb_spec (b mod 128) 0) as [Hz | Hnz]; cbn [andb].
  - destruct (Nat.leb_spec (length l + 1) 1); [done |]. cbn [orb].
    destruct (exists_last (l := l)) as (l' & c & ->); [intros ->; cbn in *; lia |].
    replace (length (l' ++ [c]) + 1 - 2)%nat with (length l') by (rewrite length_app; cbn [length]; lia).
    rewrite <- !app_assoc. cbn [app]. rewrite app_nth2, Nat.sub_diag by lia. cbn [nth].
    apply Forall_app in Hl as [Hl Hc]. apply Forall_cons in Hc as [Hc _].
    pose proof (land_0x80 c Hc) as E. unfold byte_ok in Hc.
    destruct (Z.eqb_spec (Z.land c 128) 0); [done |]. cbn [negb] in E. symmetry in E. apply Z.leb_le in E.
    intros [= <-]. change (l' ++ [c; b]) with (l' ++ [c] ++ [b]). rewrite app_assoc.
    rewrite length_app in *. cbn [length] in *. rewrite set_vch_snoc.
    + pose proof (serialize_snoc (128 <=? b) l' c Hl ltac:(lia) ltac:(lia)) as Es.
      cbn zeta in Es. destruct (Z.leb_spec 128 c) in Es; [| lia]. rewrite <- app_assoc. cbn [app].
      rewrite Hbs at 1. rewrite Hz, Z.add_0_r, <- Es. f_equal.
      destruct (Z.leb_spec 128 b); [rewrite Hz, Z.add_0_r in Hbs; subst b; lia |].
      rewrite Hz in Hbs. cbn in Hbs. subst b. lia.
    + apply Forall_app. split; [done |]. constructor; [unfold byte_ok; lia | done].
    + done.
    + rewrite length_app. cbn [length]. lia.
  - intros [= <-]. rewrite set_vch_snoc by done.
    pose proof (serialize_snoc (128 <=? b) l (b mod 128) Hl ltac:(lia) Hl6) as Es. cbn zeta in Es.
    destruct (Z.leb_spec 128 (b mod 128)) in Es; [lia |].
    rewrite le_decode_app in Es. cbn [le_decode] in Es. rewrite Z.mul_0_r, Z.add_0_r in Es.
    destruct (Z.leb_spec 128 b).
    + replace (b - 128) with (b mod 128) by lia. rewrite Es. do 2 f_equal. lia.
    + replace b with (b mod 128) at 2 by lia. rewrite Es. do 2 f_equal. lia.
Qed.

(** ** Data pushes *)

Lemma GetOp_push_data b rest :
  Z.of_nat (length b) < 2 ^ 32 ->
  exists opcode, GetOp (push_data b ++ rest) = Some (opcode, b, rest) /\ 0 <= opcode <= OP_PUSHDATA4.
Proof.
  intros Hb. unfold push_data. set (size := Z.of_nat (length b)) in *.
  assert (take (Z.to_nat size) (b ++ rest) = b /\ drop (Z.to_nat size) (b ++ rest) = rest) as [Ht Hd].
  { subst size. by rewrite Nat2Z.id, take_app_length, drop_app_length. }
  assert (Z.of_nat (length (b ++ rest)) <? size = false) as Hlen.
  { apply Z.ltb_ge. rewrite length_app. lia. }
  unfold OP_PUSHDATA1, OP_PUSHDATA2, OP_PUSHDATA4 in *.
  destruct (Z.ltb_spec size 0x4c) as [H1 |].
  { rewrite wrapu_small by lia. exists size. cbn [app GetOp]. unfold OP_PUSHDATA1, OP_PUSHDATA4.
    destruct (Z.leb_spec size 0x4e); [| lia]. destruct (Z.ltb_spec size 0x4c); [| lia]. cbn [mbind option_bind].
    rewrite Hlen, Ht, Hd. cbn [mbind option_bind]. unfold OP_AVN_ASSET. bdestruct_one. split; [done | lia]. }
  destruct (Z.leb_spec size 0xff) as [H2 |].
  { rewrite wrapu_small by lia. exists 0x4c. cbn -[Z.of_nat Z.to_nat take drop length]. rewrite Hlen. cbn [mbind option_bind].
    rewrite Ht, Hd. done. }
  destruct (Z.leb_spec size 0xffff) as [H3 |].
  { exists 0x4d. rewrite <- app_assoc. cbn [app].
    assert (ReadLE16 (WriteLE16 size ++ b ++ rest) = size) as Hr.
    { unfold ReadLE16, WriteLE16. rewrite take_app_length' by (by rewrite length_le_encode).
      rewrite le_decode_encode. apply Z.mod_small. cbn. lia. }
    change (0x4d :: WriteLE16 size ++ b ++ rest) with ([0x4d] ++ WriteLE16 size ++ b ++ rest).
    unfold GetOp. cbn [app]. unfold OP_PUSHDATA1, OP_PUSHDATA2, OP_PUSHDATA4.
    change (0x4d <=? 0x4e) with true. change (0x4d <? 0x4c) with false. change (0x4d =? 0x4c) with false.
    change (0x4d =? 0x4d) with true. cbv iota. rewrite Hr.
    assert ((length (WriteLE16 size ++ b ++ rest) <? 2)%nat = false) as ->.
    { apply Nat.ltb_ge. rewrite length_app. unfold WriteLE16. rewrite length_le_encode. lia. }
    cbn [mbind option_bind]. rewrite drop_app_length' by (by unfold WriteLE16; rewrite length_le_encode).
    rewrite Hlen, Ht, Hd. done. }
  exists 0x4e. rewrite <- app_assoc. cbn [app].
  pose proof (ReadLE32_WriteLE32 size (b ++ rest) ltac:(lia)) as Hr.
  unfold GetOp, OP_PUSHDATA1, OP_PUSHDATA2, OP_PUSHDATA4.
  change (0x4e <=? 0x4e) with true. change (0x4e <? 0x4c) with false. change (0x4e =? 0x4c) with false.
  change (0x4e =? 0x4d) with false. cbv iota. rewrite Hr.
  assert ((length (WriteLE32 size ++ b ++ rest) <? 4)%nat = false) as ->.
  { apply Nat.ltb_ge. rewrite length_app. unfold WriteLE32. rewrite length_le_encode. lia. }
  cbn [mbind option_bind]. rewrite drop_app_length' by (by unfold WriteLE32; rewrite length_le_encode).
  rewrite Hlen, Ht, Hd. done.
Qed.

(** ** Properties *)

(** Script numbers have exactly one minimal encoding: a byte string of at
    most [max <= 7] bytes is accepted as a minimally encoded number if and only
    if it is the serialization of the number it decodes to; and every number
    whose serialization fits decodes to itself.  Pushing data and reading the
    next instruction gives the data back and leaves what followed. *)
Theorem script_numbers_canonical (vch data rest : list Z) (max v : Z) :
  Forall byte_ok vch -> 0 <= max <= 7 -> - 2 ^ 55 < v < 2 ^ 55 -> Z.of_nat (length data) < 2 ^ 32 ->
  (CScriptNum_decode vch true max = Some v <->
   vch = CScriptNum_serialize v /\ Z.of_nat (length vch) <= max) /\
  (Z.of_nat (length (CScriptNum_serialize v)) <= max ->
   CScriptNum_decode (CScriptNum_serialize v) false max = Some v) /\
  exists opcode, GetOp (push_data data ++ rest) = Some (opcode, data, rest).
Proof.
  intros Hb Hmax Hv Hd. split; [split |].
  - intros E. split; [apply (serialize_decode vch max); [done | lia | done] |].
    unfold CScriptNum_decode in E. rewrite Z.gtb_ltb in E.
    destruct (Z.ltb_spec max (Z.of_nat (length vch))); [done | lia].
  - intros [-> Hl]. apply decode_serialize; lia.
  - split; [intros Hl; apply decode_serialize; lia |].
    destruct (GetOp_push_data data rest Hd) as (op & E & _). by exists op.
Qed.

