(* ===== verification/Compressor.v ===== *)
(** * Compressed coins: [src/compressor.h], [src/compressor.cpp],
      the serialization of [Coin] in [src/coins.h] and of the undo records
      in [src/undo.h]

    Amounts, scripts and outputs in the compact form of the coins database
    and of the undo files.  Validity and decompression of public keys belong
    to the elliptic-curve library and are parameters. *)

From stdpp Require Import list.
From S2P Require Import Prelude Bytes Serialize Coins TxFormat Script.

(** ** Amounts *)

(** [while (((n % 10) == 0) && e < 9) { n /= 10; e++; }]: at most nine
    iterations. *)
Fixpoint strip_zeros (fuel : nat) (n e : Z) : Z * Z :=
  if (n mod 10 =? 0) && (e <? 9) then
    match fuel with
    | O => (n, e)
    | S fuel => strip_zeros fuel (n / 10) (e + 1)
    end
  else (n, e).

(** [None] is [assert(d >= 1 && d <= 9)]. *)
Definition CompressAmount (n : Z) : option Z :=
  if n =? 0 then Some 0
  else
    let '(n, e) := strip_zeros 9 n 0 in
    if e <? 9 then
      let d := n mod 10 in
      if (1 <=? d) && (d <=? 9) then
        let n := n / 10 in
        Some (u64 (1 + (n * 9 + d - 1) * 10 + e))
      else None
    else Some (u64 (1 + (n - 1) * 10 + 9)).

Definition DecompressAmount (x : Z) : Z :=
  if x =? 0 then 0
  else
    let x := x - 1 in
    let e := x mod 10 in
    let x := x / 10 in
    let n := if e <? 9 then
               let d := x mod 9 + 1 in
               u64 (x / 9 * 10 + d)
             else x + 1 in
    for_n (Z.to_nat e) (fun n _ => u64 (n * 10)) n.

(** ** Scripts *)

Definition nSpecialScripts : Z := 6.

Definition IsToKeyID (script : list Z) : option (list Z) :=
  if (length script =? 25)%nat && byte_at script 0 OP_DUP && byte_at script 1 OP_HASH160 &&
     byte_at script 2 20 && byte_at script 23 OP_EQUALVERIFY && byte_at script 24 OP_CHECKSIG
  then Some (take 20 (drop 3 script)) else None.

Definition IsToScriptID (script : list Z) : option (list Z) :=
  if (length script =? 23)%nat && byte_at script 0 OP_HASH160 && byte_at script 1 20 &&
     byte_at script 22 OP_EQUAL
  then Some (take 20 (drop 2 script)) else None.

Section Compressor.
(** [CPubKey::IsFullyValid] and [CPubKey::Decompress]. *)
Variable IsFullyValid : list Z -> bool.
Variable PubKey_Decompress : list Z -> option (list Z).

Definition IsToPubKey (script : list Z) : option (list Z) :=
  if (length script =? 35)%nat && byte_at script 0 33 && byte_at script 34 OP_CHECKSIG &&
     (byte_at script 1 0x02 || byte_at script 1 0x03)
  then Some (take 33 (drop 1 script))
  else if (length script =? 67)%nat && byte_at script 0 65 && byte_at script 66 OP_CHECKSIG &&
          byte_at script 1 0x04
  then
    let pubkey := take 65 (drop 1 script) in
    if IsFullyValid pubkey then Some pubkey else None
  else None.

Definition Compress (script : list Z) : option (list Z) :=
  match IsToKeyID script with
  | Some keyID => Some (0x00 :: keyID)
  | None =>
      match IsToScriptID script with
      | Some scriptID => Some (0x01 :: scriptID)
      | None =>
          pubkey ← IsToPubKey script;
          let x := take 32 (drop 1 pubkey) in
          if byte_at pubkey 0 0x02 || byte_at pubkey 0 0x03 then Some (nth 0 pubkey 0 :: x)
          else if byte_at pubkey 0 0x04 then Some (Z.lor 0x04 (Z.land (nth 64 pubkey 0) 0x01) :: x)
          else None
      end
  end.

Definition GetSpecialSize (nSize : Z) : Z :=
  if (nSize =? 0) || (nSize =? 1) then 20
  else if (nSize =? 2) || (nSize =? 3) || (nSize =? 4) || (nSize =? 5) then 32
  else 0.

(** The new script, or [None] when the script is left as it was.  A key that
    decompresses has 65 bytes, as the source asserts. *)
Definition Decompress (nSize : Z) (inp : list Z) : option (list Z) :=
  if nSize =? 0x00 then Some ([OP_DUP; OP_HASH160; 20] ++ take 20 inp ++ [OP_EQUALVERIFY; OP_CHECKSIG])
  else if nSize =? 0x01 then Some ([OP_HASH160; 20] ++ take 20 inp ++ [OP_EQUAL])
  else if (nSize =? 0x02) || (nSize =? 0x03) then Some ([33; nSize] ++ take 32 inp ++ [OP_CHECKSIG])
  else if (nSize =? 0x04) || (nSize =? 0x05) then
    pubkey ← PubKey_Decompress ((nSize - 2) :: take 32 inp);
    Some ([65] ++ pubkey ++ [OP_CHECKSIG])
  else None.

(** [CScriptCompressor::Serialize]; [None] is a length that does not fit. *)
Definition Script_Serialize (script : list Z) : option (list Z) :=
  match Compress script with
  | Some compr => Some compr
  | None =>
      size ← WriteVarInt 32 (u32 (Z.of_nat (length script) + nSpecialScripts));
      Some (size ++ script)
  end.

(** [CScriptCompressor::Unserialize] over the current contents [script]. *)
Definition Script_Unserialize (script : list Z) (s : list Z) : option (list Z * list Z) :=
  '(nSize, s) ← ReadVarInt (2 ^ 32 - 1) s;
  if nSize <? nSpecialScripts then
    '(vch, s) ← read_bytes (GetSpecialSize nSize) s;
    Some (default script (Decompress nSize vch), s)
  else
    let nSize := nSize - nSpecialScripts in
    if nSize >? MAX_SCRIPT_SIZE then
      '(_, s) ← (if nSize >? 2 ^ 31 - 1 then None else read_bytes nSize s);
      Some (script ++ [OP_RETURN], s)
    else '(b, s) ← read_bytes nSize s; Some (b, s).

(** ** Outputs, coins and undo records *)

Definition TxOut_Serialize (o : CTxOut) : option (list Z) :=
  nVal ← CompressAmount (u64 (nValue o));
  v ← WriteVarInt 64 nVal;
  script ← Script_Serialize (scriptPubKey o);
  Some (v ++ script).

Definition TxOut_Unserialize (script : list Z) (s : list Z) : option (CTxOut * list Z) :=
  '(nVal, s) ← ReadVarInt (2 ^ 64 - 1) s;
  '(script, s) ← Script_Unserialize script s;
  Some (mkTxOut (i64 (DecompressAmount nVal)) script, s).

(** [Coin::Serialize]; [None] also stands for [assert(!IsSpent())]. *)
Definition Coin_Serialize (c : Coin) : option (list Z) :=
  if IsSpent c then None
  else
    code ← WriteVarInt 32 (u32 (coin_nHeight c * 2 + Z.b2z (fCoinBase c)));
    o ← TxOut_Serialize (out c);
    Some (code ++ o).

Definition Coin_Unserialize (s : list Z) : option (Coin * list Z) :=
  '(code, s) ← ReadVarInt (2 ^ 32 - 1) s;
  '(o, s) ← TxOut_Unserialize [] s;
  Some (mkCoin o (negb (Z.land code 1 =? 0)) (Z.shiftr code 1), s).

(** [TxInUndoSerializer::Serialize]: the code is an [int]. *)
Definition TxInUndo_Serialize (c : Coin) : option (list Z) :=
  code ← WriteVarInt 32 (coin_nHeight c * 2 + (if fCoinBase c then 1 else 0));
  o ← TxOut_Serialize (out c);
  Some (code ++ (if coin_nHeight c >? 0 then ser_writedata8 0 else []) ++ o).

Definition TxInUndo_Unserialize (s : list Z) : option (Coin * list Z) :=
  '(nCode, s) ← ReadVarInt (2 ^ 32 - 1) s;
  let height := nCode / 2 in
  '(_, s) ← (if height >? 0 then ReadVarInt (2 ^ 31 - 1) s else Some (0, s));
  '(o, s) ← TxOut_Unserialize [] s;
  Some (mkCoin o (negb (Z.land nCode 1 =? 0)) height, s).

Fixpoint TxUndo_write (l : list Coin) : option (list Z) :=
  match l with
  | [] => Some []
  | c :: l => b ← TxInUndo_Serialize c; rest ← TxUndo_write l; Some (b ++ rest)
  end.

(** [CTxUndo::Serialize]. *)
Definition TxUndo_Serialize (vprevout : list Coin) : option (list Z) :=
  body ← TxUndo_write vprevout;
  Some (WriteCompactSize (Z.of_nat (length vprevout)) ++ body).

Fixpoint TxUndo_read (n : nat) (s : list Z) : option (list Coin * list Z) :=
  match n with
  | O => Some ([], s)
  | S n => '(c, s) ← TxInUndo_Unserialize s; '(l, s) ← TxUndo_read n s; Some (c :: l, s)
  end.

(** [CTxUndo::Unserialize]; [max_inputs] is the maximal block weight in force
    divided by [MIN_TRANSACTION_INPUT_WEIGHT]. *)
Definition TxUndo_Unserialize (max_inputs : Z) (s : list Z) : option (list Coin * list Z) :=
  '(count, s) ← ReadCompactSize s;
  if count >? max_inputs then None else TxUndo_read (Z.to_nat count) s.

End Compressor.

(** ** Amounts are restored *)

Lemma strip_zeros_spec fuel : forall n e,
  0 < n -> 0 <= e <= 9 -> 9 - e <= Z.of_nat fuel ->
  let '(n', e') := strip_zeros fuel n e in
  0 < n' /\ e <= e' <= 9 /\ n = n' * 10 ^ (e' - e) /\ (e' < 9 -> n' mod 10 <> 0).
Proof.
  induction fuel as [| fuel IH]; intros n e Hn He Hf; cbn [strip_zeros].
  { assert (e = 9) as -> by lia. rewrite andb_false_r. rewrite Z.sub_diag. lia. }
  destruct (Z.eqb_spec (n mod 10) 0) as [E |], (Z.ltb_spec e 9); cbn [andb];
    try (rewrite Z.sub_diag; lia).
  apply Z.div_exact in E; [| lia].
  specialize (IH (n / 10) (e + 1) ltac:(lia) ltac:(lia) ltac:(lia)).
  destruct (strip_zeros fuel (n / 10) (e + 1)) as [n' e']. destruct IH as (H1 & H2 & H3 & H4).
  split; [done |]. split; [lia |]. split; [| done].
  rewrite E, H3. replace (e' - e) with (1 + (e' - (e + 1))) by lia.
  rewrite Z.pow_add_r by lia. lia.
Qed.

Lemma mul10_loop k : forall n, 0 <= n -> n * 10 ^ Z.of_nat k < 2 ^ 64 ->
  for_n k (fun n _ => u64 (n * 10)) n = n * 10 ^ Z.of_nat k.
Proof.
  induction k as [| k IH]; intros n Hn Hlt; [cbn; lia |].
  rewrite Nat2Z.inj_succ, Z.pow_succ_r in * by lia.
  assert (0 < 10 ^ Z.of_nat k) by lia.
  rewrite for_n_S, IH, wrapu_small by nia. lia.
Qed.

Lemma amount_restored n :
  0 <= n -> 9 * n < 2 ^ 64 ->
  exists x, CompressAmount n = Some x /\ 0 <= x < 2 ^ 64 /\ DecompressAmount x = n.
Proof.
  intros Hn Hlt. unfold CompressAmount. destruct (Z.eqb_spec n 0) as [-> |]; [by exists 0 |].
  pose proof (strip_zeros_spec 9 n 0 ltac:(lia) ltac:(lia) ltac:(lia)) as Hs.
  destruct (strip_zeros 9 n 0) as [m e]. destruct Hs as (Hm & He & En & Hmod). rewrite Z.sub_0_r in En.
  assert (1 <= 10 ^ e) by (apply (Z.pow_le_mono_r 10 0); lia).
  assert (m <= n) by nia.
  pose proof (Z.div_mod m 10 ltac:(lia)) as Em. pose proof (Z.mod_pos_bound m 10 ltac:(lia)) as Hd.
  destruct (Z.ltb_spec e 9) as [He9 | He9].
  - specialize (Hmod He9). destruct (Z.leb_spec 1 (m mod 10)); [| lia].
    destruct (Z.leb_spec (m mod 10) 9); [| lia]. cbn [andb].
    assert (10 * m <= n \/ e = 0).
    { destruct (decide (e = 0)); [auto |]. left. assert (10 ^ 1 <= 10 ^ e) by (apply Z.pow_le_mono_r; lia). nia. }
    set (x := 1 + (m / 10 * 9 + m mod 10 - 1) * 10 + e).
    assert (0 <= m / 10) by (apply Z.div_pos; lia).
    assert (0 < x < 2 ^ 64) as Hx by (subst x; destruct H3; lia).
    rewrite wrapu_small by lia. exists x. split; [done |]. split; [lia |].
    unfold DecompressAmount. destruct (Z.eqb_spec x 0); [lia |]. cbv zeta.
    destruct (div_mod_at 10 (m / 10 * 9 + m mod 10 - 1) e (x - 1)) as [-> ->]; [lia | subst x; lia |].
    destruct (Z.ltb_spec e 9); [| lia].
    destruct (div_mod_at 9 (m / 10) (m mod 10 - 1) (m / 10 * 9 + m mod 10 - 1)) as [-> ->]; [lia | lia |].
    rewrite wrapu_small by lia. rewrite mul10_loop; rewrite ?Z2Nat.id by lia;
      replace (m / 10 * 10 + (m mod 10 - 1 + 1)) with m by lia; lia.
  - assert (e = 9) as -> by lia. change (10 ^ 9) with 1000000000 in *.
    rewrite wrapu_small by lia. exists (1 + (m - 1) * 10 + 9). split; [done |]. split; [lia |].
    unfold DecompressAmount. destruct (Z.eqb_spec (1 + (m - 1) * 10 + 9) 0); [lia |]. cbv zeta.
    destruct (div_mod_at 10 (m - 1) 9 (1 + (m - 1) * 10 + 9 - 1)) as [-> ->]; [lia | lia |].
    change (9 <? 9) with false. cbv iota. rewrite mul10_loop; rewrite ?Z2Nat.id by lia; 
      change (10 ^ 9) with 1000000000; lia.
Qed.

(** ** Scripts are restored *)

Lemma nth_drop_add (l : list Z) k j : nth j (drop k l) 0 = nth (k + j) l 0.
Proof. by rewrite !nth_lookup, lookup_drop. Qed.

(** A list of [n] bytes and a tail. *)
Lemma split_tail (l : list Z) n k :
  length l = (n + k)%nat -> exists t, l = take n l ++ t /\ length t = k /\
    (forall j, nth j t 0 = nth (n + j) l 0) /\ length (take n l) = n.
Proof.
  intros Hl. exists (drop n l). split; [by rewrite take_drop |]. rewrite length_drop, length_take.
  split; [lia |]. split; [| lia]. intros j. apply nth_drop_add.
Qed.

Ltac split_guard :=
  repeat match goal with
  | H : (_ && _)%bool = true |- _ => apply andb_true_iff in H as [? ?]
  | H : byte_at _ _ _ = true |- _ => unfold byte_at in H; apply Z.eqb_eq in H
  | H : (_ =? _)%nat = true |- _ => apply Nat.eqb_eq in H
  end.

Lemma IsToKeyID_inv script h :
  IsToKeyID script = Some h ->
  script = [OP_DUP; OP_HASH160; 20] ++ h ++ [OP_EQUALVERIFY; OP_CHECKSIG] /\ length h = 20%nat.
Proof.
  unfold IsToKeyID. destruct (_ && _) eqn:E; [| done]. intros [= <-]. split_guard.
  destruct script as [| x0 [| x1 [| x2 r]]]; try done. cbn [nth drop] in *.
  destruct (split_tail r 20 2) as (t & Hr & Ht & Hnth & Hl); [cbn in *; lia |].
  split; [| done]. destruct t as [| t0 [| t1 [|]]]; try done.
  pose proof (Hnth 0%nat) as E0. pose proof (Hnth 1%nat) as E1. cbn [nth plus] in E0, E1.
  rewrite ?drop_0. rewrite Hr at 1. cbn [app firstn skipn]. congruence.
Qed.

Lemma IsToScriptID_inv script h :
  IsToScriptID script = Some h ->
  script = [OP_HASH160; 20] ++ h ++ [OP_EQUAL] /\ length h = 20%nat.
Proof.
  unfold IsToScriptID. destruct (_ && _) eqn:E; [| done]. intros [= <-]. split_guard.
  destruct script as [| x0 [| x1 r]]; try done. cbn [nth drop] in *.
  destruct (split_tail r 20 1) as (t & Hr & Ht & Hnth & Hl); [cbn in *; lia |].
  split; [| done]. destruct t as [| t0 [|]]; try done.
  pose proof (Hnth 0%nat) as E0. cbn [nth plus] in E0. rewrite ?drop_0. rewrite Hr at 1. cbn [app firstn skipn]. congruence.
Qed.

Section Restored.
Variable IsFullyValid : list Z -> bool.
Variable PubKey_Decompress : list Z -> option (list Z).

(** A valid uncompressed key is determined by its first coordinate and the
    parity of the second, which is what the compressed form keeps. *)
Definition pubkey_law : Prop :=
  forall x y, length x = 32%nat -> length y = 32%nat -> IsFullyValid (0x04 :: x ++ y) = true ->
  PubKey_Decompress (2 + Z.land (nth 31 y 0) 1 :: x) = Some (0x04 :: x ++ y).

Hypothesis Hpk : pubkey_law.

Lemma IsToPubKey_inv script pk :
  IsToPubKey IsFullyValid script = Some pk ->
  (exists b x, (b = 2 \/ b = 3) /\ pk = b :: x /\ length x = 32%nat /\ script = [33] ++ pk ++ [OP_CHECKSIG]) \/
  (exists x y, pk = 0x04 :: x ++ y /\ length x = 32%nat /\ length y = 32%nat /\
     IsFullyValid pk = true /\ script = [65] ++ pk ++ [OP_CHECKSIG]).
Proof.
  unfold IsToPubKey. destruct (_ && _) eqn:E.
  - intros [= <-]. left. split_guard. destruct script as [| x0 [| x1 r]]; try done. cbn [nth drop] in *.
    destruct (split_tail r 32 1) as (t & Hr & Ht & Hnth & Hl); [cbn in *; lia |].
    exists x1, (take 32 r). split; [match goal with H : _ || _ = true |- _ =>
      apply orb_true_iff in H as [H | H]; split_guard; cbn in H; auto end |].
    split; [done |]. split; [done |]. destruct t as [| t0 [|]]; try done.
    pose proof (Hnth 0%nat) as E0. cbn [nth plus] in E0. rewrite ?drop_0. rewrite Hr at 1. cbn [app firstn skipn]. congruence.
  - clear E. destruct (_ && _) eqn:E; [| done]. intros Hpk'. right. split_guard.
    destruct script as [| x0 [| x1 r]]; try done. cbn [nth drop] in *.
    destruct (IsFullyValid (take 65 (x1 :: r))) eqn:Hv; [| done]. injection Hpk' as <-.
    destruct (split_tail r 64 1) as (t & Hr & Ht & Hnth & Hl); [cbn in *; lia |].
    assert (length r = 65%nat) as Hlr by (cbn [length] in *; lia).
    exists (take 32 r), (take 32 (drop 32 r)).
    assert (take 64 r = take 32 r ++ take 32 (drop 32 r)) as E64.
    { rewrite <- (take_drop 32 (take 64 r)), take_take. f_equal. apply (skipn_firstn_comm 32 64 r). }
    cbn [take] in *. rewrite <- E64. split; [congruence |]. split; [rewrite length_take; lia |].
    split; [rewrite length_take, length_drop; lia |]. split; [done |].
    destruct t as [| t0 [|]]; try done. pose proof (Hnth 0%nat) as E0. cbn [nth plus] in E0.
    rewrite ?drop_0. rewrite Hr at 1. cbn [app firstn skipn]. congruence.
Qed.

(** A special form starts with its kind, has the size the reader expects for
    that kind, and decompresses to the script. *)
Lemma Compress_restored script compr :
  Compress IsFullyValid script = Some compr ->
  exists kind body, compr = kind :: body /\ 0 <= kind < nSpecialScripts /\
    Z.of_nat (length body) = GetSpecialSize kind /\ Decompress PubKey_Decompress kind body = Some script.
Proof using Hpk.
  unfold Compress. destruct (IsToKeyID script) as [h |] eqn:E1.
  { intros [= <-]. apply IsToKeyID_inv in E1 as [-> Hh]. exists 0, h. split; [done |]. split; [done |].
    split; [cbn; lia |]. unfold Decompress. cbn -[take]. by rewrite take_ge by lia. }
  destruct (IsToScriptID script) as [h |] eqn:E2.
  { intros [= <-]. apply IsToScriptID_inv in E2 as [-> Hh]. exists 1, h. split; [done |]. split; [done |].
    split; [cbn; lia |]. unfold Decompress. cbn -[take]. by rewrite take_ge by lia. }
  destruct (IsToPubKey IsFullyValid script) as [pk |] eqn:E3; [| done]. cbn [mbind option_bind].
  apply IsToPubKey_inv in E3 as [(b & x & Hb & -> & Hx & ->) | (x & y & -> & Hx & Hy & Hv & ->)].
  - unfold byte_at. change (drop 1 (b :: x)) with x. cbn [nth]. rewrite take_ge by lia. intros H. exists b, x.
    destruct Hb as [-> | ->]; injection H as <-; (split; [done |]); (split; [done |]);
      (split; [cbn; lia |]); unfold Decompress; cbn -[take]; by rewrite take_ge by lia.
  - unfold byte_at. change (drop 1 (4 :: x ++ y)) with (x ++ y). cbn [nth]. rewrite take_app_length' by lia.
    assert (nth 63 (x ++ y) 0 = nth 31 y 0) as -> by (rewrite app_nth2 by lia; by rewrite Hx).
    change (4 =? 2) with false. change (4 =? 3) with false. change (4 =? 4) with true. cbn [orb].
    specialize (Hpk x y Hx Hy Hv). set (par := Z.land (nth 31 y 0) 1) in *.
    assert (par = 0 \/ par = 1) as Hpar.
    { assert (par = nth 31 y 0 mod 2) as -> by apply (Z.land_ones _ 1 ltac:(lia)).
      pose proof (Z.mod_pos_bound (nth 31 y 0) 2). lia. }
    intros [= <-]. destruct Hpar as [E | E]; rewrite E in *; [exists 4, x | exists 5, x];
      (split; [done |]); (split; [done |]); (split; [by rewrite Hx |]);
      unfold Decompress; cbn -[take Z.sub]; rewrite take_ge by lia.
    + change (4 - 2) with (2 + 0). by rewrite Hpk.
    + change (5 - 2) with (2 + 1). by rewrite Hpk.
Qed.

Lemma ReadVarInt_small max kind s :
  0 <= kind < 128 -> 128 <= max -> ReadVarInt max (kind :: s) = Some (kind, s).
Proof using.
  intros Hk Hmax. unfold ReadVarInt. cbn [length].
  rewrite <- (Z.lor_0_r kind) at 1. change 0 with (if false then 0x80 else 0x00) at 2.
  rewrite ReadVarInt_byte; [done | done |]. split; [lia |]. apply Z.shiftr_nonneg. lia.
Qed.

Lemma Script_restored script :
  Z.of_nat (length script) <= MAX_SCRIPT_SIZE ->
  exists b, Script_Serialize IsFullyValid script = Some b /\
    forall old rest, Script_Unserialize PubKey_Decompress old (b ++ rest) = Some (script, rest).
Proof using Hpk.
  unfold MAX_SCRIPT_SIZE. intros Hlen. unfold Script_Serialize.
  destruct (Compress IsFullyValid script) as [compr |] eqn:Ec.
  - destruct (Compress_restored script compr Ec) as (kind & body & -> & Hk & Hl & Hd).
    exists (kind :: body). split; [done |]. intros old rest. unfold Script_Unserialize, nSpecialScripts in *.
    cbn [app]. rewrite ReadVarInt_small by lia. cbn [mbind option_bind].
    destruct (Z.ltb_spec kind 6); [| lia]. rewrite read_bytes_app by done. cbn [mbind option_bind].
    by rewrite Hd.
  - unfold nSpecialScripts. rewrite wrapu_small by lia.
    destruct (ReadVarInt_Write 32 (Z.of_nat (length script) + 6) (2 ^ 32 - 1) [])
      as (out & Ew & _ & _); [lia.. |]. rewrite Ew. cbn [mbind option_bind].
    exists (out ++ script). split; [done |]. intros old rest.
    destruct (ReadVarInt_Write 32 (Z.of_nat (length script) + 6) (2 ^ 32 - 1) (script ++ rest))
      as (out' & Ew' & _ & Er); [lia.. |]. rewrite Ew in Ew'. injection Ew' as <-.
    unfold Script_Unserialize, nSpecialScripts, MAX_SCRIPT_SIZE. rewrite <- app_assoc, Er. cbn [mbind option_bind].
    destruct (Z.ltb_spec (Z.of_nat (length script) + 6) 6); [lia |]. rewrite Z.gtb_ltb.
    destruct (Z.ltb_spec 10000 (Z.of_nat (length script) + 6 - 6)); [lia |].
    rewrite read_bytes_app by lia. done.
Qed.

(** An output the compact form can carry. *)
Definition compact_txout (o : CTxOut) : Prop :=
  0 <= nValue o /\ 9 * nValue o < 2 ^ 64 /\ Z.of_nat (length (scriptPubKey o)) <= MAX_SCRIPT_SIZE.

Lemma TxOut_restored o :
  compact_txout o ->
  exists b, TxOut_Serialize IsFullyValid o = Some b /\
    forall old rest, TxOut_Unserialize PubKey_Decompress old (b ++ rest) = Some (o, rest).
Proof using Hpk.
  intros (Hv & Hv9 & Hs). unfold TxOut_Serialize. rewrite wrapu_small by lia.
  destruct (amount_restored (nValue o) Hv Hv9) as (x & -> & Hx & Ex). cbn [mbind option_bind].
  destruct (Script_restored (scriptPubKey o) Hs) as (b & -> & Hb).
  destruct (ReadVarInt_Write 64 x (2 ^ 64 - 1) []) as (out & Ew & _ & _); [lia.. |].
  rewrite Ew. cbn [mbind option_bind]. exists (out ++ b). split; [done |]. intros old rest.
  destruct (ReadVarInt_Write 64 x (2 ^ 64 - 1) (b ++ rest)) as (out' & Ew' & _ & Er); [lia.. |].
  rewrite Ew in Ew'. injection Ew' as <-. unfold TxOut_Unserialize.
  rewrite <- app_assoc, Er. cbn [mbind option_bind]. rewrite Hb. cbn [mbind option_bind].
  rewrite Ex, wraps_small by lia. by destruct o.
Qed.

Definition compact_coin (c : Coin) : Prop := compact_txout (out c) /\ 0 <= coin_nHeight c < 2 ^ 30.

(** The code of height and coinbase flag. *)
Lemma coin_code c :
  0 <= coin_nHeight c < 2 ^ 30 ->
  let code := coin_nHeight c * 2 + Z.b2z (fCoinBase c) in
  0 <= code < 2 ^ 31 /\ Z.shiftr code 1 = coin_nHeight c /\ code / 2 = coin_nHeight c /\
  negb (Z.land code 1 =? 0) = fCoinBase c.
Proof using.
  intros Hh. cbn zeta. assert (0 <= Z.b2z (fCoinBase c) < 2) by (destruct (fCoinBase c); cbn; lia).
  rewrite Z.shiftr_div_pow2 by lia. change (2 ^ 1) with 2.
  destruct (div_mod_at 2 (coin_nHeight c) (Z.b2z (fCoinBase c))
              (coin_nHeight c * 2 + Z.b2z (fCoinBase c))) as [-> Em]; [lia | lia |].
  split; [lia |]. split; [done |]. split; [done |].
  change 1 with (Z.ones 1). rewrite Z.land_ones by lia. change (2 ^ 1) with 2. rewrite Em.
  by destruct (fCoinBase c).
Qed.

Lemma Coin_restored c :
  compact_coin c ->
  exists b, Coin_Serialize IsFullyValid c = Some b /\
    forall rest, Coin_Unserialize PubKey_Decompress (b ++ rest) = Some (c, rest).
Proof using Hpk.
  intros [Ho Hh]. destruct (coin_code c Hh) as (Hc & Hs & _ & Hb). unfold Coin_Serialize.
  assert (IsSpent c = false) as ->.
  { unfold IsSpent, CTxOut_IsNull. destruct Ho as [Hv _]. bdestruct_all. }
  rewrite wrapu_small by lia. destruct (TxOut_restored (out c) Ho) as (b & -> & Hr).
  destruct (ReadVarInt_Write 32 _ (2 ^ 32 - 1) [] ltac:(lia) ltac:(split; [apply Hc | lia]) ltac:(lia))
    as (code & Ew & _ & _).
  rewrite Ew. cbn [mbind option_bind]. exists (code ++ b). split; [done |]. intros rest.
  destruct (ReadVarInt_Write 32 (coin_nHeight c * 2 + Z.b2z (fCoinBase c)) (2 ^ 32 - 1) (b ++ rest))
    as (code' & Ew' & _ & Er); [lia.. |]. rewrite Ew in Ew'. injection Ew' as <-.
  unfold Coin_Unserialize. rewrite <- app_assoc, Er. cbn [mbind option_bind]. rewrite Hr. cbn [mbind option_bind].
  rewrite Hs, Hb. by destruct c.
Qed.

Lemma TxInUndo_restored c :
  compact_coin c ->
  exists b, TxInUndo_Serialize IsFullyValid c = Some b /\
    forall rest, TxInUndo_Unserialize PubKey_Decompress (b ++ rest) = Some (c, rest).
Proof using Hpk.
  intros [Ho Hh]. destruct (coin_code c Hh) as (Hc & _ & Hs & Hb). unfold TxInUndo_Serialize.
  change (if fCoinBase c then 1 else 0) with (Z.b2z (fCoinBase c)).
  destruct (TxOut_restored (out c) Ho) as (b & -> & Hr).
  destruct (ReadVarInt_Write 32 _ (2 ^ 32 - 1) [] ltac:(lia) ltac:(split; [apply Hc | lia]) ltac:(lia))
    as (code & Ew & _ & _).
  rewrite Ew. cbn [mbind option_bind]. eexists. split; [done |]. intros rest. rewrite <- !app_assoc.
  set (mid := if coin_nHeight c >? 0 then ser_writedata8 0 else []).
  destruct (ReadVarInt_Write 32 (coin_nHeight c * 2 + Z.b2z (fCoinBase c)) (2 ^ 32 - 1) (mid ++ b ++ rest))
    as (code' & Ew' & _ & Er); [lia.. |]. rewrite Ew in Ew'. injection Ew' as <-.
  unfold TxInUndo_Unserialize. rewrite Er. cbn [mbind option_bind]. rewrite Hs, Hb. subst mid.
  rewrite Z.gtb_ltb. destruct (Z.ltb_spec 0 (coin_nHeight c)).
  - change (ser_writedata8 0 ++ b ++ rest) with (0 :: b ++ rest). rewrite ReadVarInt_small by lia.
    cbn [mbind option_bind]. rewrite Hr. cbn [mbind option_bind]. by destruct c.
  - cbn [app mbind option_bind]. rewrite Hr. cbn [mbind option_bind]. by destruct c.
Qed.

Lemma TxUndo_restored l max_inputs :
  Forall compact_coin l -> Z.of_nat (length l) <= Z.min max_inputs MAX_SIZE ->
  exists b, TxUndo_Serialize IsFullyValid l = Some b /\
    forall rest, TxUndo_Unserialize PubKey_Decompress max_inputs (b ++ rest) = Some (l, rest).
Proof using Hpk.
  intros Hl Hlen. unfold TxUndo_Serialize.
  assert (exists b, TxUndo_write IsFullyValid l = Some b /\
            forall rest, TxUndo_read PubKey_Decompress (length l) (b ++ rest) = Some (l, rest)) as (b & -> & Hr).
  { clear Hlen. induction Hl as [| c l Hc _ (b & Hb & IH)]; [by exists [] |].
    destruct (TxInUndo_restored c Hc) as (bc & Hbc & Hrc). exists (bc ++ b). cbn [TxUndo_write length TxUndo_read].
    rewrite Hbc, Hb. split; [done |]. intros rest. rewrite <- app_assoc, Hrc. cbn [mbind option_bind].
    by rewrite IH. }
  cbn [mbind option_bind]. eexists. split; [done |]. intros rest. unfold TxUndo_Unserialize.
  rewrite <- app_assoc, ReadCompactSize_Write by lia. cbn [mbind option_bind].
  rewrite Z.gtb_ltb. destruct (Z.ltb_spec max_inputs (Z.of_nat (length l))); [lia |].
  by rewrite Nat2Z.id.
Qed.

End Restored.

(** ** Properties *)

(** The compact forms lose nothing.  A coin whose value is at most
    [(2^64 - 1) / 9] base units, whose script is no longer than
    [MAX_SCRIPT_SIZE] and whose height is below [2^30] is written to the coins
    database without failing and read back unchanged, whatever follows; so are
    the undo records of a transaction's inputs.  Keys are compressed under the
    law that a valid key is determined by its first coordinate and the parity
    of the second. *)
Theorem compact_coins_roundtrip (IsFullyValid : list Z -> bool) (PubKey_Decompress : list Z -> option (list Z))
    (c : Coin) (undo : list Coin) (max_inputs : Z) :
  pubkey_law IsFullyValid PubKey_Decompress ->
  compact_coin c -> Forall compact_coin undo -> Z.of_nat (length undo) <= Z.min max_inputs MAX_SIZE ->
  (exists b, Coin_Serialize IsFullyValid c = Some b /\
     forall rest, Coin_Unserialize PubKey_Decompress (b ++ rest) = Some (c, rest)) /\
  (exists b, TxUndo_Serialize IsFullyValid undo = Some b /\
     forall rest, TxUndo_Unserialize PubKey_Decompress max_inputs (b ++ rest) = Some (undo, rest)).
Proof. intros Hpk Hc Hu Hl. split; [by apply Coin_restored | by apply TxUndo_restored]. Qed.

(** A stand-in for the curve: the second coordinate is its parity. *)
Definition toy_valid (pk : list Z) : bool :=
  bool_decide (drop 33 pk = replicate 31 0 ++ [0]) || bool_decide (drop 33 pk = replicate 31 0 ++ [1]).

Definition toy_decompress (pk : list Z) : option (list Z) :=
  match pk with [] => None | b :: x => Some (0x04 :: x ++ replicate 31 0 ++ [b - 2]) end.

Lemma toy_law : pubkey_law toy_valid toy_decompress.
Proof.
  intros x y Hx Hy. unfold toy_valid.
  assert (drop 33 (4 :: x ++ y) = y) as ->.
  { change (drop 33 (4 :: x ++ y)) with (drop 32 (x ++ y)). rewrite <- Hx. apply drop_app_length. }
  rewrite orb_true_iff, !bool_decide_eq_true. by intros [-> | ->].
Qed.

Definition example_undo : list Coin :=
  [mkCoin (mkTxOut 123456789 ([33; 2] ++ replicate 32 7 ++ [172])) true 5;
   mkCoin (mkTxOut 2100000000 ([65; 4] ++ replicate 63 0 ++ [1; 172])) false 0;
   mkCoin (mkTxOut 0 [1; 2; 3]) false 100000].

(** Amounts that [MoneyRange] admits exist that the compact form corrupts. *)
Lemma CompressAmount_wraps :
  exists n x, 0 <= n <= 21000000000 * 100000000 /\ CompressAmount n = Some x /\ DecompressAmount x <> n.
Proof. exists 2099999999999999999. eexists. split; [lia |]. split; [vm_compute; done |]. vm_compute. done. Qed.
