(* ===== verification/Money.v ===== *)
(** * Amounts: [src/amount.h], [src/utilmoneystr.cpp], [src/policy/feerate.cpp],
      [src/founder_payment.cpp] and [GetBlockSubsidy] of [src/validation.cpp]

    A [CAmount] is an [int64_t]; products that may not fit are wrapped with
    [i64].  Characters are their codes, and a C string ends at its first
    zero. *)

From stdpp Require Import list.
From S2P Require Import Prelude Text StrEncodings Coins.

Definition COIN : Z := 100000000.
Definition CENT : Z := 1000000.
Definition MAX_MONEY : Z := 21000000000 * COIN.

Definition MoneyRange (nValue : Z) : bool := (nValue >=? 0) && (nValue <=? MAX_MONEY).

Lemma MoneyRange_spec v : MoneyRange v = true <-> 0 <= v <= MAX_MONEY.
Proof. unfold MoneyRange. rewrite andb_true_iff, Z.geb_le, Z.leb_le. done. Qed.

(** ** Block rewards *)

Definition GetBlockSubsidy (nHeight nSubsidyHalvingInterval : Z) : Z :=
  let halvings := Z.quot nHeight nSubsidyHalvingInterval in
  if halvings >=? 64 then 0 else Z.shiftr (2500 * COIN) halvings.

Record FounderRewardStructure := mkReward { reward_blockHeight : Z; rewardPercentage : Z }.

Record FounderPayment := mkFounder {
  payee : list Z;          (* GetScriptForDestination(CAvianAddress(founderAddress).Get()) *)
  startBlock : Z;
  rewardStructures : list FounderRewardStructure
}.

Definition INT_MAX : Z := 2 ^ 31 - 1.

Fixpoint founder_loop (l : list FounderRewardStructure) (blockHeight blockReward : Z) : Z :=
  match l with
  | [] => 0
  | r :: l =>
      if (reward_blockHeight r =? INT_MAX) || (blockHeight <=? reward_blockHeight r)
      then Z.quot (i64 (blockReward * rewardPercentage r)) 100
      else founder_loop l blockHeight blockReward
  end.

Definition getFounderPaymentAmount (f : FounderPayment) (blockHeight blockReward : Z) : Z :=
  if blockHeight <=? startBlock f then 0 else founder_loop (rewardStructures f) blockHeight blockReward.

(** The outputs of the coinbase after the payment is split off, and the
    founder's output; [None] is [txNew.vout[0]] of an empty vector. *)
Definition FillFounderPayment (f : FounderPayment) (vout : list CTxOut) (nBlockHeight blockReward : Z) :
    option (list CTxOut * CTxOut) :=
  let founderPayment := getFounderPaymentAmount f nBlockHeight blockReward in
  match vout with
  | [] => None
  | o :: rest =>
      let txoutFounderRet := mkTxOut founderPayment (payee f) in
      Some ((mkTxOut (i64 (nValue o - founderPayment)) (scriptPubKey o) :: rest) ++ [txoutFounderRet],
            txoutFounderRet)
  end.

Definition IsBlockPayeeValid (f : FounderPayment) (vout : list CTxOut) (height blockReward : Z) : bool :=
  let founderReward := getFounderPaymentAmount f height blockReward in
  existsb (fun o => bool_decide (scriptPubKey o = payee f) && (nValue o >=? founderReward)) vout.

(** ** Fee rates *)

(** [CFeeRate(nFeePaid, nBytes)]; [None] is the assertion on the size. *)
Definition CFeeRate (nFeePaid nBytes : Z) : option Z :=
  if nBytes <=? 2 ^ 63 - 1 then
    Some (if nBytes >? 0 then Z.quot (i64 (nFeePaid * 1000)) nBytes else 0)
  else None.

Definition GetFee (nSatoshisPerK nBytes : Z) : option Z :=
  if nBytes <=? 2 ^ 63 - 1 then
    let nFee := Z.quot (i64 (nSatoshisPerK * nBytes)) 1000 in
    Some (if (nFee =? 0) && negb (nBytes =? 0) then
            if nSatoshisPerK >? 0 then 1 else if nSatoshisPerK <? 0 then -1 else nFee
          else nFee)
  else None.

(** ** Printing and parsing *)

(** [for (i = str.size()-1; str[i] == '0' && isdigit(str[i-2]); --i) ++nTrim],
    on the reversed string. *)
Fixpoint trim_zeros (rstr : list Z) : list Z :=
  match rstr with
  | c :: ((_ :: d :: _) as rest) => if (c =? 48) && isdigit d then trim_zeros rest else rstr
  | _ => rstr
  end.

Definition FormatMoney (n : Z) : list Z :=
  let n_abs := if n >? 0 then n else i64 (- n) in
  let quotient := Z.quot n_abs COIN in
  let remainder := Z.rem n_abs COIN in
  let str := print_dec quotient ++ [46] ++ digits 8 remainder in
  let str := rev (trim_zeros (rev str)) in
  if n <? 0 then 45 :: str else str.

(** [while (isspace( *p)) p++]. *)
Fixpoint skip_spaces (s : list Z) : list Z :=
  match s with c :: rest => if isspace c then skip_spaces rest else s | [] => [] end.

(** [while (isdigit( *p) && (nMult > 0))]. *)
Fixpoint parse_units (s : list Z) (nMult nUnits : Z) : Z * list Z :=
  match s with
  | c :: rest =>
      if isdigit c && (nMult >? 0)
      then parse_units rest (Z.quot nMult 10) (nUnits + nMult * (c - 48))
      else (nUnits, s)
  | [] => (nUnits, [])
  end.

(** The first [for] loop: whole part, units and the rest of the string. *)
Fixpoint parse_whole (s strWhole : list Z) : option (list Z * Z * list Z) :=
  match s with
  | [] => Some (strWhole, 0, [])
  | c :: rest =>
      if c =? 46 then
        let '(nUnits, rest) := parse_units rest (CENT * 10) 0 in Some (strWhole, nUnits, rest)
      else if isspace c then Some (strWhole, 0, s)
      else if negb (isdigit c) then None
      else parse_whole rest (strWhole ++ [c])
  end.

Definition ParseMoney (str : list Z) : option Z :=
  '(strWhole, nUnits, rest) ← parse_whole (skip_spaces (c_str str)) [];
  if negb (forallb isspace rest) then None
  else if (10 <? length strWhole)%nat then None
  else if (nUnits <? 0) || (nUnits >? COIN) then None
  else Some (i64 (atoi64 strWhole * COIN + nUnits)).

(** ** The supply is bounded *)

(** Coins created by the first [n] blocks. *)
Fixpoint total_subsidy (interval : Z) (n : nat) : Z :=
  match n with O => 0 | S n => total_subsidy interval n + GetBlockSubsidy (Z.of_nat n) interval end.

Lemma GetBlockSubsidy_eq h I :
  0 <= h -> 0 < I -> GetBlockSubsidy h I = (2500 * COIN) / 2 ^ (h / I).
Proof.
  intros Hh HI. unfold GetBlockSubsidy. rewrite Z.quot_div_nonneg, Z.geb_leb by lia.
  assert (0 <= h / I) by (apply Z.div_pos; lia).
  destruct (Z.leb_spec 64 (h / I)); [| by rewrite Z.shiftr_div_pow2].
  symmetry. apply Z.div_small. unfold COIN. split; [lia |].
  assert (2 ^ 64 <= 2 ^ (h / I)) by (apply Z.pow_le_mono_r; lia). lia.
Qed.

(** The reward of the era with number [q]. *)
Definition era_reward (q : Z) : Z := (2500 * COIN) / 2 ^ q.

Lemma era_reward_halves q : 0 <= q -> 0 <= 2 * era_reward (q + 1) <= era_reward q.
Proof.
  intros Hq. unfold era_reward. rewrite Z.pow_add_r by lia. change (2 ^ 1) with 2.
  assert (0 < 2 ^ q) by lia. rewrite <- Z.div_div by lia.
  pose proof (Z.div_pos (2500 * COIN) (2 ^ q) ltac:(unfold COIN; lia) ltac:(lia)).
  pose proof (Z.mul_div_le (2500 * COIN / 2 ^ q) 2 ltac:(lia)).
  pose proof (Z.div_pos (2500 * COIN / 2 ^ q) 2). lia.
Qed.

(** What has been created, and twice the rest of the current era, stay within
    twice the first era. *)
Lemma total_subsidy_invariant I n :
  0 < I ->
  let q := Z.of_nat n / I in
  0 <= total_subsidy I n /\
  total_subsidy I n + (2 * I - Z.of_nat n mod I) * era_reward q <= 2 * I * (2500 * COIN).
Proof.
  intros HI. induction n as [| n [IH0 IH]].
  { cbn zeta. rewrite Z.div_0_l, Z.mod_0_l by lia. unfold era_reward. cbn [total_subsidy]. 
    rewrite Z.pow_0_r, Z.div_1_r. split; lia. }
  cbn zeta in *. cbn [total_subsidy]. rewrite GetBlockSubsidy_eq by lia. fold (era_reward (Z.of_nat n / I)).
  pose proof (Z.div_mod (Z.of_nat n) I ltac:(lia)) as E. pose proof (Z.mod_pos_bound (Z.of_nat n) I HI) as Hr.
  assert (0 <= Z.of_nat n / I) as Hq by (apply Z.div_pos; lia).
  set (q := Z.of_nat n / I) in *. set (r := Z.of_nat n mod I) in *.
  pose proof (era_reward_halves q Hq) as Hh. assert (0 <= era_reward q) by lia. split; [lia |].
  destruct (decide (r + 1 = I)) as [Hend | Hin].
  - destruct (div_mod_at I (q + 1) 0 (Z.of_nat (S n))) as [-> ->]; [lia | lia |].
    assert ((2 * I - r) * era_reward q = era_reward q + I * era_reward q) by (replace r with (I - 1) by lia; lia).
    nia.
  - destruct (div_mod_at I q (r + 1) (Z.of_nat (S n))) as [-> ->]; [lia | lia |]. lia.
Qed.

Lemma total_subsidy_bound I n : 0 < I <= 4200000 -> 0 <= total_subsidy I n <= MAX_MONEY.
Proof.
  intros HI. destruct (total_subsidy_invariant I n ltac:(lia)) as [H0 H1]. cbn zeta in H1.
  pose proof (Z.mod_pos_bound (Z.of_nat n) I ltac:(lia)).
  assert (0 <= Z.of_nat n / I) as Hq by (apply Z.div_pos; lia).
  pose proof (era_reward_halves _ Hq). split; [done |]. unfold MAX_MONEY, COIN in *. nia.
Qed.

Lemma GetBlockSubsidy_bound h I : 0 < I -> 0 <= h -> 0 <= GetBlockSubsidy h I <= 2500 * COIN.
Proof.
  intros HI Hh. rewrite GetBlockSubsidy_eq by lia. assert (0 < 2 ^ (h / I)).
  { apply Z.pow_pos_nonneg; [lia |]. apply Z.div_pos; lia. }
  split; [apply Z.div_pos; unfold COIN; lia |]. apply Z.div_le_upper_bound; unfold COIN; nia.
Qed.

Lemma founder_loop_bounds l h reward :
  Forall (fun r => 0 <= rewardPercentage r <= 100) l -> 0 <= reward <= MAX_MONEY / 100 ->
  0 <= founder_loop l h reward <= reward.
Proof.
  unfold MAX_MONEY, COIN. intros Hl Hr. induction Hl as [| r l Hp _ IH]; cbn [founder_loop]; [lia |].
  destruct (_ || _); [| done]. change (21000000000 * 100000000 / 100) with 21000000000000000 in Hr.
  rewrite wraps_small by nia. rewrite Z.quot_div_nonneg by nia.
  split; [apply Z.div_pos; nia | apply Z.div_le_upper_bound; nia].
Qed.

(** The block rewards of any number of blocks never add up to more than
    [MAX_MONEY], for every halving interval up to 4,200,000 blocks (the networks
    use 2,100,000 and 150), and the founder payment taken out of a reward is
    between zero and the reward for percentages up to 100. *)
Theorem supply_bounded (interval : Z) (n : nat) (f : FounderPayment) (h : Z) :
  0 < interval <= 4200000 -> Forall (fun r => 0 <= rewardPercentage r <= 100) (rewardStructures f) -> 0 <= h ->
  0 <= total_subsidy interval n <= MAX_MONEY /\
  0 <= getFounderPaymentAmount f h (GetBlockSubsidy h interval) <= GetBlockSubsidy h interval.
Proof.
  intros HI Hf Hh. split; [by apply total_subsidy_bound |].
  pose proof (GetBlockSubsidy_bound h interval ltac:(lia) Hh) as Hs. unfold getFounderPaymentAmount.
  destruct (h <=? startBlock f); [lia |]. apply founder_loop_bounds; [done |].
  assert (2500 * COIN <= MAX_MONEY / 100) by done. lia.
Qed.

(** ** Printed amounts are parsed back *)

(** Trimming removes zeros from the end of the fraction and leaves two digits. *)
Lemma trim_zeros_spec rf r :
  Forall (fun c => isdigit c = true) rf -> (2 <= length rf)%nat ->
  exists j rf', rf = replicate j 48 ++ rf' /\ (2 <= length rf')%nat /\
    trim_zeros (rf ++ 46 :: r) = rf' ++ 46 :: r.
Proof.
  induction rf as [| c rf IH]; intros Hd Hl; [cbn in Hl; lia |].
  destruct rf as [| c1 rf]; [cbn in Hl; lia |]. apply Forall_cons in Hd as [Hc Hd].
  destruct rf as [| d rf].
  { exists 0%nat, [c; c1]. split; [done |]. split; [cbn; lia |]. cbn. by rewrite andb_false_r. }
  pose proof Hd as Hd'. apply Forall_cons in Hd' as [_ Hd']. apply Forall_cons in Hd' as [Hdd _].
  change (trim_zeros ((c :: c1 :: d :: rf) ++ 46 :: r)) with
    (if (c =? 48) && isdigit d then trim_zeros ((c1 :: d :: rf) ++ 46 :: r)
     else (c :: c1 :: d :: rf) ++ 46 :: r).
  rewrite Hdd, andb_true_r. destruct (Z.eqb_spec c 48) as [-> |].
  - destruct (IH Hd ltac:(cbn; lia)) as (j & rf' & E & Hl' & Ht). exists (S j), rf'.
    split; [rewrite E; done |]. split; [done |]. exact Ht.
  - exists 0%nat, (c :: c1 :: d :: rf). split; [done |]. split; [cbn; lia | done].
Qed.

Lemma parse_units_digits l : forall m acc,
  Forall (fun c => isdigit c = true) l -> (length l <= m)%nat -> (1 <= m)%nat ->
  parse_units l (10 ^ Z.of_nat (pred m)) acc = (acc + dec_value l * 10 ^ Z.of_nat (m - length l), []).
Proof.
  induction l as [| c l IH]; intros m acc Hd Hl Hm; cbn [parse_units]; [do 2 f_equal; cbn; lia |].
  apply Forall_cons in Hd as [Hc Hd]. cbn [length] in *. rewrite Hc, Z.gtb_ltb.
  destruct (Z.ltb_spec 0 (10 ^ Z.of_nat (pred m))); [| lia]. cbn [andb].
  rewrite dec_value_cons. destruct m as [| m]; [lia |]. cbn [pred] in *. rewrite Nat.sub_succ.
  destruct (decide (m = 0)%nat) as [-> | Hm0].
  { destruct l; [| cbn in Hl; lia]. cbn. do 2 f_equal. lia. }
  replace (10 ^ Z.of_nat m) with (10 * 10 ^ Z.of_nat (pred m)) by (rewrite <- Z.pow_succ_r by lia; f_equal; lia).
  rewrite (Z.mul_comm 10 (10 ^ Z.of_nat (pred m))), Z.quot_mul, IH by (done || lia). f_equal.
  replace (Z.of_nat m) with (Z.of_nat (length l) + Z.of_nat (m - length l)) by lia.
  replace (10 ^ Z.of_nat (pred m) * 10) with (10 ^ Z.of_nat (length l) * 10 ^ Z.of_nat (m - length l)); [lia |].
  rewrite <- Z.pow_add_r, (Z.mul_comm _ 10), <- Z.pow_succ_r by lia. f_equal. lia.
Qed.

Lemma parse_whole_digits l : Forall (fun c => isdigit c = true) l -> forall w s,
  parse_whole (l ++ s) w = parse_whole s (w ++ l).
Proof.
  induction 1 as [| c l Hc _ IH]; intros w s; [by rewrite app_nil_r |].
  pose proof (isdigit_facts c Hc) as (_ & H46 & Hsp & _). cbn [app parse_whole].
  destruct (Z.eqb_spec c 46); [done |]. rewrite Hsp, Hc. cbn [negb].
  rewrite IH. by rewrite <- app_assoc.
Qed.

(** The string [FormatMoney] prints. *)
Lemma FormatMoney_shape n :
  0 <= n < 2 ^ 63 -> exists f j, FormatMoney n = print_dec (n / COIN) ++ 46 :: f /\
    digits 8 (n mod COIN) = f ++ replicate j 48.
Proof.
  intros Hn. unfold FormatMoney.
  assert ((if n >? 0 then n else i64 (- n)) = n) as ->.
  { rewrite Z.gtb_ltb. destruct (Z.ltb_spec 0 n); [done |]. by replace n with 0 by lia. }
  rewrite Z.quot_div_nonneg, Z.rem_mod_nonneg by (unfold COIN; lia). cbv zeta.
  destruct (Z.ltb_spec n 0); [lia |].
  destruct (trim_zeros_spec (rev (digits 8 (n mod COIN))) (rev (print_dec (n / COIN)))) as (j & rf & E & _ & Ht).
  { apply Forall_rev, digits_isdigit. }
  { rewrite length_rev, length_digits. lia. }
  exists (rev rf), j. rewrite !rev_app_distr. cbn [rev app]. rewrite <- app_assoc. cbn [app].
  rewrite Ht, rev_app_distr. cbn [rev]. rewrite rev_involutive, <- app_assoc. split; [done |].
  rewrite <- (rev_involutive (digits 8 (n mod COIN))), E, rev_app_distr. f_equal.
  clear. induction j as [| j IH]; [done |]. cbn [replicate rev]. rewrite IH.
  by rewrite <- replicate_cons_app.
Qed.

(** Every amount below [10^10] coins is parsed back from the string
    [FormatMoney] prints for it.  From [10^10] coins on, within [MAX_MONEY] and
    beyond, [ParseMoney] refuses what [FormatMoney] prints: its guard admits
    ten digits of whole coins. *)
Theorem money_format_roundtrip (n : Z) :
  0 <= n < 2 ^ 63 ->
  ParseMoney (FormatMoney n) = if n <? 10 ^ 10 * COIN then Some n else None.
Proof.
  intros Hn. destruct (FormatMoney_shape n Hn) as (f & j & -> & Ef).
  assert (Forall (fun c => isdigit c = true) f) as Hf.
  { pose proof (digits_isdigit 8 (n mod COIN)) as H. rewrite Ef in H. by apply Forall_app in H as [? _]. }
  assert (length f + j = 8)%nat as Hl.
  { pose proof (length_digits 8 (n mod COIN)) as H. rewrite Ef, length_app, length_replicate in H. done. }
  assert (0 <= n / COIN < 10 ^ Z.of_nat 19) as Hq.
  { unfold COIN. split; [apply Z.div_pos; lia |]. apply Z.div_lt_upper_bound; lia. }
  destruct (count_digits_spec 18 (n / COIN) Hq) as (Hk1 & Hk2 & Hk3).
  pose proof (digits_isdigit (count_digits 18 (n / COIN)) (n / COIN)) as Hw.
  unfold ParseMoney. fold (print_dec (n / COIN)) in Hw.
  rewrite c_str_digits by done. change (c_str (46 :: f)) with (46 :: c_str f).
  rewrite <- (app_nil_r f), c_str_digits by done. change (c_str []) with (@nil Z). rewrite app_nil_r.
  assert (skip_spaces (print_dec (n / COIN) ++ 46 :: f) = print_dec (n / COIN) ++ 46 :: f) as ->.
  { destruct (print_dec (n / COIN)) as [| c w]; [done |]. apply Forall_cons in Hw as [Hc _].
    cbn [app skip_spaces]. by destruct (isdigit_facts c Hc) as (_ & _ & -> & _). }
  rewrite parse_whole_digits by done. cbn [parse_whole app]. change (46 =? 46) with true. cbv iota.
  change (CENT * 10) with (10 ^ Z.of_nat (pred 8)). rewrite parse_units_digits by (done || lia).
  cbn [mbind option_bind forallb negb]. rewrite Z.add_0_l.
  assert (dec_value f * 10 ^ Z.of_nat (8 - length f) = n mod COIN) as ->.
  { replace (8 - length f)%nat with j by lia. rewrite <- dec_value_zeros, <- Ef, digits_value.
    - change (10 ^ Z.of_nat 8) with COIN. apply Z.mod_mod. done.
    - apply Z.mod_pos_bound. done. }
  pose proof (Z.div_mod n COIN ltac:(done)) as E. pose proof (Z.mod_pos_bound n COIN ltac:(done)) as Hm.
  rewrite atoi64_print by (unfold COIN in *; lia). unfold print_dec. rewrite length_digits, Z.gtb_ltb.
  destruct (Z.ltb_spec (n mod COIN) 0); [lia |]. destruct (Z.ltb_spec COIN (n mod COIN)); [lia |]. cbn [orb].
  replace (n / COIN * COIN + n mod COIN) with n by lia. rewrite wraps_small by lia.
  set (k := count_digits 18 (n / COIN)) in *.
  destruct (Nat.ltb_spec 10 k), (Z.ltb_spec n (10 ^ 10 * COIN)); try done; exfalso.
  - destruct Hk3 as [|Hk3]; [lia |]. assert (10 ^ 10 <= 10 ^ Z.of_nat (pred k)) by (apply Z.pow_le_mono_r; lia).
    unfold COIN in *. lia.
  - assert (10 ^ Z.of_nat k <= 10 ^ 10) by (apply Z.pow_le_mono_r; lia). unfold COIN in *. lia.
Qed.

