(* ===== verification/AssetFormat.v ===== *)
(** * Asset data and asset scripts
      ([src/assets/assettypes.h], [src/script/script.cpp], and the script
      builders and readers of [src/assets/assets.cpp])

    Issuing, reissuing and transferring an asset append
    [OP_AVN_ASSET <push of "rvn" + kind + data> OP_DROP] to a 25-byte
    pay-to-public-key-hash script.  The readers find the data by fixed
    offsets, see [IsAssetScript], and deserialize everything up to the end of
    the script, the final [OP_DROP] included. *)

From stdpp Require Import list.
From S2P Require Import Prelude Bytes Serialize Script ScriptNum.

Definition OP_DROP : Z := 0x75.
Definition IPFS_SHA2_256 : Z := 0x12.
Definition TXID_NOTIFIER : Z := 0x54.
Definition IPFS_SHA2_256_LEN : Z := 0x20.

(** ** Data *)

Record CNewAsset := mkNewAsset {
  na_strName : list Z;
  na_nAmount : Z;        (* CAmount *)
  na_units : Z;          (* int8_t *)
  na_nReissuable : Z;    (* int8_t *)
  na_nHasIPFS : Z;       (* int8_t *)
  na_strIPFSHash : list Z;
  na_nHasANS : Z;        (* int8_t *)
  na_strANSID : list Z
}.

Record CAssetTransfer := mkTransfer {
  tr_strName : list Z;
  tr_nAmount : Z;
  tr_message : list Z;
  tr_nExpireTime : Z     (* int64_t *)
}.

Record CReissueAsset := mkReissue {
  re_strName : list Z;
  re_nAmount : Z;
  re_nUnits : Z;         (* int8_t *)
  re_nReissuable : Z;    (* int8_t *)
  re_strIPFSHash : list Z;
  re_strANSID : list Z
}.

(** ** Serialization *)

Definition int8_codec : Codec Z :=
  mkCodec ser_writedata8 (fun s => '(x, s) ← ser_readdata8 s; Some (wraps 8 x, s)).

(** [ReadWriteAssetIPFSHash], writing: the bytes and the returned flag. *)
Definition WriteAssetIPFSHash (strIPFSHash : list Z) : list Z * bool :=
  if (length strIPFSHash =? 34)%nat
  then (ser_writedata8 IPFS_SHA2_256 ++ encode string_codec (drop 2 strIPFSHash), true)
  else if (length strIPFSHash =? 32)%nat
  then (ser_writedata8 TXID_NOTIFIER ++ encode string_codec strIPFSHash, true)
  else ([], false).

(** Reading: the hash, the flag and the rest of the stream. *)
Definition ReadAssetIPFSHash (s : list Z) : option (list Z * bool * list Z) :=
  if negb (bool_decide (s = [])) && (33 <=? length s)%nat then
    '(sha2, s) ← ser_readdata8 s;
    '(hash, s) ← decode string_codec s;
    let front := if sha2 =? IPFS_SHA2_256 then [IPFS_SHA2_256; IPFS_SHA2_256_LEN] else [] in
    Some (front ++ take 32 hash, true, s)
  else Some ([], false, s).

Definition NewAsset_encode (a : CNewAsset) : list Z :=
  encode string_codec (na_strName a) ++ encode int64_codec (na_nAmount a) ++
  encode int8_codec (na_units a) ++ encode int8_codec (na_nReissuable a) ++
  encode int8_codec (na_nHasIPFS a) ++
  (if na_nHasIPFS a =? 1 then fst (WriteAssetIPFSHash (na_strIPFSHash a)) else []) ++
  encode int8_codec (na_nHasANS a) ++
  (if na_nHasANS a =? 1 then encode string_codec (na_strANSID a) else []).

(** Into a freshly constructed object, whose strings are empty. *)
Definition NewAsset_decode (s : list Z) : option (CNewAsset * list Z) :=
  '(name, s) ← decode string_codec s;
  '(amount, s) ← decode int64_codec s;
  '(units, s) ← decode int8_codec s;
  '(reissuable, s) ← decode int8_codec s;
  '(hasIPFS, s) ← decode int8_codec s;
  '(ipfs, s) ← (if hasIPFS =? 1 then '(h, _, s) ← ReadAssetIPFSHash s; Some (h, s) else Some ([], s));
  '(hasANS, s) ← decode int8_codec s;
  '(ans, s) ← (if hasANS =? 1 then decode string_codec s else Some ([], s));
  Some (mkNewAsset name amount units reissuable hasIPFS ipfs hasANS ans, s).

Definition Transfer_encode (t : CAssetTransfer) : list Z :=
  let '(msg, validIPFS) := WriteAssetIPFSHash (tr_message t) in
  encode string_codec (tr_strName t) ++ encode int64_codec (tr_nAmount t) ++ msg ++
  (if validIPFS : bool then
     if negb (tr_nExpireTime t =? 0) then encode int64_codec (tr_nExpireTime t) else []
   else []).

Definition Transfer_decode (s : list Z) : option (CAssetTransfer * list Z) :=
  '(name, s) ← decode string_codec s;
  '(amount, s) ← decode int64_codec s;
  '(msg, validIPFS, s) ← ReadAssetIPFSHash s;
  '(expire, s) ←
    (if (validIPFS : bool) && negb (bool_decide (s = [])) && (8 <=? length s)%nat
     then decode int64_codec s else Some (0, s));
  Some (mkTransfer name amount msg expire, s).

Definition Reissue_encode (r : CReissueAsset) : list Z :=
  encode string_codec (re_strName r) ++ encode int64_codec (re_nAmount r) ++
  encode int8_codec (re_nUnits r) ++ encode int8_codec (re_nReissuable r) ++
  fst (WriteAssetIPFSHash (re_strIPFSHash r)) ++ encode string_codec (re_strANSID r).

Definition Reissue_decode (s : list Z) : option (CReissueAsset * list Z) :=
  '(name, s) ← decode string_codec s;
  '(amount, s) ← decode int64_codec s;
  '(units, s) ← decode int8_codec s;
  '(reissuable, s) ← decode int8_codec s;
  '(ipfs, _, s) ← ReadAssetIPFSHash s;
  '(ans, s) ← decode string_codec s;
  Some (mkReissue name amount units reissuable ipfs ans, s).

(** ** Scripts *)

(** [script << OP_AVN_ASSET << vchMessage << OP_DROP]. *)
Definition asset_tail (kind : Z) (data : list Z) : list Z :=
  [OP_AVN_ASSET] ++ push_data ([AVN_R; AVN_V; AVN_N; kind] ++ data) ++ [OP_DROP].

Definition NewAsset_ConstructTransaction (script : list Z) (a : CNewAsset) : list Z :=
  script ++ asset_tail AVN_Q (NewAsset_encode a).

(** The owner token of [strName]; [OWNER_TAG] is ["!"]. *)
Definition ConstructOwnerTransaction (script : list Z) (a : CNewAsset) : list Z :=
  script ++ asset_tail AVN_O (encode string_codec (na_strName a ++ [33])).

Definition Transfer_ConstructTransaction (script : list Z) (t : CAssetTransfer) : list Z :=
  script ++ asset_tail AVN_T (Transfer_encode t).

Definition Reissue_ConstructTransaction (script : list Z) (r : CReissueAsset) : list Z :=
  script ++ asset_tail AVN_R (Reissue_encode r).

Definition ScriptNewAsset (script : list Z) : option nat :=
  match IsAssetScript script with Some (TX_NEW_ASSET, false, i) => Some i | _ => None end.

Definition ScriptTransferAsset (script : list Z) : option nat :=
  match IsAssetScript script with Some (TX_TRANSFER_ASSET, _, i) => Some i | _ => None end.

Definition ScriptReissueAsset (script : list Z) : option nat :=
  match IsAssetScript script with Some (TX_REISSUE_ASSET, _, i) => Some i | _ => None end.

(** The readers, without the address they also extract. *)
Definition AssetFromScript (script : list Z) : option CNewAsset :=
  i ← ScriptNewAsset script; '(a, _) ← NewAsset_decode (drop i script); Some a.

Definition TransferAssetFromScript (script : list Z) : option CAssetTransfer :=
  i ← ScriptTransferAsset script; '(t, _) ← Transfer_decode (drop i script); Some t.

Definition ReissueAssetFromScript (script : list Z) : option CReissueAsset :=
  i ← ScriptReissueAsset script; '(r, _) ← Reissue_decode (drop i script); Some r.

Definition AmountFromNewAssetScript (script : list Z) : option Z :=
  a ← AssetFromScript script; Some (na_nAmount a).

Definition AmountFromTransferScript (script : list Z) : option Z :=
  t ← TransferAssetFromScript script; Some (tr_nAmount t).

Definition AmountFromReissueScript (script : list Z) : option Z :=
  r ← ReissueAssetFromScript script; Some (re_nAmount r).

Definition OWNER_ASSET_AMOUNT : Z := 1 * 100000000.

Definition GetAssetAmountFromScript (script : list Z) : option Z :=
  match IsAssetScript script with
  | None => None
  | Some (TX_NEW_ASSET, false, _) => AmountFromNewAssetScript script
  | Some (TX_TRANSFER_ASSET, _, _) => AmountFromTransferScript script
  | Some (TX_NEW_ASSET, true, _) => Some OWNER_ASSET_AMOUNT
  | Some (TX_REISSUE_ASSET, _, _) => AmountFromReissueScript script
  end.

Definition UNIQUE_ASSET_AMOUNT : Z := 1 * 100000000.
Definition MAX_UNIT : Z := 8.

(** [None] is a conversion or a division with undefined behaviour. *)
Definition CheckAmountWithUnits (nAmount nUnits : Z) : option bool :=
  let e := MAX_UNIT - nUnits in
  if (e <? 0) || (18 <? e) then None else Some (Z.rem nAmount (10 ^ e) =? 0).

Definition OwnerAssetFromScript (script : list Z) : option (list Z) :=
  match IsAssetScript script with
  | Some (TX_NEW_ASSET, true, i) => '(name, _) ← decode string_codec (drop i script); Some name
  | _ => None
  end.

(** Name and amount. *)
Definition GetAssetData (script : list Z) : option (list Z * Z) :=
  match IsAssetScript script with
  | Some (TX_NEW_ASSET, false, _) => a ← AssetFromScript script; Some (na_strName a, na_nAmount a)
  | Some (TX_TRANSFER_ASSET, _, _) => t ← TransferAssetFromScript script; Some (tr_strName t, tr_nAmount t)
  | Some (TX_NEW_ASSET, true, _) => n ← OwnerAssetFromScript script; Some (n, OWNER_ASSET_AMOUNT)
  | Some (TX_REISSUE_ASSET, _, _) => r ← ReissueAssetFromScript script; Some (re_strName r, re_nAmount r)
  | None => None
  end.

(** [CScript::IsUnspendable]. *)
Definition IsUnspendable (script : list Z) : bool :=
  ((0 <? length script)%nat && byte_at script 0 OP_RETURN) ||
  ((0 <? length script)%nat && byte_at script 0 OP_AVN_ASSET) ||
  (Z.of_nat (length script) >? MAX_SCRIPT_SIZE) ||
  bool_decide (GetAssetAmountFromScript script = Some 0).

(** ** Where the data of an asset script is found *)

(** The push is at most 255 bytes long, and not [AVN_R] = 114 bytes long: a
    [OP_PUSHDATA1] length byte of 114 sits where the reader looks for the
    [r] of a short push. *)
Definition recognisable (data : list Z) : bool :=
  (length data + 4 <? 256)%nat && negb (length data + 4 =? 114)%nat.

Definition data_index (data : list Z) : nat := if (length data + 4 <? 76)%nat then 31 else 32.

Definition asset_kind (kind : Z) : option (AssetScriptType * bool) :=
  if kind =? AVN_T then Some (TX_TRANSFER_ASSET, false)
  else if kind =? AVN_Q then Some (TX_NEW_ASSET, false)
  else if kind =? AVN_O then Some (TX_NEW_ASSET, true)
  else if kind =? AVN_R then Some (TX_REISSUE_ASSET, false)
  else None.

Lemma push_short kind data : (length data + 4 < 76)%nat ->
  asset_tail kind data =
    [OP_AVN_ASSET; Z.of_nat (length data) + 4; AVN_R; AVN_V; AVN_N; kind] ++ data ++ [OP_DROP].
Proof.
  intros Hd. unfold asset_tail, push_data. rewrite length_app. cbn [length].
  destruct (Z.ltb_spec (Z.of_nat (4 + length data)) OP_PUSHDATA1) as [H | H]; [| unfold OP_PUSHDATA1 in H; lia].
  unfold wrapu. rewrite Z.mod_small by lia. cbn [app]. rewrite <- ?app_assoc. do 2 f_equal. lia.
Qed.

Lemma push_medium kind data : (76 <= length data + 4 < 256)%nat ->
  asset_tail kind data =
    [OP_AVN_ASSET; OP_PUSHDATA1; Z.of_nat (length data) + 4; AVN_R; AVN_V; AVN_N; kind] ++ data ++ [OP_DROP].
Proof.
  intros Hd. unfold asset_tail, push_data. rewrite length_app. cbn [length].
  destruct (Z.ltb_spec (Z.of_nat (4 + length data)) OP_PUSHDATA1) as [H | H]; [unfold OP_PUSHDATA1 in H; lia |].
  destruct (Z.leb_spec (Z.of_nat (4 + length data)) 0xff); [| lia].
  unfold wrapu. rewrite Z.mod_small by lia. cbn [app]. rewrite <- ?app_assoc. do 3 f_equal. lia.
Qed.

Lemma byte_at_tail script tail k x :
  length script = 25%nat -> byte_at (script ++ tail) (25 + k) x = byte_at tail k x.
Proof. intros <-. unfold byte_at. by rewrite app_nth2_plus. Qed.

Lemma drop_tail (script tail : list Z) k :
  length script = 25%nat -> drop (25 + k) (script ++ tail) = drop k tail.
Proof. intros <-. apply drop_app_add. Qed.

(** [IsAssetScript] on the bytes that follow the 25-byte script. *)
Lemma IsAssetScript_split script tail :
  length script = 25%nat -> (15 <= length tail)%nat ->
  IsAssetScript (script ++ tail) =
  if byte_at tail 0 OP_AVN_ASSET then
    index ←
      (if byte_at tail 2 AVN_R then if byte_at tail 3 AVN_V && byte_at tail 4 AVN_N then Some 5%nat else None
       else if byte_at tail 3 AVN_R && byte_at tail 4 AVN_V && byte_at tail 5 AVN_N then Some 6%nat else None);
    k ← asset_kind (nth index tail 0); Some (k.1, k.2, 25 + S index)%nat
  else None.
Proof.
  intros Hs Ht. unfold IsAssetScript.
  assert (forall n, (n <= 39)%nat -> (n <? length (script ++ tail))%nat = true) as E.
  { intros n Hn. apply Nat.ltb_lt. rewrite length_app. lia. }
  rewrite !E by lia. cbn [andb]. pose proof (fun k x => byte_at_tail script tail k x Hs) as B.
  pose proof (B 0%nat) as B0. pose proof (B 2%nat) as B2. pose proof (B 3%nat) as B3.
  pose proof (B 4%nat) as B4. pose proof (B 5%nat) as B5. pose proof (B 6%nat) as B6.
  cbn [Nat.add] in B0, B2, B3, B4, B5, B6. rewrite B0, B2, !B3, !B4, !B5.
  destruct (byte_at tail 0 OP_AVN_ASSET); [| done]. unfold asset_kind.
  destruct (byte_at tail 2 AVN_R), (byte_at tail 3 AVN_V && byte_at tail 4 AVN_N),
    (byte_at tail 3 AVN_R && byte_at tail 4 AVN_V && byte_at tail 5 AVN_N); try done;
    cbn [mbind option_bind]; rewrite ?B5, ?B6, andb_true_r; unfold byte_at;
    repeat case_match; done.
Qed.

Lemma IsAssetScript_tail script kind data :
  length script = 25%nat -> recognisable data = true -> (8 <= length data)%nat ->
  IsAssetScript (script ++ asset_tail kind data) =
    (k ← asset_kind kind; Some (k.1, k.2, data_index data)) /\
  drop (data_index data) (script ++ asset_tail kind data) = data ++ [OP_DROP].
Proof.
  intros Hs Hr Hd. unfold recognisable in Hr. apply andb_true_iff in Hr as [Hr1 Hr2].
  apply Nat.ltb_lt in Hr1. apply negb_true_iff, Nat.eqb_neq in Hr2. unfold data_index.
  destruct (Nat.ltb_spec (length data + 4) 76) as [H | H];
    [rewrite push_short by lia | rewrite push_medium by lia];
    (rewrite IsAssetScript_split; [| done | rewrite !length_app; cbn [length]; lia]);
    (split; [| exact (drop_tail _ _ _ Hs)]).
  - reflexivity.
  - unfold byte_at. cbn [app nth]. destruct (Z.eqb_spec (Z.of_nat (length data) + 4) AVN_R) as [E | E];
      [unfold AVN_R in E; lia | reflexivity].
Qed.

(** A push of exactly 114 bytes is not recognised, whatever it carries. *)
Lemma IsAssetScript_114 script kind data :
  length script = 25%nat -> length data = 110%nat -> IsAssetScript (script ++ asset_tail kind data) = None.
Proof.
  intros Hs Hd. rewrite push_medium by lia.
  rewrite IsAssetScript_split by (done || rewrite !length_app; cbn [length]; lia).
  unfold byte_at. cbn [app nth]. rewrite Hd. reflexivity.
Qed.

(** ** Reading the data back *)

Definition int8_range (x : Z) : Prop := - 2 ^ 7 <= x < 2 ^ 7.
Definition int64_range (x : Z) : Prop := - 2 ^ 63 <= x < 2 ^ 63.

#[export] Instance int8_ok : CodecOk int8_codec int8_range.
Proof. intros x rest Hx. apply (read_signed 1 1); [done | done | exact Hx]. Qed.

(** An IPFS hash in its 34-byte form, or a 32-byte transaction id. *)
Definition hash_ok (h : list Z) : Prop :=
  (length h = 34%nat /\ take 2 h = [IPFS_SHA2_256; IPFS_SHA2_256_LEN]) \/ length h = 32%nat.

Definition new_asset_ok (a : CNewAsset) : Prop :=
  size_ok (na_strName a) /\ int64_range (na_nAmount a) /\ int8_range (na_units a) /\
  int8_range (na_nReissuable a) /\ int8_range (na_nHasIPFS a) /\ int8_range (na_nHasANS a) /\
  (if na_nHasIPFS a =? 1 then hash_ok (na_strIPFSHash a) else na_strIPFSHash a = []) /\
  (if na_nHasANS a =? 1 then size_ok (na_strANSID a) else na_strANSID a = []).

(** The expiry time is only written after a message. *)
Definition transfer_ok (t : CAssetTransfer) : Prop :=
  size_ok (tr_strName t) /\ int64_range (tr_nAmount t) /\ int64_range (tr_nExpireTime t) /\
  (hash_ok (tr_message t) \/ tr_message t = [] /\ tr_nExpireTime t = 0).

(** Without an IPFS hash the ANS ID must be short: the reader decides by the
    number of bytes left whether a hash is present. *)
Definition reissue_ok (r : CReissueAsset) : Prop :=
  size_ok (re_strName r) /\ int64_range (re_nAmount r) /\ int8_range (re_nUnits r) /\
  int8_range (re_nReissuable r) /\ size_ok (re_strANSID r) /\
  (hash_ok (re_strIPFSHash r) \/ re_strIPFSHash r = [] /\ (length (re_strANSID r) <= 30)%nat).

Lemma ReadAssetIPFSHash_Write h rest :
  hash_ok h -> WriteAssetIPFSHash h = (fst (WriteAssetIPFSHash h), true) /\
  ReadAssetIPFSHash (fst (WriteAssetIPFSHash h) ++ rest) = Some (h, true, rest).
Proof.
  intros Hh. unfold WriteAssetIPFSHash.
  assert (exists tag body, byte_ok tag /\ length body = 32%nat /\
    (if (length h =? 34)%nat
     then (ser_writedata8 IPFS_SHA2_256 ++ encode string_codec (drop 2 h), true)
     else if (length h =? 32)%nat then (ser_writedata8 TXID_NOTIFIER ++ encode string_codec h, true)
     else ([], false)) = (ser_writedata8 tag ++ encode string_codec body, true) /\
    h = (if tag =? IPFS_SHA2_256 then [IPFS_SHA2_256; IPFS_SHA2_256_LEN] else []) ++ body)
    as (tag & body & Ht & Hb & -> & ->).
  { destruct Hh as [[Hl Ht] | Hl]; rewrite Hl; cbn [Nat.eqb].
    - exists IPFS_SHA2_256, (drop 2 h). rewrite length_drop, Hl. split; [done |]. split; [done |]. split; [done |].
      change (h = [IPFS_SHA2_256; IPFS_SHA2_256_LEN] ++ drop 2 h). rewrite <- Ht. symmetry. apply take_drop.
    - by exists TXID_NOTIFIER, h. }
  split; [done |]. cbn [fst]. unfold ReadAssetIPFSHash.
  assert (encode string_codec body = WriteCompactSize 32 ++ body) as E.
  { cbn [encode string_codec]. by rewrite bytes_encode_eq, Hb. }
  assert (33 <= length ((ser_writedata8 tag ++ encode string_codec body) ++ rest))%nat as Hlen.
  { rewrite E, !length_app, Hb. cbn. lia. }
  apply Nat.leb_le in Hlen as Hlen'. rewrite Hlen', bool_decide_false by (intros N; rewrite N in Hlen; cbn in Hlen; lia).
  cbn [negb andb]. rewrite <- app_assoc. change (ser_readdata8 ?s) with (decode uint8_codec s).
  change (ser_writedata8 tag) with (encode uint8_codec tag). rewrite codec_ok by exact Ht. cbn [mbind option_bind].
  rewrite codec_ok by (rewrite Hb; done). cbn [mbind option_bind]. by rewrite take_ge by lia.
Qed.

Lemma ReadAssetIPFSHash_short rest : (length rest < 33)%nat -> ReadAssetIPFSHash rest = Some ([], false, rest).
Proof.
  intros H. unfold ReadAssetIPFSHash. destruct (Nat.leb_spec 33 (length rest)); [lia |]. by rewrite andb_false_r.
Qed.

Lemma NewAsset_read a rest : new_asset_ok a -> NewAsset_decode (NewAsset_encode a ++ rest) = Some (a, rest).
Proof.
  destruct a as [name amount units re hasIPFS ipfs hasANS ans]. unfold new_asset_ok, NewAsset_decode, NewAsset_encode.
  cbn [na_strName na_nAmount na_units na_nReissuable na_nHasIPFS na_strIPFSHash na_nHasANS na_strANSID].
  intros (? & ? & ? & ? & ? & ? & Hipfs & Hans). do 5 read_back. destruct (hasIPFS =? 1).
  - rewrite (proj2 (ReadAssetIPFSHash_Write _ _ Hipfs)). cbn [mbind option_bind]. read_back.
    destruct (hasANS =? 1); [by read_back | by subst].
  - subst ipfs. cbn [app mbind option_bind]. read_back. destruct (hasANS =? 1); [by read_back | by subst].
Qed.

Lemma Transfer_read t :
  transfer_ok t -> Transfer_decode (Transfer_encode t ++ [OP_DROP]) = Some (t, [OP_DROP]).
Proof.
  destruct t as [name amount msg expire]. unfold transfer_ok, Transfer_decode, Transfer_encode.
  cbn [tr_strName tr_nAmount tr_message tr_nExpireTime]. intros (? & ? & ? & [Hm | [-> ->]]).
  - destruct (ReadAssetIPFSHash_Write msg [] Hm) as [-> _]. do 2 read_back.
    rewrite <- ?app_assoc, (proj2 (ReadAssetIPFSHash_Write _ _ Hm)). cbn [mbind option_bind].
    destruct (Z.eqb_spec expire 0) as [-> | He]; cbn [negb andb]; [reflexivity |].
    rewrite bool_decide_false by (intros N; discriminate (f_equal length N)). cbn [negb andb].
    read_back. done.
  - change (WriteAssetIPFSHash []) with ([] : list Z, false). cbv beta iota. do 2 read_back. reflexivity.
Qed.

Lemma Reissue_read r :
  reissue_ok r -> Reissue_decode (Reissue_encode r ++ [OP_DROP]) = Some (r, [OP_DROP]).
Proof.
  destruct r as [name amount units re ipfs ans]. unfold reissue_ok, Reissue_decode, Reissue_encode.
  cbn [re_strName re_nAmount re_nUnits re_nReissuable re_strIPFSHash re_strANSID].
  intros (? & ? & ? & ? & ? & [Hi | [-> Ha]]); do 4 read_back.
  - rewrite (proj2 (ReadAssetIPFSHash_Write _ _ Hi)). cbn [mbind option_bind]. by read_back.
  - cbn [WriteAssetIPFSHash length Nat.eqb fst app]. rewrite ReadAssetIPFSHash_short.
    + cbn [mbind option_bind]. by read_back.
    + cbn [encode string_codec]. rewrite bytes_encode_eq, !length_app. unfold WriteCompactSize.
      destruct (Z.ltb_spec (Z.of_nat (length ans)) 253); [| lia]. cbn [ser_writedata8 le_encode length]. lia.
Qed.

Lemma length_string v : (length v < 253)%nat -> length (encode string_codec v) = S (length v).
Proof.
  intros H. cbn [encode string_codec]. rewrite bytes_encode_eq, length_app. unfold WriteCompactSize.
  destruct (Z.ltb_spec (Z.of_nat (length v)) 253); [done | lia].
Qed.

Lemma length_int64 x : length (encode int64_codec x) = 8%nat.
Proof. apply (length_le_encode 8). Qed.

Lemma length_WriteAssetIPFSHash h : (length (fst (WriteAssetIPFSHash h)) <= 34)%nat.
Proof.
  unfold WriteAssetIPFSHash. destruct (Nat.eqb_spec (length h) 34) as [H | _].
  - cbn [fst]. rewrite length_app, length_string; rewrite length_drop, H; [done | lia].
  - destruct (Nat.eqb_spec (length h) 32) as [H | _]; [| cbn; lia].
    cbn [fst]. rewrite length_app, length_string; rewrite H; [done | lia].
Qed.

(** A transfer of an asset with a name of the length [IsAssetNameValid]
    admits always fits the offsets. *)
Lemma Transfer_recognisable t :
  (length (tr_strName t) <= 31)%nat -> recognisable (Transfer_encode t) = true /\ (8 <= length (Transfer_encode t))%nat.
Proof.
  intros Hn. unfold Transfer_encode. pose proof (length_WriteAssetIPFSHash (tr_message t)) as Hm.
  destruct (WriteAssetIPFSHash (tr_message t)) as [msg valid]. cbn [fst] in Hm. unfold recognisable.
  set (e := if valid : bool then _ else _).
  assert (length e <= 8)%nat by (subst e; repeat case_match; rewrite ?length_int64; cbn; lia).
  rewrite !length_app, length_string, length_int64 by lia. split; [| lia].
  apply andb_true_iff. rewrite Nat.ltb_lt, negb_true_iff, Nat.eqb_neq. lia.
Qed.

Ltac read_asset_script :=
  unfold ScriptNewAsset, ScriptTransferAsset, ScriptReissueAsset;
  match goal with H : IsAssetScript _ = _ |- _ => rewrite H end; cbn [mbind option_bind fst snd asset_kind].

Lemma NewAsset_script script a :
  length script = 25%nat -> new_asset_ok a -> recognisable (NewAsset_encode a) = true ->
  AssetFromScript (NewAsset_ConstructTransaction script a) = Some a /\
  GetAssetAmountFromScript (NewAsset_ConstructTransaction script a) = Some (na_nAmount a).
Proof.
  intros Hs Ha Hr. unfold NewAsset_ConstructTransaction.
  assert (8 <= length (NewAsset_encode a))%nat as Hl.
  { unfold NewAsset_encode. rewrite !length_app, length_int64. lia. }
  destruct (IsAssetScript_tail script AVN_Q _ Hs Hr Hl) as [E D].
  change (asset_kind AVN_Q) with (Some (TX_NEW_ASSET, false)) in E. cbn [mbind option_bind fst snd] in E.
  enough (AssetFromScript (script ++ asset_tail AVN_Q (NewAsset_encode a)) = Some a) as R.
  { split; [exact R |]. unfold GetAssetAmountFromScript, AmountFromNewAssetScript. by rewrite R, E. }
  unfold AssetFromScript. read_asset_script. by rewrite D, (NewAsset_read _ _ Ha).
Qed.

Lemma Transfer_script script t :
  length script = 25%nat -> transfer_ok t -> (length (tr_strName t) <= 31)%nat ->
  TransferAssetFromScript (Transfer_ConstructTransaction script t) = Some t /\
  GetAssetAmountFromScript (Transfer_ConstructTransaction script t) = Some (tr_nAmount t).
Proof.
  intros Hs Ht Hn. unfold Transfer_ConstructTransaction. destruct (Transfer_recognisable t Hn) as [Hr Hl].
  destruct (IsAssetScript_tail script AVN_T _ Hs Hr Hl) as [E D].
  change (asset_kind AVN_T) with (Some (TX_TRANSFER_ASSET, false)) in E. cbn [mbind option_bind fst snd] in E.
  enough (TransferAssetFromScript (script ++ asset_tail AVN_T (Transfer_encode t)) = Some t) as R.
  { split; [exact R |]. unfold GetAssetAmountFromScript, AmountFromTransferScript. by rewrite R, E. }
  unfold TransferAssetFromScript. read_asset_script. by rewrite D, (Transfer_read _ Ht).
Qed.

Lemma Reissue_script script r :
  length script = 25%nat -> reissue_ok r -> recognisable (Reissue_encode r) = true ->
  ReissueAssetFromScript (Reissue_ConstructTransaction script r) = Some r /\
  GetAssetAmountFromScript (Reissue_ConstructTransaction script r) = Some (re_nAmount r).
Proof.
  intros Hs Ha Hr. unfold Reissue_ConstructTransaction.
  assert (8 <= length (Reissue_encode r))%nat as Hl.
  { unfold Reissue_encode. rewrite !length_app, length_int64. lia. }
  destruct (IsAssetScript_tail script AVN_R _ Hs Hr Hl) as [E D].
  change (asset_kind AVN_R) with (Some (TX_REISSUE_ASSET, false)) in E. cbn [mbind option_bind fst snd] in E.
  enough (ReissueAssetFromScript (script ++ asset_tail AVN_R (Reissue_encode r)) = Some r) as R.
  { split; [exact R |]. unfold GetAssetAmountFromScript, AmountFromReissueScript. by rewrite R, E. }
  unfold ReissueAssetFromScript. read_asset_script. by rewrite D, (Reissue_read _ Ha).
Qed.

(** ** Properties *)

(** C21: What the wallet puts into an asset script is what validation reads out
    of it: for every 25-byte destination script, the issuance, transfer and
    reissue appended to it are found by the fixed offsets of [IsAssetScript]
    and read back unchanged, together with their amount.  Transfers need a
    name of at most 31 characters.  Issuances and reissues must make a push of at
    most 255 bytes, and of a length other than 114; a reissue without an IPFS
    hash must have an ANS ID of at most 30 bytes. *)
Theorem asset_scripts_roundtrip (script : list Z) (a : CNewAsset) (t : CAssetTransfer) (r : CReissueAsset) :
  length script = 25%nat ->
  new_asset_ok a -> recognisable (NewAsset_encode a) = true ->
  transfer_ok t -> (length (tr_strName t) <= 31)%nat ->
  reissue_ok r -> recognisable (Reissue_encode r) = true ->
  (AssetFromScript (NewAsset_ConstructTransaction script a) = Some a /\
   GetAssetAmountFromScript (NewAsset_ConstructTransaction script a) = Some (na_nAmount a)) /\
  (TransferAssetFromScript (Transfer_ConstructTransaction script t) = Some t /\
   GetAssetAmountFromScript (Transfer_ConstructTransaction script t) = Some (tr_nAmount t)) /\
  (ReissueAssetFromScript (Reissue_ConstructTransaction script r) = Some r /\
   GetAssetAmountFromScript (Reissue_ConstructTransaction script r) = Some (re_nAmount r)).
Proof.
  intros Hs Ha Hra Ht Hn Hr Hrr. split; [by apply NewAsset_script |]. split; [by apply Transfer_script |].
  by apply Reissue_script.
Qed.

Definition example_hash : list Z := [0x12; 0x20] ++ replicate 32 7.
Definition example_asset (ans : list Z) : CNewAsset :=
  mkNewAsset (replicate 24 65) 100000000 0 1 1 example_hash 1 ans.

Lemma asset_scripts_roundtrip_witness :
  let script := replicate 25 0 in
  let a := example_asset (replicate 30 65) in
  let t := mkTransfer (replicate 31 66) 5 example_hash 1700000000 in
  let r := mkReissue (replicate 24 65) 7 8 1 [] (replicate 30 65) in
  AssetFromScript (NewAsset_ConstructTransaction script a) = Some a /\
  TransferAssetFromScript (Transfer_ConstructTransaction script t) = Some t /\
  ReissueAssetFromScript (Reissue_ConstructTransaction script r) = Some r.
Proof.
  intros script a t r. destruct (asset_scripts_roundtrip script a t r) as ([Ha _] & [Ht _] & [Hr _]).
  - reflexivity.
  - unfold new_asset_ok, size_ok, int64_range, int8_range, hash_ok. cbn. unfold MAX_SIZE. repeat split; try lia.
    left. by split.
  - reflexivity.
  - unfold transfer_ok, size_ok, int64_range, hash_ok. cbn. unfold MAX_SIZE. repeat split; try lia.
    left. left. by split.
  - cbn. lia.
  - unfold reissue_ok, size_ok, int64_range, int8_range. cbn. unfold MAX_SIZE. repeat split; try lia.
    right. split; [done | lia].
  - reflexivity.
  - split; [exact Ha | split; [exact Ht | exact Hr]].
Defined.

(** A well-formed issuance with a 24-character name, an IPFS hash and a
    38-character ANS ID makes a push of 114 bytes: no reader finds it. *)
Lemma issuance_of_114_bytes_lost script :
  length script = 25%nat ->
  new_asset_ok (example_asset (replicate 38 65)) /\
  AssetFromScript (NewAsset_ConstructTransaction script (example_asset (replicate 38 65))) = None /\
  GetAssetAmountFromScript (NewAsset_ConstructTransaction script (example_asset (replicate 38 65))) = None.
Proof.
  intros Hs. split.
  { unfold new_asset_ok, size_ok, int64_range, int8_range, hash_ok. cbn. unfold MAX_SIZE. repeat split; try lia.
    left. by split. }
  unfold AssetFromScript, GetAssetAmountFromScript, ScriptNewAsset, NewAsset_ConstructTransaction.
  by rewrite IsAssetScript_114.
Qed.

(** A reissue that sets only an ANS ID, of the 38 characters of an address
    entry ("ANS0" and an address that starts with "R"), cannot be read. *)
Lemma reissue_ANS_misread :
  let r := mkReissue [65; 66; 67] 0 8 1 [] ([65; 78; 83; 48; 82] ++ replicate 33 65) in
  ReissueAssetFromScript (Reissue_ConstructTransaction (replicate 25 0) r) = None.
Proof. vm_compute. reflexivity. Qed.
