(* ===== verification/TxVerify.v ===== *)
(** * Transaction checks against the chain and the UTXO set
      ([src/consensus/tx_verify.cpp], [CTransaction::GetValueOut] of
      [src/primitives/transaction.cpp], the signature operation counts of
      [src/script/interpreter.cpp], and the amounts of [ConnectBlock])

    Lock times, relative lock times, signature operation counts and the
    value checks.  A check accepts with a value, rejects with a reason, or
    aborts (a failed assertion or an uncaught exception). *)

From Stdlib Require Import String.
From stdpp Require Import gmap.
From S2P Require Import Prelude Chain Coins TxFormat Script AssetFormat Money BlockUndo.

Inductive Checked (R A : Type) :=
| Accept (a : A)
| Reject (reason : R)
| Abort.
Arguments Accept {R A} _.
Arguments Reject {R A} _%_string_scope.
Arguments Abort {R A}.

(** Checks in sequence: a condition with the reason of its rejection, and the
    result of an earlier check. *)
Declare Scope checked_scope.
Delimit Scope checked_scope with checked.
Notation "'ensure' c 'or' r ; k" := (if c then k else Reject r)
  (at level 100, c at level 99, r at level 99, k at level 200, right associativity) : checked_scope.
Notation "x <- e ; k" := (match e with Accept x => k | Reject r => Reject r | Abort => Abort end)
  (at level 100, e at level 99, k at level 200, right associativity) : checked_scope.

(** From an accepted sequence of checks to its parts. *)
Ltac accepted H :=
  repeat match type of H with
  | (if ?b then _ else Reject _) = Accept _ => let E := fresh "Hb" in destruct b eqn:E; [| discriminate H]
  | match ?e with Accept _ => _ | Reject _ => _ | Abort => _ end = Accept _ =>
      let E := fresh "Hc" in destruct e eqn:E; try discriminate H
  end.

(** ** Lock times *)

Definition LOCKTIME_THRESHOLD : Z := 500000000.
Definition SEQUENCE_LOCKTIME_DISABLE_FLAG : Z := 2 ^ 31.
Definition SEQUENCE_LOCKTIME_TYPE_FLAG : Z := 2 ^ 22.
Definition SEQUENCE_LOCKTIME_MASK : Z := 0x0000ffff.
Definition SEQUENCE_LOCKTIME_GRANULARITY : Z := 9.
Definition LOCKTIME_VERIFY_SEQUENCE : Z := 1.

Definition IsFinalTx (tx : CTransaction) (nBlockHeight nBlockTime : Z) : bool :=
  if nLockTime tx =? 0 then true
  else if nLockTime tx <? (if nLockTime tx <? LOCKTIME_THRESHOLD then nBlockHeight else nBlockTime) then true
  else forallb (fun txin => nSequence txin =? SEQUENCE_FINAL) (vin tx).

Section SequenceLocks.
Variable m : gmap ptr CBlockIndex.

(** The loop over the inputs: the pair of locks and the heights, of which
    those of inputs without a relative lock are cleared. *)
Fixpoint CalculateSequenceLocks_loop (block : ptr) (ins : list CTxIn) (prevHeights : list Z)
    (nMinHeight nMinTime : Z) : option ((Z * Z) * list Z) :=
  match ins, prevHeights with
  | [], _ => Some ((nMinHeight, nMinTime), prevHeights)
  | _ :: _, [] => None
  | txin :: ins, nCoinHeight :: prevHeights =>
      if negb (Z.land (nSequence txin) SEQUENCE_LOCKTIME_DISABLE_FLAG =? 0) then
        '(r, hs) ← CalculateSequenceLocks_loop block ins prevHeights nMinHeight nMinTime;
        Some (r, 0 :: hs)
      else if negb (Z.land (nSequence txin) SEQUENCE_LOCKTIME_TYPE_FLAG =? 0) then
        a ← GetAncestor m block (Z.max (nCoinHeight - 1) 0);
        q ← a;
        nCoinTime ← GetMedianTimePast m q;
        let lock := u32 (Z.shiftl (Z.land (nSequence txin) SEQUENCE_LOCKTIME_MASK) SEQUENCE_LOCKTIME_GRANULARITY) in
        '(r, hs) ← CalculateSequenceLocks_loop block ins prevHeights nMinHeight
                     (Z.max nMinTime (nCoinTime + lock - 1));
        Some (r, nCoinHeight :: hs)
      else
        '(r, hs) ← CalculateSequenceLocks_loop block ins prevHeights
                     (Z.max nMinHeight (i32 (nCoinHeight + Z.land (nSequence txin) SEQUENCE_LOCKTIME_MASK - 1))) nMinTime;
        Some (r, nCoinHeight :: hs)
  end.

Definition CalculateSequenceLocks (tx : CTransaction) (flags : Z) (prevHeights : list Z) (block : ptr) :
    option ((Z * Z) * list Z) :=
  if negb (length prevHeights =? length (vin tx))%nat then None (* assert *)
  else
    let fEnforceBIP68 := (2 <=? u32 (tx_nVersion tx)) && negb (Z.land flags LOCKTIME_VERIFY_SEQUENCE =? 0) in
    if negb fEnforceBIP68 then Some ((-1, -1), prevHeights)
    else CalculateSequenceLocks_loop block (vin tx) prevHeights (-1) (-1).

Definition EvaluateSequenceLocks (block : ptr) (lockPair : Z * Z) : option bool :=
  b ← m !! block;
  q ← pprev b; (* assert(block.pprev) *)
  nBlockTime ← GetMedianTimePast m q;
  Some (negb ((lockPair.1 >=? nHeight b) || (lockPair.2 >=? nBlockTime))).

Definition SequenceLocks (tx : CTransaction) (flags : Z) (prevHeights : list Z) (block : ptr) : option bool :=
  '(locks, _) ← CalculateSequenceLocks tx flags prevHeights block;
  EvaluateSequenceLocks block locks.
End SequenceLocks.

(** ** Signature operations *)

Definition WITNESS_SCALE_FACTOR : Z := 4.
Definition SCRIPT_VERIFY_P2SH : Z := 2 ^ 0.
Definition SCRIPT_VERIFY_WITNESS : Z := 2 ^ 11.

Definition GetLegacySigOpCount (tx : CTransaction) : Z :=
  let nSigOps := fold_left (fun n txin => u32 (n + GetSigOpCount (scriptSig txin) false)) (vin tx) 0 in
  fold_left (fun n txout => u32 (n + GetSigOpCount (scriptPubKey txout) false)) (vout tx) nSigOps.

Definition WitnessSigOps (witversion : Z) (witprogram : list Z) (witness : list (list Z)) : Z :=
  if witversion =? 0 then
    if (length witprogram =? 20)%nat then 1
    else if (length witprogram =? 32)%nat && (0 <? length witness)%nat
    then GetSigOpCount (List.last witness []) true
    else 0
  else 0.

(** The data of the last operation, over a script known to be push-only. *)
Fixpoint last_data (fuel : nat) (pc data : list Z) : list Z :=
  match pc, fuel with
  | [], _ | _, O => data
  | _, S fuel => match GetOp pc with Some (_, data, pc) => last_data fuel pc data | None => data end
  end.

(** [None] is the failed assertion on the flags. *)
Definition CountWitnessSigOps (scriptSig scriptPubKey : list Z) (witness : list (list Z)) (flags : Z) : option Z :=
  if Z.land flags SCRIPT_VERIFY_WITNESS =? 0 then Some 0
  else if Z.land flags SCRIPT_VERIFY_P2SH =? 0 then None
  else
    match IsWitnessProgram scriptPubKey with
    | Some (v, prog) => Some (WitnessSigOps v prog witness)
    | None =>
        if IsPayToScriptHash scriptPubKey && IsPushOnly scriptSig then
          match IsWitnessProgram (last_data (length scriptSig) scriptSig []) with
          | Some (v, prog) => Some (WitnessSigOps v prog witness)
          | None => Some 0
          end
        else Some 0
    end.

(** ** Values *)

Definition COINBASE_MATURITY : Z := 100.

(** [None] is the exception; [fAreEnforcedValues] makes asset outputs count. *)
Fixpoint GetValueOut_loop (fAreEnforcedValues : bool) (outs : list CTxOut) (nValueOut : Z) : option Z :=
  match outs with
  | [] => Some nValueOut
  | o :: outs =>
      if negb fAreEnforcedValues && is_asset_script (scriptPubKey o)
      then GetValueOut_loop fAreEnforcedValues outs nValueOut
      else
        let nValueOut := i64 (nValueOut + nValue o) in
        if negb (MoneyRange (nValue o)) || negb (MoneyRange nValueOut) then None
        else GetValueOut_loop fAreEnforcedValues outs nValueOut
  end.

Definition GetValueOut (fAreEnforcedValues : bool) (tx : CTransaction) : option Z :=
  GetValueOut_loop fAreEnforcedValues (vout tx) 0.

Inductive InputsReject :=
| bad_txns_inputs_missingorspent
| bad_txns_premature_spend_of_coinbase
| bad_txns_inputvalues_outofrange
| bad_txns_in_belowout
| bad_txns_fee_out_of_range.

Inductive ConnectReject :=
| inputs_rejected (r : InputsReject)
| bad_txns_accumulated_fee_outofrange
| bad_cb_amount.

Section Inputs.
Context {V : Type} `{CoinsView V}.
Variable script_usage : list Z -> Z.

Abbreviation cache := (CCoinsViewCache V).

Definition prevouts (tx : CTransaction) : list COutPoint := map prevout (vin tx).

(** [GetP2SHSigOpCount] and the witness part of [GetTransactionSigOpCost];
    [None] is [assert(!coin.IsSpent())]. *)
Fixpoint P2SHSigOps_loop (inputs : cache) (ins : list CTxIn) (nSigOps : Z) : option (Z * cache) :=
  match ins with
  | [] => Some (nSigOps, inputs)
  | txin :: ins =>
      let '(coin, inputs) := AccessCoin script_usage inputs (prevout txin) in
      if IsSpent coin then None
      else P2SHSigOps_loop inputs ins
             (if IsPayToScriptHash (scriptPubKey (out coin))
              then u32 (nSigOps + GetP2SHSigOps (scriptPubKey (out coin)) (scriptSig txin)) else nSigOps)
  end.

Definition GetP2SHSigOpCount (tx : CTransaction) (inputs : cache) : option (Z * cache) :=
  if IsCoinBase tx then Some (0, inputs) else P2SHSigOps_loop inputs (vin tx) 0.

Fixpoint WitnessSigOps_loop (inputs : cache) (ins : list CTxIn) (flags nSigOps : Z) : option (Z * cache) :=
  match ins with
  | [] => Some (nSigOps, inputs)
  | txin :: ins =>
      let '(coin, inputs) := AccessCoin script_usage inputs (prevout txin) in
      if IsSpent coin then None
      else
        n ← CountWitnessSigOps (scriptSig txin) (scriptPubKey (out coin)) (scriptWitness txin) flags;
        WitnessSigOps_loop inputs ins flags (i64 (nSigOps + n))
  end.

Definition GetTransactionSigOpCost (tx : CTransaction) (inputs : cache) (flags : Z) : option (Z * cache) :=
  let nSigOps := u32 (GetLegacySigOpCount tx * WITNESS_SCALE_FACTOR) in
  if IsCoinBase tx then Some (nSigOps, inputs)
  else
    '(nSigOps, inputs) ←
      (if negb (Z.land flags SCRIPT_VERIFY_P2SH =? 0) then
         '(n, inputs) ← GetP2SHSigOpCount tx inputs;
         Some (i64 (nSigOps + u32 (n * WITNESS_SCALE_FACTOR)), inputs)
       else Some (nSigOps, inputs));
    WitnessSigOps_loop inputs (vin tx) flags nSigOps.

Fixpoint CheckTxInputs_loop (inputs : cache) (ps : list COutPoint) (nSpendHeight nValueIn : Z) :
    Checked InputsReject Z * cache :=
  match ps with
  | [] => (Accept nValueIn, inputs)
  | p :: ps =>
      let '(coin, inputs) := AccessCoin script_usage inputs p in
      if IsSpent coin then (Abort, inputs)
      else if fCoinBase coin && (i32 (nSpendHeight - coin_nHeight coin) <? COINBASE_MATURITY)
      then (Reject bad_txns_premature_spend_of_coinbase, inputs)
      else
        let nValueIn := i64 (nValueIn + nValue (out coin)) in
        if negb (MoneyRange (nValue (out coin))) || negb (MoneyRange nValueIn)
        then (Reject bad_txns_inputvalues_outofrange, inputs)
        else CheckTxInputs_loop inputs ps nSpendHeight nValueIn
  end.

(** [Consensus::CheckTxInputs]; accepting returns [txfee]. *)
Definition CheckTxInputs (fAreEnforcedValues : bool) (tx : CTransaction) (inputs : cache) (nSpendHeight : Z) :
    Checked InputsReject Z * cache :=
  let '(have, inputs) := HaveInputs script_usage inputs (IsCoinBase tx) (prevouts tx) in
  if negb have then (Reject bad_txns_inputs_missingorspent, inputs)
  else
    match CheckTxInputs_loop inputs (prevouts tx) nSpendHeight 0 with
    | (Accept nValueIn, inputs) =>
        match GetValueOut fAreEnforcedValues tx with
        | None => (Abort, inputs)
        | Some value_out =>
            if nValueIn <? value_out then (Reject bad_txns_in_belowout, inputs)
            else
              let txfee := nValueIn - value_out in
              if negb (MoneyRange txfee) then (Reject bad_txns_fee_out_of_range, inputs)
              else (Accept txfee, inputs)
        end
    | (r, inputs) => (r, inputs)
    end.

(** The amounts of [ConnectBlock]: every transaction but coinbases is
    checked against the view the earlier ones left, the fees add up, the coins
    are updated, and at the end the first transaction must not create more
    than the subsidy and the fees.  The checks that cannot change the view
    (scripts, sequence locks, signature operations, assets) only reject more.
    A block is the list of its transactions with their hashes. *)
Variable unspendable : list Z -> bool.

Definition utxo_tx (tx : Z * CTransaction) : UtxoTx :=
  mkUtxoTx tx.1 (IsCoinBase tx.2) (prevouts tx.2) (vout tx.2).

Fixpoint ConnectBlock_amounts_loop (enforced : bool) (view : cache) (txs : list (Z * CTransaction))
    (nHeight nFees : Z) : Checked ConnectReject Z * cache :=
  match txs with
  | [] => (Accept nFees, view)
  | tx :: txs =>
      let '(fees, view) :=
        if negb (IsCoinBase tx.2) then
          match CheckTxInputs enforced tx.2 view nHeight with
          | (Accept txfee, view) =>
              let nFees := i64 (nFees + txfee) in
              if negb (MoneyRange nFees) then (Reject bad_txns_accumulated_fee_outofrange, view)
              else (Accept nFees, view)
          | (Reject r, view) => (Reject (inputs_rejected r), view)
          | (Abort, view) => (Abort, view)
          end
        else (Accept nFees, view) in
      match fees with
      | Accept nFees =>
          match UpdateCoins script_usage unspendable view (utxo_tx tx) nHeight with
          | Some (_, view) => ConnectBlock_amounts_loop enforced view txs nHeight nFees
          | None => (Abort, view)
          end
      | _ => (fees, view)
      end
  end.

Definition ConnectBlock_amounts (enforced : bool) (view : cache) (txs : list (Z * CTransaction))
    (nHeight nSubsidyHalvingInterval : Z) : Checked ConnectReject Z * cache :=
  match ConnectBlock_amounts_loop enforced view txs nHeight 0 with
  | (Accept nFees, view) =>
      let blockReward := i64 (nFees + GetBlockSubsidy nHeight nSubsidyHalvingInterval) in
      match txs with
      | [] => (Abort, view)
      | tx :: _ =>
          match GetValueOut enforced tx.2 with
          | None => (Abort, view)
          | Some v => if v >? blockReward then (Reject bad_cb_amount, view) else (Accept nFees, view)
          end
      end
  | (r, view) => (r, view)
  end.
End Inputs.
