(* ===== verification/Ledger.v ===== *)
(** * The money supply

    What the value checks of [TxVerify] mean for the UTXO set: a transaction
    that [CheckTxInputs] accepts creates no money, a block creates at most its
    subsidy, and a chain of accepted blocks never holds more than
    [MAX_MONEY]. *)

From stdpp Require Import gmap fin_maps.
From S2P Require Import Prelude Coins CoinsRefine TxFormat Script Money BlockUndo TxVerify.

(** ** What [GetValueOut] adds up *)

Definition sum_values (outs : list CTxOut) : Z := foldr (fun o acc => nValue o + acc) 0 outs.

(** The outputs that count: all of them once values are enforced, else those
    that carry no asset. *)
Definition counted (enforced : bool) (outs : list CTxOut) : list CTxOut :=
  List.filter (fun o => enforced || negb (is_asset_script (scriptPubKey o))) outs.

Definition money (v : Z) : Prop := 0 <= v <= MAX_MONEY.

Lemma i64_money a v : money a -> MoneyRange v = true -> i64 (a + v) = a + v.
Proof.
  unfold money. intros Ha Hv%MoneyRange_spec. apply wraps_small; [lia |]. unfold MAX_MONEY, COIN in *. lia.
Qed.

Lemma sum_values_nonneg outs : Forall (fun o => money (nValue o)) outs -> 0 <= sum_values outs.
Proof. unfold money, sum_values. induction 1; cbn [foldr]; lia. Qed.

Lemma GetValueOut_loop_spec enforced outs : forall a v,
  money a ->
  GetValueOut_loop enforced outs a = Some v <->
  Forall (fun o => money (nValue o)) (counted enforced outs) /\
  v = a + sum_values (counted enforced outs) /\ v <= MAX_MONEY.
Proof.
  induction outs as [| o outs IH]; intros a v Ha; cbn [GetValueOut_loop counted List.filter].
  { cbn. unfold money in Ha. split; [intros [= ->]; split; [constructor | lia] |].
    intros (_ & -> & _). f_equal. lia. }
  fold (counted enforced outs).
  replace (negb enforced && is_asset_script (scriptPubKey o)) with
    (negb (enforced || negb (is_asset_script (scriptPubKey o))))
    by (by destruct enforced, (is_asset_script (scriptPubKey o))).
  destruct (enforced || negb (is_asset_script (scriptPubKey o))); cbn [negb]; [| by apply IH].
  destruct (MoneyRange (nValue o)) eqn:Ho; cbn [negb orb].
  - rewrite i64_money by done. pose proof (proj1 (MoneyRange_spec _) Ho) as Ho'.
    cbn [sum_values foldr]. fold (sum_values (counted enforced outs)). rewrite Forall_cons.
    destruct (MoneyRange (a + nValue o)) eqn:Hs; cbn [negb].
    + rewrite IH by (by apply MoneyRange_spec). unfold money at 2. rewrite Z.add_assoc. tauto.
    + split; [done |]. intros ((_ & Hf) & -> & Hle). exfalso.
      pose proof (sum_values_nonneg _ Hf). assert (money (a + nValue o)) as Hm by (unfold money in *; lia).
      apply MoneyRange_spec in Hm. congruence.
  - split; [done |]. intros (Hf & _). apply Forall_cons in Hf as [Hf _].
    apply MoneyRange_spec in Hf. congruence.
Qed.

Lemma GetValueOut_spec enforced tx v :
  GetValueOut enforced tx = Some v <->
  Forall (fun o => money (nValue o)) (counted enforced (vout tx)) /\
  v = sum_values (counted enforced (vout tx)) /\ v <= MAX_MONEY.
Proof. apply GetValueOut_loop_spec. unfold money, MAX_MONEY, COIN. lia. Qed.

Section Inputs.
Context {V : Type} `{HV : CoinsView V} `{!CoinsViewSpec V}.
Context (script_usage : list Z -> Z) (usage_nil : script_usage [] = 0).

Abbreviation cache := (CCoinsViewCache V).
Abbreviation ok := (cache_ok script_usage).

(** ** [CheckTxInputs] *)

Lemma AccessCoin_spec (c : cache) p :
  ok c ->
  exists co c', AccessCoin script_usage c p = (co, c') /\ ok c' /\ cache_utxo c' = cache_utxo c /\
    cache_utxo c !! p = if IsSpent co then None else Some co.
Proof using CoinsViewSpec0.
  intros Hok. unfold AccessCoin.
  destruct (FetchCoin_spec script_usage c p Hok) as (it & c' & -> & Hok' & Hu & _ & _ & _ & Hit & _).
  eexists _, c'. split; [done |]. split; [done |]. split; [done |]. rewrite Hit. by destruct it.
Qed.

Lemma HaveInputs_spec (c : cache) cb ps :
  ok c ->
  exists b c', HaveInputs script_usage c cb ps = (b, c') /\ ok c' /\ cache_utxo c' = cache_utxo c /\
    (b = true <-> cb = true \/ Forall (fun p => is_Some (cache_utxo c !! p)) ps).
Proof using CoinsViewSpec0.
  intros Hok. unfold HaveInputs. destruct cb; cbn [negb]; [exists true, c; tauto |].
  revert c Hok. induction ps as [| p ps IH]; intros c Hok; cbn [HaveInputs_loop].
  { exists true, c. do 3 (split; [done |]). split; [right; constructor | done]. }
  destruct (HaveCoin_spec script_usage c p Hok) as (c1 & -> & Hok1 & Hu1 & _).
  case_bool_decide as Hp; cbn [negb].
  - destruct (IH c1 Hok1) as (b & c' & -> & Hok' & Hu' & Hb). exists b, c'. rewrite Hu1 in Hb, Hu'.
    rewrite Forall_cons. tauto.
  - exists false, c1. do 3 (split; [done |]). rewrite Forall_cons. split; [done |]. intros [? | [? _]]; done.
Qed.

(** A coin that may be spent at height [h]. *)
Definition mature (h : Z) (co : Coin) : Prop :=
  fCoinBase co = true -> COINBASE_MATURITY <= i32 (h - coin_nHeight co).

Definition spends (u : gmap COutPoint Coin) (h : Z) (p : COutPoint) (co : Coin) : Prop :=
  u !! p = Some co /\ mature h co /\ money (nValue (out co)).

Definition coins_value (coins : list Coin) : Z := sum_values (map out coins).

Lemma spends_cons u h p ps coins co :
  u !! p = (if IsSpent co then None else Some co) -> Forall2 (spends u h) (p :: ps) coins ->
  IsSpent co = false /\ mature h co /\ money (nValue (out co)) /\
  exists coins', coins = co :: coins' /\ Forall2 (spends u h) ps coins'.
Proof.
  intros Hp Hf. inversion Hf as [| ? co' ? coins' (Hco & Hm & Hv) Hf']; subst.
  rewrite Hp in Hco. destruct (IsSpent co); [done |]. injection Hco as ->. do 3 (split; [done |]).
  by exists coins'.
Qed.

Lemma spends_nonneg u h ps coins : Forall2 (spends u h) ps coins -> 0 <= coins_value coins.
Proof. intros Hf. apply sum_values_nonneg. induction Hf as [| ? ? ? ? (_ & _ & ?)]; cbn; by constructor. Qed.

Lemma CheckTxInputs_loop_spec h ps : forall (c : cache) a,
  ok c -> money a ->
  exists r c', CheckTxInputs_loop script_usage c ps h a = (r, c') /\ ok c' /\ cache_utxo c' = cache_utxo c /\
    forall v, r = Accept v <->
      exists coins, Forall2 (spends (cache_utxo c) h) ps coins /\ v = a + coins_value coins /\ v <= MAX_MONEY.
Proof using CoinsViewSpec0.
  induction ps as [| p ps IH]; intros c a Hok Ha; cbn [CheckTxInputs_loop].
  { exists (Accept a), c. do 3 (split; [done |]). intros v. unfold money in Ha. split.
    - intros [= ->]. exists []. split; [constructor |]. cbn. lia.
    - intros (coins & Hf & -> & _). inversion Hf; subst. cbn. f_equal. lia. }
  destruct (AccessCoin_spec c p Hok) as (co & c1 & -> & Hok1 & Hu1 & Hp).
  pose proof (fun coins => spends_cons (cache_utxo c) h p ps coins co Hp) as Hinv.
  destruct (IsSpent co) eqn:Hs.
  { eexists _, c1. do 3 (split; [done |]). intros v. split; [done |]. intros (coins & Hf & _).
    destruct (Hinv _ Hf) as [E _]. congruence. }
  destruct (fCoinBase co && _) eqn:Hcb.
  { eexists _, c1. do 3 (split; [done |]). intros v. split; [done |]. intros (coins & Hf & _).
    destruct (Hinv _ Hf) as (_ & Hm & _). apply andb_true_iff in Hcb as [Hcb Hlt]. apply Z.ltb_lt in Hlt.
    specialize (Hm Hcb). lia. }
  assert (mature h co) as Hmat.
  { intros E. rewrite E in Hcb. cbn in Hcb. apply Z.ltb_ge in Hcb. lia. }
  destruct (MoneyRange (nValue (out co))) eqn:Hv; cbn [negb orb].
  2:{ eexists _, c1. do 3 (split; [done |]). intros v. split; [done |]. intros (coins & Hf & _).
      destruct (Hinv _ Hf) as (_ & _ & Hm & _). apply MoneyRange_spec in Hm. congruence. }
  rewrite i64_money by done. apply MoneyRange_spec in Hv as Hv'.
  destruct (MoneyRange (a + nValue (out co))) eqn:Hr; cbn [negb].
  - destruct (IH c1 (a + nValue (out co)) Hok1) as (r & c' & -> & Hok' & Hu' & Hiff); [by apply MoneyRange_spec |].
    exists r, c'. do 2 (split; [done |]). rewrite Hu1 in Hiff, Hu'. split; [done |]. intros v. rewrite Hiff. split.
    + intros (coins & Hf & -> & Hle). exists (co :: coins). split; [by constructor |].
      unfold coins_value. cbn. unfold coins_value in *. unfold sum_values in *. lia.
    + intros (coins & Hf & -> & Hle). destruct (Hinv _ Hf) as (_ & _ & _ & coins' & -> & Hf').
      exists coins'. split; [done |]. unfold coins_value in *. cbn in *. unfold sum_values in *. lia.
  - eexists _, c1. do 3 (split; [done |]). intros v. split; [done |]. intros (coins & Hf & -> & Hle).
    destruct (Hinv _ Hf) as (_ & _ & _ & coins' & -> & Hf').
    pose proof (spends_nonneg _ _ _ _ Hf').
    assert (money (a + nValue (out co))) as Hm.
    { unfold money in *. unfold coins_value in Hle. cbn in Hle. unfold coins_value, sum_values in *. lia. }
    apply MoneyRange_spec in Hm. congruence.
Qed.
(** What accepting means, and when it happens. *)
Lemma CheckTxInputs_spec enforced tx (c : cache) h fee :
  ok c ->
  exists r c', CheckTxInputs script_usage enforced tx c h = (r, c') /\ ok c' /\ cache_utxo c' = cache_utxo c /\
    (r = Accept fee <->
     exists coins, Forall2 (spends (cache_utxo c) h) (prevouts tx) coins /\
       coins_value coins <= MAX_MONEY /\
       Forall (fun o => money (nValue o)) (counted enforced (vout tx)) /\
       coins_value coins = sum_values (counted enforced (vout tx)) + fee /\ 0 <= fee).
Proof using CoinsViewSpec0.
  intros Hok. unfold CheckTxInputs.
  destruct (HaveInputs_spec c (IsCoinBase tx) (prevouts tx) Hok) as (b & c1 & -> & Hok1 & Hu1 & Hb).
  destruct b; cbn [negb].
  2:{ eexists _, c1. do 3 (split; [done |]). split; [done |]. intros (coins & Hf & _). exfalso.
      enough (false = true) by done. apply Hb. right. clear -Hf.
      induction Hf as [| p co ps coins [Hp _] _ IH]; constructor; [by eexists | done]. }
  destruct (CheckTxInputs_loop_spec h (prevouts tx) c1 0 Hok1)
    as (r & c' & -> & Hok' & Hu' & Hiff); [unfold money, MAX_MONEY, COIN; lia |].
  rewrite Hu1 in Hu', Hiff.
  assert (forall coins, Forall2 (spends (cache_utxo c) h) (prevouts tx) coins -> coins_value coins <= MAX_MONEY ->
    r = Accept (coins_value coins)) as Hacc.
  { intros coins Hf Hle. apply Hiff. exists coins. by rewrite Z.add_0_l. }
  destruct r as [v | r |].
  2,3: eexists _, c'; do 3 (split; [done |]); split; [done |]; intros (coins & Hf & Hle & _);
    by specialize (Hacc coins Hf Hle).
  destruct (proj1 (Hiff v) eq_refl) as (coins & Hf & -> & Hle). rewrite Z.add_0_l in *. clear Hiff.
  assert (forall coins', Forall2 (spends (cache_utxo c) h) (prevouts tx) coins' -> coins_value coins' <= MAX_MONEY ->
    coins_value coins' = coins_value coins) as Huniq.
  { intros coins' Hf' Hle'. specialize (Hacc coins' Hf' Hle'). congruence. }
  destruct (GetValueOut enforced tx) as [vo |] eqn:Ho.
  2:{ eexists _, c'. do 3 (split; [done |]). split; [done |]. intros (coins' & Hf' & Hle' & Hm & E & Hfee). exfalso.
      enough (GetValueOut enforced tx = Some (sum_values (counted enforced (vout tx)))) by congruence.
      apply GetValueOut_spec. split; [done |]. split; [done | lia]. }
  apply GetValueOut_spec in Ho as (Hm & -> & Hvo). pose proof (sum_values_nonneg _ Hm) as Hnn.
  pose proof (spends_nonneg _ _ _ _ Hf).
  destruct (Z.ltb_spec (coins_value coins) (sum_values (counted enforced (vout tx)))) as [Hlt | Hge].
  { eexists _, c'. do 3 (split; [done |]). split; [done |]. intros (coins' & Hf' & Hle' & _ & E & Hfee).
    rewrite (Huniq coins' Hf' Hle') in E. lia. }
  rewrite (proj2 (MoneyRange_spec _)) by lia. eexists _, c'. do 3 (split; [done |]). split.
  - intros [= <-]. exists coins. repeat (split; [done |]). lia.
  - intros (coins' & Hf' & Hle' & _ & E & Hfee). rewrite (Huniq coins' Hf' Hle') in E. f_equal. lia.
Qed.
End Inputs.

(** ** The supply of a UTXO set *)

Definition supply (u : gmap COutPoint Coin) : Z := map_fold (fun _ co acc => nValue (out co) + acc) 0 u.

Lemma supply_insert u p co : u !! p = None -> supply (<[p := co]> u) = nValue (out co) + supply u.
Proof. intros Hp. unfold supply. rewrite map_fold_insert_L; [done | intros; lia | done]. Qed.

Lemma supply_delete u p co : u !! p = Some co -> supply u = nValue (out co) + supply (delete p u).
Proof.
  intros Hp. rewrite <- (supply_insert (delete p u) p co) by apply lookup_delete_eq. by rewrite insert_delete_id.
Qed.

Lemma supply_spend_all u ps coins :
  NoDup ps -> Forall2 (fun p co => u !! p = Some co) ps coins ->
  supply (spend_all u ps) + coins_value coins = supply u.
Proof.
  intros Hnd Hf. revert Hnd. induction Hf as [| p co ps coins Hp Hf IH]; intros Hnd; [cbn; lia |].
  apply NoDup_cons in Hnd as [Hni Hnd]. specialize (IH Hnd). cbn [spend_all foldr]. fold (spend_all u ps).
  assert (spend_all u ps !! p = Some co) as Hp'.
  { rewrite spend_all_lookup, decide_False by done. done. }
  rewrite (supply_delete _ p co Hp') in IH. unfold coins_value in *. cbn. unfold sum_values in *. lia.
Qed.

Section Supply.
Variable unspendable : list Z -> bool.

Definition spendable (outs : list CTxOut) : list CTxOut :=
  List.filter (fun o => negb (unspendable (scriptPubKey o))) outs.

Lemma supply_add_outputs hash outs h cb : forall u i,
  (forall k, i <= k -> u !! (hash, k) = None) ->
  supply (add_outputs unspendable u hash i outs h cb) = supply u + sum_values (spendable outs).
Proof.
  induction outs as [| o outs IH]; intros u i Hu; cbn [add_outputs spendable List.filter]; [cbn; lia |].
  unfold output_coin. fold (spendable outs). destruct (unspendable (scriptPubKey o)); cbn [negb].
  - apply IH. intros k Hk. apply Hu. lia.
  - rewrite IH by (intros k Hk; rewrite lookup_insert_ne by (intros [=]; lia); apply Hu; lia).
    rewrite supply_insert by (apply Hu; lia). cbn [out sum_values foldr]. unfold sum_values. lia.
Qed.

Lemma spendable_le outs : Forall (fun o => money (nValue o)) outs -> sum_values (spendable outs) <= sum_values outs.
Proof.
  unfold sum_values, spendable, money. induction 1 as [| o outs Ho _ IH]; cbn [List.filter foldr]; [lia |].
  destruct (unspendable (scriptPubKey o)); cbn [negb foldr]; lia.
Qed.

(** Only coinbases repeat the id of an earlier transaction or of an unspent
    coin. *)
Definition new_ids (u : gmap COutPoint Coin) (txs : list (Z * CTransaction)) : Prop :=
  forall pre tx post, txs = pre ++ tx :: post -> IsCoinBase tx.2 = false ->
    tx.1 ∉ pre.*1 /\ forall k, u !! (tx.1, k) = None.

Lemma new_ids_head u tx txs k : new_ids u (tx :: txs) -> IsCoinBase tx.2 = false -> u !! (tx.1, k) = None.
Proof. intros Hnew Hcb. by apply (Hnew [] tx txs eq_refl Hcb). Qed.

Lemma new_ids_connect h u tx txs :
  new_ids u (tx :: txs) -> new_ids (connect_spec unspendable h u (utxo_tx tx)) txs.
Proof.
  intros Hnew pre t post -> Hcb. destruct (Hnew (tx :: pre) t post eq_refl Hcb) as [Hni Hu].
  rewrite fmap_cons in Hni. apply not_elem_of_cons in Hni as [Hne Hni]. split; [done |].
  intros k. rewrite connect_spec_lookup. unfold own_output. cbn [utxo_tx tx_hash fst snd].
  rewrite decide_False by (intros [? _]; done). rewrite Hu. destruct (tx_coinbase _); [done |]. by case_decide.
Qed.

(** Coins of negative value would make overwriting them create money. *)
Definition valued (u : gmap COutPoint Coin) : Prop := map_Forall (fun _ co => 0 <= nValue (out co)) u.

Lemma valued_connect h u tx :
  valued u -> Forall (fun o => money (nValue o)) (vout tx.2) -> valued (connect_spec unspendable h u (utxo_tx tx)).
Proof.
  intros Hu Hm q co. rewrite connect_spec_lookup. unfold own_output. cbn [utxo_tx tx_hash tx_vout tx_coinbase tx_prevouts].
  destruct (if decide _ then _ else _) as [co' |] eqn:E.
  - intros [= <-]. case_decide; [| done]. destruct (vout tx.2 !! Z.to_nat q.2) as [o |] eqn:Eo; [| done]. cbn in E.
    unfold output_coin in E. destruct (unspendable _); [done |]. injection E as <-. cbn.
    rewrite Forall_lookup in Hm. specialize (Hm _ _ Eo). unfold money in Hm. lia.
  - destruct (IsCoinBase tx.2); [apply Hu |]. destruct (decide (q ∈ prevouts tx.2)); [discriminate | apply Hu].
Qed.

Lemma supply_insert_le u p co : valued u -> supply (<[p := co]> u) <= nValue (out co) + supply u.
Proof.
  intros Hu. destruct (u !! p) as [old |] eqn:E; [| rewrite supply_insert by done; lia].
  rewrite (supply_delete (<[p := co]> u) p co) by apply lookup_insert_eq. rewrite delete_insert_eq.
  rewrite (supply_delete u p old E). specialize (Hu p old E). cbn in Hu. lia.
Qed.

(** What overwrites coins adds at most its spendable outputs. *)
Lemma supply_add_outputs_le hash outs h cb : forall u i,
  valued u -> Forall (fun o => money (nValue o)) outs ->
  supply (add_outputs unspendable u hash i outs h cb) <= supply u + sum_values (spendable outs).
Proof.
  induction outs as [| o outs IH]; intros u i Hu Hm; cbn [add_outputs spendable List.filter]; [cbn; lia |].
  apply Forall_cons in Hm as [Ho Hm]. unfold output_coin. fold (spendable outs).
  destruct (unspendable (scriptPubKey o)); cbn [negb]; [by apply IH |].
  assert (valued (<[(hash, i) := mkCoin o cb (wrapu 31 h)]> u)) as Hu' by (apply map_Forall_insert_2; [apply Ho | done]).
  specialize (IH _ (i + 1) Hu' Hm). pose proof (supply_insert_le u (hash, i) (mkCoin o cb (wrapu 31 h)) Hu) as Hi.
  cbn [out sum_values foldr] in *. unfold sum_values in *. lia.
Qed.

(** Connecting a transaction adds its spendable outputs and removes the
    coins it spends; a coinbase adds at most its spendable outputs. *)
Lemma supply_connect h u tx txs coins :
  new_ids u (tx :: txs) -> IsCoinBase tx.2 = false ->
  NoDup (prevouts tx.2) -> Forall2 (fun p co => u !! p = Some co) (prevouts tx.2) coins ->
  supply (connect_spec unspendable h u (utxo_tx tx)) + coins_value coins = supply u + sum_values (spendable (vout tx.2)).
Proof.
  intros Hu Hcb Hnd Hf. unfold connect_spec. cbn [utxo_tx tx_hash tx_vout tx_coinbase tx_prevouts].
  rewrite Hcb, supply_add_outputs.
  - rewrite <- (supply_spend_all u _ _ Hnd Hf). lia.
  - intros k _. rewrite spend_all_lookup, (new_ids_head u tx txs k Hu Hcb). by case_decide.
Qed.

Lemma supply_coinbase h u tx :
  valued u -> Forall (fun o => money (nValue o)) (vout tx.2) -> IsCoinBase tx.2 = true ->
  supply (connect_spec unspendable h u (utxo_tx tx)) <= supply u + sum_values (spendable (vout tx.2)).
Proof.
  intros Hu Hm Hcb. unfold connect_spec. cbn [utxo_tx tx_hash tx_vout tx_coinbase tx_prevouts]. rewrite Hcb.
  by apply supply_add_outputs_le.
Qed.
End Supply.

(** ** Blocks *)

Section Blocks.
Context {V : Type} `{HV : CoinsView V} `{!CoinsViewSpec V}.
Context (script_usage : list Z -> Z) (usage_nil : script_usage [] = 0).
Context (unspendable : list Z -> bool).

Abbreviation cache := (CCoinsViewCache V).
Abbreviation ok := (cache_ok script_usage).
Abbreviation connect h := (fold_left (fun u tx => connect_spec unspendable h u (utxo_tx tx))).

(** What [CheckBlock] establishes of the inputs of a block. *)
Definition block_inputs_ok (txs : list (Z * CTransaction)) : Prop :=
  match txs with
  | [] => False
  | cb :: rest =>
      IsCoinBase cb.2 = true /\ Forall (fun tx => IsCoinBase tx.2 = false /\ NoDup (prevouts tx.2)) rest
  end.

Lemma counted_all outs : counted true outs = outs.
Proof. induction outs as [| o outs IH]; [done |]. change (o :: counted true outs = o :: outs). by rewrite IH. Qed.

Lemma money_not_null outs : Forall (fun o => money (nValue o)) outs -> Forall (fun o => nValue o <> -1) outs.
Proof. intros Hf. eapply Forall_impl; [exact Hf |]. unfold money. lia. Qed.

Lemma prevouts_coinbase tx : IsCoinBase tx = true -> NoDup (prevouts tx).
Proof.
  unfold IsCoinBase, prevouts. destruct (vin tx) as [| i [| j ins]]; cbn; try done. intros _. apply NoDup_singleton.
Qed.

Lemma UpdateCoins_connect (c c' : cache) tx txs h undo :
  ok c -> new_ids (cache_utxo c) (tx :: txs) -> NoDup (prevouts tx.2) ->
  Forall (fun o => money (nValue o)) (vout tx.2) ->
  (IsCoinBase tx.2 = false -> Forall (fun p => is_Some (cache_utxo c !! p)) (prevouts tx.2)) ->
  UpdateCoins script_usage unspendable c (utxo_tx tx) h = Some (undo, c') ->
  ok c' /\ cache_utxo c' = connect_spec unspendable h (cache_utxo c) (utxo_tx tx).
Proof using usage_nil CoinsViewSpec0.
  intros Hok Hnew Hnd Hm Hin Heq.
  destruct (UpdateCoins_spec script_usage usage_nil unspendable c (utxo_tx tx) h Hok)
    as (undo' & c1 & Heq' & Hok1 & _ & Hu1 & _).
  { split; [done |]. split; [done |]. split; [| by apply money_not_null].
    intros Hcb k _. by apply (new_ids_head _ tx txs). }
  rewrite Heq in Heq'. injection Heq' as <- <-. done.
Qed.

(** One ordinary transaction: what it takes from the supply is its fee and
    what it sends to unspendable outputs. *)
Lemma CheckTxInputs_connect (c c1 c2 : cache) tx txs h fee undo :
  ok c -> new_ids (cache_utxo c) (tx :: txs) -> IsCoinBase tx.2 = false -> NoDup (prevouts tx.2) ->
  CheckTxInputs script_usage true tx.2 c h = (Accept fee, c1) ->
  UpdateCoins script_usage unspendable c1 (utxo_tx tx) h = Some (undo, c2) ->
  ok c2 /\ money fee /\ cache_utxo c2 = connect_spec unspendable h (cache_utxo c) (utxo_tx tx) /\
  Forall (fun o => money (nValue o)) (vout tx.2) /\
  supply (cache_utxo c2) + fee + (sum_values (vout tx.2) - sum_values (spendable unspendable (vout tx.2))) =
    supply (cache_utxo c) /\ sum_values (spendable unspendable (vout tx.2)) <= sum_values (vout tx.2).
Proof using usage_nil CoinsViewSpec0.
  intros Hok Hnew Hcb Hnd Hchk Hupd.
  destruct (CheckTxInputs_spec script_usage true tx.2 c h fee Hok) as (r & c' & Heq & Hok1 & Hu1 & Hiff).
  rewrite Hchk in Heq. injection Heq as <- <-. destruct (proj1 Hiff eq_refl) as (coins & Hf & Hle & Hm & Hsum & Hfee).
  rewrite counted_all in Hm, Hsum. rewrite <- Hu1 in *.
  assert (Forall2 (fun p co => cache_utxo c1 !! p = Some co) (prevouts tx.2) coins) as Hf'
    by (eapply Forall2_impl; [exact Hf | by intros ? ? [? _]]).
  destruct (UpdateCoins_connect c1 c2 tx txs h undo Hok1 Hnew Hnd Hm) as [Hok2 Hu2]; [| done |].
  { intros _. clear -Hf'. induction Hf'; constructor; [by eexists | done]. }
  pose proof (supply_connect unspendable h (cache_utxo c1) tx txs coins Hnew Hcb Hnd Hf') as Hs.
  rewrite <- Hu2 in Hs. pose proof (sum_values_nonneg _ Hm). pose proof (spendable_le unspendable _ Hm).
  split; [done |]. split; [unfold money; lia |]. split; [done |]. split; [done |]. lia.
Qed.

Lemma ConnectBlock_loop_supply h txs : forall (c c' : cache) a fees,
  ok c -> money a -> new_ids (cache_utxo c) txs -> valued (cache_utxo c) ->
  Forall (fun tx => IsCoinBase tx.2 = false /\ NoDup (prevouts tx.2)) txs ->
  ConnectBlock_amounts_loop script_usage unspendable true c txs h a = (Accept fees, c') ->
  ok c' /\ money fees /\ cache_utxo c' = connect h txs (cache_utxo c) /\ valued (cache_utxo c') /\
  supply (cache_utxo c') + fees <= supply (cache_utxo c) + a.
Proof using usage_nil CoinsViewSpec0.
  induction txs as [| tx txs IH]; intros c c' a fees Hok Ha Hnew Hval Hall; cbn [ConnectBlock_amounts_loop fold_left].
  { intros [= <- <-]. do 4 (split; [done |]). lia. }
  apply Forall_cons in Hall as [[Hcb Hnd] Hall]. rewrite Hcb. cbn [negb].
  destruct (CheckTxInputs script_usage true tx.2 c h) as [[fee | r |] c1] eqn:Hchk; try done.
  destruct (MoneyRange (i64 (a + fee))) eqn:Hr; cbn [negb]; [| done].
  destruct (UpdateCoins script_usage unspendable c1 (utxo_tx tx) h) as [[undo c2] |] eqn:Hupd; [| done].
  destruct (CheckTxInputs_connect c c1 c2 tx txs h fee undo Hok Hnew Hcb Hnd Hchk Hupd) as (Hok2 & Hfee & Hu2 & Hm & Hs & Hsp).
  pose proof (valued_connect unspendable h _ tx Hval Hm) as Hval2. rewrite <- Hu2 in Hval2.
  rewrite i64_money in * by (done || by apply MoneyRange_spec). apply MoneyRange_spec in Hr. intros Hloop.
  pose proof (new_ids_connect unspendable h _ _ _ Hnew) as Hnew2. rewrite <- Hu2 in Hnew2.
  destruct (IH c2 c' _ fees Hok2 Hr Hnew2 Hval2 Hall Hloop) as (Hok' & Hfees & Hu' & Hval' & Hle).
  rewrite <- Hu2. repeat (split; [done |]). lia.
Qed.

Lemma ConnectBlock_supply (c c' : cache) txs h I fees :
  ok c -> 0 < I -> 0 <= h -> block_inputs_ok txs -> new_ids (cache_utxo c) txs -> valued (cache_utxo c) ->
  ConnectBlock_amounts script_usage unspendable true c txs h I = (Accept fees, c') ->
  ok c' /\ cache_utxo c' = connect h txs (cache_utxo c) /\ valued (cache_utxo c') /\
  supply (cache_utxo c') <= supply (cache_utxo c) + GetBlockSubsidy h I.
Proof using usage_nil CoinsViewSpec0.
  intros Hok HI Hh Hb Hnew Hval. unfold ConnectBlock_amounts. destruct txs as [| cb rest]; [done |].
  destruct Hb as [Hcb Hrest]. cbn [ConnectBlock_amounts_loop fold_left]. rewrite Hcb. cbn [negb].
  destruct (UpdateCoins script_usage unspendable c (utxo_tx cb) h) as [[undo c1] |] eqn:Hupd; [| done].
  destruct (ConnectBlock_amounts_loop script_usage unspendable true c1 rest h 0) as [[nFees | r |] c2] eqn:Hloop; try done.
  destruct (GetValueOut true cb.2) as [v |] eqn:Hv; [| done].
  apply GetValueOut_spec in Hv as (Hm & Hv & Hle). rewrite counted_all in Hm, Hv.
  destruct (UpdateCoins_connect c c1 cb rest h undo Hok Hnew (prevouts_coinbase _ Hcb) Hm) as [Hok1 Hu1];
    [by rewrite Hcb | done |].
  pose proof (supply_coinbase unspendable h (cache_utxo c) cb Hval Hm Hcb) as Hs.
  pose proof (valued_connect unspendable h _ cb Hval Hm) as Hval1. rewrite <- Hu1 in Hs, Hval1. pose proof (spendable_le unspendable _ Hm).
  pose proof (new_ids_connect unspendable h _ _ _ Hnew) as Hnew1. rewrite <- Hu1 in Hnew1.
  destruct (ConnectBlock_loop_supply h rest c1 c2 0 nFees) as (Hok2 & Hf & Hu2 & Hval2 & Hle2); try done.
  pose proof (GetBlockSubsidy_bound h I HI Hh) as Hsub.
  assert (i64 (nFees + GetBlockSubsidy h I) = nFees + GetBlockSubsidy h I) as ->
    by (apply wraps_small; unfold money, MAX_MONEY, COIN in *; lia).
  destruct (Z.gtb_spec v (nFees + GetBlockSubsidy h I)) as [| Hvle]; [done |]. intros [= <- <-].
  split; [done |]. split; [by rewrite Hu2, Hu1 |]. split; [done |]. lia.
Qed.

(** ** Chains of blocks *)

Fixpoint connect_chain (c : cache) (blocks : list (list (Z * CTransaction))) (h I : Z) : option cache :=
  match blocks with
  | [] => Some c
  | b :: blocks =>
      match ConnectBlock_amounts script_usage unspendable true c b h I with
      | (Accept _, c) => connect_chain c blocks (h + 1) I
      | _ => None
      end
  end.

Lemma new_ids_block h txs rest : forall u,
  new_ids u (txs ++ rest) -> new_ids (connect h txs u) rest.
Proof.
  induction txs as [| tx txs IH]; intros u Hnew; [done |]. cbn [fold_left]. apply IH.
  by apply new_ids_connect.
Qed.

Lemma new_ids_app_l u txs rest : new_ids u (txs ++ rest) -> new_ids u txs.
Proof. intros Hnew pre tx post ->. apply (Hnew pre tx (post ++ rest)). by rewrite <- app_assoc. Qed.

Lemma connect_chain_supply I blocks : forall (c c' : cache) n,
  0 < I -> ok c -> Forall block_inputs_ok blocks -> new_ids (cache_utxo c) (concat blocks) -> valued (cache_utxo c) ->
  supply (cache_utxo c) <= total_subsidy I n -> connect_chain c blocks (Z.of_nat n) I = Some c' ->
  ok c' /\ supply (cache_utxo c') <= total_subsidy I (n + length blocks).
Proof using usage_nil CoinsViewSpec0.
  induction blocks as [| b blocks IH]; intros c c' n HI Hok Hb Hnew Hval Hs; cbn [connect_chain concat length].
  { intros [= <-]. by rewrite Nat.add_0_r. }
  apply Forall_cons in Hb as [Hb Hbs]. cbn [concat] in Hnew.
  destruct (ConnectBlock_amounts script_usage unspendable true c b (Z.of_nat n) I) as [[fees | r |] c1] eqn:Hc; try done.
  destruct (ConnectBlock_supply c c1 b (Z.of_nat n) I fees Hok HI) as (Hok1 & Hu1 & Hval1 & Hs1);
    [lia | done | by apply (new_ids_app_l _ _ (concat blocks)) | done | done |].
  intros Hrest. rewrite <- Nat.add_succ_comm. apply (IH c1 c' (S n)); try done.
  - rewrite Hu1. by apply new_ids_block.
  - cbn [total_subsidy]. lia.
  - by replace (Z.of_nat (S n)) with (Z.of_nat n + 1) by lia.
Qed.
End Blocks.

(** ** Properties *)

(** C19: A transaction is accepted by [CheckTxInputs] with fee [fee] exactly when
    every input spends an existing coin, mature if it is a coinbase, all values
    are money amounts, and the inputs are worth the outputs plus a fee of at
    least zero; the view is unchanged.  The outputs counted are all of them once
    values are enforced, and those that carry no asset before.  Once values are
    enforced, connecting an accepted transaction that is not a coinbase, spends
    no output twice and has an id without unspent outputs lowers the total of
    the UTXO set by its fee and the value of its unspendable outputs, and by
    nothing else. *)
Theorem CheckTxInputs_conserves {V : Type} `{CoinsView V} `{!CoinsViewSpec V}
    (script_usage : list Z -> Z) (unspendable : list Z -> bool) (c : CCoinsViewCache V) (txid : Z)
    (tx : CTransaction) (h fee : Z) (enforced : bool) :
  script_usage [] = 0 -> cache_ok script_usage c ->
  exists r c1, CheckTxInputs script_usage enforced tx c h = (r, c1) /\
    cache_ok script_usage c1 /\ cache_utxo c1 = cache_utxo c /\
    (r = Accept fee <->
     exists coins, Forall2 (spends (cache_utxo c) h) (prevouts tx) coins /\
       coins_value coins <= MAX_MONEY /\
       Forall (fun o => money (nValue o)) (counted enforced (vout tx)) /\
       coins_value coins = sum_values (counted enforced (vout tx)) + fee /\ 0 <= fee) /\
    (r = Accept fee -> enforced = true -> IsCoinBase tx = false -> NoDup (prevouts tx) ->
     (forall k, cache_utxo c !! (txid, k) = None) ->
     exists undo c2, UpdateCoins script_usage unspendable c1 (utxo_tx (txid, tx)) h = Some (undo, c2) /\
       supply (cache_utxo c2) + fee + (sum_values (vout tx) - sum_values (spendable unspendable (vout tx))) =
         supply (cache_utxo c)).
Proof.
  intros Hus Hok.
  destruct (CheckTxInputs_spec script_usage enforced tx c h fee Hok) as (r & c1 & Heq & Hok1 & Hu1 & Hiff).
  exists r, c1. do 4 (split; [done |]). intros -> -> Hcb Hnd Hnew.
  destruct (proj1 Hiff eq_refl) as (coins & Hf & _ & Hm & _). rewrite counted_all in Hm.
  destruct (UpdateCoins_spec script_usage Hus unspendable c1 (utxo_tx (txid, tx)) h Hok1) as (undo & c2 & Hupd & _).
  { split; [done |]. split; [| split; [| by apply money_not_null]].
    - intros _. rewrite Hu1. clear -Hf. cbn. induction Hf as [| p co ps coins [Hp _] _ IH]; constructor; [by eexists | done].
    - intros _ k _. rewrite Hu1. apply Hnew. }
  exists undo, c2. split; [done |].
  eapply (CheckTxInputs_connect script_usage Hus unspendable c c1 c2 (txid, tx) [] h fee undo); try done.
  intros pre t post E _. destruct pre as [| ? [| ? ?]]; [| done | done]. injection E as <- _. split; [apply not_elem_of_nil | done].
Qed.

(** C1: The supply is bounded, also when coinbases repeat.  Let a chain of
    blocks start from an empty UTXO set, and let [ConnectBlock] accept the
    amounts of each of them with values enforced.  If each block starts with
    its only coinbase and no transaction spends an output twice (as [CheckBlock]
    ensures), if only coinbases repeat the id of an earlier transaction (BIP30
    and BIP34 are switched off in the code; two transactions other than
    coinbases with one id need a repeated coinbase), and the halving interval is
    at most twice that of the main network, then the total of all unspent
    outputs is at most the sum of the subsidies, which is at most
    [MAX_MONEY]. *)
Theorem chain_supply_bounded {V : Type} `{CoinsView V} `{!CoinsViewSpec V}
    (script_usage : list Z -> Z) (unspendable : list Z -> bool) (c c' : CCoinsViewCache V)
    (blocks : list (list (Z * CTransaction))) (interval : Z) :
  script_usage [] = 0 -> cache_ok script_usage c -> cache_utxo c = ∅ -> 0 < interval <= 4200000 ->
  Forall block_inputs_ok blocks ->
  (forall pre tx post, concat blocks = pre ++ tx :: post -> IsCoinBase tx.2 = false -> tx.1 ∉ pre.*1) ->
  connect_chain script_usage unspendable c blocks 1 interval = Some c' ->
  cache_ok script_usage c' /\
  supply (cache_utxo c') <= total_subsidy interval (1 + length blocks) <= MAX_MONEY.
Proof.
  intros Hus Hok Hemp HI Hb Hnd Hc. pose proof (total_subsidy_bound interval 1 HI) as Ht.
  destruct (connect_chain_supply script_usage Hus unspendable interval blocks c c' 1) as [Hok' Hs]; try done.
  - lia.
  - intros pre tx post E Hcb. split; [by apply (Hnd pre tx post) |]. intros k. by rewrite Hemp.
  - rewrite Hemp. apply map_Forall_empty.
  - by rewrite Hemp.
  - split; [done |]. pose proof (total_subsidy_bound interval (1 + length blocks) HI). lia.
Qed.

#[local] Instance example_base : CoinsView CoinsDB := CCoinsViewDB_view (fun _ => false).

Definition ledger_empty : CCoinsViewCache CoinsDB := mkCache (mkDB ∅ None None) 0 ∅ 0.

Definition ledger_coinbase : CTransaction :=
  mkTransaction [mkTxIn (0, 0xffffffff) [81; 82] SEQUENCE_FINAL []] [mkTxOut (2500 * COIN) [118]] 1 0.

Definition ledger_blocks : list (list (Z * CTransaction)) :=
  [[(10, ledger_coinbase)]; [(11, ledger_coinbase)]; [(10, ledger_coinbase)]].

Lemma chain_supply_bounded_witness :
  match connect_chain (fun _ => 0) example_unspendable ledger_empty ledger_blocks 1 2100000 with
  | Some c' => supply (cache_utxo c') <= total_subsidy 2100000 4 <= MAX_MONEY
  | None => False
  end.
Proof.
  destruct (connect_chain (fun _ => 0) example_unspendable ledger_empty ledger_blocks 1 2100000) as [c' |] eqn:E.
  - apply (chain_supply_bounded (fun _ => 0) example_unspendable ledger_empty c' ledger_blocks 2100000).
    + reflexivity.
    + split; [split; [apply map_Forall_empty | done] |]. split; [| done]. intros o e. unfold ledger_empty.
      cbn [cacheCoins]. by rewrite lookup_empty.
    + reflexivity.
    + lia.
    + repeat constructor.
    + intros pre tx post Ec. assert (Forall (fun t => IsCoinBase t.2 = true) (concat ledger_blocks)) as Hall by repeat constructor.
      rewrite Ec in Hall. apply Forall_app in Hall as [_ Hall]. apply Forall_cons in Hall as [-> _]. discriminate.
    + exact E.
  - vm_compute in E. discriminate.
Defined.

Definition ledger_spend : CTransaction :=
  mkTransaction [mkTxIn (1, 0) [] SEQUENCE_FINAL []; mkTxIn (2, 1) [] SEQUENCE_FINAL []] [mkTxOut 60 [118]] 1 0.

Lemma CheckTxInputs_conserves_witness :
  exists c1, CheckTxInputs (fun _ => 0) true ledger_spend example_view 8 = (Accept 50, c1) /\
    cache_utxo c1 = cache_utxo example_view.
Proof.
  destruct (CheckTxInputs_conserves (fun _ => 0) example_unspendable example_view 11 ledger_spend 8 50 true)
    as (r & c1 & Heq & Hok & Hu & Hiff & _).
  - reflexivity.
  - split; [split; [apply map_Forall_insert_2; [done | by apply map_Forall_singleton] | done] |].
    split; [| done]. intros o e. unfold example_view. cbn [cacheCoins]. by rewrite lookup_empty.
  - exists c1. split; [| exact Hu]. rewrite Heq. f_equal. apply Hiff. exists [example_coin 50; example_coin 60].
    split; [| split; [done | split; [by repeat constructor | done]]].
    repeat constructor; done.
Defined.
