(* ===== verification/TimeLocks.v ===== *)
(** * Relative lock times ([SequenceLocks] of [src/consensus/tx_verify.cpp])

    The pair of locks the code folds over the inputs says the same as the
    condition on each input by itself (BIP 68). *)

From stdpp Require Import gmap.
From S2P Require Import Prelude ArithUint256 Compact Chain ActiveChain MedianTime Coins TxFormat TxVerify.

Section Locks.
Context (m : gmap ptr CBlockIndex) (Hm : wf_store m).
Context (block : ptr) (b : CBlockIndex) (Hb : m !! block = Some b).
Context (t : Z).

(** The relative lock of an input, in blocks or in units of 512 seconds. *)
Definition relative_lock (txin : CTxIn) : Z := Z.land (nSequence txin) SEQUENCE_LOCKTIME_MASK.

(** The input may be in [block], whose parent has median time [t], when it
    spends an output created at [height]. *)
Definition input_unlocked (txin : CTxIn) (height : Z) : Prop :=
  if negb (Z.land (nSequence txin) SEQUENCE_LOCKTIME_DISABLE_FLAG =? 0) then True
  else if negb (Z.land (nSequence txin) SEQUENCE_LOCKTIME_TYPE_FLAG =? 0) then
    exists a coin_time, ancestor_at m block (Z.max (height - 1) 0) = Some a /\
      GetMedianTimePast m a = Some coin_time /\ coin_time + 512 * relative_lock txin <= t
  else height + relative_lock txin <= nHeight b.

Lemma relative_lock_range txin : 0 <= relative_lock txin < 2 ^ 16.
Proof.
  unfold relative_lock. change SEQUENCE_LOCKTIME_MASK with (Z.ones 16). rewrite Z.land_ones by lia.
  apply Z.mod_pos_bound. lia.
Qed.

Lemma relative_lock_seconds txin :
  u32 (Z.shiftl (relative_lock txin) SEQUENCE_LOCKTIME_GRANULARITY) = 512 * relative_lock txin.
Proof.
  pose proof (relative_lock_range txin). rewrite Z.shiftl_mul_pow2 by done.
  change (2 ^ SEQUENCE_LOCKTIME_GRANULARITY) with 512. unfold wrapu. rewrite Z.mod_small; lia.
Qed.

Lemma CalculateSequenceLocks_loop_spec ins heights : forall minH minT,
  length heights = length ins -> Forall (fun h => 0 <= h <= nHeight b) heights -> nHeight b < 2 ^ 31 - 2 ^ 16 ->
  exists mh mt hs, CalculateSequenceLocks_loop m block ins heights minH minT = Some ((mh, mt), hs) /\
    (mh < nHeight b /\ mt < t <-> (minH < nHeight b /\ minT < t) /\ Forall2 input_unlocked ins heights).
Proof using Hm Hb.
  revert heights. induction ins as [| txin ins IH]; intros [| h heights] minH minT Hl Hh Hmax; try done.
  { exists minH, minT, []. split; [done |]. split; [intros; split; [done | constructor] | tauto]. }
  apply Forall_cons in Hh as [Hh Hhs]. injection Hl as Hl. cbn [CalculateSequenceLocks_loop].
  pose proof (relative_lock_range txin) as Hrel.
  destruct (negb (Z.land (nSequence txin) SEQUENCE_LOCKTIME_DISABLE_FLAG =? 0)) eqn:Hdis.
  { destruct (IH heights minH minT Hl Hhs Hmax) as (mh & mt & hs & -> & Hiff). cbn [mbind option_bind].
    exists mh, mt, (0 :: hs). split; [done |]. rewrite Forall2_cons. unfold input_unlocked at 1. rewrite Hdis. tauto. }
  destruct (negb (Z.land (nSequence txin) SEQUENCE_LOCKTIME_TYPE_FLAG =? 0)) eqn:Htype.
  - rewrite (GetAncestor_eq m block b _ Hm Hb). cbn [mbind option_bind].
    destruct (ancestor_at_some m block b (Z.max (h - 1) 0) Hm Hb) as (a & ba & Ha & Hba & _); [lia |]. rewrite Ha.
    destruct (GetMedianTimePast_total m Hm a ba Hba) as [ct Hct]. cbn [mbind option_bind]. rewrite Hct.
    cbn [mbind option_bind]. fold (relative_lock txin). rewrite relative_lock_seconds.
    destruct (IH heights minH (Z.max minT (ct + 512 * relative_lock txin - 1)) Hl Hhs Hmax)
      as (mh & mt & hs & -> & Hiff).
    exists mh, mt, (h :: hs). split; [done |]. rewrite Hiff, Forall2_cons. unfold input_unlocked at 2. rewrite Hdis, Htype.
    split.
    + intros [[HH HT] Hf]. split; [lia |]. split; [| done]. exists a, ct. split; [done |]. split; [done | lia].
    + intros [[HH HT] [(a' & ct' & Ha' & Hct' & Hle) Hf]]. assert (ct' = ct) as -> by congruence.
      split; [lia | done].
  - fold (relative_lock txin). rewrite wraps_small by lia.
    destruct (IH heights (Z.max minH (h + relative_lock txin - 1)) minT Hl Hhs Hmax) as (mh & mt & hs & -> & Hiff).
    exists mh, mt, (h :: hs). split; [done |]. rewrite Hiff, Forall2_cons. unfold input_unlocked at 2. rewrite Hdis, Htype.
    split; [intros [[HH HT] Hf] | intros [[HH HT] [Hle Hf]]]; (split; [lia |]); [split; [lia | done] | done].
Qed.
End Locks.

(** [SequenceLocks] implements BIP 68.  For a block with a parent in a
    well-formed tree and coins from blocks up to its height, no assertion or
    null pointer is hit, and the transaction may be in the block exactly when
    its version or the flags do not ask for relative locks, or every input
    whose sequence number has bit 31 clear is as many blocks (or, with bit 22,
    as many times 512 seconds of median time) after the output it spends as
    the low 16 bits of its sequence number say. *)
Theorem SequenceLocks_BIP68 (m : gmap ptr CBlockIndex) (block q : ptr) (b : CBlockIndex) (t flags : Z)
    (tx : CTransaction) (prevHeights : list Z) :
  wf_store m -> m !! block = Some b -> pprev b = Some q -> GetMedianTimePast m q = Some t -> 0 <= t ->
  length prevHeights = length (vin tx) -> Forall (fun h => 0 <= h <= nHeight b) prevHeights ->
  nHeight b < 2 ^ 31 - 2 ^ 16 ->
  exists r, SequenceLocks m tx flags prevHeights block = Some r /\
    (r = true <->
     u32 (tx_nVersion tx) < 2 \/ Z.land flags LOCKTIME_VERIFY_SEQUENCE = 0 \/
     Forall2 (input_unlocked m block b t) (vin tx) prevHeights).
Proof.
  intros Hm Hb Hq Ht Ht0 Hl Hh Hmax. pose proof (wf_height m block b Hm Hb) as Hb0.
  unfold SequenceLocks, CalculateSequenceLocks. rewrite (proj2 (Nat.eqb_eq _ _) Hl). cbn [negb].
  assert (forall mh mt, EvaluateSequenceLocks m block (mh, mt) = Some (negb ((mh >=? nHeight b) || (mt >=? t)))) as He.
  { intros mh mt. unfold EvaluateSequenceLocks. rewrite Hb. cbn [mbind option_bind]. rewrite Hq.
    cbn [mbind option_bind]. by rewrite Ht. }
  assert (forall mh mt, negb ((mh >=? nHeight b) || (mt >=? t)) = true <-> mh < nHeight b /\ mt < t) as Hn.
  { intros mh mt. rewrite negb_true_iff, orb_false_iff, !Z.geb_leb, !Z.leb_gt. done. }
  destruct (Z.leb_spec 2 (u32 (tx_nVersion tx))) as [Hv | Hv], (Z.eqb_spec (Z.land flags LOCKTIME_VERIFY_SEQUENCE) 0) as [Hf | Hf];
    cbn [negb andb].
  2:{ destruct (CalculateSequenceLocks_loop_spec m Hm block b Hb t (vin tx) prevHeights (-1) (-1) Hl Hh Hmax)
        as (mh & mt & hs & -> & Hiff). cbn [mbind option_bind]. rewrite He. eexists. split; [done |].
      rewrite Hn, Hiff. split; [intros [_ ?]; auto | intros [? | [? | ?]]; (lia || done || (split; [lia | done]))]. }
  all: cbn [mbind option_bind]; rewrite He; eexists; (split; [done |]); rewrite Hn; split; [auto | lia].
Qed.

(** A coin of block 9 with a lock of 4 blocks, spent in block 13. *)
