(* ===== verification/AssetNames.v ===== *)
(** * Asset names (the first part of [src/assets/assets.cpp])

    The grammar of asset names and their types.  A name is the list of its
    character codes.  Each [std::regex] is the predicate of the strings it
    matches as a whole: [.] is every character but line ends, [boost::split]
    keeps empty parts. *)

From Stdlib Require Import String.
From stdpp Require Import list.
From S2P Require Import Prelude Text.

Inductive AssetType :=
| ROOT | SUB | UNIQUE | MSGCHANNEL | QUALIFIER | SUB_QUALIFIER | RESTRICTED | VOTE | REISSUE | OWNER
| NULL_ADD_QUALIFIER | INVALID.

#[export] Instance AssetType_eq_dec : EqDecision AssetType.
Proof. solve_decision. Defined.

(** ** Characters *)

(** [[._]], [[A-Z0-9._]] and [.] *)
Definition punct (c : Z) : bool := one_of "._" c.
Definition name_char (c : Z) : bool := upper c || isdigit c || punct c.
Definition any_char (c : Z) : bool := negb ((c =? 10) || (c =? 13)).

Definition chr_slash : Z := 47.
Definition chr_hash : Z := 35.
Definition chr_tilde : Z := 126.
Definition chr_caret : Z := 94.
Definition chr_bang : Z := 33.
Definition chr_dollar : Z := 36.

(** ** Regular expressions *)

(** [[f]{n,}] *)
Definition at_least (n : nat) (f : Z -> bool) (s : list Z) : bool := (n <=? length s)%nat && forallb f s.

Definition after_char (d : Z) (rest : list Z -> bool) (s : list Z) : bool :=
  match s with c :: s => (c =? d) && rest s | [] => false end.

(** A string that matches [a] followed by one that matches [b]. *)
Definition seq_match (a b : list Z -> bool) (s : list Z) : bool :=
  existsb (fun i => a (take i s) && b (drop i s)) (seq 0 (S (length s))).

Definition ROOT_NAME_CHARACTERS : list Z -> bool := at_least 3 name_char.
Definition SUB_NAME_CHARACTERS : list Z -> bool := at_least 1 name_char.
Definition UNIQUE_TAG_CHARACTERS : list Z -> bool :=
  at_least 1 (fun c => upper c || lower c || isdigit c || one_of "-@$%&*()[]{}_.?:" c).
Definition MSG_CHANNEL_TAG_CHARACTERS : list Z -> bool :=
  at_least 1 (fun c => upper c || lower c || isdigit c || one_of "_" c).
Definition VOTE_TAG_CHARACTERS : list Z -> bool := at_least 1 name_char.
Definition QUALIFIER_NAME_CHARACTERS : list Z -> bool := after_char chr_hash (at_least 3 name_char).
Definition SUB_QUALIFIER_NAME_CHARACTERS : list Z -> bool := after_char chr_hash (at_least 1 name_char).
Definition RESTRICTED_NAME_CHARACTERS : list Z -> bool := after_char chr_dollar (at_least 3 name_char).

Definition DOUBLE_PUNCTUATION : list Z -> bool :=
  seq_match (at_least 0 any_char) (seq_match (at_least 2 punct) (at_least 0 any_char)).
Definition LEADING_PUNCTUATION (s : list Z) : bool :=
  match s with c :: s => punct c && at_least 0 any_char s | [] => false end.
Definition TRAILING_PUNCTUATION : list Z -> bool :=
  seq_match (at_least 0 any_char) (fun s => (length s =? 1)%nat && forallb punct s).
Definition QUALIFIER_LEADING_PUNCTUATION (s : list Z) : bool :=
  match s with c :: s => one_of "#$" c && LEADING_PUNCTUATION s | [] => false end.

(** [[^^~#!]] and [[^~#!\/]] *)
Definition before_tag (c : Z) : bool := negb (one_of "^~#!" c).
Definition in_tag (c : Z) : bool := negb (one_of "~#!/" c).

Definition tag_indicator (d : Z) : list Z -> bool :=
  seq_match (at_least 1 before_tag) (after_char d (at_least 1 in_tag)).
Definition UNIQUE_INDICATOR : list Z -> bool := tag_indicator chr_hash.
Definition MSG_CHANNEL_INDICATOR : list Z -> bool := tag_indicator chr_tilde.
Definition VOTE_INDICATOR : list Z -> bool := tag_indicator chr_caret.
Definition OWNER_INDICATOR : list Z -> bool :=
  seq_match (at_least 1 before_tag) (after_char chr_bang (fun s => (length s =? 0)%nat)).
Definition QUALIFIER_INDICATOR : list Z -> bool := after_char chr_hash (at_least 3 name_char).
Definition SUB_QUALIFIER_INDICATOR : list Z -> bool :=
  after_char chr_hash (seq_match (at_least 1 name_char)
    (after_char chr_slash (after_char chr_hash (at_least 1 name_char)))).
Definition RESTRICTED_INDICATOR : list Z -> bool := after_char chr_dollar (at_least 3 name_char).

Definition AVIAN_NAMES (s : list Z) : bool :=
  existsb (fun n => bool_decide (s = codes n)) ["RVN"; "AVN"; "AVIAN"; "#AVN"; "#AVIAN"]%string.

(** ** Parts of names *)

Definition IsRootNameValid (name : list Z) : bool :=
  ROOT_NAME_CHARACTERS name && negb (DOUBLE_PUNCTUATION name) && negb (LEADING_PUNCTUATION name) &&
  negb (TRAILING_PUNCTUATION name) && negb (AVIAN_NAMES name).

Definition IsQualifierNameValid (name : list Z) : bool :=
  QUALIFIER_NAME_CHARACTERS name && negb (DOUBLE_PUNCTUATION name) && negb (QUALIFIER_LEADING_PUNCTUATION name) &&
  negb (TRAILING_PUNCTUATION name) && negb (AVIAN_NAMES name).

Definition IsRestrictedNameValid (name : list Z) : bool :=
  RESTRICTED_NAME_CHARACTERS name && negb (DOUBLE_PUNCTUATION name) && negb (LEADING_PUNCTUATION name) &&
  negb (TRAILING_PUNCTUATION name) && negb (AVIAN_NAMES name).

Definition IsSubQualifierNameValid (name : list Z) : bool :=
  SUB_QUALIFIER_NAME_CHARACTERS name && negb (DOUBLE_PUNCTUATION name) && negb (LEADING_PUNCTUATION name) &&
  negb (TRAILING_PUNCTUATION name).

Definition IsSubNameValid (name : list Z) : bool :=
  SUB_NAME_CHARACTERS name && negb (DOUBLE_PUNCTUATION name) && negb (LEADING_PUNCTUATION name) &&
  negb (TRAILING_PUNCTUATION name).

Definition IsUniqueTagValid (tag : list Z) : bool := UNIQUE_TAG_CHARACTERS tag.
Definition IsVoteTagValid (tag : list Z) : bool := VOTE_TAG_CHARACTERS tag.

Definition IsMsgChannelTagValid (tag : list Z) : bool :=
  MSG_CHANNEL_TAG_CHARACTERS tag && negb (DOUBLE_PUNCTUATION tag) && negb (LEADING_PUNCTUATION tag) &&
  negb (TRAILING_PUNCTUATION tag).

(** [boost::split] at [d]: the first part and the others. *)
Fixpoint split (d : Z) (s : list Z) : list Z * list (list Z) :=
  match s with
  | [] => ([], [])
  | c :: s =>
      let '(front, parts) := split d s in
      if c =? d then ([], front :: parts) else (c :: front, parts)
  end.

Definition parts_back (p : list Z * list (list Z)) : list Z := List.last p.2 p.1.

Definition IsNameValidBeforeTag (name : list Z) : bool :=
  let '(front, parts) := split chr_slash name in IsRootNameValid front && forallb IsSubNameValid parts.

Definition IsQualifierNameValidBeforeTag (name : list Z) : bool :=
  let '(front, parts) := split chr_slash name in
  IsQualifierNameValid front && negb (2 <? S (length parts))%nat && forallb IsSubQualifierNameValid parts.

Definition IsAssetNameASubasset (name : list Z) : bool :=
  let '(front, parts) := split chr_slash name in IsRootNameValid front && (1 <? S (length parts))%nat.

Definition IsAssetNameASubQualifier (name : list Z) : bool :=
  let '(front, parts) := split chr_slash name in IsQualifierNameValid front && (1 <? S (length parts))%nat.

(** ** Names *)

Definition MAX_NAME_LENGTH : nat := 31.
Definition MAX_CHANNEL_NAME_LENGTH : nat := 12.
Definition MIN_ASSET_LENGTH : nat := 3.

Definition IsTypeCheckNameValid (type : AssetType) (name : list Z) : bool :=
  match type with
  | UNIQUE =>
      if (MAX_NAME_LENGTH <? length name)%nat then false
      else let p := split chr_hash name in IsNameValidBeforeTag p.1 && IsUniqueTagValid (parts_back p)
  | MSGCHANNEL =>
      if (MAX_NAME_LENGTH <? length name)%nat then false
      else
        let p := split chr_tilde name in
        if (MAX_CHANNEL_NAME_LENGTH <? length (parts_back p))%nat then false
        else IsNameValidBeforeTag p.1 && IsMsgChannelTagValid (parts_back p)
  | OWNER =>
      if (MAX_NAME_LENGTH <? length name)%nat then false
      else IsNameValidBeforeTag (take (length name - 1) name)
  | VOTE =>
      if (MAX_NAME_LENGTH <? length name)%nat then false
      else let p := split chr_caret name in IsNameValidBeforeTag p.1 && IsVoteTagValid (parts_back p)
  | QUALIFIER | SUB_QUALIFIER =>
      if (MAX_NAME_LENGTH <? length name)%nat then false else IsQualifierNameValidBeforeTag name
  | RESTRICTED =>
      if (MAX_NAME_LENGTH <? length name)%nat then false else IsRestrictedNameValid name
  | _ =>
      if (MAX_NAME_LENGTH - 1 <? length name)%nat then false
      else if negb (IsAssetNameASubasset name) && (length name <? MIN_ASSET_LENGTH)%nat then false
      else IsNameValidBeforeTag name
  end.

(** The result and the value written to [assetType], if any. *)
Definition IsAssetNameValid (name : list Z) : bool * option AssetType :=
  let check type :=
    if IsTypeCheckNameValid type name then (true, Some type) else (false, Some INVALID) in
  if (40 <? length name)%nat then (false, None)
  else if UNIQUE_INDICATOR name then check UNIQUE
  else if MSG_CHANNEL_INDICATOR name then check MSGCHANNEL
  else if OWNER_INDICATOR name then check OWNER
  else if VOTE_INDICATOR name then check VOTE
  else if QUALIFIER_INDICATOR name then
    if IsTypeCheckNameValid QUALIFIER name
    then (true, Some (if IsAssetNameASubQualifier name then SUB_QUALIFIER else QUALIFIER))
    else (false, Some INVALID)
  else if SUB_QUALIFIER_INDICATOR name then
    if IsTypeCheckNameValid SUB_QUALIFIER name
    then (true, Some (if IsAssetNameASubQualifier name then SUB_QUALIFIER else INVALID))
    else (false, Some INVALID)
  else if RESTRICTED_INDICATOR name then check RESTRICTED
  else check (if IsAssetNameASubasset name then SUB else ROOT).

Definition asset_name_valid (name : list Z) : bool := (IsAssetNameValid name).1.

Definition IsAssetNameARoot (name : list Z) : bool :=
  asset_name_valid name && bool_decide ((IsAssetNameValid name).2 = Some ROOT).
Definition IsAssetNameAnOwner (name : list Z) : bool := asset_name_valid name && OWNER_INDICATOR name.
Definition IsAssetNameAnRestricted (name : list Z) : bool := asset_name_valid name && RESTRICTED_INDICATOR name.
Definition IsAssetNameAQualifier (name : list Z) (fOnlyQualifiers : bool) : bool :=
  if fOnlyQualifiers then asset_name_valid name && QUALIFIER_INDICATOR name
  else asset_name_valid name && (QUALIFIER_INDICATOR name || SUB_QUALIFIER_INDICATOR name).
Definition IsAssetNameAnMsgChannel (name : list Z) : bool := asset_name_valid name && MSG_CHANNEL_INDICATOR name.

Definition RestrictedNameToOwnerName (name : list Z) : list Z :=
  if negb (IsAssetNameAnRestricted name) then [] else drop 1 name ++ [chr_bang].

(** What precedes the last [d], if there is one. *)
Fixpoint before_last (d : Z) (s : list Z) : option (list Z) :=
  match s with
  | [] => None
  | c :: s =>
      match before_last d s with
      | Some p => Some (c :: p)
      | None => if c =? d then Some [] else None
      end
  end.

Definition GetParentName (name : list Z) : list Z :=
  match IsAssetNameValid name with
  | (true, Some type) =>
      match type with
      | SUB | SUB_QUALIFIER => default name (before_last chr_slash name)
      | UNIQUE => default name (before_last chr_hash name)
      | MSGCHANNEL => default name (before_last chr_tilde name)
      | VOTE => default name (before_last chr_caret name)
      | _ => name
      end
  | (true, None) => name
  | (false, _) => []
  end.

Definition GetUniqueAssetName (parent tag : list Z) : list Z :=
  let unique := parent ++ [chr_hash] ++ tag in
  match IsAssetNameValid unique with (true, Some UNIQUE) => unique | _ => [] end.

(** ** Parts *)

Lemma split_app d a b :
  Forall (fun c => c <> d) a -> split d (a ++ d :: b) = (a, (split d b).1 :: (split d b).2).
Proof.
  induction 1 as [| c a Hc _ IH]; cbn [app split].
  - destruct (split d b) as [f ps]. by rewrite Z.eqb_refl.
  - rewrite IH. by rewrite (proj2 (Z.eqb_neq c d) Hc).
Qed.

Lemma split_none d s : Forall (fun c => c <> d) s -> split d s = (s, []).
Proof. induction 1 as [| c s Hc _ IH]; cbn [split]; [done |]. by rewrite IH, (proj2 (Z.eqb_neq c d) Hc). Qed.

Lemma before_last_none d s : Forall (fun c => c <> d) s -> before_last d s = None.
Proof. induction 1 as [| c s Hc _ IH]; cbn [before_last]; [done |]. by rewrite IH, (proj2 (Z.eqb_neq c d) Hc). Qed.

Lemma before_last_app d a b : Forall (fun c => c <> d) b -> before_last d (a ++ d :: b) = Some a.
Proof.
  intros Hb. induction a as [| c a IH]; cbn [app before_last].
  - by rewrite before_last_none, Z.eqb_refl.
  - by rewrite IH.
Qed.

Lemma split_single d s : forall f, split d s = (f, []) -> before_last d s = None.
Proof.
  induction s as [| x s IH]; intros f; cbn [split before_last]; [done |].
  destruct (split d s) as [g qs]. destruct (x =? d); intros [= <- ->]. by rewrite (IH g).
Qed.

Lemma split_single_eq d s : forall f, split d s = (f, []) -> s = f.
Proof.
  induction s as [| c s IH]; intros f; cbn [split]; [by intros [= <-] |].
  destruct (split d s) as [g qs]. destruct (c =? d); intros [= <- ->]. by rewrite (IH g).
Qed.

(** Dropping what follows the last [d] drops the last part. *)
Lemma split_before_last d s : forall f ps,
  split d s = (f, ps) -> ps <> [] ->
  exists p, before_last d s = Some p /\ split d p = (f, removelast ps) /\ (length p < length s)%nat.
Proof.
  induction s as [| c s IH]; intros f ps; cbn [split before_last]; [by intros [= <- <-] |].
  destruct (split d s) as [f' ps'] eqn:Hs. destruct (decide (ps' = [])) as [-> | Hne].
  - rewrite (split_single d s f' Hs).
    destruct (c =? d); intros [= <- <-] Hn; [| done]. exists []. split; [done |]. split; [done | cbn; lia].
  - destruct (IH f' ps' eq_refl Hne) as (p & -> & Hp & Hlen). intros Heq Hn. exists (c :: p).
    split; [done |]. cbn [split length]. rewrite Hp. destruct (c =? d); injection Heq as <- <-; (split; [| lia]); [| done].
    by destruct ps'.
Qed.

Lemma split_forall (P : Z -> Prop) d s : Forall P (split d s).1 -> Forall (Forall P) (split d s).2 ->
  Forall (fun c => P c \/ c = d) s.
Proof.
  induction s as [| c s IH]; cbn [split]; [constructor |]. destruct (split d s) as [f ps] eqn:E. cbn [fst snd] in IH.
  destruct (Z.eqb_spec c d) as [-> | Hc]; cbn [fst snd].
  - intros _ Hps. apply Forall_cons in Hps as [Hf Hps]. constructor; [auto | by apply IH].
  - intros Hf Hps. apply Forall_cons in Hf as [Hc' Hf]. constructor; [auto | by apply IH].
Qed.

Lemma split_length d s : (length (split d s).1 <= length s)%nat.
Proof.
  induction s as [| c s IH]; cbn [split length]; [done |]. destruct (split d s) as [f ps]. cbn [fst] in IH.
  destruct (c =? d); cbn; lia.
Qed.

(** ** Matching *)

Lemma forallb_Forall (f : Z -> bool) s : forallb f s = true <-> Forall (fun c => f c = true) s.
Proof. rewrite forallb_forall, List.Forall_forall. done. Qed.

Lemma seq_match_spec a b s : seq_match a b s = true <-> exists x y, s = x ++ y /\ a x = true /\ b y = true.
Proof.
  unfold seq_match. rewrite existsb_exists. split.
  - intros (i & _ & [Ha Hb]%andb_true_iff). exists (take i s), (drop i s). by rewrite take_drop.
  - intros (x & y & -> & Ha & Hb). exists (length x). rewrite take_app_length, drop_app_length, Ha, Hb.
    split; [| done]. apply List.in_seq. rewrite length_app. lia.
Qed.

Lemma tag_indicator_spec d s :
  tag_indicator d s = true -> exists a b, s = a ++ d :: b /\ a <> [] /\
    Forall (fun c => before_tag c = true) a /\ Forall (fun c => in_tag c = true) b.
Proof.
  unfold tag_indicator. intros (a & [| c b] & -> & Ha & Hb)%seq_match_spec; cbn [after_char] in Hb; [done |].
  apply andb_true_iff in Hb as [->%Z.eqb_eq Hb]. unfold at_least in Ha, Hb.
  apply andb_true_iff in Ha as [Hl Ha], Hb as [_ Hb]. exists a, b. split; [done |].
  rewrite forallb_Forall in Ha, Hb. split; [by destruct a | done].
Qed.

(** A string without [d] does not match a pattern with [d] in it. *)
Lemma seq_match_no_char d a r s : Forall (fun c => c <> d) s -> seq_match a (after_char d r) s = false.
Proof.
  intros Hs. apply not_true_is_false. intros (x & [| c y] & -> & _ & Hy)%seq_match_spec; [done |].
  cbn [after_char] in Hy. apply andb_true_iff in Hy as [->%Z.eqb_eq _].
  apply Forall_app in Hs as [_ Hs]. by apply Forall_cons in Hs as [? _].
Qed.

Lemma seq_match_first c s r : before_tag c = false -> seq_match (at_least 1 before_tag) r (c :: s) = false.
Proof.
  intros Hc. apply not_true_is_false. intros ([| x xs] & y & Heq & Hx & _)%seq_match_spec; [done |].
  injection Heq as <- _. unfold at_least in Hx. cbn in Hx. by rewrite Hc in Hx.
Qed.

(** ** Roots and sub-assets *)

(** The characters of root and sub names with their separators. *)
Definition plain (c : Z) : Prop := name_char c = true \/ c = chr_slash.

Lemma name_char_spec c : name_char c = true -> 65 <= c <= 90 \/ 48 <= c <= 57 \/ c = 46 \/ c = 95.
Proof.
  unfold name_char, upper, isdigit, punct, one_of. change (codes "._") with [46; 95]. cbn [existsb].
  rewrite ?orb_false_r, !orb_true_iff, !andb_true_iff, !Z.leb_le, !Z.eqb_eq. cbn. intros H. lia.
Qed.

Lemma plain_not d c : In d [chr_hash; chr_tilde; chr_caret; chr_bang; chr_dollar] -> plain c -> c <> d.
Proof.
  unfold chr_hash, chr_tilde, chr_caret, chr_bang, chr_dollar. cbn [In]. intros Hd Hp ->. destruct Hp as [Hc%name_char_spec | Hc].
  - lia.
  - unfold chr_slash in Hc. lia.
Qed.

Lemma plain_before_tag c : plain c -> before_tag c = true.
Proof.
  intros Hc. unfold before_tag, one_of. change (codes "^~#!") with [94; 126; 35; 33]. cbn [existsb].
  rewrite !orb_false_r.
  apply negb_true_iff, not_true_is_false. rewrite !orb_true_iff, !Z.eqb_eq. intros H.
  pose proof (fun d Hd => plain_not d c Hd Hc) as Hn.
  destruct H as [H | [H | [H | H]]]; (eapply Hn; [| exact H]); cbn; tauto.
Qed.

Lemma at_least_name n s : at_least n name_char s = true ->
  (n <= length s)%nat /\ Forall (fun c => name_char c = true) s.
Proof. unfold at_least. intros [Hl%Nat.leb_le Hs%forallb_Forall]%andb_true_iff. done. Qed.

Lemma root_name_chars name : IsRootNameValid name = true ->
  (3 <= length name)%nat /\ Forall (fun c => name_char c = true) name.
Proof.
  unfold IsRootNameValid. intros Hn. do 4 apply andb_true_iff in Hn as [Hn _]. by apply at_least_name.
Qed.

Lemma sub_name_chars name : IsSubNameValid name = true -> Forall (fun c => name_char c = true) name.
Proof.
  unfold IsSubNameValid. intros Hn. do 3 apply andb_true_iff in Hn as [Hn _]. by apply (at_least_name 1).
Qed.

Lemma name_before_tag_plain name : IsNameValidBeforeTag name = true -> (3 <= length name)%nat /\ Forall plain name.
Proof.
  unfold IsNameValidBeforeTag. pose proof (split_length chr_slash name) as Hl.
  pose proof (split_forall (fun c => name_char c = true) chr_slash name) as Hf.
  destruct (split chr_slash name) as [front parts]. cbn [fst snd] in *.
  intros [[Hlen Hroot]%root_name_chars Hsub]%andb_true_iff. split; [lia |]. apply Hf; [done |].
  rewrite forallb_forall in Hsub. apply List.Forall_forall. intros x Hx. by apply sub_name_chars, Hsub.
Qed.

(** A plain name matches none of the indicators. *)
Lemma plain_no_indicator name : Forall plain name -> name <> [] ->
  UNIQUE_INDICATOR name = false /\ MSG_CHANNEL_INDICATOR name = false /\ OWNER_INDICATOR name = false /\
  VOTE_INDICATOR name = false /\ QUALIFIER_INDICATOR name = false /\ SUB_QUALIFIER_INDICATOR name = false /\
  RESTRICTED_INDICATOR name = false.
Proof.
  intros Hp Hne.
  assert (forall d, In d [chr_hash; chr_tilde; chr_caret; chr_bang; chr_dollar] -> Forall (fun c => c <> d) name) as Hno.
  { intros d Hd. eapply Forall_impl; [exact Hp |]. intros c Hc. by apply plain_not. }
  assert (forall d r, In d [chr_hash; chr_tilde; chr_caret; chr_bang; chr_dollar] -> after_char d r name = false) as Hfirst.
  { intros d r Hd. destruct name as [| c name]; [done |]. cbn [after_char].
    specialize (Hno d Hd). apply Forall_cons in Hno as [Hc _]. by rewrite (proj2 (Z.eqb_neq c d) Hc). }
  repeat split; try (apply seq_match_no_char, Hno; cbn; tauto); apply Hfirst; cbn; tauto.
Qed.

Definition base_type (name : list Z) : AssetType := if IsAssetNameASubasset name then SUB else ROOT.

Lemma ltb_false_le n m : (m <= n)%nat -> (n <? m)%nat = false.
Proof. apply Nat.ltb_ge. Qed.

Lemma base_name_valid name :
  IsNameValidBeforeTag name = true -> (length name <= 30)%nat ->
  IsAssetNameValid name = (true, Some (base_type name)).
Proof.
  intros Hn Hlen. destruct (name_before_tag_plain name Hn) as [H3 Hp].
  destruct (plain_no_indicator name Hp) as (U & M & O & W & Q & SQ & R); [by intros -> |].
  unfold IsAssetNameValid. rewrite (ltb_false_le 40) by lia. rewrite U, M, O, W, Q, SQ, R. fold (base_type name).
  assert (IsTypeCheckNameValid (base_type name) name = true) as ->; [| done].
  unfold base_type, IsTypeCheckNameValid, MAX_NAME_LENGTH, MIN_ASSET_LENGTH.
  destruct (IsAssetNameASubasset name) eqn:Hs; rewrite ?Hs; rewrite !ltb_false_le by (cbn; lia); done.
Qed.

Lemma owner_name_valid name :
  IsNameValidBeforeTag name = true -> (length name <= 30)%nat ->
  IsAssetNameValid (name ++ [chr_bang]) = (true, Some OWNER).
Proof.
  intros Hn Hlen. destruct (name_before_tag_plain name Hn) as [H3 Hp].
  unfold IsAssetNameValid. rewrite ltb_false_le by (rewrite length_app; cbn; lia).
  assert (forall d r, In d [chr_hash; chr_tilde] -> seq_match (at_least 1 before_tag) (after_char d r) (name ++ [chr_bang]) = false) as Hno.
  { intros d r Hd. apply seq_match_no_char, Forall_app. split.
    - eapply Forall_impl; [exact Hp |]. intros c Hc. apply plain_not; [cbn in *; tauto | done].
    - constructor; [| constructor]. cbn in Hd. intros <-. destruct Hd as [Hd | [Hd | []]]; done. }
  unfold UNIQUE_INDICATOR, MSG_CHANNEL_INDICATOR, tag_indicator. rewrite !Hno by (cbn; tauto).
  assert (OWNER_INDICATOR (name ++ [chr_bang]) = true) as ->.
  { apply seq_match_spec. exists name, [chr_bang]. split; [done |]. split; [| done].
    apply andb_true_iff. split; [apply Nat.leb_le; lia |]. apply forallb_Forall.
    eapply Forall_impl; [exact Hp | exact plain_before_tag]. }
  assert (IsTypeCheckNameValid OWNER (name ++ [chr_bang]) = true) as ->; [| done].
  unfold IsTypeCheckNameValid, MAX_NAME_LENGTH. rewrite length_app. cbn [length].
  rewrite ltb_false_le, Nat.add_sub, take_app_length by lia. done.
Qed.

(** ** Parents *)

Lemma one_of_not s c d : one_of s c = false -> In d (codes s) -> c <> d.
Proof.
  unfold one_of. intros H Hd ->. apply not_true_iff_false in H. apply H, existsb_exists.
  exists d. split; [done | apply Z.eqb_refl].
Qed.

(** The tag delimiters [#] and [~] occur once, so they split the name where
    [find_last_of] finds them. *)
Lemma tagged_name d name :
  In d [chr_hash; chr_tilde] -> tag_indicator d name = true ->
  exists a b, name = a ++ d :: b /\ split d name = (a, [b]) /\ before_last d name = Some a.
Proof.
  intros Hd (a & b & -> & Hne & Ha & Hb)%tag_indicator_spec. exists a, b. split; [done |].
  assert (Forall (fun c => c <> d) a) as Ha'.
  { eapply Forall_impl; [exact Ha |]. intros c Hc%negb_true_iff. apply (one_of_not _ _ _ Hc). cbn in *. tauto. }
  assert (Forall (fun c => c <> d) b) as Hb'.
  { eapply Forall_impl; [exact Hb |]. intros c Hc%negb_true_iff. apply (one_of_not _ _ _ Hc). cbn in *. tauto. }
  rewrite split_app, split_none, before_last_app by done. done.
Qed.

(** What the parent of a sub-asset, unique asset or channel must be. *)
Definition owned_by (name parent : list Z) : Prop :=
  (length parent < length name)%nat /\
  (exists t, IsAssetNameValid parent = (true, Some t) /\ (t = ROOT \/ t = SUB)) /\
  IsAssetNameValid (parent ++ [chr_bang]) = (true, Some OWNER).

Lemma base_type_cases name : base_type name = ROOT \/ base_type name = SUB.
Proof. unfold base_type. destruct (IsAssetNameASubasset name); auto. Qed.

Lemma parent_owned name parent :
  IsNameValidBeforeTag parent = true -> (length parent < length name)%nat -> (length parent <= 30)%nat ->
  owned_by name parent.
Proof.
  intros Hp Hlt Hlen. split; [done |]. split; [| by apply owner_name_valid].
  exists (base_type parent). split; [by apply base_name_valid | apply base_type_cases].
Qed.

Lemma if_false_true (c : bool) (x : bool) : (if c then false else x) = true -> c = false /\ x = true.
Proof. by destruct c. Qed.

Lemma unique_parent name :
  UNIQUE_INDICATOR name = true -> IsTypeCheckNameValid UNIQUE name = true ->
  (length name <= 31)%nat /\ exists a, before_last chr_hash name = Some a /\ owned_by name a.
Proof.
  intros (a & b & Hname & Hs & Hl)%tagged_name; [| cbn; tauto]. cbn [IsTypeCheckNameValid]. rewrite Hs. cbn [fst].
  intros [Hlen [Ha _]%andb_true_iff]%if_false_true. apply Nat.ltb_ge in Hlen. unfold MAX_NAME_LENGTH in Hlen.
  split; [done |]. exists a. split; [done |].
  assert (length name = length a + S (length b))%nat by (rewrite Hname, length_app; done).
  apply parent_owned; [done | lia | lia].
Qed.

Lemma channel_parent name :
  MSG_CHANNEL_INDICATOR name = true -> IsTypeCheckNameValid MSGCHANNEL name = true ->
  (length name <= 31)%nat /\ exists a, before_last chr_tilde name = Some a /\ owned_by name a.
Proof.
  intros (a & b & Hname & Hs & Hl)%tagged_name; [| cbn; tauto]. cbn [IsTypeCheckNameValid]. rewrite Hs. cbn [fst].
  intros [Hlen [_ [Ha _]%andb_true_iff]%if_false_true]%if_false_true.
  apply Nat.ltb_ge in Hlen. unfold MAX_NAME_LENGTH in Hlen. split; [done |]. exists a. split; [done |].
  assert (length name = length a + S (length b))%nat by (rewrite Hname, length_app; done).
  apply parent_owned; [done | lia | lia].
Qed.

Lemma owner_base name :
  OWNER_INDICATOR name = true -> IsTypeCheckNameValid OWNER name = true ->
  (length name <= 31)%nat /\
  exists a, name = a ++ [chr_bang] /\ IsAssetNameValid a = (true, Some (base_type a)).
Proof.
  intros (a & [| c b] & -> & _ & Hb)%seq_match_spec; cbn [after_char] in Hb; [done |].
  apply andb_true_iff in Hb as [->%Z.eqb_eq Hb%Nat.eqb_eq]. destruct b; [| done]. cbn [IsTypeCheckNameValid].
  intros [Hlen%Nat.ltb_ge Ha]%if_false_true. unfold MAX_NAME_LENGTH in *. split; [done |].
  rewrite length_app in Hlen, Ha. cbn [length] in *. rewrite Nat.add_sub, take_app_length in Ha.
  exists a. split; [done |]. apply base_name_valid; [done | lia].
Qed.

Lemma forallb_removelast {A} (f : A -> bool) l : forallb f l = true -> forallb f (removelast l) = true.
Proof.
  induction l as [| x l IH]; [done |]. cbn [forallb]. intros [Hx Hl]%andb_true_iff.
  destruct l as [| y l]; [done |]. change (f x && forallb f (removelast (y :: l)) = true). by rewrite Hx, IH.
Qed.

Lemma sub_parent name :
  IsAssetNameASubasset name = true -> IsTypeCheckNameValid SUB name = true ->
  (3 <= length name <= 30)%nat /\ exists a, before_last chr_slash name = Some a /\ owned_by name a.
Proof.
  intros Hsub. cbn [IsTypeCheckNameValid]. intros [Hlen%Nat.ltb_ge [_ Hn]%if_false_true]%if_false_true.
  unfold MAX_NAME_LENGTH in Hlen. cbn in Hlen. destruct (name_before_tag_plain name Hn) as [H3 _].
  split; [lia |]. unfold IsAssetNameASubasset, IsNameValidBeforeTag in *.
  destruct (split chr_slash name) as [front parts] eqn:Hs.
  apply andb_true_iff in Hsub as [_ Hparts%Nat.ltb_lt]. apply andb_true_iff in Hn as [Hroot Hparts'].
  destruct (split_before_last chr_slash name front parts Hs) as (p & Hp & Hsp & Hlt);
    [intros ->; cbn in Hparts; lia |].
  exists p. split; [done |]. apply parent_owned; [| done | lia].
  unfold IsNameValidBeforeTag. rewrite Hsp, Hroot. cbn [andb]. by apply forallb_removelast.
Qed.

Lemma qualifier_chars name : IsQualifierNameValid name = true ->
  exists s, name = chr_hash :: s /\ (3 <= length s)%nat /\ Forall (fun c => name_char c = true) s.
Proof.
  unfold IsQualifierNameValid. intros Hn. do 4 apply andb_true_iff in Hn as [Hn _].
  destruct name as [| c s]; [done |]. unfold QUALIFIER_NAME_CHARACTERS in Hn. cbn [after_char] in Hn.
  apply andb_true_iff in Hn as [->%Z.eqb_eq Hn]. destruct (at_least_name 3 s Hn). by exists s.
Qed.

Lemma qualifier_valid name :
  IsQualifierNameValid name = true -> (length name <= 31)%nat -> IsAssetNameValid name = (true, Some QUALIFIER).
Proof.
  intros Hq Hlen. destruct (qualifier_chars name Hq) as (s & -> & H3 & Hs).
  assert (Forall (fun c => c <> chr_slash) (chr_hash :: s)) as Hno.
  { constructor; [done |]. eapply Forall_impl; [exact Hs |]. intros c Hc%name_char_spec.
    unfold chr_slash. lia. }
  unfold IsAssetNameValid. rewrite ltb_false_le by lia.
  unfold UNIQUE_INDICATOR, MSG_CHANNEL_INDICATOR, VOTE_INDICATOR, OWNER_INDICATOR, tag_indicator.
  rewrite !seq_match_first by done.
  assert (QUALIFIER_INDICATOR (chr_hash :: s) = true) as ->.
  { unfold QUALIFIER_INDICATOR. cbn [after_char]. rewrite Z.eqb_refl. cbn [andb]. apply andb_true_iff.
    split; [by apply Nat.leb_le | by apply forallb_Forall]. }
  cbn [IsTypeCheckNameValid]. unfold MAX_NAME_LENGTH, IsQualifierNameValidBeforeTag, IsAssetNameASubQualifier.
  rewrite ltb_false_le, split_none, Hq by (done || lia). done.
Qed.

Lemma sub_qualifier_parent name :
  IsAssetNameASubQualifier name = true -> IsTypeCheckNameValid SUB_QUALIFIER name = true ->
  (3 <= length name <= 31)%nat /\
  exists a, before_last chr_slash name = Some a /\ IsAssetNameValid a = (true, Some QUALIFIER).
Proof.
  intros Hsub. cbn [IsTypeCheckNameValid]. intros [Hlen%Nat.ltb_ge Hn]%if_false_true. unfold MAX_NAME_LENGTH in Hlen.
  unfold IsAssetNameASubQualifier, IsQualifierNameValidBeforeTag in *. pose proof (split_length chr_slash name) as Hl.
  destruct (split chr_slash name) as [front parts] eqn:Hs. cbn [fst] in Hl.
  apply andb_true_iff in Hsub as [_ Hparts%Nat.ltb_lt], Hn as [[Hq Hparts'%negb_true_iff%Nat.ltb_ge]%andb_true_iff _].
  destruct (qualifier_chars front Hq) as (s & -> & H3 & Hs'). cbn [length] in Hl. split; [lia |].
  destruct (split_before_last chr_slash name _ parts Hs) as (p & Hp & Hsp & Hlt); [intros ->; cbn in Hparts; lia |].
  exists p. split; [done |]. destruct parts as [| x [| y parts]]; cbn [length] in *; [lia | | lia].
  assert (p = chr_hash :: s) as ->; [| apply qualifier_valid; [done | cbn; lia]].
  cbn [removelast] in Hsp. exact (split_single_eq _ _ _ Hsp).
Qed.

(** How a valid name got its type. *)
Lemma IsAssetNameValid_inv name type :
  IsAssetNameValid name = (true, Some type) ->
  match type with
  | UNIQUE => UNIQUE_INDICATOR name = true /\ IsTypeCheckNameValid UNIQUE name = true
  | MSGCHANNEL => MSG_CHANNEL_INDICATOR name = true /\ IsTypeCheckNameValid MSGCHANNEL name = true
  | OWNER => OWNER_INDICATOR name = true /\ IsTypeCheckNameValid OWNER name = true
  | VOTE => VOTE_INDICATOR name = true /\ IsTypeCheckNameValid VOTE name = true
  | SUB_QUALIFIER => IsAssetNameASubQualifier name = true /\ IsTypeCheckNameValid SUB_QUALIFIER name = true
  | QUALIFIER => QUALIFIER_INDICATOR name = true /\ IsTypeCheckNameValid QUALIFIER name = true
  | RESTRICTED => RESTRICTED_INDICATOR name = true /\ IsTypeCheckNameValid RESTRICTED name = true
  | SUB => IsAssetNameASubasset name = true /\ IsTypeCheckNameValid SUB name = true
  | ROOT => IsTypeCheckNameValid ROOT name = true
  | INVALID => IsTypeCheckNameValid SUB_QUALIFIER name = true
  | _ => False
  end.
Proof.
  unfold IsAssetNameValid. destruct (40 <? length name)%nat; [done |].
  destruct (UNIQUE_INDICATOR name); [destruct (IsTypeCheckNameValid UNIQUE name); by intros [= <-] |].
  destruct (MSG_CHANNEL_INDICATOR name); [destruct (IsTypeCheckNameValid MSGCHANNEL name); by intros [= <-] |].
  destruct (OWNER_INDICATOR name); [destruct (IsTypeCheckNameValid OWNER name); by intros [= <-] |].
  destruct (VOTE_INDICATOR name); [destruct (IsTypeCheckNameValid VOTE name); by intros [= <-] |].
  destruct (QUALIFIER_INDICATOR name).
  { destruct (IsTypeCheckNameValid QUALIFIER name) eqn:E; [| done].
    destruct (IsAssetNameASubQualifier name) eqn:S; intros [= <-]; done. }
  destruct (SUB_QUALIFIER_INDICATOR name).
  { destruct (IsTypeCheckNameValid SUB_QUALIFIER name) eqn:E; [| done].
    destruct (IsAssetNameASubQualifier name) eqn:S; intros [= <-]; done. }
  destruct (RESTRICTED_INDICATOR name); [destruct (IsTypeCheckNameValid RESTRICTED name); by intros [= <-] |].
  destruct (IsAssetNameASubasset name) eqn:S;
    [destruct (IsTypeCheckNameValid SUB name) eqn:E | destruct (IsTypeCheckNameValid ROOT name) eqn:E];
    by intros [= <-].
Qed.

(** Ownership of asset names is well founded.  Every name of a sub-asset, a
    unique asset or a message channel is longer than its parent, which is
    itself a valid root or sub-asset name, and the owner token of the parent
    that issuing requires is a valid owner name.  The name of an owner token
    is a valid root or sub-asset name followed by [!], and the parent of a
    sub-qualifier is a valid qualifier.  All these names have at most 31
    characters. *)
Theorem asset_names_have_parents (name : list Z) (type : AssetType) :
  IsAssetNameValid name = (true, Some type) ->
  match type with
  | SUB | UNIQUE | MSGCHANNEL => (length name <= 31)%nat /\ owned_by name (GetParentName name)
  | OWNER =>
      (length name <= 31)%nat /\
      exists base t, name = base ++ [chr_bang] /\ IsAssetNameValid base = (true, Some t) /\ (t = ROOT \/ t = SUB)
  | SUB_QUALIFIER =>
      (length name <= 31)%nat /\ IsAssetNameValid (GetParentName name) = (true, Some QUALIFIER)
  | _ => True
  end.
Proof.
  intros H. pose proof (IsAssetNameValid_inv name type H) as Hinv. unfold GetParentName. rewrite H.
  destruct type; try exact I.
  - destruct Hinv as [Hs Ht]. destruct (sub_parent name Hs Ht) as [[_ Hl] (a & -> & Ha)]. split; [lia | exact Ha].
  - destruct Hinv as [Hs Ht]. destruct (unique_parent name Hs Ht) as [Hl (a & -> & Ha)]. done.
  - destruct Hinv as [Hs Ht]. destruct (channel_parent name Hs Ht) as [Hl (a & -> & Ha)]. done.
  - destruct Hinv as [Hs Ht]. destruct (sub_qualifier_parent name Hs Ht) as [[_ Hl] (a & -> & Ha)]. done.
  - destruct Hinv as [Hs Ht]. destruct (owner_base name Hs Ht) as [Hl (a & -> & Ha)]. split; [done |].
    exists a, (base_type a). split; [done |]. split; [done | apply base_type_cases].
Qed.

(** The comment at [QUALIFIER_LEADING_PUNCTUATION] says that it is used for
    qualifiers and restricted assets, but [IsRestrictedNameValid] uses the
    pattern without the leading [$]: punctuation may follow it. *)
Lemma restricted_leading_punctuation :
  IsAssetNameValid (codes "$.ABC") = (true, Some RESTRICTED) /\
  asset_name_valid (RestrictedNameToOwnerName (codes "$.ABC")) = false.
Proof. vm_compute. done. Qed.

(** Only the first and the last part of a vote name are checked. *)
Lemma vote_middle_unchecked : IsAssetNameValid (codes "ABC^any thing^D") = (true, Some VOTE).
Proof. vm_compute. reflexivity. Qed.
