(* ===== verification/MerkleDamgard.v ===== *)
(** * Buffered hashing ([src/crypto/sha256.cpp], [sha1.cpp], [ripemd160.cpp],
      [sha512.cpp])

    The four hash classes share the way they cut a stream into chunks: bytes
    that do not fill a chunk wait in [buf], [bytes] counts all of them in 64
    bits, [Finalize] appends the padding and the length.  This file models
    that part over an arbitrary compression function and proves that the
    digest depends only on the concatenation of what was written. *)

From stdpp Require Import list.
From S2P Require Import Prelude Bytes.

Section Hasher.
Context {State : Type}.
Variable (size : nat) (Transform : State -> list Z -> State) (Initialize : State).

Record Hasher := mkHasher { hs : State; hbuf : list Z; hbytes : Z }.

(** A new hasher; the buffer is not initialised. *)
Definition hasher_new (buf : list Z) : Hasher := mkHasher Initialize buf 0.

Definition hasher_Reset (h : Hasher) : Hasher := mkHasher Initialize (hbuf h) 0.

(** [blocks] chunks from [data] on. *)
Fixpoint Transforms (blocks : nat) (s : State) (data : list Z) : State :=
  match blocks with
  | O => s
  | S n => Transforms n (Transform s (take size data)) (drop size data)
  end.

Definition memcpy (buf : list Z) (off : nat) (data : list Z) : list Z :=
  take off buf ++ data ++ drop (off + length data) buf.

(** The complete chunks, processed directly from the source. *)
Definition write_blocks (h : Hasher) (data : list Z) : Hasher * list Z :=
  if (size <=? length data)%nat then
    let blocks := (length data / size)%nat in
    (mkHasher (Transforms blocks (hs h) data) (hbuf h) (u64 (hbytes h + Z.of_nat (size * blocks))), drop (size * blocks) data)
  else (h, data).

(** What remains goes to the buffer. *)
Definition write_rest (h : Hasher) (bufsize : nat) (data : list Z) : Hasher :=
  if (0 <? length data)%nat then mkHasher (hs h) (memcpy (hbuf h) bufsize data) (u64 (hbytes h + Z.of_nat (length data)))
  else h.

Definition hasher_Write (h : Hasher) (data : list Z) : Hasher :=
  let bufsize := Z.to_nat (hbytes h mod Z.of_nat size) in
  let '(h, data, bufsize) :=
    if (0 <? bufsize)%nat && (size <=? bufsize + length data)%nat then
      let buf := memcpy (hbuf h) bufsize (take (size - bufsize) data) in
      (mkHasher (Transform (hs h) buf) buf (u64 (hbytes h + Z.of_nat (size - bufsize))), drop (size - bufsize) data, 0%nat)
    else (h, data, bufsize) in
  let '(h, data) := write_blocks h data in
  write_rest h bufsize data.

(** [padbase] is [119] for chunks of 64 bytes and [239] for chunks of 128. *)
Variable (padbase : Z) (sizedesc : Z -> list Z).

Definition pad : list Z := 0x80 :: replicate (size - 1) 0.

Definition hasher_pad (h : Hasher) : Hasher :=
  let desc := sizedesc (u64 (Z.shiftl (hbytes h) 3)) in
  let h := hasher_Write h (take (Z.to_nat (1 + (padbase - hbytes h mod Z.of_nat size) mod Z.of_nat size)) pad) in
  hasher_Write h desc.

(** ** What has been absorbed

    The state is the compression of the complete chunks of the message [m],
    the buffer starts with the rest. *)

Definition absorbed (h : Hasher) (m : list Z) : Prop :=
  hbytes h = u64 (Z.of_nat (length m)) /\ length (hbuf h) = size /\
  hs h = Transforms (length m / size) Initialize m /\
  take (length m mod size) (hbuf h) = drop (size * (length m / size)) m.

Context (size_pos : (0 < size)%nat) (size_divides : (Z.of_nat size | 2 ^ 64)).

Lemma bytes_mod (m : list Z) : Z.to_nat (u64 (Z.of_nat (length m)) mod Z.of_nat size) = (length m mod size)%nat.
Proof using size_pos size_divides.
  unfold wrapu. destruct size_divides as [k Hk].
  assert (forall x, (x mod 2 ^ 64) mod Z.of_nat size = x mod Z.of_nat size) as ->.
  { intros x. rewrite Hk, Z.mul_comm, Z.rem_mul_r by nia. rewrite Z.add_mod, Z.mul_comm, Z.mod_mul, Z.add_0_r by lia.
    by rewrite !Z.mod_mod by lia. }
  rewrite <- Nat2Z.inj_mod. apply Nat2Z.id.
Qed.

Lemma Transforms_app n k : forall s m, Transforms (n + k) s m = Transforms k (Transforms n s m) (drop (size * n) m).
Proof.
  induction n as [| n IH]; intros s m; [by rewrite Nat.mul_0_r |].
  cbn [Nat.add Transforms]. rewrite IH, drop_drop. do 2 f_equal. lia.
Qed.

(** Only the complete chunks are read. *)
Lemma Transforms_prefix n : forall s m k, (size * n <= length m)%nat -> Transforms n s (m ++ k) = Transforms n s m.
Proof.
  induction n as [| n IH]; intros s m k Hn; [done |]. cbn [Transforms].
  rewrite take_app_le, drop_app_le by lia. apply IH. rewrite length_drop. lia.
Qed.

Lemma memcpy_length buf off data : (off + length data <= length buf)%nat -> length (memcpy buf off data) = length buf.
Proof. intros H. unfold memcpy. rewrite !length_app, length_take, length_drop. lia. Qed.

Lemma memcpy_prefix buf off data : (off <= length buf)%nat -> take (off + length data) (memcpy buf off data) = take off buf ++ data.
Proof.
  intros H. unfold memcpy. rewrite app_assoc, take_app_length'; [done |].
  rewrite length_app, length_take. lia.
Qed.

Lemma hasher_new_absorbed buf : length buf = size -> absorbed (hasher_new buf) [].
Proof using size_pos.
  intros H. unfold absorbed, hasher_new. cbn. rewrite Nat.Div0.div_0_l, Nat.Div0.mod_0_l. cbn.
  by rewrite Nat.mul_0_r.
Qed.

Lemma aligned_div (m : list Z) n : length m = (size * n)%nat -> (length m / size = n)%nat /\ (length m mod size = 0)%nat.
Proof using size_pos. intros ->. rewrite Nat.mul_comm. split; [apply Nat.div_mul; lia | apply Nat.Div0.mod_mul]. Qed.

Lemma div_mod_add (m : list Z) k : (length m mod size + k < size)%nat ->
  ((length m + k) / size = length m / size)%nat /\ ((length m + k) mod size = length m mod size + k)%nat.
Proof using size_pos.
  intros Hk. pose proof (Nat.div_mod (length m) size ltac:(lia)) as E.
  assert (length m + k = size * (length m / size) + (length m mod size + k))%nat as -> by lia. split.
  - symmetry. by apply Nat.div_unique with (length m mod size + k)%nat.
  - symmetry. by apply Nat.mod_unique with (length m / size)%nat.
Qed.

Lemma u64_add a b : u64 (u64 a + b) = u64 (a + b).
Proof. unfold wrapu. by rewrite Zplus_mod_idemp_l. Qed.

(** Appending less than what fills the chunk. *)
Lemma absorbed_partial h m d : absorbed h m -> (length m mod size + length d < size)%nat ->
  absorbed (mkHasher (hs h) (memcpy (hbuf h) (length m mod size) d) (u64 (hbytes h + Z.of_nat (length d)))) (m ++ d).
Proof using size_pos.
  intros (Hb & Hl & Hs & Ht) Hd. destruct (div_mod_add m (length d) Hd) as [Hq Hr].
  assert (size * (length m / size) <= length m)%nat as Hm by apply Nat.Div0.mul_div_le.
  unfold absorbed. cbn [hbytes hbuf hs]. rewrite length_app, Hq, Hr.
  split; [rewrite Hb, u64_add; f_equal; lia |]. split; [rewrite memcpy_length; lia |].
  split; [by rewrite Transforms_prefix |]. rewrite memcpy_prefix, Ht, drop_app_le by lia. done.
Qed.

(** Filling the chunk. *)
Lemma absorbed_fill h m d : absorbed h m -> (0 < length m mod size)%nat -> (length m mod size + length d = size)%nat ->
  let buf := memcpy (hbuf h) (length m mod size) d in
  absorbed (mkHasher (Transform (hs h) buf) buf (u64 (hbytes h + Z.of_nat (length d)))) (m ++ d).
Proof using size_pos.
  intros (Hb & Hl & Hs & Ht) Hr Hd. cbn zeta.
  pose proof (Nat.div_mod (length m) size ltac:(lia)) as E. set (q := (length m / size)%nat) in *.
  assert (length (m ++ d) = (size * (q + 1))%nat) as El by (rewrite length_app; lia).
  destruct (aligned_div _ _ El) as [Hq Hr0]. unfold absorbed. cbn [hbytes hbuf hs]. rewrite Hq, Hr0.
  split; [rewrite Hb, u64_add, length_app; f_equal; lia |]. split; [rewrite memcpy_length; lia |]. split.
  - rewrite Transforms_app, Transforms_prefix, <- Hs, drop_app_le by lia. cbn [Transforms]. f_equal.
    assert (memcpy (hbuf h) (length m mod size) d = drop (size * q) m ++ d) as ->.
    { rewrite <- Ht, <- memcpy_prefix by lia. symmetry. apply take_ge. rewrite memcpy_length; lia. }
    symmetry. apply take_ge. rewrite length_app, length_drop. lia.
  - cbn [take]. rewrite drop_ge; [done | lia].
Qed.

(** Complete chunks straight from the data. *)
Lemma absorbed_blocks h m d n : absorbed h m -> (length m mod size = 0)%nat -> length d = (size * n)%nat ->
  absorbed (mkHasher (Transforms n (hs h) d) (hbuf h) (u64 (hbytes h + Z.of_nat (length d)))) (m ++ d).
Proof using size_pos.
  intros (Hb & Hl & Hs & Ht) Hr Hd. pose proof (Nat.div_mod (length m) size ltac:(lia)) as E.
  set (q := (length m / size)%nat) in *.
  assert (length (m ++ d) = (size * (q + n))%nat) as El by (rewrite length_app; lia).
  destruct (aligned_div _ _ El) as [Hq Hr0]. unfold absorbed. cbn [hbytes hbuf hs]. rewrite Hq, Hr0.
  split; [rewrite Hb, u64_add, length_app; f_equal; lia |]. split; [done |]. split.
  - rewrite Transforms_app, Transforms_prefix, <- Hs, drop_app_length' by lia. done.
  - cbn [take]. rewrite drop_ge; [done | lia].
Qed.

Lemma write_rest_absorbed h m d : absorbed h m -> (length m mod size + length d < size)%nat ->
  absorbed (write_rest h (length m mod size) d) (m ++ d).
Proof using size_pos.
  intros Hm Hd. unfold write_rest. destruct (Nat.ltb_spec 0 (length d)); [by apply absorbed_partial |].
  destruct d; [by rewrite app_nil_r | cbn in *; lia].
Qed.

Lemma write_aligned_absorbed h m d : absorbed h m -> (length m mod size = 0)%nat ->
  absorbed (let '(h, d) := write_blocks h d in write_rest h 0 d) (m ++ d).
Proof using size_pos.
  intros Hm Hr0. unfold write_blocks. pose proof (Nat.Div0.mul_div_le (length d) size) as Hle.
  pose proof (Nat.div_mod (length d) size ltac:(lia)) as E. pose proof (Nat.mod_upper_bound (length d) size ltac:(lia)) as Hlt.
  destruct (Nat.leb_spec size (length d)); [| rewrite <- Hr0; apply write_rest_absorbed; [done | lia]].
  set (n := (length d / size)%nat) in *.
  assert (length (take (size * n) d) = (size * n)%nat) as Etk by (rewrite length_take; lia).
  pose proof (absorbed_blocks h m (take (size * n) d) n Hm Hr0 Etk) as Hb. rewrite Etk in Hb.
  assert ((length (m ++ take (size * n) d) mod size = 0)%nat) as Hr1
    by (rewrite length_app, Etk, Nat.mul_comm, Nat.Div0.mod_add; done).
  rewrite <- (take_drop (size * n) d) at 3. rewrite app_assoc, <- Hr1.
  apply write_rest_absorbed; [| rewrite Hr1, length_drop; lia].
  rewrite <- (take_drop (size * n) d) at 1. by rewrite Transforms_prefix by lia.
Qed.

Lemma hasher_Write_absorbed h m d : absorbed h m -> absorbed (hasher_Write h d) (m ++ d).
Proof using size_pos size_divides.
  intros Hm. unfold hasher_Write. rewrite (proj1 Hm), bytes_mod, <- (proj1 Hm).
  set (r := (length m mod size)%nat). assert (r < size)%nat as Hr by (apply Nat.mod_upper_bound; lia).
  destruct (Nat.ltb_spec 0 r) as [Hpos | Hz]; cbn [andb].
  - destruct (Nat.leb_spec size (r + length d)) as [Hge | Hlt].
    + assert (length (take (size - r) d) = (size - r)%nat) as Etk by (rewrite length_take; lia).
      pose proof (absorbed_fill h m (take (size - r) d) Hm Hpos) as Hf. fold r in Hf. specialize (Hf ltac:(lia)). cbn zeta in Hf.
      rewrite Etk in Hf.
      replace (m ++ d) with ((m ++ take (size - r) d) ++ drop (size - r) d) by (by rewrite <- app_assoc, take_drop).
      apply (write_aligned_absorbed _ _ _ Hf).
      rewrite length_app, Etk. pose proof (Nat.div_mod (length m) size ltac:(lia)) as E. fold r in E.
      replace (length m + (size - r))%nat with ((length m / size + 1) * size)%nat by lia. apply Nat.Div0.mod_mul.
    + unfold write_blocks. destruct (Nat.leb_spec size (length d)); [lia |]. apply write_rest_absorbed; [done |]. fold r. lia.
  - assert (r = 0%nat) as Hr0 by lia. rewrite Hr0. by apply (write_aligned_absorbed h m d).
Qed.

(** ** Digests *)

(** The padded message: a one bit, zeroes up to the next complete chunk less
    the length field, the length in bits. *)
Definition padded (m : list Z) : list Z :=
  m ++ 0x80 :: replicate (Z.to_nat ((padbase - Z.of_nat (length m)) mod Z.of_nat size)) 0 ++
  sizedesc (u64 (8 * Z.of_nat (length m))).

Definition md_state (m : list Z) : State := Transforms (length (padded m) / size) Initialize (padded m).

(** The length field fits below the padding. *)
Context (desc_length : forall n, Z.of_nat (length (sizedesc n)) = 2 * Z.of_nat size - 1 - padbase).

Lemma padded_aligned m : (length (padded m) mod size = 0)%nat.
Proof using size_pos desc_length.
  unfold padded. rewrite !length_app. cbn [length]. rewrite length_app, length_replicate.
  apply Nat2Z.inj. rewrite Nat2Z.inj_mod. set (k := (padbase - Z.of_nat (length m)) mod Z.of_nat size).
  assert (0 <= k) by (apply Z.mod_pos_bound; lia). rewrite Nat2Z.inj_add, Nat2Z.inj_succ, Nat2Z.inj_add, Z2Nat.id, desc_length by lia.
  pose proof (Z.div_mod (padbase - Z.of_nat (length m)) (Z.of_nat size) ltac:(lia)) as E. fold k in E.
  replace (_ + Z.succ _) with ((2 - (padbase - Z.of_nat (length m)) / Z.of_nat size) * Z.of_nat size) by lia.
  apply Z.mod_mul. lia.
Qed.

Lemma hasher_pad_absorbed h m : absorbed h m -> absorbed (hasher_pad h) (padded m).
Proof using size_pos size_divides.
  intros Hm. unfold hasher_pad. set (n := Z.to_nat _).
  assert (n = S (Z.to_nat ((padbase - Z.of_nat (length m)) mod Z.of_nat size))) as En.
  { unfold n. rewrite (proj1 Hm). pose proof (Z.mod_pos_bound (padbase - Z.of_nat (length m)) (Z.of_nat size)).
    assert (u64 (Z.of_nat (length m)) mod Z.of_nat size = Z.of_nat (length m mod size)) as ->.
    { rewrite <- (bytes_mod m), Z2Nat.id; [done |]. apply Z.mod_pos_bound. lia. }
    rewrite Nat2Z.inj_mod, Zminus_mod_idemp_r. lia. }
  assert (take n pad = 0x80 :: replicate (Z.to_nat ((padbase - Z.of_nat (length m)) mod Z.of_nat size)) 0) as ->.
  { rewrite En. unfold pad. cbn [take]. f_equal. rewrite take_replicate. f_equal.
    pose proof (Z.mod_pos_bound (padbase - Z.of_nat (length m)) (Z.of_nat size)). lia. }
  assert (u64 (Z.shiftl (hbytes h) 3) = u64 (8 * Z.of_nat (length m))) as ->.
  { rewrite (proj1 Hm), Z.shiftl_mul_pow2 by lia. unfold wrapu. rewrite Zmult_mod_idemp_l. f_equal. lia. }
  unfold padded. rewrite app_comm_cons, app_assoc. by do 2 apply hasher_Write_absorbed.
Qed.

Lemma hasher_Writes_absorbed parts : forall h m, absorbed h m -> absorbed (fold_left hasher_Write parts h) (m ++ concat parts).
Proof using size_pos size_divides.
  induction parts as [| d parts IH]; intros h m Hm; cbn [fold_left concat]; [by rewrite app_nil_r |].
  rewrite app_assoc. by apply IH, hasher_Write_absorbed.
Qed.

Lemma hasher_Reset_absorbed h m : absorbed h m -> absorbed (hasher_Reset h) [].
Proof using size_pos. intros (_ & Hl & _). by apply (hasher_new_absorbed (hbuf h)). Qed.

(** The state after the padding is the one of the padded message, whatever
    the pieces it was written in. *)
Lemma hasher_pad_state buf parts : length buf = size ->
  hs (hasher_pad (fold_left hasher_Write parts (hasher_new buf))) = md_state (concat parts).
Proof using size_pos size_divides.
  intros Hl. pose proof (hasher_Writes_absorbed parts _ [] (hasher_new_absorbed buf Hl)) as Ha.
  by apply hasher_pad_absorbed in Ha as (_ & _ & Hs & _).
Qed.
End Hasher.
