(* ===== verification/Sha2.v ===== *)
(** * SHA-256 and SHA-512 ([src/crypto/sha256.cpp], [src/crypto/sha512.cpp])

    The unrolled rounds of [Transform] are the iterations of a loop: each call
    [Round(a, b, c, d, e, f, g, h, k, w)] is followed by the one with the
    arguments rotated to the right, and the sixteen variables [w0 ... w15] are
    an array in which round [i] overwrites entry [i mod 16].  The algorithms
    are compared with the text of FIPS 180-4, where the message schedule has
    one word per round. *)

From stdpp Require Import list.
From S2P Require Import Prelude Bytes MerkleDamgard.

(** The eight working variables, in the order of the arguments of [Round]. *)
Record Regs := mkRegs { ra : Z; rb : Z; rc : Z; rd : Z; re : Z; rf : Z; rg : Z; rh : Z }.

Definition regs_list (r : Regs) : list Z := [ra r; rb r; rc r; rd r; re r; rf r; rg r; rh r].

(** [x >> n | x << (w - n)] *)
Definition rotr (w x n : Z) : Z := Z.lor (Z.shiftr x n) (wrapu w (Z.shiftl x (w - n))).

Definition Ch (x y z : Z) : Z := Z.lxor z (Z.land x (Z.lxor y z)).
Definition Maj (x y z : Z) : Z := Z.lor (Z.land x y) (Z.land z (Z.lor x y)).

Section Sha2.
(** The word size, the number of bytes of a word, the functions and the round
    constants. *)
Variable (w : Z) (wbytes : nat) (Sigma0 Sigma1 sigma0 sigma1 : Z -> Z) (K : list Z) (Read : list Z -> Z).

(** [Round]: the new values of [d] and [h], returned as the arguments of the
    next call. *)
Definition sha2_Round (r : Regs) (k x : Z) : Regs :=
  let t1 := wrapu w (rh r + Sigma1 (re r) + Ch (re r) (rf r) (rg r) + k + x) in
  let t2 := wrapu w (Sigma0 (ra r) + Maj (ra r) (rb r) (rc r)) in
  mkRegs (wrapu w (t1 + t2)) (ra r) (rb r) (rc r) (wrapu w (rd r + t1)) (re r) (rf r) (rg r).

Definition sha2_word (chunk ws : list Z) (i : nat) : Z :=
  if (i <? 16)%nat then Read (drop (wbytes * i) chunk)
  else wrapu w (nth (i mod 16) ws 0 +
    wrapu w (sigma1 (nth ((i + 14) mod 16) ws 0) + nth ((i + 9) mod 16) ws 0 + sigma0 (nth ((i + 1) mod 16) ws 0))).

Definition sha2_step (chunk : list Z) (st : Regs * list Z) (i : nat) : Regs * list Z :=
  let x := sha2_word chunk st.2 i in
  (sha2_Round st.1 (nth i K 0) x, <[(i mod 16)%nat := x]> st.2).

Definition add_regs (s r : Regs) : Regs :=
  mkRegs (wrapu w (ra s + ra r)) (wrapu w (rb s + rb r)) (wrapu w (rc s + rc r)) (wrapu w (rd s + rd r))
    (wrapu w (re s + re r)) (wrapu w (rf s + rf r)) (wrapu w (rg s + rg r)) (wrapu w (rh s + rh r)).

Definition sha2_Transform (s : Regs) (chunk : list Z) : Regs :=
  add_regs s (for_n (length K) (sha2_step chunk) (s, replicate 16 0)).1.
End Sha2.

(** ** SHA-256 *)

Module Sha256.
Definition Sigma0 (x : Z) : Z := Z.lxor (Z.lxor (rotr 32 x 2) (rotr 32 x 13)) (rotr 32 x 22).
Definition Sigma1 (x : Z) : Z := Z.lxor (Z.lxor (rotr 32 x 6) (rotr 32 x 11)) (rotr 32 x 25).
Definition sigma0 (x : Z) : Z := Z.lxor (Z.lxor (rotr 32 x 7) (rotr 32 x 18)) (Z.shiftr x 3).
Definition sigma1 (x : Z) : Z := Z.lxor (Z.lxor (rotr 32 x 17) (rotr 32 x 19)) (Z.shiftr x 10).

Definition K : list Z := concat
  [[0x428a2f98; 0x71374491; 0xb5c0fbcf; 0xe9b5dba5; 0x3956c25b; 0x59f111f1; 0x923f82a4; 0xab1c5ed5];
   [0xd807aa98; 0x12835b01; 0x243185be; 0x550c7dc3; 0x72be5d74; 0x80deb1fe; 0x9bdc06a7; 0xc19bf174];
   [0xe49b69c1; 0xefbe4786; 0x0fc19dc6; 0x240ca1cc; 0x2de92c6f; 0x4a7484aa; 0x5cb0a9dc; 0x76f988da];
   [0x983e5152; 0xa831c66d; 0xb00327c8; 0xbf597fc7; 0xc6e00bf3; 0xd5a79147; 0x06ca6351; 0x14292967];
   [0x27b70a85; 0x2e1b2138; 0x4d2c6dfc; 0x53380d13; 0x650a7354; 0x766a0abb; 0x81c2c92e; 0x92722c85];
   [0xa2bfe8a1; 0xa81a664b; 0xc24b8b70; 0xc76c51a3; 0xd192e819; 0xd6990624; 0xf40e3585; 0x106aa070];
   [0x19a4c116; 0x1e376c08; 0x2748774c; 0x34b0bcb5; 0x391c0cb3; 0x4ed8aa4a; 0x5b9cca4f; 0x682e6ff3];
   [0x748f82ee; 0x78a5636f; 0x84c87814; 0x8cc70208; 0x90befffa; 0xa4506ceb; 0xbef9a3f7; 0xc67178f2]].

Definition Initialize : Regs :=
  mkRegs 0x6a09e667 0xbb67ae85 0x3c6ef372 0xa54ff53a 0x510e527f 0x9b05688c 0x1f83d9ab 0x5be0cd19.

Definition Transform : Regs -> list Z -> Regs := sha2_Transform 32 4 Sigma0 Sigma1 sigma0 sigma1 K ReadBE32.

Definition Write : Hasher -> list Z -> Hasher := hasher_Write 64 Transform.

Definition Finalize (h : Hasher) : list Z :=
  concat (map WriteBE32 (regs_list (hs (hasher_pad 64 Transform 119 WriteBE64 h)))).

(** [SelfTest] for a function that processes a number of chunks. *)
Definition in1 : list Z := 0x80 :: replicate 63 0.
Definition in2 : list Z := replicate 64 32 ++ 0x80 :: replicate 61 0 ++ [2; 0].
Definition out1 : list Z :=
  [0xe3b0c442; 0x98fc1c14; 0x9afbf4c8; 0x996fb924; 0x27ae41e4; 0x649b934c; 0xa495991b; 0x7852b855].
Definition out2 : list Z :=
  [0xce4153b0; 0x147c2a86; 0x3ed4298e; 0xe0676bc8; 0x79fc77a1; 0x2abe1f49; 0xb2b055df; 0x1069523e].

Definition SelfTest (tr : nat -> Regs -> list Z -> Regs) : bool :=
  bool_decide (regs_list (tr 0%nat Initialize []) = regs_list Initialize) &&
  bool_decide (regs_list (tr 1%nat Initialize in1) = out1) &&
  bool_decide (regs_list (tr 2%nat Initialize in2) = out2).
End Sha256.

(** ** SHA-512 *)

Module Sha512.
Definition Sigma0 (x : Z) : Z := Z.lxor (Z.lxor (rotr 64 x 28) (rotr 64 x 34)) (rotr 64 x 39).
Definition Sigma1 (x : Z) : Z := Z.lxor (Z.lxor (rotr 64 x 14) (rotr 64 x 18)) (rotr 64 x 41).
Definition sigma0 (x : Z) : Z := Z.lxor (Z.lxor (rotr 64 x 1) (rotr 64 x 8)) (Z.shiftr x 7).
Definition sigma1 (x : Z) : Z := Z.lxor (Z.lxor (rotr 64 x 19) (rotr 64 x 61)) (Z.shiftr x 6).

Definition K : list Z :=
  [
   0x428a2f98d728ae22; 0x7137449123ef65cd; 0xb5c0fbcfec4d3b2f; 0xe9b5dba58189dbbc;
   0x3956c25bf348b538; 0x59f111f1b605d019; 0x923f82a4af194f9b; 0xab1c5ed5da6d8118;
   0xd807aa98a3030242; 0x12835b0145706fbe; 0x243185be4ee4b28c; 0x550c7dc3d5ffb4e2;
   0x72be5d74f27b896f; 0x80deb1fe3b1696b1; 0x9bdc06a725c71235; 0xc19bf174cf692694;
   0xe49b69c19ef14ad2; 0xefbe4786384f25e3; 0x0fc19dc68b8cd5b5; 0x240ca1cc77ac9c65;
   0x2de92c6f592b0275; 0x4a7484aa6ea6e483; 0x5cb0a9dcbd41fbd4; 0x76f988da831153b5;
   0x983e5152ee66dfab; 0xa831c66d2db43210; 0xb00327c898fb213f; 0xbf597fc7beef0ee4;
   0xc6e00bf33da88fc2; 0xd5a79147930aa725; 0x06ca6351e003826f; 0x142929670a0e6e70;
   0x27b70a8546d22ffc; 0x2e1b21385c26c926; 0x4d2c6dfc5ac42aed; 0x53380d139d95b3df;
   0x650a73548baf63de; 0x766a0abb3c77b2a8; 0x81c2c92e47edaee6; 0x92722c851482353b;
   0xa2bfe8a14cf10364; 0xa81a664bbc423001; 0xc24b8b70d0f89791; 0xc76c51a30654be30;
   0xd192e819d6ef5218; 0xd69906245565a910; 0xf40e35855771202a; 0x106aa07032bbd1b8;
   0x19a4c116b8d2d0c8; 0x1e376c085141ab53; 0x2748774cdf8eeb99; 0x34b0bcb5e19b48a8;
   0x391c0cb3c5c95a63; 0x4ed8aa4ae3418acb; 0x5b9cca4f7763e373; 0x682e6ff3d6b2b8a3;
   0x748f82ee5defb2fc; 0x78a5636f43172f60; 0x84c87814a1f0ab72; 0x8cc702081a6439ec;
   0x90befffa23631e28; 0xa4506cebde82bde9; 0xbef9a3f7b2c67915; 0xc67178f2e372532b;
   0xca273eceea26619c; 0xd186b8c721c0c207; 0xeada7dd6cde0eb1e; 0xf57d4f7fee6ed178;
   0x06f067aa72176fba; 0x0a637dc5a2c898a6; 0x113f9804bef90dae; 0x1b710b35131c471b;
   0x28db77f523047d84; 0x32caab7b40c72493; 0x3c9ebe0a15c9bebc; 0x431d67c49c100d4c;
   0x4cc5d4becb3e42b6; 0x597f299cfc657e2a; 0x5fcb6fab3ad6faec; 0x6c44198c4a475817].

Definition Initialize : Regs :=
  mkRegs 0x6a09e667f3bcc908 0xbb67ae8584caa73b 0x3c6ef372fe94f82b 0xa54ff53a5f1d36f1
    0x510e527fade682d1 0x9b05688c2b3e6c1f 0x1f83d9abfb41bd6b 0x5be0cd19137e2179.

Definition Transform : Regs -> list Z -> Regs := sha2_Transform 64 8 Sigma0 Sigma1 sigma0 sigma1 K ReadBE64.

Definition Write : Hasher -> list Z -> Hasher := hasher_Write 128 Transform.

Definition Finalize (h : Hasher) : list Z :=
  concat (map WriteBE64 (regs_list (hs (hasher_pad 128 Transform 239 (fun n => replicate 8 0 ++ WriteBE64 n) h)))).
End Sha512.

(** ** Message schedules *)

(** The first [n] words of a schedule, each a function of those before it, and
    the array of sixteen words that the code keeps instead. *)
Section Schedule.
Variable next : list Z -> nat -> Z.

Definition words (n : nat) : list Z := for_n n (fun W t => W ++ [next W t]) [].

Lemma words_length n : length (words n) = n.
Proof. unfold words. induction n as [| n IH]; [done |]. rewrite for_n_S, length_app, IH. cbn. lia. Qed.

Lemma words_S n : words (S n) = words n ++ [next (words n) n].
Proof. unfold words. by rewrite for_n_S. Qed.

Lemma words_last n : nth n (words (S n)) 0 = next (words n) n.
Proof. rewrite words_S, app_nth2, words_length, Nat.sub_diag by (rewrite words_length; lia). done. Qed.

Lemma words_nth n t : (t < n)%nat -> nth t (words n) 0 = nth t (words (S t)) 0.
Proof. induction 1 as [| m Hm IH]; [done |]. rewrite words_S, app_nth1 by (rewrite words_length; lia). exact IH. Qed.

(** The array holds the last sixteen words of the schedule. *)
Definition window (ws : list Z) (i : nat) : Prop :=
  length ws = 16%nat /\ forall t, (t < i)%nat -> (i <= t + 16)%nat -> nth (t mod 16) ws 0 = nth t (words (S t)) 0.

Lemma window_nth ws i k : window ws i -> (1 <= k <= 16)%nat -> (16 <= i)%nat ->
  nth ((i + (16 - k)) mod 16) ws 0 = nth (i - k) (words i) 0.
Proof.
  intros [_ Hw] Hk Hi. rewrite (words_nth i (i - k)), <- Hw by lia. f_equal.
  replace (i + (16 - k))%nat with ((i - k) + 1 * 16)%nat by lia. apply Nat.Div0.mod_add.
Qed.

Lemma window_step ws i : window ws i -> window (<[(i mod 16)%nat := nth i (words (S i)) 0]> ws) (S i).
Proof.
  intros [Hl Hw]. split; [by rewrite length_insert |]. intros t Ht Hi.
  pose proof (Nat.mod_upper_bound i 16 ltac:(lia)). destruct (decide (t = i)) as [-> | Hne].
  - rewrite nth_insert_eq by lia. done.
  - rewrite nth_insert_ne; [apply Hw; lia |]. intros E.
    pose proof (Nat.div_mod i 16 ltac:(lia)). pose proof (Nat.div_mod t 16 ltac:(lia)). lia.
Qed.
End Schedule.

(** ** The algorithms of FIPS 180-4 *)

Section Fips.
Variable (w : Z) (wbytes : nat) (Sigma0 Sigma1 sigma0 sigma1 : Z -> Z) (K : list Z) (Read : list Z -> Z).

(** Functions (4.2), (4.3) and (4.8), (4.9). *)
Definition fips_Ch (x y z : Z) : Z := Z.lxor (Z.land x y) (Z.land (wrapu w (Z.lnot x)) z).
Definition fips_Maj (x y z : Z) : Z := Z.lxor (Z.lxor (Z.land x y) (Z.land x z)) (Z.land y z).

(** The message schedule. *)
Definition sha2_next (chunk W : list Z) (t : nat) : Z :=
  if (t <? 16)%nat then Read (drop (wbytes * t) chunk)
  else wrapu w (sigma1 (nth (t - 2) W 0) + nth (t - 7) W 0 + sigma0 (nth (t - 15) W 0) + nth (t - 16) W 0).
Abbreviation schedule chunk := (words (sha2_next chunk)).

Definition fips_round (W : list Z) (r : Regs) (t : nat) : Regs :=
  let T1 := wrapu w (rh r + Sigma1 (re r) + fips_Ch (re r) (rf r) (rg r) + nth t K 0 + nth t W 0) in
  let T2 := wrapu w (Sigma0 (ra r) + fips_Maj (ra r) (rb r) (rc r)) in
  mkRegs (wrapu w (T1 + T2)) (ra r) (rb r) (rc r) (wrapu w (rd r + T1)) (re r) (rf r) (rg r).

Definition fips_compress (H : Regs) (chunk : list Z) : Regs :=
  let W := schedule chunk (length K) in
  add_regs w H (for_n (length K) (fips_round W) H).

Definition word_ok (x : Z) : Prop := 0 <= x < 2 ^ w.
Definition regs_ok (r : Regs) : Prop := Forall word_ok (regs_list r).

Context (w_pos : 0 < w).

Lemma Ch_fips x y z : word_ok z -> Ch x y z = fips_Ch x y z.
Proof using w_pos.
  intros Hz. unfold Ch, fips_Ch. apply Z.bits_inj'. intros n Hn.
  rewrite !Z.lxor_spec, !Z.land_spec, Z.lxor_spec, testbit_wrapu, Z.lnot_spec by lia.
  destruct (Z.ltb_spec n w) as [Hlt | Hge]; [by destruct (Z.testbit x n), (Z.testbit y n), (Z.testbit z n) |].
  rewrite (testbit_high w z n) by (unfold word_ok in Hz; lia). by destruct (Z.testbit x n), (Z.testbit y n).
Qed.

Lemma Maj_fips x y z : Maj x y z = fips_Maj x y z.
Proof.
  unfold Maj, fips_Maj. apply Z.bits_inj'. intros n Hn.
  rewrite !Z.lxor_spec, !Z.lor_spec, !Z.land_spec, Z.lor_spec. by destruct (Z.testbit x n), (Z.testbit y n), (Z.testbit z n).
Qed.

Lemma sha2_word_schedule chunk ws i : window (sha2_next chunk) ws i ->
  sha2_word w wbytes sigma0 sigma1 Read chunk ws i = nth i (schedule chunk (S i)) 0.
Proof using w_pos.
  intros Hw. unfold sha2_word. rewrite words_last. unfold sha2_next at 1. destruct (Nat.ltb_spec i 16); [done |].
  pose proof (window_nth _ ws i 2 Hw ltac:(lia) ltac:(lia)) as H2. pose proof (window_nth _ ws i 7 Hw ltac:(lia) ltac:(lia)) as H7.
  pose proof (window_nth _ ws i 15 Hw ltac:(lia) ltac:(lia)) as H15. pose proof (window_nth _ ws i 16 Hw ltac:(lia) ltac:(lia)) as H16.
  cbn [Nat.sub] in H2, H7, H15, H16. rewrite Nat.add_0_r in H16. rewrite H2, H7, H15, H16.
  unfold wrapu. rewrite Zplus_mod_idemp_r. f_equal. lia.
Qed.

Lemma regs_ok_spec r : regs_ok r <-> word_ok (ra r) /\ word_ok (rb r) /\ word_ok (rc r) /\ word_ok (rd r) /\
  word_ok (re r) /\ word_ok (rf r) /\ word_ok (rg r) /\ word_ok (rh r).
Proof. unfold regs_ok, regs_list. rewrite !Forall_cons, Forall_nil. split; intros H; decompose [and] H; auto 10. Qed.

Lemma wrapu_word_ok x : word_ok (wrapu w x).
Proof using w_pos. unfold word_ok. auto with machine. Qed.

Lemma sha2_Round_ok r k x : regs_ok r -> regs_ok (sha2_Round w Sigma0 Sigma1 r k x).
Proof using w_pos.
  rewrite !regs_ok_spec. intros (Ha & Hb & Hc & Hd & He & Hf & Hg & Hh). unfold sha2_Round. cbn.
  repeat split; try apply wrapu_word_ok; first [apply Ha | apply Hb | apply Hc | apply He | apply Hf | apply Hg].
Qed.

Lemma add_regs_ok s r : regs_ok (add_regs w s r).
Proof using w_pos. rewrite regs_ok_spec. unfold add_regs. cbn. repeat split; apply wrapu_word_ok. Qed.

(** [Transform] is the compression function of the standard. *)
Lemma sha2_Transform_fips s chunk : regs_ok s ->
  sha2_Transform w wbytes Sigma0 Sigma1 sigma0 sigma1 K Read s chunk = fips_compress s chunk.
Proof using w_pos.
  intros Hs. unfold sha2_Transform, fips_compress. f_equal.
  set (W := schedule chunk (length K)).
  enough (forall n, (n <= length K)%nat -> exists ws,
    for_n n (sha2_step w wbytes Sigma0 Sigma1 sigma0 sigma1 K Read chunk) (s, replicate 16 0) =
      (for_n n (fips_round W) s, ws) /\ window (sha2_next chunk) ws n /\ regs_ok (for_n n (fips_round W) s)) as H.
  { destruct (H (length K) ltac:(lia)) as (ws & -> & _). done. }
  induction n as [| n IH]; intros Hn.
  { exists (replicate 16 0). split; [done |]. split; [split; [done | intros; lia] | done]. }
  destruct (IH ltac:(lia)) as (ws & E & Hw & Hr). rewrite !for_n_S, E. unfold sha2_step. cbn [fst snd].
  rewrite (sha2_word_schedule chunk ws n Hw). set (r := for_n n (fips_round W) s) in *.
  assert (sha2_Round w Sigma0 Sigma1 r (nth n K 0) (nth n (schedule chunk (S n)) 0) = fips_round W r n) as Er.
  { unfold sha2_Round, fips_round. rewrite Ch_fips, Maj_fips by (apply regs_ok_spec in Hr; apply Hr).
    unfold W. rewrite (words_nth _ (length K) n) by lia. done. }
  rewrite <- Er. eexists. split; [done |]. split; [by apply window_step | by apply sha2_Round_ok].
Qed.

Lemma Transforms_fips size n : forall s m, regs_ok s ->
  Transforms size (sha2_Transform w wbytes Sigma0 Sigma1 sigma0 sigma1 K Read) n s m =
  Transforms size fips_compress n s m.
Proof using w_pos.
  induction n as [| n IH]; intros s m Hs; [done |]. cbn [Transforms]. rewrite sha2_Transform_fips by done.
  apply IH, add_regs_ok.
Qed.
End Fips.
