(* ===== verification/Hashes.v ===== *)
(** * RIPEMD-160, SHA-1 and the hashes built from them
      ([src/crypto/ripemd160.cpp], [src/crypto/sha1.cpp], [src/hash.h],
      [src/crypto/hmac_sha256.cpp], [src/crypto/hmac_sha512.cpp])

    As in [Sha2], the unrolled rounds are loops over tables and the arguments
    of a call are those of the one before rotated to the right. *)

From Stdlib Require Import String.
From stdpp Require Import list.
From S2P Require Import Prelude Text Bytes MerkleDamgard Sha2.

Record Regs5 := mkRegs5 { qa : Z; qb : Z; qc : Z; qd : Z; qe : Z }.

Definition regs5_list (r : Regs5) : list Z := [qa r; qb r; qc r; qd r; qe r].

Definition Initialize5 : Regs5 := mkRegs5 0x67452301 0xEFCDAB89 0x98BADCFE 0x10325476 0xC3D2E1F0.

(** [(x << i) | (x >> (32 - i))] *)
Definition rol (x i : Z) : Z := Z.lor (u32 (Z.shiftl x i)) (Z.shiftr x (32 - i)).

Definition not32 (x : Z) : Z := u32 (Z.lnot x).

(** ** RIPEMD-160 *)

Module Ripemd160.
Definition f1 (x y z : Z) : Z := Z.lxor (Z.lxor x y) z.
Definition f2 (x y z : Z) : Z := Z.lor (Z.land x y) (Z.land (not32 x) z).
Definition f3 (x y z : Z) : Z := Z.lxor (Z.lor x (not32 y)) z.
Definition f4 (x y z : Z) : Z := Z.lor (Z.land x z) (Z.land y (not32 z)).
Definition f5 (x y z : Z) : Z := Z.lxor x (Z.lor y (not32 z)).

(** The arguments of the next call after [Round(a, b, c, d, e, f, x, k, r)]. *)
Definition Round (q : Regs5) (f : Z -> Z -> Z -> Z) (x k r : Z) : Regs5 :=
  let a := u32 (rol (u32 (qa q + f (qb q) (qc q) (qd q) + x + k)) r + qe q) in
  mkRegs5 (qe q) a (qb q) (rol (qc q) 10) (qd q).

(** The functions and constants of [R11 ... R51] and of [R12 ... R52]. *)
Definition left_rounds : list ((Z -> Z -> Z -> Z) * Z) :=
  [(f1, 0); (f2, 0x5A827999); (f3, 0x6ED9EBA1); (f4, 0x8F1BBCDC); (f5, 0xA953FD4E)].
Definition right_rounds : list ((Z -> Z -> Z -> Z) * Z) :=
  [(f5, 0x50A28BE6); (f4, 0x5C4DD124); (f3, 0x6D703EF3); (f2, 0x7A6D76E9); (f1, 0)].

(** The word and the rotation of each call. *)
Definition left_words : list nat :=
  [0; 1; 2; 3; 4; 5; 6; 7; 8; 9; 10; 11; 12; 13; 14; 15;
   7; 4; 13; 1; 10; 6; 15; 3; 12; 0; 9; 5; 2; 14; 11; 8;
   3; 10; 14; 4; 9; 15; 8; 1; 2; 7; 0; 6; 13; 11; 5; 12;
   1; 9; 11; 10; 0; 8; 12; 4; 13; 3; 7; 15; 14; 5; 6; 2;
   4; 0; 5; 9; 7; 12; 2; 10; 14; 1; 3; 8; 11; 6; 15; 13]%nat.
Definition left_shifts : list Z :=
  [11; 14; 15; 12; 5; 8; 7; 9; 11; 13; 14; 15; 6; 7; 9; 8;
   7; 6; 8; 13; 11; 9; 7; 15; 7; 12; 15; 9; 11; 7; 13; 12;
   11; 13; 6; 7; 14; 9; 13; 15; 14; 8; 13; 6; 5; 12; 7; 5;
   11; 12; 14; 15; 14; 15; 9; 8; 9; 14; 5; 6; 8; 6; 5; 12;
   9; 15; 5; 11; 6; 8; 13; 12; 5; 12; 13; 14; 11; 8; 5; 6].
Definition right_words : list nat :=
  [5; 14; 7; 0; 9; 2; 11; 4; 13; 6; 15; 8; 1; 10; 3; 12;
   6; 11; 3; 7; 0; 13; 5; 10; 14; 15; 8; 12; 4; 9; 1; 2;
   15; 5; 1; 3; 7; 14; 6; 9; 11; 8; 12; 2; 10; 0; 4; 13;
   8; 6; 4; 1; 3; 11; 15; 0; 5; 12; 2; 13; 9; 7; 10; 14;
   12; 15; 10; 4; 1; 5; 8; 7; 6; 2; 13; 14; 0; 3; 9; 11]%nat.
Definition right_shifts : list Z :=
  [8; 9; 9; 11; 13; 15; 15; 5; 7; 7; 8; 11; 14; 14; 12; 6;
   9; 13; 15; 7; 12; 8; 9; 11; 7; 7; 12; 7; 6; 15; 13; 11;
   9; 7; 15; 11; 8; 6; 6; 14; 12; 13; 5; 14; 13; 13; 7; 5;
   15; 5; 8; 11; 14; 14; 6; 14; 6; 9; 12; 9; 12; 5; 15; 8;
   8; 5; 12; 9; 12; 5; 14; 6; 8; 13; 6; 5; 15; 13; 11; 11].

Definition line (rounds : list ((Z -> Z -> Z -> Z) * Z)) (words : list nat) (shifts : list Z) (chunk : list Z) (q : Regs5) : Regs5 :=
  for_n 80 (fun q i =>
    let '(f, k) := nth (i / 16) rounds (f1, 0) in
    Round q f (ReadLE32 (drop (4 * nth i words 0%nat) chunk)) k (nth i shifts 0)) q.

Definition Transform (s : Regs5) (chunk : list Z) : Regs5 :=
  let l := line left_rounds left_words left_shifts chunk s in
  let r := line right_rounds right_words right_shifts chunk s in
  mkRegs5 (u32 (qb s + qc l + qd r)) (u32 (qc s + qd l + qe r)) (u32 (qd s + qe l + qa r))
    (u32 (qe s + qa l + qb r)) (u32 (qa s + qb l + qc r)).

Definition Write : Hasher -> list Z -> Hasher := hasher_Write 64 Transform.

Definition Finalize (h : Hasher) : list Z :=
  concat (map WriteLE32 (regs5_list (hs (hasher_pad 64 Transform 119 WriteLE64 h)))).
End Ripemd160.

(** ** SHA-1 *)

Module Sha1.
Definition f1 (b c d : Z) : Z := Z.lxor d (Z.land b (Z.lxor c d)).
Definition f2 (b c d : Z) : Z := Z.lxor (Z.lxor b c) d.
Definition f3 (b c d : Z) : Z := Z.lor (Z.land b c) (Z.land d (Z.lor b c)).

Definition left (x : Z) : Z := rol x 1.

(** [Round(a, b, c, d, e, f, k, w)]: [e] and [b] change. *)
Definition Round (q : Regs5) (f : Z -> Z -> Z -> Z) (k x : Z) : Regs5 :=
  let e := u32 (qe q + u32 (rol (qa q) 5 + f (qb q) (qc q) (qd q) + k + x)) in
  mkRegs5 e (qa q) (rol (qb q) 30) (qc q) (qd q).

Definition rounds : list ((Z -> Z -> Z -> Z) * Z) :=
  [(f1, 0x5A827999); (f2, 0x6ED9EBA1); (f3, 0x8F1BBCDC); (f2, 0xCA62C1D6)].

Definition word (chunk ws : list Z) (i : nat) : Z :=
  if (i <? 16)%nat then ReadBE32 (drop (4 * i) chunk)
  else left (Z.lxor (Z.lxor (Z.lxor (nth (i mod 16) ws 0) (nth ((i + 13) mod 16) ws 0)) (nth ((i + 8) mod 16) ws 0))
    (nth ((i + 2) mod 16) ws 0)).

Definition step (chunk : list Z) (st : Regs5 * list Z) (i : nat) : Regs5 * list Z :=
  let x := word chunk st.2 i in
  let '(f, k) := nth (i / 20) rounds (f1, 0) in
  (Round st.1 f k x, <[(i mod 16)%nat := x]> st.2).

Definition Transform (s : Regs5) (chunk : list Z) : Regs5 :=
  let r := (for_n 80 (step chunk) (s, replicate 16 0)).1 in
  mkRegs5 (u32 (qa s + qa r)) (u32 (qb s + qb r)) (u32 (qc s + qc r)) (u32 (qd s + qd r)) (u32 (qe s + qe r)).

Definition Write : Hasher -> list Z -> Hasher := hasher_Write 64 Transform.

Definition Finalize (h : Hasher) : list Z :=
  concat (map WriteBE32 (regs5_list (hs (hasher_pad 64 Transform 119 WriteBE64 h)))).
End Sha1.

(** ** Double hashes ([CHash256] and [CHash160])

    The buffers of new hashers are not initialised; the digests do not depend
    on what they hold. *)

Definition CSHA256 : Hasher := hasher_new Sha256.Initialize (replicate 64 0).
Definition CSHA512 : Hasher := hasher_new Sha512.Initialize (replicate 128 0).
Definition CRIPEMD160 : Hasher := hasher_new Initialize5 (replicate 64 0).
Definition CSHA1 : Hasher := hasher_new Initialize5 (replicate 64 0).

(** The second pass reuses the hasher the first one has padded. *)
Definition CHash256_Finalize (sha : Hasher) : list Z :=
  let buf := Sha256.Finalize sha in
  let sha := hasher_pad 64 Sha256.Transform 119 WriteBE64 sha in
  Sha256.Finalize (Sha256.Write (hasher_Reset Sha256.Initialize sha) buf).

Definition CHash160_Finalize (sha : Hasher) : list Z :=
  Ripemd160.Finalize (Ripemd160.Write CRIPEMD160 (Sha256.Finalize sha)).

(** [Hash] of the concatenation of several ranges. *)
Definition Hash (parts : list (list Z)) : list Z := CHash256_Finalize (fold_left Sha256.Write parts CSHA256).

Definition Hash160 (vch : list Z) : list Z := CHash160_Finalize (Sha256.Write CSHA256 vch).

(** ** HMAC *)

Definition xor_bytes (x : Z) (l : list Z) : list Z := map (fun b => Z.lxor b x) l.

Section Hmac.
Context {State : Type}.
Variable (block out : nat) (new : Hasher (State := State)) (Write : Hasher (State := State) -> list Z -> Hasher (State := State))
  (Finalize : Hasher (State := State) -> list Z).

(** The hashers [outer] and [inner]. *)
Definition hmac_new (key : list Z) : Hasher * Hasher :=
  let rkey := if (length key <=? block)%nat then key ++ replicate (block - length key) 0
              else Finalize (Write new key) ++ replicate (block - out) 0 in
  let rkey := xor_bytes 0x5c rkey in
  let outer := Write new rkey in
  let rkey := xor_bytes (Z.lxor 0x5c 0x36) rkey in
  (outer, Write new rkey).

Definition hmac_Finalize (h : Hasher * Hasher) : list Z := Finalize (Write h.1 (Finalize h.2)).
End Hmac.

Definition CHMAC_SHA256 : list Z -> Hasher * Hasher := hmac_new 64 32 CSHA256 Sha256.Write Sha256.Finalize.
Definition CHMAC_SHA256_Finalize : Hasher * Hasher -> list Z := hmac_Finalize Sha256.Write Sha256.Finalize.
Definition CHMAC_SHA512 : list Z -> Hasher * Hasher := hmac_new 128 64 CSHA512 Sha512.Write Sha512.Finalize.
Definition CHMAC_SHA512_Finalize : Hasher * Hasher -> list Z := hmac_Finalize Sha512.Write Sha512.Finalize.

(** [num] is [nChild] in big-endian order. *)
Definition BIP32Hash (chainCode : list Z) (nChild header : Z) (data : list Z) : list Z :=
  let num := [Z.land (Z.shiftr nChild 24) 0xFF; Z.land (Z.shiftr nChild 16) 0xFF;
              Z.land (Z.shiftr nChild 8) 0xFF; Z.land (Z.shiftr nChild 0) 0xFF] in
  let '(outer, inner) := CHMAC_SHA512 chainCode in
  CHMAC_SHA512_Finalize (outer, fold_left Sha512.Write [[header]; data; num] inner).

(** ** MurmurHash3 *)

Definition ROTL32 (x r : Z) : Z := rol x r.

Definition murmur_c1 : Z := 0xcc9e2d51.
Definition murmur_c2 : Z := 0x1b873593.
Definition murmur_mix (k1 : Z) : Z := u32 (ROTL32 (u32 (k1 * murmur_c1)) 15 * murmur_c2).

Definition murmur_body (vDataToHash : list Z) (h1 : Z) : Z :=
  for_n (length vDataToHash / 4) (fun h1 i =>
    let k1 := murmur_mix (ReadLE32 (drop (4 * i) vDataToHash)) in
    u32 (ROTL32 (Z.lxor h1 k1) 13 * 5 + 0xe6546b64)) h1.

(** The cases of the [switch] fall through. *)
Definition murmur_tail (tail : list Z) (h1 : Z) : Z :=
  let k1 := 0 in
  let k1 := if (length tail =? 3)%nat then Z.lxor k1 (Z.shiftl (nth 2 tail 0) 16) else k1 in
  let k1 := if (2 <=? length tail)%nat then Z.lxor k1 (Z.shiftl (nth 1 tail 0) 8) else k1 in
  if (1 <=? length tail)%nat then Z.lxor h1 (murmur_mix (Z.lxor k1 (nth 0 tail 0))) else h1.

Definition MurmurHash3 (nHashSeed : Z) (vDataToHash : list Z) : Z :=
  let h1 := murmur_body vDataToHash nHashSeed in
  let h1 := murmur_tail (drop (length vDataToHash / 4 * 4) vDataToHash) h1 in
  let h1 := Z.lxor h1 (u32 (Z.of_nat (length vDataToHash))) in
  let h1 := Z.lxor h1 (Z.shiftr h1 16) in
  let h1 := u32 (h1 * 0x85ebca6b) in
  let h1 := Z.lxor h1 (Z.shiftr h1 13) in
  let h1 := u32 (h1 * 0xc2b2ae35) in
  Z.lxor h1 (Z.shiftr h1 16).

(** ** SipHash *)

Definition ROTL (x b : Z) : Z := Z.lor (u64 (Z.shiftl x b)) (Z.shiftr x (64 - b)).

Record SipState := mkSip { sv0 : Z; sv1 : Z; sv2 : Z; sv3 : Z }.

Definition SIPROUND (v : SipState) : SipState :=
  let '(mkSip v0 v1 v2 v3) := v in
  let v0 := u64 (v0 + v1) in let v1 := ROTL v1 13 in let v1 := Z.lxor v1 v0 in
  let v0 := ROTL v0 32 in
  let v2 := u64 (v2 + v3) in let v3 := ROTL v3 16 in let v3 := Z.lxor v3 v2 in
  let v0 := u64 (v0 + v3) in let v3 := ROTL v3 21 in let v3 := Z.lxor v3 v0 in
  let v2 := u64 (v2 + v1) in let v1 := ROTL v1 17 in let v1 := Z.lxor v1 v2 in
  let v2 := ROTL v2 32 in
  mkSip v0 v1 v2 v3.

Definition xor_v0 (v : SipState) (d : Z) : SipState := mkSip (Z.lxor (sv0 v) d) (sv1 v) (sv2 v) (sv3 v).
Definition xor_v2 (v : SipState) (d : Z) : SipState := mkSip (sv0 v) (sv1 v) (Z.lxor (sv2 v) d) (sv3 v).
Definition xor_v3 (v : SipState) (d : Z) : SipState := mkSip (sv0 v) (sv1 v) (sv2 v) (Z.lxor (sv3 v) d).

(** [v3 ^= d; SIPROUND; SIPROUND; v0 ^= d;] *)
Definition sip_word (v : SipState) (d : Z) : SipState := xor_v0 (SIPROUND (SIPROUND (xor_v3 v d))) d.

(** [v2 ^= 0xFF], four rounds and the result. *)
Definition sip_result (v : SipState) : Z :=
  let v := SIPROUND (SIPROUND (SIPROUND (SIPROUND (xor_v2 v 0xFF)))) in
  Z.lxor (Z.lxor (Z.lxor (sv0 v) (sv1 v)) (sv2 v)) (sv3 v).

Definition sip_init (k0 k1 : Z) : SipState :=
  mkSip (Z.lxor 0x736f6d6570736575 k0) (Z.lxor 0x646f72616e646f6d k1) (Z.lxor 0x6c7967656e657261 k0) (Z.lxor 0x7465646279746573 k1).

Record CSipHasher := mkSipHasher { sip_v : SipState; sip_tmp : Z; sip_count : Z }.

Definition CSipHasher_new (k0 k1 : Z) : CSipHasher := mkSipHasher (sip_init k0 k1) 0 0.

(** [None] is a failed [assert]. *)
Definition CSipHasher_Write64 (h : CSipHasher) (data : Z) : option CSipHasher :=
  if negb (Z.rem (sip_count h) 8 =? 0) then None
  else Some (mkSipHasher (sip_word (sip_v h) data) (sip_tmp h) (i32 (sip_count h + 8))).

Definition sip_byte (h : CSipHasher) (b : Z) : CSipHasher :=
  let t := Z.lor (sip_tmp h) (u64 (Z.shiftl b (8 * Z.rem (sip_count h) 8))) in
  let c := i32 (sip_count h + 1) in
  if Z.land c 7 =? 0 then mkSipHasher (sip_word (sip_v h) t) 0 c else mkSipHasher (sip_v h) t c.

Definition CSipHasher_Write (h : CSipHasher) (data : list Z) : CSipHasher := fold_left sip_byte data h.

Definition CSipHasher_Finalize (h : CSipHasher) : Z :=
  sip_result (sip_word (sip_v h) (Z.lor (sip_tmp h) (u64 (Z.shiftl (u64 (sip_count h)) 56)))).

(** [uint256::GetUint64] on the 32 bytes of the number. *)
Definition GetUint64 (val : list Z) (pos : nat) : Z := le_decode (take 8 (drop (pos * 8) val)).

(** The first word is already in [v3] when the rounds start. *)
Definition SipHashUint256 (k0 k1 : Z) (val : list Z) : Z :=
  let d := GetUint64 val 0 in
  let v := xor_v0 (SIPROUND (SIPROUND (xor_v3 (sip_init k0 k1) d))) d in
  let v := sip_word v (GetUint64 val 1) in
  let v := sip_word v (GetUint64 val 2) in
  let v := sip_word v (GetUint64 val 3) in
  let v := sip_word v (u64 (Z.shiftl 4 59)) in
  sip_result v.

Definition SipHashUint256Extra (k0 k1 : Z) (val : list Z) (extra : Z) : Z :=
  let d := GetUint64 val 0 in
  let v := xor_v0 (SIPROUND (SIPROUND (xor_v3 (sip_init k0 k1) d))) d in
  let v := sip_word v (GetUint64 val 1) in
  let v := sip_word v (GetUint64 val 2) in
  let v := sip_word v (GetUint64 val 3) in
  let v := sip_word v (Z.lor (u64 (Z.shiftl 36 56)) extra) in
  sip_result v.

(** ** The digests as functions of the message *)

Definition desc512 (n : Z) : list Z := replicate 8 0 ++ WriteBE64 n.

(** FIPS 180-4: the compression function of the standard over the chunks of
    the padded message. *)
Definition fips_sha256 (m : list Z) : list Z :=
  let compress := fips_compress 32 4 Sha256.Sigma0 Sha256.Sigma1 Sha256.sigma0 Sha256.sigma1 Sha256.K ReadBE32 in
  concat (map WriteBE32 (regs_list (md_state 64 compress Sha256.Initialize 119 WriteBE64 m))).

Definition fips_sha512 (m : list Z) : list Z :=
  let compress := fips_compress 64 8 Sha512.Sigma0 Sha512.Sigma1 Sha512.sigma0 Sha512.sigma1 Sha512.K ReadBE64 in
  concat (map WriteBE64 (regs_list (md_state 128 compress Sha512.Initialize 239 desc512 m))).

(** FIPS 180-4, section 6.1: SHA-1. *)
Definition sha1_f (t : nat) (x y z : Z) : Z :=
  match (t / 20)%nat with
  | 0%nat => fips_Ch 32 x y z
  | 2%nat => fips_Maj x y z
  | _ => Z.lxor (Z.lxor x y) z
  end.
Definition sha1_K (t : nat) : Z := nth (t / 20) [0x5a827999; 0x6ed9eba1; 0x8f1bbcdc; 0xca62c1d6] 0.
Definition sha1_next (chunk W : list Z) (t : nat) : Z :=
  if (t <? 16)%nat then ReadBE32 (drop (4 * t) chunk)
  else rol (Z.lxor (Z.lxor (Z.lxor (nth (t - 3) W 0) (nth (t - 8) W 0)) (nth (t - 14) W 0)) (nth (t - 16) W 0)) 1.
Definition sha1_round (W : list Z) (r : Regs5) (t : nat) : Regs5 :=
  mkRegs5 (u32 (rol (qa r) 5 + sha1_f t (qb r) (qc r) (qd r) + qe r + sha1_K t + nth t W 0))
    (qa r) (rol (qb r) 30) (qc r) (qd r).
Definition add_regs5 (s r : Regs5) : Regs5 :=
  mkRegs5 (u32 (qa s + qa r)) (u32 (qb s + qb r)) (u32 (qc s + qc r)) (u32 (qd s + qd r)) (u32 (qe s + qe r)).
Definition sha1_compress (H : Regs5) (chunk : list Z) : Regs5 :=
  add_regs5 H (for_n 80 (sha1_round (words (sha1_next chunk) 80)) H).
Definition sha1 (m : list Z) : list Z :=
  concat (map WriteBE32 (regs5_list (md_state 64 sha1_compress Initialize5 119 WriteBE64 m))).

(** RIPEMD-160 (Dobbertin, Bosselaers, Preneel): the message words are
    permuted by [rho] from round to round and by [pi] before the parallel line;
    the rotation depends on the round and on the word; the constants are square
    and cube roots. *)
Definition rmd_f (round : nat) (x y z : Z) : Z :=
  match round with
  | 0%nat => Z.lxor (Z.lxor x y) z
  | 1%nat => Z.lor (Z.land x y) (Z.land (not32 x) z)
  | 2%nat => Z.lxor (Z.lor x (not32 y)) z
  | 3%nat => Z.lor (Z.land x z) (Z.land y (not32 z))
  | _ => Z.lxor x (Z.lor y (not32 z))
  end.
Definition cube_root (n : Z) : Z :=
  fold_left (fun r i => if (r + 2 ^ i) ^ 3 <=? n then r + 2 ^ i else r) (map Z.of_nat (rev (seq 0 32))) 0.
Definition rmd_K (round : nat) : Z := if (round =? 0)%nat then 0 else Z.sqrt (nth (round - 1) [2; 3; 5; 7] 0 * 2 ^ 60).
Definition rmd_K' (round : nat) : Z := if (round =? 4)%nat then 0 else cube_root (nth round [2; 3; 5; 7] 0 * 2 ^ 90).
Definition rmd_rho (i : nat) : nat := nth i [7; 4; 13; 1; 10; 6; 15; 3; 12; 0; 9; 5; 2; 14; 11; 8]%nat 0%nat.
Definition rmd_pi (i : nat) : nat := ((9 * i + 5) mod 16)%nat.
Definition rmd_word (j : nat) : nat := Nat.iter (j / 16) rmd_rho (j mod 16)%nat.
Definition rmd_word' (j : nat) : nat := Nat.iter (j / 16) rmd_rho (rmd_pi (j mod 16)).
Definition rmd_shift (round word : nat) : Z :=
  nth word (nth round
    [[11; 14; 15; 12; 5; 8; 7; 9; 11; 13; 14; 15; 6; 7; 9; 8];
     [12; 13; 11; 15; 6; 9; 9; 7; 12; 15; 11; 13; 7; 8; 7; 7];
     [13; 15; 14; 11; 7; 7; 6; 8; 13; 14; 13; 12; 5; 5; 6; 9];
     [14; 11; 12; 14; 8; 6; 5; 5; 15; 12; 15; 14; 9; 9; 8; 6];
     [15; 12; 13; 13; 9; 5; 8; 6; 14; 11; 12; 11; 8; 6; 5; 5]] []) 0.
Definition rmd_step (f : Z -> Z -> Z -> Z) (K : Z) (word : nat) (round : nat) (chunk : list Z) (r : Regs5) : Regs5 :=
  let T := u32 (rol (u32 (qa r + f (qb r) (qc r) (qd r) + ReadLE32 (drop (4 * word) chunk) + K)) (rmd_shift round word) + qe r) in
  mkRegs5 (qe r) T (qb r) (rol (qc r) 10) (qd r).
Definition rmd_line (f : nat -> Z -> Z -> Z -> Z) (K : nat -> Z) (word : nat -> nat) (chunk : list Z) : Regs5 -> Regs5 :=
  for_n 80 (fun r j => rmd_step (f (j / 16)%nat) (K (j / 16)%nat) (word j) (j / 16) chunk r).
Definition rmd_compress (h : Regs5) (chunk : list Z) : Regs5 :=
  let l := rmd_line rmd_f rmd_K rmd_word chunk h in
  let r := rmd_line (fun i => rmd_f (4 - i)) rmd_K' rmd_word' chunk h in
  mkRegs5 (u32 (qb h + qc l + qd r)) (u32 (qc h + qd l + qe r)) (u32 (qd h + qe l + qa r))
    (u32 (qe h + qa l + qb r)) (u32 (qa h + qb l + qc r)).
Definition ripemd160 (m : list Z) : list Z :=
  concat (map WriteLE32 (regs5_list (md_state 64 rmd_compress Initialize5 119 WriteLE64 m))).

(** RFC 2104. *)
Definition rfc_hmac (H : list Z -> list Z) (block : nat) (key m : list Z) : list Z :=
  let k := if (length key <=? block)%nat then key else H key in
  let k := k ++ replicate (block - length k) 0 in
  H (xor_bytes 0x5c k ++ H (xor_bytes 0x36 k ++ m)).

Lemma divides_64 : (Z.of_nat 64 | 2 ^ 64).
Proof. by exists (2 ^ 58). Qed.

Lemma divides_128 : (Z.of_nat 128 | 2 ^ 64).
Proof. by exists (2 ^ 57). Qed.

Lemma sha256_initial_ok : regs_ok 32 Sha256.Initialize.
Proof. apply regs_ok_spec. unfold word_ok. cbn [ra rb rc rd re rf rg rh Sha256.Initialize]. lia. Qed.

Lemma sha512_initial_ok : regs_ok 64 Sha512.Initialize.
Proof. apply regs_ok_spec. unfold word_ok. cbn [ra rb rc rd re rf rg rh Sha512.Initialize]. lia. Qed.

Lemma sha256_absorbed h m : absorbed 64 Sha256.Transform Sha256.Initialize h m -> Sha256.Finalize h = fips_sha256 m.
Proof.
  intros Hm. apply (hasher_pad_absorbed 64 _ _ 119 WriteBE64 ltac:(lia) divides_64) in Hm as (_ & _ & Hs & _).
  unfold Sha256.Finalize, fips_sha256. rewrite Hs. unfold md_state, Sha256.Transform.
  rewrite Transforms_fips; [done | lia | apply sha256_initial_ok].
Qed.

Lemma sha512_absorbed h m : absorbed 128 Sha512.Transform Sha512.Initialize h m -> Sha512.Finalize h = fips_sha512 m.
Proof.
  intros Hm. apply (hasher_pad_absorbed 128 _ _ 239 desc512 ltac:(lia) divides_128) in Hm as (_ & _ & Hs & _).
  unfold Sha512.Finalize, fips_sha512. fold desc512. rewrite Hs. unfold md_state, Sha512.Transform.
  rewrite Transforms_fips; [done | lia | apply sha512_initial_ok].
Qed.

(** ** The transformations of the code and those of the standards *)

(** The tables of the unrolled rounds. *)
Lemma ripemd160_tables : forall j, (j < 80)%nat ->
  nth j Ripemd160.left_words 0%nat = rmd_word j /\ nth j Ripemd160.left_shifts 0 = rmd_shift (j / 16) (rmd_word j) /\
  nth j Ripemd160.right_words 0%nat = rmd_word' j /\ nth j Ripemd160.right_shifts 0 = rmd_shift (j / 16) (rmd_word' j).
Proof.
  assert (forallb (fun j => (nth j Ripemd160.left_words 0 =? rmd_word j)%nat && (nth j Ripemd160.left_shifts 0 =? rmd_shift (j / 16) (rmd_word j)) &&
    (nth j Ripemd160.right_words 0 =? rmd_word' j)%nat && (nth j Ripemd160.right_shifts 0 =? rmd_shift (j / 16) (rmd_word' j))) (seq 0 80) = true)
    as H by (vm_compute; reflexivity).
  intros j Hj. rewrite forallb_forall in H. specialize (H j ltac:(apply in_seq; lia)). rewrite !andb_true_iff in H.
  destruct H as [[[H1 H2] H3] H4]. apply Nat.eqb_eq in H1, H3. apply Z.eqb_eq in H2, H4. done.
Qed.

Lemma ripemd160_functions i : (i < 5)%nat ->
  nth i Ripemd160.left_rounds (Ripemd160.f1, 0) = (rmd_f i, rmd_K i) /\
  nth i Ripemd160.right_rounds (Ripemd160.f1, 0) = (rmd_f (4 - i), rmd_K' i).
Proof.
  intros Hi. do 5 (destruct i as [| i];
    [split; cbn [nth Ripemd160.left_rounds Ripemd160.right_rounds];
      (apply (f_equal2 pair); [reflexivity | vm_compute; reflexivity]) |]).
  lia.
Qed.

Lemma sixteenth j : (j < 80)%nat -> (j / 16 < 5)%nat.
Proof. intros Hj. apply Nat.Div0.div_lt_upper_bound. lia. Qed.

Lemma left_line s chunk :
  Ripemd160.line Ripemd160.left_rounds Ripemd160.left_words Ripemd160.left_shifts chunk s = rmd_line rmd_f rmd_K rmd_word chunk s.
Proof.
  apply for_n_ext. intros j q Hj. destruct (ripemd160_tables j Hj) as (-> & -> & _).
  rewrite (proj1 (ripemd160_functions (j / 16) (sixteenth j Hj))). reflexivity.
Qed.

Lemma right_line s chunk :
  Ripemd160.line Ripemd160.right_rounds Ripemd160.right_words Ripemd160.right_shifts chunk s =
  rmd_line (fun i => rmd_f (4 - i)) rmd_K' rmd_word' chunk s.
Proof.
  apply for_n_ext. intros j q Hj. destruct (ripemd160_tables j Hj) as (_ & _ & -> & ->).
  rewrite (proj2 (ripemd160_functions (j / 16) (sixteenth j Hj))). reflexivity.
Qed.

Lemma ripemd160_Transform s chunk : Ripemd160.Transform s chunk = rmd_compress s chunk.
Proof. unfold Ripemd160.Transform, rmd_compress. rewrite left_line, right_line. reflexivity. Qed.

Definition regs5_ok (r : Regs5) : Prop := Forall (word_ok 32) (regs5_list r).

Lemma rol_ok x i : 0 <= x < 2 ^ 32 -> 0 <= i <= 32 -> 0 <= rol x i < 2 ^ 32.
Proof.
  intros Hx Hi. unfold rol. assert (0 <= u32 (Z.shiftl x i) < 2 ^ 32) as H1 by auto with machine.
  assert (0 <= Z.shiftr x (32 - i) < 2 ^ 32) as H2.
  { rewrite Z.shiftr_div_pow2 by lia. assert (0 < 2 ^ (32 - i)) by (apply Z.pow_pos_nonneg; lia).
    split; [apply Z.div_pos; lia |]. apply Z.div_lt_upper_bound; nia. }
  assert (0 <= Z.lor (u32 (Z.shiftl x i)) (Z.shiftr x (32 - i))) by (apply Z.lor_nonneg; lia).
  split; [done |]. destruct (Z.eq_dec (Z.lor (u32 (Z.shiftl x i)) (Z.shiftr x (32 - i))) 0) as [-> |]; [lia |].
  apply Z.log2_lt_pow2; [lia |]. rewrite Z.log2_lor by lia. apply Z.max_lub_lt.
  - destruct (Z.eq_dec (u32 (Z.shiftl x i)) 0) as [-> |]; [done |]. apply Z.log2_lt_pow2; lia.
  - destruct (Z.eq_dec (Z.shiftr x (32 - i)) 0) as [-> |]; [done |]. apply Z.log2_lt_pow2; lia.
Qed.

Lemma sha1_word_schedule chunk ws i : window (sha1_next chunk) ws i ->
  Sha1.word chunk ws i = nth i (words (sha1_next chunk) (S i)) 0.
Proof.
  intros Hw. unfold Sha1.word. rewrite words_last. unfold sha1_next at 1. destruct (Nat.ltb_spec i 16); [done |].
  pose proof (window_nth _ ws i 3 Hw ltac:(lia) ltac:(lia)) as H3. pose proof (window_nth _ ws i 8 Hw ltac:(lia) ltac:(lia)) as H8.
  pose proof (window_nth _ ws i 14 Hw ltac:(lia) ltac:(lia)) as H14. pose proof (window_nth _ ws i 16 Hw ltac:(lia) ltac:(lia)) as H16.
  cbn [Nat.sub] in H3, H8, H14, H16. rewrite Nat.add_0_r in H16. rewrite H3, H8, H14, H16. unfold Sha1.left. f_equal.
  apply Z.bits_inj'. intros n _. rewrite !Z.lxor_spec. destruct (Z.testbit _ _), (Z.testbit _ _), (Z.testbit _ _), (Z.testbit _ _); done.
Qed.

Lemma sha1_functions t : (t < 80)%nat -> forall b c d, 0 <= d < 2 ^ 32 ->
  let '(f, k) := nth (t / 20) Sha1.rounds (Sha1.f1, 0) in f b c d = sha1_f t b c d /\ k = sha1_K t.
Proof.
  intros Ht b c d Hd. unfold sha1_f, sha1_K. assert (t / 20 < 4)%nat as Hq by (apply Nat.Div0.div_lt_upper_bound; lia).
  destruct (t / 20)%nat as [| [| [| [| q]]]]; [| | | | lia]; cbn [nth Sha1.rounds]; (split; [| done]).
  - apply (Ch_fips 32); [lia | done].
  - done.
  - apply Maj_fips.
  - done.
Qed.

Lemma sha1_Transform s chunk : regs5_ok s -> Sha1.Transform s chunk = sha1_compress s chunk.
Proof.
  intros Hs. unfold Sha1.Transform, sha1_compress. set (W := words (sha1_next chunk) 80).
  enough (forall n, (n <= 80)%nat -> exists ws, for_n n (Sha1.step chunk) (s, replicate 16 0) = (for_n n (sha1_round W) s, ws) /\
    window (sha1_next chunk) ws n /\ regs5_ok (for_n n (sha1_round W) s)) as H.
  { destruct (H 80%nat ltac:(lia)) as (ws & -> & _). done. }
  induction n as [| n IH]; intros Hn.
  { exists (replicate 16 0). split; [done |]. split; [split; [done | intros; lia] | done]. }
  destruct (IH ltac:(lia)) as (ws & E & Hw & Hr). rewrite !for_n_S, E. unfold Sha1.step. cbn [fst snd].
  rewrite (sha1_word_schedule chunk ws n Hw). set (r := for_n n (sha1_round W) s) in *. clearbody r.
  unfold regs5_ok, regs5_list in Hr. rewrite !Forall_cons in Hr. destruct Hr as (Ha & Hb & Hc & Hd & He & _).
  unfold word_ok in *. pose proof (sha1_functions n ltac:(lia) (qb r) (qc r) (qd r) Hd) as Hf.
  destruct (nth (n / 20) Sha1.rounds (Sha1.f1, 0)) as [f k]. destruct Hf as [Ef ->].
  assert (nth n W 0 = nth n (words (sha1_next chunk) (S n)) 0) as EW by (unfold W; by rewrite (words_nth _ 80 n) by lia).
  assert (Sha1.Round r f (sha1_K n) (nth n (words (sha1_next chunk) (S n)) 0) = sha1_round W r n) as Er.
  { unfold Sha1.Round, sha1_round. rewrite Ef, EW. f_equal. unfold wrapu. rewrite Zplus_mod_idemp_r. f_equal. lia. }
  rewrite <- Er. eexists. split; [done |]. split; [by apply window_step |]. unfold regs5_ok, regs5_list, Sha1.Round. cbn [qa qb qc qd qe].
  repeat (apply Forall_cons; split); try done; [apply wrapu_range; lia | by apply rol_ok].
Qed.

Lemma sha1_Transforms n : forall s m, regs5_ok s ->
  Transforms 64 Sha1.Transform n s m = Transforms 64 sha1_compress n s m.
Proof.
  induction n as [| n IH]; intros s m Hs; [done |]. cbn [Transforms]. rewrite sha1_Transform by done. apply IH.
  unfold sha1_compress, add_regs5, regs5_ok, regs5_list. cbn [qa qb qc qd qe].
  repeat (apply Forall_cons; split); try (apply wrapu_range; lia). constructor.
Qed.

Lemma ripemd160_Transforms n : forall s m, Transforms 64 Ripemd160.Transform n s m = Transforms 64 rmd_compress n s m.
Proof.
  induction n as [| n IH]; intros s m; cbn [Transforms]; [reflexivity |].
  rewrite (ripemd160_Transform s (take 64 m)). apply IH.
Qed.

Lemma ripemd160_absorbed h m : absorbed 64 Ripemd160.Transform Initialize5 h m -> Ripemd160.Finalize h = ripemd160 m.
Proof.
  intros Hm. apply (hasher_pad_absorbed 64 _ _ 119 WriteLE64 ltac:(lia) divides_64) in Hm as (_ & _ & Hs & _).
  unfold Ripemd160.Finalize, ripemd160. rewrite Hs. unfold md_state. by rewrite ripemd160_Transforms.
Qed.

Lemma sha1_absorbed h m : absorbed 64 Sha1.Transform Initialize5 h m -> Sha1.Finalize h = sha1 m.
Proof.
  intros Hm. apply (hasher_pad_absorbed 64 _ _ 119 WriteBE64 ltac:(lia) divides_64) in Hm as (_ & _ & Hs & _).
  unfold Sha1.Finalize, sha1. rewrite Hs. unfold md_state. rewrite sha1_Transforms; [done |].
  repeat (apply Forall_cons; split); unfold word_ok; cbn; try lia. constructor.
Qed.

Lemma sha256_writes parts buf : length buf = 64%nat ->
  absorbed 64 Sha256.Transform Sha256.Initialize (fold_left Sha256.Write parts (hasher_new Sha256.Initialize buf)) (concat parts).
Proof.
  intros Hb. apply (hasher_Writes_absorbed 64 _ _ ltac:(lia) divides_64 parts _ []).
  apply hasher_new_absorbed; [lia | done].
Qed.

Lemma sha512_writes parts buf : length buf = 128%nat ->
  absorbed 128 Sha512.Transform Sha512.Initialize (fold_left Sha512.Write parts (hasher_new Sha512.Initialize buf)) (concat parts).
Proof.
  intros Hb. apply (hasher_Writes_absorbed 128 _ _ ltac:(lia) divides_128 parts _ []).
  apply hasher_new_absorbed; [lia | done].
Qed.

Lemma ripemd160_writes parts buf : length buf = 64%nat ->
  absorbed 64 Ripemd160.Transform Initialize5 (fold_left Ripemd160.Write parts (hasher_new Initialize5 buf)) (concat parts).
Proof.
  intros Hb. apply (hasher_Writes_absorbed 64 _ _ ltac:(lia) divides_64 parts _ []).
  apply hasher_new_absorbed; [lia | done].
Qed.

Lemma sha1_writes parts buf : length buf = 64%nat ->
  absorbed 64 Sha1.Transform Initialize5 (fold_left Sha1.Write parts (hasher_new Initialize5 buf)) (concat parts).
Proof.
  intros Hb. apply (hasher_Writes_absorbed 64 _ _ ltac:(lia) divides_64 parts _ []).
  apply hasher_new_absorbed; [lia | done].
Qed.

Lemma Hash_double parts : Hash parts = fips_sha256 (fips_sha256 (concat parts)).
Proof.
  unfold Hash, CHash256_Finalize. pose proof (sha256_writes parts (replicate 64 0) ltac:(done)) as Ha. fold CSHA256 in Ha.
  rewrite (sha256_absorbed _ _ Ha). apply sha256_absorbed.
  apply (hasher_pad_absorbed 64 _ _ 119 WriteBE64 ltac:(lia) divides_64) in Ha.
  apply (hasher_Reset_absorbed 64 _ _ ltac:(lia)) in Ha.
  exact (hasher_Write_absorbed 64 _ _ ltac:(lia) divides_64 _ [] _ Ha).
Qed.

Lemma Hash160_double v : Hash160 v = ripemd160 (fips_sha256 v).
Proof.
  unfold Hash160, CHash160_Finalize.
  pose proof (sha256_writes [v] (replicate 64 0) ltac:(done)) as Ha. cbn [fold_left concat] in Ha. rewrite app_nil_r in Ha.
  fold CSHA256 in Ha. rewrite (sha256_absorbed _ _ Ha). apply ripemd160_absorbed.
  apply (hasher_Write_absorbed 64 _ _ ltac:(lia) divides_64 _ []). apply hasher_new_absorbed; [lia | done].
Qed.

Lemma xor_bytes_twice k : xor_bytes (Z.lxor 0x5c 0x36) (xor_bytes 0x5c k) = xor_bytes 0x36 k.
Proof.
  unfold xor_bytes. rewrite map_map. apply map_ext. intros b.
  by rewrite <- Z.lxor_assoc, (Z.lxor_assoc b), Z.lxor_nilpotent, Z.lxor_0_r.
Qed.

(** HMAC over a hasher that computes [H]: [holds h m] says that [m] was
    written to [h]. *)
Section HmacCorrect.
Context {State : Type} (block out : nat) (new : Hasher (State := State)).
Context (W : Hasher (State := State) -> list Z -> Hasher (State := State)) (F : Hasher (State := State) -> list Z).
Context (holds : Hasher (State := State) -> list Z -> Prop) (H : list Z -> list Z).
Context (holds_new : holds new []) (holds_write : forall h m d, holds h m -> holds (W h d) (m ++ d)).
Context (holds_final : forall h m, holds h m -> F h = H m) (H_length : forall m, length (H m) = out).

Lemma holds_writes parts : forall h m, holds h m -> holds (fold_left W parts h) (m ++ concat parts).
Proof using holds_write.
  induction parts as [| d ps IH]; intros h m Hm; cbn [fold_left concat]; [by rewrite app_nil_r |].
  rewrite app_assoc. by apply IH, holds_write.
Qed.

Lemma hmac_rfc key parts : let '(outer, inner) := hmac_new block out new W F key in
  hmac_Finalize W F (outer, fold_left W parts inner) = rfc_hmac H block key (concat parts).
Proof using holds_new holds_write holds_final H_length.
  unfold hmac_new, hmac_Finalize, rfc_hmac. cbn [fst snd].
  set (k := if (length key <=? block)%nat then key ++ _ else _).
  set (k' := _ ++ replicate _ _).
  assert (k = k') as ->.
  { unfold k, k'. destruct (length key <=? block)%nat; [done |]. rewrite (holds_final _ key), H_length; [done |].
    by apply (holds_write _ []). }
  rewrite xor_bytes_twice.
  rewrite (holds_final (fold_left W parts _) (xor_bytes 0x36 k' ++ concat parts)) by (by apply holds_writes, (holds_write _ [])).
  apply holds_final, holds_write. by apply (holds_write _ []).
Qed.
End HmacCorrect.

Lemma concat_map_length (f : Z -> list Z) n l : (forall x, length (f x) = n) -> length (concat (map f l)) = (n * length l)%nat.
Proof. intros Hf. induction l as [| x l IH]; cbn [map concat length]; [lia |]. rewrite length_app, Hf, IH. lia. Qed.

Lemma fips_sha256_length m : length (fips_sha256 m) = 32%nat.
Proof. unfold fips_sha256. rewrite (concat_map_length _ 4); [done |]. intros x. unfold WriteBE32. by rewrite length_rev, length_le_encode. Qed.

Lemma fips_sha512_length m : length (fips_sha512 m) = 64%nat.
Proof. unfold fips_sha512. rewrite (concat_map_length _ 8); [done |]. intros x. unfold WriteBE64. by rewrite length_rev, length_le_encode. Qed.

Lemma ripemd160_length m : length (ripemd160 m) = 20%nat.
Proof. unfold ripemd160. rewrite (concat_map_length _ 4); [done |]. intros x. apply length_le_encode. Qed.

(** ** SipHash *)

Lemma sip_partial v l : forall j t c, Z.of_nat j + Z.of_nat (length l) < 8 -> Forall byte_ok l -> 0 <= t < 2 ^ (8 * Z.of_nat j) ->
  0 <= c < 2 ^ 31 - 8 -> c mod 8 = 0 ->
  fold_left sip_byte l (mkSipHasher v t (c + Z.of_nat j)) =
  mkSipHasher v (t + 2 ^ (8 * Z.of_nat j) * le_decode l) (c + Z.of_nat (j + length l)).
Proof.
  induction l as [| b l IH]; intros j t c Hj Hl Ht Hc Hc8; cbn [fold_left length] in *.
  { cbn [le_decode]. f_equal; lia. }
  apply Forall_cons in Hl as [Hb Hl]. unfold byte_ok in Hb. unfold sip_byte at 2. cbn [sip_tmp sip_count sip_v].
  assert (Z.rem (c + Z.of_nat j) 8 = Z.of_nat j) as ->.
  { rewrite Z.rem_mod_nonneg by lia. rewrite Z.add_mod, Hc8 by lia. rewrite Z.add_0_l, Z.mod_mod by lia. apply Z.mod_small. lia. }
  assert (2 ^ (8 * Z.of_nat j) * 256 <= 2 ^ 64).
  { change 256 with (2 ^ 8). rewrite <- Z.pow_add_r by lia. apply Z.pow_le_mono_r; lia. }
  assert (u64 (Z.shiftl b (8 * Z.of_nat j)) = 2 ^ (8 * Z.of_nat j) * b) as ->.
  { rewrite Z.shiftl_mul_pow2, wrapu_small by (try rewrite Z.shiftl_mul_pow2; nia). lia. }
  assert (Z.lor t (2 ^ (8 * Z.of_nat j) * b) = t + 2 ^ (8 * Z.of_nat j) * b) as ->.
  { apply lor_add_disjoint. apply Z.bits_inj'. intros n Hn. rewrite Z.land_spec, Z.bits_0.
    destruct (Z.lt_ge_cases n (8 * Z.of_nat j)).
    - rewrite Z.mul_comm, Z.mul_pow2_bits_low by done. apply andb_false_r.
    - rewrite (testbit_high (8 * Z.of_nat j) t n) by done. done. }
  rewrite wraps_small by lia.
  assert (Z.land (c + Z.of_nat j + 1) 7 =? 0 = false) as ->.
  { apply Z.eqb_neq. change 7 with (Z.ones 3). rewrite Z.land_ones by lia. change (2 ^ 3) with 8.
    rewrite <- Z.add_assoc, Z.add_mod, Hc8, Z.add_0_l, Z.mod_mod, Z.mod_small by lia. lia. }
  replace (c + Z.of_nat j + 1) with (c + Z.of_nat (S j)) by lia. rewrite IH.
  - cbn [le_decode]. f_equal; [| lia]. replace (8 * Z.of_nat (S j)) with (8 * Z.of_nat j + 8) by lia.
    rewrite Z.pow_add_r by lia. change (2 ^ 8) with 256. lia.
  - lia.
  - done.
  - replace (8 * Z.of_nat (S j)) with (8 * Z.of_nat j + 8) by lia. rewrite Z.pow_add_r by lia. change (2 ^ 8) with 256. nia.
  - done.
  - done.
Qed.

Lemma sip_eight v l c : length l = 8%nat -> Forall byte_ok l -> 0 <= c < 2 ^ 31 - 8 -> c mod 8 = 0 ->
  fold_left sip_byte l (mkSipHasher v 0 c) = mkSipHasher (sip_word v (le_decode l)) 0 (c + 8).
Proof.
  intros Hl Hb Hc Hc8. destruct (exists_last (l := l) ltac:(by destruct l)) as (k & b & ->).
  rewrite length_app in Hl. cbn [length] in Hl. apply Forall_app in Hb as [Hk Hb].
  apply Forall_cons in Hb as [Hb _]. unfold byte_ok in Hb.
  assert (length k = 7%nat) as Hk7 by lia. rewrite fold_left_app.
  pose proof (sip_partial v k 0 0 c) as Hp. change (Z.of_nat 0) with 0 in Hp. rewrite Z.add_0_r in Hp.
  rewrite Hp; clear Hp; [| rewrite Hk7; lia | done | cbn; lia | done | done].
  pose proof (le_decode_range k Hk) as Hr. rewrite Hk7 in *. change (256 ^ Z.of_nat 7) with (2 ^ 56) in Hr.
  rewrite Z.mul_0_r, Z.add_0_l. change (2 ^ 0) with 1. rewrite Z.mul_1_l. cbn [fold_left Nat.add]. change (Z.of_nat 7) with 7.
  unfold sip_byte. cbn [sip_tmp sip_count sip_v].
  assert (Z.rem (c + 7) 8 = 7) as ->.
  { rewrite Z.rem_mod_nonneg, Z.add_mod, Hc8 by lia. done. }
  change (8 * 7) with 56. rewrite Z.shiftl_mul_pow2, wrapu_small, wraps_small by lia.
  assert (Z.land (c + 7 + 1) 7 =? 0 = true) as ->.
  { apply Z.eqb_eq. change 7 with (Z.ones 3) at 2. rewrite Z.land_ones by lia. change (2 ^ 3) with 8.
    replace (c + 7 + 1) with (c + 1 * 8) by lia. by rewrite Z.mod_add. }
  f_equal; [| lia]. f_equal. rewrite le_decode_app, Hk7. change (256 ^ Z.of_nat 7) with (2 ^ 56). cbn [le_decode].
  rewrite lor_add_disjoint; [lia |]. apply Z.bits_inj'. intros n Hn. rewrite Z.land_spec, Z.bits_0.
  destruct (Z.lt_ge_cases n 56).
  - rewrite Z.mul_pow2_bits_low by done. apply andb_false_r.
  - rewrite (testbit_high 56) by done. done.
Qed.

Lemma GetUint64_word (val a l b : list Z) i : val = a ++ l ++ b -> length a = (i * 8)%nat -> length l = 8%nat -> GetUint64 val i = le_decode l.
Proof.
  intros -> Ha Hl. unfold GetUint64. rewrite drop_app_length' by done. by rewrite take_app_length'.
Qed.

(** ** Properties *)



Lemma sip_length_word : Z.lor 0 (u64 (Z.shiftl (u64 32) 56)) = u64 (Z.shiftl 4 59).
Proof. done. Qed.

Lemma sip_extra_word extra : Z.lor extra (u64 (Z.shiftl (u64 36) 56)) = Z.lor (u64 (Z.shiftl 36 56)) extra.
Proof. by rewrite Z.lor_comm. Qed.

(** The rounds are not computed in the comparison. *)
#[local] Opaque SIPROUND sip_init sip_result.

(** The unrolled [SipHashUint256] and [SipHashUint256Extra] compute what
    the general hasher computes on the 32 bytes of the number, written as
    bytes or as four 64-bit words, and on these bytes followed by the four
    bytes of [extra]. *)
Theorem SipHashUint256_optimised (k0 k1 : Z) (val : list Z) (extra : Z) :
  length val = 32%nat -> Forall byte_ok val -> 0 <= extra < 2 ^ 32 ->
  SipHashUint256 k0 k1 val = CSipHasher_Finalize (CSipHasher_Write (CSipHasher_new k0 k1) val) /\
  (h ← CSipHasher_Write64 (CSipHasher_new k0 k1) (GetUint64 val 0); h ← CSipHasher_Write64 h (GetUint64 val 1);
   h ← CSipHasher_Write64 h (GetUint64 val 2); h ← CSipHasher_Write64 h (GetUint64 val 3);
   Some (CSipHasher_Finalize h)) = Some (SipHashUint256 k0 k1 val) /\
  SipHashUint256Extra k0 k1 val extra =
    CSipHasher_Finalize (CSipHasher_Write (CSipHasher_new k0 k1) (val ++ WriteLE32 extra)).
Proof.
  intros Hl Hb He.
  assert (exists a b c d, val = a ++ b ++ c ++ d /\ length a = 8%nat /\ length b = 8%nat /\ length c = 8%nat /\ length d = 8%nat)
    as (a & b & c & d & -> & Ha & Hb8 & Hc & Hd).
  { exists (take 8 val), (take 8 (drop 8 val)), (take 8 (drop 16 val)), (drop 24 val).
    rewrite !length_take, !length_drop, Hl. split; [| lia].
    rewrite <- (take_drop 8 val) at 1. f_equal. rewrite <- (take_drop 8 (drop 8 val)) at 1. f_equal.
    rewrite drop_drop. rewrite <- (take_drop 8 (drop _ val)) at 1. by rewrite drop_drop. }
  rewrite !Forall_app in Hb. destruct Hb as (Oa & Ob & Oc & Od).
  pose proof (GetUint64_word (a ++ b ++ c ++ d) [] a (b ++ c ++ d) 0 eq_refl eq_refl Ha) as G0.
  pose proof (GetUint64_word (a ++ b ++ c ++ d) a b (c ++ d) 1 eq_refl Ha Hb8) as G1.
  pose proof (GetUint64_word (a ++ b ++ c ++ d) (a ++ b) c d 2 ltac:(by rewrite <- !app_assoc)
    ltac:(rewrite length_app; lia) Hc) as G2.
  pose proof (GetUint64_word (a ++ b ++ c ++ d) (a ++ b ++ c) d [] 3 ltac:(by rewrite <- !app_assoc, app_nil_r)
    ltac:(rewrite !length_app; lia) Hd) as G3.
  set (w := sip_word (sip_word (sip_word (sip_word (sip_init k0 k1) (le_decode a)) (le_decode b)) (le_decode c)) (le_decode d)).
  assert (forall l, CSipHasher_Write (CSipHasher_new k0 k1) ((a ++ b ++ c ++ d) ++ l) = fold_left sip_byte l (mkSipHasher w 0 32)) as Hw.
  { intros l. unfold CSipHasher_Write, CSipHasher_new. rewrite !fold_left_app.
    rewrite (sip_eight _ a 0), (sip_eight _ b), (sip_eight _ c), (sip_eight _ d) by (done || lia). done. }
  assert (SipHashUint256 k0 k1 (a ++ b ++ c ++ d) = CSipHasher_Finalize (mkSipHasher w 0 32)) as E256
    by (unfold SipHashUint256, CSipHasher_Finalize; rewrite G0, G1, G2, G3; cbn [sip_tmp sip_count sip_v]; rewrite sip_length_word; reflexivity).
  split; [| split].
  - rewrite E256. specialize (Hw []). rewrite app_nil_r in Hw. rewrite Hw. reflexivity.
  - rewrite E256, G0, G1, G2, G3. reflexivity.
  - rewrite Hw. pose proof (sip_partial w (WriteLE32 extra) 0 0 32) as Hp. change (32 + Z.of_nat 0) with 32 in Hp.
    rewrite Hp; clear Hp; [| cbn; lia | apply le_encode_bytes | cbn; lia | lia | done].
    unfold WriteLE32. rewrite le_decode_encode, length_le_encode. change (256 ^ Z.of_nat 4) with (2 ^ 32).
    rewrite Z.mod_small by done. rewrite Z.add_0_l, Z.mul_1_l.
    unfold SipHashUint256Extra, CSipHasher_Finalize. rewrite G0, G1, G2, G3. cbn [sip_tmp sip_count sip_v].
    change (32 + Z.of_nat (0 + 4)) with 36. rewrite sip_extra_word. reflexivity.
Qed.

