(* ===== verification/Base58.v ===== *)
(** * Base 58 ([src/base58.cpp])

    The encoding of byte vectors as text and the version with a checksum.
    A string is the list of its character codes.  The work vectors [b58] and
    [b256] are lists in the order of their reverse iterators, least
    significant digit first.  [None] is a failed [assert] or the exception of
    a vector with a negative size; [DecodeBase58] returns [Some None] for
    [false]. *)

From Stdlib Require Import String.
From stdpp Require Import list.
From S2P Require Import Prelude Bytes Text Hashes.

Definition pszBase58 : list Z := codes "123456789ABCDEFGHJKLMNPQRSTUVWXYZabcdefghijkmnopqrstuvwxyz".

Definition zeroes_of (x : Z) (s : list Z) : nat := length s - length (skip_while (Z.eqb x) s).

(** [v = v * mul + carry] in base [base], on the digits from the least
    significant one; [i] counts the digits visited. *)
Fixpoint mul_add (base mul carry : Z) (i length : nat) (v : list Z) : list Z * Z * nat :=
  match v with
  | [] => ([], carry, i)
  | d :: v' =>
      if negb (carry =? 0) || (i <? length)%nat then
        let carry := carry + mul * d in
        let '(v', carry', i') := mul_add base mul (carry / base) (S i) length v' in
        (carry mod base :: v', carry', i')
      else (v, carry, i)
  end.

Fixpoint convert (base mul : Z) (s : list Z) (length : nat) (v : list Z) : option (list Z * nat) :=
  match s with
  | [] => Some (v, length)
  | c :: s =>
      let '(v, carry, i) := mul_add base mul c 0 length v in
      if carry =? 0 then convert base mul s i v else None
  end.

(** A vector of [size] zeroes; the size is an [int]. *)
Definition work_vector (size : Z) : option (list Z) :=
  if i32 size <? 0 then None else Some (replicate (Z.to_nat (i32 size)) 0).

(** The digits from [size - length] on, without leading zeroes. *)
Definition significant (v : list Z) (length : nat) : list Z := skip_while (Z.eqb 0) (rev (take length v)).

Definition EncodeBase58 (v : list Z) : option (list Z) :=
  let zeroes := zeroes_of 0 v in
  let v := skip_while (Z.eqb 0) v in
  b58 ← work_vector (Z.of_nat (length v) * 138 / 100 + 1);
  '(b58, len) ← convert 58 256 v 0 b58;
  Some (replicate zeroes 49 ++ map (fun d => nth (Z.to_nat d) pszBase58 0) (significant b58 len)).

(** The loop of [DecodeBase58] over the characters up to a space; what is
    left is returned. *)
Fixpoint decode_chars (s : list Z) (length : nat) (b256 : list Z) : option (option (list Z * nat * list Z)) :=
  match s with
  | [] => Some (Some (b256, length, []))
  | c :: s' =>
      if isspace c then Some (Some (b256, length, s))
      else match strchr pszBase58 c with
           | None => Some None
           | Some d =>
               let '(b256, carry, i) := mul_add 256 58 d 0 length b256 in
               if carry =? 0 then decode_chars s' i b256 else None
           end
  end.

Definition DecodeBase58 (str : list Z) : option (option (list Z)) :=
  let psz := skip_while isspace (c_str str) in
  let zeroes := zeroes_of 49 psz in
  let psz := skip_while (Z.eqb 49) psz in
  b256 ← work_vector (Z.of_nat (length psz) * 733 / 1000 + 1);
  r ← decode_chars psz 0 b256;
  match r with
  | None => Some None
  | Some (b256, len, psz) =>
      match skip_while isspace psz with
      | [] => Some (Some (replicate zeroes 0 ++ significant b256 len))
      | _ => Some None
      end
  end.

(** ** With a checksum *)

Definition EncodeBase58Check (vchIn : list Z) : option (list Z) := EncodeBase58 (vchIn ++ take 4 (Hash [vchIn])).

Definition DecodeBase58Check (psz : list Z) : option (option (list Z)) :=
  r ← DecodeBase58 psz;
  match r with
  | None => Some None
  | Some vchRet =>
      if (length vchRet <? 4)%nat then Some None
      else
        let body := take (length vchRet - 4) vchRet in
        if bool_decide (take 4 (Hash [body]) = drop (length vchRet - 4) vchRet) then Some (Some body) else Some None
  end.

(** ** Numerals *)

(** The value of digits, least significant first, and the value reached by
    [v * mul + c] over the digits [s] from [acc]. *)
Definition digits_val (base : Z) (v : list Z) : Z := foldr (fun d acc => d + base * acc) 0 v.
Definition be_val (mul acc : Z) (s : list Z) : Z := fold_left (fun a c => a * mul + c) s acc.

Abbreviation digits_ok base := (Forall (fun d : Z => 0 <= d < base)).

(** No leading zero (most significant digit last). *)
Definition canonical (v : list Z) : Prop := List.last v 1 <> 0.

Lemma digits_val_bound base v : 0 < base -> digits_ok base v -> 0 <= digits_val base v < base ^ Z.of_nat (length v).
Proof.
  intros Hb. induction 1 as [| d v Hd Hv IH]; cbn [digits_val foldr length]; [lia |].
  fold (digits_val base v). rewrite Nat2Z.inj_succ, Z.pow_succ_r by lia. nia.
Qed.

Lemma digits_val_zero base v : Forall (eq 0) v -> digits_val base v = 0.
Proof. induction 1 as [| d v <- Hv IH]; cbn; [done |]. fold (digits_val base v). rewrite IH. lia. Qed.

Lemma digits_val_app base v w : digits_val base (v ++ w) = digits_val base v + base ^ Z.of_nat (length v) * digits_val base w.
Proof.
  induction v as [| d v IH]; [cbn [app digits_val foldr length]; fold (digits_val base w); lia |].
  cbn [app digits_val foldr length]. fold (digits_val base (v ++ w)) (digits_val base v).
  rewrite IH, Nat2Z.inj_succ, Z.pow_succ_r by lia. ring.
Qed.

Lemma be_val_eq mul s : forall acc, be_val mul acc s = acc * mul ^ Z.of_nat (length s) + digits_val mul (rev s).
Proof.
  induction s as [| c s IH]; intros acc; [cbn; lia |].
  cbn [be_val fold_left rev length]. fold (be_val mul (acc * mul + c) s).
  rewrite IH, digits_val_app, length_rev, Nat2Z.inj_succ, Z.pow_succ_r by lia.
  cbn [digits_val foldr]. ring.
Qed.

Lemma canonical_tail d v : canonical (d :: v) -> canonical v.
Proof. destruct v; [done |]. exact (fun H => H). Qed.

Lemma canonical_pos base v : 0 < base -> digits_ok base v -> canonical v -> v <> [] -> 0 < digits_val base v.
Proof.
  intros Hb. induction 1 as [| d v Hd Hv IH]; [done |]. intros Hc _. cbn [digits_val foldr]. fold (digits_val base v).
  destruct v as [| e v]; [unfold canonical in Hc; cbn in *; lia |].
  specialize (IH (canonical_tail _ _ Hc) ltac:(done)). nia.
Qed.

Lemma canonical_unique base v : forall w, 0 < base -> digits_ok base v -> digits_ok base w ->
  canonical v -> canonical w -> digits_val base v = digits_val base w -> v = w.
Proof.
  induction v as [| d v IH]; intros w Hb Hv Hw Cv Cw E.
  - destruct w as [| e w]; [done |]. pose proof (canonical_pos base (e :: w) Hb Hw Cw ltac:(done)).
    cbn in E. cbn in H. lia.
  - destruct w as [| e w].
    { pose proof (canonical_pos base (d :: v) Hb Hv Cv ltac:(done)). cbn in *. lia. }
    cbn [digits_val foldr] in E. fold (digits_val base v) (digits_val base w) in E.
    apply Forall_cons in Hv as [Hd Hv], Hw as [He Hw].
    assert (d = e /\ digits_val base v = digits_val base w) as [-> E'].
    { assert (digits_val base v = digits_val base w) by nia. split; [nia | done]. }
    f_equal. apply IH; eauto using canonical_tail.
Qed.

(** ** Skipping *)

Lemma skip_while_split f s : exists p, s = p ++ skip_while f s /\ Forall (fun c => f c = true) p /\
  match skip_while f s with c :: _ => f c = false | [] => True end.
Proof.
  induction s as [| c s (p & E & Hp & Hs)]; [by exists [] |]. cbn [skip_while]. destruct (f c) eqn:Hf.
  - exists (c :: p). cbn [app]. rewrite <- E. auto.
  - by exists [].
Qed.

Lemma skip_while_app f p s : Forall (fun c => f c = true) p -> match s with c :: _ => f c = false | [] => True end ->
  skip_while f (p ++ s) = s.
Proof.
  induction 1 as [| c p Hc Hp IH]; cbn [app skip_while].
  - destruct s; cbn; [done |]. by intros ->.
  - rewrite Hc. exact IH.
Qed.

Lemma zeroes_replicate x s : s = replicate (zeroes_of x s) x ++ skip_while (Z.eqb x) s.
Proof.
  unfold zeroes_of. destruct (skip_while_split (Z.eqb x) s) as (p & E & Hp & _). rewrite E at 1 2.
  rewrite length_app. replace (length p + _ - _)%nat with (length p) by lia. f_equal.
  symmetry. apply replicate_as_Forall_2; [done |]. eapply Forall_impl; [exact Hp |]. by intros y ?%Z.eqb_eq.
Qed.

Lemma skip_replicate x n s : match s with c :: _ => c <> x | [] => True end ->
  skip_while (Z.eqb x) (replicate n x ++ s) = s /\ zeroes_of x (replicate n x ++ s) = n.
Proof.
  intros Hs. assert (skip_while (Z.eqb x) (replicate n x ++ s) = s) as E.
  { apply skip_while_app; [apply Forall_replicate; lia |]. destruct s; [done |]. lia. }
  split; [done |]. unfold zeroes_of. rewrite E, length_app, length_replicate. lia.
Qed.

(** ** Conversions *)

Lemma mul_add_spec base mul v : 1 < base -> 0 <= mul -> forall carry i len,
  0 <= carry -> digits_ok base v -> Forall (eq 0) (drop (len - i) v) ->
  exists v' carry' i', mul_add base mul carry i len v = (v', carry', i') /\ length v' = length v /\
    digits_ok base v' /\ 0 <= carry' /\ (i <= i')%nat /\ Forall (eq 0) (drop (i' - i) v') /\
    digits_val base v' + base ^ Z.of_nat (length v) * carry' = carry + mul * digits_val base v.
Proof.
  intros Hb Hm. induction v as [| d v IH]; intros carry i len Hc Hv Hz; cbn [mul_add].
  { exists [], carry, i. cbn. rewrite Nat.sub_diag. repeat split; auto; lia. }
  destruct (negb (carry =? 0) || (i <? len)%nat) eqn:Hcond.
  - apply Forall_cons in Hv as [Hd Hv].
    destruct (IH ((carry + mul * d) / base) (S i) len) as (v' & c' & i' & -> & Hl & Hok & Hc' & Hi & Hz' & E);
      [apply Z.div_pos; nia | done | |].
    { destruct (len - i)%nat as [| k] eqn:Hk.
      - replace (len - S i)%nat with 0%nat by lia. by apply Forall_cons in Hz as [_ Hz].
      - by replace (len - S i)%nat with k by lia. }
    eexists _, c', i'. split; [done |]. cbn [length]. split; [by rewrite Hl |].
    split; [constructor; [apply Z.mod_pos_bound; lia | done] |]. split; [done |]. split; [lia |].
    split; [by replace (i' - i)%nat with (S (i' - S i)) by lia |].
    cbn [digits_val foldr]. fold (digits_val base v') (digits_val base v).
    pose proof (Z.div_mod (carry + mul * d) base ltac:(lia)) as Hdm.
    rewrite Nat2Z.inj_succ, Z.pow_succ_r by lia. nia.
  - apply orb_false_iff in Hcond as [Hc0 Hi]. apply negb_false_iff, Z.eqb_eq in Hc0 as ->. apply Nat.ltb_ge in Hi.
    replace (len - i)%nat with 0%nat in Hz by lia. cbn [drop] in Hz.
    exists (d :: v), 0, i. rewrite Nat.sub_diag, (digits_val_zero base _ Hz). repeat split; auto; lia.
Qed.

(** The state of a conversion: the work vector holds [n] in its first [len]
    digits. *)
Definition holds (base : Z) (v : list Z) (len : nat) (n : Z) : Prop :=
  digits_ok base v /\ Forall (eq 0) (drop len v) /\ digits_val base v = n.

Lemma be_val_le mul s : forall acc, 1 <= mul -> 0 <= acc -> Forall (fun c => 0 <= c) s -> acc <= be_val mul acc s.
Proof.
  intros acc Hm Ha Hs. revert acc Ha. induction Hs as [| c s Hc Hs IH]; intros acc Ha; [cbn; lia |].
  cbn [be_val fold_left]. fold (be_val mul (acc * mul + c) s). specialize (IH (acc * mul + c) ltac:(nia)). nia.
Qed.

Lemma convert_spec base mul s : 1 < base -> 1 <= mul -> Forall (fun c => 0 <= c) s -> forall v len n,
  holds base v len n -> 0 <= n -> be_val mul n s < base ^ Z.of_nat (length v) ->
  exists v' len', convert base mul s len v = Some (v', len') /\ length v' = length v /\
    holds base v' len' (be_val mul n s).
Proof.
  intros Hb Hm Hs. induction Hs as [| c s Hc Hs IH]; intros v len n (Hok & Hz & Hn) Hn0 Hlt; cbn [convert].
  { exists v, len. split; [done |]. split; [done |]. done. }
  cbn [be_val fold_left] in *. fold (be_val mul (n * mul + c) s) in *.
  destruct (mul_add_spec base mul v Hb ltac:(lia) c 0 len Hc Hok) as (v1 & c1 & i & -> & Hl & Hok1 & Hc1 & _ & Hz1 & E).
  { by rewrite Nat.sub_0_r. }
  rewrite Nat.sub_0_r in Hz1. rewrite Hn in E.
  pose proof (be_val_le mul s (n * mul + c) Hm ltac:(nia) Hs) as Hle.
  pose proof (digits_val_bound base v1 ltac:(lia) Hok1) as Hb1.
  assert (0 <= n * mul + c) by nia. assert (c1 = 0) as -> by nia. cbn [Z.eqb]. rewrite Z.mul_0_r, Z.add_0_r in E.
  destruct (IH v1 i (n * mul + c)) as (v' & len' & Hconv & Hl' & Hh); [split; [done |]; split; [done | lia] | done | by rewrite Hl |].
  exists v', len'. split; [done |]. split; [congruence | done].
Qed.

(** The significant digits are the canonical ones of the number. *)
Lemma significant_spec base v len n : 1 < base -> holds base v len n ->
  let d := rev (significant v len) in digits_ok base d /\ canonical d /\ digits_val base d = n.
Proof.
  intros Hb (Hok & Hz & Hn). cbn zeta. unfold significant.
  destruct (skip_while_split (Z.eqb 0) (rev (take len v))) as (p & E & Hp & Hs).
  set (d := skip_while _ _) in *.
  assert (take len v = rev d ++ rev p) as Et by (rewrite <- rev_app_distr, <- E; symmetry; apply rev_involutive).
  assert (v = rev d ++ (rev p ++ drop len v)) as Ev by (rewrite app_assoc, <- Et; symmetry; apply take_drop).
  rewrite Ev in Hok, Hn. apply Forall_app in Hok as [Hok _]. split; [done |]. split.
  - unfold canonical. destruct d as [| x d]; [done |]. cbn [rev]. rewrite last_last. lia.
  - rewrite digits_val_app, (digits_val_zero base (rev p ++ _)) in Hn; [lia |].
    apply Forall_app. split; [| done]. apply Forall_rev. eapply Forall_impl; [exact Hp |]. by intros y ?%Z.eqb_eq.
Qed.

Lemma significant_length v len : (length (significant v len) <= length v)%nat.
Proof.
  unfold significant. destruct (skip_while_split (Z.eqb 0) (rev (take len v))) as (p & E & _).
  apply (f_equal length) in E. rewrite length_rev, length_app, length_take in E. lia.
Qed.

Lemma work_vector_holds base size : 0 < base -> 0 <= size < 2 ^ 31 ->
  exists v, work_vector size = Some v /\ length v = Z.to_nat size /\ holds base v 0 0.
Proof.
  intros Hb Hs. exists (replicate (Z.to_nat size) 0). unfold work_vector. rewrite wraps_small by lia.
  rewrite (proj2 (Z.ltb_ge size 0)) by lia. split; [done |]. split; [apply length_replicate |].
  split; [apply Forall_replicate; lia |]. split; [apply Forall_replicate; done |].
  apply digits_val_zero, Forall_replicate. done.
Qed.

(** ** Sizes

    [138 / 100] and [733 / 1000] are upper bounds of the ratios of the
    logarithms. *)

Lemma pow_ratio a b p q n : 1 < a -> 1 < b -> 0 < p -> 0 <= q -> 0 <= n -> a ^ p <= b ^ q ->
  a ^ n <= b ^ (n * q / p + 1).
Proof.
  intros Ha Hb Hp Hq Hn Hab. set (k := n * q / p + 1).
  assert (n * q < p * k) as Hk by (pose proof (Z.div_mod (n * q) p ltac:(lia)); pose proof (Z.mod_pos_bound (n * q) p); unfold k; nia).
  assert (0 <= k) by (assert (0 <= n * q / p) by (apply Z.div_pos; nia); lia).
  apply Z.nlt_ge. intros Hlt. assert ((b ^ k) ^ p < (a ^ n) ^ p) as Hlt'.
  { apply Z.pow_lt_mono_l; [done |]. split; [apply Z.pow_nonneg; lia | done]. }
  rewrite <- !Z.pow_mul_r in Hlt' by lia.
  assert (a ^ (n * p) <= b ^ (q * n)).
  { rewrite (Z.mul_comm n p), !Z.pow_mul_r by lia. apply Z.pow_le_mono_l. split; [apply Z.pow_nonneg; lia | done]. }
  assert (b ^ (q * n) <= b ^ (k * p)) by (apply Z.pow_le_mono_r; nia). lia.
Qed.

Lemma encode_fits n : 0 <= n -> 256 ^ n <= 58 ^ (n * 138 / 100 + 1).
Proof. intros Hn. apply pow_ratio; lia. Qed.

Lemma decode_fits n : 0 <= n -> 58 ^ n <= 256 ^ (n * 733 / 1000 + 1).
Proof. intros Hn. apply pow_ratio; lia. Qed.

(** ** Characters *)

Definition base58_char (d : Z) : Z := nth (Z.to_nat d) pszBase58 0.

Lemma base58_chars : forallb (fun d => match strchr pszBase58 (base58_char d) with Some e => e =? d | None => false end &&
  negb (isspace (base58_char d)) && negb (base58_char d =? 0) && Bool.eqb (base58_char d =? 49) (d =? 0)) (seqZ 0 58) = true.
Proof. by vm_compute. Qed.

Lemma base58_char_spec d : 0 <= d < 58 -> strchr pszBase58 (base58_char d) = Some d /\
  isspace (base58_char d) = false /\ base58_char d <> 0 /\ (base58_char d = 49 <-> d = 0).
Proof.
  intros Hd. pose proof base58_chars as H. rewrite forallb_forall in H. specialize (H d).
  rewrite <- list_elem_of_In, elem_of_seqZ in H. specialize (H ltac:(lia)).
  rewrite !andb_true_iff, !negb_true_iff, Z.eqb_neq in H. destruct H as [[[H1 H2] H3] H4].
  destruct (strchr _ _); [| done]. apply Z.eqb_eq in H1 as ->. apply eqb_prop in H4. split; [done |].
  split; [done |]. split; [done |]. rewrite <- (Z.eqb_eq (base58_char d)), <- (Z.eqb_eq d), H4. done.
Qed.

Lemma strchr_char s c : forall d, strchr s c = Some d -> 0 <= d < Z.of_nat (length s) /\ nth (Z.to_nat d) s 0 = c.
Proof.
  induction s as [| x s IH]; intros d; cbn [strchr]; [done |]. destruct (Z.eqb_spec x c) as [-> | Hne].
  - intros [= <-]. cbn [length]. split; [lia | done].
  - destruct (strchr s c) as [e |] eqn:He; [| done]. cbn [mbind option_bind]. intros [= <-].
    destruct (IH e eq_refl) as [Hr Hn]. cbn [length]. split; [lia |]. replace (Z.to_nat (e + 1)) with (S (Z.to_nat e)) by lia.
    done.
Qed.

Lemma strchr_base58 c d : strchr pszBase58 c = Some d -> 0 <= d < 58 /\ c = base58_char d.
Proof. intros H%strchr_char. destruct H as [Hd <-]. split; [exact Hd | done]. Qed.

(** Text that starts with a space, or nothing. *)
Definition stops (t : list Z) : Prop := match t with c :: _ => isspace c = true | [] => True end.

(** The loop converts the longest prefix of digits [ds] and returns [false]
    when the text goes on with something else than a space. *)
Lemma decode_chars_spec s : exists ds t, digits_ok 58 ds /\ s = map base58_char ds ++ t /\
  forall len v, decode_chars s len v =
    match convert 256 58 ds len v with
    | Some (v', len') => Some (match t with c :: _ => if isspace c then Some (v', len', t) else None | [] => Some (v', len', t) end)
    | None => None
    end.
Proof.
  induction s as [| c s (ds & t & Hds & -> & IH)]; [by exists [], [] |].
  cbn [decode_chars]. destruct (isspace c) eqn:Hsp.
  { exists [], (c :: map base58_char ds ++ t). split; [constructor |]. split; [done |]. cbn. by rewrite Hsp. }
  destruct (strchr pszBase58 c) as [d |] eqn:Hd.
  - pose proof (strchr_base58 c d Hd) as [Hr ->]. exists (d :: ds), t. split; [by constructor |]. split; [done |].
    intros len v. cbn [convert]. destruct (mul_add _ _ _ _ _ _) as [[v1 c1] i]. by destruct (c1 =? 0).
  - exists [], (c :: map base58_char ds ++ t). split; [constructor |]. split; [done |]. cbn. by rewrite Hsp.
Qed.

Lemma decode_chars_app ds t : digits_ok 58 ds -> stops t -> forall len v,
  decode_chars (map base58_char ds ++ t) len v =
  match convert 256 58 ds len v with Some (v', len') => Some (Some (v', len', t)) | None => None end.
Proof.
  intros Hds Ht. induction Hds as [| d ds Hd Hds IH]; intros len v; cbn [map app decode_chars convert].
  - destruct t as [| c t]; [done |]. cbn [decode_chars stops] in *. by rewrite Ht.
  - destruct (base58_char_spec d Hd) as (-> & -> & _). destruct (mul_add 256 58 d 0 len v) as [[v1 c1] i].
    destruct (c1 =? 0); [apply IH | done].
Qed.

(** ** The encoding *)

(** Both directions convert between canonical numerals of the same number. *)
Lemma encode_digits v : Forall byte_ok v -> Z.of_nat (length (skip_while (Z.eqb 0) v)) < 2 ^ 30 ->
  exists ds, EncodeBase58 v = Some (replicate (zeroes_of 0 v) 49 ++ map base58_char ds) /\ digits_ok 58 ds /\
    canonical (rev ds) /\ digits_val 58 (rev ds) = digits_val 256 (rev (skip_while (Z.eqb 0) v)) /\
    Z.of_nat (length ds) <= Z.of_nat (length (skip_while (Z.eqb 0) v)) * 138 / 100 + 1.
Proof.
  intros Hv Hl. unfold EncodeBase58. destruct (skip_while_split (Z.eqb 0) v) as (p & E & _ & _).
  set (w := skip_while (Z.eqb 0) v) in *. rewrite E in Hv. apply Forall_app in Hv as [_ Hw].
  assert (Forall (fun c => 0 <= c) w) as Hw0 by (eapply Forall_impl; [exact Hw | intros x [? _]; done]).
  set (size := Z.of_nat (length w) * 138 / 100 + 1).
  assert (0 < size < 2 ^ 31) as Hsize.
  { unfold size. assert (0 <= Z.of_nat (length w) * 138 / 100) by (apply Z.div_pos; lia).
    assert (Z.of_nat (length w) * 138 / 100 <= 2 ^ 30 * 138 / 100) by (apply Z.div_le_mono; lia). split; [lia |].
    change (2 ^ 30 * 138 / 100) with 1481763717 in *. lia. }
  destruct (work_vector_holds 58 size) as (b & -> & Hb & Hh); [lia | lia |]. cbn [mbind option_bind].
  destruct (convert_spec 58 256 w ltac:(lia) ltac:(lia) Hw0 b 0 0 Hh ltac:(lia)) as (b' & len & -> & Hb' & Hh').
  { rewrite be_val_eq, Z.mul_0_l, Z.add_0_l, Hb, Z2Nat.id by lia.
    eapply Z.lt_le_trans; [apply digits_val_bound; [lia | by apply Forall_rev] |]. rewrite length_rev. apply encode_fits. lia. }
  cbn [mbind option_bind]. rewrite be_val_eq, Z.mul_0_l, Z.add_0_l in Hh'.
  destruct (significant_spec 58 b' len _ ltac:(lia) Hh') as (H1 & H2 & H3).
  exists (significant b' len). split; [done |]. split; [by apply Forall_rev in H1; rewrite rev_involutive in H1 |].
  split; [done |]. split; [done |]. pose proof (significant_length b' len). fold size. lia.
Qed.

Lemma decode_digits m ds : digits_ok 58 ds -> (length ds <= m)%nat -> Z.of_nat m < 2 ^ 30 ->
  exists v b len, work_vector (Z.of_nat m * 733 / 1000 + 1) = Some v /\ convert 256 58 ds 0 v = Some (b, len) /\
    Z.of_nat (length (significant b len)) < 2 ^ 30 /\ digits_ok 256 (significant b len) /\
    canonical (rev (significant b len)) /\ digits_val 256 (rev (significant b len)) = digits_val 58 (rev ds).
Proof.
  intros Hds Hm Hl. set (size := Z.of_nat m * 733 / 1000 + 1).
  assert (0 < size < 2 ^ 30) as Hsize.
  { unfold size. assert (0 <= Z.of_nat m * 733 / 1000) by (apply Z.div_pos; lia).
    assert (Z.of_nat m * 733 / 1000 <= 2 ^ 30 * 733 / 1000) by (apply Z.div_le_mono; lia). split; [lia |].
    change (2 ^ 30 * 733 / 1000) with 787052756 in *. lia. }
  destruct (work_vector_holds 256 size) as (v & -> & Hv & Hh); [lia | lia |].
  destruct (convert_spec 256 58 ds ltac:(lia) ltac:(lia)) with (v := v) (len := 0%nat) (n := 0)
    as (b & len & Hc & Hb & Hh'); [| done | lia | |].
  { eapply Forall_impl; [exact Hds | intros x [? _]; done]. }
  { rewrite be_val_eq, Z.mul_0_l, Z.add_0_l, Hv, Z2Nat.id by lia.
    eapply Z.lt_le_trans; [apply digits_val_bound; [lia | by apply Forall_rev] |]. rewrite length_rev.
    etransitivity; [| apply decode_fits; lia]. apply Z.pow_le_mono_r; lia. }
  rewrite be_val_eq, Z.mul_0_l, Z.add_0_l in Hh'.
  destruct (significant_spec 256 b len _ ltac:(lia) Hh') as (H1 & H2 & H3).
  exists v, b, len. split; [done |]. split; [done |]. split.
  { pose proof (significant_length b len). lia. }
  split; [by apply Forall_rev in H1; rewrite rev_involutive in H1 |]. done.
Qed.

Lemma canonical_head ds : canonical (rev ds) <-> match ds with d :: _ => d <> 0 | [] => True end.
Proof. unfold canonical. destruct ds as [| d ds]; cbn [rev]; [done |]. by rewrite last_last. Qed.

Lemma canonical_bytes_unique base ds es : 1 < base -> digits_ok base ds -> digits_ok base es ->
  canonical (rev ds) -> canonical (rev es) -> digits_val base (rev ds) = digits_val base (rev es) -> ds = es.
Proof.
  intros Hb Hd He Cd Ce E. rewrite <- (rev_involutive ds), <- (rev_involutive es). f_equal.
  apply (canonical_unique base); auto using Forall_rev with lia.
Qed.

Lemma c_str_id s : Forall (fun c => c <> 0) s -> c_str s = s.
Proof. induction 1 as [| c s Hc Hs IH]; cbn [c_str]; [done |]. rewrite (proj2 (Z.eqb_neq c 0) Hc). by rewrite IH. Qed.

Abbreviation spaces := (Forall (fun c => isspace c = true)).

Lemma spaces_nonzero l : spaces l -> Forall (fun c => c <> 0) l.
Proof. intros H. eapply Forall_impl; [exact H |]. intros x Hx ->. discriminate Hx. Qed.

Lemma spaces_skip l : spaces l -> skip_while isspace l = [].
Proof. intros H. rewrite <- (app_nil_r l). by apply skip_while_app. Qed.

Lemma spaces_stops l : spaces l -> stops l.
Proof. by destruct 1. Qed.

(** Decoding digits between spaces. *)
Lemma DecodeBase58_digits l t z ds : spaces l -> spaces t -> digits_ok 58 ds -> canonical (rev ds) ->
  Z.of_nat (length ds + length t) < 2 ^ 30 ->
  exists w, DecodeBase58 (l ++ (replicate z 49 ++ map base58_char ds) ++ t) = Some (Some (replicate z 0 ++ w)) /\
    digits_ok 256 w /\ canonical (rev w) /\ digits_val 256 (rev w) = digits_val 58 (rev ds).
Proof.
  intros Hl Ht Hds Hc Hlen. unfold DecodeBase58. rewrite c_str_id.
  2:{ rewrite !Forall_app, Forall_map. split; [by apply spaces_nonzero |]. split; [| by apply spaces_nonzero].
      split; [by apply Forall_replicate |]. eapply Forall_impl; [exact Hds |]. intros d Hd. by apply base58_char_spec. }
  destruct (decide (z = 0%nat /\ ds = [])) as [[-> ->] | Hne].
  { cbn [replicate map app]. rewrite spaces_skip by (by apply Forall_app). exists []. done. }
  rewrite skip_while_app; [| done |].
  2:{ destruct z; cbn; [| done]. destruct ds as [| d ds]; [naive_solver |]. cbn. apply Forall_cons in Hds as [Hd _].
      by apply base58_char_spec. }
  rewrite <- app_assoc. destruct (skip_replicate 49 z (map base58_char ds ++ t)) as [-> ->].
  { apply canonical_head in Hc. destruct ds as [| d ds]; cbn.
    - destruct Ht as [| c t Hsp _]; [done |]. by intros ->.
    - apply Forall_cons in Hds as [Hd _]. intros H%(base58_char_spec d Hd). done. }
  destruct (decode_digits (length (map base58_char ds ++ t)) ds) as (v & b & len & -> & Hconv & _ & H1 & H2 & H3);
    [done | rewrite length_app, length_map; lia | rewrite length_app, length_map; lia |].
  cbn [mbind option_bind]. rewrite decode_chars_app, Hconv by auto using spaces_stops. cbn [mbind option_bind].
  rewrite spaces_skip by done. by eexists.
Qed.

Lemma skip_zeroes_canonical v : canonical (rev (skip_while (Z.eqb 0) v)).
Proof.
  destruct (skip_while_split (Z.eqb 0) v) as (p & _ & _ & H). apply canonical_head.
  destruct (skip_while _ v); [done | lia].
Qed.

Lemma skip_zeroes_ok v : Forall byte_ok v -> digits_ok 256 (skip_while (Z.eqb 0) v).
Proof.
  intros Hv. destruct (skip_while_split (Z.eqb 0) v) as (p & E & _). rewrite E in Hv. by apply Forall_app in Hv as [_ Hv].
Qed.

Lemma skip_zeroes_length v : (length (skip_while (Z.eqb 0) v) <= length v)%nat.
Proof.
  destruct (skip_while_split (Z.eqb 0) v) as (p & E & _). rewrite E at 2. rewrite length_app. lia.
Qed.

(** What [EncodeBase58] writes is read back, also between spaces. *)
Lemma decode_encode v : Forall byte_ok v -> Z.of_nat (length v) < 2 ^ 28 ->
  exists str, EncodeBase58 v = Some str /\ forall l t, spaces l -> spaces t -> Z.of_nat (length t) < 2 ^ 28 ->
    DecodeBase58 (l ++ str ++ t) = Some (Some v).
Proof.
  intros Hv Hl. pose proof (skip_zeroes_length v).
  destruct (encode_digits v Hv ltac:(lia)) as (ds & -> & Hds & Hc & Hval & Hlen). eexists. split; [done |].
  intros l t Hsl Hst Hlt. destruct (DecodeBase58_digits l t (zeroes_of 0 v) ds) as (w & -> & Hw & Cw & Ew); auto.
  - assert (Z.of_nat (length (skip_while (Z.eqb 0) v)) * 138 / 100 <= 2 ^ 28 * 138 / 100) by (apply Z.div_le_mono; lia).
    change (2 ^ 28 * 138 / 100) with 370440929 in *. lia.
  - do 2 f_equal. rewrite (zeroes_replicate 0 v) at 2. f_equal.
    apply (canonical_bytes_unique 256); [lia | done | by apply skip_zeroes_ok | done | apply skip_zeroes_canonical | congruence].
Qed.

Lemma c_str_length s : (length (c_str s) <= length s)%nat.
Proof. induction s as [| c s IH]; cbn; [lia |]. destruct (c =? 0); cbn; lia. Qed.

Lemma skip_spaces_nil t : skip_while isspace t = [] -> spaces t.
Proof.
  destruct (skip_while_split isspace t) as (p & E & Hp & _). intros Hn. rewrite Hn, app_nil_r in E. by subst p.
Qed.

(** [DecodeBase58] never fails an assertion, and the text it accepts is an
    encoding between spaces. *)
Lemma encode_decode s : Z.of_nat (length s) < 2 ^ 30 -> exists r, DecodeBase58 s = Some r /\
  forall w, r = Some w -> Forall byte_ok w /\
    exists l t str, spaces l /\ spaces t /\ c_str s = l ++ str ++ t /\ EncodeBase58 w = Some str.
Proof.
  intros Hs. unfold DecodeBase58. pose proof (c_str_length s) as Hcl.
  destruct (skip_while_split isspace (c_str s)) as (l & El & Hl & _). set (psz := skip_while isspace (c_str s)) in *.
  pose proof (zeroes_replicate 49 psz) as Ez. set (z := zeroes_of 49 psz) in *.
  pose proof (skip_while_split (Z.eqb 49) psz) as (_ & _ & _ & H49). set (rest := skip_while (Z.eqb 49) psz) in *.
  assert (length rest <= length s)%nat as Hrest.
  { apply (f_equal length) in El, Ez. rewrite length_app in El, Ez. lia. }
  destruct (decode_chars_spec rest) as (ds & t & Hds & Er & Hdec).
  assert (length ds <= length rest)%nat by (rewrite Er, length_app, length_map; lia).
  destruct (decode_digits (length rest) ds Hds) as (v & b & len & -> & Hconv & Hlen & Hok & Hcan & Hval); [lia | lia |].
  cbn [mbind option_bind]. rewrite Hdec, Hconv. cbn [mbind option_bind].
  assert (forall w, w = replicate z 0 ++ significant b len -> spaces t -> Forall byte_ok w /\
    exists l t str, spaces l /\ spaces t /\ c_str s = l ++ str ++ t /\ EncodeBase58 w = Some str) as Hgood.
  { intros w -> Ht. assert (Forall byte_ok (replicate z 0 ++ significant b len)) as Hw.
    { apply Forall_app. split; [apply Forall_replicate; unfold byte_ok; lia | done]. }
    split; [done |].
    destruct (skip_replicate 0 z (significant b len)) as [Esk Ezo]; [by apply canonical_head |].
    destruct (encode_digits _ Hw) as (es & He & Hes & Hec & Hev & _); [by rewrite Esk |]. rewrite Esk, Hval in Hev.
    rewrite Ezo in He. assert (es = ds) as ->.
    { apply (canonical_bytes_unique 58); auto; [lia |]. apply canonical_head. destruct ds as [| d ds']; [done |].
      rewrite Er in H49. cbn in H49. apply Forall_cons in Hds as [Hd _]. intros ->. done. }
    eexists l, t, _. split; [done |]. split; [done |]. split; [| exact He].
    rewrite El, Ez, Er. by rewrite <- app_assoc. }
  destruct t as [| c t].
  - cbn [skip_while]. eexists. split; [done |]. intros w [= <-]. by apply Hgood.
  - destruct (isspace c) eqn:Hsp; [| by eexists]. cbn [skip_while]. rewrite Hsp.
    destruct (skip_while isspace t) eqn:Ht; [| by eexists]. eexists. split; [done |]. intros w [= <-].
    apply Hgood; [done |]. constructor; [done |]. by apply skip_spaces_nil.
Qed.

(** ** The checksum *)

Lemma Hash_length parts : length (Hash parts) = 32%nat.
Proof. rewrite Hash_double. apply fips_sha256_length. Qed.

Lemma Hash_bytes parts : Forall byte_ok (Hash parts).
Proof.
  rewrite Hash_double. unfold fips_sha256. apply Forall_concat, Forall_map, Forall_forall. intros x _.
  apply Forall_rev, le_encode_bytes.
Qed.

Lemma checksum_length v : length (take 4 (Hash [v])) = 4%nat.
Proof. rewrite length_take, Hash_length. done. Qed.

Lemma decode_encode_check v : Forall byte_ok v -> Z.of_nat (length v) < 2 ^ 27 ->
  exists str, EncodeBase58Check v = Some str /\ forall l t, spaces l -> spaces t -> Z.of_nat (length t) < 2 ^ 28 ->
    DecodeBase58Check (l ++ str ++ t) = Some (Some v).
Proof.
  intros Hv Hl. destruct (decode_encode (v ++ take 4 (Hash [v]))) as (str & E & Hd).
  - apply Forall_app. split; [done |]. apply Forall_take, Hash_bytes.
  - rewrite length_app, checksum_length. lia.
  - exists str. split; [exact E |]. intros l t Hsl Hst Ht. unfold DecodeBase58Check. rewrite Hd by done.
    cbn [mbind option_bind]. rewrite length_app, checksum_length.
    rewrite (proj2 (Nat.ltb_ge _ 4)) by lia. replace (length v + 4 - 4)%nat with (length v) by lia.
    rewrite take_app_length, drop_app_length. by rewrite bool_decide_true.
Qed.

Lemma encode_decode_check s : Z.of_nat (length s) < 2 ^ 30 -> exists r, DecodeBase58Check s = Some r /\
  forall w, r = Some w -> Forall byte_ok w /\
    exists l t str, spaces l /\ spaces t /\ c_str s = l ++ str ++ t /\ EncodeBase58Check w = Some str.
Proof.
  intros Hs. unfold DecodeBase58Check. destruct (encode_decode s Hs) as ([w |] & -> & Hw); cbn [mbind option_bind]; [| by exists None].
  destruct (Hw w eq_refl) as (Hb & Hstr). destruct (Nat.ltb_spec (length w) 4); [by exists None |].
  case_bool_decide as Hc; [| by exists None]. exists (Some (take (length w - 4) w)). split; [done |]. intros ? [= <-].
  split; [by apply Forall_take |]. unfold EncodeBase58Check. by rewrite Hc, take_drop.
Qed.

(** ** Properties *)

(** Base 58 is a faithful text form of byte vectors.  Encoding always
    succeeds and its text, also between spaces, decodes to the vector; the
    work vectors are always large enough, so no assertion fails; and a text
    that decodes is the encoding of the decoded bytes between spaces, so that
    every vector has one spelling. *)
Theorem base58_roundtrip (v s : list Z) :
  Forall byte_ok v -> Z.of_nat (length v) < 2 ^ 28 -> Z.of_nat (length s) < 2 ^ 30 ->
  (exists str, EncodeBase58 v = Some str /\
     forall l t, spaces l -> spaces t -> Z.of_nat (length t) < 2 ^ 28 -> DecodeBase58 (l ++ str ++ t) = Some (Some v)) /\
  (exists r, DecodeBase58 s = Some r /\
     forall w, r = Some w -> Forall byte_ok w /\
       exists l t str, spaces l /\ spaces t /\ c_str s = l ++ str ++ t /\ EncodeBase58 w = Some str).
Proof. intros Hv Hl Hs. split; [by apply decode_encode | by apply encode_decode]. Qed.

