(* ===== verification/Standard.v ===== *)
(** * Destinations and standard scripts ([src/script/standard.cpp], the
      addresses of [src/base58.cpp], [CPubKey] of [src/pubkey.h])

    A [uint160] is its 20 bytes.  [None] is a failed [assert] or an access out
    of range; a function that returns [false] gives [Some None] or, where
    nothing else can fail, [None]. *)

From Stdlib Require Import String.
From stdpp Require Import list.
From S2P Require Import Prelude Text Bytes Script ScriptNum AssetNames Hashes Base58.

Inductive txnouttype :=
| TX_NONSTANDARD | TX_PUBKEY | TX_PUBKEYHASH | TX_SCRIPTHASH | TX_MULTISIG | TX_NULL_DATA
| TX_WITNESS_V0_SCRIPTHASH | TX_WITNESS_V0_KEYHASH
| TX_ASSET (nType : AssetScriptType)  (* TX_NEW_ASSET, TX_REISSUE_ASSET, TX_TRANSFER_ASSET *)
| TX_RESTRICTED_ASSET_DATA.

#[export] Instance txnouttype_eq_dec : EqDecision txnouttype.
Proof. solve_decision. Defined.

Inductive CTxDestination :=
| CNoDestination
| CKeyID (id : list Z)
| CScriptID (id : list Z).

#[export] Instance CTxDestination_eq_dec : EqDecision CTxDestination.
Proof. solve_decision. Defined.

(** ** Public keys *)

Definition GetLen (chHeader : Z) : nat :=
  if (chHeader =? 2) || (chHeader =? 3) then 33
  else if (chHeader =? 4) || (chHeader =? 6) || (chHeader =? 7) then 65
  else 0.

(** [CPubKey::Set]: the bytes of a key, [None] when it is invalid. *)
Definition CPubKey_Set (vch : list Z) : option (list Z) :=
  match vch with
  | [] => None
  | c :: _ => if negb (GetLen c =? 0)%nat && (GetLen c =? length vch)%nat then Some vch else None
  end.

Definition GetID (key : list Z) : CTxDestination := CKeyID (Hash160 key).

(** ** Solver *)

Definition OP_SMALLINTEGER : Z := 0xfa.
Definition OP_PUBKEYS : Z := 0xfb.
Definition OP_PUBKEYHASH : Z := 0xfd.
Definition OP_PUBKEY : Z := 0xfe.

(** In the order of the keys of the multimap. *)
Definition mTemplates : list (txnouttype * list Z) :=
  [(TX_PUBKEY, [OP_PUBKEY; OP_CHECKSIG]);
   (TX_PUBKEYHASH, [OP_DUP; OP_HASH160; OP_PUBKEYHASH; OP_EQUALVERIFY; OP_CHECKSIG]);
   (TX_MULTISIG, [OP_SMALLINTEGER; OP_PUBKEYS; OP_SMALLINTEGER; OP_CHECKMULTISIG])].

Definition pubkey_size (vch : list Z) : bool := (33 <=? length vch)%nat && (length vch <=? 65)%nat.

(** The inner loop over public keys: what [GetOp] read last, the rest of the
    script and the solutions. *)
Fixpoint match_pubkeys (fuel : nat) (opcode1 : Z) (vch1 pc1 : list Z) (vSolutions : list (list Z)) :
    Z * list Z * list Z * list (list Z) :=
  match fuel with
  | O => (opcode1, vch1, pc1, vSolutions)
  | S fuel =>
      if pubkey_size vch1 then
        match GetOp pc1 with
        | Some (opcode1, vch1', pc1) => match_pubkeys fuel opcode1 vch1' pc1 (vSolutions ++ [vch1])
        | None => (OP_INVALIDOPCODE, [], pc1, vSolutions ++ [vch1])
        end
      else (opcode1, vch1, pc1, vSolutions)
  end.

(** One comparison of an operation with the template; [None] is [break]. *)
Definition match_op (opcode1 : Z) (vch1 : list Z) (opcode2 : Z) (vch2 : list Z) (vSolutions : list (list Z)) :
    option (list (list Z)) :=
  if opcode2 =? OP_PUBKEY then (if negb (pubkey_size vch1) then None else Some (vSolutions ++ [vch1]))
  else if opcode2 =? OP_PUBKEYHASH then (if negb (length vch1 =? 20)%nat then None else Some (vSolutions ++ [vch1]))
  else if opcode2 =? OP_SMALLINTEGER then
    (if (opcode1 =? OP_0) || ((OP_1 <=? opcode1) && (opcode1 <=? OP_16))
     then n ← DecodeOP_N opcode1; Some (vSolutions ++ [[n]]) else None)
  else if negb (opcode1 =? opcode2) || negb (bool_decide (vch1 = vch2)) then None
  else Some vSolutions.

(** The loop over a script and a template: the solutions of a match. *)
Fixpoint match_template (fuel : nat) (pc1 pc2 : list Z) (vSolutions : list (list Z)) : option (list (list Z)) :=
  match fuel with
  | O => None
  | S fuel =>
      match pc1, pc2 with
      | [], [] => Some vSolutions
      | _, _ =>
          '(opcode1, vch1, pc1) ← GetOp pc1;
          '(opcode2, vch2, pc2) ← GetOp pc2;
          if opcode2 =? OP_PUBKEYS then
            let '(opcode1, vch1, pc1, vSolutions) := match_pubkeys (S (length pc1)) opcode1 vch1 pc1 vSolutions in
            '(opcode2, vch2, pc2) ← GetOp pc2;
            vSolutions ← match_op opcode1 vch1 opcode2 vch2 vSolutions;
            match_template fuel pc1 pc2 vSolutions
          else
            vSolutions ← match_op opcode1 vch1 opcode2 vch2 vSolutions;
            match_template fuel pc1 pc2 vSolutions
      end
  end.

Definition multisig_ok (vSolutions : list (list Z)) : bool :=
  let m := nth 0 (List.hd [] vSolutions) 0 in
  let n := nth 0 (List.last vSolutions []) 0 in
  negb ((m <? 1) || (n <? 1) || (m >? n) || negb (Z.of_nat (length vSolutions) - 2 =? n)).

(** Over the templates; the first one that matches decides. *)
Fixpoint scan_templates (templates : list (txnouttype * list Z)) (script : list Z) : option (txnouttype * list (list Z)) :=
  match templates with
  | [] => None
  | (t, script2) :: templates =>
      match match_template (S (length script2)) script script2 [] with
      | Some vSolutions =>
          if bool_decide (t = TX_MULTISIG) && negb (multisig_ok vSolutions) then None else Some (t, vSolutions)
      | None => scan_templates templates script
      end
  end.

(** The type and the solutions, [None] for [false]. *)
Definition Solver (script : list Z) : option (txnouttype * list (list Z)) :=
  if IsPayToScriptHash script then Some (TX_SCRIPTHASH, [take 20 (drop 2 script)])
  else match IsAssetScript script with
  | Some (nType, _, _) => Some (TX_ASSET nType, [take 20 (drop 3 script)])
  | None =>
  match IsWitnessProgram script with
  | Some (witnessversion, witnessprogram) =>
      if (witnessversion =? 0) && (length witnessprogram =? 20)%nat then Some (TX_WITNESS_V0_KEYHASH, [witnessprogram])
      else if (witnessversion =? 0) && (length witnessprogram =? 32)%nat then Some (TX_WITNESS_V0_SCRIPTHASH, [witnessprogram])
      else None
  | None =>
  if (1 <=? length script)%nat && byte_at script 0 OP_RETURN && IsPushOnly (drop 1 script) then Some (TX_NULL_DATA, [])
  else if (1 <=? length script)%nat && byte_at script 0 OP_AVN_ASSET && IsPushOnly (drop 1 script) then
    Some (TX_RESTRICTED_ASSET_DATA,
      if (23 <=? length script)%nat && negb (byte_at script 1 OP_RESERVED) then [take 20 (drop 2 script)] else [])
  else scan_templates mTemplates script
  end
  end.

(** [None] for [false]. *)
Definition ExtractDestination (script : list Z) : option CTxDestination :=
  '(whichType, vSolutions) ← Solver script;
  match whichType with
  | TX_PUBKEY => key ← CPubKey_Set (List.hd [] vSolutions); Some (GetID key)
  | TX_PUBKEYHASH => Some (CKeyID (List.hd [] vSolutions))
  | TX_SCRIPTHASH => Some (CScriptID (List.hd [] vSolutions))
  | TX_ASSET _ => Some (CKeyID (List.hd [] vSolutions))
  | TX_RESTRICTED_ASSET_DATA => match vSolutions with h :: _ => Some (CKeyID h) | [] => None end
  | _ => None
  end.

(** The type, the addresses and the number of signatures required. *)
Definition ExtractDestinations (script : list Z) : option (txnouttype * list CTxDestination * Z) :=
  '(typeRet, vSolutions) ← Solver script;
  match typeRet with
  | TX_NULL_DATA => None
  | TX_MULTISIG =>
      let keys := omap CPubKey_Set (take (length vSolutions - 2) (drop 1 vSolutions)) in
      if bool_decide (keys = []) then None
      else Some (typeRet, map GetID keys, nth 0 (List.hd [] vSolutions) 0)
  | _ => address ← ExtractDestination script; Some (typeRet, [address], 1)
  end.

(** ** Building scripts *)

Definition GetScriptForDestination (dest : CTxDestination) : list Z :=
  match dest with
  | CNoDestination => []
  | CKeyID keyID => [OP_DUP; OP_HASH160] ++ push_data keyID ++ [OP_EQUALVERIFY; OP_CHECKSIG]
  | CScriptID scriptID => [OP_HASH160] ++ push_data scriptID ++ [OP_EQUAL]
  end.

Definition GetScriptForNullAssetDataDestination (dest : CTxDestination) : list Z :=
  match dest with
  | CNoDestination => []
  | CKeyID id | CScriptID id => [OP_AVN_ASSET] ++ push_data id
  end.

Definition GetScriptForRawPubKey (pubKey : list Z) : list Z := push_data pubKey ++ [OP_CHECKSIG].

Definition GetScriptForMultisig (nRequired : Z) (keys : list (list Z)) : option (list Z) :=
  m ← EncodeOP_N nRequired;
  n ← EncodeOP_N (Z.of_nat (length keys));
  Some ([m] ++ concat (map push_data keys) ++ [n; OP_CHECKMULTISIG]).

Definition GetScriptForWitness (redeemscript : list Z) : list Z :=
  match Solver redeemscript with
  | Some (TX_PUBKEY, vSolutions) => [OP_0] ++ push_data (Hash160 (List.hd [] vSolutions))
  | Some (TX_PUBKEYHASH, vSolutions) => [OP_0] ++ push_data (List.hd [] vSolutions)
  | _ => [OP_0] ++ push_data (Sha2.Sha256.Finalize (Sha2.Sha256.Write CSHA256 redeemscript))
  end.

Definition IsValidDestination (dest : CTxDestination) : bool := negb (bool_decide (dest = CNoDestination)).

(** ** Addresses

    The prefixes are those of the chain parameters. *)

Record Base58Prefixes := mkPrefixes { PUBKEY_ADDRESS : list Z; SCRIPT_ADDRESS : list Z; SECRET_KEY : list Z }.

(** [CMainParams] and [CTestNetParams]. *)
Definition main_prefixes : Base58Prefixes := mkPrefixes [60] [122] [128].
Definition test_prefixes : Base58Prefixes := mkPrefixes [111] [196] [239].

Section Addresses.
Variable params : Base58Prefixes.

Record CBase58Data := mkBase58Data { vchVersion : list Z; vchData : list Z }.

Definition CBase58Data_ToString (d : CBase58Data) : option (list Z) := EncodeBase58Check (vchVersion d ++ vchData d).

(** [SetString] with one version byte; a failure leaves empty data. *)
Definition CBase58Data_SetString (psz : list Z) : option CBase58Data :=
  r ← DecodeBase58Check psz;
  match r with
  | Some vchTemp => if (length vchTemp <? 1)%nat then Some (mkBase58Data [] [])
                    else Some (mkBase58Data (take 1 vchTemp) (drop 1 vchTemp))
  | None => Some (mkBase58Data [] [])
  end.

Definition CAvianAddress_Set (dest : CTxDestination) : CBase58Data :=
  match dest with
  | CNoDestination => mkBase58Data [] []
  | CKeyID id => mkBase58Data (PUBKEY_ADDRESS params) id
  | CScriptID id => mkBase58Data (SCRIPT_ADDRESS params) id
  end.

Definition CAvianAddress_IsValid (addr : CBase58Data) : bool :=
  (length (vchData addr) =? 20)%nat &&
  (bool_decide (vchVersion addr = PUBKEY_ADDRESS params) || bool_decide (vchVersion addr = SCRIPT_ADDRESS params)).

Definition CAvianAddress_Get (addr : CBase58Data) : CTxDestination :=
  if negb (CAvianAddress_IsValid addr) then CNoDestination
  else if bool_decide (vchVersion addr = PUBKEY_ADDRESS params) then CKeyID (vchData addr)
  else if bool_decide (vchVersion addr = SCRIPT_ADDRESS params) then CScriptID (vchData addr)
  else CNoDestination.

Definition EncodeDestination (dest : CTxDestination) : option (list Z) :=
  let addr := CAvianAddress_Set dest in
  if negb (CAvianAddress_IsValid addr) then Some [] else CBase58Data_ToString addr.

Definition DecodeDestination (str : list Z) : option CTxDestination :=
  addr ← CBase58Data_SetString str; Some (CAvianAddress_Get addr).

Definition IsValidDestinationString (str : list Z) : option bool :=
  addr ← CBase58Data_SetString str; Some (CAvianAddress_IsValid addr).
End Addresses.

(** ** Addresses are read back *)

Definition prefixes_ok (params : Base58Prefixes) : Prop :=
  (exists p, PUBKEY_ADDRESS params = [p] /\ byte_ok p) /\ (exists s, SCRIPT_ADDRESS params = [s] /\ byte_ok s) /\
  PUBKEY_ADDRESS params <> SCRIPT_ADDRESS params.

(** A destination with a [uint160]. *)
Definition dest_ok (dest : CTxDestination) : Prop :=
  match dest with
  | CNoDestination => False
  | CKeyID id | CScriptID id => length id = 20%nat /\ Forall byte_ok id
  end.

Section AddressProofs.
Context (params : Base58Prefixes) (Hparams : prefixes_ok params).

Lemma CAvianAddress_valid dest : dest_ok dest ->
  CAvianAddress_IsValid params (CAvianAddress_Set params dest) = true /\
  CAvianAddress_Get params (CAvianAddress_Set params dest) = dest /\
  Forall byte_ok (vchVersion (CAvianAddress_Set params dest) ++ vchData (CAvianAddress_Set params dest)) /\
  length (vchVersion (CAvianAddress_Set params dest)) = 1%nat /\ length (vchData (CAvianAddress_Set params dest)) = 20%nat.
Proof using Hparams.
  destruct Hparams as ((p & Hp & Bp) & (s & Hs & Bs) & Hne). destruct dest as [| id | id]; [done | |]; intros [Hl Hb];
    unfold CAvianAddress_Get, CAvianAddress_IsValid; cbn [CAvianAddress_Set vchVersion vchData]; rewrite Hl, Nat.eqb_refl.
  - rewrite bool_decide_true by done. cbn [andb orb negb]. rewrite Hp. cbn. repeat split; auto.
  - rewrite (bool_decide_false (SCRIPT_ADDRESS params = _)), bool_decide_true by auto. cbn [andb orb negb]. rewrite Hs.
    cbn. repeat split; auto.
Qed.

Lemma EncodeDestination_decodes dest : dest_ok dest ->
  exists str, EncodeDestination params dest = Some str /\ DecodeDestination params str = Some dest.
Proof using Hparams.
  intros Hd. destruct (CAvianAddress_valid dest Hd) as (Hv & Hg & Hb & Hl1 & Hl2). unfold EncodeDestination. rewrite Hv. cbn [negb].
  set (addr := CAvianAddress_Set params dest) in *. unfold CBase58Data_ToString.
  destruct (decode_encode_check (vchVersion addr ++ vchData addr) Hb) as (str & -> & Hdec).
  { rewrite length_app, Hl1, Hl2. lia. }
  exists str. split; [done |]. specialize (Hdec [] [] ltac:(constructor) ltac:(constructor) ltac:(cbn; lia)).
  rewrite app_nil_r in Hdec. cbn [app] in Hdec. unfold DecodeDestination, CBase58Data_SetString. rewrite Hdec. cbn [mbind option_bind].
  rewrite length_app, Hl1, Hl2. cbn [Nat.ltb Nat.leb Nat.add mbind option_bind].
  rewrite take_app_length', drop_app_length' by done. rewrite <- Hg. by destruct addr.
Qed.

Lemma EncodeDestination_inj d1 d2 str : dest_ok d1 -> dest_ok d2 ->
  EncodeDestination params d1 = Some str -> EncodeDestination params d2 = Some str -> d1 = d2.
Proof using Hparams.
  intros H1 H2 E1 E2. destruct (EncodeDestination_decodes d1 H1) as (s1 & E1' & D1), (EncodeDestination_decodes d2 H2) as (s2 & E2' & D2).
  congruence.
Qed.

(** An address that decodes is the encoding of its destination between spaces. *)
Lemma DecodeDestination_encodes s dest : Z.of_nat (length s) < 2 ^ 30 -> DecodeDestination params s = Some dest ->
  dest = CNoDestination \/ dest_ok dest /\
    exists l t str, spaces l /\ spaces t /\ c_str s = l ++ str ++ t /\ EncodeDestination params dest = Some str.
Proof using Hparams.
  intros Hs. unfold DecodeDestination, CBase58Data_SetString.
  destruct (encode_decode_check s Hs) as (r & -> & Hr). cbn [mbind option_bind].
  assert (CAvianAddress_Get params (mkBase58Data [] []) = CNoDestination) as Hempty by done.
  destruct r as [w |]; [| intros [= <-]; left; done]. destruct (Hr w eq_refl) as (Hb & l & t & str & Hl & Ht & Es & Ee).
  destruct (Nat.ltb_spec (length w) 1); cbn [mbind option_bind]; [intros [= <-]; left; done |]. intros [= <-].
  unfold CAvianAddress_Get. destruct (CAvianAddress_IsValid params _) eqn:Hv; [| left; done]. cbn [negb].
  unfold CAvianAddress_IsValid in Hv. cbn [vchData vchVersion] in *. apply andb_true_iff in Hv as [H20 Hver]. apply Nat.eqb_eq in H20.
  right. rewrite <- (take_drop 1 w) in Ee. pose proof (Forall_drop _ 1 _ Hb) as Hbd.
  case_bool_decide as Hp.
  - split; [done |]. exists l, t, str. do 3 (split; [done |]). unfold EncodeDestination.
    destruct (CAvianAddress_valid (CKeyID (drop 1 w))) as (-> & _); [done |]. cbn. unfold CBase58Data_ToString. cbn. by rewrite <- Hp.
  - case_bool_decide as Hsc; [| done]. split; [done |]. exists l, t, str. do 3 (split; [done |]). unfold EncodeDestination.
    destruct (CAvianAddress_valid (CScriptID (drop 1 w))) as (-> & _); [done |]. cbn. unfold CBase58Data_ToString. cbn. by rewrite <- Hsc.
Qed.
End AddressProofs.

(** ** Scripts are solved *)

Lemma twenty_bytes (id : list Z) : length id = 20%nat -> exists a b c d e f g h i j k l m n o p q r s t,
  id = [a; b; c; d; e; f; g; h; i; j; k; l; m; n; o; p; q; r; s; t].
Proof. intros H. do 20 (destruct id as [| ? id]; [done |]). destruct id; [| done]. repeat eexists. Qed.

Lemma ExtractDestination_script dest : dest_ok dest -> ExtractDestination (GetScriptForDestination dest) = Some dest.
Proof.
  destruct dest as [| id | id]; [done | |]; intros [Hl _];
    destruct (twenty_bytes id Hl) as (? & ? & ? & ? & ? & ? & ? & ? & ? & ? & ? & ? & ? & ? & ? & ? & ? & ? & ? & ? & ->);
    vm_compute; reflexivity.
Qed.

(** *** Multisignature scripts *)

Lemma match_pubkeys_all keys opcode n rest : forall fuel op vch sols,
  (length keys < fuel)%nat -> Forall (fun k => pubkey_size k = true) (vch :: keys) -> GetOp (n :: rest) = Some (opcode, [], rest) ->
  match_pubkeys fuel op vch (concat (map push_data keys) ++ n :: rest) sols = (opcode, [], rest, sols ++ vch :: keys).
Proof.
  induction keys as [| k keys IH]; intros fuel op vch sols Hf Hk Hop; (destruct fuel as [| fuel]; [cbn in Hf; lia |]);
    apply Forall_cons in Hk as [Hv Hk]; cbn [match_pubkeys map concat app]; rewrite Hv.
  - rewrite Hop. by destruct fuel.
  - pose proof (Forall_inv Hk) as Hk1. cbn beta in Hk1. rewrite <- app_assoc.
    destruct (GetOp_push_data k (concat (map push_data keys) ++ n :: rest)) as (op' & -> & _).
    { unfold pubkey_size in Hk1. apply andb_true_iff in Hk1 as [_ Hk1]. apply Nat.leb_le in Hk1. lia. }
    rewrite (IH fuel op' k (sols ++ [vch])); [by rewrite <- app_assoc | cbn in Hf; lia | done | done].
Qed.

Lemma small_op n : 1 <= n <= 16 -> exists op, EncodeOP_N n = Some op /\ DecodeOP_N op = Some n /\
  ((op =? OP_0) || ((OP_1 <=? op) && (op <=? OP_16))) = true /\ forall rest, GetOp (op :: rest) = Some (op, [], rest).
Proof.
  intros Hn. exists (if n =? 0 then OP_0 else OP_1 + n - 1). unfold EncodeOP_N.
  assert (In n (seqZ 1 16)) as Hin by (apply list_elem_of_In, elem_of_seqZ; lia).
  cbn in Hin. repeat (destruct Hin as [<- | Hin]; [done |]). done.
Qed.

Lemma match_template_cons fuel pc1 pc2 sols : pc2 <> [] ->
  match_template (S fuel) pc1 pc2 sols =
  ('(opcode1, vch1, pc1) ← GetOp pc1;
   '(opcode2, vch2, pc2) ← GetOp pc2;
   if opcode2 =? OP_PUBKEYS then
     let '(opcode1, vch1, pc1, vSolutions) := match_pubkeys (S (length pc1)) opcode1 vch1 pc1 sols in
     '(opcode2, vch2, pc2) ← GetOp pc2;
     vSolutions ← match_op opcode1 vch1 opcode2 vch2 vSolutions;
     match_template fuel pc1 pc2 vSolutions
   else
     vSolutions ← match_op opcode1 vch1 opcode2 vch2 sols;
     match_template fuel pc1 pc2 vSolutions).
Proof. destruct pc2; [done |]. by destruct pc1. Qed.

Lemma pubkey_push k : pubkey_size k = true -> push_data k = Z.of_nat (length k) :: k /\ (33 <= length k <= 65)%nat.
Proof.
  unfold pubkey_size. rewrite andb_true_iff, !Nat.leb_le. intros H. split; [| done]. unfold push_data, OP_PUSHDATA1.
  rewrite (proj2 (Z.ltb_lt _ _)), wrapu_small by lia. done.
Qed.

Lemma push_data_length b : (1 <= length (push_data b))%nat.
Proof. unfold push_data. rewrite length_app. repeat case_match; cbn [length]; lia. Qed.

Lemma small_op_match n op sols : 1 <= n -> DecodeOP_N op = Some n ->
  ((op =? OP_0) || ((OP_1 <=? op) && (op <=? OP_16))) = true -> match_op op [] OP_SMALLINTEGER [] sols = Some (sols ++ [[n]]).
Proof. intros Hn Hd Hb. unfold match_op. change (OP_SMALLINTEGER =? OP_PUBKEY) with false.
  change (OP_SMALLINTEGER =? OP_PUBKEYHASH) with false. rewrite Z.eqb_refl, Hb, Hd. done. Qed.

(** The template matches: one small number, the keys, another one. *)
Lemma match_multisig m n om on k keys : Forall (fun k => pubkey_size k = true) (k :: keys) -> 1 <= m -> 1 <= n ->
  DecodeOP_N om = Some m -> ((om =? OP_0) || ((OP_1 <=? om) && (om <=? OP_16))) = true ->
  (forall rest, GetOp (om :: rest) = Some (om, [], rest)) ->
  DecodeOP_N on = Some n -> ((on =? OP_0) || ((OP_1 <=? on) && (on <=? OP_16))) = true ->
  (forall rest, GetOp (on :: rest) = Some (on, [], rest)) ->
  match_template 5 (om :: concat (map push_data (k :: keys)) ++ [on; OP_CHECKMULTISIG])
    [OP_SMALLINTEGER; OP_PUBKEYS; OP_SMALLINTEGER; OP_CHECKMULTISIG] [] = Some ([[m]] ++ (k :: keys) ++ [[n]]).
Proof.
  intros Hk Hm Hn Dm Bm Gm Dn Bn Gn.
  rewrite match_template_cons, Gm by done. cbn [mbind option_bind].
  change (GetOp [OP_SMALLINTEGER; OP_PUBKEYS; OP_SMALLINTEGER; OP_CHECKMULTISIG])
    with (Some (OP_SMALLINTEGER, @nil Z, [OP_PUBKEYS; OP_SMALLINTEGER; OP_CHECKMULTISIG])). cbn [mbind option_bind].
  change (OP_SMALLINTEGER =? OP_PUBKEYS) with false. cbv iota. rewrite (small_op_match m) by done. cbn [mbind option_bind app map concat].
  rewrite match_template_cons by done. rewrite <- app_assoc.
  destruct (GetOp_push_data k (concat (map push_data keys) ++ [on; OP_CHECKMULTISIG])) as (op & -> & _).
  { apply Forall_inv in Hk. cbn beta in Hk. apply pubkey_push in Hk. lia. }
  cbn [mbind option_bind].
  change (GetOp [OP_PUBKEYS; OP_SMALLINTEGER; OP_CHECKMULTISIG])
    with (Some (OP_PUBKEYS, @nil Z, [OP_SMALLINTEGER; OP_CHECKMULTISIG])). cbn [mbind option_bind].
  rewrite Z.eqb_refl, (match_pubkeys_all keys on); [| | done | apply Gn].
  2:{ rewrite length_app. cbn [length]. clear. induction keys as [| j keys IH]; cbn [map concat length]; [lia |].
      rewrite length_app. pose proof (push_data_length j). lia. }
  change (GetOp [OP_SMALLINTEGER; OP_CHECKMULTISIG]) with (Some (OP_SMALLINTEGER, @nil Z, [OP_CHECKMULTISIG])).
  cbn [mbind option_bind]. rewrite (small_op_match n) by done. cbn [mbind option_bind]. reflexivity.
Qed.

Lemma Solver_multisig m keys script : 1 <= m <= Z.of_nat (length keys) -> (length keys <= 16)%nat ->
  Forall (fun k => pubkey_size k = true) keys -> GetScriptForMultisig m keys = Some script -> IsAssetScript script = None ->
  Solver script = Some (TX_MULTISIG, [[m]] ++ keys ++ [[Z.of_nat (length keys)]]).
Proof.
  intros Hm Hn Hk Hs Ha. unfold GetScriptForMultisig in Hs.
  destruct (small_op m ltac:(lia)) as (om & Em & Dm & Bm & Gm), (small_op (Z.of_nat (length keys)) ltac:(lia)) as (on & En & Dn & Bn & Gn).
  rewrite Em, En in Hs. cbn [mbind option_bind app] in Hs. injection Hs as <-.
  assert (81 <= om <= 96) as Hom.
  { unfold EncodeOP_N, OP_0, OP_1 in Em. destruct (_ && _); [| done]. destruct (Z.eqb_spec m 0); [lia |]. injection Em as <-. lia. }
  destruct keys as [| k keys]; [cbn in Hm; lia |]. pose proof (Forall_inv Hk) as Hk1. apply pubkey_push in Hk1 as [Ek Hlk].
  set (script := om :: _) in *.
  assert (nth 0 script 0 = om /\ nth 1 script 0 = Z.of_nat (length k) /\ (length k + 4 <= length script)%nat) as (N0 & N1 & Nl).
  { unfold script. cbn [map concat]. rewrite Ek. cbn [app nth length]. rewrite !length_app. cbn [length]. split; [done |]. split; [done | lia]. }
  assert (forall x, x < 81 \/ 96 < x -> byte_at script 0 x = false) as Nb by (intros x Hx; unfold byte_at; rewrite N0; apply Z.eqb_neq; lia).
  unfold Solver. rewrite Ha. unfold IsPayToScriptHash. rewrite !Nb by (unfold OP_HASH160, OP_RETURN, OP_AVN_ASSET; lia).
  rewrite !andb_false_r. cbn [andb].
  assert (IsWitnessProgram script = None) as ->.
  { unfold IsWitnessProgram. rewrite N0, N1. destruct ((length script <? 4)%nat || _); [done |]. destruct (negb (om =? OP_0) && _); [done |].
    rewrite (proj2 (Z.eqb_neq _ _)) by lia. done. }
  cbn [mTemplates scan_templates length].
  assert (match_template 3 script [OP_PUBKEY; OP_CHECKSIG] [] = None) as ->.
  { rewrite match_template_cons by done. unfold script. rewrite Gm. done. }
  assert (match_template 6 script [OP_DUP; OP_HASH160; OP_PUBKEYHASH; OP_EQUALVERIFY; OP_CHECKSIG] [] = None) as ->.
  { rewrite match_template_cons by done. unfold script. rewrite Gm. cbn [mbind option_bind].
    change (GetOp [OP_DUP; OP_HASH160; OP_PUBKEYHASH; OP_EQUALVERIFY; OP_CHECKSIG])
      with (Some (OP_DUP, @nil Z, [OP_HASH160; OP_PUBKEYHASH; OP_EQUALVERIFY; OP_CHECKSIG])). cbn [mbind option_bind].
    change (OP_DUP =? OP_PUBKEYS) with false. cbv iota. unfold match_op. change (OP_DUP =? OP_PUBKEY) with false.
    change (OP_DUP =? OP_PUBKEYHASH) with false. change (OP_DUP =? OP_SMALLINTEGER) with false. cbv iota.
    rewrite (proj2 (Z.eqb_neq om OP_DUP)) by (unfold OP_DUP; lia). done. }
  unfold script. rewrite (match_multisig m (Z.of_nat (length (k :: keys)))) by (done || lia).
  rewrite bool_decide_true by done. cbn [andb]. unfold multisig_ok. cbn [app List.hd nth].
  rewrite app_comm_cons, app_comm_cons, last_last. cbn [nth length]. rewrite length_app. cbn [length] in *.
  rewrite (proj2 (Z.ltb_ge m 1)), (proj2 (Z.ltb_ge _ 1)) by lia. rewrite Z.gtb_ltb, (proj2 (Z.ltb_ge _ m)) by lia.
  rewrite (proj2 (Z.eqb_eq _ _)) by lia. done.
Qed.

Lemma asset_destination script : is_asset_script script = true ->
  ExtractDestination script = Some (CKeyID (take 20 (drop 3 script))).
Proof.
  unfold is_asset_script. intros H%bool_decide_eq_true. destruct H as [[[t o] i] Ha]. unfold ExtractDestination, Solver.
  assert (IsPayToScriptHash script = false) as ->.
  { unfold IsPayToScriptHash. destruct (Nat.eqb_spec (length script) 23) as [Hl |]; [| done].
    unfold IsAssetScript in Ha. rewrite Hl in Ha. done. }
  rewrite Ha. done.
Qed.

Lemma omap_all {A B} (f : A -> option B) (g : A -> B) l : Forall (fun x => f x = Some (g x)) l -> omap f l = map g l.
Proof. induction 1 as [| x l Hx Hl IH]; [done |]. cbn [omap list_omap map]. by rewrite Hx, IH. Qed.

Lemma ExtractDestinations_multisig m keys script : 1 <= m <= Z.of_nat (length keys) -> (length keys <= 16)%nat ->
  Forall (fun k => CPubKey_Set k = Some k) keys -> GetScriptForMultisig m keys = Some script -> IsAssetScript script = None ->
  ExtractDestinations script = Some (TX_MULTISIG, map GetID keys, m).
Proof.
  intros Hm Hn Hk Hs Ha. unfold ExtractDestinations. rewrite (Solver_multisig m keys script); auto.
  - cbn [mbind option_bind app List.hd nth drop length]. rewrite length_app. cbn [length].
    replace (S (length keys + 1) - 2)%nat with (length keys) by lia. rewrite drop_0, take_app_length.
    rewrite (omap_all _ id) by done. unfold id. rewrite map_id. rewrite bool_decide_false; [done |].
    intros ->. cbn in Hm. lia.
  - eapply Forall_impl; [exact Hk |]. intros k. unfold CPubKey_Set, pubkey_size. destruct k as [| c k]; [done |].
    destruct (negb _ && _) eqn:E; [| done]. intros _. apply andb_true_iff in E as [E1 E2]. apply Nat.eqb_eq in E2. rewrite <- E2.
    revert E1. unfold GetLen. repeat case_match; done.
Qed.

(** ** Properties *)

(** C26: Destinations survive their two external forms.  The script built for
    a destination is solved back to it; its address decodes to it, and an
    address that decodes is the encoding of its destination between spaces,
    so no two destinations share one; a multisignature script over valid keys
    yields the addresses of its keys in order and the number of signatures. *)
Theorem destinations_roundtrip (params : Base58Prefixes) (dest : CTxDestination) (s : list Z) (m : Z) (keys : list (list Z)) (script : list Z) :
  prefixes_ok params -> dest_ok dest -> Z.of_nat (length s) < 2 ^ 30 ->
  1 <= m <= Z.of_nat (length keys) -> (length keys <= 16)%nat -> Forall (fun k => CPubKey_Set k = Some k) keys ->
  GetScriptForMultisig m keys = Some script -> IsAssetScript script = None ->
  ExtractDestination (GetScriptForDestination dest) = Some dest /\
  (exists str, EncodeDestination params dest = Some str /\ DecodeDestination params str = Some dest) /\
  (forall d, DecodeDestination params s = Some d -> d <> CNoDestination ->
     exists l t str, spaces l /\ spaces t /\ c_str s = l ++ str ++ t /\ EncodeDestination params d = Some str) /\
  ExtractDestinations script = Some (TX_MULTISIG, map GetID keys, m).
Proof.
  intros Hp Hd Hs Hm Hn Hk Hscript Ha. split; [by apply ExtractDestination_script |].
  split; [by apply EncodeDestination_decodes |]. split.
  - intros d Hdec Hne. by destruct (DecodeDestination_encodes params Hp s d Hs Hdec) as [| [_ H]].
  - by apply ExtractDestinations_multisig.
Qed.

Lemma destinations_roundtrip_witness :
  let key := 2 :: replicate 32 9 in
  ExtractDestinations ([82] ++ push_data key ++ push_data key ++ [82; OP_CHECKMULTISIG]) =
    Some (TX_MULTISIG, [GetID key; GetID key], 2).
Proof.
  intros key.
  refine (proj2 (proj2 (proj2 (destinations_roundtrip main_prefixes (CKeyID (replicate 20 7)) [] 2 [key; key] _ _ _ _ _ _ _ _ _)))).
  - split; [exists 60; split; [reflexivity | unfold byte_ok; lia] |].
    split; [exists 122; split; [reflexivity | unfold byte_ok; lia] | discriminate].
  - split; [reflexivity |]. apply Forall_replicate. unfold byte_ok. lia.
  - cbn. lia.
  - cbn. lia.
  - cbn. lia.
  - repeat constructor.
  - reflexivity.
  - reflexivity.
Defined.
