(* ===== verification/Ans.v ===== *)
(** * Asset data: ANS identifiers, IPFS hashes and transaction ids
      ([src/assets/ans.cpp]; [EncodeAssetData], [DecodeAssetData] and
      [CheckEncoded] of [src/assets/assets.cpp])

    IPv4 addresses are parsed and printed by Boost ([address_v4]), a parameter
    here: it reads back the addresses it prints.  [None] is an exception that
    leaves the function: [std::stoul] throws on a number that does not fit. *)

From Stdlib Require Import String.
From stdpp Require Import list.
From S2P Require Import Prelude Text Bytes StrEncodings Hashes Base58 Standard.

(** [boost::asio::ip::address_v4]. *)
Class AddressV4 := {
  v4_from_string : list Z -> option Z;
  v4_to_string : Z -> list Z
}.

Class AddressV4Ok `{AddressV4} : Prop := {
  v4_reads_back : forall n, 0 <= n < 2 ^ 32 -> v4_from_string (v4_to_string n) = Some n;
  v4_zero : v4_to_string 0 = codes "0.0.0.0"
}.

Definition ans_prefix : list Z := codes "ANS".
Definition ans_domain : list Z := codes ".AVN".

(** [enum Type]. *)
Definition ANS_ADDR : Z := 0.
Definition ANS_IP : Z := 1.

(** [std::hex << n]: no leading zeros, small letters. *)
Fixpoint hex_digits (fuel : nat) (n : Z) : list Z :=
  match fuel with
  | O => []
  | S fuel => if n <? 16 then [hex_char n] else hex_digits fuel (n / 16) ++ [hex_char (n mod 16)]
  end.

(** [std::stoul(s, 0, 16)] *)
Definition stoul16 (s : list Z) : option Z :=
  match strtoull s 16 with
  | (n, rest, false) => if bool_decide (rest = s) then None else Some n
  | (_, _, true) => None
  end.

Section Ans.
Context `{AddressV4}.
Variable params : Base58Prefixes.

Definition IPToHex (strIP : list Z) : list Z :=
  match v4_from_string strIP with
  | None => codes "0"
  | Some ip => hex_digits 8 ip
  end.

Definition HexToIP (hexIP : list Z) : option (list Z) :=
  if negb (IsHexNumber hexIP) then Some (codes "0.0.0.0")
  else hex ← stoul16 hexIP; Some (v4_to_string (u32 hex)).

Definition CheckIP (rawip : list Z) (isHex : bool) : option bool :=
  ip ← (if isHex then HexToIP (c_str rawip) else Some rawip);
  Some (bool_decide (is_Some (v4_from_string ip))).

Definition CheckTypeData (type : Z) (typeData : list Z) : option bool :=
  if type =? ANS_ADDR then destination ← DecodeDestination params typeData; Some (IsValidDestination destination)
  else if type =? ANS_IP then CheckIP typeData true
  else Some false.

(** The text stored for the data the user gives; an invalid value also sets
    the error. *)
Definition FormatTypeData (type : Z) (typeData : list Z) : option (list Z * bool) :=
  if type =? ANS_ADDR then
    destination ← DecodeDestination params typeData; Some (typeData, negb (IsValidDestination destination))
  else if type =? ANS_IP then ok ← CheckIP typeData false; Some (IPToHex typeData, negb ok)
  else Some (typeData, false).

Definition IsValidID (ansID : list Z) : option bool :=
  if (length ansID <=? length ans_prefix + 1)%nat then Some false
  else if negb (bool_decide (take (length ans_prefix) ansID = ans_prefix) && (length ansID <=? 64)%nat) then Some false
  else
    let hexStr := take 1 (drop (length ans_prefix) ansID) in
    if negb (IsHexNumber hexStr) then Some false
    else
      hexInt ← stoul16 hexStr;
      if hexInt >? 0xf then Some false
      else CheckTypeData hexInt (drop (length ans_prefix + 1) ansID).

(** An identifier; the type is not set when it is not valid. *)
Record CAvianNameSystemID := mkANS { m_type : option Z; m_addr : list Z; m_ip : list Z }.

Definition ANS_of_data (type : Z) (rawData : list Z) : option CAvianNameSystemID :=
  ok ← CheckTypeData type rawData;
  if negb ok then Some (mkANS (Some type) [] [])
  else if type =? ANS_ADDR then Some (mkANS (Some type) rawData [])
  else if type =? ANS_IP then ip ← HexToIP (c_str rawData); Some (mkANS (Some type) [] ip)
  else Some (mkANS (Some type) [] []).

Definition ANS_of_id (ansID : list Z) : option CAvianNameSystemID :=
  ok ← IsValidID ansID;
  if negb ok then Some (mkANS None [] [])
  else
    type ← stoul16 (take 1 (drop (length ans_prefix) ansID));
    let data := drop (length ans_prefix + 1) ansID in
    if type =? ANS_ADDR then Some (mkANS (Some type) data [])
    else if type =? ANS_IP then ip ← HexToIP (c_str data); Some (mkANS (Some type) [] ip)
    else Some (mkANS (Some type) [] []).

(** [None]: the type is not initialised. *)
Definition ANS_to_string (a : CAvianNameSystemID) : option (list Z) :=
  type ← m_type a;
  Some (ans_prefix ++ hex_digits 8 type ++
        (if type =? ANS_ADDR then m_addr a else if type =? ANS_IP then IPToHex (m_ip a) else [])).

(** ** Asset data *)

Definition DecodeIPFS (encoded : list Z) : option (list Z) :=
  r ← DecodeBase58 encoded; Some (match r with Some b => b | None => [] end).

Definition EncodeIPFS (decoded : list Z) : option (list Z) := EncodeBase58 decoded.

Definition DecodeAssetData (encoded : list Z) : option (list Z) :=
  ans ← IsValidID encoded;
  if ans : bool then Some encoded
  else if (length encoded =? 46)%nat then DecodeIPFS encoded
  else if (length encoded =? 64)%nat && IsHex encoded then Some (ParseHex encoded)
  else Some [].

Definition EncodeAssetData (decoded : list Z) : option (list Z) :=
  ans ← IsValidID decoded;
  if ans : bool then Some decoded
  else if (length decoded =? 34)%nat then EncodeIPFS decoded
  else if (length decoded =? 32)%nat then Some (HexStr decoded)
  else Some [].

Definition CheckEncoded (IsAvianNameSystemDeployed AreMessagesDeployed : bool) (hash : list Z) : option bool :=
  encodedStr ← EncodeAssetData hash;
  ans ← (if IsAvianNameSystemDeployed then IsValidID encodedStr else Some false);
  if ans : bool then Some true
  else if bool_decide (take 2 encodedStr = codes "Qm") && (length encodedStr =? 46)%nat then Some true
  else if AreMessagesDeployed then Some (IsHex encodedStr && (length encodedStr =? 64)%nat)
  else Some false.
End Ans.

(** ** Identifiers of IP addresses *)

Lemma HexDigit_range c : -1 <= HexDigit c < 16.
Proof. unfold HexDigit, isdigit. repeat case_match; lia. Qed.

Lemma span_all f s : forallb f s = true -> span f s = (s, []).
Proof. induction s as [|c s IH]; [done|]. cbn. intros [-> Hs]%andb_prop. by rewrite IH. Qed.

Lemma num_value_range base ds : 0 <= base -> Forall (fun c => 0 <= HexDigit c) ds -> 0 <= num_value base ds.
Proof.
  intros Hb Hds. unfold num_value. assert (H : forall x, 0 <= x -> 0 <= fold_left (fun acc c => acc * base + HexDigit c) ds x).
  { induction Hds as [|c ds Hc _ IH]; intros x Hx; cbn; [done|]. apply IH. nia. }
  by apply H.
Qed.

(** The hexadecimal digits after an optional [0x]. *)
Definition hex_part (s : list Z) : list Z := skip_0x 16 s.

Lemma hex_digit_plain c : 0 <= HexDigit c -> isspace c = false /\ c <> 45 /\ c <> 43.
Proof. unfold HexDigit, isdigit, isspace. repeat case_match; lia. Qed.

Lemma IsHexNumber_digits s : IsHexNumber s = true ->
  forallb (base_digit 16) (hex_part s) = true /\ hex_part s <> [] /\ read_sign (skip_while isspace s) = (false, s).
Proof.
  unfold IsHexNumber, hex_part.
  assert (Hall : forall l, forallb (fun c => negb (HexDigit c <? 0)) l = true -> forallb (base_digit 16) l = true).
  { induction l as [|c l IH]; [done|]. cbn. intros [Hc Hl]%andb_prop. rewrite IH by done. unfold base_digit.
    pose proof (HexDigit_range c). lia. }
  assert (Hfirst : forall c l, 0 <= HexDigit c -> read_sign (skip_while isspace (c :: l)) = (false, c :: l)).
  { intros c l Hc. destruct (hex_digit_plain c Hc) as (Hs & H1 & H2). cbn. rewrite Hs. cbn.
    by rewrite (proj2 (Z.eqb_neq c 45)), (proj2 (Z.eqb_neq c 43)). }
  destruct ((2 <? length s)%nat && (nth 0 s 0 =? 48) && (nth 1 s 0 =? 120)) eqn:Ex.
  - destruct s as [|z [|x [|d s]]]; try done. cbn in Ex. assert (z = 48 /\ x = 120) as [-> ->] by lia.
    cbn [drop]. intros [Hd _]%andb_prop. apply Hall in Hd. pose proof Hd as Hd'. cbn in Hd'. apply andb_prop in Hd' as [Hd' _].
    cbn [skip_0x]. rewrite Hd'. cbn. done.
  - intros [Hd Hl]%andb_prop. change (drop 0 s) with s in Hd.
    destruct s as [|z s]; [done|]. assert (0 <= HexDigit z) as Hz by (cbn in Hd; lia).
    assert (skip_0x 16 (z :: s) = z :: s) as ->.
    { destruct s as [|x [|d s]]; try done. cbn [skip_0x].
      assert (HexDigit x <> -1) as Hx by (cbn in Hd; lia).
      assert ((x =? 120) || (x =? 88) = false) as ->; [|by rewrite andb_false_r].
      apply not_true_is_false. intros Hxx. apply Hx. assert (x = 120 \/ x = 88) as [-> | ->] by lia; done. }
    split; [by apply Hall|]. split; [done|]. by apply Hfirst.
Qed.

(** The conversion of a hexadecimal number: it throws exactly when the number
    needs more than 64 bits. *)
Lemma stoul16_hex s : IsHexNumber s = true ->
  stoul16 s = if num_value 16 (hex_part s) <? 2 ^ 64 then Some (num_value 16 (hex_part s)) else None.
Proof.
  intros H. destruct (IsHexNumber_digits s H) as (Hd & Hne & Hs). unfold stoul16, strtoull. rewrite Hs.
  fold (hex_part s). rewrite span_all, bool_decide_false by done.
  destruct (Z.ltb_spec (2 ^ 64 - 1) (num_value 16 (hex_part s))), (Z.ltb_spec (num_value 16 (hex_part s)) (2 ^ 64)); try lia; [done|].
  rewrite bool_decide_false; [done|]. intros <-. done.
Qed.

Section AnsProofs.
Context `{AddressV4Ok}.
Variable params : Base58Prefixes.

Lemma CheckIP_hex raw :
  CheckIP raw true = if IsHexNumber (c_str raw) && (2 ^ 64 <=? num_value 16 (hex_part (c_str raw))) then None else Some true.
Proof.
  assert (Hv : forall n, 0 <= n < 2 ^ 32 -> Some (bool_decide (is_Some (v4_from_string (v4_to_string n)))) = Some true).
  { intros n Hn. rewrite v4_reads_back by done. by rewrite bool_decide_true by eauto. }
  unfold CheckIP, HexToIP. destruct (IsHexNumber (c_str raw)) eqn:Hh; cbn [negb andb mbind option_bind].
  - rewrite stoul16_hex by done. rewrite Z.leb_antisym. destruct (_ <? 2 ^ 64); cbn [negb mbind option_bind]; [|done].
    apply Hv. auto with machine.
  - rewrite <- v4_zero. apply Hv. lia.
Qed.

Lemma IsValidID_IP data : (0 < length data <= 60)%nat ->
  IsValidID params (codes "ANS1" ++ data) =
    if IsHexNumber (c_str data) && (2 ^ 64 <=? num_value 16 (hex_part (c_str data))) then None else Some true.
Proof.
  intros Hl. unfold IsValidID. change (length ans_prefix) with 3%nat.
  rewrite (proj2 (Nat.leb_gt _ _)) by (rewrite length_app; cbn; lia).
  replace (bool_decide (take 3 (codes "ANS1" ++ data) = ans_prefix)) with true by reflexivity.
  rewrite (proj2 (Nat.leb_le _ _)) by (rewrite length_app; cbn; lia). cbn [negb andb].
  replace (take 1 (drop 3 (codes "ANS1" ++ data))) with (codes "1") by reflexivity.
  change (IsHexNumber (codes "1")) with true. change (stoul16 (codes "1")) with (Some 1). cbn [negb mbind option_bind].
  change (1 >? 15) with false. cbn iota. replace (drop (3 + 1) (codes "ANS1" ++ data)) with data by reflexivity.
  unfold CheckTypeData. change (1 =? ANS_ADDR) with false. change (1 =? ANS_IP) with true. cbn iota. apply CheckIP_hex.
Qed.
End AnsProofs.

(** The data of an IP identifier is not validated: every text of up to 60
    characters after the type is accepted, except that a hexadecimal number
    of more than 64 bits is not rejected either but makes the check throw.  So
    does the check of any asset data with that content: a message or
    transaction id of 32 characters, whatever is deployed. *)
Theorem ANS_IP_unchecked `{AddressV4Ok} params data :
  (0 < length data <= 60)%nat ->
  let throws := IsHexNumber (c_str data) && (2 ^ 64 <=? num_value 16 (hex_part (c_str data))) in
  IsValidID params (codes "ANS1" ++ data) = (if throws then None else Some true) /\
  (throws = true -> forall ans messages, CheckEncoded params ans messages (codes "ANS1" ++ data) = None).
Proof.
  intros Hl throws. pose proof (IsValidID_IP params data Hl) as E. fold throws in E. split; [done|].
  intros Ht ans messages. unfold CheckEncoded, EncodeAssetData. by rewrite E, Ht.
Qed.

(** Dotted decimal notation, as an instance of the parameter. *)
Definition dotted (n : Z) : list Z :=
  print_dec (n / 2 ^ 24) ++ 46 :: print_dec (n / 2 ^ 16 mod 256) ++ 46 :: print_dec (n / 2 ^ 8 mod 256) ++ 46 :: print_dec (n mod 256).

Definition read_octet (s : list Z) : Z * list Z := let '(ds, rest) := span isdigit s in (dec_value ds, drop 1 rest).

Definition read_dotted (s : list Z) : option Z :=
  let '(a, s1) := read_octet s in
  let '(b, s2) := read_octet s1 in
  let '(c, s3) := read_octet s2 in
  let '(d, _) := read_octet s3 in
  let n := a * 2 ^ 24 + b * 2 ^ 16 + c * 2 ^ 8 + d in
  if bool_decide (dotted n = s) then Some n else None.

Definition dotted_v4 : AddressV4 := {| v4_from_string := read_dotted; v4_to_string := dotted |}.

Lemma read_octet_print n rest : 0 <= n < 256 -> read_octet (print_dec n ++ 46 :: rest) = (n, rest).
Proof.
  intros Hn. destruct (print_dec_spec n ltac:(lia)) as (Hd & _ & Hv). unfold read_octet.
  assert (span isdigit (print_dec n ++ 46 :: rest) = (print_dec n, 46 :: rest)) as ->.
  { clear Hv. induction Hd as [|c l Hc _ IH]; [done|]. cbn. by rewrite Hc, IH. }
  by rewrite Hv.
Qed.

Lemma dotted_v4_ok : @AddressV4Ok dotted_v4.
Proof.
  split; [|reflexivity]. intros n Hn. change (read_dotted (dotted n) = Some n). unfold read_dotted. unfold dotted at 1.
  assert (0 <= n / 2 ^ 24 < 256) by (split; [apply Z.div_pos; lia|apply Z.div_lt_upper_bound; lia]).
  rewrite !read_octet_print by (done || (apply Z.mod_pos_bound; lia)).
  assert (read_octet (print_dec (n mod 256)) = (n mod 256, [])) as ->.
  { destruct (print_dec_spec (n mod 256)) as (Hd & _ & Hv); [pose proof (Z.mod_pos_bound n 256); lia|].
    unfold read_octet. rewrite span_digits, Hv by done. done. }
  assert (n / 2 ^ 24 * 2 ^ 24 + n / 2 ^ 16 mod 256 * 2 ^ 16 + n / 2 ^ 8 mod 256 * 2 ^ 8 + n mod 256 = n) as ->.
  { Z.to_euclidean_division_equations. lia. }
  by rewrite bool_decide_true.
Qed.

