(* ===== verification/BoolEE.v ===== *)
(** * Verifier expressions ([src/LibBoolEE.cpp])

    The evaluator of the boolean expressions over qualifiers that guard
    restricted assets.  A string is the list of its character codes.  An
    expression may throw; the recursion of [resolve] runs on fuel, and the
    length of the string is proved to be enough. *)

From Stdlib Require Import String.
From stdpp Require Import gmap.
From S2P Require Import Prelude Text AssetNames Base58.

Inductive Outcome :=
| Value (b : bool)
| Throw        (* std::runtime_error *)
| OutOfFuel.

Definition chr_open : Z := 40.
Definition chr_close : Z := 41.
Definition chr_and : Z := 38.
Definition chr_or : Z := 124.
Definition chr_not : Z := 33.

Definition isalnum (c : Z) : bool := upper c || lower c || isdigit c.

Definition belongsToName (ch : Z) : bool := isalnum ch || one_of "_#." ch.

Definition removeWhitespaces (source : list Z) : list Z := List.filter (fun c => negb (isspace c)) source.

Definition removeCharacter (source : list Z) (ch : Z) : list Z := List.filter (fun c => negb (ch =? c)) source.

Definition substr (s : list Z) (pos n : nat) : list Z := take n (drop pos s).

(** The loop of [singleParse]; [rest] are the characters from [i] on,
    [start_pos = -1] is [None].  [None] is the exception. *)
Fixpoint parse_loop (formula : list Z) (op : Z) (rest : list Z) (i : nat) (start_pos : option nat) (parity_count : Z)
    (subexpressions : list (list Z)) : option (option nat * Z * list (list Z)) :=
  match rest with
  | [] => Some (start_pos, parity_count, subexpressions)
  | c :: rest =>
      let next := parse_loop formula op rest (S i) in
      if c =? chr_close then next start_pos (parity_count - 1) subexpressions
      else if c =? chr_open then
        next (match start_pos with None => Some i | _ => start_pos end) (parity_count + 1) subexpressions
      else if parity_count =? 0 then
        match start_pos with
        | None => next (if belongsToName c || (c =? chr_not) then Some i else None) parity_count subexpressions
        | Some start =>
            if negb (belongsToName c || (c =? chr_not)) then
              if op =? c then next (Some (i + 1)%nat) parity_count (subexpressions ++ [substr formula start (i - start)])
              else if negb (c =? chr_and) && negb (c =? chr_or) then None
              else next start_pos parity_count subexpressions
            else next start_pos parity_count subexpressions
        end
      else next start_pos parity_count subexpressions
  end.

Definition singleParse (formula : list Z) (op : Z) : option (list (list Z)) :=
  '(start_pos, parity_count, subexpressions) ← parse_loop formula op formula 0 None 0 [];
  let subexpressions :=
    match start_pos with
    | Some start => subexpressions ++ [substr formula start (length formula - start)]
    | None => subexpressions
    end in
  if negb (parity_count =? 0) then None else Some subexpressions.

(** The subexpressions are all evaluated; an exception of one leaves the loop. *)
Fixpoint resolve_all (resolve : list Z -> Outcome) (combine : bool -> bool -> bool) (result : bool) (subs : list (list Z)) : Outcome :=
  match subs with
  | [] => Value result
  | s :: subs =>
      match resolve s with
      | Value b => resolve_all resolve combine (combine result b) subs
      | o => o
      end
  end.

Definition negate (o : Outcome) : Outcome := match o with Value b => Value (negb b) | _ => o end.

Fixpoint resolveRec (fuel : nat) (source : list Z) (valuation : gmap (list Z) bool) : Outcome :=
  match fuel with
  | O => OutOfFuel
  | S fuel =>
      let resolve s := resolveRec fuel (removeWhitespaces s) valuation in
      if bool_decide (source = []) then Throw
      else
        match singleParse source chr_or with
        | None => Throw
        | Some subs_or =>
            match (if (length subs_or =? 1)%nat then
                     match singleParse source chr_and with Some s => Some (chr_and, s) | None => None end
                   else Some (chr_or, subs_or)) with
            | None => Throw
            | Some (current_op, subexpressions) =>
                if (length subexpressions =? 0)%nat then Throw
                else if (length subexpressions =? 1)%nat then
                  if nth 0 source 0 =? chr_not then negate (resolve (drop 1 source))
                  else if nth 0 source 0 =? chr_open then resolve (substr source 1 (length source - 2))
                  else if bool_decide (source = codes "1") then Value true
                  else if bool_decide (source = codes "0") then Value false
                  else match valuation !! source with
                       | None => Throw
                       | Some b => Value b
                       end
                else if current_op =? chr_or then resolve_all resolve orb false subexpressions
                else resolve_all resolve andb true subexpressions
            end
        end
  end.

Definition resolve (source : list Z) (valuation : gmap (list Z) bool) : Outcome :=
  resolveRec (S (length source)) (removeWhitespaces source) valuation.

(** ** Termination *)

Lemma removeWhitespaces_length s : (length (removeWhitespaces s) <= length s)%nat.
Proof. apply filter_length_le. Qed.

(** The pieces are shorter than the formula when there are several: each ends
    before an operator or starts after one. *)
Definition parsed_pieces (formula : list Z) (start : option nat) (subs : list (list Z)) : Prop :=
  Forall (fun p => (length p < length formula)%nat) subs /\ (subs <> [] -> exists s, start = Some s /\ (1 <= s)%nat).

Lemma parse_loop_pieces formula op rest : forall i start parity subs r,
  (i + length rest = length formula)%nat -> parsed_pieces formula start subs ->
  parse_loop formula op rest i start parity subs = Some r -> parsed_pieces formula r.1.1 r.2.
Proof.
  induction rest as [|c rest IH]; intros i start parity subs r Hi Hp; cbn [parse_loop length] in *.
  - intros [= <-]. done.
  - assert (Hn : forall start' parity' subs', parsed_pieces formula start' subs' ->
      parse_loop formula op rest (S i) start' parity' subs' = Some r -> parsed_pieces formula r.1.1 r.2)
      by (intros; eapply IH; [|done..]; lia).
    assert (Hs : forall j, parsed_pieces formula (match start with None => Some j | _ => start end) subs)
      by (intros j; destruct start; [done|]; destruct Hp as [? Hx]; split; [done|];
          intros ?; destruct (Hx ltac:(done)) as (? & ? & ?); done).
    repeat (case_match; subst); try (intros; eapply Hn; eauto; fail); try done.
    + apply Hn. destruct Hp as [Hf _]. split.
      * apply Forall_app; split; [done|]. constructor; [|constructor].
        unfold substr. rewrite length_take. lia.
      * intros _. eexists. split; [done|]. lia.
    + apply Hn. apply (Hs i).
    + apply Hn. apply (Hs i).
Qed.

Lemma singleParse_pieces formula op subs :
  singleParse formula op = Some subs -> (2 <= length subs)%nat -> Forall (fun p => (length p < length formula)%nat) subs.
Proof.
  unfold singleParse. destruct (parse_loop _ _ _ _ _ _ _) as [[[start parity] ps]|] eqn:E; [|done]. cbn.
  apply parse_loop_pieces in E as [Hf Hs]; [|done|split; [constructor|done]]. cbn in *.
  destruct (negb _); [done|]. intros [= <-]. destruct start as [s|]; [|done].
  rewrite length_app; cbn. intros Hl. apply Forall_app; split; [done|]. constructor; [|constructor].
  destruct Hs as (s' & [= <-] & ?); [intros ->; cbn in Hl; lia|].
  unfold substr. rewrite length_take, length_drop.
  assert (length formula <> 0)%nat; [|lia]. destruct ps as [|p ps]; [cbn in Hl; lia|]. inversion Hf; lia.
Qed.

Lemma resolve_all_total f combine result subs :
  Forall (fun s => f s <> OutOfFuel) subs -> resolve_all f combine result subs <> OutOfFuel.
Proof.
  intros H. revert result. induction H as [|s subs Hs _ IH]; intros result; cbn; [done|].
  destruct (f s); [apply IH|done..].
Qed.

Lemma resolveRec_total fuel : forall source valuation,
  (length source < fuel)%nat -> resolveRec fuel source valuation <> OutOfFuel.
Proof.
  induction fuel as [|fuel IH]; intros source v Hl; [lia|]. cbn [resolveRec].
  assert (Hr : forall s, (length s < length source)%nat -> resolveRec fuel (removeWhitespaces s) v <> OutOfFuel).
  { intros s ?. apply IH. pose proof (removeWhitespaces_length s). lia. }
  destruct (bool_decide_reflect (source = [])) as [|Hne]; [done|].
  assert (0 < length source)%nat by (destruct source; [done|cbn; lia]).
  destruct (singleParse source chr_or) as [so|] eqn:Eo; [|done].
  destruct (if (length so =? 1)%nat then _ else _) as [[op subs]|] eqn:Es; [|done].
  assert (Hp : (2 <= length subs)%nat -> Forall (fun p => resolveRec fuel (removeWhitespaces p) v <> OutOfFuel) subs).
  { intros H2. apply (Forall_impl (fun p => (length p < length source)%nat)); [|exact Hr].
    destruct (length so =? 1)%nat; [destruct (singleParse source chr_and) eqn:Ea; [|done]|];
      injection Es as <- <-; eapply singleParse_pieces; eauto. }
  destruct (Nat.eqb_spec (length subs) 0); [done|].
  destruct (Nat.eqb_spec (length subs) 1).
  - destruct (_ =? chr_not).
    { specialize (Hr (drop 1 source)). rewrite length_drop in Hr.
      destruct (resolveRec fuel _ v); cbn; [done..|]. intros _. apply Hr; [lia|done]. }
    destruct (_ =? chr_open). { apply Hr. unfold substr. rewrite length_take. lia. }
    repeat case_match; done.
  - destruct (op =? chr_or); apply resolve_all_total, Hp; lia.
Qed.

(** ** The language of expressions and its meaning

    Disjunctions of conjunctions of possibly negated names, constants and
    parenthesised expressions, with the value of the text under [v]. *)
Definition name_ok (n : list Z) : bool :=
  bool_decide (n <> []) && forallb belongsToName n && negb (bool_decide (n = codes "1")) && negb (bool_decide (n = codes "0")).

Inductive unary (v : list Z -> option bool) : list Z -> bool -> Prop :=
| unary_name n b : name_ok n = true -> v n = Some b -> unary v n b
| unary_true : unary v (codes "1") true
| unary_false : unary v (codes "0") false
| unary_not s b : unary v s b -> unary v (chr_not :: s) (negb b)
| unary_paren s b : disjunction v s b -> unary v (chr_open :: s ++ [chr_close]) b
with conjunction (v : list Z -> option bool) : list Z -> bool -> Prop :=
| conj_one s b : unary v s b -> conjunction v s b
| conj_and s b s' b' : unary v s b -> conjunction v s' b' -> conjunction v (s ++ chr_and :: s') (b && b')
with disjunction (v : list Z -> option bool) : list Z -> bool -> Prop :=
| disj_one s b : conjunction v s b -> disjunction v s b
| disj_or s b s' b' : conjunction v s b -> disjunction v s' b' -> disjunction v (s ++ chr_or :: s') (b || b').

Scheme unary_mind := Minimality for unary Sort Prop
with conjunction_mind := Minimality for conjunction Sort Prop
with disjunction_mind := Minimality for disjunction Sort Prop.
Combined Scheme expr_mind from unary_mind, conjunction_mind, disjunction_mind.

(** The scanner with the text since [start_pos] in place of the index. *)
Fixpoint scan (op : Z) (rest : list Z) (cur : option (list Z)) (parity : Z) (subs : list (list Z)) :
    option (option (list Z) * Z * list (list Z)) :=
  match rest with
  | [] => Some (cur, parity, subs)
  | c :: rest =>
      let ext := option_map (fun t => t ++ [c]) cur in
      let next := scan op rest in
      if c =? chr_close then next ext (parity - 1) subs
      else if c =? chr_open then next (Some (default [] cur ++ [c])) (parity + 1) subs
      else if parity =? 0 then
        match cur with
        | None => next (if belongsToName c || (c =? chr_not) then Some [c] else None) parity subs
        | Some t =>
            if negb (belongsToName c || (c =? chr_not)) then
              if op =? c then next (Some []) parity (subs ++ [t])
              else if negb (c =? chr_and) && negb (c =? chr_or) then None
              else next ext parity subs
            else next ext parity subs
        end
      else next ext parity subs
  end.

Lemma parse_loop_scan formula op rest : forall pre start parity subs,
  formula = pre ++ rest -> (forall s, start = Some s -> (s <= length pre)%nat) ->
  option_map (fun r => (option_map (fun s => drop s formula) r.1.1, r.1.2, r.2))
    (parse_loop formula op rest (length pre) start parity subs) =
  scan op rest (option_map (fun s => drop s pre) start) parity subs.
Proof.
  induction rest as [|c rest IH]; intros pre start parity subs Hf Hs.
  - cbn. rewrite app_nil_r in Hf. subst. done.
  - cbn [parse_loop scan].
    assert (Hf' : formula = (pre ++ [c]) ++ rest) by (subst; rewrite <- app_assoc; done).
    assert (Hl : length (pre ++ [c]) = S (length pre)) by (rewrite length_app; cbn; lia).
    assert (Hn : forall start' parity' subs', (forall s, start' = Some s -> (s <= S (length pre))%nat) ->
      option_map (fun r => (option_map (fun s => drop s formula) r.1.1, r.1.2, r.2))
        (parse_loop formula op rest (S (length pre)) start' parity' subs') =
      scan op rest (option_map (fun s => drop s (pre ++ [c])) start') parity' subs').
    { intros. rewrite <- Hl. apply IH; [done|]. rewrite Hl. done. }
    assert (Hx : option_map (fun t => t ++ [c]) (option_map (fun s => drop s pre) start) =
                 option_map (fun s => drop s (pre ++ [c])) start).
    { destruct start as [s|]; [|done]. cbn. rewrite drop_app_le by (by apply Hs). done. }
    assert (Hw : forall s, start = Some s -> (s <= S (length pre))%nat) by (intros s E; specialize (Hs s E); lia).
    assert (Hi : drop (length pre) (pre ++ [c]) = [c]) by apply drop_app_length.
    rewrite Hx. destruct (c =? chr_close); [by apply Hn|].
    destruct (c =? chr_open).
    { rewrite Hn by (destruct start; [done|intros ? [= <-]; lia]).
      destruct start as [s|]; cbn [option_map from_option id]; [|by rewrite Hi].
      injection Hx as <-. done. }
    destruct (parity =? 0); [|by apply Hn].
    destruct start as [s|]; cbn [option_map] in *.
    + destruct (negb _); [|by apply Hn]. destruct (op =? c).
      * rewrite Hn by (intros ? [= <-]; lia). cbn [option_map].
        rewrite drop_ge by (rewrite length_app; cbn; lia). do 3 f_equal.
        unfold substr. subst formula. rewrite drop_app_le by (by apply Hs).
        rewrite take_app_le by (rewrite length_drop; lia). rewrite take_ge; [done|]. rewrite length_drop. lia.
      * destruct (_ && _); [done|by apply Hn].
    + rewrite Hn by (destruct (_ || _); [intros ? [= <-]; lia|done]).
      destruct (_ || _); cbn [option_map]; [by rewrite Hi|done].
Qed.

Lemma singleParse_scan formula op :
  singleParse formula op =
  match scan op formula None 0 [] with
  | Some (cur, parity, subs) => if negb (parity =? 0) then None else Some (subs ++ option_list cur)
  | None => None
  end.
Proof.
  unfold singleParse.
  assert (H : forall s, None = Some s -> (s <= length (@nil Z))%nat) by done.
  pose proof (parse_loop_scan formula op formula [] None 0 [] eq_refl H) as E. cbn [option_map length] in E.
  rewrite <- E; clear H E.
  destruct (parse_loop _ _ _ _ _ _ _) as [[[start parity] subs]|]; [|done]. cbn.
  destruct (negb _); [done|]. destruct start as [s|]; cbn; [|by rewrite app_nil_r].
  unfold substr. rewrite take_ge; [done|]. rewrite length_drop. lia.
Qed.

Lemma scan_app op a b cur parity subs :
  scan op (a ++ b) cur parity subs =
  match scan op a cur parity subs with Some (cur, parity, subs) => scan op b cur parity subs | None => None end.
Proof.
  revert cur parity subs. induction a as [|c a IH]; intros cur parity subs; [done|]. cbn [app scan].
  destruct (c =? chr_close); [apply IH|]. destruct (c =? chr_open); [apply IH|].
  destruct (parity =? 0); [|apply IH]. destruct cur as [t|]; [|apply IH].
  destruct (negb _); [|apply IH]. destruct (op =? c); [apply IH|]. destruct (_ && _); [done|apply IH].
Qed.

(** Inside parentheses the scanner only collects text. *)
Lemma scan_name_char op c cur parity subs :
  belongsToName c = true ->
  scan op [c] (Some cur) parity subs = Some (Some (cur ++ [c]), parity, subs) /\
  scan op [c] None 0 subs = Some (Some [c], 0, subs).
Proof.
  intros Hc. cbn [scan option_map]. rewrite Hc. cbn.
  assert (c <> chr_close /\ c <> chr_open) as [?%Z.eqb_neq ?%Z.eqb_neq].
  { split; intros ->; vm_compute in Hc; done. }
  rewrite H, H0. destruct (parity =? 0); done.
Qed.

Lemma scan_name op n cur parity subs :
  forallb belongsToName n = true -> scan op n (Some cur) parity subs = Some (Some (cur ++ n), parity, subs).
Proof.
  revert cur. induction n as [|c n IH]; intros cur; cbn [forallb]; [by rewrite app_nil_r|].
  intros [Hc Hn]%andb_prop. change (c :: n) with ([c] ++ n).
  rewrite scan_app, (proj1 (scan_name_char op c cur parity subs Hc)), IH, <- app_assoc by done. done.
Qed.

Lemma scan_inner v op :
  (forall s b, unary v s b -> forall cur k subs, 0 < k -> scan op s (Some cur) k subs = Some (Some (cur ++ s), k, subs)) /\
  (forall s b, conjunction v s b -> forall cur k subs, 0 < k -> scan op s (Some cur) k subs = Some (Some (cur ++ s), k, subs)) /\
  (forall s b, disjunction v s b -> forall cur k subs, 0 < k -> scan op s (Some cur) k subs = Some (Some (cur ++ s), k, subs)).
Proof.
  assert (Hop : forall c cur k subs, c <> chr_close -> c <> chr_open -> 0 < k ->
    scan op [c] (Some cur) k subs = Some (Some (cur ++ [c]), k, subs)).
  { intros c cur k subs ?%Z.eqb_neq ?%Z.eqb_neq Hk. cbn. rewrite H, H0, (proj2 (Z.eqb_neq k 0)) by lia. done. }
  assert (Hsep : forall c s s', c <> chr_close -> c <> chr_open ->
    (forall cur k subs, 0 < k -> scan op s (Some cur) k subs = Some (Some (cur ++ s), k, subs)) ->
    (forall cur k subs, 0 < k -> scan op s' (Some cur) k subs = Some (Some (cur ++ s'), k, subs)) ->
    forall cur k subs, 0 < k -> scan op (s ++ c :: s') (Some cur) k subs = Some (Some (cur ++ s ++ c :: s'), k, subs)).
  { intros c s s' ? ? IH IH' cur k subs Hk. rewrite scan_app, IH by done.
    change (c :: s') with ([c] ++ s'). rewrite scan_app, Hop, IH' by done. by rewrite <- !app_assoc. }
  apply expr_mind; try (intros; auto; fail).
  - unfold name_ok. intros n b Hn _ cur k subs _. apply scan_name. destruct (forallb _ n); [done|].
    rewrite !andb_false_r in Hn. done.
  - intros cur k subs _. by apply scan_name.
  - intros cur k subs _. by apply scan_name.
  - intros s b _ IH cur k subs Hk. change (chr_not :: s) with ([chr_not] ++ s).
    rewrite scan_app, Hop, IH, <- app_assoc by done. done.
  - intros s b _ IH cur k subs Hk. cbn. rewrite scan_app, IH by lia. cbn. rewrite <- !app_assoc. do 3 f_equal. lia.
Qed.

Abbreviation text cur := (default [] cur).

(** Outside parentheses an operand is collected whole. *)
Lemma scan_unary v op s b :
  unary v s b -> forall cur subs, scan op s cur 0 subs = Some (Some (text cur ++ s), 0, subs).
Proof.
  assert (Hname : forall n cur subs, n <> [] -> forallb belongsToName n = true ->
    scan op n cur 0 subs = Some (Some (text cur ++ n), 0, subs)).
  { intros n [t|] subs Hne Hn; [by apply scan_name|]. destruct n as [|c n]; [done|]. cbn [forallb] in Hn.
    apply andb_prop in Hn as [Hc Hn]. change (c :: n) with ([c] ++ n).
    rewrite scan_app, (proj2 (scan_name_char op c [] 0 subs Hc)), scan_name by done. done. }
  induction 1 as [n b Hn Hv| | |s b Hu IH|s b Hs]; intros cur subs.
  - unfold name_ok in Hn. repeat (apply andb_prop in Hn as [Hn ?]). apply bool_decide_eq_true in Hn. by apply Hname.
  - by apply Hname.
  - by apply Hname.
  - change (chr_not :: s) with ([chr_not] ++ s). rewrite scan_app.
    assert (belongsToName chr_not || (chr_not =? chr_not) = true) as Hb by (vm_compute; done).
    destruct cur; cbn [scan option_map]; rewrite Hb; cbn; rewrite IH; cbn; rewrite <- ?app_assoc; done.
  - cbn. rewrite scan_app, (proj2 (proj2 (scan_inner v op))) with (b := b) by (done || lia). cbn.
    rewrite <- !app_assoc. done.
Qed.

Lemma scan_other op c cur subs :
  op <> c -> c = chr_and \/ c = chr_or -> scan op [c] (Some cur) 0 subs = Some (Some (cur ++ [c]), 0, subs).
Proof. intros ?%Z.eqb_neq [-> | ->]; cbn; rewrite H; done. Qed.

Lemma scan_push op cur subs :
  op = chr_and \/ op = chr_or -> scan op [op] (Some cur) 0 subs = Some (Some [], 0, subs ++ [cur]).
Proof. intros [-> | ->]; done. Qed.

Lemma scan_conjunction v s b :
  conjunction v s b -> forall cur subs, scan chr_or s cur 0 subs = Some (Some (text cur ++ s), 0, subs).
Proof.
  induction 1 as [s b Hs|s b s' b' Hs Hs' IH]; intros cur subs; [by eapply scan_unary|].
  rewrite scan_app, (scan_unary _ _ _ _ Hs). change (chr_and :: s') with ([chr_and] ++ s').
  rewrite scan_app, scan_other, IH by (done || by left). cbn. rewrite <- !app_assoc. done.
Qed.

(** The pieces the parser finds at the two levels. *)
Definition pieces (op : Z) (R : list Z -> bool -> Prop) (combine : list bool -> bool) (s : list Z) (b : bool) : Prop :=
  exists ps bs, Forall2 R ps bs /\ b = combine bs /\ (length ps = 1%nat -> ps = [s]) /\ ps <> [] /\
    forall cur subs, text cur = [] -> exists last, scan op s cur 0 subs = Some (Some last, 0, subs ++ removelast ps) /\
      removelast ps ++ [last] = ps.

Lemma pieces_one op R combine s b :
  R s b -> combine [b] = b -> (forall cur subs, scan op s cur 0 subs = Some (Some (text cur ++ s), 0, subs)) ->
  pieces op R combine s b.
Proof.
  intros HR Hc Hs. exists [s], [b]. repeat split; try done; [by constructor; [|constructor]|].
  intros cur subs Ht. exists s. rewrite Hs, Ht. cbn. by rewrite app_nil_r.
Qed.

Lemma pieces_cons op (R : list Z -> bool -> Prop) combine f s b s' b' :
  (op = chr_and \/ op = chr_or) -> (forall b bs, combine (b :: bs) = f b (combine bs)) ->
  R s b -> (forall cur subs, scan op s cur 0 subs = Some (Some (text cur ++ s), 0, subs)) ->
  pieces op R combine s' b' -> pieces op R combine (s ++ op :: s') (f b b').
Proof.
  intros Hop Hc HR Hs (ps & bs & Hps & -> & Hone & Hne & Hscan). exists (s :: ps), (b :: bs).
  split; [by constructor|]. split; [by rewrite Hc|]. split; [by destruct ps|]. split; [done|].
  intros cur subs Ht. rewrite scan_app, Hs, Ht. change ([] ++ s) with s. change (op :: s') with ([op] ++ s').
  rewrite scan_app, scan_push by done. destruct (Hscan (Some []) (subs ++ [s]) eq_refl) as (last & -> & Hl).
  exists last. destruct ps as [|p ps]; [done|]. change (removelast (s :: p :: ps)) with (s :: removelast (p :: ps)).
  rewrite <- app_assoc. split; [done|]. cbn [app]. by rewrite Hl.
Qed.

Lemma conjunction_pieces v s b : conjunction v s b -> pieces chr_and (unary v) (forallb id) s b.
Proof.
  induction 1 as [s b Hs|s b s' b' Hs Hs' IH].
  - apply pieces_one; [done|cbn; by rewrite andb_true_r|by eapply scan_unary].
  - apply (pieces_cons _ _ _ andb); [by left|done|done|by eapply scan_unary|done].
Qed.

Lemma disjunction_pieces v s b : disjunction v s b -> pieces chr_or (conjunction v) (existsb id) s b.
Proof.
  induction 1 as [s b Hs|s b s' b' Hs Hs' IH].
  - apply pieces_one; [done|cbn; by rewrite orb_false_r|by eapply scan_conjunction].
  - apply (pieces_cons _ _ _ orb); [by right|done|done|by eapply scan_conjunction|done].
Qed.

Lemma pieces_parse op R combine s b :
  pieces op R combine s b ->
  exists ps bs, singleParse s op = Some ps /\ Forall2 R ps bs /\ b = combine bs /\ ps <> [] /\ (length ps = 1%nat -> ps = [s]).
Proof.
  intros (ps & bs & Hps & -> & Hone & Hne & Hscan). exists ps, bs. repeat split; try done.
  rewrite singleParse_scan. destruct (Hscan None [] eq_refl) as (last & -> & Hl). cbn. by rewrite Hl.
Qed.

(** ** Evaluation computes the meaning *)

Lemma belongsToName_visible c : belongsToName c = true -> isspace c = false.
Proof.
  unfold belongsToName, isalnum, isspace, upper, lower, isdigit, one_of.
  change (codes "_#.") with [95; 35; 46]. cbn [existsb]. lia.
Qed.

Lemma expr_visible v :
  (forall s b, unary v s b -> forallb (fun c => negb (isspace c)) s = true) /\
  (forall s b, conjunction v s b -> forallb (fun c => negb (isspace c)) s = true) /\
  (forall s b, disjunction v s b -> forallb (fun c => negb (isspace c)) s = true).
Proof.
  apply expr_mind; intros; rewrite ?forallb_app; cbn [forallb]; rewrite ?forallb_app; try done.
  - unfold name_ok in H. repeat (apply andb_prop in H as [H ?]). apply forallb_forall. intros c Hc.
    rewrite belongsToName_visible; [done|]. eapply forallb_forall; eauto.
  - rewrite H0. done.
  - rewrite H0, H2. done.
  - rewrite H0, H2. done.
Qed.

Lemma removeWhitespaces_expr v s b : disjunction v s b -> removeWhitespaces s = s.
Proof.
  intros H%expr_visible. unfold removeWhitespaces. induction s as [|c s IH]; [done|]. cbn in *.
  apply andb_prop in H as [-> H]. by rewrite IH.
Qed.

Lemma resolve_all_combine f combine ps bs result :
  Forall2 (fun p b => f p = Value b) ps bs ->
  resolve_all f combine result ps = Value (fold_left combine bs result).
Proof. intros H. revert result. induction H as [|p b ps bs Hp _ IH]; intros; cbn; [done|]. rewrite Hp. apply IH. Qed.

Lemma fold_left_orb bs : forall r, fold_left orb bs r = r || existsb id bs.
Proof. induction bs as [|b bs IH]; intros r; cbn; [by rewrite orb_false_r|]. by rewrite IH, orb_assoc. Qed.

Lemma fold_left_andb bs : forall r, fold_left andb bs r = r && forallb id bs.
Proof. induction bs as [|b bs IH]; intros r; cbn; [by rewrite andb_true_r|]. by rewrite IH, andb_assoc. Qed.

Lemma resolveRec_unary fuel v s b :
  unary (fun n => v !! n) s b ->
  (forall s' b', disjunction (fun n => v !! n) s' b' -> (length s' < length s)%nat ->
    resolveRec fuel (removeWhitespaces s') v = Value b') ->
  (if nth 0 s 0 =? chr_not then negate (resolveRec fuel (removeWhitespaces (drop 1 s)) v)
   else if nth 0 s 0 =? chr_open then resolveRec fuel (removeWhitespaces (substr s 1 (length s - 2))) v
   else if bool_decide (s = codes "1") then Value true
   else if bool_decide (s = codes "0") then Value false
   else match v !! s with None => Throw | Some b => Value b end) = Value b.
Proof.
  intros Hu IH. destruct Hu as [n b Hn Hv| | |s b Hs|s b Hs]; try done.
  - unfold name_ok in Hn. repeat (apply andb_prop in Hn as [Hn ?]).
    destruct n as [|c n]; [done|]. cbn [nth].
    assert (Hc : belongsToName c = true) by (eapply forallb_forall; [done|by left]).
    rewrite (proj2 (Z.eqb_neq c chr_not)) by (intros ->; vm_compute in Hc; done).
    rewrite (proj2 (Z.eqb_neq c chr_open)) by (intros ->; vm_compute in Hc; done).
    destruct (bool_decide (_ = codes "1")); [done|]. destruct (bool_decide (_ = codes "0")); [done|]. by rewrite Hv.
  - change (nth 0 (chr_not :: s) 0 =? chr_not) with true. cbn iota. change (drop 1 (chr_not :: s)) with s.
    rewrite (IH s b); [done|by constructor; constructor|cbn; lia].
  - change (nth 0 (chr_open :: s ++ [chr_close]) 0 =? chr_not) with false.
    change (nth 0 (chr_open :: s ++ [chr_close]) 0 =? chr_open) with true. cbn iota.
    replace (substr _ 1 _) with s; [apply IH; [done|]; cbn; rewrite length_app; cbn; lia|].
    unfold substr. change (drop 1 (chr_open :: s ++ [chr_close])) with (s ++ [chr_close]).
    replace (_ - 2)%nat with (length s) by (cbn; rewrite length_app; cbn; lia).
    by rewrite take_app_length.
Qed.

Lemma resolve_pieces fuel v (R : list Z -> bool -> Prop) ps bs combine result n :
  (forall s b, R s b -> (length s < n)%nat -> resolveRec fuel (removeWhitespaces s) v = Value b) ->
  Forall (fun p => (length p < n)%nat) ps -> Forall2 R ps bs ->
  resolve_all (fun s => resolveRec fuel (removeWhitespaces s) v) combine result ps = Value (fold_left combine bs result).
Proof.
  intros IH Hl Hps. apply resolve_all_combine. induction Hps; inversion Hl; subst; constructor; auto.
Qed.

Lemma resolveRec_disjunction v fuel : forall s b,
  disjunction (fun n => v !! n) s b -> (length s < fuel)%nat -> resolveRec fuel s v = Value b.
Proof.
  induction fuel as [|fuel IH]; intros s b Hd Hl; [lia|]. cbn [resolveRec].
  assert (IH' : forall s' b', disjunction (fun n => v !! n) s' b' -> (length s' < length s)%nat ->
    resolveRec fuel (removeWhitespaces s') v = Value b').
  { intros s' b' H ?. rewrite (removeWhitespaces_expr _ _ _ H). apply IH; [done|lia]. }
  pose proof (disjunction_pieces _ _ _ Hd) as Hp. apply pieces_parse in Hp as (ps & bs & Ep & Hps & Hb & Hne & Hone).
  assert (s <> []) by (intros ->; vm_compute in Ep; injection Ep as <-; done).
  rewrite bool_decide_false by done. rewrite Ep. destruct (Nat.eqb_spec (length ps) 1) as [E1|E1].
  - rewrite (Hone E1) in Hps. inversion Hps as [|? b0 ? ? Hc Hn]; subst. inversion Hn; subst.
    replace (existsb id [b0]) with b0 in * by (by destruct b0).
    apply conjunction_pieces, pieces_parse in Hc as (qs & cs & Eq & Hqs & Hb' & Hne' & Hone'). rewrite Eq.
    destruct (Nat.eqb_spec (length qs) 0); [by destruct qs|]. destruct (Nat.eqb_spec (length qs) 1) as [E2|E2].
    + rewrite (Hone' E2) in Hqs. inversion Hqs as [|? b1 ? ? Hu Hn']; subst. inversion Hn'; subst.
      replace (forallb id [b1]) with b1 by (by destruct b1). by apply resolveRec_unary.
    + change (chr_and =? chr_or) with false. cbn iota.
      rewrite (resolve_pieces fuel v _ qs cs andb true (length s)) with (3 := Hqs);
        [by rewrite fold_left_andb, Hb'| |eapply singleParse_pieces; [done|lia]].
      intros s' b' ?. apply IH'. by do 2 constructor.
  - destruct (Nat.eqb_spec (length ps) 0); [by destruct ps|]. rewrite (proj2 (Nat.eqb_neq _ _) E1).
    change (chr_or =? chr_or) with true. cbn iota.
    rewrite (resolve_pieces fuel v _ ps bs orb false (length s)) with (3 := Hps);
      [by rewrite fold_left_orb, Hb| |eapply singleParse_pieces; [done|lia]].
    intros s' b' ?. apply IH'. by constructor.
Qed.

(** [resolve] always returns: the length of the expression bounds the depth
    of the recursion, on every string and every valuation, because the operand
    of a negation, the inside of parentheses and each of several operands are
    shorter than the expression. *)
Theorem resolve_terminates source valuation : resolve source valuation <> OutOfFuel.
Proof. apply resolveRec_total. pose proof (removeWhitespaces_length source). lia. Qed.

Lemma resolve_meaning source valuation b :
  disjunction (fun n => valuation !! n) (removeWhitespaces source) b -> resolve source valuation = Value b.
Proof.
  intros H. apply resolveRec_disjunction; [done|]. pose proof (removeWhitespaces_length source). lia.
Qed.

(** Characters in front of the first operand are skipped, not rejected. *)
Example resolve_leading_characters :
  resolve (codes "=*A | B") {[codes "A" := false; codes "B" := true]} = Value true /\
  resolve (codes "A =* B") {[codes "A" := false; codes "B" := true]} = Throw.
Proof. vm_compute. done. Qed.
