(* ===== verification/Verifiers.v ===== *)
(** * Verifier strings of restricted assets ([src/assets/assets.cpp])

    The qualifiers a verifier string names, its syntax check, and the check
    that an address satisfies it.  What the asset cache answers is passed as
    functions: whether a qualifier is issued, and whether an address is tagged
    with it. *)

From Stdlib Require Import String.
From stdpp Require Import gmap.
From S2P Require Import Prelude Text AssetNames Base58 BoolEE.

(** [[A-Z0-9_.]] *)
Definition qualifier_char (c : Z) : bool := upper c || isdigit c || one_of "_." c.

(** The successive matches of [[A-Z0-9_.]+]; [cur] is the match being read. *)
Fixpoint regex_matches (s : list Z) (cur : list Z) : list (list Z) :=
  let found := if bool_decide (cur = []) then [] else [cur] in
  match s with
  | [] => found
  | c :: s => if qualifier_char c then regex_matches s (cur ++ [c]) else found ++ regex_matches s []
  end.

Definition ExtractVerifierStringQualifiers (verifier : list Z) (qualifiers : gset (list Z)) : gset (list Z) :=
  qualifiers ∪ list_to_set (regex_matches verifier []).

Definition GetStrippedVerifierString (verifier : list Z) : list Z :=
  removeCharacter (removeWhitespaces verifier) chr_hash.

(** The verdict and the qualifiers found. *)
Definition CheckVerifierString (verifier : list Z) (setFoundQualifiers : gset (list Z)) : bool * gset (list Z) :=
  if bool_decide (verifier = codes "true") then (true, setFoundQualifiers)
  else if bool_decide (verifier = []) then (false, setFoundQualifiers)
  else
    let strippedVerifier := GetStrippedVerifierString verifier in
    if (80 <? length strippedVerifier)%nat then (false, setFoundQualifiers)
    else
      let found := ExtractVerifierStringQualifiers strippedVerifier setFoundQualifiers in
      if negb (forallb (fun q => IsQualifierNameValid (chr_hash :: q)) (elements found)) then (false, found)
      else
        let vals : gmap (list Z) bool := set_to_map (fun q => (q, true)) found in
        (match resolve verifier vals with Value _ => true | _ => false end, found).

Definition ContextualCheckVerifierString (CheckIfAssetExists : list Z -> bool) (CheckForAddressQualifier : list Z -> list Z -> bool)
    (verifier check_address : list Z) : bool :=
  if bool_decide (verifier = codes "true") then true
  else
    let '(ok, found) := CheckVerifierString verifier ∅ in
    if negb ok then false
    else if negb (forallb (fun q => CheckIfAssetExists (chr_hash :: q)) (elements found)) then false
    else if bool_decide (check_address = []) then true
    else
      let vals : gmap (list Z) bool :=
        set_to_map (fun q => (q, CheckForAddressQualifier (chr_hash :: q) check_address)) found in
      match resolve verifier vals with Value ret => ret | _ => false end.

(** ** What a well-formed verifier says *)

(** The qualifiers an expression over tags names, and their value for an
    address: only strings of [[A-Z0-9_.]] can be tags. *)
Definition tag_value (has : list Z -> bool) (n : list Z) : option bool :=
  if forallb qualifier_char n then Some (has n) else None.

Lemma regex_matches_run s t cur :
  forallb qualifier_char s = true -> regex_matches (s ++ t) cur = regex_matches t (cur ++ s).
Proof.
  revert cur. induction s as [|c s IH]; intros cur; cbn [forallb app]; [by rewrite app_nil_r|].
  intros [Hc Hs]%andb_prop. cbn [regex_matches]. rewrite Hc, IH, <- app_assoc by done. done.
Qed.

Lemma regex_matches_break s c t cur :
  qualifier_char c = false -> regex_matches (s ++ c :: t) cur = regex_matches s cur ++ regex_matches t [].
Proof.
  intros Hc. revert cur. induction s as [|d s IH]; intros cur; cbn [app regex_matches]; [by rewrite Hc|].
  destruct (qualifier_char d); rewrite IH; [done|]. by rewrite app_assoc.
Qed.

Lemma regex_matches_closed s c : qualifier_char c = false -> regex_matches (s ++ [c]) [] = regex_matches s [].
Proof. intros Hc. rewrite regex_matches_break by done. apply app_nil_r. Qed.

(** The expression keeps its value when the valuation is cut down to the
    qualifiers found in its text. *)
Lemma expr_found has (vals : list Z -> option bool) :
  (forall s b, unary (tag_value has) s b ->
    (forall n, n ∈ regex_matches s [] -> vals n = Some (has n)) -> unary vals s b) /\
  (forall s b, conjunction (tag_value has) s b ->
    (forall n, n ∈ regex_matches s [] -> vals n = Some (has n)) -> conjunction vals s b) /\
  (forall s b, disjunction (tag_value has) s b ->
    (forall n, n ∈ regex_matches s [] -> vals n = Some (has n)) -> disjunction vals s b).
Proof.
  apply expr_mind; try (intros; constructor; auto; fail).
  - intros n b Hn Hv Hf. unfold tag_value in Hv. destruct (forallb qualifier_char n) eqn:Hq; [|done].
    injection Hv as <-. constructor; [done|]. apply Hf.
    pose proof (regex_matches_run n [] [] Hq) as E. rewrite app_nil_r in E. rewrite E.
    cbn. rewrite bool_decide_false by (intros ->; done). by left.
  - intros s b _ IH Hf. apply unary_paren, IH. intros n Hn. apply Hf.
    change (n ∈ regex_matches (s ++ [chr_close]) []). by rewrite regex_matches_closed.
  - intros s b s' b' _ IH _ IH' Hf. rewrite regex_matches_break in Hf by done.
    apply conj_and; [apply IH|apply IH']; intros n Hn; apply Hf, elem_of_app; auto.
  - intros s b s' b' _ IH _ IH' Hf. rewrite regex_matches_break in Hf by done.
    apply disj_or; [apply IH|apply IH']; intros n Hn; apply Hf, elem_of_app; auto.
Qed.

(** Another valuation of the same tags gives the text a value as well. *)
Lemma expr_revalue has has' :
  (forall s b, unary (tag_value has) s b -> exists b', unary (tag_value has') s b') /\
  (forall s b, conjunction (tag_value has) s b -> exists b', conjunction (tag_value has') s b') /\
  (forall s b, disjunction (tag_value has) s b -> exists b', disjunction (tag_value has') s b').
Proof.
  apply expr_mind.
  - intros n b Hn Hv. unfold tag_value in Hv. destruct (forallb qualifier_char n) eqn:E; [|done].
    exists (has' n). constructor; [done|]. unfold tag_value. by rewrite E.
  - exists true. apply unary_true.
  - exists false. apply unary_false.
  - intros s b _ [b' H]. exists (negb b'). by apply unary_not.
  - intros s b _ [b' H]. exists b'. by apply unary_paren.
  - intros s b _ [b' H]. exists b'. by apply conj_one.
  - intros s b s' b' _ [c H] _ [c' H']. exists (c && c'). by apply conj_and.
  - intros s b _ [b' H]. exists b'. by apply disj_one.
  - intros s b s' b' _ [c H] _ [c' H']. exists (c || c'). by apply disj_or.
Qed.

Definition verifier_char (c : Z) : bool := qualifier_char c || one_of "()&|!" c.

Lemma expr_chars has :
  (forall s b, unary (tag_value has) s b -> forallb verifier_char s = true) /\
  (forall s b, conjunction (tag_value has) s b -> forallb verifier_char s = true) /\
  (forall s b, disjunction (tag_value has) s b -> forallb verifier_char s = true).
Proof.
  apply expr_mind; intros; rewrite ?forallb_app; cbn [forallb]; rewrite ?forallb_app, ?H0, ?H2; try done; try (by rewrite H0).
  unfold tag_value in H0. destruct (forallb qualifier_char n) eqn:E; [|done]. apply forallb_forall. intros c Hc.
  unfold verifier_char. rewrite (proj1 (forallb_forall _ _) E c Hc). done.
Qed.

Lemma removeCharacter_absent s c : forallb (fun d => negb (c =? d)) s = true -> removeCharacter s c = s.
Proof. induction s as [|d s IH]; [done|]. cbn [forallb]. intros [Hd Hs]%andb_prop. unfold removeCharacter in *. cbn [List.filter]. by rewrite Hd, IH. Qed.

Lemma stripped_expr has verifier b :
  disjunction (tag_value has) (removeWhitespaces verifier) b ->
  GetStrippedVerifierString verifier = removeWhitespaces verifier /\ verifier <> codes "true" /\ verifier <> [].
Proof.
  intros H. pose proof (proj2 (proj2 (expr_chars has)) _ _ H) as Hc. split; [|split].
  - unfold GetStrippedVerifierString. apply removeCharacter_absent, forallb_forall. intros c Hin.
    pose proof (proj1 (forallb_forall _ _) Hc c Hin) as Hv. destruct (Z.eqb_spec chr_hash c) as [<-|]; [|done].
    vm_compute in Hv. done.
  - intros ->. vm_compute in Hc. done.
  - intros ->. pose proof (resolve_meaning [] ∅ b) as Hr.
    assert (E : resolve [] ∅ = Throw) by reflexivity. rewrite E in Hr. discriminate Hr.
    destruct (expr_found has (fun n => (∅ : gmap (list Z) bool) !! n)) as (_ & _ & Hf). apply Hf; [done|].
    cbn. intros n Hn. by apply elem_of_nil in Hn.
Qed.

Abbreviation found_in l := (∅ ∪ list_to_set l : gset (list Z)).

Lemma forallb_found f (l : list (list Z)) : forallb f (elements (found_in l)) = forallb f l.
Proof.
  apply eq_true_iff_eq. rewrite !forallb_forall. split; intros H x Hx; apply H.
  - apply list_elem_of_In, elem_of_elements. apply list_elem_of_In in Hx. apply elem_of_union_r, elem_of_list_to_set, Hx.
  - apply list_elem_of_In, elem_of_elements, elem_of_union in Hx as [Hx|Hx]; [by apply elem_of_empty in Hx|].
    apply list_elem_of_In. by apply elem_of_list_to_set in Hx.
Qed.

Lemma found_vals (has : list Z -> bool) (l : list (list Z)) n :
  n ∈ l -> (set_to_map (fun q => (q, has q)) (found_in l) : gmap (list Z) bool) !! n = Some (has n).
Proof.
  intros Hn. apply lookup_set_to_map; [by intros y y' _ _ [= ->]|]. exists n. split; [set_solver|done].
Qed.

Lemma resolve_found has verifier b :
  disjunction (tag_value has) (removeWhitespaces verifier) b ->
  resolve verifier (set_to_map (fun q => (q, has q)) (found_in (regex_matches (removeWhitespaces verifier) []))) = Value b.
Proof. intros H. apply resolve_meaning, (expr_found has); [done|]. intros n. apply found_vals. Qed.

Lemma CheckVerifierString_expr has verifier b :
  disjunction (tag_value has) (removeWhitespaces verifier) b ->
  (length (removeWhitespaces verifier) <= 80)%nat ->
  CheckVerifierString verifier ∅ =
    (forallb (fun q => IsQualifierNameValid (chr_hash :: q)) (regex_matches (removeWhitespaces verifier) []),
     found_in (regex_matches (removeWhitespaces verifier) [])).
Proof.
  intros H Hl. destruct (stripped_expr _ _ _ H) as (Es & Ht & Hne). unfold CheckVerifierString.
  rewrite !bool_decide_false, Es, (proj2 (Nat.ltb_ge _ _)) by done.
  unfold ExtractVerifierStringQualifiers. rewrite forallb_found. destruct (forallb _ _); [|done]. cbn [negb].
  destruct (proj2 (proj2 (expr_revalue has (fun _ => true))) _ _ H) as [b' H']. by rewrite (resolve_found _ _ _ H').
Qed.

(** C29: A verifier string that is an expression over tags, with blanks
    anywhere, is checked as it reads: an address passes exactly when the
    expression has at most 80 characters, every tag in it is a valid and issued
    qualifier, and the expression holds with each tag true when the address
    carries the qualifier; [&] binds tighter than the bar and the exclamation
    mark tighter than both. *)
Theorem verifier_checks_address CheckIfAssetExists CheckForAddressQualifier verifier check_address b :
  disjunction (tag_value (fun q => CheckForAddressQualifier (chr_hash :: q) check_address)) (removeWhitespaces verifier) b ->
  check_address <> [] ->
  let tags := regex_matches (removeWhitespaces verifier) [] in
  ContextualCheckVerifierString CheckIfAssetExists CheckForAddressQualifier verifier check_address =
  (length (removeWhitespaces verifier) <=? 80)%nat && forallb (fun q => IsQualifierNameValid (chr_hash :: q)) tags &&
  forallb (fun q => CheckIfAssetExists (chr_hash :: q)) tags && b.
Proof.
  intros H Ha tags. unfold ContextualCheckVerifierString.
  destruct (stripped_expr _ _ _ H) as (Es & Ht & Hne). rewrite bool_decide_false by done.
  destruct (Nat.leb_spec (length (removeWhitespaces verifier)) 80) as [Hl|Hl].
  - rewrite (CheckVerifierString_expr _ _ _ H Hl). fold tags.
    destruct (forallb (fun q => IsQualifierNameValid _) tags); [|done]. cbn [negb].
    rewrite forallb_found. destruct (forallb _ tags); [|done]. cbn [negb].
    rewrite bool_decide_false by done. subst tags. by rewrite (resolve_found _ _ _ H).
  - unfold CheckVerifierString. rewrite !bool_decide_false, Es, (proj2 (Nat.ltb_lt _ _)) by done. done.
Qed.

Lemma verifier_checks_address_witness :
  let has q _ := bool_decide (q = codes "#KYC") || bool_decide (q = codes "#EU.1") in
  ContextualCheckVerifierString (fun _ => true) has (codes "KYC & !( BAN | EU.2 ) | EU.1 & BAN") (codes "addr") = true.
Proof.
  intros has.
  rewrite (verifier_checks_address (fun _ => true) has (codes "KYC & !( BAN | EU.2 ) | EU.1 & BAN") (codes "addr") true);
    [vm_compute; reflexivity| |vm_compute; discriminate].
  replace (removeWhitespaces _) with (codes "KYC&!(BAN|EU.2)|EU.1&BAN") by (vm_compute; reflexivity).
  apply (disj_or _ (codes "KYC&!(BAN|EU.2)") true (codes "EU.1&BAN") false).
  - apply (conj_and _ (codes "KYC") true (codes "!(BAN|EU.2)") true); [by constructor|].
    apply conj_one, (unary_not _ (codes "(BAN|EU.2)") false), (unary_paren _ (codes "BAN|EU.2") false).
    apply (disj_or _ (codes "BAN") false (codes "EU.2") false); by repeat constructor.
  - constructor. apply (conj_and _ (codes "EU.1") true (codes "BAN") false); by repeat constructor.
Defined.
