(* ===== verification/NullAssets.v ===== *)
(** * Null-asset outputs: tags, freezes and verifier strings
      ([CNullAssetTxData] and [CNullAssetTxVerifierString] of
      [src/assets/assettypes.h] and [src/assets/assets.cpp])

    Outputs that start with [OP_AVN_ASSET] carry no value: they tag or freeze
    an address, freeze an asset, or set the verifier of a restricted asset.
    Their format, and the checks of one output on its own and against the
    assets cache. *)

From Stdlib Require Import String.
From stdpp Require Import gmap.
From S2P Require Import Prelude Text Bytes Serialize TxFormat Script ScriptNum AssetFormat AssetNames Hashes Base58 Standard Verifiers.

Record CNullAssetTxData := mkNullData { asset_name : list Z; flag : Z }.

Definition NullData_codec : Codec CNullAssetTxData := mkCodec
  (fun d => encode string_codec (asset_name d) ++ encode int8_codec (flag d))
  (fun s => '(n, s) ← decode string_codec s; '(f, s) ← decode int8_codec s; Some (mkNullData n f, s)).

(** What the checks ask of the assets cache. *)
Record AssetsView := mkAssetsView {
  GetAssetMetaDataIfExists : list Z -> option CNewAsset;
  CheckIfAssetExists : list Z -> bool;
  CheckForAddressQualifier : list Z -> list Z -> bool;    (* qualifier, address *)
  CheckForAddressRestriction : list Z -> list Z -> bool;  (* asset, address *)
  CheckForGlobalRestriction : list Z -> bool;
  GetAssetVerifierStringIfExists : list Z -> bool -> option (list Z)  (* asset, fSkipTempCache *)
}.

(** ** Scripts *)

Definition NullData_ConstructTransaction (script : list Z) (d : CNullAssetTxData) : list Z :=
  script ++ push_data (encode NullData_codec d).

Definition ConstructGlobalRestrictionTransaction (script : list Z) (d : CNullAssetTxData) : list Z :=
  script ++ [OP_AVN_ASSET; OP_RESERVED; OP_RESERVED] ++ push_data (encode NullData_codec d).

Definition Verifier_ConstructTransaction (script : list Z) (verifier_string : list Z) : list Z :=
  script ++ [OP_AVN_ASSET; OP_RESERVED] ++ push_data (encode string_codec verifier_string).

Section Addresses.
Variable params : Base58Prefixes.

(** [ExtractDestination] followed by [EncodeDestination]; a destination that
    was not extracted is [CNoDestination]. *)
Definition address_of (script : list Z) : list Z :=
  default [] (EncodeDestination params (default CNoDestination (ExtractDestination script))).

Definition AssetNullDataFromScript (script : list Z) : option (CNullAssetTxData * list Z) :=
  if negb (IsNullAssetTxDataScript script) then None
  else '(d, _) ← decode NullData_codec (drop 23 script); Some (d, address_of script).
End Addresses.

Definition GlobalAssetNullDataFromScript (script : list Z) : option CNullAssetTxData :=
  if negb (IsNullGlobalRestrictionAssetTxDataScript script) then None
  else '(d, _) ← decode NullData_codec (drop 4 script); Some d.

Definition AssetNullVerifierDataFromScript (script : list Z) : option (list Z) :=
  if negb (IsNullAssetVerifierTxDataScript script) then None
  else '(v, _) ← decode string_codec (drop 3 script); Some v.

(** ** Checks *)

Definition VerifyNullAssetDataFlag (f : Z) : bool := (f =? 0) || (f =? 1).

Section Checks.
Variable params : Base58Prefixes.
Variable cache : AssetsView.

(** Only a change of the current status is allowed. *)
Definition VerifyQualifierChange (data : CNullAssetTxData) (address : list Z) : bool :=
  VerifyNullAssetDataFlag (flag data) &&
  let fHasQualifier := CheckForAddressQualifier cache (asset_name data) address in
  if negb (flag data =? 0) then negb fHasQualifier else fHasQualifier.

Definition VerifyRestrictedAddressChange (data : CNullAssetTxData) (address : list Z) : bool :=
  VerifyNullAssetDataFlag (flag data) &&
  let fIsFrozen := CheckForAddressRestriction cache (asset_name data) address in
  if negb (flag data =? 0) then negb fIsFrozen else fIsFrozen.

Definition VerifyGlobalRestrictedChange (data : CNullAssetTxData) : bool :=
  VerifyNullAssetDataFlag (flag data) &&
  let fIsGloballyFrozen := CheckForGlobalRestriction cache (asset_name data) in
  if negb (flag data =? 0) then negb fIsGloballyFrozen else fIsGloballyFrozen.

Definition CheckVerifierAssetTxOut (script : list Z) : bool :=
  match AssetNullVerifierDataFromScript script with
  | None => false
  | Some verifier =>
      negb (existsb (Z.eqb 32) verifier) && negb (existsb (Z.eqb chr_hash) verifier) &&
      fst (CheckVerifierString verifier ∅)
  end.

Definition ContextualCheckNullAssetTxOut (script : list Z) : bool :=
  match AssetNullDataFromScript params script with
  | None => false
  | Some (data, address) =>
      if IsAssetNameAQualifier (asset_name data) false then VerifyQualifierChange data address
      else if IsAssetNameAnRestricted (asset_name data) then VerifyRestrictedAddressChange data address
      else false
  end.

Definition ContextualCheckGlobalAssetTxOut (script : list Z) : bool :=
  match GlobalAssetNullDataFromScript script with
  | None => false
  | Some data => VerifyGlobalRestrictedChange data
  end.

Definition ContextualCheckVerifierAssetTxOut (script : list Z) : bool :=
  match AssetNullVerifierDataFromScript script with
  | None => false
  | Some verifier =>
      ContextualCheckVerifierString (CheckIfAssetExists cache) (CheckForAddressQualifier cache) verifier []
  end.
End Checks.

(** ** Round trip *)

Lemma string_short v : (length v < 253)%nat -> encode string_codec v = Z.of_nat (length v) :: v.
Proof.
  intros H. cbn [encode string_codec]. rewrite bytes_encode_eq. unfold WriteCompactSize.
  rewrite (proj2 (Z.ltb_lt _ 253)) by lia. unfold ser_writedata8. cbn [le_encode app].
  by rewrite Z.mod_small by lia.
Qed.

Lemma push_data_short b : (length b < 76)%nat -> push_data b = Z.of_nat (length b) :: b.
Proof.
  intros H. unfold push_data, OP_PUSHDATA1. rewrite (proj2 (Z.ltb_lt _ _)) by lia. unfold wrapu. by rewrite Z.mod_small by lia.
Qed.

Lemma IsPushOnly_pushes a b : Z.of_nat (length a) < 2 ^ 32 -> Z.of_nat (length b) < 2 ^ 32 ->
  IsPushOnly (push_data a ++ push_data b) = true.
Proof.
  intros Ha Hb. unfold IsPushOnly. rewrite length_app. pose proof (push_data_length a). pose proof (push_data_length b).
  destruct (GetOp_push_data a (push_data b) Ha) as (op & E & Hop).
  destruct (GetOp_push_data b [] Hb) as (op' & E' & Hop'). rewrite app_nil_r in E'.
  destruct (length (push_data a)) as [|n]; [lia|]. destruct (length (push_data b)) as [|m] eqn:Em; [lia|].
  rewrite Nat.add_succ_r. cbn [Nat.add IsPushOnly_loop]. rewrite E. unfold OP_PUSHDATA4, OP_16 in *.
  destruct (push_data a ++ push_data b); [done|]. rewrite Z.gtb_ltb, (proj2 (Z.ltb_ge _ _)) by lia.
  rewrite E'. destruct (push_data b); [done|]. rewrite Z.gtb_ltb, (proj2 (Z.ltb_ge _ _)) by lia.
  by destruct (n + m)%nat.
Qed.

(** A tag or freeze of a valid name. *)
Definition null_data_ok (d : CNullAssetTxData) : Prop :=
  (3 <= length (asset_name d) <= 73)%nat /\ Forall (fun c => 0 <= c < 128) (asset_name d) /\ 0 <= flag d <= 1.

Lemma NullData_bytes d : null_data_ok d ->
  encode NullData_codec d = Z.of_nat (length (asset_name d)) :: asset_name d ++ [flag d].
Proof.
  intros (Hl & _ & Hf). cbn [encode NullData_codec]. rewrite string_short by lia. cbn [encode int8_codec].
  unfold ser_writedata8. cbn [le_encode app]. by rewrite Z.mod_small by lia.
Qed.

Lemma NullData_read d : null_data_ok d -> decode NullData_codec (encode NullData_codec d) = Some (d, []).
Proof.
  intros (Hl & _ & Hf). rewrite <- (app_nil_r (encode NullData_codec d)). cbn [encode decode NullData_codec].
  rewrite <- app_assoc, codec_ok by (unfold MAX_SIZE; lia). cbn [mbind option_bind].
  rewrite (codec_ok (flag d) []) by (unfold int8_range; lia). by destruct d.
Qed.

Lemma length_NullData d : null_data_ok d -> length (encode NullData_codec d) = (length (asset_name d) + 2)%nat.
Proof. intros H. rewrite NullData_bytes by done. cbn. rewrite length_app. cbn. lia. Qed.

(** The script that tags the hash [id]. *)
Lemma tag_script id d : length id = 20%nat -> null_data_ok d ->
  let script := NullData_ConstructTransaction ([OP_AVN_ASSET] ++ push_data id) d in
  IsNullAssetTxDataScript script = true /\ drop 23 script = encode NullData_codec d /\
  ExtractDestination script = Some (CKeyID id).
Proof.
  intros Hid Hd script. pose proof (length_NullData d Hd) as Hlen. pose proof Hd as (Hl & Hc & Hf).
  assert (Es : script = OP_AVN_ASSET :: 20 :: id ++ Z.of_nat (length (encode NullData_codec d)) :: encode NullData_codec d).
  { unfold script, NullData_ConstructTransaction. rewrite !push_data_short, Hid by lia. cbn [app]. done. }
  assert (Ha : IsAssetScript script = None).
  { unfold IsAssetScript. replace (byte_at script 25 OP_AVN_ASSET) with false; [by rewrite andb_false_r|].
    rewrite Es, NullData_bytes by done. unfold byte_at. cbn [nth]. rewrite app_nth2 by lia. rewrite Hid. cbn [nth Nat.sub].
    destruct (asset_name d) as [|n0 [|n1 n]]; [cbn in Hl; lia..|]. cbn [nth app]. apply Forall_cons in Hc as [_ [Hn1 _]%Forall_cons].
    unfold OP_AVN_ASSET. lia. }
  split; [|split].
  - unfold IsNullAssetTxDataScript. rewrite Es. cbn [length]. rewrite length_app, Hid. cbn [length].
    rewrite Hlen. apply andb_true_intro. split; [apply andb_true_intro; split; [|done]|done]. apply Nat.ltb_lt. lia.
  - rewrite Es. change (drop 23 (OP_AVN_ASSET :: 20 :: id ++ ?t)) with (drop 21 (id ++ t)).
    replace 21%nat with (length id + 1)%nat by lia. rewrite drop_app_add. done.
  - unfold ExtractDestination, Solver.
    assert (IsPayToScriptHash script = false) as -> by (rewrite Es; unfold IsPayToScriptHash, byte_at; cbn [nth]; by rewrite andb_false_r).
    rewrite Ha. assert (IsWitnessProgram script = None) as ->.
    { unfold IsWitnessProgram. destruct (_ || _); [done|]. rewrite Es. reflexivity. }
    assert ((1 <=? length script)%nat && byte_at script 0 OP_RETURN && IsPushOnly (drop 1 script) = false) as ->.
    { rewrite Es. unfold byte_at. cbn [nth]. change (OP_AVN_ASSET =? OP_RETURN) with false. by rewrite andb_false_r. }
    assert ((1 <=? length script)%nat && byte_at script 0 OP_AVN_ASSET && IsPushOnly (drop 1 script) = true) as ->.
    { unfold script, NullData_ConstructTransaction. cbn [app]. unfold byte_at. cbn [nth length].
      change (drop 1 (OP_AVN_ASSET :: ?t)) with t. rewrite IsPushOnly_pushes by lia. done. }
    assert ((23 <=? length script)%nat && negb (byte_at script 1 OP_RESERVED) = true) as ->.
    { rewrite Es. cbn [length]. rewrite length_app, Hid. cbn [length]. apply andb_true_intro; split; [apply Nat.leb_le; lia|done]. }
    cbn [mbind option_bind]. do 2 f_equal. rewrite Es. change (drop 2 (OP_AVN_ASSET :: 20 :: ?t)) with t.
    cbn. by rewrite take_app_length'.
Qed.

Lemma global_script d : null_data_ok d ->
  GlobalAssetNullDataFromScript (ConstructGlobalRestrictionTransaction [] d) = Some d.
Proof.
  intros Hd. pose proof (length_NullData d Hd) as Hlen. pose proof Hd as (Hl & _ & _).
  unfold GlobalAssetNullDataFromScript, ConstructGlobalRestrictionTransaction. rewrite push_data_short by lia. cbn [app].
  set (script := OP_AVN_ASSET :: _).
  assert (IsNullGlobalRestrictionAssetTxDataScript script = true) as ->.
  { unfold IsNullGlobalRestrictionAssetTxDataScript, script. cbn [length]. rewrite Hlen.
    rewrite (proj2 (Nat.ltb_lt _ _)) by lia. done. }
  cbn [negb]. change (drop 4 script) with (encode NullData_codec d). by rewrite NullData_read.
Qed.

(** The reader expects the string right after a length of one byte. *)
Lemma verifier_script v : (1 <= length v <= 80)%nat ->
  AssetNullVerifierDataFromScript (Verifier_ConstructTransaction [] v) =
  Some (if (length v <? 75)%nat then v else Z.of_nat (length v) :: v).
Proof.
  intros Hl. unfold AssetNullVerifierDataFromScript, Verifier_ConstructTransaction.
  assert (Hread : forall w, (length w < 253)%nat -> decode string_codec (Z.of_nat (length w) :: w) = Some (w, [])).
  { intros w Hw. rewrite <- (app_nil_r (_ :: _)), <- string_short by lia. apply codec_ok. unfold MAX_SIZE. lia. }
  rewrite string_short by lia. destruct (Nat.ltb_spec (length v) 75).
  - rewrite push_data_short by (cbn; lia). cbn [app length]. set (script := OP_AVN_ASSET :: _).
    assert (IsNullAssetVerifierTxDataScript script = true) as ->.
    { unfold IsNullAssetVerifierTxDataScript, script, byte_at, OP_RESERVED. cbn [length nth].
      rewrite (proj2 (Nat.ltb_lt _ _)) by lia. rewrite (proj2 (Z.eqb_neq (Z.of_nat (S (length v))) 0x50)) by lia. done. }
    cbn [negb]. change (drop 3 script) with (Z.of_nat (length v) :: v). by rewrite Hread by lia.
  - unfold push_data, OP_PUSHDATA1. cbn [length]. rewrite (proj2 (Z.ltb_ge _ _)), (proj2 (Z.leb_le _ _)) by lia.
    unfold wrapu. rewrite Z.mod_small by lia. cbn [app]. set (script := OP_AVN_ASSET :: _).
    assert (IsNullAssetVerifierTxDataScript script = true) as ->.
    { unfold IsNullAssetVerifierTxDataScript, script. cbn [length]. by rewrite (proj2 (Nat.ltb_lt _ _)) by lia. }
    cbn [negb]. change (drop 3 script) with (Z.of_nat (length (Z.of_nat (length v) :: v)) :: Z.of_nat (length v) :: v).
    by rewrite Hread by (cbn; lia).
Qed.

(** Tags, freezes and verifiers written into null-asset outputs are read
    back from them: the data of a tag or a freeze with the address of the key
    hash it names, a global freeze, and a verifier of up to 74 characters.  A
    verifier of 75 to 80 characters, which the checks admit, comes back with
    its length as an additional first character; and a tag on a script hash is
    read as a tag on the key hash with the same bytes. *)
Theorem null_assets_roundtrip params id d v : prefixes_ok params ->
  length id = 20%nat -> Forall byte_ok id -> null_data_ok d -> (1 <= length v <= 80)%nat ->
  (forall dest, dest = CKeyID id \/ dest = CScriptID id ->
    exists address, EncodeDestination params (CKeyID id) = Some address /\
    AssetNullDataFromScript params (NullData_ConstructTransaction (GetScriptForNullAssetDataDestination dest) d) = Some (d, address)) /\
  GlobalAssetNullDataFromScript (ConstructGlobalRestrictionTransaction [] d) = Some d /\
  AssetNullVerifierDataFromScript (Verifier_ConstructTransaction [] v) =
    Some (if (length v <? 75)%nat then v else Z.of_nat (length v) :: v).
Proof.
  intros Hp Hid Hb Hd Hv. split; [|split; [by apply global_script|by apply verifier_script]].
  intros dest Hdest. destruct (EncodeDestination_decodes params Hp (CKeyID id)) as (address & Ea & _); [done|].
  exists address. split; [done|].
  assert (GetScriptForNullAssetDataDestination dest = [OP_AVN_ASSET] ++ push_data id) as -> by (by destruct Hdest as [-> | ->]).
  destruct (tag_script id d Hid Hd) as (H1 & H2 & H3). unfold AssetNullDataFromScript, address_of.
  rewrite H1, H2, NullData_read, H3 by done. cbn [negb mbind option_bind from_option Datatypes.id]. by rewrite Ea.
Qed.

Lemma main_prefixes_ok : prefixes_ok main_prefixes.
Proof.
  split; [exists 60; split; [done|unfold byte_ok; lia]|].
  split; [exists 122; split; [done|unfold byte_ok; lia]|discriminate].
Qed.

