(* ===== verification/AssetTx.v ===== *)
(** * Transactions that create assets ([src/assets/assets.cpp])

    The shape of the transactions that issue and reissue assets ([IsNew...]
    and [Verify...]), the coins they burn, and the checks of the asset data.
    A reason of rejection is the message of the code without the values it
    interpolates, one for adjacent conditions on the same field group;
    [Abort] is undefined behaviour or an exception. *)

From Stdlib Require Import String.
From stdpp Require Import gmap.
From S2P Require Import Prelude Text Coins Serialize TxFormat Script AssetFormat AssetNames Money Hashes Base58 Standard.
From S2P Require Import TxVerify Ans Verifiers NullAssets.

Open Scope checked_scope.

(** What has been activated. *)
Record Deployments := mkDeployments {
  AreAssetsDeployed : bool;
  AreMessagesDeployed : bool;
  AreRestrictedAssetsDeployed : bool;
  IsAvianNameSystemDeployed : bool;
  AreEnforcedValuesDeployed : bool;
  AreCoinbaseCheckAssetsDeployed : bool
}.

(** ** Burns *)

Record CChainParams := mkChainParams {
  fTestNet : bool;
  base58Prefixes : Base58Prefixes;
  nIssueAssetBurnAmount : Z; nReissueAssetBurnAmount : Z; nIssueSubAssetBurnAmount : Z; nIssueUniqueAssetBurnAmount : Z;
  nIssueMsgChannelAssetBurnAmount : Z; nIssueQualifierAssetBurnAmount : Z; nIssueSubQualifierAssetBurnAmount : Z;
  nIssueRestrictedAssetBurnAmount : Z; nAddNullQualifierTagBurnAmount : Z;
  strIssueAssetBurnAddress : list Z; strReissueAssetBurnAddress : list Z; strIssueSubAssetBurnAddress : list Z;
  strIssueUniqueAssetBurnAddress : list Z; strIssueMsgChannelAssetBurnAddress : list Z;
  strIssueQualifierAssetBurnAddress : list Z; strIssueSubQualifierAssetBurnAddress : list Z;
  strIssueRestrictedAssetBurnAddress : list Z; strAddNullQualifierTagBurnAddress : list Z
}.

Definition CMainParams : CChainParams := mkChainParams false main_prefixes
  (500 * COIN) (100 * COIN) (100 * COIN) (5 * COIN) (100 * COIN) (1000 * COIN) (100 * COIN) (1500 * COIN) 10000000
  (codes "RXissueAssetXXXXXXXXXXXXXXXXXhhZGt") (codes "RXReissueAssetXXXXXXXXXXXXXXVEFAWu")
  (codes "RXissueSubAssetXXXXXXXXXXXXXWcwhwL") (codes "RXissueUniqueAssetXXXXXXXXXXWEAe58")
  (codes "RXissueMsgChanneLAssetXXXXXXSjHvAY") (codes "RXissueQuaLifierXXXXXXXXXXXXUgEDbC")
  (codes "RXissueSubQuaLifierXXXXXXXXXVTzvv5") (codes "RXissueRestrictedXXXXXXXXXXXXzJZ1q")
  (codes "RXaddTagBurnXXXXXXXXXXXXXXXXZQm5ya").

Definition GetBurnAmount (p : CChainParams) (type : AssetType) : Z :=
  match type with
  | ROOT => nIssueAssetBurnAmount p
  | SUB => nIssueSubAssetBurnAmount p
  | MSGCHANNEL => nIssueMsgChannelAssetBurnAmount p
  | UNIQUE => nIssueUniqueAssetBurnAmount p
  | REISSUE => nReissueAssetBurnAmount p
  | QUALIFIER => nIssueQualifierAssetBurnAmount p
  | SUB_QUALIFIER => nIssueSubQualifierAssetBurnAmount p
  | RESTRICTED => nIssueRestrictedAssetBurnAmount p
  | NULL_ADD_QUALIFIER => nAddNullQualifierTagBurnAmount p
  | OWNER | VOTE | INVALID => 0
  end.

Definition GetBurnAddress (p : CChainParams) (type : AssetType) : list Z :=
  match type with
  | ROOT => strIssueAssetBurnAddress p
  | SUB => strIssueSubAssetBurnAddress p
  | MSGCHANNEL => strIssueMsgChannelAssetBurnAddress p
  | UNIQUE => strIssueUniqueAssetBurnAddress p
  | REISSUE => strReissueAssetBurnAddress p
  | QUALIFIER => strIssueQualifierAssetBurnAddress p
  | SUB_QUALIFIER => strIssueSubQualifierAssetBurnAddress p
  | RESTRICTED => strIssueRestrictedAssetBurnAddress p
  | NULL_ADD_QUALIFIER => strAddNullQualifierTagBurnAddress p
  | OWNER | VOTE | INVALID => []
  end.

Section AssetTx.
Context `{AddressV4}.
Variable params : CChainParams.

(** An output pays an amount to an address. *)
Definition pays (txOut : CTxOut) (amount : Z) (address : list Z) : bool :=
  (nValue txOut =? amount) &&
  match ExtractDestination (scriptPubKey txOut) with
  | Some destination =>
      IsValidDestination destination &&
      bool_decide (EncodeDestination (base58Prefixes params) destination = Some address)
  | None => false
  end.

Definition CheckIssueBurnTx (txOut : CTxOut) (type : AssetType) (numberIssued : Z) : bool :=
  match type with
  | REISSUE | VOTE | OWNER | INVALID => false
  | _ => pays txOut (i64 (GetBurnAmount params type * numberIssued)) (GetBurnAddress params type)
  end.

Definition CheckReissueBurnTx (txOut : CTxOut) : bool :=
  pays txOut (nReissueAssetBurnAmount params) (strReissueAssetBurnAddress params).

Definition CheckAddingTagBurnFee (tx : CTransaction) (count : Z) : bool :=
  existsb (fun out => CheckIssueBurnTx out NULL_ADD_QUALIFIER count) (vout tx).

(** ** Kinds of outputs *)

Definition IsScriptNewAsset (script : list Z) : bool :=
  match IsAssetScript script with Some (TX_NEW_ASSET, false, _) => true | _ => false end.
Definition IsScriptOwnerAsset (script : list Z) : bool :=
  match IsAssetScript script with Some (TX_NEW_ASSET, true, _) => true | _ => false end.
Definition IsScriptReissueAsset (script : list Z) : bool :=
  match IsAssetScript script with Some (TX_REISSUE_ASSET, _, _) => true | _ => false end.

(** [IsScriptNewUniqueAsset] and its siblings: an issuance with a valid name of
    the type. *)
Definition IsScriptNew (types : list AssetType) (script : list Z) : bool :=
  match AssetFromScript script with
  | Some asset =>
      match IsAssetNameValid (na_strName asset) with
      | (true, Some assetType) => bool_decide (assetType ∈ types)
      | _ => false
      end
  | None => false
  end.
Definition IsScriptNewUniqueAsset : list Z -> bool := IsScriptNew [UNIQUE].
Definition IsScriptNewMsgChannelAsset : list Z -> bool := IsScriptNew [MSGCHANNEL].
Definition IsScriptNewQualifierAsset : list Z -> bool := IsScriptNew [QUALIFIER; SUB_QUALIFIER].
Definition IsScriptNewRestrictedAsset : list Z -> bool := IsScriptNew [RESTRICTED].

(** Issues, reissues, transfers and owner tokens among the outputs. *)
Definition GetTxOutAssetTypes (outs : list CTxOut) : Z * Z * Z * Z :=
  fold_left (fun '(issues, reissues, transfers, owners) out =>
    match IsAssetScript (scriptPubKey out) with
    | Some (TX_NEW_ASSET, false, _) => (issues + 1, reissues, transfers, owners)
    | Some (TX_NEW_ASSET, true, _) => (issues, reissues, transfers, owners + 1)
    | Some (TX_TRANSFER_ASSET, _, _) => (issues, reissues, transfers + 1, owners)
    | Some (TX_REISSUE_ASSET, _, _) => (issues, reissues + 1, transfers, owners)
    | None => (issues, reissues, transfers, owners)
    end) outs (0, 0, 0, 0).

Definition null_out : CTxOut := mkTxOut (-1) [].

(** The scripts of the last two outputs; a transaction has at least one. *)
Definition last_script (tx : CTransaction) : list Z := scriptPubKey (List.last (vout tx) null_out).
Definition owner_script (tx : CTransaction) : list Z := scriptPubKey (nth (length (vout tx) - 2) (vout tx) null_out).

(** A transfer of the token among the outputs. *)
Definition transfers_token (tx : CTransaction) (name : list Z) : bool :=
  existsb (fun out => match TransferAssetFromScript (scriptPubKey out) with
                      | Some transfer => bool_decide (name = tr_strName transfer)
                      | None => false
                      end) (vout tx).

Definition OWNER_TAG : list Z := codes "!".

(** ** New assets *)

Definition tx_IsNewAsset (tx : CTransaction) : bool :=
  negb (length (vout tx) <? 3)%nat && IsScriptNewAsset (last_script tx) && IsScriptOwnerAsset (owner_script tx) &&
  negb (IsScriptNewUniqueAsset (last_script tx) || IsScriptNewRestrictedAsset (last_script tx)).

Definition IsNewUniqueAsset (tx : CTransaction) : bool :=
  IsScriptNewAsset (last_script tx) && IsScriptNewUniqueAsset (last_script tx).
Definition IsNewMsgChannelAsset (tx : CTransaction) : bool :=
  IsScriptNewAsset (last_script tx) && IsScriptNewMsgChannelAsset (last_script tx).
Definition IsNewQualifierAsset (tx : CTransaction) : bool :=
  IsScriptNewAsset (last_script tx) && IsScriptNewQualifierAsset (last_script tx).
Definition IsNewRestrictedAsset (tx : CTransaction) : bool :=
  IsScriptNewAsset (last_script tx) && IsScriptNewRestrictedAsset (last_script tx).
Definition tx_IsReissueAsset (tx : CTransaction) : bool := IsScriptReissueAsset (last_script tx).

Definition Verified := Checked string unit.
Definition verified : Verified := Accept tt.

(** The type [IsAssetNameValid] stores; reading it when it stored none is
    undefined. *)
Definition with_type (name : list Z) (k : AssetType -> Verified) : Verified :=
  match snd (IsAssetNameValid name) with Some t => k t | None => Abort end.

Definition VerifyNewAsset (tx : CTransaction) : Verified :=
  ensure negb (length (vout tx) <? 3)%nat or "bad-txns-issue-vout-size-to-small";
  ensure IsScriptNewAsset (last_script tx) or "bad-txns-issue-data-not-found";
  ensure IsScriptOwnerAsset (owner_script tx) or "bad-txns-issue-owner-data-not-found";
  match AssetFromScript (last_script tx) with
  | None => Reject "bad-txns-issue-serialzation-failed"
  | Some asset =>
      match OwnerAssetFromScript (owner_script tx) with
      | None => Reject "bad-txns-issue-owner-serialzation-failed"
      | Some strOwnerName =>
          ensure bool_decide (strOwnerName = na_strName asset ++ OWNER_TAG) or "bad-txns-issue-owner-name-doesn't-match";
          with_type (na_strName asset) (fun assetType =>
            ensure existsb (fun out => CheckIssueBurnTx out assetType 1) (vout tx) or "bad-txns-issue-burn-not-found";
            ensure (if bool_decide (assetType = SUB) then transfers_token tx (GetParentName (na_strName asset) ++ OWNER_TAG)
                    else true) or "bad-txns-issue-new-asset-missing-owner-asset";
            let '(nIssues, nReissues, _, nOwners) := GetTxOutAssetTypes (vout tx) in
            ensure (nOwners =? 1) && (nIssues =? 1) && (nReissues <=? 0) or "bad-txns-failed-issue-asset-formatting-check";
            verified)
      end
  end.

(** The loop that collects the new unique assets: their common root, their
    names and their number. *)
Fixpoint collect_unique (outs : list CTxOut) (assetRoot : list Z) (setUniqueAssets : list (list Z)) (count : Z) :
    Checked string (list Z * Z) :=
  match outs with
  | [] => Accept (assetRoot, count)
  | out :: outs =>
      if IsScriptNewUniqueAsset (scriptPubKey out) then
        match AssetFromScript (scriptPubKey out) with
        | None => Reject "bad-txns-issue-unique-asset-from-script"
        | Some asset =>
            let root := GetParentName (na_strName asset) in
            let assetRoot := if bool_decide (assetRoot = []) then root else assetRoot in
            ensure bool_decide (assetRoot = root) or "bad-txns-issue-unique-asset-compare-failed";
            ensure negb (bool_decide (na_strName asset ∈ setUniqueAssets)) or "bad-txns-issue-unique-duplicate-name-in-same-tx";
            collect_unique outs assetRoot (na_strName asset :: setUniqueAssets) (count + 1)
        end
      else collect_unique outs assetRoot setUniqueAssets count
  end.

Definition VerifyNewUniqueAsset (tx : CTransaction) : Verified :=
  ensure negb (length (vout tx) <? 3)%nat or "bad-txns-unique-vout-size-to-small";
  r <- collect_unique (vout tx) [] [] 0;
  let '(assetRoot, assetOutpointCount) := r in
  ensure negb (assetOutpointCount =? 0) or "bad-txns-issue-unique-asset-bad-outpoint-count";
  ensure existsb (fun out => CheckIssueBurnTx out UNIQUE assetOutpointCount) (vout tx)
    or "bad-txns-issue-unique-asset-burn-outpoints-not-found";
  ensure transfers_token tx (assetRoot ++ OWNER_TAG) or "bad-txns-issue-unique-asset-missing-owner-asset";
  let '(nIssues, nReissues, _, nOwners) := GetTxOutAssetTypes (vout tx) in
  ensure (nOwners <=? 0) && (nReissues <=? 0) && (nIssues =? assetOutpointCount)
    or "bad-txns-failed-unique-asset-formatting-check";
  verified.

(** The counts of an issuance of one asset without an owner token. *)
Definition one_issue (tx : CTransaction) (reason : string) : Verified :=
  let '(nIssues, nReissues, _, nOwners) := GetTxOutAssetTypes (vout tx) in
  ensure (nOwners =? 0) && (nIssues =? 1) && (nReissues <=? 0) or reason;
  verified.

Definition VerifyNewMsgChannelAsset (tx : CTransaction) : Verified :=
  ensure negb (length (vout tx) <? 3)%nat or "bad-txns-issue-msgchannel-vout-size-to-small";
  ensure IsScriptNewAsset (last_script tx) or "bad-txns-issue-data-not-found";
  match (if IsScriptNewMsgChannelAsset (last_script tx) then AssetFromScript (last_script tx) else None) with
  | None => Reject "bad-txns-issue-msgchannel-serialzation-failed"
  | Some asset =>
      ensure existsb (fun out => CheckIssueBurnTx out MSGCHANNEL 1) (vout tx) or "bad-txns-issue-msgchannel-burn-not-found";
      ensure transfers_token tx (GetParentName (na_strName asset) ++ OWNER_TAG)
        or "bad-txns-issue-msg-channel-asset-bad-owner-asset";
      one_issue tx "bad-txns-failed-issue-msgchannel-asset-formatting-check"
  end.

Definition VerifyNewQualfierAsset (tx : CTransaction) : Verified :=
  ensure negb (length (vout tx) <? 2)%nat or "bad-txns-issue-qualifier-vout-size-to-small";
  ensure IsScriptNewAsset (last_script tx) or "bad-txns-issue-qualifider-data-not-found";
  match (if IsScriptNewQualifierAsset (last_script tx) then AssetFromScript (last_script tx) else None) with
  | None => Reject "bad-txns-issue-qualifier-serialzation-failed"
  | Some asset =>
      with_type (na_strName asset) (fun assetType =>
        ensure existsb (fun out => CheckIssueBurnTx out assetType 1) (vout tx) or "bad-txns-issue-qualifier-burn-not-found";
        ensure (if bool_decide (assetType = SUB_QUALIFIER) then transfers_token tx (GetParentName (na_strName asset)) else true)
          or "bad-txns-issue-sub-qualifier-parent-outpoint-not-found";
        one_issue tx "bad-txns-failed-issue-asset-formatting-check")
  end.

(** ** Verifiers in transactions *)

Inductive VerifierSearch :=
| VerifierFound (verifier_string : list Z)
| VerifierNotFound
| VerifierError (strError : string).

Fixpoint find_verifier (outs : list CTxOut) (found : option (list Z)) : VerifierSearch :=
  match outs with
  | [] => match found with Some v => VerifierFound v | None => VerifierNotFound end
  | out :: outs =>
      if IsNullAssetVerifierTxDataScript (scriptPubKey out) then
        match found with
        | Some _ => VerifierError "Multiple verifier strings found in transaction"
        | None =>
            match AssetNullVerifierDataFromScript (scriptPubKey out) with
            | None => VerifierError "Failed to get verifier string from output"
            | Some v => find_verifier outs (Some v)
            end
        end
      else find_verifier outs found
  end.

Definition GetVerifierStringFromTx (tx : CTransaction) : VerifierSearch := find_verifier (vout tx) None.

Definition VerifyNewRestrictedAsset (tx : CTransaction) : Verified :=
  ensure negb (length (vout tx) <? 4)%nat or "bad-txns-issue-restricted-vout-size-to-small";
  ensure IsScriptNewAsset (last_script tx) or "bad-txns-issue-restricted-data-not-found";
  match (if IsScriptNewRestrictedAsset (last_script tx) then AssetFromScript (last_script tx) else None) with
  | None => Reject "bad-txns-issue-restricted-serialization-failed"
  | Some asset =>
      with_type (na_strName asset) (fun assetType =>
        ensure existsb (fun out => CheckIssueBurnTx out assetType 1) (vout tx) or "bad-txns-issue-restricted-burn-not-found";
        let strippedRoot := drop 1 (GetParentName (na_strName asset)) ++ OWNER_TAG in
        ensure transfers_token tx strippedRoot or "bad-txns-issue-restricted-root-owner-token-outpoint-not-found";
        match GetVerifierStringFromTx tx with
        | VerifierFound _ => one_issue tx "bad-txns-failed-issue-asset-formatting-check"
        | VerifierNotFound => Reject "Verifier string not found"
        | VerifierError e => Reject e
        end)
  end.

(** ** Reissues *)

Definition VerifyReissueAsset (tx : CTransaction) : Verified :=
  ensure negb (length (vout tx) <? 3)%nat or "bad-txns-vout-size-to-small";
  ensure IsScriptReissueAsset (last_script tx) or "bad-txns-reissue-data-not-found";
  match ReissueAssetFromScript (last_script tx) with
  | None => Reject "bad-txns-reissue-serialization-failed"
  | Some reissue =>
      let asset_type := default INVALID (snd (IsAssetNameValid (re_strName reissue))) in
      let asset_name_to_check := if bool_decide (asset_type = RESTRICTED) then drop 1 (re_strName reissue) else re_strName reissue in
      ensure transfers_token tx (asset_name_to_check ++ OWNER_TAG) or "bad-txns-reissue-owner-outpoint-not-found";
      ensure existsb CheckReissueBurnTx (vout tx) or "bad-txns-reissue-burn-outpoint-not-found";
      let '(nIssues, nReissues, _, nOwners) := GetTxOutAssetTypes (vout tx) in
      ensure (nOwners <=? 0) && (nReissues =? 1) && (nIssues <=? 0) or "bad-txns-failed-reissue-asset-formatting-check";
      verified
  end.

(** The owner token of a new asset goes to the address of the asset. *)
Definition IsNewOwnerTxValid (tx : CTransaction) (assetName address : list Z) : Verified :=
  match (if tx_IsNewAsset tx then OwnerAssetFromScript (owner_script tx) else None) with
  | None => Reject "bad-txns-bad-owner"
  | Some ownerName =>
      ensure bool_decide (address_of (base58Prefixes params) (owner_script tx) = address) or "bad-txns-owner-address-mismatch";
      ensure negb (length ownerName <? 1 + 3)%nat or "bad-txns-owner-asset-length";
      ensure bool_decide (ownerName = assetName ++ OWNER_TAG) or "bad-txns-owner-name-mismatch";
      verified
  end.

(** ** Asset data *)

Definition UNIQUE_ASSET_UNITS : Z := 0.
Definition QUALIFIER_ASSET_UNITS : Z := 0.
Definition QUALIFIER_ASSET_MIN_AMOUNT : Z := 1 * COIN.
Definition QUALIFIER_ASSET_MAX_AMOUNT : Z := 10 * COIN.

Definition is_flag (x : Z) : bool := (x =? 0) || (x =? 1).

(** A check that may throw. *)
Definition guard_throw (r : option bool) (reason : string) (k : Verified) : Verified :=
  match r with None => Abort | Some true => k | Some false => Reject reason end.

Definition CheckNewAsset (asset : CNewAsset) : Verified :=
  match IsAssetNameValid (na_strName asset) with
  | (true, Some assetType) =>
      ensure negb (bool_decide (assetType ∈ [UNIQUE; MSGCHANNEL])) ||
        ((na_units asset =? UNIQUE_ASSET_UNITS) && (na_nAmount asset =? UNIQUE_ASSET_AMOUNT) && (na_nReissuable asset =? 0))
        or "Invalid parameter: a unique asset has no units, amount 1 and is not reissuable";
      ensure negb (bool_decide (assetType ∈ [QUALIFIER; SUB_QUALIFIER])) ||
        ((na_units asset =? QUALIFIER_ASSET_UNITS) && (QUALIFIER_ASSET_MIN_AMOUNT <=? na_nAmount asset) &&
         (na_nAmount asset <=? QUALIFIER_ASSET_MAX_AMOUNT) && (na_nReissuable asset =? 0))
        or "Invalid parameter: a qualifier has no units, amount 1 - 10 and is not reissuable";
      ensure negb (IsAssetNameAnOwner (na_strName asset)) or "Invalid parameters: asset_name can't have a '!' at the end of it";
      ensure na_nAmount asset >? 0 or "Invalid parameter: asset amount can't be equal to or less than zero.";
      ensure na_nAmount asset <=? MAX_MONEY or "Invalid parameter: asset amount greater than max money";
      ensure (0 <=? na_units asset) && (na_units asset <=? 8) or "Invalid parameter: units must be between 0-8.";
      guard_throw (CheckAmountWithUnits (na_nAmount asset) (na_units asset))
        "Invalid parameter: amount must be divisible by the smaller unit assigned to the asset"
      (ensure is_flag (na_nReissuable asset) or "Invalid parameter: reissuable must be 0 or 1";
       ensure is_flag (na_nHasIPFS asset) or "Invalid parameter: has_ipfs must be 0 or 1.";
       ensure is_flag (na_nHasANS asset) or "Invalid parameter: has_ans must be 0 or 1.";
       verified)
  | (true, None) => Abort
  | (false, _) => Reject "Invalid parameter: asset_name must only consist of valid characters"
  end.

Definition CheckReissueAsset (asset : CReissueAsset) : Verified :=
  ensure (0 <=? re_nAmount asset) && (re_nAmount asset <? MAX_MONEY) or "Unable to reissue asset: amount must be 0 or larger";
  ensure (re_nUnits asset <=? MAX_UNIT) && (-1 <=? re_nUnits asset) or "Unable to reissue asset: unit must be between 8 and -1";
  let fSkip := fTestNet params &&
    ((bool_decide (re_strName asset = codes "GAMINGWEB") && (re_nReissuable asset =? 109)) ||
     (bool_decide (re_strName asset = codes "UINT8") && (re_nReissuable asset =? -47))) in
  ensure fSkip || is_flag (re_nReissuable asset) or "Unable to reissue asset: reissuable must be 0 or 1";
  verified.

(** The name of an asset with ANS data ends in the domain. *)
Definition ans_name_ok (name : list Z) : bool :=
  negb (length name <=? length ans_domain)%nat && bool_decide (drop (length name - length ans_domain) name = ans_domain).

Section Contextual.
Variable dep : Deployments.
Variable cache : AssetsView.
Variable mapAssetToHash : list (list Z).   (* the names new assets in the mempool use *)

Definition check_encoded (hash : list Z) : option bool :=
  CheckEncoded (base58Prefixes params) (IsAvianNameSystemDeployed dep) (AreMessagesDeployed dep) hash.

Definition check_verifier (verifier address : list Z) : bool :=
  ContextualCheckVerifierString (CheckIfAssetExists cache) (CheckForAddressQualifier cache) verifier address.

Definition ContextualCheckNewAsset (asset : CNewAsset) (fCheckMempool : bool) : Verified :=
  ensure AreAssetsDeployed dep or "bad-txns-new-asset-when-assets-is-not-active";
  _ <- CheckNewAsset asset;
  ensure negb (CheckIfAssetExists cache (na_strName asset)) or "Invalid parameter: asset_name has already been used";
  ensure negb (fCheckMempool && bool_decide (na_strName asset ∈ mapAssetToHash)) or "Asset with this name is already in the mempool";
  ensure (na_nHasIPFS asset =? 0) || (length (na_strIPFSHash asset) =? 34)%nat ||
    (AreMessagesDeployed dep && (length (na_strIPFSHash asset) =? 32)%nat)
    or "Invalid parameter: ipfs_hash must be 46 characters. Txid must be valid 64 character hash";
  ensure (na_nHasANS asset =? 0) || IsAvianNameSystemDeployed dep or "Invalid parameter: ANS IDs not allowed when they are not deployed.";
  ensure negb (IsAssetNameARoot (na_strName asset) && negb (na_nHasANS asset =? 0)) || ans_name_ok (na_strName asset)
    or "Invalid parameter: asset name needs to end in '.AVN' since ANS data is attached.";
  let invalid := "Invalid parameter: ipfs_hash/ans_id is not valid or txid hash is not the right length"%string in
  guard_throw (if na_nHasIPFS asset =? 0 then Some true else check_encoded (na_strIPFSHash asset)) invalid
  (guard_throw (if na_nHasANS asset =? 0 then Some true else check_encoded (na_strANSID asset)) invalid
   verified).

(** What both versions of [ContextualCheckReissueAsset] check against the
    metadata, the hash and the identifier. *)
Definition check_reissue_metadata (reissue_asset : CReissueAsset) (k : Verified) : Verified :=
  match GetAssetMetaDataIfExists cache (re_strName reissue_asset) with
  | None => Reject "Unable to reissue asset: asset_name doesn't exist in the database"
  | Some prev_asset =>
      ensure negb (na_nReissuable prev_asset =? 0) or "Unable to reissue asset: reissuable is set to false";
      ensure negb (i64 (na_nAmount prev_asset + re_nAmount reissue_asset) >? MAX_MONEY)
        or "Unable to reissue asset: the amount trying to reissue is to large";
      guard_throw (CheckAmountWithUnits (re_nAmount reissue_asset) (na_units prev_asset))
        "Unable to reissue asset: amount must be divisible by the smaller unit assigned to the asset"
      (ensure negb ((re_nUnits reissue_asset <? na_units prev_asset) && negb (re_nUnits reissue_asset =? -1))
         or "Unable to reissue asset: unit must be larger than current unit selection";
       k)
  end.

Definition check_reissue_data (reissue_asset : CReissueAsset) (k : Verified) : Verified :=
  let hash := re_strIPFSHash reissue_asset in
  let ans := re_strANSID reissue_asset in
  ensure negb (negb (bool_decide (hash = [])) && negb (length hash =? 34)%nat &&
               (AreMessagesDeployed dep && negb (length hash =? 32)%nat))
    or "Invalid parameter: ipfs_hash must be 34 bytes, Txid must be 32 bytes";
  let invalid := "Invalid parameter: ipfs_hash/ans_id is not valid or txid hash is not the right length"%string in
  guard_throw (if bool_decide (hash = []) then Some true else check_encoded hash) invalid
  (ensure bool_decide (ans = []) || IsAvianNameSystemDeployed dep or "Invalid parameter: ANS IDs not allowed when they are not deployed.";
   ensure negb (IsAssetNameARoot (re_strName reissue_asset) && negb (bool_decide (ans = []))) || ans_name_ok (re_strName reissue_asset)
     or "Invalid parameter: asset name needs to end in '.AVN' since ANS data is attached.";
   guard_throw (if bool_decide (ans = []) then Some true else check_encoded ans) invalid k).

(** The version for a transaction. *)
Definition ContextualCheckReissueAsset (reissue_asset : CReissueAsset) (tx : CTransaction) : Verified :=
  match (if tx_IsReissueAsset tx then ReissueAssetFromScript (last_script tx) else None) with
  | None => Reject "bad-txns-reissue-asset-contextual-check"
  | Some _ =>
      let strAddress := address_of (base58Prefixes params) (last_script tx) in
      _ <- CheckReissueAsset reissue_asset;
      check_reissue_metadata reissue_asset
      (check_reissue_data reissue_asset
       (if IsAssetNameAnRestricted (re_strName reissue_asset) then
          match GetVerifierStringFromTx tx with
          | VerifierError e => Reject e
          | VerifierNotFound =>
              if re_nAmount reissue_asset >? 0 then
                match GetAssetVerifierStringIfExists cache (re_strName reissue_asset) false with
                | Some current => ensure check_verifier current strAddress or "verifier"; verified
                | None => Reject "failed to get verifier string from a restricted asset"
                end
              else verified
          | VerifierFound v =>
              if re_nAmount reissue_asset >? 0 then ensure check_verifier v strAddress or "verifier"; verified
              else verified
          end
        else verified))
  end.

(** The version without a transaction. *)
Definition ContextualCheckReissueAsset_data (reissue_asset : CReissueAsset) : Verified :=
  _ <- CheckReissueAsset reissue_asset;
  check_reissue_metadata reissue_asset (check_reissue_data reissue_asset verified).

(** Every new unique asset of the transaction. *)
Fixpoint ContextualCheckUniqueAssetTx (outs : list CTxOut) : Verified :=
  match outs with
  | [] => verified
  | out :: outs =>
      if IsScriptNewUniqueAsset (scriptPubKey out) then
        match AssetFromScript (scriptPubKey out) with
        | None => Reject "bad-txns-issue-unique-serialization-failed"
        | Some asset => _ <- ContextualCheckNewAsset asset false; ContextualCheckUniqueAssetTx outs
        end
      else ContextualCheckUniqueAssetTx outs
  end.

Definition ContextualCheckTransferAsset (transfer : CAssetTransfer) (address : list Z) : Verified :=
  match IsAssetNameValid (tr_strName transfer) with
  | (false, _) => Reject "Invalid parameter: asset_name must only consist of valid characters"
  | (true, None) => Abort
  | (true, Some assetType) =>
      ensure tr_nAmount transfer >? 0 or "Invalid parameter: asset amount can't be equal to or less than zero.";
      let message := tr_message transfer in
      ensure negb (AreMessagesDeployed dep && (bool_decide (message = []) && (tr_nExpireTime transfer >? 0)))
        or "Invalid parameter: asset transfer expiration time requires a message to be attached to the transfer";
      ensure negb (AreMessagesDeployed dep && (tr_nExpireTime transfer <? 0)) or "Invalid parameter: expiration time must be a positive value";
      guard_throw (if AreMessagesDeployed dep && negb (bool_decide (message = [])) then check_encoded message else Some true)
        "Invalid parameter: ipfs_hash/ans_id is not valid or txid hash is not the right length"
      match assetType with
      | MSGCHANNEL => ensure AreMessagesDeployed dep or "bad-txns-transfer-msgchannel-before-messaging-is-active"; verified
      | RESTRICTED =>
          ensure AreRestrictedAssetsDeployed dep or "bad-txns-transfer-restricted-before-it-is-active";
          ensure negb (CheckForGlobalRestriction cache (tr_strName transfer))
            or "bad-txns-transfer-restricted-asset-that-is-globally-restricted";
          match GetAssetVerifierStringIfExists cache (tr_strName transfer) true with
          | None => Reject "" (* the message stays in a local variable *)
          | Some verifier => ensure check_verifier verifier address or ""; verified
          end
      | QUALIFIER | SUB_QUALIFIER =>
          ensure AreRestrictedAssetsDeployed dep or "bad-txns-transfer-qualifier-before-it-is-active"; verified
      | _ => verified
      end
  end.
End Contextual.
End AssetTx.
