(* ===== verification/TxCheck.v ===== *)
(** * Context-free checks of a transaction ([CheckTransaction] of
      [src/consensus/tx_verify.cpp])

    The whole function: values, null-asset and asset outputs, burns of tags,
    duplicate inputs, the coinbase, and the shape of the transactions that
    create assets.  The sorted containers of the code are lists in the order
    of the outputs; where the order of a [std::map] or [std::set] decides
    which check fails first (an empty name sorts first), it is kept. *)

From Stdlib Require Import String.
From stdpp Require Import gmap.
From S2P Require Import Prelude Text Coins Serialize TxFormat Script AssetFormat AssetNames Money Hashes Base58 Standard.
From S2P Require Import TxVerify Ans Verifiers NullAssets AssetTx.

Open Scope checked_scope.

Definition MAX_BLOCK_WEIGHT_RIP2 : Z := 8000000.

(** The locals of the loop over the outputs. *)
Record OutputsState := mkOutputsState {
  nValueOut : Z;
  setAssetTransferNames : list (list Z);
  mapNullDataTxCount : list (list Z * list Z);        (* asset name, address *)
  setNullGlobalAssetChanges : list (list Z);
  fContainsNullAssetVerifierTx : bool;
  nCountAddTagOuts : Z
}.

Definition outputs_init : OutputsState := mkOutputsState 0 [] [] [] false 0.

Section CheckTransaction.
Context `{AddressV4}.
Variable params : CChainParams.
Variable dep : Deployments.
Variable founderPayment : FounderPayment.

Definition check_value (st : OutputsState) (txout : CTxOut) : Checked string OutputsState :=
  ensure negb (nValue txout <? 0) or "bad-txns-vout-negative";
  ensure negb (nValue txout >? MAX_MONEY) or "bad-txns-vout-toolarge";
  let v := i64 (nValueOut st + nValue txout) in
  ensure MoneyRange v or "bad-txns-txouttotal-toolarge";
  Accept (mkOutputsState v (setAssetTransferNames st) (mapNullDataTxCount st) (setNullGlobalAssetChanges st)
            (fContainsNullAssetVerifierTx st) (nCountAddTagOuts st)).

Definition check_null_asset (st : OutputsState) (script : list Z) : Checked string OutputsState :=
  if negb (IsNullAsset script) then Accept st
  else if IsNullAssetTxDataScript script then
    match AssetNullDataFromScript (base58Prefixes params) script with
    | None => Reject "bad-txns-null-asset-data-serialization"
    | Some (data, address) =>
        ensure VerifyNullAssetDataFlag (flag data) or "bad-txns-null-data-flag-must-be-0-or-1";
        ensure negb (bool_decide ((asset_name data, address) ∈ mapNullDataTxCount st))
          or "bad-txns-null-data-only-one-change-per-asset-address";
        Accept (mkOutputsState (nValueOut st) (setAssetTransferNames st)
          (mapNullDataTxCount st ++ [(asset_name data, address)]) (setNullGlobalAssetChanges st) (fContainsNullAssetVerifierTx st)
          (if IsAssetNameAQualifier (asset_name data) false && (flag data =? 1) then nCountAddTagOuts st + 1
           else nCountAddTagOuts st))
    end
  else if IsNullGlobalRestrictionAssetTxDataScript script then
    match GlobalAssetNullDataFromScript script with
    | None => Reject "bad-txns-null-global-asset-data-serialization"
    | Some data =>
        ensure VerifyNullAssetDataFlag (flag data) or "bad-txns-null-data-flag-must-be-0-or-1";
        ensure negb (bool_decide (asset_name data ∈ setNullGlobalAssetChanges st))
          or "bad-txns-null-data-only-one-global-change-per-asset-name";
        Accept (mkOutputsState (nValueOut st) (setAssetTransferNames st) (mapNullDataTxCount st)
          (setNullGlobalAssetChanges st ++ [asset_name data]) (fContainsNullAssetVerifierTx st) (nCountAddTagOuts st))
    end
  else
    ensure CheckVerifierAssetTxOut script or "bad-txns-null-verifier";
    ensure negb (fContainsNullAssetVerifierTx st) or "bad-txns-null-data-only-one-verifier-per-tx";
    Accept (mkOutputsState (nValueOut st) (setAssetTransferNames st) (mapNullDataTxCount st) (setNullGlobalAssetChanges st)
              true (nCountAddTagOuts st)).

Definition check_asset_output (st : OutputsState) (txout : CTxOut) (fMempoolCheck fBlockCheck : bool) : Checked string OutputsState :=
  match IsAssetScript (scriptPubKey txout) with
  | None => Accept st
  | Some (TX_TRANSFER_ASSET, _, _) =>
      match TransferAssetFromScript (scriptPubKey txout) with
      | None => Reject "bad-txns-transfer-asset-bad-deserialize"
      | Some transfer =>
          match IsAssetNameValid (tr_strName transfer) with
          | (false, _) => Reject "bad-txns-transfer-asset-name-invalid"
          | (true, None) => Abort
          | (true, Some assetType) =>
              ensure negb (IsAssetNameAnOwner (tr_strName transfer)) || (tr_nAmount transfer =? OWNER_ASSET_AMOUNT)
                or "bad-txns-transfer-owner-amount-was-not-1";
              ensure negb (bool_decide (assetType = UNIQUE)) || (tr_nAmount transfer =? UNIQUE_ASSET_AMOUNT)
                or "bad-txns-transfer-unique-amount-was-not-1";
              ensure negb (bool_decide (assetType ∈ [QUALIFIER; SUB_QUALIFIER])) ||
                ((QUALIFIER_ASSET_MIN_AMOUNT <=? tr_nAmount transfer) && (tr_nAmount transfer <=? QUALIFIER_ASSET_MAX_AMOUNT))
                or "bad-txns-transfer-qualifier-amount-must be between 1 - 100";
              ensure nValue txout =? 0 or "bad-txns-asset-transfer-amount-isn't-zero";
              Accept (mkOutputsState (nValueOut st) (setAssetTransferNames st ++ [tr_strName transfer]) (mapNullDataTxCount st)
                        (setNullGlobalAssetChanges st) (fContainsNullAssetVerifierTx st) (nCountAddTagOuts st))
          end
      end
  | Some (TX_NEW_ASSET, _, _) =>
      ensure nValue txout =? 0 or "bad-txns-asset-issued-amount-isn't-zero";
      Accept st
  | Some (TX_REISSUE_ASSET, _, _) =>
      ensure negb (AreEnforcedValuesDeployed dep && fBlockCheck) || (nValue txout =? 0) or "bad-txns-asset-reissued-amount-isn't-zero";
      ensure negb fMempoolCheck || (nValue txout =? 0) or "bad-mempool-txns-asset-reissued-amount-isn't-zero";
      Accept st
  end.

Fixpoint check_outputs (outs : list CTxOut) (st : OutputsState) (fMempoolCheck fBlockCheck : bool) : Checked string OutputsState :=
  match outs with
  | [] => Accept st
  | txout :: outs =>
      st <- check_value st txout;
      st <- check_null_asset st (scriptPubKey txout);
      st <- check_asset_output st txout fMempoolCheck fBlockCheck;
      check_outputs outs st fMempoolCheck fBlockCheck
  end.

(** Each change of an address needs a transfer of the owner token of a
    restricted asset, or of the qualifier itself.  An empty name has no first
    character. *)
Definition check_null_transfers (st : OutputsState) : Verified :=
  if existsb (fun e => bool_decide (fst e = [])) (mapNullDataTxCount st) then Abort
  else
    ensure forallb (fun '(name, _) =>
        if nth 0 name 0 =? chr_dollar then bool_decide (drop 1 name ++ OWNER_TAG ∈ setAssetTransferNames st)
        else bool_decide (name ∈ setAssetTransferNames st)) (mapNullDataTxCount st)
      or "bad-txns-tx-contains-asset-null-tx-without-asset-transfer";
    verified.

Definition check_global_transfers (st : OutputsState) : Verified :=
  ensure negb (existsb (fun name => bool_decide (name = [])) (setNullGlobalAssetChanges st))
    or "bad-txns-tx-contains-global-asset-null-tx-with-null-asset-name";
  ensure forallb (fun name => bool_decide (drop 1 name ++ OWNER_TAG ∈ setAssetTransferNames st)) (setNullGlobalAssetChanges st)
    or "bad-txns-tx-contains-global-asset-null-tx-without-asset-transfer";
  verified.

Fixpoint no_duplicates (ps : list COutPoint) (seen : gset COutPoint) : bool :=
  match ps with
  | [] => true
  | p :: ps => if bool_decide (p ∈ seen) then false else no_duplicates ps ({[p]} ∪ seen)
  end.

Definition check_coinbase (tx : CTransaction) (nHeight blockReward : Z) : Verified :=
  if IsCoinBase tx then
    let size := match vin tx with i :: _ => Z.of_nat (length (scriptSig i)) | [] => 0 end in
    ensure negb ((size <? 2) || (size >? 100)) or "bad-cb-length";
    ensure negb (AreCoinbaseCheckAssetsDeployed dep &&
                 existsb (fun o => is_asset_script (scriptPubKey o) || IsNullAsset (scriptPubKey o)) (vout tx))
      or "bad-txns-coinbase-contains-asset-txes";
    let founderReward := getFounderPaymentAmount founderPayment nHeight blockReward in
    ensure negb ((nHeight >? startBlock founderPayment) && negb (founderReward =? 0) &&
                 negb (IsBlockPayeeValid founderPayment (vout tx) nHeight blockReward))
      or "bad-cb-founder-payment-not-found";
    verified
  else
    ensure negb (existsb (fun i => COutPoint_IsNull (prevout i)) (vin tx)) or "bad-txns-prevout-null";
    verified.

(** The checks of new unique assets, one by one. *)
Fixpoint check_unique_assets (outs : list CTxOut) : Verified :=
  match outs with
  | [] => verified
  | out :: outs =>
      if IsScriptNewUniqueAsset (scriptPubKey out) then
        match AssetFromScript (scriptPubKey out) with
        | None => Reject "bad-txns-check-transaction-issue-unique-asset-serialization"
        | Some asset => _ <- CheckNewAsset asset; check_unique_assets outs
        end
      else check_unique_assets outs
  end.

(** Outputs of a transaction that creates no assets. *)
Fixpoint check_plain_outputs (outs : list CTxOut) : Verified :=
  match outs with
  | [] => verified
  | out :: outs =>
      let script := scriptPubKey out in
      match IsAssetScript script with
      | Some (TX_TRANSFER_ASSET, _, _) => check_plain_outputs outs
      | Some _ => Reject "bad-txns-bad-asset-transaction"
      | None =>
          ensure (Find script OP_AVN_ASSET =? 0) || byte_at script 0 OP_AVN_ASSET
            or "bad-txns-op-avn-asset-not-in-right-script-location";
          check_plain_outputs outs
      end
  end.

(** What the transaction creates: whether it reissues and whether it issues a
    restricted asset. *)
Definition check_creation (tx : CTransaction) : Checked string (bool * bool) :=
  if tx_IsNewAsset tx then
    _ <- VerifyNewAsset params tx;
    match AssetFromScript (last_script tx) with
    | None => Reject "bad-txns-issue-asset-from-transaction"
    | Some asset =>
        _ <- IsNewOwnerTxValid params tx (na_strName asset) (address_of (base58Prefixes params) (last_script tx));
        _ <- CheckNewAsset asset;
        Accept (false, false)
    end
  else if tx_IsReissueAsset tx then
    _ <- VerifyReissueAsset params tx;
    match ReissueAssetFromScript (last_script tx) with
    | None => Reject "bad-txns-reissue-asset"
    | Some reissue =>
        _ <- CheckReissueAsset params reissue;
        match snd (IsAssetNameValid (re_strName reissue)) with
        | None => Abort
        | Some RESTRICTED =>
            match GetVerifierStringFromTx tx with
            | VerifierError _ => Reject "bad-txns-reissue-restricted-verifier-"
            | _ => Accept (true, false)
            end
        | Some _ => Accept (false, false)
        end
    end
  else if IsNewUniqueAsset tx then
    _ <- VerifyNewUniqueAsset params tx;
    _ <- check_unique_assets (vout tx);
    Accept (false, false)
  else if IsNewMsgChannelAsset tx then
    _ <- VerifyNewMsgChannelAsset params tx;
    match AssetFromScript (last_script tx) with
    | None => Reject "bad-txns-issue-msgchannel-from-transaction"
    | Some asset => _ <- CheckNewAsset asset; Accept (false, false)
    end
  else if IsNewQualifierAsset tx then
    _ <- VerifyNewQualfierAsset params tx;
    match AssetFromScript (last_script tx) with
    | None => Reject "bad-txns-issue-qualifier-from-transaction"
    | Some asset => _ <- CheckNewAsset asset; Accept (false, false)
    end
  else if IsNewRestrictedAsset tx then
    _ <- VerifyNewRestrictedAsset params tx;
    match AssetFromScript (last_script tx) with
    | None => Reject "bad-txns-issue-restricted-from-transaction"
    | Some asset =>
        _ <- CheckNewAsset asset;
        match GetVerifierStringFromTx tx with
        | VerifierFound _ => Accept (false, true)
        | _ => Reject "bad-txns-issue-restricted-verifier-search-"
        end
    end
  else _ <- check_plain_outputs (vout tx); Accept (false, false).

Definition CheckTransaction (tx : CTransaction) (nHeight blockReward : Z) (fCheckDuplicateInputs fMempoolCheck fBlockCheck : bool) : Verified :=
  ensure negb (bool_decide (vin tx = [])) or "bad-txns-vin-empty";
  ensure negb (bool_decide (vout tx = [])) or "bad-txns-vout-empty";
  ensure negb (Z.of_nat (length (SerializeTransaction false tx)) * WITNESS_SCALE_FACTOR >? MAX_BLOCK_WEIGHT_RIP2) or "bad-txns-oversize";
  st <- check_outputs (vout tx) outputs_init fMempoolCheck fBlockCheck;
  ensure (nCountAddTagOuts st =? 0) || CheckAddingTagBurnFee params tx (nCountAddTagOuts st)
    or "bad-txns-tx-doesn't-contain-required-burn-fee-for-adding-tags";
  _ <- check_null_transfers st;
  _ <- check_global_transfers st;
  ensure negb fCheckDuplicateInputs || no_duplicates (prevouts tx) ∅ or "bad-txns-inputs-duplicate";
  _ <- check_coinbase tx nHeight blockReward;
  created <- check_creation tx;
  let '(fContainsRestrictedAssetReissue, fContainsNewRestrictedAsset) := created in
  ensure negb (fContainsNullAssetVerifierTx st && negb fContainsRestrictedAssetReissue && negb fContainsNewRestrictedAsset)
    or "bad-txns-tx-cointains-verifier-string-without-restricted-asset-issuance-or-reissuance";
  ensure negb (fContainsNewRestrictedAsset && negb (fContainsNullAssetVerifierTx st))
    or "bad-txns-tx-cointains-restricted-asset-issuance-without-verifier";
  verified.
End CheckTransaction.
