(* ===== verification/TxAssets.v ===== *)
(** * Assets of a transaction against the chain ([Consensus::CheckTxAssets]
      of [src/consensus/tx_verify.cpp])

    The whole function for a node with an assets cache: the assets of the
    inputs and of the transfers are added up in 64-bit integers and compared;
    null-asset outputs, issuances and reissues are checked against the cache.
    Besides the verdict it collects the reissues for the mempool and the
    messages of channel owners. *)

From Stdlib Require Import String.
From stdpp Require Import gmap.
From S2P Require Import Prelude Text Bytes Serialize Coins CoinsRefine TxFormat Script AssetFormat AssetNames Money Hashes Base58.
From S2P Require Import Standard TxVerify Ledger Ans Verifiers NullAssets AssetTx.

Open Scope checked_scope.

Abbreviation totals := (gmap (list Z) Z).

(** [totalInputs] and [totalOutputs] are sums of signed 64-bit integers without
    a check of their range.  Where a sum leaves the range the behaviour is
    undefined; it is modelled as the wrap-around that compilers usually make of
    it. *)
Definition add_total (m : totals) (name : list Z) (amount : Z) : totals :=
  match m !! name with
  | Some v => <[name := i64 (v + amount)]> m
  | None => <[name := amount]> m
  end.

(** [CTransaction::GetHash]. *)
Definition GetHash (tx : CTransaction) : Z := le_decode (Hash [SerializeTransaction false tx]).

Record CMessage := mkMessage {
  msg_out : COutPoint; msg_strName : list Z; msg_ipfsHash : list Z; msg_nExpiredTime : Z; msg_time : Z
}.

(** What the loop over the outputs builds. *)
Record AssetsState := mkAssetsState {
  totalOutputs : totals;
  vPairReissueAssets : list (list Z * Z);
  setMessages : list CMessage
}.

(** The node: activations, the assets cache, the mempool's new assets and
    reissues, whether messages are collected, the clock and the block time. *)
Record Node := mkNode {
  n_dep : Deployments;
  n_cache : AssetsView;
  mapAssetToHash : list (list Z);
  mapReissuedAssets : gmap (list Z) Z;
  fMessaging : bool;
  currentTime : Z;
  nBlocktime : Z
}.

(** The reason of a part under that of the whole. *)
Definition under {A} (prefix : string) (r : Checked string A) : Checked string A :=
  match r with Reject e => Reject (prefix ++ e)%string | r => r end.

Section Check.
Context `{AddressV4}.
Variable params : CChainParams.
Variable nd : Node.

Definition check_null (script : list Z) : Verified :=
  if negb (IsNullAsset script) then verified
  else
    ensure AreRestrictedAssetsDeployed (n_dep nd) or "bad-tx-null-asset-data-before-restricted-assets-activated";
    if IsNullAssetTxDataScript script then
      ensure ContextualCheckNullAssetTxOut (base58Prefixes params) (n_cache nd) script or "bad-txns-null-asset-data";
      verified
    else if IsNullGlobalRestrictionAssetTxDataScript script then
      ensure ContextualCheckGlobalAssetTxOut (n_cache nd) script or "bad-txns-null-global-asset-data";
      verified
    else if IsNullAssetVerifierTxDataScript script then
      ensure ContextualCheckVerifierAssetTxOut (n_cache nd) script or "";
      verified
    else Reject "bad-tx-null-asset-data-unknown-type".

(** A transfer: its checks, and the units of an asset that is no owner token. *)
Definition check_transfer (script : list Z) : Checked string CAssetTransfer :=
  match TransferAssetFromScript script with
  | None => Reject "bad-tx-asset-transfer-bad-deserialize"
  | Some transfer =>
      _ <- ContextualCheckTransferAsset params (n_dep nd) (n_cache nd) transfer (address_of (base58Prefixes params) script);
      if IsAssetNameAnOwner (tr_strName transfer) then
        ensure tr_nAmount transfer =? OWNER_ASSET_AMOUNT or "bad-txns-transfer-owner-amount-was-not-1";
        Accept transfer
      else
        match GetAssetMetaDataIfExists (n_cache nd) (tr_strName transfer) with
        | None => Reject "bad-txns-transfer-asset-not-exist"
        | Some asset =>
            ensure bool_decide (na_strName asset = tr_strName transfer) or "bad-txns-asset-database-corrupted";
            match CheckAmountWithUnits (tr_nAmount transfer) (na_units asset) with
            | None => Abort
            | Some false => Reject "bad-txns-transfer-asset-amount-not-match-units"
            | Some true => Accept transfer
            end
        end
  end.

(** A message is taken from the owner or channel token sent back to the
    address it came from, unless it has expired. *)
Definition message_of (mapAddresses : gmap (list Z) (list Z)) (txid : Z) (index : Z) (address : list Z) (transfer : CAssetTransfer) :
    list CMessage :=
  if AreMessagesDeployed (n_dep nd) && fMessaging nd &&
     (IsAssetNameAnOwner (tr_strName transfer) || IsAssetNameAnMsgChannel (tr_strName transfer)) &&
     negb (bool_decide (tr_message transfer = [])) &&
     ((tr_nExpireTime transfer =? 0) || (tr_nExpireTime transfer >? currentTime nd)) &&
     bool_decide (mapAddresses !! tr_strName transfer = Some address)
  then [mkMessage (txid, index) (tr_strName transfer) (tr_message transfer) (tr_nExpireTime transfer) (nBlocktime nd)]
  else [].

Definition check_reissue (script : list Z) (txid : Z) (st : AssetsState) : Checked string AssetsState :=
  match ReissueAssetFromScript script with
  | None => Reject "bad-tx-asset-reissue-bad-deserialize"
  | Some reissue =>
      match mapReissuedAssets nd !! re_strName reissue with
      | Some h =>
          ensure h =? txid or "bad-tx-reissue-chaining-not-allowed";
          Accept st
      | None => Accept (mkAssetsState (totalOutputs st) (vPairReissueAssets st ++ [(re_strName reissue, txid)]) (setMessages st))
      end
  end.

Fixpoint CheckTxAssets_outputs (mapAddresses : gmap (list Z) (list Z)) (txid : Z) (outs : list CTxOut) (index : Z) (st : AssetsState) :
    Checked string AssetsState :=
  match outs with
  | [] => Accept st
  | txout :: outs =>
      let script := scriptPubKey txout in
      ensure negb (is_asset_script script && negb (AreAssetsDeployed (n_dep nd))) or "bad-txns-is-asset-and-asset-not-active";
      _ <- check_null script;
      st <- match IsAssetScript script with
            | Some (TX_TRANSFER_ASSET, _, _) =>
                transfer <- check_transfer script;
                Accept (mkAssetsState (add_total (totalOutputs st) (tr_strName transfer) (tr_nAmount transfer))
                  (vPairReissueAssets st)
                  (setMessages st ++ message_of mapAddresses txid index (address_of (base58Prefixes params) script) transfer))
            | Some (TX_REISSUE_ASSET, _, _) => check_reissue script txid st
            | _ => Accept st
            end;
      CheckTxAssets_outputs mapAddresses txid outs (index + 1) st
  end.

(** Outputs of a transaction that creates no assets. *)
Fixpoint CheckTxAssets_scripts (outs : list CTxOut) : Verified :=
  match outs with
  | [] => verified
  | out :: outs =>
      let script := scriptPubKey out in
      match IsAssetScript script with
      | Some (TX_TRANSFER_ASSET, _, _) => CheckTxAssets_scripts outs
      | Some _ => Reject "bad-txns-bad-asset-transaction"
      | None =>
          if Find script OP_AVN_ASSET =? 0 then CheckTxAssets_scripts outs
          else if AreRestrictedAssetsDeployed (n_dep nd) then
            ensure byte_at script 0 OP_AVN_ASSET or "bad-txns-op-avn-asset-not-in-right-script-location";
            CheckTxAssets_scripts outs
          else Reject "bad-txns-bad-asset-script"
      end
  end.

(** What the transaction creates, against the cache. *)
Definition check_creation_contextual (tx : CTransaction) (fCheckMempool : bool) : Verified :=
  let new_asset failed prefix :=
    match AssetFromScript (last_script tx) with
    | None => Reject failed
    | Some asset =>
        under prefix (ContextualCheckNewAsset params (n_dep nd) (n_cache nd) (mapAssetToHash nd) asset fCheckMempool)
    end in
  if tx_IsNewAsset tx then new_asset "bad-txns-issue-serialzation-failed"%string ""%string
  else if tx_IsReissueAsset tx then
    match ReissueAssetFromScript (last_script tx) with
    | None => Reject "bad-txns-reissue-serialzation-failed"
    | Some reissue_asset =>
        under "bad-txns-reissue-contextual-" (ContextualCheckReissueAsset params (n_dep nd) (n_cache nd) reissue_asset tx)
    end
  else if IsNewUniqueAsset tx then
    under "bad-txns-issue-unique-contextual-"
      (ContextualCheckUniqueAssetTx params (n_dep nd) (n_cache nd) (mapAssetToHash nd) (vout tx))
  else if IsNewMsgChannelAsset tx then
    ensure AreMessagesDeployed (n_dep nd) or "bad-txns-issue-msgchannel-before-messaging-is-active";
    new_asset "bad-txns-issue-msgchannel-serialzation-failed"%string "bad-txns-issue-msgchannel-contextual-"%string
  else if IsNewQualifierAsset tx then
    ensure AreRestrictedAssetsDeployed (n_dep nd) or "bad-txns-issue-qualifier-before-it-is-active";
    new_asset "bad-txns-issue-qualifier-serialzation-failed"%string "bad-txns-issue-qualfier-contextual"%string
  else if IsNewRestrictedAsset tx then
    ensure AreRestrictedAssetsDeployed (n_dep nd) or "bad-txns-issue-restricted-before-it-is-active";
    _ <- new_asset "bad-txns-issue-restricted-serialzation-failed"%string "bad-txns-issue-restricted-contextual"%string;
    match GetVerifierStringFromTx tx with
    | VerifierFound v =>
        ensure check_verifier (n_cache nd) v (address_of (base58Prefixes params) (last_script tx)) or "bad-txns-null-verifier";
        verified
    | VerifierNotFound => Reject "bad-txns-issue-restricted-verifier-search-Verifier string not found"
    | VerifierError e => Reject ("bad-txns-issue-restricted-verifier-search-" ++ e)
    end
  else CheckTxAssets_scripts (vout tx).

(** The comparison of the totals. *)
Definition compare_totals (totalInputs totalOutputs : totals) : Verified :=
  ensure forallb (fun '(n, v) => bool_decide (totalInputs !! n = Some v)) (map_to_list totalOutputs) or "bad-tx-inputs-outputs-mismatch ";
  ensure (size totalOutputs =? size totalInputs)%nat or "bad-tx-asset-inputs-size-does-not-match-outputs-size";
  verified.

(** The address [GetAssetData] returns, printed again. *)
Definition entry_address (script : list Z) : list Z :=
  default [] (destination ← DecodeDestination (base58Prefixes params) (address_of (base58Prefixes params) script);
              EncodeDestination (base58Prefixes params) destination).

Section Inputs.
Context {V : Type} `{CoinsView V}.
Variable script_usage : list Z -> Z.

(** The totals of the inputs and the first address of each asset. *)
Fixpoint CheckTxAssets_inputs (inputs : CCoinsViewCache V) (ps : list COutPoint) (totalInputs : totals)
    (mapAddresses : gmap (list Z) (list Z)) : Checked string (totals * gmap (list Z) (list Z)) * CCoinsViewCache V :=
  match ps with
  | [] => (Accept (totalInputs, mapAddresses), inputs)
  | p :: ps =>
      let '(coin, inputs) := AccessCoin script_usage inputs p in
      if IsSpent coin then (Abort, inputs)
      else
        let script := scriptPubKey (out coin) in
        if is_asset_script script then
          match GetAssetData script with
          | None => (Reject "bad-txns-failed-to-get-asset-from-script", inputs)
          | Some (name, amount) =>
              let address := entry_address script in
              if IsAssetNameAnRestricted name && CheckForAddressRestriction (n_cache nd) name address
              then (Reject "bad-txns-restricted-asset-transfer-from-frozen-address", inputs)
              else CheckTxAssets_inputs inputs ps (add_total totalInputs name amount)
                     (if AreMessagesDeployed (n_dep nd) then mapAddresses ∪ {[name := address]} else mapAddresses)
          end
        else CheckTxAssets_inputs inputs ps totalInputs mapAddresses
  end.

Definition CheckTxAssets (tx : CTransaction) (inputs : CCoinsViewCache V) (fCheckMempool : bool) :
    Checked string (totals * AssetsState) * CCoinsViewCache V :=
  let '(have, inputs) := HaveInputs script_usage inputs (IsCoinBase tx) (prevouts tx) in
  if negb have then (Reject "bad-txns-inputs-missing-or-spent", inputs)
  else
    let '(r, inputs) := CheckTxAssets_inputs inputs (prevouts tx) ∅ ∅ in
    (r <- r;
     let '(totalInputs, mapAddresses) := r in
     st <- CheckTxAssets_outputs mapAddresses (GetHash tx) (vout tx) 0 (mkAssetsState ∅ [] []);
     _ <- check_creation_contextual tx fCheckMempool;
     _ <- compare_totals totalInputs (totalOutputs st);
     Accept (totalInputs, st), inputs).
End Inputs.
End Check.

(** ** Totals *)

(** The assets the scripts carry, and how much of [n] there is. *)
Definition assets_of (scripts : list (list Z)) : list (list Z * Z) := omap GetAssetData scripts.

(** The transfers among the outputs. *)
Definition transfers_of (outs : list CTxOut) : list (list Z * Z) :=
  omap (fun o => t ← TransferAssetFromScript (scriptPubKey o); Some (tr_strName t, tr_nAmount t)) outs.

Definition amount_of (n : list Z) (l : list (list Z * Z)) : Z :=
  foldr (fun x acc => if bool_decide (x.1 = n) then x.2 + acc else acc) 0 l.

(** The totals count modulo [2 ^ 64]. *)
Definition tracks (m : totals) (l : list (list Z * Z)) : Prop :=
  forall n, match m !! n with
            | Some v => (amount_of n l - v) mod 2 ^ 64 = 0 /\ n ∈ l.*1
            | None => n ∉ l.*1
            end.

Lemma amount_of_app n l k : amount_of n (l ++ k) = amount_of n l + amount_of n k.
Proof. unfold amount_of. induction l as [| x l IH]; cbn [app foldr]; [lia |]. rewrite IH. case_bool_decide; lia. Qed.

Lemma amount_of_absent n l : n ∉ l.*1 -> amount_of n l = 0.
Proof.
  induction l as [| x l IH]; [done |]. rewrite fmap_cons. intros Hn. cbn [amount_of foldr]. fold (amount_of n l).
  rewrite bool_decide_false by (intros <-; apply Hn, elem_of_cons; auto). apply IH. intros H. apply Hn, elem_of_cons. auto.
Qed.

Lemma mod_sub_trans a b c m : m <> 0 -> (a - b) mod m = 0 -> (b - c) mod m = 0 -> (a - c) mod m = 0.
Proof.
  intros Hm H1 H2. replace (a - c) with ((a - b) + (b - c)) by lia. by rewrite Z.add_mod, H1, H2.
Qed.

Lemma i64_congr x : (x - i64 x) mod 2 ^ 64 = 0.
Proof.
  unfold wraps. change (2 ^ (64 - 1)) with (2 ^ 63). pose proof (Z.div_mod (x + 2 ^ 63) (2 ^ 64) ltac:(lia)) as E.
  replace (x - ((x + 2 ^ 63) mod 2 ^ 64 - 2 ^ 63)) with ((x + 2 ^ 63) / 2 ^ 64 * 2 ^ 64) by lia.
  by apply Z.mod_mul.
Qed.

Lemma tracks_add m l n a : tracks m l -> tracks (add_total m n a) (l ++ [(n, a)]).
Proof.
  intros Hm k. specialize (Hm k) as Hk.
  assert (k ∈ (l ++ [(n, a)]).*1 <-> k ∈ l.*1 \/ k = n) as Hin.
  { rewrite fmap_app, elem_of_app. cbn [fmap list_fmap fst]. by rewrite list_elem_of_singleton. }
  assert (amount_of k (l ++ [(n, a)]) = amount_of k l + (if bool_decide (n = k) then a else 0)) as ->.
  { rewrite amount_of_app. cbn [amount_of foldr fst snd]. case_bool_decide; lia. }
  unfold add_total. destruct (decide (n = k)) as [-> | Hne].
  - destruct (m !! k) as [v |]; rewrite lookup_insert_eq, bool_decide_true by done.
    + destruct Hk as [Hv _]. split; [| apply Hin; auto]. apply (mod_sub_trans _ (v + a)); [done | | apply i64_congr].
      by replace (amount_of k l + a - (v + a)) with (amount_of k l - v) by lia.
    + rewrite amount_of_absent by done. split; [| apply Hin; auto]. by replace (0 + a - a) with 0 by lia.
  - rewrite bool_decide_false, Z.add_0_r by done.
    destruct (m !! n); rewrite lookup_insert_ne by done; (destruct (m !! k) as [v |];
      [destruct Hk as [Hv Hk]; split; [done | apply Hin; auto] | intros [? | ?]%Hin; [done | congruence]]).
Qed.

Lemma tracks_empty : tracks ∅ [].
Proof. intros n. rewrite lookup_empty. apply not_elem_of_nil. Qed.

Lemma tracks_same m outs ins n : tracks m ins -> tracks m outs ->
  (n ∈ outs.*1 <-> n ∈ ins.*1) /\ (amount_of n outs - amount_of n ins) mod 2 ^ 64 = 0 /\
  (int64_range (amount_of n ins) -> int64_range (amount_of n outs) -> amount_of n outs = amount_of n ins).
Proof.
  intros Hi Ho. specialize (Hi n). specialize (Ho n). destruct (m !! n) as [v |].
  - destruct Hi as [H1 H2], Ho as [H3 H4]. split; [done |].
    assert ((amount_of n outs - amount_of n ins) mod 2 ^ 64 = 0) as Hmod.
    { apply (mod_sub_trans _ v); [done | done |]. replace (v - amount_of n ins) with (- (amount_of n ins - v)) by lia.
      by apply Z.mod_opp_l_z. }
    split; [done |]. unfold int64_range. intros Hi Ho'. apply Z.mod_divide in Hmod as [k Hk]; [| done].
    assert (k = 0) by lia. lia.
  - rewrite !amount_of_absent by done. split; [split; intros; exfalso; auto | done].
Qed.

Lemma compare_totals_eq ti to : compare_totals ti to = Accept tt -> to = ti.
Proof.
  unfold compare_totals. intros H. accepted H. apply Nat.eqb_eq in Hb0.
  apply map_subseteq_size_eq; [| by rewrite Hb0]. apply map_subseteq_spec. intros n v Hn.
  rewrite forallb_forall in Hb. specialize (Hb (n, v)). cbn in Hb.
  apply bool_decide_eq_true in Hb; [done |]. by apply list_elem_of_In, elem_of_map_to_list.
Qed.

Lemma GetAssetData_none script : is_asset_script script = false -> GetAssetData script = None.
Proof.
  unfold is_asset_script, GetAssetData. rewrite bool_decide_eq_false. intros Hn%eq_None_not_Some. by rewrite Hn.
Qed.

Lemma TransferAssetFromScript_type script :
  TransferAssetFromScript script <> None -> exists owner i, IsAssetScript script = Some (TX_TRANSFER_ASSET, owner, i).
Proof.
  unfold TransferAssetFromScript, ScriptTransferAsset. destruct (IsAssetScript script) as [[[[| |] owner] i] |]; try done. eauto.
Qed.

Section Proofs.
Context `{AddressV4}.
Variable params : CChainParams.
Variable nd : Node.

Lemma check_transfer_data script t :
  check_transfer params nd script = Accept t -> TransferAssetFromScript script = Some t.
Proof.
  unfold check_transfer. destruct (TransferAssetFromScript script) as [t' |]; [| done]. intros H0. accepted H0.
  destruct (IsAssetNameAnOwner (tr_strName t')).
  - accepted H0. congruence.
  - destruct (GetAssetMetaDataIfExists _ _); [| done]. accepted H0. destruct (CheckAmountWithUnits _ _) as [[] |]; congruence.
Qed.

Lemma check_reissue_totals script txid st st' :
  check_reissue nd script txid st = Accept st' -> totalOutputs st' = totalOutputs st.
Proof.
  unfold check_reissue. destruct (ReissueAssetFromScript script); [| done]. destruct (_ !! _); intros H0; accepted H0; by injection H0 as <-.
Qed.

Lemma CheckTxAssets_outputs_tracks addrs txid outs : forall index l st r,
  tracks (totalOutputs st) l -> CheckTxAssets_outputs params nd addrs txid outs index st = Accept r ->
  tracks (totalOutputs r) (l ++ transfers_of outs).
Proof.
  induction outs as [| o outs IH]; intros index l st r Hm; cbn [CheckTxAssets_outputs].
  { intros [= <-]. by rewrite app_nil_r. }
  intros H0. accepted H0. rename a0 into st'. revert Hc0. unfold transfers_of. cbn [omap list_omap]. fold (transfers_of outs).
  pose proof (TransferAssetFromScript_type (scriptPubKey o)) as Ht.
  assert (forall st1, tracks (totalOutputs st1) l ->
    (forall owner i, IsAssetScript (scriptPubKey o) <> Some (TX_TRANSFER_ASSET, owner, i)) -> st1 = st' ->
    tracks (totalOutputs r) (l ++ match t ← TransferAssetFromScript (scriptPubKey o); Some (tr_strName t, tr_nAmount t) with
       | Some y => y :: transfers_of outs | None => transfers_of outs end)) as Hother.
  { intros st1 H1 Hno <-. destruct (TransferAssetFromScript (scriptPubKey o)); [destruct Ht as (? & ? & H2); [done | by apply Hno in H2] |].
    cbn. by eapply IH; [| exact H0]. }
  destruct (IsAssetScript (scriptPubKey o)) as [[[[| |] owner] i] |]; intros Hst.
  - apply (Hother st); [done | done | congruence].
  - apply (Hother st'); [by erewrite check_reissue_totals | done | done].
  - accepted Hst. injection Hst as <-. apply check_transfer_data in Hc0 as ->. cbn [mbind option_bind].
    rewrite cons_middle, app_assoc. eapply IH; [| exact H0]. by apply tracks_add.
  - apply (Hother st); [done | done | congruence].
Qed.

Context {V : Type} `{HV : CoinsView V} `{!CoinsViewSpec V}.
Context (script_usage : list Z -> Z).

Abbreviation ok := (cache_ok script_usage).

Lemma CheckTxAssets_inputs_tracks ps : forall (c : CCoinsViewCache V) m l addrs,
  ok c -> tracks m l ->
  exists r c', CheckTxAssets_inputs params nd script_usage c ps m addrs = (r, c') /\ ok c' /\ cache_utxo c' = cache_utxo c /\
    forall ti addrs', r = Accept (ti, addrs') ->
      exists coins, Forall2 (fun p co => cache_utxo c !! p = Some co) ps coins /\
        tracks ti (l ++ assets_of (map (fun co => scriptPubKey (out co)) coins)).
Proof using CoinsViewSpec0.
  induction ps as [| p ps IH]; intros c m l addrs Hok Hm; cbn [CheckTxAssets_inputs].
  { exists (Accept (m, addrs)), c. do 3 (split; [done |]). intros ti _ [= <- _]. exists []. split; [constructor |].
    by rewrite app_nil_r. }
  destruct (AccessCoin_spec script_usage c p Hok) as (co & c1 & -> & Hok1 & Hu1 & Hp).
  destruct (IsSpent co); [by exists Abort, c1 |].
  assert (forall m1 l1 addrs, tracks m1 (l ++ l1) -> l1 = assets_of [scriptPubKey (out co)] ->
    exists r c', CheckTxAssets_inputs params nd script_usage c1 ps m1 addrs = (r, c') /\ ok c' /\ cache_utxo c' = cache_utxo c /\
    forall ti addrs', r = Accept (ti, addrs') ->
      exists coins, Forall2 (fun p co => cache_utxo c !! p = Some co) (p :: ps) coins /\
        tracks ti (l ++ assets_of (map (fun co => scriptPubKey (out co)) coins))) as Hrest.
  { intros m1 l1 addrs1 Hm1 ->. destruct (IH c1 m1 _ addrs1 Hok1 Hm1) as (r & c' & -> & Hok' & Hu' & Hr).
    rewrite Hu1 in Hu', Hr. exists r, c'. do 3 (split; [done |]). intros ti addrs' Hti.
    destruct (Hr ti addrs' Hti) as (coins & Hf & Ht). exists (co :: coins). split; [by constructor |].
    rewrite <- app_assoc in Ht. unfold assets_of in *. by rewrite <- omap_app in Ht. }
  destruct (is_asset_script (scriptPubKey (out co))) eqn:Ha.
  - destruct (GetAssetData (scriptPubKey (out co))) as [[name amount] |] eqn:Hd; [| by eexists _, c1].
    destruct (_ && _); [by eexists _, c1 |]. apply (Hrest _ [(name, amount)]); [by apply tracks_add |].
    unfold assets_of. cbn [omap list_omap]. by rewrite Hd.
  - apply (Hrest _ []); [by rewrite app_nil_r |]. unfold assets_of. cbn [omap list_omap].
    by rewrite (GetAssetData_none _ Ha).
Qed.

(** What an accepted transaction moves: the view is unchanged, the inputs are
    existing coins, and their assets and those of the transfers have the same
    totals. *)
Lemma CheckTxAssets_accept tx (c c' : CCoinsViewCache V) fCheckMempool ti st :
  ok c -> CheckTxAssets params nd script_usage tx c fCheckMempool = (Accept (ti, st), c') ->
  cache_utxo c' = cache_utxo c /\ check_creation_contextual params nd tx fCheckMempool = Accept tt /\
  exists coins, Forall2 (fun p co => cache_utxo c !! p = Some co) (prevouts tx) coins /\
    tracks ti (assets_of (map (fun co => scriptPubKey (out co)) coins)) /\ tracks ti (transfers_of (vout tx)).
Proof using CoinsViewSpec0.
  intros Hok. unfold CheckTxAssets.
  destruct (HaveInputs_spec script_usage c (IsCoinBase tx) (prevouts tx) Hok) as (b & c1 & -> & Hok1 & Hu1 & _).
  destruct b; [| done]. cbn [negb].
  destruct (CheckTxAssets_inputs_tracks (prevouts tx) c1 ∅ [] ∅ Hok1 tracks_empty) as (r & c2 & -> & Hok2 & Hu2 & Hr).
  intros [= Hacc <-]. accepted Hacc. destruct a as [ti' addrs]. accepted Hacc. destruct a0, a1. injection Hacc as -> ->.
  destruct (Hr ti addrs eq_refl) as (coins & Hf & Hti). rewrite Hu1 in Hf, Hu2. split; [done |]. split; [done |].
  exists coins. split; [done |]. split; [done |].
  apply (CheckTxAssets_outputs_tracks _ _ _ _ []) in Hc0; [| apply tracks_empty]. by apply compare_totals_eq in Hc2 as <-.
Qed.
End Proofs.

(** ** Properties *)

(** C18: When [CheckTxAssets] accepts a transaction of any kind, the view is
    unchanged, the inputs are existing coins, the same assets occur in the
    inputs and in the transfers, and the amounts of each agree modulo
    [2 ^ 64]; they are equal when both fit a signed 64-bit integer.  Assets
    only come into being in the issuing and reissuing outputs. *)
Theorem CheckTxAssets_conserves `{AddressV4} {V : Type} `{CoinsView V} `{!CoinsViewSpec V} (params : CChainParams) (nd : Node)
    (script_usage : list Z -> Z) (c c' : CCoinsViewCache V) (tx : CTransaction) (fCheckMempool : bool) (t : totals * AssetsState) :
  cache_ok script_usage c -> CheckTxAssets params nd script_usage tx c fCheckMempool = (Accept t, c') ->
  cache_utxo c' = cache_utxo c /\
  exists coins, Forall2 (fun p co => cache_utxo c !! p = Some co) (prevouts tx) coins /\
    let ins := assets_of (map (fun co => scriptPubKey (out co)) coins) in
    let outs := transfers_of (vout tx) in
    forall n, (n ∈ outs.*1 <-> n ∈ ins.*1) /\ (amount_of n outs - amount_of n ins) mod 2 ^ 64 = 0 /\
      (int64_range (amount_of n ins) -> int64_range (amount_of n outs) -> amount_of n outs = amount_of n ins).
Proof.
  intros Hok. destruct t as [ti st]. intros Hacc.
  destruct (CheckTxAssets_accept _ _ _ _ _ _ _ _ _ Hok Hacc) as (Hu & _ & coins & Hf & Hti & Ho).
  split; [done |]. exists coins. split; [done |]. intros ins outs n. by apply (tracks_same ti).
Qed.

#[local] Existing Instance dotted_v4.

(** An asset with eight decimals, five units of which are in a coin. *)
Definition abcd : list Z := codes "ABCD".
Definition abcd_assets : AssetsView :=
  mkAssetsView (fun n => if bool_decide (n = abcd) then Some (mkNewAsset abcd 100 8 1 0 [] 0 []) else None)
    (fun n => bool_decide (n = abcd)) (fun _ _ => false) (fun _ _ => false) (fun _ => false) (fun _ _ => None).
Definition all_deployed : Deployments := mkDeployments true true true true true true.
Definition abcd_node : Node := mkNode all_deployed abcd_assets [] ∅ false 0 0.

Definition pay_to : list Z := [OP_DUP; OP_HASH160; 20] ++ replicate 20 7 ++ [OP_EQUALVERIFY; OP_CHECKSIG].
Definition transfer_out (name : list Z) (amount : Z) (message : list Z) : CTxOut :=
  mkTxOut 0 (Transfer_ConstructTransaction pay_to (mkTransfer name amount message 0)).

#[export] Instance db_view : CoinsView CoinsDB := CCoinsViewDB_view (fun _ => false).

(** A view of coins that carry assets, and a transaction that spends the first. *)
Definition asset_view (coins : list CTxOut) : CCoinsViewCache CoinsDB :=
  mkCache (mkDB (list_to_map (imap (fun i o => ((1, Z.of_nat i), mkCoin o false 7)) coins)) (Some 99) None) 99 ∅ 0.
Definition spend (outs : list CTxOut) : CTransaction := mkTransaction [mkTxIn (1, 0) [] SEQUENCE_FINAL []] outs 2 0.

Definition abcd_view : CCoinsViewCache CoinsDB := asset_view [transfer_out abcd 5 []].
Definition abcd_tx (amounts : list Z) : CTransaction := spend (map (fun a => transfer_out abcd a []) amounts).

Lemma abcd_view_ok : cache_ok (fun _ => 0) abcd_view.
Proof.
  split; [split; [by apply map_Forall_singleton | done] |]. split; [| done]. intros o e.
  unfold abcd_view, asset_view. cbn [cacheCoins]. by rewrite lookup_empty.
Qed.

Lemma abcd_transfer_accepted : exists c',
  CheckTxAssets CMainParams abcd_node (fun _ => 0) (abcd_tx [3; 2]) abcd_view true =
  (Accept ({[ abcd := 5 ]}, mkAssetsState {[ abcd := 5 ]} [] []), c').
Proof. eexists. vm_compute. reflexivity. Qed.

Lemma CheckTxAssets_conserves_witness :
  exists t c', CheckTxAssets CMainParams abcd_node (fun _ => 0) (abcd_tx [3; 2]) abcd_view true = (Accept t, c') /\
    cache_utxo c' = cache_utxo abcd_view.
Proof.
  destruct abcd_transfer_accepted as [c' E]. eexists _, c'. split; [exact E |].
  exact (proj1 (CheckTxAssets_conserves CMainParams abcd_node (fun _ => 0) abcd_view c' (abcd_tx [3; 2]) true _ abcd_view_ok E)).
Defined.

(** The totals are not protected against overflow: a transaction that
    spends five units of an asset and creates two outputs of [2 ^ 63 - 1] units
    and one of seven is accepted, since its outputs also add up to five modulo
    [2 ^ 64].  Every other check passes: transfer amounts only have to be
    positive. *)
Example CheckTxAssets_overflow_inflates :
  let tx := abcd_tx [2 ^ 63 - 1; 2 ^ 63 - 1; 7] in
  (exists c', CheckTxAssets CMainParams abcd_node (fun _ => 0) tx abcd_view true =
    (Accept ({[ abcd := 5 ]}, mkAssetsState {[ abcd := 5 ]} [] []), c')) /\
  amount_of abcd (transfers_of (vout tx)) = amount_of abcd (assets_of [scriptPubKey (transfer_out abcd 5 [])]) + 2 ^ 64.
Proof. split; [eexists; vm_compute; reflexivity | vm_compute; reflexivity]. Qed.
