(* ===== verification/TokenRules.v ===== *)
(** * Who may change assets ([CheckTransaction] and [CheckTxAssets] together)

    Issuing below an asset, reissuing, tagging and freezing are reserved to
    the holder of a token.  [CheckTransaction] asks for a transfer of the token
    among the outputs, [CheckTxAssets] for an input of every transferred asset;
    neither suffices on its own. *)

From Stdlib Require Import String.
From stdpp Require Import gmap.
From S2P Require Import Prelude Text Bytes Serialize Coins CoinsRefine TxFormat Script AssetFormat AssetNames Money Hashes Base58.
From S2P Require Import Standard TxVerify Ledger Ans Verifiers NullAssets AssetTx TxCheck TxAssets.

(** ** Rules *)

(** The token a new asset needs.  A message channel or a qualifier that comes
    with an owner token of its own is taken for an ordinary asset. *)
Definition issue_token (tx : CTransaction) (type : AssetType) (name : list Z) : option (list Z) :=
  match type with
  | SUB | UNIQUE => Some (GetParentName name ++ OWNER_TAG)
  | RESTRICTED => Some (drop 1 (GetParentName name) ++ OWNER_TAG)
  | MSGCHANNEL => if tx_IsNewAsset tx then None else Some (GetParentName name ++ OWNER_TAG)
  | SUB_QUALIFIER => if tx_IsNewAsset tx then None else Some (GetParentName name)
  | _ => None
  end.

Definition reissue_token (name : list Z) : list Z :=
  (if bool_decide (snd (IsAssetNameValid name) = Some RESTRICTED) then drop 1 name else name) ++ OWNER_TAG.

Definition tag_token (name : list Z) : list Z :=
  if nth 0 name 0 =? chr_dollar then drop 1 name ++ OWNER_TAG else name.

Inductive needs_token (prefixes : Base58Prefixes) (tx : CTransaction) (script : list Z) : list Z -> Prop :=
| needs_issue asset type token :
    AssetFromScript script = Some asset -> IsAssetNameValid (na_strName asset) = (true, Some type) ->
    issue_token tx type (na_strName asset) = Some token -> needs_token prefixes tx script token
| needs_reissue reissue :
    ReissueAssetFromScript script = Some reissue -> needs_token prefixes tx script (reissue_token (re_strName reissue))
| needs_tag data address :
    AssetNullDataFromScript prefixes script = Some (data, address) ->
    needs_token prefixes tx script (tag_token (asset_name data))
| needs_freeze data :
    GlobalAssetNullDataFromScript script = Some data ->
    needs_token prefixes tx script (drop 1 (asset_name data) ++ OWNER_TAG).

(** ** Counting outputs *)

Definition count (f : list Z -> bool) (outs : list CTxOut) : nat := length (List.filter (fun o => f (scriptPubKey o)) outs).

Lemma GetTxOutAssetTypes_counts outs :
  exists transfers, GetTxOutAssetTypes outs =
    (Z.of_nat (count IsScriptNewAsset outs), Z.of_nat (count IsScriptReissueAsset outs), transfers,
     Z.of_nat (count IsScriptOwnerAsset outs)).
Proof.
  unfold GetTxOutAssetTypes. set (f := fun '(_, _, _, _) _ => _).
  assert (forall i r t w, exists t', fold_left f outs (i, r, t, w) =
    (i + Z.of_nat (count IsScriptNewAsset outs), r + Z.of_nat (count IsScriptReissueAsset outs), t',
     w + Z.of_nat (count IsScriptOwnerAsset outs))) as Hall; [| apply (Hall 0 0 0 0)].
  induction outs as [| o outs IH]; intros i r t w; cbn [fold_left]; [exists t; cbn; by rewrite !Z.add_0_r |].
  unfold f at 2. unfold count. cbn [List.filter]. unfold IsScriptNewAsset at 1, IsScriptReissueAsset at 1, IsScriptOwnerAsset at 1.
  destruct (IsAssetScript (scriptPubKey o)) as [[[[| |] []] n] |];
    match goal with |- exists _, fold_left f outs (?i, ?r, ?t, ?w) = _ => destruct (IH i r t w) as [t' ->] end;
    exists t'; unfold count; cbn [length]; repeat apply (f_equal2 pair); done || lia.
Qed.

Lemma count_unique f outs a b : count f outs = 1%nat -> In a outs -> In b outs ->
  f (scriptPubKey a) = true -> f (scriptPubKey b) = true -> a = b.
Proof.
  unfold count. intros Hc Ha Hb Hfa Hfb. destruct (List.filter _ outs) as [| x [| y l]] eqn:E; try done.
  assert (forall o, In o outs -> f (scriptPubKey o) = true -> o = x) as Hx.
  { intros o Ho Hf. assert (In o [x]) as Hin; [rewrite <- E; by apply filter_In |]. cbn in Hin. by destruct Hin as [-> |]. }
  by rewrite (Hx a), (Hx b).
Qed.

Lemma count_zero f outs o : count f outs = 0%nat -> In o outs -> f (scriptPubKey o) = false.
Proof.
  intros Hc Ho. destruct (f (scriptPubKey o)) eqn:E; [| done].
  assert (In o (List.filter (fun o => f (scriptPubKey o)) outs)) as Hin by (apply filter_In; done).
  unfold count in Hc. by destruct (List.filter _ outs).
Qed.

Lemma count_same f g outs o : (forall s, f s = true -> g s = true) -> count f outs = count g outs ->
  In o outs -> g (scriptPubKey o) = true -> f (scriptPubKey o) = true.
Proof.
  intros Hfg. unfold count.
  assert (forall l, length (List.filter (fun o => f (scriptPubKey o)) l) <= length (List.filter (fun o => g (scriptPubKey o)) l))%nat as Hle.
  { induction l as [| x l IH]; [done |]. cbn [List.filter]. destruct (f (scriptPubKey x)) eqn:E; [rewrite (Hfg _ E); cbn; lia |].
    destruct (g (scriptPubKey x)); cbn; lia. }
  induction outs as [| x outs IH]; [done |]. cbn [List.filter]. specialize (Hle outs). intros Hc [-> | Ho] Hg.
  - rewrite Hg in Hc. destruct (f (scriptPubKey o)); [done | cbn in Hc; lia].
  - apply IH; [| done | done]. destruct (f (scriptPubKey x)) eqn:E; [rewrite (Hfg _ E) in Hc |]; cbn in Hc; [lia |].
    destruct (g (scriptPubKey x)); cbn in Hc; lia.
Qed.

(** ** Transfers asked for *)

Lemma transfers_token_spec tx name : transfers_token tx name = true -> name ∈ (transfers_of (vout tx)).*1.
Proof.
  unfold transfers_token. intros (o & Ho & Ht)%existsb_exists. apply list_elem_of_In in Ho.
  destruct (TransferAssetFromScript (scriptPubKey o)) as [t |] eqn:E; [| done]. apply bool_decide_eq_true in Ht as ->.
  apply list_elem_of_fmap. exists (tr_strName t, tr_nAmount t). split; [done |].
  apply list_elem_of_omap. exists o. by rewrite E.
Qed.

Lemma AssetFromScript_new script asset : AssetFromScript script = Some asset -> IsScriptNewAsset script = true.
Proof.
  unfold AssetFromScript, ScriptNewAsset, IsScriptNewAsset. by destruct (IsAssetScript script) as [[[[| |] []] n] |].
Qed.

Lemma ReissueAssetFromScript_reissue script r : ReissueAssetFromScript script = Some r -> IsScriptReissueAsset script = true.
Proof.
  unfold ReissueAssetFromScript, ScriptReissueAsset, IsScriptReissueAsset. by destruct (IsAssetScript script) as [[[[| |] []] n] |].
Qed.

Lemma IsScriptNew_type types script asset type :
  IsScriptNew types script = true -> AssetFromScript script = Some asset ->
  IsAssetNameValid (na_strName asset) = (true, Some type) -> type ∈ types.
Proof. unfold IsScriptNew. intros Hn Ha Hv. rewrite Ha, Hv in Hn. by apply bool_decide_eq_true in Hn. Qed.

Lemma IsScriptNew_new types script : IsScriptNew types script = true -> IsScriptNewAsset script = true.
Proof. unfold IsScriptNew. destruct (AssetFromScript script) eqn:E; [| done]. intros _. by eapply AssetFromScript_new. Qed.

Lemma last_in tx : last_script tx <> [] -> In (List.last (vout tx) null_out) (vout tx).
Proof.
  unfold last_script. intros H. destruct (exists_last (l := vout tx)) as (l & o & E).
  - intros E. apply H. by rewrite E.
  - rewrite E, last_last. apply in_app_iff. cbn. auto.
Qed.

Lemma new_not_empty script : IsScriptNewAsset script = true -> script <> [].
Proof. by intros H ->. Qed.
Lemma reissue_not_empty script : IsScriptReissueAsset script = true -> script <> [].
Proof. by intros H ->. Qed.

(** The only issuing output is the last one. *)
Lemma single_issue tx o : count IsScriptNewAsset (vout tx) = 1%nat -> IsScriptNewAsset (last_script tx) = true ->
  In o (vout tx) -> IsScriptNewAsset (scriptPubKey o) = true -> scriptPubKey o = last_script tx.
Proof.
  intros Hc Hl Ho Hn. unfold last_script in *. f_equal. apply (count_unique IsScriptNewAsset (vout tx)); try done.
  by apply last_in, new_not_empty.
Qed.

Lemma single_reissue tx o : count IsScriptReissueAsset (vout tx) = 1%nat -> IsScriptReissueAsset (last_script tx) = true ->
  In o (vout tx) -> IsScriptReissueAsset (scriptPubKey o) = true -> scriptPubKey o = last_script tx.
Proof.
  intros Hc Hl Ho Hn. unfold last_script in *. f_equal. apply (count_unique IsScriptReissueAsset (vout tx)); try done.
  by apply last_in, reissue_not_empty.
Qed.

Lemma one_issue_counts tx reason : one_issue tx reason = Accept tt ->
  count IsScriptNewAsset (vout tx) = 1%nat /\ count IsScriptReissueAsset (vout tx) = 0%nat.
Proof.
  unfold one_issue. destruct (GetTxOutAssetTypes_counts (vout tx)) as [t ->]. intros H. accepted H. lia.
Qed.

Lemma unique_parent_nonempty name : IsAssetNameValid name = (true, Some UNIQUE) -> GetParentName name <> [].
Proof.
  intros Hv. pose proof (IsAssetNameValid_inv _ _ Hv) as [Hi Ht]. destruct (unique_parent _ Hi Ht) as (_ & a & Ha & _ & (t & Hp & _) & _).
  unfold GetParentName. rewrite Hv, Ha. change (default name (Some a)) with a. by intros ->.
Qed.

(** New unique assets have one root. *)
Lemma collect_unique_root outs : forall root seen n root' n',
  collect_unique outs root seen n = Accept (root', n') ->
  (root <> [] -> root' = root) /\ n' = n + Z.of_nat (count IsScriptNewUniqueAsset outs) /\
  forall o asset, In o outs -> IsScriptNewUniqueAsset (scriptPubKey o) = true -> AssetFromScript (scriptPubKey o) = Some asset ->
    GetParentName (na_strName asset) = root'.
Proof.
  induction outs as [| o outs IH]; intros root seen n root' n'; cbn [collect_unique]; unfold count; cbn [List.filter].
  { intros [= <- <-]. split; [done |]. split; [cbn; lia | done]. }
  destruct (IsScriptNewUniqueAsset (scriptPubKey o)) eqn:Hu.
  - destruct (AssetFromScript (scriptPubKey o)) as [asset |] eqn:Ha; [| done]. intros H. accepted H.
    apply bool_decide_eq_true in Hb. rewrite Hb in H. destruct (IH _ _ _ _ _ H) as (Hr & -> & Hall).
    assert (GetParentName (na_strName asset) <> []) as Hne.
    { unfold IsScriptNewUniqueAsset, IsScriptNew in Hu. rewrite Ha in Hu. destruct (IsAssetNameValid (na_strName asset)) as [[] [t |]] eqn:Hv; try done.
      apply bool_decide_eq_true, list_elem_of_singleton in Hu as ->. by apply unique_parent_nonempty. }
    specialize (Hr Hne). split; [| split].
    + intros Hroot. rewrite bool_decide_false in Hb by done. congruence.
    + cbn [length]. unfold count. lia.
    + intros o' asset' [<- | Ho'] Hu' Ha'; [congruence | by apply (Hall o')].
  - intros H. destruct (IH _ _ _ _ _ H) as (Hr & -> & Hall). split; [done |]. split; [done |].
    intros o' asset' [<- | Ho'] Hu' Ha'; [congruence | by apply (Hall o')].
Qed.

Definition tokens_transferred (tx : CTransaction) : Prop :=
  forall o, In o (vout tx) ->
    (forall asset type token, AssetFromScript (scriptPubKey o) = Some asset ->
       IsAssetNameValid (na_strName asset) = (true, Some type) -> issue_token tx type (na_strName asset) = Some token ->
       transfers_token tx token = true) /\
    (forall reissue, ReissueAssetFromScript (scriptPubKey o) = Some reissue ->
       transfers_token tx (reissue_token (re_strName reissue)) = true).

(** A transaction with one issuance, its last output. *)
Lemma tokens_of_last tx :
  count IsScriptNewAsset (vout tx) = 1%nat -> count IsScriptReissueAsset (vout tx) = 0%nat ->
  IsScriptNewAsset (last_script tx) = true ->
  (forall asset type token, AssetFromScript (last_script tx) = Some asset ->
     IsAssetNameValid (na_strName asset) = (true, Some type) -> issue_token tx type (na_strName asset) = Some token ->
     transfers_token tx token = true) ->
  tokens_transferred tx.
Proof.
  intros Hn Hr Hlast Hall o Ho. split.
  - intros asset type token Ha. rewrite (single_issue tx o) in Ha; [by apply Hall | done | done | done |].
    by eapply AssetFromScript_new.
  - intros reissue He%ReissueAssetFromScript_reissue. by rewrite (count_zero _ _ _ Hr Ho) in He.
Qed.

Section Creation.
Context `{AddressV4}.
Variable params : CChainParams.

Lemma VerifyNewAsset_tokens tx : tx_IsNewAsset tx = true -> VerifyNewAsset params tx = Accept tt -> tokens_transferred tx.
Proof.
  intros Hnew. unfold VerifyNewAsset. intros H0. accepted H0. destruct (AssetFromScript (last_script tx)) as [asset |] eqn:Ha; [| done].
  destruct (OwnerAssetFromScript _); [| done]. accepted H0. unfold with_type in H0.
  destruct (IsAssetNameValid (na_strName asset)) as [valid [type |]] eqn:Hv; [| done]. cbn [snd] in H0. accepted H0.
  destruct (GetTxOutAssetTypes_counts (vout tx)) as [t E]. rewrite E in H0. accepted H0.
  apply tokens_of_last; [lia | lia | done |]. intros asset' type' token Ha' Hv' Ht. rewrite Ha in Ha'. injection Ha' as <-.
  rewrite Hv in Hv'. injection Hv' as -> <-. unfold tx_IsNewAsset in Hnew. apply andb_true_iff in Hnew as [Hin [Hu Hr]%negb_true_iff%orb_false_iff].
  unfold IsScriptNewUniqueAsset, IsScriptNewRestrictedAsset, IsScriptNew in Hu, Hr. rewrite Ha, Hv in Hu, Hr.
  assert (tx_IsNewAsset tx = true) as Hnew.
  { unfold tx_IsNewAsset. rewrite Hin. unfold IsScriptNewUniqueAsset, IsScriptNewRestrictedAsset, IsScriptNew. by rewrite Ha, Hv, Hu, Hr. }
  unfold issue_token in Ht. rewrite Hnew in Ht. destruct type; try done. by injection Ht as <-.
Qed.

Lemma VerifyReissueAsset_tokens tx : VerifyReissueAsset params tx = Accept tt -> tokens_transferred tx.
Proof.
  unfold VerifyReissueAsset. intros H0. accepted H0. destruct (ReissueAssetFromScript (last_script tx)) as [r |] eqn:Hr; [| done].
  accepted H0. destruct (GetTxOutAssetTypes_counts (vout tx)) as [t E]. rewrite E in H0. accepted H0. intros o Ho. split.
  - intros asset type token Ha%AssetFromScript_new. rewrite (count_zero IsScriptNewAsset (vout tx) o) in Ha; [done | lia | done].
  - intros reissue Hre. rewrite (single_reissue tx o) in Hre; [| lia | done | done | by eapply ReissueAssetFromScript_reissue].
    rewrite Hr in Hre. injection Hre as <-. unfold reissue_token. rewrite <- Hb1. f_equal. f_equal.
    destruct (snd (IsAssetNameValid (re_strName r))); [| done]. cbn [default from_option id].
    destruct (decide (a = RESTRICTED)) as [-> | Hne]; [done |]. rewrite !bool_decide_false; [done | done | congruence].
Qed.

Lemma VerifyNewUniqueAsset_tokens tx : VerifyNewUniqueAsset params tx = Accept tt -> tokens_transferred tx.
Proof.
  unfold VerifyNewUniqueAsset. intros H0. accepted H0. destruct a as [root n]. accepted H0.
  destruct (GetTxOutAssetTypes_counts (vout tx)) as [t E]. rewrite E in H0. accepted H0.
  destruct (collect_unique_root _ _ _ _ _ _ Hc) as (_ & Hn & Hall).
  assert (count IsScriptNewUniqueAsset (vout tx) = count IsScriptNewAsset (vout tx)) as Hcount by lia. intros o Ho. split.
  - intros asset type token Ha Hv Ht. pose proof (AssetFromScript_new _ _ Ha) as Hnew.
    pose proof (count_same _ _ _ _ (IsScriptNew_new [UNIQUE]) Hcount Ho Hnew) as Hu.
    pose proof (IsScriptNew_type _ _ _ _ Hu Ha Hv) as ->%list_elem_of_singleton. injection Ht as <-.
    by rewrite (Hall o asset Ho Hu Ha).
  - intros reissue Hre%ReissueAssetFromScript_reissue. rewrite (count_zero IsScriptReissueAsset (vout tx) o) in Hre; [done | lia | done].
Qed.

Lemma VerifyNewMsgChannelAsset_tokens tx :
  tx_IsNewAsset tx = false -> VerifyNewMsgChannelAsset params tx = Accept tt -> tokens_transferred tx.
Proof.
  intros Hnew. unfold VerifyNewMsgChannelAsset. intros H0. accepted H0.
  destruct (IsScriptNewMsgChannelAsset (last_script tx)) eqn:Hm; [| done].
  destruct (AssetFromScript (last_script tx)) as [asset |] eqn:Ha; [| done]. accepted H0. apply one_issue_counts in H0 as [Hn Hr].
  apply tokens_of_last; [done | done | done |]. intros asset' type token Ha' Hv Ht. rewrite Ha in Ha'. injection Ha' as <-.
  pose proof (IsScriptNew_type _ _ _ _ Hm Ha Hv) as ->%list_elem_of_singleton.
  unfold issue_token in Ht. rewrite Hnew in Ht. by injection Ht as <-.
Qed.

Lemma VerifyNewQualfierAsset_tokens tx :
  tx_IsNewAsset tx = false -> VerifyNewQualfierAsset params tx = Accept tt -> tokens_transferred tx.
Proof.
  intros Hnew. unfold VerifyNewQualfierAsset. intros H0. accepted H0.
  destruct (IsScriptNewQualifierAsset (last_script tx)) eqn:Hm; [| done].
  destruct (AssetFromScript (last_script tx)) as [asset |] eqn:Ha; [| done]. unfold with_type in H0.
  destruct (IsAssetNameValid (na_strName asset)) as [valid [type |]] eqn:Hv; [| done]. cbn [snd] in H0. accepted H0.
  apply one_issue_counts in H0 as [Hn Hr].
  apply tokens_of_last; [done | done | done |]. intros asset' type' token Ha' Hv' Ht. rewrite Ha in Ha'. injection Ha' as <-.
  rewrite Hv in Hv'. injection Hv' as -> <-. pose proof (IsScriptNew_type _ _ _ _ Hm Ha Hv) as Hin.
  unfold issue_token in Ht. rewrite Hnew in Ht.
  apply elem_of_cons in Hin as [-> | ->%list_elem_of_singleton]; [done |]. by injection Ht as <-.
Qed.

Lemma VerifyNewRestrictedAsset_tokens tx : VerifyNewRestrictedAsset params tx = Accept tt -> tokens_transferred tx.
Proof.
  unfold VerifyNewRestrictedAsset. intros H0. accepted H0.
  destruct (IsScriptNewRestrictedAsset (last_script tx)) eqn:Hm; [| done].
  destruct (AssetFromScript (last_script tx)) as [asset |] eqn:Ha; [| done]. unfold with_type in H0.
  destruct (snd (IsAssetNameValid (na_strName asset))); [| done]. accepted H0. destruct (GetVerifierStringFromTx tx); try done.
  apply one_issue_counts in H0 as [Hn Hr].
  apply tokens_of_last; [done | done | done |]. intros asset' type token Ha' Hv Ht. rewrite Ha in Ha'. injection Ha' as <-.
  pose proof (IsScriptNew_type _ _ _ _ Hm Ha Hv) as ->%list_elem_of_singleton. by injection Ht as <-.
Qed.

Lemma check_plain_outputs_in outs o : check_plain_outputs outs = Accept tt -> In o outs ->
  IsScriptNewAsset (scriptPubKey o) = false /\ IsScriptReissueAsset (scriptPubKey o) = false.
Proof.
  induction outs as [| o' outs IH]; [done |]. cbn [check_plain_outputs]. intros H0 [-> | Ho].
  - unfold IsScriptNewAsset, IsScriptReissueAsset. by destruct (IsAssetScript (scriptPubKey o)) as [[[[| |] []] n] |].
  - destruct (IsAssetScript (scriptPubKey o')) as [[[[| |] ?] n] |]; try done; [by apply IH |]. accepted H0. by apply IH.
Qed.

Lemma check_plain_outputs_tokens tx : check_plain_outputs (vout tx) = Accept tt -> tokens_transferred tx.
Proof.
  intros H0 o Ho. destruct (check_plain_outputs_in _ o H0 Ho) as [Hn Hr]. split.
  - intros asset type token Ha%AssetFromScript_new. congruence.
  - intros reissue Hre%ReissueAssetFromScript_reissue. congruence.
Qed.

Lemma check_creation_tokens tx r : check_creation params tx = Accept r -> tokens_transferred tx.
Proof.
  unfold check_creation. destruct (tx_IsNewAsset tx) eqn:Hnew; [| destruct (tx_IsReissueAsset tx);
    [| destruct (IsNewUniqueAsset tx); [| destruct (IsNewMsgChannelAsset tx); [| destruct (IsNewQualifierAsset tx);
    [| destruct (IsNewRestrictedAsset tx)]]]]]; intros H0.
  - destruct (VerifyNewAsset params tx) as [[] | |] eqn:E; try done. by apply VerifyNewAsset_tokens.
  - destruct (VerifyReissueAsset params tx) as [[] | |] eqn:E; try done. by apply VerifyReissueAsset_tokens.
  - destruct (VerifyNewUniqueAsset params tx) as [[] | |] eqn:E; try done. by apply VerifyNewUniqueAsset_tokens.
  - destruct (VerifyNewMsgChannelAsset params tx) as [[] | |] eqn:E; try done. by apply VerifyNewMsgChannelAsset_tokens.
  - destruct (VerifyNewQualfierAsset params tx) as [[] | |] eqn:E; try done. by apply VerifyNewQualfierAsset_tokens.
  - destruct (VerifyNewRestrictedAsset params tx) as [[] | |] eqn:E; try done. by apply VerifyNewRestrictedAsset_tokens.
  - destruct (check_plain_outputs (vout tx)) as [[] | |] eqn:E; try done. by apply check_plain_outputs_tokens.
Qed.

(** ** Tags and freezes *)

(** What the loop over the outputs has collected. *)
Definition collected (outs : list CTxOut) (st st' : OutputsState) : Prop :=
  setAssetTransferNames st' = setAssetTransferNames st ++ (transfers_of outs).*1 /\
  (forall e, e ∈ mapNullDataTxCount st \/
     (exists o d a, In o outs /\ AssetNullDataFromScript (base58Prefixes params) (scriptPubKey o) = Some (d, a) /\ e = (asset_name d, a)) ->
     e ∈ mapNullDataTxCount st') /\
  (forall n, n ∈ setNullGlobalAssetChanges st \/
     (exists o d, In o outs /\ GlobalAssetNullDataFromScript (scriptPubKey o) = Some d /\ n = asset_name d) ->
     n ∈ setNullGlobalAssetChanges st').

Lemma AssetNullDataFromScript_type script r : AssetNullDataFromScript (base58Prefixes params) script = Some r ->
  IsNullAssetTxDataScript script = true.
Proof. unfold AssetNullDataFromScript. by destruct (IsNullAssetTxDataScript script). Qed.

Lemma GlobalAssetNullDataFromScript_type script d : GlobalAssetNullDataFromScript script = Some d ->
  IsNullGlobalRestrictionAssetTxDataScript script = true /\ IsNullAssetTxDataScript script = false.
Proof.
  unfold GlobalAssetNullDataFromScript. destruct (IsNullGlobalRestrictionAssetTxDataScript script) eqn:E; [| done].
  intros _. split; [done |]. unfold IsNullGlobalRestrictionAssetTxDataScript, IsNullAssetTxDataScript, byte_at, OP_RESERVED in *.
  apply andb_true_iff in E as [[_ E%Z.eqb_eq]%andb_true_iff _]. rewrite E. by rewrite andb_false_r.
Qed.

Lemma collected_trans o outs st1 st2 st3 : collected [o] st1 st2 -> collected outs st2 st3 -> collected (o :: outs) st1 st3.
Proof.
  intros (Ht & Hn & Hg) (Ht' & Hn' & Hg'). split; [| split].
  - rewrite Ht', Ht, <- app_assoc. f_equal. unfold transfers_of. cbn [omap list_omap].
    by destruct (_ ≫= _).
  - intros e [He | (o' & d & a & [<- | Ho] & Hd & ->)]; apply Hn'; [left | left | right; eauto 10]; apply Hn; [by left |].
    right. exists o, d, a. cbn. auto.
  - intros e [He | (o' & d & [<- | Ho] & Hd & ->)]; apply Hg'; [left | left | right; eauto 10]; apply Hg; [by left |].
    right. exists o, d. cbn. auto.
Qed.

Lemma check_value_eq st o st' : check_value st o = Accept st' ->
  setAssetTransferNames st' = setAssetTransferNames st /\ mapNullDataTxCount st' = mapNullDataTxCount st /\
  setNullGlobalAssetChanges st' = setNullGlobalAssetChanges st.
Proof. unfold check_value. intros H0. accepted H0. by injection H0 as <-. Qed.

Lemma check_null_asset_collects st script st' : check_null_asset params st script = Accept st' ->
  setAssetTransferNames st' = setAssetTransferNames st /\
  (forall e, e ∈ mapNullDataTxCount st -> e ∈ mapNullDataTxCount st') /\
  (forall n, n ∈ setNullGlobalAssetChanges st -> n ∈ setNullGlobalAssetChanges st') /\
  (forall d a, AssetNullDataFromScript (base58Prefixes params) script = Some (d, a) -> (asset_name d, a) ∈ mapNullDataTxCount st') /\
  (forall d, GlobalAssetNullDataFromScript script = Some d -> asset_name d ∈ setNullGlobalAssetChanges st').
Proof.
  pose proof (AssetNullDataFromScript_type script) as Ht. pose proof (GlobalAssetNullDataFromScript_type script) as Hg.
  unfold check_null_asset, IsNullAsset.
  destruct (AssetNullDataFromScript _ script) as [[d a] |].
  - rewrite (Ht _ eq_refl). cbn [orb negb]. intros H0. accepted H0. injection H0 as <-. cbn.
    split; [done |]. split; [intros; apply elem_of_app; auto |]. split; [done |]. split.
    + intros ? ? [= <- <-]. apply elem_of_app. right. by apply list_elem_of_singleton.
    + intros d' Hd'. apply Hg in Hd' as [_ Hd']. by rewrite (Ht _ eq_refl) in Hd'.
  - destruct (IsNullAssetTxDataScript script) eqn:E; [done |]. cbn [orb].
    destruct (GlobalAssetNullDataFromScript script) as [d |].
    + destruct (Hg d eq_refl) as [-> _]. cbn [orb negb]. intros H0. accepted H0. injection H0 as <-. cbn.
      split; [done |]. split; [done |]. split; [intros; apply elem_of_app; auto |]. split; [done |].
      intros ? [= <-]. apply elem_of_app. right. by apply list_elem_of_singleton.
    + destruct (IsNullGlobalRestrictionAssetTxDataScript script); [done |]. cbn [orb].
      destruct (IsNullAssetVerifierTxDataScript script); cbn [negb]; intros H0; accepted H0; by injection H0 as <-.
Qed.

Lemma check_asset_output_collects dep st o fMempoolCheck fBlockCheck st' :
  check_asset_output dep st o fMempoolCheck fBlockCheck = Accept st' ->
  setAssetTransferNames st' = setAssetTransferNames st ++ (transfers_of [o]).*1 /\
  mapNullDataTxCount st' = mapNullDataTxCount st /\ setNullGlobalAssetChanges st' = setNullGlobalAssetChanges st.
Proof.
  unfold check_asset_output, transfers_of. cbn [omap list_omap]. unfold TransferAssetFromScript, ScriptTransferAsset.
  destruct (IsAssetScript (scriptPubKey o)) as [[[[| |] owner] n] |]; cbn [mbind option_bind]; intros H0; accepted H0;
    try (injection H0 as <-; cbn; by rewrite app_nil_r).
  destruct (Transfer_decode _) as [[t rest] |]; [| done]. cbn in H0 |- *.
  destruct (IsAssetNameValid (tr_strName t)) as [[] [type |]]; try done. accepted H0. by injection H0 as <-.
Qed.

Lemma check_outputs_collects dep outs fMempoolCheck fBlockCheck : forall st st',
  check_outputs params dep outs st fMempoolCheck fBlockCheck = Accept st' -> collected outs st st'.
Proof.
  induction outs as [| o outs IH]; intros st st'; cbn [check_outputs].
  { intros [= <-]. unfold collected. cbn. rewrite app_nil_r.
    split; [done |]. split; [intros e [? | (? & ? & ? & [] & _)] | intros e [? | (? & ? & [] & _)]]; done. }
  intros H0. accepted H0. apply (collected_trans _ _ _ a1); [| by apply IH].
  apply check_value_eq in Hc as (E1 & E2 & E3). apply check_null_asset_collects in Hc0 as (F1 & F2 & F3 & F4 & F5).
  apply check_asset_output_collects in Hc1 as (G1 & G2 & G3). split; [| split].
  - by rewrite G1, F1, E1.
  - rewrite G2, <- E2. intros e [He | (o' & d & ad & [<- | []] & Hd & ->)]; [by apply F2 | by apply F4].
  - rewrite G3, <- E3. intros e [He | (o' & d & [<- | []] & Hd & ->)]; [by apply F3 | by apply F5].
Qed.

Lemma CheckTransaction_tokens dep fp tx nHeight blockReward fDup fMempoolCheck fBlockCheck :
  CheckTransaction params dep fp tx nHeight blockReward fDup fMempoolCheck fBlockCheck = Accept tt ->
  forall o token, In o (vout tx) -> needs_token (base58Prefixes params) tx (scriptPubKey o) token ->
  token ∈ (transfers_of (vout tx)).*1.
Proof.
  unfold CheckTransaction. intros H0. accepted H0. rename a into st.
  apply check_outputs_collects in Hc as (Ht & Hn & Hg). cbn [setAssetTransferNames outputs_init app] in Ht.
  intros o token Ho [asset type tok Ha Hv Htok | reissue Hre | data address Hd | data Hd].
  - apply transfers_token_spec. by apply (check_creation_tokens tx a3 Hc3 o Ho) with asset type.
  - apply transfers_token_spec. by apply (check_creation_tokens tx a3 Hc3 o Ho).
  - assert ((asset_name data, address) ∈ mapNullDataTxCount st) as Hin by (apply Hn; eauto 10).
    unfold check_null_transfers in Hc0. destruct (existsb _ _); [done |]. accepted Hc0.
    rewrite forallb_forall in Hb4. specialize (Hb4 _ (proj1 (list_elem_of_In _ _) Hin)). cbn in Hb4. unfold tag_token. rewrite <- Ht.
    destruct (nth 0 (asset_name data) 0 =? chr_dollar); by apply bool_decide_eq_true in Hb4.
  - assert (asset_name data ∈ setNullGlobalAssetChanges st) as Hin by (apply Hg; eauto 10).
    unfold check_global_transfers in Hc1. accepted Hc1. rewrite <- Ht.
    rewrite forallb_forall in Hb5. specialize (Hb5 _ (proj1 (list_elem_of_In _ _) Hin)). by apply bool_decide_eq_true in Hb5.
Qed.
End Creation.

(** ** Properties *)

(** C17: An operation reserved to the holder of a token spends the token: when
    [CheckTransaction] and [CheckTxAssets] accept a transaction, every output
    that issues a sub-asset, a unique asset or a restricted asset, reissues an
    asset, tags or freezes an address or freezes an asset has an input coin that
    carries the owner token, or the qualifier, that the operation requires.
    The same holds of message channels and sub-qualifiers in transactions
    without an owner output; with one, [channels_without_parent_token] shows
    that the parent's token is not asked for. *)
Theorem privileged_operations_spend_tokens `{AddressV4} {V : Type} `{CoinsView V} `{!CoinsViewSpec V} (params : CChainParams)
    (nd : Node) (fp : FounderPayment) (script_usage : list Z -> Z) (c c' : CCoinsViewCache V) (tx : CTransaction)
    (nHeight blockReward : Z) (fDup fMempoolCheck fBlockCheck fCheckMempool : bool) (t : totals * AssetsState)
    (o : CTxOut) (token : list Z) :
  cache_ok script_usage c ->
  CheckTransaction params (n_dep nd) fp tx nHeight blockReward fDup fMempoolCheck fBlockCheck = Accept tt ->
  CheckTxAssets params nd script_usage tx c fCheckMempool = (Accept t, c') ->
  In o (vout tx) -> needs_token (base58Prefixes params) tx (scriptPubKey o) token ->
  exists p co amount, p ∈ prevouts tx /\ cache_utxo c !! p = Some co /\ GetAssetData (scriptPubKey (out co)) = Some (token, amount).
Proof.
  intros Hok Hct Hca Ho Hneeds. destruct t as [ti st].
  pose proof (CheckTransaction_tokens _ _ _ _ _ _ _ _ _ Hct _ _ Ho Hneeds) as Hin.
  destruct (CheckTxAssets_accept _ _ _ _ _ _ _ _ _ Hok Hca) as (_ & _ & coins & Hf & Hti & Hto).
  apply (tracks_same _ _ _ token Hti Hto) in Hin. apply list_elem_of_fmap in Hin as ([n a] & -> & Hin).
  apply list_elem_of_omap in Hin as (script & Hs & Hd). apply list_elem_of_In, in_map_iff in Hs as (co & <- & Hco).
  apply list_elem_of_In, list_elem_of_lookup in Hco as [i Hco].
  destruct (Forall2_lookup_r _ _ _ _ _ Hf Hco) as (p & Hp & Hu). exists p, co, a.
  split; [by apply list_elem_of_lookup; exists i |]. done.
Qed.

#[local] Existing Instance dotted_v4.

(** Payments of the burns, and issuances to one address. *)
Definition burn_out (type : AssetType) : CTxOut :=
  mkTxOut (GetBurnAmount CMainParams type)
    (GetScriptForDestination (default CNoDestination (DecodeDestination main_prefixes (GetBurnAddress CMainParams type)))).
Definition issue_outs (asset : CNewAsset) : list CTxOut :=
  [mkTxOut 0 (ConstructOwnerTransaction pay_to asset); mkTxOut 0 (NewAsset_ConstructTransaction pay_to asset)].
Definition no_founder : FounderPayment := mkFounder [] 0 [].

Abbreviation check_tx tx := (CheckTransaction CMainParams all_deployed no_founder tx 100 0 true true true).
Abbreviation check_assets tx view := (CheckTxAssets CMainParams abcd_node (fun _ => 0) tx view true).

(** A sub-asset of [ABCD], with the owner token of [ABCD]. *)
Definition abcd_owner : list Z := codes "ABCD!".
Definition sub_view : CCoinsViewCache CoinsDB := asset_view [transfer_out abcd_owner OWNER_ASSET_AMOUNT []].
Definition sub_asset : CNewAsset := mkNewAsset (codes "ABCD/SUB") COIN 0 1 0 [] 0 [].
Definition sub_tx : CTransaction :=
  spend ([burn_out SUB; transfer_out abcd_owner OWNER_ASSET_AMOUNT []] ++ issue_outs sub_asset).

Lemma sub_view_ok : cache_ok (fun _ => 0) sub_view.
Proof.
  split; [split; [by apply map_Forall_singleton | done] |]. split; [| done]. intros o e.
  unfold sub_view, asset_view. cbn [cacheCoins]. by rewrite lookup_empty.
Qed.

Lemma sub_tx_accepted : check_tx sub_tx = Accept tt /\ exists t c', check_assets sub_tx sub_view = (Accept t, c').
Proof. split; [vm_compute; reflexivity | eexists _, _; vm_compute; reflexivity]. Qed.

Lemma privileged_operations_spend_tokens_witness : exists p co amount,
  p ∈ prevouts sub_tx /\ cache_utxo sub_view !! p = Some co /\ GetAssetData (scriptPubKey (out co)) = Some (abcd_owner, amount).
Proof.
  destruct sub_tx_accepted as [Hct (t & c' & Hca)].
  apply (privileged_operations_spend_tokens CMainParams abcd_node no_founder (fun _ => 0) sub_view c' sub_tx 100 0 true true true true t
           (List.last (vout sub_tx) null_out) abcd_owner sub_view_ok Hct Hca).
  - vm_compute. tauto.
  - apply (needs_issue _ _ _ sub_asset SUB); vm_compute; reflexivity.
Defined.

(** A channel of [ABCD] and a sub-qualifier of [#KYC], each issued with an
    owner token of its own by a transaction whose only input is a payment. *)
Definition plain_view : CCoinsViewCache CoinsDB := asset_view [mkTxOut (2000 * COIN) pay_to].
Definition channel_asset : CNewAsset := mkNewAsset (codes "ABCD~CHANNEL") UNIQUE_ASSET_AMOUNT 0 0 0 [] 0 [].
Definition qualifier_asset : CNewAsset := mkNewAsset (codes "#KYC/#LEVEL") QUALIFIER_ASSET_MIN_AMOUNT 0 0 0 [] 0 [].

Definition grab_tx (type : AssetType) (asset : CNewAsset) : CTransaction := spend ([burn_out type] ++ issue_outs asset).

(** Message channels and sub-qualifiers can be issued without the token of
    their parent: [IsNewAsset] takes a channel or qualifier that comes with an
    owner output for an ordinary asset, and [VerifyNewAsset] asks for the
    parent's token of sub-assets only.  Both transactions spend no asset at
    all, and both checks accept them; without the owner output
    [CheckTransaction] rejects them. *)
Theorem channels_without_parent_token :
  Forall (fun '(type, asset) =>
    check_tx (grab_tx type asset) = Accept tt /\
    (exists c', check_assets (grab_tx type asset) plain_view = (Accept (∅, mkAssetsState ∅ [] []), c')) /\
    (exists reason, check_tx (spend [burn_out type; burn_out type; mkTxOut 0 (NewAsset_ConstructTransaction pay_to asset)]) = Reject reason))
    [(MSGCHANNEL, channel_asset); (SUB_QUALIFIER, qualifier_asset)].
Proof.
  apply Forall_cons; split; [| apply Forall_cons; split; [| apply Forall_nil_2]];
    (split; [| split; eexists]); vm_compute; reflexivity.
Qed.

(** A transfer whose message reads as an ANS identifier with an address of 28
    hexadecimal digits passes [CheckTransaction]; [CheckTxAssets] throws. *)
Example message_throws :
  let tx := spend [transfer_out abcd 5 (codes "ANS1" ++ replicate 28 102)] in
  check_tx tx = Accept tt /\ exists c', check_assets tx abcd_view = (Abort, c').
Proof. split; [vm_compute; reflexivity | eexists; vm_compute; reflexivity]. Qed.
