(* ===== verification/Interpreter.v ===== *)
(** * The script interpreter ([src/script/interpreter.cpp])

    [EvalScript] and [VerifyScript] with every opcode, and the checks of
    signature and key encodings.  A stack is a list with its top first, the
    reverse of the vector of the code.  The signature checker is a record of
    its three methods; [CPubKey::CheckLowS], a call into libsecp256k1, is a
    parameter.  An error of the interpreter is a rejection; [Abort] is an
    assertion of [VerifyScript] on its flags. *)

From stdpp Require Import gmap.
From S2P Require Import Prelude Bytes Serialize TxFormat Script ScriptNum Hashes Sha2 Standard TxVerify.

Open Scope checked_scope.

Inductive ScriptError :=
| SCRIPT_ERR_UNKNOWN_ERROR | SCRIPT_ERR_EVAL_FALSE | SCRIPT_ERR_OP_RETURN
| SCRIPT_ERR_SCRIPT_SIZE | SCRIPT_ERR_PUSH_SIZE | SCRIPT_ERR_OP_COUNT | SCRIPT_ERR_STACK_SIZE
| SCRIPT_ERR_SIG_COUNT | SCRIPT_ERR_PUBKEY_COUNT
| SCRIPT_ERR_VERIFY | SCRIPT_ERR_EQUALVERIFY | SCRIPT_ERR_CHECKMULTISIGVERIFY | SCRIPT_ERR_CHECKSIGVERIFY
| SCRIPT_ERR_NUMEQUALVERIFY
| SCRIPT_ERR_BAD_OPCODE | SCRIPT_ERR_DISABLED_OPCODE | SCRIPT_ERR_INVALID_STACK_OPERATION
| SCRIPT_ERR_INVALID_ALTSTACK_OPERATION | SCRIPT_ERR_UNBALANCED_CONDITIONAL
| SCRIPT_ERR_NEGATIVE_LOCKTIME | SCRIPT_ERR_UNSATISFIED_LOCKTIME
| SCRIPT_ERR_SIG_HASHTYPE | SCRIPT_ERR_SIG_DER | SCRIPT_ERR_MINIMALDATA | SCRIPT_ERR_SIG_PUSHONLY
| SCRIPT_ERR_SIG_HIGH_S | SCRIPT_ERR_SIG_NULLDUMMY | SCRIPT_ERR_PUBKEYTYPE | SCRIPT_ERR_CLEANSTACK
| SCRIPT_ERR_MINIMALIF | SCRIPT_ERR_SIG_NULLFAIL
| SCRIPT_ERR_DISCOURAGE_UPGRADABLE_NOPS | SCRIPT_ERR_DISCOURAGE_UPGRADABLE_WITNESS_PROGRAM
| SCRIPT_ERR_WITNESS_PROGRAM_WRONG_LENGTH | SCRIPT_ERR_WITNESS_PROGRAM_WITNESS_EMPTY
| SCRIPT_ERR_WITNESS_PROGRAM_MISMATCH | SCRIPT_ERR_WITNESS_MALLEATED | SCRIPT_ERR_WITNESS_MALLEATED_P2SH
| SCRIPT_ERR_WITNESS_UNEXPECTED | SCRIPT_ERR_WITNESS_PUBKEYTYPE
| SCRIPT_ERR_ILLEGAL_FORKID | SCRIPT_ERR_MUST_USE_FORKID.

Definition SIGHASH_ALL : Z := 1.
Definition SIGHASH_NONE : Z := 2.
Definition SIGHASH_SINGLE : Z := 3.
Definition SIGHASH_FORKID : Z := 0x40.
Definition SIGHASH_ANYONECANPAY : Z := 0x80.

Definition SCRIPT_VERIFY_STRICTENC : Z := 2 ^ 1.
Definition SCRIPT_VERIFY_DERSIG : Z := 2 ^ 2.
Definition SCRIPT_VERIFY_LOW_S : Z := 2 ^ 3.
Definition SCRIPT_VERIFY_NULLDUMMY : Z := 2 ^ 4.
Definition SCRIPT_VERIFY_SIGPUSHONLY : Z := 2 ^ 5.
Definition SCRIPT_VERIFY_MINIMALDATA : Z := 2 ^ 6.
Definition SCRIPT_VERIFY_DISCOURAGE_UPGRADABLE_NOPS : Z := 2 ^ 7.
Definition SCRIPT_VERIFY_CLEANSTACK : Z := 2 ^ 8.
Definition SCRIPT_VERIFY_CHECKLOCKTIMEVERIFY : Z := 2 ^ 9.
Definition SCRIPT_VERIFY_CHECKSEQUENCEVERIFY : Z := 2 ^ 10.
Definition SCRIPT_VERIFY_DISCOURAGE_UPGRADABLE_WITNESS_PROGRAM : Z := 2 ^ 12.
Definition SCRIPT_VERIFY_MINIMALIF : Z := 2 ^ 13.
Definition SCRIPT_VERIFY_NULLFAIL : Z := 2 ^ 14.
Definition SCRIPT_VERIFY_WITNESS_PUBKEYTYPE : Z := 2 ^ 15.
Definition SCRIPT_ENABLE_SIGHASH_FORKID : Z := 2 ^ 16.

(** [flags & flag] as a condition. *)
Definition has (flags flag : Z) : bool := negb (Z.land flags flag =? 0).

Inductive SigVersion := SIGVERSION_BASE | SIGVERSION_WITNESS_V0.

#[export] Instance SigVersion_eq_dec : EqDecision SigVersion.
Proof. solve_decision. Defined.

Definition MAX_OPS_PER_SCRIPT : Z := 201.
Definition MAX_STACK_SIZE : Z := 1000.

(** ** Opcodes *)

(** What the interpreter does with the opcodes from [OP_1NEGATE] on. *)
Inductive Op :=
| OpNum (n : Z) | OpNop | OpNopN | OpCheckLockTimeVerify | OpCheckSequenceVerify
| OpIf (not : bool) | OpElse | OpEndIf | OpVerify | OpReturn
| OpToAltStack | OpFromAltStack | Op2Drop | Op2Dup | Op3Dup | Op2Over | Op2Rot | Op2Swap | OpIfDup | OpDepth | OpDrop
| OpDup | OpNip | OpOver | OpPick | OpRoll | OpRot | OpSwap | OpTuck | OpSize
| OpEqual (verify : bool)
| Op1Add | Op1Sub | OpNegate | OpAbs | OpNot | Op0NotEqual
| OpAdd | OpSub | OpBoolAnd | OpBoolOr | OpNumEqual (verify : bool) | OpNumNotEqual | OpLessThan | OpGreaterThan
| OpLessThanOrEqual | OpGreaterThanOrEqual | OpMin | OpMax | OpWithin
| OpRipemd160 | OpSha1 | OpSha256 | OpHash160 | OpHash256 | OpCodeSeparator
| OpCheckSig (verify : bool) | OpCheckMultiSig (verify : bool)
| OpAvnAsset | OpDisabled | OpInvalid.

(** [OP_1NEGATE] (0x4f) to [OP_NOP10] (0xb9) in the order of [opcodetype]. *)
Definition op_table : list Op :=
  [OpNum (-1); OpInvalid] ++ map OpNum [1; 2; 3; 4; 5; 6; 7; 8; 9; 10; 11; 12; 13; 14; 15; 16] ++
  [OpNop; OpInvalid; OpIf false; OpIf true; OpInvalid; OpInvalid; OpElse; OpEndIf; OpVerify; OpReturn] ++
  [OpToAltStack; OpFromAltStack; Op2Drop; Op2Dup; Op3Dup; Op2Over; Op2Rot; Op2Swap; OpIfDup; OpDepth; OpDrop; OpDup; OpNip;
   OpOver; OpPick; OpRoll; OpRot; OpSwap; OpTuck] ++
  [OpDisabled; OpDisabled; OpDisabled; OpDisabled; OpSize] ++
  [OpDisabled; OpDisabled; OpDisabled; OpDisabled; OpEqual false; OpEqual true; OpInvalid; OpInvalid] ++
  [Op1Add; Op1Sub; OpDisabled; OpDisabled; OpNegate; OpAbs; OpNot; Op0NotEqual] ++
  [OpAdd; OpSub; OpDisabled; OpDisabled; OpDisabled; OpDisabled; OpDisabled; OpBoolAnd; OpBoolOr; OpNumEqual false;
   OpNumEqual true; OpNumNotEqual; OpLessThan; OpGreaterThan; OpLessThanOrEqual; OpGreaterThanOrEqual; OpMin; OpMax; OpWithin] ++
  [OpRipemd160; OpSha1; OpSha256; OpHash160; OpHash256; OpCodeSeparator; OpCheckSig false; OpCheckSig true;
   OpCheckMultiSig false; OpCheckMultiSig true] ++
  [OpNopN; OpCheckLockTimeVerify; OpCheckSequenceVerify; OpNopN; OpNopN; OpNopN; OpNopN; OpNopN; OpNopN; OpNopN].

Definition decode_op (opcode : Z) : Op :=
  if opcode =? OP_AVN_ASSET then OpAvnAsset else nth (Z.to_nat (opcode - OP_1NEGATE)) op_table OpInvalid.

Definition OP_IF : Z := 0x63.
Definition OP_ENDIF : Z := 0x68.

(** ** Encodings *)

Fixpoint CastToBool (vch : list Z) : bool :=
  match vch with
  | [] => false
  | [b] => negb (b =? 0) && negb (b =? 0x80)
  | b :: vch => negb (b =? 0) || CastToBool vch
  end.

Definition IsCompressedOrUncompressedPubKey (vchPubKey : list Z) : bool :=
  let size := length vchPubKey in
  let b := nth 0 vchPubKey 0 in
  if (size <? 33)%nat then false
  else if b =? 0x04 then (size =? 65)%nat
  else if (b =? 0x02) || (b =? 0x03) then (size =? 33)%nat
  else false.

Definition IsCompressedPubKey (vchPubKey : list Z) : bool :=
  (length vchPubKey =? 33)%nat && ((nth 0 vchPubKey 0 =? 0x02) || (nth 0 vchPubKey 0 =? 0x03)).

Definition IsValidSignatureEncoding (sig : list Z) : bool :=
  let at_ i := nth (Z.to_nat i) sig 0 in
  let size := Z.of_nat (length sig) in
  let lenR := at_ 3 in
  let lenS := at_ (5 + lenR) in
  let high b := negb (Z.land b 0x80 =? 0) in
  if size <? 9 then false
  else if size >? 73 then false
  else if negb (at_ 0 =? 0x30) then false
  else if negb (at_ 1 =? size - 3) then false
  else if 5 + lenR >=? size then false
  else if negb (lenR + lenS + 7 =? size) then false
  else if negb (at_ 2 =? 0x02) then false
  else if lenR =? 0 then false
  else if high (at_ 4) then false
  else if (lenR >? 1) && (at_ 4 =? 0x00) && negb (high (at_ 5)) then false
  else if negb (at_ (lenR + 4) =? 0x02) then false
  else if lenS =? 0 then false
  else if high (at_ (lenR + 6)) then false
  else if (lenS >? 1) && (at_ (lenR + 6) =? 0x00) && negb (high (at_ (lenR + 7))) then false
  else true.

Definition GetHashType (vchSig : list Z) : Z := back vchSig.

Definition IsDefinedHashtypeSignature (vchSig : list Z) : bool :=
  if bool_decide (vchSig = []) then false
  else
    let nHashType := Z.land (back vchSig) (Z.lnot (Z.lor SIGHASH_ANYONECANPAY SIGHASH_FORKID)) in
    negb ((nHashType <? SIGHASH_ALL) || (nHashType >? SIGHASH_SINGLE)).

Definition CheckMinimalPush (data : list Z) (opcode : Z) : bool :=
  let size := Z.of_nat (length data) in
  let b := nth 0 data 0 in
  if size =? 0 then opcode =? OP_0
  else if (size =? 1) && (b >=? 1) && (b <=? 16) then opcode =? OP_1 + (b - 1)
  else if (size =? 1) && (b =? 0x81) then opcode =? OP_1NEGATE
  else if size <=? 75 then opcode =? size
  else if size <=? 255 then opcode =? OP_PUSHDATA1
  else if size <=? 65535 then opcode =? OP_PUSHDATA2
  else true.

(** [BaseSignatureChecker]. *)
Record SignatureChecker := mkChecker {
  CheckSig : list Z -> list Z -> list Z -> SigVersion -> bool;   (* signature, key, script code *)
  CheckLockTime : Z -> bool;
  CheckSequence : Z -> bool
}.

Abbreviation Evaluated := (Checked ScriptError).

Section Interpreter.
Variable CheckLowS : list Z -> bool.

Definition IsLowDERSignature (vchSig : list Z) : Evaluated unit :=
  ensure IsValidSignatureEncoding vchSig or SCRIPT_ERR_SIG_DER;
  ensure CheckLowS (removelast vchSig) or SCRIPT_ERR_SIG_HIGH_S;
  Accept tt.

Definition CheckSignatureEncoding (vchSig : list Z) (flags : Z) : Evaluated unit :=
  if bool_decide (vchSig = []) then Accept tt
  else
    ensure negb (has flags (Z.lor SCRIPT_VERIFY_DERSIG (Z.lor SCRIPT_VERIFY_LOW_S SCRIPT_VERIFY_STRICTENC)) &&
                 negb (IsValidSignatureEncoding vchSig)) or SCRIPT_ERR_SIG_DER;
    _ <- (if has flags SCRIPT_VERIFY_LOW_S then IsLowDERSignature vchSig else Accept tt);
    if has flags SCRIPT_VERIFY_STRICTENC then
      ensure IsDefinedHashtypeSignature vchSig or SCRIPT_ERR_SIG_HASHTYPE;
      let usesForkId := negb (Z.land (GetHashType vchSig) SIGHASH_FORKID =? 0) in
      let forkIdEnabled := has flags SCRIPT_ENABLE_SIGHASH_FORKID in
      ensure negb (negb forkIdEnabled && usesForkId) or SCRIPT_ERR_ILLEGAL_FORKID;
      ensure negb (forkIdEnabled && negb usesForkId) or SCRIPT_ERR_MUST_USE_FORKID;
      Accept tt
    else Accept tt.

Definition CheckPubKeyEncoding (vchPubKey : list Z) (flags : Z) (sigversion : SigVersion) : Evaluated unit :=
  ensure negb (has flags SCRIPT_VERIFY_STRICTENC && negb (IsCompressedOrUncompressedPubKey vchPubKey)) or SCRIPT_ERR_PUBKEYTYPE;
  ensure negb (has flags SCRIPT_VERIFY_WITNESS_PUBKEYTYPE && bool_decide (sigversion = SIGVERSION_WITNESS_V0) &&
               negb (IsCompressedPubKey vchPubKey)) or SCRIPT_ERR_WITNESS_PUBKEYTYPE;
  Accept tt.

(** ** The machine *)

Abbreviation Stack := (list (list Z)).

Record Machine := mkMachine {
  stack : Stack;
  altstack : Stack;
  vfExec : list bool;         (* innermost conditional first *)
  nOpCount : Z;
  pbegincodehash : list Z     (* the rest of the script from the last code separator *)
}.

Definition with_stack (m : Machine) (s : Stack) : Machine := mkMachine s (altstack m) (vfExec m) (nOpCount m) (pbegincodehash m).

Definition vchFalse : list Z := [].
Definition vchTrue : list Z := [1].
Definition bool_vch (b : bool) : list Z := if b then vchTrue else vchFalse.
Definition getvch : Z -> list Z := CScriptNum_serialize.
Definition of_bool (b : bool) : Z := if b then 1 else 0.

(** Reading a number throws when it is too long or not minimal, and what is
    thrown ends as [SCRIPT_ERR_UNKNOWN_ERROR]. *)
Definition number (vch : list Z) (fRequireMinimal : bool) (nMaxNumSize : Z) : Evaluated Z :=
  match CScriptNum_decode vch fRequireMinimal nMaxNumSize with
  | Some n => Accept n
  | None => Reject SCRIPT_ERR_UNKNOWN_ERROR
  end.

Definition invalid_stack {A} : Evaluated A := Reject SCRIPT_ERR_INVALID_STACK_OPERATION.

Section Eval.
Variable flags : Z.
Variable checker : SignatureChecker.
Variable sigversion : SigVersion.

Definition fRequireMinimal : bool := has flags SCRIPT_VERIFY_MINIMALDATA.

(** Opcodes that only rearrange the stack. *)
Definition exec_stack (op : Op) (s : Stack) : Evaluated Stack :=
  match op, s with
  | Op2Drop, x2 :: x1 :: s => Accept s
  | Op2Dup, x2 :: x1 :: s => Accept (x2 :: x1 :: x2 :: x1 :: s)
  | Op3Dup, x3 :: x2 :: x1 :: s => Accept (x3 :: x2 :: x1 :: x3 :: x2 :: x1 :: s)
  | Op2Over, x4 :: x3 :: x2 :: x1 :: s => Accept (x2 :: x1 :: x4 :: x3 :: x2 :: x1 :: s)
  | Op2Rot, x6 :: x5 :: x4 :: x3 :: x2 :: x1 :: s => Accept (x2 :: x1 :: x6 :: x5 :: x4 :: x3 :: s)
  | Op2Swap, x4 :: x3 :: x2 :: x1 :: s => Accept (x2 :: x1 :: x4 :: x3 :: s)
  | OpIfDup, x :: s => Accept (if CastToBool x then x :: x :: s else x :: s)
  | OpDepth, s => Accept (getvch (Z.of_nat (length s)) :: s)
  | OpDrop, x :: s => Accept s
  | OpDup, x :: s => Accept (x :: x :: s)
  | OpNip, x2 :: x1 :: s => Accept (x2 :: s)
  | OpOver, x2 :: x1 :: s => Accept (x1 :: x2 :: x1 :: s)
  | OpRot, x3 :: x2 :: x1 :: s => Accept (x1 :: x3 :: x2 :: s)
  | OpSwap, x2 :: x1 :: s => Accept (x1 :: x2 :: s)
  | OpTuck, x2 :: x1 :: s => Accept (x2 :: x1 :: x2 :: s)
  | OpSize, x :: s => Accept (getvch (Z.of_nat (length x)) :: x :: s)
  | _, _ => invalid_stack
  end.

Definition exec_pick (roll : bool) (s : Stack) : Evaluated Stack :=
  match s with
  | x :: ((_ :: _) as s) =>
      n <- number x fRequireMinimal 4;
      let n := getint n in
      if (n <? 0) || (n >=? Z.of_nat (length s)) then invalid_stack
      else
        let n := Z.to_nat n in
        let vch := nth n s [] in
        Accept (vch :: if roll then take n s ++ drop (S n) s else s)
  | _ => invalid_stack
  end.

Definition unary (op : Op) (n : Z) : Z :=
  match op with
  | Op1Add => n + 1
  | Op1Sub => n - 1
  | OpNegate => - n
  | OpAbs => if n <? 0 then - n else n
  | OpNot => of_bool (n =? 0)
  | _ => of_bool (negb (n =? 0))  (* OP_0NOTEQUAL *)
  end.

Definition binary (op : Op) (n1 n2 : Z) : Z :=
  match op with
  | OpAdd => n1 + n2
  | OpSub => n1 - n2
  | OpBoolAnd => of_bool (negb (n1 =? 0) && negb (n2 =? 0))
  | OpBoolOr => of_bool (negb (n1 =? 0) || negb (n2 =? 0))
  | OpNumEqual _ => of_bool (n1 =? n2)
  | OpNumNotEqual => of_bool (negb (n1 =? n2))
  | OpLessThan => of_bool (n1 <? n2)
  | OpGreaterThan => of_bool (n1 >? n2)
  | OpLessThanOrEqual => of_bool (n1 <=? n2)
  | OpGreaterThanOrEqual => of_bool (n1 >=? n2)
  | OpMin => if n1 <? n2 then n1 else n2
  | _ => if n1 >? n2 then n1 else n2  (* OP_MAX *)
  end.

Definition exec_unary (op : Op) (s : Stack) : Evaluated Stack :=
  match s with
  | x :: s => n <- number x fRequireMinimal 4; Accept (getvch (unary op n) :: s)
  | _ => invalid_stack
  end.

(** The result of a predicate, consumed by its [VERIFY] form. *)
Definition verify_result (verify : bool) (value : bool) (error : ScriptError) (vch : list Z) (s : Stack) : Evaluated Stack :=
  if verify then (ensure value or error; Accept s) else Accept (vch :: s).

Definition exec_binary (op : Op) (s : Stack) : Evaluated Stack :=
  match s with
  | x2 :: x1 :: s =>
      n1 <- number x1 fRequireMinimal 4;
      n2 <- number x2 fRequireMinimal 4;
      let vch := getvch (binary op n1 n2) in
      match op with
      | OpNumEqual verify => verify_result verify (CastToBool vch) SCRIPT_ERR_NUMEQUALVERIFY vch s
      | _ => Accept (vch :: s)
      end
  | _ => invalid_stack
  end.

Definition exec_within (s : Stack) : Evaluated Stack :=
  match s with
  | x3 :: x2 :: x1 :: s =>
      n1 <- number x1 fRequireMinimal 4;
      n2 <- number x2 fRequireMinimal 4;
      n3 <- number x3 fRequireMinimal 4;
      Accept (bool_vch ((n2 <=? n1) && (n1 <? n3)) :: s)
  | _ => invalid_stack
  end.

Definition op_hash (op : Op) (vch : list Z) : list Z :=
  match op with
  | OpRipemd160 => Ripemd160.Finalize (Ripemd160.Write CRIPEMD160 vch)
  | OpSha1 => Sha1.Finalize (Sha1.Write CSHA1 vch)
  | OpSha256 => Sha256.Finalize (Sha256.Write CSHA256 vch)
  | OpHash160 => CHash160_Finalize (Sha256.Write CSHA256 vch)
  | _ => CHash256_Finalize (Sha256.Write CSHA256 vch)  (* OP_HASH256 *)
  end.

Definition exec_hash (op : Op) (s : Stack) : Evaluated Stack :=
  match s with
  | vch :: s => Accept (op_hash op vch :: s)
  | _ => invalid_stack
  end.

(** Before segwit a signature cannot be part of what it signs. *)
Definition drop_signature (scriptCode vchSig : list Z) : list Z :=
  if bool_decide (sigversion = SIGVERSION_BASE) then snd (FindAndDelete scriptCode (push_data vchSig)) else scriptCode.

Definition exec_checksig (verify : bool) (scriptCode : list Z) (s : Stack) : Evaluated Stack :=
  match s with
  | vchPubKey :: vchSig :: s =>
      let scriptCode := drop_signature scriptCode vchSig in
      _ <- CheckSignatureEncoding vchSig flags;
      _ <- CheckPubKeyEncoding vchPubKey flags sigversion;
      let fSuccess := CheckSig checker vchSig vchPubKey scriptCode sigversion in
      ensure negb (negb fSuccess && has flags SCRIPT_VERIFY_NULLFAIL && negb (bool_decide (vchSig = []))) or SCRIPT_ERR_SIG_NULLFAIL;
      verify_result verify fSuccess SCRIPT_ERR_CHECKSIGVERIFY (bool_vch fSuccess) s
  | _ => invalid_stack
  end.

(** Signatures and keys are tried in order; the loop ends early when more
    signatures than keys are left. *)
Fixpoint multisig_loop (scriptCode : list Z) (keys sigs : Stack) : Evaluated bool :=
  match sigs, keys with
  | [], _ => Accept true
  | _, [] => Accept false
  | vchSig :: sigs', vchPubKey :: keys =>
      _ <- CheckSignatureEncoding vchSig flags;
      _ <- CheckPubKeyEncoding vchPubKey flags sigversion;
      let sigs := if CheckSig checker vchSig vchPubKey scriptCode sigversion then sigs' else sigs in
      if (length keys <? length sigs)%nat then Accept false else multisig_loop scriptCode keys sigs
  end.

(** Returns the new operation count too. *)
Definition exec_multisig (verify : bool) (scriptCode : list Z) (nOpCount : Z) (s : Stack) : Evaluated (Z * Stack) :=
  match s with
  | [] => invalid_stack
  | top :: rest =>
      nKeysCount <- number top fRequireMinimal 4;
      let nKeysCount := getint nKeysCount in
      ensure negb ((nKeysCount <? 0) || (nKeysCount >? MAX_PUBKEYS_PER_MULTISIG)) or SCRIPT_ERR_PUBKEY_COUNT;
      let nOpCount := nOpCount + nKeysCount in
      ensure negb (nOpCount >? MAX_OPS_PER_SCRIPT) or SCRIPT_ERR_OP_COUNT;
      let nKeys := Z.to_nat nKeysCount in
      let keys := take nKeys rest in
      match drop nKeys rest with
      | [] => invalid_stack
      | top :: rest =>
          nSigsCount <- number top fRequireMinimal 4;
          let nSigsCount := getint nSigsCount in
          ensure negb ((nSigsCount <? 0) || (nSigsCount >? nKeysCount)) or SCRIPT_ERR_SIG_COUNT;
          let nSigs := Z.to_nat nSigsCount in
          let sigs := take nSigs rest in
          match drop nSigs rest with
          | [] => invalid_stack
          | dummy :: rest =>
              let scriptCode := fold_left drop_signature sigs scriptCode in
              fSuccess <- multisig_loop scriptCode keys sigs;
              ensure negb (negb fSuccess && has flags SCRIPT_VERIFY_NULLFAIL && existsb (fun sig => negb (bool_decide (sig = []))) sigs)
                or SCRIPT_ERR_SIG_NULLFAIL;
              ensure negb (has flags SCRIPT_VERIFY_NULLDUMMY && negb (bool_decide (dummy = []))) or SCRIPT_ERR_SIG_NULLDUMMY;
              s <- verify_result verify fSuccess SCRIPT_ERR_CHECKMULTISIGVERIFY (bool_vch fSuccess) rest;
              Accept (nOpCount, s)
          end
      end
  end.

(** The lock-time opcodes leave the stack alone.  Not enabled, they are [NOP]s. *)
Definition nop : Evaluated unit :=
  ensure negb (has flags SCRIPT_VERIFY_DISCOURAGE_UPGRADABLE_NOPS) or SCRIPT_ERR_DISCOURAGE_UPGRADABLE_NOPS; Accept tt.

Definition exec_locktime (s : Stack) : Evaluated unit :=
  if negb (has flags SCRIPT_VERIFY_CHECKLOCKTIMEVERIFY) then nop
  else match s with
       | [] => invalid_stack
       | x :: _ =>
           nLockTime <- number x fRequireMinimal 5;
           ensure negb (nLockTime <? 0) or SCRIPT_ERR_NEGATIVE_LOCKTIME;
           ensure CheckLockTime checker nLockTime or SCRIPT_ERR_UNSATISFIED_LOCKTIME;
           Accept tt
       end.

Definition exec_sequence (s : Stack) : Evaluated unit :=
  if negb (has flags SCRIPT_VERIFY_CHECKSEQUENCEVERIFY) then nop
  else match s with
       | [] => invalid_stack
       | x :: _ =>
           nSequence <- number x fRequireMinimal 5;
           ensure negb (nSequence <? 0) or SCRIPT_ERR_NEGATIVE_LOCKTIME;
           if negb (Z.land nSequence SEQUENCE_LOCKTIME_DISABLE_FLAG =? 0) then Accept tt
           else ensure CheckSequence checker nSequence or SCRIPT_ERR_UNSATISFIED_LOCKTIME; Accept tt
       end.

Definition exec_if (not : bool) (m : Machine) (fExec : bool) : Evaluated Machine :=
  if fExec then
    match stack m with
    | [] => Reject SCRIPT_ERR_UNBALANCED_CONDITIONAL
    | vch :: s =>
        ensure negb (bool_decide (sigversion = SIGVERSION_WITNESS_V0) && has flags SCRIPT_VERIFY_MINIMALIF &&
                     ((1 <? length vch)%nat || ((length vch =? 1)%nat && negb (nth 0 vch 0 =? 1)))) or SCRIPT_ERR_MINIMALIF;
        let fValue := xorb not (CastToBool vch) in
        Accept (mkMachine s (altstack m) (fValue :: vfExec m) (nOpCount m) (pbegincodehash m))
    end
  else Accept (mkMachine (stack m) (altstack m) (false :: vfExec m) (nOpCount m) (pbegincodehash m)).

(** The [switch] over the opcode; [pc] is the rest of the script. *)
Definition exec_op (op : Op) (m : Machine) (pc : list Z) (fExec : bool) : Evaluated Machine :=
  let on_stack r := s <- r; Accept (with_stack m s) in
  let s := stack m in
  match op with
  | OpNum n => Accept (with_stack m (getvch n :: s))
  | OpNop | OpAvnAsset => Accept m
  | OpNopN => _ <- nop; Accept m
  | OpCheckLockTimeVerify => _ <- exec_locktime s; Accept m
  | OpCheckSequenceVerify => _ <- exec_sequence s; Accept m
  | OpIf not => exec_if not m fExec
  | OpElse =>
      match vfExec m with
      | [] => Reject SCRIPT_ERR_UNBALANCED_CONDITIONAL
      | f :: l => Accept (mkMachine s (altstack m) (negb f :: l) (nOpCount m) (pbegincodehash m))
      end
  | OpEndIf =>
      match vfExec m with
      | [] => Reject SCRIPT_ERR_UNBALANCED_CONDITIONAL
      | _ :: l => Accept (mkMachine s (altstack m) l (nOpCount m) (pbegincodehash m))
      end
  | OpVerify =>
      match s with
      | [] => invalid_stack
      | x :: s => ensure CastToBool x or SCRIPT_ERR_VERIFY; Accept (with_stack m s)
      end
  | OpReturn => Reject SCRIPT_ERR_OP_RETURN
  | OpToAltStack =>
      match s with
      | [] => invalid_stack
      | x :: s => Accept (mkMachine s (x :: altstack m) (vfExec m) (nOpCount m) (pbegincodehash m))
      end
  | OpFromAltStack =>
      match altstack m with
      | [] => Reject SCRIPT_ERR_INVALID_ALTSTACK_OPERATION
      | x :: a => Accept (mkMachine (x :: s) a (vfExec m) (nOpCount m) (pbegincodehash m))
      end
  | OpPick => on_stack (exec_pick false s)
  | OpRoll => on_stack (exec_pick true s)
  | OpEqual verify =>
      match s with
      | x2 :: x1 :: s =>
          let fEqual := bool_decide (x1 = x2) in
          on_stack (verify_result verify fEqual SCRIPT_ERR_EQUALVERIFY (bool_vch fEqual) s)
      | _ => invalid_stack
      end
  | Op1Add | Op1Sub | OpNegate | OpAbs | OpNot | Op0NotEqual => on_stack (exec_unary op s)
  | OpAdd | OpSub | OpBoolAnd | OpBoolOr | OpNumEqual _ | OpNumNotEqual | OpLessThan | OpGreaterThan
  | OpLessThanOrEqual | OpGreaterThanOrEqual | OpMin | OpMax => on_stack (exec_binary op s)
  | OpWithin => on_stack (exec_within s)
  | OpRipemd160 | OpSha1 | OpSha256 | OpHash160 | OpHash256 => on_stack (exec_hash op s)
  | OpCodeSeparator => Accept (mkMachine s (altstack m) (vfExec m) (nOpCount m) pc)
  | OpCheckSig verify => on_stack (exec_checksig verify (pbegincodehash m) s)
  | OpCheckMultiSig verify =>
      r <- exec_multisig verify (pbegincodehash m) (nOpCount m) s;
      Accept (mkMachine (snd r) (altstack m) (vfExec m) (fst r) (pbegincodehash m))
  | OpDisabled | OpInvalid => Reject SCRIPT_ERR_BAD_OPCODE
  | _ => on_stack (exec_stack op s)
  end.

(** One turn of the loop, after [GetOp]. *)
Definition step (m : Machine) (opcode : Z) (vchPushValue pc : list Z) : Evaluated Machine :=
  let fExec := forallb (fun b => b) (vfExec m) in
  ensure negb (Z.of_nat (length vchPushValue) >? MAX_SCRIPT_ELEMENT_SIZE) or SCRIPT_ERR_PUSH_SIZE;
  let nOpCount' := if opcode >? OP_16 then nOpCount m + 1 else nOpCount m in
  ensure negb ((opcode >? OP_16) && (nOpCount' >? MAX_OPS_PER_SCRIPT)) or SCRIPT_ERR_OP_COUNT;
  let m := mkMachine (stack m) (altstack m) (vfExec m) nOpCount' (pbegincodehash m) in
  let op := decode_op opcode in
  ensure match op with OpDisabled => false | _ => true end or SCRIPT_ERR_DISABLED_OPCODE;
  m <- (if fExec && (opcode <=? OP_PUSHDATA4) then
          ensure negb (fRequireMinimal && negb (CheckMinimalPush vchPushValue opcode)) or SCRIPT_ERR_MINIMALDATA;
          Accept (with_stack m (vchPushValue :: stack m))
        else if fExec || ((OP_IF <=? opcode) && (opcode <=? OP_ENDIF)) then exec_op op m pc fExec
        else Accept m);
  ensure negb (Z.of_nat (length (stack m)) + Z.of_nat (length (altstack m)) >? MAX_STACK_SIZE) or SCRIPT_ERR_STACK_SIZE;
  Accept m.

(** The loop; every instruction is at least one byte long. *)
Fixpoint eval_loop (fuel : nat) (m : Machine) (pc : list Z) : Evaluated Machine :=
  match pc, fuel with
  | [], _ => Accept m
  | _, O => Abort
  | _, S fuel =>
      match GetOp pc with
      | None => Reject SCRIPT_ERR_BAD_OPCODE
      | Some (opcode, vchPushValue, pc) => m <- step m opcode vchPushValue pc; eval_loop fuel m pc
      end
  end.

Definition EvalScript (s : Stack) (script : list Z) : Evaluated Stack :=
  ensure negb (Z.of_nat (length script) >? MAX_SCRIPT_SIZE) or SCRIPT_ERR_SCRIPT_SIZE;
  m <- eval_loop (length script) (mkMachine s [] [] 0 script) script;
  ensure bool_decide (vfExec m = []) or SCRIPT_ERR_UNBALANCED_CONDITIONAL;
  Accept (stack m).
End Eval.

(** ** Verification of an input *)

(** [OP_DUP OP_HASH160 program OP_EQUALVERIFY OP_CHECKSIG]. *)
Definition pubkeyhash_script (program : list Z) : list Z :=
  [OP_DUP; OP_HASH160] ++ push_data program ++ [OP_EQUALVERIFY; OP_CHECKSIG].

(** The result of a script: a true value on top. *)
Definition top_true (s : Stack) : Evaluated unit :=
  match s with
  | [] => Reject SCRIPT_ERR_EVAL_FALSE
  | x :: _ => ensure CastToBool x or SCRIPT_ERR_EVAL_FALSE; Accept tt
  end.

(** The script a witness program stands for and its initial stack. *)
Definition witness_script (witness : list (list Z)) (program : list Z) : Evaluated (list Z * Stack) :=
  if (length program =? 32)%nat then
    match rev witness with
    | [] => Reject SCRIPT_ERR_WITNESS_PROGRAM_WITNESS_EMPTY
    | script :: s =>
        ensure bool_decide (Sha256.Finalize (Sha256.Write CSHA256 script) = program) or SCRIPT_ERR_WITNESS_PROGRAM_MISMATCH;
        Accept (script, s)
    end
  else if (length program =? 20)%nat then
    ensure (length witness =? 2)%nat or SCRIPT_ERR_WITNESS_PROGRAM_MISMATCH;
    Accept (pubkeyhash_script program, rev witness)
  else Reject SCRIPT_ERR_WITNESS_PROGRAM_WRONG_LENGTH.

Definition VerifyWitnessProgram (witness : list (list Z)) (witversion : Z) (program : list Z) (flags : Z) (checker : SignatureChecker) :
    Evaluated unit :=
  if witversion =? 0 then
    r <- witness_script witness program;
    let '(scriptPubKey, s) := r in
    ensure forallb (fun x => negb (Z.of_nat (length x) >? MAX_SCRIPT_ELEMENT_SIZE)) s or SCRIPT_ERR_PUSH_SIZE;
    s <- EvalScript flags checker SIGVERSION_WITNESS_V0 s scriptPubKey;
    ensure (length s =? 1)%nat or SCRIPT_ERR_EVAL_FALSE;
    top_true s
  else
    ensure negb (has flags SCRIPT_VERIFY_DISCOURAGE_UPGRADABLE_WITNESS_PROGRAM) or SCRIPT_ERR_DISCOURAGE_UPGRADABLE_WITNESS_PROGRAM;
    Accept tt.

(** [stack.resize(1)] keeps the bottom. *)
Definition resize1 (s : Stack) : Stack := [List.last s []].

(** A witness program, bare or as a redeem script: whether it is one, and the
    stack for the final checks. *)
Definition verify_witness (flags : Z) (checker : SignatureChecker) (witness : list (list Z)) (script : list Z) (not_malleated : bool)
    (error : ScriptError) (s : Stack) : Evaluated (bool * Stack) :=
  if has flags SCRIPT_VERIFY_WITNESS then
    match IsWitnessProgram script with
    | Some (witnessversion, witnessprogram) =>
        ensure not_malleated or error;
        _ <- VerifyWitnessProgram witness witnessversion witnessprogram flags checker;
        Accept (true, resize1 s)
    | None => Accept (false, s)
    end
  else Accept (false, s).

(** The redeem script of a pay-to-script-hash output. *)
Definition verify_p2sh (flags : Z) (checker : SignatureChecker) (witness : list (list Z)) (scriptSig : list Z) (stackCopy : Stack) :
    Evaluated (bool * Stack) :=
  ensure IsPushOnly scriptSig or SCRIPT_ERR_SIG_PUSHONLY;
  match stackCopy with
  | [] => Abort
  | pubKey2 :: s =>
      s <- EvalScript flags checker SIGVERSION_BASE s pubKey2;
      _ <- top_true s;
      verify_witness flags checker witness pubKey2 (bool_decide (scriptSig = push_data pubKey2)) SCRIPT_ERR_WITNESS_MALLEATED_P2SH s
  end.

Definition VerifyScript (scriptSig scriptPubKey : list Z) (witness : list (list Z)) (flags : Z) (checker : SignatureChecker) :
    Evaluated unit :=
  let flags := if has flags SCRIPT_ENABLE_SIGHASH_FORKID then Z.lor flags SCRIPT_VERIFY_STRICTENC else flags in
  ensure negb (has flags SCRIPT_VERIFY_SIGPUSHONLY && negb (IsPushOnly scriptSig)) or SCRIPT_ERR_SIG_PUSHONLY;
  stackCopy <- EvalScript flags checker SIGVERSION_BASE [] scriptSig;
  s <- EvalScript flags checker SIGVERSION_BASE stackCopy scriptPubKey;
  _ <- top_true s;
  r <- verify_witness flags checker witness scriptPubKey (bool_decide (scriptSig = [])) SCRIPT_ERR_WITNESS_MALLEATED s;
  let '(hadWitness, s) := r in
  r <- (if has flags SCRIPT_VERIFY_P2SH && IsPayToScriptHash scriptPubKey then
          r <- verify_p2sh flags checker witness scriptSig stackCopy; Accept (hadWitness || fst r, snd r)
        else Accept (hadWitness, s));
  let '(hadWitness, s) := r in
  _ <- (if has flags SCRIPT_VERIFY_CLEANSTACK then
          if negb (has flags SCRIPT_VERIFY_P2SH) || negb (has flags SCRIPT_VERIFY_WITNESS) then Abort
          else ensure (length s =? 1)%nat or SCRIPT_ERR_CLEANSTACK; Accept tt
        else Accept tt);
  if has flags SCRIPT_VERIFY_WITNESS then
    if negb (has flags SCRIPT_VERIFY_P2SH) then Abort
    else ensure negb (negb hadWitness && negb (bool_decide (witness = []))) or SCRIPT_ERR_WITNESS_UNEXPECTED; Accept tt
  else Accept tt.
End Interpreter.
