(* ===== verification/SigHash.v ===== *)
(** * What a signature signs ([SignatureHash] and
      [TransactionSignatureChecker] of [src/script/interpreter.cpp])

    The serialization of a transaction for signing, before and since segwit,
    and the checker of one input.  [CPubKey::Verify] ends in libsecp256k1 and
    is a parameter. *)

From stdpp Require Import gmap.
From S2P Require Import Prelude Bytes Serialize TxFormat Script ScriptNum Hashes Standard Coins TxVerify Interpreter.

Open Scope checked_scope.

(** ** Before segwit *)

(** Where a failed [GetOp2] leaves the iterator. *)
Definition GetOp_stop (pc : list Z) : list Z :=
  match pc with
  | [] => []
  | opcode :: pc =>
      let skip n := if (length pc <? n)%nat then pc else drop n pc in
      if opcode <? OP_PUSHDATA1 then pc
      else if opcode =? OP_PUSHDATA1 then skip 1%nat
      else if opcode =? OP_PUSHDATA2 then skip 2%nat
      else skip 4%nat
  end.

Definition OP_CODESEPARATOR : Z := 0xab.

Fixpoint count_separators (fuel : nat) (it : list Z) : Z :=
  match fuel with
  | O => 0
  | S fuel =>
      match GetOp it with
      | None => 0
      | Some (opcode, _, it) => (if opcode =? OP_CODESEPARATOR then 1 else 0) + count_separators fuel it
      end
  end.

(** The bytes from [itBegin] to [it]. *)
Definition between (itBegin it : list Z) : list Z := take (length itBegin - length it) itBegin.

(** The loop that writes the pieces between code separators, and the last one. *)
Fixpoint write_pieces (fuel : nat) (itBegin it : list Z) : list Z :=
  match GetOp it, fuel with
  | Some (opcode, _, it), S fuel =>
      if opcode =? OP_CODESEPARATOR then removelast (between itBegin it) ++ write_pieces fuel it it
      else write_pieces fuel itBegin it
  | _, _ => between itBegin (GetOp_stop it)
  end.

Definition SerializeScriptCode (scriptCode : list Z) : list Z :=
  WriteCompactSize (Z.of_nat (length scriptCode) - count_separators (length scriptCode) scriptCode) ++
  write_pieces (length scriptCode) scriptCode scriptCode.

Definition null_txin : CTxIn := mkTxIn (0, 0xffffffff) [] SEQUENCE_FINAL [].
Definition null_txout : CTxOut := mkTxOut (-1) [].

Section SignatureSerializer.
Variable txTo : CTransaction.
Variable scriptCode : list Z.
Variable nIn : nat.
Variable nHashType : Z.

Definition fAnyoneCanPay : bool := has nHashType SIGHASH_ANYONECANPAY.
Definition fHashSingle : bool := Z.land nHashType 0x1f =? SIGHASH_SINGLE.
Definition fHashNone : bool := Z.land nHashType 0x1f =? SIGHASH_NONE.

Definition SerializeInput (nInput : nat) : list Z :=
  let nInput := if fAnyoneCanPay then nIn else nInput in
  let txin := nth nInput (vin txTo) null_txin in
  encode COutPoint_codec (prevout txin) ++
  (if negb (nInput =? nIn)%nat then encode bytes_codec [] else SerializeScriptCode scriptCode) ++
  (if negb (nInput =? nIn)%nat && (fHashSingle || fHashNone) then encode int32_codec 0
   else encode uint32_codec (nSequence txin)).

Definition SerializeOutput (nOutput : nat) : list Z :=
  encode CTxOut_codec (if fHashSingle && negb (nOutput =? nIn)%nat then null_txout else nth nOutput (vout txTo) null_txout).

Definition SignatureSerializer_Serialize : list Z :=
  let nInputs := if fAnyoneCanPay then 1%nat else length (vin txTo) in
  let nOutputs := if fHashNone then 0%nat else if fHashSingle then S nIn else length (vout txTo) in
  encode int32_codec (tx_nVersion txTo) ++
  WriteCompactSize (Z.of_nat nInputs) ++ concat (map SerializeInput (seq 0 nInputs)) ++
  WriteCompactSize (Z.of_nat nOutputs) ++ concat (map SerializeOutput (seq 0 nOutputs)) ++
  encode uint32_codec (nLockTime txTo).
End SignatureSerializer.

(** ** Since segwit *)

Definition GetPrevoutHash (txTo : CTransaction) : list Z := Hash (map (fun i => encode COutPoint_codec (prevout i)) (vin txTo)).
Definition GetSequenceHash (txTo : CTransaction) : list Z := Hash (map (fun i => encode uint32_codec (nSequence i)) (vin txTo)).
Definition GetOutputsHash (txTo : CTransaction) : list Z := Hash (map (encode CTxOut_codec) (vout txTo)).

Record PrecomputedTransactionData := mkPrecomputed { hashPrevouts : list Z; hashSequence : list Z; hashOutputs : list Z; ready : bool }.

Definition uint256_null : list Z := replicate 32 0.

Definition PrecomputedTransactionData_new (txTo : CTransaction) : PrecomputedTransactionData :=
  if HasWitness txTo then mkPrecomputed (GetPrevoutHash txTo) (GetSequenceHash txTo) (GetOutputsHash txTo) true
  else mkPrecomputed uint256_null uint256_null uint256_null false.

Definition witness_preimage (scriptCode : list Z) (txTo : CTransaction) (nIn : nat) (nHashType amount : Z)
    (cache : option PrecomputedTransactionData) : list Z :=
  let cached (field : PrecomputedTransactionData -> list Z) (get : CTransaction -> list Z) :=
    match cache with Some c => if ready c then field c else get txTo | None => get txTo end in
  let any := has nHashType SIGHASH_ANYONECANPAY in
  let none_or_single := fHashSingle nHashType || fHashNone nHashType in
  let prevouts_hash := if negb any then cached hashPrevouts GetPrevoutHash else uint256_null in
  let sequence_hash := if negb any && negb none_or_single then cached hashSequence GetSequenceHash else uint256_null in
  let outputs_hash :=
    if negb none_or_single then cached hashOutputs GetOutputsHash
    else if fHashSingle nHashType && (nIn <? length (vout txTo))%nat
    then Hash [encode CTxOut_codec (nth nIn (vout txTo) null_txout)] else uint256_null in
  let txin := nth nIn (vin txTo) null_txin in
  encode int32_codec (tx_nVersion txTo) ++ prevouts_hash ++ sequence_hash ++ encode COutPoint_codec (prevout txin) ++
  encode bytes_codec scriptCode ++ encode int64_codec amount ++ encode uint32_codec (nSequence txin) ++ outputs_hash ++
  encode uint32_codec (nLockTime txTo) ++ encode int32_codec nHashType.

(** [None] is the assertion on [nIn]. *)
Definition SignatureHash (scriptCode : list Z) (txTo : CTransaction) (nIn : nat) (nHashType amount : Z) (sigversion : SigVersion)
    (cache : option PrecomputedTransactionData) : option (list Z) :=
  if negb (nIn <? length (vin txTo))%nat then None
  else
    match sigversion with
    | SIGVERSION_WITNESS_V0 => Some (Hash [witness_preimage scriptCode txTo nIn nHashType amount cache])
    | SIGVERSION_BASE =>
        if fHashSingle nHashType && negb (nIn <? length (vout txTo))%nat then Some (1 :: replicate 31 0)
        else Some (Hash [SignatureSerializer_Serialize txTo scriptCode nIn nHashType; encode int32_codec nHashType])
    end.

(** ** The checker of an input *)

Section Checker.
Variable Verify : list Z -> list Z -> list Z -> bool.   (* CPubKey::Verify: key, hash, signature *)
Variable txTo : CTransaction.
Variable nIn : nat.
Variable amount : Z.
Variable txdata : option PrecomputedTransactionData.

Definition tx_CheckSig (vchSigIn vchPubKey scriptCode : list Z) (sigversion : SigVersion) : bool :=
  match CPubKey_Set vchPubKey with
  | None => false
  | Some pubkey =>
      if bool_decide (vchSigIn = []) then false
      else
        match SignatureHash scriptCode txTo nIn (back vchSigIn) amount sigversion txdata with
        | None => false
        | Some sighash => Verify pubkey sighash (removelast vchSigIn)
        end
  end.

Definition tx_CheckLockTime (n : Z) : bool :=
  let kind x := x <? LOCKTIME_THRESHOLD in
  if negb (Bool.eqb (kind (nLockTime txTo)) (kind n)) then false
  else if n >? nLockTime txTo then false
  else negb (SEQUENCE_FINAL =? nSequence (nth nIn (vin txTo) null_txin)).

Definition tx_CheckSequence (n : Z) : bool :=
  let txToSequence := nSequence (nth nIn (vin txTo) null_txin) in
  if u32 (tx_nVersion txTo) <? 2 then false
  else if negb (Z.land txToSequence SEQUENCE_LOCKTIME_DISABLE_FLAG =? 0) then false
  else
    let nLockTimeMask := Z.lor SEQUENCE_LOCKTIME_TYPE_FLAG SEQUENCE_LOCKTIME_MASK in
    let txToSequenceMasked := Z.land txToSequence nLockTimeMask in
    let nSequenceMasked := Z.land n nLockTimeMask in
    let kind x := x <? SEQUENCE_LOCKTIME_TYPE_FLAG in
    if negb (Bool.eqb (kind txToSequenceMasked) (kind nSequenceMasked)) then false
    else negb (nSequenceMasked >? txToSequenceMasked).

Definition TransactionSignatureChecker : SignatureChecker := mkChecker tx_CheckSig tx_CheckLockTime tx_CheckSequence.
End Checker.
