(* ===== verification/Evaluation.v ===== *)
(** * Evaluation of scripts: types, limits and termination

    What [EvalScript] keeps of the machine: every element is a byte string of
    at most 520 bytes, the two stacks together hold at most 1000 elements, and
    at most 201 operations are counted.  The interpreter always returns, and no
    assertion of [VerifyScript] fails when its flags are consistent. *)

From stdpp Require Import gmap.
From S2P Require Import Prelude Bytes Serialize TxFormat Script ScriptNum Hashes Sha2 Base58 Standard TxVerify Interpreter.

Open Scope checked_scope.

Create HintDb total.

(** A check that does not abort when its parts do not. *)
Ltac total :=
  repeat first
  [ discriminate
  | solve [auto with total]
  | match goal with
    | |- (if ?b then _ else _) <> Abort => destruct b
    | |- match ?e with Accept _ => _ | Reject _ => _ | Abort => _ end <> Abort =>
        let H := fresh in assert (e <> Abort) as H by total; destruct e; [clear H | discriminate | congruence]
    | |- match ?x with _ => _ end <> Abort => destruct x
    end ].

(** ** Elements *)

Definition elem_ok (x : list Z) : Prop := Forall byte_ok x /\ (length x <= 520)%nat.

Abbreviation stack_ok := (Forall elem_ok).

Record machine_ok (m : Machine) : Prop := {
  stack_typed : stack_ok (stack m);
  altstack_typed : stack_ok (altstack m);
  stack_size : (length (stack m) + length (altstack m) <= 1000)%nat;
  op_count : 0 <= nOpCount m <= MAX_OPS_PER_SCRIPT
}.

Lemma getvch_ok v : - 2 ^ 55 < v < 2 ^ 55 -> elem_ok (getvch v).
Proof.
  intros Hv. unfold getvch. destruct (decide (v = 0)) as [-> | Hv0]; [split; [constructor | cbn; lia] |].
  destruct (abs_bytes_decode 7 (Z.abs v)) as (l & b & _ & Hl & Hb & Hd); [cbn; lia |].
  assert (length l <= 6)%nat as Hl6.
  { destruct (decide (length l <= 6)%nat); [done |]. exfalso. rewrite le_decode_app in Hd. cbn [le_decode] in Hd.
    pose proof (le_decode_range l Hl). assert (256 ^ 7 <= 256 ^ Z.of_nat (length l)) by (apply Z.pow_le_mono_r; lia).
    change (256 ^ 7) with (2 ^ 56) in *. nia. }
  replace v with (if v <? 0 then - le_decode (l ++ [b]) else le_decode (l ++ [b])) by (rewrite Hd; destruct (Z.ltb_spec v 0); lia).
  rewrite serialize_snoc by done. destruct (128 <=? b) eqn:H128; split; try (rewrite length_app; cbn; lia);
    apply Forall_app; (split; [done |]); repeat constructor; unfold byte_ok; destruct (v <? 0); try lia.
Qed.

Lemma decode_range vch minimal max n : Forall byte_ok vch -> max <= 5 -> CScriptNum_decode vch minimal max = Some n -> - 2 ^ 40 < n < 2 ^ 40.
Proof.
  intros Hb Hmax. unfold CScriptNum_decode. rewrite Z.gtb_ltb. destruct (Z.ltb_spec max (Z.of_nat (length vch))) as [| Hlen]; [done |].
  destruct (_ && _); [done |]. intros [= <-]. destruct (decide (vch = [])) as [-> | Hne]; [cbn; lia |].
  destruct (exists_last Hne) as (l & b & ->). apply Forall_app in Hb as [Hl Hb]. apply Forall_cons in Hb as [Hb _].
  rewrite length_app in Hlen. cbn [length] in Hlen. rewrite set_vch_snoc by (done || lia). unfold byte_ok in Hb.
  pose proof (le_decode_range l Hl). assert (256 ^ Z.of_nat (length l) <= 256 ^ 4) by (apply Z.pow_le_mono_r; lia).
  change (256 ^ 4) with (2 ^ 32) in *. destruct (128 <=? b); nia.
Qed.

Lemma of_bool_range b : 0 <= of_bool b <= 1.
Proof. destruct b; cbn; lia. Qed.

Lemma unary_range op n : - 2 ^ 40 < n < 2 ^ 40 -> - 2 ^ 55 < unary op n < 2 ^ 55.
Proof.
  intros H. pose proof (of_bool_range (n =? 0)). pose proof (of_bool_range (negb (n =? 0))).
  destruct op; cbn [unary]; try lia. destruct (Z.ltb_spec n 0); lia.
Qed.

Lemma binary_range op n1 n2 : - 2 ^ 40 < n1 < 2 ^ 40 -> - 2 ^ 40 < n2 < 2 ^ 40 -> - 2 ^ 55 < binary op n1 n2 < 2 ^ 55.
Proof.
  intros H1 H2.
  destruct op; cbn [binary]; try lia; try (match goal with |- context [of_bool ?b] => pose proof (of_bool_range b); lia end);
    match goal with |- context [if ?b then _ else _] => destruct b; lia end.
Qed.

Lemma bool_vch_ok b : elem_ok (bool_vch b).
Proof. destruct b; (split; [repeat constructor; unfold byte_ok; lia | cbn; lia]). Qed.

(** Digests. *)
Lemma concat_words_ok (f : Z -> list Z) l :
  (forall x, Forall byte_ok (f x) /\ length (f x) = 4%nat) -> (length l <= 8)%nat -> elem_ok (concat (map f l)).
Proof.
  intros Hf Hl. split.
  - apply Forall_concat, Forall_map, Forall_forall. intros x _. apply Hf.
  - assert (length (concat (map f l)) = 4 * length l)%nat as ->; [| lia].
    clear Hl. induction l as [| x l IH]; [done |]. cbn [map concat]. rewrite length_app, IH, (proj2 (Hf x)). cbn. lia.
Qed.

Lemma be32_ok x : Forall byte_ok (WriteBE32 x) /\ length (WriteBE32 x) = 4%nat.
Proof. unfold WriteBE32. rewrite length_rev, length_le_encode. split; [apply Forall_rev, le_encode_bytes | done]. Qed.
Lemma le32_ok x : Forall byte_ok (WriteLE32 x) /\ length (WriteLE32 x) = 4%nat.
Proof. unfold WriteLE32. rewrite length_le_encode. split; [apply le_encode_bytes | done]. Qed.

Lemma op_hash_ok op vch : elem_ok (op_hash op vch).
Proof.
  assert (forall h, elem_ok (Sha256.Finalize h)) by (intros h; by apply concat_words_ok; [apply be32_ok | cbn; lia]).
  assert (forall h, elem_ok (Ripemd160.Finalize h)) by (intros h; by apply concat_words_ok; [apply le32_ok | cbn; lia]).
  assert (forall h, elem_ok (Sha1.Finalize h)) by (intros h; by apply concat_words_ok; [apply be32_ok | cbn; lia]).
  destruct op; cbn [op_hash]; unfold CHash160_Finalize, CHash256_Finalize; auto.
Qed.

(** ** Operations *)

(** The operand and the rest of an instruction are parts of the script. *)
Lemma GetOp_split c pc opcode vch rest : GetOp (c :: pc) = Some (opcode, vch, rest) ->
  opcode = c /\ exists n k n', vch = take k (drop n pc) /\ rest = drop n' pc /\ (OP_PUSHDATA4 < c -> c <> OP_AVN_ASSET -> n' = 0%nat).
Proof.
  cbn [GetOp]. intros H.
  match type of H with mbind _ ?r = _ =>
    assert (r = None \/ exists n k, r = Some (take k (drop n pc), drop (n + k) pc) /\ (OP_PUSHDATA4 < c -> (n + k = 0)%nat))
      as [Hn | (n & k & Hn & H0)]
  end; [| rewrite Hn in H; done |].
  { destruct (Z.leb_spec c OP_PUSHDATA4); [| right; by exists 0%nat, 0%nat].
    assert (forall x : nat, OP_PUSHDATA4 < c -> x = 0%nat) as Hz by lia.
    destruct (c <? OP_PUSHDATA1); cbn [mbind option_bind].
    { destruct (_ <? c); [by left | right; exists 0%nat, (Z.to_nat c); auto]. }
    destruct (c =? OP_PUSHDATA1); [destruct pc as [| b pc]; [by left |] |].
    { cbn [mbind option_bind]. destruct (_ <? b); [by left | right; exists 1%nat, (Z.to_nat b); auto]. }
    destruct (c =? OP_PUSHDATA2).
    - destruct (length pc <? 2)%nat; [by left |]. cbn [mbind option_bind].
      destruct (_ <? ReadLE16 pc); [by left | right; exists 2%nat, (Z.to_nat (ReadLE16 pc)); rewrite drop_drop; auto].
    - destruct (length pc <? 4)%nat; [by left |]. cbn [mbind option_bind].
      destruct (_ <? ReadLE32 pc); [by left | right; exists 4%nat, (Z.to_nat (ReadLE32 pc)); rewrite drop_drop; auto]. }
  rewrite Hn in H. cbn [mbind option_bind] in H. destruct (Z.eqb_spec c OP_AVN_ASSET); injection H as <- <- <-; (split; [done |]).
  - exists (n + k)%nat, (length pc), (length pc). rewrite take_ge, (drop_ge pc (length pc)) by (rewrite ?length_drop; lia). done.
  - exists n, k, (n + k)%nat. auto.
Qed.

Lemma GetOp_spec pc opcode vch rest : GetOp pc = Some (opcode, vch, rest) ->
  (length rest < length pc)%nat /\ (Forall byte_ok pc -> Forall byte_ok vch /\ Forall byte_ok rest).
Proof.
  destruct pc as [| c pc]; [done |]. intros (_ & n & k & n' & -> & -> & _)%GetOp_split.
  rewrite length_drop. cbn [length]. split; [lia |]. intros [_ Hpc]%Forall_cons. split; auto using Forall_take, Forall_drop.
Qed.

Section Typing.
Variable CheckLowS : list Z -> bool.
Variable flags : Z.
Variable checker : SignatureChecker.
Variable sigversion : SigVersion.

Lemma number_range vch minimal max n : Forall byte_ok vch -> max <= 5 -> number vch minimal max = Accept n -> - 2 ^ 40 < n < 2 ^ 40.
Proof.
  intros Hb Hm. unfold number. destruct (CScriptNum_decode vch minimal max) eqn:E; [| done]. intros [= <-]. by eapply decode_range.
Qed.

(** Typed stacks are built from typed elements. *)
Ltac typed :=
  repeat match goal with
  | H : Accept _ = Accept _ |- _ => injection H as <-
  | H : stack_ok (_ :: _) |- _ => apply Forall_cons in H as [? H]
  | |- stack_ok (_ :: _) => apply Forall_cons; split
  end; try assumption.

Lemma exec_stack_typed op s s' : Z.of_nat (length s) <= 1000 -> stack_ok s -> exec_stack op s = Accept s' -> stack_ok s'.
Proof.
  intros Hlen Hs. destruct op; cbn [exec_stack]; try discriminate;
    try (intros H; typed; apply getvch_ok; lia);
    repeat (match goal with |- context [match ?s with [] => _ | _ => _ end] => destruct s; [discriminate |] end);
    intros H; typed; try (destruct (CastToBool _); typed; by typed).
  destruct H as [_ Hl]. apply getvch_ok. lia.
Qed.

Lemma exec_pick_typed roll s s' : stack_ok s -> exec_pick flags roll s = Accept s' -> stack_ok s'.
Proof.
  intros Hs. unfold exec_pick. destruct s as [| x [| y s]]; [done..|]. intros H. accepted H.
  destruct (_ || _) eqn:Hn; [done |]. apply orb_false_iff in Hn as [Hn1 Hn2]. apply Forall_cons in Hs as [_ Hs].
  injection H as <-. apply Forall_cons. split.
  - apply (proj1 (List.Forall_nth elem_ok _) Hs). rewrite Z.geb_leb in Hn2. apply Z.leb_gt in Hn2. apply Z.ltb_ge in Hn1. lia.
  - destruct roll; [apply Forall_app; split; [by apply Forall_take | by apply (Forall_drop elem_ok (S (Z.to_nat (getint a))) (y :: s))] | done].
Qed.

Lemma verify_result_typed verify value error vch s s' :
  elem_ok vch -> stack_ok s -> verify_result verify value error vch s = Accept s' -> stack_ok s'.
Proof. unfold verify_result. intros Hv Hs. destruct verify; intros H; accepted H; typed. Qed.

Lemma exec_unary_typed op s s' : stack_ok s -> exec_unary flags op s = Accept s' -> stack_ok s'.
Proof.
  intros Hs. destruct s as [| x s]; [done |]. cbn [exec_unary]. typed. intros H0. accepted H0. typed.
  apply getvch_ok, unary_range. by eapply number_range; [apply H | | exact Hc].
Qed.

Lemma exec_binary_typed op s s' : stack_ok s -> exec_binary flags op s = Accept s' -> stack_ok s'.
Proof.
  intros Hs. destruct s as [| x [| y s]]; [done..|]. cbn [exec_binary]. typed. intros H1. accepted H1.
  assert (elem_ok (getvch (binary op a a0))) as Hv.
  { apply getvch_ok, binary_range; (eapply number_range; [| | eassumption]; [apply H0 || apply H | lia]). }
  destruct op; typed. by eapply verify_result_typed; [| | exact H1].
Qed.

Lemma exec_within_typed s s' : stack_ok s -> exec_within flags s = Accept s' -> stack_ok s'.
Proof.
  intros Hs. destruct s as [| x [| y [| z s]]]; [done..|]. cbn [exec_within]. typed. intros H2. accepted H2. typed. apply bool_vch_ok.
Qed.

Lemma exec_hash_typed op s s' : stack_ok s -> exec_hash op s = Accept s' -> stack_ok s'.
Proof. intros Hs. destruct s as [| x s]; [done |]. cbn [exec_hash]. intros H. typed. apply op_hash_ok. Qed.

Lemma exec_checksig_typed verify code s s' :
  stack_ok s -> exec_checksig CheckLowS flags checker sigversion verify code s = Accept s' -> stack_ok s'.
Proof.
  intros Hs. destruct s as [| x [| y s]]; [done..|]. cbn [exec_checksig]. typed. intros H1. accepted H1.
  eapply verify_result_typed; [| | exact H1]; [apply bool_vch_ok | done].
Qed.

Lemma exec_multisig_typed verify code n s r :
  0 <= n <= MAX_OPS_PER_SCRIPT -> stack_ok s -> exec_multisig CheckLowS flags checker sigversion verify code n s = Accept r ->
  stack_ok (snd r) /\ 0 <= fst r <= MAX_OPS_PER_SCRIPT.
Proof.
  intros Hn Hs. destruct s as [| x s]; [done |]. cbn [exec_multisig]. typed. intros H0. accepted H0.
  destruct (drop _ s) as [| y s1] eqn:E1; [done |]. accepted H0. destruct (drop _ s1) as [| z s2] eqn:E2; [done |]. accepted H0.
  injection H0 as <-. cbn [fst snd].
  assert (stack_ok (y :: s1)) as Hs1 by (rewrite <- E1; by apply Forall_drop). apply Forall_cons in Hs1 as [_ Hs1].
  assert (stack_ok (z :: s2)) as Hs2 by (rewrite <- E2; by apply Forall_drop). apply Forall_cons in Hs2 as [_ Hs2]. split.
  - eapply verify_result_typed; [| | eassumption]; [apply bool_vch_ok | done].
  - apply negb_true_iff, orb_false_iff in Hb as [Hb _]. apply Z.ltb_ge in Hb.
    apply negb_true_iff in Hb0. rewrite Z.gtb_ltb in Hb0. apply Z.ltb_ge in Hb0. lia.
Qed.
(** The machine without the limit on the number of elements, which holds
    between instructions only. *)
Definition typed_machine (m : Machine) : Prop :=
  stack_ok (stack m) /\ stack_ok (altstack m) /\ 0 <= nOpCount m <= MAX_OPS_PER_SCRIPT.

Lemma decode_op_num opcode n : decode_op opcode = OpNum n -> - 1 <= n <= 16.
Proof.
  unfold decode_op. destruct (opcode =? OP_AVN_ASSET); [done |]. intros H.
  destruct (nth_in_or_default (Z.to_nat (opcode - OP_1NEGATE)) op_table OpInvalid) as [Hin | Hd]; [| congruence].
  rewrite H in Hin. cbn in Hin. repeat destruct Hin as [[= <-] | Hin]; try lia; try discriminate; contradiction.
Qed.

Lemma exec_op_typed opcode m pc fExec m' :
  (length (stack m) <= 1000)%nat -> typed_machine m ->
  exec_op CheckLowS flags checker sigversion (decode_op opcode) m pc fExec = Accept m' -> typed_machine m'.
Proof.
  intros Hlen (Hs & Ha & Hn). pose proof (decode_op_num opcode) as Hnum.
  assert (forall r : Evaluated (list (list Z)), (forall s, r = Accept s -> stack_ok s) ->
    (s <- r; Accept (with_stack m s)) = (Accept m' : Evaluated Machine) -> typed_machine m') as Hon.
  { intros r Hr H. accepted H. injection H as <-. split; [by apply Hr | done]. }
  destruct (decode_op opcode);
    cbn [exec_op]; try discriminate;
    try (apply Hon; intros s'; first [ by apply exec_stack_typed; [lia |] | by apply exec_pick_typed | by apply exec_unary_typed
      | by apply exec_binary_typed | by apply exec_within_typed | by apply exec_hash_typed | by apply exec_checksig_typed]);
    try (intros H; accepted H; injection H as <-; done).
  - intros [= <-]. split; [| done]. apply Forall_cons. split; [| done]. specialize (Hnum _ eq_refl). apply getvch_ok. lia.
  - unfold exec_if. destruct fExec; [| by intros [= <-]]. destruct (stack m) as [| x s]; [done |]. apply Forall_cons in Hs as [_ Hs].
    intros H. accepted H. by injection H as <-.
  - destruct (vfExec m); [done |]. by intros [= <-].
  - destruct (vfExec m); [done |]. by intros [= <-].
  - destruct (stack m) as [| x s]; [done |]. apply Forall_cons in Hs as [_ Hs]. intros H. accepted H. by injection H as <-.
  - destruct (stack m) as [| x s]; [done |]. apply Forall_cons in Hs as [Hx Hs]. intros [= <-]. split; [done |]. split; [by apply Forall_cons | done].
  - destruct (altstack m) as [| x s]; [done |]. apply Forall_cons in Ha as [Hx Ha]. intros [= <-]. split; [by apply Forall_cons | done].
  - destruct (stack m) as [| x [| y s]]; [done..|]. apply Forall_cons in Hs as [Hx [Hy Hs]%Forall_cons].
    apply Hon. intros s'. apply verify_result_typed; [apply bool_vch_ok | done].
  - intros H. accepted H. injection H as <-. by destruct (exec_multisig_typed _ _ _ _ _ Hn Hs Hc).
Qed.
Lemma step_ok m opcode vch pc m' :
  machine_ok m -> Forall byte_ok vch -> step CheckLowS flags checker sigversion m opcode vch pc = Accept m' -> machine_ok m'.
Proof.
  intros [Hs Ha Hl Hn] Hv. unfold step. set (n := if opcode >? OP_16 then nOpCount m + 1 else nOpCount m).
  intros H. accepted H. injection H as <-.
  assert (0 <= n <= MAX_OPS_PER_SCRIPT) as Hn'.
  { unfold n in *. rewrite !Z.gtb_ltb in *. destruct (OP_16 <? opcode); [| done]. cbn [andb] in Hb0.
    apply negb_true_iff, Z.ltb_ge in Hb0. lia. }
  rewrite Z.gtb_ltb in Hb. apply negb_true_iff, Z.ltb_ge in Hb. unfold MAX_SCRIPT_ELEMENT_SIZE in Hb.
  assert (typed_machine a) as (Hs' & Ha' & Hn'').
  { destruct (_ && (opcode <=? OP_PUSHDATA4)); [accepted Hc; injection Hc as <-; split; [| done]; apply Forall_cons; split; [split; [done | lia] | done] |].
    destruct (_ || _); [| by injection Hc as <-]. eapply exec_op_typed; [| | exact Hc]; [cbn; lia | done]. }
  rewrite Z.gtb_ltb in Hb2. apply negb_true_iff, Z.ltb_ge in Hb2. unfold MAX_STACK_SIZE in Hb2. split; [done | done | lia | done].
Qed.

Lemma eval_loop_ok fuel : forall m pc m',
  machine_ok m -> Forall byte_ok pc -> eval_loop CheckLowS flags checker sigversion fuel m pc = Accept m' -> machine_ok m'.
Proof.
  induction fuel as [| fuel IH]; intros m pc m' Hm Hpc; (destruct pc as [| c pc]; [by intros [= <-] |]); cbn [eval_loop]; [done |].
  destruct (GetOp (c :: pc)) as [[[opcode vch] rest] |] eqn:Hop; [| done]. intros H. accepted H.
  destruct (GetOp_spec _ _ _ _ Hop) as [_ Hb]. destruct (Hb Hpc) as [Hv Hr].
  eapply IH; [| exact Hr | exact H]. by eapply step_ok; [| exact Hv | exact Hc].
Qed.

(** ** Totality *)

Lemma number_total vch minimal max : number vch minimal max <> Abort.
Proof. unfold number. total. Qed.
Hint Resolve number_total : total.

Lemma signature_encoding_total vch : CheckSignatureEncoding CheckLowS vch flags <> Abort.
Proof. unfold CheckSignatureEncoding, IsLowDERSignature. total. Qed.
Lemma pubkey_encoding_total pk : CheckPubKeyEncoding pk flags sigversion <> Abort.
Proof. unfold CheckPubKeyEncoding. total. Qed.
Hint Resolve signature_encoding_total pubkey_encoding_total : total.

Lemma multisig_loop_total code keys : forall sigs, multisig_loop CheckLowS flags checker sigversion code keys sigs <> Abort.
Proof. induction keys as [| k keys IH]; intros [| sig sigs]; cbn [multisig_loop]; total. Qed.

Lemma verify_result_total verify value error vch s : verify_result verify value error vch s <> Abort.
Proof. unfold verify_result. total. Qed.
Hint Resolve multisig_loop_total verify_result_total : total.

Lemma exec_stack_total op s : exec_stack op s <> Abort.
Proof. destruct op; cbn [exec_stack]; total. Qed.
Lemma exec_pick_total roll s : exec_pick flags roll s <> Abort.
Proof. unfold exec_pick. total. Qed.
Lemma exec_unary_total op s : exec_unary flags op s <> Abort.
Proof. unfold exec_unary. total. Qed.
Lemma exec_binary_total op s : exec_binary flags op s <> Abort.
Proof. unfold exec_binary. total. Qed.
Lemma exec_within_total s : exec_within flags s <> Abort.
Proof. unfold exec_within. total. Qed.
Lemma exec_hash_total op s : exec_hash op s <> Abort.
Proof. unfold exec_hash. total. Qed.
Lemma exec_checksig_total verify code s : exec_checksig CheckLowS flags checker sigversion verify code s <> Abort.
Proof. unfold exec_checksig. total. Qed.
Lemma exec_multisig_total verify code n s : exec_multisig CheckLowS flags checker sigversion verify code n s <> Abort.
Proof. unfold exec_multisig. total. Qed.
Lemma exec_locktime_total s : exec_locktime flags checker s <> Abort.
Proof. unfold exec_locktime, nop. total. Qed.
Lemma exec_sequence_total s : exec_sequence flags checker s <> Abort.
Proof. unfold exec_sequence, nop. total. Qed.
Lemma exec_if_total not m fExec : exec_if flags sigversion not m fExec <> Abort.
Proof. unfold exec_if. total. Qed.
Hint Resolve exec_stack_total exec_pick_total exec_unary_total exec_binary_total exec_within_total exec_hash_total
  exec_checksig_total exec_multisig_total exec_locktime_total exec_sequence_total exec_if_total : total.

Lemma exec_op_total op m pc fExec : exec_op CheckLowS flags checker sigversion op m pc fExec <> Abort.
Proof. destruct op; cbn [exec_op]; unfold nop; total. Qed.
Hint Resolve exec_op_total : total.

Lemma step_total m opcode vch pc : step CheckLowS flags checker sigversion m opcode vch pc <> Abort.
Proof. unfold step. total. Qed.
Hint Resolve step_total : total.

Lemma eval_loop_total fuel : forall m pc, (length pc <= fuel)%nat -> eval_loop CheckLowS flags checker sigversion fuel m pc <> Abort.
Proof.
  induction fuel as [| fuel IH]; intros m pc Hf; (destruct pc as [| c pc]; [done |]); [cbn in Hf; lia |]. cbn [eval_loop].
  destruct (GetOp (c :: pc)) as [[[opcode vch] rest] |] eqn:Hop; [| done]. destruct (GetOp_spec _ _ _ _ Hop) as [Hl _].
  assert (forall m, eval_loop CheckLowS flags checker sigversion fuel m rest <> Abort) by (intros; apply IH; cbn in *; lia).
  total.
Qed.

Lemma EvalScript_total s script : EvalScript CheckLowS flags checker sigversion s script <> Abort.
Proof.
  unfold EvalScript. assert (forall m, eval_loop CheckLowS flags checker sigversion (length script) m script <> Abort) by (intros; by apply eval_loop_total).
  total.
Qed.
End Typing.

(** ** Flags *)

Lemma has_lor a b f : has (Z.lor a b) f = has a f || has b f.
Proof.
  unfold has. rewrite Z.land_lor_distr_l. destruct (Z.eqb_spec (Z.land a f) 0) as [E | E].
  - by rewrite E, Z.lor_0_l.
  - cbn [negb orb]. destruct (Z.eqb_spec (Z.lor (Z.land a f) (Z.land b f)) 0) as [E' |]; [| done].
    by apply Z.lor_eq_0_iff in E' as [? _].
Qed.

(** The flags [VerifyScript] works with. *)
Definition effective (flags : Z) : Z :=
  if has flags SCRIPT_ENABLE_SIGHASH_FORKID then Z.lor flags SCRIPT_VERIFY_STRICTENC else flags.

Lemma has_effective flags f : has SCRIPT_VERIFY_STRICTENC f = false -> has (effective flags) f = has flags f.
Proof. intros H. unfold effective. destruct (has flags _); [| done]. by rewrite has_lor, H, orb_false_r. Qed.

(** What [VerifyScript] asserts of its flags. *)
Definition flags_consistent (flags : Z) : Prop :=
  (has flags SCRIPT_VERIFY_CLEANSTACK = true -> has flags SCRIPT_VERIFY_WITNESS = true) /\
  (has flags SCRIPT_VERIFY_WITNESS = true -> has flags SCRIPT_VERIFY_P2SH = true).

(** The hash of a pay-to-script-hash output needs an element. *)
Lemma p2sh_needs_element CheckLowS flags checker sigversion script s :
  IsPayToScriptHash script = true -> EvalScript CheckLowS flags checker sigversion [] script <> Accept s.
Proof.
  unfold IsPayToScriptHash. intros H. repeat (apply andb_true_iff in H as [H ?]).
  destruct script as [| c script]; [done |]. unfold byte_at in H2. cbn [nth] in H2. apply Z.eqb_eq in H2 as ->.
  unfold EvalScript. destruct (negb _); [| done]. cbn [length eval_loop]. by destruct script.
Qed.

#[export] Hint Resolve EvalScript_total : total.

Section VerifyTotal.
Variable CheckLowS : list Z -> bool.
Variable flags : Z.
Variable checker : SignatureChecker.

Lemma top_true_total s : top_true s <> Abort.
Proof. unfold top_true. total. Qed.

Lemma VerifyWitnessProgram_total witness version program : VerifyWitnessProgram CheckLowS witness version program flags checker <> Abort.
Proof.
  unfold VerifyWitnessProgram. destruct (version =? 0); [| total].
  assert (witness_script witness program <> Abort) by (unfold witness_script; total).
  destruct (witness_script witness program) as [[script s] | |]; [| done | done]. destruct (forallb _ _); [| done].
  pose proof (EvalScript_total CheckLowS flags checker SIGVERSION_WITNESS_V0 s script). pose proof top_true_total. total.
Qed.

Lemma verify_witness_total witness script b e s : verify_witness CheckLowS flags checker witness script b e s <> Abort.
Proof. unfold verify_witness. pose proof VerifyWitnessProgram_total. total. Qed.

Lemma verify_p2sh_total witness scriptSig x s : verify_p2sh CheckLowS flags checker witness scriptSig (x :: s) <> Abort.
Proof.
  unfold verify_p2sh. pose proof (EvalScript_total CheckLowS flags checker SIGVERSION_BASE s x).
  pose proof top_true_total. pose proof verify_witness_total. total.
Qed.
End VerifyTotal.

(** ** Properties *)

(** C23: The stack machine is type safe.  From a stack of byte strings of at most
    520 bytes, at most 1000 of them, every script of bytes that [EvalScript]
    accepts leaves such a stack, under any flags and any signature checker. *)
Theorem EvalScript_typed (CheckLowS : list Z -> bool) (flags : Z) (checker : SignatureChecker) (sigversion : SigVersion)
    (s s' : list (list Z)) (script : list Z) :
  Forall byte_ok script -> stack_ok s -> (length s <= 1000)%nat ->
  EvalScript CheckLowS flags checker sigversion s script = Accept s' ->
  stack_ok s' /\ (length s' <= 1000)%nat.
Proof.
  intros Hb Hs Hl. unfold EvalScript. intros H. accepted H. injection H as <-.
  apply eval_loop_ok in Hc as [Hs' _ Hl' _]; [split; [done | lia] | | done].
  split; [done | constructor | cbn; lia | unfold MAX_OPS_PER_SCRIPT; cbn; lia].
Qed.

Lemma EvalScript_typed_witness : stack_ok [[5]; [9]] /\ (length [[5]; [9]] <= 1000)%nat.
Proof.
  apply (EvalScript_typed (fun _ => true) 0 (mkChecker (fun _ _ _ _ => false) (fun _ => false) (fun _ => false)) SIGVERSION_BASE
           [[9]] [[5]; [9]] [0x52; 0x53; 0x93]).
  - repeat constructor; unfold byte_ok; lia.
  - repeat constructor; unfold byte_ok; cbn; lia.
  - cbn. lia.
  - vm_compute. reflexivity.
Defined.

(** C22: [EvalScript] and [VerifyScript] return on every input.  The loop of
    [EvalScript] ends within as many turns as the script has bytes; no
    assertion of [VerifyScript] fails when its flags are consistent: the stack
    of a pay-to-script-hash input is never empty. *)
Theorem VerifyScript_returns (CheckLowS : list Z -> bool) (flags : Z) (checker : SignatureChecker) (sigversion : SigVersion)
    (s : list (list Z)) (scriptSig scriptPubKey : list Z) (witness : list (list Z)) :
  flags_consistent flags ->
  EvalScript CheckLowS flags checker sigversion s scriptPubKey <> Abort /\
  VerifyScript CheckLowS scriptSig scriptPubKey witness flags checker <> Abort.
Proof.
  intros [Hclean Hwit]. split; [apply EvalScript_total |]. unfold VerifyScript. fold (effective flags).
  rewrite (has_effective flags SCRIPT_VERIFY_P2SH), (has_effective flags SCRIPT_VERIFY_WITNESS),
    (has_effective flags SCRIPT_VERIFY_CLEANSTACK) by done.
  destruct (negb _); [| done]. destruct (EvalScript _ _ _ _ [] scriptSig) as [stackCopy | |] eqn:E; [| done | by apply EvalScript_total in E].
  destruct (EvalScript _ _ _ _ stackCopy scriptPubKey) as [s' | |] eqn:E'; [| done | by apply EvalScript_total in E'].
  pose proof (top_true_total s'). destruct (top_true s'); [| done | done].
  pose proof (verify_witness_total CheckLowS (effective flags) checker witness scriptPubKey (bool_decide (scriptSig = [])) SCRIPT_ERR_WITNESS_MALLEATED s').
  destruct (verify_witness _ _ _ _ _ _ _ _) as [[had s1] | |]; [| done | done].
  set (r := if has flags SCRIPT_VERIFY_P2SH && _ then _ else _). assert (r <> Abort) as Hr.
  { subst r. destruct (has flags SCRIPT_VERIFY_P2SH && IsPayToScriptHash scriptPubKey) eqn:Hp; [| done].
    apply andb_true_iff in Hp as [_ Hp]. destruct stackCopy as [| x sc]; [by eapply p2sh_needs_element in E' |].
    pose proof (verify_p2sh_total CheckLowS (effective flags) checker witness scriptSig x sc). total. }
  destruct r as [[had' s2] | |]; [| done | done].
  destruct (has flags SCRIPT_VERIFY_CLEANSTACK), (has flags SCRIPT_VERIFY_WITNESS), (has flags SCRIPT_VERIFY_P2SH); cbn; total; naive_solver.
Qed.

Lemma VerifyScript_returns_witness :
  EvalScript (fun _ => true) 0 (mkChecker (fun _ _ _ _ => true) (fun _ => true) (fun _ => true)) SIGVERSION_BASE [] [0x51] <> Abort /\
  VerifyScript (fun _ => true) [0x51] [0x51] [] 0 (mkChecker (fun _ _ _ _ => true) (fun _ => true) (fun _ => true)) <> Abort.
Proof. apply VerifyScript_returns. split; intros H; vm_compute in H; discriminate H. Defined.
