(* ===== verification/SoftFork.v ===== *)
(** * Verification flags only restrict ([src/script/interpreter.h])

    The flags are documented as safe for soft forks: a script that is valid
    under more of them is valid under fewer.  Nodes rely on it when they check
    transactions for the mempool under stricter flags than blocks. *)

From stdpp Require Import gmap.
From S2P Require Import Prelude Bytes Serialize TxFormat Script ScriptNum Hashes Sha2 Standard TxVerify Interpreter Evaluation.

Open Scope checked_scope.

(** [f] asks for no more than [g].  The flag that selects the signature hash is
    no restriction and must agree; a node that discourages the upgradable
    [NOP]s must know the ones that have been upgraded. *)
Record weaker (f g : Z) : Prop := {
  weaker_flags flag : has f flag = true -> has g flag = true;
  weaker_forkid : has f SCRIPT_ENABLE_SIGHASH_FORKID = has g SCRIPT_ENABLE_SIGHASH_FORKID;
  weaker_nops : has f SCRIPT_VERIFY_DISCOURAGE_UPGRADABLE_NOPS = true ->
    (has g SCRIPT_VERIFY_CHECKLOCKTIMEVERIFY = true -> has f SCRIPT_VERIFY_CHECKLOCKTIMEVERIFY = true) /\
    (has g SCRIPT_VERIFY_CHECKSEQUENCEVERIFY = true -> has f SCRIPT_VERIFY_CHECKSEQUENCEVERIFY = true)
}.

Lemma subset_has f g flag : Z.land f g = f -> has f flag = true -> has g flag = true.
Proof.
  unfold has. intros E H. apply negb_true_iff, Z.eqb_neq in H. apply negb_true_iff, Z.eqb_neq. intros H0. apply H.
  by rewrite <- E, <- Z.land_assoc, H0, Z.land_0_r.
Qed.

Section Mono.
Variable CheckLowS : list Z -> bool.
Variable checker : SignatureChecker.
Variable sigversion : SigVersion.
Variables f g : Z.
Hypothesis Hw : weaker f g.

(** A condition under [f] is one under [g]. *)
Lemma guard_mono flag b : has g flag && b = false -> has f flag && b = false.
Proof.
  destruct (has f flag) eqn:E; [| done]. by rewrite (weaker_flags f g Hw flag E).
Qed.

Lemma number_mono vch max n : number vch (fRequireMinimal g) max = Accept n -> number vch (fRequireMinimal f) max = Accept n.
Proof.
  unfold number, CScriptNum_decode, fRequireMinimal. destruct (_ >? max); [done |].
  destruct (has f SCRIPT_VERIFY_MINIMALDATA) eqn:E; [by rewrite (weaker_flags f g Hw _ E) |]. cbn [andb].
  by destruct (_ && _ && _ && _).
Qed.

Lemma signature_encoding_mono vch : CheckSignatureEncoding CheckLowS vch g = Accept tt -> CheckSignatureEncoding CheckLowS vch f = Accept tt.
Proof.
  unfold CheckSignatureEncoding. destruct (bool_decide _); [done |]. rewrite (weaker_forkid f g Hw). intros H. accepted H.
  apply negb_true_iff, guard_mono in Hb. rewrite Hb. cbn [negb].
  assert ((if has f SCRIPT_VERIFY_LOW_S then IsLowDERSignature CheckLowS vch else Accept tt) = Accept tt) as ->.
  { destruct (has f SCRIPT_VERIFY_LOW_S) eqn:E; [| done]. rewrite (weaker_flags f g Hw _ E) in Hc. destruct a. done. }
  destruct (has f SCRIPT_VERIFY_STRICTENC) eqn:E; [| done]. by rewrite (weaker_flags f g Hw _ E) in H.
Qed.

Lemma pubkey_encoding_mono pk : CheckPubKeyEncoding pk g sigversion = Accept tt -> CheckPubKeyEncoding pk f sigversion = Accept tt.
Proof.
  unfold CheckPubKeyEncoding. intros H. accepted H. apply negb_true_iff, guard_mono in Hb. rewrite Hb.
  rewrite <- andb_assoc in *. apply negb_true_iff, guard_mono in Hb0. by rewrite Hb0.
Qed.

Lemma nop_mono : nop g = Accept tt -> nop f = Accept tt.
Proof.
  unfold nop. destruct (has f _) eqn:E; [| done]. by rewrite (weaker_flags f g Hw _ E).
Qed.
Lemma exec_pick_mono roll s r : exec_pick g roll s = Accept r -> exec_pick f roll s = Accept r.
Proof.
  unfold exec_pick. destruct s as [| x [| y s]]; [done..|]. intros H. accepted H. by rewrite (number_mono _ _ _ Hc).
Qed.

Lemma exec_unary_mono op s r : exec_unary g op s = Accept r -> exec_unary f op s = Accept r.
Proof. unfold exec_unary. destruct s as [| x s]; [done |]. intros H. accepted H. by rewrite (number_mono _ _ _ Hc). Qed.

Lemma exec_binary_mono op s r : exec_binary g op s = Accept r -> exec_binary f op s = Accept r.
Proof.
  unfold exec_binary. destruct s as [| x [| y s]]; [done..|]. intros H. accepted H.
  by rewrite (number_mono _ _ _ Hc), (number_mono _ _ _ Hc0).
Qed.

Lemma exec_within_mono s r : exec_within g s = Accept r -> exec_within f s = Accept r.
Proof.
  unfold exec_within. destruct s as [| x [| y [| z s]]]; [done..|]. intros H. accepted H.
  by rewrite (number_mono _ _ _ Hc), (number_mono _ _ _ Hc0), (number_mono _ _ _ Hc1).
Qed.

(** A failed signature is refused by [NULLFAIL] only if it is not empty. *)
Lemma nullfail_mono b c : negb (b && has g SCRIPT_VERIFY_NULLFAIL && c) = true -> negb (b && has f SCRIPT_VERIFY_NULLFAIL && c) = true.
Proof.
  rewrite !negb_true_iff. destruct b; [| done]. cbn [andb]. apply guard_mono.
Qed.

Lemma exec_checksig_mono verify code s r :
  exec_checksig CheckLowS g checker sigversion verify code s = Accept r ->
  exec_checksig CheckLowS f checker sigversion verify code s = Accept r.
Proof.
  unfold exec_checksig. destruct s as [| x [| y s]]; [done..|]. intros H. accepted H. destruct a, a0.
  by rewrite (signature_encoding_mono _ Hc), (pubkey_encoding_mono _ Hc0), (nullfail_mono _ _ Hb).
Qed.

Lemma multisig_loop_mono code keys : forall sigs r,
  multisig_loop CheckLowS g checker sigversion code keys sigs = Accept r ->
  multisig_loop CheckLowS f checker sigversion code keys sigs = Accept r.
Proof.
  induction keys as [| key keys IH]; intros [| sig sigs] r; cbn [multisig_loop]; [done..|]. intros H. accepted H. destruct a, a0.
  rewrite (signature_encoding_mono _ Hc), (pubkey_encoding_mono _ Hc0). destruct (_ <? _)%nat; [done |]. by apply IH.
Qed.

Lemma exec_multisig_mono verify code n s r :
  exec_multisig CheckLowS g checker sigversion verify code n s = Accept r ->
  exec_multisig CheckLowS f checker sigversion verify code n s = Accept r.
Proof.
  unfold exec_multisig. destruct s as [| x s]; [done |]. intros H. accepted H. rewrite (number_mono _ _ _ Hc), Hb, Hb0.
  destruct (drop _ s) as [| y s1]; [done |]. accepted H. rewrite (number_mono _ _ _ Hc0), Hb1.
  destruct (drop _ s1) as [| z s2]; [done |]. accepted H. rewrite (multisig_loop_mono _ _ _ _ Hc1), (nullfail_mono _ _ Hb2).
  apply negb_true_iff, guard_mono in Hb3. by rewrite Hb3, Hc2.
Qed.

Lemma exec_locktime_mono s : exec_locktime g checker s = Accept tt -> exec_locktime f checker s = Accept tt.
Proof.
  unfold exec_locktime. destruct (has f SCRIPT_VERIFY_CHECKLOCKTIMEVERIFY) eqn:E.
  - rewrite (weaker_flags f g Hw _ E). cbn [negb]. destruct s as [| x s]; [done |]. intros H. accepted H.
    by rewrite (number_mono _ _ _ Hc), Hb, Hb0.
  - cbn [negb]. destruct (has g SCRIPT_VERIFY_CHECKLOCKTIMEVERIFY) eqn:E'; [| apply nop_mono]. intros _. unfold nop.
    destruct (has f SCRIPT_VERIFY_DISCOURAGE_UPGRADABLE_NOPS) eqn:En; [| done].
    destruct (weaker_nops f g Hw En) as [Hn _]. rewrite Hn in E; done.
Qed.

Lemma exec_sequence_mono s : exec_sequence g checker s = Accept tt -> exec_sequence f checker s = Accept tt.
Proof.
  unfold exec_sequence. destruct (has f SCRIPT_VERIFY_CHECKSEQUENCEVERIFY) eqn:E.
  - rewrite (weaker_flags f g Hw _ E). cbn [negb]. destruct s as [| x s]; [done |]. intros H. accepted H.
    by rewrite (number_mono _ _ _ Hc), Hb.
  - cbn [negb]. destruct (has g SCRIPT_VERIFY_CHECKSEQUENCEVERIFY) eqn:E'; [| apply nop_mono]. intros _. unfold nop.
    destruct (has f SCRIPT_VERIFY_DISCOURAGE_UPGRADABLE_NOPS) eqn:En; [| done].
    destruct (weaker_nops f g Hw En) as [_ Hn]. rewrite Hn in E; done.
Qed.

Lemma exec_if_mono not m fExec m' : exec_if g sigversion not m fExec = Accept m' -> exec_if f sigversion not m fExec = Accept m'.
Proof.
  unfold exec_if. destruct fExec; [| done]. destruct (stack m); [done |]. intros H. accepted H.
  apply negb_true_iff in Hb. rewrite (andb_comm (bool_decide _)), <- andb_assoc in Hb |- *. apply guard_mono in Hb. by rewrite Hb.
Qed.

Lemma exec_op_mono op m pc fExec m' :
  exec_op CheckLowS g checker sigversion op m pc fExec = Accept m' -> exec_op CheckLowS f checker sigversion op m pc fExec = Accept m'.
Proof.
  destruct op; cbn [exec_op]; try done; try apply exec_if_mono; intros H; accepted H; repeat match goal with u : unit |- _ => destruct u end;
    first [ by rewrite nop_mono | by rewrite (exec_locktime_mono _ Hc) | by rewrite (exec_sequence_mono _ Hc) | by rewrite (exec_pick_mono _ _ _ Hc)
    | by rewrite (exec_unary_mono _ _ _ Hc) | by rewrite (exec_binary_mono _ _ _ Hc) | by rewrite (exec_within_mono _ _ Hc)
    | by rewrite (exec_checksig_mono _ _ _ _ Hc) | by rewrite (exec_multisig_mono _ _ _ _ _ Hc) | by rewrite Hc ].
Qed.

Lemma step_mono m opcode vch pc m' :
  step CheckLowS g checker sigversion m opcode vch pc = Accept m' -> step CheckLowS f checker sigversion m opcode vch pc = Accept m'.
Proof.
  unfold step. intros H. accepted H.
  match goal with |- match ?e with Accept _ => _ | Reject _ => _ | Abort => _ end = _ => assert (e = Accept a) as -> end;
    [| by rewrite Hb2].
  destruct (_ && (opcode <=? OP_PUSHDATA4)).
  - accepted Hc. unfold fRequireMinimal in *. apply negb_true_iff, guard_mono in Hb3. by rewrite Hb3.
  - destruct (_ || _); [by apply exec_op_mono | done].
Qed.

Lemma eval_loop_mono fuel : forall m pc m',
  eval_loop CheckLowS g checker sigversion fuel m pc = Accept m' -> eval_loop CheckLowS f checker sigversion fuel m pc = Accept m'.
Proof.
  induction fuel as [| fuel IH]; intros m pc m'; (destruct pc as [| c pc]; [done |]); cbn [eval_loop]; [done |].
  destruct (GetOp (c :: pc)) as [[[opcode vch] rest] |]; [| done]. intros H. accepted H. rewrite (step_mono _ _ _ _ _ Hc). by apply IH.
Qed.

Lemma EvalScript_mono s script s' :
  EvalScript CheckLowS g checker sigversion s script = Accept s' -> EvalScript CheckLowS f checker sigversion s script = Accept s'.
Proof. unfold EvalScript. intros H. accepted H. by rewrite (eval_loop_mono _ _ _ _ Hc), Hb0. Qed.
End Mono.

Lemma weaker_effective f g : weaker f g -> weaker (effective f) (effective g).
Proof.
  intros [Hf Hk Hn]. unfold effective. rewrite Hk. destruct (has g SCRIPT_ENABLE_SIGHASH_FORKID) eqn:E; [| split; [done | congruence | done]]. split.
  - intros flag. rewrite !has_lor. intros [H | H]%orb_true_iff; apply orb_true_iff; auto.
  - by rewrite !has_lor, E, Hk.
  - rewrite !has_lor. change (has SCRIPT_VERIFY_STRICTENC _) with false. rewrite !orb_false_r. exact Hn.
Qed.

Section Verify.
Variable CheckLowS : list Z -> bool.
Variable checker : SignatureChecker.
Variables f g : Z.
Hypothesis Hw : weaker f g.

Lemma VerifyWitnessProgram_mono witness version program :
  VerifyWitnessProgram CheckLowS witness version program g checker = Accept tt ->
  VerifyWitnessProgram CheckLowS witness version program f checker = Accept tt.
Proof.
  unfold VerifyWitnessProgram. destruct (version =? 0).
  - destruct (witness_script witness program) as [[script s] | |]; [| done | done]. intros H. accepted H.
    by rewrite (EvalScript_mono CheckLowS checker _ f g Hw _ _ _ Hc), Hb0.
  - destruct (has f _) eqn:E; [| done]. by rewrite (weaker_flags f g Hw _ E).
Qed.

(** Where [f] checks witnesses the results agree; where it does not, its stack
    is the one [g] started from. *)
Lemma verify_witness_mono witness script b e s r :
  verify_witness CheckLowS g checker witness script b e s = Accept r ->
  verify_witness CheckLowS f checker witness script b e s = Accept (if has f SCRIPT_VERIFY_WITNESS then r else (false, s)).
Proof.
  unfold verify_witness. destruct (has f SCRIPT_VERIFY_WITNESS) eqn:E; [| done]. rewrite (weaker_flags f g Hw _ E).
  destruct (IsWitnessProgram script) as [[version program] |]; [| done]. intros H. accepted H. destruct a.
  by rewrite (VerifyWitnessProgram_mono _ _ _ Hc).
Qed.

Lemma verify_p2sh_mono witness scriptSig stackCopy r :
  verify_p2sh CheckLowS g checker witness scriptSig stackCopy = Accept r ->
  exists s, verify_p2sh CheckLowS f checker witness scriptSig stackCopy = Accept (if has f SCRIPT_VERIFY_WITNESS then r else (false, s)).
Proof.
  unfold verify_p2sh. intros H. accepted H. destruct stackCopy as [| x s]; [done |]. accepted H.
  rewrite (EvalScript_mono CheckLowS checker _ f g Hw _ _ _ Hc), Hc0. exists a. by apply verify_witness_mono.
Qed.
End Verify.

(** ** Properties *)

(** C24: The verification flags are safe for soft forks: an input that
    [VerifyScript] accepts under the flags [g], with a given signature checker,
    is accepted under the flags [f] with the same checker when [f] is weaker:
    every flag of [f] is in [g], the two agree on [SCRIPT_ENABLE_SIGHASH_FORKID],
    which changes what a signature is rather than forbidding something, and
    where [f] discourages the unassigned no-operations, the two agree on
    [CHECKLOCKTIMEVERIFY] and [CHECKSEQUENCEVERIFY]; and when [f] is consistent,
    as [VerifyScript] asserts. *)
Theorem flags_softfork_safe (CheckLowS : list Z -> bool) (checker : SignatureChecker) (f g : Z) (scriptSig scriptPubKey : list Z)
    (witness : list (list Z)) :
  weaker f g -> flags_consistent f ->
  VerifyScript CheckLowS scriptSig scriptPubKey witness g checker = Accept tt ->
  VerifyScript CheckLowS scriptSig scriptPubKey witness f checker = Accept tt.
Proof.
  intros Hw [Hclean Hwit]. apply weaker_effective in Hw. unfold VerifyScript. fold (effective f) (effective g).
  assert (has (effective f) SCRIPT_VERIFY_CLEANSTACK = true -> has (effective f) SCRIPT_VERIFY_WITNESS = true) as Hclean'
    by (by rewrite !has_effective).
  assert (has (effective f) SCRIPT_VERIFY_WITNESS = true -> has (effective f) SCRIPT_VERIFY_P2SH = true) as Hwit'
    by (by rewrite !has_effective).
  clear Hclean Hwit. set (f' := effective f) in *. set (g' := effective g) in *. clearbody f' g'. intros H. accepted H.
  apply negb_true_iff, (guard_mono f' g' Hw) in Hb. rewrite Hb. cbn [negb].
  rewrite (EvalScript_mono CheckLowS checker _ f' g' Hw _ _ _ Hc), (EvalScript_mono CheckLowS checker _ f' g' Hw _ _ _ Hc0), Hc1.
  rewrite (verify_witness_mono CheckLowS checker f' g' Hw _ _ _ _ _ _ Hc2).
  destruct a2 as [had s]. destruct (has f' SCRIPT_VERIFY_WITNESS) eqn:Ew.
  - pose proof (Hwit' eq_refl) as Ep. rewrite Ep. rewrite (weaker_flags f' g' Hw _ Ew), (weaker_flags f' g' Hw _ Ep) in H. cbn [negb orb andb] in H |- *.
    set (r := if IsPayToScriptHash scriptPubKey then _ else _) in H. destruct r as [[had' s'] | |] eqn:Er; [| done | done]. subst r.
    assert ((if IsPayToScriptHash scriptPubKey
             then r <- verify_p2sh CheckLowS f' checker witness scriptSig a; Accept (had || r.1, r.2) else Accept (had, s)) = Accept (had', s')) as ->.
    { destruct (IsPayToScriptHash scriptPubKey); [| done]. accepted Er. destruct (verify_p2sh_mono CheckLowS checker f' g' Hw _ _ _ _ Hc3) as [s1 E1].
      rewrite Ew in E1. by rewrite E1. }
    destruct (has f' SCRIPT_VERIFY_CLEANSTACK) eqn:Ecl; [by rewrite (weaker_flags f' g' Hw _ Ecl) in H |].
    by accepted H.
  - destruct (has f' SCRIPT_VERIFY_CLEANSTACK) eqn:Ecl; [by specialize (Hclean' eq_refl) |].
    destruct (has f' SCRIPT_VERIFY_P2SH) eqn:Ep; [| done]. destruct (IsPayToScriptHash scriptPubKey); [| done].
    rewrite (weaker_flags f' g' Hw _ Ep) in H. cbn [andb] in H |- *. accepted H.
    destruct (verify_p2sh CheckLowS g' checker witness scriptSig a) as [r | |] eqn:Er; [| done | done].
    destruct (verify_p2sh_mono CheckLowS checker f' g' Hw _ _ _ _ Er) as [s1 E1]. rewrite Ew in E1. by rewrite E1.
Qed.

Lemma flags_softfork_safe_witness :
  VerifyScript (fun _ => true) [0x51] [0x52; 0x87; 0x91] [] SCRIPT_VERIFY_P2SH (mkChecker (fun _ _ _ _ => true) (fun _ => true) (fun _ => true)) = Accept tt.
Proof.
  apply (flags_softfork_safe (fun _ => true) _ SCRIPT_VERIFY_P2SH
           (Z.lor SCRIPT_VERIFY_P2SH (Z.lor SCRIPT_VERIFY_MINIMALDATA SCRIPT_VERIFY_SIGPUSHONLY))).
  - split; [intros flag; apply subset_has | |]; vm_compute; congruence.
  - split; vm_compute; congruence.
  - vm_compute. reflexivity.
Defined.
