(* ===== verification/Spending.v ===== *)
(** * Spending conditions of the standard outputs

    What it takes to spend the outputs the wallet and the asset layer create:
    the composition of the script builders of [src/script/standard.cpp] and
    [src/assets/assets.cpp] with [VerifyScript]. *)

From stdpp Require Import gmap.
From S2P Require Import Prelude Bytes Serialize TxFormat Script ScriptNum Hashes Sha2 Standard TxVerify Interpreter Evaluation.

Open Scope checked_scope.

(** ** Running the machine *)

Lemma GetOp_opcode c pc opcode vch rest : GetOp (c :: pc) = Some (opcode, vch, rest) -> opcode = c.
Proof. by intros [-> _]%GetOp_split. Qed.

(** An element that [operator<<] pushes minimally: not a single byte. *)
Definition pushable (d : list Z) : Prop := (length d <= 520 /\ length d <> 1)%nat.

Lemma GetOp_push_minimal d rest : pushable d -> exists opcode,
  GetOp (push_data d ++ rest) = Some (opcode, d, rest) /\ 0 <= opcode <= OP_PUSHDATA4 /\ CheckMinimalPush d opcode = true.
Proof.
  intros [Hd Hd']. destruct (GetOp_push_data d rest) as (opcode & E & Ho); [lia |]. exists opcode. do 2 (split; [done |]).
  unfold push_data in E. unfold CheckMinimalPush. destruct d as [| x d]; [by apply GetOp_opcode in E as -> |].
  cbn [length] in Hd, Hd'. rewrite (proj2 (Z.eqb_neq _ 0)), (proj2 (Z.eqb_neq _ 1)) by (cbn [length]; lia). cbn [andb].
  set (n := length (x :: d)) in *. assert (2 <= n <= 520)%nat by (cbn in n; lia). clearbody n.
  unfold OP_PUSHDATA1, OP_PUSHDATA2 in *.
  destruct (Z.ltb_spec (Z.of_nat n) 0x4c).
  - apply GetOp_opcode in E. rewrite wrapu_small in E by lia. subst. rewrite (proj2 (Z.leb_le _ 75)) by lia. apply Z.eqb_refl.
  - rewrite (proj2 (Z.leb_gt _ 75)) by lia. destruct (Z.leb_spec (Z.of_nat n) 0xff); [by apply GetOp_opcode in E as -> |].
    rewrite (proj2 (Z.leb_le _ 65535)) in * by lia. by apply GetOp_opcode in E as ->.
Qed.

Ltac machine :=
  cbn [exec_op exec_stack exec_hash op_hash verify_result stack]; unfold with_stack; cbn [stack altstack vfExec nOpCount pbegincodehash].

Definition pushes (ds : list (list Z)) : list Z := concat (map push_data ds).

Section Run.
Variable CheckLowS : list Z -> bool.
Variable flags : Z.
Variable checker : SignatureChecker.
Variable sigversion : SigVersion.

Abbreviation eval_loop := (eval_loop CheckLowS flags checker sigversion).
Abbreviation step := (step CheckLowS flags checker sigversion).

Definition run (m : Machine) (pc : list Z) : Evaluated Machine := eval_loop (length pc) m pc.

Lemma eval_loop_fuel fuel : forall m pc, (length pc <= fuel)%nat -> eval_loop fuel m pc = run m pc.
Proof.
  unfold run. induction fuel as [fuel IH] using lt_wf_ind. intros m pc Hf. destruct pc as [| c pc]; [by destruct fuel |].
  destruct fuel as [| fuel]; [cbn in Hf; lia |]. cbn [length] in *. cbn [Interpreter.eval_loop].
  destruct (GetOp (c :: pc)) as [[[opcode vch] rest] |] eqn:Hop; [| done].
  apply GetOp_spec in Hop as [Hl _]. cbn [length] in Hl. destruct (step m opcode vch rest) as [m' | |]; [| done | done].
  by rewrite (IH fuel), (IH (length pc)) by lia.
Qed.

Lemma run_step m pc opcode vch rest : GetOp pc = Some (opcode, vch, rest) -> run m pc = (m <- step m opcode vch rest; run m rest).
Proof.
  intros Hop. destruct pc as [| c pc]; [done |]. unfold run at 1. cbn [length Interpreter.eval_loop]. rewrite Hop.
  destruct (step m opcode vch rest) as [m' | |]; [| done | done]. apply eval_loop_fuel.
  apply GetOp_spec in Hop as [Hl _]. cbn [length] in Hl. lia.
Qed.

Lemma step_push m opcode d rest : 0 <= opcode <= OP_PUSHDATA4 -> CheckMinimalPush d opcode = true -> (length d <= 520)%nat ->
  vfExec m = [] -> (length (stack m) + length (altstack m) < 1000)%nat ->
  step m opcode d rest = Accept (with_stack m (d :: stack m)).
Proof.
  unfold OP_PUSHDATA4. intros Ho Hm Hd Hv Hs. unfold Interpreter.step. rewrite Hv. cbn [forallb].
  rewrite Z.gtb_ltb, (proj2 (Z.ltb_ge MAX_SCRIPT_ELEMENT_SIZE _)) by (unfold MAX_SCRIPT_ELEMENT_SIZE; lia). cbn [negb].
  rewrite Z.gtb_ltb, (proj2 (Z.ltb_ge OP_16 opcode)) by (unfold OP_16; lia). cbn [andb negb].
  unfold decode_op. rewrite (proj2 (Z.eqb_neq _ _)) by (unfold OP_AVN_ASSET; lia).
  replace (Z.to_nat (opcode - OP_1NEGATE)) with O by (unfold OP_1NEGATE; lia). cbn [nth op_table app].
  rewrite (proj2 (Z.leb_le opcode OP_PUSHDATA4)) by (unfold OP_PUSHDATA4; lia). rewrite Hm, andb_false_r. cbn [negb].
  unfold with_stack. cbn [stack altstack vfExec nOpCount pbegincodehash length].
  rewrite Z.gtb_ltb, (proj2 (Z.ltb_ge MAX_STACK_SIZE _)) by (unfold MAX_STACK_SIZE; lia). cbn [negb]. by rewrite Hv.
Qed.

(** Pushes leave their elements on the stack, the last one on top. *)
Lemma run_pushes ds : forall m rest, Forall pushable ds -> vfExec m = [] ->
  (length ds + length (stack m) + length (altstack m) <= 1000)%nat ->
  run m (pushes ds ++ rest) = run (with_stack m (rev ds ++ stack m)) rest.
Proof.
  induction ds as [| d ds IH]; intros m rest Hds Hv Hl; [by destruct m |]. apply Forall_cons in Hds as [Hd Hds].
  cbn [length] in Hl. unfold pushes. cbn [map concat]. rewrite <- app_assoc.
  destruct (GetOp_push_minimal d (pushes ds ++ rest) Hd) as (opcode & E & Ho & Hm).
  rewrite (run_step _ _ _ _ _ E), step_push by (done || apply Hd || lia). rewrite IH; [| done | done | cbn; lia].
  cbn [with_stack stack altstack vfExec nOpCount pbegincodehash rev]. by rewrite <- app_assoc.
Qed.

(** An opcode that is executed and counted. *)
Lemma step_op m opcode vch rest : (opcode >? OP_16) = true -> (Z.of_nat (length vch) <= MAX_SCRIPT_ELEMENT_SIZE) -> vfExec m = [] ->
  nOpCount m < MAX_OPS_PER_SCRIPT -> decode_op opcode <> OpDisabled ->
  step m opcode vch rest =
    (m <- exec_op CheckLowS flags checker sigversion (decode_op opcode)
            (mkMachine (stack m) (altstack m) [] (nOpCount m + 1) (pbegincodehash m)) rest true;
     ensure negb (Z.of_nat (length (stack m)) + Z.of_nat (length (altstack m)) >? MAX_STACK_SIZE) or SCRIPT_ERR_STACK_SIZE;
     Accept m).
Proof.
  intros Ho Hl Hv Hn Hd. unfold Interpreter.step. rewrite Hv, Ho. cbn [forallb andb].
  rewrite !(Z.gtb_ltb _ MAX_SCRIPT_ELEMENT_SIZE), (proj2 (Z.ltb_ge MAX_SCRIPT_ELEMENT_SIZE _)) by done. cbn [negb].
  rewrite !(Z.gtb_ltb _ MAX_OPS_PER_SCRIPT), (proj2 (Z.ltb_ge MAX_OPS_PER_SCRIPT _)) by lia. cbn [negb].
  rewrite Z.gtb_ltb in Ho. apply Z.ltb_lt in Ho. rewrite (proj2 (Z.leb_gt opcode OP_PUSHDATA4)) by (unfold OP_16, OP_PUSHDATA4 in *; lia).
  cbn [orb]. by destruct (decode_op opcode).
Qed.

(** The marker of an asset takes the rest of the script as its operand and
    does nothing. *)
Lemma run_asset m t : (length t <= 520)%nat -> vfExec m = [] -> nOpCount m < MAX_OPS_PER_SCRIPT ->
  (length (stack m) + length (altstack m) <= 1000)%nat ->
  run m (OP_AVN_ASSET :: t) = Accept (mkMachine (stack m) (altstack m) [] (nOpCount m + 1) (pbegincodehash m)).
Proof.
  intros Ht Hv Hn Hl. rewrite (run_step m _ OP_AVN_ASSET t []) by done.
  rewrite step_op by (done || unfold MAX_SCRIPT_ELEMENT_SIZE; lia). cbn [decode_op Z.eqb exec_op stack altstack].
  change (decode_op OP_AVN_ASSET) with OpAvnAsset. cbn [exec_op stack altstack].
  rewrite Z.gtb_ltb, (proj2 (Z.ltb_ge MAX_STACK_SIZE _)) by (unfold MAX_STACK_SIZE; lia). done.
Qed.

Lemma run_op m opcode rest : (opcode >? OP_16) && negb (opcode =? OP_AVN_ASSET) = true -> vfExec m = [] ->
  nOpCount m < MAX_OPS_PER_SCRIPT -> decode_op opcode <> OpDisabled ->
  run m (opcode :: rest) =
    (m <- exec_op CheckLowS flags checker sigversion (decode_op opcode)
            (mkMachine (stack m) (altstack m) [] (nOpCount m + 1) (pbegincodehash m)) rest true;
     ensure negb (Z.of_nat (length (stack m)) + Z.of_nat (length (altstack m)) >? MAX_STACK_SIZE) or SCRIPT_ERR_STACK_SIZE;
     run m rest).
Proof.
  intros [Ho Ha]%andb_true_iff Hv Hn Hd. apply negb_true_iff in Ha.
  rewrite (run_step _ _ opcode [] rest), step_op; try done.
  - destruct (exec_op _ _ _ _ _ _ _ _) as [m' | |]; [| done | done]. by destruct (negb _).
  - cbn [GetOp]. rewrite Z.gtb_ltb in Ho. apply Z.ltb_lt in Ho.
    rewrite (proj2 (Z.leb_gt opcode OP_PUSHDATA4)) by (unfold OP_16, OP_PUSHDATA4 in *; lia). cbn [mbind option_bind]. by rewrite Ha.
Qed.

(** The template of a key hash on a signature and a key. *)
Lemma run_pubkeyhash key sig code h rest : length h = 20%nat ->
  run (mkMachine [key; sig] [] [] 0 code) (pubkeyhash_script h ++ rest) =
    (ensure bool_decide (Hash160 key = h) or SCRIPT_ERR_EQUALVERIFY;
     s <- exec_checksig CheckLowS flags checker sigversion false code [key; sig];
     run (mkMachine s [] [] 4 code) rest).
Proof.
  intros Hh. unfold pubkeyhash_script. cbn [app]. rewrite <- !app_assoc. cbn [app].
  rewrite run_op by done. change (decode_op OP_DUP) with OpDup. machine.
  change (negb _) with true. cbv iota. rewrite run_op by done. change (decode_op OP_HASH160) with OpHash160.
  machine. fold (Hash160 key).
  change (negb _) with true. cbv iota.
  pose proof (run_pushes [h] (mkMachine [Hash160 key; key; sig] [] [] (0 + 1 + 1) code) (OP_EQUALVERIFY :: OP_CHECKSIG :: rest)) as Hp.
  unfold pushes in Hp. cbn [map concat rev app] in Hp. unfold with_stack in Hp. cbn [stack altstack vfExec nOpCount pbegincodehash] in Hp. rewrite app_nil_r in Hp.
  rewrite Hp; [clear Hp | apply Forall_singleton; split; lia | done | cbn [length]; lia].
  rewrite run_op by done. change (decode_op OP_EQUALVERIFY) with (OpEqual true).
  machine.
  destruct (bool_decide _); [| done]. machine.
  change (negb _) with true. cbv iota. rewrite run_op by done. change (decode_op OP_CHECKSIG) with (OpCheckSig false).
  machine.
  destruct (exec_checksig CheckLowS flags checker sigversion false code [key; sig]) as [s | |] eqn:E; [| done | done].
  machine. unfold exec_checksig in E. accepted E. injection E as <-.
  change (negb _) with true. done.
Qed.
End Run.

(** ** Removal of signatures from the script *)

(** No instruction of the script has the opcode [c]. *)
Inductive avoids (c : Z) : list Z -> Prop :=
| avoids_end : avoids c []
| avoids_op o pc : o <> c -> (forall op vch rest, GetOp (o :: pc) = Some (op, vch, rest) -> avoids c rest) -> avoids c (o :: pc).

Lemma skip_matches_none fuel c b pc n : avoids c pc -> skip_matches fuel (c :: b) pc n = (pc, n).
Proof.
  intros H. destruct fuel as [| fuel]; [done |]. cbn [skip_matches length]. destruct H as [| o pc Ho _]; [done |].
  rewrite bool_decide_false, andb_false_r; [done |]. cbn [take]. congruence.
Qed.

Lemma FindAndDelete_none script c b : avoids c script -> FindAndDelete script (c :: b) = (0, script).
Proof.
  intros H. unfold FindAndDelete. rewrite bool_decide_false by done.
  assert (forall fuel result pc pc2, avoids c pc -> (FindAndDelete_loop fuel (c :: b) result pc pc2 0).2 = 0) as Hl.
  { induction fuel as [| fuel IH]; intros result pc pc2 Hp; cbn [FindAndDelete_loop]; rewrite (skip_matches_none _ c) by done; [done |].
    destruct (GetOp pc) as [[[op vch] rest] |] eqn:E; [| done]. apply IH. destruct Hp as [| o pc _ Hp]; [done | by eapply Hp]. }
  specialize (Hl (length script) [] script script H). destruct (FindAndDelete_loop _ _ _ _ _ _) as [[result pc2] n]. cbn in Hl. by subst.
Qed.

Lemma push_data_head d : Z.of_nat (length d) < 65536 -> exists c b, push_data d = c :: b /\
  (c = Z.of_nat (length d) /\ c < OP_PUSHDATA1 \/ c = OP_PUSHDATA1 \/ c = OP_PUSHDATA2).
Proof.
  intros Hd. unfold push_data, OP_PUSHDATA1. destruct (Z.ltb_spec (Z.of_nat (length d)) 0x4c).
  - rewrite wrapu_small by lia. eexists _, _. split; [reflexivity |]. lia.
  - destruct (Z.leb_spec (Z.of_nat (length d)) 0xff); [eexists _, _; split; [reflexivity |]; auto |].
    rewrite (proj2 (Z.leb_le _ 0xffff)) by lia. eexists _, _. split; [reflexivity |]. auto.
Qed.

(** What may follow the template of an output: nothing, or an asset. *)
Inductive output_tail : list Z -> Prop :=
| no_tail : output_tail []
| asset_tail t : (length t <= 520)%nat -> output_tail (OP_AVN_ASSET :: t).

Lemma pubkeyhash_avoids c h tail : length h = 20%nat -> output_tail tail -> c < OP_DUP -> c <> 20 -> avoids c (pubkeyhash_script h ++ tail).
Proof.
  intros Hh Ht Hc Hc'. unfold OP_DUP in Hc.
  assert (avoids c tail) as Htail.
  { destruct Ht as [| t Ht]; constructor; [unfold OP_AVN_ASSET; lia |]. intros op vch rest [= <- <- <-]. constructor. }
  unfold pubkeyhash_script, OP_DUP, OP_HASH160, OP_EQUALVERIFY, OP_CHECKSIG. cbn [app].
  constructor; [lia |]. intros ? ? ? [= <- <- <-]. constructor; [lia |]. intros ? ? ? [= <- <- <-]. rewrite <- app_assoc.
  destruct (GetOp_push_data h ([136; 172] ++ tail)) as (op' & E & _); [lia |]. revert E. unfold push_data. rewrite Hh.
  change (if Z.of_nat 20 <? OP_PUSHDATA1 then _ else _) with [20]. cbn [app]. intros E. constructor; [lia |]. rewrite E. intros ? ? ? [= <- <- <-].
  constructor; [lia |]. intros ? ? ? [= <- <- <-]. constructor; [lia |]. by intros ? ? ? [= <- <- <-].
Qed.

(** ** Outputs *)

Section Outputs.
Variable CheckLowS : list Z -> bool.
Variable flags : Z.
Variable checker : SignatureChecker.

Lemma length_push_data d : (length (push_data d) <= length d + 5)%nat.
Proof.
  unfold push_data. rewrite length_app. do 3 (destruct (_ : bool); [cbn [length]; unfold WriteLE16; rewrite ?length_le_encode; lia |]).
  cbn [length]. unfold WriteLE32. rewrite length_le_encode. lia.
Qed.

Lemma length_pushes ds : Forall pushable ds -> (length (pushes ds) <= 525 * length ds)%nat.
Proof.
  unfold pushes. induction 1 as [| d ds Hd Hds IH]; cbn [map concat length]; [lia |]. rewrite length_app.
  pose proof (length_push_data d). destruct Hd. lia.
Qed.

(** An input made of pushes leaves its elements on the stack. *)
Lemma EvalScript_pushes ds : Forall pushable ds -> (length ds <= 19)%nat ->
  EvalScript CheckLowS flags checker SIGVERSION_BASE [] (pushes ds) = Accept (rev ds).
Proof.
  intros Hds Hl. pose proof (length_pushes ds Hds). unfold EvalScript.
  rewrite Z.gtb_ltb, (proj2 (Z.ltb_ge MAX_SCRIPT_SIZE _)) by (unfold MAX_SCRIPT_SIZE; lia). cbn [negb].
  set (m := mkMachine [] [] [] 0 (pushes ds)). change (eval_loop _ _ _ _ _ m (pushes ds)) with (run CheckLowS flags checker SIGVERSION_BASE m (pushes ds)).
  pose proof (run_pushes CheckLowS flags checker SIGVERSION_BASE ds m [] Hds eq_refl) as Hp. rewrite app_nil_r in Hp.
  rewrite Hp by (cbn; lia). cbn. by rewrite app_nil_r.
Qed.

Lemma pushes_push_only ds : Forall pushable ds -> IsPushOnly (pushes ds) = true.
Proof.
  intros Hds. assert (forall fuel, (length (pushes ds) <= fuel)%nat -> IsPushOnly_loop fuel (pushes ds) = true) as H; [| by apply H].
  induction Hds as [| d ds Hd Hds IH]; intros fuel Hf; [by destruct fuel |].
  unfold pushes in *. cbn [map concat] in *. destruct (GetOp_push_minimal d (concat (map push_data ds)) Hd) as (op & E & Ho & _).
  assert (length (concat (map push_data ds)) < length (push_data d ++ concat (map push_data ds)))%nat as Hl.
  { rewrite length_app. pose proof (push_data_length d). lia. }
  destruct (push_data d ++ concat (map push_data ds)) as [| c pc]; [cbn in Hl; lia |].
  destruct fuel as [| fuel]; [cbn in Hf; lia |]. cbn [IsPushOnly_loop]. rewrite E.
  rewrite Z.gtb_ltb, (proj2 (Z.ltb_ge OP_16 op)) by (unfold OP_16, OP_PUSHDATA4 in *; lia). apply IH. cbn [length] in *. lia.
Qed.

(** Running the output of a key. *)
Lemma EvalScript_pubkeyhash h tail sig key : length h = 20%nat -> output_tail tail -> (21 <= length sig <= 520)%nat ->
  EvalScript CheckLowS flags checker SIGVERSION_BASE [key; sig] (pubkeyhash_script h ++ tail) =
    (ensure bool_decide (Hash160 key = h) or SCRIPT_ERR_EQUALVERIFY;
     _ <- CheckSignatureEncoding CheckLowS sig flags;
     _ <- CheckPubKeyEncoding key flags SIGVERSION_BASE;
     let fSuccess := CheckSig checker sig key (pubkeyhash_script h ++ tail) SIGVERSION_BASE in
     ensure negb (negb fSuccess && has flags SCRIPT_VERIFY_NULLFAIL) or SCRIPT_ERR_SIG_NULLFAIL;
     Accept [bool_vch fSuccess]).
Proof.
  intros Hh Ht Hs. set (code := pubkeyhash_script h ++ tail) in *.
  assert (drop_signature SIGVERSION_BASE code sig = code) as Hd.
  { unfold drop_signature. rewrite bool_decide_true by done. destruct (push_data_head sig) as (c & b & -> & Hc); [lia |].
    rewrite FindAndDelete_none; [done |]. apply pubkeyhash_avoids; [done | done | |]; unfold OP_PUSHDATA1, OP_PUSHDATA2, OP_DUP in *; lia. }
  assert (length code <= 1000)%nat as Hlen.
  { unfold code, pubkeyhash_script. rewrite !length_app. pose proof (length_push_data h). destruct Ht; cbn [length]; lia. }
  unfold EvalScript. rewrite Z.gtb_ltb, (proj2 (Z.ltb_ge MAX_SCRIPT_SIZE _)) by (unfold MAX_SCRIPT_SIZE; lia). cbn [negb].
  change (eval_loop _ _ _ _ _ ?m code) with (run CheckLowS flags checker SIGVERSION_BASE m code).
  unfold code at 2. rewrite run_pubkeyhash by done. destruct (bool_decide _); [| done].
  unfold exec_checksig. rewrite Hd. destruct (CheckSignatureEncoding _ _ _); [| done | done].
  destruct (CheckPubKeyEncoding _ _ _); [| done | done].
  rewrite (bool_decide_false (sig = [])), andb_true_r by (intros ->; cbn in Hs; lia).
  destruct (negb _); [| done]. cbn [verify_result].
  destruct Ht as [| t Ht]; [done |]. rewrite run_asset; [done | done | done | done | cbn; lia].
Qed.
End Outputs.

Lemma pubkeyhash_plain h tail : IsWitnessProgram (pubkeyhash_script h ++ tail) = None /\ IsPayToScriptHash (pubkeyhash_script h ++ tail) = false.
Proof.
  split; [unfold IsWitnessProgram; by destruct ((_ <? _)%nat || _) |].
  unfold IsPayToScriptHash. change (byte_at _ 0 OP_HASH160) with false. by rewrite andb_false_r.
Qed.

Lemma CastToBool_bool_vch b : CastToBool (bool_vch b) = b.
Proof. by destruct b. Qed.

(** An input that runs an output that is neither a script hash nor a witness
    program, to a single element, passes the final checks. *)
Lemma VerifyScript_plain CheckLowS flags checker scriptSig scriptPubKey stackCopy s : flags_consistent flags ->
  IsPushOnly scriptSig = true -> IsWitnessProgram scriptPubKey = None -> IsPayToScriptHash scriptPubKey = false ->
  EvalScript CheckLowS (effective flags) checker SIGVERSION_BASE [] scriptSig = Accept stackCopy ->
  EvalScript CheckLowS (effective flags) checker SIGVERSION_BASE stackCopy scriptPubKey = Accept [s] ->
  VerifyScript CheckLowS scriptSig scriptPubKey [] flags checker = top_true [s].
Proof.
  intros [Hclean Hwit] Hp Hw Hs E1 E2. unfold VerifyScript. fold (effective flags). rewrite Hp, E1, E2, andb_false_r. cbn [negb].
  cbn [top_true]. destruct (CastToBool s); [| done].
  unfold verify_witness. rewrite Hw, Hs, andb_false_r.
  rewrite (has_effective flags SCRIPT_VERIFY_P2SH), (has_effective flags SCRIPT_VERIFY_WITNESS),
    (has_effective flags SCRIPT_VERIFY_CLEANSTACK) by done.
  destruct (has flags SCRIPT_VERIFY_CLEANSTACK), (has flags SCRIPT_VERIFY_WITNESS), (has flags SCRIPT_VERIFY_P2SH); naive_solver.
Qed.

(** ** Properties *)

(** C14: The output of an address, alone or carrying an asset, is spent by
    exactly the holder of the key.  A signature and a key are accepted for it
    if and only if the key has the hash of the address, both are encoded as the
    flags demand, and the signature is valid for the key over the whole output
    script, with the asset data when it carries any. *)
Theorem key_hash_spending (CheckLowS : list Z -> bool) (checker : SignatureChecker) (flags : Z) (h tail sig key : list Z) :
  flags_consistent flags -> length h = 20%nat -> output_tail tail -> (21 <= length sig <= 520)%nat -> pushable key ->
  let script := GetScriptForDestination (CKeyID h) ++ tail in
  VerifyScript CheckLowS (push_data sig ++ push_data key) script [] flags checker = Accept tt <->
  Hash160 key = h /\ CheckSignatureEncoding CheckLowS sig (effective flags) = Accept tt /\
  CheckPubKeyEncoding key (effective flags) SIGVERSION_BASE = Accept tt /\ CheckSig checker sig key script SIGVERSION_BASE = true.
Proof.
  intros Hf Hh Ht Hs Hk script. change script with (pubkeyhash_script h ++ tail). clear script.
  assert (Forall pushable [sig; key]) as Hds by (apply Forall_cons; split; [split; lia | by apply Forall_singleton]).
  pose proof (EvalScript_pushes CheckLowS (effective flags) checker [sig; key] Hds ltac:(cbn; lia)) as E1.
  pose proof (pushes_push_only [sig; key] Hds) as Hp. unfold pushes in E1, Hp. cbn [map concat rev app] in E1, Hp. rewrite app_nil_r in E1, Hp.
  pose proof (EvalScript_pubkeyhash CheckLowS (effective flags) checker h tail sig key Hh Ht Hs) as E2.
  destruct (pubkeyhash_plain h tail) as [Hw Hsh]. split.
  - intros H. assert (exists s, EvalScript CheckLowS (effective flags) checker SIGVERSION_BASE [key; sig] (pubkeyhash_script h ++ tail) = Accept s) as [s E].
    { revert H. unfold VerifyScript. fold (effective flags). rewrite E1. destruct (negb _); [| done].
      destruct (EvalScript _ _ _ _ [key; sig] _) as [s | |]; [by exists s | done | done]. }
    rewrite E in E2. symmetry in E2. accepted E2. apply bool_decide_eq_true in Hb. destruct a, a0. split; [done |]. do 2 (split; [done |]).
    cbv zeta in E2. accepted E2. injection E2 as <-. rewrite (VerifyScript_plain _ _ _ _ _ _ _ Hf Hp Hw Hsh E1 E) in H. cbn [top_true] in H.
    rewrite CastToBool_bool_vch in H. by destruct (CheckSig _ _ _ _ _).
  - intros (Hkey & Hse & Hpe & Hc). rewrite bool_decide_true, Hse, Hpe, Hc in E2 by done.
    by rewrite (VerifyScript_plain _ _ _ _ _ _ _ Hf Hp Hw Hsh E1 E2).
Qed.

(** A signature with two ten-byte numbers, and a compressed key. *)
Definition some_sig : list Z := [0x30; 24; 2; 10] ++ replicate 10 1 ++ [2; 10] ++ replicate 10 1 ++ [SIGHASH_ALL].
Definition some_key : list Z := 2 :: replicate 32 7.
Definition strict_flags : Z :=
  Z.lor SCRIPT_VERIFY_P2SH (Z.lor SCRIPT_VERIFY_STRICTENC (Z.lor SCRIPT_VERIFY_LOW_S (Z.lor SCRIPT_VERIFY_MINIMALDATA SCRIPT_VERIFY_NULLFAIL))).
Definition some_checker : SignatureChecker :=
  mkChecker (fun sig key _ _ => bool_decide (sig = some_sig) && bool_decide (key = some_key)) (fun _ => false) (fun _ => false).

Lemma key_hash_spending_witness :
  VerifyScript (fun _ => true) (push_data some_sig ++ push_data some_key)
    (GetScriptForDestination (CKeyID (Hash160 some_key)) ++ [OP_AVN_ASSET; 1; 2; 3]) [] strict_flags some_checker = Accept tt.
Proof.
  apply key_hash_spending.
  - split; vm_compute; congruence.
  - vm_compute. reflexivity.
  - constructor. cbn. lia.
  - vm_compute. lia.
  - vm_compute. lia.
  - do 3 (split; [vm_compute; reflexivity |]). vm_compute. reflexivity.
Defined.
