(* ===== verification/Multisig.v ===== *)
(** * Multisignature outputs

    [OP_CHECKMULTISIG] tries signatures and keys in one pass.  It accepts
    exactly the signatures that can be assigned to keys in order, and so does
    [VerifyScript] on the script of [GetScriptForMultisig]. *)

From stdpp Require Import gmap.
From S2P Require Import Prelude Bytes Serialize TxFormat Script ScriptNum Hashes Sha2 Standard TxVerify Interpreter Evaluation Spending.

Open Scope checked_scope.

(** ** Assignments *)

(** Every signature has a key of its own that it is valid for, in the order of
    the keys. *)
Inductive assigned (valid : list Z -> list Z -> bool) : list (list Z) -> list (list Z) -> Prop :=
| assigned_none keys : assigned valid [] keys
| assigned_skip sigs key keys : assigned valid sigs keys -> assigned valid sigs (key :: keys)
| assigned_use sig sigs key keys : valid sig key = true -> assigned valid sigs keys -> assigned valid (sig :: sigs) (key :: keys).

#[local] Hint Constructors assigned : core.

Section Assigned.
Variable valid : list Z -> list Z -> bool.

Lemma assigned_length sigs keys : assigned valid sigs keys -> (length sigs <= length keys)%nat.
Proof. induction 1; cbn; lia. Qed.

Lemma assigned_tail sig sigs keys : assigned valid (sig :: sigs) keys -> assigned valid sigs keys.
Proof. intros H. remember (sig :: sigs) as l eqn:E. induction H; [done | subst; auto | injection E as -> ->; auto]. Qed.

(** Using the first key that fits loses nothing. *)
Lemma assigned_greedy sig sigs key keys : assigned valid (sig :: sigs) (key :: keys) <->
  assigned valid (if valid sig key then sigs else sig :: sigs) keys.
Proof.
  destruct (valid sig key) eqn:E; [split; [| by auto] | split; [| by auto]]; intros H; inversion H; subst; try done; try congruence.
  by eapply assigned_tail.
Qed.

Lemma assigned_snoc sigs keys sig key : assigned valid sigs keys -> valid sig key = true -> assigned valid (sigs ++ [sig]) (keys ++ [key]).
Proof.
  intros H Hv. induction H; cbn [app]; auto. induction keys; cbn [app]; auto.
Qed.

Lemma assigned_app_skip sigs keys key : assigned valid sigs keys -> assigned valid sigs (keys ++ [key]).
Proof. induction 1; cbn [app]; auto. Qed.

(** The order of the stack and the order of the script agree. *)
Lemma assigned_rev sigs keys : assigned valid sigs keys -> assigned valid (rev sigs) (rev keys).
Proof. induction 1; cbn [rev]; auto using assigned_app_skip, assigned_snoc. Qed.
End Assigned.

(** ** The loop *)

Section Loop.
Variable CheckLowS : list Z -> bool.
Variable flags : Z.
Variable checker : SignatureChecker.
Variable sigversion : SigVersion.
Variable code : list Z.

Definition valid_for (sig key : list Z) : bool := CheckSig checker sig key code sigversion.

Definition well_encoded (sigs keys : list (list Z)) : Prop :=
  Forall (fun sig => CheckSignatureEncoding CheckLowS sig flags = Accept tt) sigs /\
  Forall (fun key => CheckPubKeyEncoding key flags sigversion = Accept tt) keys.

Lemma multisig_loop_assigned keys : forall sigs, well_encoded sigs keys -> exists b,
  multisig_loop CheckLowS flags checker sigversion code keys sigs = Accept b /\ (b = true <-> assigned valid_for sigs keys).
Proof.
  induction keys as [| key keys IH]; intros [| sig sigs] [Hs Hk]; cbn [multisig_loop].
  - exists true. split; [done | split; auto].
  - exists false. split; [done |]. split; [done |]. intros H. inversion H.
  - exists true. split; [done | split; auto].
  - apply Forall_cons in Hs as [Hs Hss], Hk as [Hk Hks]. rewrite Hs, Hk. fold (valid_for sig key).
    set (sigs' := if valid_for sig key then _ else _). destruct (IH sigs') as (b & E & Hb).
    { subst sigs'. split; [destruct (valid_for _ _) |]; auto. }
    destruct (Nat.ltb_spec (length keys) (length sigs')); [exists false | exists b]; (split; [done |]); rewrite assigned_greedy; fold sigs'.
    + split; [done |]. intros H'%assigned_length. lia.
    + done.
Qed.
End Loop.

(** ** The script *)

Section Script.
Variable CheckLowS : list Z -> bool.
Variable flags : Z.
Variable checker : SignatureChecker.

Abbreviation run := (run CheckLowS flags checker SIGVERSION_BASE).

Lemma run_num m n op rest : 1 <= n <= 16 -> EncodeOP_N n = Some op -> vfExec m = [] -> (length (stack m) + length (altstack m) < 1000)%nat ->
  run m (op :: rest) = run (with_stack m (getvch n :: stack m)) rest.
Proof.
  intros Hn E Hv Hl. destruct (small_op n Hn) as (op' & E' & _ & _ & Hg). rewrite E' in E. injection E as ->.
  rewrite (run_step _ _ _ _ _ _ _ _ _ (Hg rest)).
  assert (step CheckLowS flags checker SIGVERSION_BASE m op [] rest = Accept (with_stack m (getvch n :: stack m))) as ->; [| done].
  clear Hg. unfold EncodeOP_N in E'. destruct (_ && _); [| done]. rewrite (proj2 (Z.eqb_neq n 0)) in E' by lia. injection E' as <-.
  unfold step. rewrite Hv. unfold with_stack. cbn [stack altstack vfExec nOpCount pbegincodehash].
  assert (decode_op (OP_1 + n - 1) = OpNum n /\ (OP_1 + n - 1 >? OP_16) = false /\ (OP_1 + n - 1 <=? OP_PUSHDATA4) = false) as (-> & -> & ->).
  { assert (In n (seqZ 1 16)) as Hin by (apply list_elem_of_In, elem_of_seqZ; lia).
    cbn in Hin. repeat (destruct Hin as [<- | Hin]; [done |]). done. }
  cbn -[Z.of_nat Z.add getvch]. change (Z.of_nat 0 >? MAX_SCRIPT_ELEMENT_SIZE) with false. cbn [negb].
  rewrite Z.gtb_ltb, (proj2 (Z.ltb_ge MAX_STACK_SIZE _)) by (unfold MAX_STACK_SIZE; lia). by rewrite Hv.
Qed.

Lemma number_getvch n minimal : 0 <= n <= 20 -> number (getvch n) minimal 4 = Accept n.
Proof.
  intros Hn. unfold number, getvch. rewrite decode_serialize; [done | lia |].
  assert (In n (seqZ 0 21)) as Hin by (apply list_elem_of_In, elem_of_seqZ; lia).
  cbn in Hin. repeat (destruct Hin as [<- | Hin]; [by cbn |]). done.
Qed.

(** On a stack laid out for it the opcode runs the loop. *)
Lemma exec_multisig_laid_out verify code keys sigs nOps rest :
  (length keys <= 16)%nat -> (length sigs <= length keys)%nat -> nOps + Z.of_nat (length keys) <= MAX_OPS_PER_SCRIPT ->
  exec_multisig CheckLowS flags checker SIGVERSION_BASE verify code nOps
    (getvch (Z.of_nat (length keys)) :: keys ++ getvch (Z.of_nat (length sigs)) :: sigs ++ [] :: rest) =
  (fSuccess <- multisig_loop CheckLowS flags checker SIGVERSION_BASE (fold_left (drop_signature SIGVERSION_BASE) sigs code) keys sigs;
   ensure negb (negb fSuccess && has flags SCRIPT_VERIFY_NULLFAIL && existsb (fun sig => negb (bool_decide (sig = []))) sigs)
     or SCRIPT_ERR_SIG_NULLFAIL;
   s <- verify_result verify fSuccess SCRIPT_ERR_CHECKMULTISIGVERIFY (bool_vch fSuccess) rest;
   Accept (nOps + Z.of_nat (length keys), s)).
Proof.
  intros Hk Hs Hn. unfold exec_multisig. rewrite number_getvch by lia.
  assert (forall n, 0 <= n <= 16 -> getint n = n) as Hg.
  { intros n H. unfold getint. rewrite Z.gtb_ltb, (proj2 (Z.ltb_ge _ n)), (proj2 (Z.ltb_ge n _)) by lia. done. }
  rewrite Hg by lia. rewrite (proj2 (Z.ltb_ge _ 0)), Z.gtb_ltb, (proj2 (Z.ltb_ge MAX_PUBKEYS_PER_MULTISIG _)) by (unfold MAX_PUBKEYS_PER_MULTISIG; lia).
  cbn [orb negb]. rewrite Z.gtb_ltb, (proj2 (Z.ltb_ge MAX_OPS_PER_SCRIPT _)) by lia. cbn [negb].
  rewrite Nat2Z.id, drop_app_length, take_app_length, number_getvch, Hg by lia.
  rewrite (proj2 (Z.ltb_ge _ 0)), Z.gtb_ltb, (proj2 (Z.ltb_ge _ (Z.of_nat (length sigs)))) by lia. cbn [orb negb].
  rewrite Nat2Z.id, drop_app_length, take_app_length. destruct (multisig_loop _ _ _ _ _ _ _); [| done | done].
  rewrite (bool_decide_true ([] = [])), andb_false_r by done. done.
Qed.

(** A multisignature script, with opcodes for the two numbers. *)
Lemma multisig_avoids c m n keys script : GetScriptForMultisig m keys = Some script -> 1 <= m <= 16 -> Z.of_nat (length keys) = n -> 1 <= n <= 16 ->
  Forall (fun k => pubkey_size k = true) keys -> c < 33 \/ 65 < c < 81 -> avoids c script.
Proof.
  intros Hs Hm Hn Hn' Hk Hc. unfold GetScriptForMultisig in Hs. rewrite Hn in Hs.
  destruct (small_op m Hm) as (om & Em & _ & _ & Gm), (small_op n Hn') as (on & En & _ & _ & Gn).
  rewrite Em, En in Hs. cbn [mbind option_bind app] in Hs. injection Hs as <-.
  assert (forall k op, 1 <= k <= 16 -> EncodeOP_N k = Some op -> op <> c) as Hop.
  { intros k op Hkk. unfold EncodeOP_N, OP_1. destruct (_ && _); [| done]. rewrite (proj2 (Z.eqb_neq k 0)) by lia. intros [= <-]. lia. }
  constructor; [by apply (Hop m) |]. rewrite Gm. intros ? ? ? [= <- <- <-].
  clear Hn. induction Hk as [| k keys Hk _ IH]; cbn [map concat app].
  - constructor; [by apply (Hop n) |]. rewrite Gn. intros ? ? ? [= <- <- <-]. constructor; [unfold OP_CHECKMULTISIG; lia |].
    intros ? ? ? [= <- <- <-]. constructor.
  - rewrite <- app_assoc. apply pubkey_push in Hk as [Ek Hl].
    destruct (GetOp_push_data k (concat (map push_data keys) ++ [on; OP_CHECKMULTISIG])) as (op' & E & _); [lia |]. rewrite Ek in E |- *.
    cbn [app] in E |- *. constructor; [lia |]. rewrite E. by intros ? ? ? [= <- <- <-].
Qed.

Lemma EvalScript_multisig m keys sigs script : GetScriptForMultisig m keys = Some script -> 1 <= m -> (length keys <= 16)%nat ->
  Z.of_nat (length sigs) = m -> (length sigs <= length keys)%nat -> Forall (fun k => pubkey_size k = true) keys ->
  Forall (fun sig => (length sig < 33 \/ 65 < length sig)%nat /\ pushable sig) sigs -> well_encoded CheckLowS flags SIGVERSION_BASE sigs keys ->
  exists b, (b = true <-> assigned (valid_for checker SIGVERSION_BASE script) sigs keys) /\
    EvalScript CheckLowS flags checker SIGVERSION_BASE (rev sigs ++ [[]]) script =
      (ensure negb (negb b && has flags SCRIPT_VERIFY_NULLFAIL && existsb (fun sig => negb (bool_decide (sig = []))) (rev sigs)) or SCRIPT_ERR_SIG_NULLFAIL;
       Accept [bool_vch b]).
Proof.
  intros Hs Hm Hk Hsm Hle Hks Hsigs He.
  assert (fold_left (drop_signature SIGVERSION_BASE) (rev sigs) script = script) as Hdrop.
  { apply Forall_rev in Hsigs. induction Hsigs as [| sig l [Hl [Hl1 _]] _ IH]; [done |]. cbn [fold_left].
    assert (drop_signature SIGVERSION_BASE script sig = script) as ->; [| done]. unfold drop_signature. rewrite bool_decide_true by done.
    destruct (push_data_head sig) as (c & b & -> & Hc); [lia |]. rewrite FindAndDelete_none; [done |].
    eapply (multisig_avoids c m); [done | lia | done | lia | done |]. unfold OP_PUSHDATA1, OP_PUSHDATA2 in Hc. lia. }
  destruct (multisig_loop_assigned CheckLowS flags checker SIGVERSION_BASE script (rev keys) (rev sigs)) as (b & E & Hb).
  { destruct He. split; by apply Forall_rev. }
  exists b. split.
  { rewrite Hb. split; intros H; [| by apply assigned_rev]. apply assigned_rev in H. by rewrite !rev_involutive in H. }
  assert (exists om on, EncodeOP_N m = Some om /\ EncodeOP_N (Z.of_nat (length keys)) = Some on /\ script = om :: pushes keys ++ [on; OP_CHECKMULTISIG])
    as (om & on & Em & En & Escript).
  { unfold GetScriptForMultisig in Hs. destruct (EncodeOP_N m) as [om |]; [| done]. destruct (EncodeOP_N (Z.of_nat (length keys))) as [on |]; [| done].
    exists om, on. by injection Hs as <-. }
  assert (Forall pushable keys) as Hpk.
  { eapply Forall_impl; [exact Hks |]. intros k [_ Hl]%pubkey_push. split; lia. }
  pose proof (length_pushes keys Hpk) as Hlp.
  unfold EvalScript. rewrite Z.gtb_ltb, (proj2 (Z.ltb_ge MAX_SCRIPT_SIZE _))
    by (rewrite Escript; cbn [length]; rewrite length_app; cbn [length]; unfold MAX_SCRIPT_SIZE; lia). cbn [negb].
  change (eval_loop _ _ _ _ _ ?m script) with (run m script). rewrite Escript at 2.
  rewrite (run_num _ m) by (done || lia || cbn [stack altstack length]; rewrite length_app, length_rev; cbn [length]; lia).
  unfold with_stack. cbn [stack altstack vfExec nOpCount pbegincodehash].
  rewrite run_pushes by (done || cbn [stack altstack length]; rewrite length_app, length_rev; cbn [length]; lia).
  unfold with_stack. cbn [stack altstack vfExec nOpCount pbegincodehash].
  rewrite (run_num _ (Z.of_nat (length keys)))
    by (done || lia || cbn [stack altstack length]; rewrite !length_app, length_rev; cbn [length]; rewrite length_app, length_rev; cbn [length]; lia).
  rewrite run_op by done. change (decode_op OP_CHECKMULTISIG) with (OpCheckMultiSig false). machine.
  pose proof (exec_multisig_laid_out false script (rev keys) (rev sigs) (0 + 1) []) as Hx. rewrite !length_rev in Hx.
  rewrite <- Hsm. rewrite Hx by (unfold MAX_OPS_PER_SCRIPT; lia). rewrite Hdrop, E. destruct (negb _); [| done]. by destruct b.
Qed.
End Script.

Lemma multisig_plain m keys script : GetScriptForMultisig m keys = Some script -> 1 <= m -> Forall (fun k => pubkey_size k = true) keys ->
  keys <> [] -> IsWitnessProgram script = None /\ IsPayToScriptHash script = false.
Proof.
  intros Hs Hm Hk Hne. unfold GetScriptForMultisig in Hs. destruct (EncodeOP_N m) as [om |] eqn:Em; [| done].
  destruct (EncodeOP_N (Z.of_nat (length keys))) as [on |]; [| done]. cbn [mbind option_bind app] in Hs. injection Hs as <-.
  assert (81 <= om <= 96) as Hom.
  { revert Em. unfold EncodeOP_N, OP_1. destruct ((0 <=? m) && (m <=? 16)) eqn:E; [| done]. rewrite (proj2 (Z.eqb_neq m 0)) by lia. intros [= <-]. lia. }
  destruct keys as [| k keys]; [done |]. pose proof (Forall_inv Hk) as Hk1. apply pubkey_push in Hk1 as [Ek Hlk].
  cbn [map concat]. rewrite Ek. split.
  - unfold IsWitnessProgram. cbn [nth app length]. destruct ((_ <? _)%nat || _); [done |]. destruct (negb _ && _); [done |].
    rewrite (proj2 (Z.eqb_neq _ _)); [done |]. rewrite !length_app. cbn [length]. lia.
  - unfold IsPayToScriptHash, byte_at. cbn [nth app]. rewrite (proj2 (Z.eqb_neq om _)) by (unfold OP_HASH160; lia). by rewrite andb_false_r.
Qed.

(** ** Properties *)

(** C27: Spending a multisignature output.  For the script of
    [GetScriptForMultisig] with [m] of at most sixteen keys of the right sizes,
    and [m] signatures that are well encoded under the flags, as the keys are,
    and of sizes that neither a one-byte push nor a key has, the input is
    accepted if and only if the signatures can be assigned, in order, to keys of
    the script they are valid for: the single pass of [OP_CHECKMULTISIG] misses
    no assignment. *)
Theorem multisig_spending (CheckLowS : list Z -> bool) (checker : SignatureChecker) (flags m : Z) (keys sigs : list (list Z)) (script : list Z) :
  flags_consistent flags -> GetScriptForMultisig m keys = Some script -> 1 <= m -> Z.of_nat (length sigs) = m ->
  (length sigs <= length keys <= 16)%nat -> Forall (fun k => pubkey_size k = true) keys ->
  Forall (fun sig => (length sig < 33 \/ 65 < length sig)%nat /\ pushable sig) sigs ->
  well_encoded CheckLowS (effective flags) SIGVERSION_BASE sigs keys ->
  VerifyScript CheckLowS (OP_0 :: pushes sigs) script [] flags checker = Accept tt <->
  assigned (valid_for checker SIGVERSION_BASE script) sigs keys.
Proof.
  intros Hf Hs Hm Hsm Hl Hk Hsig He.
  assert (Forall pushable ([] :: sigs)) as Hp.
  { constructor; [by split; cbn; lia |]. eapply Forall_impl; [exact Hsig |]. by intros sig [_ ?]. }
  pose proof (EvalScript_pushes CheckLowS (effective flags) checker ([] :: sigs) Hp ltac:(cbn; lia)) as E1. cbn [rev] in E1.
  destruct (multisig_plain m keys script Hs Hm Hk) as [Hw Hsh]; [by intros ->; cbn in Hl; lia |].
  destruct (EvalScript_multisig CheckLowS (effective flags) checker m keys sigs script) as (b & Hb & E2); try done; try lia.
  rewrite <- Hb. change (OP_0 :: pushes sigs) with (pushes ([] :: sigs)).
  destruct (negb (negb b && _ && _)) eqn:Hn.
  - rewrite (VerifyScript_plain _ _ _ _ _ _ _ Hf (pushes_push_only _ Hp) Hw Hsh E1 E2). by destruct b.
  - destruct b; [done |]. unfold VerifyScript. fold (effective flags). rewrite E1, E2. rewrite (pushes_push_only _ Hp), andb_false_r. by split.
Qed.

Lemma multisig_spending_witness :
  VerifyScript (fun _ => true) (OP_0 :: pushes [replicate 70 1; replicate 70 3])
    (default [] (GetScriptForMultisig 2 [replicate 33 1; replicate 33 2; replicate 33 3])) [] SCRIPT_VERIFY_P2SH
    (mkChecker (fun sig key _ _ => List.hd 0 sig =? List.hd 0 key) (fun _ => false) (fun _ => false)) = Accept tt.
Proof.
  apply (multisig_spending _ _ _ 2 [replicate 33 1; replicate 33 2; replicate 33 3]).
  - split; vm_compute; congruence.
  - vm_compute. reflexivity.
  - lia.
  - reflexivity.
  - cbn. lia.
  - repeat constructor.
  - apply Forall_cons. split; [split; [right | split]; vm_compute; lia |]. apply Forall_singleton. split; [right | split]; vm_compute; lia.
  - split; repeat constructor.
  - apply assigned_use; [vm_compute; reflexivity |]. apply assigned_skip, assigned_use; [vm_compute; reflexivity | constructor].
Defined.
