(* ===== verification/SigCommit.v ===== *)
(** * What signatures commit to

    A signature over the whole transaction ([SIGHASH_ALL]) fixes what is
    spent, in what order, and where it goes, before segwit and since: two
    inputs with the same signature hash agree on all of it, where the hash
    function tells the strings it was applied to apart. *)

From stdpp Require Import gmap.
From S2P Require Import Prelude Bytes Serialize TxFormat Script ScriptNum Sha2 Hashes Base58 Standard Coins TxVerify Interpreter Evaluation SigHash.

(** ** Codecs are prefix free *)

Lemma encode_inj {A} (c : Codec A) (P : A -> Prop) `{!CodecOk c P} a b r s :
  P a -> P b -> encode c a ++ r = encode c b ++ s -> a = b /\ r = s.
Proof. intros Ha Hb E. pose proof (codec_ok a r Ha) as H. rewrite E, (codec_ok b s Hb) in H. by injection H. Qed.

Lemma encode_nonempty {A} (c : Codec A) (P : A -> Prop) `{!CodecOk c P} a b : a <> b -> P a -> P b -> encode c a <> [].
Proof.
  intros Hab Ha Hb E. pose proof (codec_ok a (encode c b ++ []) Ha) as H. rewrite E in H. cbn [app] in H.
  rewrite (codec_ok b [] Hb) in H. congruence.
Qed.

(** A sequence without its length is still determined, when no element is empty. *)
Lemma concat_encode_inj {A} (c : Codec A) (P : A -> Prop) `{!CodecOk c P} : (forall a, P a -> encode c a <> []) ->
  forall l l', Forall P l -> Forall P l' -> concat (map (encode c) l) = concat (map (encode c) l') -> l = l'.
Proof.
  intros Hne l l' Hl. revert l'. induction Hl as [| a l Ha Hl IH]; intros l' Hl' E; destruct Hl' as [| b l' Hb Hl']; cbn [map concat] in E.
  - done.
  - symmetry in E. apply app_eq_nil in E as [E _]. by apply Hne in E.
  - apply app_eq_nil in E as [E _]. by apply Hne in E.
  - apply (encode_inj c P) in E as [-> E]; [| done | done]. f_equal. by apply IH.
Qed.

(** ** Hashes *)

(** The hash function tells two byte strings apart. *)
Definition separates (x y : list Z) : Prop := Hash [x] = Hash [y] -> x = y.

Lemma Hash_concat parts : Hash parts = Hash [concat parts].
Proof. rewrite !Hash_double. cbn [concat]. by rewrite app_nil_r. Qed.

Lemma Hash_inj parts parts' : separates (concat parts) (concat parts') -> Hash parts = Hash parts' -> concat parts = concat parts'.
Proof. rewrite (Hash_concat parts), (Hash_concat parts'). auto. Qed.

Lemma Hash_list_inj {A} (c : Codec A) (P : A -> Prop) `{!CodecOk c P} l l' : (forall a, P a -> encode c a <> []) ->
  Forall P l -> Forall P l' -> separates (concat (map (encode c) l)) (concat (map (encode c) l')) ->
  Hash (map (encode c) l) = Hash (map (encode c) l') -> l = l'.
Proof. intros Hne Hl Hl' Hs E%Hash_inj; [| done]. by apply (concat_encode_inj c P). Qed.

(** ** Since segwit *)

(** The byte strings hashed for an input that signs everything. *)
Definition hashed_strings (code : list Z) (tx : CTransaction) (nIn : nat) (nHashType amount : Z) : list (list Z) :=
  [witness_preimage code tx nIn nHashType amount None;
   concat (map (fun i => encode COutPoint_codec (prevout i)) (vin tx));
   concat (map (fun i => encode uint32_codec (nSequence i)) (vin tx));
   concat (map (encode CTxOut_codec) (vout tx))].

Definition signs_all (nHashType : Z) : Prop :=
  has nHashType SIGHASH_ANYONECANPAY = false /\ fHashSingle nHashType = false /\ fHashNone nHashType = false.

Definition valid_cache (tx : CTransaction) (cache : option PrecomputedTransactionData) : Prop :=
  cache = None \/ cache = Some (PrecomputedTransactionData_new tx).

(** The cache changes nothing. *)
Lemma witness_preimage_cache code tx nIn nHashType amount cache : valid_cache tx cache ->
  witness_preimage code tx nIn nHashType amount cache = witness_preimage code tx nIn nHashType amount None.
Proof. intros [-> | ->]; [done |]. unfold witness_preimage, PrecomputedTransactionData_new. by destruct (HasWitness tx). Qed.

(** What everyone who signs everything agrees on. *)
Record same_spend (tx tx' : CTransaction) : Prop := {
  same_version : tx_nVersion tx = tx_nVersion tx';
  same_locktime : nLockTime tx = nLockTime tx';
  same_prevouts : map prevout (vin tx) = map prevout (vin tx');
  same_sequences : map nSequence (vin tx) = map nSequence (vin tx');
  same_outputs : vout tx = vout tx'
}.

Lemma witness_preimage_shape code tx nIn nHashType amount : exists p q o,
  length p = 32%nat /\ length q = 32%nat /\ length o = 32%nat /\
  (signs_all nHashType -> p = GetPrevoutHash tx /\ q = GetSequenceHash tx /\ o = GetOutputsHash tx) /\
  witness_preimage code tx nIn nHashType amount None =
    encode int32_codec (tx_nVersion tx) ++ p ++ q ++ encode COutPoint_codec (prevout (nth nIn (vin tx) null_txin)) ++
    encode bytes_codec code ++ encode int64_codec amount ++ encode uint32_codec (nSequence (nth nIn (vin tx) null_txin)) ++ o ++
    encode uint32_codec (nLockTime tx) ++ encode int32_codec nHashType.
Proof.
  unfold witness_preimage. do 3 eexists. split; [| split; [| split; [| split; [| reflexivity]]]].
  - destruct (negb _); [apply Hash_length | done].
  - destruct (negb _ && _); [apply Hash_length | done].
  - destruct (negb _); [apply Hash_length |]. destruct (_ && _); [apply Hash_length | done].
  - intros (-> & -> & ->). done.
Qed.

(** What is fed to the hash is in range. *)
Record input_ok (code : list Z) (tx : CTransaction) (nIn : nat) (nHashType amount : Z) : Prop := {
  input_tx : tx_ok tx;
  input_in : (nIn < length (vin tx))%nat;
  input_code : size_ok code;
  input_amount : - 2 ^ 63 <= amount < 2 ^ 63;
  input_type : - 2 ^ 31 <= nHashType < 2 ^ 31
}.

Lemma input_txin code tx nIn nHashType amount : input_ok code tx nIn nHashType amount -> txin_ok (nth nIn (vin tx) null_txin).
Proof. intros [(_ & _ & _ & Hin & _) Hl _ _ _]. rewrite Forall_nth in Hin. by apply Hin. Qed.

Lemma witness_preimage_inj code tx nIn t amount code' tx' nIn' t' amount' :
  input_ok code tx nIn t amount -> input_ok code' tx' nIn' t' amount' -> signs_all t ->
  witness_preimage code tx nIn t amount None = witness_preimage code' tx' nIn' t' amount' None ->
  tx_nVersion tx = tx_nVersion tx' /\ nLockTime tx = nLockTime tx' /\ code = code' /\ amount = amount' /\ t = t' /\
  prevout (nth nIn (vin tx) null_txin) = prevout (nth nIn' (vin tx') null_txin) /\
  GetPrevoutHash tx = GetPrevoutHash tx' /\ GetSequenceHash tx = GetSequenceHash tx' /\ GetOutputsHash tx = GetOutputsHash tx'.
Proof.
  intros H H' Ht E. pose proof (input_txin _ _ _ _ _ H) as (Ho & _ & Hq & _). pose proof (input_txin _ _ _ _ _ H') as (Ho' & _ & Hq' & _).
  destruct (witness_preimage_shape code tx nIn t amount) as (p & q & o & Lp & Lq & Lo & Hpq & Es).
  destruct (witness_preimage_shape code' tx' nIn' t' amount') as (p' & q' & o' & Lp' & Lq' & Lo' & Hpq' & Es').
  rewrite Es, Es' in E. clear Es Es'. destruct H as [(Hv & Hlk & _) _ Hc Ha Hty], H' as [(Hv' & Hlk' & _) _ Hc' Ha' Hty'].
  apply (encode_inj int32_codec _) in E as [Ev E]; [| done | done].
  apply app_inj_1 in E as [-> E]; [| lia]. apply app_inj_1 in E as [-> E]; [| lia].
  apply (encode_inj COutPoint_codec _) in E as [Eo E]; [| done | done].
  apply (encode_inj bytes_codec _) in E as [-> E]; [| done | done].
  apply (encode_inj int64_codec _) in E as [-> E]; [| done | done].
  apply (encode_inj uint32_codec _) in E as [Eq E]; [| done | done].
  apply app_inj_1 in E as [-> E]; [| lia].
  apply (encode_inj uint32_codec _) in E as [El E]; [| done | done].
  rewrite <- (app_nil_r (encode int32_codec t)), <- (app_nil_r (encode int32_codec t')) in E.
  apply (encode_inj int32_codec _) in E as [-> _]; [| done | done].
  destruct (Hpq Ht) as (-> & -> & ->), (Hpq' Ht) as (Ep & Es & Eu).
  repeat (split; [assumption || reflexivity |]). assumption.
Qed.

Lemma app_cons_nonempty {A} (l r : list A) : (0 < length l)%nat -> l ++ r <> [].
Proof. by destruct l; cbn; [lia |]. Qed.

Lemma witness_commits code code' tx tx' nIn nIn' t t' amount amount' cache cache' :
  input_ok code tx nIn t amount -> input_ok code' tx' nIn' t' amount' -> signs_all t -> valid_cache tx cache -> valid_cache tx' cache' ->
  SignatureHash code tx nIn t amount SIGVERSION_WITNESS_V0 cache = SignatureHash code' tx' nIn' t' amount' SIGVERSION_WITNESS_V0 cache' ->
  Forall2 separates (hashed_strings code tx nIn t amount) (hashed_strings code' tx' nIn' t' amount') ->
  same_spend tx tx' /\ code = code' /\ amount = amount' /\ t = t' /\
  prevout (nth nIn (vin tx) null_txin) = prevout (nth nIn' (vin tx') null_txin).
Proof.
  intros H H' Ht Hc Hc' E Hs. unfold SignatureHash in E. pose proof (input_in _ _ _ _ _ H) as Hl. pose proof (input_in _ _ _ _ _ H') as Hl'.
  rewrite (proj2 (Nat.ltb_lt _ _) Hl), (proj2 (Nat.ltb_lt _ _) Hl') in E. cbn [negb] in E.
  rewrite (witness_preimage_cache _ _ _ _ _ _ Hc), (witness_preimage_cache _ _ _ _ _ _ Hc') in E. apply (inj Some) in E.
  unfold hashed_strings in Hs. apply Forall2_cons in Hs as [Hw Hs]. apply Forall2_cons in Hs as [Hp Hs]. apply Forall2_cons in Hs as [Hq Hs].
  apply Forall2_cons in Hs as [Ho _]. apply Hw in E.
  apply witness_preimage_inj in E as (Ev & El & -> & -> & -> & Epo & Ep & Eq & Eo); [| done | done | done].
  destruct (input_tx _ _ _ _ _ H) as (_ & _ & _ & Hi & _ & Hos), (input_tx _ _ _ _ _ H') as (_ & _ & _ & Hi' & _ & Hos').
  split; [| repeat (split; [reflexivity |]); exact Epo]. split; [exact Ev | exact El | | |].
  - unfold GetPrevoutHash in Ep. rewrite <- !(map_map prevout (encode COutPoint_codec)) in Ep, Hp.
    apply (Hash_list_inj COutPoint_codec outpoint_ok) in Ep; [exact Ep | | | | exact Hp].
    + intros a _. apply app_cons_nonempty. cbn [encode uint256_codec]. rewrite length_le_encode. lia.
    + apply Forall_map. eapply Forall_impl; [exact Hi |]. by intros i (? & _).
    + apply Forall_map. eapply Forall_impl; [exact Hi' |]. by intros i (? & _).
  - unfold GetSequenceHash in Eq. rewrite <- !(map_map nSequence (encode uint32_codec)) in Eq, Hq.
    apply (Hash_list_inj uint32_codec uint32_range) in Eq; [exact Eq | | | | exact Hq].
    + intros a _ H0%(f_equal length). cbn in H0. lia.
    + apply Forall_map. eapply Forall_impl; [exact Hi |]. by intros i (_ & _ & ? & _).
    + apply Forall_map. eapply Forall_impl; [exact Hi' |]. by intros i (_ & _ & ? & _).
  - unfold GetOutputsHash in Eo. apply (Hash_list_inj CTxOut_codec txout_ok) in Eo; [exact Eo | | exact Hos | exact Hos' | exact Ho].
    intros a _. apply app_cons_nonempty. cbn [encode int64_codec]. unfold ser_writedata64. rewrite length_le_encode. lia.
Qed.

(** ** Before segwit *)

(** The script without its code separators, and whether all of it is
    instructions. *)
Fixpoint strip_separators (fuel : nat) (pc : list Z) : list Z :=
  match fuel, GetOp pc with
  | S fuel, Some (opcode, _, rest) => (if opcode =? OP_CODESEPARATOR then [] else between pc rest) ++ strip_separators fuel rest
  | _, _ => []
  end.

Fixpoint parses (fuel : nat) (pc : list Z) : bool :=
  match pc with
  | [] => true
  | _ => match fuel, GetOp pc with S fuel, Some (_, _, rest) => parses fuel rest | _, _ => false end
  end.

Lemma GetOp_between pc opcode vch rest : GetOp pc = Some (opcode, vch, rest) ->
  exists ins, pc = ins ++ rest /\ ins <> [] /\ (opcode = OP_CODESEPARATOR -> ins = [OP_CODESEPARATOR]).
Proof.
  destruct pc as [| c pc]; [done |]. intros (-> & n & k & n' & -> & -> & Hn)%GetOp_split. exists (c :: take n' pc).
  split; [cbn; by rewrite take_drop |]. split; [done |]. intros ->. rewrite Hn by done. by rewrite take_0.
Qed.

Lemma between_app ins rest : between (ins ++ rest) rest = ins.
Proof. unfold between. rewrite length_app, Nat.add_sub. by rewrite take_app_length. Qed.

(** The pieces written are the script without separators; [sofar] is the
    piece being collected. *)
Lemma write_pieces_strip fuel : forall sofar it, (length it <= fuel)%nat -> parses fuel it = true ->
  write_pieces fuel (sofar ++ it) it = sofar ++ strip_separators fuel it /\
  Z.of_nat (length (strip_separators fuel it)) = Z.of_nat (length it) - count_separators fuel it.
Proof.
  induction fuel as [| fuel IH]; intros sofar it Hl Hp.
  { destruct it; [| cbn in Hl; lia]. cbn. by rewrite between_app, app_nil_r. }
  cbn [write_pieces strip_separators count_separators]. destruct it as [| c it]; [cbn; by rewrite between_app, app_nil_r |].
  cbn [parses] in Hp. destruct (GetOp (c :: it)) as [[[opcode vch] rest] |] eqn:Hop; [| done].
  destruct (GetOp_between _ _ _ _ Hop) as (ins & E & Hne & Hsep). rewrite E in Hl |- *. rewrite length_app in Hl.
  assert (0 < length ins)%nat by (destruct ins; [done | cbn; lia]).
  destruct (Z.eqb_spec opcode OP_CODESEPARATOR) as [-> | Hno].
  - rewrite Hsep in * by done. destruct (IH [] rest) as [IH1 IH2]; [lia | done |]. cbn [app] in IH1. rewrite IH1. split.
    + rewrite app_assoc, between_app, removelast_last. done.
    + cbn [app length] in *. lia.
  - destruct (IH (sofar ++ ins) rest) as [IH1 IH2]; [lia | done |]. rewrite <- app_assoc in IH1. rewrite IH1, between_app. split.
    + by rewrite <- app_assoc.
    + rewrite !length_app. lia.
Qed.

Definition strip (code : list Z) : list Z := strip_separators (length code) code.

Lemma SerializeScriptCode_strip code : parses (length code) code = true -> SerializeScriptCode code = encode bytes_codec (strip code).
Proof.
  intros Hp. destruct (write_pieces_strip (length code) [] code) as [E1 E2]; [done | done |]. cbn [app] in E1.
  unfold SerializeScriptCode. rewrite E1, <- E2. cbn [encode bytes_codec]. by rewrite bytes_encode_eq.
Qed.

(** The transaction as it is signed: only the input signed has a script. *)
Definition blank (code : list Z) (tx : CTransaction) (nIn : nat) : CTransaction :=
  mkTransaction (imap (fun k i => mkTxIn (prevout i) (if (k =? nIn)%nat then strip code else []) (nSequence i) []) (vin tx))
    (vout tx) (tx_nVersion tx) (nLockTime tx).

Lemma map_seq_nth {A B} (g : nat -> A -> B) (l : list A) (d : A) : map (fun k => g k (nth k l d)) (seq 0 (length l)) = imap g l.
Proof.
  revert g. induction l as [| x l IH]; intros g; [done |]. cbn [length seq map imap nth]. f_equal.
  rewrite <- seq_shift, map_map, <- IH. done.
Qed.

Lemma concat_inputs (g : nat -> CTxIn -> CTxIn) l : concat (map (encode CTxIn_codec) (imap g l)) = concat (imap (fun k i => encode CTxIn_codec (g k i)) l).
Proof. f_equal. by rewrite fmap_imap. Qed.

(** The serializer for signing writes the blanked transaction. *)
Lemma Serialize_blank tx code nIn nHashType : signs_all nHashType -> parses (length code) code = true ->
  SignatureSerializer_Serialize tx code nIn nHashType = SerializeTransaction false (blank code tx nIn).
Proof.
  intros (Ha & Hs & Hn) Hp. rewrite SerializeTransaction_basic by done. unfold SignatureSerializer_Serialize.
  unfold fAnyoneCanPay. rewrite Ha, Hs, Hn. cbn [blank tx_nVersion vin vout nLockTime]. f_equal. unfold vin_codec, vout_codec.
  cbn [encode vector_codec]. unfold vector_encode. rewrite length_imap, <- !app_assoc. f_equal.
  assert (concat (map (SerializeInput tx code nIn nHashType) (seq 0 (length (vin tx)))) =
          concat (map (encode CTxIn_codec) (imap (fun k i => mkTxIn (prevout i) (if (k =? nIn)%nat then strip code else []) (nSequence i) []) (vin tx))))
    as ->.
  { rewrite concat_inputs, <- (map_seq_nth _ _ null_txin). f_equal. apply map_ext. intros k. unfold SerializeInput, fAnyoneCanPay.
    rewrite Ha, Hs, Hn. cbn [orb]. rewrite andb_false_r. cbn [encode CTxIn_codec prevout scriptSig nSequence].
    by destruct (k =? nIn)%nat; cbn [negb]; rewrite ?SerializeScriptCode_strip by done. }
  f_equal. f_equal. f_equal. f_equal.
  transitivity (map (fun k => encode CTxOut_codec (nth k (vout tx) null_txout)) (seq 0 (length (vout tx)))).
  - apply map_ext. intros k. unfold SerializeOutput. by rewrite Hs.
  - rewrite (map_seq_nth (fun _ o => encode CTxOut_codec o)). apply (imap_const (encode CTxOut_codec)).
Qed.

Lemma count_separators_nonneg fuel : forall pc, 0 <= count_separators fuel pc.
Proof.
  induction fuel as [| n IH]; intros pc; [done |]. cbn [count_separators]. destruct (GetOp pc) as [[[op v] r] |]; [| done].
  specialize (IH r). destruct (op =? _); lia.
Qed.

Lemma blank_ok code tx nIn : tx_ok tx -> size_ok code -> parses (length code) code = true -> tx_ok (blank code tx nIn).
Proof.
  intros (Hv & Hl & Hs & Hi & Ho & Hos) Hc Hp. unfold tx_ok, size_ok. cbn [blank tx_nVersion nLockTime vin vout]. rewrite length_imap.
  do 3 (split; [done |]). split; [| done]. apply Forall_lookup. intros k i. rewrite list_lookup_imap.
  destruct (vin tx !! k) as [j |] eqn:E; [| done]. intros [= <-]. rewrite Forall_lookup in Hi. destruct (Hi k j E) as (H1 & _ & H3 & _).
  split; [done |]. split; [| split; [done | split; [done | constructor]]]. cbn [scriptSig]. destruct (k =? nIn)%nat; [| done]. unfold size_ok, strip in *.
  destruct (write_pieces_strip (length code) [] code) as [_ ->]; [done | done |].
  pose proof (count_separators_nonneg (length code) code). lia.
Qed.

(** Equal blanked transactions. *)
Lemma blank_same code code' tx tx' nIn nIn' : (nIn < length (vin tx))%nat -> blank code tx nIn = blank code' tx' nIn' ->
  same_spend tx tx' /\ (strip code <> [] -> nIn = nIn' /\ strip code = strip code').
Proof.
  unfold blank. intros Hl [= Ei Eo Ev El]. split.
  - split; try done.
    + apply (f_equal (map prevout)) in Ei. by rewrite !fmap_imap, !(imap_const prevout) in Ei.
    + apply (f_equal (map nSequence)) in Ei. by rewrite !fmap_imap, !(imap_const nSequence) in Ei.
  - intros Hne. apply (f_equal (fun l => l !! nIn)) in Ei. rewrite !list_lookup_imap in Ei.
    destruct (lookup_lt_is_Some_2 _ _ Hl) as [i Hi]. rewrite Hi in Ei. cbn [fmap option_fmap option_map] in Ei.
    destruct (vin tx' !! nIn) as [i' |]; [| done]. injection Ei as _ Es _. rewrite Nat.eqb_refl in Es.
    destruct (Nat.eqb_spec nIn nIn'); [done | congruence].
Qed.

Lemma legacy_commits code code' tx tx' nIn nIn' t t' amount amount' cache cache' :
  input_ok code tx nIn t amount -> input_ok code' tx' nIn' t' amount' -> signs_all t -> signs_all t' ->
  SignatureHash code tx nIn t amount SIGVERSION_BASE cache = SignatureHash code' tx' nIn' t' amount' SIGVERSION_BASE cache' ->
  parses (length code) code = true -> parses (length code') code' = true ->
  separates (SerializeTransaction false (blank code tx nIn) ++ encode int32_codec t)
    (SerializeTransaction false (blank code' tx' nIn') ++ encode int32_codec t') ->
  same_spend tx tx' /\ t = t' /\ (strip code <> [] -> nIn = nIn' /\ strip code = strip code').
Proof.
  intros H H' Ht Ht' E Hp Hp' Hs. unfold SignatureHash in E. pose proof (input_in _ _ _ _ _ H) as Hl. pose proof (input_in _ _ _ _ _ H') as Hl'.
  rewrite (proj2 (Nat.ltb_lt _ _) Hl), (proj2 (Nat.ltb_lt _ _) Hl') in E. cbn [negb] in E.
  rewrite (Serialize_blank tx), (Serialize_blank tx') in E by done. destruct Ht as (_ & Hsg & _), Ht' as (_ & Hsg' & _).
  rewrite Hsg, Hsg' in E. cbn [andb] in E. apply (inj Some) in E. rewrite Hash_concat, (Hash_concat [SerializeTransaction _ (blank code' _ _); _]) in E.
  cbn [concat] in E. rewrite !app_nil_r in E. apply Hs in E.
  assert (forall c x n, strip_witness (blank c x n) = blank c x n) as Hb.
  { intros c x n. unfold strip_witness, blank. cbn [vin vout tx_nVersion nLockTime]. f_equal. by rewrite fmap_imap. }
  pose proof (transaction_read false (blank code tx nIn) (encode int32_codec t)) as R.
  pose proof (transaction_read false (blank code' tx' nIn') (encode int32_codec t')) as R'. rewrite Hb in R, R'. rewrite E in R.
  destruct H as [Htx _ Hc _ Hty], H' as [Htx' _ Hc' _ Hty'].
  rewrite R' in R by (auto using blank_ok). specialize (R ltac:(auto using blank_ok) ltac:(auto)). apply (inj Some), pair_eq in R as [Eb Et].
  apply eq_sym, blank_same in Eb as [? ?]; [| done]. split; [done |]. split; [| done].
  rewrite <- (app_nil_r (encode int32_codec t)), <- (app_nil_r (encode int32_codec t')) in Et.
  apply (encode_inj int32_codec _) in Et as [-> _]; done.
Qed.

(** ** Properties *)

(** C15: A signature of everything commits to everything.  Let two inputs of
    transactions in range be signed with [SIGHASH_ALL] and have the same
    signature hash.  Since segwit, if the hash function tells the byte strings it
    was applied to apart, the two transactions spend the same outputs in the
    same order with the same sequence numbers, pay the same outputs and have the
    same version and lock time, and the script codes, the amounts, the hash types
    and the outputs the two inputs spend agree.  Before segwit, for script codes
    that parse, the transactions agree likewise and so do the hash types; the
    script codes agree after their [OP_CODESEPARATOR]s are removed, and the
    positions of the inputs too, unless nothing is left of the code.  The cache
    of partial hashes makes no difference. *)
Theorem signature_commits (code code' : list Z) (tx tx' : CTransaction) (nIn nIn' : nat) (t t' amount amount' : Z)
    (cache cache' : option PrecomputedTransactionData) :
  input_ok code tx nIn t amount -> input_ok code' tx' nIn' t' amount' -> signs_all t -> signs_all t' ->
  valid_cache tx cache -> valid_cache tx' cache' ->
  (SignatureHash code tx nIn t amount SIGVERSION_WITNESS_V0 cache = SignatureHash code' tx' nIn' t' amount' SIGVERSION_WITNESS_V0 cache' ->
   Forall2 separates (hashed_strings code tx nIn t amount) (hashed_strings code' tx' nIn' t' amount') ->
   same_spend tx tx' /\ code = code' /\ amount = amount' /\ t = t' /\
   prevout (nth nIn (vin tx) null_txin) = prevout (nth nIn' (vin tx') null_txin)) /\
  (SignatureHash code tx nIn t amount SIGVERSION_BASE cache = SignatureHash code' tx' nIn' t' amount' SIGVERSION_BASE cache' ->
   parses (length code) code = true -> parses (length code') code' = true ->
   separates (SerializeTransaction false (blank code tx nIn) ++ encode int32_codec t)
     (SerializeTransaction false (blank code' tx' nIn') ++ encode int32_codec t') ->
   same_spend tx tx' /\ t = t' /\ (strip code <> [] -> nIn = nIn' /\ strip code = strip code')).
Proof.
  intros H H' Ht Ht' Hc Hc'. split.
  - by apply witness_commits.
  - by apply legacy_commits.
Qed.

(** A transaction with two inputs, and the same one before it was signed. *)
Definition two_inputs (witness : list (list Z)) : CTransaction :=
  mkTransaction [mkTxIn (5, 0) [] SEQUENCE_FINAL witness; mkTxIn (6, 1) [0x51] 7 []] [mkTxOut 1000 [0x51]] 2 0.
Definition some_code : list Z := [0x51; OP_CODESEPARATOR; 0x52].

Lemma signature_commits_witness :
  same_spend (two_inputs [[1]]) (two_inputs []) /\ some_code = some_code /\ 1000 = 1000 /\ SIGHASH_ALL = SIGHASH_ALL /\
  prevout (nth 0 (vin (two_inputs [[1]])) null_txin) = prevout (nth 0 (vin (two_inputs [])) null_txin).
Proof.
  apply (signature_commits some_code some_code (two_inputs [[1]]) (two_inputs []) 0 0 SIGHASH_ALL SIGHASH_ALL 1000 1000
           (Some (PrecomputedTransactionData_new (two_inputs [[1]]))) None).
  1, 2: split; [| cbn; lia | done | lia | done];
    split; [done |]; split; [done |]; split; [done |]; split; [| split; [done |]]; repeat constructor; done.
  1, 2: split; [| split]; reflexivity.
  - by right.
  - by left.
  - vm_compute. reflexivity.
  - repeat apply Forall2_cons_2; try apply Forall2_nil_2; intros _; vm_compute; reflexivity.
Defined.
