(* ===== verification/LruCache.v ===== *)
(** * The least-recently-used cache ([CLRUCache], [src/assets/assettypes.h])

    A [CLRUCache] is a [std::list] of key-value pairs, the most recently used
    first, and an [unordered_map] from the keys to iterators into that list.
    [Module Iterators] models both, with the nodes of the list named by
    numbers: an iterator is the number of a node, and using one that is not
    in the list is undefined behaviour ([None]).  [Module Lru] is what the
    class promises, a list of pairs with distinct keys.  [cache_refines] shows
    that no trace of operations reaches undefined behaviour, that each gives
    the same observations as the list, and that the size stays within the
    largest [maxSize] that was set. *)

From stdpp Require Import gmap list fin_maps.
From S2P Require Import Prelude.

(** ** The promise *)

Module Lru.
Section Lru.
Context {K V : Type} `{EqDecision K}.

Record Lru := mkLru { items : list (K * V); maxSize : Z }.

Definition without (k : K) (l : list (K * V)) : list (K * V) := filter (fun p => p.1 <> k) l.

Definition find (k : K) (l : list (K * V)) : option V := snd <$> List.find (fun p => bool_decide (p.1 = k)) l.

Definition Exists (c : Lru) (k : K) : bool := bool_decide (is_Some (find k (items c))).

Definition Put (c : Lru) (k : K) (v : V) : Lru :=
  let l := (k, v) :: without k (items c) in
  mkLru (if Z.of_nat (length l) >? maxSize c then removelast l else l) (maxSize c).

Definition Erase (c : Lru) (k : K) : Lru := mkLru (without k (items c)) (maxSize c).

(** [None] is the exception of a missing key. *)
Definition Get (c : Lru) (k : K) : option (V * Lru) :=
  v ← find k (items c); Some (v, mkLru ((k, v) :: without k (items c)) (maxSize c)).

Definition Size (c : Lru) : Z := Z.of_nat (length (items c)).

Definition Clear (c : Lru) : Lru := mkLru [] (maxSize c).

Definition SetNull (c : Lru) : Lru := mkLru [] 0.

(** The entries stay, also when they are more than the new size. *)
Definition SetSize (c : Lru) (size : Z) : Lru := mkLru (items c) size.

Lemma length_without k (l : list (K * V)) : (length (without k l) <= length l)%nat.
Proof. apply length_filter. Qed.

Lemma find_length k v (l : list (K * V)) : find k l = Some v -> (S (length (without k l)) <= length l)%nat.
Proof.
  unfold find, without. induction l as [| p l IH]; [done |]. cbn [List.find]. case_bool_decide as E.
  - intros _. rewrite filter_cons_False by auto. cbn. apply le_n_S, length_filter.
  - intros Hf. rewrite filter_cons_True by done. cbn. apply le_n_S. by apply IH.
Qed.

Lemma length_removelast {A} (l : list A) : l <> [] -> S (length (removelast l)) = length l.
Proof. intros Hl. destruct (exists_last Hl) as (init & x & ->). rewrite removelast_last, length_app. cbn. lia. Qed.

(** [Put] replaces the last entry when there is no room. *)
Lemma length_Put c k v b : Size c <= b -> maxSize c <= b -> Size (Put c k v) <= b.
Proof.
  unfold Size, Put. cbn [items]. intros Hb Hm. pose proof (length_without k (items c)).
  destruct (Z.gtb_spec (Z.of_nat (length ((k, v) :: without k (items c)))) (maxSize c)) as [Hg | Hg]; [| lia].
  pose proof (length_removelast ((k, v) :: without k (items c)) ltac:(done)) as E. cbn [length] in E. lia.
Qed.

(** What is found after each operation. *)

Lemma find_without k j (l : list (K * V)) : find j (without k l) = if decide (k = j) then None else find j l.
Proof.
  unfold find, without. induction l as [|[k' v] l IH]; [by case_decide|]. cbn [List.find fst].
  destruct (decide (k' <> k)) as [Hn|Hn].
  - rewrite filter_cons_True by done. cbn [List.find fst]. case_bool_decide; [|done]. subst. cbn.
    by rewrite decide_False by auto.
  - rewrite filter_cons_False by done. rewrite IH. case_decide; [done|]. apply dec_stable in Hn. subst.
    by rewrite bool_decide_eq_false_2.
Qed.

Lemma find_cons k v j (l : list (K * V)) : find j ((k, v) :: l) = if decide (k = j) then Some v else find j l.
Proof. unfold find. cbn. case_decide; [by rewrite bool_decide_eq_true_2|by rewrite bool_decide_eq_false_2]. Qed.

Lemma find_removelast j (l : list (K * V)) w : find j (removelast l) = Some w -> find j l = Some w.
Proof.
  induction l as [|[k v] l IH]; [done|]. cbn [removelast]. destruct l as [|p l]; [done|].
  rewrite !find_cons. case_decide; auto.
Qed.

Lemma find_Put c k v j w : find j (items (Put c k v)) = Some w -> (k = j /\ w = v) \/ (k <> j /\ find j (items c) = Some w).
Proof.
  unfold Put. cbn [items]. intros Hf.
  assert (Hg : find j ((k, v) :: without k (items c)) = Some w) by (destruct (_ >? _); [by apply find_removelast|done]).
  rewrite find_cons, find_without in Hg. case_decide; [left|right]; by simplify_eq.
Qed.

Lemma find_Erase c k j : find j (items (Erase c k)) = if decide (k = j) then None else find j (items c).
Proof. apply find_without. Qed.

Lemma find_Get c k v c' j : Get c k = Some (v, c') -> find j (items c') = find j (items c).
Proof.
  unfold Get. destruct (find k (items c)) as [v'|] eqn:Ef; [|done]. cbn. intros [= -> <-]. cbn [items].
  rewrite find_cons, find_without. case_decide; by subst.
Qed.

Lemma Exists_Put c k v j : Exists (Put c k v) j = true -> k = j \/ Exists c j = true.
Proof.
  unfold Exists. rewrite !bool_decide_eq_true. intros [w Hw]. apply find_Put in Hw as [[-> _]|[_ Hw]]; eauto.
Qed.

Lemma Exists_Erase c k j : Exists (Erase c k) j = true -> k <> j /\ Exists c j = true.
Proof.
  unfold Exists. rewrite !bool_decide_eq_true, find_Erase. case_decide; [by intros []|done].
Qed.
End Lru.
Arguments Lru : clear implicits.
End Lru.

(** ** The code *)

Module Iterators.
Section Cache.
Context {K V : Type} `{Countable K}.

(** A node is its address and the pair it holds; [next] is a fresh address. *)
Record CLRUCache := mkCache {
  cacheItemsList : list (nat * (K * V));
  cacheItemsMap : gmap K nat;
  maxSize : Z;
  next : nat
}.

(** [list::erase] of an iterator. *)
Fixpoint erase_node (it : nat) (l : list (nat * (K * V))) : option (list (nat * (K * V))) :=
  match l with
  | [] => None
  | n :: l => if (n.1 =? it)%nat then Some l else l' ← erase_node it l; Some (n :: l')
  end.

(** Dereferencing an iterator. *)
Fixpoint node_at (it : nat) (l : list (nat * (K * V))) : option (K * V) :=
  match l with
  | [] => None
  | n :: l => if (n.1 =? it)%nat then Some n.2 else node_at it l
  end.

Definition Put (c : CLRUCache) (key : K) (value : V) : option CLRUCache :=
  let it := cacheItemsMap c !! key in
  let list := (next c, (key, value)) :: cacheItemsList c in
  '(list, map) ← match it with
                 | Some it => list ← erase_node it list; Some (list, delete key (cacheItemsMap c))
                 | None => Some (list, cacheItemsMap c)
                 end;
  let map := <[key := next c]> map in
  if Z.of_nat (size map) >? maxSize c then
    last ← List.last (Some <$> list) None;
    Some (mkCache (removelast list) (delete (snd last).1 map) (maxSize c) (S (next c)))
  else Some (mkCache list map (maxSize c) (S (next c))).

Definition Erase (c : CLRUCache) (key : K) : option CLRUCache :=
  match cacheItemsMap c !! key with
  | None => Some c
  | Some it =>
      list ← erase_node it (cacheItemsList c);
      Some (mkCache list (delete key (cacheItemsMap c)) (maxSize c) (next c))
  end.

(** What [Get] does: [inr] is the value and the cache after [splice], [inl]
    the [range_error]. *)
Definition Get (c : CLRUCache) (key : K) : option (unit + V * CLRUCache) :=
  match cacheItemsMap c !! key with
  | None => Some (inl ())
  | Some it =>
      n ← node_at it (cacheItemsList c);
      list ← erase_node it (cacheItemsList c);
      Some (inr (n.2, mkCache ((it, n) :: list) (cacheItemsMap c) (maxSize c) (next c)))
  end.

Definition Exists (c : CLRUCache) (key : K) : bool := bool_decide (is_Some (cacheItemsMap c !! key)).

Definition Size (c : CLRUCache) : Z := Z.of_nat (size (cacheItemsMap c)).

Definition Clear (c : CLRUCache) : CLRUCache := mkCache [] ∅ (maxSize c) (next c).

(** The constructor with a size, and [SetNull]. *)
Definition new (max_size : Z) : CLRUCache := mkCache [] ∅ max_size 0.

Definition SetNull (c : CLRUCache) : CLRUCache := mkCache [] ∅ 0 (next c).

Definition SetSize (c : CLRUCache) (size : Z) : CLRUCache :=
  mkCache (cacheItemsList c) (cacheItemsMap c) size (next c).

(** The copy constructor: the list is copied into nodes of its own, the map
    with its iterators as they are. *)
Definition copy (c : CLRUCache) : CLRUCache :=
  let n := length (cacheItemsList c) in
  mkCache (zip (seq (next c) n) (map snd (cacheItemsList c))) (cacheItemsMap c) (maxSize c) (next c + n).
End Cache.
Arguments CLRUCache : clear implicits.
Arguments CLRUCache K V {_ _}.
End Iterators.

(** ** The cache refines its promise *)

Section Refinement.
Context {K V : Type} `{Countable K}.
Import Iterators.

Abbreviation node := (nat * (K * V))%type.

Definition index (l : list node) : list (K * nat) := (fun n => (n.2.1, n.1)) <$> l.
Definition keys (l : list node) : list K := (fun n => n.2.1) <$> l.

(** Nodes and keys are distinct and the map is the index of the list. *)
Definition wf (c : CLRUCache K V) : Prop :=
  NoDup (keys (cacheItemsList c)) /\ NoDup (cacheItemsList c).*1 /\
  Forall (fun n => n.1 < next c)%nat (cacheItemsList c) /\
  cacheItemsMap c = list_to_map (index (cacheItemsList c)).

Definition abs (c : CLRUCache K V) : Lru.Lru K V := Lru.mkLru (cacheItemsList c).*2 (maxSize c).

Lemma index_keys l : (index l).*1 = keys l.
Proof. unfold index, keys. by rewrite <- list_fmap_compose. Qed.

Lemma map_size l : NoDup (keys l) -> size (list_to_map (index l) : gmap K nat) = length l.
Proof.
  intros Hk. rewrite <- length_map_to_list, map_to_list_to_map by (by rewrite index_keys).
  unfold index. by rewrite length_fmap.
Qed.

Lemma index_lookup l k it :
  NoDup (keys l) -> (list_to_map (index l) : gmap K nat) !! k = Some it ->
  exists l1 v l2, l = l1 ++ (it, (k, v)) :: l2 /\ k ∉ keys l1 /\ k ∉ keys l2.
Proof.
  intros Hk Hl. apply elem_of_list_to_map_2 in Hl. unfold index in Hl.
  apply list_elem_of_fmap in Hl as ([it' [k' v]] & [= -> ->] & Hin).
  apply list_elem_of_split in Hin as (l1 & l2 & ->). exists l1, v, l2. split; [done|].
  unfold keys in *. rewrite fmap_app, fmap_cons in Hk. cbn in Hk.
  apply NoDup_app in Hk as (_ & Hd & Hc). apply NoDup_cons in Hc as [Hn _].
  split; [|done]. intros Hin. apply (Hd _ Hin). apply list_elem_of_here.
Qed.

Lemma index_absent l k : (list_to_map (index l) : gmap K nat) !! k = None -> k ∉ keys l.
Proof. intros Hl. apply not_elem_of_list_to_map in Hl. by rewrite index_keys in Hl. Qed.

Lemma erase_node_split it p (l1 l2 : list node) : it ∉ l1.*1 -> erase_node it (l1 ++ (it, p) :: l2) = Some (l1 ++ l2).
Proof.
  induction l1 as [|[i q] l1 IH]; cbn; intros Hn; [by rewrite Nat.eqb_refl|].
  rewrite not_elem_of_cons in Hn. destruct Hn as [Hi Hn].
  rewrite (proj2 (Nat.eqb_neq _ _)) by done. by rewrite IH.
Qed.

Lemma node_at_split it p (l1 l2 : list node) : it ∉ l1.*1 -> node_at it (l1 ++ (it, p) :: l2) = Some p.
Proof.
  induction l1 as [|[i q] l1 IH]; cbn; intros Hn; [by rewrite Nat.eqb_refl|].
  rewrite not_elem_of_cons in Hn. destruct Hn as [Hi Hn].
  rewrite (proj2 (Nat.eqb_neq _ _)) by done. by rewrite IH.
Qed.

Lemma without_absent k (l : list node) : k ∉ keys l -> Lru.without k l.*2 = l.*2.
Proof.
  unfold Lru.without, keys. induction l as [|[i [k' v]] l IH]; [done|]. rewrite !fmap_cons, not_elem_of_cons. intros [Hk Hn].
  rewrite filter_cons_True by auto. by rewrite IH.
Qed.

Lemma without_split k it v (l1 l2 : list node) : k ∉ keys l1 -> k ∉ keys l2 ->
  Lru.without k (l1 ++ (it, (k, v)) :: l2).*2 = (l1 ++ l2).*2.
Proof.
  intros H1 H2. rewrite !fmap_app, fmap_cons. unfold Lru.without. rewrite filter_app, filter_cons_False by auto.
  fold (Lru.without k l1.*2) (Lru.without k l2.*2). by rewrite !without_absent.
Qed.

Lemma find_absent k (l : list node) : k ∉ keys l -> Lru.find k l.*2 = None.
Proof.
  unfold Lru.find. induction l as [|[i [k' v]] l IH]; cbn; [done|]. rewrite not_elem_of_cons. intros [Hk Hn].
  rewrite bool_decide_eq_false_2 by done. by apply IH.
Qed.

Lemma find_split k it v (l1 l2 : list node) : k ∉ keys l1 -> Lru.find k (l1 ++ (it, (k, v)) :: l2).*2 = Some v.
Proof.
  unfold Lru.find. induction l1 as [|[i [k' v']] l1 IH]; cbn; [by rewrite bool_decide_eq_true_2|].
  rewrite not_elem_of_cons. intros [Hk Hn]. rewrite bool_decide_eq_false_2 by done. by apply IH.
Qed.

Lemma delete_split k it v (l1 l2 : list node) : k ∉ keys l1 -> k ∉ keys l2 ->
  delete k (list_to_map (index (l1 ++ (it, (k, v)) :: l2)) : gmap K nat) = list_to_map (index (l1 ++ l2)).
Proof.
  intros H1 H2. unfold index. rewrite !fmap_app, fmap_cons, !list_to_map_app, delete_union. cbn.
  rewrite delete_insert_id, delete_id; [done| |]; apply not_elem_of_list_to_map; by rewrite index_keys.
Qed.

Lemma keys_app (l1 l2 : list node) : keys (l1 ++ l2) = keys l1 ++ keys l2.
Proof. apply fmap_app. Qed.

(** What is left of a well-formed cache without a node. *)
Lemma wf_split c k it v l1 l2 :
  wf c -> cacheItemsList c = l1 ++ (it, (k, v)) :: l2 ->
  NoDup (keys (l1 ++ l2)) /\ NoDup (l1 ++ l2).*1 /\ Forall (fun n => n.1 < next c)%nat (l1 ++ l2) /\
  (it < next c)%nat /\ it ∉ (l1 ++ l2).*1.
Proof.
  intros (Hk & Hn & Hf & _) E. rewrite E in *. rewrite keys_app in *. cbn in Hk. rewrite fmap_app, fmap_cons in *. cbn in Hn.
  rewrite <- Permutation_middle in Hk, Hn. apply NoDup_cons in Hk as [_ Hk]. apply NoDup_cons in Hn as [Hi Hn].
  apply Forall_app in Hf as [Hf1 Hf2]. apply Forall_cons in Hf2 as [Hit Hf2]. repeat split; try done.
  by apply Forall_app.
Qed.

Lemma wf_lookup c k : wf c ->
  match cacheItemsMap c !! k with
  | None => k ∉ keys (cacheItemsList c)
  | Some it => exists l1 v l2, cacheItemsList c = l1 ++ (it, (k, v)) :: l2 /\ k ∉ keys l1 /\ k ∉ keys l2 /\ it ∉ l1.*1
  end.
Proof.
  intros (Hk & Hn & _ & Hm). destruct (cacheItemsMap c !! k) as [it|] eqn:E; rewrite Hm in E.
  - destruct (index_lookup _ _ _ Hk E) as (l1 & v & l2 & El & H1 & H2). exists l1, v, l2. repeat split; try done.
    rewrite El, fmap_app in Hn. apply NoDup_app in Hn as (_ & Hd & _). intros Hin. apply (Hd _ Hin). apply list_elem_of_here.
  - by apply index_absent.
Qed.

Lemma Exists_spec c k : wf c -> Exists c k = Lru.Exists (abs c) k.
Proof.
  intros Hwf. unfold Exists, Lru.Exists, abs. cbn [Lru.items]. pose proof (wf_lookup c k Hwf) as Hl.
  destruct (cacheItemsMap c !! k) as [it|].
  - destruct Hl as (l1 & v & l2 & -> & Hk & _). by rewrite (find_split k it v l1 l2 Hk).
  - by rewrite find_absent.
Qed.

Lemma Size_spec c : wf c -> Size c = Lru.Size (abs c).
Proof. intros (Hk & _ & _ & Hm). unfold Size, Lru.Size, abs. cbn. by rewrite Hm, map_size, length_fmap. Qed.

Lemma Erase_spec c k : wf c -> exists c', Erase c k = Some c' /\ wf c' /\ abs c' = Lru.Erase (abs c) k.
Proof.
  intros Hwf. unfold Erase. pose proof (wf_lookup c k Hwf) as Hl. destruct (cacheItemsMap c !! k) as [it|].
  - destruct Hl as (l1 & v & l2 & El & Hk1 & Hk2 & Hi). destruct (wf_split _ _ _ _ _ _ Hwf El) as (Hk & Hn & Hf & _).
    destruct Hwf as (_ & _ & _ & Hm). rewrite El in *. rewrite erase_node_split by done. eexists. split; [reflexivity|].
    split; [|unfold abs, Lru.Erase; cbn [cacheItemsList maxSize Lru.items Lru.maxSize];
              by rewrite El, without_split by done].
    repeat split; cbn [cacheItemsList cacheItemsMap maxSize next]; try done. by rewrite Hm, delete_split.
  - exists c. repeat split; try apply Hwf. unfold abs, Lru.Erase. cbn [Lru.items Lru.maxSize]. by rewrite without_absent.
Qed.

Lemma Get_spec c k : wf c ->
  match Lru.Get (abs c) k with
  | None => Get c k = Some (inl ())
  | Some (v, a) => exists c', Get c k = Some (inr (v, c')) /\ wf c' /\ abs c' = a
  end.
Proof.
  intros Hwf. unfold Get, Lru.Get, abs. cbn [Lru.items Lru.maxSize]. pose proof (wf_lookup c k Hwf) as Hl. destruct (cacheItemsMap c !! k) as [it|].
  - destruct Hl as (l1 & v & l2 & El & Hk1 & Hk2 & Hi). destruct (wf_split _ _ _ _ _ _ Hwf El) as (Hk & Hn & Hf & Hlt & Hit).
    destruct Hwf as (_ & _ & _ & Hm). rewrite El in *. rewrite find_split by done. cbn.
    rewrite node_at_split, erase_node_split by done. cbn. eexists. split; [reflexivity|].
    split; [|unfold abs; cbn [cacheItemsList maxSize]; by rewrite without_split].
    assert (Hmid : (it, (k, v)) :: l1 ++ l2 ≡ₚ l1 ++ (it, (k, v)) :: l2) by apply Permutation_middle.
    assert (Hkk : NoDup (keys ((it, (k, v)) :: l1 ++ l2))).
    { cbn. apply NoDup_cons. split; [|done]. rewrite keys_app, elem_of_app. tauto. }
    repeat split; cbn [cacheItemsList cacheItemsMap maxSize next]; try done.
    + cbn. apply NoDup_cons. done.
    + by apply Forall_cons.
    + rewrite Hm. apply list_to_map_proper; [|unfold index; by rewrite Hmid]. rewrite index_keys.
      unfold keys. by rewrite <- Hmid.
  - by rewrite find_absent.
Qed.

(** The list and the map of [Put] before the eviction. *)
Lemma Put_front c k v : wf c ->
  exists L, match cacheItemsMap c !! k with
            | Some it => list ← erase_node it ((next c, (k, v)) :: cacheItemsList c); Some (list, delete k (cacheItemsMap c))
            | None => Some ((next c, (k, v)) :: cacheItemsList c, cacheItemsMap c)
            end = Some ((next c, (k, v)) :: L, list_to_map (index L)) /\
    NoDup (keys ((next c, (k, v)) :: L)) /\ NoDup ((next c, (k, v)) :: L).*1 /\
    Forall (fun n => n.1 < S (next c))%nat ((next c, (k, v)) :: L) /\
    L.*2 = Lru.without k (cacheItemsList c).*2.
Proof.
  intros Hwf. pose proof (wf_lookup c k Hwf) as Hl.
  assert (Hfresh : forall L : list node, Forall (fun n => n.1 < next c)%nat L ->
    Forall (fun n => n.1 < S (next c))%nat ((next c, (k, v)) :: L) /\ next c ∉ L.*1).
  { intros L HL. split; [apply Forall_cons; split; [cbn; lia|]; eapply Forall_impl; [exact HL|cbn; lia]|].
    intros (n & E & Hin)%list_elem_of_fmap. rewrite Forall_forall in HL. specialize (HL n Hin). lia. }
  destruct (cacheItemsMap c !! k) as [it|].
  - destruct Hl as (l1 & v' & l2 & El & Hk1 & Hk2 & Hi). destruct (wf_split _ _ _ _ _ _ Hwf El) as (Hk & Hn & Hf & Hlt & _).
    destruct Hwf as (_ & _ & _ & Hm). destruct (Hfresh _ Hf) as [Hf' Hnn]. rewrite El in *. exists (l1 ++ l2).
    cbn [erase_node]. rewrite (proj2 (Nat.eqb_neq _ _)) by (cbn; lia). rewrite erase_node_split by done. cbn [mbind option_bind].
    rewrite Hm, delete_split, without_split by done.
    repeat split; try done.
    + cbn. apply NoDup_cons. split; [|done]. rewrite keys_app, elem_of_app. tauto.
    + rewrite fmap_cons. by apply NoDup_cons.
  - destruct Hwf as (Hk & Hn & Hf & Hm). destruct (Hfresh _ Hf) as [Hf' Hnn]. exists (cacheItemsList c).
    rewrite <- Hm, without_absent by done. repeat split; try done; [cbn; by apply NoDup_cons|].
    rewrite fmap_cons. by apply NoDup_cons.
Qed.

Lemma last_snoc_Some {A} (l : list A) x : List.last (Some <$> (l ++ [x])) None = Some x.
Proof. rewrite fmap_app. apply last_last. Qed.

Lemma Put_spec c k v : wf c -> exists c', Put c k v = Some c' /\ wf c' /\ abs c' = Lru.Put (abs c) k v.
Proof.
  intros Hwf. destruct (Put_front c k v Hwf) as (L & E & Hk & Hn & Hf & Hs).
  unfold Put, Lru.Put, abs. cbn [Lru.items Lru.maxSize]. rewrite E. cbn [mbind option_bind].
  change (<[k := next c]> (list_to_map (index L)) : gmap K nat)
    with (list_to_map (index ((next c, (k, v)) :: L)) : gmap K nat).
  rewrite map_size, <- Hs by done.
  change ((k, v) :: L.*2) with ((next c, (k, v)) :: L).*2. rewrite length_fmap.
  destruct (exists_last (l := (next c, (k, v)) :: L) ltac:(done)) as (init & [i [k' v']] & El).
  assert (Hlen : length ((next c, (k, v)) :: L) = S (length init)) by (rewrite El, length_app; cbn; lia).
  cbn [length] in Hlen. rewrite El in *. destruct (Z.gtb_spec (Z.of_nat (length (init ++ [(i, (k', v'))]))) (maxSize c)) as [Hg|Hg].
  - rewrite last_snoc_Some. cbn [mbind option_bind]. eexists. split; [reflexivity|].
    rewrite fmap_app. cbn [fmap list_fmap]. rewrite !removelast_last. split; [|done].
    rewrite keys_app, fmap_app in *. apply NoDup_app in Hk as (Hk & Hd & _). apply NoDup_app in Hn as (Hn & _ & _).
    apply Forall_app in Hf as [Hf _]. repeat split; cbn [cacheItemsList cacheItemsMap maxSize next]; try done.
    rewrite delete_split; [by rewrite app_nil_r| |by apply not_elem_of_nil]. intros Hin. apply (Hd _ Hin). apply list_elem_of_here.
  - eexists. split; [reflexivity|]. repeat split; cbn [cacheItemsList cacheItemsMap maxSize next]; done.
Qed.

(** ** Traces *)

Inductive LruOp := OpPut (k : K) (v : V) | OpErase (k : K) | OpGet (k : K) | OpExists (k : K) | OpSize | OpClear
| OpSetNull | OpSetSize (n : Z) | OpMaxSize.

Inductive LruObs := Quiet | Missing | Value (v : V) | Found (b : bool) | Sized (n : Z).

Definition run_op (c : CLRUCache K V) (op : LruOp) : option (LruObs * CLRUCache K V) :=
  match op with
  | OpPut k v => c ← Put c k v; Some (Quiet, c)
  | OpErase k => c ← Erase c k; Some (Quiet, c)
  | OpGet k => r ← Get c k; Some (match r with inl _ => (Missing, c) | inr (v, c) => (Value v, c) end)
  | OpExists k => Some (Found (Exists c k), c)
  | OpSize => Some (Sized (Size c), c)
  | OpClear => Some (Quiet, Clear c)
  | OpSetNull => Some (Quiet, SetNull c)
  | OpSetSize n => Some (Quiet, SetSize c n)
  | OpMaxSize => Some (Sized (maxSize c), c)
  end.

Definition spec_op (c : Lru.Lru K V) (op : LruOp) : LruObs * Lru.Lru K V :=
  match op with
  | OpPut k v => (Quiet, Lru.Put c k v)
  | OpErase k => (Quiet, Lru.Erase c k)
  | OpGet k => match Lru.Get c k with None => (Missing, c) | Some (v, c) => (Value v, c) end
  | OpExists k => (Found (Lru.Exists c k), c)
  | OpSize => (Sized (Lru.Size c), c)
  | OpClear => (Quiet, Lru.Clear c)
  | OpSetNull => (Quiet, Lru.SetNull c)
  | OpSetSize n => (Quiet, Lru.SetSize c n)
  | OpMaxSize => (Sized (Lru.maxSize c), c)
  end.

Fixpoint run (c : CLRUCache K V) (ops : list LruOp) : option (list LruObs * CLRUCache K V) :=
  match ops with
  | [] => Some ([], c)
  | op :: ops => '(o, c) ← run_op c op; '(os, c) ← run c ops; Some (o :: os, c)
  end.

Fixpoint spec_run (c : Lru.Lru K V) (ops : list LruOp) : list LruObs * Lru.Lru K V :=
  match ops with
  | [] => ([], c)
  | op :: ops => let '(o, c) := spec_op c op in let '(os, c) := spec_run c ops in (o :: os, c)
  end.

Lemma run_op_spec c op : wf c ->
  exists o c', run_op c op = Some (o, c') /\ wf c' /\ spec_op (abs c) op = (o, abs c').
Proof.
  intros Hwf. destruct op as [k v|k|k|k| | | |m|]; cbn [run_op spec_op].
  - destruct (Put_spec c k v Hwf) as (c' & -> & Hwf' & <-). by exists Quiet, c'.
  - destruct (Erase_spec c k Hwf) as (c' & -> & Hwf' & <-). by exists Quiet, c'.
  - pose proof (Get_spec c k Hwf) as HG. destruct (Lru.Get (abs c) k) as [[v a]|].
    + destruct HG as (c' & -> & Hwf' & <-). by exists (Value v), c'.
    + rewrite HG. by exists Missing, c.
  - exists (Found (Exists c k)), c. by rewrite Exists_spec.
  - exists (Sized (Size c)), c. by rewrite (Size_spec c Hwf).
  - exists Quiet, (Clear c). repeat split; cbn; try constructor; apply Hwf.
  - exists Quiet, (SetNull c). repeat split; cbn; try constructor; apply Hwf.
  - exists Quiet, (SetSize c m). by split.
  - by exists (Sized (maxSize c)), c.
Qed.

Lemma run_spec ops : forall c, wf c -> exists os c', run c ops = Some (os, c') /\ wf c' /\ spec_run (abs c) ops = (os, abs c').
Proof.
  induction ops as [|op ops IH]; intros c Hwf; [by exists [], c|]. cbn [run spec_run].
  destruct (run_op_spec c op Hwf) as (o & c1 & -> & Hwf1 & ->). cbn [mbind option_bind].
  destruct (IH c1 Hwf1) as (os & c2 & -> & Hwf2 & ->). by exists (o :: os), c2.
Qed.

(** The largest size that was ever set. *)
Definition capacity (max : Z) (ops : list LruOp) : Z :=
  fold_left (fun b op => match op with OpSetSize n => Z.max b n | _ => b end) ops max.

Lemma capacity_ge ops : forall max, max <= capacity max ops.
Proof. induction ops as [| op ops IH]; intros max; cbn; [lia |]. pose proof (IH max). destruct op; try done. etransitivity; [| apply IH]. lia. Qed.

Lemma spec_op_bound a op b : 0 <= b -> Lru.Size a <= b -> Lru.maxSize a <= b ->
  let b' := match op with OpSetSize n => Z.max b n | _ => b end in
  Lru.Size (snd (spec_op a op)) <= b' /\ Lru.maxSize (snd (spec_op a op)) <= b'.
Proof.
  intros H0 Hs Hm. destruct op as [k v|k|k|k| | | |m|]; cbn [spec_op snd]; try done.
  - split; [by apply Lru.length_Put | done].
  - split; [| done]. unfold Lru.Size in *. cbn. pose proof (Lru.length_without k (Lru.items a)). lia.
  - unfold Lru.Get. destruct (Lru.find k (Lru.items a)) as [v |] eqn:E; [| done]. split; [| done].
    apply Lru.find_length in E. unfold Lru.Size in *. cbn [mbind option_bind snd Lru.items length]. lia.
  - unfold Lru.Size in *. cbn in *. lia.
Qed.

Lemma spec_run_bound ops : forall a b, 0 <= b -> Lru.Size a <= b -> Lru.maxSize a <= b ->
  Lru.Size (snd (spec_run a ops)) <= capacity b ops.
Proof.
  induction ops as [| op ops IH]; intros a b H0 Hs Hm; [done |]. cbn [spec_run].
  pose proof (spec_op_bound a op b H0 Hs Hm) as [Hs1 Hm1]. destruct (spec_op a op) as [o a1]. cbn [snd] in Hs1, Hm1.
  pose proof (fun H => IH a1 _ H Hs1 Hm1) as Hb. cbn [capacity fold_left]. destruct (spec_run a1 ops).
  apply Hb. destruct op; lia.
Qed.

Lemma new_wf m : wf (new m).
Proof. repeat split; cbn; constructor. Qed.
End Refinement.

(** C31: A [CLRUCache] made with room for [max] entries never follows a
    dangling iterator, whatever sequence of [Put], [Erase], [Get], [Exists],
    [Size], [Clear], [SetNull], [SetSize] and [MaxSize] it runs; it answers
    like the list of its entries in order of use, from which [Put] drops one
    entry when it overflows; and it never holds more entries than the largest
    size it was ever given (setting a smaller size drops nothing), in particular
    at most [max] when the size is never raised above it.  The cache itself
    must not be a copy of another: [copy_dangling] shows why. *)
Theorem cache_refines {K V : Type} `{Countable K} (max : Z) (ops : list (LruOp (K := K) (V := V))) :
  0 <= max ->
  exists obs c, run (Iterators.new max) ops = Some (obs, c) /\
    spec_run (Lru.mkLru [] max) ops = (obs, abs c) /\
    0 <= Iterators.Size c <= capacity max ops /\
    (Forall (fun op => match op with OpSetSize n => n <= max | _ => True end) ops -> Iterators.Size c <= max).
Proof.
  intros Hm. destruct (run_spec ops _ (new_wf max)) as (os & c & Hr & Hwf & Hs).
  exists os, c. split; [done|]. split; [exact Hs|].
  pose proof (spec_run_bound ops (Lru.mkLru [] max) max Hm ltac:(unfold Lru.Size; cbn; lia) ltac:(cbn; lia)) as Hb.
  change (Lru.mkLru [] max) with (abs (Iterators.new (K := K) (V := V) max)) in Hb. rewrite Hs in Hb. cbn [snd] in Hb.
  rewrite (Size_spec c Hwf). split; [unfold Lru.Size in *; lia |]. intros Hall.
  assert (capacity max ops = max) as E; [| lia]. clear -Hall. unfold capacity. induction Hall as [| op ops Hop _ IH]; [done |].
  cbn. destruct op; try done. by rewrite Z.max_l.
Qed.

Definition example_ops : list (LruOp (K := Z) (V := Z)) :=
  [OpPut 1 10; OpPut 2 20; OpGet 1; OpPut 3 30; OpExists 2; OpGet 1; OpErase 3; OpPut 1 11; OpGet 3; OpSize; OpGet 1; OpSetSize 1; OpPut 4 40; OpSize; OpSetNull; OpMaxSize].

Lemma cache_refines_witness :
  spec_run (Lru.mkLru [] 2) example_ops =
    ([Quiet; Quiet; Value 10; Quiet; Found false; Value 10; Quiet; Quiet; Missing; Sized 1; Value 11; Quiet; Quiet; Sized 1; Quiet; Sized 0], Lru.mkLru [] 0) /\
  exists obs c, run (Iterators.new 2) example_ops = Some (obs, c) /\
    spec_run (Lru.mkLru [] 2) example_ops = (obs, abs c) /\
    0 <= Iterators.Size c <= 2 /\
    (Forall (fun op => match op with OpSetSize n => n <= 2 | _ => True end) example_ops -> Iterators.Size c <= 2).
Proof. split; [vm_compute; reflexivity|]. apply (cache_refines 2 example_ops). lia. Defined.

(** A copy of a cache keeps iterators into the list it was copied from: the
    first use of an entry of the copy is undefined. *)
Lemma copy_dangling {K V : Type} `{Countable K} (c : Iterators.CLRUCache K V) k :
  wf c -> Iterators.Exists c k = true ->
  Iterators.Exists (Iterators.copy c) k = true /\ Iterators.Erase (Iterators.copy c) k = None /\ Iterators.Get (Iterators.copy c) k = None.
Proof.
  intros Hwf He. pose proof (wf_lookup c k Hwf) as Hl. unfold Iterators.Exists, Iterators.Erase, Iterators.Get in *.
  cbn [Iterators.copy Iterators.cacheItemsMap Iterators.cacheItemsList] in *.
  destruct (Iterators.cacheItemsMap c !! k) as [it|] eqn:E; [|done]. split; [done|].
  destruct Hl as (l1 & v & l2 & El & _). destruct (wf_split _ _ _ _ _ _ Hwf El) as (_ & _ & _ & Hlt & _).
  generalize (map snd (Iterators.cacheItemsList c)) as l. intros l. generalize (length (Iterators.cacheItemsList c)) as n. intros n.
  assert (Hnone : forall (l : list (K * V)) n m, (it < m)%nat ->
    Iterators.erase_node it (zip (seq m n) l) = None /\ Iterators.node_at it (zip (seq m n) l) = None).
  { intros l0. induction l0 as [|p l0 IH]; intros [|n0] m Hm; cbn; try done. rewrite (proj2 (Nat.eqb_neq _ _)) by lia.
    destruct (IH n0 (S m) ltac:(lia)) as [-> ->]. done. }
  destruct (Hnone l n _ Hlt) as [-> ->]. done.
Qed.
