(* ===== verification/AssetsCache.v ===== *)
(** * The assets cache ([CAssetsCache] in [src/assets/assets.cpp])

    The state of the assets of the chain: which exist and with what metadata,
    which addresses carry a tag or are frozen, which restricted assets are
    frozen everywhere, their verifier strings, and with [-assetindex] the
    balances.  It lives in layers: the cache of the block being connected
    ([this]), the cache of the tip ([passets]), the least-recently-used caches
    and the two databases, together the record [Globals].

    A [std::set] of entries whose [operator<] compares only a key is a map
    from that key to the entry, into which [insert] puts nothing when the key
    is there.  The pair of sets [...ToAdd] and [...ToRemove] the code keeps for
    each kind of change is a [Dirty].  Sets are iterated in the order of their
    keys ([items]).  The null pointers the code tests for before [init] has
    built the caches do not occur here, nor do failing writes, which are in
    [AssetsDump]. *)

From stdpp Require Import gmap list fin_maps sorting.
From S2P Require Import Prelude Bytes Text StrEncodings Coins Serialize TxFormat Script AssetFormat AssetNames Hashes Base58 Standard NullAssets LruCache.

(** ** Iteration order *)

(** [operator<] of the keys, as "not greater". *)
Class KeyOrder (K : Type) := key_le : K -> K -> bool.

(** [std::string]: lexicographic on unsigned characters. *)
Fixpoint string_le (a b : list Z) : bool :=
  match a, b with
  | [], _ => true
  | _ :: _, [] => false
  | x :: a, y :: b => (x <? y) || ((x =? y) && string_le a b)
  end.

#[export] Instance string_order : KeyOrder (list Z) := string_le.

(** The keys with an asset name and an address. *)
#[export] Instance pair_order : KeyOrder (list Z * list Z) :=
  fun a b => negb (string_le b.1 a.1) || (bool_decide (a.1 = b.1) && string_le a.2 b.2).

(** [COutPoint]: [memcmp] of the hashes, then the index. *)
#[export] Instance outpoint_order : KeyOrder COutPoint :=
  fun a b =>
    let ha := le_encode 32 a.1 in let hb := le_encode 32 b.1 in
    negb (string_le hb ha) || (bool_decide (ha = hb) && (a.2 <=? b.2)).

Section Sets.
Context {K E : Type} `{Countable K, !KeyOrder K}.

Definition items (m : gmap K E) : list (K * E) := merge_sort (fun a b => key_le a.1 b.1) (map_to_list m).

(** [std::set::insert] and [count]. *)
Definition set_insert (k : K) (e : E) (s : gmap K E) : gmap K E := match s !! k with Some _ => s | None => <[k := e]> s end.
Definition count (k : K) (s : gmap K E) : bool := bool_decide (is_Some (s !! k)).

(** A pair of sets of changes, made and undone. *)
Record Dirty := mkDirty { toAdd : gmap K E; toRemove : gmap K E }.

Definition clean : Dirty := mkDirty ∅ ∅.

(** Recording a change: an older entry of the same key in [toAdd] is kept by
    the first pair and overwritten by the second. *)
Definition add (k : K) (e : E) (d : Dirty) : Dirty := mkDirty (set_insert k e (toAdd d)) (delete k (toRemove d)).
Definition remove (k : K) (e : E) (d : Dirty) : Dirty := mkDirty (delete k (toAdd d)) (set_insert k e (toRemove d)).
Definition add_over (k : K) (e : E) (d : Dirty) : Dirty := mkDirty (<[k := e]> (toAdd d)) (delete k (toRemove d)).
Definition remove_over (k : K) (e : E) (d : Dirty) : Dirty := mkDirty (delete k (toAdd d)) (<[k := e]> (toRemove d)).

(** The two loops of [Flush] for one pair of sets. *)
Definition flush_with (add remove : K -> E -> Dirty -> Dirty) (d p : Dirty) : Dirty :=
  let p := foldl (fun p '(k, e) => add k e p) p (items (toAdd d)) in
  foldl (fun p '(k, e) => remove k e p) p (items (toRemove d)).

Definition flush_keep : Dirty -> Dirty -> Dirty := flush_with add remove.
Definition flush_over : Dirty -> Dirty -> Dirty := flush_with add_over remove_over.
End Sets.
Arguments Dirty K E {_ _}.

(** ** Entries *)

Inductive QualifierType := REMOVE_QUALIFIER | ADD_QUALIFIER.

Inductive RestrictedType := UNFREEZE_ADDRESS | FREEZE_ADDRESS | GLOBAL_UNFREEZE | GLOBAL_FREEZE.

#[export] Instance QualifierType_eq_dec : EqDecision QualifierType.
Proof. solve_decision. Defined.
#[export] Instance RestrictedType_eq_dec : EqDecision RestrictedType.
Proof. solve_decision. Defined.

Record CAssetCacheNewAsset := mkCacheNewAsset {
  cn_asset : CNewAsset; cn_address : list Z; cn_blockHeight : Z; cn_blockHash : Z
}.

(** Keyed by the outpoint of the reissue. *)
Record CAssetCacheReissueAsset := mkCacheReissue {
  cr_reissue : CReissueAsset; cr_address : list Z; cr_blockHeight : Z; cr_blockHash : Z
}.

(** Keyed by the outpoint of the transfer. *)
Record CAssetCacheNewTransfer := mkCacheTransfer { ct_transfer : CAssetTransfer; ct_address : list Z }.

Record CAssetCacheRestrictedVerifiers := mkCacheVerifier { cv_verifier : list Z; fUndoingRessiue : bool }.

(** [CAssetCacheUndoAssetAmount] and [CAssetCacheSpendAsset]. *)
Record AmountChange := mkAmountChange { ac_assetName : list Z; ac_address : list Z; ac_nAmount : Z }.

Record CBlockAssetUndo := mkBlockAssetUndo {
  fChangedIPFS : bool; fChangedANS : bool; fChangedUnits : bool;
  undo_strIPFS : list Z; undo_strANSID : list Z; undo_nUnits : Z;
  fChangedVerifierString : bool; undo_verifierString : list Z
}.

Record CDatabasedAssetData := mkDatabased { db_asset : CNewAsset; db_nHeight : Z; db_blockHash : Z }.

(** ** State *)

Record CAssetsCache := mkAssetsCache {
  mapAssetsAddressAmount : gmap (list Z * list Z) Z;           (* asset, address *)
  mapReissuedAssetData : gmap (list Z) CNewAsset;
  vUndoAssetAmount : list AmountChange;
  vSpentAssets : list AmountChange;
  setNewAssets : Dirty (list Z) CAssetCacheNewAsset;
  setNewReissue : Dirty COutPoint CAssetCacheReissueAsset;
  setNewOwnerAssets : Dirty (list Z) (list Z);                 (* asset; address *)
  setNewTransferAssets : Dirty COutPoint CAssetCacheNewTransfer;
  setNewQualifierAddress : Dirty (list Z * list Z) QualifierType;
  setNewRestrictedAddress : Dirty (list Z * list Z) RestrictedType;
  setNewRestrictedGlobal : Dirty (list Z) RestrictedType;
  setNewRestrictedVerifier : Dirty (list Z) CAssetCacheRestrictedVerifiers;
  mapRootQualifierAddressesAdd : gmap (list Z * list Z) (gset (list Z));     (* root, address *)
  mapRootQualifierAddressesRemove : gmap (list Z * list Z) (gset (list Z))
}.

(** A new cache, and what [ClearDirtyCache] leaves. *)
Definition no_assets : CAssetsCache := mkAssetsCache ∅ ∅ [] [] clean clean clean clean clean clean clean clean ∅ ∅.

Definition ClearDirtyCache (c : CAssetsCache) : CAssetsCache := no_assets.

Record CAssetsDB := mkAssetsDB {
  db_assets : gmap (list Z) CDatabasedAssetData;
  db_assetAddress : gmap (list Z * list Z) Z;          (* asset, address *)
  db_addressAsset : gmap (list Z * list Z) Z;          (* address, asset *)
  db_blockUndo : gmap Z (list (list Z * CBlockAssetUndo))
}.

Record CRestrictedDB := mkRestrictedDB {
  db_verifiers : gmap (list Z) (list Z);
  db_addressQualifier : gset (list Z * list Z);        (* address, tag *)
  db_qualifierAddress : gset (list Z * list Z);        (* tag, address *)
  db_restrictedAddress : gset (list Z * list Z);       (* address, asset *)
  db_globalRestriction : gset (list Z)
}.

Record Globals := mkGlobals {
  passets : CAssetsCache;
  passetsCache : Lru.Lru (list Z) CDatabasedAssetData;
  passetsVerifierCache : Lru.Lru (list Z) (list Z);
  passetsQualifierCache : Lru.Lru (list Z) Z;
  passetsRestrictionCache : Lru.Lru (list Z) Z;
  passetsGlobalRestrictionCache : Lru.Lru (list Z) Z;
  passetsdb : CAssetsDB;
  prestricteddb : CRestrictedDB
}.

(** *** Field updates *)

Definition with_amounts (c : CAssetsCache) x : CAssetsCache :=
  mkAssetsCache x (mapReissuedAssetData c) (vUndoAssetAmount c) (vSpentAssets c) (setNewAssets c) (setNewReissue c) (setNewOwnerAssets c) (setNewTransferAssets c) (setNewQualifierAddress c) (setNewRestrictedAddress c) (setNewRestrictedGlobal c) (setNewRestrictedVerifier c) (mapRootQualifierAddressesAdd c) (mapRootQualifierAddressesRemove c).
Definition with_reissued (c : CAssetsCache) x : CAssetsCache :=
  mkAssetsCache (mapAssetsAddressAmount c) x (vUndoAssetAmount c) (vSpentAssets c) (setNewAssets c) (setNewReissue c) (setNewOwnerAssets c) (setNewTransferAssets c) (setNewQualifierAddress c) (setNewRestrictedAddress c) (setNewRestrictedGlobal c) (setNewRestrictedVerifier c) (mapRootQualifierAddressesAdd c) (mapRootQualifierAddressesRemove c).
Definition with_undone (c : CAssetsCache) x : CAssetsCache :=
  mkAssetsCache (mapAssetsAddressAmount c) (mapReissuedAssetData c) x (vSpentAssets c) (setNewAssets c) (setNewReissue c) (setNewOwnerAssets c) (setNewTransferAssets c) (setNewQualifierAddress c) (setNewRestrictedAddress c) (setNewRestrictedGlobal c) (setNewRestrictedVerifier c) (mapRootQualifierAddressesAdd c) (mapRootQualifierAddressesRemove c).
Definition with_spent (c : CAssetsCache) x : CAssetsCache :=
  mkAssetsCache (mapAssetsAddressAmount c) (mapReissuedAssetData c) (vUndoAssetAmount c) x (setNewAssets c) (setNewReissue c) (setNewOwnerAssets c) (setNewTransferAssets c) (setNewQualifierAddress c) (setNewRestrictedAddress c) (setNewRestrictedGlobal c) (setNewRestrictedVerifier c) (mapRootQualifierAddressesAdd c) (mapRootQualifierAddressesRemove c).
Definition with_assets (c : CAssetsCache) x : CAssetsCache :=
  mkAssetsCache (mapAssetsAddressAmount c) (mapReissuedAssetData c) (vUndoAssetAmount c) (vSpentAssets c) x (setNewReissue c) (setNewOwnerAssets c) (setNewTransferAssets c) (setNewQualifierAddress c) (setNewRestrictedAddress c) (setNewRestrictedGlobal c) (setNewRestrictedVerifier c) (mapRootQualifierAddressesAdd c) (mapRootQualifierAddressesRemove c).
Definition with_reissues (c : CAssetsCache) x : CAssetsCache :=
  mkAssetsCache (mapAssetsAddressAmount c) (mapReissuedAssetData c) (vUndoAssetAmount c) (vSpentAssets c) (setNewAssets c) x (setNewOwnerAssets c) (setNewTransferAssets c) (setNewQualifierAddress c) (setNewRestrictedAddress c) (setNewRestrictedGlobal c) (setNewRestrictedVerifier c) (mapRootQualifierAddressesAdd c) (mapRootQualifierAddressesRemove c).
Definition with_owners (c : CAssetsCache) x : CAssetsCache :=
  mkAssetsCache (mapAssetsAddressAmount c) (mapReissuedAssetData c) (vUndoAssetAmount c) (vSpentAssets c) (setNewAssets c) (setNewReissue c) x (setNewTransferAssets c) (setNewQualifierAddress c) (setNewRestrictedAddress c) (setNewRestrictedGlobal c) (setNewRestrictedVerifier c) (mapRootQualifierAddressesAdd c) (mapRootQualifierAddressesRemove c).
Definition with_transfers (c : CAssetsCache) x : CAssetsCache :=
  mkAssetsCache (mapAssetsAddressAmount c) (mapReissuedAssetData c) (vUndoAssetAmount c) (vSpentAssets c) (setNewAssets c) (setNewReissue c) (setNewOwnerAssets c) x (setNewQualifierAddress c) (setNewRestrictedAddress c) (setNewRestrictedGlobal c) (setNewRestrictedVerifier c) (mapRootQualifierAddressesAdd c) (mapRootQualifierAddressesRemove c).
Definition with_qualifiers (c : CAssetsCache) x : CAssetsCache :=
  mkAssetsCache (mapAssetsAddressAmount c) (mapReissuedAssetData c) (vUndoAssetAmount c) (vSpentAssets c) (setNewAssets c) (setNewReissue c) (setNewOwnerAssets c) (setNewTransferAssets c) x (setNewRestrictedAddress c) (setNewRestrictedGlobal c) (setNewRestrictedVerifier c) (mapRootQualifierAddressesAdd c) (mapRootQualifierAddressesRemove c).
Definition with_restricted (c : CAssetsCache) x : CAssetsCache :=
  mkAssetsCache (mapAssetsAddressAmount c) (mapReissuedAssetData c) (vUndoAssetAmount c) (vSpentAssets c) (setNewAssets c) (setNewReissue c) (setNewOwnerAssets c) (setNewTransferAssets c) (setNewQualifierAddress c) x (setNewRestrictedGlobal c) (setNewRestrictedVerifier c) (mapRootQualifierAddressesAdd c) (mapRootQualifierAddressesRemove c).
Definition with_globals (c : CAssetsCache) x : CAssetsCache :=
  mkAssetsCache (mapAssetsAddressAmount c) (mapReissuedAssetData c) (vUndoAssetAmount c) (vSpentAssets c) (setNewAssets c) (setNewReissue c) (setNewOwnerAssets c) (setNewTransferAssets c) (setNewQualifierAddress c) (setNewRestrictedAddress c) x (setNewRestrictedVerifier c) (mapRootQualifierAddressesAdd c) (mapRootQualifierAddressesRemove c).
Definition with_verifiers (c : CAssetsCache) x : CAssetsCache :=
  mkAssetsCache (mapAssetsAddressAmount c) (mapReissuedAssetData c) (vUndoAssetAmount c) (vSpentAssets c) (setNewAssets c) (setNewReissue c) (setNewOwnerAssets c) (setNewTransferAssets c) (setNewQualifierAddress c) (setNewRestrictedAddress c) (setNewRestrictedGlobal c) x (mapRootQualifierAddressesAdd c) (mapRootQualifierAddressesRemove c).
Definition with_roots_add (c : CAssetsCache) x : CAssetsCache :=
  mkAssetsCache (mapAssetsAddressAmount c) (mapReissuedAssetData c) (vUndoAssetAmount c) (vSpentAssets c) (setNewAssets c) (setNewReissue c) (setNewOwnerAssets c) (setNewTransferAssets c) (setNewQualifierAddress c) (setNewRestrictedAddress c) (setNewRestrictedGlobal c) (setNewRestrictedVerifier c) x (mapRootQualifierAddressesRemove c).
Definition with_roots_remove (c : CAssetsCache) x : CAssetsCache :=
  mkAssetsCache (mapAssetsAddressAmount c) (mapReissuedAssetData c) (vUndoAssetAmount c) (vSpentAssets c) (setNewAssets c) (setNewReissue c) (setNewOwnerAssets c) (setNewTransferAssets c) (setNewQualifierAddress c) (setNewRestrictedAddress c) (setNewRestrictedGlobal c) (setNewRestrictedVerifier c) (mapRootQualifierAddressesAdd c) x.

Definition set_passets (g : Globals) x : Globals :=
  mkGlobals x (passetsCache g) (passetsVerifierCache g) (passetsQualifierCache g) (passetsRestrictionCache g) (passetsGlobalRestrictionCache g) (passetsdb g) (prestricteddb g).
Definition set_passetsCache (g : Globals) x : Globals :=
  mkGlobals (passets g) x (passetsVerifierCache g) (passetsQualifierCache g) (passetsRestrictionCache g) (passetsGlobalRestrictionCache g) (passetsdb g) (prestricteddb g).
Definition set_verifierCache (g : Globals) x : Globals :=
  mkGlobals (passets g) (passetsCache g) x (passetsQualifierCache g) (passetsRestrictionCache g) (passetsGlobalRestrictionCache g) (passetsdb g) (prestricteddb g).
Definition set_qualifierCache (g : Globals) x : Globals :=
  mkGlobals (passets g) (passetsCache g) (passetsVerifierCache g) x (passetsRestrictionCache g) (passetsGlobalRestrictionCache g) (passetsdb g) (prestricteddb g).
Definition set_restrictionCache (g : Globals) x : Globals :=
  mkGlobals (passets g) (passetsCache g) (passetsVerifierCache g) (passetsQualifierCache g) x (passetsGlobalRestrictionCache g) (passetsdb g) (prestricteddb g).
Definition set_globalCache (g : Globals) x : Globals :=
  mkGlobals (passets g) (passetsCache g) (passetsVerifierCache g) (passetsQualifierCache g) (passetsRestrictionCache g) x (passetsdb g) (prestricteddb g).
Definition set_assetsdb (g : Globals) x : Globals :=
  mkGlobals (passets g) (passetsCache g) (passetsVerifierCache g) (passetsQualifierCache g) (passetsRestrictionCache g) (passetsGlobalRestrictionCache g) x (prestricteddb g).
Definition set_restricteddb (g : Globals) x : Globals :=
  mkGlobals (passets g) (passetsCache g) (passetsVerifierCache g) (passetsQualifierCache g) (passetsRestrictionCache g) (passetsGlobalRestrictionCache g) (passetsdb g) x.

(** ** Databases *)

Definition ReadAssetData (db : CAssetsDB) (name : list Z) : option CDatabasedAssetData := db_assets db !! name.

Definition ReadBlockUndoAssetData (db : CAssetsDB) (blockhash : Z) : list (list Z * CBlockAssetUndo) :=
  default [] (db_blockUndo db !! blockhash).

Definition WriteBlockUndoAssetData (db : CAssetsDB) (blockhash : Z) (undo : list (list Z * CBlockAssetUndo)) : CAssetsDB :=
  mkAssetsDB (db_assets db) (db_assetAddress db) (db_addressAsset db) (<[blockhash := undo]> (db_blockUndo db)).

(** The tags of an address the database cursor passes, from the key of
    [qualifier] on: keys are ordered by their serialization. *)
Definition tags_from (db : CRestrictedDB) (address qualifier : list Z) : list (list Z) :=
  filter (fun tag => string_le (encode string_codec qualifier) (encode string_codec tag))
    (omap (fun k : list Z * list Z => if decide (k.1 = address) then Some k.2 else None) (elements (db_addressQualifier db))).

Definition CheckForAddressRootQualifier (db : CRestrictedDB) (address qualifier : list Z) : bool :=
  existsb (fun tag => bool_decide (tag = qualifier) || bool_decide ((qualifier ++ [chr_slash]) `prefix_of` tag))
    (tags_from db address qualifier).

(** ** Lookups *)

(** [CAssetCacheQualifierAddress::GetHash().GetHex()] and that of
    [CAssetCacheRestrictedAddress]. *)
Definition GetHashHex (assetName address : list Z) : list Z := HexStr (rev (Hash [assetName; address])).
Arguments GetHashHex : simpl never.

Section Lookups.
Variables fReindex fAssetIndex : bool.
Variables (this : CAssetsCache) (g : Globals).

Definition CheckIfAssetExists (name : list Z) (fForceDuplicateCheck : bool) : bool * Globals :=
  if fReindex then (true, g)
  else if count name (toRemove (setNewAssets this)) then (false, g)
  else if count name (toRemove (setNewAssets (passets g))) then (false, g)
  else if count name (toAdd (setNewAssets this)) && fForceDuplicateCheck then (true, g)
  else if count name (toAdd (setNewAssets (passets g))) && fForceDuplicateCheck then (true, g)
  else if Lru.Exists (passetsCache g) name then (fForceDuplicateCheck, g)
  else match ReadAssetData (passetsdb g) name with
       | Some data => (fForceDuplicateCheck, set_passetsCache g (Lru.Put (passetsCache g) (na_strName (db_asset data)) data))
       | None => (false, g)
       end.

(** The metadata, with the height and the block of the issue where the code
    sets them. *)
Definition GetAssetMetaDataIfExists (name : list Z) : option (CNewAsset * option (Z * Z)) * Globals :=
  let issued (e : CAssetCacheNewAsset) := Some (cn_asset e, Some (cn_blockHeight e, cn_blockHash e)) in
  let databased (d : CDatabasedAssetData) := Some (db_asset d, Some (db_nHeight d, db_blockHash d)) in
  match mapReissuedAssetData this !! name with
  | Some asset => (Some (asset, None), g)
  | None =>
  match mapReissuedAssetData (passets g) !! name with
  | Some asset => (Some (asset, None), g)
  | None =>
  if count name (toRemove (setNewAssets this)) then (None, g)
  else if count name (toRemove (setNewAssets (passets g))) then (None, g)
  else
  match toAdd (setNewAssets this) !! name with
  | Some e => (issued e, g)
  | None =>
  match toAdd (setNewAssets (passets g)) !! name with
  | Some e => (issued e, g)
  | None =>
  match Lru.Get (passetsCache g) name with
  | Some (data, cache) => (databased data, set_passetsCache g cache)
  | None =>
  match ReadAssetData (passetsdb g) name with
  | Some data => (databased data, set_passetsCache g (Lru.Put (passetsCache g) (na_strName (db_asset data)) data))
  | None => (None, g)
  end end end end end end.

Definition GetAssetVerifierStringIfExists (name : list Z) (fSkipTempCache : bool) : option (list Z) * Globals :=
  let undone (e : CAssetCacheRestrictedVerifiers) := if fUndoingRessiue e then Some (cv_verifier e) else None in
  let temp (s : gmap (list Z) CAssetCacheRestrictedVerifiers) := if fSkipTempCache then None else s !! name in
  match temp (toRemove (setNewRestrictedVerifier this)) with
  | Some e => (undone e, g)
  | None =>
  match toRemove (setNewRestrictedVerifier (passets g)) !! name with
  | Some e => (undone e, g)
  | None =>
  match temp (toAdd (setNewRestrictedVerifier this)) with
  | Some e => (Some (cv_verifier e), g)
  | None =>
  match toAdd (setNewRestrictedVerifier (passets g)) !! name with
  | Some e => (Some (cv_verifier e), g)
  | None =>
  match Lru.Get (passetsVerifierCache g) name with
  | Some (v, cache) => (Some v, set_verifierCache g cache)
  | None =>
  match db_verifiers (prestricteddb g) !! name with
  | Some v => (Some v, set_verifierCache g (Lru.Put (passetsVerifierCache g) name v))
  | None => (None, g)
  end end end end end end.

(** Whether sub-qualifiers of a root are recorded for the address. *)
Definition has_sub (m : gmap (list Z * list Z) (gset (list Z))) (root address : list Z) : bool :=
  match m !! (root, address) with Some subs => negb (bool_decide (subs = ∅)) | None => false end.

Definition CheckForAddressQualifier (qualifier_name address : list Z) (fSkipTempCache : bool) : bool * Globals :=
  let k := (qualifier_name, address) in
  let temp (s : gmap (list Z * list Z) QualifierType) := if fSkipTempCache then None else s !! k in
  match temp (toRemove (setNewQualifierAddress this)) with
  | Some type => (bool_decide (type = REMOVE_QUALIFIER), g)
  | None =>
  match toRemove (setNewQualifierAddress (passets g)) !! k with
  | Some type => (bool_decide (type = REMOVE_QUALIFIER), g)
  | None =>
  match temp (toAdd (setNewQualifierAddress this)) with
  | Some type => (bool_decide (type = ADD_QUALIFIER), g)
  | None =>
  match toAdd (setNewQualifierAddress (passets g)) !! k with
  | Some ADD_QUALIFIER => (true, g)
  | Some REMOVE_QUALIFIER => (has_sub (mapRootQualifierAddressesAdd (passets g)) qualifier_name address, g)
  | None =>
  if negb fSkipTempCache && has_sub (mapRootQualifierAddressesAdd this) qualifier_name address then (true, g)
  else if has_sub (mapRootQualifierAddressesAdd (passets g)) qualifier_name address then (true, g)
  else if Lru.Exists (passetsQualifierCache g) (GetHashHex qualifier_name address) then (true, g)
  else if bool_decide ((address, qualifier_name) ∈ db_addressQualifier (prestricteddb g))
  then (true, set_qualifierCache g (Lru.Put (passetsQualifierCache g) (GetHashHex qualifier_name address) 1))
  else (CheckForAddressRootQualifier (prestricteddb g) address qualifier_name, g)
  end end end end.

Definition CheckForAddressRestriction (restricted_name address : list Z) (fSkipTempCache : bool) : bool * Globals :=
  let k := (restricted_name, address) in
  let temp (s : gmap (list Z * list Z) RestrictedType) := if fSkipTempCache then None else s !! k in
  match temp (toRemove (setNewRestrictedAddress this)) with
  | Some type => (bool_decide (type = UNFREEZE_ADDRESS), g)
  | None =>
  match toRemove (setNewRestrictedAddress (passets g)) !! k with
  | Some type => (bool_decide (type = UNFREEZE_ADDRESS), g)
  | None =>
  match temp (toAdd (setNewRestrictedAddress this)) with
  | Some type => (bool_decide (type = FREEZE_ADDRESS), g)
  | None =>
  match toAdd (setNewRestrictedAddress (passets g)) !! k with
  | Some type => (bool_decide (type = FREEZE_ADDRESS), g)
  | None =>
  if Lru.Exists (passetsRestrictionCache g) (GetHashHex restricted_name address) then (true, g)
  else if bool_decide ((address, restricted_name) ∈ db_restrictedAddress (prestricteddb g))
  then (true, set_restrictionCache g (Lru.Put (passetsRestrictionCache g) (GetHashHex restricted_name address) 1))
  else (false, g)
  end end end end.

Definition CheckForGlobalRestriction (restricted_name : list Z) (fSkipTempCache : bool) : bool * Globals :=
  let temp (s : gmap (list Z) RestrictedType) := if fSkipTempCache then None else s !! restricted_name in
  match temp (toRemove (setNewRestrictedGlobal this)) with
  | Some type => (bool_decide (type = GLOBAL_UNFREEZE), g)
  | None =>
  match toRemove (setNewRestrictedGlobal (passets g)) !! restricted_name with
  | Some type => (bool_decide (type = GLOBAL_UNFREEZE), g)
  | None =>
  match temp (toAdd (setNewRestrictedGlobal this)) with
  | Some type => (bool_decide (type = GLOBAL_FREEZE), g)
  | None =>
  match toAdd (setNewRestrictedGlobal (passets g)) !! restricted_name with
  | Some type => (bool_decide (type = GLOBAL_FREEZE), g)
  | None =>
  if Lru.Exists (passetsGlobalRestrictionCache g) restricted_name then (true, g)
  else if bool_decide (restricted_name ∈ db_globalRestriction (prestricteddb g))
  then (true, set_globalCache g (Lru.Put (passetsGlobalRestrictionCache g) restricted_name 1))
  else (false, g)
  end end end end.

(** Brings the best known balance into the cache; whether one is known. *)
Definition GetBestAssetAddressAmount (assetName address : list Z) : bool * CAssetsCache :=
  let pair := (assetName, address) in
  if negb fAssetIndex then (false, this)
  else match mapAssetsAddressAmount this !! pair with
       | Some _ => (true, this)
       | None =>
       match mapAssetsAddressAmount (passets g) !! pair with
       | Some v => (true, with_amounts this (<[pair := v]> (mapAssetsAddressAmount this)))
       | None =>
       match db_assetAddress (passetsdb g) !! pair with
       | Some v => (true, with_amounts this (<[pair := v]> (mapAssetsAddressAmount this)))
       | None => (false, this)
       end end end.
End Lookups.

(** ** Changes *)

Section Changes.
Variables fReindex fAssetIndex : bool.
Variable params : Base58Prefixes.
(** The value of an [int] that was never assigned. *)
Variable unset_height : Z.

Definition amount_at (c : CAssetsCache) (pair : list Z * list Z) : Z := default 0 (mapAssetsAddressAmount c !! pair).

Definition set_amount (c : CAssetsCache) (pair : list Z * list Z) (v : Z) : CAssetsCache :=
  with_amounts c (<[pair := v]> (mapAssetsAddressAmount c)).

(** [if (!GetBestAssetAddressAmount(...)) mapAssetsAddressAmount.insert(make_pair(pair, 0))]. *)
Definition best_or_zero (c : CAssetsCache) (g : Globals) (assetName address : list Z) : CAssetsCache :=
  let '(found, c) := GetBestAssetAddressAmount fAssetIndex c g assetName address in
  if found then c else with_amounts c (set_insert (assetName, address) 0 (mapAssetsAddressAmount c)).

Definition AddToAssetBalance (c : CAssetsCache) (g : Globals) (strName address : list Z) (nAmount : Z) : CAssetsCache :=
  if fAssetIndex then
    let c := best_or_zero c g strName address in
    set_amount c (strName, address)
      (if IsAssetNameAnOwner strName then OWNER_ASSET_AMOUNT else i64 (amount_at c (strName, address) + nAmount))
  else c.

Definition AddTransferAsset (c : CAssetsCache) (g : Globals) (transferAsset : CAssetTransfer) (address : list Z) (out : COutPoint) :
    CAssetsCache :=
  let c := AddToAssetBalance c g (tr_strName transferAsset) address (tr_nAmount transferAsset) in
  with_transfers c (add out (mkCacheTransfer transferAsset address) (setNewTransferAssets c)).

(** The cases of the script are those of [GetAssetData]. *)
Definition TrySpendCoin (c : CAssetsCache) (g : Globals) (txOut : CTxOut) : bool * CAssetsCache :=
  let script := scriptPubKey txOut in
  match IsAssetScript script with
  | None => (true, c)
  | Some _ =>
      let '(assetName, nAmount) := default ([], -1) (GetAssetData script) in
      let address := address_of params script in
      if negb (bool_decide (address = [])) && negb (bool_decide (assetName = [])) then
        if fAssetIndex && (nAmount >? 0) then
          let '(found, c) := GetBestAssetAddressAmount fAssetIndex c g assetName address in
          if found then
            let left_ := i64 (amount_at c (assetName, address) - nAmount) in
            let c := set_amount c (assetName, address) (if left_ <? 0 then 0 else left_) in
            (true, with_spent c (vSpentAssets c ++ [mkAmountChange assetName address nAmount]))
          else (true, c)
        else (true, c)
      else (false, c)
  end.

Definition AddBackSpentAsset (c : CAssetsCache) (g : Globals) (assetName address : list Z) (nAmount : Z) : CAssetsCache :=
  let c := if fAssetIndex
           then let c := best_or_zero c g assetName address in
                set_amount c (assetName, address) (i64 (amount_at c (assetName, address) + nAmount))
           else c in
  with_undone c (vUndoAssetAmount c ++ [mkAmountChange assetName address nAmount]).

Definition UndoAssetCoin (c : CAssetsCache) (g : Globals) (coin : Coin) : bool * CAssetsCache :=
  let script := scriptPubKey (out coin) in
  match GetAssetData script with
  | None => (false, c)
  | Some (assetName, nAmount) =>
      let strAddress := address_of params script in
      if bool_decide (assetName = []) || bool_decide (strAddress = []) || (nAmount =? 0) then (false, c)
      else (true, AddBackSpentAsset c g assetName strAddress nAmount)
  end.

Definition UndoTransfer (c : CAssetsCache) (g : Globals) (transfer : CAssetTransfer) (address : list Z) : bool * CAssetsCache :=
  if fAssetIndex then
    let pair := (tr_strName transfer, address) in
    let '(found, c) := GetBestAssetAddressAmount fAssetIndex c g (tr_strName transfer) address in
    if negb found then (false, c)
    else if negb (count pair (mapAssetsAddressAmount c)) then (false, c)
    else if amount_at c pair <? tr_nAmount transfer then (false, c)
    else (true, set_amount c pair (i64 (amount_at c pair - tr_nAmount transfer)))
  else (true, c).

Definition RemoveTransfer (c : CAssetsCache) (g : Globals) (transfer : CAssetTransfer) (address : list Z) (out : COutPoint) :
    bool * CAssetsCache :=
  let '(undone, c) := UndoTransfer c g transfer address in
  if negb undone then (false, c)
  else (true, with_transfers c (remove out (mkCacheTransfer transfer address) (setNewTransferAssets c))).

Definition AddNewAsset (c : CAssetsCache) (g : Globals) (asset : CNewAsset) (address : list Z) (nHeight blockHash : Z) :
    bool * CAssetsCache * Globals :=
  let '(exists_, g) := CheckIfAssetExists fReindex c g (na_strName asset) true in
  if exists_ : bool then (false, c, g)
  else
    let c := with_assets c (add (na_strName asset) (mkCacheNewAsset asset address nHeight blockHash) (setNewAssets c)) in
    (true, if fAssetIndex then set_amount c (na_strName asset, address) (na_nAmount asset) else c, g).

Definition RemoveNewAsset (c : CAssetsCache) (g : Globals) (asset : CNewAsset) (address : list Z) : bool * CAssetsCache * Globals :=
  let '(exists_, g) := CheckIfAssetExists fReindex c g (na_strName asset) true in
  if negb exists_ then (false, c, g)
  else
    let c := with_assets c (remove (na_strName asset) (mkCacheNewAsset asset address 0 0) (setNewAssets c)) in
    (true, if fAssetIndex then set_amount c (na_strName asset, address) 0 else c, g).

Definition AddOwnerAsset (c : CAssetsCache) (assetsName address : list Z) : CAssetsCache :=
  let c := with_owners c (add assetsName address (setNewOwnerAssets c)) in
  if fAssetIndex then set_amount c (assetsName, address) OWNER_ASSET_AMOUNT else c.

Definition RemoveOwnerAsset (c : CAssetsCache) (assetsName address : list Z) : CAssetsCache :=
  let c := with_owners c (remove assetsName address (setNewOwnerAssets c)) in
  if fAssetIndex then set_amount c (assetsName, address) 0 else c.

(** What a reissue does to the metadata, in both branches of
    [AddReissueAsset]. *)
Definition reissued_data (asset : CNewAsset) (reissue : CReissueAsset) : CNewAsset :=
  let ipfs := negb (bool_decide (re_strIPFSHash reissue = [])) in
  let ans := negb (bool_decide (re_strANSID reissue = [])) in
  mkNewAsset (na_strName asset)
    (i64 (na_nAmount asset + re_nAmount reissue))
    (if negb (re_nUnits reissue =? -1) then re_nUnits reissue else na_units asset)
    (re_nReissuable reissue)
    (if ipfs then 1 else na_nHasIPFS asset) (if ipfs then re_strIPFSHash reissue else na_strIPFSHash asset)
    (if ans then 1 else na_nHasANS asset) (if ans then re_strANSID reissue else na_strANSID asset).

Definition AddReissueAsset (c : CAssetsCache) (g : Globals) (reissue : CReissueAsset) (address : list Z) (out : COutPoint) :
    bool * CAssetsCache * Globals :=
  let name := re_strName reissue in
  match GetAssetMetaDataIfExists c g name with
  | (None, g) => (false, c, g)
  | (Some (asset, issue), g) =>
      let '(assetHeight, assetBlockHash) := default (unset_height, 0) issue in
      let asset := default asset (mapReissuedAssetData c !! name) in
      let c := with_reissued c (<[name := reissued_data asset reissue]> (mapReissuedAssetData c)) in
      let c := with_reissues c (add out (mkCacheReissue reissue address assetHeight assetBlockHash) (setNewReissue c)) in
      let c := if fAssetIndex
               then let c := best_or_zero c g name address in
                    set_amount c (name, address) (i64 (amount_at c (name, address) + re_nAmount reissue))
               else c in
      (true, c, g)
  end.

Definition AddRestrictedVerifier (c : CAssetsCache) (assetName verifier : list Z) : CAssetsCache :=
  with_verifiers c (add assetName (mkCacheVerifier verifier false) (setNewRestrictedVerifier c)).

Definition RemoveRestrictedVerifier (c : CAssetsCache) (assetName verifier : list Z) (fUndoingReissue : bool) : CAssetsCache :=
  with_verifiers c (remove assetName (mkCacheVerifier verifier fUndoingReissue) (setNewRestrictedVerifier c)).

(** The metadata and the verifier string restored by the undo data, of which
    the first entry of the asset is used. *)
Definition restored_data (asset : CNewAsset) (reissue : CReissueAsset) (vUndoData : list (list Z * CBlockAssetUndo)) :
    CNewAsset * option (list Z) :=
  let amount := i64 (na_nAmount asset - re_nAmount reissue) in
  match List.find (fun p => bool_decide (p.1 = re_strName reissue)) vUndoData with
  | None =>
      (mkNewAsset (na_strName asset) amount (na_units asset) 1 (na_nHasIPFS asset) (na_strIPFSHash asset)
         (na_nHasANS asset) (na_strANSID asset), None)
  | Some (_, undo) =>
      let ipfs := if fChangedIPFS undo then undo_strIPFS undo else na_strIPFSHash asset in
      let ans := if fChangedANS undo then undo_strANSID undo else na_strANSID asset in
      (mkNewAsset (na_strName asset) amount (if fChangedUnits undo then wraps 8 (undo_nUnits undo) else na_units asset) 1
         (if bool_decide (ipfs = []) then 0 else na_nHasIPFS asset) ipfs
         (if bool_decide (ans = []) then 0 else na_nHasANS asset) ans,
       if fChangedVerifierString undo then Some (undo_verifierString undo) else None)
  end.

Definition RemoveReissueAsset (c : CAssetsCache) (g : Globals) (reissue : CReissueAsset) (address : list Z) (out : COutPoint)
    (vUndoData : list (list Z * CBlockAssetUndo)) : bool * CAssetsCache * Globals :=
  let pair := (re_strName reissue, address) in
  match GetAssetMetaDataIfExists c g (re_strName reissue) with
  | (None, g) => (false, c, g)
  | (Some (assetData, issue), g) =>
      let '(height, blockHash) := default (unset_height, 0) issue in
      let '(assetData, verifier) := restored_data assetData reissue vUndoData in
      let c := with_reissued c (<[na_strName assetData := assetData]> (mapReissuedAssetData c)) in
      let c := with_reissues c (remove out (mkCacheReissue reissue address height blockHash) (setNewReissue c)) in
      let c := match verifier with Some v => RemoveRestrictedVerifier c (na_strName assetData) v true | None => c end in
      if fAssetIndex then
        let '(found, c) := GetBestAssetAddressAmount fAssetIndex c g (re_strName reissue) address in
        if negb found && negb (re_nAmount reissue =? 0) then (false, c, g)
        else
          let c := set_amount c pair (i64 (amount_at c pair - re_nAmount reissue)) in
          (negb (amount_at c pair <? 0), c, g)
      else (true, c, g)
  end.

(** [map[key].insert(name)] and [map[key].erase(name)]; both create the
    entry. *)
Definition sub_insert (key : list Z * list Z) (name : list Z) (m : gmap (list Z * list Z) (gset (list Z))) :
    gmap (list Z * list Z) (gset (list Z)) := <[key := default ∅ (m !! key) ∪ {[name]}]> m.
Definition sub_erase (key : list Z * list Z) (name : list Z) (m : gmap (list Z * list Z) (gset (list Z))) :
    gmap (list Z * list Z) (gset (list Z)) := <[key := default ∅ (m !! key) ∖ {[name]}]> m.

(** The sub-qualifier maps when a tag is given to an address ([gives]) or
    taken from it. *)
Definition track_root (c : CAssetsCache) (assetName address : list Z) (gives : bool) : CAssetsCache :=
  if IsAssetNameASubQualifier assetName then
    let key := (GetParentName assetName, address) in
    if gives then
      with_roots_remove (with_roots_add c (sub_insert key assetName (mapRootQualifierAddressesAdd c)))
        (sub_erase key assetName (mapRootQualifierAddressesRemove c))
    else
      with_roots_add (with_roots_remove c (sub_insert key assetName (mapRootQualifierAddressesRemove c)))
        (sub_erase key assetName (mapRootQualifierAddressesAdd c))
  else c.

Definition AddQualifierAddress (c : CAssetsCache) (assetName address : list Z) (type : QualifierType) : CAssetsCache :=
  let c := track_root c assetName address (bool_decide (type = ADD_QUALIFIER)) in
  with_qualifiers c (add_over (assetName, address) type (setNewQualifierAddress c)).

Definition RemoveQualifierAddress (c : CAssetsCache) (assetName address : list Z) (type : QualifierType) : CAssetsCache :=
  let c := track_root c assetName address (negb (bool_decide (type = ADD_QUALIFIER))) in
  with_qualifiers c (remove_over (assetName, address) type (setNewQualifierAddress c)).

Definition AddRestrictedAddress (c : CAssetsCache) (assetName address : list Z) (type : RestrictedType) : CAssetsCache :=
  with_restricted c (add_over (assetName, address) type (setNewRestrictedAddress c)).

Definition RemoveRestrictedAddress (c : CAssetsCache) (assetName address : list Z) (type : RestrictedType) : CAssetsCache :=
  with_restricted c (remove_over (assetName, address) type (setNewRestrictedAddress c)).

Definition AddGlobalRestricted (c : CAssetsCache) (assetName : list Z) (type : RestrictedType) : CAssetsCache :=
  with_globals c (add_over assetName type (setNewRestrictedGlobal c)).

Definition RemoveGlobalRestricted (c : CAssetsCache) (assetName : list Z) (type : RestrictedType) : CAssetsCache :=
  with_globals c (remove_over assetName type (setNewRestrictedGlobal c)).
End Changes.

(** ** Flush *)

(** The loops over the sub-qualifier maps: the entries of both maps go to
    [passets->mapRootQualifierAddressesAdd]. *)
Definition flush_subs (m p : gmap (list Z * list Z) (gset (list Z))) : gmap (list Z * list Z) (gset (list Z)) :=
  foldl (fun p '(key, subs) => foldl (fun p name => sub_insert key name p) p (elements subs)) p (items m).

(** [CAssetsCache::Flush]. *)
Definition FlushAssets (c : CAssetsCache) (g : Globals) : Globals :=
  let p := passets g in
  set_passets g
    (mkAssetsCache
       (mapAssetsAddressAmount c ∪ mapAssetsAddressAmount p)
       (mapReissuedAssetData c ∪ mapReissuedAssetData p)
       (vUndoAssetAmount p ++ vUndoAssetAmount c)
       (vSpentAssets p ++ vSpentAssets c)
       (flush_keep (setNewAssets c) (setNewAssets p))
       (flush_keep (setNewReissue c) (setNewReissue p))
       (flush_keep (setNewOwnerAssets c) (setNewOwnerAssets p))
       (flush_keep (setNewTransferAssets c) (setNewTransferAssets p))
       (flush_over (setNewQualifierAddress c) (setNewQualifierAddress p))
       (flush_over (setNewRestrictedAddress c) (setNewRestrictedAddress p))
       (flush_over (setNewRestrictedGlobal c) (setNewRestrictedGlobal p))
       (flush_over (setNewRestrictedVerifier c) (setNewRestrictedVerifier p))
       (flush_subs (mapRootQualifierAddressesRemove c)
          (flush_subs (mapRootQualifierAddressesAdd c) (mapRootQualifierAddressesAdd p)))
       (mapRootQualifierAddressesRemove p)).

Definition CAssetsCache_GetCacheSize (c : CAssetsCache) : Z :=
  let n {K E : Type} `{Countable K} (s : gmap K E) := Z.of_nat (size s) in
  u64 ((32 + 40 + 8) * Z.of_nat (length (vUndoAssetAmount c)) +
       (40 + 40 + 32) * n (toRemove (setNewTransferAssets c)) + (40 + 40 + 32) * n (toAdd (setNewTransferAssets c)) +
       72 * n (toAdd (setNewOwnerAssets c)) + 72 * n (toRemove (setNewOwnerAssets c)) +
       (32 + 40 + 8) * Z.of_nat (length (vSpentAssets c)) +
       (80 + 40 + 32 + 4) * n (toAdd (setNewAssets c)) + (80 + 40 + 32 + 4) * n (toRemove (setNewAssets c)) +
       (80 + 40 + 32 + 32 + 4) * n (toAdd (setNewReissue c)) + (80 + 40 + 32 + 32 + 4) * n (toRemove (setNewReissue c))).
