(* ===== verification/AssetsDump.v ===== *)
(** * Writing the assets cache to disk
      ([CAssetsCache::DumpCacheToDatabase], [src/assets/assets.cpp];
      [src/assets/assetdb.cpp], [src/assets/restricteddb.cpp])

    [DumpCacheToDatabase] is a sequence of loops, each a series of database
    writes and of updates of the least-recently-used caches that depend only
    on the cache being dumped.  The model lists those steps in order
    ([dump_ops]) and executes them.  A database write never returns false
    ([CDBWrapper::WriteBatch]); it throws when the disk fails, and the rest is
    not done: [writes_left] is the number of writes that succeed before that
    happens. *)

From stdpp Require Import gmap list fin_maps.
From S2P Require Import Prelude Coins AssetFormat LruCache AssetsCache.

Inductive StoreOp :=
  | CacheErase (name : list Z)
  | CachePut (name : list Z) (data : CDatabasedAssetData)
  | VerifierCacheErase (name : list Z)
  | QualifierCacheErase (key : list Z)
  | QualifierCachePut (key : list Z)
  | RestrictionCacheErase (key : list Z)
  | RestrictionCachePut (key : list Z)
  | GlobalCacheErase (name : list Z)
  | GlobalCachePut (name : list Z)
  | WriteAssetData (asset : CNewAsset) (nHeight blockHash : Z)
  | EraseAssetData (name : list Z)
  | WriteAssetAddressQuantity (name address : list Z) (quantity : Z)
  | EraseAssetAddressQuantity (name address : list Z)
  | WriteAddressAssetQuantity (address name : list Z) (quantity : Z)
  | EraseAddressAssetQuantity (address name : list Z)
  | WriteVerifier (name verifier : list Z)
  | EraseVerifier (name : list Z)
  | WriteAddressQualifier (address tag : list Z)
  | EraseAddressQualifier (address tag : list Z)
  | WriteQualifierAddress (address tag : list Z)
  | EraseQualifierAddress (address tag : list Z)
  | WriteRestrictedAddress (address name : list Z)
  | EraseRestrictedAddress (address name : list Z)
  | WriteGlobalRestriction (name : list Z)
  | EraseGlobalRestriction (name : list Z).

(** A step on a memory cache cannot fail. *)
Definition is_write (op : StoreOp) : bool :=
  match op with
  | CacheErase _ | CachePut _ _ | VerifierCacheErase _ | QualifierCacheErase _ | QualifierCachePut _
  | RestrictionCacheErase _ | RestrictionCachePut _ | GlobalCacheErase _ | GlobalCachePut _ => false
  | _ => true
  end.

Definition adb_step (db : CAssetsDB) (op : StoreOp) : CAssetsDB :=
  let '(mkAssetsDB a aa ada u) := db in
  match op with
  | WriteAssetData asset nHeight blockHash => mkAssetsDB (<[na_strName asset := mkDatabased asset nHeight blockHash]> a) aa ada u
  | EraseAssetData name => mkAssetsDB (delete name a) aa ada u
  | WriteAssetAddressQuantity name address q => mkAssetsDB a (<[(name, address) := q]> aa) ada u
  | EraseAssetAddressQuantity name address => mkAssetsDB a (delete (name, address) aa) ada u
  | WriteAddressAssetQuantity address name q => mkAssetsDB a aa (<[(address, name) := q]> ada) u
  | EraseAddressAssetQuantity address name => mkAssetsDB a aa (delete (address, name) ada) u
  | _ => db
  end.

Definition rdb_step (db : CRestrictedDB) (op : StoreOp) : CRestrictedDB :=
  let '(mkRestrictedDB v aq qa r gr) := db in
  match op with
  | WriteVerifier name verifier => mkRestrictedDB (<[name := verifier]> v) aq qa r gr
  | EraseVerifier name => mkRestrictedDB (delete name v) aq qa r gr
  | WriteAddressQualifier address tag => mkRestrictedDB v (aq ∪ {[(address, tag)]}) qa r gr
  | EraseAddressQualifier address tag => mkRestrictedDB v (aq ∖ {[(address, tag)]}) qa r gr
  | WriteQualifierAddress address tag => mkRestrictedDB v aq (qa ∪ {[(tag, address)]}) r gr
  | EraseQualifierAddress address tag => mkRestrictedDB v aq (qa ∖ {[(tag, address)]}) r gr
  | WriteRestrictedAddress address name => mkRestrictedDB v aq qa (r ∪ {[(address, name)]}) gr
  | EraseRestrictedAddress address name => mkRestrictedDB v aq qa (r ∖ {[(address, name)]}) gr
  | WriteGlobalRestriction name => mkRestrictedDB v aq qa r (gr ∪ {[name]})
  | EraseGlobalRestriction name => mkRestrictedDB v aq qa r (gr ∖ {[name]})
  | _ => db
  end.

Definition step (g : Globals) (op : StoreOp) : Globals :=
  match op with
  | CacheErase name => set_passetsCache g (Lru.Erase (passetsCache g) name)
  | CachePut name data => set_passetsCache g (Lru.Put (passetsCache g) name data)
  | VerifierCacheErase name => set_verifierCache g (Lru.Erase (passetsVerifierCache g) name)
  | QualifierCacheErase key => set_qualifierCache g (Lru.Erase (passetsQualifierCache g) key)
  | QualifierCachePut key => set_qualifierCache g (Lru.Put (passetsQualifierCache g) key 1)
  | RestrictionCacheErase key => set_restrictionCache g (Lru.Erase (passetsRestrictionCache g) key)
  | RestrictionCachePut key => set_restrictionCache g (Lru.Put (passetsRestrictionCache g) key 1)
  | GlobalCacheErase name => set_globalCache g (Lru.Erase (passetsGlobalRestrictionCache g) name)
  | GlobalCachePut name => set_globalCache g (Lru.Put (passetsGlobalRestrictionCache g) name 1)
  | _ => set_restricteddb (set_assetsdb g (adb_step (passetsdb g) op)) (rdb_step (prestricteddb g) op)
  end.

Fixpoint exec (writes_left : option nat) (g : Globals) (ops : list StoreOp) : bool * Globals :=
  match ops with
  | [] => (true, g)
  | op :: ops =>
      if is_write op then
        match writes_left with
        | Some O => (false, g)
        | Some (S n) => exec (Some n) (step g op) ops
        | None => exec None (step g op) ops
        end
      else exec writes_left (step g op) ops
  end.

Section Dump.
Variable fAssetIndex : bool.

Definition indexed (ops : list StoreOp) : list StoreOp := if fAssetIndex then ops else [].

Definition write_balance (name address : list Z) (v : Z) : list StoreOp :=
  [WriteAssetAddressQuantity name address v; WriteAddressAssetQuantity address name v].
Definition erase_balance (name address : list Z) : list StoreOp :=
  [EraseAssetAddressQuantity name address; EraseAddressAssetQuantity address name].

(** A balance of zero is erased. *)
Definition store_balance (name address : list Z) (v : Z) : list StoreOp :=
  if v =? 0 then erase_balance name address else write_balance name address v.

Section Ops.
Variable c : CAssetsCache.

Abbreviation balance name address := (mapAssetsAddressAmount c !! (name, address)).

(** The balance of the map, handed to [k], where there is one. *)
Definition with_balance (name address : list Z) (k : Z -> list StoreOp) : list StoreOp :=
  match balance name address with Some v => k v | None => [] end.

Definition loop {K E : Type} `{Countable K, !KeyOrder K} (body : K -> E -> list StoreOp) (s : gmap K E) : list StoreOp :=
  concat (map (fun '(k, e) => body k e) (items s)).

Definition removed_asset_ops (name : list Z) (e : CAssetCacheNewAsset) : list StoreOp :=
  [CacheErase name; EraseAssetData name; EraseVerifier name] ++ indexed (erase_balance name (cn_address e)).

Definition new_asset_ops (name : list Z) (e : CAssetCacheNewAsset) : list StoreOp :=
  [CachePut name (mkDatabased (cn_asset e) (cn_blockHeight e) (cn_blockHash e));
   WriteAssetData (cn_asset e) (cn_blockHeight e) (cn_blockHash e)] ++
  indexed (write_balance name (cn_address e) (na_nAmount (cn_asset e))).

Definition owner_ops : list StoreOp :=
  loop (fun name address => erase_balance name address) (toRemove (setNewOwnerAssets c)) ++
  loop (fun name address => with_balance name address (fun v => if v >? 0 then write_balance name address v else []))
    (toAdd (setNewOwnerAssets c)).

Definition transfer_ops : list StoreOp :=
  loop (fun _ e => let name := tr_strName (ct_transfer e) in with_balance name (ct_address e) (store_balance name (ct_address e)))
    (toRemove (setNewTransferAssets c)) ++
  loop (fun _ e => let name := tr_strName (ct_transfer e) in with_balance name (ct_address e) (write_balance name (ct_address e)))
    (toAdd (setNewTransferAssets c)).

Definition reissue_ops (_ : COutPoint) (e : CAssetCacheReissueAsset) : list StoreOp :=
  let name := re_strName (cr_reissue e) in
  match mapReissuedAssetData c !! name with
  | None => []
  | Some data =>
      [WriteAssetData data (cr_blockHeight e) (cr_blockHash e); CacheErase name] ++
      indexed (with_balance name (cr_address e) (fun v => if v >? 0 then write_balance name (cr_address e) v else []))
  end.

(** Skipped when the issue is undone too. *)
Definition undo_reissue_ops (_ : COutPoint) (e : CAssetCacheReissueAsset) : list StoreOp :=
  let name := re_strName (cr_reissue e) in
  if count name (toRemove (setNewAssets c)) then []
  else match mapReissuedAssetData c !! name with
       | None => []
       | Some data =>
           [WriteAssetData data (cr_blockHeight e) (cr_blockHash e)] ++
           indexed (with_balance name (cr_address e) (store_balance name (cr_address e))) ++ [CacheErase name]
       end.

Definition new_verifier_ops (name : list Z) (e : CAssetCacheRestrictedVerifiers) : list StoreOp :=
  [WriteVerifier name (cv_verifier e); VerifierCacheErase name].

Definition undo_verifier_ops (name : list Z) (e : CAssetCacheRestrictedVerifiers) : list StoreOp :=
  [if fUndoingRessiue e then WriteVerifier name (cv_verifier e) else EraseVerifier name; VerifierCacheErase name].

(** Giving a tag to an address, and taking it. *)
Definition tag_ops (name address : list Z) : list StoreOp :=
  [QualifierCachePut (GetHashHex name address); WriteAddressQualifier address name] ++ indexed [WriteQualifierAddress address name].
Definition untag_ops (name address : list Z) : list StoreOp :=
  [QualifierCacheErase (GetHashHex name address); EraseAddressQualifier address name] ++ indexed [EraseQualifierAddress address name].

Definition qualifier_ops (k : list Z * list Z) (type : QualifierType) : list StoreOp :=
  match type with REMOVE_QUALIFIER => untag_ops k.1 k.2 | ADD_QUALIFIER => tag_ops k.1 k.2 end.
Definition undo_qualifier_ops (k : list Z * list Z) (type : QualifierType) : list StoreOp :=
  match type with REMOVE_QUALIFIER => tag_ops k.1 k.2 | ADD_QUALIFIER => untag_ops k.1 k.2 end.

Definition freeze_ops (name address : list Z) : list StoreOp :=
  [RestrictionCachePut (GetHashHex name address); WriteRestrictedAddress address name].
Definition unfreeze_ops (name address : list Z) : list StoreOp :=
  [RestrictionCacheErase (GetHashHex name address); EraseRestrictedAddress address name].

Definition restricted_ops (k : list Z * list Z) (type : RestrictedType) : list StoreOp :=
  match type with UNFREEZE_ADDRESS => unfreeze_ops k.1 k.2 | FREEZE_ADDRESS => freeze_ops k.1 k.2 | _ => [] end.
Definition undo_restricted_ops (k : list Z * list Z) (type : RestrictedType) : list StoreOp :=
  match type with UNFREEZE_ADDRESS => freeze_ops k.1 k.2 | FREEZE_ADDRESS => unfreeze_ops k.1 k.2 | _ => [] end.

Definition global_freeze_ops (name : list Z) : list StoreOp := [GlobalCachePut name; WriteGlobalRestriction name].
Definition global_unfreeze_ops (name : list Z) : list StoreOp := [GlobalCacheErase name; EraseGlobalRestriction name].

Definition global_ops (name : list Z) (type : RestrictedType) : list StoreOp :=
  match type with GLOBAL_UNFREEZE => global_unfreeze_ops name | GLOBAL_FREEZE => global_freeze_ops name | _ => [] end.
Definition undo_global_ops (name : list Z) (type : RestrictedType) : list StoreOp :=
  match type with GLOBAL_UNFREEZE => global_freeze_ops name | GLOBAL_FREEZE => global_unfreeze_ops name | _ => [] end.

(** The spends undone, then the spends. *)
Definition spend_ops : list StoreOp :=
  concat (map (fun u => with_balance (ac_assetName u) (ac_address u) (write_balance (ac_assetName u) (ac_address u)))
            (vUndoAssetAmount c)) ++
  concat (map (fun s => with_balance (ac_assetName s) (ac_address s) (store_balance (ac_assetName s) (ac_address s)))
            (vSpentAssets c)).

Definition dump_ops : list StoreOp :=
  loop removed_asset_ops (toRemove (setNewAssets c)) ++
  loop new_asset_ops (toAdd (setNewAssets c)) ++
  indexed owner_ops ++
  indexed transfer_ops ++
  loop reissue_ops (toAdd (setNewReissue c)) ++
  loop undo_reissue_ops (toRemove (setNewReissue c)) ++
  loop new_verifier_ops (toAdd (setNewRestrictedVerifier c)) ++
  loop undo_verifier_ops (toRemove (setNewRestrictedVerifier c)) ++
  loop qualifier_ops (toAdd (setNewQualifierAddress c)) ++
  loop undo_qualifier_ops (toRemove (setNewQualifierAddress c)) ++
  loop restricted_ops (toAdd (setNewRestrictedAddress c)) ++
  loop undo_restricted_ops (toRemove (setNewRestrictedAddress c)) ++
  loop global_ops (toAdd (setNewRestrictedGlobal c)) ++
  loop undo_global_ops (toRemove (setNewRestrictedGlobal c)) ++
  indexed spend_ops.
End Ops.

(** On [passets], the cache it is called on. *)
Definition DumpCacheToDatabase (writes_left : option nat) (g : Globals) : bool * Globals :=
  let '(ok, g') := exec writes_left g (dump_ops (passets g)) in
  if ok : bool then (true, set_passets g' (ClearDirtyCache (passets g'))) else (false, g').
End Dump.
