(* ===== verification/AssetsLayers.v ===== *)
(** * The layers of the assets cache

    What a pair of sets of changes says about each key, how [Flush] stacks
    one pair on another, and what the lookups answer for a stack.  The lemmas
    are shared by the theorems on restrictions, tags and assets. *)

From stdpp Require Import gmap list fin_maps sorting.
From S2P Require Import Prelude Coins AssetFormat LruCache AssetsCache AssetsDump.

(** ** Pairs of sets *)

Section Dirty.
Context {K E : Type} `{Countable K, !KeyOrder K}.
Implicit Types (d p : Dirty K E) (k : K) (e : E).

Lemma items_perm (m : gmap K E) : items m ≡ₚ map_to_list m.
Proof. apply merge_sort_Permutation. Qed.

Lemma items_keys (m : gmap K E) : NoDup (items m).*1.
Proof. rewrite items_perm. apply NoDup_fst_map_to_list. Qed.

Lemma items_map (m : gmap K E) : list_to_map (items m) = m.
Proof.
  rewrite <- (list_to_map_to_list m) at 2. apply list_to_map_proper; [apply items_keys|apply items_perm].
Qed.

Lemma elem_of_items (m : gmap K E) k e : (k, e) ∈ items m <-> m !! k = Some e.
Proof. rewrite items_perm. apply elem_of_map_to_list. Qed.

(** No key is both changed and undone. *)
Definition disjoint_dirty d : Prop := forall k, toAdd d !! k = None \/ toRemove d !! k = None.

Lemma clean_disjoint : disjoint_dirty clean.
Proof. left. apply lookup_empty. Qed.

Lemma set_insert_lookup k e (s : gmap K E) j :
  set_insert k e s !! j = if decide (k = j) then Some (default e (s !! k)) else s !! j.
Proof.
  unfold set_insert. destruct (s !! k) as [e'|] eqn:Es; cbn; case_decide as Hk; subst; try done;
    [by rewrite lookup_insert_eq|by rewrite lookup_insert_ne].
Qed.

Lemma delete_lookup k (s : gmap K E) j : delete k s !! j = if decide (k = j) then None else s !! j.
Proof. case_decide; subst; [apply lookup_delete_eq|by apply lookup_delete_ne]. Qed.

Lemma insert_lookup k e (s : gmap K E) j : <[k := e]> s !! j = if decide (k = j) then Some e else s !! j.
Proof. case_decide; subst; [apply lookup_insert_eq|by apply lookup_insert_ne]. Qed.

Lemma add_disjoint k e d : disjoint_dirty d -> disjoint_dirty (add k e d).
Proof.
  intros Hd j. cbn. rewrite delete_lookup, set_insert_lookup. case_decide; [by right|apply Hd].
Qed.
Lemma remove_disjoint k e d : disjoint_dirty d -> disjoint_dirty (remove k e d).
Proof.
  intros Hd j. cbn. rewrite delete_lookup, set_insert_lookup. case_decide; [by left|apply Hd].
Qed.
Lemma add_over_disjoint k e d : disjoint_dirty d -> disjoint_dirty (add_over k e d).
Proof. intros Hd j. cbn. rewrite delete_lookup, insert_lookup. case_decide; [by right|apply Hd]. Qed.
Lemma remove_over_disjoint k e d : disjoint_dirty d -> disjoint_dirty (remove_over k e d).
Proof. intros Hd j. cbn. rewrite delete_lookup, insert_lookup. case_decide; [by left|apply Hd]. Qed.

(** *** Flush *)

(** A loop whose step at key [k] only touches what is at [k], given by [f]. *)
Lemma fold_keyed {S : Type} (upd : K -> E -> Dirty K E -> Dirty K E) (at_ : Dirty K E -> K -> S) (f : E -> S -> S) l :
  (forall k e p j, at_ (upd k e p) j = if decide (k = j) then f e (at_ p j) else at_ p j) ->
  NoDup l.*1 -> forall p j,
  at_ (foldl (fun p '(k, e) => upd k e p) p l) j =
    match (list_to_map l : gmap K E) !! j with Some e => f e (at_ p j) | None => at_ p j end.
Proof.
  intros Hu. induction l as [|[k e] l IH]; intros Hn p j; cbn [foldl]; [cbn; by rewrite lookup_empty|].
  apply NoDup_cons in Hn as [Hk Hn]. rewrite IH by done. cbn [list_to_map foldr]. rewrite !Hu. cbn.
  rewrite insert_lookup. case_decide; [|done]. subst.
  by rewrite (proj1 (not_elem_of_list_to_map l j)) by done.
Qed.

(** Both sets at a key. *)
Definition at_key d k : option E * option E := (toAdd d !! k, toRemove d !! k).

Lemma flush_with_lookup (a r : K -> E -> Dirty K E -> Dirty K E) (fa fr : E -> option E * option E -> option E * option E) d p k :
  (forall k e p j, at_key (a k e p) j = if decide (k = j) then fa e (at_key p j) else at_key p j) ->
  (forall k e p j, at_key (r k e p) j = if decide (k = j) then fr e (at_key p j) else at_key p j) ->
  at_key (flush_with a r d p) k =
    let s := match toAdd d !! k with Some e => fa e (at_key p k) | None => at_key p k end in
    match toRemove d !! k with Some e => fr e s | None => s end.
Proof.
  intros Ha Hr. unfold flush_with. cbn zeta.
  rewrite (fold_keyed r at_key fr) by (done || apply items_keys). rewrite items_map.
  rewrite (fold_keyed a at_key fa) by (done || apply items_keys). by rewrite items_map.
Qed.

Lemma flush_over_lookup d p k :
  at_key (flush_over d p) k =
    match toRemove d !! k with
    | Some e => (None, Some e)
    | None => match toAdd d !! k with Some e => (Some e, None) | None => at_key p k end
    end.
Proof.
  unfold flush_over. rewrite (flush_with_lookup _ _ (fun e _ => (Some e, None)) (fun e _ => (None, Some e))).
  - cbn. by destruct (toRemove d !! k), (toAdd d !! k).
  - intros k' e p' j. unfold at_key. cbn. rewrite delete_lookup, insert_lookup. by case_decide.
  - intros k' e p' j. unfold at_key. cbn. rewrite delete_lookup, insert_lookup. by case_decide.
Qed.

Lemma flush_keep_lookup d p k :
  at_key (flush_keep d p) k =
    let s := match toAdd d !! k with Some e => (Some (default e (toAdd p !! k)), None) | None => at_key p k end in
    match toRemove d !! k with Some e => (None, Some (default e s.2)) | None => s end.
Proof.
  unfold flush_keep. rewrite (flush_with_lookup _ _ (fun e s => (Some (default e s.1), None)) (fun e s => (None, Some (default e s.2)))).
  - cbn. by destruct (toRemove d !! k), (toAdd d !! k).
  - intros k' e p' j. unfold at_key. cbn. rewrite delete_lookup, set_insert_lookup. case_decide; by subst.
  - intros k' e p' j. unfold at_key. cbn. rewrite delete_lookup, set_insert_lookup. case_decide; by subst.
Qed.

Lemma flush_over_disjoint d p : disjoint_dirty p -> disjoint_dirty (flush_over d p).
Proof.
  intros Hp k. pose proof (flush_over_lookup d p k) as E1. unfold at_key in E1.
  destruct (toRemove d !! k), (toAdd d !! k); injection E1 as F1 F2; rewrite F1, F2; auto.
Qed.

Lemma flush_keep_disjoint d p : disjoint_dirty p -> disjoint_dirty (flush_keep d p).
Proof.
  intros Hp k. pose proof (flush_keep_lookup d p k) as E1. unfold at_key in E1. cbn in E1.
  destruct (toRemove d !! k), (toAdd d !! k); injection E1 as F1 F2; rewrite F1, F2; auto.
Qed.

(** *** What a pair says of a key *)

Section Says.
Context {B : Type} (did undid : E -> B).

Definition says d k : option B :=
  match toRemove d !! k with Some e => Some (undid e) | None => did <$> toAdd d !! k end.

Lemma says_clean k : says clean k = None.
Proof. unfold says. cbn. by rewrite !lookup_empty. Qed.

Lemma says_add_over k e d j : says (add_over k e d) j = if decide (k = j) then Some (did e) else says d j.
Proof. unfold says. cbn. rewrite delete_lookup, insert_lookup. by case_decide. Qed.

Lemma says_remove_over k e d j : says (remove_over k e d) j = if decide (k = j) then Some (undid e) else says d j.
Proof. unfold says. cbn. rewrite delete_lookup, insert_lookup. by case_decide. Qed.

Lemma says_flush_over d p k : says (flush_over d p) k = match says d k with Some b => Some b | None => says p k end.
Proof.
  pose proof (flush_over_lookup d p k) as E1. unfold at_key in E1. unfold says.
  destruct (toRemove d !! k), (toAdd d !! k); injection E1 as F1 F2; by rewrite F1, F2.
Qed.
End Says.
End Dirty.

(** ** Executing a dump *)

Lemma exec_all g ops : exec None g ops = (true, foldl step g ops).
Proof.
  revert g. induction ops as [|op ops IH]; intros g; [done|]. cbn [exec foldl]. rewrite !IH. by destruct (is_write op).
Qed.

(** A dump that the disk interrupts has done a prefix of its steps. *)
Lemma exec_prefix ops : forall left_ g ok g', exec left_ g ops = (ok, g') ->
  exists done_ rest, ops = done_ ++ rest /\ g' = foldl step g done_ /\ (ok = true -> rest = []).
Proof.
  induction ops as [|op ops IH]; intros left_ g ok g' He; cbn [exec] in He; [simplify_eq; by exists [], []|].
  assert (Hgo : forall l, exec l (step g op) ops = (ok, g') ->
    exists done_ rest, op :: ops = done_ ++ rest /\ g' = foldl step g done_ /\ (ok = true -> rest = [])).
  { intros l Hl. destruct (IH _ _ _ _ Hl) as (dn & rest & -> & -> & Hr). by exists (op :: dn), rest. }
  destruct (is_write op); [|eauto]. destruct left_ as [[|n]|]; [|eauto..]. simplify_eq. by exists [], (op :: ops).
Qed.

Lemma elem_of_concat {A : Type} (x : A) ls : x ∈ concat ls <-> exists l, x ∈ l /\ l ∈ ls.
Proof.
  rewrite list_elem_of_In, in_concat. split; intros (l & H1 & H2); exists l; rewrite ?list_elem_of_In in *; tauto.
Qed.

Lemma elem_of_loop {K E : Type} `{Countable K, !KeyOrder K} (body : K -> E -> list StoreOp) (s : gmap K E) op :
  op ∈ loop body s <-> exists k e, s !! k = Some e /\ op ∈ body k e.
Proof.
  unfold loop. rewrite elem_of_concat. split.
  - intros (l & Hop & Hl). apply list_elem_of_fmap in Hl as ([k e] & -> & Hin). exists k, e. by rewrite <- elem_of_items.
  - intros (k & e & Hs & Hop). exists (body k e). split; [done|]. apply list_elem_of_fmap. exists (k, e).
    by rewrite elem_of_items.
Qed.

(** ** A set of flagged keys on disk, its memory cache and its dirty pair *)

Module Flags.
Section Flags.
Context {K : Type} `{Countable K} {D : Type} `{Countable D}.
(** The key of the memory cache, and that of the database. *)
Context (hk : K -> list Z) (dbk : K -> D) `{!Inj (=) (=) dbk}.

Record Store := mkStore { lru : Lru.Lru (list Z) Z; disk : gset D }.

Inductive Op := Put (h : list Z) | Erase (h : list Z) | Write (k : K) | Delete (k : K).

Definition step (s : Store) (op : Op) : Store :=
  match op with
  | Put h => mkStore (Lru.Put (lru s) h 1) (disk s)
  | Erase h => mkStore (Lru.Erase (lru s) h) (disk s)
  | Write k => mkStore (lru s) (disk s ∪ {[dbk k]})
  | Delete k => mkStore (lru s) (disk s ∖ {[dbk k]})
  end.

(** What the dirty pair says, [pending], over the database. *)
Definition value (pending : K -> option bool) (s : Store) (k : K) : bool :=
  match pending k with Some b => b | None => bool_decide (dbk k ∈ disk s) end.

Definition lookup (pending : K -> option bool) (s : Store) (k : K) : bool :=
  match pending k with Some b => b | None => Lru.Exists (lru s) (hk k) || bool_decide (dbk k ∈ disk s) end.

(** Cached keys are on disk or pending, within a universe [U] of keys. *)
Definition coherent (U : K -> Prop) (pending : K -> option bool) (s : Store) : Prop :=
  (forall k, is_Some (pending k) -> U k) /\
  (forall x, x ∈ disk s -> exists k, x = dbk k /\ U k) /\
  (forall h, Lru.Exists (lru s) h = true -> exists k, U k /\ h = hk k /\ (dbk k ∈ disk s \/ is_Some (pending k))).

(** The cache keys tell the universe apart. *)
Definition separated (U : K -> Prop) : Prop := forall k k', U k -> U k' -> hk k = hk k' -> k = k'.

(** An operation that a pending change asks for. *)
Definition asked (pending : K -> option bool) (op : Op) : Prop :=
  match op with
  | Put h => exists k, h = hk k /\ pending k = Some true
  | Erase h => exists k, h = hk k /\ pending k = Some false
  | Write k => pending k = Some true
  | Delete k => pending k = Some false
  end.

Lemma lookup_value U pending s k : separated U -> coherent U pending s -> U k -> lookup pending s k = value pending s k.
Proof.
  intros Hsep (_ & _ & Hc) Hk. unfold lookup, value. destruct (pending k) eqn:Ep; [done|].
  destruct (Lru.Exists (lru s) (hk k)) eqn:Ee; [|done]. destruct (Hc _ Ee) as (k' & Hk' & Hh & Hor).
  rewrite <- (Hsep k k' Hk Hk' Hh) in Hor. destruct Hor as [Hin|[b Hb]]; [|congruence]. by rewrite bool_decide_eq_true_2.
Qed.

(** A lookup that finds the key on disk puts it into the cache. *)
Lemma cached_coherent U pending s k : coherent U pending s -> dbk k ∈ disk s ->
  coherent U pending (mkStore (Lru.Put (lru s) (hk k) 1) (disk s)).
Proof.
  intros (Hp & Hd & Hc) Hk. split; [done|]. split; [done|]. cbn. intros h [<-|Hh]%Lru.Exists_Put; [|eauto].
  destruct (Hd _ Hk) as (k' & E & HU). apply (inj dbk) in E as <-. eauto.
Qed.

(** More may be pending. *)
Lemma pending_coherent U (p p' : K -> option bool) s :
  coherent U p s -> (forall k, is_Some (p k) -> is_Some (p' k)) -> (forall k, is_Some (p' k) -> U k) -> coherent U p' s.
Proof.
  intros (Hp & Hd & Hc) Hpp HU. split; [done|]. split; [done|]. intros h Hh. destruct (Hc h Hh) as (k & ? & ? & Hor).
  exists k. split; [done|]. split; [done|]. destruct Hor; auto.
Qed.

(** A step that is asked for changes neither the values nor coherence. *)
Lemma step_value pending s op k : asked pending op -> value pending (step s op) k = value pending s k.
Proof.
  intros Ha. unfold value. destruct (pending k) eqn:Ep; [done|]. destruct op as [h|h|k'|k']; cbn in *; try done;
    apply bool_decide_ext; (assert (k' <> k) by congruence); (assert (dbk k <> dbk k') by (intros ?%(inj dbk); congruence));
    set_solver.
Qed.

Lemma step_coherent U pending s op : asked pending op -> coherent U pending s -> coherent U pending (step s op).
Proof.
  intros Ha (Hp & Hd & Hc). split; [done|]. destruct op as [h|h|k|k]; cbn in *; (split; [try done|]).
  - intros j Hj. destruct (Lru.Exists_Put _ _ _ _ Hj) as [<-|Hj']; [|eauto]. destruct Ha as (k & -> & Ha). exists k. eauto.
  - intros j Hj. apply Lru.Exists_Erase in Hj as [_ Hj]. eauto.
  - intros x. rewrite elem_of_union, elem_of_singleton. intros [Hx| ->]; eauto.
  - intros j Hj. destruct (Hc _ Hj) as (k' & Hk' & -> & Hor). exists k'. split; [done|]. split; [done|]. set_solver.
  - intros x. rewrite elem_of_difference. intros [Hx _]. eauto.
  - intros j Hj. destruct (Hc _ Hj) as (k' & Hk' & -> & Hor). exists k'. split; [done|]. split; [done|].
    destruct (decide (k' = k)) as [->|Hn]; [right; eauto|]. destruct Hor as [Hin|]; [left|by right].
    rewrite elem_of_difference, elem_of_singleton. split; [done|]. by intros ?%(inj dbk).
Qed.

Lemma steps_value pending ops : Forall (asked pending) ops -> forall s k, value pending (foldl step s ops) k = value pending s k.
Proof. induction 1 as [|op ops Ha _ IH]; intros s k; [done|]. cbn. by rewrite IH, step_value. Qed.

Lemma steps_coherent U pending ops : Forall (asked pending) ops -> forall s, coherent U pending s -> coherent U pending (foldl step s ops).
Proof. induction 1 as [|op ops Ha _ IH]; intros s Hc; [done|]. cbn. by apply IH, step_coherent. Qed.

(** What was asked for and done stays done. *)
Lemma written pending ops k : Forall (asked pending) ops -> pending k = Some true ->
  forall s, Write k ∈ ops \/ dbk k ∈ disk s -> dbk k ∈ disk (foldl step s ops).
Proof.
  intros Ha Hk. induction Ha as [|op ops Ho _ IH]; intros s Hor; cbn; [destruct Hor as [?%not_elem_of_nil|]; done|].
  apply IH. rewrite elem_of_cons in Hor. destruct op as [h|h|k'|k']; cbn in *; try (destruct Hor as [[|]|]; by auto).
  - destruct Hor as [[[= <-]|]|]; [right; set_solver|by left|right; set_solver].
  - destruct Hor as [[|]|Hin]; [done|by left|right]. rewrite elem_of_difference, elem_of_singleton. split; [done|].
    intros ?%(inj dbk). congruence.
Qed.

Lemma deleted pending ops k : Forall (asked pending) ops -> pending k = Some false ->
  forall s, Delete k ∈ ops \/ dbk k ∉ disk s -> dbk k ∉ disk (foldl step s ops).
Proof.
  intros Ha Hk. induction Ha as [|op ops Ho _ IH]; intros s Hor; cbn; [destruct Hor as [?%not_elem_of_nil|]; done|].
  apply IH. rewrite elem_of_cons in Hor. destruct op as [h|h|k'|k']; cbn in *; try (destruct Hor as [[|]|]; by auto).
  - destruct Hor as [[|]|Hn]; [done|by left|right]. rewrite elem_of_union, elem_of_singleton. intros [|?%(inj dbk)]; [done|congruence].
  - destruct Hor as [[[= <-]|]|]; [right; set_solver|by left|right; set_solver].
Qed.

Lemma uncached U pending ops k : separated U -> (forall k, is_Some (pending k) -> U k) ->
  Forall (asked pending) ops -> pending k = Some false ->
  forall s, Erase (hk k) ∈ ops \/ Lru.Exists (lru s) (hk k) = false -> Lru.Exists (lru (foldl step s ops)) (hk k) = false.
Proof.
  intros Hsep HU Ha Hk. induction Ha as [|op ops Ho _ IH]; intros s Hor; cbn; [destruct Hor as [?%not_elem_of_nil|]; done|].
  apply IH. rewrite elem_of_cons in Hor. destruct op as [h|h|k'|k']; cbn in *; try (destruct Hor as [[|]|]; by auto).
  - destruct Hor as [[|]|Hn]; [done|by left|right]. apply not_true_is_false. intros [->|He]%Lru.Exists_Put; [|congruence].
    destruct Ho as (k' & Hh & Hk'). rewrite (Hsep k k') in Hk by eauto. congruence.
  - destruct Hor as [[[= <-]|]|Hn]; [right|by left|right]; apply not_true_is_false; intros [? ?]%Lru.Exists_Erase; congruence.
Qed.

(** All the pending changes are among the steps. *)
Definition complete (pending : K -> option bool) (ops : list Op) : Prop :=
  forall k b, pending k = Some b -> if b : bool then Write k ∈ ops else Delete k ∈ ops /\ Erase (hk k) ∈ ops.

Definition none (k : K) : option bool := None.

Lemma dumped U pending ops s : separated U -> coherent U pending s -> Forall (asked pending) ops -> complete pending ops ->
  let s' := foldl step s ops in
  (forall k, value none s' k = value pending s k) /\ coherent U none s'.
Proof.
  intros Hsep Hc Ha Hall. cbn. assert (Hv : forall k, value none (foldl step s ops) k = value pending s k).
  { intros k. rewrite <- (steps_value pending ops Ha s k). unfold value, none. destruct (pending k) as [[]|] eqn:Ep; [| |done].
    - apply bool_decide_eq_true_2, (written pending); [done..|]. left. apply (Hall k true Ep).
    - apply bool_decide_eq_false_2, (deleted pending); [done..|]. left. apply (Hall k false Ep). }
  split; [done|]. destruct (steps_coherent U pending ops Ha s Hc) as (HU & Hd & Hl). split; [by intros k []|]. split; [done|].
  intros h Hh. destruct (Hl h Hh) as (k & Hk & -> & Hor). exists k. split; [done|]. split; [done|]. left.
  destruct Hor as [|[b Hb]]; [done|]. destruct b.
  - apply (written pending); [done..|]. left. apply (Hall k true Hb).
  - exfalso. rewrite (uncached U pending) in Hh; [done..|]. left. apply (Hall k false Hb).
Qed.
End Flags.
End Flags.

(** ** Which step of a dump touches what *)

Inductive Kind := Assets | Balances | Verifiers | Qualifiers | Restrictions | GlobalRestrictions.

Definition kind (op : StoreOp) : Kind :=
  match op with
  | CacheErase _ | CachePut _ _ | WriteAssetData _ _ _ | EraseAssetData _ => Assets
  | VerifierCacheErase _ | WriteVerifier _ _ | EraseVerifier _ => Verifiers
  | QualifierCacheErase _ | QualifierCachePut _ | WriteAddressQualifier _ _ | EraseAddressQualifier _ _
  | WriteQualifierAddress _ _ | EraseQualifierAddress _ _ => Qualifiers
  | RestrictionCacheErase _ | RestrictionCachePut _ | WriteRestrictedAddress _ _ | EraseRestrictedAddress _ _ => Restrictions
  | GlobalCacheErase _ | GlobalCachePut _ | WriteGlobalRestriction _ | EraseGlobalRestriction _ => GlobalRestrictions
  | _ => Balances
  end.

Section DumpInversion.
Variables (fAssetIndex : bool) (c : CAssetsCache).

(** The steps of a kind, by the loop they come from. *)
Definition origin (op : StoreOp) (K : Kind) : Prop :=
  match K with
  | Assets =>
      (exists name e, toRemove (setNewAssets c) !! name = Some e /\ op ∈ removed_asset_ops fAssetIndex name e) \/
      (exists name e, toAdd (setNewAssets c) !! name = Some e /\ op ∈ new_asset_ops fAssetIndex name e) \/
      (exists out e, toAdd (setNewReissue c) !! out = Some e /\ op ∈ reissue_ops fAssetIndex c out e) \/
      (exists out e, toRemove (setNewReissue c) !! out = Some e /\ op ∈ undo_reissue_ops fAssetIndex c out e)
  | Verifiers =>
      (exists name e, toRemove (setNewAssets c) !! name = Some e /\ op = EraseVerifier name) \/
      (exists name e, toAdd (setNewRestrictedVerifier c) !! name = Some e /\ op ∈ new_verifier_ops name e) \/
      (exists name e, toRemove (setNewRestrictedVerifier c) !! name = Some e /\ op ∈ undo_verifier_ops name e)
  | Qualifiers =>
      (exists k t, toAdd (setNewQualifierAddress c) !! k = Some t /\ op ∈ qualifier_ops fAssetIndex k t) \/
      (exists k t, toRemove (setNewQualifierAddress c) !! k = Some t /\ op ∈ undo_qualifier_ops fAssetIndex k t)
  | Restrictions =>
      (exists k t, toAdd (setNewRestrictedAddress c) !! k = Some t /\ op ∈ restricted_ops k t) \/
      (exists k t, toRemove (setNewRestrictedAddress c) !! k = Some t /\ op ∈ undo_restricted_ops k t)
  | GlobalRestrictions =>
      (exists k t, toAdd (setNewRestrictedGlobal c) !! k = Some t /\ op ∈ global_ops k t) \/
      (exists k t, toRemove (setNewRestrictedGlobal c) !! k = Some t /\ op ∈ undo_global_ops k t)
  | Balances => True
  end.

Lemma elem_of_indexed op ops : op ∈ indexed fAssetIndex ops -> op ∈ ops.
Proof. unfold indexed. destruct fAssetIndex; [done|]. by intros ?%not_elem_of_nil. Qed.

Lemma write_balance_kind op n a v : op ∈ write_balance n a v -> kind op = Balances.
Proof. unfold write_balance. rewrite !elem_of_cons, elem_of_nil. by intros [->|[->|[]]]. Qed.

Lemma erase_balance_kind op n a : op ∈ erase_balance n a -> kind op = Balances.
Proof. unfold erase_balance. rewrite !elem_of_cons, elem_of_nil. by intros [->|[->|[]]]. Qed.

Lemma store_balance_kind op n a v : op ∈ store_balance n a v -> kind op = Balances.
Proof. unfold store_balance. destruct (v =? 0); eauto using write_balance_kind, erase_balance_kind. Qed.

Lemma with_balance_kind op n a k :
  (forall v, op ∈ k v -> kind op = Balances) -> op ∈ with_balance c n a k -> kind op = Balances.
Proof. unfold with_balance. destruct (_ !! _); [eauto|]. intros _ []%not_elem_of_nil. Qed.

Lemma positive_balance_kind op n a v : op ∈ (if v >? 0 then write_balance n a v else []) -> kind op = Balances.
Proof. destruct (v >? 0); [apply write_balance_kind|]. by intros []%not_elem_of_nil. Qed.

Lemma owner_ops_kind op : op ∈ owner_ops c -> kind op = Balances.
Proof.
  unfold owner_ops. rewrite elem_of_app, !elem_of_loop. intros [(n & a & _ & Hop)|(n & a & _ & Hop)].
  - by apply erase_balance_kind in Hop.
  - apply with_balance_kind in Hop; [done|]. intros v. apply positive_balance_kind.
Qed.

Lemma transfer_ops_kind op : op ∈ transfer_ops c -> kind op = Balances.
Proof.
  unfold transfer_ops. rewrite elem_of_app, !elem_of_loop.
  intros [(o & e & _ & Hop)|(o & e & _ & Hop)]; apply with_balance_kind in Hop; try done;
    intros v; [apply store_balance_kind|apply write_balance_kind].
Qed.

Lemma spend_ops_kind op : op ∈ spend_ops c -> kind op = Balances.
Proof.
  unfold spend_ops. rewrite elem_of_app, !elem_of_concat. intros [(l & Hop & Hl)|(l & Hop & Hl)];
    apply list_elem_of_fmap in Hl as (u & -> & _); apply with_balance_kind in Hop; try done;
    intros v; [apply write_balance_kind|apply store_balance_kind].
Qed.

(** Bodies whose steps all have one kind. *)
Lemma tag_ops_kind op n a : op ∈ tag_ops fAssetIndex n a \/ op ∈ untag_ops fAssetIndex n a -> kind op = Qualifiers.
Proof.
  unfold tag_ops, untag_ops, indexed. destruct fAssetIndex; cbn [app]; rewrite !elem_of_cons, elem_of_nil; naive_solver.
Qed.

Lemma freeze_ops_kind op n a : op ∈ freeze_ops n a \/ op ∈ unfreeze_ops n a -> kind op = Restrictions.
Proof. unfold freeze_ops, unfreeze_ops. rewrite !elem_of_cons, elem_of_nil. naive_solver. Qed.

Lemma global_freeze_ops_kind op n : op ∈ global_freeze_ops n \/ op ∈ global_unfreeze_ops n -> kind op = GlobalRestrictions.
Proof. unfold global_freeze_ops, global_unfreeze_ops. rewrite !elem_of_cons, elem_of_nil. naive_solver. Qed.

Lemma dump_origin op : op ∈ dump_ops fAssetIndex c -> origin op (kind op).
Proof.
  unfold dump_ops. rewrite !elem_of_app, !elem_of_loop.
  intros [H|[H|[H|[H|[H|[H|[H|[H|[H|[H|[H|[H|[H|[H|H]]]]]]]]]]]]]].
  - destruct H as (n & e & Hs & Hop). pose proof Hop as Hop'. unfold removed_asset_ops in Hop. cbn [app] in Hop.
    rewrite !elem_of_cons in Hop. destruct Hop as [->|[->|[->|Hop]]]; cbn; eauto 6.
    by rewrite (erase_balance_kind _ _ _ (elem_of_indexed _ _ Hop)).
  - destruct H as (n & e & Hs & Hop). pose proof Hop as Hop'. unfold new_asset_ops in Hop. cbn [app] in Hop.
    rewrite !elem_of_cons in Hop. destruct Hop as [->|[->|Hop]]; cbn; eauto 7.
    by rewrite (write_balance_kind _ _ _ _ (elem_of_indexed _ _ Hop)).
  - by rewrite (owner_ops_kind _ (elem_of_indexed _ _ H)).
  - by rewrite (transfer_ops_kind _ (elem_of_indexed _ _ H)).
  - destruct H as (o & e & Hs & Hop). pose proof Hop as Hop'. unfold reissue_ops in Hop. cbn zeta in Hop.
    destruct (mapReissuedAssetData c !! _); [|by apply not_elem_of_nil in Hop]. cbn [app] in Hop.
    rewrite !elem_of_cons in Hop. destruct Hop as [->|[->|Hop]]; cbn; eauto 8.
    apply elem_of_indexed, with_balance_kind in Hop; [by rewrite Hop|]. intros v. apply positive_balance_kind.
  - destruct H as (o & e & Hs & Hop). pose proof Hop as Hop'. unfold undo_reissue_ops in Hop. cbn zeta in Hop.
    destruct (count _ _); [by apply not_elem_of_nil in Hop|].
    destruct (mapReissuedAssetData c !! _); [|by apply not_elem_of_nil in Hop]. cbn [app] in Hop.
    rewrite !elem_of_cons, elem_of_app, elem_of_cons, elem_of_nil in Hop. destruct Hop as [->|[Hop|[->|[]]]]; cbn; eauto 8.
    apply elem_of_indexed, with_balance_kind in Hop; [by rewrite Hop|]. intros v. apply store_balance_kind.
  - destruct H as (n & e & Hs & Hop). pose proof Hop as Hop'. unfold new_verifier_ops in Hop.
    rewrite !elem_of_cons, elem_of_nil in Hop. destruct Hop as [->|[->|[]]]; cbn; eauto 7.
  - destruct H as (n & e & Hs & Hop). pose proof Hop as Hop'. unfold undo_verifier_ops in Hop.
    rewrite !elem_of_cons, elem_of_nil in Hop. destruct (fUndoingRessiue e), Hop as [->|[->|[]]]; cbn; eauto 7.
  - destruct H as (k & [] & Hs & Hop); cbn in Hop; rewrite (tag_ops_kind op k.1 k.2) by auto; cbn; eauto.
  - destruct H as (k & [] & Hs & Hop); cbn in Hop; rewrite (tag_ops_kind op k.1 k.2) by auto; cbn; eauto.
  - destruct H as (k & [] & Hs & Hop); cbn in Hop; try (by apply not_elem_of_nil in Hop);
      rewrite (freeze_ops_kind op k.1 k.2) by auto; cbn; eauto.
  - destruct H as (k & [] & Hs & Hop); cbn in Hop; try (by apply not_elem_of_nil in Hop);
      rewrite (freeze_ops_kind op k.1 k.2) by auto; cbn; eauto.
  - destruct H as (k & [] & Hs & Hop); cbn in Hop; try (by apply not_elem_of_nil in Hop);
      rewrite (global_freeze_ops_kind op k) by auto; cbn; eauto.
  - destruct H as (k & [] & Hs & Hop); cbn in Hop; try (by apply not_elem_of_nil in Hop);
      rewrite (global_freeze_ops_kind op k) by auto; cbn; eauto.
  - by rewrite (spend_ops_kind _ (elem_of_indexed _ _ H)).
Qed.

(** The other way: each loop of flags is part of the dump. *)
Lemma dump_restricted k t op :
  (toAdd (setNewRestrictedAddress c) !! k = Some t /\ op ∈ restricted_ops k t) \/
  (toRemove (setNewRestrictedAddress c) !! k = Some t /\ op ∈ undo_restricted_ops k t) -> op ∈ dump_ops fAssetIndex c.
Proof. unfold dump_ops. rewrite !elem_of_app, !elem_of_loop. intros [[? ?]|[? ?]]; eauto 20. Qed.

Lemma dump_global k t op :
  (toAdd (setNewRestrictedGlobal c) !! k = Some t /\ op ∈ global_ops k t) \/
  (toRemove (setNewRestrictedGlobal c) !! k = Some t /\ op ∈ undo_global_ops k t) -> op ∈ dump_ops fAssetIndex c.
Proof. unfold dump_ops. rewrite !elem_of_app, !elem_of_loop. intros [[? ?]|[? ?]]; eauto 20. Qed.

Lemma dump_qualifier k t op :
  (toAdd (setNewQualifierAddress c) !! k = Some t /\ op ∈ qualifier_ops fAssetIndex k t) \/
  (toRemove (setNewQualifierAddress c) !! k = Some t /\ op ∈ undo_qualifier_ops fAssetIndex k t) -> op ∈ dump_ops fAssetIndex c.
Proof. unfold dump_ops. rewrite !elem_of_app, !elem_of_loop. intros [[? ?]|[? ?]]; eauto 20. Qed.
End DumpInversion.
