(* ===== verification/AssetsFreeze.v ===== *)
(** * Frozen addresses and frozen assets

    The commands that freeze an address for a restricted asset, or the asset
    everywhere, go through the working cache of a block, the cache of the tip,
    a memory cache and a database.  [freezes_refine] shows that this machinery
    is a set: whatever commands are connected or undone, whenever the caches
    are flushed or dumped, and wherever the disk fails, a lookup against the
    tip answers membership in the set the connected blocks have built. *)

From Stdlib Require Import String.
From stdpp Require Import gmap list fin_maps.
From S2P Require Import Prelude Bytes Text Coins AssetFormat LruCache AssetsCache AssetsDump AssetsLayers.

(** ** The specification *)

Module Spec.
Record State := mkState {
  frozen : gset (list Z * list Z);               (* asset, address; at the tip *)
  frozen_all : gset (list Z);
  pending : gmap (list Z * list Z) bool;         (* by the block being processed *)
  pending_all : gmap (list Z) bool
}.

Section Apply.
Context {K : Type} `{Countable K}.

Definition apply (m : gmap K bool) (s : gset K) : gset K :=
  filter (fun k => m !! k <> Some false) s ∪ dom (filter (fun p => p.2 = true) m).

Lemma elem_of_apply m s k : k ∈ apply m s <-> (match m !! k with Some b => b = true | None => k ∈ s end).
Proof.
  unfold apply. rewrite elem_of_union, elem_of_filter, elem_of_dom.
  unfold is_Some. setoid_rewrite map_lookup_filter_Some. cbn.
  destruct (m !! k) as [[]|]; naive_solver.
Qed.

Lemma apply_value m s k : bool_decide (k ∈ apply m s) = match m !! k with Some b => b | None => bool_decide (k ∈ s) end.
Proof.
  pose proof (elem_of_apply m s k) as E. destruct (m !! k) as [[]|].
  - apply bool_decide_eq_true_2. by apply E.
  - apply bool_decide_eq_false_2. by rewrite E.
  - by apply bool_decide_ext.
Qed.
End Apply.
End Spec.

(** The commands of blocks, connected or undone; the end of a block; writing
    to disk; and the lookups.  [Other] is any other change to the working
    cache. *)
Inductive Cmd :=
  | Freeze (undo : bool) (name address : list Z) (b : bool)
  | FreezeAll (undo : bool) (name : list Z) (b : bool)
  | Other (c : CAssetsCache)
  | EndBlock
  | Dump (writes_left : option nat)
  | Ask (name address : list Z)
  | AskAll (name : list Z).

Definition address_type (b : bool) : RestrictedType := if b then FREEZE_ADDRESS else UNFREEZE_ADDRESS.
Definition global_type (b : bool) : RestrictedType := if b then GLOBAL_FREEZE else GLOBAL_UNFREEZE.

Section Run.
Variable fAssetIndex : bool.

Definition run_cmd (st : CAssetsCache * Globals) (cmd : Cmd) : option bool * (CAssetsCache * Globals) :=
  let '(c, g) := st in
  match cmd with
  | Freeze undo n a b =>
      (None, ((if undo then RemoveRestrictedAddress else AddRestrictedAddress) c n a (address_type b), g))
  | FreezeAll undo n b =>
      (None, ((if undo then RemoveGlobalRestricted else AddGlobalRestricted) c n (global_type b), g))
  | Other c' => (None, (with_globals (with_restricted c' (setNewRestrictedAddress c)) (setNewRestrictedGlobal c), g))
  | EndBlock => (None, (no_assets, FlushAssets c g))
  | Dump left_ => (None, (c, snd (DumpCacheToDatabase fAssetIndex left_ g)))
  | Ask n a => let '(r, g) := CheckForAddressRestriction c g n a true in (Some r, (c, g))
  | AskAll n => let '(r, g) := CheckForGlobalRestriction c g n true in (Some r, (c, g))
  end.

Definition spec_cmd (s : Spec.State) (cmd : Cmd) : option bool * Spec.State :=
  let '(Spec.mkState f fa p pa) := s in
  match cmd with
  | Freeze undo n a b => (None, Spec.mkState f fa (<[(n, a) := xorb undo b]> p) pa)
  | FreezeAll undo n b => (None, Spec.mkState f fa p (<[n := xorb undo b]> pa))
  | Other _ | Dump _ => (None, s)
  | EndBlock => (None, Spec.mkState (Spec.apply p f) (Spec.apply pa fa) ∅ ∅)
  | Ask n a => (Some (bool_decide ((n, a) ∈ f)), s)
  | AskAll n => (Some (bool_decide (n ∈ fa)), s)
  end.

Fixpoint run {S : Type} (step : S -> Cmd -> option bool * S) (s : S) (cmds : list Cmd) : list bool :=
  match cmds with
  | [] => []
  | cmd :: cmds => let '(o, s) := step s cmd in option_list o ++ run step s cmds
  end.
End Run.

(** ** The two stores *)

Definition swap (k : list Z * list Z) : list Z * list Z := (k.2, k.1).
Definition hash_key (k : list Z * list Z) : list Z := GetHashHex k.1 k.2.

#[export] Instance swap_inj : Inj (=) (=) swap.
Proof. intros [] [] [=]. by subst. Qed.

Definition address_store (g : Globals) : Flags.Store (D := list Z * list Z) :=
  Flags.mkStore (passetsRestrictionCache g) (db_restrictedAddress (prestricteddb g)).
Definition global_store (g : Globals) : Flags.Store (D := list Z) :=
  Flags.mkStore (passetsGlobalRestrictionCache g) (db_globalRestriction (prestricteddb g)).

Definition address_op (op : StoreOp) : option (Flags.Op (K := list Z * list Z)) :=
  match op with
  | RestrictionCacheErase key => Some (Flags.Erase key)
  | RestrictionCachePut key => Some (Flags.Put key)
  | WriteRestrictedAddress address name => Some (Flags.Write (name, address))
  | EraseRestrictedAddress address name => Some (Flags.Delete (name, address))
  | _ => None
  end.
Definition global_op (op : StoreOp) : option (Flags.Op (K := list Z)) :=
  match op with
  | GlobalCacheErase name => Some (Flags.Erase name)
  | GlobalCachePut name => Some (Flags.Put name)
  | WriteGlobalRestriction name => Some (Flags.Write name)
  | EraseGlobalRestriction name => Some (Flags.Delete name)
  | _ => None
  end.

Lemma address_steps ops : forall g,
  address_store (foldl step g ops) = foldl (Flags.step swap) (address_store g) (omap address_op ops).
Proof.
  induction ops as [|op ops IH]; intros g; [done|]. cbn [foldl omap list_omap]. rewrite IH.
  destruct g as [p pc vc qc rc gc adb [v aq qa r gr]]. by destruct op.
Qed.

Lemma global_steps ops : forall g,
  global_store (foldl step g ops) = foldl (Flags.step id) (global_store g) (omap global_op ops).
Proof.
  induction ops as [|op ops IH]; intros g; [done|]. cbn [foldl omap list_omap]. rewrite IH.
  destruct g as [p pc vc qc rc gc adb [v aq qa r gr]]. by destruct op.
Qed.

(** What a command says when connected, and when undone. *)
Definition froze (t : RestrictedType) : bool := bool_decide (t = FREEZE_ADDRESS).
Definition unfroze (t : RestrictedType) : bool := bool_decide (t = UNFREEZE_ADDRESS).
Definition froze_all (t : RestrictedType) : bool := bool_decide (t = GLOBAL_FREEZE).
Definition unfroze_all (t : RestrictedType) : bool := bool_decide (t = GLOBAL_UNFREEZE).

Definition says_address (c : CAssetsCache) : list Z * list Z -> option bool :=
  says froze unfroze (setNewRestrictedAddress c).
Definition says_global (c : CAssetsCache) : list Z -> option bool :=
  says froze_all unfroze_all (setNewRestrictedGlobal c).

(** The sets hold commands of their kind, each key in one of the two. *)
Definition typed_dirty {K} `{Countable K} (type : bool -> RestrictedType) (d : Dirty K RestrictedType) : Prop :=
  disjoint_dirty d /\
  (forall k t, toAdd d !! k = Some t \/ toRemove d !! k = Some t -> exists b, t = type b).

Definition typed (c : CAssetsCache) : Prop :=
  typed_dirty address_type (setNewRestrictedAddress c) /\ typed_dirty global_type (setNewRestrictedGlobal c).

(** ** The steps of a dump are those the pending changes ask for *)

Lemma says_add {B} {K E} `{Countable K} (did undid : E -> B) (d : Dirty K E) k e :
  disjoint_dirty d -> toAdd d !! k = Some e -> says did undid d k = Some (did e).
Proof. intros Hd Ha. unfold says. destruct (Hd k) as [|Hr]; [congruence|]. by rewrite Hr, Ha. Qed.

Lemma says_remove {B} {K E} `{Countable K} (did undid : E -> B) (d : Dirty K E) k e :
  toRemove d !! k = Some e -> says did undid d k = Some (undid e).
Proof. intros Hr. unfold says. by rewrite Hr. Qed.

(** A pending value comes from one of the two sets. *)
Lemma says_inv {B} {K E} `{Countable K} (did undid : E -> B) (d : Dirty K E) k b :
  says did undid d k = Some b ->
  (exists e, toAdd d !! k = Some e /\ b = did e) \/ (exists e, toRemove d !! k = Some e /\ b = undid e).
Proof.
  unfold says. destruct (toRemove d !! k); [intros [= <-]; eauto|]. destruct (toAdd d !! k); [|done]. intros [= <-]. eauto.
Qed.

Lemma dump_asked_address idx c : typed c -> Forall (Flags.asked hash_key (says_address c)) (omap address_op (dump_ops idx c)).
Proof.
  intros [[Hd Ht] _]. apply Forall_forall. intros o (op & Hop & Ho)%list_elem_of_omap.
  apply dump_origin in Hop. destruct op; cbn in Ho; try done; injection Ho as <-; cbn in Hop;
    destruct Hop as [(k & t & Hs & Hop)|(k & t & Hs & Hop)];
    (first [pose proof (says_add froze unfroze _ _ _ Hd Hs) as Hp|pose proof (says_remove froze unfroze _ _ _ Hs) as Hp]);
    destruct k as [n a]; destruct t; cbn in Hop; unfold freeze_ops, unfreeze_ops in Hop;
    rewrite ?elem_of_cons, elem_of_nil in Hop; repeat destruct Hop as [Hop|Hop]; try done; simplify_eq;
    first [exact Hp|exists (n, a); split; [reflexivity|exact Hp]].
Qed.

Lemma dump_asked_global idx c : typed c -> Forall (Flags.asked id (says_global c)) (omap global_op (dump_ops idx c)).
Proof.
  intros [_ [Hd Ht]]. apply Forall_forall. intros o (op & Hop & Ho)%list_elem_of_omap.
  apply dump_origin in Hop. destruct op; cbn in Ho; try done; injection Ho as <-; cbn in Hop;
    destruct Hop as [(k & t & Hs & Hop)|(k & t & Hs & Hop)];
    (first [pose proof (says_add froze_all unfroze_all _ _ _ Hd Hs) as Hp|pose proof (says_remove froze_all unfroze_all _ _ _ Hs) as Hp]);
    destruct t; cbn in Hop; unfold global_freeze_ops, global_unfreeze_ops in Hop;
    rewrite ?elem_of_cons, elem_of_nil in Hop; repeat destruct Hop as [Hop|Hop]; try done; simplify_eq;
    first [exact Hp|exists k; split; [reflexivity|exact Hp]].
Qed.

Lemma dump_has_address idx c n a b op : typed c -> says_address c (n, a) = Some b ->
  op ∈ (if b then freeze_ops n a else unfreeze_ops n a) -> op ∈ dump_ops idx c.
Proof.
  intros [[Hd Ht] _] Hs Hop. apply says_inv in Hs as [(e & He & ->)|(e & He & ->)];
    apply (dump_restricted idx c (n, a) e); [left|right]; (split; [exact He|]);
    destruct (Ht (n, a) e ltac:(auto)) as [[] ->]; exact Hop.
Qed.

Lemma dump_has_global idx c n b op : typed c -> says_global c n = Some b ->
  op ∈ (if b then global_freeze_ops n else global_unfreeze_ops n) -> op ∈ dump_ops idx c.
Proof.
  intros [_ [Hd Ht]] Hs Hop. apply says_inv in Hs as [(e & He & ->)|(e & He & ->)];
    apply (dump_global idx c n e); [left|right]; (split; [exact He|]);
    destruct (Ht n e ltac:(auto)) as [[] ->]; exact Hop.
Qed.

Lemma dump_complete_address idx c : typed c -> Flags.complete hash_key (says_address c) (omap address_op (dump_ops idx c)).
Proof.
  intros Ht [n a] b Hs. pose proof (fun op => dump_has_address idx c n a b op Ht Hs) as Hall.
  destruct b; [|split]; apply list_elem_of_omap;
    [exists (WriteRestrictedAddress a n)|exists (EraseRestrictedAddress a n)|exists (RestrictionCacheErase (GetHashHex n a))];
    (split; [apply Hall|reflexivity]); unfold freeze_ops, unfreeze_ops; rewrite !elem_of_cons; auto.
Qed.

Lemma dump_complete_global idx c : typed c -> Flags.complete id (says_global c) (omap global_op (dump_ops idx c)).
Proof.
  intros Ht n b Hs. pose proof (fun op => dump_has_global idx c n b op Ht Hs) as Hall.
  destruct b; [|split]; apply list_elem_of_omap;
    [exists (WriteGlobalRestriction n)|exists (EraseGlobalRestriction n)|exists (GlobalCacheErase n)];
    (split; [apply Hall|reflexivity]); unfold global_freeze_ops, global_unfreeze_ops; rewrite !elem_of_cons; auto.
Qed.

(** ** Simulation *)

Lemma flush_typed {K} `{Countable K, !KeyOrder K} type (d p : Dirty K RestrictedType) :
  typed_dirty type d -> typed_dirty type p -> typed_dirty type (flush_over d p).
Proof.
  intros [_ Hd] [Hp Ht]. split; [by apply flush_over_disjoint|]. intros k t Hor.
  pose proof (flush_over_lookup d p k) as E. unfold at_key in E.
  destruct (toRemove d !! k) eqn:Er, (toAdd d !! k) eqn:Ea; injection E as E1 E2; rewrite E1, E2 in Hor; naive_solver.
Qed.

Lemma changed_typed {K} `{Countable K} type (d : Dirty K RestrictedType) (undo : bool) k b :
  typed_dirty type d -> typed_dirty type ((if undo then remove_over else add_over) k (type b) d).
Proof.
  intros [Hd Ht]. split; [destruct undo; [by apply remove_over_disjoint|by apply add_over_disjoint]|].
  intros j t Hor. destruct undo; cbn in Hor; rewrite delete_lookup, insert_lookup in Hor; case_decide; naive_solver.
Qed.

Lemma clean_typed {K} `{Countable K} type : typed_dirty type (clean : Dirty K RestrictedType).
Proof. split; [apply clean_disjoint|]. intros k t. cbn. rewrite !lookup_empty. by intros []. Qed.

Section Simulation.
Variable fAssetIndex : bool.
(** The pairs that occur, which their hashes tell apart. *)
Variable U : list Z * list Z -> Prop.
Hypothesis Hsep : Flags.separated hash_key U.

Definition coherent (g : Globals) : Prop :=
  Flags.coherent hash_key swap U (says_address (passets g)) (address_store g) /\
  Flags.coherent id id (fun _ => True) (says_global (passets g)) (global_store g).

Definition represents (st : CAssetsCache * Globals) (s : Spec.State) : Prop :=
  let '(c, g) := st in
  typed c /\ typed (passets g) /\ coherent g /\
  (forall k, says_address c k = Spec.pending s !! k) /\ (forall k, is_Some (Spec.pending s !! k) -> U k) /\
  (forall k, says_global c k = Spec.pending_all s !! k) /\
  (forall k, Flags.value swap (says_address (passets g)) (address_store g) k = bool_decide (k ∈ Spec.frozen s)) /\
  (forall k, Flags.value id (says_global (passets g)) (global_store g) k = bool_decide (k ∈ Spec.frozen_all s)).

Definition in_universe (cmd : Cmd) : Prop :=
  match cmd with Freeze _ n a _ | Ask n a => U (n, a) | _ => True end.

Lemma CheckForAddressRestriction_lookup c g n a :
  fst (CheckForAddressRestriction c g n a true) = Flags.lookup hash_key swap (says_address (passets g)) (address_store g) (n, a).
Proof.
  unfold CheckForAddressRestriction, Flags.lookup, says_address, says.
  destruct (toRemove _ !! (n, a)); [done|]. destruct (toAdd _ !! (n, a)); [done|]. cbn.
  unfold hash_key. cbn [fst snd]. destruct (Lru.Exists _ _); [done|]. by destruct (bool_decide _).
Qed.

Lemma CheckForAddressRestriction_cached c g n a :
  let g' := snd (CheckForAddressRestriction c g n a true) in
  g' = g \/ (swap (n, a) ∈ Flags.disk (address_store g) /\
             g' = set_restrictionCache g (Lru.Put (passetsRestrictionCache g) (hash_key (n, a)) 1)).
Proof.
  unfold CheckForAddressRestriction. destruct (toRemove _ !! (n, a)); [by left|]. destruct (toAdd _ !! (n, a)); [by left|]. cbn.
  destruct (Lru.Exists _ _); [by left|]. case_bool_decide; [right; done|by left].
Qed.

Lemma CheckForGlobalRestriction_lookup c g n :
  fst (CheckForGlobalRestriction c g n true) = Flags.lookup id id (says_global (passets g)) (global_store g) n.
Proof.
  unfold CheckForGlobalRestriction, Flags.lookup, says_global, says.
  destruct (toRemove _ !! n); [done|]. destruct (toAdd _ !! n); [done|]. cbn.
  unfold id. destruct (Lru.Exists _ _); [done|]. by destruct (bool_decide _).
Qed.

Lemma CheckForGlobalRestriction_cached c g n :
  let g' := snd (CheckForGlobalRestriction c g n true) in
  g' = g \/ (n ∈ Flags.disk (global_store g) /\
             g' = set_globalCache g (Lru.Put (passetsGlobalRestrictionCache g) n 1)).
Proof.
  unfold CheckForGlobalRestriction. destruct (toRemove _ !! n); [by left|]. destruct (toAdd _ !! n); [by left|]. cbn.
  destruct (Lru.Exists _ _); [by left|]. case_bool_decide; [right; done|by left].
Qed.

Lemma steps_passets ops : forall g, passets (foldl step g ops) = passets g.
Proof. induction ops as [|op ops IH]; intros g; [done|]. cbn [foldl]. rewrite IH. by destruct op. Qed.

(** A dump, complete or not, changes no value at the tip. *)
Lemma dump_values left_ g : typed (passets g) -> coherent g ->
  let g' := snd (DumpCacheToDatabase fAssetIndex left_ g) in
  typed (passets g') /\ coherent g' /\
  (forall k, Flags.value swap (says_address (passets g')) (address_store g') k =
             Flags.value swap (says_address (passets g)) (address_store g) k) /\
  (forall k, Flags.value id (says_global (passets g')) (global_store g') k =
             Flags.value id (says_global (passets g)) (global_store g) k).
Proof.
  intros Ht [Hca Hcg]. unfold DumpCacheToDatabase. destruct (exec left_ g _) as [ok g'] eqn:Ee.
  destruct (exec_prefix _ _ _ _ _ Ee) as (dn & rest & Eops & -> & Hok).
  pose proof (dump_asked_address fAssetIndex _ Ht) as Ha. pose proof (dump_asked_global fAssetIndex _ Ht) as Hg.
  destruct ok; cbn [snd].
  - rewrite (Hok eq_refl), app_nil_r in Eops. subst dn. unfold coherent.
    change (address_store (set_passets ?g ?p)) with (address_store g).
    change (global_store (set_passets ?g ?p)) with (global_store g).
    cbn [passets set_passets ClearDirtyCache]. rewrite address_steps, global_steps.
    assert (Hna : forall k, says_address no_assets k = Flags.none k) by (intros; apply says_clean).
    assert (Hng : forall k, says_global no_assets k = Flags.none k) by (intros; apply says_clean).
    destruct (Flags.dumped hash_key swap U _ _ _ Hsep Hca Ha (dump_complete_address fAssetIndex _ Ht)) as [Va Ca].
    destruct (Flags.dumped id id (fun _ => True) _ _ _ ltac:(by intros ???) Hcg Hg (dump_complete_global fAssetIndex _ Ht)) as [Vg Cg].
    split; [split; apply clean_typed|]. split; [split; eapply Flags.pending_coherent; try done|].
    + intros k. rewrite Hna. by intros [].
    + split; intros k; [rewrite <- Va|rewrite <- Vg]; unfold Flags.value; by rewrite ?Hna, ?Hng.
  - rewrite Eops in Ha, Hg. rewrite omap_app in Ha. rewrite omap_app in Hg. apply Forall_app in Ha as [Ha _]. apply Forall_app in Hg as [Hg _].
    unfold coherent. rewrite steps_passets, address_steps, global_steps. split; [done|]. split; [split|split].
    + by apply (Flags.steps_coherent hash_key swap).
    + by apply (Flags.steps_coherent id id).
    + intros k. by apply (Flags.steps_value hash_key swap).
    + intros k. by apply (Flags.steps_value id id).
Qed.

(** Connecting a block's changes to the tip. *)
Lemma flush_values c g s : represents (c, g) s ->
  let g' := FlushAssets c g in
  typed (passets g') /\ coherent g' /\
  (forall k, Flags.value swap (says_address (passets g')) (address_store g') k =
             bool_decide (k ∈ Spec.apply (Spec.pending s) (Spec.frozen s))) /\
  (forall k, Flags.value id (says_global (passets g')) (global_store g') k =
             bool_decide (k ∈ Spec.apply (Spec.pending_all s) (Spec.frozen_all s))).
Proof.
  intros ([Hta Htg] & [Hpa Hpg] & [Hca Hcg] & Ha & HU & Hg & Va & Vg). cbn zeta.
  change (address_store (FlushAssets c g)) with (address_store g). change (global_store (FlushAssets c g)) with (global_store g).
  assert (Ea : forall k, says_address (passets (FlushAssets c g)) k =
    match says_address c k with Some b => Some b | None => says_address (passets g) k end) by (intros; apply says_flush_over).
  assert (Eg : forall k, says_global (passets (FlushAssets c g)) k =
    match says_global c k with Some b => Some b | None => says_global (passets g) k end) by (intros; apply says_flush_over).
  split; [split; by apply flush_typed|]. split; [split|split].
  - change (address_store (FlushAssets c g)) with (address_store g). eapply Flags.pending_coherent; [exact Hca| |]; intros k; rewrite Ea, Ha.
    + by destruct (Spec.pending s !! k).
    + destruct (Spec.pending s !! k) eqn:E; [intros _; apply HU; by rewrite E|]. apply Hca.
  - change (global_store (FlushAssets c g)) with (global_store g). eapply Flags.pending_coherent; [exact Hcg| |done]; intros k; rewrite Eg, Hg.
    by destruct (Spec.pending_all s !! k).
  - intros k. specialize (Va k). unfold Flags.value in *. rewrite Ea, Ha.
    rewrite Spec.apply_value. by destruct (Spec.pending s !! k).
  - intros k. specialize (Vg k). unfold Flags.value in *. rewrite Eg, Hg.
    rewrite Spec.apply_value. by destruct (Spec.pending_all s !! k).
Qed.

Lemma run_cmd_spec st s cmd : represents st s -> in_universe cmd ->
  fst (run_cmd fAssetIndex st cmd) = fst (spec_cmd s cmd) /\
  represents (snd (run_cmd fAssetIndex st cmd)) (snd (spec_cmd s cmd)).
Proof.
  destruct st as [c g], s as [f fa p pa]. intros Hrep Hin.
  pose proof Hrep as ([Hta Htg] & [Hpa Hpg] & [Hca Hcg] & Ha & HU & Hg & Va & Vg).
  destruct cmd as [undo n a b|undo n b|c'| |left_|n a|n]; cbn [run_cmd spec_cmd fst snd].
  - split; [done|]. cbn [represents]. split; [|split; [done|split; [done|split; [|split; [|split; [|done]]]]]].
    + split; [|by destruct undo]. pose proof (changed_typed address_type _ undo (n, a) b Hta). by destruct undo.
    + intros k. specialize (Ha k). cbn in *. unfold says_address in *.
      destruct undo; cbn; rewrite ?says_add_over, ?says_remove_over, insert_lookup;
        case_decide; [by destruct b|done|by destruct b|done].
    + intros k. cbn. rewrite insert_lookup. case_decide; [by subst|]. apply HU.
    + intros k. specialize (Hg k). by destruct undo.
  - split; [done|]. cbn [represents]. split; [|split; [done|split; [done|split; [|split; [done|split; [|done]]]]]].
    + split; [by destruct undo|]. pose proof (changed_typed global_type _ undo n b Htg). by destruct undo.
    + intros k. specialize (Ha k). by destruct undo.
    + intros k. specialize (Hg k). cbn in *. unfold says_global in *.
      destruct undo; cbn; rewrite ?says_add_over, ?says_remove_over, insert_lookup;
        case_decide; [by destruct b|done|by destruct b|done].
  - done.
  - destruct (flush_values c g _ Hrep) as (Ht' & Hc' & Va' & Vg'). split; [done|]. cbn [represents].
    split; [split; apply clean_typed|]. split; [done|]. split; [done|].
    split; [intros k; cbn; rewrite lookup_empty; apply says_clean|].
    split; [intros k; cbn; rewrite lookup_empty; by intros []|].
    split; [intros k; cbn; rewrite lookup_empty; apply says_clean|]. done.
  - destruct (dump_values left_ g (conj Hpa Hpg) (conj Hca Hcg)) as (Ht' & Hc' & Va' & Vg'). split; [done|]. cbn [represents].
    split; [done|]. split; [done|]. split; [done|]. repeat (split; [done|]).
    split; intros k; [by rewrite Va'|by rewrite Vg'].
  - pose proof (CheckForAddressRestriction_lookup c g n a) as El.
    pose proof (CheckForAddressRestriction_cached c g n a) as Ec.
    destruct (CheckForAddressRestriction c g n a true) as [r g']. cbn [fst snd] in *. subst r.
    rewrite (Flags.lookup_value hash_key swap U) by done. rewrite Va. split; [done|].
    destruct Ec as [->|[Hk ->]]; [exact Hrep|]. repeat (split; [done|]). split; [|done]. split; [|done].
    exact (Flags.cached_coherent hash_key swap U _ (address_store g) (n, a) Hca Hk).
  - pose proof (CheckForGlobalRestriction_lookup c g n) as El.
    pose proof (CheckForGlobalRestriction_cached c g n) as Ec.
    destruct (CheckForGlobalRestriction c g n true) as [r g']. cbn [fst snd] in *. subst r.
    rewrite (Flags.lookup_value id id (fun _ => True)) by (by intros ???||done). rewrite Vg. split; [done|].
    destruct Ec as [->|[Hk ->]]; [exact Hrep|]. repeat (split; [done|]). split; [|done]. split; [done|].
    exact (Flags.cached_coherent id id _ _ (global_store g) n Hcg Hk).
Qed.

Lemma freeze_run_spec cmds : forall st s, represents st s -> Forall in_universe cmds ->
  run (run_cmd fAssetIndex) st cmds = run spec_cmd s cmds.
Proof.
  induction cmds as [|cmd cmds IH]; intros st s Hrep Hin; [done|]. apply Forall_cons in Hin as [Hc Hin]. cbn [run].
  destruct (run_cmd_spec st s cmd Hrep Hc) as [Eo Hr].
  destruct (run_cmd fAssetIndex st cmd), (spec_cmd s cmd). cbn in *. subst. f_equal. by apply IH.
Qed.
End Simulation.

(** The frozen pairs and assets a node finds on disk when it starts. *)
Definition on_disk (g : Globals) : Spec.State :=
  Spec.mkState (set_map swap (db_restrictedAddress (prestricteddb g))) (db_globalRestriction (prestricteddb g)) ∅ ∅.

Lemma separated_pairs {K} (hk : K -> list Z) pairs : NoDup (map hk pairs) -> Flags.separated hk (fun k => k ∈ pairs).
Proof.
  induction pairs as [|p l IH]; cbn; intros Hn k k' Hk Hk' E; [by apply not_elem_of_nil in Hk|].
  apply NoDup_cons in Hn as [Hp Hn]. apply elem_of_cons in Hk, Hk'.
  destruct Hk as [->|Hk], Hk' as [->|Hk']; [done| | |by apply IH]; destruct Hp; apply list_elem_of_fmap; eauto.
Qed.

Lemma start_represents (pairs : list (list Z * list Z)) g :
  passets g = no_assets -> Lru.items (passetsRestrictionCache g) = [] -> Lru.items (passetsGlobalRestrictionCache g) = [] ->
  (forall k, k ∈ db_restrictedAddress (prestricteddb g) -> swap k ∈ pairs) ->
  represents (fun k => k ∈ pairs) (no_assets, g) (on_disk g).
Proof.
  intros Hp Hr Hg Hd.
  assert (Hn : forall k, says_address no_assets k = None) by (intros; apply says_clean).
  assert (Hng : forall k, says_global no_assets k = None) by (intros; apply says_clean).
  assert (Ht : typed no_assets) by (split; apply clean_typed).
  unfold represents. rewrite Hp. split; [done|]. split; [done|]. split; [split|].
  - rewrite Hp. split; [intros k; rewrite Hn; by intros []|]. split.
    + intros x Hx. exists (swap x). split; [by destruct x|]. by apply Hd.
    + intros h. unfold Lru.Exists. cbn. by rewrite Hr.
  - rewrite Hp. split; [done|]. split; [eauto|]. intros h. unfold Lru.Exists. cbn. by rewrite Hg.
  - split; [done|]. split; [intros k; cbn; rewrite lookup_empty; by intros []|]. split; [done|].
    unfold Flags.value. split; intros k; rewrite ?Hn, ?Hng; [|done]. apply bool_decide_ext. cbn. rewrite elem_of_map. split.
    + intros Hk. exists (swap k). split; [by destruct k|done].
    + intros (k' & -> & Hk'). by destruct k'.
Qed.

(** C9: Frozen addresses and frozen assets are two sets.  Start a node on any
    database, with empty memory caches, and run any sequence of commands
    connected ([AddRestrictedAddress], [AddGlobalRestricted]) or undone
    ([Remove...]) in working caches, of any other changes to those caches, of
    flushes to the tip, of dumps to disk, complete or stopped by a disk failure
    after any number of writes, and of lookups against the tip: every lookup
    answers whether the pair, or the asset, is in the set that the flushed
    commands have built, the last one of each key deciding.  The hypothesis is
    that the hashes that key the memory cache tell apart the pairs that
    occur. *)
Theorem freezes_refine (fAssetIndex : bool) (g : Globals) (pairs : list (list Z * list Z)) (cmds : list Cmd) :
  passets g = no_assets -> Lru.items (passetsRestrictionCache g) = [] -> Lru.items (passetsGlobalRestrictionCache g) = [] ->
  NoDup (map hash_key pairs) ->
  (forall k, k ∈ db_restrictedAddress (prestricteddb g) -> swap k ∈ pairs) ->
  Forall (in_universe (fun k => k ∈ pairs)) cmds ->
  run (run_cmd fAssetIndex) (no_assets, g) cmds = run spec_cmd (on_disk g) cmds.
Proof.
  intros Hp Hr Hg Hn Hd Hc. apply (freeze_run_spec fAssetIndex (fun k => k ∈ pairs)); [by apply separated_pairs| |done].
  by apply start_represents.
Qed.

Definition token : list Z := codes "$TOKEN".
Definition alice : list Z := codes "RAlice".
Definition bob : list Z := codes "RBob".

Definition example_globals : Globals :=
  mkGlobals no_assets (Lru.mkLru [] 2500) (Lru.mkLru [] 2500) (Lru.mkLru [] 2500) (Lru.mkLru [] 2500) (Lru.mkLru [] 2500)
    (mkAssetsDB ∅ ∅ ∅ ∅) (mkRestrictedDB ∅ ∅ ∅ {[ (bob, token) ]} ∅).

Definition example_cmds : list Cmd :=
  [Freeze false token alice true; FreezeAll false token true; Ask token alice; EndBlock; Ask token alice; AskAll token; Ask token bob;
   Freeze false token bob false; EndBlock; Dump (Some 1%nat); Ask token bob; Ask token alice; Dump None; Ask token bob; Ask token alice;
   Freeze true token bob false; EndBlock; Ask token bob; FreezeAll true token true; Freeze true token alice true; EndBlock;
   AskAll token; Ask token alice; Dump None; Ask token bob].

Lemma freezes_refine_witness :
  run spec_cmd (on_disk example_globals) example_cmds =
    [false; true; true; true; false; true; false; true; true; false; false; true] /\
  run (run_cmd true) (no_assets, example_globals) example_cmds = run spec_cmd (on_disk example_globals) example_cmds.
Proof.
  split; [vm_compute; reflexivity|]. apply (freezes_refine true example_globals [(token, alice); (token, bob)] example_cmds).
  - reflexivity.
  - reflexivity.
  - reflexivity.
  - apply (bool_decide_unpack _). vm_compute. exact I.
  - cbn. intros k ->%elem_of_singleton. apply (bool_decide_unpack _). vm_compute. exact I.
  - unfold example_cmds.
    repeat (apply Forall_cons; split; [first [exact I|cbn [in_universe]; apply (bool_decide_unpack _); vm_compute; exact I]|]).
    apply Forall_nil. exact I.
Defined.
