(* ===== verification/AssetsTags.v ===== *)
(** * Tagged addresses

    A qualifier tags addresses; a sub-qualifier [#TAG/#SUB] counts for its
    root [#TAG] too.  [root_tag_found] shows what the database search for a
    root finds.  [tags_refine] shows that, as long as only qualifiers without
    sub-qualifiers are in play, the caches and the database are a set of
    tagged addresses, as in [AssetsFreeze].  [sub_tag_depends_on_dump] shows
    that with sub-qualifiers the answer depends on when the caches were last
    written to disk. *)

From Stdlib Require Import String.
From stdpp Require Import gmap list fin_maps.
From S2P Require Import Prelude Bytes Text Coins Serialize AssetFormat AssetNames NullAssets LruCache AssetsCache AssetsDump AssetsLayers AssetsFreeze.

(** ** The search for a root *)

Definition is_sub (root tag : list Z) : Prop := (root ++ [chr_slash]) `prefix_of` tag.

Definition has_root (db : CRestrictedDB) (address root : list Z) : Prop :=
  exists tag, (address, tag) ∈ db_addressQualifier db /\ (tag = root \/ is_sub root tag).

Lemma string_le_refl s : string_le s s = true.
Proof. induction s as [|x s IH]; [done|]. cbn. by rewrite IH, Z.eqb_refl, orb_true_r. Qed.

Lemma elem_of_tags_from db address root tag :
  tag ∈ tags_from db address root <->
  (address, tag) ∈ db_addressQualifier db /\ string_le (encode string_codec root) (encode string_codec tag) = true.
Proof.
  unfold tags_from. rewrite list_elem_of_filter, list_elem_of_omap. split.
  - intros [Hle ([a t] & Hin & Ht)]. cbn in Ht. case_decide; simplify_eq. rewrite elem_of_elements in Hin. split; [done|].
    by apply Is_true_true.
  - intros [Hin Hle]. split; [by apply Is_true_true|]. exists (address, tag). rewrite elem_of_elements. cbn. by rewrite decide_True.
Qed.

(** The search of the database for a root qualifier, which starts the
    cursor at the root's own key and stops at the first other address, finds
    every sub-qualifier of the root: keys begin with the length of the name,
    so a longer name comes later.  The names are shorter than the 253 bytes
    at which the length takes more than one byte. *)
Theorem root_tag_found (db : CRestrictedDB) (address root : list Z) :
  (forall tag, (address, tag) ∈ db_addressQualifier db -> (length tag < 253)%nat) -> (length root < 253)%nat ->
  CheckForAddressRootQualifier db address root = true <-> has_root db address root.
Proof.
  intros Hlen Hroot. unfold CheckForAddressRootQualifier. rewrite existsb_exists. split.
  - intros (tag & Hin & Ht). apply list_elem_of_In, elem_of_tags_from in Hin as [Hin _]. exists tag. split; [done|].
    rewrite orb_true_iff, !bool_decide_eq_true in Ht. exact Ht.
  - intros (tag & Hin & Hor). exists tag. rewrite <- list_elem_of_In, elem_of_tags_from, orb_true_iff, !bool_decide_eq_true.
    split; [split; [done|]|done]. destruct Hor as [->|[s ->]]; [apply string_le_refl|].
    rewrite !string_short by eauto. cbn [string_le]. rewrite !length_app. cbn [length].
    by rewrite (proj2 (Z.ltb_lt _ _)) by lia.
Qed.

Definition gold : list Z := codes "#GOLD".
Definition gold_us : list Z := codes "#GOLD/#US".

Definition tagged_db : CRestrictedDB := mkRestrictedDB ∅ {[ (alice, gold_us); (bob, codes "#GOLDEN") ]} ∅ ∅ ∅.

(** ** Qualifiers without sub-qualifiers *)

Inductive TagCmd :=
  | Tag (undo : bool) (name address : list Z) (b : bool)
  | OtherChange (c : CAssetsCache)
  | CloseBlock
  | WriteDown (writes_left : option nat)
  | AskTag (name address : list Z).

Definition tag_type (b : bool) : QualifierType := if b then ADD_QUALIFIER else REMOVE_QUALIFIER.

(** The tagged pairs at the tip, and the changes of the block. *)
Record TagSpec := mkTagSpec { tagged : gset (list Z * list Z); tag_pending : gmap (list Z * list Z) bool }.

Section Run.
Variable fAssetIndex : bool.

(** [OtherChange] leaves the tags and the sub-qualifier maps. *)
Definition run_tag (st : CAssetsCache * Globals) (cmd : TagCmd) : option bool * (CAssetsCache * Globals) :=
  let '(c, g) := st in
  match cmd with
  | Tag undo n a b => (None, ((if undo then RemoveQualifierAddress else AddQualifierAddress) c n a (tag_type b), g))
  | OtherChange c' =>
      (None, (with_roots_remove (with_roots_add (with_qualifiers c' (setNewQualifierAddress c)) (mapRootQualifierAddressesAdd c))
                (mapRootQualifierAddressesRemove c), g))
  | CloseBlock => (None, (no_assets, FlushAssets c g))
  | WriteDown left_ => (None, (c, snd (DumpCacheToDatabase fAssetIndex left_ g)))
  | AskTag n a => let '(r, g) := CheckForAddressQualifier c g n a true in (Some r, (c, g))
  end.

Definition spec_tag (s : TagSpec) (cmd : TagCmd) : option bool * TagSpec :=
  match cmd with
  | Tag undo n a b => (None, mkTagSpec (tagged s) (<[(n, a) := xorb undo b]> (tag_pending s)))
  | OtherChange _ | WriteDown _ => (None, s)
  | CloseBlock => (None, mkTagSpec (Spec.apply (tag_pending s) (tagged s)) ∅)
  | AskTag n a => (Some (bool_decide ((n, a) ∈ tagged s)), s)
  end.

Fixpoint run_tags {S : Type} (step : S -> TagCmd -> option bool * S) (s : S) (cmds : list TagCmd) : list bool :=
  match cmds with
  | [] => []
  | cmd :: cmds => let '(o, s) := step s cmd in option_list o ++ run_tags step s cmds
  end.
End Run.

Definition tag_store (g : Globals) : Flags.Store (D := list Z * list Z) :=
  Flags.mkStore (passetsQualifierCache g) (db_addressQualifier (prestricteddb g)).

Definition tag_op (op : StoreOp) : option (Flags.Op (K := list Z * list Z)) :=
  match op with
  | QualifierCacheErase key => Some (Flags.Erase key)
  | QualifierCachePut key => Some (Flags.Put key)
  | WriteAddressQualifier address name => Some (Flags.Write (name, address))
  | EraseAddressQualifier address name => Some (Flags.Delete (name, address))
  | _ => None
  end.

Lemma tag_steps ops : forall g,
  tag_store (foldl step g ops) = foldl (Flags.step swap) (tag_store g) (omap tag_op ops).
Proof.
  induction ops as [|op ops IH]; intros g; [done|]. cbn [foldl omap list_omap]. rewrite IH.
  destruct g as [p pc vc qc rc gc adb [v aq qa r gr]]. by destruct op.
Qed.

(** What a command says when connected, and when undone. *)
Definition gave (t : QualifierType) : bool := bool_decide (t = ADD_QUALIFIER).
Definition took (t : QualifierType) : bool := bool_decide (t = REMOVE_QUALIFIER).

Definition says_tag (c : CAssetsCache) : list Z * list Z -> option bool := says gave took (setNewQualifierAddress c).

Abbreviation tags_disjoint c := (disjoint_dirty (setNewQualifierAddress c)).

Lemma dump_asked_tag idx c : tags_disjoint c -> Forall (Flags.asked hash_key (says_tag c)) (omap tag_op (dump_ops idx c)).
Proof.
  intros Hd. apply Forall_forall. intros o (op & Hop & Ho)%list_elem_of_omap.
  apply dump_origin in Hop. destruct op; cbn in Ho; try done; injection Ho as <-; cbn in Hop;
    destruct Hop as [(k & t & Hs & Hop)|(k & t & Hs & Hop)];
    (first [pose proof (says_add gave took _ _ _ Hd Hs) as Hp|pose proof (says_remove gave took _ _ _ Hs) as Hp]);
    destruct k as [n a]; destruct t; cbn in Hop; unfold tag_ops, untag_ops, indexed in Hop; cbn [app] in Hop;
    destruct idx; rewrite ?elem_of_cons, elem_of_nil in Hop; repeat destruct Hop as [Hop|Hop]; try done; simplify_eq;
    first [exact Hp|exists (n, a); split; [reflexivity|exact Hp]].
Qed.

Lemma dump_has_tag idx c n a b op : says_tag c (n, a) = Some b ->
  op ∈ (if b then tag_ops idx n a else untag_ops idx n a) -> op ∈ dump_ops idx c.
Proof.
  intros Hs Hop. apply says_inv in Hs as [(e & He & ->)|(e & He & ->)];
    apply (dump_qualifier idx c (n, a) e); [left|right]; (split; [exact He|]); destruct e; exact Hop.
Qed.

Lemma dump_complete_tag idx c : Flags.complete hash_key (says_tag c) (omap tag_op (dump_ops idx c)).
Proof.
  intros [n a] b Hs. pose proof (fun op => dump_has_tag idx c n a b op Hs) as Hall.
  destruct b; [|split]; apply list_elem_of_omap;
    [exists (WriteAddressQualifier a n)|exists (EraseAddressQualifier a n)|exists (QualifierCacheErase (GetHashHex n a))];
    (split; [apply Hall|reflexivity]); unfold tag_ops, untag_ops; cbn [app]; rewrite !elem_of_cons; auto.
Qed.

(** A name without a slash has no root. *)
Definition rootless (n : list Z) : Prop := chr_slash ∉ n.

Lemma split_rootless n : rootless n -> (split chr_slash n).2 = [].
Proof.
  induction n as [|x n IH]; [done|]. unfold rootless in *. rewrite not_elem_of_cons. intros [Hx Hn]. cbn.
  specialize (IH Hn). destruct (split chr_slash n) as [front parts]. rewrite (proj2 (Z.eqb_neq _ _)) by auto. exact IH.
Qed.

Lemma rootless_not_sub n : rootless n -> IsAssetNameASubQualifier n = false.
Proof.
  intros Hn. unfold IsAssetNameASubQualifier. pose proof (split_rootless n Hn) as E. destruct (split chr_slash n) as [front parts].
  cbn in E. subst parts. apply andb_false_r.
Qed.

Lemma rootless_no_sub db a n :
  (forall t, (a, t) ∈ db_addressQualifier db -> rootless t) -> (a, n) ∉ db_addressQualifier db ->
  CheckForAddressRootQualifier db a n = false.
Proof.
  intros Hr Hn. apply not_true_is_false. unfold CheckForAddressRootQualifier. rewrite existsb_exists.
  intros (t & Hin & Ht). apply list_elem_of_In, elem_of_tags_from in Hin as [Hin _].
  rewrite orb_true_iff, !bool_decide_eq_true in Ht. destruct Ht as [->|[s ->]]; [done|].
  apply (Hr _ Hin). rewrite !elem_of_app, elem_of_cons. auto.
Qed.

Lemma no_subs root a : has_sub ∅ root a = false.
Proof. unfold has_sub. by rewrite lookup_empty. Qed.

Section Simulation.
Variable fAssetIndex : bool.
Variable U : list Z * list Z -> Prop.
Hypothesis Hsep : Flags.separated hash_key U.
Hypothesis Hroot : forall k, U k -> rootless k.1.

Definition no_roots (c : CAssetsCache) : Prop :=
  mapRootQualifierAddressesAdd c = ∅ /\ mapRootQualifierAddressesRemove c = ∅.

Definition tag_coherent (g : Globals) : Prop :=
  Flags.coherent hash_key swap U (says_tag (passets g)) (tag_store g).

Definition tag_represents (st : CAssetsCache * Globals) (s : TagSpec) : Prop :=
  let '(c, g) := st in
  (tags_disjoint c /\ tags_disjoint (passets g)) /\ (no_roots c /\ no_roots (passets g)) /\ tag_coherent g /\
  (forall k, says_tag c k = tag_pending s !! k) /\ (forall k, is_Some (tag_pending s !! k) -> U k) /\
  (forall k, Flags.value swap (says_tag (passets g)) (tag_store g) k = bool_decide (k ∈ tagged s)).

Definition tag_in_universe (cmd : TagCmd) : Prop := match cmd with Tag _ n a _ | AskTag n a => U (n, a) | _ => True end.

Lemma CheckForAddressQualifier_lookup c g n a : no_roots (passets g) -> tag_coherent g ->
  fst (CheckForAddressQualifier c g n a true) = Flags.lookup hash_key swap (says_tag (passets g)) (tag_store g) (n, a).
Proof.
  intros [Hr _] (_ & Hd & _). unfold CheckForAddressQualifier, Flags.lookup, says_tag, says.
  destruct (toRemove _ !! (n, a)); [done|]. rewrite Hr, !no_subs. destruct (toAdd _ !! (n, a)) as [[]|]; [done..|]. cbn.
  unfold hash_key. cbn [fst snd]. destruct (Lru.Exists _ _); [done|].
  change (swap (n, a)) with (a, n). case_bool_decide as Hin; [done|]. cbn.
  apply rootless_no_sub; [|done]. intros t Ht. destruct (Hd _ Ht) as ([n' a'] & E & HU). injection E as -> ->.
  exact (Hroot _ HU).
Qed.

Lemma CheckForAddressQualifier_cached c g n a :
  let g' := snd (CheckForAddressQualifier c g n a true) in
  g' = g \/ (swap (n, a) ∈ Flags.disk (tag_store g) /\
             g' = set_qualifierCache g (Lru.Put (passetsQualifierCache g) (hash_key (n, a)) 1)).
Proof.
  unfold CheckForAddressQualifier. destruct (toRemove _ !! (n, a)); [by left|]. destruct (toAdd _ !! (n, a)) as [[]|]; [by left..|].
  cbn. destruct (has_sub _ _ _); [by left|]. destruct (Lru.Exists _ _); [by left|]. case_bool_decide; [right; done|by left].
Qed.

Lemma dump_no_roots left_ g : no_roots (passets g) -> no_roots (passets (snd (DumpCacheToDatabase fAssetIndex left_ g))).
Proof.
  intros Hr. unfold DumpCacheToDatabase. destruct (exec left_ g _) as [ok g'] eqn:Ee.
  destruct (exec_prefix _ _ _ _ _ Ee) as (dn & rest & _ & -> & _). destruct ok; [done|]. cbn [snd]. by rewrite steps_passets.
Qed.

Lemma dump_tags left_ g : tags_disjoint (passets g) -> tag_coherent g ->
  let g' := snd (DumpCacheToDatabase fAssetIndex left_ g) in
  tags_disjoint (passets g') /\ tag_coherent g' /\
  (forall k, Flags.value swap (says_tag (passets g')) (tag_store g') k = Flags.value swap (says_tag (passets g)) (tag_store g) k).
Proof.
  intros Ht Hc. unfold DumpCacheToDatabase. destruct (exec left_ g _) as [ok g'] eqn:Ee.
  destruct (exec_prefix _ _ _ _ _ Ee) as (dn & rest & Eops & -> & Hok). pose proof (dump_asked_tag fAssetIndex _ Ht) as Ha.
  destruct ok; cbn [snd].
  - rewrite (Hok eq_refl), app_nil_r in Eops. subst dn. unfold tag_coherent.
    change (tag_store (set_passets ?g ?p)) with (tag_store g). cbn [passets set_passets ClearDirtyCache]. rewrite tag_steps.
    assert (Hn : forall k, says_tag no_assets k = Flags.none k) by (intros; apply says_clean).
    destruct (Flags.dumped hash_key swap U _ _ _ Hsep Hc Ha (dump_complete_tag fAssetIndex _)) as [Va Ca].
    split; [apply clean_disjoint|]. split; [eapply Flags.pending_coherent; try done|].
    + intros k. rewrite Hn. by intros [].
    + intros k. rewrite <- Va. unfold Flags.value. by rewrite Hn.
  - rewrite Eops, omap_app in Ha. apply Forall_app in Ha as [Ha _]. unfold tag_coherent.
    rewrite steps_passets, tag_steps. split; [done|]. split.
    + by apply (Flags.steps_coherent hash_key swap).
    + intros k. by apply (Flags.steps_value hash_key swap).
Qed.

Lemma flush_no_roots c g : no_roots c -> no_roots (passets g) -> no_roots (passets (FlushAssets c g)).
Proof. intros [H1 H2] [H3 H4]. unfold no_roots. cbn. by rewrite H1, H2, H3, H4. Qed.

Lemma flush_tags c g s : tag_represents (c, g) s ->
  let g' := FlushAssets c g in
  tag_coherent g' /\
  (forall k, Flags.value swap (says_tag (passets g')) (tag_store g') k =
             bool_decide (k ∈ Spec.apply (tag_pending s) (tagged s))).
Proof.
  intros (_ & _ & Hc & Ha & HU & Va). cbn zeta. unfold tag_coherent. change (tag_store (FlushAssets c g)) with (tag_store g).
  assert (Ea : forall k, says_tag (passets (FlushAssets c g)) k =
    match says_tag c k with Some b => Some b | None => says_tag (passets g) k end) by (intros; apply says_flush_over).
  split.
  - eapply Flags.pending_coherent; [exact Hc| |]; intros k; rewrite Ea, Ha.
    + by destruct (tag_pending s !! k).
    + destruct (tag_pending s !! k) eqn:E; [intros _; apply HU; by rewrite E|]. apply Hc.
  - intros k. specialize (Va k). unfold Flags.value in *. rewrite Ea, Ha, Spec.apply_value. by destruct (tag_pending s !! k).
Qed.

Lemma run_tag_spec st s cmd : tag_represents st s -> tag_in_universe cmd ->
  fst (run_tag fAssetIndex st cmd) = fst (spec_tag s cmd) /\
  tag_represents (snd (run_tag fAssetIndex st cmd)) (snd (spec_tag s cmd)).
Proof.
  destruct st as [c g]. intros Hrep Hin. pose proof Hrep as ([Hd Hdp] & [Hr Hrp] & Hc & Ha & HU & Va).
  destruct cmd as [undo n a b|c'| |left_|n a]; cbn [run_tag spec_tag fst snd].
  - assert (Ht : forall x, track_root c n a x = c).
    { intros x. unfold track_root. by rewrite (rootless_not_sub n) by apply (Hroot _ Hin). }
    split; [done|]. unfold AddQualifierAddress, RemoveQualifierAddress. split; [split; [|done]|split; [split; [|done]|]].
    + destruct undo; rewrite Ht; [by apply remove_over_disjoint|by apply add_over_disjoint].
    + destruct undo; by rewrite Ht.
    + split; [done|]. split; [|split; [|done]].
      * intros k. specialize (Ha k). unfold says_tag in *. destruct undo; rewrite Ht; cbn [setNewQualifierAddress with_qualifiers tag_pending];
          rewrite ?says_add_over, ?says_remove_over, insert_lookup; case_decide; [by destruct b|done|by destruct b|done].
      * intros k. cbn. rewrite insert_lookup. case_decide; [by subst|]. apply HU.
  - done.
  - destruct (flush_tags c g _ Hrep) as (Hc' & Va'). split; [done|].
    split; [split; [apply clean_disjoint|by apply flush_over_disjoint]|].
    split; [split; [done|by apply flush_no_roots]|]. split; [done|].
    split; [intros k; cbn; rewrite lookup_empty; apply says_clean|].
    split; [intros k; cbn; rewrite lookup_empty; by intros []|]. done.
  - destruct (dump_tags left_ g Hdp Hc) as (Hd' & Hc' & Va'). pose proof (dump_no_roots left_ g Hrp). split; [done|].
    split; [done|]. split; [done|]. split; [done|]. split; [done|]. split; [done|]. intros k. by rewrite Va'.
  - pose proof (CheckForAddressQualifier_lookup c g n a Hrp Hc) as El.
    pose proof (CheckForAddressQualifier_cached c g n a) as Ec.
    destruct (CheckForAddressQualifier c g n a true) as [r g']. cbn [fst snd] in *. subst r.
    rewrite (Flags.lookup_value hash_key swap U) by done. rewrite Va. split; [done|].
    destruct Ec as [->|[Hk ->]]; [exact Hrep|]. split; [done|]. split; [done|]. split; [|done].
    exact (Flags.cached_coherent hash_key swap U _ (tag_store g) (n, a) Hc Hk).
Qed.

Lemma run_tags_spec cmds : forall st s, tag_represents st s -> Forall tag_in_universe cmds ->
  run_tags (run_tag fAssetIndex) st cmds = run_tags spec_tag s cmds.
Proof.
  induction cmds as [|cmd cmds IH]; intros st s Hrep Hin; [done|]. apply Forall_cons in Hin as [Hc Hin]. cbn [run_tags].
  destruct (run_tag_spec st s cmd Hrep Hc) as [Eo Hr].
  destruct (run_tag fAssetIndex st cmd), (spec_tag s cmd). cbn in *. subst. f_equal. by apply IH.
Qed.
End Simulation.

(** The tags a node finds on disk when it starts. *)
Definition tags_on_disk (g : Globals) : TagSpec := mkTagSpec (set_map swap (db_addressQualifier (prestricteddb g))) ∅.

Lemma tags_start_represents (pairs : list (list Z * list Z)) g :
  passets g = no_assets -> Lru.items (passetsQualifierCache g) = [] ->
  (forall k, k ∈ db_addressQualifier (prestricteddb g) -> swap k ∈ pairs) ->
  tag_represents (fun k => k ∈ pairs) (no_assets, g) (tags_on_disk g).
Proof.
  intros Hp Hl Hd. assert (Hn : forall k, says_tag no_assets k = None) by (intros; apply says_clean).
  unfold tag_represents, tag_coherent. rewrite Hp. split; [split; apply clean_disjoint|]. split; [done|]. split; [split; [|split]|].
  - intros k. rewrite Hn. by intros [].
  - intros x Hx. exists (swap x). split; [by destruct x|]. by apply Hd.
  - intros h. unfold Lru.Exists. cbn. by rewrite Hl.
  - split; [done|]. split; [intros k; cbn; rewrite lookup_empty; by intros []|].
    unfold Flags.value. intros k. rewrite Hn. apply bool_decide_ext. cbn. rewrite elem_of_map. split.
    + intros Hk. exists (swap k). split; [by destruct k|done].
    + intros (k' & -> & Hk'). by destruct k'.
Qed.

(** C10: As long as no name has a slash, so that no qualifier is a
    sub-qualifier, tags are a set like frozen addresses: over any sequence of
    tag commands connected or undone, other changes, flushes, dumps that may
    fail anywhere, and lookups, each lookup against the tip answers whether the
    address carries the tag in the set the flushed commands have built. *)
Theorem tags_refine (fAssetIndex : bool) (g : Globals) (pairs : list (list Z * list Z)) (cmds : list TagCmd) :
  passets g = no_assets -> Lru.items (passetsQualifierCache g) = [] ->
  NoDup (map hash_key pairs) -> Forall (fun k => rootless k.1) pairs ->
  (forall k, k ∈ db_addressQualifier (prestricteddb g) -> swap k ∈ pairs) ->
  Forall (tag_in_universe (fun k => k ∈ pairs)) cmds ->
  run_tags (run_tag fAssetIndex) (no_assets, g) cmds = run_tags spec_tag (tags_on_disk g) cmds.
Proof.
  intros Hp Hl Hn Hr Hd Hc. apply (run_tags_spec fAssetIndex (fun k => k ∈ pairs)); [by apply separated_pairs| | |done].
  - by apply Forall_forall.
  - by apply tags_start_represents.
Qed.

Definition tag_globals (tags : gset (list Z * list Z)) : Globals :=
  mkGlobals no_assets (Lru.mkLru [] 2500) (Lru.mkLru [] 2500) (Lru.mkLru [] 2500) (Lru.mkLru [] 2500) (Lru.mkLru [] 2500)
    (mkAssetsDB ∅ ∅ ∅ ∅) (mkRestrictedDB ∅ tags ∅ ∅ ∅).

Definition example_tag_cmds : list TagCmd :=
  [Tag false gold alice true; AskTag gold alice; CloseBlock; AskTag gold alice; AskTag gold bob; WriteDown (Some 0%nat); AskTag gold alice;
   Tag false gold bob false; CloseBlock; WriteDown None; AskTag gold bob; AskTag gold alice;
   Tag true gold bob false; Tag true gold alice true; CloseBlock; AskTag gold bob; WriteDown None; AskTag gold alice].

Lemma tags_refine_witness :
  run_tags spec_tag (tags_on_disk (tag_globals {[ (bob, gold) ]})) example_tag_cmds =
    [false; true; true; true; false; true; true; false] /\
  run_tags (run_tag true) (no_assets, tag_globals {[ (bob, gold) ]}) example_tag_cmds =
    run_tags spec_tag (tags_on_disk (tag_globals {[ (bob, gold) ]})) example_tag_cmds.
Proof.
  split; [vm_compute; reflexivity|].
  apply (tags_refine true (tag_globals {[ (bob, gold) ]}) [(gold, alice); (gold, bob)] example_tag_cmds).
  - reflexivity.
  - reflexivity.
  - apply (bool_decide_unpack _). vm_compute. exact I.
  - repeat (apply Forall_cons; split; [apply (bool_decide_unpack _); vm_compute; exact I|]). apply Forall_nil. exact I.
  - cbn. intros k ->%elem_of_singleton. apply (bool_decide_unpack _). vm_compute. exact I.
  - unfold example_tag_cmds.
    repeat (apply Forall_cons; split; [first [exact I|cbn [tag_in_universe]; apply (bool_decide_unpack _); vm_compute; exact I]|]).
    apply Forall_nil. exact I.
Defined.

(** ** Sub-qualifiers *)

(** The tip a block leaves that takes tag [n] from [a], and the same tip
    once written to disk. *)
Definition untag (g : Globals) (n a : list Z) : Globals := FlushAssets (AddQualifierAddress no_assets n a REMOVE_QUALIFIER) g.
Definition written_down (fAssetIndex : bool) (g : Globals) : Globals := snd (DumpCacheToDatabase fAssetIndex None g).
Definition carries (g : Globals) (n a : list Z) : bool := fst (CheckForAddressQualifier no_assets g n a true).

Lemma written_down_passets idx g : passets (written_down idx g) = no_assets.
Proof. unfold written_down, DumpCacheToDatabase. by rewrite exec_all. Qed.

Lemma carries_clean U g n a : Flags.separated hash_key U -> passets g = no_assets -> tag_coherent U g -> U (n, a) ->
  carries g n a = bool_decide ((a, n) ∈ db_addressQualifier (prestricteddb g)) || CheckForAddressRootQualifier (prestricteddb g) a n.
Proof.
  intros Hsep Hp Hc HU. assert (Hn : says_tag (passets g) (n, a) = None) by (rewrite Hp; apply says_clean).
  pose proof (Flags.lookup_value hash_key swap U _ _ _ Hsep Hc HU) as El. unfold Flags.lookup, Flags.value in El. rewrite Hn in El.
  unfold carries, CheckForAddressQualifier. rewrite Hp. cbn. rewrite !lookup_empty, !no_subs.
  unfold hash_key, swap in El. cbn [fst snd Flags.lru Flags.disk tag_store] in El.
  destruct (Lru.Exists (passetsQualifierCache g) (GetHashHex n a)); cbn in El; [by rewrite <- El|].
  by destruct (bool_decide _).
Qed.

Lemma untag_says g n a k : passets g = no_assets -> says_tag (passets (untag g n a)) k = if decide ((n, a) = k) then Some false else None.
Proof.
  intros Hp. unfold says_tag, untag. cbn [FlushAssets passets set_passets setNewQualifierAddress]. rewrite says_flush_over, Hp.
  cbn [AddQualifierAddress with_qualifiers setNewQualifierAddress no_assets].
  rewrite says_add_over. case_decide; [done|]. unfold track_root. destruct (IsAssetNameASubQualifier n); by rewrite !says_clean.
Qed.

Lemma untag_coherent (U : list Z * list Z -> Prop) g n a :
  passets g = no_assets -> Lru.items (passetsQualifierCache g) = [] -> U (n, a) ->
  (forall k, k ∈ db_addressQualifier (prestricteddb g) -> U (swap k)) -> tag_coherent U (untag g n a).
Proof.
  intros Hp Hl HU Hd. split; [|split].
  - intros k. rewrite untag_says by done. case_decide; [by subst|by intros []].
  - intros x Hx. exists (swap x). split; [by destruct x|]. by apply Hd.
  - intros h. change (Flags.lru (tag_store (untag g n a))) with (passetsQualifierCache g). unfold Lru.Exists. by rewrite Hl.
Qed.

(** What the database holds after the tip that took a tag is written. *)
Lemma untag_disk idx U g n a t : Flags.separated hash_key U ->
  passets g = no_assets -> Lru.items (passetsQualifierCache g) = [] -> U (n, a) ->
  (forall k, k ∈ db_addressQualifier (prestricteddb g) -> U (swap k)) ->
  tag_coherent U (written_down idx (untag g n a)) /\
  ((a, t) ∈ db_addressQualifier (prestricteddb (written_down idx (untag g n a))) <->
   t <> n /\ (a, t) ∈ db_addressQualifier (prestricteddb g)).
Proof.
  intros Hsep Hp Hl HU Hd. assert (Hdis : tags_disjoint (passets (untag g n a))).
  { unfold untag. cbn. rewrite Hp. apply flush_over_disjoint, clean_disjoint. }
  destruct (dump_tags idx U Hsep None _ Hdis (untag_coherent U g n a Hp Hl HU Hd)) as (_ & Hc & Va).
  fold (written_down idx (untag g n a)) in Hc, Va. split; [exact Hc|]. specialize (Va (t, a)).
  rewrite written_down_passets in Va. unfold Flags.value in Va. rewrite untag_says in Va by done.
  rewrite (says_clean gave took (t, a) : says_tag no_assets (t, a) = None) in Va. unfold swap in Va. cbn [fst snd] in Va.
  change (Flags.disk (tag_store ?g)) with (db_addressQualifier (prestricteddb g)) in Va.
  change (prestricteddb (untag g n a)) with (prestricteddb g) in Va.
  case_decide as Hk; [injection Hk as ->|]; [apply bool_decide_eq_false in Va; tauto|].
  assert (t <> n) by congruence.
  destruct (decide ((a, t) ∈ db_addressQualifier (prestricteddb g))) as [Hin|Hin].
  - rewrite (bool_decide_eq_true_2 _ Hin), bool_decide_eq_true in Va. tauto.
  - rewrite (bool_decide_eq_false_2 _ Hin), bool_decide_eq_false in Va. tauto.
Qed.

Lemma items_singleton {K E : Type} `{Countable K, !KeyOrder K} (k : K) (e : E) : items ({[k := e]} : gmap K E) = [(k, e)].
Proof. apply Permutation_singleton_r. by rewrite items_perm, map_to_list_singleton. Qed.

(** The flush records the removal of a sub-qualifier as if it were given. *)
Lemma untag_sub_roots g root sub a : passets g = no_assets -> IsAssetNameASubQualifier sub = true -> GetParentName sub = root ->
  has_sub (mapRootQualifierAddressesAdd (passets (untag g sub a))) root a = true.
Proof.
  intros Hp Hs <-. unfold untag. cbn [FlushAssets passets set_passets mapRootQualifierAddressesAdd]. rewrite Hp.
  unfold AddQualifierAddress, track_root. rewrite Hs, bool_decide_eq_false_2 by done.
  cbn [with_qualifiers with_roots_add with_roots_remove mapRootQualifierAddressesAdd mapRootQualifierAddressesRemove no_assets].
  unfold sub_insert at 1, sub_erase. rewrite !lookup_empty. cbn [default]. rewrite !insert_empty.
  rewrite union_empty_l_L. unfold flush_subs. rewrite !items_singleton. cbn [foldl].
  rewrite (ltac:(set_solver) : ∅ ∖ {[sub]} = (∅ : gset (list Z))), elements_empty, elements_singleton. cbn [foldl]. unfold sub_insert, has_sub. rewrite lookup_insert_eq, lookup_empty. cbn.
  by rewrite bool_decide_eq_false_2 by set_solver.
Qed.

(** Nor are root qualifiers tracked. *)
Lemma untag_root_roots g n a : passets g = no_assets -> IsAssetNameASubQualifier n = false -> no_roots (passets (untag g n a)).
Proof.
  intros Hp Hn. unfold untag. apply flush_no_roots; [|by rewrite Hp]. unfold AddQualifierAddress, track_root. by rewrite Hn.
Qed.

Lemma is_sub_ne root sub : is_sub root sub -> sub <> root.
Proof. intros [s ->] E. apply (f_equal length) in E. rewrite !length_app in E. cbn in E. lia. Qed.

(** C39: With sub-qualifiers, whether an address carries a tag depends on when
    the node last wrote its caches to disk.  Take an address that carries one
    tag, a sub-qualifier [sub] of [root], on disk; it counts as carrying
    [root].  When a block takes [sub] away, a node goes on answering that the
    address carries [root] until it writes its caches, and no longer after.
    When a block takes [root] away, which the checks allow, a node answers that
    the address does not carry [root], and that it does once the caches are
    written. *)
Theorem sub_tag_depends_on_dump (fAssetIndex : bool) (g : Globals) (root sub a : list Z) :
  passets g = no_assets -> Lru.items (passetsQualifierCache g) = [] ->
  IsAssetNameASubQualifier sub = true -> GetParentName sub = root -> is_sub root sub -> rootless root ->
  (length sub < 253)%nat -> (forall t, (a, t) ∈ db_addressQualifier (prestricteddb g) <-> t = sub) ->
  Flags.separated hash_key (fun k => swap k ∈ db_addressQualifier (prestricteddb g) \/ k = (root, a)) ->
  carries g root a = true /\
  carries (untag g sub a) root a = true /\ carries (written_down fAssetIndex (untag g sub a)) root a = false /\
  carries (untag g root a) root a = false /\ carries (written_down fAssetIndex (untag g root a)) root a = true.
Proof.
  intros Hp Hl Hs Hpar Hsub Hroot Hlen Hdb Hsep. set (U := fun k => _ \/ _) in Hsep. pose proof (is_sub_ne _ _ Hsub) as Hne.
  assert (HUr : U (root, a)) by (by right). assert (HUs : U (sub, a)) by (left; by apply Hdb).
  assert (HUd : forall k, k ∈ db_addressQualifier (prestricteddb g) -> U (swap k)) by (intros [? ?] ?; by left).
  assert (Hrl : (length root < 253)%nat) by (destruct Hsub as [s ->]; rewrite !length_app in Hlen; lia).
  assert (Hshort : forall db, (forall t, (a, t) ∈ db_addressQualifier db -> t = sub) ->
    forall t, (a, t) ∈ db_addressQualifier db -> (length t < 253)%nat) by (intros db H t Ht; by rewrite (H t Ht)).
  assert (Hfound : forall db, (forall t, (a, t) ∈ db_addressQualifier db <-> t = sub) -> CheckForAddressRootQualifier db a root = true).
  { intros db H. apply root_tag_found; [apply Hshort; intros; by apply H|done|]. exists sub. split; [by apply H|by right]. }
  split; [|split; [|split; [|split]]].
  - unfold carries, CheckForAddressQualifier. rewrite Hp. cbn. rewrite !lookup_empty, !no_subs.
    destruct (Lru.Exists _ _); [done|]. destruct (bool_decide _); [done|]. cbn. by apply Hfound.
  - unfold carries, CheckForAddressQualifier. pose proof (untag_says g sub a (root, a) Hp) as Hy. rewrite decide_False in Hy by congruence.
    unfold says_tag, says in Hy. destruct (toRemove _ !! (root, a)); [done|]. destruct (toAdd _ !! (root, a)) as [[]|]; [done..|].
    cbn [negb andb]. by rewrite untag_sub_roots.
  - destruct (untag_disk fAssetIndex U g sub a root Hsep Hp Hl HUs HUd) as [Hc Hin].
    rewrite (carries_clean U) by (done || apply written_down_passets).
    rewrite bool_decide_eq_false_2 by (rewrite Hin, Hdb; tauto). cbn. apply not_true_is_false. intros Ht.
    assert (Hnone : forall t, (a, t) ∉ db_addressQualifier (prestricteddb (written_down fAssetIndex (untag g sub a)))).
    { intros t H. apply (untag_disk fAssetIndex U g sub a t Hsep Hp Hl HUs HUd) in H as [Hn H']. by apply Hdb in H'. }
    apply root_tag_found in Ht as (t & Ht & _); [by apply Hnone in Ht| |done]. intros t0 Ht0. by apply Hnone in Ht0.
  - unfold carries, CheckForAddressQualifier. pose proof (untag_says g root a (root, a) Hp) as Hy. rewrite decide_True in Hy by done.
    unfold says_tag, says in Hy. destruct (toRemove _ !! (root, a)) as [[]|]; [done..|]. destruct (toAdd _ !! (root, a)) as [[]|]; [|done..].
    destruct (untag_root_roots g root a Hp (rootless_not_sub _ Hroot)) as [Hr _]. by rewrite Hr, no_subs.
  - rewrite (carries_clean U); [|done|apply written_down_passets|apply (untag_disk fAssetIndex U g root a root); done|done].
    rewrite Hfound; [apply orb_true_r|]. intros t.
    destruct (untag_disk fAssetIndex U g root a t Hsep Hp Hl HUr HUd) as [_ ->]. rewrite Hdb. split; [by intros []|]. by intros ->.
Qed.

Lemma sub_tag_depends_on_dump_witness :
  let g := tag_globals {[ (alice, gold_us) ]} in
  carries g gold alice = true /\
  carries (untag g gold_us alice) gold alice = true /\ carries (written_down true (untag g gold_us alice)) gold alice = false /\
  carries (untag g gold alice) gold alice = false /\ carries (written_down true (untag g gold alice)) gold alice = true.
Proof.
  apply (sub_tag_depends_on_dump true (tag_globals {[ (alice, gold_us) ]}) gold gold_us alice).
  - reflexivity.
  - reflexivity.
  - vm_compute. reflexivity.
  - vm_compute. reflexivity.
  - exists (codes "#US"). reflexivity.
  - apply (bool_decide_unpack _). vm_compute. exact I.
  - vm_compute. lia.
  - intros t. cbn. rewrite elem_of_singleton. split; [by intros [= ->]|by intros ->].
  - assert (Hn : NoDup (map hash_key [(gold_us, alice); (gold, alice)])) by (apply (bool_decide_unpack _); vm_compute; exact I).
    intros k k' Hk Hk'. apply (separated_pairs _ _ Hn).
    + destruct Hk as [Hk| ->]; [|set_solver]. cbn in Hk. rewrite elem_of_singleton in Hk. destruct k. injection Hk as -> ->. set_solver.
    + destruct Hk' as [Hk'| ->]; [|set_solver]. cbn in Hk'. rewrite elem_of_singleton in Hk'. destruct k'. injection Hk' as -> ->. set_solver.
Defined.
