(* ===== verification/AssetsBlocks.v ===== *)
(** * Blocks and the assets cache
      ([AddCoins] in [src/coins.cpp]; [UpdateCoins], [ApplyTxInUndo],
      [ConnectBlock], [DisconnectBlock], [ConnectTip] and [DisconnectTip] in
      [src/validation.cpp], their asset halves)

    What connecting and disconnecting a block does to the assets cache.  The
    coin halves are in [Coins] and [BlockUndo]; the two meet in the coins a
    transaction spends, which come with each transaction here.  Calls that
    report an error the code only logs are followed by the code that comes
    next.  Messages and the subscriptions of the wallet are left out. *)

From stdpp Require Import gmap list fin_maps.
From S2P Require Import Prelude Bytes Coins Serialize TxFormat Script AssetFormat AssetNames Base58 Standard BlockUndo NullAssets AssetTx LruCache AssetsCache AssetsDump.

(** The default-constructed objects, which a reader that fails leaves. *)
Definition null_asset : CNewAsset := mkNewAsset [] 0 MAX_UNIT 0 0 [] 0 [].
Definition null_reissue : CReissueAsset := mkReissue [] 0 0 1 [] [].
Definition null_data : CNullAssetTxData := mkNullData [] (-1).

Definition State : Type := CAssetsCache * Globals.

Section Blocks.
Variables fReindex fAssetIndex : bool.
Variable dep : Deployments.
Variable params : Base58Prefixes.
Variable unset_height : Z.

Abbreviation address_of := (address_of params).

(** ** Connecting *)

Definition new_asset (script : list Z) : CNewAsset := default null_asset (AssetFromScript script).

(** [AddNewAsset], whose failure is logged. *)
Definition issue (st : State) (script : list Z) (nHeight blockHash : Z) : State :=
  let '(c, g) := st in
  let '(_, c, g) := AddNewAsset fReindex fAssetIndex c g (new_asset script) (address_of script) nHeight blockHash in (c, g).

(** The first output with a verifier string. *)
Definition verifier_script (tx : CTransaction) : option (list Z) :=
  List.find IsNullAssetVerifierTxDataScript (map scriptPubKey (vout tx)).

(** A reissue: the cache, and the undo data where something other than the
    amount changed. *)
Definition reissue_tx (st : State) (tx : CTransaction) (txid : Z) : State * option (list Z * CBlockAssetUndo) :=
  let '(c, g) := st in
  let script := last_script tx in
  let reissue := default null_reissue (ReissueAssetFromScript script) in
  let '(meta, g) := GetAssetMetaDataIfExists c g (re_strName reissue) in
  let asset := default null_asset (fst <$> meta) in
  let '(_, c, g) := AddReissueAsset fAssetIndex unset_height c g reissue (address_of script)
                      (txid, Z.of_nat (length (vout tx)) - 1) in
  let fFoundRestrictedAsset := bool_decide ((IsAssetNameValid (na_strName asset)).2 = Some RESTRICTED) in
  let verifier := if fFoundRestrictedAsset then script ← verifier_script tx; AssetNullVerifierDataFromScript script else None in
  let '(strOldVerifier, c, g) :=
    match verifier with
    | None => ([], c, g)
    | Some v =>
        let '(old, g) := GetAssetVerifierStringIfExists c g (na_strName asset) false in
        (default [] old, AddRestrictedVerifier c (na_strName asset) v, g)
    end in
  let fIPFSChanged := negb (bool_decide (re_strIPFSHash reissue = [])) in
  let fANSChanged := negb (bool_decide (re_strANSID reissue = [])) in
  let fUnitsChanged := negb (re_nUnits reissue =? -1) in
  let fVerifierChanged := bool_decide (is_Some verifier) in
  ((c, g),
   if fIPFSChanged || fANSChanged || fUnitsChanged || fVerifierChanged
   then Some (re_strName reissue,
              mkBlockAssetUndo fIPFSChanged fANSChanged fUnitsChanged (na_strIPFSHash asset) (na_strANSID asset) (na_units asset)
                fVerifierChanged strOldVerifier)
   else None).

(** The part of [AddCoins] before its loop. *)
Definition AddCoins_issues (st : State) (tx : CTransaction) (txid nHeight blockHash : Z) : State * option (list Z * CBlockAssetUndo) :=
  if tx_IsNewAsset tx then
    let '(c, g) := issue st (last_script tx) nHeight blockHash in
    ((AddOwnerAsset fAssetIndex c (default [] (OwnerAssetFromScript (owner_script tx))) (address_of (owner_script tx)), g), None)
  else if tx_IsReissueAsset tx then reissue_tx st tx txid
  else if IsNewUniqueAsset tx then
    (foldl (fun st o => if IsScriptNewUniqueAsset (scriptPubKey o) then issue st (scriptPubKey o) nHeight blockHash else st) st (vout tx),
     None)
  else if IsNewMsgChannelAsset tx || IsNewQualifierAsset tx then (issue st (last_script tx) nHeight blockHash, None)
  else if IsNewRestrictedAsset tx then
    let '(c, g) := issue st (last_script tx) nHeight blockHash in
    (match verifier_script tx with
     | Some script =>
         (AddRestrictedVerifier c (na_strName (new_asset (last_script tx))) (default [] (AssetNullVerifierDataFromScript script)), g)
     | None => (c, g)
     end, None)
  else (st, None).

(** The commands of a null-data output. *)
Definition add_null (c : CAssetsCache) (script : list Z) : CAssetsCache :=
  if IsNullAsset script then
    if IsNullAssetTxDataScript script then
      let '(data, address) := default (null_data, []) (AssetNullDataFromScript params script) in
      let on := negb (flag data =? 0) in
      match (IsAssetNameValid (asset_name data)).2 with
      | Some RESTRICTED => AddRestrictedAddress c (asset_name data) address (if on then FREEZE_ADDRESS else UNFREEZE_ADDRESS)
      | Some QUALIFIER | Some SUB_QUALIFIER =>
          AddQualifierAddress c (asset_name data) address (if on then ADD_QUALIFIER else REMOVE_QUALIFIER)
      | _ => c
      end
    else if IsNullGlobalRestrictionAssetTxDataScript script then
      let data := default null_data (GlobalAssetNullDataFromScript script) in
      AddGlobalRestricted c (asset_name data) (if negb (flag data =? 0) then GLOBAL_FREEZE else GLOBAL_UNFREEZE)
    else c
  else c.

(** The asset part of the loop body of [AddCoins]. *)
Definition add_output (st : State) (out : COutPoint) (o : CTxOut) : State :=
  let '(c, g) := st in
  let c := match TransferAssetFromScript (scriptPubKey o) with
           | Some t => if tr_nAmount t >? 0 then AddTransferAsset fAssetIndex c g t (address_of (scriptPubKey o)) out else c
           | None => c
           end in
  (add_null c (scriptPubKey o), g).

Fixpoint add_outputs (st : State) (txid i : Z) (outs : list CTxOut) : State :=
  match outs with
  | [] => st
  | o :: outs => add_outputs (add_output st (txid, i) o) txid (i + 1) outs
  end.

Definition AddCoins_assets (st : State) (tx : CTransaction) (txid nHeight blockHash : Z) : State * option (list Z * CBlockAssetUndo) :=
  if AreAssetsDeployed dep then
    let '(st, undo) := AddCoins_issues st tx txid nHeight blockHash in (add_outputs st txid 0 (vout tx), undo)
  else (st, None).

(** The spends of [UpdateCoins]; [None] is [assert(is_spent)]. *)
Fixpoint spend_inputs (st : State) (spent : list Coin) : option State :=
  match spent with
  | [] => Some st
  | coin :: spent =>
      let '(c, g) := st in
      let '(ok, c) := TrySpendCoin fAssetIndex params c g (out coin) in
      if ok then spend_inputs (c, g) spent else None
  end.

Definition UpdateCoins_assets (st : State) (tx : CTransaction) (txid : Z) (spent : list Coin) (nHeight blockHash : Z) :
    option (State * option (list Z * CBlockAssetUndo)) :=
  st ← (if negb (IsCoinBase tx) && AreAssetsDeployed dep then spend_inputs st spent else Some st);
  Some (AddCoins_assets st tx txid nHeight blockHash).

(** A transaction with its hash and the coins it spends. *)
Definition BlockTx : Type := CTransaction * Z * list Coin.

(** The loop of [ConnectBlock]; the undo data whose name is not empty is
    kept. *)
Fixpoint ConnectBlock_loop (st : State) (vtx : list BlockTx) (nHeight blockHash : Z) :
    option (State * list (list Z * CBlockAssetUndo)) :=
  match vtx with
  | [] => Some (st, [])
  | (tx, txid, spent) :: vtx =>
      '(st, undo) ← UpdateCoins_assets st tx txid spent nHeight blockHash;
      '(st, undos) ← ConnectBlock_loop st vtx nHeight blockHash;
      Some (st, match undo with Some (name, u) => if bool_decide (name = []) then undos else (name, u) :: undos | None => undos end)
  end.

(** [ConnectTip]: a new cache, the loop, the undo data written, the flush. *)
Definition ConnectTip_assets (g : Globals) (vtx : list BlockTx) (nHeight blockHash : Z) : option Globals :=
  '(c, g, undos) ← ConnectBlock_loop (no_assets, g) vtx nHeight blockHash;
  let g := if bool_decide (undos = []) then g else set_assetsdb g (WriteBlockUndoAssetData (passetsdb g) blockHash undos) in
  Some (FlushAssets c g).

(** ** Disconnecting *)

(** [None] is [DISCONNECT_FAILED]. *)

(** Undoing an issue, which is skipped when the asset is not there. *)
Definition undo_issue (st : State) (script : list Z) : option State :=
  let '(c, g) := st in
  asset ← AssetFromScript script;
  let '(contains, g) := CheckIfAssetExists fReindex c g (na_strName asset) true in
  if contains then
    let '(ok, c, g) := RemoveNewAsset fReindex fAssetIndex c g asset (address_of script) in
    if ok : bool then Some (c, g) else None
  else Some (c, g).

Definition undo_reissue (st : State) (tx : CTransaction) (txid : Z) (vUndoData : list (list Z * CBlockAssetUndo)) : option State :=
  let '(c, g) := st in
  reissue ← ReissueAssetFromScript (last_script tx);
  let '(contains, g) := CheckIfAssetExists fReindex c g (re_strName reissue) true in
  if contains then
    let '(ok, c, g) := RemoveReissueAsset fAssetIndex unset_height c g reissue (address_of (last_script tx))
                         (txid, Z.of_nat (length (vout tx)) - 1) vUndoData in
    if ok : bool then Some (c, g) else None
  else Some (c, g).

Fixpoint undo_unique (st : State) (outs : list CTxOut) : option State :=
  match outs with
  | [] => Some st
  | o :: outs =>
      st ← (if IsScriptNewUniqueAsset (scriptPubKey o) then undo_issue st (scriptPubKey o) else Some st);
      undo_unique st outs
  end.

(** The unspendable outputs with a verifier string, and with other null
    data. *)
Definition null_outputs (tx : CTransaction) : list (list Z) :=
  if AreRestrictedAssetsDeployed dep
  then filter (fun s => IsUnspendable s && IsNullAsset s) (map scriptPubKey (vout tx)) else [].
Definition verifier_outputs (tx : CTransaction) : list (list Z) := filter (fun s => IsNullAssetVerifierTxDataScript s) (null_outputs tx).

Definition DisconnectBlock_issues (st : State) (tx : CTransaction) (txid : Z) (vUndoData : list (list Z * CBlockAssetUndo)) : option State :=
  if tx_IsNewAsset tx then
    '(c, g) ← undo_issue st (last_script tx);
    ownerName ← OwnerAssetFromScript (owner_script tx);
    Some (RemoveOwnerAsset fAssetIndex c ownerName (address_of (owner_script tx)), g)
  else if tx_IsReissueAsset tx then undo_reissue st tx txid vUndoData
  else if IsNewUniqueAsset tx then undo_unique st (vout tx)
  else if IsNewMsgChannelAsset tx || IsNewQualifierAsset tx then undo_issue st (last_script tx)
  else if IsNewRestrictedAsset tx then
    '(c, g) ← undo_issue st (last_script tx);
    asset ← AssetFromScript (last_script tx);
    script ← last (verifier_outputs tx);
    verifier ← AssetNullVerifierDataFromScript script;
    Some (RemoveRestrictedVerifier c (na_strName asset) verifier false, g)
  else Some st.

(** The transfers of the spendable outputs. *)
Fixpoint undo_transfers (st : State) (txid i : Z) (outs : list CTxOut) : option State :=
  match outs with
  | [] => Some st
  | o :: outs =>
      st ← (if negb (IsUnspendable (scriptPubKey o)) && bool_decide (is_Some (ScriptTransferAsset (scriptPubKey o))) then
              let '(c, g) := st in
              transfer ← TransferAssetFromScript (scriptPubKey o);
              let '(ok, c) := RemoveTransfer fAssetIndex c g transfer (address_of (scriptPubKey o)) (txid, i) in
              if ok : bool then Some (c, g) else None
            else Some st);
      undo_transfers st txid (i + 1) outs
  end.

Definition undo_null (c : CAssetsCache) (script : list Z) : option CAssetsCache :=
  if IsNullAssetTxDataScript script then
    '(data, address) ← AssetNullDataFromScript params script;
    let on := negb (flag data =? 0) in
    Some match (IsAssetNameValid (asset_name data)).2 with
         | Some QUALIFIER | Some SUB_QUALIFIER =>
             RemoveQualifierAddress c (asset_name data) address (if on then ADD_QUALIFIER else REMOVE_QUALIFIER)
         | Some RESTRICTED => RemoveRestrictedAddress c (asset_name data) address (if on then FREEZE_ADDRESS else UNFREEZE_ADDRESS)
         | _ => c
         end
  else if IsNullGlobalRestrictionAssetTxDataScript script then
    data ← GlobalAssetNullDataFromScript script;
    Some (RemoveGlobalRestricted c (asset_name data) (if negb (flag data =? 0) then GLOBAL_FREEZE else GLOBAL_UNFREEZE))
  else Some c.

Fixpoint undo_nulls (c : CAssetsCache) (scripts : list (list Z)) : option CAssetsCache :=
  match scripts with
  | [] => Some c
  | s :: scripts => c ← (if IsNullAssetVerifierTxDataScript s then Some c else undo_null c s); undo_nulls c scripts
  end.

(** The asset part of the input loop, from the last input: whether it was
    clean. *)
Fixpoint restore_inputs (st : State) (fClean : bool) (spent : list Coin) : bool * State :=
  match spent with
  | [] => (fClean, st)
  | coin :: spent =>
      let '(c, g) := st in
      let '(ok, c) := if bool_decide (is_Some (IsAssetScript (scriptPubKey (out coin)))) then UndoAssetCoin fAssetIndex params c g coin
                      else (true, c) in
      restore_inputs (c, g) (fClean && ok) spent
  end.

(** The spends of the outputs, on the copy of the cache: whether they
    succeed. *)
Fixpoint spend_outputs (temp : CAssetsCache) (g : Globals) (fClean : bool) (outs : list CTxOut) : bool * CAssetsCache :=
  match outs with
  | [] => (fClean, temp)
  | o :: outs =>
      if negb (IsUnspendable (scriptPubKey o)) then
        let '(ok, temp) := TrySpendCoin fAssetIndex params temp g o in spend_outputs temp g (fClean && ok) outs
      else spend_outputs temp g fClean outs
  end.

Definition DisconnectBlock_tx_assets (st : State) (temp : CAssetsCache) (fClean first : bool) (btx : BlockTx)
    (vUndoData : list (list Z * CBlockAssetUndo)) : option (bool * State * CAssetsCache) :=
  let '(tx, txid, spent) := btx in
  let '(fClean, temp) := spend_outputs temp (snd st) fClean (vout tx) in
  st ← DisconnectBlock_issues st tx txid vUndoData;
  '(c, g) ← undo_transfers st txid 0 (vout tx);
  c ← undo_nulls c (null_outputs tx);
  let '(fClean, st) := if first then (fClean, (c, g)) else restore_inputs (c, g) fClean (reverse spent) in
  Some (fClean, st, temp).

(** The transactions from the last to the first. *)
Fixpoint DisconnectBlock_loop_assets (st : State) (temp : CAssetsCache) (fClean : bool) (vtx : list BlockTx)
    (vUndoData : list (list Z * CBlockAssetUndo)) : option (bool * State) :=
  match vtx with
  | [] => Some (fClean, st)
  | btx :: vtx =>
      '(fClean, st, temp) ← DisconnectBlock_tx_assets st temp fClean (bool_decide (vtx = [])) btx vUndoData;
      DisconnectBlock_loop_assets st temp fClean vtx vUndoData
  end.

(** [DisconnectTip]: anything but a clean disconnection is refused. *)
Definition DisconnectTip_assets (g : Globals) (vtx : list BlockTx) (blockHash : Z) : option Globals :=
  if AreAssetsDeployed dep then
    let vUndoData := ReadBlockUndoAssetData (passetsdb g) blockHash in
    '(fClean, (c, g)) ← DisconnectBlock_loop_assets (no_assets, g) no_assets true (reverse vtx) vUndoData;
    if fClean : bool then Some (FlushAssets c g) else None
  else Some g.
End Blocks.
