(* ===== verification/AssetsReorg.v ===== *)
(** * Reorganisations and the assets cache

    Disconnecting a block after connecting it.  [block_undo_restores] shows
    that freezes, global freezes and the existence of assets are what they
    were before the block, for a block whose commands the checks accept.
    The theorems after it show where undoing fails. *)

From Stdlib Require Import String.
From stdpp Require Import gmap list fin_maps.
From S2P Require Import Prelude Bytes Text Coins Serialize TxFormat Script AssetFormat AssetNames Base58 Standard BlockUndo NullAssets AssetTx LruCache AssetsCache AssetsDump AssetsLayers AssetsFreeze AssetsBlocks.

(** ** What each operation leaves alone *)

(** The parts of the state the freezes depend on. *)
Record Freezes := mkFreezes {
  fz_address : Dirty (list Z * list Z) RestrictedType;
  fz_global : Dirty (list Z) RestrictedType;
  fz_tip : CAssetsCache;
  fz_address_store : Flags.Store (D := list Z * list Z);
  fz_global_store : Flags.Store (D := list Z)
}.

Definition freezes (st : State) : Freezes :=
  let '(c, g) := st in
  mkFreezes (setNewRestrictedAddress c) (setNewRestrictedGlobal c) (passets g) (address_store g) (global_store g).

(** Cached assets are those of the database, under their names. *)
Definition lru_ok (g : Globals) : Prop :=
  (forall n d, Lru.find n (Lru.items (passetsCache g)) = Some d -> db_assets (passetsdb g) !! n = Some d) /\
  (forall n d, db_assets (passetsdb g) !! n = Some d -> na_strName (db_asset d) = n).

(** [st'] agrees with [st] on the freezes and the assets database, and its
    asset cache is coherent if that of [st] is. *)
Definition keeps (st st' : State) : Prop :=
  freezes st' = freezes st /\ passetsdb (snd st') = passetsdb (snd st) /\ (lru_ok (snd st) -> lru_ok (snd st')).

(** It also agrees on the assets issued. *)
Definition frames (st st' : State) : Prop := keeps st st' /\ setNewAssets (fst st') = setNewAssets (fst st).

#[export] Instance keeps_preorder : PreOrder keeps.
Proof.
  split; [done|]. intros a b c (H1 & H2 & H3) (H4 & H5 & H6). split; [congruence|]. split; [congruence|auto].
Qed.

#[export] Instance frames_preorder : PreOrder frames.
Proof. split; [done|]. intros a b c [H1 H2] [H3 H4]. split; [by etrans|congruence]. Qed.

Lemma put_lru_ok g d n : lru_ok g -> db_assets (passetsdb g) !! n = Some d ->
  lru_ok (set_passetsCache g (Lru.Put (passetsCache g) (na_strName (db_asset d)) d)).
Proof.
  intros [Hl Hn] Hd. split; [|done]. intros m d' Hf. cbn in *. rewrite (Hn _ _ Hd) in Hf.
  apply Lru.find_Put in Hf as [[-> ->]|[_ Hf]]; [done|by apply Hl].
Qed.

Lemma get_lru_ok g n d l : lru_ok g -> Lru.Get (passetsCache g) n = Some (d, l) -> lru_ok (set_passetsCache g l).
Proof. intros [Hl Hn] Hg. split; [|done]. intros m d' Hf. cbn in Hf. rewrite (Lru.find_Get _ _ _ _ _ Hg) in Hf. by apply Hl. Qed.

Section Frame.
Variables fReindex fAssetIndex : bool.
Variable dep : Deployments.
Variable params : Base58Prefixes.
Variable unset_height : Z.

Lemma CheckIfAssetExists_frames c g n f : frames (c, g) (c, snd (CheckIfAssetExists fReindex c g n f)).
Proof.
  unfold CheckIfAssetExists. repeat case_match; try done. split; [|done]. split; [done|]. split; [done|].
  intros Hl. by eapply put_lru_ok.
Qed.

Lemma GetAssetMetaDataIfExists_frames c g n : frames (c, g) (c, snd (GetAssetMetaDataIfExists c g n)).
Proof.
  unfold GetAssetMetaDataIfExists. repeat case_match; try done; (split; [|done]); (split; [done|]); (split; [done|]);
    intros Hl; [by eapply get_lru_ok|by eapply put_lru_ok].
Qed.

Lemma GetAssetVerifierStringIfExists_frames c g n f : frames (c, g) (c, snd (GetAssetVerifierStringIfExists c g n f)).
Proof. unfold GetAssetVerifierStringIfExists. by repeat case_match. Qed.

Lemma GetBestAssetAddressAmount_frames c g n a : frames (c, g) (snd (GetBestAssetAddressAmount fAssetIndex c g n a), g).
Proof. unfold GetBestAssetAddressAmount. by repeat case_match. Qed.

Lemma best_or_zero_frames c g n a : frames (c, g) (best_or_zero fAssetIndex c g n a, g).
Proof.
  unfold best_or_zero. pose proof (GetBestAssetAddressAmount_frames c g n a) as E.
  destruct (GetBestAssetAddressAmount _ _ _ _ _) as [[] c']; exact E.
Qed.

Lemma AddTransferAsset_frames c g t a o : frames (c, g) (AddTransferAsset fAssetIndex c g t a o, g).
Proof.
  unfold AddTransferAsset, AddToAssetBalance. pose proof (best_or_zero_frames c g (tr_strName t) a) as E. by destruct fAssetIndex.
Qed.

Lemma TrySpendCoin_frames c g o : frames (c, g) (snd (TrySpendCoin fAssetIndex params c g o), g).
Proof.
  unfold TrySpendCoin. destruct (IsAssetScript _); [|done]. destruct (default _ _) as [n v]. cbn zeta.
  destruct (_ && _); [|done]. destruct (_ && _); [|done].
  pose proof (GetBestAssetAddressAmount_frames c g n (address_of params (scriptPubKey o))) as E.
  destruct (GetBestAssetAddressAmount _ _ _ _ _) as [[] c']; exact E.
Qed.

Lemma UndoAssetCoin_frames c g coin : frames (c, g) (snd (UndoAssetCoin fAssetIndex params c g coin), g).
Proof.
  unfold UndoAssetCoin, AddBackSpentAsset. destruct (GetAssetData _) as [[n v]|]; [|done]. destruct (_ || _); [done|].
  pose proof (best_or_zero_frames c g n (address_of params (scriptPubKey (out coin)))) as E. by destruct fAssetIndex.
Qed.

Lemma RemoveTransfer_frames c g t a o : frames (c, g) (snd (RemoveTransfer fAssetIndex c g t a o), g).
Proof.
  unfold RemoveTransfer, UndoTransfer. pose proof (GetBestAssetAddressAmount_frames c g (tr_strName t) a) as E.
  destruct fAssetIndex; [|done]. destruct (GetBestAssetAddressAmount _ _ _ _ _) as [[] c']; [|exact E]. cbn [negb].
  destruct (count _ _); [|exact E]. cbn [negb]. by destruct (_ <? _).
Qed.

Lemma AddReissueAsset_frames c g r ad o :
  let '(_, c', g') := AddReissueAsset fAssetIndex unset_height c g r ad o in frames (c, g) (c', g').
Proof.
  unfold AddReissueAsset. pose proof (GetAssetMetaDataIfExists_frames c g (re_strName r)) as E.
  destruct (GetAssetMetaDataIfExists c g (re_strName r)) as [[[a iss]|] g']; [|exact E]. cbn [snd] in E.
  destruct (default _ iss) as [h b]. cbn zeta. etrans; [exact E|].
  match goal with |- context [best_or_zero fAssetIndex ?c' g' ?n ?a] => pose proof (best_or_zero_frames c' g' n a) as E' end.
  by destruct fAssetIndex.
Qed.

Lemma RemoveReissueAsset_frames c g r ad o u :
  let '(_, c', g') := RemoveReissueAsset fAssetIndex unset_height c g r ad o u in frames (c, g) (c', g').
Proof.
  unfold RemoveReissueAsset. pose proof (GetAssetMetaDataIfExists_frames c g (re_strName r)) as E.
  destruct (GetAssetMetaDataIfExists c g (re_strName r)) as [[[a iss]|] g']; [|exact E]. cbn [snd] in E.
  destruct (default _ iss) as [h b]. destruct (restored_data a r u) as [d v]. cbn zeta.
  match goal with |- context [GetBestAssetAddressAmount fAssetIndex ?c' g' ?n ?a] =>
    pose proof (GetBestAssetAddressAmount_frames c' g' n a) as E';
    assert (E0 : frames (c, g) (c', g')) by (etrans; [exact E|]; by destruct v) end.
  destruct fAssetIndex; [|exact E0]. destruct (GetBestAssetAddressAmount _ _ _ _ _) as [[] c'']; cbn [snd] in E'; cbn [negb andb];
    [|destruct (negb _)]; (etrans; [exact E0|exact E']).
Qed.

Lemma AddNewAsset_keeps c g a ad h b : let '(_, c', g') := AddNewAsset fReindex fAssetIndex c g a ad h b in keeps (c, g) (c', g').
Proof.
  unfold AddNewAsset. destruct (CheckIfAssetExists_frames c g (na_strName a) true) as [E _].
  destruct (CheckIfAssetExists _ _ _ _ _) as [[] g']; [exact E|]. by destruct fAssetIndex.
Qed.

Lemma RemoveNewAsset_keeps c g a ad : let '(_, c', g') := RemoveNewAsset fReindex fAssetIndex c g a ad in keeps (c, g) (c', g').
Proof.
  unfold RemoveNewAsset. destruct (CheckIfAssetExists_frames c g (na_strName a) true) as [E _].
  destruct (CheckIfAssetExists _ _ _ _ _) as [[] g']; [|exact E]. by destruct fAssetIndex.
Qed.
End Frame.

(** ** Commands *)

(** [f'] is [f] with the keys of [P] moved to [want]. *)
Definition moved {K : Type} (want : K -> bool) (P : K -> Prop) (f f' : K -> option bool) : Prop :=
  forall k, (P k -> f' k = Some (want k)) /\ (~ P k -> f' k = f k).

Lemma moved_none {K} want (f : K -> option bool) P : (forall k, ~ P k) -> moved want P f f.
Proof. intros HP k. split; [by intros ?%HP|done]. Qed.

Lemma moved_trans {K} want (P Q R : K -> Prop) (f f' f'' : K -> option bool) : (forall k, Decision (Q k)) ->
  (forall k, R k <-> P k \/ Q k) -> moved want P f f' -> moved want Q f' f'' -> moved want R f f''.
Proof.
  intros HQ HR H1 H2 k. specialize (H1 k). specialize (H2 k). rewrite (HR k). destruct (HQ k); split; intros.
  - by apply H2.
  - tauto.
  - rewrite (proj2 H2) by done. apply H1. tauto.
  - rewrite (proj2 H2) by tauto. apply H1. tauto.
Qed.

Section Null.
Variable params : Base58Prefixes.

(** The freeze of an address, and of an asset, a script commands. *)
Definition freeze_cmd (s : list Z) : option ((list Z * list Z) * bool) :=
  if IsNullAssetTxDataScript s then
    '(data, address) ← AssetNullDataFromScript params s;
    if bool_decide ((IsAssetNameValid (asset_name data)).2 = Some RESTRICTED)
    then Some ((asset_name data, address), negb (flag data =? 0)) else None
  else None.

Definition global_cmd (s : list Z) : option (list Z * bool) :=
  if IsNullGlobalRestrictionAssetTxDataScript s
  then data ← GlobalAssetNullDataFromScript s; Some (asset_name data, negb (flag data =? 0)) else None.

(** The data of a null output can be read, as [CheckTxAssets] ensures. *)
Definition readable_null (s : list Z) : Prop :=
  (IsNullAssetTxDataScript s = true -> is_Some (AssetNullDataFromScript params s)) /\
  (IsNullGlobalRestrictionAssetTxDataScript s = true -> is_Some (GlobalAssetNullDataFromScript s)).

Lemma null_exclusive s : IsNullAssetTxDataScript s = true -> IsNullGlobalRestrictionAssetTxDataScript s = false.
Proof.
  unfold IsNullAssetTxDataScript, IsNullGlobalRestrictionAssetTxDataScript, byte_at. rewrite !andb_true_iff. intros [_ H1%Z.eqb_eq].
  rewrite H1. by rewrite (andb_false_r (_ && _)).
Qed.

Lemma null_verifier s : IsNullAssetVerifierTxDataScript s = true ->
  IsNullAssetTxDataScript s = false /\ IsNullGlobalRestrictionAssetTxDataScript s = false.
Proof.
  unfold IsNullAssetTxDataScript, IsNullGlobalRestrictionAssetTxDataScript, IsNullAssetVerifierTxDataScript, byte_at.
  rewrite !andb_true_iff, negb_true_iff. intros [[_ H1%Z.eqb_eq] H2]. rewrite H1, H2. split; apply andb_false_r.
Qed.

(** The changes a script makes to the working cache. *)
Definition commands (s : list Z) (c c' : CAssetsCache) (undo : bool) : Prop :=
  (forall k, says_address c' k =
     match freeze_cmd s with Some (k', b) => if decide (k' = k) then Some (xorb undo b) else says_address c k | None => says_address c k end) /\
  (forall k, says_global c' k =
     match global_cmd s with Some (k', b) => if decide (k' = k) then Some (xorb undo b) else says_global c k | None => says_global c k end) /\
  setNewAssets c' = setNewAssets c.

Lemma add_null_commands c s : readable_null s -> commands s c (add_null params c s) false.
Proof.
  intros [H1 H2]. unfold add_null, IsNullAsset, commands, freeze_cmd, global_cmd.
  destruct (IsNullAssetTxDataScript s) eqn:E1; cbn [orb].
  - rewrite (null_exclusive s E1). destruct (H1 eq_refl) as [[data address] ->]. cbn [default mbind option_bind id from_option].
    destruct ((IsAssetNameValid (asset_name data)).2) as [ty|]; [|by rewrite bool_decide_eq_false_2].
    destruct (decide (ty = RESTRICTED)) as [->|Hty].
    + rewrite bool_decide_eq_true_2 by done. split; [|done]. intros k. unfold says_address. cbn. rewrite says_add_over.
      case_decide; [|done]. by destruct (flag data =? 0).
    + rewrite bool_decide_eq_false_2 by congruence. destruct ty; try done; unfold AddQualifierAddress, track_root;
        destruct (flag data =? 0), (IsAssetNameASubQualifier (asset_name data)); done.
  - destruct (IsNullGlobalRestrictionAssetTxDataScript s) eqn:E2; cbn [orb].
    + destruct (H2 eq_refl) as [data ->]. cbn. repeat split; try done. intros k. unfold says_global. cbn. rewrite says_add_over.
      case_decide; [|done]. by destruct (flag data =? 0).
    + by destruct (IsNullAssetVerifierTxDataScript s).
Qed.

Lemma undo_null_commands c s : readable_null s -> exists c', undo_null params c s = Some c' /\ commands s c c' true.
Proof.
  intros [H1 H2]. unfold undo_null, commands, freeze_cmd, global_cmd.
  destruct (IsNullAssetTxDataScript s) eqn:E1.
  - rewrite (null_exclusive s E1). destruct (H1 eq_refl) as [[data address] ->]. cbn [default mbind option_bind id from_option].
    eexists. split; [reflexivity|].
    destruct ((IsAssetNameValid (asset_name data)).2) as [ty|]; [|by rewrite bool_decide_eq_false_2].
    destruct (decide (ty = RESTRICTED)) as [->|Hty].
    + rewrite bool_decide_eq_true_2 by done. split; [|done]. intros k. unfold says_address. cbn. rewrite says_remove_over.
      case_decide; [|done]. by destruct (flag data =? 0).
    + rewrite bool_decide_eq_false_2 by congruence. destruct ty; try done; unfold RemoveQualifierAddress, track_root;
        destruct (flag data =? 0), (IsAssetNameASubQualifier (asset_name data)); done.
  - destruct (IsNullGlobalRestrictionAssetTxDataScript s) eqn:E2.
    + destruct (H2 eq_refl) as [data ->]. cbn. eexists. split; [reflexivity|]. repeat split; try done.
      intros k. unfold says_global. cbn. rewrite says_remove_over. case_decide; [|done]. by destruct (flag data =? 0).
    + by exists c.
Qed.

(** Every command of the script changes the tip, as [VerifyRestrictedAddressChange]
    and [VerifyGlobalRestrictedChange] demand. *)
Definition changing (tip : list Z * list Z -> bool) (tip_all : list Z -> bool) (s : list Z) : Prop :=
  (forall k b, freeze_cmd s = Some (k, b) -> b = negb (tip k)) /\ (forall k b, global_cmd s = Some (k, b) -> b = negb (tip_all k)).

Definition touched (s : list Z) (k : list Z * list Z) : Prop := fst <$> freeze_cmd s = Some k.
Definition touched_all (s : list Z) (k : list Z) : Prop := fst <$> global_cmd s = Some k.

Lemma commands_moved tip tip_all s c c' undo : changing tip tip_all s -> commands s c c' undo ->
  moved (fun k => if undo then tip k else negb (tip k)) (touched s) (says_address c) (says_address c') /\
  moved (fun k => if undo then tip_all k else negb (tip_all k)) (touched_all s) (says_global c) (says_global c').
Proof.
  intros [Hf Hg] (Ha & Hb & _). unfold touched, touched_all. split; intros k.
  - rewrite Ha. destruct (freeze_cmd s) as [[k' b]|]; cbn; [|split; [done|done]]. rewrite (Hf k' b eq_refl). split.
    + intros [= ->]. rewrite decide_True by done. by destruct undo, (tip k).
    + intros Hn. by rewrite decide_False by congruence.
  - rewrite Hb. destruct (global_cmd s) as [[k' b]|]; cbn; [|split; [done|done]]. rewrite (Hg k' b eq_refl). split.
    + intros [= ->]. rewrite decide_True by done. by destruct undo, (tip_all k).
    + intros Hn. by rewrite decide_False by congruence.
Qed.
End Null.

(** ** Existence *)

(** Whether an asset exists, for a node that is not reindexing. *)
Definition exists_at (st : State) (n : list Z) : bool := fst (CheckIfAssetExists false (fst st) (snd st) n true).

Definition says_asset (c : CAssetsCache) : list Z -> option bool := says (fun _ => true) (fun _ => false) (setNewAssets c).

Lemma says_add_keep {K E : Type} `{Countable K} (d : Dirty K E) k e j :
  says (fun _ => true) (fun _ => false) (add k e d) j = if decide (k = j) then Some true else says (fun _ => true) (fun _ => false) d j.
Proof. unfold says. cbn. rewrite delete_lookup, set_insert_lookup. by case_decide. Qed.

Lemma says_remove_keep {K E : Type} `{Countable K} (d : Dirty K E) k e j :
  says (fun _ => true) (fun _ => false) (remove k e d) j = if decide (k = j) then Some false else says (fun _ => true) (fun _ => false) d j.
Proof. unfold says. cbn. rewrite delete_lookup, set_insert_lookup. by case_decide. Qed.

Lemma says_flush_keep {K E : Type} `{Countable K, !KeyOrder K} (d p : Dirty K E) k :
  says (fun _ => true) (fun _ => false) (flush_keep d p) k =
    match says (fun _ => true) (fun _ => false) d k with Some b => Some b | None => says (fun _ => true) (fun _ => false) p k end.
Proof.
  pose proof (flush_keep_lookup d p k) as E1. unfold at_key in E1. cbn in E1. unfold says.
  destruct (toRemove d !! k), (toAdd d !! k); injection E1 as F1 F2; by rewrite F1, F2.
Qed.

Lemma count_is_Some {K E : Type} `{Countable K} (s : gmap K E) k : count k s = true <-> is_Some (s !! k).
Proof. unfold count. apply bool_decide_eq_true. Qed.

(** The databases, below the caches. *)
Definition on_file (g : Globals) (n : list Z) : bool := bool_decide (is_Some (db_assets (passetsdb g) !! n)).

Lemma exists_spec c g n : lru_ok g ->
  exists_at (c, g) n =
    match says_asset c n, says_asset (passets g) n with
    | Some false, _ | _, Some false => false
    | Some true, _ | _, Some true => true
    | None, None => on_file g n
    end.
Proof.
  intros [Hl _]. unfold exists_at, CheckIfAssetExists, says_asset, says, on_file, count. cbn [fst snd].
  destruct (toRemove (setNewAssets c) !! n); [done|]. cbn.
  destruct (toRemove (setNewAssets (passets g)) !! n); [by destruct (toAdd (setNewAssets c) !! n)|]. cbn.
  destruct (toAdd (setNewAssets c) !! n); [by destruct (toAdd (setNewAssets (passets g)) !! n)|]. cbn.
  destruct (toAdd (setNewAssets (passets g)) !! n); [done|]. cbn.
  unfold Lru.Exists. destruct (Lru.find n (Lru.items (passetsCache g))) as [d|] eqn:El.
  - cbn. rewrite (Hl _ _ El). done.
  - cbn. unfold ReadAssetData. by destruct (db_assets (passetsdb g) !! n).
Qed.

Lemma exists_tip g n : lru_ok g ->
  exists_at (no_assets, g) n = match says_asset (passets g) n with Some b => b | None => on_file g n end.
Proof. intros Hl. rewrite exists_spec by done. rewrite (says_clean _ _ n : says_asset no_assets n = None). by destruct (says_asset (passets g) n) as [[]|]. Qed.

(** An asset of the tip is found without touching the memory cache. *)
Lemma exists_in_tip c g n : says_asset c n = None -> says_asset (passets g) n = Some true -> CheckIfAssetExists false c g n true = (true, g).
Proof.
  unfold CheckIfAssetExists, says_asset, says, count.
  destruct (toRemove (setNewAssets c) !! n); [done|]. destruct (toAdd (setNewAssets c) !! n); [done|]. intros _.
  destruct (toRemove (setNewAssets (passets g)) !! n); [done|]. by destruct (toAdd (setNewAssets (passets g)) !! n).
Qed.

(** What exists has metadata. *)
Lemma exists_metadata c g n : fst (CheckIfAssetExists false c g n true) = true ->
  is_Some (fst (GetAssetMetaDataIfExists c (snd (CheckIfAssetExists false c g n true)) n)).
Proof.
  unfold CheckIfAssetExists, GetAssetMetaDataIfExists, count.
  destruct (toRemove (setNewAssets c) !! n) eqn:E1; [done|]. cbn. destruct (toRemove (setNewAssets (passets g)) !! n) eqn:E2; [done|]. cbn.
  destruct (toAdd (setNewAssets c) !! n) eqn:E3; cbn; [intros _; rewrite ?E2; by repeat case_match|].
  destruct (toAdd (setNewAssets (passets g)) !! n) eqn:E4; cbn; [intros _; rewrite ?E2, ?E4; by repeat case_match|].
  unfold Lru.Exists, Lru.Get. destruct (Lru.find n (Lru.items (passetsCache g))) as [d|] eqn:El; cbn.
  - intros _. rewrite ?E2, ?E4, El. by repeat case_match.
  - destruct (ReadAssetData (passetsdb g) n) as [d|] eqn:Ed; [|done]. cbn. intros _. rewrite ?E2, ?E4, ?Ed. by repeat case_match.
Qed.

(** ** The effect of a block *)

Section Effect.
Variable params : Base58Prefixes.
(** The freezes of the tip the block is connected to. *)
Variables (tip : list Z * list Z -> bool) (tip_all : list Z -> bool).

(** The tip and what is below it. *)
Definition tip_same (st st' : State) : Prop :=
  let '(_, g) := st in let '(_, g') := st' in
  passets g' = passets g /\ address_store g' = address_store g /\ global_store g' = global_store g /\
  passetsdb g' = passetsdb g /\ (lru_ok g -> lru_ok g').

(** The working cache moves the freezes of [fs] and [gs] and the assets of
    [ns], forwards or backwards. *)
Definition effect (undo : bool) (fs : list (list Z * list Z)) (gs ns : list (list Z)) (st st' : State) : Prop :=
  tip_same st st' /\
  moved (fun k => if undo then tip k else negb (tip k)) (fun k => k ∈ fs) (says_address (fst st)) (says_address (fst st')) /\
  moved (fun k => if undo then tip_all k else negb (tip_all k)) (fun k => k ∈ gs) (says_global (fst st)) (says_global (fst st')) /\
  moved (fun _ => negb undo) (fun k => k ∈ ns) (says_asset (fst st)) (says_asset (fst st')).

Lemma effect_trans undo fs gs ns fs' gs' ns' a b c :
  effect undo fs gs ns a b -> effect undo fs' gs' ns' b c -> effect undo (fs ++ fs') (gs ++ gs') (ns ++ ns') a c.
Proof.
  intros (H1 & H2 & H3 & H4) (K1 & K2 & K3 & K4). split.
  - destruct a, b, c. cbn in *. destruct H1 as (? & ? & ? & ? & ?), K1 as (? & ? & ? & ? & ?).
    do 4 (split; [congruence|]). auto.
  - split; [|split]; (eapply moved_trans; [|intros; apply elem_of_app|done|done]); intros; apply _.
Qed.

Lemma effect_refl undo st : effect undo [] [] [] st st.
Proof. split; [by destruct st|]. split; [|split]; apply moved_none; intros k; apply not_elem_of_nil. Qed.

Lemma keeps_tip st st' : keeps st st' -> tip_same st st'.
Proof.
  destruct st, st'. intros (H1 & H2 & H3).
  exact (conj (f_equal fz_tip H1) (conj (f_equal fz_address_store H1) (conj (f_equal fz_global_store H1) (conj H2 H3)))).
Qed.

Lemma keeps_says st st' : keeps st st' ->
  (forall k, says_address (fst st') k = says_address (fst st) k) /\ (forall k, says_global (fst st') k = says_global (fst st) k).
Proof.
  destruct st as [c g], st' as [c' g']. intros (H1 & _).
  pose proof (f_equal fz_address H1) as E1. pose proof (f_equal fz_global H1) as E2. cbn in E1, E2.
  unfold says_address, says_global. cbn. by rewrite E1, E2.
Qed.

Lemma frames_effect undo st st' : frames st st' -> effect undo [] [] [] st st'.
Proof.
  intros [Hk Ha]. destruct (keeps_says _ _ Hk) as [E1 E2]. split; [by apply keeps_tip|].
  unfold says_asset. rewrite Ha. split; [|split]; intros k; (split; [by intros ?%not_elem_of_nil|]); intros _; auto.
Qed.

Definition freeze_keys (s : list Z) : list (list Z * list Z) := option_list (fst <$> freeze_cmd params s).
Definition global_keys (s : list Z) : list (list Z) := option_list (fst <$> global_cmd s).

Lemma elem_of_option_list {A} (o : option A) x : x ∈ option_list o <-> o = Some x.
Proof. destruct o; cbn; [rewrite elem_of_cons, elem_of_nil; naive_solver|rewrite elem_of_nil; naive_solver]. Qed.

Lemma commands_effect undo s c c' g : changing params tip tip_all s -> commands params s c c' undo ->
  effect undo (freeze_keys s) (global_keys s) [] (c, g) (c', g).
Proof.
  intros Hch Hc. destruct (commands_moved params _ _ _ _ _ _ Hch Hc) as [M1 M2]. destruct Hc as (_ & _ & Ea).
  split; [done|]. unfold freeze_keys, global_keys. split; [|split].
  - intros k. rewrite elem_of_option_list. apply M1.
  - intros k. rewrite elem_of_option_list. apply M2.
  - intros k. unfold says_asset. cbn. rewrite Ea. split; [by intros ?%not_elem_of_nil|done].
Qed.

(** Issuing an asset that does not exist, and undoing the issue. *)
Lemma issue_effect idx c g script h b :
  exists_at (c, g) (na_strName (new_asset script)) = false ->
  effect false [] [] [na_strName (new_asset script)] (c, g) (issue false idx params (c, g) script h b).
Proof.
  intros He. pose proof (AddNewAsset_keeps false idx c g (new_asset script) (address_of params script) h b) as Hk.
  unfold issue. unfold exists_at in He. cbn [fst snd] in He. unfold AddNewAsset in *.
  destruct (CheckIfAssetExists false c g (na_strName (new_asset script)) true) as [ex g']. cbn in He. subst ex.
  destruct (keeps_says _ _ Hk) as [E1 E2]. split; [by apply keeps_tip|]. split; [|split].
  - intros k. split; [by intros ?%not_elem_of_nil|]. intros _. apply E1.
  - intros k. split; [by intros ?%not_elem_of_nil|]. intros _. apply E2.
  - intros k. rewrite elem_of_cons, elem_of_nil. unfold says_asset. cbn [fst].
    match goal with |- context [setNewAssets (if idx then ?x else ?y)] =>
      replace (setNewAssets (if idx then x else y)) with (setNewAssets y) by (by destruct idx) end.
    cbn [with_assets setNewAssets]. rewrite says_add_keep. case_decide; naive_solver.
Qed.

Lemma undo_issue_effect idx c g script asset :
  AssetFromScript script = Some asset -> says_asset c (na_strName asset) = None -> says_asset (passets g) (na_strName asset) = Some true ->
  exists st', undo_issue false idx params (c, g) script = Some st' /\ effect true [] [] [na_strName asset] (c, g) st'.
Proof.
  intros Ea Hc Hp. pose proof (RemoveNewAsset_keeps false idx c g asset (address_of params script)) as Hk.
  unfold undo_issue. rewrite Ea. cbn [mbind option_bind]. rewrite exists_in_tip by done. unfold RemoveNewAsset in *.
  rewrite exists_in_tip in * by done. cbn [negb] in *. eexists. split; [reflexivity|].
  destruct (keeps_says _ _ Hk) as [E1 E2]. split; [by apply keeps_tip|]. split; [|split].
  - intros k. split; [by intros ?%not_elem_of_nil|]. intros _. apply E1.
  - intros k. split; [by intros ?%not_elem_of_nil|]. intros _. apply E2.
  - intros k. rewrite elem_of_cons, elem_of_nil. unfold says_asset. cbn [fst].
    match goal with |- context [setNewAssets (if idx then ?x else ?y)] =>
      replace (setNewAssets (if idx then x else y)) with (setNewAssets y) by (by destruct idx) end.
    cbn [with_assets setNewAssets]. rewrite says_remove_keep. case_decide; naive_solver.
Qed.

(** Keys may be listed in another order. *)
Lemma effect_iff undo fs gs ns fs' gs' ns' a b :
  (forall k, k ∈ fs <-> k ∈ fs') -> (forall k, k ∈ gs <-> k ∈ gs') -> (forall k, k ∈ ns <-> k ∈ ns') ->
  effect undo fs gs ns a b -> effect undo fs' gs' ns' a b.
Proof.
  intros Hf Hg Hn (H1 & H2 & H3 & H4). split; [done|].
  split; [|split]; intros k; [rewrite <- Hf; apply H2|rewrite <- Hg; apply H3|rewrite <- Hn; apply H4].
Qed.

Lemma effect_lru undo fs gs ns c g st' : effect undo fs gs ns (c, g) st' -> lru_ok g -> lru_ok (snd st').
Proof. destruct st' as [c' g']. intros ((_ & _ & _ & _ & H) & _). exact H. Qed.

Lemma effect_tip undo fs gs ns c g st' : effect undo fs gs ns (c, g) st' -> passets (snd st') = passets g.
Proof. destruct st' as [c' g']. by intros ((H & _) & _). Qed.

Lemma effect_unissued undo fs gs ns st st' n : effect undo fs gs ns st st' -> n ∉ ns -> says_asset (fst st') n = says_asset (fst st) n.
Proof. intros (_ & _ & _ & H) Hn. by apply (H n). Qed.

(** Whether an asset is unknown at the tip. *)
Lemma exists_clean c g n : lru_ok g -> says_asset c n = None -> exists_at (c, g) n = exists_at (no_assets, g) n.
Proof. intros Hl Hc. rewrite exists_tip, exists_spec, Hc by done. by destruct (says_asset (passets g) n) as [[]|]. Qed.

Lemma effect_new undo fs gs ns c g st' n : effect undo fs gs ns (c, g) st' -> lru_ok g ->
  exists_at (no_assets, snd st') n = exists_at (no_assets, g) n.
Proof.
  intros He Hl. pose proof (effect_lru _ _ _ _ _ _ _ He Hl) as Hl'. destruct st' as [c' g'], He as ((E1 & _ & _ & E2 & _) & _).
  cbn in *. rewrite !exists_tip by done. unfold on_file. by rewrite E1, E2.
Qed.

Definition issued_name (s : list Z) : list Z := na_strName (new_asset s).

(** A list of issues, and their undoing. *)
Lemma issues_effect h b scripts : forall c g, lru_ok g -> NoDup (issued_name <$> scripts) ->
  (forall n, n ∈ issued_name <$> scripts -> says_asset c n = None /\ exists_at (no_assets, g) n = false) ->
  effect false [] [] (issued_name <$> scripts) (c, g)
    (foldl (fun st s => issue false false params st s h b) (c, g) scripts).
Proof.
  induction scripts as [|s scripts IH]; intros c g Hl Hnd Hn; [apply effect_refl|]. cbn [foldl]. rewrite fmap_cons in *.
  apply NoDup_cons in Hnd as [Hs Hnd]. destruct (Hn (issued_name s) ltac:(by left)) as [Hc He].
  assert (H1 : effect false [] [] [issued_name s] (c, g) (issue false false params (c, g) s h b))
    by (apply issue_effect; by rewrite exists_clean).
  destruct (issue false false params (c, g) s h b) as [c' g'] eqn:E. eapply (effect_trans false [] [] [issued_name s] [] []); [exact H1|].
  apply IH; [by apply (effect_lru _ _ _ _ _ _ _ H1)|done|]. intros n Hin.
  rewrite (effect_new _ _ _ _ _ _ _ n H1 Hl : exists_at (no_assets, g') n = _).
  assert (Hni : n ∉ [issued_name s]) by (rewrite elem_of_cons, elem_of_nil; naive_solver).
  rewrite (effect_unissued _ _ _ _ _ _ n H1 Hni : says_asset c' n = _).
  apply Hn. by right.
Qed.

Fixpoint undo_issues (st : State) (scripts : list (list Z)) : option State :=
  match scripts with
  | [] => Some st
  | s :: scripts => st ← undo_issue false false params st s; undo_issues st scripts
  end.

Lemma undo_issues_effect scripts : forall c g, NoDup (issued_name <$> scripts) ->
  Forall (fun s => is_Some (AssetFromScript s)) scripts ->
  (forall n, n ∈ issued_name <$> scripts -> says_asset c n = None /\ says_asset (passets g) n = Some true) ->
  exists st', undo_issues (c, g) scripts = Some st' /\ effect true [] [] (issued_name <$> scripts) (c, g) st'.
Proof.
  induction scripts as [|s scripts IH]; intros c g Hnd Hr Hn; [eexists; split; [done|apply effect_refl]|].
  cbn [undo_issues]. rewrite fmap_cons in *. apply NoDup_cons in Hnd as [Hs Hnd]. apply Forall_cons in Hr as [[asset Ha] Hr].
  destruct (Hn (issued_name s) ltac:(by left)) as [Hc He].
  assert (En : issued_name s = na_strName asset) by (unfold issued_name, new_asset; by rewrite Ha). rewrite En in *.
  destruct (undo_issue_effect false c g s asset Ha Hc He) as ([c' g'] & -> & H1). cbn [mbind option_bind].
  destruct (IH c' g') as (st' & -> & H2); [done|done| |].
  - intros n Hin. rewrite (effect_tip _ _ _ _ _ _ _ H1 : passets g' = _).
    assert (Hni : n ∉ [na_strName asset]) by (rewrite elem_of_cons, elem_of_nil; naive_solver).
    rewrite (effect_unissued _ _ _ _ _ _ n H1 Hni : says_asset c' n = _).
    apply Hn. by right.
  - eexists. split; [done|].
    exact (effect_trans true [] [] [na_strName asset] [] [] _ _ _ _ H1 H2).
Qed.
End Effect.

(** Null outputs are unspendable. *)
Lemma null_unspendable s : IsNullAsset s = true -> IsUnspendable s = true.
Proof.
  unfold IsNullAsset, IsNullAssetTxDataScript, IsNullGlobalRestrictionAssetTxDataScript, IsNullAssetVerifierTxDataScript, IsUnspendable.
  intros H. apply orb_true_iff. left. apply orb_true_iff. left. apply orb_true_iff. right.
  destruct s as [|b s]; [done|]. rewrite !orb_true_iff, !andb_true_iff in H. apply andb_true_iff. split; [done|]. tauto.
Qed.

(** ** Transactions *)

Section Transactions.
Variable dep : Deployments.
Variable params : Base58Prefixes.
Variable unset_height : Z.
Hypothesis assets_deployed : AreAssetsDeployed dep = true.
Hypothesis restricted_deployed : AreRestrictedAssetsDeployed dep = true.

Definition tx_scripts (tx : CTransaction) : list (list Z) := map scriptPubKey (vout tx).

(** The outputs that issue an asset. *)
Definition issue_scripts (tx : CTransaction) : list (list Z) :=
  if tx_IsNewAsset tx then [last_script tx]
  else if tx_IsReissueAsset tx then []
  else if IsNewUniqueAsset tx then filter (fun s => IsScriptNewUniqueAsset s) (tx_scripts tx)
  else if IsNewMsgChannelAsset tx || IsNewQualifierAsset tx then [last_script tx]
  else if IsNewRestrictedAsset tx then [last_script tx]
  else [].

Definition is_some {A} (o : option A) : bool := match o with Some _ => true | None => false end.

(** An asset coin names its asset, its amount and its address. *)
Definition named (s : list Z) : bool :=
  match IsAssetScript s with
  | None => true
  | Some _ =>
      match GetAssetData s with
      | Some (n, v) => negb (bool_decide (n = [])) && negb (v =? 0) && negb (bool_decide (address_of params s = []))
      | None => false
      end
  end.

(** What the outputs carry can be read back, as the checks of transactions
    ensure. *)
Definition readable_output (s : list Z) : bool :=
  implb (IsNullAssetTxDataScript s) (is_some (AssetNullDataFromScript params s)) &&
  implb (IsNullGlobalRestrictionAssetTxDataScript s) (is_some (GlobalAssetNullDataFromScript s)) &&
  implb (is_some (ScriptTransferAsset s)) (is_some (TransferAssetFromScript s)) &&
  (IsUnspendable s || named s).

Definition readable (btx : BlockTx) : bool :=
  let '(tx, _, spent) := btx in
  forallb readable_output (tx_scripts tx) && forallb (fun s => is_some (AssetFromScript s)) (issue_scripts tx) &&
  implb (tx_IsNewAsset tx) (is_some (OwnerAssetFromScript (owner_script tx))) &&
  implb (tx_IsReissueAsset tx) (is_some (ReissueAssetFromScript (last_script tx))) &&
  implb (IsNewRestrictedAsset tx) (is_some (last (verifier_outputs dep tx) ≫= AssetNullVerifierDataFromScript)) &&
  forallb (fun coin => named (scriptPubKey (out coin))) spent.

Lemma is_some_spec {A} (o : option A) : is_some o = true <-> is_Some o.
Proof. destruct o; cbn; split; [eauto|done|done|by intros []]. Qed.

Lemma readable_output_null s : readable_output s = true -> readable_null params s.
Proof.
  unfold readable_output. rewrite !andb_true_iff. intros [[[H1 H2] _] _]. split; intros E; rewrite E in *; cbn in *; by apply is_some_spec.
Qed.

(** Coins that are named can be spent and restored. *)
Lemma named_spends s c g v : named s = true -> fst (TrySpendCoin false params c g (mkTxOut v s)) = true.
Proof.
  unfold named, TrySpendCoin. cbn [scriptPubKey]. destruct (IsAssetScript s); [|done].
  destruct (GetAssetData s) as [[n x]|]; [|done]. cbn [default from_option id]. rewrite !andb_true_iff.
  intros [[-> _] ->]. done.
Qed.

Lemma named_restored coin c g : named (scriptPubKey (out coin)) = true -> is_Some (IsAssetScript (scriptPubKey (out coin))) ->
  fst (UndoAssetCoin false params c g coin) = true.
Proof.
  unfold named, UndoAssetCoin. intros H [x E]. rewrite E in H. destruct (GetAssetData _) as [[n v]|]; [|done].
  rewrite !andb_true_iff, !negb_true_iff in H. destruct H as [[-> ->] ->]. done.
Qed.

Lemma spend_inputs_frames spent : forall st, forallb (fun coin => named (scriptPubKey (out coin))) spent = true ->
  exists st', spend_inputs false params st spent = Some st' /\ frames st st'.
Proof.
  induction spent as [|coin spent IH]; intros [c g] H; [by eexists|]. cbn [forallb spend_inputs] in *.
  apply andb_true_iff in H as [H1 H2]. pose proof (TrySpendCoin_frames false params c g (out coin)) as F.
  destruct (out coin) as [v s]. pose proof (named_spends s c g v H1) as E.
  destruct (TrySpendCoin _ _ _ _ _) as [ok c']. cbn in E, F. subst ok. destruct (IH (c', g) H2) as (st' & -> & F').
  eexists. split; [done|by etrans].
Qed.

Lemma restore_inputs_frames spent : forall st, forallb (fun coin => named (scriptPubKey (out coin))) spent = true ->
  let '(clean, st') := restore_inputs false params st true spent in clean = true /\ frames st st'.
Proof.
  induction spent as [|coin spent IH]; intros [c g] H; [done|]. cbn [forallb restore_inputs] in *.
  apply andb_true_iff in H as [H1 H2]. case_bool_decide as Ea.
  - pose proof (UndoAssetCoin_frames false params c g coin) as F. pose proof (named_restored coin c g H1 Ea) as E.
    destruct (UndoAssetCoin _ _ _ _ _) as [ok c']. cbn in E, F. subst ok. specialize (IH (c', g) H2).
    cbn [andb]. destruct (restore_inputs _ _ _ _ _) as [cl st']. destruct IH as [-> F']. split; [done|by etrans].
  - apply (IH (c, g) H2).
Qed.

Lemma spend_outputs_clean outs : forall temp g, forallb readable_output (map scriptPubKey outs) = true ->
  fst (spend_outputs false params temp g true outs) = true.
Proof.
  induction outs as [|[v s] outs IH]; intros temp g H; [done|]. cbn [map forallb spend_outputs scriptPubKey] in *.
  apply andb_true_iff in H as [H1 H2]. unfold readable_output in H1. rewrite !andb_true_iff in H1. destruct H1 as [_ H1].
  destruct (IsUnspendable s); cbn [negb orb] in *; [by apply IH|]. pose proof (named_spends s temp g v H1) as E.
  destruct (TrySpendCoin _ _ _ _ _) as [ok temp']. cbn in E. subst ok. by apply IH.
Qed.

Lemma undo_transfers_frames outs : forall st txid i, forallb readable_output (map scriptPubKey outs) = true ->
  exists st', undo_transfers false params st txid i outs = Some st' /\ frames st st'.
Proof.
  induction outs as [|o outs IH]; intros [c g] txid i H; [by eexists|]. cbn [map forallb undo_transfers] in *.
  apply andb_true_iff in H as [H1 H2]. unfold readable_output in H1. rewrite !andb_true_iff in H1. destruct H1 as [[_ Ht] _].
  destruct (_ && bool_decide _) eqn:E.
  - apply andb_true_iff in E as [_ E%bool_decide_eq_true]. rewrite (proj2 (is_some_spec _) E) in Ht. cbn in Ht.
    apply is_some_spec in Ht as [t ->]. cbn [mbind option_bind].
    pose proof (RemoveTransfer_frames false c g t (address_of params (scriptPubKey o)) (txid, i)) as F. cbn in F |- *.
    destruct (IH (with_transfers c (remove (txid, i) (mkCacheTransfer t (address_of params (scriptPubKey o))) (setNewTransferAssets c)), g) txid (i + 1) H2)
      as (st' & -> & F'). eexists. split; [done|]. by etrans.
  - cbn [mbind option_bind]. by apply IH.
Qed.

(** ** The effect of a transaction *)

Variables (tip : list Z * list Z -> bool) (tip_all : list Z -> bool).

Abbreviation effect := (effect tip tip_all).

Definition tx_names (tx : CTransaction) : list (list Z) := issued_name <$> issue_scripts tx.
Definition scripts_freezes (scripts : list (list Z)) : list (list Z * list Z) := scripts ≫= freeze_keys params.
Definition scripts_globals (scripts : list (list Z)) : list (list Z) := scripts ≫= global_keys.

Lemma add_outputs_effect outs : forall st txid i, forallb readable_output (map scriptPubKey outs) = true ->
  Forall (changing params tip tip_all) (map scriptPubKey outs) ->
  effect false (scripts_freezes (map scriptPubKey outs)) (scripts_globals (map scriptPubKey outs)) [] st
    (add_outputs false params st txid i outs).
Proof.
  induction outs as [|o outs IH]; intros [c g] txid i H Hc; [apply effect_refl|]. cbn [map forallb add_outputs] in *.
  apply andb_true_iff in H as [H1 H2]. apply Forall_cons in Hc as [Hc Hcs]. unfold scripts_freezes, scripts_globals in *. rewrite !bind_cons.
  eapply (effect_trans _ _ false _ _ []); [|by apply IH]. unfold add_output.
  eapply (effect_trans _ _ false [] [] []); [apply frames_effect|apply (commands_effect params); [done|by apply add_null_commands, readable_output_null]].
  destruct (TransferAssetFromScript _) as [t|]; [|done]. destruct (_ >? 0); [|done]. apply AddTransferAsset_frames.
Qed.

(** Other outputs carry no command. *)
Lemma no_keys s : IsNullAsset s && negb (IsNullAssetVerifierTxDataScript s) = false -> freeze_keys params s = [] /\ global_keys s = [].
Proof.
  unfold IsNullAsset, freeze_keys, global_keys, freeze_cmd, global_cmd. intros H.
  destruct (IsNullAssetVerifierTxDataScript s) eqn:E; [by destruct (null_verifier s E) as [-> ->]|].
  by destruct (IsNullAssetTxDataScript s), (IsNullGlobalRestrictionAssetTxDataScript s).
Qed.

Lemma undo_nulls_effect scripts g : forall c, forallb readable_output scripts = true -> Forall (changing params tip tip_all) scripts ->
  exists c', undo_nulls params c (filter (fun s => IsUnspendable s && IsNullAsset s) scripts) = Some c' /\
    effect true (scripts_freezes scripts) (scripts_globals scripts) [] (c, g) (c', g).
Proof.
  unfold scripts_freezes, scripts_globals.
  induction scripts as [|s scripts IH]; intros c H Hc; [eexists; split; [done|apply effect_refl]|]. cbn [forallb] in H.
  apply andb_true_iff in H as [H1 H2]. apply Forall_cons in Hc as [Hc Hcs]. rewrite !bind_cons, filter_cons.
  destruct (IsNullAsset s && negb (IsNullAssetVerifierTxDataScript s)) eqn:E.
  - apply andb_true_iff in E as [E1 E2%negb_true_iff]. rewrite decide_True by (by rewrite (null_unspendable s E1), E1).
    cbn [undo_nulls]. rewrite E2. destruct (undo_null_commands params c s (readable_output_null s H1)) as (c1 & -> & Hcmd).
    cbn [mbind option_bind]. destruct (IH c1 H2 Hcs) as (c' & -> & He). eexists. split; [done|].
    eapply (effect_trans _ _ true _ _ []); [by apply (commands_effect params)|done].
  - destruct (no_keys s E) as [-> ->]. cbn [app]. case_decide as D; [|by apply IH]. cbn [undo_nulls].
    assert (Hv : IsNullAssetVerifierTxDataScript s = true).
    { apply Is_true_true, andb_true_iff in D as [_ D]. rewrite D in E. by destruct (IsNullAssetVerifierTxDataScript s). }
    rewrite Hv. cbn [mbind option_bind]. by apply IH.
Qed.

Lemma foldl_filter_scripts {S} (f : S -> list Z -> S) (P : list Z -> bool) outs : forall st,
  foldl (fun st o => if P (scriptPubKey o) then f st (scriptPubKey o) else st) st outs =
  foldl f st (filter (fun s => P s) (map scriptPubKey outs)).
Proof.
  induction outs as [|o outs IH]; intros st; [done|]. cbn [foldl map]. rewrite IH, filter_cons.
  destruct (P (scriptPubKey o)); cbn; done.
Qed.

Lemma reissue_tx_frames st tx txid : frames st (fst (reissue_tx false params unset_height st tx txid)).
Proof.
  destruct st as [c g]. unfold reissue_tx. set (r := default null_reissue _).
  pose proof (GetAssetMetaDataIfExists_frames c g (re_strName r)) as F1.
  destruct (GetAssetMetaDataIfExists c g _) as [meta g1]. cbn [snd] in F1.
  match goal with |- context [AddReissueAsset false unset_height c g1 r ?ad ?o] =>
    pose proof (AddReissueAsset_frames false unset_height c g1 r ad o) as F2;
    destruct (AddReissueAsset false unset_height c g1 r ad o) as [[ok c2] g2] end.
  cbn zeta. etrans; [exact F1|]. etrans; [exact F2|]. destruct (if bool_decide _ then _ else _) as [v|]; [|done].
  match goal with |- context [GetAssetVerifierStringIfExists c2 g2 ?n ?f] =>
    pose proof (GetAssetVerifierStringIfExists_frames c2 g2 n f) as F3; destruct (GetAssetVerifierStringIfExists c2 g2 n f) as [old g3] end.
  cbn [snd fst] in *. etrans; [exact F3|]. done.
Qed.

(** Before its loop [AddCoins] issues the assets and little else. *)
Lemma AddCoins_issues_split st tx txid h b : exists st', frames (foldl (fun st s => issue false false params st s h b) st (issue_scripts tx)) st' /\
  fst (AddCoins_issues false false params unset_height st tx txid h b) = st'.
Proof.
  eexists. split; [|reflexivity]. unfold AddCoins_issues, issue_scripts.
  destruct (tx_IsNewAsset tx); [cbn [foldl]; by destruct (issue _ _ _ _ _ _)|].
  destruct (tx_IsReissueAsset tx); [apply reissue_tx_frames|].
  destruct (IsNewUniqueAsset tx); [cbn [fst]; by rewrite (foldl_filter_scripts (fun st s => issue false false params st s h b))|].
  destruct (_ || _); [done|]. destruct (IsNewRestrictedAsset tx); [|done]. cbn [foldl].
  destruct (issue _ _ _ _ _ _ _) as [c g]. by destruct (verifier_script tx).
Qed.

Lemma undo_unique_issues outs : forall st,
  undo_unique false false params st outs = undo_issues params st (filter (fun s => IsScriptNewUniqueAsset s) (map scriptPubKey outs)).
Proof.
  induction outs as [|o outs IH]; intros st; [done|]. cbn [undo_unique map]. rewrite filter_cons.
  destruct (IsScriptNewUniqueAsset (scriptPubKey o)); cbn [mbind option_bind]; [|by rewrite IH].
  rewrite decide_True by done. cbn [undo_issues]. destruct (undo_issue _ _ _ _ _); [|done]. apply IH.
Qed.

Lemma undo_reissue_frames c g tx txid undos : is_Some (ReissueAssetFromScript (last_script tx)) ->
  exists st', undo_reissue false false params unset_height (c, g) tx txid undos = Some st' /\ frames (c, g) st'.
Proof.
  intros [r Hr]. unfold undo_reissue. rewrite Hr. cbn [mbind option_bind].
  pose proof (CheckIfAssetExists_frames false c g (re_strName r) true) as F1. pose proof (exists_metadata c g (re_strName r)) as Hm.
  destruct (CheckIfAssetExists _ _ _ _ _) as [[] g1]; [|by eexists]. cbn [fst snd] in *. specialize (Hm eq_refl).
  match goal with |- context [RemoveReissueAsset false unset_height c g1 r ?ad ?o ?u] =>
    pose proof (RemoveReissueAsset_frames false unset_height c g1 r ad o u) as F2 end.
  unfold RemoveReissueAsset in *. destruct (GetAssetMetaDataIfExists c g1 _) as [[[a iss]|] g2]; [|by destruct Hm].
  destruct (default _ iss) as [h b]. destruct (restored_data a r undos) as [d v]. cbn zeta in *. eexists. split; [reflexivity|]. by etrans.
Qed.

(** Undoing them: the issues, and little else. *)
Lemma DisconnectBlock_issues_split st st1 tx txid undos : readable (tx, txid, []) = true ->
  undo_issues params st (issue_scripts tx) = Some st1 ->
  exists st', DisconnectBlock_issues false false dep params unset_height st tx txid undos = Some st' /\ frames st1 st'.
Proof.
  unfold readable, DisconnectBlock_issues, issue_scripts. rewrite !andb_true_iff. intros (((((_ & _) & Ho) & Hr) & Hv) & _) Hu.
  destruct (tx_IsNewAsset tx).
  { cbn [undo_issues] in Hu. destruct (undo_issue _ _ _ _ _) as [[c g]|]; [|done]. cbn [mbind option_bind] in *. simplify_eq.
    cbn [implb] in Ho. apply is_some_spec in Ho as [n ->]. cbn. by eexists. }
  destruct (tx_IsReissueAsset tx).
  { cbn in Hu. simplify_eq. destruct st1. apply undo_reissue_frames. by apply is_some_spec. }
  destruct (IsNewUniqueAsset tx); [rewrite undo_unique_issues; by eexists|].
  destruct (_ || _).
  { cbn [undo_issues] in Hu. destruct (undo_issue _ _ _ _ _); [|done]. cbn in Hu. simplify_eq. by eexists. }
  destruct (IsNewRestrictedAsset tx); [|by eexists].
  cbn [undo_issues] in Hu. destruct (undo_issue _ _ _ _ _) as [[c g]|] eqn:E; [|done]. cbn [mbind option_bind] in *. simplify_eq.
  cbn [implb] in Hv. apply is_some_spec in Hv as [v Hv]. destruct (last _) as [s|]; [|done]. cbn [mbind option_bind] in *.
  unfold undo_issue in E. destruct st as [c0 g0]. destruct (AssetFromScript (last_script tx)) as [a|]; [|done]. cbn [mbind option_bind] in *.
  rewrite Hv. cbn. by eexists.
Qed.

(** A transaction and a block connected, and disconnected. *)
Definition tx_changing (btx : BlockTx) : Prop := Forall (changing params tip tip_all) (tx_scripts btx.1.1).
Definition btx_names (btx : BlockTx) : list (list Z) := tx_names btx.1.1.
Definition btx_freezes (btx : BlockTx) : list (list Z * list Z) := scripts_freezes (tx_scripts btx.1.1).
Definition btx_globals (btx : BlockTx) : list (list Z) := scripts_globals (tx_scripts btx.1.1).

Lemma UpdateCoins_effect c g btx h b : readable btx = true -> tx_changing btx -> lru_ok g -> NoDup (btx_names btx) ->
  (forall n, n ∈ btx_names btx -> says_asset c n = None /\ exists_at (no_assets, g) n = false) ->
  exists st' undo, UpdateCoins_assets false false dep params unset_height (c, g) btx.1.1 btx.1.2 btx.2 h b = Some (st', undo) /\
    effect false (btx_freezes btx) (btx_globals btx) (btx_names btx) (c, g) st'.
Proof.
  destruct btx as [[tx txid] spent]. intros Hr Hc Hl Hnd Hn. cbn [fst snd] in *.
  unfold readable in Hr. rewrite !andb_true_iff in Hr. destruct Hr as (((((Hro & _) & _) & _) & _) & Hs).
  unfold UpdateCoins_assets. rewrite assets_deployed, andb_true_r.
  assert (Hsp : exists st1, (if negb (IsCoinBase tx) then spend_inputs false params (c, g) spent else @Some State (c, g)) = Some st1 /\ frames (c, g) st1).
  { destruct (negb _); [by apply spend_inputs_frames|by eexists]. }
  destruct Hsp as ([c1 g1] & -> & F1). cbn [mbind option_bind]. unfold AddCoins_assets. rewrite assets_deployed.
  destruct (AddCoins_issues_split (c1, g1) tx txid h b) as (st2 & F2 & E2).
  destruct (AddCoins_issues _ _ _ _ _ _ _ _ _) as [st2' undo]. cbn [fst] in E2. subst st2'.
  pose proof (frames_effect tip tip_all false _ _ F1) as E1.
  do 2 eexists. split; [reflexivity|].
  eapply (effect_trans _ _ false [] [] []); [exact E1|].
  eapply effect_iff; [| | |eapply effect_trans; [eapply effect_trans; [apply issues_effect|by apply frames_effect]|by apply add_outputs_effect]].
  - done.
  - done.
  - intros n. rewrite !app_nil_r. done.
  - by apply (effect_lru _ _ _ _ _ _ _ _ _ E1).
  - done.
  - intros n Hin. rewrite (effect_new _ _ _ _ _ _ _ _ _ n E1 Hl : exists_at (no_assets, g1) n = _).
    rewrite (effect_unissued _ _ _ _ _ _ _ _ n E1 (not_elem_of_nil n) : says_asset c1 n = _). by apply Hn.
Qed.

Lemma Disconnect_effect c g temp first btx undos : readable btx = true -> tx_changing btx -> NoDup (btx_names btx) ->
  (forall n, n ∈ btx_names btx -> says_asset c n = None /\ says_asset (passets g) n = Some true) ->
  exists st' temp', DisconnectBlock_tx_assets false false dep params unset_height (c, g) temp true first btx undos = Some (true, st', temp') /\
    effect true (btx_freezes btx) (btx_globals btx) (btx_names btx) (c, g) st'.
Proof.
  destruct btx as [[tx txid] spent]. intros Hr Hc Hnd Hn. assert (Hr0 : readable (tx, txid, []) = true).
  { unfold readable in *. apply andb_true_iff in Hr as [-> _]. done. }
  unfold readable in Hr. rewrite !andb_true_iff in Hr. destruct Hr as (((((Hro & Hra) & _) & _) & _) & Hs).
  unfold DisconnectBlock_tx_assets. cbn [snd]. pose proof (spend_outputs_clean (vout tx) temp g Hro) as E0.
  destruct (spend_outputs _ _ _ _ _ _) as [cl temp']. cbn in E0. subst cl.
  destruct (undo_issues_effect params tip tip_all (issue_scripts tx) c g Hnd) as (st1 & Hu & H1); [|done|].
  { apply Forall_forall. intros s Hs'. apply is_some_spec. rewrite forallb_forall in Hra. apply Hra. by apply list_elem_of_In. }
  destruct (DisconnectBlock_issues_split _ _ tx txid undos Hr0 Hu) as (st2 & -> & F2). cbn [mbind option_bind].
  destruct (undo_transfers_frames (vout tx) st2 txid 0 Hro) as ([c3 g3] & -> & F3). cbn [mbind option_bind].
  unfold null_outputs. rewrite restricted_deployed.
  destruct (undo_nulls_effect (tx_scripts tx) g3 c3 Hro Hc) as (c4 & E4 & H4). unfold tx_scripts in E4. rewrite E4. cbn [mbind option_bind].
  assert (H5 : effect true (btx_freezes (tx, txid, spent)) (btx_globals (tx, txid, spent)) (btx_names (tx, txid, spent)) (c, g) (c4, g3)).
  { eapply effect_iff; [| | |eapply effect_trans; [exact H1|eapply (effect_trans _ _ true [] [] []); [|exact H4]]]; [done|done| |].
    - intros n. by rewrite !app_nil_r.
    - apply frames_effect. by etrans. }
  destruct first; [by do 2 eexists|].
  pose proof (restore_inputs_frames (reverse spent) (c4, g3)) as F6.
  destruct (restore_inputs _ _ _ _ _) as [cl st']. destruct F6 as [-> F6].
  { rewrite forallb_forall in *. intros x Hx. apply Hs. apply list_elem_of_In, elem_of_reverse. by apply list_elem_of_In. }
  do 2 eexists. split; [reflexivity|]. eapply effect_iff; [| | |eapply effect_trans; [exact H5|by apply frames_effect]]; intros k; by rewrite app_nil_r.
Qed.

Lemma ConnectBlock_effect vtx h b : forall c g, forallb readable vtx = true -> Forall tx_changing vtx -> lru_ok g ->
  NoDup (vtx ≫= btx_names) ->
  (forall n, n ∈ vtx ≫= btx_names -> says_asset c n = None /\ exists_at (no_assets, g) n = false) ->
  exists st' undos, ConnectBlock_loop false false dep params unset_height (c, g) vtx h b = Some (st', undos) /\
    effect false (vtx ≫= btx_freezes) (vtx ≫= btx_globals) (vtx ≫= btx_names) (c, g) st'.
Proof.
  induction vtx as [|btx vtx IH]; intros c g Hr Hc Hl Hnd Hn; [do 2 eexists; split; [reflexivity|apply effect_refl]|].
  cbn [forallb] in Hr. apply andb_true_iff in Hr as [Hr Hrs]. apply Forall_cons in Hc as [Hc Hcs]. rewrite !bind_cons in *.
  apply NoDup_app in Hnd as (Hnd1 & Hdis & Hnd2).
  destruct (UpdateCoins_effect c g btx h b Hr Hc Hl Hnd1) as ([c1 g1] & undo & E1 & H1).
  { intros n Hin. apply Hn. apply elem_of_app. by left. }
  destruct (IH c1 g1 Hrs Hcs) as (st' & undos & E2 & H2); [by apply (effect_lru _ _ _ _ _ _ _ _ _ H1)|done| |].
  - intros n Hin. assert (Hni : n ∉ btx_names btx) by (intros ?; by apply (Hdis n)).
    rewrite (effect_new _ _ _ _ _ _ _ _ _ n H1 Hl : exists_at (no_assets, g1) n = _).
    rewrite (effect_unissued _ _ _ _ _ _ _ _ n H1 Hni : says_asset c1 n = _). apply Hn. apply elem_of_app. by right.
  - destruct btx as [[tx txid] spent]. cbn [ConnectBlock_loop fst snd] in *. rewrite E1. cbn [mbind option_bind]. rewrite E2. cbn [mbind option_bind].
    do 2 eexists. split; [reflexivity|]. by eapply effect_trans.
Qed.

Lemma DisconnectBlock_effect vtx undos : forall c g temp, forallb readable vtx = true -> Forall tx_changing vtx ->
  NoDup (vtx ≫= btx_names) ->
  (forall n, n ∈ vtx ≫= btx_names -> says_asset c n = None /\ says_asset (passets g) n = Some true) ->
  exists st', DisconnectBlock_loop_assets false false dep params unset_height (c, g) temp true vtx undos = Some (true, st') /\
    effect true (vtx ≫= btx_freezes) (vtx ≫= btx_globals) (vtx ≫= btx_names) (c, g) st'.
Proof.
  induction vtx as [|btx vtx IH]; intros c g temp Hr Hc Hnd Hn; [eexists; split; [reflexivity|apply effect_refl]|].
  cbn [forallb] in Hr. apply andb_true_iff in Hr as [Hr Hrs]. apply Forall_cons in Hc as [Hc Hcs]. rewrite !bind_cons in *.
  apply NoDup_app in Hnd as (Hnd1 & Hdis & Hnd2).
  destruct (Disconnect_effect c g temp (bool_decide (vtx = [])) btx undos Hr Hc Hnd1) as ([c1 g1] & temp1 & E1 & H1).
  { intros n Hin. apply Hn. apply elem_of_app. by left. }
  destruct (IH c1 g1 temp1 Hrs Hcs) as (st' & E2 & H2); [done| |].
  - intros n Hin. assert (Hni : n ∉ btx_names btx) by (intros ?; by apply (Hdis n)).
    rewrite (effect_tip _ _ _ _ _ _ _ _ _ H1 : passets g1 = _).
    rewrite (effect_unissued _ _ _ _ _ _ _ _ n H1 Hni : says_asset c1 n = _). apply Hn. apply elem_of_app. by right.
  - cbn [DisconnectBlock_loop_assets]. rewrite E1. cbn [mbind option_bind]. rewrite E2. eexists. split; [reflexivity|]. by eapply effect_trans.
Qed.
End Transactions.

(** ** A block connected and disconnected *)

(** What the tip answers: freezes, and the existence of assets. *)
Definition frozen_at (g : Globals) (k : list Z * list Z) : bool := fst (CheckForAddressRestriction no_assets g k.1 k.2 true).
Definition frozen_all_at (g : Globals) (n : list Z) : bool := fst (CheckForGlobalRestriction no_assets g n true).

(** The tip of [g2] answers as that of [g]. *)
Definition same_answers (g g2 : Globals) : Prop :=
  (forall k, frozen_at g2 k = frozen_at g k) /\ (forall n, frozen_all_at g2 n = frozen_all_at g n) /\
  (forall n, exists_at (no_assets, g2) n = exists_at (no_assets, g) n).

Lemma elem_of_reverse_bind {A B} (f : A -> list B) l k : k ∈ reverse l ≫= f <-> k ∈ l ≫= f.
Proof. rewrite !list_elem_of_bind. by setoid_rewrite elem_of_reverse. Qed.

(** Moving keys away and back. *)
Lemma moved_back {K} (want want' : K -> bool) (P : K -> Prop) (f f' f'' : K -> option bool) :
  moved want P f f' -> moved want' P f' f'' -> moved want' P f f''.
Proof. intros H1 H2 k. split; intros Hk; [by apply H2|]. rewrite (proj2 (H2 k) Hk). by apply H1. Qed.

Lemma frozen_at_says g k :
  frozen_at g k = Flags.lookup hash_key swap (says_address (passets g)) (address_store g) k.
Proof. destruct k as [n a]. apply CheckForAddressRestriction_lookup. Qed.

Lemma frozen_all_at_says g n :
  frozen_all_at g n = Flags.lookup id id (says_global (passets g)) (global_store g) n.
Proof. apply CheckForGlobalRestriction_lookup. Qed.

(** A flush of the working cache to the tip. *)
Lemma Flush_says c g :
  (forall k, says_address (passets (FlushAssets c g)) k = match says_address c k with Some b => Some b | None => says_address (passets g) k end) /\
  (forall k, says_global (passets (FlushAssets c g)) k = match says_global c k with Some b => Some b | None => says_global (passets g) k end) /\
  (forall k, says_asset (passets (FlushAssets c g)) k = match says_asset c k with Some b => Some b | None => says_asset (passets g) k end).
Proof. split; [|split]; intros k; [apply says_flush_over|apply says_flush_over|apply says_flush_keep]. Qed.

(** What [ConnectTip] and [DisconnectTip] leave, from the effect on the
    working cache. *)
Lemma effect_flush tip tip_all undo fs gs ns g c' g' g'' :
  effect tip tip_all undo fs gs ns (no_assets, g) (c', g') -> lru_ok g ->
  passets g'' = passets g' -> address_store g'' = address_store g' -> global_store g'' = global_store g' ->
  db_assets (passetsdb g'') = db_assets (passetsdb g') -> passetsCache g'' = passetsCache g' ->
  let g1 := FlushAssets c' g'' in
  lru_ok g1 /\ address_store g1 = address_store g /\ global_store g1 = global_store g /\ (forall n, on_file g1 n = on_file g n) /\
  moved (fun k => if undo then tip k else negb (tip k)) (fun k => k ∈ fs) (says_address (passets g)) (says_address (passets g1)) /\
  moved (fun k => if undo then tip_all k else negb (tip_all k)) (fun k => k ∈ gs) (says_global (passets g)) (says_global (passets g1)) /\
  moved (fun _ => negb undo) (fun k => k ∈ ns) (says_asset (passets g)) (says_asset (passets g1)).
Proof.
  intros ((T1 & T2 & T3 & T4 & T5) & Ma & Mg & Mn) Hl E1 E2 E3 E4 E5. cbn zeta.
  destruct (Flush_says c' g'') as (Fa & Fg & Fn). rewrite E1, T1 in Fa, Fg, Fn. cbn [fst] in *.
  change (address_store (FlushAssets c' g'')) with (address_store g''). change (global_store (FlushAssets c' g'')) with (global_store g'').
  split; [|split; [congruence|split; [congruence|split]]].
  - destruct (T5 Hl) as [L1 L2]. split; cbn; intros n d; rewrite E4; [rewrite E5; apply L1|apply L2].
  - intros n. unfold on_file. cbn. by rewrite E4, T4.
  - split; [|split]; intros k; [rewrite Fa; destruct (Ma k) as [H1 H2]|rewrite Fg; destruct (Mg k) as [H1 H2]|rewrite Fn; destruct (Mn k) as [H1 H2]];
      (split; intros Hk; [by rewrite (H1 Hk)|rewrite (H2 Hk)]);
      match goal with |- context [?f no_assets k] => rewrite (says_clean _ _ k : f no_assets k = None) end; done.
Qed.

Lemma lookup_moved {K D} `{Countable D} (hk : K -> list Z) (dbk : K -> D) (want : K -> bool) (ks : list K) p p' s s' k :
  moved want (fun k => k ∈ ks) p p' -> s' = s ->
  (k ∈ ks -> Flags.lookup hk dbk p' s' k = want k) /\ (k ∉ ks -> Flags.lookup hk dbk p' s' k = Flags.lookup hk dbk p s k).
Proof. intros Hm ->. unfold Flags.lookup. destruct (Hm k) as [H1 H2]. split; intros Hk; [by rewrite (H1 Hk)|by rewrite (H2 Hk)]. Qed.

Section Restore.
Variable dep : Deployments.
Variable params : Base58Prefixes.
Variable unset_height : Z.
Hypothesis assets_deployed : AreAssetsDeployed dep = true.
Hypothesis restricted_deployed : AreRestrictedAssetsDeployed dep = true.

(** The block as its checks accept it: its data can be read; every freeze
    changes the tip; it issues each asset once, and none that exists. *)
Definition acceptable (g : Globals) (vtx : list BlockTx) : Prop :=
  forallb (readable dep params) vtx = true /\ Forall (tx_changing params (frozen_at g) (frozen_all_at g)) vtx /\
  NoDup (vtx ≫= btx_names) /\ Forall (fun n => exists_at (no_assets, g) n = false) (vtx ≫= btx_names).

(** What connecting it means. *)
Definition connected (g : Globals) (vtx : list BlockTx) (g1 : Globals) : Prop :=
  (forall k, frozen_at g1 k = if decide (k ∈ vtx ≫= btx_freezes params) then negb (frozen_at g k) else frozen_at g k) /\
  (forall n, frozen_all_at g1 n = if decide (n ∈ vtx ≫= btx_globals) then negb (frozen_all_at g n) else frozen_all_at g n) /\
  (forall n, exists_at (no_assets, g1) n = if decide (n ∈ vtx ≫= btx_names) then true else exists_at (no_assets, g) n).

Lemma ConnectTip_moves g vtx h b : lru_ok g -> acceptable g vtx ->
  exists g1, ConnectTip_assets false false dep params unset_height g vtx h b = Some g1 /\
  lru_ok g1 /\ address_store g1 = address_store g /\ global_store g1 = global_store g /\ (forall n, on_file g1 n = on_file g n) /\
  moved (fun k => negb (frozen_at g k)) (fun k => k ∈ vtx ≫= btx_freezes params) (says_address (passets g)) (says_address (passets g1)) /\
  moved (fun k => negb (frozen_all_at g k)) (fun k => k ∈ vtx ≫= btx_globals) (says_global (passets g)) (says_global (passets g1)) /\
  moved (fun _ => true) (fun k => k ∈ vtx ≫= btx_names) (says_asset (passets g)) (says_asset (passets g1)).
Proof.
  intros Hl (Hr & Hc & Hnd & Hn). rewrite Forall_forall in Hn. unfold ConnectTip_assets.
  destruct (ConnectBlock_effect dep params unset_height assets_deployed _ _ vtx h b no_assets g Hr Hc Hl Hnd) as ([c' g'] & undos & -> & He).
  { intros n Hin. split; [apply says_clean|by apply Hn]. }
  cbn [mbind option_bind]. eexists. split; [reflexivity|].
  eapply (effect_flush _ _ false _ _ _ g c' g' _ He Hl); by destruct (bool_decide _).
Qed.

Lemma DisconnectTip_moves g g1 vtx b : lru_ok g1 -> acceptable g vtx ->
  (forall n, n ∈ vtx ≫= btx_names -> says_asset (passets g1) n = Some true) ->
  exists g2, DisconnectTip_assets false false dep params unset_height g1 vtx b = Some g2 /\
  lru_ok g2 /\ address_store g2 = address_store g1 /\ global_store g2 = global_store g1 /\ (forall n, on_file g2 n = on_file g1 n) /\
  moved (frozen_at g) (fun k => k ∈ vtx ≫= btx_freezes params) (says_address (passets g1)) (says_address (passets g2)) /\
  moved (frozen_all_at g) (fun k => k ∈ vtx ≫= btx_globals) (says_global (passets g1)) (says_global (passets g2)) /\
  moved (fun _ => false) (fun k => k ∈ vtx ≫= btx_names) (says_asset (passets g1)) (says_asset (passets g2)).
Proof.
  intros Hl (Hr & Hc & Hnd & _) Hn. unfold DisconnectTip_assets. rewrite assets_deployed.
  destruct (DisconnectBlock_effect dep params unset_height restricted_deployed (frozen_at g) (frozen_all_at g) (reverse vtx)
    (ReadBlockUndoAssetData (passetsdb g1) b) no_assets g1 no_assets) as ([c' g'] & -> & He).
  - rewrite forallb_forall in *. intros x Hx. apply Hr. apply list_elem_of_In, elem_of_reverse. by apply list_elem_of_In.
  - by apply Forall_reverse.
  - apply (NoDup_Permutation_proper _ _ (bind_Permutation _ _ _ (reverse_Permutation vtx))). done.
  - intros n Hin. split; [apply says_clean|]. apply Hn. by apply elem_of_reverse_bind.
  - cbn [mbind option_bind]. eexists. split; [reflexivity|].
    apply (effect_iff _ _ _ _ _ _ _ _ _ _ _ (elem_of_reverse_bind _ _) (elem_of_reverse_bind _ _) (elem_of_reverse_bind _ _)) in He.
    exact (effect_flush _ _ true _ _ _ g1 c' g' g' He Hl eq_refl eq_refl eq_refl eq_refl eq_refl).
Qed.

Lemma exists_moved want g g' (ns : list (list Z)) n : lru_ok g -> lru_ok g' -> (forall n, on_file g' n = on_file g n) ->
  moved (fun _ => want) (fun k => k ∈ ns) (says_asset (passets g)) (says_asset (passets g')) ->
  (n ∈ ns -> exists_at (no_assets, g') n = want) /\ (n ∉ ns -> exists_at (no_assets, g') n = exists_at (no_assets, g) n).
Proof.
  intros Hl Hl' Hf Hm. rewrite !exists_tip by done. destruct (Hm n) as [H1 H2].
  split; intros Hn; [by rewrite (H1 Hn)|by rewrite (H2 Hn), Hf].
Qed.

(** Disconnecting a block that was just connected restores the assets at
    the tip.  Connecting succeeds and does what the block says: the addresses
    and assets it names change their freeze, the assets it issues exist, and
    nothing else changes.  Disconnecting succeeds, and every freeze and every
    asset is as it was before. *)
Lemma block_undo_restores g vtx h b : lru_ok g -> acceptable g vtx ->
  exists g1 g2, ConnectTip_assets false false dep params unset_height g vtx h b = Some g1 /\ connected g vtx g1 /\
    DisconnectTip_assets false false dep params unset_height g1 vtx b = Some g2 /\ same_answers g g2.
Proof.
  intros Hl Hok. destruct (ConnectTip_moves g vtx h b Hl Hok) as (g1 & -> & Hl1 & A1 & G1 & O1 & Ma & Mg & Mn).
  destruct (DisconnectTip_moves g g1 vtx b Hl1 Hok) as (g2 & E2 & Hl2 & A2 & G2 & O2 & Na & Ng & Nn); [intros n; apply Mn|].
  exists g1, g2. split; [done|]. split; [|split; [done|]].
  - split; [|split]; intros k.
    + rewrite !frozen_at_says. destruct (lookup_moved hash_key swap _ _ _ _ _ _ k Ma A1). rewrite <- !frozen_at_says in *. case_decide; auto.
    + rewrite !frozen_all_at_says. destruct (lookup_moved id id _ _ _ _ _ _ k Mg G1). rewrite <- !frozen_all_at_says in *. case_decide; auto.
    + destruct (exists_moved true g g1 _ k Hl Hl1 O1 Mn). case_decide; auto.
  - assert (Ho : forall n, on_file g2 n = on_file g n) by (intros; by rewrite O2).
    split; [|split]; intros k.
    + destruct (lookup_moved hash_key swap _ _ _ _ _ _ k (moved_back _ _ _ _ _ _ Ma Na) (eq_trans A2 A1)) as [H1 H2].
      rewrite <- !frozen_at_says in *. destruct (decide (k ∈ vtx ≫= btx_freezes params)); auto.
    + destruct (lookup_moved id id _ _ _ _ _ _ k (moved_back _ _ _ _ _ _ Mg Ng) (eq_trans G2 G1)) as [H1 H2].
      rewrite <- !frozen_all_at_says in *. destruct (decide (k ∈ vtx ≫= btx_globals)); auto.
    + destruct (exists_moved false g g2 _ k Hl Hl2 Ho (moved_back _ _ _ _ _ _ Mn Nn)) as [H1 H2].
      destruct (decide (k ∈ vtx ≫= btx_names)) as [Hk|Hk]; [|auto]. rewrite (H1 Hk).
      destruct Hok as (_ & _ & _ & Hn). rewrite Forall_forall in Hn. symmetry. by apply Hn.
Qed.

(** C38: After an issue was undone a duplicate goes unnoticed.  [CheckIfAssetExists]
    consults the removals of the tip before the issues of the working cache.
    So once a block that issued an asset is disconnected, no working cache
    knows the asset, not even one that has issued it again: a block that
    issues it twice passes the check twice.  A node that never connected the
    first block answers that the asset exists.  (The node runs without
    [-reindex] and without an asset index.) *)
Theorem undone_issue_unnoticed g vtx h b n : lru_ok g -> acceptable g vtx -> n ∈ vtx ≫= btx_names -> says_asset (passets g) n = None ->
  (forall c, says_asset c n = Some true -> exists_at (c, g) n = true) /\
  exists g1 g2, ConnectTip_assets false false dep params unset_height g vtx h b = Some g1 /\
    DisconnectTip_assets false false dep params unset_height g1 vtx b = Some g2 /\
    forall c, exists_at (c, g2) n = false.
Proof.
  intros Hl Hok Hin Hp. split; [intros c Hc; by rewrite exists_spec, Hc, Hp|].
  destruct (ConnectTip_moves g vtx h b Hl Hok) as (g1 & -> & Hl1 & _ & _ & _ & _ & _ & Mn).
  destruct (DisconnectTip_moves g g1 vtx b Hl1 Hok) as (g2 & E2 & Hl2 & _ & _ & _ & _ & _ & Nn); [intros m; apply Mn|].
  exists g1, g2. split; [done|]. split; [done|]. intros c. rewrite exists_spec by done.
  rewrite (proj1 (Nn n) Hin). by destruct (says_asset c n) as [[]|].
Qed.
End Restore.

(** ** An example *)

Definition example_dep : Deployments := mkDeployments true true true true true true.
Definition example_key (x : Z) : list Z := [0x76; 0xa9; 20] ++ replicate 20 x ++ [0x88; 0xac].
Definition gold_asset : CNewAsset := mkNewAsset (codes "GOLD") 100000000 0 1 0 [] 0 [].

(** A transaction that issues [GOLD], and one that freezes an address and
    unfreezes another. *)
Definition issue_gold : BlockTx :=
  (mkTransaction [] [mkTxOut 5 (example_key 1); mkTxOut 0 (ConstructOwnerTransaction (example_key 2) gold_asset);
                     mkTxOut 0 (NewAsset_ConstructTransaction (example_key 2) gold_asset)] 1 0, 71, []).

Definition freeze_script (x b : Z) : list Z :=
  NullData_ConstructTransaction (GetScriptForNullAssetDataDestination (CKeyID (replicate 20 x))) (mkNullData token b).
Definition freeze_bob : BlockTx :=
  (mkTransaction [] [mkTxOut 5 (example_key 1); mkTxOut 0 (freeze_script 3 1); mkTxOut 0 (freeze_script 4 0);
                     mkTxOut 0 (ConstructGlobalRestrictionTransaction [] (mkNullData token 1))] 1 0, 72, []).
Definition address_at (x : Z) : list Z := address_of main_prefixes (example_key x).

Definition reorg_globals : Globals :=
  mkGlobals no_assets (Lru.mkLru [] 2500) (Lru.mkLru [] 2500) (Lru.mkLru [] 2500) (Lru.mkLru [] 2500) (Lru.mkLru [] 2500)
    (mkAssetsDB ∅ ∅ ∅ ∅) (mkRestrictedDB ∅ ∅ ∅ {[ (address_at 4, token) ]} ∅).

Ltac computed := apply (bool_decide_unpack _); vm_compute; exact I.

Lemma example_acceptable : acceptable example_dep main_prefixes reorg_globals [issue_gold; freeze_bob].
Proof.
  split; [vm_compute; reflexivity|]. split; [|split; [computed|computed]].
  repeat (apply Forall_cons; split; [|]); try (apply Forall_nil; exact I); unfold tx_changing; cbn [tx_scripts fst vout map issue_gold freeze_bob];
    repeat (apply Forall_cons; split; [|]); try (apply Forall_nil; exact I);
    (split; intros k b E; vm_compute in E; first [discriminate E|injection E as <- <-; vm_compute; reflexivity]).
Qed.

Lemma example_lru_ok : lru_ok reorg_globals.
Proof. split; intros n d E; [discriminate E|]. cbn in E. rewrite lookup_empty in E. discriminate E. Qed.

Lemma undone_issue_unnoticed_witness :
  (forall c, says_asset c (codes "GOLD") = Some true -> exists_at (c, reorg_globals) (codes "GOLD") = true) /\
  exists g1 g2, ConnectTip_assets false false example_dep main_prefixes 0 reorg_globals [issue_gold; freeze_bob] 7 9 = Some g1 /\
    DisconnectTip_assets false false example_dep main_prefixes 0 g1 [issue_gold; freeze_bob] 9 = Some g2 /\
    forall c, exists_at (c, g2) (codes "GOLD") = false.
Proof.
  apply (undone_issue_unnoticed example_dep main_prefixes 0 eq_refl eq_refl reorg_globals [issue_gold; freeze_bob] 7 9 (codes "GOLD")
    example_lru_ok example_acceptable); [computed|reflexivity].
Defined.
