(* ===== verification/AssetsReissue.v ===== *)
(** * Reissues and reorganisations

    A reissue changes the data of an asset; undoing it must bring the old
    data back.  [reissue_undo_restores] shows that it does for one reissue of
    an asset in a block, data and verifier string alike.  The examples after
    it run the code where it does not. *)

From Stdlib Require Import String.
From stdpp Require Import gmap list fin_maps.
From S2P Require Import Prelude Bytes Text Coins Serialize TxFormat Script AssetFormat AssetNames Base58 Standard BlockUndo NullAssets AssetTx LruCache AssetsCache AssetsDump AssetsLayers AssetsFreeze AssetsBlocks AssetsReorg.

(** The data and the verifier string of an asset at the tip. *)
Definition data_at (g : Globals) (n : list Z) : option CNewAsset := fst <$> fst (GetAssetMetaDataIfExists no_assets g n).
Definition verifier_at (g : Globals) (n : list Z) : option (list Z) := fst (GetAssetVerifierStringIfExists no_assets g n false).

(** Data as issues and reissues leave it. *)
Definition data_ok (a : CNewAsset) : Prop :=
  na_nReissuable a = 1 /\ -128 <= na_units a < 128 /\
  na_nHasIPFS a = (if bool_decide (na_strIPFSHash a = []) then 0 else 1) /\
  na_nHasANS a = (if bool_decide (na_strANSID a = []) then 0 else 1).

(** ** The data *)

Lemma i64_back a x : -2 ^ 63 <= a < 2 ^ 63 -> i64 (i64 (a + x) - x) = a.
Proof.
  intros Ha. rewrite <- (wraps_small 64 a) at 2 by lia. unfold wraps.
  replace ((a + x + 2 ^ (64 - 1)) mod 2 ^ 64 - 2 ^ (64 - 1) - x + 2 ^ (64 - 1)) with ((a + x + 2 ^ (64 - 1)) mod 2 ^ 64 - x) by lia.
  rewrite Zminus_mod_idemp_l. f_equal. f_equal. lia.
Qed.

Definition changes (r : CReissueAsset) (verifier : option (list Z)) : bool :=
  negb (bool_decide (re_strIPFSHash r = [])) || negb (bool_decide (re_strANSID r = [])) || negb (re_nUnits r =? -1) || bool_decide (is_Some verifier).

(** The undo data [reissue_tx] makes. *)
Definition undo_of (a : CNewAsset) (r : CReissueAsset) (verifier : option (list Z)) (old : list Z) : list (list Z * CBlockAssetUndo) :=
  if changes r verifier
  then [(re_strName r, mkBlockAssetUndo (negb (bool_decide (re_strIPFSHash r = []))) (negb (bool_decide (re_strANSID r = [])))
          (negb (re_nUnits r =? -1)) (na_strIPFSHash a) (na_strANSID a) (na_units a) (bool_decide (is_Some verifier)) old)]
  else [].

(** Undoing a reissue gives the data back, and the verifier string if it
    was changed. *)
Lemma restored_reissued a r verifier old : data_ok a -> -2 ^ 63 <= na_nAmount a < 2 ^ 63 ->
  restored_data (reissued_data a r) r (undo_of a r verifier old) = (a, if verifier then Some old else None).
Proof.
  destruct a as [name amount units reissuable hasipfs ipfs hasans ans], r as [rname ramount runits rreissuable ripfs rans].
  intros (H1 & H2 & H3 & H4) Ha. cbn in *. subst. unfold undo_of, changes, restored_data, reissued_data. cbn -[i64 wraps].
  rewrite i64_back by done.
  destruct (bool_decide (ripfs = [])) eqn:E1, (bool_decide (rans = [])) eqn:E2, (runits =? -1) eqn:E3, verifier as [v|];
    cbn -[i64 wraps]; try done; rewrite ?bool_decide_eq_true_2 by done; cbn -[i64 wraps]; rewrite ?wraps_small by lia;
    repeat f_equal; by repeat case_bool_decide.
Qed.

(** ** Lookups *)

(** The data of an asset, without the memory cache. *)
Definition data_value (c : CAssetsCache) (g : Globals) (n : list Z) : option CNewAsset :=
  match mapReissuedAssetData c !! n, mapReissuedAssetData (passets g) !! n with
  | Some a, _ | None, Some a => Some a
  | None, None =>
      match toRemove (setNewAssets c) !! n, toRemove (setNewAssets (passets g)) !! n with
      | None, None =>
          match toAdd (setNewAssets c) !! n, toAdd (setNewAssets (passets g)) !! n with
          | Some e, _ | None, Some e => Some (cn_asset e)
          | None, None => db_asset <$> db_assets (passetsdb g) !! n
          end
      | _, _ => None
      end
  end.

Lemma data_spec c g n : lru_ok g -> fst <$> fst (GetAssetMetaDataIfExists c g n) = data_value c g n.
Proof.
  intros [Hl _]. unfold GetAssetMetaDataIfExists, data_value, count.
  destruct (mapReissuedAssetData c !! n); [done|]. destruct (mapReissuedAssetData (passets g) !! n); [done|].
  destruct (toRemove (setNewAssets c) !! n); [done|]. destruct (toRemove (setNewAssets (passets g)) !! n); [done|]. cbn.
  destruct (toAdd (setNewAssets c) !! n); [done|]. destruct (toAdd (setNewAssets (passets g)) !! n); [done|].
  unfold Lru.Get. destruct (Lru.find n (Lru.items (passetsCache g))) as [d|] eqn:El; [cbn; by rewrite (Hl _ _ El)|].
  unfold ReadAssetData. by destruct (db_assets (passetsdb g) !! n).
Qed.

(** The verifier strings the dirty sets give, and those below them. *)
Definition verifier_did (e : CAssetCacheRestrictedVerifiers) : option (list Z) := Some (cv_verifier e).
Definition verifier_undid (e : CAssetCacheRestrictedVerifiers) : option (list Z) := if fUndoingRessiue e then Some (cv_verifier e) else None.
Definition says_verifier (c : CAssetsCache) : list Z -> option (option (list Z)) := says verifier_did verifier_undid (setNewRestrictedVerifier c).

(** Cached verifier strings are those of the database. *)
Definition verifiers_ok (g : Globals) : Prop :=
  forall n v, Lru.find n (Lru.items (passetsVerifierCache g)) = Some v -> db_verifiers (prestricteddb g) !! n = Some v.

Lemma verifier_spec c g n : verifiers_ok g -> says_verifier c n = None ->
  fst (GetAssetVerifierStringIfExists c g n false) =
    match says_verifier (passets g) n with Some v => v | None => db_verifiers (prestricteddb g) !! n end.
Proof.
  intros Hok. unfold GetAssetVerifierStringIfExists, says_verifier, says.
  destruct (toRemove (setNewRestrictedVerifier c) !! n); [done|]. destruct (toAdd (setNewRestrictedVerifier c) !! n); [done|]. intros _.
  destruct (toRemove (setNewRestrictedVerifier (passets g)) !! n); [done|].
  destruct (toAdd (setNewRestrictedVerifier (passets g)) !! n); [done|].
  unfold Lru.Get. destruct (Lru.find n (Lru.items (passetsVerifierCache g))) eqn:El; [by rewrite (Hok _ _ El)|].
  by destruct (db_verifiers (prestricteddb g) !! n).
Qed.

Lemma verifier_tip g n : verifiers_ok g ->
  verifier_at g n = match says_verifier (passets g) n with Some v => v | None => db_verifiers (prestricteddb g) !! n end.
Proof. intros Hok. by apply verifier_spec, says_clean. Qed.

(** Lookups keep the verifier strings. *)
Definition same_verifiers (g g' : Globals) : Prop :=
  passets g' = passets g /\ db_verifiers (prestricteddb g') = db_verifiers (prestricteddb g) /\ (verifiers_ok g -> verifiers_ok g').

#[export] Instance same_verifiers_preorder : PreOrder same_verifiers.
Proof. split; [done|]. intros a b c (H1 & H2 & H3) (H4 & H5 & H6). split; [congruence|]. split; [congruence|auto]. Qed.

Lemma GetAssetMetaDataIfExists_verifiers c g n : same_verifiers g (snd (GetAssetMetaDataIfExists c g n)).
Proof. unfold GetAssetMetaDataIfExists. by repeat case_match. Qed.

Lemma CheckIfAssetExists_verifiers c g n : same_verifiers g (snd (CheckIfAssetExists false c g n true)).
Proof. unfold CheckIfAssetExists. by repeat case_match. Qed.

Lemma GetAssetVerifierStringIfExists_verifiers c g n f : same_verifiers g (snd (GetAssetVerifierStringIfExists c g n f)).
Proof.
  unfold GetAssetVerifierStringIfExists. repeat case_match; try done; (split; [done|]); (split; [done|]); intros Hok m w Hf; cbn in Hf |- *;
    first [erewrite Lru.find_Get in Hf by done; by apply Hok|apply Lru.find_Put in Hf as [[-> ->]|[_ Hf]]; [done|by apply Hok]].
Qed.

(** Flushing a working cache that issued nothing. *)
Lemma frames_flush g c1 g1 : frames (no_assets, g) (c1, g1) -> lru_ok g -> lru_ok (FlushAssets c1 g1) /\
  (forall n, exists_at (no_assets, FlushAssets c1 g1) n = exists_at (no_assets, g) n) /\
  forall n, data_at (FlushAssets c1 g1) n = match mapReissuedAssetData c1 !! n with Some a => Some a | None => data_at g n end.
Proof.
  intros [(F & D & L) A] Hl. pose proof (f_equal fz_tip F) as T. cbn in T, D, A. assert (Hl' : lru_ok (FlushAssets c1 g1)) by exact (L Hl).
  assert (Ek : forall n, at_key (setNewAssets (passets (FlushAssets c1 g1))) n = at_key (setNewAssets (passets g)) n).
  { intros n. cbn [FlushAssets passets set_passets setNewAssets]. rewrite flush_keep_lookup, A, T. cbn. by rewrite !lookup_empty. }
  assert (E1 : forall n, toAdd (setNewAssets (passets (FlushAssets c1 g1))) !! n = toAdd (setNewAssets (passets g)) !! n)
    by (intros n; exact (f_equal fst (Ek n))).
  assert (E2 : forall n, toRemove (setNewAssets (passets (FlushAssets c1 g1))) !! n = toRemove (setNewAssets (passets g)) !! n)
    by (intros n; exact (f_equal snd (Ek n))).
  split; [done|]. split; intros n.
  - rewrite !exists_tip by done. unfold says_asset, says, on_file.
    rewrite E1, E2. cbn. by rewrite D.
  - unfold data_at. rewrite !data_spec by done. unfold data_value. rewrite E1, E2.
    cbn [FlushAssets passets set_passets mapReissuedAssetData no_assets setNewAssets clean toAdd toRemove passetsdb].
    rewrite lookup_union, !lookup_empty, D, T. by destruct (mapReissuedAssetData c1 !! n), (mapReissuedAssetData (passets g) !! n).
Qed.

Lemma verifiers_flush g c1 g1 : same_verifiers g g1 -> verifiers_ok g -> verifiers_ok (FlushAssets c1 g1) /\
  forall n, verifier_at (FlushAssets c1 g1) n = match says_verifier c1 n with Some v => v | None => verifier_at g n end.
Proof.
  intros (T & D & O) Hv. assert (Hv' : verifiers_ok (FlushAssets c1 g1)) by exact (O Hv). split; [done|]. intros n.
  rewrite !verifier_tip by done. unfold says_verifier. cbn [FlushAssets passets set_passets setNewRestrictedVerifier prestricteddb].
  rewrite says_flush_over, T, D. by destruct (says _ _ (setNewRestrictedVerifier c1) n).
Qed.

(** ** A reissue and its undoing *)

Section Reissue.
Variable params : Base58Prefixes.
Variable unset_height : Z.
Variables (tx : CTransaction) (txid : Z) (r : CReissueAsset).
Hypothesis Htx : ReissueAssetFromScript (last_script tx) = Some r.

(** The verifier string the transaction sets. *)
Definition new_verifier : option (list Z) :=
  if bool_decide ((IsAssetNameValid (re_strName r)).2 = Some RESTRICTED)
  then script ← verifier_script tx; AssetNullVerifierDataFromScript script else None.

Lemma reissue_tx_spec g a : lru_ok g -> verifiers_ok g -> data_at g (re_strName r) = Some a -> na_strName a = re_strName r ->
  exists c1 g1 undo, reissue_tx false params unset_height (no_assets, g) tx txid = ((c1, g1), undo) /\
    option_list undo = undo_of a r new_verifier (match new_verifier with Some _ => default [] (verifier_at g (re_strName r)) | None => [] end) /\
    mapReissuedAssetData c1 = {[re_strName r := reissued_data a r]} /\
    setNewRestrictedVerifier c1 = match new_verifier with Some v => add (re_strName r) (mkCacheVerifier v false) clean | None => clean end /\
    same_verifiers g g1.
Proof.
  intros Hl Hv Ha Hn. unfold reissue_tx. rewrite Htx. cbn [default from_option id]. cbv beta.
  pose proof (GetAssetMetaDataIfExists_verifiers no_assets g (re_strName r)) as V1.
  pose proof (GetAssetMetaDataIfExists_frames no_assets g (re_strName r)) as F1. unfold data_at in Ha.
  destruct (GetAssetMetaDataIfExists no_assets g (re_strName r)) as [meta g1] eqn:E1. cbn [fst snd] in *. rewrite Ha. cbn [default from_option id]. cbv beta.
  unfold AddReissueAsset.
  pose proof (GetAssetMetaDataIfExists_verifiers no_assets g1 (re_strName r)) as V2.
  assert (E2 : fst <$> fst (GetAssetMetaDataIfExists no_assets g1 (re_strName r)) = Some a).
  { destruct F1 as [(F1 & D1 & L1) _]. rewrite (data_spec no_assets g1) by (by apply L1). 
    pose proof (data_spec no_assets g (re_strName r) Hl) as Eg. rewrite E1 in Eg. cbn [fst] in Eg. rewrite Ha in Eg. rewrite Eg.
    unfold data_value. pose proof (f_equal fz_tip F1) as T1. cbn in T1, D1. by rewrite T1, D1. }
  destruct (GetAssetMetaDataIfExists no_assets g1 (re_strName r)) as [[[a' iss]|] g2]; [|done]. cbn [fst snd fmap option_fmap option_map] in E2.
  injection E2 as ->. destruct (default _ iss) as [hh bb]. cbn zeta. rewrite Hn. fold new_verifier.
  change (mapReissuedAssetData no_assets !! re_strName r) with (@None CNewAsset). cbn [default from_option id]. cbv beta.
  match goal with |- context [([], ?c, g2)] => set (c2 := c) end.
  assert (Hm : mapReissuedAssetData c2 = {[re_strName r := reissued_data a r]}) by (cbn; by rewrite insert_empty).
  unfold undo_of, changes. destruct new_verifier as [v|].
  - pose proof (GetAssetVerifierStringIfExists_verifiers c2 g2 (re_strName r) false) as V3.
    pose proof (verifier_spec c2 g2 (re_strName r)) as Ev. pose proof (verifier_tip g (re_strName r) Hv) as Et.
    destruct (GetAssetVerifierStringIfExists c2 g2 (re_strName r) false) as [old g3]. cbn [fst snd] in *.
    destruct V1 as (T1 & D1 & O1), V2 as (T2 & D2 & O2). rewrite T2, T1, D2, D1, <- Et in Ev.
    rewrite Ev by (auto; apply says_clean). do 3 eexists. split; [reflexivity|]. split; [|split; [exact Hm|split; [done|]]].
    + by destruct (_ || _ || _ || _).
    + etrans; [|exact V3]. split; [congruence|]. split; [congruence|auto].
  - do 3 eexists. split; [reflexivity|]. split; [|split; [exact Hm|split; [done|by etrans]]]. by destruct (_ || _ || _ || _).
Qed.

Lemma undo_reissue_spec g a undos verifier : lru_ok g -> exists_at (no_assets, g) (re_strName r) = true ->
  mapReissuedAssetData (passets g) !! re_strName r = Some (reissued_data a r) -> na_strName a = re_strName r ->
  restored_data (reissued_data a r) r undos = (a, verifier) ->
  exists c2 g2, undo_reissue false false params unset_height (no_assets, g) tx txid undos = Some (c2, g2) /\
    mapReissuedAssetData c2 = {[re_strName r := a]} /\
    setNewRestrictedVerifier c2 = match verifier with Some v => remove (re_strName r) (mkCacheVerifier v true) clean | None => clean end /\
    same_verifiers g g2.
Proof.
  intros Hl He Hm Hn Hr. unfold undo_reissue. rewrite Htx. cbn [mbind option_bind]. unfold exists_at in He. cbn [fst snd] in He.
  pose proof (CheckIfAssetExists_verifiers no_assets g (re_strName r)) as V1.
  destruct (CheckIfAssetExists _ _ _ _ _) as [ex g1]. cbn [fst snd] in *. subst ex. unfold RemoveReissueAsset.
  assert (E : GetAssetMetaDataIfExists no_assets g1 (re_strName r) = (Some (reissued_data a r, None), g1)).
  { unfold GetAssetMetaDataIfExists. destruct V1 as [-> _]. cbn [mapReissuedAssetData no_assets]. by rewrite lookup_empty, Hm. }
  rewrite E. cbn [default from_option id]. cbv beta. rewrite Hr. cbn zeta. rewrite Hn. do 2 eexists. split; [reflexivity|].
  destruct verifier; cbn; rewrite insert_empty; done.
Qed.
End Reissue.

(** The verifier a single change sets, and undoing a change. *)
Lemma says_verifier_add c n v m : setNewRestrictedVerifier c = add n (mkCacheVerifier v false) clean ->
  says_verifier c m = if decide (m = n) then Some (Some v) else None.
Proof.
  intros E. unfold says_verifier, says. rewrite E. cbn. rewrite delete_lookup, set_insert_lookup, !lookup_empty.
  repeat case_decide; naive_solver.
Qed.

Lemma says_verifier_remove c n v m : setNewRestrictedVerifier c = remove n (mkCacheVerifier v true) clean ->
  says_verifier c m = if decide (m = n) then Some (Some v) else None.
Proof.
  intros E. unfold says_verifier, says. rewrite E. cbn. rewrite delete_lookup, set_insert_lookup, !lookup_empty.
  repeat case_decide; naive_solver.
Qed.

Lemma says_verifier_clean c m : setNewRestrictedVerifier c = clean -> says_verifier c m = None.
Proof. intros E. unfold says_verifier. rewrite E. apply says_clean. Qed.

Lemma singleton_match {A} (n m : list Z) (a : A) (d : option A) :
  match ({[n := a]} : gmap (list Z) A) !! m with Some x => Some x | None => d end = if decide (m = n) then Some a else d.
Proof. case_decide as E; [subst m; by rewrite lookup_singleton_eq|by rewrite lookup_singleton_ne]. Qed.

(** C11: Undoing the reissue of an asset restores it.  Where a transaction
    reissues an asset of the tip, connecting it gives the asset the reissued
    data and, for a restricted asset, the new verifier string; disconnecting
    it with the undo data it made brings back the old data and the old
    string.  No other asset changes either way.  (The node runs without
    [-reindex] and without an asset index; the undo data are those of a block
    with this reissue of the asset only.) *)
Theorem reissue_undo_restores params unset_height tx txid r a g :
  ReissueAssetFromScript (last_script tx) = Some r -> lru_ok g -> verifiers_ok g ->
  exists_at (no_assets, g) (re_strName r) = true -> data_at g (re_strName r) = Some a ->
  na_strName a = re_strName r -> data_ok a -> -2 ^ 63 <= na_nAmount a < 2 ^ 63 ->
  (is_Some (new_verifier tx r) -> is_Some (verifier_at g (re_strName r))) ->
  exists c1 g1 undo, reissue_tx false params unset_height (no_assets, g) tx txid = ((c1, g1), undo) /\
    (forall n, data_at (FlushAssets c1 g1) n = if decide (n = re_strName r) then Some (reissued_data a r) else data_at g n) /\
    (forall n, verifier_at (FlushAssets c1 g1) n =
       match new_verifier tx r with Some v => if decide (n = re_strName r) then Some v else verifier_at g n | None => verifier_at g n end) /\
    exists c2 g2, undo_reissue false false params unset_height (no_assets, FlushAssets c1 g1) tx txid (option_list undo) = Some (c2, g2) /\
      (forall n, data_at (FlushAssets c2 g2) n = data_at g n) /\ (forall n, verifier_at (FlushAssets c2 g2) n = verifier_at g n).
Proof.
  intros Htx Hl Hv He Ha Hn Hok Hr Hver.
  destruct (reissue_tx_spec params unset_height tx txid r Htx g a Hl Hv Ha Hn) as (c1 & g1 & undo & E1 & Eu & Em & Ev & V1).
  pose proof (reissue_tx_frames params unset_height (no_assets, g) tx txid) as F1. rewrite E1 in F1.
  destruct (frames_flush _ _ _ F1 Hl) as (Hl1 & X1 & D1). destruct (verifiers_flush _ c1 _ V1 Hv) as (Hv1 & W1).
  assert (D1' : forall n, data_at (FlushAssets c1 g1) n = if decide (n = re_strName r) then Some (reissued_data a r) else data_at g n)
    by (intros n; by rewrite D1, Em, singleton_match).
  assert (W1' : forall n, verifier_at (FlushAssets c1 g1) n =
    match new_verifier tx r with Some v => if decide (n = re_strName r) then Some v else verifier_at g n | None => verifier_at g n end).
  { intros n. rewrite W1. destruct (new_verifier tx r) as [v|]; [rewrite (says_verifier_add _ _ _ n Ev)|by rewrite (says_verifier_clean _ n Ev)].
    by case_decide. }
  exists c1, g1, undo. split; [done|]. split; [done|]. split; [done|].
  destruct (undo_reissue_spec params unset_height tx txid r Htx (FlushAssets c1 g1) a (option_list undo) (if new_verifier tx r then Some
    (match new_verifier tx r with Some _ => default [] (verifier_at g (re_strName r)) | None => [] end) else None))
    as (c2 & g2 & E2 & Em2 & Ev2 & V2); [done|by rewrite X1| |done|rewrite Eu; by apply restored_reissued|].
  { cbn [FlushAssets passets set_passets mapReissuedAssetData]. rewrite Em, lookup_union, lookup_singleton_eq.
    by destruct (mapReissuedAssetData (passets g1) !! re_strName r). }
  destruct (undo_reissue_frames params unset_height no_assets (FlushAssets c1 g1) tx txid (option_list undo)) as (st' & E2' & F2); [by rewrite Htx|].
  rewrite E2 in E2'. injection E2' as <-.
  destruct (frames_flush _ _ _ F2 Hl1) as (_ & _ & D2). destruct (verifiers_flush _ c2 _ V2 Hv1) as (_ & W2).
  exists c2, g2. split; [done|]. split; intros n.
  - rewrite D2, Em2, singleton_match, D1'. by case_decide; subst.
  - rewrite W2, W1'. destruct (new_verifier tx r) as [v|]; [rewrite (says_verifier_remove _ _ _ n Ev2)|by rewrite (says_verifier_clean _ n Ev2)].
    case_decide; [|done]. subst n. destruct (Hver ltac:(eauto)) as [w ->]. done.
Qed.

(** ** Examples *)

Definition verifier_output (s : string) : CTxOut := mkTxOut 0 (Verifier_ConstructTransaction [] (codes s)).
Definition reissue_tx_of (r : CReissueAsset) (outs : list CTxOut) : CTransaction :=
  mkTransaction [] (outs ++ [mkTxOut 0 (Reissue_ConstructTransaction (example_key 2) r)]) 1 0.

Definition token_data : CNewAsset := mkNewAsset token 100000000 0 1 0 [] 0 [].
Definition token_globals : Globals :=
  mkGlobals no_assets (Lru.mkLru [] 2500) (Lru.mkLru [] 2500) (Lru.mkLru [] 2500) (Lru.mkLru [] 2500) (Lru.mkLru [] 2500)
    (mkAssetsDB {[ token := mkDatabased token_data 5 77 ]} ∅ ∅ ∅) (mkRestrictedDB {[ token := codes "KYC" ]} ∅ ∅ ∅ ∅).
Definition token_reissue : CReissueAsset := mkReissue token 500000000 2 0 example_hash [].

Lemma reissue_undo_restores_witness :
  let tx := reissue_tx_of token_reissue [verifier_output "KYC&!BAN"] in
  new_verifier tx token_reissue = Some (codes "KYC&!BAN") /\
  exists c1 g1 undo, reissue_tx false main_prefixes 0 (no_assets, token_globals) tx 71 = ((c1, g1), undo) /\
    (forall n, data_at (FlushAssets c1 g1) n = if decide (n = token) then Some (reissued_data token_data token_reissue) else data_at token_globals n) /\
    (forall n, verifier_at (FlushAssets c1 g1) n =
       match new_verifier tx token_reissue with
       | Some v => if decide (n = token) then Some v else verifier_at token_globals n
       | None => verifier_at token_globals n
       end) /\
    exists c2 g2, undo_reissue false false main_prefixes 0 (no_assets, FlushAssets c1 g1) tx 71 (option_list undo) = Some (c2, g2) /\
      (forall n, data_at (FlushAssets c2 g2) n = data_at token_globals n) /\ (forall n, verifier_at (FlushAssets c2 g2) n = verifier_at token_globals n).
Proof.
  split; [vm_compute; reflexivity|].
  apply (reissue_undo_restores main_prefixes 0 (reissue_tx_of token_reissue [verifier_output "KYC&!BAN"]) 71 token_reissue token_data token_globals).
  - vm_compute. reflexivity.
  - split; [intros n d E; discriminate E|]. cbn. intros n d [<- <-]%lookup_singleton_Some. reflexivity.
  - intros n v E. discriminate E.
  - vm_compute. reflexivity.
  - vm_compute. reflexivity.
  - reflexivity.
  - vm_compute. repeat split; discriminate.
  - vm_compute. split; [discriminate|reflexivity].
  - intros _. vm_compute. eauto.
Defined.

(** Two reissues of an asset in one block are not undone.  [RemoveReissueAsset]
    reads the first undo entry of the asset's name for both.  Here the first
    transaction sets an IPFS hash and the second the units; the block connects
    and disconnects without an error, and the asset keeps the new units. *)
Example second_reissue_not_undone :
  let r1 := mkReissue token 0 (-1) 1 example_hash [] in let r2 := mkReissue token 0 2 1 [] [] in
  let vtx := [(reissue_tx_of r1 [], 71, []); (reissue_tx_of r2 [], 72, [])] in
  data_at token_globals token = Some token_data /\
  (g1 ← ConnectTip_assets false false example_dep main_prefixes 0 token_globals vtx 7 9;
   g2 ← DisconnectTip_assets false false example_dep main_prefixes 0 g1 vtx 9;
   data_at g2 token) = Some (mkNewAsset token 100000000 2 1 0 [] 0 []).
Proof. split; vm_compute; reflexivity. Qed.

(** The data of an asset outlives the asset.  A block issues an asset and
    the next one reissues it; both are disconnected.  The asset is gone, but
    [GetAssetMetaDataIfExists] still answers with its data, since nothing
    takes it out of [mapReissuedAssetData].  When a block then issues the
    asset with other data, the old data are what the node reports. *)
Example stale_reissue_data :
  let gold := codes "GOLD" in
  let vtx2 := [(reissue_tx_of (mkReissue gold 5 (-1) 1 example_hash []) [], 73, [])] in
  let other := mkNewAsset gold 7 3 1 0 [] 0 [] in
  let vtx3 := [(mkTransaction [] [mkTxOut 5 (example_key 1); mkTxOut 0 (ConstructOwnerTransaction (example_key 2) other);
                                   mkTxOut 0 (NewAsset_ConstructTransaction (example_key 2) other)] 1 0, 74, [])] in
  (g1 ← ConnectTip_assets false false example_dep main_prefixes 0 reorg_globals [issue_gold] 7 9;
   g2 ← ConnectTip_assets false false example_dep main_prefixes 0 g1 vtx2 8 10;
   g3 ← DisconnectTip_assets false false example_dep main_prefixes 0 g2 vtx2 10;
   g4 ← DisconnectTip_assets false false example_dep main_prefixes 0 g3 [issue_gold] 9;
   g5 ← ConnectTip_assets false false example_dep main_prefixes 0 g4 vtx3 7 11;
   Some (exists_at (no_assets, g4) gold, data_at g4 gold, exists_at (no_assets, g5) gold, data_at g5 gold)) =
  Some (false, Some gold_asset, true, Some gold_asset).
Proof. vm_compute. reflexivity. Qed.
