(* ===== verification/AssetsConnect.v ===== *)
(** * Checked blocks and the assets cache

    The checks of transactions ([CheckTransaction], [CheckTxAssets]) ask an
    [AssetsView] what the assets cache knows; here the view is the cache, as
    the block has left it so far.  [checked_block_restored] composes the
    checks with the cache: whatever block they accept, connecting it and
    disconnecting it restores the assets. *)

From Stdlib Require Import String.
From stdpp Require Import gmap list fin_maps.
From S2P Require Import Prelude Bytes Text Coins CoinsRefine Serialize TxFormat Script AssetFormat AssetNames Money Hashes Base58 Standard.
From S2P Require Import BlockUndo TxVerify Ans Verifiers NullAssets AssetTx TxCheck TxAssets TokenRules.
From S2P Require Import LruCache AssetsCache AssetsDump AssetsLayers AssetsFreeze AssetsBlocks AssetsReorg.

(** ** The cache as the checks see it *)

Definition view_of (st : State) : AssetsView :=
  let '(c, g) := st in
  mkAssetsView (fun n => fst <$> fst (AssetsCache.GetAssetMetaDataIfExists c g n))
    (fun n => fst (AssetsCache.CheckIfAssetExists false c g n true))
    (fun q a => fst (AssetsCache.CheckForAddressQualifier c g q a true))
    (fun n a => fst (AssetsCache.CheckForAddressRestriction c g n a true))
    (fun n => fst (AssetsCache.CheckForGlobalRestriction c g n true))
    (fun n skip => fst (AssetsCache.GetAssetVerifierStringIfExists c g n skip)).

Lemma view_exists st n : NullAssets.CheckIfAssetExists (view_of st) n = exists_at st n.
Proof. by destruct st. Qed.

Lemma view_frozen c g n a : NullAssets.CheckForAddressRestriction (view_of (c, g)) n a = frozen_at g (n, a).
Proof. rewrite frozen_at_says. apply (CheckForAddressRestriction_lookup c g n a). Qed.

Lemma view_frozen_all c g n : NullAssets.CheckForGlobalRestriction (view_of (c, g)) n = frozen_all_at g n.
Proof. rewrite frozen_all_at_says. apply (CheckForGlobalRestriction_lookup c g n). Qed.

(** ** Addresses and names *)

Lemma address_of_asset params s : prefixes_ok params -> Forall byte_ok s -> is_Some (IsAssetScript s) -> (23 <= length s)%nat ->
  address_of params s <> [].
Proof.
  intros Hp Hb Ha Hl. unfold address_of. rewrite asset_destination by (unfold is_asset_script; by rewrite bool_decide_true).
  cbn [default from_option id]. cbv beta.
  destruct (EncodeDestination_decodes params Hp (CKeyID (take 20 (drop 3 s)))) as (str & -> & Hd).
  { split; [rewrite length_take, length_drop; lia|]. apply Forall_take, Forall_drop, Hb. }
  cbn. intros ->. by vm_compute in Hd.
Qed.

Lemma restricted_name n : snd (IsAssetNameValid n) = Some RESTRICTED ->
  IsAssetNameAQualifier n false = false /\ IsAssetNameAnRestricted n = true.
Proof.
  unfold IsAssetNameAQualifier, IsAssetNameAnRestricted, asset_name_valid, IsAssetNameValid.
  destruct (40 <? length n)%nat; [done|]. destruct (UNIQUE_INDICATOR n); [by destruct (IsTypeCheckNameValid _ _)|].
  destruct (MSG_CHANNEL_INDICATOR n); [by destruct (IsTypeCheckNameValid _ _)|]. destruct (OWNER_INDICATOR n); [by destruct (IsTypeCheckNameValid _ _)|].
  destruct (VOTE_INDICATOR n); [by destruct (IsTypeCheckNameValid _ _)|].
  destruct (QUALIFIER_INDICATOR n); [destruct (IsTypeCheckNameValid _ _); by destruct (IsAssetNameASubQualifier n)|].
  destruct (SUB_QUALIFIER_INDICATOR n); [destruct (IsTypeCheckNameValid _ _); by destruct (IsAssetNameASubQualifier n)|].
  destruct (RESTRICTED_INDICATOR n); [by destruct (IsTypeCheckNameValid _ _)|].
  destruct (IsAssetNameASubasset n); by destruct (IsTypeCheckNameValid _ _).
Qed.

(** ** What an accepted transaction looks like *)

Section Accepted.
Context `{AddressV4}.
Variable params : CChainParams.

Abbreviation prefixes := (base58Prefixes params).

(** An asset coin in its own right, but for its address. *)
Definition entry_ok (s : list Z) : Prop :=
  exists n v, GetAssetData s = Some (n, v) /\ n <> [] /\ (v <> 0 \/ IsUnspendable s = true).

Lemma valid_not_empty n : fst (IsAssetNameValid n) = true -> n <> [].
Proof. intros Hv ->. by vm_compute in Hv. Qed.

Lemma new_entry s a : IsScriptNewAsset s = true -> AssetFromScript s = Some a -> CheckNewAsset a = Accept tt -> entry_ok s.
Proof.
  intros Hn Ha Hc. unfold entry_ok, GetAssetData. unfold IsScriptNewAsset in Hn.
  destruct (IsAssetScript s) as [[[[| |] []] i]|]; try done. rewrite Ha. cbn [mbind option_bind]. do 2 eexists. split; [reflexivity|].
  unfold CheckNewAsset in Hc. destruct (IsAssetNameValid (na_strName a)) as [[] [ty|]] eqn:Ev; try done. accepted Hc.
  split; [apply valid_not_empty; by rewrite Ev|]. left. lia.
Qed.

Lemma reissue_entry s r : ReissueAssetFromScript s = Some r -> re_strName r <> [] -> entry_ok s.
Proof.
  intros Hr Hn. pose proof Hr as Hr'. unfold ReissueAssetFromScript, ScriptReissueAsset in Hr'. unfold entry_ok, GetAssetData.
  destruct (IsAssetScript s) as [[[[| |] o] i]|] eqn:E; try done. rewrite Hr. cbn [mbind option_bind]. do 2 eexists. split; [reflexivity|].
  split; [done|]. destruct (decide (re_nAmount r = 0)) as [Hz|]; [right|by left].
  unfold IsUnspendable, GetAssetAmountFromScript, AmountFromReissueScript. rewrite E, Hr. cbn [mbind option_bind]. rewrite Hz.
  rewrite (bool_decide_true (Some 0 = Some 0)) by done. by rewrite orb_true_r.
Qed.

Lemma owner_entry s n : IsScriptOwnerAsset s = true -> OwnerAssetFromScript s = Some (n ++ OWNER_TAG) -> entry_ok s.
Proof.
  intros Hs Hn. unfold entry_ok, GetAssetData. unfold IsScriptOwnerAsset in Hs.
  destruct (IsAssetScript s) as [[[[| |] []] i]|]; try done. rewrite Hn. cbn [mbind option_bind]. do 2 eexists. split; [reflexivity|].
  split; [by destruct n|by left].
Qed.

(** Outputs that carry assets. *)
Definition entries (tx : CTransaction) : Prop :=
  forall o, In o (vout tx) -> match IsAssetScript (scriptPubKey o) with
                              | None | Some (TX_TRANSFER_ASSET, _, _) => True
                              | Some _ => entry_ok (scriptPubKey o)
                              end.

Definition valid_transfers (tx : CTransaction) : Prop :=
  forall o t, In o (vout tx) -> TransferAssetFromScript (scriptPubKey o) = Some t -> fst (IsAssetNameValid (tr_strName t)) = true.

Lemma check_outputs_transfers dep outs b1 b2 : forall st st', check_outputs params dep outs st b1 b2 = Accept st' ->
  forall o t, In o outs -> TransferAssetFromScript (scriptPubKey o) = Some t -> fst (IsAssetNameValid (tr_strName t)) = true.
Proof.
  induction outs as [|o' outs IH]; [done|]. intros st st' Hc o t. cbn [check_outputs] in Hc. accepted Hc. intros [->|Ho] Ht; [|by eapply IH].
  unfold check_asset_output in Hc2. pose proof Ht as Ht'. unfold TransferAssetFromScript, ScriptTransferAsset in Ht'.
  destruct (IsAssetScript (scriptPubKey o)) as [[[[| |] ow] i]|]; try done. rewrite Ht in Hc2.
  by destruct (IsAssetNameValid (tr_strName t)) as [[] [ty|]].
Qed.

Lemma transferred_valid tx n : valid_transfers tx -> transfers_token tx n = true -> fst (IsAssetNameValid n) = true.
Proof.
  intros Hv. unfold transfers_token. intros (o & Ho & Ht)%existsb_exists.
  destruct (TransferAssetFromScript (scriptPubKey o)) as [t|] eqn:E; [|done]. apply bool_decide_eq_true in Ht as ->. by eapply Hv.
Qed.

Lemma kind_of s : match IsAssetScript s with
  | Some (TX_NEW_ASSET, false, _) => IsScriptNewAsset s = true
  | Some (TX_NEW_ASSET, true, _) => IsScriptOwnerAsset s = true
  | Some (TX_REISSUE_ASSET, _, _) => IsScriptReissueAsset s = true
  | _ => True
  end.
Proof. unfold IsScriptNewAsset, IsScriptOwnerAsset, IsScriptReissueAsset. by destruct (IsAssetScript s) as [[[[| |] []] i]|]. Qed.

Lemma entries_intro tx :
  (forall o, In o (vout tx) -> IsScriptNewAsset (scriptPubKey o) = true -> entry_ok (scriptPubKey o)) ->
  (forall o, In o (vout tx) -> IsScriptOwnerAsset (scriptPubKey o) = true -> entry_ok (scriptPubKey o)) ->
  (forall o, In o (vout tx) -> IsScriptReissueAsset (scriptPubKey o) = true -> entry_ok (scriptPubKey o)) -> entries tx.
Proof.
  intros H1 H2 H3 o Ho. specialize (H1 o Ho). specialize (H2 o Ho). specialize (H3 o Ho). pose proof (kind_of (scriptPubKey o)) as Hk.
  destruct (IsAssetScript (scriptPubKey o)) as [[[[| |] []] i]|]; auto.
Qed.

(** No output of the kind. *)
Lemma none_of f tx : TokenRules.count f (vout tx) = 0%nat -> forall o, In o (vout tx) -> f (scriptPubKey o) = true -> entry_ok (scriptPubKey o).
Proof. intros Hc o Ho Hf. by rewrite (count_zero _ _ _ Hc Ho) in Hf. Qed.

(** One new asset, the last output. *)
Lemma entries_last tx a : TokenRules.count IsScriptNewAsset (vout tx) = 1%nat -> TokenRules.count IsScriptReissueAsset (vout tx) = 0%nat ->
  (forall o, In o (vout tx) -> IsScriptOwnerAsset (scriptPubKey o) = true -> entry_ok (scriptPubKey o)) ->
  AssetFromScript (last_script tx) = Some a -> CheckNewAsset a = Accept tt -> entries tx.
Proof.
  intros Hn Hr Ho Ha Hc. apply entries_intro; [|done|by apply none_of]. intros o Hin Hs.
  pose proof (AssetFromScript_new _ _ Ha) as Hl. rewrite (single_issue tx o Hn Hl Hin Hs). by eapply new_entry.
Qed.

Lemma one_issue_all tx reason : one_issue tx reason = Accept tt ->
  TokenRules.count IsScriptNewAsset (vout tx) = 1%nat /\ TokenRules.count IsScriptReissueAsset (vout tx) = 0%nat /\ TokenRules.count IsScriptOwnerAsset (vout tx) = 0%nat.
Proof. unfold one_issue. destruct (GetTxOutAssetTypes_counts (vout tx)) as [t ->]. intros H0. accepted H0. lia. Qed.

Lemma VerifyNewAsset_entries tx a : VerifyNewAsset params tx = Accept tt -> AssetFromScript (last_script tx) = Some a ->
  CheckNewAsset a = Accept tt -> entries tx.
Proof.
  unfold VerifyNewAsset. intros H0 Ha Hc. accepted H0. rewrite Ha in H0. destruct (OwnerAssetFromScript (owner_script tx)) as [ow|] eqn:Eo; [|done].
  accepted H0. apply bool_decide_eq_true in Hb2 as ->. unfold with_type in H0. destruct (snd _); [|done]. accepted H0.
  destruct (GetTxOutAssetTypes_counts (vout tx)) as [t E]. rewrite E in H0. accepted H0.
  apply (entries_last tx a); [lia|lia| |done|done]. intros o Ho Hs.
  replace (scriptPubKey o) with (owner_script tx); [by eapply owner_entry|]. unfold owner_script in *. f_equal.
  apply (count_unique IsScriptOwnerAsset (vout tx)); [lia| |done|done|done].
  apply nth_In. destruct (Nat.ltb_spec (length (vout tx)) 3); [done|lia].
Qed.

Lemma VerifyReissueAsset_entries tx : VerifyReissueAsset params tx = Accept tt -> valid_transfers tx -> entries tx.
Proof.
  unfold VerifyReissueAsset. intros H0 Hv. accepted H0. destruct (ReissueAssetFromScript (last_script tx)) as [r|] eqn:Er; [|done].
  accepted H0. destruct (GetTxOutAssetTypes_counts (vout tx)) as [t E]. rewrite E in H0. accepted H0.
  apply entries_intro; [apply none_of; lia|apply none_of; lia|]. intros o Ho Hs.
  rewrite (single_reissue tx o); [|lia|done|done|done]. eapply reissue_entry; [done|]. intros En. rewrite En in Hb1.
  apply (transferred_valid tx _ Hv) in Hb1. by vm_compute in Hb1.
Qed.

Lemma check_unique_assets_each outs o : check_unique_assets outs = Accept tt -> In o outs -> IsScriptNewUniqueAsset (scriptPubKey o) = true ->
  exists a, AssetFromScript (scriptPubKey o) = Some a /\ CheckNewAsset a = Accept tt.
Proof.
  induction outs as [|o' outs IH]; [done|]. cbn [check_unique_assets]. intros Hc [->|Ho] Hu.
  - rewrite Hu in Hc. destruct (AssetFromScript (scriptPubKey o)) as [a|]; [|done]. accepted Hc. exists a. destruct a0. done.
  - destruct (IsScriptNewUniqueAsset (scriptPubKey o')); [|by apply IH]. destruct (AssetFromScript (scriptPubKey o')); [|done].
    accepted Hc. by apply IH.
Qed.

Lemma VerifyNewUniqueAsset_entries tx : VerifyNewUniqueAsset params tx = Accept tt -> check_unique_assets (vout tx) = Accept tt -> entries tx.
Proof.
  unfold VerifyNewUniqueAsset. intros H0 Hu. accepted H0. destruct a as [root n]. accepted H0.
  destruct (GetTxOutAssetTypes_counts (vout tx)) as [t E]. rewrite E in H0. accepted H0.
  destruct (collect_unique_root _ _ _ _ _ _ Hc) as (_ & Hn & _).
  assert (TokenRules.count IsScriptNewUniqueAsset (vout tx) = TokenRules.count IsScriptNewAsset (vout tx)) as Hcount by lia.
  apply entries_intro; [|apply none_of; lia|apply none_of; lia]. intros o Ho Hs.
  pose proof (count_same _ _ _ _ (IsScriptNew_new [UNIQUE]) Hcount Ho Hs) as Hu'.
  destruct (check_unique_assets_each _ _ Hu Ho Hu') as (a & Ha & Hc'). by eapply new_entry.
Qed.

Lemma check_plain_outputs_entries tx : check_plain_outputs (vout tx) = Accept tt -> entries tx.
Proof.
  intros Hc o Ho. revert Hc. induction (vout tx) as [|o' outs IH]; [done|]. cbn [check_plain_outputs]. intros Hc. destruct Ho as [->|Ho].
  - by destruct (IsAssetScript (scriptPubKey o)) as [[[[| |] ow] i]|].
  - apply (IH Ho). destruct (IsAssetScript (scriptPubKey o')) as [[[[| |] ow] i]|]; try done. by accepted Hc.
Qed.

(** One asset without an owner token. *)
Lemma one_issue_entries tx a reason : one_issue tx reason = Accept tt -> AssetFromScript (last_script tx) = Some a ->
  CheckNewAsset a = Accept tt -> entries tx.
Proof. intros (Hn & Hr & Ho)%one_issue_all Ha Hc. apply (entries_last tx a); try done. by apply none_of. Qed.

Lemma check_creation_entries tx r : valid_transfers tx -> check_creation params tx = Accept r -> entries tx.
Proof.
  intros Hv. unfold check_creation.
  destruct (tx_IsNewAsset tx); [|destruct (tx_IsReissueAsset tx); [|destruct (IsNewUniqueAsset tx); [|destruct (IsNewMsgChannelAsset tx);
    [|destruct (IsNewQualifierAsset tx); [|destruct (IsNewRestrictedAsset tx)]]]]]; intros H0; accepted H0.
  - destruct (AssetFromScript (last_script tx)) as [asset|] eqn:Ea; [|done]. accepted H0. destruct a, a1. by eapply VerifyNewAsset_entries.
  - destruct a. by apply VerifyReissueAsset_entries.
  - destruct a, a0. by apply VerifyNewUniqueAsset_entries.
  - destruct (AssetFromScript (last_script tx)) as [asset|] eqn:Ea; [|done]. accepted H0. unfold VerifyNewMsgChannelAsset in Hc. accepted Hc.
    destruct (IsScriptNewMsgChannelAsset _); [|done]. rewrite Ea in Hc. accepted Hc. destruct a, a0. by eapply one_issue_entries.
  - destruct (AssetFromScript (last_script tx)) as [asset|] eqn:Ea; [|done]. accepted H0. unfold VerifyNewQualfierAsset, with_type in Hc. accepted Hc.
    destruct (IsScriptNewQualifierAsset _); [|done]. rewrite Ea in Hc. destruct (snd _); [|done]. accepted Hc. destruct a, a0. by eapply one_issue_entries.
  - destruct (AssetFromScript (last_script tx)) as [asset|] eqn:Ea; [|done]. accepted H0. unfold VerifyNewRestrictedAsset, with_type in Hc. accepted Hc.
    destruct (IsScriptNewRestrictedAsset _); [|done]. rewrite Ea in Hc. destruct (snd _); [|done]. accepted Hc.
    destruct (GetVerifierStringFromTx tx); try done. destruct a, a0. by eapply one_issue_entries.
  - destruct a. by apply check_plain_outputs_entries.
Qed.

(** ** The verifier string of an issuance *)

Lemma find_verifier_none outs v w : find_verifier outs (Some v) = VerifierFound w ->
  w = v /\ filter (fun s => IsNullAssetVerifierTxDataScript s) (map scriptPubKey outs) = [].
Proof.
  induction outs as [|o outs IH]; cbn [find_verifier map]; [by intros [= ->]|]. rewrite filter_cons.
  destruct (IsNullAssetVerifierTxDataScript (scriptPubKey o)); [done|]. apply IH.
Qed.

Lemma find_verifier_one outs w : find_verifier outs None = VerifierFound w ->
  exists s, filter (fun s => IsNullAssetVerifierTxDataScript s) (map scriptPubKey outs) = [s] /\ AssetNullVerifierDataFromScript s = Some w.
Proof.
  induction outs as [|o outs IH]; cbn [find_verifier map]; [done|]. rewrite filter_cons.
  destruct (IsNullAssetVerifierTxDataScript (scriptPubKey o)); [|apply IH].
  destruct (AssetNullVerifierDataFromScript (scriptPubKey o)) as [v|] eqn:Ev; [|done]. intros [-> E]%find_verifier_none.
  exists (scriptPubKey o). by rewrite decide_True, E.
Qed.

Lemma verifier_outputs_all dep tx : AreRestrictedAssetsDeployed dep = true ->
  verifier_outputs dep tx = filter (fun s => IsNullAssetVerifierTxDataScript s) (tx_scripts tx).
Proof.
  intros Hd. unfold verifier_outputs, null_outputs, tx_scripts. rewrite Hd. induction (map scriptPubKey (vout tx)) as [|s l IH]; [done|].
  rewrite !filter_cons. destruct (IsNullAssetVerifierTxDataScript s) eqn:E.
  - assert (IsNullAsset s = true) as En by (unfold IsNullAsset; rewrite E; by rewrite !orb_true_r).
    rewrite (decide_True (P := Is_true (IsUnspendable s && IsNullAsset s))) by (by rewrite (null_unspendable s En), En).
    rewrite filter_cons, E. rewrite !decide_True by done. by rewrite IH.
  - rewrite (decide_False (P := Is_true false)) by (by intros []). case_decide; [|done].
    by rewrite filter_cons, E.
Qed.

(** ** [CheckTxAssets] *)

Variable nd : Node.

Lemma CheckTxAssets_outputs_each txid outs : forall addrs i st st', CheckTxAssets_outputs params nd addrs txid outs i st = Accept st' ->
  forall o, In o outs -> check_null params nd (scriptPubKey o) = Accept tt /\
    (forall ow k, IsAssetScript (scriptPubKey o) = Some (TX_TRANSFER_ASSET, ow, k) ->
       exists t, check_transfer params nd (scriptPubKey o) = Accept t).
Proof.
  induction outs as [|o' outs IH]; [done|]. intros addrs i st st' H0 o. cbn [CheckTxAssets_outputs] in H0. accepted H0.
  intros [->|Ho]; [|by eapply IH]. split; [by destruct a|]. intros ow k E. rewrite E in Hc0. accepted Hc0. eauto.
Qed.

Lemma CheckTxAssets_parts {V : Type} `{CoinsView V} script_usage tx (c c' : CCoinsViewCache V) b t :
  CheckTxAssets params nd script_usage tx c b = (Accept t, c') ->
  (exists addrs st, CheckTxAssets_outputs params nd addrs (GetHash tx) (vout tx) 0 (mkAssetsState ∅ [] []) = Accept st) /\
  check_creation_contextual params nd tx b = Accept tt.
Proof.
  unfold CheckTxAssets. destruct (HaveInputs _ _ _ _) as [[] c1]; [|done]. cbn [negb].
  destruct (CheckTxAssets_inputs _ _ _ _ _ _ _) as [r c2]. intros [= E _]. accepted E. destruct a as [ti addrs]. accepted E. destruct a0. eauto.
Qed.

(** Transfers carry assets too. *)
Lemma transfer_entry s ow k t : IsAssetScript s = Some (TX_TRANSFER_ASSET, ow, k) -> check_transfer params nd s = Accept t ->
  is_Some (TransferAssetFromScript s) /\ entry_ok s.
Proof.
  intros E. unfold check_transfer. destruct (TransferAssetFromScript s) as [t'|] eqn:Et; [|done]. intros H0. split; [done|]. accepted H0.
  unfold ContextualCheckTransferAsset in Hc. destruct (IsAssetNameValid (tr_strName t')) as [[] [ty|]] eqn:Ev; try done. accepted Hc.
  unfold entry_ok, GetAssetData. rewrite E, Et. cbn [mbind option_bind]. do 2 eexists. split; [reflexivity|].
  split; [apply valid_not_empty; by rewrite Ev|]. left. lia.
Qed.

Lemma entry_named s : prefixes_ok prefixes -> Forall byte_ok s -> is_Some (IsAssetScript s) -> entry_ok s ->
  IsUnspendable s || named prefixes s = true.
Proof.
  intros Hp Hb [x E] (n & v & Hd & Hn & Hor). apply orb_true_iff. destruct Hor as [Hv|Hu]; [right|by left].
  unfold named. rewrite E, Hd. rewrite (bool_decide_false (n = [])) by done.
  assert (address_of prefixes s <> []) as Ha.
  { apply address_of_asset; [done|done|by rewrite E|]. unfold IsAssetScript in E. destruct (31 <? length s)%nat eqn:El; [|done].
    apply Nat.ltb_lt in El. lia. }
  rewrite (bool_decide_false (address_of prefixes s = [])) by done. by destruct (Z.eqb_spec v 0).
Qed.

(** Every output of an accepted transaction can be read back. *)
Lemma outputs_readable {V : Type} `{CoinsView V} dep fp tx h reward b1 b2 b3 script_usage (c c' : CCoinsViewCache V) b t :
  prefixes_ok prefixes -> Forall (Forall byte_ok) (tx_scripts tx) ->
  CheckTransaction params dep fp tx h reward b1 b2 b3 = Accept tt -> CheckTxAssets params nd script_usage tx c b = (Accept t, c') ->
  forallb (readable_output prefixes) (tx_scripts tx) = true.
Proof.
  intros Hp Hb Hct (Hparts & _)%CheckTxAssets_parts. destruct Hparts as (addrs & st & Ho). unfold CheckTransaction in Hct. accepted Hct.
  assert (Hv : valid_transfers tx) by (intros o tr; by eapply check_outputs_transfers).
  pose proof (check_creation_entries tx _ Hv Hc3) as He. apply forallb_forall. intros s Hs. apply in_map_iff in Hs as (o & <- & Hin).
  destruct (CheckTxAssets_outputs_each _ _ _ _ _ _ Ho o Hin) as [Hnull Htr]. specialize (He o Hin).
  rewrite Forall_forall in Hb. specialize (Hb (scriptPubKey o) ltac:(by apply list_elem_of_In, in_map)).
  unfold readable_output. rewrite !andb_true_iff. split; [split; [split|]|].
  - unfold check_null, IsNullAsset in Hnull. destruct (IsNullAssetTxDataScript (scriptPubKey o)); [|done]. cbn [orb negb implb] in *. accepted Hnull.
    unfold ContextualCheckNullAssetTxOut in *. by destruct (AssetNullDataFromScript prefixes (scriptPubKey o)).
  - unfold check_null, IsNullAsset in Hnull. destruct (IsNullGlobalRestrictionAssetTxDataScript (scriptPubKey o)) eqn:Eg; [|done].
    rewrite orb_true_r in Hnull. cbn [orb negb implb] in *. accepted Hnull.
    destruct (IsNullAssetTxDataScript (scriptPubKey o)) eqn:En; [by rewrite (null_exclusive _ En) in Eg|]. accepted Hnull.
    unfold ContextualCheckGlobalAssetTxOut in *. by destruct (GlobalAssetNullDataFromScript (scriptPubKey o)).
  - unfold ScriptTransferAsset. destruct (IsAssetScript (scriptPubKey o)) as [[[[| |] ow] k]|] eqn:Ek; try done.
    destruct (Htr ow k eq_refl) as [tr Hc']. destruct (transfer_entry _ _ _ _ Ek Hc') as [Hi _]. cbn. by apply is_some_spec.
  - destruct (IsAssetScript (scriptPubKey o)) as [[[k ow] i]|] eqn:Ek; [|unfold named; rewrite Ek; by rewrite orb_true_r].
    apply entry_named; [done|done|by rewrite Ek|]. destruct k; try done. destruct (Htr ow i eq_refl) as [tr Hc']. by destruct (transfer_entry _ _ _ _ Ek Hc').
Qed.

(** A restricted issuance is no other kind of transaction. *)
Lemma IsScriptNew_exclusive ts ts' s : (forall t, t ∈ ts -> t ∉ ts') -> IsScriptNew ts s = true -> IsScriptNew ts' s = false.
Proof.
  unfold IsScriptNew. intros Hd. destruct (AssetFromScript s); [|done]. destruct (IsAssetNameValid _) as [[] [t|]]; try done.
  intros Ht%bool_decide_eq_true. apply bool_decide_eq_false. by apply Hd.
Qed.

Lemma restricted_only tx : IsNewRestrictedAsset tx = true ->
  tx_IsNewAsset tx = false /\ tx_IsReissueAsset tx = false /\ IsNewUniqueAsset tx = false /\ IsNewMsgChannelAsset tx = false /\
  IsNewQualifierAsset tx = false.
Proof.
  unfold IsNewRestrictedAsset. intros [Hn Hr]%andb_true_iff.
  assert (forall ts, RESTRICTED ∉ ts -> IsScriptNew ts (last_script tx) = false) as Hex.
  { intros ts Hts. eapply IsScriptNew_exclusive; [|exact Hr]. by intros t ->%list_elem_of_singleton. }
  unfold tx_IsNewAsset, tx_IsReissueAsset, IsNewUniqueAsset, IsNewMsgChannelAsset, IsNewQualifierAsset. rewrite Hr, orb_true_r, andb_false_r.
  unfold IsScriptNewUniqueAsset, IsScriptNewMsgChannelAsset, IsScriptNewQualifierAsset.
  rewrite (Hex [UNIQUE]), (Hex [MSGCHANNEL]), (Hex [QUALIFIER; SUB_QUALIFIER]), !andb_false_r by set_solver.
  split; [done|]. split; [|done]. unfold IsScriptNewAsset, IsScriptReissueAsset in *. by destruct (IsAssetScript _) as [[[[| |] []] k]|].
Qed.

Lemma IsScriptNew_reads ts s : IsScriptNew ts s = true -> is_some (AssetFromScript s) = true.
Proof. unfold IsScriptNew. by destruct (AssetFromScript s). Qed.

(** The parts of an issuance can be read. *)
Lemma creation_issues tx r : check_creation params tx = Accept r ->
  forallb (fun s => is_some (AssetFromScript s)) (issue_scripts tx) = true /\
  implb (tx_IsNewAsset tx) (is_some (OwnerAssetFromScript (owner_script tx))) = true /\
  implb (tx_IsReissueAsset tx) (is_some (ReissueAssetFromScript (last_script tx))) = true.
Proof.
  intros H0. unfold issue_scripts, check_creation in *. destruct (tx_IsNewAsset tx) eqn:E1.
  { accepted H0. unfold VerifyNewAsset in Hc. accepted Hc. destruct (AssetFromScript (last_script tx)) as [asset|] eqn:Ea; [|done].
    destruct (OwnerAssetFromScript (owner_script tx)); [|done]. cbn [forallb implb is_some andb]. rewrite Ea.
    unfold tx_IsNewAsset in E1. rewrite !andb_true_iff in E1. destruct E1 as [[[_ Hn] _] _].
    unfold tx_IsReissueAsset, IsScriptReissueAsset, IsScriptNewAsset in *. by destruct (IsAssetScript _) as [[[[| |] []] k]|]. }
  destruct (tx_IsReissueAsset tx).
  { accepted H0. by destruct (ReissueAssetFromScript (last_script tx)). }
  split; [|done]. destruct (IsNewUniqueAsset tx).
  { apply forallb_forall. intros s Hs%list_elem_of_In. apply list_elem_of_filter in Hs as [Hs _]. by apply (IsScriptNew_reads [UNIQUE]), Is_true_true. }
  destruct (IsNewMsgChannelAsset tx) eqn:E4; cbn [orb].
  { apply andb_true_iff in E4 as [_ E4]. cbn. by rewrite (IsScriptNew_reads _ _ E4). }
  destruct (IsNewQualifierAsset tx) eqn:E5.
  { apply andb_true_iff in E5 as [_ E5]. cbn. by rewrite (IsScriptNew_reads _ _ E5). }
  destruct (IsNewRestrictedAsset tx) eqn:E6; [|done]. apply andb_true_iff in E6 as [_ E6]. cbn. by rewrite (IsScriptNew_reads _ _ E6).
Qed.

Lemma creation_verifier dep tx r : AreRestrictedAssetsDeployed dep = true -> check_creation params tx = Accept r ->
  implb (IsNewRestrictedAsset tx) (is_some (last (verifier_outputs dep tx) ≫= AssetNullVerifierDataFromScript)) = true.
Proof.
  intros Hd H0. destruct (IsNewRestrictedAsset tx) eqn:E; [|done]. destruct (restricted_only tx E) as (E1 & E2 & E3 & E4 & E5).
  unfold check_creation in H0. rewrite E1, E2, E3, E4, E5, E in H0. accepted H0. destruct (AssetFromScript (last_script tx)); [|done]. accepted H0.
  destruct (GetVerifierStringFromTx tx) as [v| |] eqn:Ev; try done. apply find_verifier_one in Ev as (s & Es & Hs).
  rewrite (verifier_outputs_all dep tx Hd). unfold tx_scripts. rewrite Es. cbn. by rewrite Hs.
Qed.

(** New names of the transaction: each once. *)
Lemma collect_unique_names outs : forall root seen n r, collect_unique outs root seen n = Accept r ->
  NoDup (issued_name <$> filter (fun s => IsScriptNewUniqueAsset s) (map scriptPubKey outs)) /\
  (forall m, m ∈ issued_name <$> filter (fun s => IsScriptNewUniqueAsset s) (map scriptPubKey outs) -> m ∉ seen).
Proof.
  induction outs as [|o outs IH]; intros root seen n r; cbn [collect_unique map].
  { intros _. split; [apply NoDup_nil_2|]. intros m Hm. by apply not_elem_of_nil in Hm. }
  rewrite filter_cons. destruct (IsScriptNewUniqueAsset (scriptPubKey o)); [|apply IH].
  destruct (AssetFromScript (scriptPubKey o)) as [asset|] eqn:Ea; [|done]. intros H0. accepted H0. destruct (IH _ _ _ _ H0) as [Hnd Hs].
  rewrite decide_True by done. rewrite fmap_cons.
  assert (En : issued_name (scriptPubKey o) = na_strName asset) by (unfold issued_name, new_asset; by rewrite Ea). rewrite En.
  apply negb_true_iff, bool_decide_eq_false in Hb0. split.
  - apply NoDup_cons. split; [|done]. intros Hin. apply (Hs _ Hin). by left.
  - intros m [->|Hm]%elem_of_cons; [done|]. intros Hin. apply (Hs _ Hm). by right.
Qed.

Lemma creation_names tx r : check_creation params tx = Accept r -> NoDup (tx_names tx).
Proof.
  unfold check_creation, tx_names, issue_scripts.
  destruct (tx_IsNewAsset tx); [intros _; apply NoDup_singleton|]. destruct (tx_IsReissueAsset tx); [intros _; apply NoDup_nil_2|].
  destruct (IsNewUniqueAsset tx).
  - intros H0. accepted H0. unfold VerifyNewUniqueAsset in Hc. accepted Hc. by apply collect_unique_names in Hc1 as [? _].
  - intros _. destruct (_ || _); [apply NoDup_singleton|]. destruct (IsNewRestrictedAsset tx); [apply NoDup_singleton|apply NoDup_nil_2].
Qed.

(** New names are unknown to the cache. *)
Lemma ContextualCheckNewAsset_new asset b : ContextualCheckNewAsset params (n_dep nd) (n_cache nd) (mapAssetToHash nd) asset b = Accept tt ->
  NullAssets.CheckIfAssetExists (n_cache nd) (na_strName asset) = false.
Proof. unfold ContextualCheckNewAsset. intros H0. accepted H0. by apply negb_true_iff. Qed.

Lemma ContextualCheckUniqueAssetTx_new outs : ContextualCheckUniqueAssetTx params (n_dep nd) (n_cache nd) (mapAssetToHash nd) outs = Accept tt ->
  Forall (fun n => NullAssets.CheckIfAssetExists (n_cache nd) n = false)
    (issued_name <$> filter (fun s => IsScriptNewUniqueAsset s) (map scriptPubKey outs)).
Proof.
  induction outs as [|o outs IH]; cbn [ContextualCheckUniqueAssetTx map]; [by constructor|]. rewrite filter_cons.
  destruct (IsScriptNewUniqueAsset (scriptPubKey o)); [|apply IH]. destruct (AssetFromScript (scriptPubKey o)) as [asset|] eqn:Ea; [|done].
  intros H0. accepted H0. rewrite decide_True by done. rewrite fmap_cons. apply Forall_cons. split; [|by apply IH].
  unfold issued_name, new_asset. rewrite Ea. destruct a. by eapply ContextualCheckNewAsset_new.
Qed.

Lemma under_accept {A} prefix (r : Checked string A) x : under prefix r = Accept x -> r = Accept x.
Proof. by destruct r. Qed.

Lemma contextual_new tx b : check_creation_contextual params nd tx b = Accept tt ->
  Forall (fun n => NullAssets.CheckIfAssetExists (n_cache nd) n = false) (tx_names tx).
Proof.
  assert (Hlast : forall r e p, match AssetFromScript (last_script tx) with None => Reject r | Some asset =>
      under p (ContextualCheckNewAsset params (n_dep nd) (n_cache nd) (mapAssetToHash nd) asset b) end = Accept e ->
    Forall (fun n => NullAssets.CheckIfAssetExists (n_cache nd) n = false) (issued_name <$> [last_script tx])).
  { intros r [] p. cbn [fmap list_fmap]. unfold issued_name, new_asset. destruct (AssetFromScript (last_script tx)) as [asset|]; [|done].
    intros Hu%under_accept. apply Forall_singleton. by eapply ContextualCheckNewAsset_new. }
  unfold check_creation_contextual, tx_names, issue_scripts.
  destruct (tx_IsNewAsset tx); [apply Hlast|]. destruct (tx_IsReissueAsset tx); [by constructor|].
  destruct (IsNewUniqueAsset tx); [by intros Hu%under_accept%ContextualCheckUniqueAssetTx_new|].
  destruct (IsNewMsgChannelAsset tx); cbn [orb]; [intros H0; accepted H0; by eapply Hlast|].
  destruct (IsNewQualifierAsset tx); [intros H0; accepted H0; by eapply Hlast|].
  destruct (IsNewRestrictedAsset tx); [|by constructor]. intros H0. accepted H0. by eapply Hlast.
Qed.

(** Freezes change the status. *)
Lemma check_null_changing s : check_null params nd s = Accept tt ->
  changing prefixes (fun k => NullAssets.CheckForAddressRestriction (n_cache nd) k.1 k.2) (NullAssets.CheckForGlobalRestriction (n_cache nd)) s.
Proof.
  unfold check_null, changing, freeze_cmd, global_cmd, IsNullAsset. intros H0. split.
  - intros [n a] b. destruct (IsNullAssetTxDataScript s); [|done]. cbn [orb negb] in H0. accepted H0.
    unfold ContextualCheckNullAssetTxOut in *. destruct (AssetNullDataFromScript prefixes s) as [[data address]|]; [|done]. cbn [mbind option_bind].
    case_bool_decide as Ht; [|done]. intros [= <- <- <-]. destruct (restricted_name _ Ht) as [Eq Er]. rewrite Eq, Er in Hb0.
    unfold VerifyRestrictedAddressChange in Hb0. apply andb_true_iff in Hb0 as [_ Hb0]. cbn [fst snd].
    destruct (flag data =? 0); cbn in *; [by rewrite Hb0|by apply negb_true_iff in Hb0 as ->].
  - intros n b. destruct (IsNullGlobalRestrictionAssetTxDataScript s) eqn:Eg; [|done]. rewrite orb_true_r in H0. cbn [orb negb] in H0. accepted H0.
    destruct (IsNullAssetTxDataScript s) eqn:En; [by rewrite (null_exclusive _ En) in Eg|]. accepted H0.
    unfold ContextualCheckGlobalAssetTxOut, VerifyGlobalRestrictedChange in *. destruct (GlobalAssetNullDataFromScript s) as [data|]; [|done].
    cbn [mbind option_bind]. intros [= <- <-]. apply andb_true_iff in Hb0 as [_ Hb0].
    destruct (flag data =? 0); cbn in *; [by rewrite Hb0|by apply negb_true_iff in Hb0 as ->].
Qed.
End Accepted.

(** ** Blocks *)

Definition with_cache (nd : Node) (st : State) : Node :=
  mkNode (n_dep nd) (view_of st) (mapAssetToHash nd) (mapReissuedAssets nd) (fMessaging nd) (currentTime nd) (nBlocktime nd).

Section Checked.
Context `{AddressV4} {V : Type} `{CoinsView V}.
Variable params : CChainParams.
Variable nd : Node.
Variable fp : FounderPayment.
Variables nHeight blockReward blockHash unset_height : Z.
Variable script_usage : list Z -> Z.

Abbreviation prefixes := (base58Prefixes params).
Abbreviation dep := (n_dep nd).

Definition accepts {A} (r : Checked string A) : bool := match r with Accept _ => true | _ => false end.

(** The asset checks of a transaction in a block: [CheckTransaction], from
    [CheckBlock], and [CheckTxAssets] against the cache and the coins unless
    it is the coinbase. *)
Definition tx_checked (st : State) (tx : CTransaction) (inputs : CCoinsViewCache V) : bool :=
  accepts (CheckTransaction params dep fp tx nHeight blockReward true false true) &&
  (IsCoinBase tx || accepts (fst (CheckTxAssets params (with_cache nd st) script_usage tx inputs false))).

(** [ConnectBlock]: each transaction, with the coins it is given, is checked
    against what the ones before it have left, and applied. *)
Fixpoint ConnectBlock_checked (st : State) (vtx : list (BlockTx * CCoinsViewCache V)) : option State :=
  match vtx with
  | [] => Some st
  | (tx, txid, spent, inputs) :: vtx =>
      if tx_checked st tx inputs then
        '(st, _) ← UpdateCoins_assets false false dep prefixes unset_height st tx txid spent nHeight blockHash;
        ConnectBlock_checked st vtx
      else None
  end.

(** Scripts are bytes, and the coins spent name their assets, as the outputs
    of checked transactions do. *)
Definition well_formed (btx : BlockTx) : Prop :=
  Forall (Forall byte_ok) (tx_scripts btx.1.1) /\ forallb (fun coin => named prefixes (scriptPubKey (out coin))) btx.2 = true.

Hypothesis prefixes_valid : prefixes_ok prefixes.
Hypothesis assets_deployed : AreAssetsDeployed dep = true.
Hypothesis restricted_deployed : AreRestrictedAssetsDeployed dep = true.
Hypothesis coinbase_deployed : AreCoinbaseCheckAssetsDeployed dep = true.

(** A coinbase has nothing to do with assets. *)
Lemma plain_output s : is_asset_script s || IsNullAsset s = false ->
  readable_output prefixes s = true /\ freeze_cmd prefixes s = None /\ global_cmd s = None.
Proof.
  intros [Ha Hn]%orb_false_iff. unfold is_asset_script in Ha. apply bool_decide_eq_false in Ha.
  assert (IsAssetScript s = None) as E by (destruct (IsAssetScript s); [destruct Ha; eauto|done]).
  unfold IsNullAsset in Hn. apply orb_false_iff in Hn as [[H1 H2]%orb_false_iff _].
  unfold readable_output, freeze_cmd, global_cmd, ScriptTransferAsset, named. rewrite H1, H2, E. cbn. by rewrite orb_true_r.
Qed.

Lemma no_new_asset s : IsAssetScript s = None -> IsScriptNewAsset s = false /\ IsScriptReissueAsset s = false.
Proof. unfold IsScriptNewAsset, IsScriptReissueAsset. by intros ->. Qed.

Lemma coinbase_scripts tx : IsCoinBase tx = true -> CheckTransaction params dep fp tx nHeight blockReward true false true = Accept tt ->
  Forall (fun s => is_asset_script s || IsNullAsset s = false) (tx_scripts tx) /\ issue_scripts tx = [] /\ tx_IsNewAsset tx = false /\
  tx_IsReissueAsset tx = false /\ IsNewRestrictedAsset tx = false.
Proof.
  intros Hcb Hct. unfold CheckTransaction in Hct. accepted Hct. unfold check_coinbase in Hc2. rewrite Hcb in Hc2. accepted Hc2.
  match goal with E : negb (AreCoinbaseCheckAssetsDeployed _ && _) = true |- _ => rewrite coinbase_deployed in E; cbn [andb] in E; apply negb_true_iff in E; rename E into Hno end.
  assert (Hall : Forall (fun s => is_asset_script s || IsNullAsset s = false) (tx_scripts tx)).
  { apply Forall_forall. intros s Hs%list_elem_of_In. apply in_map_iff in Hs as (o & <- & Ho).
    destruct (is_asset_script (scriptPubKey o) || IsNullAsset (scriptPubKey o)) eqn:E; [|done].
    rewrite <- Hno. symmetry. apply existsb_exists. eauto. }
  split; [done|]. assert (El : IsAssetScript (last_script tx) = None).
  { destruct (decide (last_script tx = [])) as [->|Hne]; [done|]. pose proof (last_in tx Hne) as Hin. rewrite Forall_forall in Hall.
    assert (is_asset_script (last_script tx) || IsNullAsset (last_script tx) = false) as [Ha _]%orb_false_iff.
    { apply Hall. apply list_elem_of_In, in_map_iff. by eexists. }
    unfold is_asset_script in Ha. apply bool_decide_eq_false in Ha. destruct (IsAssetScript (last_script tx)); [destruct Ha; eauto|done]. }
  destruct (no_new_asset _ El) as [E1 E2].
  unfold issue_scripts, tx_IsNewAsset, tx_IsReissueAsset, IsNewUniqueAsset, IsNewMsgChannelAsset, IsNewQualifierAsset, IsNewRestrictedAsset.
  rewrite E1, E2. cbn [andb orb]. by rewrite !andb_false_r.
Qed.

(** Such a transaction is readable, issues each asset once and none the cache
    knows, and changes every freeze it names. *)
Lemma tx_checked_facts st btx inputs : well_formed btx -> tx_checked st btx.1.1 inputs = true ->
  readable dep prefixes btx = true /\
  tx_changing prefixes (fun k => NullAssets.CheckForAddressRestriction (view_of st) k.1 k.2) (NullAssets.CheckForGlobalRestriction (view_of st)) btx /\
  NoDup (btx_names btx) /\ Forall (fun n => exists_at st n = false) (btx_names btx).
Proof.
  destruct btx as [[tx txid] spent]. intros [Hb Hs] [Hct Hca]%andb_true_iff. unfold readable, tx_changing, btx_names. cbn [fst snd] in *.
  rewrite !andb_true_iff. destruct (CheckTransaction _ _ _ _ _ _ _ _ _) as [[]| |] eqn:Ect; try done. clear Hct. rename Ect into Hct.
  destruct (IsCoinBase tx) eqn:Ecb.
  - destruct (coinbase_scripts tx Ecb Hct) as (Hall & Ei & E1 & E2 & E3). unfold tx_names. rewrite Ei, E1, E2, E3. cbn [forallb implb fmap list_fmap].
    split; [|split; [|split; [apply NoDup_nil_2|by constructor]]].
    + repeat split; try done. apply forallb_forall. intros s Hin%list_elem_of_In. rewrite Forall_forall in Hall. by apply plain_output, Hall.
    + eapply Forall_impl; [exact Hall|]. intros s Hp. destruct (plain_output s Hp) as (_ & F1 & F2). split; intros k b; by rewrite ?F1, ?F2.
  - cbn [orb] in Hca. destruct (CheckTxAssets _ _ _ _ _ _) as [[t| |] c'] eqn:Ht; try done. destruct (CheckTxAssets_parts _ _ _ _ _ _ _ _ Ht) as ((addrs & ast & Ho) & Hcc).
    pose proof (outputs_readable _ _ _ _ _ _ _ _ _ _ _ _ _ _ _ prefixes_valid Hb Hct Ht) as Hro.
    unfold CheckTransaction in Hct. accepted Hct. destruct (creation_issues _ _ _ Hc3) as (R1 & R2 & R3).
    pose proof (creation_verifier _ _ _ _ restricted_deployed Hc3) as R4. split; [done|]. split; [|split].
    + apply Forall_forall. intros s Hin%list_elem_of_In. apply in_map_iff in Hin as (o & <- & Hin).
      destruct (CheckTxAssets_outputs_each _ _ _ _ _ _ _ _ Ho o Hin) as [Hnull _]. by apply check_null_changing in Hnull.
    + by eapply creation_names.
    + apply contextual_new in Hcc. eapply Forall_impl; [exact Hcc|]. intros n Hn. by rewrite <- view_exists.
Qed.

Lemma tx_changing_ext f f' h h' btx : (forall k, f k = f' k) -> (forall k, h k = h' k) ->
  tx_changing prefixes f h btx -> tx_changing prefixes f' h' btx.
Proof.
  intros Ef Eh Hc. eapply Forall_impl; [exact Hc|]. intros s [H1 H2]. split; intros k b E; [rewrite <- Ef|rewrite <- Eh]; auto.
Qed.

Lemma checked_acceptable g vtx : lru_ok g -> Forall well_formed vtx.*1 ->
  Forall (fun n => says_asset (passets g) n <> Some false) (vtx.*1 ≫= btx_names) ->
  forall fs gs ns st st1, effect (frozen_at g) (frozen_all_at g) false fs gs ns (no_assets, g) st -> ConnectBlock_checked st vtx = Some st1 ->
  forallb (readable dep prefixes) vtx.*1 = true /\ Forall (tx_changing prefixes (frozen_at g) (frozen_all_at g)) vtx.*1 /\
  NoDup (vtx.*1 ≫= btx_names) /\ Forall (fun n => n ∉ ns /\ exists_at (no_assets, g) n = false) (vtx.*1 ≫= btx_names).
Proof.
  intros Hl. induction vtx as [|[[[tx txid] spent] inputs] vtx IH]; intros Hwf Hrem fs gs ns [c g'] st1 He Hck; [by repeat split; try constructor|].
  cbn [ConnectBlock_checked] in Hck. destruct (tx_checked (c, g') tx inputs) eqn:Ect; [|done].
  rewrite fmap_cons in *. cbn [fst] in *. set (btx := (tx, txid, spent)) in *.
  rewrite bind_cons in Hrem. apply Forall_app in Hrem as [Hrem Hrems]. apply Forall_cons in Hwf as [Hwf Hwfs].
  destruct (tx_checked_facts _ btx _ Hwf Ect) as (Hr & Hc & Hnd & Hn).
  pose proof (effect_lru _ _ _ _ _ _ _ _ _ He Hl) as Hl'. pose proof He as ((T1 & T2 & T3 & T4 & _) & _ & _ & Hsays).
  assert (Hc' : tx_changing prefixes (frozen_at g) (frozen_all_at g) btx).
  { eapply tx_changing_ext; [| |exact Hc].
    - intros [n a]. rewrite view_frozen, !frozen_at_says. by rewrite T1, T2.
    - intros n. rewrite view_frozen_all, !frozen_all_at_says. by rewrite T1, T3. }
  assert (Hnew : Forall (fun n => says_asset c n = None /\ n ∉ ns /\ exists_at (no_assets, g) n = false) (btx_names btx)).
  { rewrite Forall_forall in *. intros n Hin. specialize (Hn n Hin). specialize (Hrem n Hin). destruct (Hsays n) as [S1 S2]. cbn [fst negb] in S1, S2.
    assert (n ∉ ns) as Hnn.
    { intros Hns. rewrite exists_spec, (S1 Hns), T1 in Hn by done. by destruct (says_asset (passets g) n) as [[]|]. }
    assert (says_asset c n = None) as Ec by (rewrite (S2 Hnn); apply says_clean). split; [done|]. split; [done|].
    rewrite <- (effect_new _ _ _ _ _ _ _ _ _ n He Hl). cbn [snd]. by rewrite <- (exists_clean c). }
  destruct (UpdateCoins_effect dep prefixes unset_height assets_deployed (frozen_at g) (frozen_all_at g) c g' btx nHeight blockHash Hr Hc' Hl' Hnd)
    as (st' & undo & Eu & He').
  { intros n Hin. rewrite Forall_forall in Hnew. destruct (Hnew n Hin) as (? & _ & ?). split; [done|].
    by rewrite (effect_new _ _ _ _ _ _ _ _ _ n He Hl : exists_at (no_assets, g') n = _). }
  cbn [fst snd btx] in Eu. rewrite Eu in Hck. cbn [mbind option_bind] in Hck.
  destruct (IH Hwfs Hrems _ _ _ _ _ (effect_trans _ _ _ _ _ _ _ _ _ _ _ _ He He') Hck) as (Hrs & Hcs & Hnds & Hns).
  rewrite Forall_forall in Hns. rewrite bind_cons. cbn [forallb]. rewrite Hr, Hrs. split; [done|]. split; [by constructor|]. split.
  - apply NoDup_app. split; [done|]. split; [|done]. intros n Hin Hin'. destruct (Hns n Hin') as [Hni _]. apply Hni. apply elem_of_app. by right.
  - apply Forall_app. split; [eapply Forall_impl; [exact Hnew|]; by intros n (_ & ? & ?)|]. apply Forall_forall. intros n Hin.
    destruct (Hns n Hin) as [Hni ?]. split; [|done]. intros Hin'. apply Hni. apply elem_of_app. by left.
Qed.

End Checked.

(** ** The mempool in block validation *)

(** The node with other reissues in its mempool. *)
Definition with_mempool (nd : Node) (m : gmap (list Z) Z) : Node :=
  mkNode (n_dep nd) (n_cache nd) (mapAssetToHash nd) m (fMessaging nd) (currentTime nd) (nBlocktime nd).

(** An output reissues an asset of which the mempool holds a reissue by
    another transaction. *)
Definition conflicting (m : gmap (list Z) Z) (txid : Z) (o : CTxOut) : bool :=
  match IsAssetScript (scriptPubKey o) with
  | Some (TX_REISSUE_ASSET, _, _) =>
      match ReissueAssetFromScript (scriptPubKey o) with
      | Some r => match m !! re_strName r with Some h => negb (h =? txid) | None => false end
      | None => false
      end
  | _ => false
  end.
Definition conflicts (m : gmap (list Z) Z) (tx : CTransaction) : bool := existsb (conflicting m (GetHash tx)) (vout tx).

Section Mempool.
Context `{AddressV4} {V : Type} `{CoinsView V}.
Variable params : CChainParams.
Variable nd : Node.
Variable m : gmap (list Z) Z.

(** The totals, which is all that the rest of the check reads. *)
Definition totals_of (r : Checked string AssetsState) : option totals :=
  match r with Accept st => Some (totalOutputs st) | _ => None end.

Lemma check_reissue_mempool script txid st st' : totalOutputs st = totalOutputs st' ->
  totals_of (check_reissue (with_mempool nd m) script txid st) =
  if match ReissueAssetFromScript script with
     | Some r => match m !! re_strName r with Some h => negb (h =? txid) | None => false end
     | None => false end
  then None else totals_of (check_reissue (with_mempool nd ∅) script txid st').
Proof.
  intros E. unfold check_reissue. cbn [mapReissuedAssets with_mempool]. destruct (ReissueAssetFromScript script) as [r|]; [|done].
  rewrite lookup_empty. destruct (m !! re_strName r) as [h|]; [destruct (h =? txid)|]; cbn; congruence.
Qed.

Lemma outputs_mempool addrs txid : forall outs index st st', totalOutputs st = totalOutputs st' ->
  totals_of (CheckTxAssets_outputs params (with_mempool nd m) addrs txid outs index st) =
  if existsb (conflicting m txid) outs then None
  else totals_of (CheckTxAssets_outputs params (with_mempool nd ∅) addrs txid outs index st').
Proof.
  induction outs as [|o outs IH]; intros index st st' E; [cbn; by rewrite E|]. cbn [CheckTxAssets_outputs existsb].
  change (n_dep (with_mempool nd m)) with (n_dep (with_mempool nd ∅)).
  destruct (negb _); [|by destruct (_ || _)].
  change (check_null params (with_mempool nd m) (scriptPubKey o)) with (check_null params (with_mempool nd ∅) (scriptPubKey o)).
  destruct (check_null _ _ _) as [u| |]; cbv iota beta; [|by destruct (_ || _)..].
  unfold conflicting at 1. destruct (IsAssetScript (scriptPubKey o)) as [[[[] b] i]|]; cbn [orb]; try by apply IH.
  - pose proof (check_reissue_mempool (scriptPubKey o) txid st st' E) as Hr.
    destruct (match ReissueAssetFromScript (scriptPubKey o) with Some _ => _ | None => _ end); cbn [orb];
      destruct (check_reissue (with_mempool nd m) _ _ _); cbn [totals_of] in *;
      [done..| | |]; destruct (check_reissue (with_mempool nd ∅) _ _ _); try done; cbv iota beta; try by destruct (existsb _ _).
    apply IH. by injection Hr.
  - change (check_transfer params (with_mempool nd m) (scriptPubKey o)) with (check_transfer params (with_mempool nd ∅) (scriptPubKey o)).
    destruct (check_transfer _ _ _) as [tr| |]; cbv iota beta; [|by destruct (existsb _ _)..]. apply IH. cbn. by rewrite E.
Qed.

Lemma CheckTxAssets_mempool script_usage tx (c : CCoinsViewCache V) fCheckMempool :
  accepts (fst (CheckTxAssets params (with_mempool nd m) script_usage tx c fCheckMempool)) =
  negb (conflicts m tx) && accepts (fst (CheckTxAssets params (with_mempool nd ∅) script_usage tx c fCheckMempool)).
Proof.
  unfold CheckTxAssets, conflicts. destruct (HaveInputs _ _ _ _) as [have c1]. destruct (negb have); [by rewrite andb_false_r|].
  change (CheckTxAssets_inputs params (with_mempool nd m)) with (CheckTxAssets_inputs (V := V) params (with_mempool nd ∅)).
  destruct (CheckTxAssets_inputs _ _ _ _ _ _ _) as [[[ti addrs]| |] c2]; cbn [fst accepts]; try by rewrite andb_false_r.
  pose proof (outputs_mempool addrs (GetHash tx) (vout tx) 0 (mkAssetsState ∅ [] []) (mkAssetsState ∅ [] []) eq_refl) as Ho.
  change (check_creation_contextual params (with_mempool nd m)) with (check_creation_contextual params (with_mempool nd ∅)).
  destruct (existsb _ _); cbn [negb andb].
  - by destruct (CheckTxAssets_outputs params (with_mempool nd m) _ _ _ _ _).
  - destruct (CheckTxAssets_outputs params (with_mempool nd m) _ _ _ _ _), (CheckTxAssets_outputs params (with_mempool nd ∅) _ _ _ _ _);
      try done. cbn [totals_of] in *. injection Ho as ->.
    destruct (check_creation_contextual _ _ _ _); cbv iota beta; try done. by destruct (compare_totals _ _).
Qed.
End Mempool.

(** C37: Whether a block is valid depends on the mempool of the node.  The loop
    of [CheckTxAssets] compares every reissue with [mapReissuedAssets], the
    reissues in the mempool, also when it runs as part of [ConnectBlock].  So
    of two nodes that differ only in their mempools, one with an empty mempool
    accepts the asset part of a block and the other rejects it exactly when a
    transaction of the block reissues an asset for which the mempool holds
    a reissue by another transaction. *)
Theorem block_validity_depends_on_mempool `{AddressV4} {V : Type} `{CoinsView V} (params : CChainParams) (nd : Node)
    (fp : FounderPayment) (nHeight blockReward blockHash unset_height : Z) (script_usage : list Z -> Z) (m : gmap (list Z) Z)
    (vtx : list (BlockTx * CCoinsViewCache V)) (st : State) :
  let connect nd := ConnectBlock_checked params nd fp nHeight blockReward blockHash unset_height script_usage st vtx in
  connect (with_mempool nd m) =
  if existsb (fun btx => negb (IsCoinBase btx.1.1.1) && conflicts m btx.1.1.1) vtx then None else connect (with_mempool nd ∅).
Proof.
  cbn zeta. revert st. induction vtx as [|[[[tx txid] spent] inputs] vtx IH]; intros st; [done|]. cbn [ConnectBlock_checked existsb fst].
  assert (tx_checked params (with_mempool nd m) fp nHeight blockReward script_usage st tx inputs =
    negb (negb (IsCoinBase tx) && conflicts m tx) && tx_checked params (with_mempool nd ∅) fp nHeight blockReward script_usage st tx inputs) as ->.
  { unfold tx_checked. change (n_dep (with_mempool nd m)) with (n_dep (with_mempool nd ∅)).
    destruct (accepts (CheckTransaction _ _ _ _ _ _ _ _ _)); cbn [andb]; [|by rewrite andb_false_r].
    destruct (IsCoinBase tx); cbn [negb orb andb]; [done|].
    change (with_cache (with_mempool nd m) st) with (with_mempool (with_cache nd st) m).
    change (with_cache (with_mempool nd ∅) st) with (with_mempool (with_cache nd st) ∅). apply CheckTxAssets_mempool. }
  destruct (negb (IsCoinBase tx) && conflicts m tx); cbn [negb andb orb]; [done|].
  destruct (tx_checked _ _ _ _ _ _ _ _ _); [|by destruct (existsb _ _)].
  change (n_dep (with_mempool nd m)) with (n_dep (with_mempool nd ∅)).
  destruct (UpdateCoins_assets _ _ _ _ _ _ _ _ _ _ _) as [[st' u]|]; cbn [mbind option_bind]; [apply IH|by destruct (existsb _ _)].
Qed.

(** ** An example *)

#[local] Existing Instance dotted_v4.

Definition empty_node : Node := mkNode all_deployed (view_of (no_assets, reorg_globals)) [] ∅ false 0 0.
Definition token_owner : CTxOut := transfer_out (codes "TOKEN!") OWNER_ASSET_AMOUNT [].

(** A block that issues [GOLD], and freezes an address and unfreezes another
    with the owner token of [$TOKEN]. *)
Definition issue_btx : BlockTx := (spend ([burn_out ROOT] ++ issue_outs gold_asset), 71, [mkCoin (mkTxOut (2000 * COIN) pay_to) false 7]).
Definition freeze_btx : BlockTx :=
  (spend [token_owner; mkTxOut 0 (freeze_script 3 1); mkTxOut 0 (freeze_script 4 0)], 72, [mkCoin token_owner false 7]).
Definition example_block : list (BlockTx * CCoinsViewCache CoinsDB) :=
  [(issue_btx, plain_view); (freeze_btx, asset_view [token_owner])].

Lemma example_checked : is_Some (ConnectBlock_checked CMainParams empty_node no_founder 100 0 9 0 (fun _ => 0) (no_assets, reorg_globals) example_block).
Proof. apply is_some_spec. vm_compute. reflexivity. Qed.


(** A node that has [GOLD] on disk, with the reissues its mempool knows. *)
Definition gold_globals : Globals :=
  mkGlobals no_assets (Lru.mkLru [] 2500) (Lru.mkLru [] 2500) (Lru.mkLru [] 2500) (Lru.mkLru [] 2500) (Lru.mkLru [] 2500)
    (mkAssetsDB {[ codes "GOLD" := mkDatabased gold_asset 5 77 ]} ∅ ∅ ∅) (mkRestrictedDB ∅ ∅ ∅ ∅ ∅).
Definition mempool_node (reissued : gmap (list Z) Z) : Node := mkNode all_deployed (view_of (no_assets, gold_globals)) [] reissued false 0 0.
Definition gold_owner : CTxOut := transfer_out (codes "GOLD!") OWNER_ASSET_AMOUNT [].
Definition reissue_btx : BlockTx :=
  (spend [burn_out REISSUE; gold_owner; mkTxOut 0 (Reissue_ConstructTransaction pay_to (mkReissue (codes "GOLD") 500000000 (-1) 1 [] []))], 73,
   [mkCoin gold_owner false 7]).

(** A node that accepts the block with an empty mempool, and one that does not. *)
Example reissue_in_mempool :
  let block := [(reissue_btx, asset_view [gold_owner])] in
  let connect reissued := ConnectBlock_checked CMainParams (mempool_node reissued) no_founder 100 0 9 0 (fun _ => 0) (no_assets, gold_globals) block in
  is_Some (connect ∅) /\ connect {[ codes "GOLD" := 5 ]} = None.
Proof. split; [apply is_some_spec|]; vm_compute; reflexivity. Qed.
