(* ===== verification/BestChain.v ===== *)
(** * Choosing the active chain: [src/validation.cpp]

    The part of the node that decides which of the known blocks form the
    active chain: the set of candidate tips, [FindMostWorkChain],
    [ActivateBestChain] with its single steps, the failure flags
    ([InvalidateBlock], [ResetBlockFailureFlags], [InvalidBlockFound]),
    [PreciousBlock], and the linking of received blocks
    ([ReceivedBlockTransactions]).

    The globals of the source are the fields of [ChainState]; a pointer to
    a block index entry is its key in [mapBlockIndex] (see [Chain.v]).
    What connecting and disconnecting a block does to the coins, the assets
    and the undo files is behind the interface [Ledger].  The outer [None]
    is a failed assertion, the use of a null pointer, signed overflow, or a
    loop that ran out of fuel. *)

From stdpp Require Import gmap sorting.
From S2P Require Import Prelude ArithUint256 Compact Chain.

(** ** Status flags *)

Definition BLOCK_VALID_TRANSACTIONS : Z := 3.
Definition BLOCK_VALID_SCRIPTS : Z := 5.
Definition BLOCK_HAVE_DATA : Z := 8.
Definition BLOCK_HAVE_UNDO : Z := 16.
Definition BLOCK_FAILED_VALID : Z := 32.
Definition BLOCK_FAILED_CHILD : Z := 64.
Definition BLOCK_OPT_WITNESS : Z := 128.

Definition has_flag (b : CBlockIndex) (flag : Z) : bool := negb (Z.land (nStatus b) flag =? 0).
Definition set_flag (flag : Z) (b : CBlockIndex) : CBlockIndex := with_nStatus b (Z.lor (nStatus b) flag).
Definition clear_flag (flag : Z) (b : CBlockIndex) : CBlockIndex :=
  with_nStatus b (Z.land (nStatus b) (u32 (Z.lnot flag))).

Definition with_nSequenceId (id : Z) (b : CBlockIndex) : CBlockIndex :=
  mkIndex (pprev b) (pskip b) (nHeight b) (nChainWork b) (nStatus b) (nVersion b) (nTime b) (nBits b)
    (nTimeMax b) (nFile b) (nDataPos b) (nUndoPos b) (nTx b) (nChainTx b) id.
Definition with_nChainTx (n : Z) (b : CBlockIndex) : CBlockIndex :=
  mkIndex (pprev b) (pskip b) (nHeight b) (nChainWork b) (nStatus b) (nVersion b) (nTime b) (nBits b)
    (nTimeMax b) (nFile b) (nDataPos b) (nUndoPos b) (nTx b) n (nSequenceId b).
Definition with_data (tx file pos : Z) (b : CBlockIndex) : CBlockIndex :=
  mkIndex (pprev b) (pskip b) (nHeight b) (nChainWork b) (nStatus b) (nVersion b) (nTime b) (nBits b)
    (nTimeMax b) file pos 0 tx 0 (nSequenceId b).
Definition with_nUndoPos (pos : Z) (b : CBlockIndex) : CBlockIndex :=
  mkIndex (pprev b) (pskip b) (nHeight b) (nChainWork b) (nStatus b) (nVersion b) (nTime b) (nBits b)
    (nTimeMax b) (nFile b) (nDataPos b) pos (nTx b) (nChainTx b) (nSequenceId b).

(** ** The ledger behind the chain *)

(** What [ConnectBlock] makes of a block: it extends the ledger (the
    position of new undo data in its file is [undo_pos]), it breaks a
    consensus rule ([CValidationState::IsInvalid], with
    [CorruptionPossible]), or the disk or a database failed. *)
Inductive Verdict (W : Type) : Type :=
| Connected (w : W) (undo_pos : Z)
| InvalidBlock (corruption : bool)
| SystemError.
Arguments Connected {W} w undo_pos.
Arguments InvalidBlock {W} corruption.
Arguments SystemError {W}.

(** The operations on the chain state (coins, assets, undo data): connecting
    a block, from the copy in memory (its bytes) when there is one and from
    disk otherwise; reading the tip and disconnecting it; and
    [FlushStateToDisk(FLUSH_STATE_IF_NEEDED)]. *)
Record Ledger (W : Type) := mkLedger {
  connect_block : W -> option (list Z) -> ptr -> Verdict W;
  disconnect_block : W -> ptr -> option W;
  flush_state : W -> bool
}.
Arguments mkLedger {W} _ _ _.
Arguments connect_block {W} _ _ _ _.
Arguments disconnect_block {W} _ _ _.
Arguments flush_state {W} _ _.

(** ** The globals *)

Record ChainState (W : Type) := mkChainState {
  block_index : BlockIndexState;  (* mapBlockIndex, pindexBestHeader, setDirtyBlockIndex *)
  chainActive : CChain;
  setBlockIndexCandidates : gset ptr;
  mapBlocksUnlinked : list (option ptr * ptr);
  pindexBestInvalid : option ptr;
  g_failed_blocks : gset ptr;
  nBlockSequenceId : Z;           (* int32_t *)
  nBlockReverseSequenceId : Z;    (* int32_t *)
  nLastPreciousChainwork : list Z;
  ledger : W
}.
Arguments mkChainState {W} _ _ _ _ _ _ _ _ _ _.
Arguments block_index {W} _.
Arguments chainActive {W} _.
Arguments setBlockIndexCandidates {W} _.
Arguments mapBlocksUnlinked {W} _.
Arguments pindexBestInvalid {W} _.
Arguments g_failed_blocks {W} _.
Arguments nBlockSequenceId {W} _.
Arguments nBlockReverseSequenceId {W} _.
Arguments nLastPreciousChainwork {W} _.
Arguments ledger {W} _.

Section Setters.
Context {W : Type}.
Implicit Types s : ChainState W.

Definition with_block_index (f : BlockIndexState -> BlockIndexState) s : ChainState W :=
  mkChainState (f (block_index s)) (chainActive s) (setBlockIndexCandidates s) (mapBlocksUnlinked s)
    (pindexBestInvalid s) (g_failed_blocks s) (nBlockSequenceId s) (nBlockReverseSequenceId s)
    (nLastPreciousChainwork s) (ledger s).
Definition with_chain (v : CChain) s : ChainState W :=
  mkChainState (block_index s) v (setBlockIndexCandidates s) (mapBlocksUnlinked s)
    (pindexBestInvalid s) (g_failed_blocks s) (nBlockSequenceId s) (nBlockReverseSequenceId s)
    (nLastPreciousChainwork s) (ledger s).
Definition with_candidates (f : gset ptr -> gset ptr) s : ChainState W :=
  mkChainState (block_index s) (chainActive s) (f (setBlockIndexCandidates s)) (mapBlocksUnlinked s)
    (pindexBestInvalid s) (g_failed_blocks s) (nBlockSequenceId s) (nBlockReverseSequenceId s)
    (nLastPreciousChainwork s) (ledger s).
Definition with_unlinked (u : list (option ptr * ptr)) s : ChainState W :=
  mkChainState (block_index s) (chainActive s) (setBlockIndexCandidates s) u
    (pindexBestInvalid s) (g_failed_blocks s) (nBlockSequenceId s) (nBlockReverseSequenceId s)
    (nLastPreciousChainwork s) (ledger s).
Definition with_best_invalid (p : option ptr) s : ChainState W :=
  mkChainState (block_index s) (chainActive s) (setBlockIndexCandidates s) (mapBlocksUnlinked s)
    p (g_failed_blocks s) (nBlockSequenceId s) (nBlockReverseSequenceId s)
    (nLastPreciousChainwork s) (ledger s).
Definition with_failed (f : gset ptr -> gset ptr) s : ChainState W :=
  mkChainState (block_index s) (chainActive s) (setBlockIndexCandidates s) (mapBlocksUnlinked s)
    (pindexBestInvalid s) (f (g_failed_blocks s)) (nBlockSequenceId s) (nBlockReverseSequenceId s)
    (nLastPreciousChainwork s) (ledger s).
Definition with_ids (id rev : Z) (work : list Z) s : ChainState W :=
  mkChainState (block_index s) (chainActive s) (setBlockIndexCandidates s) (mapBlocksUnlinked s)
    (pindexBestInvalid s) (g_failed_blocks s) id rev work (ledger s).
Definition with_ledger (w : W) s : ChainState W :=
  mkChainState (block_index s) (chainActive s) (setBlockIndexCandidates s) (mapBlocksUnlinked s)
    (pindexBestInvalid s) (g_failed_blocks s) (nBlockSequenceId s) (nBlockReverseSequenceId s)
    (nLastPreciousChainwork s) w.

(** The entries of the block tree. *)
Definition blocks s : gmap ptr CBlockIndex := mapBlockIndex (block_index s).

Definition with_blocks (m : gmap ptr CBlockIndex) : ChainState W -> ChainState W :=
  with_block_index (fun i => mkBIState m (pindexBestHeader i) (setDirtyBlockIndex i)).

(** [setDirtyBlockIndex.insert(p)]. *)
Definition dirty (p : ptr) : ChainState W -> ChainState W :=
  with_block_index (fun i => mkBIState (mapBlockIndex i) (pindexBestHeader i) ({[ p ]} ∪ setDirtyBlockIndex i)).

(** The object [p] points to is updated in place. *)
Definition change (p : ptr) (f : CBlockIndex -> CBlockIndex) s : option (ChainState W) :=
  b ← blocks s !! p; Some (with_blocks (<[p := f b]> (blocks s)) s).

Definition erase_candidate (p : ptr) : ChainState W -> ChainState W :=
  with_candidates (fun c => c ∖ {[ p ]}).
Definition insert_candidate (p : ptr) : ChainState W -> ChainState W :=
  with_candidates (fun c => {[ p ]} ∪ c).

End Setters.

(** ** The order of the candidates *)

Section Operations.
Context {W : Type}.

(** Addresses of the entries: the last tie breaker of the order, and the
    order of a [std::set] of pointers. *)
Variable addr : ptr -> Z.
Variable L : Ledger W.

Implicit Types s : ChainState W.

(** [CBlockIndexWorkComparator]: the first block is the worse one. *)
Definition CBlockIndexWorkComparator (m : gmap ptr CBlockIndex) (pa pb : ptr) : option bool :=
  a ← m !! pa;
  b ← m !! pb;
  let c := CompareTo W256 (nChainWork a) (nChainWork b) in
  Some (if 0 <? c then false
        else if c <? 0 then true
        else if nSequenceId a <? nSequenceId b then false
        else if nSequenceId b <? nSequenceId a then true
        else if addr pa <? addr pb then false
        else addr pb <? addr pa).

(** [*setBlockIndexCandidates.rbegin()], the last element in that order. *)
Fixpoint last_candidate (m : gmap ptr CBlockIndex) (l : list ptr) : option (option ptr) :=
  match l with
  | [] => Some None
  | p :: l =>
      r ← last_candidate m l;
      match r with
      | None => Some (Some p)
      | Some q => w ← CBlockIndexWorkComparator m q p; Some (Some (if w : bool then p else q))
      end
  end.

(** ** [FindMostWorkChain] *)

(** The walk from a candidate down to the active chain: the first block
    that is marked failed or whose data are missing. *)
Fixpoint FindMostWorkChain_walk (fuel : nat) (m : gmap ptr CBlockIndex) (v : CChain) (pindexTest : option ptr) :
    option (option ptr) :=
  match pindexTest with
  | None => Some None
  | Some t =>
      c ← Contains m v t;
      if c : bool then Some None
      else
        b ← m !! t;
        (* assert(pindexTest->nChainTx || pindexTest->nHeight == 0) *)
        if (nChainTx b =? 0) && negb (nHeight b =? 0) then None
        else if has_flag b BLOCK_FAILED_MASK || negb (has_flag b BLOCK_HAVE_DATA) then Some (Some t)
        else match fuel with
             | O => None
             | S fuel => FindMostWorkChain_walk fuel m v (pprev b)
             end
  end.

(** [while (pindexTest != pindexFailed)]: every block above the unusable
    one leaves the candidates; it is marked, or waits for the missing data. *)
Fixpoint FindMostWorkChain_remove (fuel : nat) (fFailedChain : bool) (pindexTest pindexFailed : ptr) s :
    option (ChainState W) :=
  if decide (pindexTest = pindexFailed) then Some s
  else match fuel with
       | O => None
       | S fuel =>
           b ← blocks s !! pindexFailed;
           s ← (if fFailedChain then change pindexFailed (set_flag BLOCK_FAILED_CHILD) s
                else Some (with_unlinked (mapBlocksUnlinked s ++ [(pprev b, pindexFailed)]) s));
           q ← pprev b;
           FindMostWorkChain_remove fuel fFailedChain pindexTest q (erase_candidate pindexFailed s)
       end.

(** A candidate whose chain is not usable at [pindexTest]. *)
Definition FindMostWorkChain_drop (pindexNew pindexTest : ptr) s : option (ChainState W) :=
  b ← blocks s !! pindexNew;
  t ← blocks s !! pindexTest;
  let fFailedChain := has_flag t BLOCK_FAILED_MASK in
  bi ← (match pindexBestInvalid s with
        | Some i => x ← blocks s !! i; Some (0 <? CompareTo W256 (nChainWork b) (nChainWork x))
        | None => Some true
        end);
  let s := if fFailedChain && bi then with_best_invalid (Some pindexNew) s else s in
  s ← FindMostWorkChain_remove (Z.to_nat (nHeight b)) fFailedChain pindexTest pindexNew s;
  Some (erase_candidate pindexTest s).

(** Every round without a result removes a candidate. *)
Fixpoint FindMostWorkChain_loop (fuel : nat) s : option (option ptr * ChainState W) :=
  r ← last_candidate (blocks s) (elements (setBlockIndexCandidates s));
  match r with
  | None => Some (None, s)
  | Some pindexNew =>
      b ← blocks s !! pindexNew;
      bad ← FindMostWorkChain_walk (Z.to_nat (nHeight b) + 1) (blocks s) (chainActive s) (Some pindexNew);
      match bad with
      | None => Some (Some pindexNew, s)
      | Some pindexTest =>
          match fuel with
          | O => None
          | S fuel => s ← FindMostWorkChain_drop pindexNew pindexTest s; FindMostWorkChain_loop fuel s
          end
      end
  end.

Definition FindMostWorkChain s : option (option ptr * ChainState W) :=
  FindMostWorkChain_loop (size (setBlockIndexCandidates s)) s.

(** ** [PruneBlockIndexCandidates] *)

(** The elements are erased from the front of the ordered set as long as
    they are worse than the tip; in an ordered set these are all of them. *)
Fixpoint worse_candidates (m : gmap ptr CBlockIndex) (tip : ptr) (l : list ptr) : option (gset ptr) :=
  match l with
  | [] => Some ∅
  | p :: l =>
      r ← worse_candidates m tip l;
      w ← CBlockIndexWorkComparator m p tip;
      Some (if w : bool then {[ p ]} ∪ r else r)
  end.

Definition PruneBlockIndexCandidates s : option (ChainState W) :=
  if decide (setBlockIndexCandidates s = ∅) then None (* the assertion below *)
  else
    tip ← Tip (chainActive s);
    worse ← worse_candidates (blocks s) tip (elements (setBlockIndexCandidates s));
    let s := with_candidates (fun c => c ∖ worse) s in
    (* assert(!setBlockIndexCandidates.empty()) *)
    if decide (setBlockIndexCandidates s = ∅) then None else Some s.

(** ** Failures *)

(** The warnings of [CheckForkWarningConditions] are left out. *)
Definition InvalidChainFound (pindexNew : ptr) s : option (ChainState W) :=
  b ← blocks s !! pindexNew;
  bi ← (match pindexBestInvalid s with
        | Some i => x ← blocks s !! i; Some (0 <? CompareTo W256 (nChainWork b) (nChainWork x))
        | None => Some true
        end);
  let s := if bi : bool then with_best_invalid (Some pindexNew) s else s in
  _ ← Tip (chainActive s); (* assert(tip) *)
  Some s.

Definition InvalidBlockFound (pindex : ptr) (corruption : bool) s : option (ChainState W) :=
  if corruption then Some s
  else
    s ← change pindex (set_flag BLOCK_FAILED_VALID) s;
    InvalidChainFound pindex
      (erase_candidate pindex (dirty pindex (with_failed (fun f => {[ pindex ]} ∪ f) s))).

(** ** The tip *)

(** [UpdateTip]: the active chain.  The notifications are left out. *)
Definition UpdateTip (pindexNew : option ptr) s : option (ChainState W) :=
  v ← SetTip (blocks s) (chainActive s) pindexNew; Some (with_chain v s).

(** The end of [ConnectBlock]: undo data are written once, and the block is
    valid up to its scripts.  The genesis block returns before. *)
Definition ConnectBlock_index (pindex : ptr) (undo_pos : Z) s : option (ChainState W) :=
  b ← blocks s !! pindex;
  match pprev b with
  | None => Some s
  | Some _ =>
      if negb (has_flag b BLOCK_HAVE_UNDO) || negb (IsValid b BLOCK_VALID_SCRIPTS) then
        let b := if negb (has_flag b BLOCK_HAVE_UNDO) then set_flag BLOCK_HAVE_UNDO (with_nUndoPos undo_pos b) else b in
        Some (dirty pindex (with_blocks (<[pindex := snd (RaiseValidity b BLOCK_VALID_SCRIPTS)]> (blocks s)) s))
      else Some s
  end.

Inductive TipResult : Type :=
| TipConnected (s : ChainState W)
| TipInvalid (corruption : bool) (s : ChainState W)
| TipError (s : ChainState W).

(** [pblock] is the block in memory; without it the block is read from disk. *)
Definition ConnectTip (pindexNew : ptr) (pblock : option (list Z)) s : option TipResult :=
  b ← blocks s !! pindexNew;
  (* assert(pindexNew->pprev == chainActive.Tip()) *)
  if decide (pprev b = Tip (chainActive s)) then
    match connect_block L (ledger s) pblock pindexNew with
    | SystemError => Some (TipError s)
    | InvalidBlock corruption =>
        s ← InvalidBlockFound pindexNew corruption s; Some (TipInvalid corruption s)
    | Connected w undo_pos =>
        s ← ConnectBlock_index pindexNew undo_pos (with_ledger w s);
        if flush_state L w then s ← UpdateTip (Some pindexNew) s; Some (TipConnected s)
        else Some (TipError s)
    end
  else None.

(** The result is whether the tip was disconnected. *)
Definition DisconnectTip s : option (bool * ChainState W) :=
  pindexDelete ← Tip (chainActive s);
  b ← blocks s !! pindexDelete;
  match disconnect_block L (ledger s) pindexDelete with
  | None => Some (false, s)
  | Some w =>
      let s := with_ledger w s in
      if flush_state L w then s ← UpdateTip (pprev b) s; Some (true, s) else Some (false, s)
  end.

(** ** [ActivateBestChainStep] *)

(** [while (chainActive.Tip() && chainActive.Tip() != pindexFork)]. *)
Fixpoint disconnect_to (fuel : nat) (pindexFork : option ptr) s : option (bool * ChainState W) :=
  match Tip (chainActive s) with
  | None => Some (true, s)
  | Some t =>
      if decide (pindexFork = Some t) then Some (true, s)
      else match fuel with
           | O => None
           | S fuel =>
               '(ok, s) ← DisconnectTip s;
               if ok : bool then disconnect_to fuel pindexFork s else Some (false, s)
           end
  end.

(** [vpindexToConnect]: from [pindexIter] down to the height [nHeight],
    the highest block first. *)
Fixpoint to_connect (fuel : nat) (m : gmap ptr CBlockIndex) (height : Z) (pindexIter : option ptr) :
    option (list ptr) :=
  match pindexIter with
  | None => Some []
  | Some p =>
      b ← m !! p;
      if nHeight b =? height then Some []
      else match fuel with
           | O => None
           | S fuel => l ← to_connect fuel m height (pprev b); Some (p :: l)
           end
  end.

(** How a round of connecting ended: every block was connected, the tip is
    better than before, a block was invalid, or the node failed. *)
Inductive BatchEnd : Type := AllConnected | BetterTip | InvalidFound | NodeError.

(** [chainActive.Tip()->nChainWork > pindexOldTip->nChainWork], or no old
    tip. *)
Definition better_than_old (pindexOldTip : option ptr) s : option bool :=
  match pindexOldTip with
  | None => Some true
  | Some o =>
      bo ← blocks s !! o;
      t ← Tip (chainActive s);
      bt ← blocks s !! t;
      Some (0 <? CompareTo W256 (nChainWork bt) (nChainWork bo))
  end.

(** The blocks of [l], the lowest first; [back] is
    [vpindexToConnect.back()].  Only the last block of the chain may be in
    memory. *)
Fixpoint connect_all (pindexOldTip : option ptr) (pindexMostWork : ptr) (pblock : option (list Z)) (back : ptr)
    (l : list ptr) s :
    option (BatchEnd * ChainState W) :=
  match l with
  | [] => Some (AllConnected, s)
  | p :: l =>
      r ← ConnectTip p (if decide (p = pindexMostWork) then pblock else None) s;
      match r with
      | TipError s => Some (NodeError, s)
      | TipInvalid corruption s =>
          s ← (if corruption : bool then Some s else InvalidChainFound back s);
          Some (InvalidFound, s)
      | TipConnected s =>
          s ← PruneBlockIndexCandidates s;
          better ← better_than_old pindexOldTip s;
          if better : bool then Some (BetterTip, s) else connect_all pindexOldTip pindexMostWork pblock back l s
      end
  end.

(** [while (fContinue && nHeight != pindexMostWork->nHeight)]: rounds of at
    most 32 blocks. *)
Fixpoint connect_rounds (fuel : nat) (pindexOldTip : option ptr) (pindexMostWork : ptr) (pblock : option (list Z))
    (target height : Z) s :
    option (BatchEnd * ChainState W) :=
  if height =? target then Some (AllConnected, s)
  else match fuel with
       | O => None
       | S fuel =>
           let nTargetHeight := Z.min (height + 32) target in
           pindexIter ← GetAncestor (blocks s) pindexMostWork nTargetHeight;
           vpindexToConnect ← to_connect (Z.to_nat (nTargetHeight - height)) (blocks s) height pindexIter;
           '(e, s) ← connect_all pindexOldTip pindexMostWork pblock (List.last vpindexToConnect pindexMostWork)
                       (rev vpindexToConnect) s;
           match e with
           | AllConnected => connect_rounds fuel pindexOldTip pindexMostWork pblock target nTargetHeight s
           | _ => Some (e, s)
           end
       end.

(** [Some (None, s)]: the function returned [false];
    [Some (Some fInvalidFound, s)]: it returned [true]. *)
Definition ActivateBestChainStep (pindexMostWork : ptr) (pblock : option (list Z)) s : option (option bool * ChainState W) :=
  let pindexOldTip := Tip (chainActive s) in
  pindexFork ← FindFork (blocks s) (chainActive s) (Some pindexMostWork);
  '(ok, s) ← disconnect_to (length (chainActive s)) pindexFork s;
  if ok : bool then
    w ← blocks s !! pindexMostWork;
    h ← (match pindexFork with Some f => b ← blocks s !! f; Some (nHeight b) | None => Some (-1) end);
    '(e, s) ← connect_rounds (Z.to_nat (nHeight w - h)) pindexOldTip pindexMostWork pblock (nHeight w) h s;
    match e with
    | NodeError => Some (None, s)
    | InvalidFound => Some (Some true, s)
    | _ => Some (Some false, s)
    end
  else Some (None, s).

(** ** [ActivateBestChain] *)

(** What one round of the loop does: it returns, or it goes on with the
    cached [pindexMostWork]. *)
Inductive LoopRound : Type :=
| Return (ok : bool) (s : ChainState W)
| Again (pindexMostWork : option ptr) (s : ChainState W).

(** A block in memory, with its hash. *)
Abbreviation Delivered := (option (Z * list Z)).

(** [pblock && pblock->GetHash() == pindexMostWork->GetBlockHash() ? pblock : nullBlockPtr]. *)
Definition delivered_for (pblock : Delivered) (w : ptr) : option (list Z) :=
  '(hash, copy) ← pblock; if decide (hash = w) then Some copy else None.

(** One round; a pending shutdown and the notifications are left out. *)
Definition ActivateBestChain_round (pblock : Delivered) (pindexMostWork : option ptr) s : option LoopRound :=
  '(mw, s) ← (match pindexMostWork with Some w => Some (Some w, s) | None => FindMostWorkChain s end);
  match mw with
  | None => Some (Return true s)
  | Some w =>
      if decide (Tip (chainActive s) = Some w) then Some (Return true s)
      else
        '(r, s) ← ActivateBestChainStep w (delivered_for pblock w) s;
        match r with
        | None => Some (Return false s)
        | Some fInvalidFound =>
            let mw := if fInvalidFound : bool then None else Some w in
            (* while (pindexNewTip != pindexMostWork) *)
            if decide (Tip (chainActive s) = mw) then Some (Return (flush_state L (ledger s)) s)
            else Some (Again mw s)
        end
  end.

Fixpoint ActivateBestChain_loop (fuel : nat) (pblock : Delivered) (pindexMostWork : option ptr) s :
    option (bool * ChainState W) :=
  r ← ActivateBestChain_round pblock pindexMostWork s;
  match r with
  | Return ok s => Some (ok, s)
  | Again mw s => match fuel with O => None | S fuel => ActivateBestChain_loop fuel pblock mw s end
  end.

Definition ActivateBestChain (fuel : nat) (pblock : Delivered) s : option (bool * ChainState W) :=
  ActivateBestChain_loop fuel pblock None s.

(** ** [PreciousBlock] *)

(** Everything before the final [ActivateBestChain]; the result says
    whether it is reached. *)
Definition PreciousBlock_mark (pindex : ptr) s : option (bool * ChainState W) :=
  b ← blocks s !! pindex;
  t ← Tip (chainActive s);
  bt ← blocks s !! t;
  if CompareTo W256 (nChainWork b) (nChainWork bt) <? 0 then Some (false, s)
  else
    let rev := if 0 <? CompareTo W256 (nChainWork bt) (nLastPreciousChainwork s) then -1
               else nBlockReverseSequenceId s in
    s ← change pindex (with_nSequenceId rev) (erase_candidate pindex s);
    let s := with_ids (nBlockSequenceId s) (if - 2 ^ 31 <? rev then rev - 1 else rev) (nChainWork bt) s in
    if IsValid b BLOCK_VALID_TRANSACTIONS && negb (nChainTx b =? 0)
    then s ← PruneBlockIndexCandidates (insert_candidate pindex s); Some (true, s)
    else Some (true, s).

Definition PreciousBlock (fuel : nat) (pindex : ptr) s : option (bool * ChainState W) :=
  '(go, s) ← PreciousBlock_mark pindex s;
  if go : bool then ActivateBestChain fuel None s else Some (true, s).

(** ** [InvalidateBlock] *)

(** [while (chainActive.Contains(pindex))]: [Some (ok, was_in_chain, s)]. *)
Fixpoint InvalidateBlock_disconnect (fuel : nat) (pindex : ptr) (was_in_chain : bool) s :
    option (bool * bool * ChainState W) :=
  c ← Contains (blocks s) (chainActive s) pindex;
  if c : bool then
    match fuel with
    | O => None
    | S fuel =>
        '(ok, s) ← DisconnectTip s;
        if ok : bool then InvalidateBlock_disconnect fuel pindex true s else Some (false, true, s)
    end
  else Some (true, was_in_chain, s).

(** [while (pindex_was_in_chain && invalid_walk_tip != pindex)]. *)
Fixpoint InvalidateBlock_mark (fuel : nat) (pindex invalid_walk_tip : ptr) s : option (ChainState W) :=
  if decide (invalid_walk_tip = pindex) then Some s
  else match fuel with
       | O => None
       | S fuel =>
           b ← blocks s !! invalid_walk_tip;
           s ← change invalid_walk_tip (set_flag BLOCK_FAILED_CHILD) s;
           q ← pprev b;
           InvalidateBlock_mark fuel pindex q (erase_candidate invalid_walk_tip (dirty invalid_walk_tip s))
       end.

(** The blocks of [l] that are candidates for the present tip. *)
Fixpoint valid_candidates (m : gmap ptr CBlockIndex) (tip : option ptr) (l : list (ptr * CBlockIndex)) :
    option (gset ptr) :=
  match l with
  | [] => Some ∅
  | (p, b) :: l =>
      r ← valid_candidates m tip l;
      if IsValid b BLOCK_VALID_TRANSACTIONS && negb (nChainTx b =? 0) then
        t ← tip;
        w ← CBlockIndexWorkComparator m p t;
        Some (if w : bool then r else {[ p ]} ∪ r)
      else Some r
  end.

Definition InvalidateBlock (pindex : ptr) s : option (bool * ChainState W) :=
  let old_tip := Tip (chainActive s) in
  '(ok, was_in_chain, s) ← InvalidateBlock_disconnect (length (chainActive s)) pindex false s;
  if ok : bool then
    s ← (if was_in_chain : bool then
           t ← old_tip; bt ← blocks s !! t;
           InvalidateBlock_mark (Z.to_nat (nHeight bt)) pindex t s
         else Some s);
    s ← change pindex (set_flag BLOCK_FAILED_VALID) s;
    let s := with_failed (fun f => {[ pindex ]} ∪ f) (erase_candidate pindex (dirty pindex s)) in
    c ← valid_candidates (blocks s) (Tip (chainActive s)) (map_to_list (blocks s));
    s ← InvalidChainFound pindex (with_candidates (fun old => c ∪ old) s);
    Some (true, s)
  else Some (false, s).

(** ** [ResetBlockFailureFlags] *)

(** One entry of [mapBlockIndex]. *)
Definition ResetBlockFailureFlags_entry (pindex : ptr) (height : Z) (p : ptr) s : option (ChainState W) :=
  b ← blocks s !! p;
  if IsValid b BLOCK_VALID_TRANSACTIONS then Some s
  else
    a ← GetAncestor (blocks s) p height;
    if decide (a = Some pindex) then
      let b := clear_flag BLOCK_FAILED_MASK b in
      let s := dirty p (with_blocks (<[p := b]> (blocks s)) s) in
      s ← (if IsValid b BLOCK_VALID_TRANSACTIONS && negb (nChainTx b =? 0) then
             t ← Tip (chainActive s);
             w ← CBlockIndexWorkComparator (blocks s) t p;
             Some (if w : bool then insert_candidate p s else s)
           else Some s);
      let s := if decide (pindexBestInvalid s = Some p) then with_best_invalid None s else s in
      Some (with_failed (fun f => f ∖ {[ p ]}) s)
    else Some s.

Fixpoint ResetBlockFailureFlags_loop (pindex : ptr) (height : Z) (l : list ptr) s : option (ChainState W) :=
  match l with
  | [] => Some s
  | p :: l => s ← ResetBlockFailureFlags_entry pindex height p s; ResetBlockFailureFlags_loop pindex height l s
  end.

(** "Remove the invalidity flag from all ancestors too." *)
Fixpoint ResetBlockFailureFlags_up (fuel : nat) (pindex : option ptr) s : option (ChainState W) :=
  match pindex with
  | None => Some s
  | Some p =>
      b ← blocks s !! p;
      let s := if has_flag b BLOCK_FAILED_MASK
               then dirty p (with_blocks (<[p := clear_flag BLOCK_FAILED_MASK b]> (blocks s)) s) else s in
      match fuel with
      | O => None
      | S fuel => ResetBlockFailureFlags_up fuel (pprev b) s
      end
  end.

Definition ResetBlockFailureFlags (pindex : ptr) s : option (ChainState W) :=
  b ← blocks s !! pindex;
  s ← ResetBlockFailureFlags_loop pindex (nHeight b) (elements (dom (blocks s))) s;
  ResetBlockFailureFlags_up (Z.to_nat (nHeight b) + 1) (Some pindex) s.

(** ** [ReceivedBlockTransactions] *)

(** [mapBlocksUnlinked.equal_range(p)], in the order of insertion. *)
Definition equal_range (p : ptr) (u : list (option ptr * ptr)) : list ptr :=
  snd <$> filter (fun e => e.1 = Some p) u.
Definition erase_range (p : ptr) (u : list (option ptr * ptr)) : list (option ptr * ptr) :=
  filter (fun e => e.1 <> Some p) u.

(** A block all of whose ancestors have been received. *)
Definition link_block (pindex : ptr) s : option (ChainState W) :=
  b ← blocks s !! pindex;
  n ← (match pprev b with Some q => bq ← blocks s !! q; Some (nChainTx bq) | None => Some 0 end);
  (* nBlockSequenceId++ must not overflow an int32_t *)
  if nBlockSequenceId s =? 2 ^ 31 - 1 then None
  else
    s ← change pindex (fun b => with_nSequenceId (nBlockSequenceId s) (with_nChainTx (u32 (n + nTx b)) b)) s;
    let s := with_ids (nBlockSequenceId s + 1) (nBlockReverseSequenceId s) (nLastPreciousChainwork s) s in
    match Tip (chainActive s) with
    | None => Some (insert_candidate pindex s)
    | Some t =>
        w ← CBlockIndexWorkComparator (blocks s) pindex t;
        Some (if w : bool then s else insert_candidate pindex s)
    end.

Fixpoint link_queue (fuel : nat) (queue : list ptr) s : option (ChainState W) :=
  match queue with
  | [] => Some s
  | p :: queue =>
      match fuel with
      | O => None
      | S fuel =>
          s ← link_block p s;
          link_queue fuel (queue ++ equal_range p (mapBlocksUnlinked s))
            (with_unlinked (erase_range p (mapBlocksUnlinked s)) s)
      end
  end.

(** [witness] is [IsWitnessEnabled]; [n], [file] and [pos] are the number
    of transactions and the position on disk.  The queue handles the block
    and at most every entry of [mapBlocksUnlinked]. *)
Definition ReceivedBlockTransactions (witness : bool) (pindexNew : ptr) (n file pos : Z) s :
    option (ChainState W) :=
  s ← change pindexNew (fun b =>
        let b := set_flag BLOCK_HAVE_DATA (with_data (u32 n) file pos b) in
        let b := if witness then set_flag BLOCK_OPT_WITNESS b else b in
        snd (RaiseValidity b BLOCK_VALID_TRANSACTIONS)) s;
  let s := dirty pindexNew s in
  b ← blocks s !! pindexNew;
  match pprev b with
  | None => link_queue (S (length (mapBlocksUnlinked s))) [pindexNew] s
  | Some q =>
      bq ← blocks s !! q;
      if negb (nChainTx bq =? 0) then link_queue (S (length (mapBlocksUnlinked s))) [pindexNew] s
      else if IsValid bq BLOCK_VALID_TREE
           then Some (with_unlinked (mapBlocksUnlinked s ++ [(Some q, pindexNew)]) s)
           else Some s
  end.

(** ** [PruneOneBlockFile] *)

Definition PruneOneBlockFile_entry (fileNumber : Z) (p : ptr) s : option (ChainState W) :=
  b ← blocks s !! p;
  if nFile b =? fileNumber then
    let b := clear_flag BLOCK_HAVE_UNDO (clear_flag BLOCK_HAVE_DATA b) in
    let b := mkIndex (pprev b) (pskip b) (nHeight b) (nChainWork b) (nStatus b) (nVersion b) (nTime b) (nBits b)
               (nTimeMax b) 0 0 0 (nTx b) (nChainTx b) (nSequenceId b) in
    let s := dirty p (with_blocks (<[p := b]> (blocks s)) s) in
    Some (with_unlinked (filter (fun e => ~ (e.1 = pprev b /\ e.2 = p)) (mapBlocksUnlinked s)) s)
  else Some s.

Fixpoint PruneOneBlockFile_loop (fileNumber : Z) (l : list ptr) s : option (ChainState W) :=
  match l with
  | [] => Some s
  | p :: l => s ← PruneOneBlockFile_entry fileNumber p s; PruneOneBlockFile_loop fileNumber l s
  end.

(** The block index; the file's own record is reset besides. *)
Definition PruneOneBlockFile (fileNumber : Z) s : option (ChainState W) :=
  PruneOneBlockFile_loop fileNumber (elements (dom (blocks s))) s.
End Operations.
