(* ===== verification/AcceptBlock.v ===== *)
(** * Accepting headers and blocks: [src/validation.cpp]

    The rules a header must satisfy on top of its parent
    ([ContextualCheckBlockHeader]), the entry of a header and of a block
    into the block index ([AcceptBlockHeader], [AcceptBlock]) and the whole
    of [ProcessNewBlock].  [None] is a failed assertion, the use of a null
    pointer, an index out of range, or a loop that ran out of fuel. *)

From stdpp Require Import gmap sorting.
From S2P Require Import Prelude ArithUint256 Compact Chain ActiveChain MedianTime Pow BestChain.

(** ** Header rules *)

Definition MAX_FUTURE_BLOCK_TIME : Z := 2 * 60 * 60.
Definition MAX_FUTURE_BLOCK_TIME_DGW : Z := Z.quot MAX_FUTURE_BLOCK_TIME 10.
Definition MAX_FUTURE_BLOCK_TIME_DUAL_ALGO : Z := Z.quot (90 * 5 * 60) 20.
Definition VERSIONBITS_TOP_BITS_ASSETS : Z := 0x30000000.
Definition NUM_BLOCK_TYPES : Z := 2.
Definition MIN_BLOCKS_TO_KEEP : Z := 288.

(** What the checks read besides the block index: the chain parameters and
    options, the clock, the peers and the state of the deployments. *)
Record NodeEnv := mkNodeEnv {
  env_params : PowParams;
  hashGenesisBlock : Z;
  nMinimumChainWork : list Z;
  mapCheckpoints : list (Z * Z);     (* height and hash, ascending *)
  fCheckpointsEnabled : bool;
  nMaxReorgDepth : Z;
  nMinReorgPeers : Z;
  nMinReorgAge : Z;
  nNodeCount : option Z;             (* g_connman may be null *)
  env_GetTime : Z;
  nAdjustedTime : Z;
  IsDGWActive : Z -> bool;
  AreAssetsDeployed : bool;
  IsInitialBlockDownload : bool
}.

Inductive HeaderError :=
| BadForkPriorToMaxReorgDepth
| BadAlgoId
| BadDiff
| BadDiffBits
| BadForkPriorToCheckpoint
| TimeTooOld
| TimeTooNew
| BadVersion
| BadBlockType.

Section Rules.
Variable env : NodeEnv.
Abbreviation params := (env_params env).

Definition IsDualAlgoEnabled (m : gmap ptr CBlockIndex) (pindexPrev : option ptr) : option bool :=
  match pindexPrev with
  | None => Some false
  | Some p => b ← m !! p; Some (nTime b >? pow_powForkTime params)
  end.

(** The checkpoint with the greatest height whose block is known. *)
Definition GetLastCheckpoint (m : gmap ptr CBlockIndex) : option ptr :=
  snd <$> List.find (fun e => bool_decide (is_Some (m !! e.2))) (rev (mapCheckpoints env)).

(** A fork deeper than the limit is refused by a node with enough peers
    whose tip is recent. *)
Definition reorg_too_deep (m : gmap ptr CBlockIndex) (chain : CChain) (nHeight : Z) : option bool :=
  if nMaxReorgDepth env <=? Height chain - (nHeight - 1) then
    match nNodeCount env with
    | None => Some false
    | Some n =>
        t ← Tip chain; bt ← m !! t;
        Some ((nMinReorgPeers env <=? n) && (env_GetTime env - nTime bt <=? nMinReorgAge env))
    end
  else Some false.

(** The difficulty the header must claim. *)
Definition header_work (m : gmap ptr CBlockIndex) (block : CBlockHeader) (pindexPrev : ptr) : option (option HeaderError) :=
  dual ← IsDualAlgoEnabled m (Some pindexPrev);
  if dual : bool then
    let powType := GetPoWType (hdr_nVersion block) in
    if NUM_BLOCK_TYPES <=? powType then Some (Some BadAlgoId)
    else
      bits ← GetNextWorkRequiredLWMA m params pindexPrev (hdr_nTime block) powType;
      Some (if hdr_nBits block =? bits then None else Some BadDiff)
  else
    bits ← GetNextWorkRequired m params (IsDGWActive env) pindexPrev (hdr_nTime block);
    Some (if hdr_nBits block =? bits then None else Some BadDiffBits).

Definition max_future_block_time (dgw dual : bool) : Z :=
  if dual then MAX_FUTURE_BLOCK_TIME_DUAL_ALGO
  else if dgw then MAX_FUTURE_BLOCK_TIME_DGW else MAX_FUTURE_BLOCK_TIME.

(** [Some None] is acceptance. *)
Definition ContextualCheckBlockHeader (m : gmap ptr CBlockIndex) (chain : CChain) (block : CBlockHeader)
    (pindexPrev : ptr) : option (option HeaderError) :=
  prev ← m !! pindexPrev;
  let height := nHeight prev + 1 in
  deep ← reorg_too_deep m chain height;
  if deep : bool then Some (Some BadForkPriorToMaxReorgDepth)
  else
    work ← header_work m block pindexPrev;
    match work with
    | Some e => Some (Some e)
    | None =>
        old ← (if fCheckpointsEnabled env then
                 match GetLastCheckpoint m with
                 | None => Some false
                 | Some c => bc ← m !! c; Some (height <? nHeight bc)
                 end
               else Some false);
        if old : bool then Some (Some BadForkPriorToCheckpoint)
        else
          median ← GetMedianTimePast m pindexPrev;
          if hdr_nTime block <=? median then Some (Some TimeTooOld)
          else
            dual ← IsDualAlgoEnabled m (Some pindexPrev);
            if nAdjustedTime env + max_future_block_time (IsDGWActive env height) dual <? hdr_nTime block
            then Some (Some TimeTooNew)
            else if AreAssetsDeployed env && (hdr_nVersion block <? VERSIONBITS_TOP_BITS_ASSETS)
            then Some (Some BadVersion)
            else if dual && (NUM_BLOCK_TYPES <=? GetPoWType (hdr_nVersion block))
            then Some (Some BadBlockType)
            else Some None
    end.

(** [CheckPoW]: the hash of the cache may be wrong; a failure is checked
    again with the computed hash. *)
Definition CheckPoW (cached hash : list Z) (block : CBlockHeader) : option bool :=
  ok ← CheckHeaderProofOfWork cached block params;
  if ok : bool then Some true else CheckHeaderProofOfWork hash block params.

Definition CheckBlockHeader (cached hash : list Z) (block : CBlockHeader) (fCheckPOW : bool) : option bool :=
  if fCheckPOW then CheckPoW cached hash block else Some true.

End Rules.

(** ** [AcceptBlockHeader] *)

Section Accept.
Context {W : Type}.
Variable addr : ptr -> Z.
Variable L : Ledger W.
Variable env : NodeEnv.
Implicit Types s : ChainState W.

(** [while (invalid_walk != failedit)]. *)
Fixpoint AcceptBlockHeader_mark (fuel : nat) (failedit invalid_walk : ptr) s : option (ChainState W) :=
  if decide (invalid_walk = failedit) then Some s
  else match fuel with
       | O => None
       | S fuel =>
           b ← blocks s !! invalid_walk;
           s ← change invalid_walk (set_flag BLOCK_FAILED_CHILD) s;
           q ← pprev b;
           AcceptBlockHeader_mark fuel failedit q (dirty invalid_walk s)
       end.

(** [for (failedit : g_failed_blocks)]; [Some (true, s)] when one of them is
    an ancestor of the parent. *)
Fixpoint AcceptBlockHeader_failed (l : list ptr) (pindexPrev : ptr) s : option (bool * ChainState W) :=
  match l with
  | [] => Some (false, s)
  | failedit :: l =>
      f ← blocks s !! failedit;
      a ← GetAncestor (blocks s) pindexPrev (nHeight f);
      if decide (a = Some failedit) then
        if has_flag f BLOCK_FAILED_VALID then
          b ← blocks s !! pindexPrev;
          s ← AcceptBlockHeader_mark (Z.to_nat (nHeight b)) failedit pindexPrev s;
          Some (true, s)
        else None
      else AcceptBlockHeader_failed l pindexPrev s
  end.

(** A set of pointers is in the order of the addresses. *)
Definition by_address (p q : ptr) : Prop := addr p <= addr q.
#[local] Instance by_address_dec : RelDecision by_address := fun p q => Z_le_dec (addr p) (addr q).

Definition insert_header (hash : Z) (block : CBlockHeader) s : option (bool * option ptr * ChainState W) :=
  '(st, p) ← AddToBlockIndex (block_index s) hash block;
  Some (true, Some p, with_block_index (fun _ => st) s).

(** [hash] is [block.GetHash()] as a key of the block index, [cached] and
    [powhash] the bytes of the same hash from the cache and computed; the
    results are the return value and [*ppindex]. *)
Definition AcceptBlockHeader (hash : Z) (cached powhash : list Z) (block : CBlockHeader) s :
    option (bool * option ptr * ChainState W) :=
  if decide (hash = hashGenesisBlock env) then insert_header hash block s
  else match blocks s !! hash with
       | Some b => Some (negb (has_flag b BLOCK_FAILED_MASK), Some hash, s)
       | None =>
           pow ← (if IsInitialBlockDownload env then Some true else CheckBlockHeader env cached powhash block true);
           if negb pow then Some (false, None, s)
           else match blocks s !! hdr_hashPrevBlock block with
                | None => Some (false, None, s)
                | Some prev =>
                    if has_flag prev BLOCK_FAILED_MASK then Some (false, None, s)
                    else
                      e ← ContextualCheckBlockHeader env (blocks s) (chainActive s) block (hdr_hashPrevBlock block);
                      match e with
                      | Some _ => Some (false, None, s)
                      | None =>
                          '(failed, s) ← (if IsValid prev BLOCK_VALID_SCRIPTS then Some (false, s)
                                          else AcceptBlockHeader_failed
                                                 (merge_sort by_address (elements (g_failed_blocks s)))
                                                 (hdr_hashPrevBlock block) s);
                          if failed : bool then Some (false, None, s) else insert_header hash block s
                      end
                end
       end.

(** ** [AcceptBlock] and [ProcessNewBlock] *)

(** What [CheckBlock] and [ContextualCheckBlock] say of the block: a
    rejection may be permanent ([IsInvalid] and not [CorruptionPossible]), and
    may be for the one reason that loading from disk ignores. *)
Inductive CheckResult :=
| Passes
| Fails (permanent ignorable : bool).

(** A block: its header and hashes, the number of its transactions, and the
    results of its checks and of finding a place on disk. *)
Record BlockArrival := mkArrival {
  arr_hash : Z;
  arr_cached : list Z;
  arr_powhash : list Z;
  arr_header : CBlockHeader;
  arr_block : list Z;                (* the block itself *)
  arr_tx : Z;
  arr_witness : bool;                (* IsWitnessEnabled for its parent *)
  arr_first_check : bool;            (* CheckBlock in ProcessNewBlock *)
  arr_checked : CheckResult;
  arr_pos : option (Z * Z)           (* FindBlockPos *)
}.

(** The reasons for which a block that was not requested is left alone. *)
Definition unwanted (fHasMoreWork fTooFarAhead : bool) (b : CBlockIndex) : bool :=
  negb (nTx b =? 0) || negb fHasMoreWork || fTooFarAhead ||
  (CompareTo W256 (nChainWork b) (nMinimumChainWork env) <? 0).

(** The results are the return value and [fNewBlock]. *)
Definition AcceptBlock (a : BlockArrival) (fRequested fFromLoad : bool) s : option (bool * bool * ChainState W) :=
  '(ok, ppindex, s) ← AcceptBlockHeader (arr_hash a) (arr_cached a) (arr_powhash a) (arr_header a) s;
  if negb ok then Some (false, false, s)
  else
    p ← ppindex;
    b ← blocks s !! p;
    fHasMoreWork ← (match Tip (chainActive s) with
                    | Some t => bt ← blocks s !! t; Some (0 <? CompareTo W256 (nChainWork b) (nChainWork bt))
                    | None => Some true
                    end);
    let fTooFarAhead := Height (chainActive s) + MIN_BLOCKS_TO_KEEP <? nHeight b in
    if has_flag b BLOCK_HAVE_DATA then Some (true, false, s)
    else if negb fRequested && unwanted fHasMoreWork fTooFarAhead b then Some (true, false, s)
    else
      let store :=
        match arr_pos a with
        | None => Some (false, true, s)
        | Some (file, pos) =>
            s ← ReceivedBlockTransactions addr (arr_witness a) p (arr_tx a) file pos s;
            Some (true, true, s)
        end in
      match arr_checked a with
      | Passes => store
      | Fails permanent ignorable =>
          if fFromLoad && ignorable then store
          else if permanent then
            s ← change p (set_flag BLOCK_FAILED_VALID) s;
            Some (false, true, dirty p s)
          else Some (false, true, s)
      end.

(** The results are the return value and [fNewBlock]. *)
Definition ProcessNewBlock (fuel : nat) (a : BlockArrival) (fForceProcessing : bool) s :
    option (bool * bool * ChainState W) :=
  if arr_first_check a then
    '(ret, fNewBlock, s) ← AcceptBlock a fForceProcessing false s;
    if negb ret then Some (false, fNewBlock, s)
    else
      '(ok, s) ← ActivateBestChain addr L fuel (Some (arr_hash a, arr_block a)) s;
      Some (ok : bool, fNewBlock, s)
  else Some (false, false, s).

End Accept.
