(* ===== verification/BlockCheck.v ===== *)
(** * Checks of a whole block ([CheckBlock], [ContextualCheckBlock] and the
      witness commitment in [src/validation.cpp])

    The rules that need the transactions of a block and its parent, but not
    the coins.  A rejection says whether the block may only have been
    damaged on its way ([CorruptionPossible]): then another block with the
    same header may still be valid, and the header is not marked as failed. *)

From Stdlib Require Import String.
From stdpp Require Import gmap.
From S2P Require Import Prelude Bytes Coins Serialize TxFormat Script AssetFormat Money Hashes Merkle Chain MedianTime.
From S2P Require Import TxVerify Ans AssetTx TxCheck TxAssets BestChain AcceptBlock.

Open Scope checked_scope.

Definition MAX_BLOCK_SIGOPS_COST : Z := 80000.
Definition GetMaxBlockWeight : Z := MAX_BLOCK_WEIGHT_RIP2.
(** Script bytes before the hash of a witness commitment: [OP_RETURN], the
    length and the four bytes of the marker. *)
Definition commitment_header : list Z := [OP_RETURN; 0x24; 0xaa; 0x21; 0xa9; 0xed].
Definition MINIMUM_WITNESS_COMMITMENT : nat := 38.

Record Rejection := mkRejection { reject_reason : string; corruption : bool }.
Abbreviation BlockChecked := (Checked Rejection).

(** ** Hashes of a block *)

(** The hash of two nodes of a merkle tree. *)
Definition hash_pair (a b : Z) : Z := le_decode (Hash [le_encode 32 a; le_encode 32 b]).

Definition GetWitnessHash (tx : CTransaction) : Z :=
  if HasWitness tx then le_decode (Hash [SerializeTransaction true tx]) else GetHash tx.

Definition block_merkle_root (block : CBlock) : option (Z * bool) := BlockMerkleRoot hash_pair 0 (map GetHash (vtx block)).
Definition block_witness_root (block : CBlock) : option (Z * bool) :=
  BlockWitnessMerkleRoot hash_pair 0 (map GetWitnessHash (vtx block)).

(** Sizes of blocks are far below the range of [size_t]. *)
Definition block_size (fAllowWitness : bool) (block : CBlock) : Z := Z.of_nat (length (encode (CBlock_codec fAllowWitness) block)).
Definition GetBlockWeight (block : CBlock) : Z := block_size false block * (WITNESS_SCALE_FACTOR - 1) + block_size true block.

Definition block_sigops (block : CBlock) : Z := fold_left (fun n tx => u32 (n + GetLegacySigOpCount tx)) (vtx block) 0.

(** The fields that the proof of work and the block index read. *)
Definition index_header (h : BlockHeader) : CBlockHeader := mkHeader (bh_nVersion h) (bh_hashPrevBlock h) (bh_nTime h) (bh_nBits h).

(** ** The witness commitment *)

Definition is_commitment (script : list Z) : bool :=
  (MINIMUM_WITNESS_COMMITMENT <=? length script)%nat && bool_decide (take 6 script = commitment_header).

Fixpoint last_commitment (o : Z) (outs : list CTxOut) (commitpos : Z) : Z :=
  match outs with
  | [] => commitpos
  | out :: outs => last_commitment (o + 1) outs (if is_commitment (scriptPubKey out) then o else commitpos)
  end.

Definition GetWitnessCommitmentIndex (block : CBlock) : Z :=
  match vtx block with
  | [] => -1
  | coinbase :: _ => last_commitment 0 (vout coinbase) (-1)
  end.

Definition zero_nonce : list Z := replicate 32 0.

Definition with_vtx (block : CBlock) (txs : list CTransaction) : CBlock := mkBlock (block_header block) txs.

Section Commitment.
Variable nSegwitEnabled : bool.

(** [None]: the coinbase has no input. *)
Definition UpdateUncommittedBlockStructures (block : CBlock) : option CBlock :=
  match vtx block with
  | coinbase :: rest =>
      if negb (GetWitnessCommitmentIndex block =? -1) && nSegwitEnabled && negb (HasWitness coinbase) then
        match vin coinbase with
        | i :: ins =>
            Some (with_vtx block
                    (mkTransaction (with_witness i [zero_nonce] :: ins) (vout coinbase) (tx_nVersion coinbase) (nLockTime coinbase) :: rest))
        | [] => None
        end
      else Some block
  | [] => Some block
  end.

Definition commitment_hash (hashWitness : Z) (nonce : list Z) : list Z := Hash [le_encode 32 hashWitness; nonce].

(** The commitment and the block with it; an empty block has no coinbase to
    put it in. *)
Definition GenerateCoinbaseCommitment (block : CBlock) : option (list Z * CBlock) :=
  '(commitment, block) ←
    (if nSegwitEnabled && (GetWitnessCommitmentIndex block =? -1) then
       '(witnessroot, _) ← block_witness_root block;
       match vtx block with
       | coinbase :: rest =>
           let script := commitment_header ++ commitment_hash witnessroot zero_nonce in
           Some (script, with_vtx block
             (mkTransaction (vin coinbase) (vout coinbase ++ [mkTxOut 0 script]) (tx_nVersion coinbase) (nLockTime coinbase) :: rest))
       | [] => None
       end
     else Some ([], block));
  block ← UpdateUncommittedBlockStructures block;
  Some (commitment, block).

(** Whether the block commits to its witnesses.  The mutation of the witness
    tree is ignored. *)
Definition check_commitment (block : CBlock) : BlockChecked bool :=
  let commitpos := GetWitnessCommitmentIndex block in
  if nSegwitEnabled && negb (commitpos =? -1) then
    match block_witness_root block, vtx block with
    | Some (hashWitness, _), coinbase :: _ =>
        match vin coinbase with
        | [] => Abort
        | i :: _ =>
            let nonce := nth 0 (scriptWitness i) [] in
            ensure (length (scriptWitness i) =? 1)%nat && (length nonce =? 32)%nat or mkRejection "bad-witness-nonce-size" true;
            let script := scriptPubKey (nth (Z.to_nat commitpos) (vout coinbase) null_out) in
            ensure bool_decide (commitment_hash hashWitness nonce = take 32 (drop 6 script))
              or mkRejection "bad-witness-merkle-match" true;
            Accept true
        end
    | _, _ => Abort
    end
  else Accept false.

Definition check_witness (block : CBlock) : BlockChecked unit :=
  fHaveWitness <- check_commitment block;
  ensure fHaveWitness || negb (existsb HasWitness (vtx block)) or mkRejection "unexpected-witness" true;
  Accept tt.
End Commitment.

(** ** [CheckBlock] *)

Definition check_merkle_root (block : CBlock) : BlockChecked unit :=
  match block_merkle_root block with
  | None => Abort
  | Some (hashMerkleRoot2, mutated) =>
      ensure bh_hashMerkleRoot (block_header block) =? hashMerkleRoot2 or mkRejection "bad-txnmrklroot" true;
      ensure negb mutated or mkRejection "bad-txns-duplicate" true;
      Accept tt
  end.

Section CheckBlock.
Context `{AddressV4}.
Variable params : CChainParams.
Variable dep : Deployments.
Variable founderPayment : FounderPayment.
Variable nSubsidyHalvingInterval : Z.
Variable env : NodeEnv.
(** The proof-of-work hash of a header, from the cache and computed. *)
Variables cached_hash GetPoWHash : BlockHeader -> list Z.
Variables nCSVEnabled nSegwitEnabled : bool.

Fixpoint check_transactions (nHeight blockReward : Z) (txs : list CTransaction) : BlockChecked unit :=
  match txs with
  | [] => Accept tt
  | tx :: txs =>
      match CheckTransaction params dep founderPayment tx nHeight blockReward true false true with
      | Accept _ => check_transactions nHeight blockReward txs
      | Reject reason => Reject (mkRejection reason false)
      | Abort => Abort
      end
  end.

Definition check_header (fCheckPOW : bool) (h : BlockHeader) : BlockChecked unit :=
  match CheckBlockHeader env (cached_hash h) (GetPoWHash h) (index_header h) fCheckPOW with
  | None => Abort
  | Some ok => ensure ok or mkRejection "high-hash" false; Accept tt
  end.

(** The result is the flag [fChecked] of the block, which may be set
    already. *)
Definition CheckBlock (fChecked : bool) (block : CBlock) (nHeight : Z) (fCheckPOW fCheckMerkleRoot : bool) : BlockChecked bool :=
  if fChecked then Accept true
  else
    _ <- check_header fCheckPOW (block_header block);
    _ <- (if fCheckMerkleRoot then check_merkle_root block else Accept tt);
    ensure negb (bool_decide (vtx block = []) || (Z.of_nat (length (vtx block)) * WITNESS_SCALE_FACTOR >? GetMaxBlockWeight) ||
                 (block_size false block * WITNESS_SCALE_FACTOR >? GetMaxBlockWeight))
      or mkRejection "bad-blk-length" false;
    ensure (match vtx block with coinbase :: _ => IsCoinBase coinbase | [] => false end) or mkRejection "bad-cb-missing" false;
    ensure negb (existsb IsCoinBase (drop 1 (vtx block))) or mkRejection "bad-cb-multiple" false;
    _ <- check_transactions nHeight (GetBlockSubsidy nHeight nSubsidyHalvingInterval) (vtx block);
    ensure negb (u32 (block_sigops block * WITNESS_SCALE_FACTOR) >? MAX_BLOCK_SIGOPS_COST) or mkRejection "bad-blk-sigops" false;
    Accept (fCheckPOW && fCheckMerkleRoot).

(** ** [ContextualCheckBlock] *)

(** Unique assets that cannot be read. *)
Definition unreadable_unique (out : CTxOut) : bool :=
  IsScriptNewUniqueAsset (scriptPubKey out) && negb (bool_decide (is_Some (AssetFromScript (scriptPubKey out)))).

Fixpoint check_finality (nHeight nLockTimeCutoff : Z) (txs : list CTransaction) : BlockChecked unit :=
  match txs with
  | [] => Accept tt
  | tx :: txs =>
      ensure IsFinalTx tx nHeight nLockTimeCutoff or mkRejection "bad-txns-nonfinal" false;
      ensure negb (tx_IsReissueAsset tx) || bool_decide (is_Some (ReissueAssetFromScript (last_script tx)))
        or mkRejection "bad-txns-reissue-asset" false;
      ensure negb (IsNewUniqueAsset tx && existsb unreadable_unique (vout tx)) or mkRejection "bad-txns-issue-unique-asset" false;
      check_finality nHeight nLockTimeCutoff txs
  end.

(** The height of the block and the time against which lock times are
    compared. *)
Definition lock_context (m : gmap ptr CBlockIndex) (pindexPrev : option ptr) (h : BlockHeader) : option (Z * Z) :=
  match pindexPrev with
  | None => Some (0, bh_nTime h)
  | Some p =>
      prev ← m !! p;
      cutoff ← (if nCSVEnabled then GetMedianTimePast m p else Some (bh_nTime h));
      Some (nHeight prev + 1, cutoff)
  end.

Definition ContextualCheckBlock (m : gmap ptr CBlockIndex) (pindexPrev : option ptr) (block : CBlock) : BlockChecked unit :=
  match lock_context m pindexPrev (block_header block) with
  | None => Abort
  | Some (nHeight, nLockTimeCutoff) =>
      _ <- check_finality nHeight nLockTimeCutoff (vtx block);
      _ <- check_witness nSegwitEnabled block;
      ensure negb (GetBlockWeight block >? GetMaxBlockWeight) or mkRejection "bad-blk-weight" false;
      Accept tt
  end.

(** ** A block that arrives

    [ProcessNewBlock] checks the block by itself; [AcceptBlock] repeats the
    check, which the flag [fChecked] makes trivial, and goes on with the rules
    that depend on the parent. *)

Definition check_again (fChecked : bool) (m : gmap ptr CBlockIndex) (pindexPrev : option ptr) (block : CBlock) : BlockChecked unit :=
  _ <- CheckBlock fChecked block 1 true true; ContextualCheckBlock m pindexPrev block.

Definition check_result (r : BlockChecked unit) : option CheckResult :=
  match r with
  | Accept _ => Some Passes
  | Reject e => Some (Fails (negb (corruption e)) (bool_decide (reject_reason e = "bad-txns-transfer-asset-bad-deserialize"%string)))
  | Abort => None
  end.

(** [None] is an abort.  A block that fails the first check is not checked
    again. *)
Definition block_arrival (m : gmap ptr CBlockIndex) (pindexPrev : option ptr) (hash : Z) (pos : option (Z * Z)) (block : CBlock) :
    option BlockArrival :=
  let arrival first checked :=
    mkArrival hash (cached_hash (block_header block)) (GetPoWHash (block_header block)) (index_header (block_header block))
      (encode (CBlock_codec true) block) (Z.of_nat (length (vtx block))) nSegwitEnabled first checked pos in
  match CheckBlock false block 0 true true with
  | Abort => None
  | Reject e => Some (arrival false (Fails (negb (corruption e)) false))
  | Accept fChecked => checked ← check_result (check_again fChecked m pindexPrev block); Some (arrival true checked)
  end.
End CheckBlock.
