(* ===== verification/BlockMalleation.v ===== *)
(** * Damaged blocks and their headers

    A header fixes the transactions through the merkle root, and the
    coinbase fixes their witnesses through the commitment.  A block with the
    header of a valid block is that block, or it is rejected as possibly
    damaged, so that it cannot bring the header into disrepute; and the
    commitment that the node generates passes its own check. *)

From Stdlib Require Import String.
From stdpp Require Import gmap.
From S2P Require Import Prelude ArithUint256 Compact Bytes Coins Serialize TxFormat Script AssetFormat Money Hashes Base58 Merkle MerkleCommit Chain MedianTime.
From S2P Require Import TxVerify Ans AssetTx TxCheck TxAssets SigCommit Pow PowTargets TokenRules BestChain AcceptBlock BlockCheck.

Open Scope checked_scope.
Set Default Proof Using "Type".
#[local] Opaque Hash.

(** ** What does not depend on witnesses *)

Lemma encode_vin_strip ins : encode vin_codec (map (fun i => with_witness i []) ins) = encode vin_codec ins.
Proof.
  unfold vin_codec. cbn [encode vector_codec]. unfold vector_encode. rewrite length_map, map_map. done.
Qed.

Lemma SerializeTransaction_strip tx : SerializeTransaction false (strip_witness tx) = SerializeTransaction false tx.
Proof.
  rewrite !SerializeTransaction_basic by done. unfold strip_witness. cbn [vin vout tx_nVersion nLockTime].
  by rewrite encode_vin_strip.
Qed.

Lemma IsCoinBase_strip tx : IsCoinBase (strip_witness tx) = IsCoinBase tx.
Proof. unfold IsCoinBase, strip_witness. cbn [vin]. by destruct (vin tx) as [| i [| j ins]]. Qed.

Lemma IsFinalTx_strip tx h t : IsFinalTx (strip_witness tx) h t = IsFinalTx tx h t.
Proof. unfold IsFinalTx. cbn [strip_witness nLockTime vin]. do 2 (case_match; [done |]). induction (vin tx) as [| i ins IH]; [done |]. cbn [map forallb]. by rewrite IH. Qed.

Lemma GetLegacySigOpCount_strip tx : GetLegacySigOpCount (strip_witness tx) = GetLegacySigOpCount tx.
Proof.
  unfold GetLegacySigOpCount. cbn [strip_witness vin vout]. f_equal. generalize 0. induction (vin tx) as [| i ins IH]; intros n; [done |].
  cbn [map fold_left]. by rewrite IH.
Qed.

Section Strip.
Context `{AddressV4}.
Variable params : CChainParams.
Variable dep : Deployments.
Variable founderPayment : FounderPayment.

Lemma CheckTransaction_strip tx h r dup pool blk :
  CheckTransaction params dep founderPayment (strip_witness tx) h r dup pool blk = CheckTransaction params dep founderPayment tx h r dup pool blk.
Proof.
  unfold CheckTransaction. rewrite SerializeTransaction_strip.
  assert (bool_decide (vin (strip_witness tx) = []) = bool_decide (vin tx = [])) as ->
    by (apply bool_decide_ext; cbn; destruct (vin tx); cbn; naive_solver).
  assert (TxVerify.prevouts (strip_witness tx) = TxVerify.prevouts tx) as -> by (unfold TxVerify.prevouts; cbn; by rewrite map_map).
  assert (check_coinbase dep founderPayment (strip_witness tx) h r = check_coinbase dep founderPayment tx h r) as ->.
  { unfold check_coinbase. rewrite IsCoinBase_strip. cbn [strip_witness vin vout].
    replace (existsb _ (map _ (vin tx))) with (existsb (fun i => COutPoint_IsNull (prevout i)) (vin tx))
      by (induction (vin tx) as [| i ins IH]; [done |]; cbn [map existsb]; by rewrite IH).
    by destruct (vin tx). }
  reflexivity.
Qed.

Lemma check_transactions_strip h r txs :
  check_transactions params dep founderPayment h r (map strip_witness txs) = check_transactions params dep founderPayment h r txs.
Proof. induction txs as [| tx txs IH]; [done |]. cbn [map check_transactions]. by rewrite CheckTransaction_strip, IH. Qed.
End Strip.

Lemma check_finality_strip h t txs : check_finality h t (map strip_witness txs) = check_finality h t txs.
Proof. induction txs as [| tx txs IH]; [done |]. cbn [map check_finality]. by rewrite IsFinalTx_strip, IH. Qed.

(** ** The hash function and the strings of a block *)

Definition pair_bytes (x : Z * Z) : list Z := le_encode 32 x.1 ++ le_encode 32 x.2.

Definition witness_leaves (b : CBlock) : list Z := 0 :: map GetWitnessHash (drop 1 (vtx b)).

Definition nonce_of (b : CBlock) : list Z :=
  match vtx b with
  | coinbase :: _ => match vin coinbase with i :: _ => nth 0 (scriptWitness i) [] | [] => [] end
  | [] => []
  end.

Definition commitment_preimage (b : CBlock) : list Z :=
  (match block_witness_root b with Some (root, _) => le_encode 32 root | None => [] end) ++ nonce_of b.

(** Everything that is hashed to check the block. *)
Definition hashed (b : CBlock) : list (list Z) :=
  map (SerializeTransaction false) (vtx b) ++ map (SerializeTransaction true) (vtx b) ++
  map pair_bytes (tree_pairs hash_pair 0 (map GetHash (vtx b))) ++
  map pair_bytes (tree_pairs hash_pair 0 (witness_leaves b)) ++ [commitment_preimage b].

(** The hash function tells the strings of a list apart. *)
Definition collision_free (l : list (list Z)) : Prop := forall x y, x ∈ l -> y ∈ l -> separates x y.

Lemma digest_inj parts parts' : le_decode (Hash parts) = le_decode (Hash parts') -> Hash parts = Hash parts'.
Proof.
  intros E. rewrite <- (le_encode_decode (Hash parts)), <- (le_encode_decode (Hash parts')) by apply Hash_bytes.
  by rewrite !Hash_length, E.
Qed.

Lemma digest_range parts : hash_range (le_decode (Hash parts)).
Proof. pose proof (le_decode_range (Hash parts) (Hash_bytes parts)) as Hr. rewrite Hash_length in Hr. exact Hr. Qed.

Lemma le_encode_inj x y : hash_range x -> hash_range y -> le_encode 32 x = le_encode 32 y -> x = y.
Proof.
  intros Hx Hy E. apply (f_equal le_decode) in E. rewrite !le_decode_encode in E. unfold hash_range in *.
  change (256 ^ Z.of_nat 32) with (2 ^ 256) in E. by rewrite !Z.mod_small in E by lia.
Qed.

Lemma hash_pair_bytes x : hash_pair x.1 x.2 = le_decode (Hash [pair_bytes x]).
Proof. unfold hash_pair, pair_bytes. by rewrite Hash_concat; cbn [concat]; rewrite app_nil_r. Qed.

Lemma hash_pair_injective l pairs : collision_free l -> map pair_bytes pairs ⊆ l ->
  Forall (fun x => hash_range x.1 /\ hash_range x.2) pairs -> injective_on hash_pair pairs.
Proof.
  intros Hc Hs Hr x y Hx Hy E. rewrite !hash_pair_bytes in E. apply digest_inj in E.
  rewrite Forall_forall in Hr. destruct (Hr x Hx) as [Hx1 Hx2], (Hr y Hy) as [Hy1 Hy2].
  apply Hc in E; [| apply Hs, list_elem_of_fmap; eauto | apply Hs, list_elem_of_fmap; eauto].
  unfold pair_bytes in E. apply app_inj_1 in E as [E1 E2]; [| by rewrite !length_le_encode].
  apply le_encode_inj in E1; [| done | done]. apply le_encode_inj in E2; [| done | done].
  destruct x, y. cbn in *. congruence.
Qed.

Lemma tree_pairs_range leaves : Forall hash_range leaves ->
  Forall (fun x => hash_range x.1 /\ hash_range x.2) (tree_pairs hash_pair 0 leaves).
Proof. apply tree_pairs_Forall; [intros a b; apply digest_range | done]. Qed.

Lemma root_range leaves l p : Forall hash_range leaves -> hash_range (node hash_pair 0 leaves l p).
Proof. intros Hl. destruct l as [| l]; [| apply digest_range]. cbn. unfold leaf. by apply Forall_nth_default. Qed.

Lemma txids_range txs : Forall hash_range (map GetHash txs).
Proof. apply Forall_map, Forall_forall. intros tx _. apply digest_range. Qed.

Lemma witness_leaves_range b : Forall hash_range (witness_leaves b).
Proof.
  constructor; [done |]. apply Forall_map, Forall_forall. intros tx _. unfold GetWitnessHash, GetHash.
  destruct (HasWitness tx); apply digest_range.
Qed.

(** ** The header fixes the transactions *)

Definition block_ok (b : CBlock) : Prop := header_ok (block_header b) /\ size_ok (vtx b) /\ Forall wire_tx (vtx b).

(** The length of the first transaction, without its witness. *)
Definition coinbase_size (b : CBlock) : nat :=
  match vtx b with coinbase :: _ => length (SerializeTransaction false coinbase) | [] => 0%nat end.

Lemma map_determined {A B C} (f : A -> B) (g : A -> C) l l' :
  (forall x y, x ∈ l -> y ∈ l' -> f x = f y -> g x = g y) -> map f l = map f l' -> map g l = map g l'.
Proof.
  revert l'. induction l as [| x l IH]; intros [| y l'] Hd E; try done. cbn in E |- *. injection E as E1 E2. f_equal.
  - apply Hd; [set_solver | set_solver | done].
  - apply IH; [| done]. intros u v Hu Hv. apply Hd; set_solver.
Qed.

Lemma ser_strip tx tx' : wire_tx tx -> wire_tx tx' -> SerializeTransaction false tx = SerializeTransaction false tx' ->
  strip_witness tx = strip_witness tx'.
Proof.
  intros [H _] [H' _] E. pose proof (transaction_read false tx [] H ltac:(auto)) as R.
  rewrite E, (transaction_read false tx' [] H' ltac:(auto)) in R.
  symmetry. exact (f_equal (from_option fst tx) R).
Qed.

Lemma vtx_bound b : size_ok (vtx b) -> Z.of_nat (length (vtx b)) <= 2 ^ 31.
Proof. unfold size_ok, MAX_SIZE. lia. Qed.

Lemma check_merkle_root_spec b : size_ok (vtx b) -> vtx b <> [] -> check_merkle_root b = Accept tt ->
  bh_hashMerkleRoot (block_header b) = node hash_pair 0 (map GetHash (vtx b)) (levels (map GetHash (vtx b))) 0 /\
  ~ has_equal_pair hash_pair 0 (map GetHash (vtx b)) (Z.of_nat (length (map GetHash (vtx b)))).
Proof.
  intros Hs Hne. pose proof (vtx_bound b Hs). unfold check_merkle_root, block_merkle_root, BlockMerkleRoot.
  destruct (root_spec hash_pair 0 (map GetHash (vtx b))) as (mut & -> & Hm);
    [rewrite length_map; destruct (vtx b); cbn in *; [done | lia] |].
  intros Hc. accepted Hc. apply Z.eqb_eq in Hb. split; [done |]. rewrite <- Hm. by destruct mut.
Qed.

Lemma ser_in c (allow : bool) tx : tx ∈ vtx c -> SerializeTransaction allow tx ∈ hashed c.
Proof.
  intros Hx. unfold hashed. destruct allow; rewrite !elem_of_app; [right; left | left];
    apply list_elem_of_fmap; eauto.
Qed.

(** A transaction that is an inner node of a tree has the length of one. *)
Lemma first_leaf_inner c d x : (forall u v, u ∈ hashed c -> v ∈ hashed d -> separates u v) -> vtx c <> [] ->
  x ∈ tree_pairs hash_pair 0 (map GetHash (vtx d)) -> nth 0 (map GetHash (vtx c)) 0 = hash_pair x.1 x.2 -> coinbase_size c = 64%nat.
Proof.
  intros Hf Hne Hx E. unfold coinbase_size. assert (exists tx txs, vtx c = tx :: txs) as (tx & txs & Ec).
  { clear -Hne. destruct (vtx c) as [| tx txs]; [by destruct Hne | by exists tx, txs]. }
  rewrite Ec in *. change (nth 0 (map GetHash (tx :: txs)) 0) with (le_decode (Hash [SerializeTransaction false tx])) in E.
  rewrite hash_pair_bytes in E. apply digest_inj in E. apply Hf in E.
  - rewrite E. unfold pair_bytes. by rewrite length_app, !length_le_encode.
  - apply (ser_in c false). rewrite Ec. constructor.
  - unfold hashed. rewrite !elem_of_app. right; right; left. apply list_elem_of_fmap. eauto.
Qed.

Section Headers.
Variables b b' : CBlock.
Hypothesis free : collision_free (hashed b ++ hashed b').
Hypothesis ok : block_ok b.
Hypothesis ok' : block_ok b'.

Lemma in_hashed x : x ∈ hashed b \/ x ∈ hashed b' -> x ∈ hashed b ++ hashed b'.
Proof. apply elem_of_app. Qed.

Lemma txid_pairs_injective :
  injective_on hash_pair (tree_pairs hash_pair 0 (map GetHash (vtx b)) ++ tree_pairs hash_pair 0 (map GetHash (vtx b'))).
Proof using free.
  apply (hash_pair_injective _ _ free).
  - intros x. rewrite map_app, elem_of_app. unfold hashed. rewrite !elem_of_app. tauto.
  - apply Forall_app. split; apply tree_pairs_range, txids_range.
Qed.

Lemma witness_pairs_injective :
  injective_on hash_pair (tree_pairs hash_pair 0 (witness_leaves b) ++ tree_pairs hash_pair 0 (witness_leaves b')).
Proof using free.
  apply (hash_pair_injective _ _ free).
  - intros x. rewrite map_app, elem_of_app. unfold hashed. rewrite !elem_of_app. tauto.
  - apply Forall_app. split; apply tree_pairs_range, witness_leaves_range.
Qed.

(** The transactions of the two blocks agree but for their witnesses. *)
Lemma stripped_fixed : bh_hashMerkleRoot (block_header b) = bh_hashMerkleRoot (block_header b') -> vtx b <> [] -> vtx b' <> [] ->
  coinbase_size b <> 64%nat -> coinbase_size b' <> 64%nat ->
  check_merkle_root b = Accept tt -> check_merkle_root b' = Accept tt ->
  map strip_witness (vtx b) = map strip_witness (vtx b').
Proof using free ok ok'.
  intros Eh Hne Hne' H64 H64' Hr Hr'. destruct ok as (_ & Hs & Hw), ok' as (_ & Hs' & Hw').
  apply check_merkle_root_spec in Hr as [Er Hm]; [| done | done]. apply check_merkle_root_spec in Hr' as [Er' Hm']; [| done | done].
  apply (map_determined GetHash).
  { intros x y Hx Hy E. rewrite Forall_forall in Hw, Hw'. apply ser_strip; [by apply Hw | by apply Hw' |].
    unfold GetHash in E. apply digest_inj in E. apply free in E; [exact E | |]; apply in_hashed; [left | right]; by apply (ser_in _ false). }
  assert (0 < length (map GetHash (vtx b)))%nat as Hl by (rewrite length_map; destruct (vtx b); cbn; [done | lia]).
  assert (0 < length (map GetHash (vtx b')))%nat as Hl' by (rewrite length_map; destruct (vtx b'); cbn; [done | lia]).
  rewrite Er, Er' in Eh. apply (unmutated_commits hash_pair 0); [assumption | assumption | | apply txid_pairs_injective | assumption | assumption | assumption].
  destruct (Nat.lt_trichotomy (levels (map GetHash (vtx b))) (levels (map GetHash (vtx b')))) as [Hlt | [? | Hlt]]; [exfalso | assumption | exfalso].
  - destruct (leaf_is_inner hash_pair 0 _ _ txid_pairs_injective (conj Hl Hl') Hlt Eh) as (x & Hx & E).
    apply H64, (first_leaf_inner b b' x); try assumption. intros u v Hu Hv. apply free; apply in_hashed; tauto.
  - destruct (leaf_is_inner hash_pair 0 (map GetHash (vtx b')) (map GetHash (vtx b))) as (x & Hx & E); try assumption.
    + intros x y Hx Hy. apply txid_pairs_injective; rewrite elem_of_app in *; tauto.
    + by split.
    + by symmetry.
    + apply H64', (first_leaf_inner b' b x); try assumption. intros u v Hu Hv. apply free; apply in_hashed; tauto.
Qed.
End Headers.

(** ** The commitment fixes the witnesses *)

Lemma no_witness_eq tx : HasWitness tx = false -> strip_witness tx = tx.
Proof. intros Hw. unfold strip_witness. unfold HasWitness in Hw. rewrite no_witness_strip by exact Hw. by destruct tx. Qed.

(** Without witnesses the two formats coincide. *)
Lemma GetWitnessHash_eq tx : GetWitnessHash tx = le_decode (Hash [SerializeTransaction true tx]).
Proof.
  unfold GetWitnessHash, GetHash. destruct (HasWitness tx) eqn:E; [reflexivity |].
  rewrite (SerializeTransaction_basic true tx) by exact E. by rewrite (SerializeTransaction_basic false tx) by reflexivity.
Qed.

Lemma ser_full tx tx' : wire_tx tx -> wire_tx tx' -> SerializeTransaction true tx = SerializeTransaction true tx' -> tx = tx'.
Proof.
  intros H H' E. pose proof (codec_ok (c := Transaction_codec true) tx [] H) as R.
  cbn [decode encode Transaction_codec] in R.
  pose proof (codec_ok (c := Transaction_codec true) tx' [] H') as R'. cbn [decode encode Transaction_codec] in R'.
  rewrite E, R' in R. symmetry. exact (f_equal (from_option fst tx) R).
Qed.

Lemma witness_root_spec b : size_ok (vtx b) -> vtx b <> [] -> exists mut,
  block_witness_root b = Some (node hash_pair 0 (witness_leaves b) (levels (witness_leaves b)) 0, mut).
Proof.
  intros Hs Hne. pose proof (vtx_bound b Hs) as Hb. unfold block_witness_root, BlockWitnessMerkleRoot, witness_leaves.
  assert (exists tx txs, vtx b = tx :: txs) as (tx & txs & E).
  { clear -Hne. destruct (vtx b) as [| tx txs]; [by destruct Hne | by exists tx, txs]. }
  rewrite E in *. cbn [map drop]. destruct (root_spec hash_pair 0 (0 :: map GetWitnessHash txs)) as (mut & Hr & _).
  - cbn [length] in *. rewrite length_map. lia.
  - exists mut. exact Hr.
Qed.

(** A block with a coinbase of one input. *)
Definition has_coinbase (b : CBlock) : Prop := exists tx txs i, vtx b = tx :: txs /\ vin tx = [i].

Lemma has_coinbase_nonempty b : has_coinbase b -> vtx b <> [].
Proof. intros (tx & txs & i & -> & _). discriminate. Qed.

(** What it means that a block with a commitment passes. *)
Lemma check_commitment_spec b : size_ok (vtx b) -> has_coinbase b -> GetWitnessCommitmentIndex b <> -1 ->
  let committed := take 32 (drop 6 (scriptPubKey (nth (Z.to_nat (GetWitnessCommitmentIndex b)) (vout (nth 0 (vtx b) (mkTransaction [] [] 0 0))) null_out))) in
  (exists reason, check_commitment true b = Reject (mkRejection reason true) /\ reason <> "bad-txns-transfer-asset-bad-deserialize"%string) \/
  (check_commitment true b = Accept true /\ Hash [commitment_preimage b] = committed /\
   length (nonce_of b) = 32%nat /\
   exists tx txs i, vtx b = tx :: txs /\ vin tx = [with_witness i [nonce_of b]]).
Proof.
  intros Hs Hc Hi. unfold check_commitment, commitment_preimage, nonce_of.
  destruct (witness_root_spec b Hs (has_coinbase_nonempty b Hc)) as (mut & ->). destruct Hc as (tx & txs & i & E & Ei).
  apply Z.eqb_neq in Hi. rewrite Hi, E, Ei. cbn [andb negb nth].
  destruct (length (scriptWitness i) =? 1)%nat eqn:E1; cbn [andb]; [| left; by eexists].
  destruct (length (nth 0 (scriptWitness i) []) =? 32)%nat eqn:E2; [| left; by eexists].
  case_bool_decide as E3; [right | left; by eexists].
  split; [reflexivity |]. unfold commitment_hash in E3. rewrite Hash_concat in E3. cbn [concat] in E3. rewrite app_nil_r in E3.
  apply Nat.eqb_eq in E1, E2. split; [exact E3 |]. split; [exact E2 |]. exists tx, txs, i. split; [reflexivity |].
  destruct i as [o sg q [| w [| ? ?]]]; cbn in E1; (discriminate || exact Ei).
Qed.

(** ** Blocks that differ in their witnesses only *)

Section SameTransactions.
Variables b b' : CBlock.
Hypothesis free : collision_free (hashed b ++ hashed b').
Hypothesis ok : block_ok b.
Hypothesis ok' : block_ok b'.
Hypothesis same_header : block_header b = block_header b'.
Hypothesis same_stripped : map strip_witness (vtx b) = map strip_witness (vtx b').

Lemma same_number : length (vtx b) = length (vtx b').
Proof using same_stripped. pose proof (f_equal length same_stripped) as E. by rewrite !length_map in E. Qed.

Lemma stripped_cons tx txs : vtx b = tx :: txs -> exists tx' txs', vtx b' = tx' :: txs' /\
  strip_witness tx = strip_witness tx' /\ map strip_witness txs = map strip_witness txs'.
Proof using same_stripped.
  intros E. pose proof same_stripped as Es. rewrite E in Es. destruct (vtx b') as [| tx' txs'] in Es |- *; [discriminate |].
  exists tx', txs'. split; [reflexivity |]. split; [exact (f_equal (hd tx) Es) | exact (f_equal (@tl _) Es)].
Qed.

Lemma strip_vout tx tx' : strip_witness tx = strip_witness tx' -> vout tx = vout tx'.
Proof. intros E. exact (f_equal vout E). Qed.

Lemma same_index : GetWitnessCommitmentIndex b = GetWitnessCommitmentIndex b'.
Proof using same_stripped.
  unfold GetWitnessCommitmentIndex. pose proof same_number as Hn. destruct (vtx b) as [| tx txs] eqn:E in Hn |- *.
  - by destruct (vtx b') in Hn |- *.
  - destruct (stripped_cons tx txs E) as (tx' & txs' & -> & Es & _). by rewrite (strip_vout tx tx' Es).
Qed.

Lemma preimage_in c : c = b \/ c = b' -> commitment_preimage c ∈ hashed b ++ hashed b'.
Proof. intros Hc. apply in_hashed. destruct Hc as [-> | ->]; [left | right]; unfold hashed; rewrite !elem_of_app; do 4 right; constructor. Qed.

(** Equal commitments have equal witnesses below the coinbase. *)
Lemma witnesses_fixed : has_coinbase b -> has_coinbase b' -> Hash [commitment_preimage b] = Hash [commitment_preimage b'] ->
  drop 1 (vtx b) = drop 1 (vtx b') /\ nonce_of b = nonce_of b'.
Proof using free ok ok' same_stripped.
  intros Hc Hc' E. destruct ok as (_ & Hs & Hw), ok' as (_ & Hs' & Hw').
  apply free in E; [| apply preimage_in; by left | apply preimage_in; by right].
  unfold commitment_preimage in E.
  destruct (witness_root_spec b Hs (has_coinbase_nonempty b Hc)) as (mut & Er).
  destruct (witness_root_spec b' Hs' (has_coinbase_nonempty b' Hc')) as (mut' & Er'). rewrite Er, Er' in E.
  apply app_inj_1 in E as [E En]; [| by rewrite !length_le_encode]. split; [| exact En].
  apply le_encode_inj in E; [| apply root_range, witness_leaves_range | apply root_range, witness_leaves_range].
  apply same_length_commits in E; [| | apply witness_pairs_injective; exact free | cbn [witness_leaves length]; lia].
  - unfold witness_leaves in E. injection E as E. rewrite <- (map_id (drop 1 (vtx b))), <- (map_id (drop 1 (vtx b'))).
    apply (map_determined GetWitnessHash); [| exact E]. intros x y Hx Hy Exy.
    apply (subseteq_drop 1) in Hx. apply (subseteq_drop 1) in Hy. rewrite Forall_forall in Hw, Hw'.
    rewrite !GetWitnessHash_eq in Exy. apply digest_inj in Exy. apply free in Exy.
    + apply ser_full; [by apply Hw | by apply Hw' | exact Exy].
    + apply in_hashed. left. by apply (ser_in b true).
    + apply in_hashed. right. by apply (ser_in b' true).
  - unfold witness_leaves. cbn [length]. rewrite !length_map, !length_drop, same_number. reflexivity.
Qed.

Lemma same_coinbase tx txs i tx' txs' i' w : vtx b = tx :: txs -> vin tx = [with_witness i w] ->
  vtx b' = tx' :: txs' -> vin tx' = [with_witness i' w] -> strip_witness tx = strip_witness tx' -> tx = tx'.
Proof.
  intros _ Hi _ Hi' E. destruct tx as [ins outs v t], tx' as [ins' outs' v' t']. cbn in Hi, Hi'. subst ins ins'.
  unfold strip_witness in E. cbn in E. injection E as E1 E2 E3 E4 E5 E6. f_equal; try assumption. f_equal.
  unfold with_witness in *. congruence.
Qed.

Lemma no_witnesses c : existsb HasWitness (vtx c) = false -> map strip_witness (vtx c) = vtx c.
Proof.
  induction (vtx c) as [| tx txs IH]; [done |]. cbn [existsb map]. intros [E1 E2]%orb_false_iff.
  by rewrite (no_witness_eq tx E1), (IH E2).
Qed.

Lemma stripped_coinbase : has_coinbase b -> has_coinbase b'.
Proof using same_stripped.
  intros (tx & txs & i & E & Ei). destruct (stripped_cons tx txs E) as (tx' & txs' & E' & Es & _).
  apply (f_equal vin) in Es. cbn [strip_witness vin] in Es. rewrite Ei in Es. cbn [map] in Es.
  destruct (vin tx') as [| i' [| ? ?]] eqn:Ei'; cbn [map] in Es; [discriminate | | discriminate].
  exists tx', txs', i'. done.
Qed.

Abbreviation damaged r := (exists reason, r = Reject (mkRejection reason true) /\ reason <> "bad-txns-transfer-asset-bad-deserialize"%string).

(** Without a commitment there are no witnesses. *)
Lemma uncommitted_same sw : sw && negb (GetWitnessCommitmentIndex b =? -1) = false -> check_witness sw b = Accept tt ->
  damaged (check_witness sw b') \/ vtx b = vtx b'.
Proof using same_stripped.
  intros Hn. unfold check_witness, check_commitment. rewrite <- same_index, Hn. cbn [orb].
  destruct (existsb HasWitness (vtx b)) eqn:E; [discriminate |]. intros _.
  destruct (existsb HasWitness (vtx b')) eqn:E'; [left; by eexists | right].
  by rewrite <- (no_witnesses b E), <- (no_witnesses b' E').
Qed.

Lemma check_witness_same sw : has_coinbase b -> check_witness sw b = Accept tt ->
  damaged (check_witness sw b') \/ vtx b = vtx b'.
Proof using free ok ok' same_stripped.
  intros Hc Hw. destruct (sw && negb (GetWitnessCommitmentIndex b =? -1)) eqn:Hn; [| by apply uncommitted_same].
  apply andb_prop in Hn as [-> Hn]. apply negb_true_iff, Z.eqb_neq in Hn. pose proof (stripped_coinbase Hc) as Hc'.
  destruct ok as (_ & Hs & _), ok' as (_ & Hs' & _). unfold check_witness in *.
  destruct (check_commitment_spec b Hs Hc Hn) as [(r & E & _) | (E & Eh & _ & tx & txs & i & Et & Ei)];
    rewrite E in Hw; [discriminate |].
  destruct (check_commitment_spec b' Hs' Hc' ltac:(rewrite <- same_index; exact Hn))
    as [(r & -> & Hr) | (-> & Eh' & _ & tx' & txs' & i' & Et' & Ei')]; [left; by exists r | right].
  destruct (stripped_cons tx txs Et) as (tx'' & txs'' & Et'' & Es & _). rewrite Et' in Et''. injection Et'' as <- <-.
  rewrite <- same_index, Et' in Eh'. rewrite Et in Eh. cbn [nth] in Eh, Eh'. rewrite <- (strip_vout tx tx' Es), <- Eh in Eh'.
  destruct (witnesses_fixed Hc Hc' (eq_sym Eh')) as [Ed En]. rewrite Et, Et' in Ed. cbn [drop] in Ed. rewrite !drop_0 in Ed. rewrite <- En in Ei'.
  rewrite Et, Et', Ed. f_equal. by apply (same_coinbase tx txs i tx' txs' i' [nonce_of b]).
Qed.

Lemma block_size_stripped c : block_size false c = block_size false (with_vtx c (map strip_witness (vtx c))).
Proof.
  unfold block_size. cbn [encode CBlock_codec with_vtx block_header vtx vector_codec]. unfold vector_encode.
  rewrite length_map, map_map. do 4 f_equal. f_equal. apply map_ext. intros tx. symmetry. apply SerializeTransaction_strip.
Qed.

Lemma same_size : block_size false b = block_size false b'.
Proof using same_header same_stripped.
  rewrite (block_size_stripped b), (block_size_stripped b'). unfold with_vtx. by rewrite same_header, same_stripped.
Qed.

Lemma sigops_stripped c : block_sigops c = block_sigops (with_vtx c (map strip_witness (vtx c))).
Proof.
  unfold block_sigops. cbn [with_vtx vtx]. generalize 0. induction (vtx c) as [| tx txs IH]; intros n; [done |].
  cbn [map fold_left]. by rewrite GetLegacySigOpCount_strip, IH.
Qed.

Lemma same_sigops : block_sigops b = block_sigops b'.
Proof using same_stripped. rewrite (sigops_stripped b), (sigops_stripped b'). unfold block_sigops, with_vtx. cbn [vtx]. by rewrite same_stripped. Qed.

Lemma coinbases_stripped txs : existsb IsCoinBase (map strip_witness txs) = existsb IsCoinBase txs.
Proof. induction txs as [| tx txs IH]; [done |]. cbn [map existsb]. by rewrite IsCoinBase_strip, IH. Qed.

Lemma same_first : (match vtx b with coinbase :: _ => IsCoinBase coinbase | [] => false end) =
  (match vtx b' with coinbase :: _ => IsCoinBase coinbase | [] => false end).
Proof using same_stripped.
  pose proof same_stripped as E. destruct (vtx b) as [| tx txs], (vtx b') as [| tx' txs'] in E |- *; try discriminate; [reflexivity |].
  rewrite <- (IsCoinBase_strip tx), <- (IsCoinBase_strip tx'). f_equal. exact (f_equal (hd tx) E).
Qed.

Lemma same_others : existsb IsCoinBase (drop 1 (vtx b)) = existsb IsCoinBase (drop 1 (vtx b')).
Proof using same_stripped.
  rewrite <- (coinbases_stripped (drop 1 (vtx b))), <- (coinbases_stripped (drop 1 (vtx b'))).
  rewrite <- !skipn_map. by rewrite same_stripped.
Qed.
End SameTransactions.

(** ** Damaged copies of a valid block *)

Section Damaged.
Context `{AddressV4}.
Variable params : CChainParams.
Variable dep : Deployments.
Variable founderPayment : FounderPayment.
Variable interval : Z.
Variable env : NodeEnv.
Variables cached_hash GetPoWHash : BlockHeader -> list Z.
Variables nCSVEnabled nSegwitEnabled : bool.

Abbreviation CheckBlock := (CheckBlock params dep founderPayment interval env cached_hash GetPoWHash).
Abbreviation ContextualCheckBlock := (ContextualCheckBlock nCSVEnabled nSegwitEnabled).
Abbreviation block_arrival := (block_arrival params dep founderPayment interval env cached_hash GetPoWHash nCSVEnabled nSegwitEnabled).

Lemma CheckBlock_same b b' h : block_header b = block_header b' -> map strip_witness (vtx b) = map strip_witness (vtx b') ->
  check_merkle_root b = check_merkle_root b' -> CheckBlock false b h true true = CheckBlock false b' h true true.
Proof.
  intros Eh Es Em. unfold BlockCheck.CheckBlock. rewrite Eh, Em.
  rewrite (same_size b b' Eh Es), (same_sigops b b' Es), (same_first b b' Es), (same_others b b' Es), (same_number b b' Es).
  rewrite <- (check_transactions_strip params dep founderPayment h _ (vtx b)), Es, check_transactions_strip.
  assert (bool_decide (vtx b = []) = bool_decide (vtx b' = [])) as ->; [| reflexivity].
  apply bool_decide_ext. rewrite <- !length_zero_iff_nil, (same_number b b' Es). reflexivity.
Qed.

Lemma CheckBlock_parts b h c : CheckBlock false b h true true = Accept c ->
  c = true /\ check_header env cached_hash GetPoWHash true (block_header b) = Accept tt /\ check_merkle_root b = Accept tt /\ has_coinbase b.
Proof.
  unfold BlockCheck.CheckBlock. intros E. accepted E. destruct a, a0. cbn in E. split; [congruence |].
  split; [reflexivity |]. split; [reflexivity |]. clear -Hb0. unfold has_coinbase.
  destruct (vtx b) as [| tx txs]; [discriminate |]. unfold IsCoinBase in Hb0. destruct (vin tx) as [| i [| ? ?]] eqn:Ei; [discriminate | | discriminate].
  by exists tx, txs, i.
Qed.

(** A block whose merkle root does not fit is refused as damaged. *)
Lemma check_merkle_root_cases b : size_ok (vtx b) -> check_merkle_root b = Accept tt \/
  exists reason, check_merkle_root b = Reject (mkRejection reason true).
Proof.
  intros Hs. unfold check_merkle_root, block_merkle_root, BlockMerkleRoot.
  assert (exists r, ComputeMerkleRoot hash_pair 0 (map GetHash (vtx b)) = Some r) as ([root mut] & ->).
  { pose proof (vtx_bound b Hs). destruct (decide (vtx b = [])) as [-> | Hne]; [by eexists |].
    destruct (root_spec hash_pair 0 (map GetHash (vtx b))) as (mut & E & _); [| by eexists].
    rewrite length_map. destruct (vtx b); cbn [length] in *; [by destruct Hne | lia]. }
  destruct (_ =? _); [| right; by eexists]. destruct mut; [right | left]; by eexists.
Qed.

Lemma empty_root b : vtx b = [] -> check_merkle_root b = Accept tt -> bh_hashMerkleRoot (block_header b) = 0.
Proof. intros E. unfold check_merkle_root, block_merkle_root. rewrite E. cbn. destruct (_ =? _) eqn:E0; [| discriminate]. intros _. by apply Z.eqb_eq. Qed.

Lemma Contextual_same m prev b b' : block_header b = block_header b' -> collision_free (hashed b ++ hashed b') -> block_ok b -> block_ok b' ->
  map strip_witness (vtx b) = map strip_witness (vtx b') -> has_coinbase b -> ContextualCheckBlock m prev b = Accept tt ->
  vtx b = vtx b' \/
  exists reason, ContextualCheckBlock m prev b' = Reject (mkRejection reason true) /\ reason <> "bad-txns-transfer-asset-bad-deserialize"%string.
Proof.
  intros Eh Hf Hok Hok' Es Hc. unfold BlockCheck.ContextualCheckBlock. rewrite <- Eh.
  destruct (lock_context nCSVEnabled m prev (block_header b)) as [[h t] |]; [| discriminate].
  rewrite <- (check_finality_strip h t (vtx b)), <- (check_finality_strip h t (vtx b')), <- Es.
  destruct (check_finality h t (map strip_witness (vtx b))); [| discriminate | discriminate].
  destruct (check_witness nSegwitEnabled b) as [[] | |] eqn:Ew; [| discriminate | discriminate]. intros _.
  destruct (check_witness_same b b' Hf Hok Hok' Es nSegwitEnabled Hc Ew) as [(r & -> & Hr) | ?]; [right; by exists r | by left].
Qed.

(** The arrival of a block refused by itself, and of one refused with its
    parent, as damaged. *)
Definition refused_early (a : BlockArrival) : Prop := arr_first_check a = false.
Definition refused_late (a : BlockArrival) : Prop := arr_checked a = Fails false false.

Lemma damaged_arrival m prev hash pos b b' :
  block_header b = block_header b' -> collision_free (hashed b ++ hashed b') -> block_ok b -> block_ok b' ->
  coinbase_size b <> 64%nat -> coinbase_size b' <> 64%nat -> bh_hashMerkleRoot (block_header b) <> 0 ->
  CheckBlock false b 0 true true = Accept true -> ContextualCheckBlock m prev b = Accept tt ->
  b' = b \/ exists a, block_arrival m prev hash pos b' = Some a /\ (refused_early a \/ refused_late a).
Proof.
  intros Eh Hf Hok Hok' H64 H64' Hz Hcb Hctx. pose proof Hok' as (_ & Hs' & _).
  destruct (CheckBlock_parts b 0 true Hcb) as (_ & Hh & Hm & Hc). unfold BlockCheck.block_arrival.
  destruct (check_merkle_root_cases b' Hs') as [Hm' | [reason Hm']].
  - assert (map strip_witness (vtx b) = map strip_witness (vtx b')) as Es.
    { apply stripped_fixed; try assumption; [by rewrite Eh | by apply has_coinbase_nonempty |].
      intros E. apply Hz. rewrite Eh. by apply empty_root. }
    assert (check_merkle_root b = check_merkle_root b') as Em by (by rewrite Hm, Hm').
    rewrite <- (CheckBlock_same b b' 0 Eh Es Em), Hcb.
    destruct (Contextual_same m prev b b' Eh Hf Hok Hok' Es Hc Hctx) as [Et | (r & Er & Hr)].
    + left. destruct b, b'. cbn in *. congruence.
    + right. unfold check_again. unfold BlockCheck.CheckBlock at 1. rewrite Er. cbn [check_result corruption reject_reason].
      rewrite bool_decide_eq_false_2 by exact Hr. cbn [mbind option_bind negb]. eexists. split; [reflexivity |]. by right.
  - right. unfold BlockCheck.CheckBlock. rewrite <- Eh, Hh, Hm'. eexists. split; [reflexivity |]. by left.
Qed.
End Damaged.

(** What a damaged block does to the node. *)
Section Harmless.
Context {W : Type}.
Variable addr : ptr -> Z.
Variable L : Ledger W.
Variable env : NodeEnv.
Implicit Types s : ChainState W.

(** Tips and accepted headers have entries in the block index. *)
Definition header_entered (ok : bool) (pp : option ptr) s : Prop :=
  (ok = true -> exists p e, pp = Some p /\ blocks s !! p = Some e) /\
  (forall t, Tip (chainActive s) = Some t -> is_Some (blocks s !! t)).

Lemma refused_late_header a fRequested fFromLoad s ok pp s' : refused_late a ->
  AcceptBlockHeader addr env (arr_hash a) (arr_cached a) (arr_powhash a) (arr_header a) s = Some (ok, pp, s') ->
  header_entered ok pp s' ->
  exists ret fNewBlock, AcceptBlock addr env a fRequested fFromLoad s = Some (ret, fNewBlock, s').
Proof.
  intros Hr E [Hp Ht]. unfold AcceptBlock. rewrite E, Hr. cbn [mbind option_bind].
  destruct ok; cbn [negb]; [| by do 2 eexists]. destruct (Hp eq_refl) as (p & e & -> & Ee). cbn [mbind option_bind].
  rewrite Ee. cbn [mbind option_bind].
  assert (exists w, match Tip (chainActive s') with
    | Some t => bt ← blocks s' !! t; Some (0 <? CompareTo W256 (nChainWork e) (nChainWork bt))
    | None => Some true end = Some w) as (w & ->).
  { destruct (Tip (chainActive s')) as [t |]; [| by eexists]. destruct (Ht t eq_refl) as [bt ->]. by eexists. }
  cbn [mbind option_bind]. repeat case_match; try discriminate; try (by do 2 eexists). by rewrite andb_false_r in *.
Qed.

Lemma refused_early_unchanged a fuel fForce s : refused_early a -> ProcessNewBlock addr L env fuel a fForce s = Some (false, false, s).
Proof. intros Hr. unfold ProcessNewBlock. by rewrite Hr. Qed.
End Harmless.

(** ** The generated commitment passes *)

Lemma last_commitment_snoc outs script : forall o c, is_commitment script = true ->
  last_commitment o (outs ++ [mkTxOut 0 script]) c = o + Z.of_nat (length outs).
Proof.
  induction outs as [| out outs IH]; intros o c Hc; cbn [app last_commitment length].
  - cbn [scriptPubKey]. rewrite Hc. lia.
  - rewrite IH by exact Hc. lia.
Qed.

Lemma commitment_script_ok root nonce : is_commitment (commitment_header ++ commitment_hash root nonce) = true.
Proof.
  unfold is_commitment, commitment_hash. rewrite length_app, Hash_length. apply andb_true_iff. split; [reflexivity |].
  apply bool_decide_eq_true. by rewrite take_app_length'.
Qed.

(** The coinbase with the commitment and the nonce. *)
Definition committed_coinbase (tx : CTransaction) (i : CTxIn) (script : list Z) : CTransaction :=
  mkTransaction [with_witness i [zero_nonce]] (vout tx ++ [mkTxOut 0 script]) (tx_nVersion tx) (nLockTime tx).

Lemma GenerateCoinbaseCommitment_spec b tx txs i root mut : vtx b = tx :: txs -> vin tx = [i] -> HasWitness tx = false ->
  GetWitnessCommitmentIndex b = -1 -> block_witness_root b = Some (root, mut) ->
  let script := commitment_header ++ commitment_hash root zero_nonce in
  GenerateCoinbaseCommitment true b = Some (script, with_vtx b (committed_coinbase tx i script :: txs)).
Proof.
  intros E Ei Hw Hi Hr. cbv zeta. unfold GenerateCoinbaseCommitment. rewrite Hi, Hr, E. cbn [andb Z.eqb Pos.eqb mbind option_bind].
  unfold UpdateUncommittedBlockStructures, GetWitnessCommitmentIndex. cbn [with_vtx vtx vout vin tx_nVersion nLockTime block_header].
  rewrite last_commitment_snoc by apply commitment_script_ok.
  assert (HasWitness (mkTransaction (vin tx) (vout tx ++ [mkTxOut 0 (commitment_header ++ commitment_hash root zero_nonce)]) (tx_nVersion tx) (nLockTime tx)) = false)
    as -> by exact Hw.
  replace (0 + Z.of_nat (length (vout tx)) =? -1) with false by (symmetry; apply Z.eqb_neq; lia).
  rewrite Ei. reflexivity.
Qed.

Lemma committed_passes b tx txs i root mut : vtx b = tx :: txs -> block_witness_root b = Some (root, mut) ->
  check_witness true (with_vtx b (committed_coinbase tx i (commitment_header ++ commitment_hash root zero_nonce) :: txs)) = Accept tt.
Proof.
  intros E Hr. unfold check_witness, check_commitment, GetWitnessCommitmentIndex. cbn [with_vtx vtx committed_coinbase vout vin].
  rewrite last_commitment_snoc by apply commitment_script_ok.
  replace (0 + Z.of_nat (length (vout tx)) =? -1) with false by (symmetry; apply Z.eqb_neq; lia). cbn [andb negb].
  unfold block_witness_root, BlockWitnessMerkleRoot in *. rewrite E in Hr. cbn [map with_vtx vtx] in Hr |- *. rewrite Hr.
  cbn [with_witness scriptWitness nth length].
  replace (Z.to_nat (0 + Z.of_nat (length (vout tx)))) with (length (vout tx)) by lia.
  rewrite app_nth2, Nat.sub_diag by lia. cbn [nth scriptPubKey].
  rewrite drop_app_length' by reflexivity. rewrite take_ge by (unfold commitment_hash; rewrite Hash_length; lia).
  by rewrite bool_decide_eq_true_2.
Qed.

Lemma committed_again b tx txs i root :
  let b' := with_vtx b (committed_coinbase tx i (commitment_header ++ commitment_hash root zero_nonce) :: txs) in
  GenerateCoinbaseCommitment true b' = Some ([], b').
Proof.
  cbv zeta. unfold GenerateCoinbaseCommitment, UpdateUncommittedBlockStructures.
  assert (forall script, is_commitment script = true ->
    (GetWitnessCommitmentIndex (with_vtx b (committed_coinbase tx i script :: txs)) =? -1) = false) as Hi.
  { intros script Hc. unfold GetWitnessCommitmentIndex. cbn [with_vtx vtx committed_coinbase vout].
    rewrite last_commitment_snoc by exact Hc. apply Z.eqb_neq. lia. }
  rewrite Hi by apply commitment_script_ok. cbn [andb mbind option_bind]. rewrite Hi by apply commitment_script_ok. reflexivity.
Qed.

(** ** Properties *)

(** C33: The witness commitment round trip.  For any block whose coinbase has
    one input, no witness and no commitment yet, [GenerateCoinbaseCommitment]
    returns a script that [GetWitnessCommitmentIndex] finds in the new
    coinbase, changes nothing else, and the resulting block passes the witness
    rules of [ContextualCheckBlock], whatever witnesses the other transactions
    carry.  Generating again leaves the block alone. *)
Theorem commitment_roundtrip (b : CBlock) (tx : CTransaction) (txs : list CTransaction) (i : CTxIn) :
  vtx b = tx :: txs -> vin tx = [i] -> HasWitness tx = false -> size_ok (vtx b) -> GetWitnessCommitmentIndex b = -1 ->
  exists script b' tx', GenerateCoinbaseCommitment true b = Some (script, b') /\
    block_header b' = block_header b /\ vtx b' = tx' :: txs /\ strip_witness tx' =
      strip_witness (mkTransaction (vin tx) (vout tx ++ [mkTxOut 0 script]) (tx_nVersion tx) (nLockTime tx)) /\
    GetWitnessCommitmentIndex b' = Z.of_nat (length (vout tx)) /\
    check_witness true b' = Accept tt /\ GenerateCoinbaseCommitment true b' = Some ([], b').
Proof.
  intros E Ei Hw Hs Hi. destruct (witness_root_spec b Hs ltac:(rewrite E; discriminate)) as (mut & Hr).
  revert Hr. generalize (node hash_pair 0 (witness_leaves b) (levels (witness_leaves b)) 0) as root. intros root Hr.
  eexists _, _, _. split; [by apply (GenerateCoinbaseCommitment_spec b tx txs i root mut) |].
  split; [reflexivity |]. split; [reflexivity |].
  split; [unfold strip_witness; cbn [committed_coinbase vin vout tx_nVersion nLockTime]; by rewrite Ei |].
  split; [| split; [by apply (committed_passes b tx txs i root mut) |]].
  - unfold GetWitnessCommitmentIndex. cbn [with_vtx vtx committed_coinbase vout]. by rewrite last_commitment_snoc by apply commitment_script_ok.
  - by apply committed_again.
Qed.

(** C16: A damaged copy of a valid block cannot harm its header.  Let [b] be a
    block that passes [CheckBlock] and [ContextualCheckBlock], and [b'] any
    block with the same header, its transactions and witnesses changed at
    will, where the hash function tells apart the strings hashed for the two.
    Then [b'] is [b]; or its check returns, and either [ProcessNewBlock] leaves
    the state of the node unchanged, or [AcceptBlock] leaves the state that
    accepting the header alone leads to: the block is not stored, its entry is
    not marked as failed, and [b] can still arrive.  (When [b] was stored before
    and is not connected yet, [ProcessNewBlock] goes on to [ActivateBestChain]
    with the copy in memory; the theorem is about what comes before.)  Two limits are explicit:
    a coinbase of exactly 64 bytes could also be read as an inner node of the
    merkle tree, and the root of a block is not zero. *)
Theorem damaged_copy_harmless `{AddressV4} {W : Type} (params : CChainParams) (dep : Deployments) (founderPayment : FounderPayment)
    (interval : Z) (env : NodeEnv) (cached_hash GetPoWHash : BlockHeader -> list Z) (nCSVEnabled nSegwitEnabled : bool)
    (addr : ptr -> Z) (L : Ledger W) (m : gmap ptr CBlockIndex) (prev : option ptr) (hash : Z) (pos : option (Z * Z)) (b b' : CBlock) :
  block_header b = block_header b' -> block_ok b -> block_ok b' -> collision_free (hashed b ++ hashed b') ->
  coinbase_size b <> 64%nat -> coinbase_size b' <> 64%nat -> bh_hashMerkleRoot (block_header b) <> 0 ->
  CheckBlock params dep founderPayment interval env cached_hash GetPoWHash false b 0 true true = Accept true ->
  ContextualCheckBlock nCSVEnabled nSegwitEnabled m prev b = Accept tt ->
  b' = b \/
  exists a, block_arrival params dep founderPayment interval env cached_hash GetPoWHash nCSVEnabled nSegwitEnabled m prev hash pos b' = Some a /\
    ((forall fuel fForce (s : ChainState W), ProcessNewBlock addr L env fuel a fForce s = Some (false, false, s)) \/
     (forall fRequested fFromLoad (s s' : ChainState W) ok pp,
        AcceptBlockHeader addr env (arr_hash a) (arr_cached a) (arr_powhash a) (arr_header a) s = Some (ok, pp, s') ->
        header_entered ok pp s' ->
        exists ret fNewBlock, AcceptBlock addr env a fRequested fFromLoad s = Some (ret, fNewBlock, s'))).
Proof.
  intros Eh Hok Hok' Hf H64 H64' Hz Hcb Hctx.
  destruct (damaged_arrival params dep founderPayment interval env cached_hash GetPoWHash nCSVEnabled nSegwitEnabled m prev hash pos b b'
              Eh Hf Hok Hok' H64 H64' Hz Hcb Hctx) as [-> | (a & Ea & Hr)]; [by left | right].
  exists a. split; [exact Ea |]. destruct Hr as [Hr | Hr]; [left | right].
  - intros fuel fForce s. by apply refused_early_unchanged.
  - intros fRequested fFromLoad s s' ok pp. by apply refused_late_header.
Qed.

#[local] Transparent Hash.
#[local] Existing Instance dotted_v4.

Definition sample_coinbase : CTransaction :=
  mkTransaction [mkTxIn (0, 0xffffffff) [1; 2; 3] SEQUENCE_FINAL []] [mkTxOut 5000 [118]] 2 0.
Definition sample_payment (w : list (list Z)) : CTransaction :=
  mkTransaction [mkTxIn (7, 0) [] SEQUENCE_FINAL w] [mkTxOut 1 [118]] 2 0.
Definition sample_block (root : Z) : CBlock :=
  mkBlock (mkBlockHeader 0x30000000 1 root 1600000060 0x1e0fffff 0) [sample_coinbase; sample_payment [[1; 2]]].

Lemma commitment_roundtrip_witness : exists script b' tx', GenerateCoinbaseCommitment true (sample_block 0) = Some (script, b') /\
    block_header b' = block_header (sample_block 0) /\ vtx b' = tx' :: [sample_payment [[1; 2]]] /\ strip_witness tx' =
      strip_witness (mkTransaction (vin sample_coinbase) (vout sample_coinbase ++ [mkTxOut 0 script]) 2 0) /\
    GetWitnessCommitmentIndex b' = 1 /\
    check_witness true b' = Accept tt /\ GenerateCoinbaseCommitment true b' = Some ([], b').
Proof.
  apply (commitment_roundtrip (sample_block 0) sample_coinbase [sample_payment [[1; 2]]] (mkTxIn (0, 0xffffffff) [1; 2; 3] SEQUENCE_FINAL []));
    try reflexivity. vm_compute. discriminate.
Defined.

(** A valid block, and a copy with another witness. *)
Definition sample_committed (w : list (list Z)) : CBlock :=
  match GenerateCoinbaseCommitment true (sample_block 0) with
  | Some (_, b) =>
      mkBlock (mkBlockHeader 0x30000000 1 (default 0 (fst <$> block_merkle_root b)) 1600000060 0x1e0fffff 0)
        (take 1 (vtx b) ++ [sample_payment w])
  | None => sample_block 0
  end.

Definition sample_env : NodeEnv :=
  mkNodeEnv mainnet_params 1 (of_u64 0) [] true 60 4 43200 None 1600010000 1600010000 (fun _ => true) false true.
Definition sample_index : gmap ptr CBlockIndex :=
  match AddToBlockIndex (mkBIState ∅ None ∅) 1 (mkHeader 0x30000000 0 1600000000 0x1e0fffff) with
  | Some (st, _) => mapBlockIndex st
  | None => ∅
  end.

(** Every string of the list with its hash, each pair compared. *)
Definition distinct_hashes (l : list (list Z)) : bool :=
  let hs := map (fun x => (Hash [x], x)) l in
  forallb (fun x => forallb (fun y => bool_decide (x.2 = y.2) || negb (bool_decide (x.1 = y.1))) hs) hs.

Lemma distinct_hashes_free l : distinct_hashes l = true -> collision_free l.
Proof.
  unfold distinct_hashes. rewrite forallb_forall. intros Hd x y Hx Hy E. rewrite list_elem_of_In in Hx, Hy.
  specialize (Hd (Hash [x], x) (in_map (fun x => (Hash [x], x)) _ _ Hx)). rewrite forallb_forall in Hd.
  specialize (Hd (Hash [y], y) (in_map (fun x => (Hash [x], x)) _ _ Hy)). cbn [fst snd] in Hd.
  apply orb_prop in Hd as [Hd | Hd]; [by apply bool_decide_eq_true in Hd |].
  apply negb_true_iff, bool_decide_eq_false in Hd. by destruct Hd.
Qed.

Definition sample : CBlock := Eval vm_compute in sample_committed [[1; 2]].
Definition damaged_sample : CBlock := Eval vm_compute in sample_committed [[9]].

Ltac sample_ok :=
  split; [repeat (split || discriminate) |]; split; [discriminate |];
  repeat first [progress (unfold wire_tx, tx_ok, txin_ok, txout_ok, outpoint_ok, hash_range, uint32_range, size_ok) |
    apply Forall_cons | apply Forall_nil_2 | split | vm_compute; discriminate | vm_compute; reflexivity | discriminate].

Lemma samples_ok : block_ok sample /\ block_ok damaged_sample.
Proof. split; sample_ok. Qed.

Lemma damaged_copy_harmless_witness :
  let arrival := block_arrival CMainParams all_deployed no_founder 2100000 sample_env (fun _ => replicate 32 0) (fun _ => replicate 32 0)
                   true true sample_index (Some 1) 5 (Some (0, 8)) in
  damaged_sample = sample \/
  exists a, arrival damaged_sample = Some a /\
    ((forall fuel fForce (s : ChainState unit), ProcessNewBlock id (mkLedger (fun _ _ _ => Connected tt 0) (fun _ _ => Some tt) (fun _ => true)) sample_env fuel a fForce s
        = Some (false, false, s)) \/
     (forall fRequested fFromLoad (s s' : ChainState unit) ok pp,
        AcceptBlockHeader id sample_env (arr_hash a) (arr_cached a) (arr_powhash a) (arr_header a) s = Some (ok, pp, s') ->
        header_entered ok pp s' ->
        exists ret fNewBlock, AcceptBlock id sample_env a fRequested fFromLoad s = Some (ret, fNewBlock, s'))).
Proof.
  apply (damaged_copy_harmless CMainParams all_deployed no_founder 2100000 sample_env (fun _ => replicate 32 0)
           (fun _ => replicate 32 0) true true id (mkLedger (fun _ _ _ => Connected tt 0) (fun _ _ => Some tt) (fun _ => true))
           sample_index (Some 1) 5 (Some (0, 8)) sample damaged_sample).
  - vm_compute. reflexivity.
  - apply samples_ok.
  - apply samples_ok.
  - apply distinct_hashes_free. vm_compute. reflexivity.
  - vm_compute. discriminate.
  - vm_compute. discriminate.
  - vm_compute. discriminate.
  - vm_compute. reflexivity.
  - vm_compute. reflexivity.
Defined.
