(* ===== verification/BestChainInv.v ===== *)
(** * The invariant of the active chain

    The order of the candidates, the parts of the block tree that the
    operations of [BestChain.v] leave alone, and the invariant they keep:
    the tree is well formed, the active chain is the path of a usable tip,
    the ledger is that of the tip, the candidates are linked blocks, and
    every linked block that is not marked failed and not worse than some
    usable block is a candidate. *)

From stdpp Require Import gmap sorting.
From S2P Require Import Prelude ArithUint256 Compact Chain ActiveChain BestChain.
Set Default Proof Using "Type".

(** ** Flags *)

(** The level a block has been found valid up to, failed or not. *)
Definition level (b : CBlockIndex) : Z := Z.land (nStatus b) BLOCK_VALID_MASK.

Abbreviation is_failed b := (has_flag b BLOCK_FAILED_MASK).

Lemma has_set_other flag other b :
  Z.land flag other = 0 -> has_flag (set_flag flag b) other = has_flag b other.
Proof. intros H. unfold has_flag, set_flag. cbn. by rewrite Z.land_lor_distr_l, H, Z.lor_0_r. Qed.

Lemma has_set flag other b : Z.land flag other <> 0 -> has_flag (set_flag flag b) other = true.
Proof.
  intros H. unfold has_flag, set_flag. cbn. rewrite Z.land_lor_distr_l.
  destruct (Z.eqb_spec (Z.lor (Z.land (nStatus b) other) (Z.land flag other)) 0) as [E |]; [| done].
  apply Z.lor_eq_0_iff in E as [_ E]. done.
Qed.

Lemma level_set flag b : Z.land flag BLOCK_VALID_MASK = 0 -> level (set_flag flag b) = level b.
Proof. intros H. unfold level, set_flag. cbn [nStatus with_nStatus]. by rewrite Z.land_lor_distr_l, H, Z.lor_0_r. Qed.

Lemma has_clear_other flag other b :
  Z.land (u32 (Z.lnot flag)) other = other -> has_flag (clear_flag flag b) other = has_flag b other.
Proof. intros H. unfold has_flag, clear_flag. cbn [nStatus with_nStatus]. by rewrite <- Z.land_assoc, H. Qed.

Lemma has_clear flag other b : Z.land (u32 (Z.lnot flag)) other = 0 -> has_flag (clear_flag flag b) other = false.
Proof. intros H. unfold has_flag, clear_flag. cbn [nStatus with_nStatus]. by rewrite <- Z.land_assoc, H, Z.land_0_r. Qed.

Lemma level_clear flag b :
  Z.land (u32 (Z.lnot flag)) BLOCK_VALID_MASK = BLOCK_VALID_MASK -> level (clear_flag flag b) = level b.
Proof. intros H. unfold level, clear_flag. cbn [nStatus with_nStatus]. by rewrite <- Z.land_assoc, H. Qed.

Lemma IsValid_level b n : IsValid b n = negb (is_failed b) && (n <=? level b).
Proof. unfold IsValid, has_flag. by destruct (Z.land (nStatus b) BLOCK_FAILED_MASK =? 0). Qed.

(** [RaiseValidity] never lowers the level and leaves the other flags. *)
Lemma RaiseValidity_flags b n (flag : Z) :
  0 <= n -> Z.land n BLOCK_VALID_MASK = n -> Z.land n flag = 0 ->
  Z.land (u32 (Z.lnot BLOCK_VALID_MASK)) flag = flag ->
  has_flag (snd (RaiseValidity b n)) flag = has_flag b flag /\ level b <= level (snd (RaiseValidity b n)) /\
  (is_failed b = false -> n <= level (snd (RaiseValidity b n))).
Proof.
  intros Hn Hm Hf Hu. unfold RaiseValidity, has_flag. destruct (Z.eqb_spec (Z.land (nStatus b) BLOCK_FAILED_MASK) 0) as [E | E];
    cbn [negb]; [| by split_and!]. unfold level.
  destruct (Z.ltb_spec (Z.land (nStatus b) BLOCK_VALID_MASK) n) as [Hlt | Hge]; cbn [snd]; [| done].
  unfold with_nStatus. cbn [nStatus]. rewrite !Z.land_lor_distr_l, <- !Z.land_assoc, Hu, Hm, Hf, Z.lor_0_r.
  change (Z.land (u32 (Z.lnot BLOCK_VALID_MASK)) BLOCK_VALID_MASK) with 0.
  rewrite Z.land_0_r, Z.lor_0_l. split; [done |]. split; lia.
Qed.

(** ** What the operations leave alone *)

(** The place of a block in the tree. *)
Definition same_block (a b : CBlockIndex) : Prop :=
  pprev a = pprev b /\ pskip a = pskip b /\ nHeight a = nHeight b /\ nChainWork a = nChainWork b /\
  nTime a = nTime b /\ nBits a = nBits b /\ nTimeMax a = nTimeMax b.

(** Besides, the numbers that say whether it is linked and order it. *)
Definition same_links (a b : CBlockIndex) : Prop :=
  same_block a b /\ nSequenceId a = nSequenceId b /\ nTx a = nTx b /\ nChainTx a = nChainTx b.

(** The same without the order. *)
Definition same_counts (a b : CBlockIndex) : Prop := same_block a b /\ nTx a = nTx b /\ nChainTx a = nChainTx b.

#[export] Instance same_block_equivalence : Equivalence same_block.
Proof. split; unfold same_block; repeat intro; intuition congruence. Qed.

#[export] Instance same_links_equivalence : Equivalence same_links.
Proof.
  split; unfold same_links; repeat intro; [by split_and! | |].
  - destruct_and!. split_and!; [by symmetry | congruence..].
  - destruct_and!. split_and!; [by etrans | congruence..].
Qed.

#[export] Instance same_counts_equivalence : Equivalence same_counts.
Proof.
  split; unfold same_counts; repeat intro; [by split_and! | |].
  - destruct_and!. split_and!; [by symmetry | congruence..].
  - destruct_and!. split_and!; [by etrans | congruence..].
Qed.

Lemma RaiseValidity_links b n : same_links b (snd (RaiseValidity b n)).
Proof. unfold RaiseValidity. destruct (negb _); [reflexivity |]. destruct (_ <? _); [by split_and! | reflexivity]. Qed.

Abbreviation same_tree := (map_relation (fun _ => same_block) (fun _ _ => False) (fun _ _ => False)).
Abbreviation same_index := (map_relation (fun _ => same_links) (fun _ _ => False) (fun _ _ => False)).

Abbreviation same_counted := (map_relation (fun _ => same_counts) (fun _ _ => False) (fun _ _ => False)).

Section SameTree.
Implicit Types m : gmap ptr CBlockIndex.

Lemma same_rel_lookup (R : CBlockIndex -> CBlockIndex -> Prop) m m' p b :
  map_relation (fun _ => R) (fun _ _ => False) (fun _ _ => False) m m' -> m !! p = Some b ->
  exists b', m' !! p = Some b' /\ R b b'.
Proof. intros H Hp. specialize (H p). rewrite Hp in H. destruct (m' !! p); cbn in H; [eauto | done]. Qed.

Lemma same_rel_refl (R : CBlockIndex -> CBlockIndex -> Prop) m :
  Reflexive R -> map_relation (fun _ => R) (fun _ _ => False) (fun _ _ => False) m m.
Proof. intros HR p. by destruct (m !! p); cbn. Qed.

Lemma same_rel_sym (R : CBlockIndex -> CBlockIndex -> Prop) m m' :
  Symmetric R -> map_relation (fun _ => R) (fun _ _ => False) (fun _ _ => False) m m' ->
  map_relation (fun _ => R) (fun _ _ => False) (fun _ _ => False) m' m.
Proof. intros HR H p. specialize (H p). destruct (m !! p), (m' !! p); cbn in *; try done. Qed.

Lemma same_rel_trans (R : CBlockIndex -> CBlockIndex -> Prop) m1 m2 m3 :
  Transitive R -> map_relation (fun _ => R) (fun _ _ => False) (fun _ _ => False) m1 m2 ->
  map_relation (fun _ => R) (fun _ _ => False) (fun _ _ => False) m2 m3 ->
  map_relation (fun _ => R) (fun _ _ => False) (fun _ _ => False) m1 m3.
Proof.
  intros HR H H' p. specialize (H p). specialize (H' p).
  destruct (m1 !! p), (m2 !! p), (m3 !! p); cbn in *; try done. by etrans.
Qed.

(** Changing one entry. *)
Lemma same_rel_insert (R : CBlockIndex -> CBlockIndex -> Prop) m p b b' :
  Reflexive R -> m !! p = Some b -> R b b' ->
  map_relation (fun _ => R) (fun _ _ => False) (fun _ _ => False) m (<[p := b']> m).
Proof.
  intros HR Hp Hb q. destruct (decide (q = p)) as [-> | Hne].
  - rewrite Hp, lookup_insert_eq. done.
  - rewrite lookup_insert_ne by done. by destruct (m !! q); cbn.
Qed.

Lemma same_index_sym m m' : same_index m m' -> same_index m' m.
Proof. apply (same_rel_sym same_links). apply _. Qed.

Lemma same_index_tree m m' : same_index m m' -> same_tree m m'.
Proof. intros H p. specialize (H p). destruct (m !! p), (m' !! p); cbn in *; try done. by destruct H. Qed.

Lemma same_index_counted m m' : same_index m m' -> same_counted m m'.
Proof.
  intros H p. specialize (H p). destruct (m !! p), (m' !! p); cbn in *; try done. by destruct H as (? & _ & ? & ?).
Qed.

Lemma same_counted_sym m m' : same_counted m m' -> same_counted m' m.
Proof. apply (same_rel_sym same_counts). apply _. Qed.

Lemma same_counted_tree m m' : same_counted m m' -> same_tree m m'.
Proof. intros H p. specialize (H p). destruct (m !! p), (m' !! p); cbn in *; try done. by destruct H. Qed.

Lemma walk_same m m' p n : same_tree m m' -> walk m p n = walk m' p n.
Proof.
  intros H. revert p. induction n as [| n IH]; intros p; [done |]. cbn [walk].
  pose proof (H p) as Hp. destruct (m !! p) as [b |], (m' !! p) as [b' |]; cbn in Hp; try done.
  cbn. destruct Hp as (-> & _). destruct (pprev b'); [apply IH | done].
Qed.

Lemma is_ancestor_same m m' p q : same_tree m m' -> is_ancestor m p q <-> is_ancestor m' p q.
Proof. intros H. unfold is_ancestor. by setoid_rewrite (walk_same m m' p _ H). Qed.

Lemma path_same m m' p n : same_tree m m' -> path m p n = path m' p n.
Proof. intros H. unfold path. apply map_ext. intros i. by apply walk_same. Qed.

Lemma ancestor_at_same m m' p h : same_tree m m' -> ancestor_at m p h = ancestor_at m' p h.
Proof.
  intros H. unfold ancestor_at. pose proof (H p) as Hp.
  destruct (m !! p) as [b |], (m' !! p) as [b' |]; cbn in Hp; try done.
  cbn. destruct Hp as (_ & _ & -> & _). by rewrite (walk_same m m' p _ H).
Qed.

Lemma wf_tree_same m m' : same_tree m m' -> wf_tree m -> wf_tree m'.
Proof.
  intros H [Hs Hf]. apply (same_rel_sym same_block) in H as H'; [| apply _].
  split; intros p b' Hp; destruct (same_rel_lookup _ _ _ _ _ H' Hp) as (b & Hb & E & E1 & E2 & E3 & E4 & E5 & E6).
  - specialize (Hs p b Hb). unfold wf_index in *. rewrite E, E1, E2. destruct (pprev b) as [q |]; [| done].
    destruct Hs as (bq & Hq & H0 & H1 & H2). destruct (same_rel_lookup _ _ _ _ _ H Hq) as (bq' & Hq' & Eq).
    exists bq'. destruct Eq as (_ & _ & <- & _). rewrite <- (ancestor_at_same m m' q _ H). done.
  - specialize (Hf p b Hb). unfold wf_meta in *. rewrite E, E3, E4, E5, E6. destruct Hf as (F1 & F2 & F3 & F4).
    do 3 (split; [done |]). destruct (pprev b) as [q |]; [| done].
    destruct F4 as (bq & Hq & H1). destruct (same_rel_lookup _ _ _ _ _ H Hq) as (bq' & Hq' & Eq).
    exists bq'. destruct Eq as (_ & _ & _ & <- & _ & _ & <-). done.
Qed.

Lemma best_ok_same st st' :
  same_tree (mapBlockIndex st) (mapBlockIndex st') -> pindexBestHeader st' = pindexBestHeader st ->
  best_ok st -> best_ok st'.
Proof.
  intros H E. unfold best_ok. rewrite E. destruct (pindexBestHeader st) as [best |].
  - intros (bb & Hbb & Hmax). destruct (same_rel_lookup _ _ _ _ _ H Hbb) as (bb' & Hbb' & Eb). exists bb'.
    split; [done |]. intros p b' Hp.
    destruct (same_rel_lookup _ _ _ _ _ (same_rel_sym same_block _ _ _ H) Hp) as (b & Hb & Ep).
    destruct Eb as (_ & _ & _ & <- & _), Ep as (_ & _ & _ & -> & _). by apply (Hmax p).
  - intros Hm. apply map_empty. intros p. specialize (H p). rewrite Hm, lookup_empty in H.
    by destruct (mapBlockIndex st' !! p).
Qed.

Lemma chain_ok_same m m' v : same_tree m m' -> chain_ok m v -> chain_ok m' v.
Proof.
  intros H [-> | (t & bt & Ht & ->)]; [by left |]. right.
  destruct (same_rel_lookup _ _ _ _ _ H Ht) as (bt' & Ht' & Eq). exists t, bt'. split; [done |].
  destruct Eq as (_ & _ & <- & _). by apply path_same.
Qed.

End SameTree.

(** ** The order *)

Section Order.
Variable addr : ptr -> Z.

Abbreviation work b := (val256 (nChainWork b)).

(** [p] is worse than [q]: less work, or as much and received later. *)
Definition worse (m : gmap ptr CBlockIndex) (p q : ptr) : Prop :=
  exists a b, m !! p = Some a /\ m !! q = Some b /\
    (work a < work b \/ work a = work b /\
      (nSequenceId b < nSequenceId a \/ nSequenceId b = nSequenceId a /\ addr q < addr p)).

Definition works_ok (m : gmap ptr CBlockIndex) : Prop := forall p b, m !! p = Some b -> wf256 (nChainWork b).

Lemma wf_tree_works m : wf_tree m -> works_ok m.
Proof. intros [_ Hf] p b Hp. by apply (Hf p b). Qed.

Lemma comparator_spec m p q a b :
  works_ok m -> m !! p = Some a -> m !! q = Some b ->
  exists w, CBlockIndexWorkComparator addr m p q = Some w /\ (w = true <-> worse m p q).
Proof.
  intros Hw Ha Hb. unfold CBlockIndexWorkComparator. rewrite Ha, Hb. cbn [mbind option_bind].
  eexists. split; [done |]. rewrite CompareTo_value by eauto.
  assert (worse m p q <-> (work a < work b \/ work a = work b /\
      (nSequenceId b < nSequenceId a \/ nSequenceId b = nSequenceId a /\ addr q < addr p))) as ->.
  { split; [intros (? & ? & ? & ? & ?); simplify_eq; done | intros; exists a, b; done]. }
  destruct (Z.compare_spec (work a) (work b)); cbn;
    repeat match goal with |- context [?x <? ?y] => destruct (Z.ltb_spec x y) end; split; intros; try done; lia.
Qed.

Lemma worse_irrefl m p : ~ worse m p p.
Proof. intros (a & b & Ha & Hb & H). simplify_eq. lia. Qed.

Lemma worse_trans m p q r : worse m p q -> worse m q r -> worse m p r.
Proof.
  intros (a & b & Ha & Hb & H) (b' & c & Hb' & Hc & H'). simplify_eq. exists a, c.
  split; [done |]. split; [done |]. lia.
Qed.

Lemma worse_same m m' p q : same_index m m' -> worse m p q -> worse m' p q.
Proof.
  intros H (a & b & Ha & Hb & Hlt).
  destruct (same_rel_lookup _ _ _ _ _ H Ha) as (a' & Ha' & (_ & _ & _ & Ea & _) & Sa & _).
  destruct (same_rel_lookup _ _ _ _ _ H Hb) as (b' & Hb' & (_ & _ & _ & Eb & _) & Sb & _).
  exists a', b'. rewrite <- Ea, <- Eb, <- Sa, <- Sb. done.
Qed.

Lemma worse_same_iff m m' p q : same_index m m' -> worse m p q <-> worse m' p q.
Proof.
  intros H. split; apply worse_same; [done |]. by apply same_index_sym.
Qed.

Lemma worse_candidates_spec m tip l :
  works_ok m -> is_Some (m !! tip) -> (forall p, p ∈ l -> is_Some (m !! p)) ->
  exists X, worse_candidates addr m tip l = Some X /\ forall p, p ∈ X <-> p ∈ l /\ worse m p tip.
Proof.
  intros Hw [bt Ht]. induction l as [| p l IH]; intros Hl; [exists ∅; set_solver |]. cbn [worse_candidates].
  destruct IH as (X & -> & HX); [set_solver |]. destruct (Hl p) as [bp Hp]; [set_solver |].
  destruct (comparator_spec m p tip bp bt Hw Hp Ht) as (w & -> & Hiff). cbn [mbind option_bind].
  eexists. split; [done |]. intros x. destruct w.
  - rewrite elem_of_union, elem_of_singleton, elem_of_cons, HX. naive_solver.
  - rewrite elem_of_cons, HX. naive_solver.
Qed.

(** The addresses of distinct objects are distinct. *)
Hypothesis addr_inj : forall p q, addr p = addr q -> p = q.

Lemma worse_total m p q : is_Some (m !! p) -> is_Some (m !! q) -> p = q \/ worse m p q \/ worse m q p.
Proof using addr_inj.
  intros [a Ha] [b Hb]. destruct (Z.lt_trichotomy (addr p) (addr q)) as [H | [H | H]]; [| by left; apply addr_inj |].
  - destruct (Z.lt_trichotomy (work a) (work b)) as [? | [? | ?]],
      (Z.lt_trichotomy (nSequenceId a) (nSequenceId b)) as [? | [? | ?]]; right;
      (left; exists a, b; split_and!; [done | done | lia]) || (right; exists b, a; split_and!; [done | done | lia]).
  - destruct (Z.lt_trichotomy (work a) (work b)) as [? | [? | ?]],
      (Z.lt_trichotomy (nSequenceId a) (nSequenceId b)) as [? | [? | ?]]; right;
      (left; exists a, b; split_and!; [done | done | lia]) || (right; exists b, a; split_and!; [done | done | lia]).
Qed.

(** If [q] is not worse than [r], being worse than [r] is being worse
    than [q] or than the two together. *)
Lemma worse_not_worse m p q r : is_Some (m !! q) -> is_Some (m !! r) -> worse m p q -> ~ worse m r q -> worse m p r.
Proof using addr_inj.
  intros Hq Hr Hp Hn. destruct (worse_total m q r Hq Hr) as [-> | [H | H]]; [done | | done].
  by apply (worse_trans m p q r).
Qed.

Lemma last_candidate_spec m l :
  works_ok m -> (forall p, p ∈ l -> is_Some (m !! p)) ->
  exists r, last_candidate addr m l = Some r /\
    match r with
    | None => l = []
    | Some p => p ∈ l /\ forall q, q ∈ l -> ~ worse m p q
    end.
Proof using addr_inj.
  intros Hw. induction l as [| p l IH]; intros Hl; [by exists None |]. cbn [last_candidate].
  destruct IH as (r & -> & Hr); [set_solver |]. cbn [mbind option_bind]. destruct r as [q |].
  - destruct Hr as [Hq Hmax]. destruct (Hl p) as [bp Hp]; [set_solver |]. destruct (Hl q) as [bq Hbq]; [set_solver |].
    destruct (comparator_spec m q p bq bp Hw Hbq Hp) as (w & -> & Hiff). cbn [mbind option_bind].
    eexists. split; [done |]. destruct w; cbn.
    + split; [set_solver |]. intros x [-> | Hx]%elem_of_cons; [apply worse_irrefl |]. intros Hpx.
      apply (Hmax x Hx). apply (worse_trans m q p x); [by apply Hiff | done].
    + split; [set_solver |]. intros x [-> | Hx]%elem_of_cons; [| by apply Hmax]. intros ?%Hiff. done.
  - subst l. exists (Some p). split; [done |]. split; [set_solver |].
    intros q [-> | []%elem_of_nil]%elem_of_cons. apply worse_irrefl.
Qed.

End Order.

(** ** Linked, failed and waiting blocks *)

Section Shape.
Context {W : Type}.

Implicit Types (m : gmap ptr CBlockIndex) (s : ChainState W) (p q r : ptr).

Definition linked m p : Prop := exists b, m !! p = Some b /\ nChainTx b <> 0.
Definition failed m p : Prop := exists b, m !! p = Some b /\ is_failed b = true.

(** No block of the chain of [p] is marked failed. *)
Definition clean m p : Prop := forall a, is_ancestor m p a -> ~ failed m a.

(** Transactions of a chain of at most [n] blocks above the last. *)
Fixpoint chain_tx (n : nat) m p : Z :=
  match m !! p with
  | None => 0
  | Some b => nTx b + match n, pprev b with S n, Some q => chain_tx n m q | _, _ => 0 end
  end.

(** [v] is the chain of the tip [t]. *)
Definition active m (t : option ptr) (v : CChain) : Prop :=
  match t with
  | None => v = []
  | Some t => exists bt, m !! t = Some bt /\ v = path m t (Z.to_nat (nHeight bt))
  end.

(** A block that has been received and is not linked yet. *)
Definition unlinked_block (b : CBlockIndex) : Prop :=
  0 < nTx b /\ nChainTx b = 0 /\ has_flag b BLOCK_HAVE_DATA = true /\ BLOCK_VALID_TRANSACTIONS <= level b.

(** An entry of [mapBlocksUnlinked]: the parent is not linked either. *)
Definition waits m (e : option ptr * ptr) : Prop :=
  exists b q bq, m !! e.2 = Some b /\ pprev b = Some q /\ e.1 = Some q /\ unlinked_block b /\
    m !! q = Some bq /\ nChainTx bq = 0.

(** ** Failure marks *)

(** [s'] is [s] with failure marks on the blocks of [X], which are no
    longer candidates. *)
Record marks (X : gset ptr) s s' : Prop := {
  marks_index : same_index (blocks s) (blocks s');
  marks_flags p b b' : blocks s !! p = Some b -> blocks s' !! p = Some b' ->
    level b <= level b' /\ has_flag b' BLOCK_HAVE_DATA = has_flag b BLOCK_HAVE_DATA /\
    (is_failed b' = true <-> is_failed b = true \/ p ∈ X) /\
    (has_flag b BLOCK_FAILED_VALID = true -> has_flag b' BLOCK_FAILED_VALID = true);
  marks_chain : chainActive s' = chainActive s;
  marks_ledger : ledger s' = ledger s;
  marks_unlinked : mapBlocksUnlinked s' = mapBlocksUnlinked s;
  marks_candidates p : p ∈ setBlockIndexCandidates s' <-> p ∈ setBlockIndexCandidates s /\ p ∉ X;
  marks_failed p : p ∈ g_failed_blocks s' ->
    p ∈ g_failed_blocks s \/ exists b', blocks s' !! p = Some b' /\ has_flag b' BLOCK_FAILED_VALID = true;
  marks_best_invalid p : pindexBestInvalid s' = Some p -> pindexBestInvalid s = Some p \/ is_Some (blocks s' !! p);
  marks_best_header : pindexBestHeader (block_index s') = pindexBestHeader (block_index s)
}.

Lemma marks_refl s : marks ∅ s s.
Proof.
  split; try done; [apply (same_rel_refl same_links); apply _ | | set_solver | eauto | eauto].
  intros p b b' Hb Hb'. simplify_eq. split_and!; try done. set_solver.
Qed.

Lemma marks_trans X Y s1 s2 s3 : marks X s1 s2 -> marks Y s2 s3 -> marks (X ∪ Y) s1 s3.
Proof.
  intros H H'. pose proof (marks_index _ _ _ H) as Hi. pose proof (marks_index _ _ _ H') as Hi'. split.
  - by apply (same_rel_trans same_links _ _ _ _ Hi Hi').
  - intros p b b3 Hb Hb3. destruct (same_rel_lookup _ _ _ _ _ Hi Hb) as (b2 & Hb2 & _).
    destruct (marks_flags _ _ _ H p b b2 Hb Hb2) as (L1 & D1 & E1 & V1).
    destruct (marks_flags _ _ _ H' p b2 b3 Hb2 Hb3) as (L2 & D2 & E2 & V2).
    split_and!; [lia | congruence | set_solver | auto].
  - by rewrite (marks_chain _ _ _ H'), (marks_chain _ _ _ H).
  - by rewrite (marks_ledger _ _ _ H'), (marks_ledger _ _ _ H).
  - by rewrite (marks_unlinked _ _ _ H'), (marks_unlinked _ _ _ H).
  - intros p. rewrite (marks_candidates _ _ _ H'), (marks_candidates _ _ _ H). set_solver.
  - intros p Hp. destruct (marks_failed _ _ _ H' p Hp) as [Hp2 | ?]; [| by right].
    destruct (marks_failed _ _ _ H p Hp2) as [? | (b2 & Hb2 & Hv)]; [by left | right].
    destruct (same_rel_lookup _ _ _ _ _ Hi' Hb2) as (b3 & Hb3 & _). exists b3. split; [done |].
    by apply (marks_flags _ _ _ H' p b2 b3 Hb2 Hb3).
  - intros p Hp. destruct (marks_best_invalid _ _ _ H' p Hp) as [Hp2 | ?]; [| by right].
    destruct (marks_best_invalid _ _ _ H p Hp2) as [? | [b2 Hb2]]; [by left | right].
    destruct (same_rel_lookup _ _ _ _ _ Hi' Hb2) as (b3 & Hb3 & _). eauto.
  - by rewrite (marks_best_header _ _ _ H'), (marks_best_header _ _ _ H).
Qed.

(** ** Marking a block *)

Lemma marks_one flag p b s s' :
  blocks s !! p = Some b -> Z.land flag BLOCK_FAILED_MASK <> 0 ->
  Z.land flag BLOCK_VALID_MASK = 0 -> Z.land flag BLOCK_HAVE_DATA = 0 ->
  blocks s' = <[p := set_flag flag b]> (blocks s) ->
  chainActive s' = chainActive s -> ledger s' = ledger s -> mapBlocksUnlinked s' = mapBlocksUnlinked s ->
  setBlockIndexCandidates s' = setBlockIndexCandidates s ∖ {[ p ]} ->
  (g_failed_blocks s' = g_failed_blocks s \/
   g_failed_blocks s' = {[ p ]} ∪ g_failed_blocks s /\ flag = BLOCK_FAILED_VALID) ->
  pindexBestInvalid s' = pindexBestInvalid s ->
  pindexBestHeader (block_index s') = pindexBestHeader (block_index s) -> marks {[ p ]} s s'.
Proof.
  intros Hp F1 F2 F3 Eb Ev El Eu Ec Ef Ei Eh.
  split; try done.
  - rewrite Eb. by apply (same_rel_insert same_links _ p b); [apply _ | | split_and!].
  - intros q c c' Hc Hc'. rewrite Eb, lookup_insert in Hc'. case_decide as Hd.
    + subst q. simplify_eq. rewrite (level_set flag b F2), (has_set_other flag _ b F3), (has_set flag _ b F1).
      split_and!; [done | done | set_solver |].
      unfold has_flag, set_flag. cbn. rewrite Z.land_lor_distr_l. intros H.
      destruct (Z.eqb_spec (Z.lor (Z.land (nStatus b) BLOCK_FAILED_VALID) (Z.land flag BLOCK_FAILED_VALID)) 0) as [E |]; [| done].
      apply Z.lor_eq_0_iff in E as [E _]. by rewrite E in H.
    + simplify_eq. split_and!; try done. set_solver.
  - rewrite Ec. set_solver.
  - intros q. destruct Ef as [-> | [-> ->]]; [by left |]. intros [->%elem_of_singleton | ?]%elem_of_union; [| by left].
    right. rewrite Eb, lookup_insert_eq. eexists. split; [done |]. by apply has_set.
  - intros q Hq. left. congruence.
Qed.

Lemma InvalidChainFound_marks p s :
  is_Some (blocks s !! p) -> (forall i, pindexBestInvalid s = Some i -> is_Some (blocks s !! i)) ->
  is_Some (Tip (chainActive s)) ->
  exists s', InvalidChainFound p s = Some s' /\ marks ∅ s s' /\ block_index s' = block_index s.
Proof.
  intros [b Hb] Hi [t Ht]. unfold InvalidChainFound. rewrite Hb. cbn [mbind option_bind].
  assert (exists bi, match pindexBestInvalid s with
    | Some i => x ← blocks s !! i; Some (0 <? CompareTo W256 (nChainWork b) (nChainWork x))
    | None => Some true end = Some bi) as [bi ->].
  { destruct (pindexBestInvalid s) as [i |] eqn:E; [| eauto]. destruct (Hi i eq_refl) as [x ->]. cbn. eauto. }
  cbn [mbind option_bind]. destruct bi; cbn [chainActive with_best_invalid]; rewrite Ht; cbn [mbind option_bind];
    eexists; (split; [done |]); (split; [| done]); [| apply marks_refl].
  destruct (marks_refl s) as [M1 M2 M3 M4 M5 M6 M7 M8 M9]. split; try done.
  intros q. cbn. intros [= <-]. right. eauto.
Qed.

Lemma InvalidBlockFound_marks p s :
  is_Some (blocks s !! p) -> (forall i, pindexBestInvalid s = Some i -> is_Some (blocks s !! i)) ->
  is_Some (Tip (chainActive s)) ->
  exists s', InvalidBlockFound p false s = Some s' /\ marks {[ p ]} s s'.
Proof.
  intros [b Hb] Hi Ht. unfold InvalidBlockFound, change. rewrite Hb. cbn [mbind option_bind].
  match goal with |- context [InvalidChainFound p ?x] => set (s1 := x) end.
  assert (marks {[ p ]} s s1) as M1.
  { apply (marks_one BLOCK_FAILED_VALID p b); try done. right. done. }
  destruct (InvalidChainFound_marks p s1) as (s2 & E & M2 & _).
  - destruct (same_rel_lookup _ _ _ _ _ (marks_index _ _ _ M1) Hb) as (b1 & Hb1 & _). eauto.
  - intros i Hi'. destruct (marks_best_invalid _ _ _ M1 i Hi') as [Hi2 | ?]; [| done].
    destruct (Hi i Hi2) as [x Hx]. destruct (same_rel_lookup _ _ _ _ _ (marks_index _ _ _ M1) Hx) as (x1 & Hx1 & _). eauto.
  - done.
  - exists s2. split; [done |]. rewrite <- (union_empty_r_L {[ p ]}). by apply (marks_trans _ _ s s1).
Qed.

(** [ConnectBlock_index] changes no failure mark and no link. *)
Lemma ConnectBlock_index_marks p b pos s :
  blocks s !! p = Some b -> exists s', ConnectBlock_index p pos s = Some s' /\ marks ∅ s s'.
Proof.
  intros Hp. unfold ConnectBlock_index. rewrite Hp. cbn [mbind option_bind].
  destruct (pprev b) as [q |]; [| exists s; split; [done | apply marks_refl]].
  destruct (_ || _); [| exists s; split; [done | apply marks_refl]].
  set (b1 := if negb (has_flag b BLOCK_HAVE_UNDO) then _ else b).
  assert (same_links b b1 /\ level b1 = level b /\
    forall flag, Z.land BLOCK_HAVE_UNDO flag = 0 -> has_flag b1 flag = has_flag b flag) as (S1 & L1 & F1).
  { subst b1. destruct (negb _); [| by split_and!]. split; [by split_and! |].
    split; [by rewrite level_set |]. intros flag Hf. by rewrite has_set_other. }
  clearbody b1. destruct (RaiseValidity_flags b1 BLOCK_VALID_SCRIPTS BLOCK_HAVE_DATA) as (D & Lv & _); try done.
  destruct (RaiseValidity_flags b1 BLOCK_VALID_SCRIPTS BLOCK_FAILED_MASK) as (M & _); try done.
  destruct (RaiseValidity_flags b1 BLOCK_VALID_SCRIPTS BLOCK_FAILED_VALID) as (V & _); try done.
  rewrite F1 in D, M, V by done. eexists. split; [done |].
  assert (same_links b (snd (RaiseValidity b1 BLOCK_VALID_SCRIPTS))) as S2
    by (etrans; [exact S1 | apply RaiseValidity_links]).
  match goal with |- marks ∅ s ?y =>
    assert (blocks y = <[p := snd (RaiseValidity b1 BLOCK_VALID_SCRIPTS)]> (blocks s)) as Eb by done end.
  destruct (marks_refl s) as [K1 K2 K3 K4 K5 K6 K7 K8 K9]. split; try done; rewrite Eb.
  - by apply (same_rel_insert same_links _ p b); [apply _ | |].
  - intros x c c' Hc Hc'. rewrite lookup_insert in Hc'. case_decide as Hd.
    + subst x. simplify_eq. rewrite D, M, V. split_and!; try done; [lia | set_solver].
    + simplify_eq. split_and!; try done. set_solver.
  - by left.
  - by left.
Qed.

End Shape.

(** ** The ledger contract *)

(** The chains whose blocks are all valid, from the genesis block up. *)
Inductive replayed (parent : ptr -> option ptr) (valid : ptr -> bool) : option ptr -> Prop :=
| replayed_root : replayed parent valid None
| replayed_next p :
    replayed parent valid (parent p) -> valid p = true -> replayed parent valid (Some p).

(** What the chain selection relies on: validity is a function of the block
    (and so of the chain it ends); [world t w] says that [w] is a ledger of the
    valid chain that ends in [t]; a valid block read from disk is connected
    and the tip is disconnected again, an invalid one is rejected for breaking
    a rule, the disk works, and there is one genesis block, which is not
    checked and never disconnected. *)
Class LedgerOk {W : Type} (L : Ledger W) (parent : ptr -> option ptr) (valid : ptr -> bool)
    (world : option ptr -> W -> Prop) : Prop := {
  connect_valid p w : replayed parent valid (parent p) -> valid p = true ->
    world (parent p) w -> exists w' pos, connect_block L w None p = Connected w' pos /\ world (Some p) w';
  connect_invalid p w : replayed parent valid (parent p) -> valid p = false ->
    world (parent p) w -> connect_block L w None p = InvalidBlock false;
  disconnect_valid p q w : parent p = Some q -> replayed parent valid (Some p) ->
    world (Some p) w -> exists w', disconnect_block L w p = Some w' /\ world (Some q) w';
  flush_works w : flush_state L w = true;
  genesis_valid p : parent p = None -> valid p = true;
  one_genesis p q : parent p = None -> parent q = None -> p = q
}.

(** ** The invariant *)

Section Invariant.
Context {W : Type}.
Variable addr : ptr -> Z.
Context (L : Ledger W) (parent : ptr -> option ptr) (valid : ptr -> bool) (world : option ptr -> W -> Prop).

Implicit Types (m : gmap ptr CBlockIndex) (s : ChainState W) (p q r : ptr).

Abbreviation work b := (val256 (nChainWork b)).

(** The chain of [p] can be the active one. *)
Definition good m p : Prop := linked m p /\ clean m p /\ replayed parent valid (Some p).

(** The same of a block that need not be linked. *)
Definition sound m p : Prop := clean m p /\ replayed parent valid (Some p).

Record index_ok m : Prop := {
  ok_tree : wf_tree m;
  ok_parent p b : m !! p = Some b -> pprev b = parent p;
  ok_work p b q bq : m !! p = Some b -> pprev b = Some q -> m !! q = Some bq -> work bq < work b;
  ok_linked p b q : m !! p = Some b -> nChainTx b <> 0 -> pprev b = Some q -> linked m q;
  ok_data p b : m !! p = Some b -> nChainTx b <> 0 ->
    has_flag b BLOCK_HAVE_DATA = true /\ BLOCK_VALID_TRANSACTIONS <= level b;
  ok_tx p b : m !! p = Some b -> 0 <= nTx b;
  ok_level p b : m !! p = Some b -> BLOCK_VALID_TREE <= level b;
  ok_chain_tx p b : m !! p = Some b -> nChainTx b <> 0 -> nChainTx b = chain_tx (Z.to_nat (nHeight b)) m p;
  ok_received p b : m !! p = Some b -> nChainTx b <> 0 -> 0 < nTx b
}.

Record Inv s : Prop := {
  inv_best_header : best_ok (block_index s);
  inv_index : index_ok (blocks s);
  inv_active : active (blocks s) (Tip (chainActive s)) (chainActive s);
  inv_tip t : Tip (chainActive s) = Some t -> good (blocks s) t;
  inv_ledger : world (Tip (chainActive s)) (ledger s);
  inv_candidates p : p ∈ setBlockIndexCandidates s -> linked (blocks s) p;
  inv_failed p : p ∈ g_failed_blocks s -> exists b, blocks s !! p = Some b /\ has_flag b BLOCK_FAILED_VALID = true;
  inv_best_invalid p : pindexBestInvalid s = Some p -> is_Some (blocks s !! p);
  inv_unlinked e : e ∈ mapBlocksUnlinked s -> waits (blocks s) e;
  inv_unlinked_once : NoDup (snd <$> mapBlocksUnlinked s);
  inv_waiting p b : blocks s !! p = Some b -> 0 < nTx b -> nChainTx b = 0 -> (pprev b, p) ∈ mapBlocksUnlinked s
}.

(** Every linked block that is not marked and not worse than [R] is a
    candidate. *)
Definition complete m (C : gset ptr) (R : option ptr) : Prop :=
  forall p b, m !! p = Some b -> nChainTx b <> 0 -> is_failed b = false ->
    (forall r, R = Some r -> ~ worse addr m p r) -> p ∈ C.

(** The candidates are complete from some usable block on that is at least
    as good as the tip. *)
Definition covered s : Prop :=
  exists R, complete (blocks s) (setBlockIndexCandidates s) R /\
    (forall r, R = Some r -> good (blocks s) r /\
      forall t, Tip (chainActive s) = Some t -> ~ worse addr (blocks s) r t) /\
    (R = None -> Tip (chainActive s) = None).

(** ** Chains *)

Lemma Tip_active m t v : active m t v -> Tip v = t.
Proof.
  destruct t as [t |]; cbn; [| by intros ->]. intros (bt & Ht & ->). unfold Tip. rewrite length_path.
  destruct (Nat.ltb_spec 0 (Z.to_nat (nHeight bt) + 1)); [| lia]. rewrite nth_lookup, lookup_path by lia. cbn.
  by replace (Z.to_nat (nHeight bt) - (Z.to_nat (nHeight bt) + 1 - 1))%nat with 0%nat by lia.
Qed.

Lemma active_ok m t v : active m t v -> chain_ok m v.
Proof. destruct t as [t |]; cbn; [intros (bt & ? & ?); right; eauto | by left]. Qed.

Lemma active_same m m' t v : same_tree m m' -> active m t v -> active m' t v.
Proof.
  intros H. destruct t as [t |]; [| done]. intros (bt & Ht & ->).
  destruct (same_rel_lookup _ _ _ _ _ H Ht) as (bt' & Ht' & Eq).
  exists bt'. split; [done |]. destruct Eq as (_ & _ & <- & _). by apply path_same.
Qed.

Lemma linked_lookup m p : linked m p -> is_Some (m !! p).
Proof. intros (b & Hb & _). eauto. Qed.

Lemma linked_ancestor m p a : index_ok m -> linked m p -> is_ancestor m p a -> linked m a.
Proof.
  intros Hm Hp [n Hn]. revert p Hp Hn. induction n as [| n IH]; intros p Hp Hn; cbn [walk] in Hn; [by simplify_eq |].
  destruct Hp as (b & Hb & Htx). rewrite Hb in Hn. cbn in Hn. destruct (pprev b) as [q |] eqn:Hq; [| done]. cbn in Hn.
  apply (IH q); [| done]. by apply (ok_linked m Hm p b q).
Qed.

Lemma replayed_ancestor m p a :
  index_ok m -> replayed parent valid (Some p) -> is_ancestor m p a -> replayed parent valid (Some a).
Proof.
  intros Hm Hp [n Hn]. revert p Hp Hn. induction n as [| n IH]; intros p Hp Hn; cbn [walk] in Hn; [by simplify_eq |].
  destruct (m !! p) as [b |] eqn:Hb; [| done]. cbn in Hn. destruct (pprev b) as [q |] eqn:Hq; [| done]. cbn in Hn.
  apply (IH q); [| done]. inversion Hp as [| p' Hr Hv]; subst. by rewrite <- (ok_parent m Hm p b Hb), Hq in Hr.
Qed.

Lemma good_ancestor m p a : index_ok m -> good m p -> is_ancestor m p a -> good m a.
Proof.
  intros Hm (Hl & Hc & Hr) Ha. split; [by apply (linked_ancestor m p) |].
  split; [| by apply (replayed_ancestor m p)].
  intros x Hx. apply Hc. by apply (is_ancestor_trans m p a x).
Qed.

(** A block has more work than its ancestors, so it is not worse. *)
Lemma ancestor_work m p a bp ba :
  index_ok m -> is_ancestor m p a -> m !! p = Some bp -> m !! a = Some ba -> p = a \/ work ba < work bp.
Proof.
  intros Hm [n Hn]. revert p bp Hn. induction n as [| n IH]; intros p bp Hn Hp Ha; cbn [walk] in Hn;
    [left; by simplify_eq |].
  rewrite Hp in Hn. cbn in Hn. destruct (pprev bp) as [q |] eqn:Hq; [| done]. cbn in Hn. right.
  destruct (parent_height m (proj1 (ok_tree m Hm)) p bp q Hp Hq) as (bq & Hbq & _).
  pose proof (ok_work m Hm p bp q bq Hp Hq Hbq). destruct (IH q bq Hn Hbq Ha) as [-> | ?]; [simplify_eq; lia | lia].
Qed.

Lemma not_worse_ancestor m p a :
  index_ok m -> is_Some (m !! p) -> is_ancestor m p a -> ~ worse addr m p a.
Proof.
  intros Hm [bp Hp] Ha (b & ba & Hb & Hba & H). simplify_eq.
  destruct (ancestor_work m p a bp ba Hm Ha Hp Hba) as [-> | ?]; [simplify_eq; lia | lia].
Qed.

Lemma Contains_spec m t v p :
  wf_store m -> active m t v -> is_Some (m !! p) ->
  exists c, Contains m v p = Some c /\ (c = true <-> exists t', t = Some t' /\ is_ancestor m t' p).
Proof.
  intros Hm Hv [b Hp]. unfold Contains. rewrite Hp. cbn [mbind option_bind]. eexists. split; [done |].
  rewrite bool_decide_eq_true. destruct t as [t |]; cbn in Hv.
  - destruct Hv as (bt & Ht & ->). rewrite (chain_at_path m Hm t bt p b Ht Hp).
    split; [eauto | intros (? & [= <-] & ?); done].
  - subst v. unfold chain_at. split; [| intros (? & ? & _); done].
    destruct (_ || _); [done |]. by destruct (Z.to_nat (nHeight b)).
Qed.

(** ** Changes of the flags only *)

Lemma chain_tx_same m m' p n : same_counted m m' -> chain_tx n m p = chain_tx n m' p.
Proof.
  intros H. revert p. induction n as [| n IH]; intros p; cbn [chain_tx]; pose proof (H p) as Hp;
    destruct (m !! p) as [b |], (m' !! p) as [b' |]; cbn in Hp; try done;
    destruct Hp as ((E & _) & -> & _); [done |]. rewrite E. destruct (pprev b'); [| done]. by rewrite IH.
Qed.

Lemma linked_same m m' p : same_counted m m' -> linked m p -> linked m' p.
Proof.
  intros H (b & Hb & Hn). destruct (same_rel_lookup _ _ _ _ _ H Hb) as (b' & Hb' & _ & _ & E).
  exists b'. split; [done |]. by rewrite <- E.
Qed.

Lemma index_ok_same m m' :
  same_counted m m' ->
  (forall p b b', m !! p = Some b -> m' !! p = Some b' ->
     level b <= level b' /\ has_flag b' BLOCK_HAVE_DATA = has_flag b BLOCK_HAVE_DATA) ->
  index_ok m -> index_ok m'.
Proof.
  intros H Hf Hm. pose proof (same_counted_tree _ _ H) as Ht.
  assert (same_counted m' m) as H' by (by apply same_counted_sym).
  split.
  - by apply (wf_tree_same m m' Ht), Hm.
  - intros p b' Hp. destruct (same_rel_lookup _ _ _ _ _ H' Hp) as (b & Hb & (-> & _) & _). by apply (ok_parent m Hm).
  - intros p b' q bq' Hp Hq Hbq. destruct (same_rel_lookup _ _ _ _ _ H' Hp) as (b & Hb & (Ep & _ & _ & Ew & _) & _).
    destruct (same_rel_lookup _ _ _ _ _ H' Hbq) as (bq & Hbq' & (_ & _ & _ & Ewq & _) & _).
    rewrite Ew, Ewq. rewrite Ep in Hq. by apply (ok_work m Hm p b q bq).
  - intros p b' q Hp Hn Hq. destruct (same_rel_lookup _ _ _ _ _ H' Hp) as (b & Hb & (Ep & _) & _ & En).
    rewrite Ep in Hq. rewrite En in Hn. apply (linked_same m m' q H). by apply (ok_linked m Hm p b q).
  - intros p b' Hp Hn. destruct (same_rel_lookup _ _ _ _ _ H' Hp) as (b & Hb & _ & _ & En). rewrite En in Hn.
    destruct (ok_data m Hm p b Hb Hn). destruct (Hf p b b' Hb Hp) as [? ->]. split; [done | lia].
  - intros p b' Hp. destruct (same_rel_lookup _ _ _ _ _ H' Hp) as (b & Hb & _ & En & _). rewrite En.
    by apply (ok_tx m Hm p).
  - intros p b' Hp. destruct (same_rel_lookup _ _ _ _ _ H' Hp) as (b & Hb & _).
    destruct (Hf p b b' Hb Hp) as [? _]. pose proof (ok_level m Hm p b Hb). lia.
  - intros p b' Hp Hn. destruct (same_rel_lookup _ _ _ _ _ H' Hp) as (b & Hb & (_ & _ & Eh & _) & _ & En).
    rewrite En in Hn. rewrite En, Eh, <- (chain_tx_same m m' p _ H). by apply (ok_chain_tx m Hm).
  - intros p b' Hp Hn. destruct (same_rel_lookup _ _ _ _ _ H' Hp) as (b & Hb & _ & Et & En). rewrite En in Hn. rewrite Et.
    by apply (ok_received m Hm p).
Qed.

(** The same blocks with the same flags, ordered differently. *)
Definition same_status m m' : Prop :=
  forall p b b', m !! p = Some b -> m' !! p = Some b' -> nStatus b' = nStatus b.

Lemma good_counted m m' p : same_counted m m' -> same_status m m' -> good m p -> good m' p.
Proof.
  intros H Hst (Hl & Hc & Hr). split; [by apply (linked_same m) |]. split; [| done].
  intros a Ha (b' & Hb' & Hf). destruct (same_rel_lookup _ _ _ _ _ (same_counted_sym _ _ H) Hb') as (b & Hb & _).
  apply (Hc a); [by apply (is_ancestor_same _ _ _ _ (same_counted_tree _ _ H)) |]. exists b. split; [done |].
  unfold has_flag in *. by rewrite <- (Hst a b b' Hb Hb').
Qed.

Section Marks.
Context (X : gset ptr) (s s' : ChainState W) (HX : marks X s s').

Lemma marks_clean p :
  is_Some (blocks s !! p) -> wf_store (blocks s) -> clean (blocks s) p ->
  (forall x, x ∈ X -> ~ is_ancestor (blocks s) p x) -> clean (blocks s') p.
Proof using HX.
  intros [bp Hp] Hm Hc Hn a Ha (b' & Hb' & Hf). pose proof (marks_index _ _ _ HX) as Hi.
  apply (is_ancestor_same _ _ _ _ (same_index_tree _ _ Hi)) in Ha.
  destruct (is_ancestor_lookup _ Hm p bp a Hp Ha) as [b Hb].
  apply (marks_flags _ _ _ HX a b b' Hb Hb') in Hf as [Hf | Hf]; [| by apply (Hn a)].
  apply (Hc a Ha). by exists b.
Qed.

Lemma marks_good p :
  wf_store (blocks s) -> good (blocks s) p -> (forall x, x ∈ X -> ~ is_ancestor (blocks s) p x) ->
  good (blocks s') p.
Proof using HX.
  intros Hm (Hl & Hc & Hr) Hn. pose proof (marks_index _ _ _ HX).
  split; [by apply (linked_same (blocks s)); [apply same_index_counted |] |]. split; [| done].
  apply marks_clean; try done. by apply linked_lookup.
Qed.

Lemma marks_Inv : Inv s -> (forall t x, Tip (chainActive s) = Some t -> x ∈ X -> ~ is_ancestor (blocks s) t x) -> Inv s'.
Proof using HX.
  intros Hs Hn. pose proof (marks_index _ _ _ HX) as Hi. destruct Hs as [I0 I1 I2 I3 I4 I5 I6 I7 I8 I9 I10].
  split.
  - by apply (best_ok_same (block_index s)); [apply same_index_tree | apply HX |].
  - apply (index_ok_same _ _ (same_index_counted _ _ Hi)); [| done]. intros p b b' Hb Hb'.
    by destruct (marks_flags _ _ _ HX p b b' Hb Hb') as (? & ? & _).
  - rewrite (marks_chain _ _ _ HX). by apply (active_same (blocks s)); [apply same_index_tree |].
  - rewrite (marks_chain _ _ _ HX). intros t Ht. apply marks_good; [apply I1 | by apply I3 |]. intros x. by apply Hn.
  - by rewrite (marks_chain _ _ _ HX), (marks_ledger _ _ _ HX).
  - intros p [Hp _]%(marks_candidates _ _ _ HX). apply (linked_same (blocks s)); [by apply same_index_counted | by apply I5].
  - intros p Hp. destruct (marks_failed _ _ _ HX p Hp) as [Hp' | ?]; [| done].
    destruct (I6 p Hp') as (b & Hb & Hv). destruct (same_rel_lookup _ _ _ _ _ Hi Hb) as (b' & Hb' & _).
    exists b'. split; [done |]. by apply (marks_flags _ _ _ HX p b b').
  - intros p Hp. destruct (marks_best_invalid _ _ _ HX p Hp) as [Hp' | ?]; [| done].
    destruct (I7 p Hp') as [b Hb]. destruct (same_rel_lookup _ _ _ _ _ Hi Hb) as (b' & Hb' & _). eauto.
  - rewrite (marks_unlinked _ _ _ HX). intros e He. destruct (I8 e He) as (b & q & bq & Hb & H1 & H2 & (H3 & H4 & H5 & H6) & Hq & H7).
    destruct (same_rel_lookup _ _ _ _ _ Hi Hb) as (b' & Hb' & (E1 & _) & _ & E2 & E3).
    destruct (same_rel_lookup _ _ _ _ _ Hi Hq) as (bq' & Hq' & _ & _ & _ & E6).
    destruct (marks_flags _ _ _ HX _ b b' Hb Hb') as (E4 & E5 & _). exists b', q, bq'. unfold unlinked_block.
    rewrite E5, <- E1, <- E2, <- E3, <- E6. split_and!; try done. lia.
  - by rewrite (marks_unlinked _ _ _ HX).
  - rewrite (marks_unlinked _ _ _ HX). intros p b' Hp Htx H0.
    destruct (same_rel_lookup _ _ _ _ _ (same_index_sym _ _ Hi) Hp) as (b & Hb & (-> & _) & _ & E2 & E3).
    apply I10; congruence.
Qed.

Lemma marks_complete R :
  complete (blocks s) (setBlockIndexCandidates s) R -> complete (blocks s') (setBlockIndexCandidates s') R.
Proof using HX.
  intros Hc p b' Hp Hn Hf Hw. pose proof (marks_index _ _ _ HX) as Hi.
  assert (same_index (blocks s') (blocks s)) as Hi' by (by apply same_index_sym).
  destruct (same_rel_lookup _ _ _ _ _ Hi' Hp) as (b & Hb & _ & _ & _ & E).
  destruct (marks_flags _ _ _ HX p b b' Hb Hp) as (_ & _ & Hiff & _). apply (marks_candidates _ _ _ HX). split.
  - apply (Hc p b Hb); [by rewrite <- E | |].
    + destruct (is_failed b); [| done]. assert (is_failed b' = true) by (apply Hiff; by left). congruence.
    + intros r Hr Hworse. apply (Hw r Hr). by apply (worse_same addr (blocks s)).
  - intros HpX. assert (is_failed b' = true) by (apply Hiff; by right). congruence.
Qed.

(** Marks on blocks that no usable chain contains. *)
Lemma marks_covered :
  wf_store (blocks s) -> covered s ->
  (forall x p, x ∈ X -> good (blocks s) p -> ~ is_ancestor (blocks s) p x) -> covered s'.
Proof using HX.
  intros Hm (R & Hc & HR & HN) Hn. exists R. split; [by apply marks_complete |].
  rewrite (marks_chain _ _ _ HX). split; [| done]. intros r Hr. destruct (HR r Hr) as [Hg Hw].
  split; [apply marks_good; try done; intros x Hx; by apply Hn |].
  intros t Ht. rewrite <- (worse_same_iff addr (blocks s)); [by apply Hw | apply HX].
Qed.

End Marks.

End Invariant.
