(* ===== verification/BestChainSelect.v ===== *)
(** * [FindMostWorkChain] and [PruneBlockIndexCandidates]

    The search returns the best candidate whose chain is usable; on the way
    it marks and drops only blocks above a failed one. *)

From stdpp Require Import gmap sorting.
From S2P Require Import Prelude ArithUint256 Compact Chain ActiveChain BestChain BestChainInv.
Set Default Proof Using "Type".

Section Select.
Context {W : Type}.
Implicit Types (m : gmap ptr CBlockIndex) (s : ChainState W) (p q : ptr).

Lemma clean_step m p b :
  m !! p = Some b -> is_failed b = false -> (forall q, pprev b = Some q -> clean m q) -> clean m p.
Proof.
  intros Hp Hf Hq a Ha. apply (is_ancestor_step m p b a Hp) in Ha as [-> | (q & Hbq & Ha)].
  - intros (b' & Hb' & ?). simplify_eq. congruence.
  - by apply (Hq q).
Qed.

(** ** Dropping an unusable chain *)

Lemma FindMostWorkChain_remove_spec x : forall fuel bx p b s,
  wf_tree (blocks s) -> blocks s !! x = Some bx -> blocks s !! p = Some b ->
  is_ancestor (blocks s) p x -> nHeight b - nHeight bx <= Z.of_nat fuel ->
  exists s' X, FindMostWorkChain_remove fuel true x p s = Some s' /\ marks X s s' /\
    (forall y, y ∈ X -> is_ancestor (blocks s) y x) /\ (p = x \/ p ∈ X).
Proof.
  induction fuel as [| fuel IH]; intros bx p b s Hm Hx Hp Ha Hf; cbn [FindMostWorkChain_remove];
    (case_decide as Hd; [exists s, ∅; split; [done |]; split; [apply marks_refl |]; split; [set_solver | by left] |]).
  all: destruct Ha as [[| n] Hn]; [cbn in Hn; congruence |];
    pose proof (walk_height _ p b (S n) x bx (proj1 Hm) Hp Hn Hx); try lia.
  cbn [walk] in Hn. rewrite Hp in Hn. cbn in Hn. destruct (pprev b) as [q |] eqn:Hq; [| done]. cbn in Hn.
  rewrite Hp. cbn [mbind option_bind]. unfold change. rewrite Hp. cbn [mbind option_bind].
  rewrite Hq. cbn [mbind option_bind].
  match goal with |- context [FindMostWorkChain_remove _ _ _ q ?y] => set (s1 := y) end.
  assert (marks {[ p ]} s s1) as M1.
  { apply (marks_one BLOCK_FAILED_CHILD p b); try done. by left. }
  pose proof (same_index_tree _ _ (marks_index _ _ _ M1)) as Ht.
  destruct (parent_height (blocks s) (proj1 Hm) p b q Hp Hq) as (bq & Hbq & _ & Hh).
  destruct (same_rel_lookup _ _ _ _ _ Ht Hx) as (bx1 & Hx1 & Ex).
  destruct (same_rel_lookup _ _ _ _ _ Ht Hbq) as (bq1 & Hq1 & Eq).
  destruct (IH bx1 q bq1 s1) as (s2 & X & -> & M2 & HX & Hqx); try done.
  { by apply (wf_tree_same _ _ Ht). }
  { apply (is_ancestor_same _ _ _ _ Ht). by exists n. }
  { destruct Ex as (_ & _ & <- & _), Eq as (_ & _ & <- & _). lia. }
  exists s2, ({[ p ]} ∪ X). split; [done |]. split; [by apply (marks_trans _ _ s s1) |]. split; [| set_solver].
  intros y [->%elem_of_singleton | Hy]%elem_of_union.
  - apply (is_ancestor_step _ p b x Hp). right. exists q. split; [done | by exists n].
  - apply (is_ancestor_same _ _ _ _ Ht). by apply HX.
Qed.

(** A failed block lies on the chain of every marked block. *)
Definition above_failed m (X : gset ptr) : Prop :=
  forall x, x ∈ X -> exists a, is_ancestor m x a /\ failed m a.

Lemma FindMostWorkChain_drop_spec p x s :
  wf_tree (blocks s) -> is_Some (blocks s !! p) -> is_ancestor (blocks s) p x -> failed (blocks s) x ->
  (forall i, pindexBestInvalid s = Some i -> is_Some (blocks s !! i)) ->
  exists s' X, FindMostWorkChain_drop p x s = Some s' /\ marks X s s' /\ above_failed (blocks s) X /\ p ∈ X.
Proof.
  intros Hm [b Hp] Ha (bx & Hx & Hf) Hi. unfold FindMostWorkChain_drop. rewrite Hp, Hx. cbn [mbind option_bind].
  assert (exists bi, match pindexBestInvalid s with
    | Some i => y ← blocks s !! i; Some (0 <? CompareTo W256 (nChainWork b) (nChainWork y))
    | None => Some true end = Some bi) as [bi ->].
  { destruct (pindexBestInvalid s) as [i |] eqn:E; [| eauto]. destruct (Hi i eq_refl) as [y ->]. cbn. eauto. }
  cbn [mbind option_bind]. rewrite Hf. cbn [andb].
  set (s1 := if bi then with_best_invalid (Some p) s else s).
  assert (marks ∅ s s1 /\ block_index s1 = block_index s) as [M1 E1].
  { subst s1. destruct bi; [| split; [apply marks_refl | done]]. split; [| done].
    destruct (marks_refl s) as [K1 K2 K3 K4 K5 K6 K7 K8 K9]. split; try done. intros q. cbn. intros [= <-]. right. eauto. }
  assert (blocks s1 = blocks s) as Eb by (unfold blocks; by rewrite E1).
  destruct (FindMostWorkChain_remove_spec x (Z.to_nat (nHeight b)) bx p b s1) as (s2 & X & -> & M2 & HX & Hpx);
    rewrite ?Eb; try done.
  { pose proof (wf_height _ _ _ (proj1 Hm) Hx). lia. }
  cbn [mbind option_bind]. rewrite Eb in HX.
  assert (marks (∅ ∪ X) s s2) as M3 by (by apply (marks_trans _ _ s s1)).
  destruct (same_rel_lookup _ _ _ _ _ (marks_index _ _ _ M3) Hx) as (bx2 & Hx2 & _).
  assert (is_failed bx2 = true) as Hf2.
  { apply (marks_flags _ _ _ M3 x bx bx2 Hx Hx2). by left. }
  assert (marks {[ x ]} s2 (erase_candidate x s2)) as M4.
  { destruct (marks_refl s2) as [K1 K2 K3 K4 K5 K6 K7 K8 K9]. split; try done.
    - intros q c c' Hc Hc'. change (blocks (erase_candidate x s2)) with (blocks s2) in Hc'. simplify_eq.
      split_and!; try done. split; [by left |]. intros [? | ->%elem_of_singleton]; [done |]. congruence.
    - intros q. cbn. set_solver. }
  exists (erase_candidate x s2), ((∅ ∪ X) ∪ {[ x ]}). split; [done |]. split; [by apply (marks_trans _ _ s s2) |].
  split; [| set_solver]. intros y Hy. exists x. split; [| by exists bx].
  apply elem_of_union in Hy as [Hy | ->%elem_of_singleton]; [| apply is_ancestor_refl]. apply HX. set_solver.
Qed.

Lemma above_failed_trans m m' X Y :
  same_tree m m' -> (forall a, failed m' a -> failed m a \/ a ∈ X) ->
  above_failed m X -> above_failed m' Y -> above_failed m (X ∪ Y).
Proof.
  intros Ht Hf HX HY x [Hx | Hx]%elem_of_union; [by apply HX |].
  destruct (HY x Hx) as (a & Ha & Hfa). apply (is_ancestor_same _ _ _ _ Ht) in Ha.
  destruct (Hf a Hfa) as [? | Ha']; [eauto |]. destruct (HX a Ha') as (c & Hc & Hfc).
  exists c. split; [| done]. by apply (is_ancestor_trans m x a c).
Qed.

Lemma marks_failed_inv X s s' a :
  marks X s s' -> failed (blocks s') a -> failed (blocks s) a \/ a ∈ X.
Proof.
  intros M (b' & Hb' & Hf).
  destruct (same_rel_lookup _ _ _ _ _ (same_index_sym _ _ (marks_index _ _ _ M)) Hb') as (b & Hb & _).
  destruct (marks_flags _ _ _ M a b b' Hb Hb') as (_ & _ & Hiff & _).
  destruct (proj1 Hiff Hf); [left; by exists b | by right].
Qed.

Variable addr : ptr -> Z.
Hypothesis addr_inj : forall p q, addr p = addr q -> p = q.
Context (L : Ledger W) (parent : ptr -> option ptr) (valid : ptr -> bool) (world : option ptr -> W -> Prop).

Abbreviation index_ok := (index_ok parent).
Abbreviation good := (good parent valid).
Abbreviation sound := (sound parent valid).
Abbreviation Inv := (Inv parent valid world).
Abbreviation covered := (covered addr parent valid).

(** ** [FindMostWorkChain] *)

Lemma FindMostWorkChain_walk_spec m t v : forall fuel p b,
  index_ok m -> active m t v -> (forall t', t = Some t' -> good m t') ->
  linked m p -> m !! p = Some b -> nHeight b < Z.of_nat fuel ->
  exists r, FindMostWorkChain_walk fuel m v (Some p) = Some r /\
    match r with
    | None => clean m p
    | Some x => is_ancestor m p x /\ failed m x
    end.
Proof.
  induction fuel as [| fuel IH]; intros p b Hm Hv Ht Hl Hp Hf;
    [pose proof (wf_height m p b (proj1 (ok_tree _ m Hm)) Hp); lia |].
  cbn [FindMostWorkChain_walk].
  destruct (Contains_spec m t v p (proj1 (ok_tree _ m Hm)) Hv) as (c & -> & Hc); [eauto |]. cbn [mbind option_bind].
  destruct c.
  { exists None. split; [done |]. destruct (proj1 Hc eq_refl) as (t' & Et & Ha).
    destruct (Ht t' Et) as (_ & Hcl & _). intros x Hx. apply Hcl. by apply (is_ancestor_trans m t' p x). }
  rewrite Hp. cbn [mbind option_bind]. destruct Hl as (b' & Hb' & Hn). rewrite Hp in Hb'. injection Hb' as <-.
  destruct (Z.eqb_spec (nChainTx b) 0) as [| _]; [done |]. cbn [andb].
  destruct (ok_data _ m Hm p b Hp Hn) as [-> _]. rewrite orb_false_r.
  destruct (is_failed b) eqn:Hfb.
  { exists (Some p). split; [done |]. split; [apply is_ancestor_refl | by exists b]. }
  destruct (pprev b) as [q |] eqn:Hq.
  - destruct (parent_height m (proj1 (ok_tree _ m Hm)) p b q Hp Hq) as (bq & Hbq & _ & Hh).
    destruct (IH q bq Hm Hv Ht (ok_linked _ m Hm p b q Hp Hn Hq) Hbq ltac:(lia)) as (r & -> & Hr).
    exists r. split; [done |]. destruct r as [x |].
    + destruct Hr as [Ha Hx]. split; [| done]. apply (is_ancestor_step m p b x Hp). eauto.
    + apply (clean_step m p b); try done. intros q' E. by simplify_eq.
  - exists None. split; [by destruct fuel |]. apply (clean_step m p b); try done. intros q' E. by simplify_eq.
Qed.

Lemma above_failed_sound m X x p : above_failed m X -> x ∈ X -> sound m p -> ~ is_ancestor m p x.
Proof.
  intros HX Hx (Hc & _) Ha. destruct (HX x Hx) as (a & Hxa & Hf). apply (Hc a); [| done].
  by apply (is_ancestor_trans m p x a).
Qed.

Lemma FindMostWorkChain_loop_spec : forall fuel s,
  Inv s -> (size (setBlockIndexCandidates s) <= fuel)%nat ->
  exists r s' X, FindMostWorkChain_loop addr fuel s = Some (r, s') /\ marks X s s' /\ above_failed (blocks s) X /\
    match r with
    | None => setBlockIndexCandidates s' = ∅
    | Some p => p ∈ setBlockIndexCandidates s' /\ clean (blocks s') p /\
        forall q, q ∈ setBlockIndexCandidates s' -> ~ worse addr (blocks s') p q
    end.
Proof using addr_inj.
  induction fuel as [| fuel IH]; intros s Hs Hf; cbn [FindMostWorkChain_loop];
    pose proof (inv_index _ _ _ _ Hs) as Hm;
    (destruct (last_candidate_spec addr addr_inj (blocks s) (elements (setBlockIndexCandidates s)))
      as (r & -> & Hr); [by apply wf_tree_works, Hm |
        intros p Hp%elem_of_elements; by apply linked_lookup, (inv_candidates _ _ _ _ Hs) |]);
    cbn [mbind option_bind];
    (destruct r as [p |];
     [| exists None, s, ∅; split; [done |]; split; [apply marks_refl |]; split; [by intros x Hx%elem_of_empty |];
        apply elements_empty_inv in Hr; set_solver]);
    destruct Hr as [Hp Hmax]; rewrite elem_of_elements in Hp.
  all: pose proof (inv_candidates _ _ _ _ Hs p Hp) as Hl; destruct (linked_lookup _ _ Hl) as [b Hb]; rewrite Hb;
    cbn [mbind option_bind];
    destruct (FindMostWorkChain_walk_spec (blocks s) (Tip (chainActive s)) (chainActive s)
      (Z.to_nat (nHeight b) + 1) p b Hm (inv_active _ _ _ _ Hs) (inv_tip _ _ _ _ Hs) Hl Hb) as (bad & -> & Hbad);
    [lia |]; cbn [mbind option_bind];
    (destruct bad as [x |];
     [| exists (Some p), s, ∅; split; [done |]; split; [apply marks_refl |]; split; [by intros y Hy%elem_of_empty |];
        split; [done |]; split; [done |]; intros q Hq; apply Hmax; by apply elem_of_elements]).
  { apply elem_of_weaken with (Y := ∅) in Hp; [set_solver |]. assert (size (setBlockIndexCandidates s) = 0)%nat by lia.
    by rewrite (size_empty_inv _ H). }
  destruct Hbad as [Ha Hx].
  destruct (FindMostWorkChain_drop_spec p x s (ok_tree _ _ Hm) (linked_lookup _ _ Hl) Ha Hx (inv_best_invalid _ _ _ _ Hs))
    as (s1 & X & -> & M1 & HX & HpX). cbn [mbind option_bind].
  destruct (IH s1) as (r & s2 & Y & -> & M2 & HY & Hr).
  - apply (marks_Inv _ _ _ X s s1 M1 Hs). intros t y Ht Hy. apply (above_failed_sound (blocks s) X y); try done.
    apply (inv_tip _ _ _ _ Hs t Ht).
  - assert (setBlockIndexCandidates s1 ⊂ setBlockIndexCandidates s) as Hsub%subset_size; [| lia].
    split; [intros q [? _]%(marks_candidates _ _ _ M1); done |]. intros Hsub.
    apply Hsub in Hp. by apply (marks_candidates _ _ _ M1) in Hp as [_ ?].
  - exists r, s2, (X ∪ Y). split; [done |]. split; [by apply (marks_trans _ _ s s1) |]. split; [| done].
    apply (above_failed_trans _ (blocks s1)); try done; [by apply same_index_tree, M1 |].
    intros a. by apply marks_failed_inv.
Qed.

(** The best of all linked blocks that are not marked themselves. *)
Definition top m p : Prop :=
  forall q b, m !! q = Some b -> nChainTx b <> 0 -> is_failed b = false -> ~ worse addr m p q.

Lemma good_unmarked m p : good m p -> exists b, m !! p = Some b /\ nChainTx b <> 0 /\ is_failed b = false.
Proof.
  intros ((b & Hb & Hn) & Hc & _). exists b. split; [done |]. split; [done |].
  destruct (is_failed b) eqn:E; [| done]. destruct (Hc p (is_ancestor_refl m p)). by exists b.
Qed.

(** What changes while the best chain is activated: blocks may be marked,
    none that a usable chain contains. *)
Record evolves s s' : Prop := {
  ev_index : same_index (blocks s) (blocks s');
  ev_sound p : is_Some (blocks s !! p) -> sound (blocks s) p <-> sound (blocks s') p;
  ev_failed p : failed (blocks s) p -> failed (blocks s') p
}.

Lemma ev_good s s' (He : evolves s s') p : good (blocks s) p <-> good (blocks s') p.
Proof.
  pose proof (same_index_counted _ _ (ev_index _ _ He)) as Hi. split; intros (Hl & Hs).
  - split; [by apply (linked_same (blocks s)) |]. apply (ev_sound _ _ He p); [by apply linked_lookup | done].
  - assert (linked (blocks s) p) as Hl' by (by apply (linked_same (blocks s')); [apply same_counted_sym |]).
    split; [done |]. apply (ev_sound _ _ He p); [by apply linked_lookup | done].
Qed.

Lemma evolves_eq s s' : blocks s' = blocks s -> evolves s s'.
Proof. intros E. split; rewrite E; [apply (same_rel_refl same_links); apply _ | done | done]. Qed.

Lemma evolves_trans s1 s2 s3 : evolves s1 s2 -> evolves s2 s3 -> evolves s1 s3.
Proof.
  intros [I1 G1 F1] [I2 G2 F2]. split; [by apply (same_rel_trans same_links _ _ _ _ I1 I2) | | eauto].
  intros p Hp. rewrite G1 by done. apply G2. destruct Hp as [b Hb].
  destruct (same_rel_lookup _ _ _ _ _ I1 Hb) as (b' & Hb' & _). eauto.
Qed.

Lemma sound_marks_inv X s s' p : marks X s s' -> sound (blocks s') p -> sound (blocks s) p.
Proof.
  intros M (Hc & Hr). pose proof (marks_index _ _ _ M) as Hi. split; [| done].
  intros a Ha (b & Hb & Hf). destruct (same_rel_lookup _ _ _ _ _ Hi Hb) as (b' & Hb' & _). apply (Hc a).
  - by apply (is_ancestor_same _ _ _ _ (same_index_tree _ _ Hi)).
  - exists b'. split; [done |]. apply (marks_flags _ _ _ M a b b' Hb Hb'). by left.
Qed.

Lemma marks_evolves X s s' :
  wf_store (blocks s) -> marks X s s' ->
  (forall x p, x ∈ X -> sound (blocks s) p -> ~ is_ancestor (blocks s) p x) -> evolves s s'.
Proof.
  intros Hm M Hn. pose proof (marks_index _ _ _ M) as Hi. split; [done | |].
  - intros p Hp. split; [| by apply (sound_marks_inv X)]. intros [Hc Hr]. split; [| done].
    apply (marks_clean X s s' M p Hp Hm Hc). intros x Hx. by apply (Hn x p).
  - intros a (b & Hb & Hf). destruct (same_rel_lookup _ _ _ _ _ Hi Hb) as (b' & Hb' & _). exists b'. split; [done |].
    apply (marks_flags _ _ _ M a b b' Hb Hb'). by left.
Qed.

(** The best candidate with a usable chain is the best block of all. *)
Lemma FindMostWorkChain_spec s :
  Inv s -> covered s ->
  exists r s', FindMostWorkChain addr s = Some (r, s') /\ Inv s' /\ covered s' /\ evolves s s' /\
    chainActive s' = chainActive s /\
    match r with
    | None => Tip (chainActive s') = None /\
        forall q b, blocks s' !! q = Some b -> nChainTx b <> 0 -> is_failed b = true
    | Some p => linked (blocks s') p /\ clean (blocks s') p /\ top (blocks s') p
    end.
Proof using addr_inj.
  intros Hs Hc. pose proof (proj1 (ok_tree _ _ (inv_index _ _ _ _ Hs))) as Hm.
  destruct (FindMostWorkChain_loop_spec (size (setBlockIndexCandidates s)) s Hs ltac:(lia)) as (r & s' & X & E & M & HX & Hr).
  assert (forall x p, x ∈ X -> sound (blocks s) p -> ~ is_ancestor (blocks s) p x) as Hoff.
  { intros x p Hx Hg. by apply (above_failed_sound (blocks s) X x p). }
  assert (Inv s') as Hs'.
  { apply (marks_Inv _ _ _ X s s' M Hs). intros t x Ht Hx. apply Hoff; [done |]. apply (inv_tip _ _ _ _ Hs t Ht). }
  assert (covered s') as Hc'.
  { apply (marks_covered _ _ _ X s s'); try done. intros x p Hx [_ Hg]. by apply Hoff. }
  exists r, s'. split; [done |]. split; [done |]. split; [done |]. split; [by apply (marks_evolves X) |].
  split; [apply M |]. destruct Hc' as (R & Hcomp & HR & HN). destruct r as [p |].
  - destruct Hr as (Hp & Hcl & Hmax). split; [by apply (inv_candidates _ _ _ _ Hs') |]. split; [done |].
    intros q b Hq Hn Hf Hw. destruct R as [r |].
    + destruct (HR r eq_refl) as [Hg _]. destruct (good_unmarked _ _ Hg) as (br & Hbr & Hnr & Hfr).
      assert (r ∈ setBlockIndexCandidates s') as Hr.
      { apply (Hcomp r br); try done. intros r' [= <-]. apply worse_irrefl. }
      apply (Hmax q); [| done]. apply (Hcomp q b); try done. intros r' [= <-] Hwr.
      apply (Hmax r Hr). by apply (worse_trans addr _ p q r).
    + apply (Hmax q); [| done]. by apply (Hcomp q b).
  - destruct R as [r |].
    + destruct (HR r eq_refl) as [Hg _]. destruct (good_unmarked _ _ Hg) as (br & Hbr & Hnr & Hfr).
      assert (r ∈ setBlockIndexCandidates s') as Hin; [| rewrite Hr in Hin; set_solver].
      apply (Hcomp r br); try done. intros r' [= <-]. apply worse_irrefl.
    + split; [by apply HN |]. intros q b Hq Hn. destruct (is_failed b) eqn:Hf; [done |].
      assert (q ∈ setBlockIndexCandidates s') as Hin; [by apply (Hcomp q b) | rewrite Hr in Hin; set_solver].
Qed.

(** ** [PruneBlockIndexCandidates] *)

Lemma Inv_candidates s f :
  Inv s -> f (setBlockIndexCandidates s) ⊆ setBlockIndexCandidates s -> Inv (with_candidates f s).
Proof. intros [I0 I1 I2 I3 I4 I5 I6 I7 I8 I9 I10] Hsub. split; try done. intros p Hp. apply I5. by apply Hsub. Qed.

(** Completeness from some usable block on, wherever the tip is. *)
Definition mostly_covered s : Prop :=
  exists R, complete addr (blocks s) (setBlockIndexCandidates s) R /\ forall r, R = Some r -> good (blocks s) r.

Lemma covered_mostly s : covered s -> mostly_covered s.
Proof. intros (R & Hc & HR & _). exists R. split; [done |]. intros r Hr. by apply HR. Qed.

Lemma PruneBlockIndexCandidates_spec s t w :
  Inv s -> mostly_covered s -> Tip (chainActive s) = Some t ->
  w ∈ setBlockIndexCandidates s -> ~ worse addr (blocks s) w t ->
  exists s', PruneBlockIndexCandidates addr s = Some s' /\ Inv s' /\ covered s' /\
    blocks s' = blocks s /\ chainActive s' = chainActive s /\
    forall p, p ∈ setBlockIndexCandidates s' <-> p ∈ setBlockIndexCandidates s /\ ~ worse addr (blocks s) p t.
Proof using addr_inj.
  intros Hs (R & Hc & HR) Ht Hw Hwt. unfold PruneBlockIndexCandidates.
  pose proof (inv_tip _ _ _ _ Hs t Ht) as Hgt. pose proof (linked_lookup _ _ (proj1 Hgt)) as Hbt.
  case_decide as Hd; [set_solver |]. rewrite Ht. cbn [mbind option_bind].
  destruct (worse_candidates_spec addr (blocks s) t (elements (setBlockIndexCandidates s))) as (X & -> & HX).
  { by apply wf_tree_works, (inv_index _ _ _ _ Hs). }
  { done. }
  { intros p Hp%elem_of_elements. by apply linked_lookup, (inv_candidates _ _ _ _ Hs). }
  cbn [mbind option_bind]. setoid_rewrite elem_of_elements in HX.
  assert (w ∈ setBlockIndexCandidates s ∖ X) as Hw' by (apply elem_of_difference; split; [done |]; by intros [_ ?]%HX).
  case_decide as Hd'; [cbn in Hd'; set_solver |]. eexists. split; [done |].
  split; [apply Inv_candidates; [done | cbn; set_solver] |].
  split; [| split; [done |]; split; [done |]; intros p; cbn; rewrite elem_of_difference, HX; tauto].
  assert (forall p, p ∈ setBlockIndexCandidates s -> ~ worse addr (blocks s) p t -> p ∈ setBlockIndexCandidates s ∖ X) as Hkeep.
  { intros p Hp Hn. apply elem_of_difference. split; [done |]. by intros [_ ?]%HX. }
  unfold covered. cbn [setBlockIndexCandidates with_candidates chainActive].
  change (blocks (with_candidates _ s)) with (blocks s). rewrite Ht.
  assert (complete addr (blocks s) (setBlockIndexCandidates s ∖ X) (Some t) \/
          exists r, R = Some r /\ ~ worse addr (blocks s) r t /\
            complete addr (blocks s) (setBlockIndexCandidates s ∖ X) (Some r)) as [H | (r & -> & Hrt & H)].
  { destruct R as [r |].
    - destruct (HR r eq_refl) as (Hlr & _). destruct (worse_total addr addr_inj (blocks s) r t (linked_lookup _ _ Hlr) Hbt) as [-> | [Hrt | Htr]].
      + left. intros p b Hp Hn Hf Hw1. apply Hkeep; [by apply (Hc p b) | by apply Hw1].
      + left. intros p b Hp Hn Hf Hw1. apply Hkeep; [| by apply Hw1]. apply (Hc p b); try done.
        intros r' [= <-] Hpr. apply (Hw1 t eq_refl). by apply (worse_trans addr _ p r t).
      + right. assert (~ worse addr (blocks s) r t) as Hrt.
        { intros Hrt. apply (worse_irrefl addr (blocks s) r). by apply (worse_trans addr _ r t r). }
        exists r. split; [done |]. split; [done |]. intros p b Hp Hn Hf Hw1. apply Hkeep; [by apply (Hc p b) |].
        intros Hpt. apply (Hw1 r eq_refl). by apply (worse_trans addr _ p t r).
    - left. intros p b Hp Hn Hf Hw1. apply Hkeep; [by apply (Hc p b) | by apply Hw1]. }
  - exists (Some t). split; [done |]. split; [| done]. intros r [= <-]. split; [done |].
    intros t' [= <-]. apply worse_irrefl.
  - exists (Some r). split; [done |]. split; [| done]. intros r' [= <-]. split; [by apply HR |]. by intros t' [= <-].
Qed.

End Select.
