(* ===== verification/BestChainActivate.v ===== *)
(** * [ActivateBestChain] makes the best usable chain the active one

    Connecting and disconnecting the tip, one step towards the chain with
    the most work, and the loop around it: with a ledger that meets its
    contract the loop ends, whatever invalid blocks it meets, with the best
    of all linked blocks whose chain is valid and not marked. *)

From stdpp Require Import gmap sorting.
From S2P Require Import Prelude ArithUint256 Compact Chain ActiveChain BestChain BestChainInv BestChainSelect.
Set Default Proof Using "Type".

Lemma last_default_elem {A} (l : list A) (d : A) : List.last l d ∈ l \/ List.last l d = d.
Proof. induction l as [| x [| y l] IH]; [by right | left; set_solver |]. destruct IH as [IH | IH]; [left; set_solver | by right]. Qed.

(** ** The block in memory *)

(** A copy in memory that connects like the block on disk makes no
    difference. *)
Section Delivered.
Context {W : Type} (addr : ptr -> Z) (L : Ledger W) (hash : Z) (copy : list Z).
Hypothesis same : forall w, connect_block L w (Some copy) hash = connect_block L w None hash.
Implicit Types s : ChainState W.

Lemma connect_all_copy old back l : forall s,
  connect_all addr L old hash (Some copy) back l s = connect_all addr L old hash None back l s.
Proof using same.
  induction l as [| p l IH]; intros s; [done |]. cbn [connect_all].
  replace (if decide (p = hash) then None else None : option (list Z)) with (@None (list Z)) by (by case_decide).
  assert (ConnectTip L p (if decide (p = hash) then Some copy else None) s = ConnectTip L p None s) as ->.
  { case_decide as E; [| done]. subst p. unfold ConnectTip. by rewrite same. }
  destruct (ConnectTip L p None s) as [[s1 | c s1 | s1] |]; cbn [mbind option_bind]; try done.
  destruct (PruneBlockIndexCandidates addr s1) as [s2 |]; cbn [mbind option_bind]; [| done].
  destruct (better_than_old old s2) as [[] |]; cbn [mbind option_bind]; done.
Qed.

Lemma connect_rounds_copy old target : forall fuel h s,
  connect_rounds addr L fuel old hash (Some copy) target h s = connect_rounds addr L fuel old hash None target h s.
Proof using same.
  induction fuel as [| fuel IH]; intros h s; cbn [connect_rounds]; (destruct (h =? target); [done |]); [done |].
  destruct (GetAncestor (blocks s) hash (Z.min (h + 32) target)) as [it |]; cbn [mbind option_bind]; [| done].
  destruct (to_connect _ _ _ _) as [l |]; cbn [mbind option_bind]; [| done]. rewrite connect_all_copy.
  destruct (connect_all _ _ _ _ _ _ _ _) as [[[] s1] |]; cbn [mbind option_bind]; done.
Qed.

Lemma ActivateBestChain_round_copy mw s :
  ActivateBestChain_round addr L (Some (hash, copy)) mw s = ActivateBestChain_round addr L None mw s.
Proof using same.
  unfold ActivateBestChain_round. destruct (match mw with Some w => _ | None => _ end) as [[[w |] s1] |]; cbn [mbind option_bind]; try done.
  case_decide; [done |]. unfold delivered_for. cbn [mbind option_bind]. case_decide as E; [| done]. subst w.
  unfold ActivateBestChainStep. destruct (FindFork _ _ _) as [f |]; cbn [mbind option_bind]; [| done].
  destruct (disconnect_to _ _ _ _) as [[[] s2] |]; cbn [mbind option_bind]; try done.
  destruct (blocks s2 !! hash); cbn [mbind option_bind]; [| done].
  destruct (match f with Some x => _ | None => _ end) as [h |]; cbn [mbind option_bind]; [| done]. by rewrite connect_rounds_copy.
Qed.

Lemma ActivateBestChain_copy fuel s : ActivateBestChain addr L fuel (Some (hash, copy)) s = ActivateBestChain addr L fuel None s.
Proof using same.
  unfold ActivateBestChain. generalize (@None ptr) as mw. revert s. induction fuel as [| fuel IH]; intros s mw;
    cbn [ActivateBestChain_loop]; rewrite ActivateBestChain_round_copy; destruct (ActivateBestChain_round _ _ _ _ _) as [[] |]; try done.
  cbn [mbind option_bind]. apply IH.
Qed.
End Delivered.

Section Activate.
Context {W : Type}.
Variable addr : ptr -> Z.
Hypothesis addr_inj : forall p q, addr p = addr q -> p = q.
Context (L : Ledger W) (parent : ptr -> option ptr) (valid : ptr -> bool) (world : option ptr -> W -> Prop).
Context {HL : LedgerOk L parent valid world}.

Implicit Types (m : gmap ptr CBlockIndex) (s : ChainState W) (p q : ptr).

Abbreviation index_ok := (index_ok parent).
Abbreviation good := (good parent valid).
Abbreviation sound := (sound parent valid).
Abbreviation Inv := (Inv parent valid world).
Abbreviation covered := (covered addr parent valid).
Abbreviation mostly_covered := (mostly_covered addr parent valid).
Abbreviation evolves := (evolves parent valid).
Abbreviation top := (top addr).
Abbreviation work b := (val256 (nChainWork b)).

(** ** The tip *)

Lemma SetTip_active m t v p b :
  wf_store m -> active m t v -> m !! p = Some b -> exists v', SetTip m v (Some p) = Some v' /\ active m (Some p) v'.
Proof.
  intros Hm Hv Hp. eexists. split; [by apply (SetTip_eq m Hm v p b); [apply (active_ok m t) |] |]. by exists b.
Qed.

(** Moving the tip along with the ledger. *)
Lemma Inv_tip s v w :
  Inv s -> active (blocks s) (Tip v) v -> (forall t, Tip v = Some t -> good (blocks s) t) -> world (Tip v) w ->
  Inv (with_chain v (with_ledger w s)).
Proof. intros [I0 I1 I2 I3 I4 I5 I6 I7 I8 I9 I10] Hv Hg Hw. by split. Qed.

Lemma parent_worse m p b q : index_ok m -> m !! p = Some b -> pprev b = Some q -> worse addr m q p.
Proof.
  intros Hm Hp Hq. destruct (parent_height m (proj1 (ok_tree _ m Hm)) p b q Hp Hq) as (bq & Hbq & _).
  exists bq, b. split; [done |]. split; [done |]. left. by apply (ok_work _ m Hm p b q bq).
Qed.

Lemma DisconnectTip_spec s t :
  Inv s -> covered s -> Tip (chainActive s) = Some t -> (forall b, blocks s !! t = Some b -> is_Some (pprev b)) ->
  exists s' b, DisconnectTip L s = Some (true, s') /\ blocks s !! t = Some b /\ Tip (chainActive s') = pprev b /\
    Inv s' /\ covered s' /\ blocks s' = blocks s /\
    setBlockIndexCandidates s' = setBlockIndexCandidates s.
Proof using HL addr_inj.
  intros Hs Hc Ht Hroot. pose proof (inv_index _ _ _ _ Hs) as Hm. pose proof (inv_tip _ _ _ _ Hs t Ht) as Hg.
  destruct (linked_lookup _ _ (proj1 Hg)) as [b Hb]. destruct (Hroot b Hb) as [q Hq]. unfold DisconnectTip. rewrite Ht. cbn [mbind option_bind].
  rewrite Hb. cbn [mbind option_bind]. pose proof (inv_ledger _ _ _ _ Hs) as Hwd. rewrite Ht in Hwd.
  pose proof (ok_parent _ _ Hm t b Hb) as Hpar. rewrite Hq in Hpar. rewrite Hq.
  destruct (disconnect_valid t q _ (eq_sym Hpar) (proj2 (proj2 Hg)) Hwd) as (w' & -> & Hw'). rewrite (flush_works (LedgerOk := HL)).
  assert (exists v', SetTip (blocks s) (chainActive s) (Some q) = Some v' /\ active (blocks s) (Some q) v') as (v' & Ev & Hv').
  { destruct (parent_height _ (proj1 (ok_tree _ _ Hm)) t b q Hb Hq) as (bq & Hbq & _).
    apply (SetTip_active _ (Tip (chainActive s)) _ q bq); [apply Hm | apply Hs | done]. }
  unfold UpdateTip. cbn [chainActive with_ledger]. change (blocks (with_ledger _ s)) with (blocks s).
  rewrite Ev. cbn [mbind option_bind]. pose proof (Tip_active _ _ _ Hv') as Etip.
  eexists _, b. split; [done |]. split; [done |]. split; [by rewrite Hq |]. split; [| split; [| done]].
  - apply Inv_tip; [done | by rewrite Etip | | by rewrite Etip].
    intros q'. rewrite Etip. intros [= <-]. apply (good_ancestor _ _ _ t q Hm Hg).
    apply (is_ancestor_step _ t b q Hb). right. exists q. split; [done | apply is_ancestor_refl].
  - destruct Hc as (R & Hcomp & HR & HN). exists R. split; [done |]. split; [| intros ->; rewrite HN in Ht; done].
    intros r Hr. destruct (HR r Hr) as [Hgr Hw]. split; [done |]. cbn [chainActive with_chain]. rewrite Etip.
    intros q' [= <-] Hrq. apply (Hw t Ht). apply (worse_trans addr _ r q t); [done |]. by apply (parent_worse _ t b q).
Qed.

(** Connecting the next block of a chain: the tip moves, or the block is
    marked. *)
Lemma ConnectTip_spec s p b :
  Inv s -> covered s -> blocks s !! p = Some b -> linked (blocks s) p -> is_failed b = false ->
  pprev b = Tip (chainActive s) ->
  (valid p = true /\ exists s', ConnectTip L p None s = Some (TipConnected s') /\ Inv s' /\ mostly_covered s' /\
     Tip (chainActive s') = Some p /\ evolves s s' /\
     (forall a, failed (blocks s') a -> failed (blocks s) a)) \/
  (valid p = false /\ exists s', ConnectTip L p None s = Some (TipInvalid false s') /\ Inv s' /\ covered s' /\
     is_Some (Tip (chainActive s')) /\ evolves s s' /\ failed (blocks s') p).
Proof using HL addr_inj.
  intros Hs Hc Hp Hl Hf Hq. pose proof (inv_index _ _ _ _ Hs) as Hm. pose proof (ok_parent _ _ Hm p b Hp) as Hpar.
  unfold ConnectTip. rewrite Hp. cbn [mbind option_bind]. case_decide; [| done].
  pose proof (inv_ledger _ _ _ _ Hs) as Hw. rewrite <- Hq, Hpar in Hw.
  assert (replayed parent valid (parent p)) as Hr.
  { rewrite <- Hpar, Hq. destruct (Tip (chainActive s)) as [t |] eqn:Ht; [| constructor].
    by apply (inv_tip _ _ _ _ Hs). }
  destruct (valid p) eqn:Hv.
  - left. split; [done |]. destruct (connect_valid p _ Hr Hv Hw) as (w' & pos & -> & Hw'). rewrite (flush_works (LedgerOk := HL)).
    destruct (ConnectBlock_index_marks p b pos (with_ledger w' s) Hp) as (s1 & -> & M).
    cbn [mbind option_bind]. unfold UpdateTip.
    assert (marks ∅ s (with_ledger (ledger s) s1)) as M' by (by destruct M).
    assert (Inv (with_ledger (ledger s) s1)) as Hs1.
    { apply (marks_Inv _ _ _ ∅ s _ M' Hs). intros t x _ Hx. by apply elem_of_empty in Hx. }
    pose proof (marks_index _ _ _ M') as Hi. change (blocks (with_ledger (ledger s) s1)) with (blocks s1) in Hi.
    destruct (same_rel_lookup _ _ _ _ _ Hi Hp) as (b1 & Hb1 & _).
    destruct (SetTip_active (blocks s1) (Tip (chainActive s1)) (chainActive s1) p b1) as (v' & Ev & Hv').
    { apply (inv_index _ _ _ _ Hs1). }
    { apply (inv_active _ _ _ _ Hs1). }
    { done. }
    rewrite Ev. cbn [mbind option_bind]. pose proof (Tip_active _ _ _ Hv') as Etip.
    assert (evolves s (with_ledger (ledger s) s1)) as Hev.
    { apply (marks_evolves _ _ ∅); [apply Hm | done |]. intros x q Hx. by apply elem_of_empty in Hx. }
    assert (good (blocks s) p) as Hg.
    { split; [done |]. split; [| by constructor]. apply (clean_step _ p b Hp Hf). intros q Eq.
      rewrite Eq in Hq. symmetry in Hq. by apply (inv_tip _ _ _ _ Hs). }
    exists (with_chain v' s1). split; [done |]. split; [| split; [| split; [done | split]]].
    + assert (with_chain v' s1 = with_chain v' (with_ledger w' (with_ledger (ledger s) s1))) as ->.
      { pose proof (marks_ledger _ _ _ M) as El. cbn in El. destruct s1. cbn in *. by subst. }
      apply Inv_tip; [done | by rewrite Etip | | by rewrite Etip]. rewrite Etip. intros t [= <-].
      by apply (ev_good _ _ _ _ Hev).
    + destruct Hc as (R & Hcomp & HR & _). exists R. split.
      * by apply (marks_complete addr ∅ s (with_ledger (ledger s) s1) M').
      * intros r Er. apply (ev_good _ _ _ _ Hev). by apply HR.
    + destruct Hev as [E1 E2 E3]. by split.
    + intros a Ha. destruct (marks_failed_inv ∅ s _ a M' Ha) as [? | Hx]; [done | by apply elem_of_empty in Hx].
  - right. split; [done |]. rewrite (connect_invalid p _ Hr Hv Hw).
    assert (is_Some (Tip (chainActive s))) as Ht.
    { rewrite <- Hq, Hpar. destruct (parent p) eqn:E; [eauto |]. rewrite (genesis_valid p E) in Hv. done. }
    destruct (InvalidBlockFound_marks p s (ex_intro _ b Hp) (inv_best_invalid _ _ _ _ Hs) Ht) as (s1 & -> & M).
    cbn [mbind option_bind].
    assert (forall x q, x ∈ ({[ p ]} : gset ptr) -> sound (blocks s) q -> ~ is_ancestor (blocks s) q x) as Hoff.
    { intros x q ->%elem_of_singleton [_ Hg] Ha. pose proof (replayed_ancestor _ _ _ q p Hm Hg Ha) as Hrp.
      inversion Hrp; congruence. }
    exists s1. split; [done |]. split; [| split; [| split; [| split]]].
    + apply (marks_Inv _ _ _ {[ p ]} s s1 M Hs). intros t x Et Hx. apply Hoff; [done |]. apply (inv_tip _ _ _ _ Hs t Et).
    + apply (marks_covered _ _ _ {[ p ]} s s1 M); [apply Hm | done |]. intros x q Hx [_ Hg]. by apply Hoff.
    + by rewrite (marks_chain _ _ _ M).
    + apply (marks_evolves _ _ {[ p ]}); [apply Hm | done | done].
    + destruct (same_rel_lookup _ _ _ _ _ (marks_index _ _ _ M) Hp) as (b1 & Hb1 & _). exists b1. split; [done |].
      apply (marks_flags _ _ _ M p b b1 Hp Hb1). set_solver.
Qed.

(** ** Connecting a segment of a chain *)

(** The blocks of [l], each the parent of the next, above [t]. *)
Fixpoint segment m (t : option ptr) (l : list ptr) : Prop :=
  match l with
  | [] => True
  | p :: l => (exists b, m !! p = Some b /\ pprev b = t) /\ segment m (Some p) l
  end.

Definition seg_end (t : option ptr) (l : list ptr) : option ptr :=
  match last l with Some p => Some p | None => t end.

Lemma seg_end_cons t p l : seg_end t (p :: l) = seg_end (Some p) l.
Proof. unfold seg_end. destruct l as [| q l]; [done |]. rewrite last_cons_cons.
  destruct (last (q :: l)) eqn:E; [done | by apply last_None in E].
Qed.

Lemma segment_same m m' t l : same_tree m m' -> segment m t l -> segment m' t l.
Proof.
  intros H. revert t. induction l as [| p l IH]; intros t; [done |]. intros [(b & Hb & Hq) Hl].
  split; [| by apply IH]. destruct (same_rel_lookup _ _ _ _ _ H Hb) as (b' & Hb' & E & _). exists b'.
  split; [done |]. congruence.
Qed.

Lemma segment_snoc m t l p b : segment m t l -> m !! p = Some b -> pprev b = seg_end t l -> segment m t (l ++ [p]).
Proof.
  revert t. induction l as [| q l IH]; intros t Hl Hp Hb; [by split; [exists b |] |].
  rewrite seg_end_cons in Hb. destruct Hl as [Hq Hl]. split; [done | by apply IH].
Qed.

(** [w] is the best block there is, and its chain is not marked. *)
Definition aims m (w : ptr) : Prop := top m w /\ linked m w /\ clean m w.

Lemma top_evolves s s' w : evolves s s' -> top (blocks s) w -> top (blocks s') w.
Proof.
  intros [Ei _ Ef] Ht q b' Hq Hn Hf Hw. destruct (same_rel_lookup _ _ _ _ _ (same_index_sym _ _ Ei) Hq) as (b & Hb & _ & _ & _ & En).
  apply (Ht q b Hb).
  - congruence.
  - destruct (is_failed b) eqn:E; [| done]. destruct (Ef q) as (c & Hc & ?); [by exists b |]. congruence.
  - by apply (worse_same_iff addr _ _ w q Ei).
Qed.

Lemma aims_evolves s s' w :
  evolves s s' -> (forall a, failed (blocks s') a -> failed (blocks s) a) -> aims (blocks s) w -> aims (blocks s') w.
Proof.
  intros He Hf (Ht & Hl & Hc). split; [by apply (top_evolves s) |].
  split; [by apply (linked_same (blocks s)); [apply same_index_counted, He |] |]. intros a Ha Hfa. apply (Hc a); [| by apply Hf].
  by apply (is_ancestor_same _ _ _ _ (same_index_tree _ _ (ev_index _ _ _ _ He))).
Qed.

Lemma aims_unmarked m w : aims m w -> exists b, m !! w = Some b /\ nChainTx b <> 0 /\ is_failed b = false.
Proof.
  intros (_ & (b & Hb & Hn) & Hc). exists b. split; [done |]. split; [done |].
  destruct (is_failed b) eqn:E; [| done]. destruct (Hc w (is_ancestor_refl m w)). by exists b.
Qed.

Lemma aims_candidate s w : mostly_covered s -> aims (blocks s) w -> w ∈ setBlockIndexCandidates s.
Proof.
  intros (R & Hc & HR) Ha. destruct (aims_unmarked _ _ Ha) as (b & Hb & Hn & Hf).
  apply (Hc w b Hb Hn Hf). intros r Er. destruct (good_unmarked _ _ _ _ (HR r Er)) as (br & Hbr & Hnr & Hfr).
  by apply (proj1 Ha r br).
Qed.

Lemma better_than_old_spec s old t :
  works_ok (blocks s) -> Tip (chainActive s) = Some t -> is_Some (blocks s !! t) ->
  (forall o, old = Some o -> is_Some (blocks s !! o)) -> exists c, better_than_old old s = Some c.
Proof.
  intros Hw Ht [bt Hbt] Ho. unfold better_than_old. destruct old as [o |]; [| eauto].
  destruct (Ho o eq_refl) as [bo ->]. cbn. rewrite Ht. cbn. rewrite Hbt. cbn. eauto.
Qed.

Lemma connect_all_spec w old back : forall l s,
  Inv s -> covered s -> aims (blocks s) w -> segment (blocks s) (Tip (chainActive s)) l ->
  (forall p, p ∈ l -> is_ancestor (blocks s) w p) -> is_Some (blocks s !! back) ->
  (forall o, old = Some o -> is_Some (blocks s !! o)) ->
  exists e s', connect_all addr L old w None back l s = Some (e, s') /\ Inv s' /\ covered s' /\ evolves s s' /\
    match e with
    | AllConnected => aims (blocks s') w /\ Tip (chainActive s') = seg_end (Tip (chainActive s)) l
    | BetterTip => aims (blocks s') w /\ exists x, x ∈ l /\ Tip (chainActive s') = Some x
    | InvalidFound => is_Some (Tip (chainActive s')) /\ exists x, failed (blocks s') x /\ is_Some (blocks s !! x) /\ ~ failed (blocks s) x
    | NodeError => False
    end.
Proof using HL addr_inj.
  induction l as [| p l IH]; intros s Hs Hc Ha Hseg Hanc Hback Hold; cbn [connect_all].
  { exists AllConnected, s. split; [done |]. split_and!; try done. by apply evolves_eq. }
  destruct Hseg as [(b & Hb & Hq) Hseg].
  assert (is_ancestor (blocks s) w p) as Hwp by (apply Hanc; set_solver).
  pose proof (inv_index _ _ _ _ Hs) as Hm.
  assert (~ failed (blocks s) p) as Hnf by (by apply Ha).
  assert (is_failed b = false) as Hf by (destruct (is_failed b) eqn:E; [destruct Hnf; by exists b | done]).
  replace (if decide (p = w) then None else None : option (list Z)) with (@None (list Z)) by (by case_decide).
  destruct (ConnectTip_spec s p b Hs Hc Hb (linked_ancestor _ _ w p Hm (proj1 (proj2 Ha)) Hwp) Hf Hq)
    as [(_ & s1 & -> & Hs1 & Hc1 & Ht1 & He1 & Hf1) | (_ & s1 & -> & Hs1 & Hc1 & Ht1 & He1 & Hf1)]; cbn [mbind option_bind].
  - assert (aims (blocks s1) w) as Ha1 by (by apply (aims_evolves s)).
    assert (good (blocks s1) p) as Hg1 by (by apply (inv_tip _ _ _ _ Hs1)).
    destruct (good_unmarked _ _ _ _ Hg1) as (b1 & Hb1 & Hn1 & Hfb1).
    destruct (PruneBlockIndexCandidates_spec addr addr_inj parent valid world s1 p w Hs1 Hc1 Ht1) as (s2 & -> & Hs2 & Hc2 & E2 & Ev2 & _).
    { by apply aims_candidate. }
    { by apply (proj1 Ha1 p b1). }
    cbn [mbind option_bind]. assert (evolves s s2) as He2.
    { apply (evolves_trans _ _ s s1 s2 He1). by apply evolves_eq. }
    assert (forall q, is_Some (blocks s !! q) -> is_Some (blocks s2 !! q)) as Hdom.
    { intros q [c Hcq]. destruct (same_rel_lookup _ _ _ _ _ (ev_index _ _ _ _ He2) Hcq) as (c2 & Hc2' & _). eauto. }
    destruct (better_than_old_spec s2 old p) as (better & ->); [ | by rewrite Ev2 | | by eauto |].
    { by apply wf_tree_works, (inv_index _ _ _ _ Hs2). }
    { by apply Hdom. }
    cbn [mbind option_bind]. destruct better.
    + exists BetterTip, s2. split; [done |]. split_and!; try done; [by rewrite E2 |].
      exists p. split; [set_solver | by rewrite Ev2].
    + destruct (IH s2 Hs2 Hc2) as (e & s3 & -> & Hs3 & Hc3 & He3 & Hres).
      * by rewrite E2.
      * rewrite Ev2, Ht1, E2. by apply (segment_same (blocks s)); [apply same_index_tree, He1 |].
      * intros q Hin. rewrite E2. apply (is_ancestor_same _ _ _ _ (same_index_tree _ _ (ev_index _ _ _ _ He1))).
        apply Hanc. set_solver.
      * by apply Hdom.
      * eauto.
      * exists e, s3. split; [done |]. split; [done |]. split; [done |].
        split; [by apply (evolves_trans _ _ s s2) |]. rewrite Ev2, Ht1 in Hres. destruct e; try done.
        -- by rewrite seg_end_cons.
        -- destruct Hres as (? & x & Hx & ?). split; [done |]. exists x. split; [set_solver | done].
        -- destruct Hres as (Htx & x & Hx & [c Hc'] & Hnx). split; [done |]. exists x. split; [done |].
           destruct (same_rel_lookup _ _ _ _ _ (same_index_sym _ _ (ev_index _ _ _ _ He2)) Hc') as (c0 & Hc0 & _).
           split; [eauto |]. intros Hfx. apply Hnx. by apply (ev_failed _ _ _ _ He2).
  - destruct Hback as [bk Hbk]. destruct (same_rel_lookup _ _ _ _ _ (ev_index _ _ _ _ He1) Hbk) as (bk1 & Hbk1 & _).
    destruct (InvalidChainFound_marks back s1 (ex_intro _ _ Hbk1) (inv_best_invalid _ _ _ _ Hs1) Ht1) as (s2 & -> & M & _).
    cbn [mbind option_bind]. pose proof (proj1 (ok_tree _ _ (inv_index _ _ _ _ Hs1))) as Hm1.
    assert (evolves s1 s2) as He2.
    { apply (marks_evolves _ _ ∅ s1 s2 Hm1 M). intros x q Hx. by apply elem_of_empty in Hx. }
    exists InvalidFound, s2. split; [done |]. split; [| split; [| split; [by apply (evolves_trans _ _ s s1) |]]].
    + apply (marks_Inv _ _ _ ∅ s1 s2 M Hs1). intros t x _ Hx. by apply elem_of_empty in Hx.
    + apply (marks_covered _ _ _ ∅ s1 s2 M Hm1 Hc1). intros x q Hx. by apply elem_of_empty in Hx.
    + split; [by rewrite (marks_chain _ _ _ M) |].
      exists p. split; [by apply (ev_failed _ _ _ _ He2) |]. split; [eauto | done].
Qed.

(** ** Rounds of 32 blocks *)

(** [t] is the ancestor of [w] at height [h], none at height -1. *)
Definition at_height m (w : ptr) (t : option ptr) (h : Z) : Prop :=
  match t with
  | None => h = -1
  | Some t => is_ancestor m w t /\ exists bt, m !! t = Some bt /\ nHeight bt = h
  end.

Lemma at_height_unique m w t t' h :
  wf_store m -> is_Some (m !! w) -> at_height m w t h -> at_height m w t' h -> t = t'.
Proof.
  intros Hm [b Hb]. destruct t as [t |], t' as [t' |]; cbn; [| | | done].
  - intros [Ha (bt & Hbt & H1)] [Ha' (bt' & Hbt' & H2)]. f_equal.
    apply (same_height_ancestor m Hm t bt t' bt'); [done | done | congruence |].
    apply (ancestor_of_ancestor m Hm w b t bt t' bt'); try done. lia.
  - intros [_ (bt & Hbt & H1)] H2. pose proof (wf_height m t bt Hm Hbt). lia.
  - intros H2 [_ (bt & Hbt & H1)]. pose proof (wf_height m t' bt Hm Hbt). lia.
Qed.

Lemma at_height_same m m' w t h : same_tree m m' -> at_height m w t h -> at_height m' w t h.
Proof.
  intros H. destruct t as [t |]; [| done]. intros [Ha (bt & Hbt & <-)].
  split; [by apply (is_ancestor_same _ _ _ _ H) |].
  destruct (same_rel_lookup _ _ _ _ _ H Hbt) as (bt' & Hbt' & _ & _ & E & _). exists bt'. split; [done | congruence].
Qed.

Lemma to_connect_spec m h : forall fuel p b,
  wf_store m -> m !! p = Some b -> -1 <= h <= nHeight b -> nHeight b - h <= Z.of_nat fuel ->
  exists l base, to_connect fuel m h (Some p) = Some l /\ at_height m p base h /\
    segment m base (rev l) /\ seg_end base (rev l) = Some p /\
    forall x, x ∈ l -> is_ancestor m p x /\ exists bx, m !! x = Some bx /\ h < nHeight bx.
Proof.
  induction fuel as [| fuel IH]; intros p b Hm Hp Hh Hf; cbn [to_connect]; rewrite Hp; cbn [mbind option_bind];
    (destruct (Z.eqb_spec (nHeight b) h) as [E | E];
     [exists [], (Some p); split; [done |]; split; [split; [apply is_ancestor_refl | by exists b] |];
      split; [done |]; split; [done |]; intros x Hx; by apply elem_of_nil in Hx |]); [lia |].
  destruct (pprev b) as [q |] eqn:Hq.
  - destruct (parent_height m Hm p b q Hp Hq) as (bq & Hbq & H0 & H1).
    destruct (IH q bq Hm Hbq ltac:(lia) ltac:(lia)) as (l & base & -> & Hbase & Hseg & Hend & Hl). cbn [mbind option_bind].
    assert (forall x, is_ancestor m q x -> is_ancestor m p x) as Hup.
    { intros x Hx. apply (is_ancestor_step m p b x Hp). eauto. }
    exists (p :: l), base. split; [done |].
    split; [destruct base as [t |]; [destruct Hbase; by split; [apply Hup |] | done] |]. cbn [rev].
    split; [apply (segment_snoc m base (rev l) p b Hseg Hp); by rewrite Hend |].
    split; [unfold seg_end; by rewrite last_snoc |].
    intros x [-> | Hx]%elem_of_cons.
    + split; [apply is_ancestor_refl |]. exists b. split; [done | lia].
    + destruct (Hl x Hx) as [Ha Hbx]. by split; [apply Hup |].
  - pose proof (Hm p b Hp) as Hw. unfold wf_index in Hw. rewrite Hq in Hw. destruct Hw as [H0 _].
    exists [p], None. split; [by destruct fuel |]. split; [cbn; lia |]. split; [by split; [exists b |] |].
    split; [done |]. intros x [-> | Hx%elem_of_nil]%elem_of_cons; [| done].
    split; [apply is_ancestor_refl |]. exists b. split; [done | lia].
Qed.

Lemma connect_rounds_spec w old target : forall fuel h s bw,
  Inv s -> covered s -> aims (blocks s) w -> blocks s !! w = Some bw -> nHeight bw = target ->
  at_height (blocks s) w (Tip (chainActive s)) h -> h <= target -> target - h <= Z.of_nat fuel ->
  (forall o, old = Some o -> is_Some (blocks s !! o)) ->
  exists e s', connect_rounds addr L fuel old w None target h s = Some (e, s') /\ Inv s' /\ covered s' /\ evolves s s' /\
    match e with
    | AllConnected => aims (blocks s') w /\ Tip (chainActive s') = Some w
    | BetterTip => aims (blocks s') w /\ exists x h', at_height (blocks s') w (Some x) h' /\ h < h' /\
        Tip (chainActive s') = Some x
    | InvalidFound => is_Some (Tip (chainActive s')) /\ exists x, failed (blocks s') x /\ is_Some (blocks s !! x) /\ ~ failed (blocks s) x
    | NodeError => False
    end.
Proof using HL addr_inj.
  induction fuel as [| fuel IH]; intros h s bw Hs Hc Ha Hw Et Hat Hle Hf Hold; cbn [connect_rounds];
    pose proof (proj1 (ok_tree _ _ (inv_index _ _ _ _ Hs))) as Hm;
    (destruct (Z.eqb_spec h target) as [-> | Hne];
     [exists AllConnected, s; split; [done |]; split; [done |]; split; [done |]; split; [by apply evolves_eq |];
      split; [done |]; apply (at_height_unique (blocks s) w _ _ target Hm (ex_intro _ _ Hw) Hat);
      split; [apply is_ancestor_refl | eauto] |]); [lia |].
  assert (-1 <= h) as Hh.
  { destruct (Tip (chainActive s)) as [t |]; cbn in Hat; [| lia]. destruct Hat as [_ (bt & Hbt & <-)].
    pose proof (wf_height _ _ _ Hm Hbt). lia. }
  destruct (GetAncestor_ancestor _ Hm w bw (Z.min (h + 32) target) Hw ltac:(lia)) as (c & bc & -> & Hbc & Hhc & Hwc).
  cbn [mbind option_bind].
  destruct (to_connect_spec (blocks s) h (Z.to_nat (Z.min (h + 32) target - h)) c bc Hm Hbc ltac:(lia) ltac:(lia))
    as (l & base & -> & Hbase & Hseg & Hend & Hl). cbn [mbind option_bind].
  assert (at_height (blocks s) w base h) as Hbase'.
  { destruct base as [t |]; [| done]. destruct Hbase as [Hct Hbt]. split; [| done].
    by apply (is_ancestor_trans _ w c t). }
  rewrite (at_height_unique (blocks s) w _ _ h Hm (ex_intro _ _ Hw) Hbase' Hat) in Hseg, Hend.
  destruct (connect_all_spec w old (List.last l w) (rev l) s Hs Hc Ha Hseg) as (e & s1 & -> & Hs1 & Hc1 & He1 & Hres).
  { intros x Hx. rewrite list_elem_of_In, <- in_rev, <- list_elem_of_In in Hx.
    apply (is_ancestor_trans _ w c x); [done |]. by apply Hl. }
  { destruct (last_default_elem l w) as [Hin | ->]; [| eauto]. destruct (Hl _ Hin) as [_ (bx & Hbx & _)]. eauto. }
  { done. }
  cbn [mbind option_bind]. pose proof (same_index_tree _ _ (ev_index _ _ _ _ He1)) as Ht1.
  destruct e; try done.
  - destruct Hres as [Ha1 Etip]. rewrite Hend in Etip.
    destruct (same_rel_lookup _ _ _ _ _ Ht1 Hw) as (bw1 & Hw1 & _ & _ & Eh & _).
    destruct (IH (Z.min (h + 32) target) s1 bw1 Hs1 Hc1 Ha1 Hw1) as (e & s2 & -> & Hs2 & Hc2 & He2 & Hres).
    + congruence.
    + rewrite Etip. apply (at_height_same (blocks s) _ _ _ _ Ht1). split; [done | eauto].
    + lia.
    + lia.
    + intros o Ho. destruct (Hold o Ho) as [bo Hbo]. destruct (same_rel_lookup _ _ _ _ _ Ht1 Hbo) as (bo1 & Hbo1 & _). eauto.
    + exists e, s2. split; [done |]. split; [done |]. split; [done |]. split; [by apply (evolves_trans _ _ s s1) |].
      destruct e; try done.
      * destruct Hres as (? & x & h' & Hx & Hlt & ?). split; [done |]. exists x, h'. split; [done |]. split; [lia | done].
      * destruct Hres as (Htx & x & Hx & [bx Hbx] & Hnx). split; [done |]. exists x. split; [done |].
        destruct (same_rel_lookup _ _ _ _ _ (same_rel_sym same_block _ _ _ Ht1) Hbx) as (bx0 & Hbx0 & _).
        split; [eauto |]. intros Hfx. apply Hnx. by apply (ev_failed _ _ _ _ He1).
  - exists BetterTip, s1. split; [done |]. split; [done |]. split; [done |]. split; [done |].
    destruct Hres as (Ha1 & x & Hx & Etip). split; [done |].
    rewrite list_elem_of_In, <- in_rev, <- list_elem_of_In in Hx. destruct (Hl x Hx) as [Hcx (bx & Hbx & Hlt)].
    exists x, (nHeight bx). split; [| done]. apply (at_height_same (blocks s) _ _ _ _ Ht1).
    split; [by apply (is_ancestor_trans _ w c x) | eauto].
  - exists InvalidFound, s1. done.
Qed.

(** ** One step *)

Lemma active_length m t bt v : m !! t = Some bt -> active m (Some t) v -> length v = (Z.to_nat (nHeight bt) + 1)%nat.
Proof. intros Ht (b & Hb & ->). simplify_eq. apply length_path. Qed.

Lemma disconnect_to_spec fork : forall fuel s,
  Inv s -> covered s -> (length (chainActive s) <= fuel)%nat ->
  (forall f, fork = Some f -> exists t, Tip (chainActive s) = Some t /\ is_ancestor (blocks s) t f) ->
  (fork = None -> Tip (chainActive s) = None) ->
  exists s', disconnect_to L fuel fork s = Some (true, s') /\ Inv s' /\ covered s' /\ blocks s' = blocks s /\
    Tip (chainActive s') = fork.
Proof using HL addr_inj.
  induction fuel as [| fuel IH]; intros s Hs Hc Hf Hfork Hnone; cbn [disconnect_to];
    (destruct (Tip (chainActive s)) as [t |] eqn:Ht;
     [| exists s; split; [done |]; split; [done |]; split; [done |]; split; [done |];
        destruct fork as [f |]; [destruct (Hfork f eq_refl) as (? & ? & _) |]; done]);
    pose proof (inv_index _ _ _ _ Hs) as Hm; pose proof (inv_active _ _ _ _ Hs) as Hv; rewrite Ht in Hv;
    destruct (linked_lookup _ _ (proj1 (inv_tip _ _ _ _ Hs t Ht))) as [bt Hbt];
    pose proof (active_length _ t bt _ Hbt Hv) as Hlen; [lia |].
  case_decide as Hd; [exists s; rewrite Ht; done |].
  destruct fork as [f |]; [| by specialize (Hnone eq_refl)]. destruct (Hfork f eq_refl) as (t' & [= <-] & Ha).
  apply (is_ancestor_step _ t bt f Hbt) in Ha as [-> | (q & Hq & Ha)]; [done |].
  destruct (DisconnectTip_spec s t Hs Hc Ht) as (s1 & b & -> & Hb & Htip & Hs1 & Hc1 & Eb & _).
  { intros b Hb. rewrite Hbt in Hb. injection Hb as <-. eauto. }
  rewrite Hbt in Hb. injection Hb as <-.
  cbn [mbind option_bind]. destruct (IH s1 Hs1 Hc1) as (s2 & -> & Hs2 & Hc2 & Eb2 & Htip2).
  - pose proof (inv_active _ _ _ _ Hs1) as Hv1. rewrite Htip, Eb, Hq in Hv1.
    destruct (parent_height _ (proj1 (ok_tree _ _ Hm)) t bt q Hbt Hq) as (bq & Hbq & ? & ?).
    rewrite (active_length _ q bq _ Hbq Hv1). lia.
  - intros f' [= <-]. rewrite Htip, Eb. eauto.
  - done.
  - exists s2. split; [done |]. split; [done |]. split; [done |]. split; [congruence | done].
Qed.

Lemma FindFork_empty m w b : m !! w = Some b -> 0 <= nHeight b -> FindFork m [] (Some w) = Some None.
Proof.
  intros Hw Hh. unfold FindFork. rewrite Hw. cbn [mbind option_bind]. change (Height []) with (-1).
  rewrite Z.gtb_ltb. destruct (Z.ltb_spec (-1) (nHeight b)); [| lia]. unfold GetAncestor. rewrite Hw.
  cbn [mbind option_bind]. rewrite orb_true_r. cbn [mbind option_bind]. by destruct (Z.to_nat (nHeight b) + 1)%nat.
Qed.

(** Every chain starts with the genesis block. *)
Lemma chain_root m p : index_ok m -> is_Some (m !! p) -> exists r, is_ancestor m p r /\ parent r = None.
Proof.
  intros Hm [b Hp]. pose proof (proj1 (ok_tree _ _ Hm)) as Hst. pose proof (wf_height _ _ _ Hst Hp).
  destruct (walk_exists m p b (Z.to_nat (nHeight b)) Hst Hp) as (r & br & Hw & Hr & Hh); [lia |].
  exists r. split; [by eexists |]. rewrite <- (ok_parent _ _ Hm r br Hr). destruct (pprev br) as [q |] eqn:Hq; [| done].
  destruct (parent_height m Hst r br q Hr Hq) as (bq & _ & ? & ?). lia.
Qed.

Lemma common_root m p q :
  index_ok m -> is_Some (m !! p) -> is_Some (m !! q) -> exists r, is_ancestor m p r /\ is_ancestor m q r.
Proof using HL.
  intros Hm Hp Hq. destruct (chain_root m p Hm Hp) as (r & Hpr & Hr). destruct (chain_root m q Hm Hq) as (r' & Hqr & Hr').
  exists r. split; [done |]. by rewrite (one_genesis (LedgerOk := HL) r r' Hr Hr').
Qed.

(** The fork of a block with the active chain. *)
Lemma FindFork_active s w :
  Inv s -> is_Some (blocks s !! w) ->
  exists fork h, FindFork (blocks s) (chainActive s) (Some w) = Some fork /\ at_height (blocks s) w fork h /\
    (forall f, fork = Some f -> exists t, Tip (chainActive s) = Some t /\ is_ancestor (blocks s) t f) /\
    (forall t, Tip (chainActive s) = Some t -> is_ancestor (blocks s) w t -> fork = Some t) /\
    (fork = None -> Tip (chainActive s) = None).
Proof using HL.
  intros Hs [bw Hw]. pose proof (proj1 (ok_tree _ _ (inv_index _ _ _ _ Hs))) as Hm.
  pose proof (inv_active _ _ _ _ Hs) as Hv. destruct (Tip (chainActive s)) as [t |] eqn:Ht; cbn in Hv.
  - destruct Hv as (bt & Hbt & ->). destruct (FindFork_correct _ Hm t bt w bw Hbt Hw) as (r & E & Hr).
    destruct r as [f |]; cbn in Hr.
    + destruct Hr as (Hwf & Htf & Hmax). destruct (is_ancestor_lookup _ Hm w bw f Hw Hwf) as [bf Hbf].
      exists (Some f), (nHeight bf). split; [done |]. split; [by split; [| eauto] |].
      split; [intros f' [= <-]; eauto |]. split; [| done]. intros t' [= <-] Ha. f_equal.
      apply (same_height_ancestor _ Hm f bf t bt Hbf Hbt); [| apply Hmax; [done | apply is_ancestor_refl]].
      destruct Htf as [n Hn]. destruct (Hmax t Ha (is_ancestor_refl _ t)) as [k Hk].
      pose proof (walk_height _ t bt n f bf Hm Hbt Hn Hbf). pose proof (walk_height _ f bf k t bt Hm Hbf Hk Hbt). lia.
    + destruct (common_root (blocks s) w t (inv_index _ _ _ _ Hs) ltac:(eauto) ltac:(eauto)) as (r & Hwr & Htr).
      destruct (Hr r Hwr Htr).
  - rewrite Hv. exists None, (-1). split; [apply (FindFork_empty _ w bw Hw (wf_height _ _ _ Hm Hw)) |]. done.
Qed.

Lemma ActivateBestChainStep_spec s w :
  Inv s -> covered s -> aims (blocks s) w ->
  exists fInvalidFound s', ActivateBestChainStep addr L w None s = Some (Some fInvalidFound, s') /\
    Inv s' /\ covered s' /\ evolves s s' /\
    if fInvalidFound : bool then is_Some (Tip (chainActive s')) /\
      exists x, failed (blocks s') x /\ is_Some (blocks s !! x) /\ ~ failed (blocks s) x
    else aims (blocks s') w /\
      (Tip (chainActive s') = Some w \/
       exists x h', at_height (blocks s') w (Some x) h' /\ Tip (chainActive s') = Some x /\
         forall t bt, Tip (chainActive s) = Some t -> is_ancestor (blocks s) w t -> blocks s !! t = Some bt ->
           nHeight bt < h').
Proof using HL addr_inj.
  intros Hs Hc Ha. destruct (linked_lookup _ _ (proj1 (proj2 Ha))) as [bw Hw]. unfold ActivateBestChainStep.
  destruct (FindFork_active s w Hs (ex_intro _ _ Hw)) as (fork & h & -> & Hat & Hanc & Hup & Hnone). cbn [mbind option_bind].
  destruct (disconnect_to_spec fork (length (chainActive s)) s Hs Hc ltac:(lia) Hanc Hnone) as (s1 & -> & Hs1 & Hc1 & Eb & Etip).
  cbn [mbind option_bind]. rewrite Eb, Hw. cbn [mbind option_bind].
  pose proof (proj1 (ok_tree _ _ (inv_index _ _ _ _ Hs))) as Hm.
  assert ((match fork with Some f => b ← blocks s !! f; Some (nHeight b) | None => Some (-1) end) = Some h) as ->.
  { destruct fork as [f |]; [| cbn in Hat; by subst]. destruct Hat as [_ (bf & -> & <-)]. done. }
  cbn [mbind option_bind].
  assert (h <= nHeight bw) as Hle.
  { destruct fork as [f |]; [| cbn in Hat; pose proof (wf_height _ _ _ Hm Hw); lia].
    destruct Hat as [[n Hn] (bf & Hbf & <-)]. pose proof (walk_height _ w bw n f bf Hm Hw Hn Hbf). lia. }
  destruct (connect_rounds_spec w (Tip (chainActive s)) (nHeight bw) (Z.to_nat (nHeight bw - h)) h s1 bw Hs1 Hc1)
    as (e & s2 & -> & Hs2 & Hc2 & He2 & Hres); rewrite ?Eb, ?Etip; try done; [lia | |].
  { intros o Ho. by apply linked_lookup, (inv_tip _ _ _ _ Hs). }
  cbn [mbind option_bind].
  assert (evolves s s2) as He by (apply (evolves_trans _ _ s s1 s2); [by apply evolves_eq | done]).
  assert (forall t bt, Tip (chainActive s) = Some t -> is_ancestor (blocks s) w t -> blocks s !! t = Some bt ->
    nHeight bt = h) as Hh.
  { intros t bt Ht Hwt Hbt. rewrite (Hup t Ht Hwt) in Hat. destruct Hat as [_ (bt' & Hbt' & <-)]. by simplify_eq. }
  destruct e; [| | | done].
  - exists false, s2. split; [done |]. split; [done |]. split; [done |]. split; [done |].
    destruct Hres. split; [done | by left].
  - exists false, s2. split; [done |]. split; [done |]. split; [done |]. split; [done |].
    destruct Hres as (Ha2 & x & h' & Hx & Hlt & Ex). split; [done |]. right. exists x, h'.
    split; [done |]. split; [done |]. intros t bt Ht Hwt Hbt. by rewrite (Hh t bt Ht Hwt Hbt).
  - exists true, s2. rewrite Eb in Hres. done.
Qed.

(** ** The loop *)

(** The tip is the best linked block that is not marked; there is no tip
    only if there is no such block. *)
Definition settled s : Prop :=
  match Tip (chainActive s) with
  | Some t => top (blocks s) t
  | None => forall q b, blocks s !! q = Some b -> nChainTx b <> 0 -> is_failed b = true
  end.

(** With enough fuel the loop returns [true] in a settled state. *)
Definition settles (mw : option ptr) s : Prop :=
  exists n s', (forall fuel, (n <= fuel)%nat -> ActivateBestChain_loop addr L fuel None mw s = Some (true, s')) /\
    Inv s' /\ covered s' /\ evolves s s' /\ settled s'.

Lemma settles_evolves mw s s1 :
  evolves s s1 -> settles mw s1 ->
  exists n s', (forall fuel, (n <= fuel)%nat -> ActivateBestChain_loop addr L fuel None mw s1 = Some (true, s')) /\
    Inv s' /\ covered s' /\ evolves s s' /\ settled s'.
Proof.
  intros He (n & s' & Hl & Hs & Hc & He' & Hst). exists n, s'. split_and!; try done.
  by apply (evolves_trans _ _ s s1).
Qed.

(** A round that goes on from [s1]. *)
Lemma settles_again mw mw1 s s1 :
  ActivateBestChain_round addr L None mw s = Some (Again mw1 s1) -> evolves s s1 -> settles mw1 s1 -> settles mw s.
Proof.
  intros E He Hset. destruct (settles_evolves mw1 s s1 He Hset) as (n & s' & Hl & H). exists (S n), s'. split; [| done].
  intros [| fuel] Hf; [lia |]. cbn [ActivateBestChain_loop]. rewrite E. cbn [mbind option_bind]. apply Hl. lia.
Qed.

Lemma settles_return mw s s1 :
  ActivateBestChain_round addr L None mw s = Some (Return true s1) ->
  Inv s1 -> covered s1 -> evolves s s1 -> settled s1 -> settles mw s.
Proof.
  intros E Hs Hc He Hst. exists 0%nat, s1. split; [| done]. intros fuel _.
  destruct fuel; cbn [ActivateBestChain_loop]; by rewrite E.
Qed.

Lemma settles_step s w :
  Inv s -> covered s -> aims (blocks s) w ->
  (forall s1 x h', Inv s1 -> covered s1 -> evolves s s1 -> aims (blocks s1) w ->
     at_height (blocks s1) w (Some x) h' -> Tip (chainActive s1) = Some x ->
     (forall t bt, Tip (chainActive s) = Some t -> is_ancestor (blocks s) w t -> blocks s !! t = Some bt ->
        nHeight bt < h') -> settles (Some w) s1) ->
  (forall s1 x, Inv s1 -> covered s1 -> evolves s s1 -> failed (blocks s1) x -> is_Some (blocks s !! x) ->
     ~ failed (blocks s) x -> settles None s1) ->
  settles (Some w) s.
Proof using HL addr_inj.
  intros Hs Hc Ha Hmore Hinv. destruct (decide (Tip (chainActive s) = Some w)) as [Ht | Ht].
  { apply (settles_return (Some w) s s); try done; [| by apply evolves_eq | unfold settled; rewrite Ht; apply Ha].
    unfold ActivateBestChain_round. cbn [mbind option_bind]. by rewrite decide_True. }
  destruct (ActivateBestChainStep_spec s w Hs Hc Ha) as (fInv & s1 & E & Hs1 & Hc1 & He1 & Hres).
  assert (ActivateBestChain_round addr L None (Some w) s =
    if decide (Tip (chainActive s1) = if fInv then None else Some w)
    then Some (Return (flush_state L (ledger s1)) s1) else Some (Again (if fInv then None else Some w) s1)) as Er.
  { unfold ActivateBestChain_round. cbn [mbind option_bind]. rewrite decide_False by done. change (delivered_for None w) with (@None (list Z)). by rewrite E. }
  rewrite (flush_works (LedgerOk := HL)) in Er. destruct fInv.
  - destruct Hres as ([t Ht1] & x & Hx & Hdx & Hnx). rewrite decide_False in Er by (by rewrite Ht1).
    apply (settles_again (Some w) None s s1 Er He1). by apply (Hinv s1 x).
  - destruct Hres as (Ha1 & [Ht1 | (x & h' & Hx & Ht1 & Hlt)]).
    + rewrite decide_True in Er by done. apply (settles_return (Some w) s s1 Er); try done.
      unfold settled. rewrite Ht1. apply Ha1.
    + case_decide as Hd.
      * apply (settles_return (Some w) s s1 Er); try done. unfold settled. rewrite Hd. apply Ha1.
      * apply (settles_again (Some w) (Some w) s s1 Er He1). by apply (Hmore s1 x h').
Qed.

(** Blocks that are not marked. *)
Definition unmarked m : gset ptr := dom (filter (fun e => is_failed e.2 = false) m).

Lemma elem_of_unmarked m p : p ∈ unmarked m <-> exists b, m !! p = Some b /\ is_failed b = false.
Proof.
  unfold unmarked. rewrite elem_of_dom. split.
  - intros [b [Hb Hf]%map_lookup_filter_Some]. eauto.
  - intros (b & Hb & Hf). exists b. by apply map_lookup_filter_Some.
Qed.

Lemma unmarked_evolves s s' : evolves s s' -> unmarked (blocks s') ⊆ unmarked (blocks s).
Proof.
  intros He p (b' & Hb' & Hf)%elem_of_unmarked. apply elem_of_unmarked.
  destruct (same_rel_lookup _ _ _ _ _ (same_index_sym _ _ (ev_index _ _ _ _ He)) Hb') as (b & Hb & _).
  exists b. split; [done |]. destruct (is_failed b) eqn:E; [| done].
  destruct (ev_failed _ _ _ _ He p) as (c & Hc & ?); [by exists b |]. congruence.
Qed.

Lemma unmarked_decreases s s' x :
  evolves s s' -> failed (blocks s') x -> is_Some (blocks s !! x) -> ~ failed (blocks s) x ->
  (size (unmarked (blocks s')) < size (unmarked (blocks s)))%nat.
Proof.
  intros He (b' & Hb' & Hf') [b Hb] Hnf. apply subset_size. split; [by apply unmarked_evolves |]. intros Hsub.
  assert (x ∈ unmarked (blocks s')) as (c & Hc & ?)%elem_of_unmarked; [| congruence].
  apply Hsub, elem_of_unmarked. exists b. split; [done |]. destruct (is_failed b) eqn:E; [| done].
  destruct Hnf. by exists b.
Qed.

(** Once the tip is on the way to [w], every step brings it closer. *)
Lemma settles_up k w :
  (forall s1, Inv s1 -> covered s1 -> (size (unmarked (blocks s1)) < k)%nat -> settles None s1) ->
  forall d s x h bw, Inv s -> covered s -> (size (unmarked (blocks s)) <= k)%nat -> aims (blocks s) w ->
    at_height (blocks s) w (Some x) h -> Tip (chainActive s) = Some x ->
    blocks s !! w = Some bw -> nHeight bw - h <= Z.of_nat d -> settles (Some w) s.
Proof using HL addr_inj.
  intros Hk d. induction d as [d IH] using lt_wf_ind. intros s x h bw Hs Hc Hu Ha Hx Ht Hw Hd.
  apply settles_step; [done | done | done | |].
  - intros s1 x1 h1 Hs1 Hc1 He1 Ha1 Hx1 Ht1 Hlt.
    destruct Hx as [Hwx (bx & Hbx & <-)]. specialize (Hlt x bx Ht Hwx Hbx).
    pose proof (same_index_tree _ _ (ev_index _ _ _ _ He1)) as Htree.
    destruct (same_rel_lookup _ _ _ _ _ Htree Hw) as (bw1 & Hw1 & _ & _ & Eh & _).
    assert (h1 <= nHeight bw) as Hle.
    { destruct Hx1 as [[n Hn] (b1 & Hb1 & <-)]. rewrite Eh.
      pose proof (walk_height _ w bw1 n x1 b1 (proj1 (ok_tree _ _ (inv_index _ _ _ _ Hs1))) Hw1 Hn Hb1). lia. }
    apply (IH (Z.to_nat (nHeight bw - h1)) ltac:(lia) s1 x1 h1 bw1); try done; [| lia].
    etrans; [| exact Hu]. by apply subseteq_size, unmarked_evolves.
  - intros s1 y Hs1 Hc1 He1 Hy Hdy Hny. apply Hk; [done | done |].
    pose proof (unmarked_decreases s s1 y He1 Hy Hdy Hny). lia.
Qed.

Lemma ActivateBestChain_settles s : Inv s -> covered s -> settles None s.
Proof using HL addr_inj.
  remember (size (unmarked (blocks s))) as k eqn:Ek. revert s Ek.
  induction k as [k IH] using lt_wf_ind. intros s -> Hs Hc.
  destruct (FindMostWorkChain_spec addr addr_inj parent valid world s Hs Hc)
    as (r & s1 & E & Hs1 & Hc1 & He1 & Ev & Hr).
  assert (size (unmarked (blocks s1)) <= size (unmarked (blocks s)))%nat as Hu
    by (by apply subseteq_size, unmarked_evolves).
  destruct r as [w |].
  - destruct Hr as (Hl & Hcl & Htop). assert (settles (Some w) s1) as Hset.
    { assert (aims (blocks s1) w) as Ha by done. destruct (linked_lookup _ _ Hl) as [bw Hw].
      apply settles_step; [done | done | done | |].
      - intros s2 x h' Hs2 Hc2 He2 Ha2 Hx Ht2 _.
        pose proof (same_index_tree _ _ (ev_index _ _ _ _ He2)) as Htree.
        destruct (same_rel_lookup _ _ _ _ _ Htree Hw) as (bw2 & Hw2 & _).
        apply (settles_up (size (unmarked (blocks s))) w) with (d := Z.to_nat (nHeight bw2 - h')) (x := x) (h := h') (bw := bw2);
          try done; [| | lia].
        + intros s3 Hs3 Hc3 Hlt. by apply (IH _ Hlt s3 eq_refl).
        + etrans; [| exact Hu]. by apply subseteq_size, unmarked_evolves.
      - intros s2 y Hs2 Hc2 He2 Hy Hdy Hny. pose proof (unmarked_decreases s1 s2 y He2 Hy Hdy Hny).
        apply (IH (size (unmarked (blocks s2))) ltac:(lia) s2 eq_refl Hs2 Hc2). }
    destruct (settles_evolves (Some w) s s1 He1 Hset) as (n & s' & Hl' & H). exists n, s'. split; [| done].
    intros fuel Hf. rewrite <- (Hl' fuel Hf).
    destruct fuel; cbn [ActivateBestChain_loop]; unfold ActivateBestChain_round; by rewrite E.
  - destruct Hr as [Ht Hnone]. apply (settles_return None s s1); try done.
    + unfold ActivateBestChain_round. by rewrite E.
    + unfold settled. rewrite Ht. done.
Qed.

End Activate.
