(* ===== verification/BestChainSteps.v ===== *)
(** * Operations on the chain state keep it ready

    Between two operations the candidates are complete from the tip on.
    New headers, received blocks, [PreciousBlock], [InvalidateBlock] and
    [ResetBlockFailureFlags] never fail an assertion on such a state and
    lead to such a state again. *)

From stdpp Require Import gmap sorting.
From S2P Require Import Prelude ArithUint256 Compact Chain ActiveChain BestChain BestChainInv BestChainSelect.
From S2P Require Import BestChainActivate.
Set Default Proof Using "Type".

(** ** A new header *)

Section Header.
Implicit Types (m : gmap ptr CBlockIndex) (p q : ptr).

(** The entry [AddToBlockIndex] inserts. *)
Lemma AddToBlockIndex_shape st hash block st' p :
  mapBlockIndex st !! hash = None -> hash <> hdr_hashPrevBlock block ->
  AddToBlockIndex st hash block = Some (st', p) ->
  exists new, mapBlockIndex st' = <[hash := new]> (mapBlockIndex st) /\
    pprev new = (if mapBlockIndex st !! hdr_hashPrevBlock block then Some (hdr_hashPrevBlock block) else None) /\
    nTx new = 0 /\ nChainTx new = 0 /\ nBits new = hdr_nBits block /\ BLOCK_VALID_TREE <= level new /\
    is_failed new = false.
Proof.
  intros Hh Hne. unfold AddToBlockIndex. rewrite Hh.
  assert (forall new1, AddToBlockIndex_link (<[hash := new_index block]> (mapBlockIndex st)) hash block = Some new1 ->
    pprev new1 = (if mapBlockIndex st !! hdr_hashPrevBlock block then Some (hdr_hashPrevBlock block) else None) /\
    nTx new1 = 0 /\ nChainTx new1 = 0 /\ nBits new1 = hdr_nBits block /\ nStatus new1 = 0) as Hlink.
  { intros new1. unfold AddToBlockIndex_link. rewrite lookup_insert_ne by done.
    destruct (mapBlockIndex st !! hdr_hashPrevBlock block) as [prev |]; [| by intros [= <-]].
    unfold BuildSkip. cbn [pprev nHeight]. destruct (GetAncestor _ _ _) as [[a |] |]; cbn; intros [= <-]; done. }
  destruct (AddToBlockIndex_link _ _ _) as [new1 |]; cbn [mbind option_bind]; [| done].
  destruct (Hlink new1 eq_refl) as (H1 & H2 & H3 & H4 & H5). unfold AddToBlockIndex_finish.
  destruct (GetBlockProof (nBits new1)); cbn [mbind option_bind]; [| done].
  match goal with |- context [RaiseValidity ?x ?y] =>
    destruct (RaiseValidity_links x y) as ((E1 & _ & _ & _ & _ & E5 & _) & _ & E3 & E4);
    assert (is_failed x = false) as Hx by (unfold has_flag; cbn; by rewrite H5);
    assert (BLOCK_VALID_TREE <= level (snd (RaiseValidity x y))) as Hlev
      by (by apply (RaiseValidity_flags x y BLOCK_FAILED_MASK));
    assert (is_failed (snd (RaiseValidity x y)) = false) as Hnf
      by (rewrite <- Hx; by apply (RaiseValidity_flags x y BLOCK_FAILED_MASK)); set (new2 := snd (RaiseValidity x y)) in * end.
  cbn in E1, E3, E4, E5. destruct (match pindexBestHeader st with Some _ => _ | None => _ end) as [better |];
    cbn [mbind option_bind]; [| done]. intros [= <- <-]. exists new2. cbn. rewrite insert_insert_eq.
  split; [done |]. split_and!; done || congruence.
Qed.

Section Fresh.
Context (m : gmap ptr CBlockIndex) (h : ptr) (new : CBlockIndex) (Hh : m !! h = None) (Hm : wf_store m).

Lemma walk_fresh p n : is_Some (m !! p) -> walk (<[h := new]> m) p n = walk m p n.
Proof using Hh Hm.
  revert p. induction n as [| n IH]; intros p [b Hb]; [done |]. cbn [walk].
  rewrite lookup_insert_ne by congruence. rewrite Hb. cbn. destruct (pprev b) as [q |] eqn:Hq; [| done]. cbn.
  apply IH. destruct (parent_height m Hm p b q Hb Hq) as (bq & Hbq & _). eauto.
Qed.

Lemma is_ancestor_fresh p a : is_Some (m !! p) -> is_ancestor (<[h := new]> m) p a <-> is_ancestor m p a.
Proof using Hh Hm. intros Hp. unfold is_ancestor. by setoid_rewrite (walk_fresh p _ Hp). Qed.

Lemma chain_tx_fresh p n : is_Some (m !! p) -> chain_tx n (<[h := new]> m) p = chain_tx n m p.
Proof using Hh Hm.
  revert p. induction n as [| n IH]; intros p [b Hb]; cbn [chain_tx];
    (rewrite lookup_insert_ne by congruence); rewrite Hb; [done |].
  destruct (pprev b) as [q |] eqn:Hq; [| done]. rewrite IH; [done |].
  destruct (parent_height m Hm p b q Hb Hq) as (bq & Hbq & _). eauto.
Qed.

Lemma active_fresh t v : active m t v -> active (<[h := new]> m) t v.
Proof using Hh Hm.
  destruct t as [t |]; [| done]. intros (bt & Ht & ->). exists bt. rewrite lookup_insert_ne by congruence.
  split; [done |]. unfold path. apply map_ext. intros i. symmetry. apply walk_fresh. eauto.
Qed.

Lemma linked_fresh p : nChainTx new = 0 -> linked (<[h := new]> m) p <-> linked m p.
Proof using Hh.
  intros Hn. unfold linked. split.
  - intros (b & Hb & Hb'). rewrite lookup_insert in Hb. case_decide; [simplify_eq; done | eauto].
  - intros (b & Hb & Hb'). exists b. rewrite lookup_insert_ne by congruence. done.
Qed.

Lemma worse_fresh addr p q : p <> h -> q <> h -> worse addr (<[h := new]> m) p q <-> worse addr m p q.
Proof. intros Hp Hq. unfold worse. rewrite !lookup_insert_ne by done. done. Qed.

End Fresh.
End Header.

(** ** Marking the blocks above one *)

Section Marking.
Context {W : Type}.
Implicit Types (m : gmap ptr CBlockIndex) (s : ChainState W) (p q : ptr).

Lemma InvalidateBlock_mark_spec x : forall fuel bx p b s,
  wf_tree (blocks s) -> blocks s !! x = Some bx -> blocks s !! p = Some b ->
  is_ancestor (blocks s) p x -> nHeight b - nHeight bx <= Z.of_nat fuel ->
  exists s' X, InvalidateBlock_mark fuel x p s = Some s' /\ marks X s s' /\
    forall y, y ∈ X -> is_ancestor (blocks s) y x.
Proof.
  induction fuel as [| fuel IH]; intros bx p b s Hm Hx Hp Ha Hf; cbn [InvalidateBlock_mark];
    (case_decide as Hd; [exists s, ∅; split; [done |]; split; [apply marks_refl | set_solver] |]).
  all: destruct Ha as [[| n] Hn]; [cbn in Hn; congruence |];
    pose proof (walk_height _ p b (S n) x bx (proj1 Hm) Hp Hn Hx); try lia.
  cbn [walk] in Hn. rewrite Hp in Hn. cbn in Hn. destruct (pprev b) as [q |] eqn:Hq; [| done]. cbn in Hn.
  rewrite Hp. cbn [mbind option_bind]. unfold change. rewrite Hp. cbn [mbind option_bind].
  rewrite Hq. cbn [mbind option_bind].
  match goal with |- context [InvalidateBlock_mark _ _ q ?y] => set (s1 := y) end.
  assert (marks {[ p ]} s s1) as M1 by (apply (marks_one BLOCK_FAILED_CHILD p b); try done; by left).
  pose proof (same_index_tree _ _ (marks_index _ _ _ M1)) as Ht.
  destruct (parent_height (blocks s) (proj1 Hm) p b q Hp Hq) as (bq & Hbq & _ & Hh).
  destruct (same_rel_lookup _ _ _ _ _ Ht Hx) as (bx1 & Hx1 & Ex).
  destruct (same_rel_lookup _ _ _ _ _ Ht Hbq) as (bq1 & Hq1 & Eq).
  destruct (IH bx1 q bq1 s1) as (s2 & X & -> & M2 & HX); try done.
  { by apply (wf_tree_same _ _ Ht). }
  { apply (is_ancestor_same _ _ _ _ Ht). by exists n. }
  { destruct Ex as (_ & _ & <- & _), Eq as (_ & _ & <- & _). lia. }
  exists s2, ({[ p ]} ∪ X). split; [done |]. split; [by apply (marks_trans _ _ s s1) |].
  intros y [->%elem_of_singleton | Hy]%elem_of_union.
  - apply (is_ancestor_step _ p b x Hp). right. exists q. split; [done | by exists n].
  - apply (is_ancestor_same _ _ _ _ Ht). by apply HX.
Qed.

(** The condition under which a block can be a candidate. *)
Definition eligible (b : CBlockIndex) : bool := IsValid b BLOCK_VALID_TRANSACTIONS && negb (nChainTx b =? 0).

Lemma valid_candidates_spec addr m t l :
  works_ok m -> is_Some (m !! t) -> (forall e, e ∈ l -> m !! e.1 = Some e.2) ->
  exists c, valid_candidates addr m (Some t) l = Some c /\
    forall p, p ∈ c <-> exists b, (p, b) ∈ l /\ eligible b = true /\ ~ worse addr m p t.
Proof.
  intros Hw [bt Ht]. induction l as [| [p b] l IH]; intros Hl; [exists ∅; set_solver |]. cbn [valid_candidates].
  destruct IH as (c & -> & Hc); [intros e He; apply Hl; by right |]. cbn [mbind option_bind].
  assert (m !! p = Some b) as Hp by (apply (Hl (p, b)); by left). fold (eligible b).
  setoid_rewrite elem_of_cons. destruct (eligible b) eqn:E.
  - destruct (comparator_spec addr m p t b bt Hw Hp Ht) as (w & -> & Hiff). cbn [mbind option_bind].
    eexists. split; [done |]. intros q. destruct w; rewrite ?elem_of_union, ?elem_of_singleton, Hc; split.
    + intros (b' & ? & ? & ?). eauto 6.
    + intros (b' & [[= -> ->] | ?] & ? & Hn); [by destruct Hn; apply Hiff | eauto].
    + intros [-> | (b' & ? & ? & ?)]; [| eauto 6]. exists b. split; [by left |]. split; [done |]. by intros ?%Hiff.
    + intros (b' & [[= -> ->] | ?] & ? & ?); [by left | right; eauto].
  - exists c. split; [done |]. intros q. rewrite Hc. split.
    + intros (b' & ? & ? & ?). eauto 6.
    + intros (b' & [[= -> ->] | ?] & ? & ?); [congruence | eauto].
Qed.

End Marking.

Section Steps.
Context {W : Type}.
Variable addr : ptr -> Z.
Hypothesis addr_inj : forall p q, addr p = addr q -> p = q.
Context (L : Ledger W) (parent : ptr -> option ptr) (valid : ptr -> bool) (world : option ptr -> W -> Prop).
Context {HL : LedgerOk L parent valid world}.

Implicit Types (m : gmap ptr CBlockIndex) (s : ChainState W) (p q : ptr).

Abbreviation index_ok := (index_ok parent).
Abbreviation good := (good parent valid).
Abbreviation sound := (sound parent valid).
Abbreviation Inv := (Inv parent valid world).
Abbreviation covered := (covered addr parent valid).
Abbreviation complete := (complete addr).
Abbreviation work b := (val256 (nChainWork b)).

(** ** Ready states *)

Definition ready s : Prop :=
  Inv s /\ complete (blocks s) (setBlockIndexCandidates s) (Tip (chainActive s)).

Lemma ready_covered s : ready s -> covered s.
Proof.
  intros [Hs Hc]. exists (Tip (chainActive s)). split; [done |]. split; [| done]. intros r Hr.
  split; [by apply (inv_tip _ _ _ _ Hs) |]. intros t Ht. rewrite Hr in Ht. injection Ht as ->. apply worse_irrefl.
Qed.

(** After [ActivateBestChain] the candidates are complete from the tip on. *)
Lemma settled_ready s : Inv s -> covered s -> settled addr s -> ready s.
Proof using addr_inj.
  intros Hs (R & Hc & HR & HN) Hst. split; [done |]. unfold settled in Hst.
  destruct (Tip (chainActive s)) as [t |] eqn:Ht.
  - destruct R as [r |]; [| by specialize (HN eq_refl)]. destruct (HR r eq_refl) as [Hg Hw].
    destruct (good_unmarked _ _ _ _ Hg) as (br & Hbr & Hnr & Hfr).
    pose proof (inv_tip _ _ _ _ Hs t Ht) as Hgt.
    destruct (worse_total addr addr_inj (blocks s) r t (ex_intro _ _ Hbr) (linked_lookup _ _ (proj1 Hgt)))
      as [-> | [? | ?]]; [done | by destruct (Hw t eq_refl) | by destruct (Hst r br)].
  - intros p b Hp Hn Hf. by rewrite (Hst p b Hp Hn) in Hf.
Qed.

Lemma ActivateBestChain_ready s :
  ready s -> exists n s', (forall fuel, (n <= fuel)%nat -> ActivateBestChain addr L fuel None s = Some (true, s')) /\
    ready s' /\ evolves parent valid s s' /\ settled addr s'.
Proof using HL addr_inj.
  intros Hr. destruct (ActivateBestChain_settles addr addr_inj L parent valid world s (proj1 Hr) (ready_covered s Hr))
    as (n & s' & Hl & Hs & Hc & He & Hst). exists n, s'. split; [done |]. split; [by apply settled_ready | done].
Qed.

(** ** New headers *)

(** [AddToBlockIndex] as a change of the whole state. *)
Definition add_header (hash : Z) (block : CBlockHeader) s : option (ChainState W) :=
  '(st, _) ← AddToBlockIndex (block_index s) hash block; Some (with_block_index (fun _ => st) s).

(** A header that is new extends a known block, or is the root; its work is
    positive and the total stays below [2^256]. *)
Definition header_ok (hash : Z) (block : CBlockHeader) s : Prop :=
  hash <> hdr_hashPrevBlock block /\ 0 <= hdr_nBits block < 2 ^ 32 /\
  (blocks s !! hash = None ->
   match blocks s !! hdr_hashPrevBlock block with
   | Some b => parent hash = Some (hdr_hashPrevBlock block) /\ 0 < block_work (hdr_nBits block) /\
       work b + block_work (hdr_nBits block) < 2 ^ 256
   | None => parent hash = None
   end).

Lemma index_ok_fresh m h new :
  index_ok m -> m !! h = None -> wf_tree (<[h := new]> m) -> nTx new = 0 -> nChainTx new = 0 ->
  BLOCK_VALID_TREE <= level new -> pprev new = parent h ->
  (forall q, pprev new = Some q -> q <> h /\ forall bq, m !! q = Some bq -> work bq < work new) ->
  index_ok (<[h := new]> m).
Proof.
  intros Hm Hh Ht Hn Hc Hlv Hp Hw. pose proof (proj1 (ok_tree _ _ Hm)) as Hst. split.
  - done.
  - intros p b. rewrite lookup_insert. case_decide; [intros [= <-]; by subst | by apply Hm].
  - intros p b q bq Hb Hq Hbq. rewrite lookup_insert in Hb. case_decide as Hd.
    + injection Hb as <-. destruct (Hw q Hq) as [Hqh Hlt]. rewrite lookup_insert_ne in Hbq by done. by apply Hlt.
    + destruct (parent_height m Hst p b q Hb Hq) as (bq0 & Hbq0 & _).
      rewrite lookup_insert_ne in Hbq by congruence. by apply (ok_work _ _ Hm p b q bq).
  - intros p b q Hb Hnb Hq. rewrite lookup_insert in Hb. case_decide; [by simplify_eq |].
    apply (linked_fresh m h new Hh q Hc). by apply (ok_linked _ _ Hm p b q).
  - intros p b Hb Hnb. rewrite lookup_insert in Hb. case_decide; [by simplify_eq | by apply (ok_data _ _ Hm p)].
  - intros p b Hb. rewrite lookup_insert in Hb. case_decide; [simplify_eq; lia | by apply (ok_tx _ _ Hm p)].
  - intros p b Hb. rewrite lookup_insert in Hb. case_decide; [by simplify_eq | by apply (ok_level _ _ Hm p)].
  - intros p b Hb Hnb. rewrite lookup_insert in Hb. case_decide; [by simplify_eq |].
    rewrite chain_tx_fresh by eauto. by apply (ok_chain_tx _ _ Hm).
  - intros p b Hb Hnb. rewrite lookup_insert in Hb. case_decide; [by simplify_eq | by apply (ok_received _ _ Hm p)].
Qed.

Lemma good_fresh m h new p : wf_store m -> m !! h = None -> nChainTx new = 0 -> good m p -> good (<[h := new]> m) p.
Proof.
  intros Hst Hh Hc (Hl & Hcl & Hr). pose proof (linked_lookup _ _ Hl) as Hp.
  split; [by apply (linked_fresh m h new Hh p Hc) |]. split; [| done].
  intros a Ha (b & Hb & Hf). apply (is_ancestor_fresh m h new Hh Hst p a Hp) in Ha.
  destruct Hp as [bp Hbp]. destruct (is_ancestor_lookup m Hst p bp a Hbp Ha) as [ba Hba].
  rewrite lookup_insert_ne in Hb by congruence. apply (Hcl a Ha). by exists b.
Qed.

(** The entry of a new header. *)
Definition header_entry (hash : Z) (block : CBlockHeader) m (new : CBlockIndex) : Prop :=
  pprev new = parent hash /\ nTx new = 0 /\ nChainTx new = 0 /\ is_failed new = false /\
  work new = match m !! hdr_hashPrevBlock block with Some b => work b | None => 0 end + block_work (hdr_nBits block).

Lemma add_header_entry hash block s :
  Inv s -> header_ok hash block s -> blocks s !! hash = None ->
  exists st' new, add_header hash block s = Some (with_block_index (fun _ => st') s) /\ best_ok st' /\
    mapBlockIndex st' = <[hash := new]> (blocks s) /\ index_ok (<[hash := new]> (blocks s)) /\
    header_entry hash block (blocks s) new.
Proof.
  intros Hs (Hne & Hbits & Hfresh) Hh. unfold add_header. specialize (Hfresh Hh).
  pose proof (inv_index _ _ _ _ Hs) as Hm. pose proof (ok_tree _ _ Hm) as Htree.
  destruct (AddToBlockIndex_link_ok (blocks s) hash block (proj1 Htree) Hh Hne) as (new1 & El & Hb & Hi & Hp).
  destruct (AddToBlockIndex_finish_ok (block_index s) hash (new_index block) new1 Htree (inv_best_header _ _ _ _ Hs) Hh)
    as (st' & Ef & Htree' & Hbest & _); [by rewrite Hb | done | done |].
  assert (AddToBlockIndex (block_index s) hash block = Some (st', hash)) as E.
  { unfold AddToBlockIndex. unfold blocks in Hh. rewrite Hh. unfold blocks in El. rewrite El. done. }
  destruct (AddToBlockIndex_shape _ _ _ _ _ Hh Hne E) as (new & Em & Hpp & Htx & Hctx & Hnb & Hlv & Hnf).
  rewrite E. cbn [mbind option_bind]. exists st', new. split; [done |]. split; [done |]. split; [done |].
  rewrite Em in Htree'. fold (blocks s) in Hpp.
  pose proof (proj2 Htree' hash new (lookup_insert_eq _ _ _)) as (_ & _ & _ & Hmeta).
  assert (header_entry hash block (blocks s) new) as Hent.
  { split; [rewrite Hpp; destruct (blocks s !! hdr_hashPrevBlock block); [by destruct Hfresh as [-> _] | done] |].
    split; [done |]. split; [done |]. split; [done |]. rewrite Hpp in Hmeta.
    destruct (blocks s !! hdr_hashPrevBlock block) as [bp |] eqn:Ebp; [| rewrite Hnb in Hmeta; lia].
    destruct Hmeta as (bq & Hbq & _ & ->). rewrite lookup_insert_ne in Hbq by done. unfold blocks in Ebp.
    rewrite Hbq in Ebp. injection Ebp as <-. rewrite Hnb. pose proof (proj2 Htree _ _ Hbq) as (Hw & _).
    pose proof (value_range W256 (nChainWork bq) Hw). destruct Hfresh as (_ & H1 & H2). apply Z.mod_small. split; [lia | done]. }
  split; [| done]. destruct Hent as (Hpar & _ & _ & _ & Hwork). apply index_ok_fresh; try done.
  intros q Hq. rewrite Hpp in Hq. destruct (blocks s !! hdr_hashPrevBlock block) as [bp |] eqn:Ebp; [| done].
  injection Hq as <-. split; [done |]. intros bq Hbq. rewrite Ebp in Hbq. injection Hbq as <-. lia.
Qed.

Lemma add_header_ready hash block s :
  ready s -> header_ok hash block s -> exists s', add_header hash block s = Some s' /\ ready s' /\
    chainActive s' = chainActive s /\
    match blocks s !! hash with
    | Some _ => blocks s' = blocks s
    | None => exists new, blocks s' = <[hash := new]> (blocks s) /\ header_entry hash block (blocks s) new
    end.
Proof.
  intros [Hs Hc] Hok. destruct (blocks s !! hash) as [b |] eqn:Hh.
  { unfold add_header, AddToBlockIndex. unfold blocks in Hh. rewrite Hh. cbn [mbind option_bind]. eexists. split; [done |]. by destruct s. }
  destruct (add_header_entry hash block s Hs Hok Hh) as (st' & new & -> & Hbest & Em & Hm' & Hent).
  eexists. split; [done |]. split; [| split; [done |]; exists new; done].
  destruct Hent as (_ & Htx & Hctx & _). pose proof (proj1 (ok_tree _ _ (inv_index _ _ _ _ Hs))) as Hst.
  assert (blocks (with_block_index (fun _ => st') s) = <[hash := new]> (blocks s)) as Eb by done.
  destruct Hs as [I0 I1 I2 I3 I4 I5 I6 I7 I8 I9 I10].
  assert (forall p, is_Some (blocks s !! p) -> p <> hash) as Hnh by (intros p [b Hp']; congruence).
  split; [split |]; rewrite ?Eb; cbn [chainActive setBlockIndexCandidates with_block_index ledger block_index]; try done.
  - by apply active_fresh.
  - intros t Ht. apply good_fresh; auto.
  - intros p Hp'. apply linked_fresh; auto.
  - intros p Hp'. destruct (I6 p Hp') as (b & Hb' & ?). exists b. rewrite lookup_insert_ne by congruence. done.
  - intros p Hp'. destruct (I7 p Hp') as [b Hb']. exists b. rewrite lookup_insert_ne by congruence. done.
  - intros e He. destruct (I8 e He) as (b & q & bq & Hb' & H1 & H2 & H3 & H4 & H5). exists b, q, bq.
    rewrite !lookup_insert_ne by congruence. done.
  - intros p b Hb' H1 H2. rewrite lookup_insert in Hb'. case_decide; [simplify_eq; lia | by apply I10].
  - intros p b Hb' H1 H2 Hw. rewrite lookup_insert in Hb'. case_decide as Hd; [by simplify_eq |].
    apply (Hc p b); try done. intros t Ht Hwt. apply (Hw t Ht). apply worse_fresh; [congruence | | done].
    apply Hnh, linked_lookup. by apply I3.
Qed.

(** ** [InvalidateBlock] *)

Lemma eligible_spec m p b :
  index_ok m -> m !! p = Some b -> eligible b = true <-> nChainTx b <> 0 /\ is_failed b = false.
Proof.
  intros Hm Hp. unfold eligible. rewrite IsValid_level, !andb_true_iff, !negb_true_iff, Z.eqb_neq, Z.leb_le. split.
  - intros [[? _] ?]. done.
  - intros [Hn Hf]. destruct (ok_data _ _ Hm p b Hp Hn). done.
Qed.

(** Disconnecting until the block is not in the chain. *)
Lemma InvalidateBlock_disconnect_spec p b : forall fuel s was,
  Inv s -> covered s -> blocks s !! p = Some b -> is_Some (pprev b) -> (length (chainActive s) <= fuel)%nat ->
  exists was' s', InvalidateBlock_disconnect L fuel p was s = Some (true, was', s') /\
    Inv s' /\ blocks s' = blocks s /\ setBlockIndexCandidates s' = setBlockIndexCandidates s /\
    (forall t, Tip (chainActive s') = Some t -> ~ is_ancestor (blocks s) t p) /\
    ((was' = was /\ Tip (chainActive s') = Tip (chainActive s)) \/
     (was' = true /\ Tip (chainActive s') = pprev b /\
      exists t, Tip (chainActive s) = Some t /\ is_ancestor (blocks s) t p)).
Proof using HL addr_inj.
  induction fuel as [| fuel IH]; intros s was Hs Hc Hp Hpp Hf; cbn [InvalidateBlock_disconnect];
    pose proof (proj1 (ok_tree _ _ (inv_index _ _ _ _ Hs))) as Hst;
    (destruct (Contains_spec (blocks s) (Tip (chainActive s)) (chainActive s) p Hst (inv_active _ _ _ _ Hs))
      as (c & -> & Hc'); [eauto |]); cbn [mbind option_bind];
    (destruct c;
     [destruct (proj1 Hc' eq_refl) as (t & Ht & Ha)
     | exists was, s; split; [done |]; split; [done |]; split; [done |]; split; [done |]; split; [| by left];
       intros t Ht Ha; by assert (false = true) by (apply Hc'; eauto)]);
    pose proof (inv_active _ _ _ _ Hs) as Hv; rewrite Ht in Hv;
    destruct (linked_lookup _ _ (proj1 (inv_tip _ _ _ _ Hs t Ht))) as [bt Hbt];
    pose proof (active_length _ t bt _ Hbt Hv) as Hlen; [lia |].
  destruct (DisconnectTip_spec addr addr_inj L parent valid world s t Hs Hc Ht) as (s1 & bt1 & -> & Hbt1 & Htip & Hs1 & Hc1 & Eb & Ec).
  { intros c Hct. rewrite Hbt in Hct. injection Hct as <-.
    apply (is_ancestor_step _ t bt p Hbt) in Ha as [-> | (q & Hq & _)]; [congruence | eauto]. }
  rewrite Hbt in Hbt1. injection Hbt1 as <-. cbn [mbind option_bind].
  destruct (IH s1 true Hs1 Hc1) as (was' & s2 & -> & Hs2 & Eb2 & Ec2 & Hnot & Hcase).
  { by rewrite Eb. }
  { done. }
  { pose proof (inv_active _ _ _ _ Hs1) as Hv1. rewrite Htip, Eb in Hv1. destruct (pprev bt) as [q |] eqn:Hq.
    - destruct (parent_height _ Hst t bt q Hbt Hq) as (bq & Hbq & ? & ?). rewrite (active_length _ q bq _ Hbq Hv1). lia.
    - cbn in Hv1. rewrite Hv1. cbn. lia. }
  rewrite Eb in Hnot, Hcase. exists was', s2. split; [done |]. split; [done |]. split; [congruence |]. split; [congruence |].
  split; [done |]. right. destruct Hcase as [(-> & Htip2) | (-> & Htip2 & _)]; (split; [done |]); (split; [| eauto]); [| done].
  apply (is_ancestor_step _ t bt p Hbt) in Ha as [-> | (q & Hq & Ha)]; [congruence |].
  destruct (Hnot q); [congruence | done].
Qed.

(** The blocks of the old chain from [p] on are marked. *)
Lemma InvalidateBlock_marked p b t was s s1 :
  Inv s1 -> blocks s1 = blocks s -> blocks s !! p = Some b ->
  (was = true -> Tip (chainActive s) = Some t /\ is_Some (blocks s !! t) /\ is_ancestor (blocks s) t p) ->
  exists s2 X, (if was : bool then t ← Tip (chainActive s); bt ← blocks s1 !! t;
      InvalidateBlock_mark (Z.to_nat (nHeight bt)) p t s1 else Some s1) = Some s2 /\ marks X s1 s2 /\
      forall y, y ∈ X -> is_ancestor (blocks s) y p.
Proof using HL addr_inj.
  intros Hs1 Eb1 Hp Hwas. destruct was; [| exists s1, ∅; split; [done |]; split; [apply marks_refl | set_solver]].
  destruct (Hwas eq_refl) as (-> & [bt Hbt] & Ha). cbn [mbind option_bind].
  pose proof (ok_tree _ _ (inv_index _ _ _ _ Hs1)) as Htree. rewrite Eb1 in Htree.
  rewrite Eb1, Hbt. cbn [mbind option_bind]. pose proof (wf_height _ _ _ (proj1 Htree) Hp).
  destruct (InvalidateBlock_mark_spec p (Z.to_nat (nHeight bt)) b t bt s1) as (s2 & X & E & M & HX); rewrite ?Eb1 in *; try done; [lia |].
  exists s2, X. done.
Qed.

(** The candidates are complete again, and the best invalid chain is noted. *)
Lemma InvalidateBlock_candidates p t s3 :
  Inv s3 -> Tip (chainActive s3) = Some t -> is_Some (blocks s3 !! p) ->
  exists c s5, valid_candidates addr (blocks s3) (Some t) (map_to_list (blocks s3)) = Some c /\
    InvalidChainFound p (with_candidates (fun old => c ∪ old) s3) = Some s5 /\ ready s5 /\ blocks s5 = blocks s3.
Proof using HL addr_inj.
  intros Hs3 Ht Hp. pose proof (inv_index _ _ _ _ Hs3) as Hm3. pose proof (inv_tip _ _ _ _ Hs3 t Ht) as Hg.
  destruct (valid_candidates_spec addr (blocks s3) t (map_to_list (blocks s3))) as (c & -> & Hc).
  { by apply wf_tree_works, Hm3. }
  { by apply linked_lookup, Hg. }
  { intros [q bq] Hq. by apply elem_of_map_to_list in Hq. }
  assert (forall q, q ∈ c <-> exists bq, blocks s3 !! q = Some bq /\ nChainTx bq <> 0 /\ is_failed bq = false /\
    ~ worse addr (blocks s3) q t) as Hc'.
  { intros q. rewrite Hc. split; intros (bq & H1 & H2).
    - apply elem_of_map_to_list in H1. rewrite (eligible_spec _ q bq Hm3 H1) in H2. destruct H2 as ((? & ?) & ?). eauto 6.
    - destruct H2 as (? & ? & ?). exists bq. rewrite elem_of_map_to_list, (eligible_spec _ q bq Hm3 H1). done. }
  exists c. set (s4 := with_candidates _ s3).
  destruct (InvalidChainFound_marks p s4) as (s5 & -> & M5 & E5); [done | apply (inv_best_invalid _ _ _ _ Hs3) | by exists t |].
  exists s5. split; [done |]. split; [done |].
  assert (ready s4) as Hr4.
  { destruct Hs3 as [I0 I1 I2 I3 I4 I5 I6 I7 I8 I9 I10]. split; [split; try done |].
    - intros q Hq. change (q ∈ c ∪ setBlockIndexCandidates s3) in Hq. apply elem_of_union in Hq as [Hq | Hq]; [| by apply I5].
      apply Hc' in Hq as (bq & ? & ? & _). by exists bq.
    - intros q bq Hq Hn Hfq Hw. change (q ∈ c ∪ setBlockIndexCandidates s3). apply elem_of_union. left. apply Hc'.
      exists bq. split; [done |]. split; [done |]. split; [done |]. by apply Hw. }
  split; [| unfold blocks; by rewrite E5].
  assert (Inv s5) as Hs5.
  { apply (marks_Inv _ _ _ ∅ s4 s5 M5 (proj1 Hr4)). intros t' x _ Hx. by apply elem_of_empty in Hx. }
  split; [done |]. rewrite (marks_chain _ _ _ M5). apply (marks_complete addr ∅ s4 s5 M5), Hr4.
Qed.

(** [invalidateblock]: the chains that contain the block are given up. *)
Lemma InvalidateBlock_ready p b s :
  ready s -> blocks s !! p = Some b -> is_Some (pprev b) -> is_Some (Tip (chainActive s)) ->
  exists s', InvalidateBlock addr L p s = Some (true, s') /\ ready s' /\ is_Some (Tip (chainActive s')) /\
    same_index (blocks s) (blocks s') /\
    forall q, is_Some (blocks s !! q) -> sound (blocks s') q <-> sound (blocks s) q /\ ~ is_ancestor (blocks s) q p.
Proof using HL addr_inj.
  intros Hr Hp Hpp [t0 Ht0]. pose proof (proj1 Hr) as Hs. unfold InvalidateBlock.
  destruct (InvalidateBlock_disconnect_spec p b (length (chainActive s)) s false Hs (ready_covered s Hr) Hp Hpp ltac:(lia))
    as (was & s1 & -> & Hs1 & Eb1 & Ec1 & Hnot & Hcase). cbn [mbind option_bind].
  pose proof (proj1 (ok_tree _ _ (inv_index _ _ _ _ Hs1))) as Hst. rewrite Eb1 in Hst.
  destruct (InvalidateBlock_marked p b t0 was s s1 Hs1 Eb1 Hp) as (s2 & X & -> & M2 & HX).
  { intros ->. destruct Hcase as [(? & _) | (_ & _ & t & Ht & Ha)]; [done |]. rewrite Ht0 in Ht. injection Ht as <-.
    split; [done |]. split; [| done]. by apply linked_lookup, (inv_tip _ _ _ _ Hs). }
  cbn [mbind option_bind]. unfold change. rewrite <- Eb1 in Hp.
  destruct (same_rel_lookup _ _ _ _ _ (marks_index _ _ _ M2) Hp) as (b2 & Hb2 & _). rewrite Hb2. cbn [mbind option_bind].
  match goal with |- context [blocks (with_failed ?f ?y)] => set (s3 := with_failed f y) end.
  assert (marks (X ∪ {[ p ]}) s1 s3) as M.
  { apply (marks_trans _ _ s1 s2); [done |]. apply (marks_one BLOCK_FAILED_VALID p b2); try done. by right. }
  assert (forall x, x ∈ X ∪ {[ p ]} -> is_ancestor (blocks s1) x p) as HX'.
  { intros x [Hx | ->%elem_of_singleton]%elem_of_union; [rewrite Eb1; by apply HX | apply is_ancestor_refl]. }
  assert (Inv s3) as Hs3.
  { apply (marks_Inv _ _ _ (X ∪ {[ p ]}) s1 s3 M Hs1). intros t x Ht Hx Ha. apply (Hnot t Ht). rewrite <- Eb1.
    apply (is_ancestor_trans _ t x p); [done | by apply HX']. }
  destruct (same_rel_lookup _ _ _ _ _ (marks_index _ _ _ M) Hp) as (b3 & Hb3 & _).
  assert (exists t, Tip (chainActive s3) = Some t) as [t Ht].
  { rewrite (marks_chain _ _ _ M). destruct Hcase as [(_ & ->) | (_ & -> & _)]; [eauto | done]. }
  rewrite Ht. destruct (InvalidateBlock_candidates p t s3 Hs3 Ht (ex_intro _ b3 Hb3)) as (c & s5 & -> & E5 & Hr5 & Eb5).
  cbn [mbind option_bind]. rewrite E5. cbn [mbind option_bind]. exists s5. split; [done |]. split; [done |].
  rewrite Eb5, <- Eb1. split; [| split; [apply M |]].
  - destruct (InvalidChainFound_marks p (with_candidates (fun old => c ∪ old) s3)) as (s5' & E5' & M5 & _);
      [eauto | apply (inv_best_invalid _ _ _ _ Hs3) | by exists t |].
    rewrite E5 in E5'. injection E5' as <-. rewrite (marks_chain _ _ _ M5). by exists t.
  - intros q Hq. split.
    + intros Hsq. split; [by apply (sound_marks_inv _ _ (X ∪ {[ p ]}) s1 s3) |]. intros Ha. apply (proj1 Hsq p).
      * by apply (is_ancestor_same _ _ _ _ (same_index_tree _ _ (marks_index _ _ _ M))).
      * exists b3. split; [done |]. apply (marks_flags _ _ _ M p b b3 Hp Hb3). set_solver.
    + intros [[Hcl Hrp] Hna]. split; [| done]. apply (marks_clean (X ∪ {[ p ]}) s1 s3 M q Hq); [by rewrite Eb1 | done |].
      intros x Hx Ha. apply Hna. by apply (is_ancestor_trans _ q x p); [| apply HX'].
Qed.

(** ** [PreciousBlock] *)

Lemma renumber_counted m p b id : m !! p = Some b -> same_counted m (<[p := with_nSequenceId id b]> m).
Proof. intros Hp. by apply (same_rel_insert same_counts _ p b); [apply _ | | split_and!]. Qed.

Lemma renumber_status m p b id : m !! p = Some b -> same_status m (<[p := with_nSequenceId id b]> m).
Proof. intros Hp q c c' Hc Hc'. rewrite lookup_insert in Hc'. case_decide; simplify_eq; done. Qed.

(** The invariant does not speak of the order in which blocks arrived. *)
Lemma Inv_renumber s p b id :
  Inv s -> blocks s !! p = Some b -> Inv (with_blocks (<[p := with_nSequenceId id b]> (blocks s)) s).
Proof.
  intros [I0 I1 I2 I3 I4 I5 I6 I7 I8 I9 I10] Hp. pose proof (renumber_counted _ p b id Hp) as Hcnt.
  pose proof (renumber_status _ p b id Hp) as Hst. set (m' := <[p := with_nSequenceId id b]> (blocks s)) in *.
  set (s' := with_blocks m' s). assert (blocks s' = m') as Eb by done.
  assert (forall q c, blocks s !! q = Some c -> exists c', m' !! q = Some c' /\ same_counts c c' /\ nStatus c' = nStatus c) as Hup.
  { intros q c Hq. destruct (same_rel_lookup _ _ _ _ _ Hcnt Hq) as (c' & Hc' & Hs'). eauto 6. }
  split; rewrite ?Eb; cbn [chainActive setBlockIndexCandidates with_blocks ledger mapBlocksUnlinked s']; try done.
  - apply (best_ok_same (block_index s)); [by apply same_counted_tree | done | done].
  - apply (index_ok_same parent (blocks s) m' Hcnt); [| done]. intros q c c' Hc Hc'.
    unfold has_flag, level. by rewrite (Hst q c c' Hc Hc').
  - by apply (active_same (blocks s)); [apply same_counted_tree |].
  - intros t Ht. apply (good_counted _ _ (blocks s)); auto.
  - intros q Hq. apply (linked_same (blocks s)); auto.
  - intros q Hq. destruct (I6 q Hq) as (c & Hc & Hf). destruct (Hup q c Hc) as (c' & Hc' & _ & Es). exists c'.
    split; [done |]. unfold has_flag in *. by rewrite Es.
  - intros q Hq. destruct (I7 q Hq) as (c & Hc). destruct (Hup q c Hc) as (c' & Hc' & _). eauto.
  - intros e He. destruct (I8 e He) as (c & q & cq & Hc & H1 & H2 & H3 & H4 & H5).
    destruct (Hup _ c Hc) as (c' & Hc' & ((E1 & _) & E2 & E3) & Es). destruct (Hup _ cq H4) as (cq' & Hcq' & (_ & _ & E4) & _).
    exists c', q, cq'. unfold unlinked_block, has_flag, level in *. rewrite Es, <- E1, <- E2, <- E3, <- E4. done.
  - intros q c' Hc' H1 H2. destruct (same_rel_lookup _ _ _ _ _ (same_counted_sym _ _ Hcnt) Hc') as (c & Hc & (-> & _) & E2 & E3).
    apply I10; congruence.
Qed.

(** The id [PreciousBlock] gives. *)
Definition precious_id s (bt : CBlockIndex) : Z :=
  if 0 <? CompareTo W256 (nChainWork bt) (nLastPreciousChainwork s) then -1 else nBlockReverseSequenceId s.

Lemma worse_renumber m p b id q t :
  m !! p = Some b -> id <= nSequenceId b -> q <> p -> worse addr m q t ->
  worse addr (<[p := with_nSequenceId id b]> m) q t.
Proof.
  intros Hp Hid Hq (c & d & Hc & Hd & Hlt). unfold worse. rewrite lookup_insert_ne by done.
  destruct (decide (t = p)) as [-> | Ht].
  - rewrite lookup_insert_eq. simplify_eq. eexists _, _. split; [done |]. split; [done |]. cbn. lia.
  - rewrite lookup_insert_ne by done. eauto 6.
Qed.

Lemma complete_renumber s p b id C :
  ready s -> blocks s !! p = Some b -> id <= nSequenceId b ->
  (forall q, q ∈ setBlockIndexCandidates s -> q <> p -> q ∈ C) -> (eligible b = true -> p ∈ C) ->
  complete (<[p := with_nSequenceId id b]> (blocks s)) C (Tip (chainActive s)).
Proof.
  intros [Hs Hc] Hp Hid HC HpC q c Hq Hn Hf Hw. destruct (decide (q = p)) as [-> | Hne].
  - rewrite lookup_insert_eq in Hq. injection Hq as <-. apply HpC.
    apply (eligible_spec _ p b (inv_index _ _ _ _ Hs) Hp). done.
  - rewrite lookup_insert_ne in Hq by done. apply HC; [| done]. apply (Hc q c Hq Hn Hf). intros t Ht Hwt.
    apply (Hw t Ht). by apply worse_renumber.
Qed.

Lemma PreciousBlock_ready p b t bt s :
  ready s -> blocks s !! p = Some b -> Tip (chainActive s) = Some t -> blocks s !! t = Some bt ->
  precious_id s bt <= nSequenceId b ->
  exists go s', PreciousBlock_mark addr p s = Some (go, s') /\ ready s' /\
    same_counted (blocks s) (blocks s') /\ same_status (blocks s) (blocks s').
Proof using HL addr_inj.
  intros Hr Hp Ht Hbt Hid. pose proof (proj1 Hr) as Hs. unfold PreciousBlock_mark. rewrite Hp. cbn [mbind option_bind].
  rewrite Ht. cbn [mbind option_bind]. rewrite Hbt. cbn [mbind option_bind].
  destruct (_ <? 0).
  { exists false, s. split; [done |]. split; [done |]. split; [apply (same_rel_refl same_counts); apply _ |].
    intros q c c' Hq Hq'. by simplify_eq. }
  fold (precious_id s bt). set (id := precious_id s bt) in *.
  unfold change. change (blocks (erase_candidate p s)) with (blocks s). rewrite Hp. cbn [mbind option_bind].
  match goal with |- context [insert_candidate p ?y] => set (s1 := y) end.
  set (m1 := <[p := with_nSequenceId id b]> (blocks s)) in *.
  assert (same_counted (blocks s) m1 /\ same_status (blocks s) m1) as Hsame
    by (split; [by apply renumber_counted | by apply renumber_status]).
  assert (blocks s1 = m1) as E1 by done.
  assert (Inv s1) as Hs1.
  { pose proof (Inv_candidates _ _ _ s (fun c => c ∖ {[ p ]}) Hs ltac:(set_solver)) as H.
    apply (Inv_renumber _ p b id) in H; [| done]. destruct H as [I0 I1 I2 I3 I4 I5 I6 I7 I8 I9 I10]. by split. }
  fold (eligible b). destruct (eligible b) eqn:He.
  - set (s2 := insert_candidate p s1).
    assert (Inv s2) as Hs2.
    { destruct Hs1 as [I0 I1 I2 I3 I4 I5 I6 I7 I8 I9 I10]. split; try done. intros q Hq.
      change (q ∈ {[ p ]} ∪ setBlockIndexCandidates s1) in Hq. apply elem_of_union in Hq as [->%elem_of_singleton | Hq]; [| by apply I5].
      change (linked m1 p). exists (with_nSequenceId id b). split; [apply lookup_insert_eq |]. cbn.
      by apply (eligible_spec _ p b (inv_index _ _ _ _ Hs) Hp). }
    assert (complete (blocks s2) (setBlockIndexCandidates s2) (Some t)) as Hc2.
    { rewrite <- Ht. apply complete_renumber; try done.
      - intros q Hq Hne. change (q ∈ {[ p ]} ∪ (setBlockIndexCandidates s ∖ {[ p ]})). set_solver.
      - intros _. change (p ∈ {[ p ]} ∪ (setBlockIndexCandidates s ∖ {[ p ]})). set_solver. }
    assert (Tip (chainActive s2) = Some t) as Ht2 by done.
    destruct (good_unmarked _ _ _ _ (inv_tip _ _ _ _ Hs2 t Ht2)) as (bt2 & Hbt2 & Hn2 & Hf2).
    destruct (PruneBlockIndexCandidates_spec addr addr_inj parent valid world s2 t t Hs2) as (s3 & -> & Hs3 & _ & Eb3 & Ev3 & Hiff); try done.
    + exists (Some t). split; [done |]. intros r [= <-]. by apply (inv_tip _ _ _ _ Hs2).
    + apply (Hc2 t bt2); try done. intros r [= <-]. apply worse_irrefl.
    + apply worse_irrefl.
    + cbn [mbind option_bind]. exists true, s3. split; [done |]. rewrite Eb3. split; [| exact Hsame].
      split; [done |]. rewrite Ev3, Ht2, Eb3. intros q c Hq Hn Hf Hw. apply Hiff. split; [by apply (Hc2 q c) | by apply Hw].
  - exists true, s1. split; [done |]. split; [| exact Hsame]. split; [done |].
    change (complete m1 (setBlockIndexCandidates s ∖ {[ p ]}) (Tip (chainActive s))).
    apply complete_renumber; try done; [| by rewrite He]. intros q Hq Hne. set_solver.
Qed.

(** ** [ResetBlockFailureFlags] *)

(** Marks are taken away. *)
Record relaxes s s' : Prop := {
  rel_index : same_index (blocks s) (blocks s');
  rel_flags p b b' : blocks s !! p = Some b -> blocks s' !! p = Some b' ->
    level b' = level b /\ has_flag b' BLOCK_HAVE_DATA = has_flag b BLOCK_HAVE_DATA;
  rel_failed p : failed (blocks s') p -> failed (blocks s) p;
  rel_chain : chainActive s' = chainActive s
}.

Lemma relaxes_refl s : relaxes s s.
Proof. split; try done; [apply (same_rel_refl same_links); apply _ |]. intros p b b' H1 H2. by simplify_eq. Qed.

Lemma relaxes_trans s1 s2 s3 : relaxes s1 s2 -> relaxes s2 s3 -> relaxes s1 s3.
Proof.
  intros [I1 F1 M1 C1] [I2 F2 M2 C2]. split; [by apply (same_rel_trans same_links _ _ _ _ I1 I2) | | auto | congruence].
  intros p b b3 Hb Hb3. destruct (same_rel_lookup _ _ _ _ _ I1 Hb) as (b2 & Hb2 & _).
  destruct (F1 p b b2 Hb Hb2), (F2 p b2 b3 Hb2 Hb3). split; congruence.
Qed.

Lemma relaxes_good s s' p : relaxes s s' -> good (blocks s) p -> good (blocks s') p.
Proof.
  intros [I F M C] (Hl & Hc & Hr). split; [by apply (linked_same (blocks s)); [apply same_index_counted |] |].
  split; [| done]. intros a Ha Hf. apply (Hc a); [| by apply M].
  by apply (is_ancestor_same _ _ _ _ (same_index_tree _ _ I)).
Qed.

Lemma relaxes_Inv s s' :
  Inv s -> relaxes s s' -> ledger s' = ledger s -> mapBlocksUnlinked s' = mapBlocksUnlinked s ->
  pindexBestHeader (block_index s') = pindexBestHeader (block_index s) ->
  (forall p, p ∈ setBlockIndexCandidates s' -> linked (blocks s') p) ->
  (forall p, p ∈ g_failed_blocks s' -> exists b, blocks s' !! p = Some b /\ has_flag b BLOCK_FAILED_VALID = true) ->
  (forall p, pindexBestInvalid s' = Some p -> is_Some (blocks s' !! p)) -> Inv s'.
Proof.
  intros [I0 I1 I2 I3 I4 I5 I6 I7 I8 I9 I10] Hrel El Eu Eh HC HF HB. pose proof Hrel as [RI RF RM RC].
  split; rewrite ?RC, ?El, ?Eu; try done.
  - by apply (best_ok_same (block_index s)); [apply same_index_tree | |].
  - apply (index_ok_same parent (blocks s) _ (same_index_counted _ _ RI)); [| done]. intros q c c' Hc Hc'.
    destruct (RF q c c' Hc Hc') as [-> ->]. done.
  - by apply (active_same (blocks s)); [apply same_index_tree |].
  - intros t Ht. apply (relaxes_good s); auto.
  - intros e He. destruct (I8 e He) as (c & q & cq & Hc & H1 & H2 & H3 & H4 & H5).
    destruct (same_rel_lookup _ _ _ _ _ RI Hc) as (c' & Hc' & (E1 & _) & _ & E2 & E3).
    destruct (same_rel_lookup _ _ _ _ _ RI H4) as (cq' & Hcq' & _ & _ & _ & E4).
    destruct (RF _ c c' Hc Hc') as [F1 F2].
    exists c', q, cq'. unfold unlinked_block in *. rewrite F1, F2, <- E1, <- E2, <- E3, <- E4. done.
  - intros q c' Hc' H1 H2. destruct (same_rel_lookup _ _ _ _ _ (same_index_sym _ _ RI) Hc') as (c & Hc & (-> & _) & _ & E2 & E3).
    apply I10; congruence.
Qed.

Lemma GetAncestor_total m q b h :
  wf_store m -> m !! q = Some b -> 0 <= h -> exists r, GetAncestor m q h = Some r.
Proof.
  intros Hm Hq Hh. destruct (Z_le_gt_dec h (nHeight b)).
  - destruct (GetAncestor_ancestor m Hm q b h Hq) as (c & bc & E & _); [lia | eauto].
  - unfold GetAncestor. rewrite Hq. cbn [mbind option_bind]. rewrite Z.gtb_ltb.
    destruct (Z.ltb_spec (nHeight b) h); [eauto | lia].
Qed.

Lemma GetAncestor_descendant m q p bp :
  wf_store m -> is_Some (m !! q) -> m !! p = Some bp -> is_ancestor m q p ->
  GetAncestor m q (nHeight bp) = Some (Some p).
Proof.
  intros Hm [b Hq] Hp Ha. pose proof (wf_height _ _ _ Hm Hp). destruct Ha as [n Hn].
  pose proof (walk_height m q b n p bp Hm Hq Hn Hp).
  destruct (GetAncestor_ancestor m Hm q b (nHeight bp) Hq) as (c & bc & -> & Hc & Hh & Hqc); [lia |].
  do 2 f_equal. assert (Some c = Some p) as [= ->]; [| done].
  apply (at_height_unique m q (Some c) (Some p) (nHeight bp) Hm); [eauto | split; eauto | split; [by exists n | eauto]].
Qed.

Lemma relaxes_clear q b s s' :
  blocks s !! q = Some b -> blocks s' = <[q := clear_flag BLOCK_FAILED_MASK b]> (blocks s) ->
  chainActive s' = chainActive s -> relaxes s s' /\ ~ failed (blocks s') q.
Proof.
  intros Hq E Ev. assert (is_failed (clear_flag BLOCK_FAILED_MASK b) = false) as Hf by (by apply has_clear).
  split; [split; [| | | done]; rewrite ?E |].
  - by apply (same_rel_insert same_links _ q b); [apply _ | | split_and!].
  - intros x c c' Hx Hx'. rewrite lookup_insert in Hx'. case_decide; simplify_eq; [| done].
    split; [by apply level_clear | by apply has_clear_other].
  - intros x (c & Hx & Hfx). rewrite lookup_insert in Hx. case_decide; simplify_eq; [congruence | by exists c].
  - intros (c & Hx & Hfx). rewrite E, lookup_insert_eq in Hx. simplify_eq. congruence.
Qed.

(** A block whose marks are cleared, which becomes a candidate if it is
    better than the tip. *)
Lemma clear_one_ready q b t s s' :
  ready s -> Tip (chainActive s) = Some t -> blocks s !! q = Some b ->
  blocks s' = <[q := clear_flag BLOCK_FAILED_MASK b]> (blocks s) -> relaxes s s' ->
  ledger s' = ledger s -> mapBlocksUnlinked s' = mapBlocksUnlinked s ->
  pindexBestHeader (block_index s') = pindexBestHeader (block_index s) ->
  g_failed_blocks s' = g_failed_blocks s ∖ {[ q ]} ->
  (forall x, pindexBestInvalid s' = Some x -> pindexBestInvalid s = Some x) ->
  (forall x, x ∈ setBlockIndexCandidates s' <-> x ∈ setBlockIndexCandidates s \/
     (x = q /\ eligible (clear_flag BLOCK_FAILED_MASK b) = true /\ worse addr (blocks s') t q)) ->
  ready s'.
Proof using HL addr_inj.
  intros [Hs Hc] Ht Hq E Hrel El Eu Eh Eg Ei HC. pose proof (inv_index _ _ _ _ Hs) as Hm.
  pose proof (rel_index _ _ Hrel) as Hsi. set (b' := clear_flag BLOCK_FAILED_MASK b) in *. split.
  - apply (relaxes_Inv s s' Hs Hrel); try done.
    + intros x [Hx | (-> & He & _)]%HC.
      * apply (linked_same (blocks s)); [by apply same_index_counted | by apply (inv_candidates _ _ _ _ Hs)].
      * exists b'. rewrite E. split; [apply lookup_insert_eq |]. unfold eligible in He. apply andb_prop in He as [_ He].
        by apply negb_true_iff, Z.eqb_neq in He.
    + intros x Hx. rewrite Eg in Hx. apply elem_of_difference in Hx as [Hx Hne].
      destruct (inv_failed _ _ _ _ Hs x Hx) as (c & Hcx & Hfx). exists c. rewrite E, lookup_insert_ne by set_solver. done.
    + intros x Hx. destruct (inv_best_invalid _ _ _ _ Hs x (Ei x Hx)) as [c Hcx].
      destruct (same_rel_lookup _ _ _ _ _ Hsi Hcx) as (c' & Hcx' & _). eauto.
  - destruct (good_unmarked _ _ _ _ (inv_tip _ _ _ _ Hs t Ht)) as (bt & Hbt & Hnt & Hft).
    destruct (same_rel_lookup _ _ _ _ _ Hsi Hbt) as (bt' & Hbt' & _).
    rewrite (rel_chain _ _ Hrel), Ht. intros x c Hx Hn Hf Hw. apply HC. destruct (decide (x = q)) as [-> | Hne].
    + rewrite E, lookup_insert_eq in Hx. injection Hx as <-.
      destruct (worse_total addr addr_inj (blocks s') t q) as [-> | [Htq | Hqt]];
        [eauto | rewrite E, lookup_insert_eq; eauto | | | by destruct (Hw t eq_refl)].
      * left. apply (Hc q bt Hbt Hnt Hft). intros t' Et. rewrite Ht in Et. injection Et as <-. apply worse_irrefl.
      * right. split; [done |]. split; [| done]. unfold eligible. rewrite IsValid_level, Hf.
        unfold b'. rewrite level_clear by done. destruct (ok_data _ _ Hm q b Hq Hn) as [_ Hlev]. apply Z.leb_le in Hlev.
        rewrite Hlev. change (negb (nChainTx b =? 0) = true). change (nChainTx b <> 0) in Hn. by apply Z.eqb_neq in Hn as ->.
    + left. rewrite E, lookup_insert_ne in Hx by done. apply (Hc x c Hx Hn Hf). intros t' Et Hwt. rewrite Ht in Et.
      injection Et as <-. apply (Hw t eq_refl). by apply (worse_same addr (blocks s)).
Qed.

(** The candidates after one entry of the loop. *)
Lemma reset_candidates q b' t s1 :
  works_ok (blocks s1) -> Tip (chainActive s1) = Some t -> is_Some (blocks s1 !! t) -> blocks s1 !! q = Some b' ->
  exists C, (if eligible b' then t0 ← Tip (chainActive s1);
      w ← CBlockIndexWorkComparator addr (blocks s1) t0 q; Some (if w : bool then insert_candidate q s1 else s1) else Some s1)
      = Some (with_candidates (fun _ => C) s1) /\
      (forall x, x ∈ C <-> x ∈ setBlockIndexCandidates s1 \/ (x = q /\ eligible b' = true /\ worse addr (blocks s1) t q)).
Proof.
  intros Hw Ht [bt Hbt] Hq. destruct (comparator_spec addr (blocks s1) t q bt b' Hw Hbt Hq) as (w & Ew & Hiff).
  rewrite Ht. cbn [mbind option_bind]. rewrite Ew.
  exists (if eligible b' && w then {[ q ]} ∪ setBlockIndexCandidates s1 else setBlockIndexCandidates s1).
  split; [destruct (eligible b'); [destruct w |]; by destruct s1 |].
  intros x. destruct (eligible b'); [destruct w |]; cbn [andb];
    rewrite ?elem_of_union, ?elem_of_singleton; naive_solver.
Qed.

(** One entry of the loop; after it the block is not marked if it descends
    from [p]. *)
Lemma ResetBlockFailureFlags_entry_ready p h q s :
  ready s -> is_Some (Tip (chainActive s)) -> is_Some (blocks s !! q) -> 0 <= h ->
  exists s', ResetBlockFailureFlags_entry addr p h q s = Some s' /\ ready s' /\ relaxes s s' /\
    (GetAncestor (blocks s) q h = Some (Some p) -> ~ failed (blocks s') q) /\
    (forall x, blocks s' !! x = blocks s !! x \/ x = q /\ GetAncestor (blocks s) q h = Some (Some p)).
Proof using HL addr_inj.
  intros Hr [t Ht] [b Hq] Hh. pose proof (proj1 Hr) as Hs. unfold ResetBlockFailureFlags_entry.
  rewrite Hq. cbn [mbind option_bind]. pose proof (inv_index _ _ _ _ Hs) as Hm.
  destruct (IsValid b BLOCK_VALID_TRANSACTIONS) eqn:Hv.
  { exists s. split; [done |]. split; [done |]. split; [apply relaxes_refl |]. split; [| by left].
    intros _ (b' & Hb' & Hf). simplify_eq. rewrite IsValid_level, Hf in Hv. done. }
  destruct (GetAncestor_total (blocks s) q b h (proj1 (ok_tree _ _ Hm)) Hq Hh) as [r ->]. cbn [mbind option_bind].
  case_decide as Hd; [| exists s; split; [done |]; split; [done |]; split; [apply relaxes_refl |]; split; [congruence | by left]].
  set (b' := clear_flag BLOCK_FAILED_MASK b). set (s1 := dirty q (with_blocks (<[q := b']> (blocks s)) s)).
  destruct (relaxes_clear q b s s1 Hq) as [Hrel1 Hnf]; [done | done |].
  assert (works_ok (blocks s1)) as Hw.
  { apply wf_tree_works, (wf_tree_same (blocks s)); [apply same_index_tree, (rel_index _ _ Hrel1) | apply Hm]. }
  assert (is_Some (blocks s1 !! t)) as Hbt.
  { destruct (linked_lookup _ _ (proj1 (inv_tip _ _ _ _ Hs t Ht))) as [bt Hbt].
    destruct (same_rel_lookup _ _ _ _ _ (rel_index _ _ Hrel1) Hbt) as (bt' & Hbt' & _). eauto. }
  destruct (reset_candidates q b' t s1 Hw Ht Hbt (lookup_insert_eq _ _ _)) as (C & EC & HC).
  unfold eligible in EC at 1. rewrite EC. cbn [mbind option_bind]. eexists. split; [done |].
  match goal with |- ready ?y /\ _ => set (s4 := y) end.
  assert (blocks s4 = blocks s1 /\ chainActive s4 = chainActive s /\ setBlockIndexCandidates s4 = C /\
    g_failed_blocks s4 = g_failed_blocks s ∖ {[ q ]} /\ ledger s4 = ledger s /\ mapBlocksUnlinked s4 = mapBlocksUnlinked s /\
    pindexBestHeader (block_index s4) = pindexBestHeader (block_index s) /\
    (forall x, pindexBestInvalid s4 = Some x -> pindexBestInvalid s = Some x)) as (E4 & V4 & C4 & G4 & L4 & U4 & H4 & B4).
  { subst s4. case_decide; done. }
  clearbody s4. destruct (relaxes_clear q b s s4 Hq) as [Hrel4 Hnf4]; [by rewrite E4 | done |].
  split; [| split; [done | split; [by intros _ |]]].
  2: { intros x. destruct (decide (x = q)) as [-> | Hne]; [right; by rewrite Hd |]. left. rewrite E4.
       change (blocks s1) with (<[q := b']> (blocks s)). by rewrite lookup_insert_ne. }
  apply (clear_one_ready q b t s s4 Hr Ht Hq); try done. intros x. rewrite C4, E4. apply HC.
Qed.

Lemma ResetBlockFailureFlags_loop_ready p : forall l bp s,
  ready s -> is_Some (Tip (chainActive s)) -> blocks s !! p = Some bp -> (forall q, q ∈ l -> is_Some (blocks s !! q)) ->
  exists s', ResetBlockFailureFlags_loop addr p (nHeight bp) l s = Some s' /\ ready s' /\ relaxes s s' /\
    (forall q, q ∈ l -> is_ancestor (blocks s) q p -> ~ failed (blocks s') q) /\
    (forall q, ~ is_ancestor (blocks s) q p -> blocks s' !! q = blocks s !! q).
Proof using HL addr_inj.
  induction l as [| q l IH]; intros bp s Hr Ht Hp Hl; cbn [ResetBlockFailureFlags_loop].
  { exists s. split; [done |]. split; [done |]. split; [apply relaxes_refl |]. split; [| done]. intros q Hq. by apply elem_of_nil in Hq. }
  pose proof (proj1 (ok_tree _ _ (inv_index _ _ _ _ (proj1 Hr)))) as Hst.
  destruct (ResetBlockFailureFlags_entry_ready p (nHeight bp) q s Hr Ht) as (s1 & -> & Hr1 & Hrel1 & Hq1 & Hk1);
    [apply Hl; set_solver | by apply (wf_height _ _ _ Hst Hp) |].
  cbn [mbind option_bind]. pose proof (same_index_tree _ _ (rel_index _ _ Hrel1)) as Htree.
  destruct (same_rel_lookup _ _ _ _ _ Htree Hp) as (bp1 & Hp1 & Ep). destruct Ep as (_ & _ & Eh & _). rewrite Eh.
  destruct (IH bp1 s1 Hr1) as (s2 & -> & Hr2 & Hrel2 & Hq2 & Hk2); [by rewrite (rel_chain _ _ Hrel1) | done | |].
  { intros x Hx. destruct (Hl x) as [c Hc]; [set_solver |]. destruct (same_rel_lookup _ _ _ _ _ Htree Hc) as (c1 & Hc1 & _). eauto. }
  exists s2. split; [done |]. split; [done |]. split; [by apply (relaxes_trans s s1) |]. split.
  2: { intros x Hx. rewrite Hk2 by (intros Ha; apply Hx; by apply (is_ancestor_same _ _ _ _ Htree)).
       destruct (Hk1 x) as [| [-> Hga]]; [done |]. destruct Hx. destruct (Hl q) as [bq Hbq]; [set_solver |].
       rewrite (GetAncestor_eq _ q bq _ Hst Hbq) in Hga. injection Hga as Hga. unfold ancestor_at in Hga. rewrite Hbq in Hga.
       cbn [mbind option_bind] in Hga. destruct (_ || _); [done |]. by eexists. }
  intros x [-> | Hx]%elem_of_cons Ha.
  - intros Hf. apply (rel_failed _ _ Hrel2) in Hf. apply Hq1; [| done].
    apply GetAncestor_descendant; try done. apply Hl. set_solver.
  - apply Hq2; [done |]. by apply (is_ancestor_same _ _ _ _ Htree).
Qed.

(** No mark is left on the way down. *)
Lemma ResetBlockFailureFlags_up_id : forall fuel p b s,
  wf_store (blocks s) -> clean (blocks s) p -> blocks s !! p = Some b -> nHeight b < Z.of_nat fuel ->
  ResetBlockFailureFlags_up fuel (Some p) s = Some s.
Proof.
  induction fuel as [| fuel IH]; intros p b s Hst Hc Hp Hf; [pose proof (wf_height _ _ _ Hst Hp); lia |].
  cbn [ResetBlockFailureFlags_up]. rewrite Hp. cbn [mbind option_bind].
  destruct (is_failed b) eqn:E; [destruct (Hc p (is_ancestor_refl _ p)); by exists b |].
  destruct (pprev b) as [q |] eqn:Hq; [| by destruct fuel].
  destruct (parent_height _ Hst p b q Hp Hq) as (bq & Hbq & _ & ?). apply (IH q bq); try done; [| lia].
  intros a Ha. apply Hc. apply (is_ancestor_step _ p b a Hp). eauto.
Qed.

(** [reconsiderblock] on a block none of whose ancestors is marked. *)
Lemma ResetBlockFailureFlags_ready p b s :
  ready s -> is_Some (Tip (chainActive s)) -> blocks s !! p = Some b ->
  (forall q, pprev b = Some q -> clean (blocks s) q) ->
  exists s', ResetBlockFailureFlags addr p s = Some s' /\ ready s' /\ relaxes s s' /\
    (forall q, is_Some (blocks s !! q) -> is_ancestor (blocks s) q p -> ~ failed (blocks s') q) /\
    (forall q, ~ is_ancestor (blocks s) q p -> blocks s' !! q = blocks s !! q).
Proof using HL addr_inj.
  intros Hr Ht Hp Hcl. unfold ResetBlockFailureFlags. rewrite Hp. cbn [mbind option_bind].
  destruct (ResetBlockFailureFlags_loop_ready p (elements (dom (blocks s))) b s Hr Ht Hp) as (s1 & -> & Hr1 & Hrel & Hq & Hk).
  { intros q Hq. by apply elem_of_elements, elem_of_dom in Hq. }
  cbn [mbind option_bind]. pose proof (same_index_tree _ _ (rel_index _ _ Hrel)) as Htree.
  destruct (same_rel_lookup _ _ _ _ _ Htree Hp) as (b1 & Hp1 & Ep & _ & Eh & _).
  assert (forall q, is_Some (blocks s !! q) -> is_ancestor (blocks s) q p -> ~ failed (blocks s1) q) as Hall.
  { intros q [c Hc]. apply Hq. apply elem_of_elements, elem_of_dom. eauto. }
  exists s1. split; [| done]. apply (ResetBlockFailureFlags_up_id _ p b1); try done; [| | lia].
  - apply (inv_index _ _ _ _ (proj1 Hr1)).
  - intros a Ha Hf. apply (is_ancestor_same _ _ _ _ Htree) in Ha as Ha'.
    apply (is_ancestor_step _ p b a Hp) in Ha' as [-> | (q & Hbq & Ha')].
    + apply (Hall p); [eauto | apply is_ancestor_refl | done].
    + apply (Hcl q Hbq a Ha'). by apply (rel_failed _ _ Hrel).
Qed.

End Steps.
