(* ===== verification/BestChainLink.v ===== *)
(** * Received blocks are linked

    [ReceivedBlockTransactions] records the data of a block; the block and
    the blocks that waited for it are linked, get their place in the order
    and become candidates. *)

From stdpp Require Import gmap sorting.
From S2P Require Import Prelude ArithUint256 Compact Chain ActiveChain BestChain BestChainInv BestChainSelect.
From S2P Require Import BestChainActivate BestChainSteps.
Set Default Proof Using "Type".

(** ** Transactions of a chain *)

Section ChainTx.
Implicit Types (m : gmap ptr CBlockIndex) (p q : ptr).

Lemma chain_tx_nonneg m p n : (forall q b, m !! q = Some b -> 0 <= nTx b) -> 0 <= chain_tx n m p.
Proof.
  intros Hm. revert p. induction n as [| n IH]; intros p; cbn [chain_tx];
    (destruct (m !! p) as [b |] eqn:Hp; [| done]); pose proof (Hm p b Hp); [lia |].
  destruct (pprev b) as [q |]; [| lia]. pose proof (IH q). lia.
Qed.

(** Only the blocks of the chain matter. *)
Lemma chain_tx_ext m m' n : forall p,
  (forall a b, is_ancestor m p a -> m !! a = Some b -> exists b', m' !! a = Some b' /\ pprev b' = pprev b /\ nTx b' = nTx b) ->
  is_Some (m !! p) -> wf_store m -> chain_tx n m' p = chain_tx n m p.
Proof.
  induction n as [| n IH]; intros p H [b Hp] Hst; cbn [chain_tx]; rewrite Hp;
    destruct (H p b (is_ancestor_refl m p) Hp) as (b' & -> & Ep & ->); [done |]. rewrite Ep.
  destruct (pprev b) as [q |] eqn:Hq; [| done]. f_equal. apply IH; [| | done].
  - intros a c Ha Hc. apply H; [| done]. apply (is_ancestor_step m p b a Hp). eauto.
  - destruct (parent_height m Hst p b q Hp Hq) as (bq & Hbq & _). eauto.
Qed.

Lemma chain_tx_insert m q b b' x k :
  wf_store m -> m !! q = Some b -> pprev b' = pprev b -> nTx b' = nTx b -> is_Some (m !! x) ->
  chain_tx k (<[q := b']> m) x = chain_tx k m x.
Proof.
  intros Hst Hq Ep Et Hx. apply chain_tx_ext; [| done | done]. intros a c _ Hc. destruct (decide (a = q)) as [-> | Hne].
  - rewrite Hq in Hc. injection Hc as <-. exists b'. by rewrite lookup_insert_eq.
  - exists c. rewrite lookup_insert_ne by done. done.
Qed.

Lemma chain_tx_parent m p b q bq :
  wf_store m -> m !! p = Some b -> pprev b = Some q -> m !! q = Some bq ->
  chain_tx (Z.to_nat (nHeight b)) m p = nTx b + chain_tx (Z.to_nat (nHeight bq)) m q.
Proof.
  intros Hst Hp Hq Hbq. destruct (parent_height m Hst p b q Hp Hq) as (bq' & Hbq' & H0 & Hh).
  rewrite Hbq in Hbq'. injection Hbq' as <-. replace (Z.to_nat (nHeight b)) with (S (Z.to_nat (nHeight bq))) by lia. cbn [chain_tx]. by rewrite Hp, Hq.
Qed.

Lemma worse_insert addr m h b p q : p <> h -> q <> h -> worse addr (<[h := b]> m) p q <-> worse addr m p q.
Proof. intros Hp Hq. unfold worse. by rewrite !lookup_insert_ne. Qed.

(** No chain has more than [2^32] transactions. *)
Definition fits m : Prop := forall p b, m !! p = Some b -> chain_tx (Z.to_nat (nHeight b)) m p < 2 ^ 32.

(** A block whose parent is linked can be linked. *)
Definition queued m q : Prop :=
  exists b, m !! q = Some b /\ unlinked_block b /\ forall r, pprev b = Some r -> linked m r.

End ChainTx.

Section Link.
Context {W : Type}.
Variable addr : ptr -> Z.
Hypothesis addr_inj : forall p q, addr p = addr q -> p = q.
Context (L : Ledger W) (parent : ptr -> option ptr) (valid : ptr -> bool) (world : option ptr -> W -> Prop).
Context {HL : LedgerOk L parent valid world}.

Implicit Types (m : gmap ptr CBlockIndex) (s : ChainState W) (p q : ptr).

Abbreviation index_ok := (index_ok parent).
Abbreviation good := (good parent valid).
Abbreviation Inv := (Inv parent valid world).
Abbreviation complete := (complete addr).
Abbreviation ready := (ready addr parent valid world).
Abbreviation work b := (val256 (nChainWork b)).

(** The invariant without the waiting blocks. *)
Record Base s : Prop := {
  base_best_header : best_ok (block_index s);
  base_index : index_ok (blocks s);
  base_active : active (blocks s) (Tip (chainActive s)) (chainActive s);
  base_tip t : Tip (chainActive s) = Some t -> good (blocks s) t;
  base_ledger : world (Tip (chainActive s)) (ledger s);
  base_candidates p : p ∈ setBlockIndexCandidates s -> linked (blocks s) p;
  base_failed p : p ∈ g_failed_blocks s -> exists b, blocks s !! p = Some b /\ has_flag b BLOCK_FAILED_VALID = true;
  base_best_invalid p : pindexBestInvalid s = Some p -> is_Some (blocks s !! p);
  base_complete : complete (blocks s) (setBlockIndexCandidates s) (Tip (chainActive s))
}.

Lemma ready_Base s : ready s -> Base s.
Proof. intros [[I0 I1 I2 I3 I4 I5 I6 I7 I8 I9 I10] Hc]. by split. Qed.

(** Marks are as before where the tree is. *)
Lemma good_links m m' p :
  same_tree m m' -> (forall q, linked m q -> linked m' q) -> (forall q, failed m' q -> failed m q) ->
  good m p -> good m' p.
Proof.
  intros Ht Hl Hf (H1 & H2 & H3). split; [by apply Hl |]. split; [| done].
  intros a Ha Hfa. apply (H2 a); [by apply (is_ancestor_same _ _ _ _ Ht) | by apply Hf].
Qed.

(** ** Linking one block *)

Lemma index_ok_link m q b n id :
  index_ok m -> m !! q = Some b -> unlinked_block b -> (forall r, pprev b = Some r -> linked m r) ->
  n = chain_tx (Z.to_nat (nHeight b)) m q ->
  index_ok (<[q := with_nSequenceId id (with_nChainTx n b)]> m).
Proof.
  intros Hm Hq (Htx & Hn0 & Hd & Hlv) Hpar En. pose proof (proj1 (ok_tree _ _ Hm)) as Hst.
  set (b' := with_nSequenceId id (with_nChainTx n b)).
  assert (same_tree m (<[q := b']> m)) as Ht by (by apply (same_rel_insert same_block _ q b); [apply _ | | split_and!]).
  assert (n <> 0) as Hn.
  { pose proof (chain_tx_nonneg m) as Hnn. subst n. destruct (pprev b) as [r |] eqn:Hr.
    - destruct (parent_height m Hst q b r Hq Hr) as (br & Hbr & _). rewrite (chain_tx_parent m q b r br) by done.
      pose proof (Hnn r (Z.to_nat (nHeight br)) (ok_tx _ _ Hm)). lia.
    - destruct (Z.to_nat (nHeight b)); cbn [chain_tx]; rewrite Hq, ?Hr; lia. }
  assert (forall x, linked m x -> linked (<[q := b']> m) x) as Hup.
  { intros x (c & Hc & Hcn). destruct (decide (x = q)) as [-> | Hne]; [exists b'; split; [apply lookup_insert_eq | done] |].
    exists c. rewrite lookup_insert_ne by done. done. }
  assert (forall x k, is_Some (m !! x) -> chain_tx k (<[q := b']> m) x = chain_tx k m x) as Htxs
    by (intros x k; by apply (chain_tx_insert m q b)).
  split; [by apply (wf_tree_same m _ Ht), Hm |..].
  - intros p c. rewrite lookup_insert. case_decide; [intros [= <-]; subst; by apply (ok_parent _ _ Hm p b) | by apply Hm].
  - intros p c r cr Hp Hr Hcr.
    assert (exists c0, m !! p = Some c0 /\ pprev c0 = pprev c /\ nChainWork c0 = nChainWork c) as (c0 & Hc0 & E1 & E2).
    { rewrite lookup_insert in Hp. case_decide; [injection Hp as <-; subst p |]; eauto. }
    assert (exists r0, m !! r = Some r0 /\ nChainWork r0 = nChainWork cr) as (r0 & Hr0 & E3).
    { rewrite lookup_insert in Hcr. case_decide; [injection Hcr as <-; subst r |]; eauto. }
    rewrite <- E2, <- E3. apply (ok_work _ _ Hm p c0 r r0); congruence.
  - intros p c r Hp Hcn Hr. apply Hup. rewrite lookup_insert in Hp. case_decide; [injection Hp as <-; by apply Hpar |].
    by apply (ok_linked _ _ Hm p c r).
  - intros p c Hp Hcn. rewrite lookup_insert in Hp. case_decide; [by injection Hp as <- | by apply (ok_data _ _ Hm p)].
  - intros p c Hp. rewrite lookup_insert in Hp. case_decide; [injection Hp as <-; cbn; lia | by apply (ok_tx _ _ Hm p)].
  - intros p c Hp. rewrite lookup_insert in Hp. case_decide; [injection Hp as <-; by apply (ok_level _ _ Hm q b) | by apply (ok_level _ _ Hm p)].
  - intros p c Hp Hcn. rewrite lookup_insert in Hp. case_decide.
    + subst p. injection Hp as <-. rewrite Htxs by eauto. done.
    + rewrite Htxs by eauto. by apply (ok_chain_tx _ _ Hm).
  - intros p c Hp Hcn. rewrite lookup_insert in Hp. case_decide; [by injection Hp as <- | by apply (ok_received _ _ Hm p)].
Qed.

Lemma link_number m q b :
  index_ok m -> fits m -> m !! q = Some b -> (forall r, pprev b = Some r -> linked m r) ->
  exists n, (match pprev b with Some r => br ← m !! r; Some (nChainTx br) | None => Some 0 end) = Some n /\
    u32 (n + nTx b) = chain_tx (Z.to_nat (nHeight b)) m q.
Proof.
  intros Hm Hfit Hq Hpar. pose proof (proj1 (ok_tree _ _ Hm)) as Hst.
  pose proof (Hfit q b Hq) as Hlt. pose proof (chain_tx_nonneg m q (Z.to_nat (nHeight b)) (ok_tx _ _ Hm)) as Hnn.
  destruct (pprev b) as [r |] eqn:Hr.
  - destruct (Hpar r eq_refl) as (br & Hbr & Hnr). rewrite Hbr. cbn [mbind option_bind]. eexists. split; [done |].
    rewrite (ok_chain_tx _ _ Hm r br Hbr Hnr). rewrite (chain_tx_parent m q b r br) in * by done.
    unfold u32, wrapu. rewrite Z.mod_small; lia.
  - exists 0. split; [done |]. destruct (Z.to_nat (nHeight b)); cbn [chain_tx] in *; rewrite Hq, ?Hr in *;
      unfold u32, wrapu; rewrite Z.mod_small; lia.
Qed.

Lemma chain_tx_pos m q b :
  index_ok m -> m !! q = Some b -> 0 < nTx b -> 0 < chain_tx (Z.to_nat (nHeight b)) m q.
Proof.
  intros Hm Hq Htx. pose proof (proj1 (ok_tree _ _ Hm)) as Hst. destruct (pprev b) as [r |] eqn:Hr.
  - destruct (parent_height _ Hst q b r Hq Hr) as (br & Hbr & _). rewrite (chain_tx_parent _ q b r br) by done.
    pose proof (chain_tx_nonneg m r (Z.to_nat (nHeight br)) (ok_tx _ _ Hm)). lia.
  - destruct (Z.to_nat (nHeight b)); cbn [chain_tx]; rewrite Hq, ?Hr; lia.
Qed.

(** What [link_block] does. *)
Record links q s s' : Prop := {
  li_blocks : exists b n id, blocks s !! q = Some b /\ n = chain_tx (Z.to_nat (nHeight b)) (blocks s) q /\
    blocks s' = <[q := with_nSequenceId id (with_nChainTx n b)]> (blocks s);
  li_header : pindexBestHeader (block_index s') = pindexBestHeader (block_index s);
  li_chain : chainActive s' = chainActive s;
  li_ledger : ledger s' = ledger s;
  li_failed : g_failed_blocks s' = g_failed_blocks s;
  li_invalid : pindexBestInvalid s' = pindexBestInvalid s;
  li_unlinked : mapBlocksUnlinked s' = mapBlocksUnlinked s;
  li_id : nBlockSequenceId s' = nBlockSequenceId s + 1;
  li_candidates p : p ∈ setBlockIndexCandidates s' -> p = q \/ p ∈ setBlockIndexCandidates s;
  li_kept p : p ∈ setBlockIndexCandidates s -> p ∈ setBlockIndexCandidates s';
  li_new : (forall t, Tip (chainActive s) = Some t -> ~ worse addr (blocks s') q t) ->
    q ∈ setBlockIndexCandidates s'
}.

Lemma link_block_links q s :
  Base s -> queued (blocks s) q -> fits (blocks s) -> nBlockSequenceId s < 2 ^ 31 - 1 ->
  exists s', link_block addr q s = Some s' /\ links q s s'.
Proof using HL addr_inj.
  intros HB (b & Hq & Hun & Hpar) Hfit Hid. pose proof (base_index _ HB) as Hm. unfold link_block. rewrite Hq. cbn [mbind option_bind].
  destruct (link_number (blocks s) q b Hm Hfit Hq Hpar) as (n & -> & En). cbn [mbind option_bind].
  destruct (Z.eqb_spec (nBlockSequenceId s) (2 ^ 31 - 1)) as [| _]; [lia |]. unfold change. rewrite Hq. cbn [mbind option_bind].
  rewrite En. match goal with |- context [insert_candidate q ?y] => set (s1 := y) end.
  assert (links q s (insert_candidate q s1)) as Hins.
  { split; try done; [by exists b, (chain_tx (Z.to_nat (nHeight b)) (blocks s) q), (nBlockSequenceId s) | ..]; cbn; set_solver. }
  change (chainActive s1) with (chainActive s). destruct (Tip (chainActive s)) as [t |] eqn:Et; [| eauto].
  assert (index_ok (blocks s1)) as Hm1 by (by apply index_ok_link).
  assert (is_Some (blocks s1 !! t)) as [bt Hbt].
  { destruct (linked_lookup _ _ (proj1 (base_tip _ HB t Et))) as [c Hc].
    change (blocks s1) with (<[q := with_nSequenceId (nBlockSequenceId s) (with_nChainTx (chain_tx (Z.to_nat (nHeight b)) (blocks s) q) b)]> (blocks s)).
    rewrite lookup_insert. case_decide; eauto. }
  destruct (comparator_spec addr (blocks s1) q t _ bt (wf_tree_works _ (ok_tree _ _ Hm1)) (lookup_insert_eq _ _ _) Hbt) as (w & -> & Hiff).
  cbn [mbind option_bind]. eexists. split; [done |]. destruct w; [| done].
  split; try done; [by exists b, (chain_tx (Z.to_nat (nHeight b)) (blocks s) q), (nBlockSequenceId s) | auto |]. intros Hw. destruct (Hw t Et). by apply Hiff.
Qed.

Lemma links_Base q s s' : Base s -> queued (blocks s) q -> links q s s' -> Base s'.
Proof.
  intros [B0 B1 B2 B3 B4 B5 B6 B7 B8] (b & Hq & Hun & Hpar) [(b0 & n & id & Hq0 & En & Eb) L1 L2 L3 L4 L5 L6 L7 L8 L9 L10].
  rewrite Hq in Hq0. injection Hq0 as <-. set (b' := with_nSequenceId id (with_nChainTx n b)) in *.
  set (m' := <[q := b']> (blocks s)) in *.
  assert (index_ok m') as Hm' by (by apply index_ok_link).
  assert (same_tree (blocks s) m') as Ht by (by apply (same_rel_insert same_block _ q b); [apply _ | | split_and!]).
  assert (linked m' q) as Hlq.
  { exists b'. split; [apply lookup_insert_eq |]. cbn. pose proof (chain_tx_pos _ q b B1 Hq (proj1 Hun)). lia. }
  assert (forall x, linked (blocks s) x -> linked m' x) as Hup.
  { intros x (c & Hc & Hcn). destruct (decide (x = q)) as [-> | Hne]; [done |].
    exists c. unfold m'. rewrite lookup_insert_ne by done. done. }
  assert (forall x, failed m' x -> failed (blocks s) x) as Hfail.
  { intros x (c & Hc & Hf). unfold m' in Hc. rewrite lookup_insert in Hc. case_decide; [| by exists c].
    subst x. injection Hc as <-. by exists b. }
  split; rewrite ?Eb, ?L2, ?L3, ?L4, ?L5; try done.
  - apply (best_ok_same (block_index s)); [| done | done]. change (same_tree (blocks s) (blocks s')). by rewrite Eb.
  - by apply (active_same (blocks s)).
  - intros t Et. apply (good_links (blocks s)); auto.
  - intros x [-> | Hx]%L8; auto.
  - intros x Hx. destruct (B6 x Hx) as (c & Hc & Hf). destruct (decide (x = q)) as [-> | Hne].
    + exists b'. split; [apply lookup_insert_eq |]. rewrite Hq in Hc. by injection Hc as <-.
    + exists c. unfold m'. rewrite lookup_insert_ne by done. done.
  - intros x Hx. destruct (B7 x Hx) as [c Hc]. destruct (same_rel_lookup _ _ _ _ _ Ht Hc) as (c' & Hc' & _). eauto.
  - intros x c Hx Hn Hf Hw. unfold m' in Hx. rewrite lookup_insert in Hx. case_decide as Hd; [subst x; apply L10; by rewrite Eb |].
    apply L9, (B8 x c Hx Hn Hf). intros t Et Hwt. apply (Hw t Et). apply worse_insert; [done | | done].
    intros ->. destruct (B3 _ Et) as ((d & Hd' & Hdn) & _). destruct Hun as (_ & H0 & _). congruence.
Qed.

(** ** Linking what waited *)

(** What holds while the queue is worked off. *)
Record Queue Q s : Prop := {
  qu_base : Base s;
  qu_fits : fits (blocks s);
  qu_queued q : q ∈ Q -> queued (blocks s) q;
  qu_once : NoDup (Q ++ (snd <$> mapBlocksUnlinked s));
  qu_waits e : e ∈ mapBlocksUnlinked s -> waits (blocks s) e;
  qu_waiting p b : blocks s !! p = Some b -> 0 < nTx b -> nChainTx b = 0 ->
    p ∈ Q \/ (pprev b, p) ∈ mapBlocksUnlinked s
}.

Lemma Queue_ready s : Queue [] s -> ready s.
Proof.
  intros [[B0 B1 B2 B3 B4 B5 B6 B7 B8] _ _ Hn Hw Hq]. split; [| done]. split; try done.
  intros p b Hp H1 H2. destruct (Hq p b Hp H1 H2) as [H | H]; [by apply elem_of_nil in H | done].
Qed.

Lemma range_permutation q (U : list (option ptr * ptr)) :
  equal_range q U ++ (snd <$> erase_range q U) ≡ₚ (snd <$> U).
Proof.
  unfold equal_range, erase_range. rewrite <- fmap_app. apply fmap_Permutation.
  apply (filter_app_complement (fun e => e.1 = Some q)).
Qed.

Lemma Queue_step q Q s s' :
  Queue (q :: Q) s -> links q s s' ->
  Queue (Q ++ equal_range q (mapBlocksUnlinked s')) (with_unlinked (erase_range q (mapBlocksUnlinked s')) s').
Proof using HL addr_inj.
  intros [HB Hfit Hqs Hn Hw Hq] Hli. pose proof (Hqs q ltac:(set_solver)) as Hqq.
  pose proof (links_Base q s s' HB Hqq Hli) as HB'. rewrite (li_unlinked _ _ _ Hli).
  destruct (li_blocks _ _ _ Hli) as (b & n & id & Hb & En & Eb). pose proof (base_index _ HB) as Hm.
  pose proof (proj1 (ok_tree _ _ Hm)) as Hst. set (b' := with_nSequenceId id (with_nChainTx n b)) in *.
  assert (nChainTx b' <> 0) as Hn0.
  { destruct Hqq as (b0 & Hb0 & (Htx & _) & _). rewrite Hb in Hb0. injection Hb0 as <-. cbn.
    pose proof (chain_tx_pos _ q b Hm Hb Htx). lia. }
  assert (q ∉ Q /\ q ∉ (snd <$> mapBlocksUnlinked s)) as [HqQ HqU].
  { apply NoDup_cons in Hn as [Hn _]. set_solver. }
  assert (forall x c, x <> q -> blocks s !! x = Some c -> blocks s' !! x = Some c) as Hkeep
    by (intros x c Hx Hc; rewrite Eb, lookup_insert_ne by done; done).
  assert (forall x, linked (blocks s) x \/ x = q -> linked (blocks s') x) as Hup.
  { intros x Hx. destruct (decide (x = q)) as [-> | Hne]; [exists b'; rewrite Eb, lookup_insert_eq; done |].
    destruct Hx as [(c & Hc & Hcn) | ?]; [exists c; auto | done]. }
  split; cbn [mapBlocksUnlinked with_unlinked]; change (blocks (with_unlinked _ s')) with (blocks s').
  - destruct HB' as [B0 B1 B2 B3 B4 B5 B6 B7 B8]. by split.
  - intros x c Hx. rewrite Eb in Hx |- *. rewrite lookup_insert in Hx. case_decide as Hd.
    + subst x. injection Hx as <-. rewrite (chain_tx_insert _ q b) by eauto. by apply (Hfit q b).
    + rewrite (chain_tx_insert _ q b) by eauto. by apply Hfit.
  - intros x [Hx | Hx]%elem_of_app.
    + destruct (Hqs x ltac:(set_solver)) as (c & Hc & Hun & Hpar). exists c. split; [apply Hkeep; set_solver |]. auto.
    + apply list_elem_of_fmap in Hx as ([o x'] & -> & [Ho Hx]%list_elem_of_filter). cbn in *. subst o.
      destruct (Hw _ Hx) as (c & r & br & Hc & Hr & [= <-] & Hun & _). cbn in Hc. exists c.
      assert (x' <> q) as Hne by (intros ->; apply HqU, list_elem_of_fmap; by exists (Some q, q)).
      split; [by apply Hkeep |]. split; [done |]. intros r Hr'. apply Hup. right. congruence.
  - rewrite <- app_assoc. apply NoDup_cons in Hn as [_ Hn]. by rewrite range_permutation.
  - intros e [He1 He]%list_elem_of_filter. destruct (Hw e He) as (c & r & br & Hc & Hr & Hre & Hun & Hbr & Hrn).
    exists c, r, br. split; [apply Hkeep; [| done]; intros E; apply HqU; rewrite <- E; by apply list_elem_of_fmap_2 |].
    split; [done |]. split; [done |]. split; [done |]. split; [apply Hkeep; congruence | done].
  - intros x c Hx H1 H2. rewrite Eb, lookup_insert in Hx. case_decide as Hd; [by injection Hx as <- |].
    destruct (Hq x c Hx H1 H2) as [Hin | Hin].
    + left. apply elem_of_app. left. set_solver.
    + destruct (decide (pprev c = Some q)) as [E | E].
      * left. apply elem_of_app. right. apply list_elem_of_fmap. exists (pprev c, x). split; [done |]. by apply list_elem_of_filter.
      * right. by apply list_elem_of_filter.
Qed.

(** The entries other than the order and the number of transactions. *)
Definition relinked m m' : Prop :=
  same_tree m m' /\ forall p b b', m !! p = Some b -> m' !! p = Some b' -> nTx b' = nTx b /\ nStatus b' = nStatus b.

Lemma relinked_refl m : relinked m m.
Proof. split; [apply (same_rel_refl same_block); apply _ |]. intros p b b' H1 H2. by simplify_eq. Qed.

Lemma relinked_trans m1 m2 m3 : relinked m1 m2 -> relinked m2 m3 -> relinked m1 m3.
Proof.
  intros [T1 N1] [T2 N2]. split; [by apply (same_rel_trans same_block _ _ _ _ T1 T2) |]. intros p b b3 Hb Hb3.
  destruct (same_rel_lookup _ _ _ _ _ T1 Hb) as (b2 & Hb2 & _).
  destruct (N1 p b b2 Hb Hb2), (N2 p b2 b3 Hb2 Hb3). split; congruence.
Qed.

Lemma links_relinked q s s' : links q s s' -> relinked (blocks s) (blocks s').
Proof.
  intros Hli. destruct (li_blocks _ _ _ Hli) as (b & n & id & Hb & _ & ->).
  split; [by apply (same_rel_insert same_block _ q b); [apply _ | | split_and!] |].
  intros p c c' Hc Hc'. rewrite lookup_insert in Hc'. case_decide; simplify_eq; done.
Qed.

Lemma link_queue_spec : forall fuel Q s,
  Queue Q s -> (length Q + length (mapBlocksUnlinked s) <= fuel)%nat ->
  nBlockSequenceId s + Z.of_nat (length Q + length (mapBlocksUnlinked s)) < 2 ^ 31 ->
  exists s', link_queue addr fuel Q s = Some s' /\ ready s' /\ relinked (blocks s) (blocks s') /\
    chainActive s' = chainActive s.
Proof using HL addr_inj.
  induction fuel as [| fuel IH]; intros Q s HQ Hf Hid;
    (destruct Q as [| q Q]; cbn [link_queue]; [exists s; split; [done |]; split; [by apply Queue_ready |]; split; [apply relinked_refl | done] |]); [cbn in Hf; lia |].
  destruct (link_block_links q s (qu_base _ _ HQ) (qu_queued _ _ HQ q ltac:(set_solver)) (qu_fits _ _ HQ)) as (s1 & -> & Hli).
  { cbn in Hid. lia. }
  cbn [mbind option_bind]. pose proof (Queue_step q Q s s1 HQ Hli) as HQ1.
  pose proof (Permutation_length (range_permutation q (mapBlocksUnlinked s1))) as Hlen.
  rewrite length_app, !length_fmap in Hlen.
  destruct (IH (Q ++ equal_range q (mapBlocksUnlinked s1)) (with_unlinked (erase_range q (mapBlocksUnlinked s1)) s1) HQ1)
    as (s2 & E2 & Hr2 & Hrel & Ev).
  { rewrite length_app. cbn [mapBlocksUnlinked with_unlinked]. cbn in Hf. rewrite (li_unlinked _ _ _ Hli) in *. lia. }
  { rewrite length_app. cbn [mapBlocksUnlinked with_unlinked nBlockSequenceId]. cbn in Hid.
    rewrite (li_id _ _ _ Hli), (li_unlinked _ _ _ Hli) in *. lia. }
  exists s2. split; [exact E2 |]. split; [done |].
  split; [apply (relinked_trans _ (blocks s1)); [by apply (links_relinked q) | done] |].
  rewrite Ev. apply (li_chain _ _ _ Hli).
Qed.

(** ** [ReceivedBlockTransactions] *)

(** The entry of a block that was received. *)
Definition received_entry (witness : bool) (n file pos : Z) (b : CBlockIndex) : CBlockIndex :=
  let b := set_flag BLOCK_HAVE_DATA (with_data (u32 n) file pos b) in
  let b := if witness then set_flag BLOCK_OPT_WITNESS b else b in
  snd (RaiseValidity b BLOCK_VALID_TRANSACTIONS).

Lemma received_entry_spec witness n file pos b :
  is_failed b = false -> 0 < n < 2 ^ 32 ->
  let b' := received_entry witness n file pos b in
  same_block b b' /\ nTx b' = n /\ unlinked_block b' /\ is_failed b' = false /\ level b <= level b'.
Proof.
  intros Hf Hn b'. set (b1 := set_flag BLOCK_HAVE_DATA (with_data (u32 n) file pos b)).
  set (b2 := if witness then set_flag BLOCK_OPT_WITNESS b1 else b1).
  assert (b' = snd (RaiseValidity b2 BLOCK_VALID_TRANSACTIONS)) as E by done.
  assert (same_block b b2 /\ nTx b2 = n /\ nChainTx b2 = 0 /\ has_flag b2 BLOCK_HAVE_DATA = true /\
    is_failed b2 = false /\ level b2 = level b) as (H1 & H2 & H3 & H4 & H5 & H6).
  { assert (u32 n = n) as En by (unfold u32, wrapu; apply Z.mod_small; lia).
    assert (has_flag b1 BLOCK_HAVE_DATA = true /\ is_failed b1 = is_failed b /\ level b1 = level b) as (F1 & F2 & F3).
    { unfold b1. rewrite has_set, has_set_other, level_set by done. done. }
    unfold b2. destruct witness; [| split_and!; done || congruence].
    rewrite !has_set_other, level_set by done. split_and!; done || congruence. }
  destruct (RaiseValidity_links b2 BLOCK_VALID_TRANSACTIONS) as (L1 & _ & L3 & L4).
  destruct (RaiseValidity_flags b2 BLOCK_VALID_TRANSACTIONS BLOCK_HAVE_DATA) as (R1 & R2 & R3); try done.
  destruct (RaiseValidity_flags b2 BLOCK_VALID_TRANSACTIONS BLOCK_FAILED_MASK) as (R4 & _ & _); try done.
  rewrite E. unfold unlinked_block. rewrite <- L3, <- L4, R1, R4, H2. split; [by trans b2 |]. split; [done |].
  split; [| split; [done | lia]]. split; [lia |]. split; [done |]. split; [done |]. by apply R3.
Qed.

Lemma index_ok_received m p b b' :
  index_ok m -> m !! p = Some b -> nChainTx b = 0 -> same_block b b' -> unlinked_block b' -> level b <= level b' ->
  index_ok (<[p := b']> m).
Proof.
  intros Hm Hp Hn0 Hsame Hun Hlev. pose proof (proj1 (ok_tree _ _ Hm)) as Hst.
  assert (same_tree m (<[p := b']> m)) as Ht by (by apply (same_rel_insert same_block _ p b); [apply _ | |]).
  assert (forall x, linked m x -> x <> p) as Hne by (intros x (c & Hc & Hcn) ->; congruence).
  assert (forall x, linked m x -> linked (<[p := b']> m) x) as Hup.
  { intros x Hx. pose proof (Hne x Hx). destruct Hx as (c & Hc & Hcn). exists c. rewrite lookup_insert_ne by done. done. }
  destruct Hsame as (E1 & E2 & E3 & E4 & _). destruct Hun as (Htx & Hn & Hd & Hlv).
  split; [by apply (wf_tree_same m _ Ht), Hm |..].
  - intros x c. rewrite lookup_insert. case_decide; [intros [= <-]; subst; rewrite <- E1; by apply (ok_parent _ _ Hm _ b) | by apply Hm].
  - intros x c r cr Hx Hr Hcr.
    assert (exists c0, m !! x = Some c0 /\ pprev c0 = pprev c /\ nChainWork c0 = nChainWork c) as (c0 & Hc0 & F1 & F2).
    { rewrite lookup_insert in Hx. case_decide; [injection Hx as <-; subst x |]; eauto. }
    assert (exists r0, m !! r = Some r0 /\ nChainWork r0 = nChainWork cr) as (r0 & Hr0 & F3).
    { rewrite lookup_insert in Hcr. case_decide; [injection Hcr as <-; subst r |]; eauto. }
    rewrite <- F2, <- F3. apply (ok_work _ _ Hm x c0 r r0); congruence.
  - intros x c r Hx Hcn Hr. apply Hup. rewrite lookup_insert in Hx. case_decide; [by injection Hx as <- |].
    by apply (ok_linked _ _ Hm x c r).
  - intros x c Hx Hcn. rewrite lookup_insert in Hx. case_decide; [by injection Hx as <- | by apply (ok_data _ _ Hm x)].
  - intros x c Hx. rewrite lookup_insert in Hx. case_decide; [injection Hx as <-; lia | by apply (ok_tx _ _ Hm x)].
  - intros x c Hx. rewrite lookup_insert in Hx. case_decide; [injection Hx as <- | by apply (ok_level _ _ Hm x)].
    pose proof (ok_level _ _ Hm p b Hp). lia.
  - intros x c Hx Hcn. rewrite lookup_insert in Hx. case_decide; [by injection Hx as <- |].
    rewrite (ok_chain_tx _ _ Hm x c Hx Hcn) at 1. symmetry. apply chain_tx_ext; [| by exists c | done].
    intros a d Ha Hda. exists d. rewrite lookup_insert_ne; [done |]. intros ->. apply (Hne a); [| done].
    apply (linked_ancestor _ m x a Hm); [by exists c | done].
  - intros x c Hx Hcn. rewrite lookup_insert in Hx. case_decide; [by injection Hx as <- | by apply (ok_received _ _ Hm x)].
Qed.

Lemma failed_valid_failed b : has_flag b BLOCK_FAILED_VALID = true -> is_failed b = true.
Proof.
  unfold has_flag. change BLOCK_FAILED_MASK with (Z.lor BLOCK_FAILED_VALID BLOCK_FAILED_CHILD).
  rewrite Z.land_lor_distr_r, !negb_true_iff, !Z.eqb_neq. intros H E. apply Z.lor_eq_0_iff in E as [E _]. done.
Qed.

(** The state in which the block's entry has been filled in. *)
Lemma Base_received p b b' s s1 :
  ready s -> blocks s !! p = Some b -> nChainTx b = 0 -> is_failed b = false -> is_failed b' = false ->
  same_block b b' -> unlinked_block b' -> level b <= level b' ->
  s1 = dirty p (with_blocks (<[p := b']> (blocks s)) s) -> Base s1.
Proof using HL addr_inj.
  intros [[I0 I1 I2 I3 I4 I5 I6 I7 I8 I9 I10] Hc] Hp Hn0 Hf Hf' Hsame Hun Hlev ->.
  set (m' := <[p := b']> (blocks s)).
  assert (same_tree (blocks s) m') as Ht by (by apply (same_rel_insert same_block _ p b); [apply _ | |]).
  assert (forall x, linked (blocks s) x -> x <> p) as Hne by (intros x (c & Hc' & Hcn) ->; congruence).
  assert (forall x, linked (blocks s) x -> linked m' x) as Hup.
  { intros x Hx. pose proof (Hne x Hx). destruct Hx as (c & Hc' & Hcn). exists c. unfold m'. rewrite lookup_insert_ne by done. done. }
  assert (forall x, failed m' x -> failed (blocks s) x) as Hfail.
  { intros x (c & Hx & Hfx). unfold m' in Hx. rewrite lookup_insert in Hx. case_decide; [simplify_eq; congruence | by exists c]. }
  split; change (blocks (dirty p (with_blocks m' s))) with m'; cbn [dirty with_blocks with_block_index chainActive ledger
    setBlockIndexCandidates g_failed_blocks pindexBestInvalid]; try done.
  - by apply (best_ok_same (block_index s)).
  - by apply (index_ok_received _ p b).
  - by apply (active_same (blocks s)).
  - intros t Et. apply (good_links (blocks s)); auto.
  - auto.
  - intros x Hx. destruct (I6 x Hx) as (c & Hc' & Hfx). exists c. split; [| done]. unfold m'. rewrite lookup_insert_ne; [done |].
    intros ->. rewrite Hp in Hc'. injection Hc' as <-. rewrite (failed_valid_failed b Hfx) in Hf. done.
  - intros x Hx. destruct (I7 x Hx) as [c Hc']. destruct (same_rel_lookup _ _ _ _ _ Ht Hc') as (c' & Hc'' & _). eauto.
  - intros x c Hx Hn Hfx Hw. unfold m' in Hx. rewrite lookup_insert in Hx. case_decide as Hd.
    + injection Hx as <-. destruct Hun as (_ & ? & _). done.
    + apply (Hc x c Hx Hn Hfx). intros t Et Hwt. apply (Hw t Et). apply worse_insert; [congruence | | done].
      by apply Hne, (I3 t Et).
Qed.

(** When a block may be received: it is known, not marked and new, the
    counters do not overflow, and its parent is linked or not marked. *)
Record may_receive (witness : bool) p n file pos s : Prop := {
  mr_entry : exists b, blocks s !! p = Some b /\ is_failed b = false /\ has_flag b BLOCK_HAVE_DATA = false /\
    fits (<[p := received_entry witness n file pos b]> (blocks s)) /\
    forall q, pprev b = Some q -> ~ failed (blocks s) q \/ linked (blocks s) q;
  mr_tx : 0 < n < 2 ^ 32;
  mr_id : nBlockSequenceId s + Z.of_nat (length (mapBlocksUnlinked s)) + 1 < 2 ^ 31
}.

Lemma without_data s p b :
  Inv s -> blocks s !! p = Some b -> has_flag b BLOCK_HAVE_DATA = false -> nChainTx b = 0 /\ nTx b = 0.
Proof.
  intros Hs Hp Hd. assert (nChainTx b = 0) as Hn.
  { destruct (decide (nChainTx b = 0)) as [| Hn]; [done |].
    destruct (ok_data _ _ (inv_index _ _ _ _ Hs) p b Hp Hn). congruence. }
  split; [done |]. pose proof (ok_tx _ _ (inv_index _ _ _ _ Hs) p b Hp).
  destruct (decide (nTx b = 0)) as [| Ht]; [done |]. pose proof (inv_waiting _ _ _ _ Hs p b Hp ltac:(lia) Hn) as Hw.
  destruct (inv_unlinked _ _ _ _ Hs _ Hw) as (c & _ & _ & Hc & _ & _ & (_ & _ & Hd' & _) & _). cbn in Hc. congruence.
Qed.

(** The queue starts with the block; or it waits with the others. *)
Lemma Queue_received p b b' s s1 :
  ready s -> Base s1 -> blocks s !! p = Some b -> nTx b = 0 -> unlinked_block b' -> same_block b b' ->
  s1 = dirty p (with_blocks (<[p := b']> (blocks s)) s) -> fits (blocks s1) ->
  (forall q, pprev b = Some q -> linked (blocks s) q) -> Queue [p] s1.
Proof using HL addr_inj.
  intros [[I0 I1 I2 I3 I4 I5 I6 I7 I8 I9 I10] Hc] HB Hp Hn0 Hun Hsame -> Hfit Hpar.
  set (m' := <[p := b']> (blocks s)) in *. destruct Hsame as (Epp & _).
  assert (forall e, e ∈ mapBlocksUnlinked s -> e.2 <> p) as Hnew.
  { intros e He Ee. destruct (I8 e He) as (c & _ & _ & Hc' & _ & _ & (Htx & _) & _). rewrite Ee in Hc'. simplify_eq. lia. }
  split; cbn [dirty with_blocks with_block_index mapBlocksUnlinked]; try done;
    change (blocks (dirty p (with_blocks m' s))) with m'.
  - intros q ->%list_elem_of_singleton. exists b'. split; [apply lookup_insert_eq |]. split; [done |].
    intros r Hr. rewrite <- Epp in Hr. destruct (Hpar r Hr) as (br & Hbr & Hbn). destruct (decide (r = p)) as [-> | Hne].
    + destruct (parent_height _ (proj1 (ok_tree _ _ I1)) p b p Hp Hr) as (c & ? & ? & ?). simplify_eq. lia.
    + exists br. unfold m'. rewrite lookup_insert_ne by done. done.
  - cbn. apply NoDup_cons. split; [| done]. intros ([o x] & Ex & Hx)%list_elem_of_fmap. by apply (Hnew _ Hx).
  - intros e He. destruct (I8 e He) as (c & q & cq & H1 & H2 & H3 & H4 & H5 & H6). pose proof (Hnew e He).
    destruct (decide (q = p)) as [-> | Hne].
    + exists c, p, b'. unfold m'. rewrite lookup_insert_ne, lookup_insert_eq by done. destruct Hun as (_ & ? & _). done.
    + exists c, q, cq. unfold m'. rewrite !lookup_insert_ne by done. done.
  - intros x c Hx H1 H2. unfold m' in Hx. rewrite lookup_insert in Hx. case_decide; [left; set_solver | right; by apply I10].
Qed.

Lemma ready_unlinked p b b' q s s1 :
  ready s -> Base s1 -> blocks s !! p = Some b -> nTx b = 0 -> unlinked_block b' -> same_block b b' ->
  s1 = dirty p (with_blocks (<[p := b']> (blocks s)) s) -> pprev b = Some q -> ~ linked (blocks s) q ->
  ready (with_unlinked (mapBlocksUnlinked s ++ [(Some q, p)]) s1).
Proof using HL addr_inj.
  intros [[I0 I1 I2 I3 I4 I5 I6 I7 I8 I9 I10] Hc] HB Hp Hn0 Hun Hsame -> Hq Hnl.
  set (m' := <[p := b']> (blocks s)) in *. destruct Hsame as (Epp & _). destruct HB as [B0 B1 B2 B3 B4 B5 B6 B7 B8].
  assert (forall e, e ∈ mapBlocksUnlinked s -> e.2 <> p) as Hnew.
  { intros e He Ee. destruct (I8 e He) as (c & _ & _ & Hc' & _ & _ & (Htx & _) & _). rewrite Ee in Hc'. simplify_eq. lia. }
  destruct (parent_height _ (proj1 (ok_tree _ _ I1)) p b q Hp Hq) as (bq & Hbq & Hq0 & Hqh).
  assert (q <> p) as Hqp by (intros ->; simplify_eq; lia).
  split; [| done]. split; try done; cbn [with_unlinked mapBlocksUnlinked]; change (blocks (with_unlinked _ _)) with m'.
  - intros e [He | ->%list_elem_of_singleton]%elem_of_app.
    + destruct (I8 e He) as (c & r & cr & H1 & H2 & H3 & H4 & H5 & H6). pose proof (Hnew e He).
      destruct (decide (r = p)) as [-> | Hne].
      * exists c, p, b'. unfold m'. rewrite lookup_insert_ne, lookup_insert_eq by done. destruct Hun as (_ & ? & _). done.
      * exists c, r, cr. unfold m'. rewrite !lookup_insert_ne by done. done.
    + exists b', q, bq. unfold m'. cbn [fst snd]. rewrite lookup_insert_eq, lookup_insert_ne by done. rewrite <- Epp.
      split_and!; try done; try apply Hun. destruct (decide (nChainTx bq = 0)) as [| Hn]; [done |]. destruct Hnl. by exists bq.
  - rewrite fmap_app. apply NoDup_app. split; [done |]. split; [| apply NoDup_singleton].
    intros x ([o y] & -> & Hy)%list_elem_of_fmap Hx. cbn in Hx. apply (Hnew _ Hy). cbn. set_solver.
  - intros x c Hx H1 H2. apply elem_of_app. unfold m' in Hx. rewrite lookup_insert in Hx. case_decide; [| left; by apply I10].
    right. subst x. injection Hx as <-. rewrite <- Epp, Hq. set_solver.
Qed.

Lemma ReceivedBlockTransactions_ready witness p n file pos s :
  ready s -> may_receive witness p n file pos s ->
  exists s', ReceivedBlockTransactions addr witness p n file pos s = Some s' /\ ready s' /\
    chainActive s' = chainActive s /\ same_tree (blocks s) (blocks s') /\
    forall x c c', blocks s !! x = Some c -> blocks s' !! x = Some c' ->
      is_failed c' = is_failed c /\ nTx c' = if decide (x = p) then n else nTx c.
Proof using HL addr_inj.
  intros Hr [(b & Hp & Hf & Hd & Hfit & Hpar) Hn Hid]. pose proof (proj1 Hr) as Hs.
  destruct (without_data s p b Hs Hp Hd) as [Hn0 Htx0]. unfold ReceivedBlockTransactions, change. rewrite Hp. cbn [mbind option_bind].
  fold (received_entry witness n file pos b). set (b' := received_entry witness n file pos b) in *.
  destruct (received_entry_spec witness n file pos b Hf Hn) as (Hsame & Htx & Hun & Hf' & Hlev). fold b' in Hsame, Htx, Hun, Hf', Hlev.
  set (s1 := dirty p (with_blocks (<[p := b']> (blocks s)) s)).
  assert (Base s1) as HB by (by apply (Base_received p b b' s)).
  assert (blocks s1 !! p = Some b') as -> by apply lookup_insert_eq. cbn [mbind option_bind].
  assert (forall s', relinked (blocks s1) (blocks s') -> same_tree (blocks s) (blocks s') /\
    forall x c c', blocks s !! x = Some c -> blocks s' !! x = Some c' ->
      is_failed c' = is_failed c /\ nTx c' = if decide (x = p) then n else nTx c) as Heff.
  { intros s' [Ht Hst]. assert (same_tree (blocks s) (blocks s1)) as Ht1 by (by apply (same_rel_insert same_block _ p b); [apply _ | |]).
    split; [by apply (same_rel_trans same_block _ _ _ _ Ht1 Ht) |]. intros x c c' Hc Hc'.
    destruct (same_rel_lookup _ _ _ _ _ Ht1 Hc) as (c1 & Hc1 & _). destruct (Hst x c1 c' Hc1 Hc') as [E1 E2].
    unfold has_flag in *. rewrite E1, E2. change (blocks s1) with (<[p := b']> (blocks s)) in Hc1. rewrite lookup_insert in Hc1.
    destruct (decide (p = x)) as [<- | Hne]; [| rewrite decide_False by done; by simplify_eq].
    rewrite decide_True by done. simplify_eq. split; [congruence | done]. }
  assert ((forall q, pprev b = Some q -> linked (blocks s) q) -> exists s',
    link_queue addr (S (length (mapBlocksUnlinked s1))) [p] s1 = Some s' /\ ready s' /\ chainActive s' = chainActive s /\
    relinked (blocks s1) (blocks s')) as Hlink.
  { intros Hl. assert (Queue [p] s1) as HQ by (by apply (Queue_received p b b' s)).
    destruct (link_queue_spec (S (length (mapBlocksUnlinked s1))) [p] s1 HQ) as (s' & E & Hr' & Hrel & Ev);
      [cbn; lia | cbn in *; lia |]. exists s'. done. }
  destruct Hsame as (Epp & Hsame). rewrite <- Epp. destruct (pprev b) as [q |] eqn:Hq.
  - destruct (parent_height _ (proj1 (ok_tree _ _ (inv_index _ _ _ _ Hs))) p b q Hp Hq) as (bq & Hbq & Hq0 & Hqh).
    assert (q <> p) as Hqp by (intros ->; simplify_eq; lia).
    assert (blocks s1 !! q = Some bq) as -> by (change (blocks s1) with (<[p := b']> (blocks s)); by rewrite lookup_insert_ne).
    cbn [mbind option_bind]. destruct (Z.eqb_spec (nChainTx bq) 0) as [Hq1 | Hq1]; cbn [negb].
    + assert (~ linked (blocks s) q) as Hnl by (intros (c & Hc & Hcn); simplify_eq).
      assert (IsValid bq BLOCK_VALID_TREE = true) as ->.
      { rewrite IsValid_level. pose proof (ok_level _ _ (inv_index _ _ _ _ Hs) q bq Hbq) as Hle. apply Z.leb_le in Hle as ->.
        destruct (is_failed bq) eqn:E; [| done]. destruct (Hpar q eq_refl) as [Hnf | ?]; [| done]. destruct Hnf. by exists bq. }
      eexists. split; [done |]. split; [| split; [done |]; apply Heff, relinked_refl].
      apply (ready_unlinked p b b' q s s1); try done. by split; [rewrite Hq |].
    + destruct Hlink as (s' & E & Hr' & Ev & Hrel); [intros r [= <-]; by exists bq |]. exists s'. auto.
  - destruct Hlink as (s' & E & Hr' & Ev & Hrel); [done |]. exists s'. auto.
Qed.

(** A block is linked when it and all blocks below it have been received. *)
Lemma linked_received s p :
  Inv s -> is_Some (blocks s !! p) ->
  linked (blocks s) p <-> forall a, is_ancestor (blocks s) p a -> exists b, blocks s !! a = Some b /\ 0 < nTx b.
Proof.
  intros Hs Hp. pose proof (inv_index _ _ _ _ Hs) as Hm. pose proof (proj1 (ok_tree _ _ Hm)) as Hst. split.
  { intros Hl a Ha. destruct (linked_ancestor _ _ p a Hm Hl Ha) as (b & Hb & Hn). exists b. split; [done |].
    by apply (ok_received _ _ Hm a). }
  destruct Hp as [b Hp]. remember (Z.to_nat (nHeight b)) as h eqn:Eh. revert p b Hp Eh.
  induction h as [h IH] using lt_wf_ind. intros p b Hp -> Hall. exists b. split; [done |]. intros Hn.
  destruct (Hall p (is_ancestor_refl _ p)) as (b0 & Hb0 & Htx). rewrite Hp in Hb0. injection Hb0 as <-.
  destruct (inv_unlinked _ _ _ _ Hs _ (inv_waiting _ _ _ _ Hs p b Hp Htx Hn)) as (c & q & cq & Hc & Hq & _ & _ & Hcq & Hn0).
  cbn in Hc. rewrite Hp in Hc. injection Hc as <-. destruct (parent_height _ Hst p b q Hp Hq) as (cq' & Hcq' & H0 & Hh).
  rewrite Hcq in Hcq'. injection Hcq' as <-.
  destruct (IH (Z.to_nat (nHeight cq)) ltac:(lia) q cq Hcq eq_refl) as (c' & Hc' & Hn').
  - intros a Ha. apply Hall, (is_ancestor_step _ p b a Hp). eauto.
  - congruence.
Qed.

End Link.
