(* ===== verification/HeaderChecks.v ===== *)
(** * The header checks return: [src/pow.cpp], [src/validation.cpp]

    When the checks of a header fail no assertion, read nothing out of range
    and divide by nothing that is zero: sane parameters, an algorithm number
    that exists and, inside the window of the second LWMA rule, a chain on
    which that rule is defined. *)

From stdpp Require Import gmap.
From S2P Require Import Prelude Bytes ArithUint256 Compact Chain ActiveChain MedianTime Pow PowTargets BestChain AcceptBlock.

(** ** Well-formed numbers, also when operations wrap *)

Lemma mul_int_wf a n : wf256 a -> wf256 (mul_int a n).
Proof. intros Ha. apply (op_mul32_value W256 a (u32 n) Ha). unfold limb_ok. auto with machine. Qed.

Lemma int_mul_wf n a : wf256 a -> wf256 (int_mul n a).
Proof.
  intros Ha. apply (op_mul_value W256 (of_u64 (u64 n)) a); [| done].
  apply of_u64_value. auto with machine.
Qed.

Lemma op_add_wf a b : wf256 a -> wf256 b -> wf256 (op_add W256 a b).
Proof. intros Ha Hb. apply (op_add_value W256 a b Ha Hb). Qed.

Lemma div_int_total a n : wf256 a -> 0 < n < 2 ^ 64 -> exists q, div_int a n = Some q /\ wf256 q.
Proof. intros Ha Hn. destruct (div_int_value a n Ha Hn) as (q & E & Hw & _). eauto. Qed.

Lemma target_of_wf c : 0 <= c < 2 ^ 32 -> wf256 (target_of c).
Proof. intros Hc. destruct (SetCompact_eq c Hc) as (a & E & Hw & _). unfold target_of. by rewrite E. Qed.

Lemma GetCompact_total a : wf256 a -> is_Some (GetCompact a false).
Proof. intros Ha. destruct (GetCompact_denotes a Ha) as (c & E & _). eauto. Qed.

Lemma GetCompact_capped_total a limit :
  wf256 a -> wf256 limit -> is_Some (GetCompact (if gt256 a limit then limit else a) false).
Proof. intros Ha Hl. destruct (GetCompact_capped a limit Ha Hl) as (c & E & _). eauto. Qed.

#[local] Hint Resolve mul_int_wf int_mul_wf op_add_wf target_of_wf GetCompact_total GetCompact_capped_total : core.

(** ** Parameters and trees *)

Definition limit_wf (limit : list Z) : Prop := length limit = 32%nat /\ Forall byte_ok limit.

Record params_ok (params : PowParams) : Prop := {
  po_limit : limit_wf (powLimit params);
  po_limits : (2 <= length (powTypeLimits params))%nat /\ Forall limit_wf (powTypeLimits params);
  po_spacing : 0 < nPowTargetSpacing params < 2 ^ 30;
  po_timespan : nPowTargetSpacing params <= nPowTargetTimespan params < 2 ^ 62
}.

(** The words [nBits] are of their type, and a chain starts before the
    dual-algorithm fork. *)
Record tree_words (params : PowParams) (m : gmap ptr CBlockIndex) : Prop := {
  tw_bits p b : m !! p = Some b -> 0 <= nBits b < 2 ^ 32;
  tw_root p b : m !! p = Some b -> pprev b = None -> nTime b < pow_powForkTime params
}.

Lemma limit_wf_value limit : limit_wf limit -> wf256 (UintToArith256 limit).
Proof. intros [Hl Hb]. by apply (limit_value limit (le_decode limit)). Qed.

Section Total.
Context (m : gmap ptr CBlockIndex) (params : PowParams).
Context (Hm : wf_store m) (Hpar : params_ok params) (Hw : tree_words params m).

Lemma bnPowLimit_wf : wf256 (bnPowLimit params).
Proof using Hpar. apply limit_wf_value, Hpar. Qed.

Lemma spacing_pos : 0 < nPowTargetSpacing params < 2 ^ 30.
Proof using Hpar. apply Hpar. Qed.

Lemma last_non_special_total limit : forall fuel p b,
  m !! p = Some b -> nHeight b <= Z.of_nat fuel -> is_Some (last_non_special m params fuel p limit).
Proof using Hm.
  induction fuel as [| fuel IH]; intros p b Hp Hf; cbn [last_non_special]; rewrite Hp; cbn [mbind option_bind];
    (destruct (pprev b) as [q |] eqn:Hq; [| eauto]);
    destruct (parent_height m Hm p b q Hp Hq) as (bq & Hbq & ? & ?); destruct (_ && _); eauto; try lia.
  apply (IH q bq); [done | lia].
Qed.

(** ** Before the fork *)

Lemma dgw_loop_total : forall n c p b avg,
  m !! p = Some b -> Z.of_nat n <= nHeight b -> 1 <= c -> c + Z.of_nat n < 2 ^ 31 -> wf256 avg ->
  exists a q bq, dgw_loop m n c p avg = Some (a, q) /\ wf256 a /\ m !! q = Some bq.
Proof using Hm Hw.
  induction n as [| n IH]; intros c p b avg Hp Hn Hc Hcn Ha; [by exists avg, p, b |].
  rewrite (dgw_loop_S m n c p avg b Hp). pose proof (target_of_wf _ (tw_bits _ _ Hw p b Hp)) as Ht.
  assert (exists a, (if c =? 1 then Some (target_of (nBits b))
     else div_int (op_add W256 (mul_int avg c) (target_of (nBits b))) (u32 (c + 1))) = Some a /\ wf256 a) as (a & -> & Haw).
  { destruct (c =? 1); [eauto |]. apply div_int_total; [auto |]. rewrite wrapu_small by lia. lia. }
  cbn [mbind option_bind]. pose proof (Hm p b Hp) as Hi. unfold wf_index in Hi.
  destruct (pprev b) as [q |]; [| lia]. destruct Hi as (bq & Hq & ? & ? & _).
  destruct (negb _); cbn [mbind option_bind]; [apply (IH (c + 1) q bq) | apply (IH (c + 1) p b)]; done || lia.
Qed.

Lemma DarkGravityWave_total p b t : m !! p = Some b -> is_Some (DarkGravityWave m params p t).
Proof using Hm Hpar Hw.
  intros Hp. pose proof bnPowLimit_wf as Hl. pose proof spacing_pos as Hsp. unfold DarkGravityWave.
  destruct (GetCompact_total _ Hl) as [c Ec]. rewrite Ec. cbn [mbind option_bind]. rewrite Hp. cbn [mbind option_bind].
  destruct (Z.ltb_spec (nHeight b) nPastBlocks) as [| Hh]; [eauto |].
  destruct (_ && _).
  { destruct (_ >? _); [eauto |]. apply (last_non_special_total _ _ p b Hp). lia. }
  destruct (dgw_loop_total (Z.to_nat nPastBlocks) 1 p b (base_uint_zero W256)) as (a & q & bq & -> & Ha & Hq);
    [done | unfold nPastBlocks in *; lia | lia | done | apply wf_zero |]. cbn [mbind option_bind]. rewrite Hq. cbn [mbind option_bind].
  match goal with |- context [div_int ?x ?n] => destruct (div_int_total x n) as (d & -> & Hd) end; [auto | unfold nPastBlocks; lia |].
  cbn [mbind option_bind]. auto.
Qed.

Lemma GetNextWorkRequiredBTC_total p b t : m !! p = Some b -> is_Some (GetNextWorkRequiredBTC m params p t).
Proof using Hm Hpar Hw.
  intros Hp. pose proof bnPowLimit_wf as Hl. pose proof (po_timespan _ Hpar) as Hts. pose proof spacing_pos as Hsp.
  pose proof (wf_height m p b Hm Hp) as Hh. unfold GetNextWorkRequiredBTC.
  rewrite Hp. cbn [mbind option_bind]. destruct (GetCompact_total _ Hl) as [c ->]. cbn [mbind option_bind].
  set (I := DifficultyAdjustmentInterval params).
  assert (1 <= I) as HI.
  { subst I. unfold DifficultyAdjustmentInterval. rewrite Z.quot_div_nonneg by lia. apply Z.div_le_lower_bound; lia. }
  rewrite Z.rem_mod_nonneg by lia. destruct (Z.eqb_spec ((nHeight b + 1) mod I) 0) as [Hmod |]; cbn [negb].
  2: { destruct (fPowAllowMinDifficultyBlocks params); [| eauto]. destruct (_ >? _); [eauto |].
       apply (last_non_special_total _ _ p b Hp). lia. }
  apply Z.div_exact in Hmod; [| lia]. assert (1 <= (nHeight b + 1) / I) by nia. assert (I <= nHeight b + 1) by nia.
  destruct (Z.ltb_spec (nHeight b - (I - 1)) 0); [lia |]. rewrite (GetAncestor_eq m p b) by done.
  destruct (ancestor_at_some m p b (nHeight b - (I - 1)) Hm Hp) as (q & bq & -> & Hbq & _); [lia |].
  cbn [mbind option_bind]. rewrite Hbq. cbn [mbind option_bind].
  unfold CalculateNextWorkRequired. rewrite Hp. cbn [mbind option_bind]. destruct (fPowNoRetargeting params); [eauto |].
  pose proof (target_of_wf _ (tw_bits _ _ Hw p b Hp)) as Ht.
  match goal with |- context [div_int ?x ?n] => destruct (div_int_total x n) as (d & -> & Hd) end; [auto | lia |].
  cbn [mbind option_bind]. auto.
Qed.

(** ** LWMA-1 *)

Lemma not_root p b : m !! p = Some b -> pow_powForkTime params <= nTime b ->
  exists q bq, pprev b = Some q /\ m !! q = Some bq /\ nHeight b = nHeight bq + 1.
Proof using Hm Hw.
  intros Hp Ht. destruct (pprev b) as [q |] eqn:Hq; [| pose proof (tw_root _ _ Hw p b Hp Hq); lia].
  destruct (parent_height m Hm p b q Hp Hq) as (bq & Hbq & _ & ?). eauto.
Qed.

Lemma find_previous_total powType N : forall fuel found p b,
  m !! p = Some b -> nHeight b < Z.of_nat fuel ->
  find_previous m params fuel powType found N p = Some None \/
  exists q bq, find_previous m params fuel powType found N p = Some (Some q) /\ m !! q = Some bq.
Proof using Hm Hw.
  induction fuel as [| fuel IH]; intros found p b Hp Hf; [pose proof (wf_height m p b Hm Hp); lia |].
  cbn [find_previous]. rewrite Hp. cbn [mbind option_bind].
  destruct (Z.ltb_spec (nTime b) (pow_powForkTime params)) as [| Ht]; [by left |].
  destruct (not_root p b Hp Ht) as (q & bq & -> & Hq & ?). cbn [mbind option_bind].
  destruct (negb _); [by apply (IH found q bq); [| lia] |].
  destruct (_ =? N); [right; by exists p, b | by apply (IH (found + 1) q bq); [| lia]].
Qed.

(** The weighted sum is taken over the blocks that the search has seen. *)
Lemma lwma1_loop_total powType N k T q : 0 < N < 2 ^ 32 -> 0 < k < 2 ^ 64 -> forall fuel found p b j ts sum avg,
  m !! p = Some b -> find_previous m params fuel powType found N p = Some (Some q) -> wf256 avg ->
  exists a s, lwma1_loop m fuel powType N k T found j ts sum avg p = Some (a, s) /\ wf256 a.
Proof using Hm Hw.
  intros HN Hk. induction fuel as [| fuel IH]; intros found p b j ts sum avg Hp Hfind Ha; [done |].
  cbn [find_previous lwma1_loop] in *. rewrite Hp in *. cbn [mbind option_bind] in *.
  destruct (Z.ltb_spec found N) as [Hlt |]; [| eauto].
  destruct (Z.ltb_spec (nTime b) (pow_powForkTime params)) as [| Ht]; [done |].
  destruct (not_root p b Hp Ht) as (r & br & Er & Hr & _). rewrite Er in *. cbn [mbind option_bind] in *.
  destruct (negb _); [by apply (IH found r br) |].
  pose proof (target_of_wf _ (tw_bits _ _ Hw p b Hp)) as Htw.
  destruct (div_int_total _ N Htw) as (d1 & -> & Hd1); [lia |]. cbn [mbind option_bind].
  destruct (div_int_total _ k Hd1 Hk) as (d2 & -> & Hd2). cbn [mbind option_bind].
  destruct (Z.eqb_spec (found + 1) N) as [E | _]; [| by apply (IH (found + 1) r br); auto].
  rewrite E. destruct fuel; cbn [lwma1_loop]; rewrite Z.ltb_irrefl; eauto.
Qed.

Lemma GetNextWorkRequiredLWMA1_total p b t powType : m !! p = Some b -> is_Some (GetNextWorkRequiredLWMA1 m params p t powType).
Proof using Hm Hpar Hw.
  intros Hp. pose proof bnPowLimit_wf as Hl. pose proof spacing_pos as Hsp. pose proof (wf_height m p b Hm Hp).
  unfold GetNextWorkRequiredLWMA1. rewrite Hp. cbn [mbind option_bind]. destruct (_ && _); [auto |]. destruct (_ <? _); [auto |].
  destruct (find_previous_total powType 90 (Z.to_nat (nHeight b + 1)) 0 p b Hp ltac:(lia)) as [E | (q & bq & E & Hq)];
    rewrite E; cbn [mbind option_bind]; [auto |].
  rewrite Hq. cbn [mbind option_bind].
  destruct (lwma1_loop_total powType 90 (Z.quot (90 * (90 + 1) * (nPowTargetSpacing params * 2)) 2) (nPowTargetSpacing params * 2) q
    ltac:(lia) ltac:(rewrite Z.quot_div_nonneg by lia; split; [apply Z.div_str_pos | apply Z.div_lt_upper_bound]; lia)
    (Z.to_nat (nHeight b + 1)) 0 p b 0 (GetBlockTime bq) 0 (base_uint_zero W256) Hp E (wf_zero _)) as (a & s & -> & Ha).
  cbn [mbind option_bind]. auto.
Qed.

(** ** LWMA-3 *)

Lemma lwma3_loop_total blocks N k T : (0 < N)%nat -> Z.of_nat N < 2 ^ 32 -> 0 < k < 2 ^ 64 ->
  Forall (fun b => exists q, m !! q = Some b) blocks -> (N < length blocks)%nat ->
  forall i t j sum, (i <= N)%nat -> wf256 sum ->
  exists s t', lwma3_loop i blocks (Z.of_nat N) k T t j sum = Some (s, t') /\ wf256 s.
Proof using Hw.
  intros HN HN' Hk Hsub Hlen. induction i as [| i IH]; intros t j sum Hi Hs; [cbn; eauto |]. cbn [lwma3_loop].
  destruct (lookup_lt_is_Some_2 blocks i) as [b Hbi]; [lia |]. destruct (lookup_lt_is_Some_2 blocks (S i)) as [b' Hbi']; [lia |].
  rewrite Hbi, Hbi'. cbn [mbind option_bind]. destruct (Forall_lookup_1 _ _ _ _ Hsub Hbi) as [p Hp].
  pose proof (target_of_wf _ (tw_bits _ _ Hw p b Hp)) as Htw.
  destruct (div_int_total _ (Z.of_nat N) Htw) as (d1 & -> & Hd1); [lia |]. cbn [mbind option_bind].
  destruct (div_int_total _ k Hd1 Hk) as (d2 & -> & Hd2). cbn [mbind option_bind]. apply IH; [lia | auto].
Qed.

Lemma GetNextWorkRequiredLWMA3_total p b powType : m !! p = Some b -> 0 <= powType < 2 ->
  is_Some (GetNextWorkRequiredLWMA3 m params p powType).
Proof using Hm Hpar Hw.
  intros Hp Ht. destruct (po_limits _ Hpar) as [Hlen Hall]. pose proof spacing_pos as Hsp. unfold GetNextWorkRequiredLWMA3.
  destruct (lookup_lt_is_Some_2 (powTypeLimits params) (Z.to_nat powType)) as [limit El]; [lia |]. rewrite El. cbn [mbind option_bind].
  pose proof (limit_wf_value _ (Forall_lookup_1 _ _ _ _ Hall El)) as Hl. rewrite Hp. cbn [mbind option_bind].
  pose proof (wf_height m p b Hm Hp).
  assert (ancestor_at m p (nHeight b) = Some p) as Hself.
  { unfold ancestor_at. rewrite Hp. cbn. rewrite Z.gtb_ltb. bdestruct_all. by rewrite Z.sub_diag. }
  rewrite (same_algo_blocks_correct m powType 60 p b _ (nHeight b) p b []) by (done || cbn [length]; lia).
  cbn [mbind option_bind app]. cbn zeta. destruct (Z.leb_spec (60 + 1) (Z.of_nat (length (same_algo m powType (nHeight b) p)))); [| auto].
  destruct (lwma3_loop_total (take (Z.to_nat (60 + 1)) (same_algo m powType (nHeight b) p)) 60
    (Z.quot (60 * (60 + 1) * (nPowTargetSpacing params * 2)) 2) (nPowTargetSpacing params * 2)) with (i := 60%nat) (t := 0) (j := 0)
    (sum := base_uint_zero W256) as (s & t & E & Hs); try lia.
  { rewrite Z.quot_div_nonneg by lia. split; [apply Z.div_str_pos | apply Z.div_lt_upper_bound]; lia. }
  { apply Forall_take, same_algo_sub. }
  { rewrite length_take. lia. }
  { apply wf_zero. }
  change (Z.of_nat 60) with 60 in E. change (Z.to_nat 60) with 60%nat. rewrite E. cbn [mbind option_bind]. auto.
Qed.

End Total.

(** ** The checks of a header *)

(** When the checks of a header on [prev] are defined.  An unknown algorithm
    number makes [CheckProofOfWork] read past [powTypeLimits], and the second
    LWMA rule can follow a null pointer. *)
Record checkable (env : NodeEnv) (m : gmap ptr CBlockIndex) (block : CBlockHeader) : Prop := {
  ck_params : params_ok (env_params env);
  ck_words : tree_words (env_params env) m;
  ck_depth : 0 <= nMaxReorgDepth env;
  ck_type : hdr_nTime block <= diffRetargetTake2 (env_params env) \/ GetPoWType (hdr_nVersion block) < NUM_BLOCK_TYPES;
  ck_lwma2 prev : m !! hdr_hashPrevBlock block = Some prev -> pow_powForkTime (env_params env) < nTime prev ->
    GetPoWType (hdr_nVersion block) < NUM_BLOCK_TYPES ->
    diffRetargetFix (env_params env) <= nHeight prev -> GetBlockTime prev < diffRetargetTake2 (env_params env) ->
    is_Some (GetNextWorkRequiredLWMA2 m (env_params env) (hdr_hashPrevBlock block) (hdr_nTime block) (GetPoWType (hdr_nVersion block)))
}.

Lemma GetPoWType_nonneg v : 0 <= GetPoWType v.
Proof. unfold GetPoWType. apply Z.land_nonneg. right. lia. Qed.

Lemma CheckBlockHeader_total env m cached hash block :
  checkable env m block -> is_Some (CheckBlockHeader env cached hash block true).
Proof.
  intros [Hp _ _ Ht _]. cbn [CheckBlockHeader]. unfold CheckPoW.
  assert (forall h, is_Some (CheckHeaderProofOfWork h block (env_params env))) as Hdef.
  { intros h. unfold CheckHeaderProofOfWork. destruct (Z.gtb_spec (hdr_nTime block) (diffRetargetTake2 (env_params env))) as [Hgt |]; [| eauto].
    destruct Ht as [? | Ht]; [lia |]. unfold CheckProofOfWorkDualAlgo. destruct (SetCompact _) as [[tg neg] ov].
    destruct (_ || _); [eauto |]. destruct (po_limits _ Hp) as [Hlen _]. pose proof (GetPoWType_nonneg (hdr_nVersion block)).
    destruct (lookup_lt_is_Some_2 (powTypeLimits (env_params env)) (Z.to_nat (GetPoWType (hdr_nVersion block)))) as [l ->];
      [unfold NUM_BLOCK_TYPES in *; lia |]. cbn [mbind option_bind]. destruct (gt256 _ _); eauto. }
  destruct (Hdef cached) as [ok ->]. cbn [mbind option_bind]. destruct ok; eauto.
Qed.

Lemma header_work_total env m block b :
  wf_store m -> checkable env m block -> m !! hdr_hashPrevBlock block = Some b ->
  is_Some (header_work env m block (hdr_hashPrevBlock block)).
Proof.
  intros Hm [Hpar Hw _ _ H2] Hp. unfold header_work, IsDualAlgoEnabled. rewrite Hp. cbn [mbind option_bind].
  destruct (Z.gtb_spec (nTime b) (pow_powForkTime (env_params env))) as [Hgt |].
  - destruct (Z.leb_spec NUM_BLOCK_TYPES (GetPoWType (hdr_nVersion block))); [eauto |].
    match goal with |- is_Some (?e ≫= _) => assert (is_Some e) as [bits ->] end; [| cbn; eauto].
    unfold GetNextWorkRequiredLWMA. rewrite Hp. cbn [mbind option_bind]. pose proof (GetPoWType_nonneg (hdr_nVersion block)).
    destruct (Z.ltb_spec (nHeight b) (diffRetargetFix (env_params env))); [by apply (GetNextWorkRequiredLWMA1_total m _ Hm Hpar Hw _ b) |].
    destruct (Z.geb_spec (nHeight b) (diffRetargetFix (env_params env))); [| lia].
    destruct (Z.ltb_spec (GetBlockTime b) (diffRetargetTake2 (env_params env))); cbn [andb]; [by apply (H2 b); [.. | lia | |] |].
    apply (GetNextWorkRequiredLWMA3_total m _ Hm Hpar Hw _ b); [done |]. unfold NUM_BLOCK_TYPES in *. lia.
  - match goal with |- is_Some (?e ≫= _) => assert (is_Some e) as [bits ->] end; [| cbn; eauto]. unfold GetNextWorkRequired.
    destruct (DarkGravityWave_total m _ Hm Hpar Hw _ b (hdr_nTime block) Hp) as [d ->]. cbn [mbind option_bind].
    destruct (GetNextWorkRequiredBTC_total m _ Hm Hpar Hw _ b (hdr_nTime block) Hp) as [e ->]. cbn [mbind option_bind].
    rewrite Hp. cbn. eauto.
Qed.

Lemma ContextualCheckBlockHeader_total env m chain block :
  wf_store m -> checkable env m block -> is_Some (m !! hdr_hashPrevBlock block) ->
  (forall t, Tip chain = Some t -> is_Some (m !! t)) -> (Tip chain = None -> Height chain = -1) ->
  is_Some (ContextualCheckBlockHeader env m chain block (hdr_hashPrevBlock block)).
Proof.
  intros Hm Hck [b Hp] Htip Hempty. unfold ContextualCheckBlockHeader. rewrite Hp. cbn [mbind option_bind].
  pose proof (wf_height m _ b Hm Hp) as Hh. pose proof (ck_depth _ _ _ Hck) as Hd.
  assert (is_Some (reorg_too_deep env m chain (nHeight b + 1))) as [deep ->].
  { unfold reorg_too_deep. destruct (Z.leb_spec (nMaxReorgDepth env) (Height chain - (nHeight b + 1 - 1))); [| eauto].
    destruct (nNodeCount env); [| eauto]. destruct (Tip chain) as [t |]; [| rewrite Hempty in *; done || lia].
    cbn [mbind option_bind]. destruct (Htip t eq_refl) as [bt ->]. cbn. eauto. }
  cbn [mbind option_bind]. destruct deep; [eauto |]. destruct (header_work_total env m block b Hm Hck Hp) as [w ->].
  cbn [mbind option_bind]. destruct w; [eauto |].
  match goal with |- is_Some (?e ≫= _) => assert (is_Some e) as [old ->] end.
  { destruct (fCheckpointsEnabled env); [| eauto]. unfold GetLastCheckpoint.
    destruct (List.find _ _) as [[h c] |] eqn:Ef; cbn [fmap option_fmap option_map snd]; [| eauto].
    apply List.find_some in Ef as [_ Ef]. apply bool_decide_eq_true in Ef as [bc Hbc]. cbn in Hbc. rewrite Hbc. cbn. eauto. }
  cbn [mbind option_bind]. destruct old; [eauto |]. destruct (GetMedianTimePast_total m Hm _ b Hp) as [med ->].
  cbn [mbind option_bind]. destruct (_ <=? _); [eauto |]. unfold IsDualAlgoEnabled. rewrite Hp. cbn [mbind option_bind].
  destruct (_ <? _); [eauto |]. destruct (_ && _); [eauto |]. destruct (_ && _); eauto.
Qed.
