(* ===== verification/BestChainAccept.v ===== *)
(** * Accepting headers and blocks keeps the invariant

    [AcceptBlockHeader] and [AcceptBlock] never fail an assertion in a state
    that satisfies the invariant of [BestChainInv.v], keep it, and change
    the entries of the block index as their results say. *)

From stdpp Require Import gmap sorting.
From S2P Require Import Prelude ArithUint256 Compact Chain ActiveChain BestChain AcceptBlock BestChainInv BestChainSelect.
From S2P Require Import BestChainActivate BestChainSteps BestChainLink HeaderChecks.
Set Default Proof Using "Type".

Section Mark.
Context {W : Type}.
Implicit Types (s t : ChainState W) (p q : ptr).

(** The loop is the one of [InvalidateBlock], which also erases the
    candidates. *)
Lemma AcceptBlockHeader_mark_erases x C : forall fuel p t t',
  InvalidateBlock_mark fuel x p t = Some t' ->
  AcceptBlockHeader_mark fuel x p (with_candidates (fun _ => C) t) = Some (with_candidates (fun _ => C) t').
Proof.
  induction fuel as [| fuel IH]; intros p t t'; cbn [InvalidateBlock_mark AcceptBlockHeader_mark];
    (case_decide; [by intros [= <-] |]); [done |].
  change (blocks (with_candidates (fun _ => C) t)) with (blocks t). unfold change.
  change (blocks (with_candidates (fun _ => C) t)) with (blocks t).
  destruct (blocks t !! p) as [b |]; [| done]. cbn [mbind option_bind]. destruct (pprev b) as [q |]; [| done]. cbn [mbind option_bind].
  intros E. apply (IH q) in E. exact E.
Qed.

End Mark.

Section Accept.
Context {W : Type}.
Variable addr : ptr -> Z.
Hypothesis addr_inj : forall p q, addr p = addr q -> p = q.
Context (L : Ledger W) (parent : ptr -> option ptr) (valid : ptr -> bool) (world : option ptr -> W -> Prop).
Context {HL : LedgerOk L parent valid world}.
Variable env : NodeEnv.

Implicit Types (m : gmap ptr CBlockIndex) (s : ChainState W) (p q : ptr).

Abbreviation index_ok := (index_ok parent).
Abbreviation sound := (sound parent valid).
Abbreviation Inv := (Inv parent valid world).
Abbreviation ready := (ready addr parent valid world).
Abbreviation evolves := (evolves parent valid).

(** More candidates do no harm. *)
Lemma ready_candidates s C :
  ready s -> setBlockIndexCandidates s ⊆ C -> (forall p, p ∈ C -> linked (blocks s) p) ->
  ready (with_candidates (fun _ => C) s).
Proof.
  intros [[I0 I1 I2 I3 I4 I5 I6 I7 I8 I9 I10] Hc] Hsub Hl. split; [by split |].
  intros p b Hp Hn Hf Hw. apply Hsub. by apply (Hc p b).
Qed.

(** The blocks between the parent and the failed block are marked. *)
Lemma AcceptBlockHeader_mark_ready x p b s :
  ready s -> failed (blocks s) x -> blocks s !! p = Some b -> is_ancestor (blocks s) p x ->
  exists s', AcceptBlockHeader_mark (Z.to_nat (nHeight b)) x p s = Some s' /\ ready s' /\ evolves s s' /\
    chainActive s' = chainActive s.
Proof using HL addr_inj.
  intros [Hs Hc] Hx Hp Ha. pose proof (ok_tree _ _ (inv_index _ _ _ _ Hs)) as Htree. destruct Hx as (bx & Hbx & Hfx).
  pose proof (wf_height _ _ _ (proj1 Htree) Hbx).
  destruct (InvalidateBlock_mark_spec x (Z.to_nat (nHeight b)) bx p b s Htree Hbx Hp Ha ltac:(lia)) as (t & X & E & M & HX).
  apply (AcceptBlockHeader_mark_erases x (setBlockIndexCandidates s)) in E.
  replace (with_candidates (fun _ => setBlockIndexCandidates s) s) with s in E by (by destruct s).
  eexists. split; [exact E |].
  assert (above_failed (blocks s) X) as Habove by (intros y Hy; exists x; split; [by apply HX | by exists bx]).
  assert (forall y q, y ∈ X -> sound (blocks s) q -> ~ is_ancestor (blocks s) q y) as Hoff
    by (intros y q Hy Hq; by apply (above_failed_sound parent valid (blocks s) X y q)).
  assert (ready t) as Hrt.
  { split; [| rewrite (marks_chain _ _ _ M); by apply (marks_complete addr X s t M)].
    apply (marks_Inv _ _ _ X s t M Hs). intros t' y Ht' Hy. apply Hoff; [done |]. apply (inv_tip _ _ _ _ Hs t' Ht'). }
  split; [| split; [| apply M]].
  2: { apply (evolves_trans _ _ s t); [by apply (marks_evolves parent valid X s t (proj1 Htree) M) | by apply evolves_eq]. }
  apply ready_candidates; [done | intros y Hy; by apply (marks_candidates _ _ _ M) in Hy as [? _] |].
  intros y Hy. apply (linked_same (blocks s)); [by apply same_index_counted, M | by apply (inv_candidates _ _ _ _ Hs)].
Qed.

Lemma AcceptBlockHeader_failed_ready p : forall l s,
  ready s -> is_Some (blocks s !! p) ->
  (forall x, x ∈ l -> exists b, blocks s !! x = Some b /\ has_flag b BLOCK_FAILED_VALID = true) ->
  exists r s', AcceptBlockHeader_failed l p s = Some (r, s') /\ ready s' /\ evolves s s' /\
    chainActive s' = chainActive s /\ (r = false -> s' = s).
Proof using HL addr_inj.
  induction l as [| x l IH]; intros s Hr Hp Hl; cbn [AcceptBlockHeader_failed].
  { exists false, s. split; [done |]. split; [done |]. split; [by apply evolves_eq |]. done. }
  pose proof (proj1 (ok_tree _ _ (inv_index _ _ _ _ (proj1 Hr)))) as Hst. destruct Hp as [b Hp].
  destruct (Hl x) as (f & Hf & Hff); [by left |]. rewrite Hf. cbn [mbind option_bind].
  destruct (GetAncestor_total (blocks s) p b (nHeight f) Hst Hp (wf_height _ _ _ Hst Hf)) as [a Ea]. rewrite Ea. cbn [mbind option_bind].
  case_decide as Hd; [| apply IH; [done | eauto |]; intros y Hy; apply Hl; by right].
  rewrite Hff, Hp. cbn [mbind option_bind]. subst a.
  destruct (AcceptBlockHeader_mark_ready x p b s Hr) as (s1 & -> & Hr1 & He1 & Ev1); try done.
  { exists f. split; [done | by apply failed_valid_failed]. }
  { rewrite (GetAncestor_eq _ p b _ Hst Hp) in Ea. injection Ea as Ea. unfold ancestor_at in Ea. rewrite Hp in Ea.
    cbn [mbind option_bind] in Ea. destruct (_ || _); [done |]. by eexists. }
  cbn [mbind option_bind]. exists true, s1. done.
Qed.

(** ** Headers *)

(** When a header may arrive: its checks are defined ([HeaderChecks.v]), and
    a header that they accept continues the tree of blocks. *)
Record header_guard (hash : Z) (block : CBlockHeader) s : Prop := {
  hg_checks : checkable env (blocks s) block;
  hg_tree : hash = hashGenesisBlock env \/
    ContextualCheckBlockHeader env (blocks s) (chainActive s) block (hdr_hashPrevBlock block) = Some None ->
    header_ok parent hash block s
}.

(** The header is in the index. *)
Definition header_in (hash : Z) (block : CBlockHeader) s s' : Prop :=
  match blocks s !! hash with
  | Some _ => blocks s' = blocks s
  | None => exists new, blocks s' = <[hash := new]> (blocks s) /\ header_entry parent hash block (blocks s) new
  end.

Lemma insert_header_ready hash block s :
  ready s -> header_ok parent hash block s ->
  exists s', insert_header hash block s = Some (true, Some hash, s') /\ ready s' /\ chainActive s' = chainActive s /\
    header_in hash block s s'.
Proof using HL addr_inj.
  intros Hr Hok. destruct (add_header_ready addr parent valid world hash block s Hr Hok) as (s' & E & Hr' & Ev & Hin).
  exists s'. split; [| done]. unfold add_header in E. unfold insert_header.
  destruct (AddToBlockIndex (block_index s) hash block) as [[st p] |] eqn:Ea; [| done]. cbn in E |- *. injection E as <-.
  assert (p = hash) as ->; [| done]. unfold AddToBlockIndex in Ea. destruct (mapBlockIndex (block_index s) !! hash); [by injection Ea |].
  destruct (AddToBlockIndex_link _ _ _) as [new1 |]; cbn [mbind option_bind] in Ea; [| done]. unfold AddToBlockIndex_finish in Ea.
  destruct (GetBlockProof _); cbn [mbind option_bind] in Ea; [| done].
  destruct (match pindexBestHeader _ with Some _ => _ | None => _ end); cbn [mbind option_bind] in Ea; [| done]. by injection Ea.
Qed.

Lemma rules_total block s : ready s -> checkable env (blocks s) block -> is_Some (blocks s !! hdr_hashPrevBlock block) ->
  is_Some (ContextualCheckBlockHeader env (blocks s) (chainActive s) block (hdr_hashPrevBlock block)).
Proof.
  intros [Hs _] Hck Hp. apply ContextualCheckBlockHeader_total; try done.
  - apply (inv_index _ _ _ _ Hs).
  - intros t Ht. apply linked_lookup, (inv_tip _ _ _ _ Hs t Ht).
  - intros Ht. pose proof (inv_active _ _ _ _ Hs) as Ha. rewrite Ht in Ha. cbn in Ha. by rewrite Ha.
Qed.

Lemma AcceptBlockHeader_ready hash cached powhash block s :
  ready s -> header_guard hash block s ->
  exists ok op s', AcceptBlockHeader addr env hash cached powhash block s = Some (ok, op, s') /\ ready s' /\
    chainActive s' = chainActive s /\
    if ok : bool then op = Some hash /\ header_in hash block s s' else evolves s s'.
Proof using HL addr_inj.
  intros Hr [Hck Htree]. pose proof (CheckBlockHeader_total env _ cached powhash block Hck) as Hpow.
  pose proof (rules_total block s Hr Hck) as Hrules. unfold AcceptBlockHeader. case_decide as Hg.
  { destruct (insert_header_ready hash block s Hr (Htree (or_introl Hg))) as (s' & -> & Hr' & Ev & Hin).
    exists true, (Some hash), s'. done. }
  destruct (blocks s !! hash) as [b |] eqn:Hh.
  { eexists _, _, s. split; [done |]. split; [done |]. split; [done |].
    destruct (negb _); [unfold header_in; by rewrite Hh | by apply evolves_eq]. }
  assert (evolves s s) as Hrefl by (by apply evolves_eq).
  assert (exists pow, (if IsInitialBlockDownload env then Some true else CheckBlockHeader env cached powhash block true) = Some pow)
    as [pow ->] by (destruct (IsInitialBlockDownload env); eauto). cbn [mbind option_bind].
  destruct pow; cbn [negb]; [| by exists false, None, s].
  destruct (blocks s !! hdr_hashPrevBlock block) as [prev |] eqn:Hprev; [| by exists false, None, s].
  destruct (has_flag prev BLOCK_FAILED_MASK); [by exists false, None, s |].
  destruct (Hrules (ex_intro _ prev eq_refl)) as [e Ee]. rewrite Ee. cbn [mbind option_bind]. destruct e as [e |]; [by exists false, None, s |].
  pose proof (Htree (or_intror Ee)) as Hok.
  assert (exists r s', (if IsValid prev BLOCK_VALID_SCRIPTS then Some (false, s) else AcceptBlockHeader_failed
      (merge_sort (by_address addr) (elements (g_failed_blocks s))) (hdr_hashPrevBlock block) s) = Some (r, s') /\
      ready s' /\ evolves s s' /\ chainActive s' = chainActive s /\ (r = false -> s' = s)) as (r & s' & -> & Hr' & He & Ev & Hs').
  { destruct (IsValid prev BLOCK_VALID_SCRIPTS); [by exists false, s |].
    apply AcceptBlockHeader_failed_ready; [done | by rewrite Hprev |]. intros x Hx. rewrite merge_sort_Permutation in Hx.
    apply elem_of_elements in Hx. by apply (inv_failed _ _ _ _ (proj1 Hr)). }
  cbn [mbind option_bind]. destruct r; [by exists false, None, s' |]. rewrite Hs' by done.
  destruct (insert_header_ready hash block s Hr Hok) as (s2 & -> & Hr2 & Ev2 & Hin). exists true, (Some hash), s2. done.
Qed.

(** ** Blocks *)

(** The block [p] was received with [n] transactions. *)
Definition received_in p n s s' : Prop :=
  same_tree (blocks s) (blocks s') /\
  forall x c c', blocks s !! x = Some c -> blocks s' !! x = Some c' ->
    is_failed c' = is_failed c /\ nTx c' = if decide (x = p) then n else nTx c.

(** The chains that contain [p] are given up. *)
Definition refused_in p s s' : Prop :=
  same_index (blocks s) (blocks s') /\
  forall q, is_Some (blocks s !! q) -> sound (blocks s') q <-> sound (blocks s) q /\ ~ is_ancestor (blocks s) q p.

(** A block without data is marked failed. *)
Lemma fail_block_ready p b s s' :
  ready s -> blocks s !! p = Some b -> has_flag b BLOCK_HAVE_DATA = false ->
  s' = dirty p (with_blocks (<[p := set_flag BLOCK_FAILED_VALID b]> (blocks s)) s) ->
  ready s' /\ refused_in p s s'.
Proof using HL addr_inj.
  intros [Hs Hc] Hp Hd Es'. destruct (without_data parent valid world s p b Hs Hp Hd) as [Hn _].
  pose proof (inv_index _ _ _ _ Hs) as Hm. pose proof (proj1 (ok_tree _ _ Hm)) as Hst.
  assert (~ linked (blocks s) p) as Hnl by (intros (c & Hc' & Hcn); congruence).
  assert (p ∉ setBlockIndexCandidates s) as Hnc by (intros Hin; by apply Hnl, (inv_candidates _ _ _ _ Hs)).
  assert (marks {[ p ]} s s') as M.
  { subst s'. apply (marks_one BLOCK_FAILED_VALID p b); try done; [| by left]. cbn. set_solver. }
  split; [split |].
  - apply (marks_Inv _ _ _ {[ p ]} s s' M Hs). intros t x Ht ->%elem_of_singleton Ha. apply Hnl.
    apply (linked_ancestor _ _ t p Hm); [apply (inv_tip _ _ _ _ Hs t Ht) | done].
  - rewrite (marks_chain _ _ _ M). by apply (marks_complete addr {[ p ]} s s' M).
  - split; [apply M |]. intros q Hq. destruct (same_rel_lookup _ _ _ _ _ (marks_index _ _ _ M) Hp) as (b' & Hb' & _). split.
    + intros Hsq. split; [by apply (sound_marks_inv _ _ {[ p ]} s s') |]. intros Ha. apply (proj1 Hsq p).
      * by apply (is_ancestor_same _ _ _ _ (same_index_tree _ _ (marks_index _ _ _ M))).
      * exists b'. split; [done |]. apply (marks_flags _ _ _ M p b b' Hp Hb'). set_solver.
    + intros [[Hcl Hrp] Hna]. split; [| done]. apply (marks_clean {[ p ]} s s' M q Hq Hst Hcl). by intros x ->%elem_of_singleton.
Qed.

(** The block in memory connects like the one on disk. *)
Definition same_copy (a : BlockArrival) : Prop :=
  forall w, connect_block L w (Some (arr_block a)) (arr_hash a) = connect_block L w None (arr_hash a).

(** When a block may arrive: its header may, it is the block that is or will
    be on disk, and if it is stored the counters do not overflow and its parent
    is linked or not marked. *)
Record block_guard (a : BlockArrival) s : Prop := {
  bg_header : header_guard (arr_hash a) (arr_header a) s;
  bg_copy : same_copy a;
  bg_store p s1 b file pos :
    AcceptBlockHeader addr env (arr_hash a) (arr_cached a) (arr_powhash a) (arr_header a) s = Some (true, Some p, s1) ->
    blocks s1 !! p = Some b -> has_flag b BLOCK_HAVE_DATA = false -> arr_checked a = Passes -> arr_pos a = Some (file, pos) ->
    may_receive (arr_witness a) p (arr_tx a) file pos s1
}.

Definition permanent_failure (a : BlockArrival) : bool :=
  match arr_checked a with Fails permanent _ => permanent | Passes => false end.

(** What the results of [AcceptBlock] say of the block index. *)
Definition accepted (a : BlockArrival) (ret fNewBlock : bool) s s' : Prop :=
  match ret, fNewBlock with
  | false, false => evolves s s'
  | true, false => header_in (arr_hash a) (arr_header a) s s'
  | true, true => exists s1, header_in (arr_hash a) (arr_header a) s s1 /\ index_ok (blocks s1) /\
      received_in (arr_hash a) (arr_tx a) s1 s' /\ 0 < arr_tx a
  | false, true => exists s1, header_in (arr_hash a) (arr_header a) s s1 /\ index_ok (blocks s1) /\
      if permanent_failure a then refused_in (arr_hash a) s1 s' else blocks s' = blocks s1
  end.

Lemma header_in_lookup hash block s s' : header_in hash block s s' -> is_Some (blocks s' !! hash).
Proof.
  unfold header_in. destruct (blocks s !! hash) eqn:E; [intros ->; by rewrite E |].
  intros (new & -> & _). rewrite lookup_insert_eq. by eexists.
Qed.

Lemma AcceptBlock_ready a fRequested s :
  ready s -> block_guard a s ->
  exists ret fNewBlock s', AcceptBlock addr env a fRequested false s = Some (ret, fNewBlock, s') /\ ready s' /\
    chainActive s' = chainActive s /\ accepted a ret fNewBlock s s'.
Proof using HL addr_inj.
  intros Hr [Hhead _ Hstore]. unfold AcceptBlock.
  destruct (AcceptBlockHeader_ready (arr_hash a) (arr_cached a) (arr_powhash a) (arr_header a) s Hr Hhead) as (ok & op & s1 & E1 & Hr1 & Ev1 & Hok). rewrite E1. cbn [mbind option_bind].
  destruct ok; cbn [negb]; [| by exists false, false, s1]. destruct Hok as [-> Hin]. cbn [mbind option_bind].
  pose proof (inv_index _ _ _ _ (proj1 Hr1)) as Hm1. destruct (header_in_lookup _ _ _ _ Hin) as [b Hb]. rewrite Hb. cbn [mbind option_bind].
  assert (exists w, match Tip (chainActive s1) with
    | Some t => bt ← blocks s1 !! t; Some (0 <? CompareTo W256 (nChainWork b) (nChainWork bt)) | None => Some true end = Some w) as [w ->].
  { destruct (Tip (chainActive s1)) as [t |] eqn:Et; [| eauto].
    destruct (linked_lookup _ _ (proj1 (inv_tip _ _ _ _ (proj1 Hr1) t Et))) as [bt ->]. cbn. eauto. }
  cbn [mbind option_bind]. destruct (has_flag b BLOCK_HAVE_DATA) eqn:Hd; [by exists true, false, s1 |].
  destruct (negb fRequested && _); [by exists true, false, s1 |]. cbn [andb].
  destruct (arr_checked a) as [| permanent ignorable] eqn:Hch.
  - destruct (arr_pos a) as [[file pos] |] eqn:Hpos.
    + pose proof (Hstore _ s1 b file pos E1 Hb Hd eq_refl eq_refl) as Hmay.
      destruct (ReceivedBlockTransactions_ready addr addr_inj L parent valid world _ _ _ _ _ s1 Hr1 Hmay) as (s2 & -> & Hr2 & Ev2 & Heff).
      cbn [mbind option_bind]. exists true, true, s2. split; [done |]. split; [done |]. split; [congruence |]. exists s1. split; [done |].
      split; [done |]. split; [done |]. destruct Hmay as [_ Htx _]. lia.
    + exists false, true, s1. split; [done |]. split; [done |]. split; [done |]. exists s1. unfold permanent_failure. by rewrite Hch.
  - destruct permanent.
    + unfold change. rewrite Hb. cbn [mbind option_bind].
      destruct (fail_block_ready (arr_hash a) b s1 _ Hr1 Hb Hd eq_refl) as [Hr2 Href]. eexists false, true, _. split; [done |].
      split; [done |]. split; [done |]. exists s1. unfold permanent_failure. by rewrite Hch.
    + exists false, true, s1. split; [done |]. split; [done |]. split; [done |]. exists s1. unfold permanent_failure. by rewrite Hch.
Qed.

End Accept.
