(* ===== verification/BestChainRun.v ===== *)
(** * The active chain is the best chain

    The node as a state machine: headers and blocks arrive, the operator
    gives up, takes back and prefers blocks, the best chain is activated.
    Against it stands an abstract node that only knows the tree of headers,
    the blocks received and the blocks refused.  Whatever happens, no
    assertion fails, every operation returns, and when
    [ActivateBestChain] returns the active chain is a best chain of the
    abstract node and the ledger is the one this chain leads to. *)

From stdpp Require Import gmap sorting.
From S2P Require Import Prelude ArithUint256 Compact Chain ActiveChain BestChain AcceptBlock BestChainInv BestChainSelect.
From S2P Require Import Bytes Pow BestChainActivate BestChainSteps BestChainLink HeaderChecks BestChainAccept.
Set Default Proof Using "Type".

(** ** The abstract node *)

Record ChainSpec := mkSpec {
  sp_work : gmap ptr Z;         (* the known headers with the work of their chains *)
  sp_received : ptr -> Prop;
  sp_refused : ptr -> Prop
}.

Definition empty_spec : ChainSpec := mkSpec ∅ (fun _ => False) (fun _ => False).

(** The blocks of the chain that ends in [p]. *)
Inductive chain_of (parent : ptr -> option ptr) (p : ptr) : ptr -> Prop :=
| chain_of_last : chain_of parent p p
| chain_of_below q a : parent p = Some q -> chain_of parent q a -> chain_of parent p a.

Section Abstract.
Context (parent : ptr -> option ptr) (valid : ptr -> bool).
Implicit Types (sp : ChainSpec) (p q : ptr).

(** Every block of the chain is there, valid, and not refused. *)
Definition usable sp p : Prop :=
  is_Some (sp_work sp !! p) /\
  forall a, chain_of parent p a -> sp_received sp a /\ valid a = true /\ ~ sp_refused sp a.

(** A best chain: no usable chain has more work. *)
Definition best_chain sp (t : option ptr) : Prop :=
  match t with
  | None => forall q, ~ usable sp q
  | Some t => usable sp t /\ exists w, sp_work sp !! t = Some w /\
      forall q wq, usable sp q -> sp_work sp !! q = Some wq -> wq <= w
  end.

Definition spec_header (hash : Z) (block : CBlockHeader) sp : ChainSpec :=
  match sp_work sp !! hash with
  | Some _ => sp
  | None => mkSpec (<[hash := default 0 (sp_work sp !! hdr_hashPrevBlock block) + block_work (hdr_nBits block)]> (sp_work sp))
              (sp_received sp) (sp_refused sp)
  end.

Definition spec_receive p sp : ChainSpec :=
  mkSpec (sp_work sp) (fun x => x = p \/ sp_received sp x) (sp_refused sp).
Definition spec_refuse p sp : ChainSpec :=
  mkSpec (sp_work sp) (sp_received sp) (fun x => x = p \/ sp_refused sp x).
Definition spec_reconsider p sp : ChainSpec :=
  mkSpec (sp_work sp) (sp_received sp) (fun x => sp_refused sp x /\ ~ chain_of parent x p).

End Abstract.

(** ** The states that implement a state of the abstract node *)

Section Refines.
Context {W : Type} (parent : ptr -> option ptr) (valid : ptr -> bool) (world : option ptr -> W -> Prop).
Implicit Types (m : gmap ptr CBlockIndex) (s : ChainState W) (sp : ChainSpec) (p q : ptr).

Abbreviation index_ok := (index_ok parent).
Abbreviation good := (good parent valid).
Abbreviation sound := (sound parent valid).
Abbreviation chain_of := (chain_of parent).
Abbreviation Inv := (Inv parent valid world).
Abbreviation work b := (val256 (nChainWork b)).

(** No block of the chain breaks a rule or is refused. *)
Definition allowed_chain sp p : Prop := forall a, chain_of p a -> valid a = true /\ ~ sp_refused sp a.

Record refines sp s : Prop := {
  re_work p : sp_work sp !! p = (fun b => work b) <$> blocks s !! p;
  re_received p b : blocks s !! p = Some b -> sp_received sp p <-> 0 < nTx b;
  re_sound p : is_Some (blocks s !! p) -> sound (blocks s) p <-> allowed_chain sp p;
  re_known p : sp_received sp p \/ sp_refused sp p -> is_Some (blocks s !! p)
}.

Lemma chain_of_ancestor m p a : index_ok m -> is_Some (m !! p) -> chain_of p a <-> is_ancestor m p a.
Proof.
  intros Hm. pose proof (proj1 (ok_tree _ _ Hm)) as Hst. split.
  - intros Ha. revert H. induction Ha as [p | p q a Hq Ha IH]; intros [b Hp]; [apply is_ancestor_refl |].
    assert (pprev b = Some q) as Hbq by (rewrite (ok_parent _ _ Hm p b Hp); done).
    destruct (parent_height m Hst p b q Hp Hbq) as (bq & Hbq' & _).
    apply (is_ancestor_step m p b a Hp). right. exists q. split; [done |]. apply IH. eauto.
  - intros [n Hn]. revert p H Hn. induction n as [| n IH]; intros p [b Hp] Hn; cbn in Hn; [injection Hn as ->; constructor |].
    rewrite Hp in Hn. cbn in Hn. destruct (pprev b) as [q |] eqn:Hq; [| done]. cbn in Hn.
    destruct (parent_height m Hst p b q Hp Hq) as (bq & Hbq & _). apply (chain_of_below _ p q).
    + by rewrite <- (ok_parent _ _ Hm p b Hp).
    + apply IH; eauto.
Qed.

Lemma replayed_chain p : replayed parent valid (Some p) -> forall a, chain_of p a -> valid a = true.
Proof.
  intros Hr a Ha. induction Ha as [p | p q a Hq _ IH]; inversion Hr as [| ? Hp Hv]; subst; [done |].
  apply IH. by rewrite Hq in Hp.
Qed.

Lemma chain_known m p a : index_ok m -> is_Some (m !! p) -> chain_of p a -> is_Some (m !! a).
Proof.
  intros Hm [b Hp] Ha. apply (chain_of_ancestor m p a Hm ltac:(eauto)) in Ha.
  apply (is_ancestor_lookup _ (proj1 (ok_tree _ _ Hm)) p b a Hp Ha).
Qed.

Lemma chain_of_trans p q r : chain_of p q -> chain_of q r -> chain_of p r.
Proof. induction 1 as [p | p q' a Hq _ IH]; [done |]. intros Hr. apply (chain_of_below _ p q' r Hq). auto. Qed.

(** Two blocks of a chain are ordered. *)
Lemma chain_of_order x p a :
  chain_of x p -> chain_of x a -> chain_of a p \/ exists q, parent p = Some q /\ chain_of q a.
Proof.
  intros Hp. revert a. induction Hp as [x | x y p Hy Hp IH]; intros a Ha; inversion Ha as [| z ? Hz Hza]; subst.
  - left. constructor.
  - right. eauto.
  - left. by apply (chain_of_below _ a y).
  - rewrite Hy in Hz. injection Hz as <-. auto.
Qed.

Lemma replayed_below p a : replayed parent valid (Some p) -> chain_of p a -> replayed parent valid (Some a).
Proof.
  intros Hr Ha. induction Ha as [p | p q a Hq _ IH]; [done |]. apply IH. inversion Hr as [| ? Hp _]; subst. by rewrite Hq in Hp.
Qed.

Lemma replayed_all m p :
  index_ok m -> is_Some (m !! p) -> (forall a, chain_of p a -> valid a = true) -> replayed parent valid (Some p).
Proof.
  intros Hm [b Hp]. pose proof (proj1 (ok_tree _ _ Hm)) as Hst. remember (Z.to_nat (nHeight b)) as h eqn:Eh. revert p b Hp Eh.
  induction h as [h IH] using lt_wf_ind. intros p b Hp -> Hall. constructor; [| apply Hall; constructor].
  destruct (parent p) as [q |] eqn:Hq; [| constructor].
  destruct (parent_height m Hst p b q Hp ltac:(by rewrite (ok_parent _ _ Hm p b Hp))) as (bq & Hbq & ? & ?).
  apply (IH (Z.to_nat (nHeight bq)) ltac:(lia) q bq Hbq eq_refl). intros a Ha. apply Hall. by apply (chain_of_below _ p q).
Qed.

(** Ancestry is decided by the tree. *)
Lemma classic_ancestor m p q : index_ok m -> is_Some (m !! p) -> is_Some (m !! q) -> is_ancestor m p q \/ ~ is_ancestor m p q.
Proof.
  intros Hm [b Hp] [c Hq]. pose proof (proj1 (ok_tree _ _ Hm)) as Hst. pose proof (wf_height _ _ _ Hst Hq).
  destruct (decide (GetAncestor m p (nHeight c) = Some (Some q))) as [E | E].
  - left. rewrite (GetAncestor_eq _ p b _ Hst Hp) in E. injection E as E. unfold ancestor_at in E. rewrite Hp in E.
    cbn [mbind option_bind] in E. destruct (_ || _); [done |]. by eexists.
  - right. intros Ha. apply E. apply GetAncestor_descendant; eauto.
Qed.

(** Usable chains are those that can be active. *)
Lemma usable_good sp s p : Inv s -> refines sp s -> usable parent valid sp p <-> good (blocks s) p.
Proof.
  intros Hs Href. pose proof (inv_index _ _ _ _ Hs) as Hm. pose proof (proj1 (ok_tree _ _ Hm)) as Hst.
  assert (forall b a, blocks s !! p = Some b -> is_ancestor (blocks s) p a -> is_Some (blocks s !! a)) as Hlook
    by (intros b a Hp Ha; by apply (is_ancestor_lookup _ Hst p b)).
  split.
  - intros [Hk Hall]. assert (is_Some (blocks s !! p)) as Hp.
    { rewrite (re_work _ _ Href) in Hk. by apply fmap_is_Some in Hk. }
    split; [| apply (re_sound _ _ Href p Hp); intros a Ha; by apply Hall].
    apply (linked_received parent valid world s p Hs Hp). intros a Ha. destruct Hp as [b Hp].
    destruct (Hlook b a Hp Ha) as [c Hc]. exists c. split; [done |]. apply (re_received _ _ Href a c Hc).
    apply Hall, (chain_of_ancestor (blocks s)); eauto.
  - intros [Hl Hsd]. pose proof (linked_lookup _ _ Hl) as Hp. split.
    + rewrite (re_work _ _ Href). by apply fmap_is_Some.
    + intros a Ha. split; [| by apply (re_sound _ _ Href p Hp)].
      apply (chain_of_ancestor (blocks s)) in Ha; [| done | done].
      destruct (proj1 (linked_received parent valid world s p Hs Hp) Hl a Ha) as (c & Hc & Htx).
      by apply (re_received _ _ Href a c Hc).
Qed.

(** ** Effects that keep the correspondence *)

Lemma refines_same sp s s' :
  refines sp s -> same_counted (blocks s) (blocks s') ->
  (forall p, is_Some (blocks s !! p) -> sound (blocks s) p <-> sound (blocks s') p) -> refines sp s'.
Proof.
  intros [R1 R2 R3 R4] Hsame Hsd. pose proof (same_counted_sym _ _ Hsame) as Hsame'.
  assert (forall p, is_Some (blocks s' !! p) -> is_Some (blocks s !! p)) as Hback.
  { intros p [b Hb]. destruct (same_rel_lookup _ _ _ _ _ Hsame' Hb) as (b' & Hb' & _). eauto. }
  split.
  - intros p. rewrite R1. pose proof (Hsame p) as Hp. destruct (blocks s !! p), (blocks s' !! p); cbn in Hp; try done.
    cbn. do 2 f_equal. by destruct Hp as ((_ & _ & _ & E & _) & _).
  - intros p b Hb. destruct (same_rel_lookup _ _ _ _ _ Hsame' Hb) as (b' & Hb' & _ & -> & _). by apply R2.
  - intros p Hp. rewrite <- (Hsd p) by auto. apply R3. auto.
  - intros p Hp. destruct (R4 p Hp) as [b Hb]. destruct (same_rel_lookup _ _ _ _ _ Hsame Hb) as (b' & Hb' & _). eauto.
Qed.

Lemma refines_evolves sp s s' : refines sp s -> evolves parent valid s s' -> refines sp s'.
Proof. intros Href He. apply (refines_same sp s s' Href); [apply same_index_counted, He | apply He]. Qed.

Lemma sound_fresh m h new p :
  wf_store m -> m !! h = None -> is_Some (m !! p) -> sound (<[h := new]> m) p <-> sound m p.
Proof.
  intros Hst Hh [b Hp]. assert (clean (<[h := new]> m) p <-> clean m p) as Hc; [| unfold BestChainInv.sound; by rewrite Hc].
  split; intros Hcl a Ha (c & Hc & Hf).
  - apply (Hcl a); [by apply (is_ancestor_fresh m h new Hh Hst p a (ex_intro _ b Hp)) |]. exists c.
    rewrite lookup_insert_ne by congruence. done.
  - apply (is_ancestor_fresh m h new Hh Hst p a (ex_intro _ b Hp)) in Ha.
    destruct (is_ancestor_lookup _ Hst p b a Hp Ha) as [d Hd]. rewrite lookup_insert_ne in Hc by congruence.
    apply (Hcl a Ha). by exists c.
Qed.

(** The chain of a block is sound when the block is and its parent's is. *)
Lemma sound_step m p b :
  index_ok m -> m !! p = Some b ->
  sound m p <-> is_failed b = false /\ valid p = true /\ forall q, parent p = Some q -> sound m q.
Proof.
  intros Hm Hp. pose proof (ok_parent _ _ Hm p b Hp) as Epp. split.
  - intros [Hc Hr]. split; [| split].
    + destruct (is_failed b) eqn:E; [| done]. destruct (Hc p (is_ancestor_refl _ p)). by exists b.
    + by inversion Hr.
    + intros q Hq. split; [| inversion Hr; congruence]. intros a Ha. apply Hc.
      apply (is_ancestor_step m p b a Hp). right. exists q. split; [congruence | done].
  - intros (Hf & Hv & Hq). split.
    + apply (clean_step m p b Hp Hf). intros q Eq. apply Hq. congruence.
    + constructor; [| done]. destruct (parent p) as [q |] eqn:E; [by apply Hq | constructor].
Qed.

Lemma allowed_step sp p : allowed_chain sp p <->
  valid p = true /\ ~ sp_refused sp p /\ forall q, parent p = Some q -> allowed_chain sp q.
Proof.
  split.
  - intros H. destruct (H p (chain_of_last _ p)). split; [done |]. split; [done |]. intros q Hq a Ha. apply H. by apply (chain_of_below _ p q).
  - intros (H1 & H2 & H3) a Ha. inversion Ha as [| q ? Hq Hqa]; subst; [done |]. by apply (H3 q).
Qed.

Lemma refines_header sp s s' hash block :
  Inv s -> index_ok (blocks s') -> refines sp s -> header_in parent hash block s s' ->
  refines (spec_header hash block sp) s'.
Proof.
  intros Hs Hm' Href Hin. pose proof Href as [R1 R2 R3 R4]. unfold header_in in Hin. unfold spec_header. rewrite R1.
  destruct (blocks s !! hash) as [b |] eqn:Hh; cbn [fmap option_fmap option_map].
  { apply (refines_same sp s s' Href); rewrite Hin; [apply (same_rel_refl same_counts); apply _ | done]. }
  destruct Hin as (new & Eb & Hpp & Htx & _ & Hnf & Hw). pose proof (proj1 (ok_tree _ _ (inv_index _ _ _ _ Hs))) as Hst.
  assert (forall x, is_Some (blocks s !! x) -> x <> hash) as Hne by (intros x [c Hc]; congruence).
  split; cbn [sp_work sp_received sp_refused]; rewrite ?Eb.
  - intros p. destruct (decide (p = hash)) as [-> | Hp].
    + rewrite !lookup_insert_eq. cbn. f_equal. rewrite Hw, R1. by destruct (blocks s !! hdr_hashPrevBlock block).
    + rewrite !lookup_insert_ne by done. apply R1.
  - intros p b Hb. rewrite lookup_insert in Hb. case_decide as Hd; [| by apply R2]. injection Hb as <-. subst p.
    rewrite Htx. split; [| lia]. intros Hrec. by destruct (Hne hash (R4 hash (or_introl Hrec))).
  - intros p Hp. assert (forall q, is_Some (blocks s !! q) ->
      sound (<[hash := new]> (blocks s)) q <-> allowed_chain (mkSpec ∅ (sp_received sp) (sp_refused sp)) q) as Hold.
    { intros q Hq. rewrite (sound_fresh _ hash new q Hst Hh Hq). by apply R3. }
    destruct (decide (p = hash)) as [-> | Hph]; [| rewrite lookup_insert_ne in Hp by done; by apply Hold].
    rewrite Eb in Hm'. rewrite (sound_step _ hash new Hm' (lookup_insert_eq _ _ _)), allowed_step. cbn [sp_refused].
    assert (forall q, parent hash = Some q -> is_Some (blocks s !! q)) as Hpar.
    { intros q Hq. rewrite <- Hpp in Hq. destruct (parent_height _ (proj1 (ok_tree _ _ Hm')) hash new q (lookup_insert_eq _ _ _) Hq) as (c & Hc & ? & ?).
      rewrite lookup_insert in Hc. case_decide; [simplify_eq; lia | eauto]. }
    split; intros (H1 & H2 & H3).
    + split; [done |]. split; [intros Hrf; by destruct (Hne hash (R4 hash (or_intror Hrf))) |].
      intros q Hq. apply (Hold q (Hpar q Hq)). by apply H3.
    + split; [done |]. split; [done |]. intros q Hq. apply (Hold q (Hpar q Hq)). by apply H3.
  - intros p Hp. destruct (R4 p Hp) as [b Hb]. exists b. rewrite lookup_insert_ne by congruence. done.
Qed.

Lemma refines_receive sp s s' p n :
  0 < n -> is_Some (blocks s !! p) -> refines sp s -> received_in p n s s' -> refines (spec_receive p sp) s'.
Proof.
  intros Hn Hp [R1 R2 R3 R4] [Ht Heff].
  assert (forall x, is_Some (blocks s' !! x) -> is_Some (blocks s !! x)) as Hback.
  { intros x [b Hb]. pose proof (Ht x) as Hx. rewrite Hb in Hx. destruct (blocks s !! x); [eauto | done]. }
  assert (forall x, is_Some (blocks s !! x) -> is_Some (blocks s' !! x)) as Hforth.
  { intros x [b Hb]. destruct (same_rel_lookup _ _ _ _ _ Ht Hb) as (b' & Hb' & _). eauto. }
  split; cbn [sp_work sp_received sp_refused spec_receive].
  - intros x. rewrite R1. pose proof (Ht x) as Hx. destruct (blocks s !! x), (blocks s' !! x); cbn in Hx; try done.
    cbn. do 2 f_equal. by destruct Hx as (_ & _ & _ & E & _).
  - intros x b' Hb'. destruct (Hback x ltac:(eauto)) as [b Hb]. destruct (Heff x b b' Hb Hb') as [_ ->].
    rewrite (R2 x b Hb). case_decide; [subst; tauto |]. tauto.
  - intros x Hx. rewrite <- (R3 x) by auto.
    assert (forall a, failed (blocks s') a <-> failed (blocks s) a) as Hf.
    { intros a. split; intros (c & Hc & Hfc).
      - destruct (Hback a ltac:(eauto)) as [d Hd]. exists d. split; [done |]. by rewrite <- (proj1 (Heff a d c Hd Hc)).
      - destruct (Hforth a ltac:(eauto)) as [d Hd]. exists d. split; [done |]. by rewrite (proj1 (Heff a c d Hc Hd)). }
    unfold BestChainInv.sound, clean. setoid_rewrite Hf. setoid_rewrite <- (is_ancestor_same _ _ _ _ Ht). done.
  - intros x Hx. apply Hforth. destruct Hx as [[-> | Hx] | Hx]; auto.
Qed.

Lemma refines_refuse sp s s' p :
  index_ok (blocks s) -> is_Some (blocks s !! p) -> refines sp s -> refused_in parent valid p s s' ->
  refines (spec_refuse p sp) s'.
Proof.
  intros Hm Hp [R1 R2 R3 R4] [Hi Heff].
  assert (refines (mkSpec (sp_work sp) (sp_received sp) (sp_refused sp)) s) as Href by (by split).
  assert (forall x, is_Some (blocks s' !! x) -> is_Some (blocks s !! x)) as Hback.
  { intros x [b Hb]. destruct (same_rel_lookup _ _ _ _ _ (same_index_sym _ _ Hi) Hb) as (b' & Hb' & _). eauto. }
  split; cbn [sp_work sp_received sp_refused spec_refuse].
  - intros x. rewrite R1. pose proof (Hi x) as Hx. destruct (blocks s !! x), (blocks s' !! x); cbn in Hx; try done.
    cbn. do 2 f_equal. by destruct Hx as ((_ & _ & _ & E & _) & _).
  - intros x b Hb. destruct (same_rel_lookup _ _ _ _ _ (same_index_sym _ _ Hi) Hb) as (b' & Hb' & _ & _ & -> & _). by apply R2.
  - intros x Hx. rewrite (Heff x), (R3 x) by auto. rewrite <- (chain_of_ancestor (blocks s) x p Hm) by auto. split.
    + intros [Hall Hno] a Ha. destruct (Hall a Ha). split; [done |]. intros [-> | ?]; done.
    + intros Hall. split; [intros a Ha; destruct (Hall a Ha) as [? Hn]; split; [done |]; intros Hr; apply Hn; by right |].
      intros Hxp. destruct (Hall p Hxp) as [_ Hn]. apply Hn. by left.
  - intros x Hx. assert (is_Some (blocks s !! x)) as [b Hb] by (destruct Hx as [Hx | [-> | Hx]]; auto).
    destruct (same_rel_lookup _ _ _ _ _ Hi Hb) as (b' & Hb' & _). eauto.
Qed.

(** Taking back the refusals from [p] on, when nothing below [p] is marked. *)
Lemma refines_reconsider sp s s' p b :
  index_ok (blocks s) -> index_ok (blocks s') -> blocks s !! p = Some b -> refines sp s -> relaxes s s' ->
  (forall q, pprev b = Some q -> clean (blocks s) q) ->
  (forall q, is_Some (blocks s !! q) -> is_ancestor (blocks s) q p -> ~ failed (blocks s') q) ->
  (forall q, ~ is_ancestor (blocks s) q p -> blocks s' !! q = blocks s !! q) ->
  refines (spec_reconsider parent p sp) s'.
Proof.
  intros Hm Hm' Hp [R1 R2 R3 R4] Hrel Hcl Hun Hkeep. pose proof (rel_index _ _ Hrel) as Hi.
  assert (forall x, is_Some (blocks s' !! x) -> is_Some (blocks s !! x)) as Hback.
  { intros x [c Hc]. destruct (same_rel_lookup _ _ _ _ _ (same_index_sym _ _ Hi) Hc) as (c' & Hc' & _). eauto. }
  assert (forall x, is_Some (blocks s !! x) -> is_Some (blocks s' !! x)) as Hforth.
  { intros x [c Hc]. destruct (same_rel_lookup _ _ _ _ _ Hi Hc) as (c' & Hc' & _). eauto. }
  assert (forall x a, is_Some (blocks s !! x) -> chain_of x a <-> is_ancestor (blocks s) x a) as Hch
    by (intros; by apply chain_of_ancestor).
  split; cbn [sp_work sp_received sp_refused spec_reconsider].
  - intros x. rewrite R1. pose proof (Hi x) as Hx. destruct (blocks s !! x), (blocks s' !! x); cbn in Hx; try done.
    cbn. do 2 f_equal. by destruct Hx as ((_ & _ & _ & E & _) & _).
  - intros x c Hc. destruct (same_rel_lookup _ _ _ _ _ (same_index_sym _ _ Hi) Hc) as (c' & Hc' & _ & _ & -> & _). by apply R2.
  - intros x Hx. pose proof (Hback x Hx) as Hx0. destruct (classic_ancestor (blocks s) x p Hm Hx0 (ex_intro _ b Hp)) as [Hxp | Hxp].
    + apply (Hch x p Hx0) in Hxp. split.
      * intros [_ Hr] a Ha. split; [by apply (replayed_chain x) |]. intros [Hra Hnp].
        destruct (chain_of_order x p a Hxp Ha) as [? | (q & Hq & Hqa)]; [done |].
        assert (is_Some (blocks s !! q)) as Hqk by (apply (chain_known (blocks s) p q Hm); [by eexists | by apply (chain_of_below _ p q); [| constructor]]).
        assert (sound (blocks s) q) as Hsq.
        { split; [apply Hcl; by rewrite (ok_parent _ _ Hm p b Hp) |]. apply (replayed_below x q Hr).
          apply (chain_of_trans x p q Hxp). by apply (chain_of_below _ p q); [| constructor]. }
        by destruct (proj1 (R3 q Hqk) Hsq a Hqa).
      * intros Hall. split; [| apply (replayed_all (blocks s) x Hm Hx0); intros a Ha; by apply Hall].
        intros a Ha Hf. apply (is_ancestor_same _ _ _ _ (same_index_tree _ _ Hi)) in Ha.
        apply (Hch x a Hx0) in Ha. destruct (chain_of_order x p a Hxp Ha) as [Hap | (q & Hq & Hqa)].
        -- assert (is_Some (blocks s !! a)) as Hak by (by apply (chain_known (blocks s) x a Hm)).
           apply (Hun a Hak); [by apply Hch | done].
        -- apply (Hcl q ltac:(by rewrite (ok_parent _ _ Hm p b Hp)) a).
           ++ apply Hch; [| done]. apply (chain_known (blocks s) p q Hm); [by eexists |].
              by apply (chain_of_below _ p q); [| constructor].
           ++ by apply (rel_failed _ _ Hrel).
    + rewrite <- (Hch x p Hx0) in Hxp.
      assert (forall a, chain_of x a -> ~ chain_of a p) as Hoff
        by (intros a Ha Hap; apply Hxp; by apply (chain_of_trans x a p)).
      assert (sound (blocks s') x <-> sound (blocks s) x) as ->.
      { unfold BestChainInv.sound, clean. setoid_rewrite <- (is_ancestor_same _ _ _ _ (same_index_tree _ _ Hi)).
        assert (forall a, is_ancestor (blocks s) x a -> failed (blocks s') a <-> failed (blocks s) a) as Hf.
        { intros a Ha. apply (Hch x a Hx0) in Ha. unfold failed. rewrite Hkeep; [done |].
          rewrite <- Hch; [by apply Hoff |]. by apply (chain_known (blocks s) x a Hm). }
        split; intros [Hc Hr]; (split; [| done]); intros a Ha Hfa; by apply (Hc a Ha), (Hf a Ha). }
      rewrite (R3 x Hx0). split; intros Hall a Ha; destruct (Hall a Ha) as [? Hn]; (split; [done |]).
      * by intros [? _].
      * intros Hr. apply Hn. split; [done |]. by apply Hoff.
  - intros x Hx. apply Hforth, R4. destruct Hx as [? | [? _]]; auto.
Qed.

End Refines.

(** ** The node as a state machine *)

Inductive Op :=
| OpHeader (env : NodeEnv) (hash : Z) (cached powhash : list Z) (block : CBlockHeader)
| OpBlock (env : NodeEnv) (a : BlockArrival) (fForceProcessing : bool)
| OpInvalidate (p : ptr)
| OpReconsider (p : ptr)
| OpPrecious (p : ptr)
| OpActivate.

Section Machine.
Context {W : Type}.
Variable addr : ptr -> Z.
Context (L : Ledger W) (parent : ptr -> option ptr) (valid : ptr -> bool) (world : option ptr -> W -> Prop).
Implicit Types (s : ChainState W) (sp : ChainSpec) (p q : ptr).

(** The results are the return value and, of a block, [fNewBlock]. *)
Definition exec (fuel : nat) (op : Op) s : option (bool * bool * ChainState W) :=
  match op with
  | OpHeader env hash cached powhash block =>
      '(ok, _, s) ← AcceptBlockHeader addr env hash cached powhash block s; Some (ok, false, s)
  | OpBlock env a force => ProcessNewBlock addr L env fuel a force s
  | OpInvalidate p => '(ok, s) ← InvalidateBlock addr L p s; Some (ok, false, s)
  | OpReconsider p => s ← ResetBlockFailureFlags addr p s; Some (true, false, s)
  | OpPrecious p => '(ok, s) ← PreciousBlock addr L fuel p s; Some (ok, false, s)
  | OpActivate => '(ok, s) ← ActivateBestChain addr L fuel None s; Some (ok, false, s)
  end.

(** What the abstract node learns from the results. *)
Definition spec_step (op : Op) (ret fNewBlock : bool) sp : ChainSpec :=
  match op with
  | OpHeader _ hash _ _ block => if ret then spec_header hash block sp else sp
  | OpBlock _ a _ =>
      match ret, fNewBlock with
      | false, false => sp
      | true, false => spec_header (arr_hash a) (arr_header a) sp
      | true, true => spec_receive (arr_hash a) (spec_header (arr_hash a) (arr_header a) sp)
      | false, true =>
          let sp := spec_header (arr_hash a) (arr_header a) sp in
          if permanent_failure a then spec_refuse (arr_hash a) sp else sp
      end
  | OpInvalidate p => spec_refuse p sp
  | OpReconsider p => spec_reconsider parent p sp
  | OpPrecious _ | OpActivate => sp
  end.

(** When an operation may be called.  The root of the tree is never given
    up; a block is reconsidered when no block below it is marked. *)
Definition allowed (op : Op) s : Prop :=
  match op with
  | OpHeader env hash cached powhash block => header_guard parent env hash block s
  | OpBlock env a _ => arr_first_check a = true -> block_guard addr L parent env a s
  | OpInvalidate p => is_Some (Tip (chainActive s)) /\ exists b, blocks s !! p = Some b /\ is_Some (pprev b)
  | OpReconsider p => is_Some (Tip (chainActive s)) /\
      exists b, blocks s !! p = Some b /\ forall q, pprev b = Some q -> clean (blocks s) q
  | OpPrecious p => exists b t bt, blocks s !! p = Some b /\ Tip (chainActive s) = Some t /\ blocks s !! t = Some bt /\
      precious_id s bt <= nSequenceId b
  | OpActivate => True
  end.

(** The node before its first block. *)
Definition initial (w : W) : ChainState W :=
  mkChainState (mkBIState ∅ None ∅) [] ∅ [] None ∅ 1 (-1) (of_u64 0) w.

Inductive reachable : ChainSpec -> ChainState W -> Prop :=
| reachable_initial w : world None w -> reachable empty_spec (initial w)
| reachable_step sp s op fuel ret fNewBlock s' :
    reachable sp s -> allowed op s -> exec fuel op s = Some (ret, fNewBlock, s') ->
    reachable (spec_step op ret fNewBlock sp) s'.

(** ** Fuel *)

Lemma ActivateBestChain_loop_mono pblock : forall fuel fuel' mw s r,
  (fuel <= fuel')%nat -> ActivateBestChain_loop addr L fuel pblock mw s = Some r ->
  ActivateBestChain_loop addr L fuel' pblock mw s = Some r.
Proof.
  induction fuel as [| fuel IH]; intros fuel' mw s r Hle; destruct fuel' as [| fuel']; try lia; cbn [ActivateBestChain_loop];
    (destruct (ActivateBestChain_round addr L pblock mw s) as [[ok s1 | mw1 s1] |]; cbn [mbind option_bind]; [done | | done]); [done | done |].
  apply IH. lia.
Qed.

Lemma exec_mono fuel fuel' op s r : (fuel <= fuel')%nat -> exec fuel op s = Some r -> exec fuel' op s = Some r.
Proof.
  intros Hle. destruct op; cbn [exec]; try done.
  - unfold ProcessNewBlock. destruct (arr_first_check a); [| done].
    destruct (AcceptBlock _ _ _ _ _ _) as [[[ret new] s1] |]; cbn [mbind option_bind]; [| done]. destruct (negb ret); [done |].
    unfold ActivateBestChain. destruct (ActivateBestChain_loop _ _ fuel _ _ _) as [r' |] eqn:E; [| done].
    by rewrite (ActivateBestChain_loop_mono _ fuel fuel' _ _ _ Hle E).
  - unfold PreciousBlock. destruct (PreciousBlock_mark _ _ _) as [[go s1] |]; cbn [mbind option_bind]; [| done].
    destruct go; [| done]. unfold ActivateBestChain. destruct (ActivateBestChain_loop _ _ fuel _ _ _) as [r' |] eqn:E; [| done].
    by rewrite (ActivateBestChain_loop_mono _ fuel fuel' _ _ _ Hle E).
  - unfold ActivateBestChain. destruct (ActivateBestChain_loop _ _ fuel _ _ _) as [r' |] eqn:E; [| done].
    by rewrite (ActivateBestChain_loop_mono _ fuel fuel' _ _ _ Hle E).
Qed.

(** ** Every operation returns and keeps the correspondence *)

Hypothesis addr_inj : forall p q, addr p = addr q -> p = q.
Context {HL : LedgerOk L parent valid world}.

Abbreviation ready := (ready addr parent valid world).
Abbreviation refines := (refines parent valid).

(** With enough fuel the operation returns; the new state is as the abstract
    node says. *)
Definition simulates (op : Op) sp s : Prop :=
  exists n ret fNewBlock s', (forall fuel, (n <= fuel)%nat -> exec fuel op s = Some (ret, fNewBlock, s')) /\
    ready s' /\ refines (spec_step op ret fNewBlock sp) s'.

Lemma simulates_header env hash cached powhash block sp s :
  ready s -> refines sp s -> header_guard parent env hash block s ->
  simulates (OpHeader env hash cached powhash block) sp s.
Proof using HL addr_inj.
  intros Hr Href Hg.
  destruct (AcceptBlockHeader_ready addr addr_inj L parent valid world env hash cached powhash block s Hr Hg) as (ok & op & s' & E & Hr' & _ & Heff).
  exists 0%nat, ok, false, s'. split; [intros fuel _; cbn [exec]; by rewrite E |]. split; [done |]. cbn [spec_step].
  destruct ok; [| by apply (refines_evolves parent valid sp s)].
  apply (refines_header parent valid world sp s s'); [apply Hr | apply (inv_index _ _ _ _ (proj1 Hr')) | done | apply Heff].
Qed.

Lemma refines_accepted a ret fNewBlock env force sp s s' :
  ready s -> ready s' -> refines sp s -> accepted parent valid a ret fNewBlock s s' ->
  refines (spec_step (OpBlock env a force) ret fNewBlock sp) s'.
Proof.
  intros Hr Hr' Href Hacc. unfold accepted in Hacc. cbn [spec_step].
  assert (forall s1, BestChainInv.index_ok parent (blocks s1) -> header_in parent (arr_hash a) (arr_header a) s s1 ->
    refines (spec_header (arr_hash a) (arr_header a) sp) s1) as Hhead
    by (intros s1 Hm1 Hin; apply (refines_header parent valid world sp s s1); [apply Hr | done | done | done]).
  pose proof (inv_index _ _ _ _ (proj1 Hr')) as Hm'. destruct ret, fNewBlock.
  - destruct Hacc as (s1 & Hin & Hm1 & Hrec & Htx). apply (refines_receive parent valid _ s1 s' _ (arr_tx a)); auto.
    by apply (header_in_lookup parent (arr_hash a) (arr_header a) s).
  - by apply Hhead.
  - destruct Hacc as (s1 & Hin & Hm1 & Hres). destruct (permanent_failure a).
    + apply (refines_refuse parent valid _ s1); auto. by apply (header_in_lookup parent (arr_hash a) (arr_header a) s).
    + apply (refines_same parent valid _ s1); [auto | |]; rewrite Hres; [apply (same_rel_refl same_counts); apply _ | done].
  - by apply (refines_evolves parent valid sp s).
Qed.

Lemma ActivateBestChain_refines sp s :
  ready s -> refines sp s ->
  exists n s', (forall fuel, (n <= fuel)%nat -> ActivateBestChain addr L fuel None s = Some (true, s')) /\
    ready s' /\ refines sp s' /\ best_chain parent valid sp (Tip (chainActive s')).
Proof using HL addr_inj.
  intros Hr Href. destruct (ActivateBestChain_ready addr addr_inj L parent valid world s Hr) as (n & s' & E & Hr' & He & Hset).
  exists n, s'. split; [done |]. split; [done |]. pose proof (refines_evolves parent valid sp s s' Href He) as Href'.
  split; [done |]. pose proof (proj1 Hr') as Hs'. unfold settled in Hset. unfold best_chain.
  pose proof (fun q => usable_good parent valid world sp s' q Hs' Href') as Hug.
  destruct (Tip (chainActive s')) as [t |] eqn:Ht.
  - pose proof (inv_tip _ _ _ _ Hs' t Ht) as Hg. split; [by apply Hug |].
    destruct (good_unmarked _ _ _ _ Hg) as (bt & Hbt & _). exists (val256 (nChainWork bt)).
    rewrite (re_work _ _ _ _ Href'), Hbt. split; [done |]. intros q wq Hq Hwq. apply Hug in Hq.
    destruct (good_unmarked _ _ _ _ Hq) as (bq & Hbq & Hnq & Hfq). rewrite (re_work _ _ _ _ Href'), Hbq in Hwq. injection Hwq as <-.
    destruct (Z_lt_le_dec (val256 (nChainWork bt)) (val256 (nChainWork bq))) as [Hlt |]; [| done].
    destruct (Hset q bq Hbq Hnq Hfq). exists bt, bq. auto.
  - intros q Hq. apply Hug in Hq. destruct (good_unmarked _ _ _ _ Hq) as (bq & Hbq & Hnq & Hfq).
    rewrite (Hset q bq Hbq Hnq) in Hfq. done.
Qed.

Lemma simulates_block env a force sp s :
  ready s -> refines sp s -> (arr_first_check a = true -> block_guard addr L parent env a s) -> simulates (OpBlock env a force) sp s.
Proof using HL addr_inj.
  intros Hr Href Hg. unfold simulates. cbn [exec]. unfold ProcessNewBlock.
  destruct (arr_first_check a); [| by exists 0%nat, false, false, s]. pose proof (bg_copy _ _ _ _ _ _ (Hg eq_refl)) as Hcopy.
  destruct (AcceptBlock_ready addr addr_inj L parent valid world env a force s Hr (Hg eq_refl)) as (ret & new & s1 & E & Hr1 & _ & Hacc).
  pose proof (refines_accepted a ret new env force sp s s1 Hr Hr1 Href Hacc) as Href1. rewrite E. cbn [mbind option_bind].
  destruct ret; cbn [negb]; [| by exists 0%nat, false, new, s1].
  destruct (ActivateBestChain_refines _ s1 Hr1 Href1) as (n & s' & Ea & Hr' & Href' & _). exists n, true, new, s'. split; [| done].
  intros fuel Hf. by rewrite (ActivateBestChain_copy addr L _ _ Hcopy), (Ea fuel Hf).
Qed.

Lemma simulates_precious p sp s : ready s -> refines sp s -> allowed (OpPrecious p) s -> simulates (OpPrecious p) sp s.
Proof using HL addr_inj.
  intros Hr Href (b & t & bt & Hp & Ht & Hbt & Hid). unfold simulates. cbn [exec spec_step]. unfold PreciousBlock.
  destruct (PreciousBlock_ready addr addr_inj L parent valid world p b t bt s Hr Hp Ht Hbt Hid) as (go & s1 & -> & Hr1 & Hcnt & Hst).
  cbn [mbind option_bind]. assert (refines sp s1) as Href1.
  { apply (refines_same parent valid sp s s1 Href Hcnt). intros x Hx.
    assert (forall a, failed (blocks s) a <-> failed (blocks s1) a) as Hf.
    { intros a. split; intros (c & Hc & Hfc);
        [destruct (same_rel_lookup _ _ _ _ _ Hcnt Hc) as (c' & Hc' & _); pose proof (Hst a c c' Hc Hc') as E
        |destruct (same_rel_lookup _ _ _ _ _ (same_counted_sym _ _ Hcnt) Hc) as (c' & Hc' & _); pose proof (Hst a c' c Hc' Hc) as E];
        exists c'; (split; [done |]); unfold has_flag in *; congruence. }
    unfold BestChainInv.sound, clean. setoid_rewrite Hf. setoid_rewrite (is_ancestor_same _ _ _ _ (same_counted_tree _ _ Hcnt)). done. }
  destruct go; [| by exists 0%nat, true, false, s1].
  destruct (ActivateBestChain_refines _ s1 Hr1 Href1) as (n & s' & Ea & Hr' & Href' & _). exists n, true, false, s'. split; [| done].
  intros fuel Hf. by rewrite (Ea fuel Hf).
Qed.

Lemma allowed_simulates op sp s : ready s -> refines sp s -> allowed op s -> simulates op sp s.
Proof using HL addr_inj.
  intros Hr Href Hok. pose proof (inv_index _ _ _ _ (proj1 Hr)) as Hm. destruct op as [env hash cached powhash block | env a force | p | p | p |].
  - by apply simulates_header.
  - by apply simulates_block.
  - destruct Hok as (Ht & b & Hp & Hpp).
    destruct (InvalidateBlock_ready addr addr_inj L parent valid world p b s Hr Hp Hpp Ht) as (s' & E & Hr' & _ & Heff).
    exists 0%nat, true, false, s'. split; [intros fuel _; cbn [exec]; by rewrite E |]. split; [done |].
    apply (refines_refuse parent valid sp s); auto.
  - destruct Hok as (Ht & b & Hp & Hcl).
    destruct (ResetBlockFailureFlags_ready addr addr_inj L parent valid world p b s Hr Ht Hp Hcl) as (s' & E & Hr' & Hrel & Hun & Hkeep).
    exists 0%nat, true, false, s'. split; [intros fuel _; cbn [exec]; by rewrite E |]. split; [done |].
    apply (refines_reconsider parent valid sp s s' p b); try done. apply (inv_index _ _ _ _ (proj1 Hr')).
  - by apply simulates_precious.
  - destruct (ActivateBestChain_refines sp s Hr Href) as (n & s' & Ea & Hr' & Href' & _). exists n, true, false, s'. split; [| done].
    intros fuel Hf. cbn [exec]. by rewrite (Ea fuel Hf).
Qed.

Lemma initial_ready w : world None w -> ready (initial w) /\ refines empty_spec (initial w).
Proof.
  intros Hw. split; [split; [split |] |]; cbn; try done.
  - by intros e He%elem_of_nil.
  - by constructor.
  - split; [done | done | by intros p [b Hb] | by intros p [[] | []]].
Qed.

Lemma reachable_ready sp s : reachable sp s -> ready s /\ refines sp s.
Proof using HL addr_inj.
  induction 1 as [w Hw | sp s op fuel ret new s' _ [Hr Href] Hok E]; [by apply initial_ready |].
  destruct (allowed_simulates op sp s Hr Href Hok) as (n & ret1 & new1 & s1 & E1 & Hr1 & Href1).
  apply (exec_mono fuel (fuel + n) _ _ _ ltac:(lia)) in E. rewrite E1 in E by lia. by injection E as <- <- <-.
Qed.


(** The best chain is activated from every state the node reaches. *)
Lemma reachable_best sp s :
  reachable sp s ->
  exists n s', (forall fuel, (n <= fuel)%nat -> ActivateBestChain addr L fuel None s = Some (true, s')) /\
    best_chain parent valid sp (Tip (chainActive s')) /\ world (Tip (chainActive s')) (ledger s').
Proof using HL addr_inj.
  intros Hreach. destruct (reachable_ready sp s Hreach) as [Hr Href].
  destruct (ActivateBestChain_refines sp s Hr Href) as (n & s' & E & Hr' & _ & Hbest).
  exists n, s'. split; [done |]. split; [done |]. apply (inv_ledger _ _ _ _ (proj1 Hr')).
Qed.

End Machine.

(** ** Concrete runs *)

Section Runs.
Context {W : Type}.
Variable addr : ptr -> Z.
Context (L : Ledger W) (parent : ptr -> option ptr) (world : option ptr -> W -> Prop).
Implicit Types (s : ChainState W) (p : ptr).

(** Sufficient conditions for [allowed] that can be computed; [check_copy]
    is such a condition for [same_copy]. *)
Variable check_copy : BlockArrival -> bool.
Hypothesis check_copy_sound : forall a, check_copy a = true -> same_copy L a.

Definition check_limit (limit : list Z) : bool :=
  (length limit =? 32)%nat && forallb (fun b => (0 <=? b) && (b <? 256)) limit.
Definition check_params (params : PowParams) : bool :=
  check_limit (powLimit params) && (2 <=? length (powTypeLimits params))%nat && forallb check_limit (powTypeLimits params) &&
  (0 <? nPowTargetSpacing params) && (nPowTargetSpacing params <? 2 ^ 30) &&
  (nPowTargetSpacing params <=? nPowTargetTimespan params) && (nPowTargetTimespan params <? 2 ^ 62).
Definition check_words (params : PowParams) (m : gmap ptr CBlockIndex) : bool :=
  bool_decide (map_Forall (fun _ b => (0 <= nBits b < 2 ^ 32) /\ (is_Some (pprev b) \/ nTime b < pow_powForkTime params)) m).
(** Outside the window of the second LWMA rule. *)
Definition check_window (params : PowParams) (m : gmap ptr CBlockIndex) (block : CBlockHeader) : bool :=
  match m !! hdr_hashPrevBlock block with
  | None => true
  | Some prev => (nTime prev <=? pow_powForkTime params) || (nHeight prev <? diffRetargetFix params) ||
                 (diffRetargetTake2 params <=? GetBlockTime prev)
  end.
Definition check_checkable (env : NodeEnv) (m : gmap ptr CBlockIndex) (block : CBlockHeader) : bool :=
  check_params (env_params env) && check_words (env_params env) m && (0 <=? nMaxReorgDepth env) &&
  ((hdr_nTime block <=? diffRetargetTake2 (env_params env)) || (GetPoWType (hdr_nVersion block) <? NUM_BLOCK_TYPES)) &&
  check_window (env_params env) m block.

Lemma check_limit_sound limit : check_limit limit = true -> limit_wf limit.
Proof.
  unfold check_limit. rewrite andb_true_iff, forallb_forall. intros [Hl Hb]. split; [by apply Nat.eqb_eq |].
  apply Forall_forall. intros b Hin. apply list_elem_of_In, Hb in Hin. rewrite andb_true_iff in Hin. unfold byte_ok. lia.
Qed.

Lemma check_params_sound params : check_params params = true -> params_ok params.
Proof.
  unfold check_params. rewrite !andb_true_iff, forallb_forall. intros [[[[[[H1 H2] H3] H4] H5] H6] H7].
  split; [by apply check_limit_sound | split; [by apply Nat.leb_le |] | lia | lia].
  apply Forall_forall. intros l Hin. by apply check_limit_sound, H3, list_elem_of_In.
Qed.

Lemma check_checkable_sound env m block : check_checkable env m block = true -> checkable env m block.
Proof.
  unfold check_checkable. rewrite !andb_true_iff, orb_true_iff. intros [[[[H1 H2] H3] H4] H5]. split.
  - by apply check_params_sound.
  - apply bool_decide_eq_true in H2. split; intros p b Hp; destruct (H2 p b Hp) as [Hb Hr]; [done |]. intros Hn. rewrite Hn in Hr.
    by destruct Hr as [[] |].
  - lia.
  - lia.
  - intros prev Hp Ht _ Hh Hg. unfold check_window in H5. rewrite Hp, !orb_true_iff in H5. lia.
Qed.

Definition check_header_ok (hash : Z) (block : CBlockHeader) s : bool :=
  negb (hash =? hdr_hashPrevBlock block) && (0 <=? hdr_nBits block) && (hdr_nBits block <? 2 ^ 32) &&
  match blocks s !! hash, blocks s !! hdr_hashPrevBlock block with
  | Some _, _ => true
  | None, Some b => bool_decide (parent hash = Some (hdr_hashPrevBlock block)) && (0 <? block_work (hdr_nBits block)) &&
      (val256 (nChainWork b) + block_work (hdr_nBits block) <? 2 ^ 256)
  | None, None => bool_decide (parent hash = None)
  end.

Definition check_header (env : NodeEnv) (hash : Z) (block : CBlockHeader) s : bool :=
  check_checkable env (blocks s) block && check_header_ok hash block s.

Definition check_receive (witness : bool) p (n file pos : Z) s : bool :=
  match blocks s !! p with
  | None => false
  | Some b =>
      let m := <[p := received_entry witness n file pos b]> (blocks s) in
      negb (has_flag b BLOCK_FAILED_MASK) &&
      bool_decide (map_Forall (fun p b => chain_tx (Z.to_nat (nHeight b)) m p < 2 ^ 32) m) &&
      match pprev b with
      | Some q => match blocks s !! q with Some bq => negb (has_flag bq BLOCK_FAILED_MASK) | None => false end
      | None => true
      end
  end && (0 <? n) && (n <? 2 ^ 32) &&
  (nBlockSequenceId s + Z.of_nat (length (mapBlocksUnlinked s)) + 1 <? 2 ^ 31).

(** No block of the chain of [p] is marked. *)
Fixpoint check_clean (n : nat) (m : gmap ptr CBlockIndex) p : bool :=
  match m !! p with
  | None => true
  | Some b => negb (has_flag b BLOCK_FAILED_MASK) &&
      match pprev b with
      | None => true
      | Some q => match n with O => false | S n => check_clean n m q end
      end
  end.

Definition check_op (op : Op) s : bool :=
  match op with
  | OpHeader env hash cached powhash block => check_header env hash block s
  | OpBlock env a _ =>
      check_header env (arr_hash a) (arr_header a) s && check_copy a &&
      match AcceptBlockHeader addr env (arr_hash a) (arr_cached a) (arr_powhash a) (arr_header a) s, arr_pos a, arr_checked a with
      | Some (true, Some p, s1), Some (file, pos), Passes => check_receive (arr_witness a) p (arr_tx a) file pos s1
      | _, _, _ => true
      end
  | OpInvalidate p =>
      bool_decide (is_Some (Tip (chainActive s))) &&
      match blocks s !! p with Some b => bool_decide (is_Some (pprev b)) | None => false end
  | OpReconsider p =>
      bool_decide (is_Some (Tip (chainActive s))) &&
      match blocks s !! p with
      | Some b => match pprev b with Some q => check_clean (Z.to_nat (nHeight b)) (blocks s) q | None => true end
      | None => false
      end
  | OpPrecious p =>
      match blocks s !! p, t ← Tip (chainActive s); blocks s !! t with
      | Some b, Some bt => precious_id s bt <=? nSequenceId b
      | _, _ => false
      end
  | OpActivate => true
  end.

Lemma check_header_sound env hash block s :
  check_header env hash block s = true -> header_guard parent env hash block s.
Proof.
  unfold check_header, check_header_ok. rewrite !andb_true_iff. intros [H1 [[[H3 H4] H5] H6]].
  split; [by apply check_checkable_sound |].
  intros _. apply negb_true_iff, Z.eqb_neq in H3. apply Z.leb_le in H4. apply Z.ltb_lt in H5. split; [done |]. split; [done |].
  intros Hn. rewrite Hn in H6. destruct (blocks s !! hdr_hashPrevBlock block); [| by apply bool_decide_eq_true in H6].
  rewrite !andb_true_iff in H6. destruct H6 as [[H6 H7] H8]. apply bool_decide_eq_true in H6. apply Z.ltb_lt in H7, H8. done.
Qed.

Lemma check_receive_sound witness p n file pos s :
  (forall b, blocks s !! p = Some b -> has_flag b BLOCK_HAVE_DATA = false) ->
  check_receive witness p n file pos s = true -> may_receive witness p n file pos s.
Proof.
  unfold check_receive. rewrite !andb_true_iff. intros Hd [[[H1 H2] H3] H4]. apply Z.ltb_lt in H2, H3, H4.
  destruct (blocks s !! p) as [b |] eqn:Hp; [| done]. rewrite !andb_true_iff in H1. destruct H1 as [[H1 H5] H6].
  split; [| done | lia]. exists b. apply negb_true_iff in H1. apply bool_decide_eq_true in H5.
  split; [done |]. split; [done |]. split; [by apply Hd |]. split; [exact H5 |]. intros q Hq. rewrite Hq in H6.
  destruct (blocks s !! q) as [bq |] eqn:Hbq; [| done]. left. intros (c & Hc & Hf). rewrite Hbq in Hc. injection Hc as <-.
  by rewrite Hf in H6.
Qed.

Lemma check_clean_sound m : forall n p, check_clean n m p = true -> clean m p.
Proof.
  induction n as [| n IH]; intros p; cbn [check_clean]; (destruct (m !! p) as [b |] eqn:Hp;
    [rewrite andb_true_iff, negb_true_iff; intros [Hf Hq]; apply (clean_step m p b Hp Hf); intros q Hbq; rewrite Hbq in Hq;
     first [done | by apply IH]
    | intros _ a [k Hk] (c & Hc & _); destruct k; cbn in Hk; [injection Hk as <-; congruence | by rewrite Hp in Hk]]).
Qed.

Lemma check_op_sound op s : check_op op s = true -> allowed addr L parent op s.
Proof using check_copy_sound.
  destruct op as [env hash cached powhash block | env a force | p | p | p |]; cbn [check_op allowed]; try done.
  - apply check_header_sound.
  - rewrite !andb_true_iff. intros [[H1 H3] H2] _. split; [by apply check_header_sound | by apply check_copy_sound |].
    intros p s1 b file pos E Hb Hd Hch Hpos. rewrite E, Hpos, Hch in H2. apply check_receive_sound; [| done].
    intros b' Hb'. rewrite Hb in Hb'. by injection Hb' as <-.
  - rewrite andb_true_iff. intros [H1 H2]. apply bool_decide_eq_true in H1. split; [done |].
    destruct (blocks s !! p) as [b |]; [| done]. apply bool_decide_eq_true in H2. eauto.
  - rewrite andb_true_iff. intros [H1 H2]. apply bool_decide_eq_true in H1. split; [done |].
    destruct (blocks s !! p) as [b |]; [| done]. exists b. split; [done |]. intros q Hq. rewrite Hq in H2.
    by apply (check_clean_sound _ (Z.to_nat (nHeight b))).
  - destruct (blocks s !! p) as [b |] eqn:Hp; [| done]. destruct (Tip (chainActive s)) as [t |]; [| done]. cbn [mbind option_bind].
    destruct (blocks s !! t) as [bt |] eqn:Ht; [| done]. intros Hid%Z.leb_le. exists b, t, bt. done.
Qed.

(** A run of operations, each of them checked; the abstract node follows. *)
Fixpoint run_checked (fuel : nat) (ops : list Op) (sp : ChainSpec) s : option (ChainSpec * ChainState W) :=
  match ops with
  | [] => Some (sp, s)
  | op :: ops =>
      if check_op op s then
        '(ret, fNewBlock, s) ← exec addr L fuel op s;
        run_checked fuel ops (spec_step parent op ret fNewBlock sp) s
      else None
  end.

Lemma run_checked_reachable fuel ops : forall sp s sp' s',
  reachable addr L parent world sp s -> run_checked fuel ops sp s = Some (sp', s') -> reachable addr L parent world sp' s'.
Proof using check_copy_sound.
  induction ops as [| op ops IH]; intros sp s sp' s' Hreach; cbn [run_checked]; [by intros [= <- <-] |].
  destruct (check_op op s) eqn:Hc; [| done]. destruct (exec addr L fuel op s) as [[[ret new] s1] |] eqn:E; [| done].
  cbn [mbind option_bind]. apply IH. apply (reachable_step addr L parent world sp s op fuel ret new s1 Hreach); [| done].
  by apply check_op_sound.
Qed.

End Runs.
