(* ===== verification/ChainLedger.v ===== *)
(** * The coins of the active chain

    The interface [Ledger] of the chain selection implemented by the coin
    part of [ConnectBlock] and [DisconnectBlock] ([BlockUndo.v]): a view over
    the coins, as [ConnectTip] and [DisconnectTip] make one, the undo record
    that connecting a block writes once and disconnecting it reads, and the
    coins that result.  The node's coins are then always those of replaying the
    blocks of its active chain. *)

From stdpp Require Import gmap sorting.
From S2P Require Import Prelude ArithUint256 Compact Chain ActiveChain Coins CoinsRefine BlockUndo BestChain AcceptBlock.
From S2P Require Import BestChainInv BestChainSelect BestChainActivate BestChainSteps BestChainLink BestChainAccept BestChainRun.
Set Default Proof Using "Type".

#[local] Instance ledger_view : CoinsView CoinsDB := CCoinsViewDB_view (fun _ => false).
#[local] Instance ledger_view_spec : CoinsViewSpec CoinsDB := CCoinsViewDB_spec (fun _ => false).

(** The coins, and the undo record of a block in the [rev] files. *)
Record CoinsState := mkCoinsState { cs_utxo : gmap COutPoint Coin; cs_undo : gmap ptr (list CTxUndo) }.

Section CoinsLedger.
Context (script_usage : list Z -> Z) (usage_nil : script_usage [] = 0).
Context (unspendable : list Z -> bool) (max_outputs : nat).
(** The tree of blocks, the bytes of a block on disk, the transactions in the
    bytes of a block, and the rules of [ConnectBlock] besides the existence of
    the inputs. *)
Context (parent : ptr -> option ptr) (height : ptr -> nat) (disk : ptr -> list Z) (txs_of : list Z -> list UtxoTx).
Context (rules : ptr -> list Z -> gmap COutPoint Coin -> bool).
Implicit Types (u : gmap COutPoint Coin) (p q : ptr).

Abbreviation block_txs p := (txs_of (disk p)).

Abbreviation connect_spec := (connect_spec unspendable).
Abbreviation block_height p := (Z.of_nat (height p)).

(** [HaveInputs] and the context-free rules that the coins need.  BIP30, which
    would ask for new outputs, is commented out in the source. *)
Definition check_tx u (tx : UtxoTx) : bool :=
  bool_decide (NoDup (tx_prevouts tx)) &&
  (tx_coinbase tx || forallb (fun o => bool_decide (is_Some (u !! o))) (tx_prevouts tx)) &&
  forallb (fun o => 0 <=? nValue o) (tx_vout tx).

Fixpoint check_txs (nHeight : Z) u (vtx : list UtxoTx) : bool :=
  match vtx with
  | [] => true
  | tx :: rest => check_tx u tx && check_txs nHeight (connect_spec nHeight u tx) rest
  end.

Definition check_block u p (block : list Z) : bool :=
  match txs_of block with
  | [] => false
  | coinbase :: rest =>
      tx_coinbase coinbase && forallb (fun tx => negb (tx_coinbase tx)) rest &&
      check_txs (block_height p) u (coinbase :: rest) && rules p block u
  end.

(** The coins after the blocks of a chain; the coinbase of the genesis block
    is not spendable. *)
Fixpoint utxo_chain (n : nat) p : gmap COutPoint Coin :=
  match n, parent p with
  | S n, Some q => fold_left (connect_spec (block_height p)) (block_txs p) (utxo_chain n q)
  | _, _ => ∅
  end.
Definition utxo_at (t : option ptr) : gmap COutPoint Coin :=
  match t with Some p => utxo_chain (height p) p | None => ∅ end.

(** A view with an empty cache. *)
Definition coins_view u : CCoinsViewCache CoinsDB := mkCache (mkDB u None None) 0 ∅ 0.

(** Undo data are written when the block has none ([GetUndoPos().IsNull()]). *)
Definition connect_coins (w : CoinsState) (pblock : option (list Z)) p : Verdict CoinsState :=
  let block := default (disk p) pblock in
  match parent p with
  | None => Connected w 0
  | Some _ =>
      if check_block (cs_utxo w) p block then
        match ConnectBlock_utxo script_usage unspendable (coins_view (cs_utxo w)) (txs_of block) (block_height p) p with
        | Some (vtxundo, c) =>
            Connected (mkCoinsState (cache_utxo c)
              (match cs_undo w !! p with Some _ => cs_undo w | None => <[p := vtxundo]> (cs_undo w) end)) 0
        | None => SystemError
        end
      else InvalidBlock false
  end.

(** The block and its undo record are read from disk. *)
Definition disconnect_coins (w : CoinsState) p : option CoinsState :=
  q ← parent p;
  vtxundo ← cs_undo w !! p;
  '(res, c) ← DisconnectBlock_utxo script_usage unspendable max_outputs (coins_view (cs_utxo w)) (block_txs p) vtxundo (block_height p) q;
  if decide (res = DISCONNECT_OK) then Some (mkCoinsState (cache_utxo c) (cs_undo w)) else None.

Definition coins_ledger : Ledger CoinsState := mkLedger connect_coins disconnect_coins (fun _ => true).

Definition block_valid p : bool :=
  match parent p with None => true | Some _ => check_block (utxo_at (parent p)) p (disk p) end.

(** What connecting the block on its parent writes. *)
Definition undo_of p (vtxundo : list CTxUndo) : Prop :=
  exists c, ConnectBlock_utxo script_usage unspendable (coins_view (utxo_at (parent p))) (block_txs p) (block_height p) p =
    Some (vtxundo, c).

(** The ledgers of a chain: its coins; every undo record is the right one,
    and the blocks of the chain have theirs. *)
Record coins_world (t : option ptr) (w : CoinsState) : Prop := {
  cw_utxo : cs_utxo w = utxo_at t;
  cw_undo p vtxundo : cs_undo w !! p = Some vtxundo -> undo_of p vtxundo;
  cw_chain tip p : t = Some tip -> chain_of parent tip p -> is_Some (parent p) -> is_Some (cs_undo w !! p)
}.

(** No transaction recreates an output that is there, neither of the chain
    nor of the block. *)
Fixpoint new_outputs (nHeight : Z) u (vtx : list UtxoTx) : Prop :=
  match vtx with
  | [] => True
  | tx :: rest => (forall k, 0 <= k < Z.of_nat (length (tx_vout tx)) -> u !! (tx_hash tx, k) = None) /\
                  new_outputs nHeight (connect_spec nHeight u tx) rest
  end.

(** ** The coins of a chain can be spent and restored *)

Definition fine_coins u : Prop := map_Forall (fun _ co => IsSpent co = false /\ restorable unspendable co) u.

Lemma coins_view_ok u : fine_coins u -> cache_ok script_usage (coins_view u) /\ cache_utxo (coins_view u) = u.
Proof.
  intros Hu. split.
  - split; [split; [intros o co Ho; by apply (Hu o co) | done] |]. split; [| done]. intros o e. cbn. by rewrite lookup_empty.
  - apply map_eq. intros o. rewrite cache_utxo_lookup. cbn. by rewrite lookup_empty.
Qed.

Lemma check_tx_valid u tx : fine_coins u -> check_tx u tx = true ->
  (forall k, 0 <= k < Z.of_nat (length (tx_vout tx)) -> u !! (tx_hash tx, k) = None) -> valid_tx unspendable u tx.
Proof.
  intros Hu. unfold check_tx. rewrite !andb_true_iff, orb_true_iff. intros [[H1 H2] H4] Hnew.
  rewrite forallb_forall in H4. split; [by apply bool_decide_eq_true in H1 |]. split; [| split].
  - intros Hcb. destruct H2 as [? | H2]; [congruence |]. rewrite forallb_forall in H2. apply Forall_forall. intros p Hp.
    apply list_elem_of_In, H2, bool_decide_eq_true in Hp as [co Hco]. exists co. split; [done |]. by apply (Hu p co).
  - intros _. exact Hnew.
  - apply Forall_forall. intros o Ho. apply list_elem_of_In, H4, Z.leb_le in Ho. lia.
Qed.

Lemma connect_fine h u tx :
  0 < h < 2 ^ 31 -> fine_coins u -> valid_tx unspendable u tx -> fine_coins (connect_spec h u tx).
Proof.
  intros Hh Hu (_ & _ & _ & Hv) o co. rewrite connect_spec_lookup.
  destruct (own_output unspendable h tx o) as [co' |] eqn:E.
  - intros [= <-]. unfold own_output in E. case_decide; [| done].
    destruct (tx_vout tx !! Z.to_nat o.2) as [out' |] eqn:Eo; [| done]. cbn in E. unfold output_coin in E.
    destruct (unspendable (scriptPubKey out')) eqn:Es; [done |]. injection E as <-.
    rewrite Forall_lookup in Hv. specialize (Hv _ _ Eo).
    split; [unfold IsSpent, CTxOut_IsNull; cbn; by apply Z.eqb_neq |]. split; cbn; [| done].
    unfold wrapu. rewrite Z.mod_small; lia.
  - destruct (tx_coinbase tx); [apply Hu |]. case_decide; [done | apply Hu].
Qed.

Lemma check_txs_valid h vtx : forall u,
  0 < h < 2 ^ 31 -> fine_coins u -> check_txs h u vtx = true -> new_outputs h u vtx ->
  valid_txs unspendable h u vtx /\ fine_coins (fold_left (connect_spec h) vtx u).
Proof.
  induction vtx as [| tx vtx IH]; intros u Hh Hu Hc Hn; [done |]. cbn in Hc. apply andb_prop in Hc as [H1 H2].
  destruct Hn as [Hn1 Hn2]. pose proof (check_tx_valid u tx Hu H1 Hn1) as Hv.
  destruct (IH _ Hh (connect_fine h u tx Hh Hu Hv) H2 Hn2). done.
Qed.

(** ** The interface is implemented *)

Hypothesis height_parent : forall p q, parent p = Some q -> height p = S (height q).
Hypothesis height_bound : forall p, block_height p < 2 ^ 31.
Hypothesis one_root : forall p q, parent p = None -> parent q = None -> p = q.
Hypothesis outputs_new : forall p q, parent p = Some q -> replayed parent block_valid (Some p) ->
  new_outputs (block_height p) (utxo_at (Some q)) (block_txs p).

Lemma utxo_at_next p q :
  parent p = Some q -> utxo_at (Some p) = fold_left (connect_spec (block_height p)) (block_txs p) (utxo_at (Some q)).
Proof using height_parent. intros Hq. cbn. rewrite (height_parent p q Hq). cbn [utxo_chain]. rewrite Hq, (height_parent p q Hq). done. Qed.

Lemma utxo_at_root p : parent p = None -> utxo_at (Some p) = ∅.
Proof. intros Hp. cbn. destruct (height p); cbn; [done | by rewrite Hp]. Qed.

Lemma height_pos p q : parent p = Some q -> 0 < block_height p < 2 ^ 31.
Proof using height_parent height_bound. intros Hq. pose proof (height_bound p). rewrite (height_parent p q Hq) in *. lia. Qed.

Lemma replayed_fine t : replayed parent block_valid t -> fine_coins (utxo_at t).
Proof using height_parent height_bound outputs_new.
  induction 1 as [| p Hr IH Hv]; [apply map_Forall_empty |].
  destruct (parent p) as [q |] eqn:Hq; [| rewrite (utxo_at_root p Hq); apply map_Forall_empty].
  assert (new_outputs (block_height p) (utxo_at (Some q)) (block_txs p)) as Hn.
  { apply (outputs_new p q Hq). constructor; [by rewrite Hq | done]. }
  rewrite (utxo_at_next p q Hq). unfold block_valid in Hv. rewrite Hq in Hv. unfold check_block in Hv.
  destruct (block_txs p) as [| cb rest]; [done |]. rewrite !andb_true_iff in Hv. destruct Hv as [[_ Hv] _].
  by apply (check_txs_valid _ _ _ (height_pos p q Hq) IH).
Qed.

(** Connecting a valid block, and disconnecting it from any view of the
    resulting coins. *)
Lemma coins_step p q :
  parent p = Some q -> replayed parent block_valid (Some p) ->
  exists vtxundo c, ConnectBlock_utxo script_usage unspendable (coins_view (utxo_at (Some q))) (block_txs p) (block_height p) p =
      Some (vtxundo, c) /\ cache_utxo c = utxo_at (Some p) /\
    exists c', DisconnectBlock_utxo script_usage unspendable max_outputs (coins_view (utxo_at (Some p))) (block_txs p) vtxundo
      (block_height p) q = Some (DISCONNECT_OK, c') /\ cache_utxo c' = utxo_at (Some q).
Proof using usage_nil height_parent height_bound outputs_new.
  intros Hq Hrp. inversion Hrp as [| ? Hr Hc]; subst. rewrite Hq in Hr. unfold block_valid in Hc. rewrite Hq in Hc.
  pose proof (replayed_fine _ Hr) as Hfine. destruct (coins_view_ok _ Hfine) as [Hok Hu].
  pose proof (outputs_new p q Hq Hrp) as Hnew.
  pose proof (height_pos p q Hq) as Hh. unfold check_block in Hc. destruct (block_txs p) as [| cb rest] eqn:Etx; [done |].
  rewrite !andb_true_iff in Hc. destruct Hc as [[[Hcb Hrest] Htxs] _].
  destruct (check_txs_valid _ _ _ Hh Hfine Htxs Hnew) as [Hvalid Hfine']. rewrite <- Etx in Hfine'. rewrite <- (utxo_at_next p q Hq) in Hfine'.
  destruct (connect_disconnect script_usage usage_nil unspendable max_outputs (coins_view (utxo_at (Some q))) (cb :: rest)
    (block_height p) p q cb rest Hok ltac:(lia) eq_refl Hcb) as (vtxundo & c1 & E & Hok1 & Hu1 & Hd).
  { rewrite forallb_forall in Hrest. apply Forall_forall. intros tx Htx. by apply negb_true_iff, Hrest, list_elem_of_In. }
  { by rewrite Hu. }
  exists vtxundo, (SetBestBlock c1 p). split; [done |]. rewrite Hu, <- Etx, <- (utxo_at_next p q Hq) in Hu1. split; [done |].
  destruct (coins_view_ok _ Hfine') as [Hok' Hu']. destruct (Hd (coins_view (utxo_at (Some p))) Hok') as (c3 & Ed & Hok3 & Hu3);
    [congruence |]. exists (SetBestBlock c3 q). split; [done |]. change (cache_utxo c3 = utxo_at (Some q)).
  rewrite Hu3, Hu. apply uncovered_new, Hnew.
Qed.

Lemma coins_connect p w :
  replayed parent block_valid (parent p) -> block_valid p = true -> coins_world (parent p) w ->
  exists w' pos, connect_coins w None p = Connected w' pos /\ coins_world (Some p) w'.
Proof using max_outputs usage_nil height_parent height_bound outputs_new.
  intros Hr Hv [Hu Hundo Hchain]. unfold connect_coins. cbn [default].
  destruct (parent p) as [q |] eqn:Hq.
  - assert (replayed parent block_valid (Some p)) as Hrp by (constructor; [by rewrite Hq | done]).
    unfold block_valid in Hv. rewrite Hq in Hv. rewrite Hu, Hv. destruct (coins_step p q Hq Hrp) as (vtxundo & c & E & Hc & _).
    rewrite E. eexists _, 0. split; [done |]. split; cbn [cs_utxo cs_undo]; [done | |].
    + intros x rec Hx. destruct (cs_undo w !! p) eqn:Ep; [by apply Hundo |].
      rewrite lookup_insert in Hx. case_decide; [| by apply Hundo]. subst x. injection Hx as <-. exists c. by rewrite Hq.
    + intros tip x [= <-] Hx Hpar. destruct (cs_undo w !! p) eqn:Ep.
      * inversion Hx as [| q' ? Hq' Hxq]; subst; [by rewrite Ep |]. apply (Hchain q x); [done | congruence | done].
      * rewrite lookup_insert. case_decide; [done |]. inversion Hx as [| q' ? Hq' Hxq]; subst; [done |].
        apply (Hchain q x); [done | congruence | done].
  - eexists w, 0. split; [done |]. split; [by rewrite (utxo_at_root p Hq) | done |].
    intros tip x [= <-] Hx Hpar. inversion Hx; subst; [rewrite Hq in Hpar; by destruct Hpar | congruence].
Qed.

Lemma coins_disconnect p q w :
  parent p = Some q -> replayed parent block_valid (Some p) -> coins_world (Some p) w ->
  exists w', disconnect_coins w p = Some w' /\ coins_world (Some q) w'.
Proof using usage_nil height_parent height_bound outputs_new.
  intros Hq Hrp [Hu Hundo Hchain]. unfold disconnect_coins. rewrite Hq. cbn [mbind option_bind].
  destruct (Hchain p p eq_refl (chain_of_last _ p) ltac:(by rewrite Hq)) as [rec Hrec]. rewrite Hrec. cbn [mbind option_bind].
  destruct (Hundo p rec Hrec) as [c0 E0]. destruct (coins_step p q Hq Hrp) as (vtxundo & c & E & _ & c' & Ed & Hc').
  rewrite Hq, E in E0. injection E0 as <- <-. rewrite Hu, Ed. cbn [mbind option_bind]. rewrite decide_True by done.
  eexists. split; [done |]. split; cbn [cs_utxo cs_undo]; [done | done |].
  intros tip x [= <-] Hx. apply (Hchain p x eq_refl). by apply (chain_of_below _ p q).
Qed.

Lemma coins_ledger_ok : LedgerOk coins_ledger parent block_valid coins_world.
Proof using usage_nil height_parent height_bound one_root outputs_new.
  split.
  - exact coins_connect.
  - intros p w Hr Hv Hw. cbn [coins_ledger connect_block]. unfold connect_coins, block_valid in *. rewrite (cw_utxo _ _ Hw).
    destruct (parent p) as [q |]; [| done]. cbn [default]. by rewrite Hv.
  - exact coins_disconnect.
  - done.
  - intros p Hp. unfold block_valid. by rewrite Hp.
  - exact one_root.
Qed.

(** A copy with the bytes on disk connects like the block on disk. *)
Lemma coins_same_copy (a : BlockArrival) : arr_block a = disk (arr_hash a) -> same_copy coins_ledger a.
Proof. intros E w. cbn [coins_ledger connect_block]. unfold connect_coins. by rewrite E. Qed.

Lemma coins_world_empty : coins_world None (mkCoinsState ∅ ∅).
Proof. split; [done | cbn; intros p r H; by rewrite lookup_empty in H | done]. Qed.

End CoinsLedger.
