(* ===== verification/BestChainTheorems.v ===== *)
(** * What the chain selection guarantees

    The theorems about the node of [BestChainRun.v] over any ledger and over
    the coins of [ChainLedger.v], with a concrete run that applies them. *)

From stdpp Require Import gmap sorting.
From S2P Require Import Prelude ArithUint256 Compact Chain ActiveChain Coins CoinsRefine BlockUndo Pow PowTargets BestChain AcceptBlock.
From S2P Require Import BestChainInv BestChainSelect BestChainActivate BestChainSteps BestChainLink BestChainAccept BestChainRun ChainLedger.

(** ** A node with two branches *)

(** Genesis block 100; the branches 101, 102 and 201, 202, 203, and the block
    110 beside 102.  Any other
    number is a block on the genesis block. *)
Definition demo_parent (p : ptr) : option ptr :=
  if p =? 100 then None
  else if p =? 102 then Some 101 else if p =? 110 then Some 101 else if p =? 202 then Some 201 else if p =? 203 then Some 202 else Some 100.
Definition demo_height (p : ptr) : nat :=
  if p =? 100 then 0%nat
  else if p =? 102 then 2%nat else if p =? 110 then 2%nat else if p =? 202 then 2%nat else if p =? 203 then 3%nat else 1%nat.
(** Block 202 also spends the output of block 201. *)
Definition demo_txs (p : ptr) : list UtxoTx :=
  mkUtxoTx (1000 + p) true [] [mkTxOut 50 [118]] ::
  (if p =? 202 then [mkUtxoTx 3000 false [(1201, 0)] [mkTxOut 49 [118]]] else []).
(** The bytes of a block are its number. *)
Definition demo_disk (p : ptr) : list Z := [p].
Definition demo_txs_of (block : list Z) : list UtxoTx := match block with [p] => demo_txs p | _ => [] end.
(** Block 203 breaks a rule. *)
Definition demo_rules (p : ptr) (block : list Z) (u : gmap COutPoint Coin) : bool := negb (p =? 203).

Abbreviation demo_valid := (block_valid example_unspendable demo_parent demo_height demo_disk demo_txs_of demo_rules).
Abbreviation demo_utxo := (utxo_at example_unspendable demo_parent demo_height demo_disk demo_txs_of).
Abbreviation demo_world := (coins_world (fun _ => 0) example_unspendable demo_parent demo_height demo_disk demo_txs_of).
Abbreviation demo_ledger :=
  (coins_ledger (fun _ => 0) example_unspendable 1000 demo_parent demo_height demo_disk demo_txs_of demo_rules).

Lemma demo_height_parent p q : demo_parent p = Some q -> demo_height p = S (demo_height q).
Proof.
  unfold demo_parent, demo_height. destruct (p =? 100); [done |].
  destruct (p =? 102), (p =? 110), (p =? 202), (p =? 203); intros [= <-]; done.
Qed.
Lemma demo_height_bound p : Z.of_nat (demo_height p) < 2 ^ 31.
Proof. unfold demo_height. repeat case_match; lia. Qed.
Lemma demo_one_root p q : demo_parent p = None -> demo_parent q = None -> p = q.
Proof. unfold demo_parent. repeat (case_match; try done). lia. Qed.

(** Every block but four is on the genesis block, whose coins do not count. *)
Lemma demo_outputs_new p q : demo_parent p = Some q ->
  new_outputs example_unspendable (Z.of_nat (demo_height p)) (demo_utxo (Some q)) (demo_txs_of (demo_disk p)).
Proof.
  assert (forall k, 0 <= k < 1 -> k = 0) as H0 by lia.
  unfold demo_parent. destruct (Z.eqb_spec p 100); [done |]. destruct (Z.eqb_spec p 102) as [-> |].
  { intros [= <-]. split; [| done]. intros k ->%H0. vm_compute. done. }
  destruct (Z.eqb_spec p 110) as [-> |].
  { intros [= <-]. split; [| done]. intros k ->%H0. vm_compute. done. }
  destruct (Z.eqb_spec p 202) as [-> |].
  { intros [= <-]. split; [intros k ->%H0; vm_compute; done |]. split; [| done]. intros k ->%H0. vm_compute. done. }
  destruct (Z.eqb_spec p 203) as [-> |].
  { intros [= <-]. split; [| done]. intros k ->%H0. vm_compute. done. }
  intros [= <-]. cbn [demo_txs_of demo_disk]. unfold demo_txs. destruct (Z.eqb_spec p 202); [done |].
  split; [| done]. intros k _. change (demo_utxo (Some 100)) with (∅ : gmap COutPoint Coin). apply lookup_empty.
Qed.

Lemma demo_ledger_ok : LedgerOk demo_ledger demo_parent demo_valid demo_world.
Proof.
  apply coins_ledger_ok; [done | apply demo_height_parent | apply demo_height_bound | apply demo_one_root |].
  intros p q Hq _. by apply demo_outputs_new.
Qed.

Definition demo_env : NodeEnv :=
  mkNodeEnv mainnet_params 100 (of_u64 0) [] true 60 4 43200 None 1600010000 1600010000 (fun _ => true) false true.
Definition demo_arrival (p : ptr) : BlockArrival :=
  mkArrival p [] [] (mkHeader 0x30000000 (default 0 (demo_parent p)) (1600000000 + p) 0x1e0fffff)
    (demo_disk p) (Z.of_nat (length (demo_txs p))) false true Passes (Some (0, 8)).

(** The second branch wins, is given up and taken back; its last block turns
    out to be invalid. *)
Definition demo_ops : list Op :=
  [OpBlock demo_env (demo_arrival 100) true; OpBlock demo_env (demo_arrival 101) true;
   OpBlock demo_env (demo_arrival 201) true; OpBlock demo_env (demo_arrival 202) true;
   OpInvalidate 201; OpActivate; OpBlock demo_env (demo_arrival 102) true; OpReconsider 201; OpPrecious 202;
   OpBlock demo_env (demo_arrival 203) true].
Definition demo_copy (a : BlockArrival) : bool := bool_decide (arr_block a = demo_disk (arr_hash a)).
Definition demo_start : ChainState CoinsState := initial (mkCoinsState ∅ ∅).
Definition demo_run : option (ChainSpec * ChainState CoinsState) :=
  run_checked id demo_ledger demo_parent demo_copy 10 demo_ops empty_spec demo_start.

Lemma demo_copy_sound a : demo_copy a = true -> same_copy demo_ledger a.
Proof. intros E%bool_decide_eq_true. by apply coins_same_copy. Qed.

Lemma demo_reachable : exists sp s, demo_run = Some (sp, s) /\ reachable id demo_ledger demo_parent demo_world sp s.
Proof.
  assert (match demo_run with Some _ => true | None => false end = true) as H by (vm_compute; reflexivity).
  destruct demo_run as [[sp s] |] eqn:E; [| done]. exists sp, s. split; [reflexivity |].
  apply (run_checked_reachable id demo_ledger demo_parent demo_world demo_copy demo_copy_sound 10 demo_ops empty_spec demo_start); [| exact E].
  apply reachable_initial, coins_world_empty.
Qed.

(** ** Every operation returns, and the best chain is active *)



(** C3: The active chain is the best one.  Over a ledger that meets its
    contract [LedgerOk], in every state that the node reaches by allowed
    operations (see [allowed]), [ActivateBestChain] returns [true] with enough
    fuel; the active chain is then one that the abstract node may use (all its
    blocks received, valid, none refused), no such chain has more work, and the
    ledger is one of its ledgers. *)
Theorem active_chain_best {W : Type} (addr : ptr -> Z) (L : Ledger W) (parent : ptr -> option ptr) (valid : ptr -> bool)
    (world : option ptr -> W -> Prop) (sp : ChainSpec) (s : ChainState W) :
  (forall p q, addr p = addr q -> p = q) -> LedgerOk L parent valid world -> reachable addr L parent world sp s ->
  exists n s', (forall fuel, (n <= fuel)%nat -> ActivateBestChain addr L fuel None s = Some (true, s')) /\
    best_chain parent valid sp (Tip (chainActive s')) /\ world (Tip (chainActive s')) (ledger s').
Proof. intros Hinj HL. by apply reachable_best. Qed.

Lemma active_chain_best_witness :
  exists sp s, demo_run = Some (sp, s) /\ exists n s',
    (forall fuel, (n <= fuel)%nat -> ActivateBestChain id demo_ledger fuel None s = Some (true, s')) /\
    best_chain demo_parent demo_valid sp (Tip (chainActive s')) /\ demo_world (Tip (chainActive s')) (ledger s').
Proof.
  destruct demo_reachable as (sp & s & E & Hreach). exists sp, s. split; [exact E |].
  apply (active_chain_best id demo_ledger demo_parent demo_valid demo_world sp).
  - intros p q H. exact H.
  - exact demo_ledger_ok.
  - exact Hreach.
Defined.

(** C2: The node's coins are those of replaying the best chain.  The ledger
    is the one of coins, with the undo records that connecting writes and
    disconnecting reads.  In every state that the node reaches by allowed
    operations (see [allowed]), [ActivateBestChain] returns [true] and the UTXO
    set is the result of connecting, from the empty set, the transactions of
    the blocks of a best chain, however often blocks were connected and
    disconnected on the way there.  No transaction of a valid chain may
    recreate an output that is unspent at its place: the rules that would
    exclude it, BIP30 and BIP34, are commented out in the source
    ([CoinsRefine.v] says what [AddCoin] does otherwise). *)
Theorem coins_replay_best_chain (script_usage : list Z -> Z) (unspendable : list Z -> bool) (max_outputs : nat)
    (parent : ptr -> option ptr) (height : ptr -> nat) (disk : ptr -> list Z) (txs_of : list Z -> list UtxoTx)
    (rules : ptr -> list Z -> gmap COutPoint Coin -> bool) (addr : ptr -> Z) (sp : ChainSpec) (s : ChainState CoinsState) :
  let L := coins_ledger script_usage unspendable max_outputs parent height disk txs_of rules in
  let valid := block_valid unspendable parent height disk txs_of rules in
  let utxo := utxo_at unspendable parent height disk txs_of in
  script_usage [] = 0 -> (forall p q, parent p = Some q -> height p = S (height q)) ->
  (forall p, Z.of_nat (height p) < 2 ^ 31) -> (forall p q, parent p = None -> parent q = None -> p = q) ->
  (forall p q, parent p = Some q -> replayed parent valid (Some p) ->
     new_outputs unspendable (Z.of_nat (height p)) (utxo (Some q)) (txs_of (disk p))) ->
  (forall p q, addr p = addr q -> p = q) ->
  reachable addr L parent (coins_world script_usage unspendable parent height disk txs_of) sp s ->
  exists n s', (forall fuel, (n <= fuel)%nat -> ActivateBestChain addr L fuel None s = Some (true, s')) /\
    best_chain parent valid sp (Tip (chainActive s')) /\ cs_utxo (ledger s') = utxo (Tip (chainActive s')).
Proof.
  intros L valid utxo Hus Hh Hb Hr Hnew Hinj Hreach.
  pose proof (coins_ledger_ok script_usage Hus unspendable max_outputs parent height disk txs_of rules Hh Hb Hr Hnew).
  destruct (reachable_best addr L parent valid _ Hinj sp s Hreach) as (n & s' & E & Hbest & Hw). exists n, s'.
  split; [done |]. split; [done |]. apply Hw.
Qed.

(** The transaction of block 202 has spent the output of block 201. *)
Lemma coins_replay_best_chain_witness :
  exists sp s, demo_run = Some (sp, s) /\ exists n s',
    (forall fuel, (n <= fuel)%nat -> ActivateBestChain id demo_ledger fuel None s = Some (true, s')) /\
    best_chain demo_parent demo_valid sp (Tip (chainActive s')) /\ cs_utxo (ledger s') = demo_utxo (Tip (chainActive s')).
Proof.
  destruct demo_reachable as (sp & s & E & Hreach). exists sp, s. split; [exact E |].
  apply (coins_replay_best_chain (fun _ => 0) example_unspendable 1000 demo_parent demo_height demo_disk demo_txs_of demo_rules id sp).
  - done.
  - apply demo_height_parent.
  - apply demo_height_bound.
  - apply demo_one_root.
  - intros p q Hq _. by apply demo_outputs_new.
  - done.
  - exact Hreach.
Defined.
