(* ===== verification/BestChainFaults.v ===== *)
(** * Where the chain selection goes wrong

    Three weaknesses of [src/validation.cpp]: blocks that stay in
    [g_failed_blocks] after [ResetBlockFailureFlags] and stop the node at a
    later header, a damaged block file that [ActivateBestChain] tries forever,
    and a target of [ActivateBestChain] that outlives [InvalidateBlock]. *)

From stdpp Require Import gmap sorting.
From S2P Require Import Prelude ArithUint256 Compact Chain ActiveChain Coins CoinsRefine BlockUndo Pow PowTargets BestChain AcceptBlock.
From S2P Require Import BestChainInv BestChainSelect BestChainActivate BestChainSteps BestChainLink BestChainAccept BestChainRun.
From S2P Require Import ChainLedger BestChainTheorems.

#[local] Existing Instance by_address_dec.

(** ** Reconsidering a block *)

Section Reconsider.
Context {W : Type} (addr : ptr -> Z).
Implicit Types (m : gmap ptr CBlockIndex) (s : ChainState W) (p q : ptr).

Lemma clear_same q b m : m !! q = Some b -> same_tree m (<[q := clear_flag BLOCK_FAILED_MASK b]> m).
Proof. intros Hq. apply same_index_tree. by apply (same_rel_insert same_links _ q b); [apply _ | | split_and!]. Qed.

(** The set of failed blocks shrinks, and [p] stays in it. *)
Definition stays p s s' : Prop :=
  same_tree (blocks s) (blocks s') /\ g_failed_blocks s' ⊆ g_failed_blocks s /\
  (p ∈ g_failed_blocks s -> p ∈ g_failed_blocks s').

Lemma stays_refl p s : stays p s s.
Proof. split; [apply (same_rel_refl same_block); apply _ | done]. Qed.

Lemma stays_trans p s1 s2 s3 : stays p s1 s2 -> stays p s2 s3 -> stays p s1 s3.
Proof.
  intros (T1 & S1 & P1) (T2 & S2 & P2). split; [by apply (same_rel_trans same_block _ _ _ _ T1 T2) |].
  split; [set_solver | auto].
Qed.

(** A block below the height of [c] does not descend from it. *)
Lemma reset_entry_stays c h p bp q s s' :
  blocks s !! p = Some bp -> nHeight bp < h -> ResetBlockFailureFlags_entry addr c h q s = Some s' -> stays p s s'.
Proof.
  intros Hp Hh. unfold ResetBlockFailureFlags_entry. destruct (blocks s !! q) as [b |] eqn:Hq; cbn [mbind option_bind]; [| done].
  destruct (IsValid b BLOCK_VALID_TRANSACTIONS); [intros [= <-]; apply stays_refl |].
  destruct (GetAncestor (blocks s) q h) as [a |] eqn:Ea; cbn [mbind option_bind]; [| done].
  case_decide as Hd; [| intros [= <-]; apply stays_refl]. subst a.
  assert (q <> p) as Hne.
  { intros ->. unfold GetAncestor in Ea. rewrite Hp in Ea. cbn [mbind option_bind] in Ea. rewrite Z.gtb_ltb in Ea.
    destruct (Z.ltb_spec (nHeight bp) h); [| lia]. done. }
  match goal with |- (?e ≫= _) = _ -> _ => destruct e as [s2 |] eqn:E2 end; cbn [mbind option_bind]; [| done]. intros [= <-].
  assert (blocks s2 = <[q := clear_flag BLOCK_FAILED_MASK b]> (blocks s) /\ g_failed_blocks s2 = g_failed_blocks s) as [B2 G2].
  { destruct (_ && _); [| by injection E2 as <-]. destruct (Tip _); [| done]. cbn [mbind option_bind] in E2.
    destruct (CBlockIndexWorkComparator _ _ _ _) as [[] |]; [| | done]; by injection E2 as <-. }
  match goal with |- stays p s ?x => assert (blocks x = blocks s2 /\ g_failed_blocks x = g_failed_blocks s2 ∖ {[ q ]}) as [B3 G3] by (by case_decide) end.
  split; [rewrite B3, B2; by apply clear_same |]. rewrite G3, G2. split; [set_solver |]. intros Hin. set_solver.
Qed.

Lemma reset_loop_stays c h p : forall l s s' bp,
  blocks s !! p = Some bp -> nHeight bp < h -> ResetBlockFailureFlags_loop addr c h l s = Some s' -> stays p s s'.
Proof.
  induction l as [| q l IH]; intros s s' bp Hp Hh; cbn [ResetBlockFailureFlags_loop]; [intros [= <-]; apply stays_refl |].
  destruct (ResetBlockFailureFlags_entry addr c h q s) as [s1 |] eqn:E; cbn [mbind option_bind]; [| done].
  pose proof (reset_entry_stays c h p bp q s s1 Hp Hh E) as H1. intros El. apply (stays_trans p s s1 s' H1).
  destruct (same_rel_lookup _ _ _ _ _ (proj1 H1) Hp) as (bp1 & Hp1 & _ & _ & Eh & _). apply (IH s1 s' bp1 Hp1); [lia | done].
Qed.

(** Clearing the marks on the way down leaves none. *)
Lemma reset_up_clears p : forall fuel q s s',
  ResetBlockFailureFlags_up fuel (Some q) s = Some s' ->
  same_tree (blocks s) (blocks s') /\ g_failed_blocks s' = g_failed_blocks s /\
  (failed (blocks s') p -> failed (blocks s) p) /\ (is_ancestor (blocks s) q p -> ~ failed (blocks s') p).
Proof.
  induction fuel as [| fuel IH]; intros q s s'; cbn [ResetBlockFailureFlags_up];
    (destruct (blocks s !! q) as [b |] eqn:Hq; cbn [mbind option_bind]; [| done]); [done |].
  match goal with |- ResetBlockFailureFlags_up _ _ ?x = _ -> _ => set (s1 := x) end. intros E.
  assert (same_tree (blocks s) (blocks s1) /\ g_failed_blocks s1 = g_failed_blocks s /\
    (forall x, failed (blocks s1) x -> failed (blocks s) x) /\ ~ failed (blocks s1) q) as (T1 & G1 & F1 & N1).
  { subst s1. destruct (has_flag b BLOCK_FAILED_MASK) eqn:Hf.
    - change (blocks (dirty q (with_blocks (<[q := clear_flag BLOCK_FAILED_MASK b]> (blocks s)) s))) with
        (<[q := clear_flag BLOCK_FAILED_MASK b]> (blocks s)).
      assert (has_flag (clear_flag BLOCK_FAILED_MASK b) BLOCK_FAILED_MASK = false) as Hcl by (by apply has_clear).
      split; [by apply clear_same |]. split; [done |]. split.
      + intros x (c & Hx & Hfx). rewrite lookup_insert in Hx. case_decide; [| by exists c].
        injection Hx as <-. rewrite Hcl in Hfx. done.
      + intros (c & Hx & Hfx). rewrite lookup_insert_eq in Hx. injection Hx as <-. rewrite Hcl in Hfx. done.
    - split; [apply (same_rel_refl same_block); apply _ |]. split; [done |]. split; [done |]. intros (c & Hx & Hfx). congruence. }
  clearbody s1. destruct (pprev b) as [r |] eqn:Hr.
  - destruct (IH r s1 s' E) as (T2 & G2 & F2 & N2). split; [by apply (same_rel_trans same_block _ _ _ _ T1 T2) |].
    split; [congruence |]. split; [auto |]. intros Ha.
    apply (is_ancestor_step _ q b p Hq) in Ha as [-> | (r' & Hr' & Ha)]; [auto |]. apply N2.
    apply (is_ancestor_same _ _ _ _ T1). congruence.
  - assert (s' = s1) as -> by (destruct fuel; cbn in E; congruence). split; [done |]. split; [done |]. split; [auto |].
    intros Ha. apply (is_ancestor_step _ q b p Hq) in Ha as [-> | (r' & Hr' & _)]; [done | congruence].
Qed.

Lemma ResetBlockFailureFlags_leaves c bc p s s' :
  wf_store (blocks s) -> blocks s !! c = Some bc -> is_ancestor (blocks s) c p -> p <> c -> p ∈ g_failed_blocks s ->
  ResetBlockFailureFlags addr c s = Some s' ->
  same_tree (blocks s) (blocks s') /\ g_failed_blocks s' ⊆ g_failed_blocks s /\ p ∈ g_failed_blocks s' /\ ~ failed (blocks s') p.
Proof.
  intros Hst Hc Ha Hne Hin. unfold ResetBlockFailureFlags. rewrite Hc. cbn [mbind option_bind].
  destruct (is_ancestor_lookup _ Hst c bc p Hc Ha) as [bp Hp].
  assert (nHeight bp < nHeight bc) as Hh.
  { apply (is_ancestor_step _ c bc p Hc) in Ha as [-> | (q & Hq & n & Hn)]; [done |].
    destruct (parent_height _ Hst c bc q Hc Hq) as (bq & Hbq & _ & ?). pose proof (walk_height _ q bq n p bp Hst Hbq Hn Hp). lia. }
  destruct (ResetBlockFailureFlags_loop _ _ _ _ _) as [s1 |] eqn:E1; cbn [mbind option_bind]; [| done]. intros E2.
  destruct (reset_loop_stays c (nHeight bc) p _ s s1 bp Hp Hh E1) as (T1 & S1 & P1).
  destruct (reset_up_clears p _ c s1 s' E2) as (T2 & G2 & _ & N2).
  split; [by apply (same_rel_trans same_block _ _ _ _ T1 T2) |]. rewrite G2. split; [done |]. split; [auto |].
  apply N2. by apply (is_ancestor_same _ _ _ _ T1).
Qed.

(** The loop over [g_failed_blocks] meets a block that is not marked. *)
Lemma AcceptBlockHeader_failed_asserts prev p s : forall l,
  wf_store (blocks s) -> is_Some (blocks s !! prev) -> p ∈ l -> is_ancestor (blocks s) prev p ->
  (forall x, x ∈ l -> is_Some (blocks s !! x)) ->
  (forall x b, x ∈ l -> blocks s !! x = Some b -> is_ancestor (blocks s) prev x -> has_flag b BLOCK_FAILED_VALID = false) ->
  AcceptBlockHeader_failed l prev s = None.
Proof.
  intros l Hst Hprev. induction l as [| x l IH]; intros Hin Ha Hk Hun; [by apply elem_of_nil in Hin |].
  cbn [AcceptBlockHeader_failed]. destruct (Hk x (list_elem_of_here x l)) as [f Hf]. rewrite Hf. cbn [mbind option_bind].
  destruct Hprev as [b Hb]. pose proof (GetAncestor_eq (blocks s) prev b (nHeight f) Hst Hb) as Eg. rewrite Eg. cbn [mbind option_bind].
  case_decide as Hd.
  - rewrite (Hun x f (list_elem_of_here x l) Hf); [done |]. unfold ancestor_at in Hd. rewrite Hb in Hd. cbn [mbind option_bind] in Hd.
    destruct (_ || _); [done |]. by eexists.
  - apply elem_of_cons in Hin as [-> | Hin].
    + destruct Hd. rewrite (GetAncestor_descendant (blocks s) prev x f Hst (ex_intro _ b Hb) Hf Ha) in Eg. by injection Eg.
    + apply IH; try done; [intros y Hy; apply Hk; by right | intros y c Hy; apply Hun; by right].
Qed.

(** A new header that passes every check before [g_failed_blocks] is
    consulted. *)
Definition passes_checks (env : NodeEnv) (hash : Z) (cached powhash : list Z) (block : CBlockHeader) s : Prop :=
  hash <> hashGenesisBlock env /\ blocks s !! hash = None /\
  (IsInitialBlockDownload env = true \/ CheckBlockHeader env cached powhash block true = Some true) /\
  (exists prev, blocks s !! hdr_hashPrevBlock block = Some prev /\ has_flag prev BLOCK_FAILED_MASK = false /\
    IsValid prev BLOCK_VALID_SCRIPTS = false) /\
  ContextualCheckBlockHeader env (blocks s) (chainActive s) block (hdr_hashPrevBlock block) = Some None.

Lemma AcceptBlockHeader_asserts env hash cached powhash block p s :
  wf_store (blocks s) -> passes_checks env hash cached powhash block s -> p ∈ g_failed_blocks s ->
  is_ancestor (blocks s) (hdr_hashPrevBlock block) p -> (forall x, x ∈ g_failed_blocks s -> is_Some (blocks s !! x)) ->
  (forall x b, x ∈ g_failed_blocks s -> blocks s !! x = Some b ->
    is_ancestor (blocks s) (hdr_hashPrevBlock block) x -> has_flag b BLOCK_FAILED_VALID = false) ->
  AcceptBlockHeader addr env hash cached powhash block s = None.
Proof.
  intros Hst (Hg & Hn & Hpow & (prev & Hprev & Hnf & Hns) & Hctx) Hin Ha Hk Hun. unfold AcceptBlockHeader.
  rewrite decide_False by done. rewrite Hn.
  assert ((if IsInitialBlockDownload env then Some true else CheckBlockHeader env cached powhash block true) = Some true) as ->
    by (destruct Hpow as [-> | ->]; [done | by destruct (IsInitialBlockDownload env)]). cbn [mbind option_bind negb].
  rewrite Hprev, Hnf, Hctx. cbn [mbind option_bind]. rewrite Hns.
  assert (forall x, x ∈ merge_sort (by_address addr) (elements (g_failed_blocks s)) <-> x ∈ g_failed_blocks s) as Hl
    by (intros x; rewrite merge_sort_Permutation; apply elem_of_elements).
  rewrite (AcceptBlockHeader_failed_asserts (hdr_hashPrevBlock block) p s); try done.
  - by apply Hl.
  - intros x Hx. by apply Hk, Hl.
  - intros x b Hx. by apply Hun, Hl.
Qed.
End Reconsider.

(** C35: [reconsiderblock] can leave a trap for later headers.  Let [p] be a
    block of [g_failed_blocks] below the block [c] that is reconsidered.
    [ResetBlockFailureFlags] clears the mark of [p] but leaves [p] in
    [g_failed_blocks].  Every later header on a chain through [p] that passes
    the checks, whose parent was never connected and above no other block that
    is still marked, then fails the assertion of [AcceptBlockHeader] that the
    blocks of [g_failed_blocks] are marked: the node stops. *)
Theorem header_after_reconsider_asserts {W : Type} (addr : ptr -> Z) (s s' : ChainState W) (c p : ptr) (bc : CBlockIndex) :
  wf_tree (blocks s) -> (forall x, x ∈ g_failed_blocks s -> is_Some (blocks s !! x)) ->
  blocks s !! c = Some bc -> is_ancestor (blocks s) c p -> p <> c -> p ∈ g_failed_blocks s ->
  ResetBlockFailureFlags addr c s = Some s' ->
  p ∈ g_failed_blocks s' /\ ~ failed (blocks s') p /\
  forall env hash cached powhash block, passes_checks env hash cached powhash block s' ->
    is_ancestor (blocks s') (hdr_hashPrevBlock block) p ->
    (forall x b, x ∈ g_failed_blocks s' -> blocks s' !! x = Some b ->
      is_ancestor (blocks s') (hdr_hashPrevBlock block) x -> has_flag b BLOCK_FAILED_VALID = false) ->
    AcceptBlockHeader addr env hash cached powhash block s' = None.
Proof.
  intros Hst Hk Hc Ha Hne Hin E. destruct (ResetBlockFailureFlags_leaves addr c bc p s s' (proj1 Hst) Hc Ha Hne Hin E) as (T & S & Hin' & Hnf).
  split; [done |]. split; [done |]. intros env hash cached powhash block Hpass Hanc Hun.
  apply (AcceptBlockHeader_asserts addr env hash cached powhash block p s'); try done.
  - by apply (wf_tree_same (blocks s)).
  - intros x Hx. destruct (Hk x (S x Hx)) as [b Hb]. destruct (same_rel_lookup _ _ _ _ _ T Hb) as (b' & Hb' & _). eauto.
Qed.

(** A run of operations with the return values. *)
Fixpoint run_all {W : Type} (L : Ledger W) (fuel : nat) (ops : list Op) (s : ChainState W) : option (list bool * ChainState W) :=
  match ops with
  | [] => Some ([], s)
  | op :: ops =>
      '(ret, _, s) ← exec id L fuel op s;
      '(rets, s) ← run_all L fuel ops s;
      Some (ret :: rets, s)
  end.

Definition demo_header (p prev : ptr) : Op :=
  OpHeader demo_env p [] [] (mkHeader 0x30000000 prev (1600000000 + p) 0x1e0fffff).

(** Blocks 100, 101 and 102 and the header 110 on 101 arrive; block 101 is
    given up. *)
Definition reconsider_ops : list Op :=
  [OpBlock demo_env (demo_arrival 100) true; OpBlock demo_env (demo_arrival 101) true;
   OpBlock demo_env (demo_arrival 102) true; demo_header 110 101; OpInvalidate 101; OpActivate].
Definition before_reconsider : ChainState CoinsState :=
  Eval vm_compute in match run_all demo_ledger 10 reconsider_ops demo_start with Some (_, s) => s | None => demo_start end.
Definition after_reconsider : ChainState CoinsState :=
  Eval vm_compute in match ResetBlockFailureFlags id 102 before_reconsider with Some s => s | None => demo_start end.

Lemma before_reconsider_ok :
  wf_tree (blocks before_reconsider) /\ forall x, x ∈ g_failed_blocks before_reconsider -> is_Some (blocks before_reconsider !! x).
Proof.
  assert (match run_checked id demo_ledger demo_parent demo_copy 10 reconsider_ops empty_spec demo_start with
    | Some (_, s) => Some s | None => None end = Some before_reconsider) as H by (vm_compute; reflexivity).
  destruct (run_checked _ _ _ _ _ _ _ _) as [[sp s] |] eqn:E; [| done]. injection H as ->.
  apply (run_checked_reachable id demo_ledger demo_parent demo_world demo_copy demo_copy_sound 10) in E;
    [| apply reachable_initial, coins_world_empty].
  destruct (reachable_ready id demo_ledger demo_parent demo_valid demo_world (fun p q H => H) (HL := demo_ledger_ok) _ _ E) as [[Hs _] _].
  split; [apply (inv_index _ _ _ _ Hs) |]. intros x Hx. destruct (inv_failed _ _ _ _ Hs x Hx) as (b & Hb & _). eauto.
Qed.

Lemma header_after_reconsider_asserts_witness :
  run_all demo_ledger 10 reconsider_ops demo_start = Some ([true; true; true; true; true; true], before_reconsider) /\
  ResetBlockFailureFlags id 102 before_reconsider = Some after_reconsider /\
  AcceptBlockHeader id demo_env 111 [] [] (mkHeader 0x30000000 110 1600000111 0x1e0fffff) after_reconsider = None.
Proof.
  split; [vm_compute; reflexivity |]. split; [vm_compute; reflexivity |].
  destruct (header_after_reconsider_asserts id before_reconsider after_reconsider 102 101
    (default (new_index (arr_header (demo_arrival 100))) (blocks before_reconsider !! 102))) as (_ & _ & H).
  - apply before_reconsider_ok.
  - apply before_reconsider_ok.
  - vm_compute. reflexivity.
  - exists 1%nat. vm_compute. reflexivity.
  - done.
  - apply elem_of_elements, list_elem_of_In. vm_compute. left. reflexivity.
  - vm_compute. reflexivity.
  - apply (H demo_env 111 [] [] (mkHeader 0x30000000 110 1600000111 0x1e0fffff)).
    + split; [done |]. split; [vm_compute; reflexivity |]. split; [left; reflexivity |]. split; [| vm_compute; reflexivity].
      eexists. split; [vm_compute; reflexivity |]. split; vm_compute; reflexivity.
    + exists 1%nat. vm_compute. reflexivity.
    + intros x b Hx. assert (x = 101) as ->; [| intros E _; vm_compute in E; injection E as <-; vm_compute; reflexivity].
      apply elem_of_elements, list_elem_of_In in Hx. vm_compute in Hx. destruct Hx as [<- | []]. reflexivity.
Defined.

(** ** A damaged block file *)

Section Damaged.
Context {W : Type} (addr : ptr -> Z) (L : Ledger W).
Implicit Types (m : gmap ptr CBlockIndex) (s : ChainState W) (p q : ptr).

(** The fork of a block above the tip is the tip. *)
Lemma FindFork_tip m v t bt w bw :
  wf_store m -> m !! t = Some bt -> active m (Some t) v -> m !! w = Some bw -> is_ancestor m w t ->
  FindFork m v (Some w) = Some (Some t).
Proof.
  intros Hm Ht (bt' & Ht' & ->) Hw Ha. rewrite Ht in Ht'. injection Ht' as <-.
  destruct (FindFork_correct _ Hm t bt w bw Ht Hw) as (r & E & Hr). rewrite E. f_equal. destruct r as [f |]; cbn in Hr.
  - destruct Hr as (Hwf & Htf & Hmax). destruct (is_ancestor_lookup _ Hm w bw f Hw Hwf) as [bf Hbf]. f_equal.
    apply (same_height_ancestor _ Hm f bf t bt Hbf Ht); [| apply Hmax; [done | apply is_ancestor_refl]].
    destruct Htf as [n Hn]. destruct (Hmax t Ha (is_ancestor_refl _ t)) as [k Hk].
    pose proof (walk_height _ t bt n f bf Hm Ht Hn Hbf). pose proof (walk_height _ f bf k t bt Hm Hbf Hk Ht). lia.
  - destruct (Hr t Ha (is_ancestor_refl _ t)).
Qed.

(** The next block to connect is the child of the tip on the way to [w]. *)
Lemma connect_list_head m w bw c bc t bt target :
  wf_store m -> m !! w = Some bw -> m !! t = Some bt -> m !! c = Some bc -> is_ancestor m w c -> pprev bc = Some t ->
  nHeight bt < target <= nHeight bw ->
  exists it l rest, GetAncestor m w target = Some it /\
    to_connect (Z.to_nat (target - nHeight bt)) m (nHeight bt) it = Some l /\ rev l = c :: rest.
Proof.
  intros Hm Hw Ht Hc Hwc Hq Hh. pose proof (wf_height _ _ _ Hm Ht).
  destruct (GetAncestor_ancestor _ Hm w bw target Hw ltac:(lia)) as (x & bx & Ex & Hx & Hhx & Hwx).
  destruct (to_connect_spec m (nHeight bt) (Z.to_nat (target - nHeight bt)) x bx Hm Hx ltac:(lia) ltac:(lia))
    as (l & base & El & Hbase & Hseg & Hend & Hl). exists (Some x), l.
  destruct (rev l) as [| y rest] eqn:Erev.
  { cbn in Hend. subst base. destruct Hbase as [_ (b' & Hb' & E')]. simplify_eq. lia. }
  exists rest. split; [done |]. split; [done |]. f_equal. destruct Hseg as [(by' & Hy & Hpy) _].
  assert (is_ancestor m w y) as Hwy.
  { apply (is_ancestor_trans _ w x y Hwx). apply Hl. rewrite list_elem_of_In, in_rev, Erev. by left. }
  destruct (parent_height m Hm c bc t Hc Hq) as (bt' & Ht' & _ & Ehc). rewrite Ht in Ht'. injection Ht' as <-.
  assert (nHeight by' = nHeight bc) as Ehy.
  { destruct base as [b0 |]; cbn in Hbase.
    - destruct Hbase as [_ (b0' & Hb0 & E0)]. destruct (parent_height m Hm y by' b0 Hy Hpy) as (b1 & Hb1 & _ & ?).
      rewrite Hb0 in Hb1. injection Hb1 as <-. lia.
    - lia. }
  assert (Some y = Some c) as [= ->]; [| done].
  apply (at_height_unique m w (Some y) (Some c) (nHeight bc) Hm); [eauto | split; eauto | split; eauto].
Qed.

(** A round that meets the damaged block changes nothing. *)
Lemma damaged_round pblock w t c bc s :
  wf_store (blocks s) -> active (blocks s) (Some t) (chainActive s) -> FindMostWorkChain addr s = Some (Some w, s) ->
  is_ancestor (blocks s) w c -> blocks s !! c = Some bc -> is_Some (blocks s !! w) -> pprev bc = Some t ->
  connect_block L (ledger s) (if decide (c = w) then delivered_for pblock w else None) c = InvalidBlock true ->
  ActivateBestChain_round addr L pblock None s = Some (Again None s).
Proof.
  intros Hm Hv Hfind Hwc Hc [bw Hw] Hq Hbad. pose proof (Tip_active _ _ _ Hv) as Htip.
  destruct (parent_height _ Hm c bc t Hc Hq) as (bt & Ht & H0 & Hht).
  destruct Hwc as [n Hn]. pose proof (walk_height _ w bw n c bc Hm Hw Hn Hc) as Hhc.
  assert (is_ancestor (blocks s) w c) as Hwc by (by exists n).
  assert (is_ancestor (blocks s) w t) as Hwt.
  { apply (is_ancestor_trans _ w c t Hwc). apply (is_ancestor_step _ c bc t Hc). right. exists t. split; [done | apply is_ancestor_refl]. }
  unfold ActivateBestChain_round. rewrite Hfind. cbn [mbind option_bind]. rewrite Htip.
  rewrite decide_False by (intros [= ->]; simplify_eq; lia).
  unfold ActivateBestChainStep. rewrite (FindFork_tip _ _ t bt w bw Hm Ht Hv Hw Hwt). cbn [mbind option_bind].
  assert (disconnect_to L (length (chainActive s)) (Some t) s = Some (true, s)) as ->.
  { destruct (length (chainActive s)); cbn [disconnect_to]; rewrite Htip; by rewrite decide_True. }
  cbn [mbind option_bind]. rewrite Hw. cbn [mbind option_bind]. rewrite Ht. cbn [mbind option_bind].
  destruct (Z.to_nat (nHeight bw - nHeight bt)) as [| k] eqn:Ek; [lia |]. cbn [connect_rounds].
  destruct (Z.eqb_spec (nHeight bt) (nHeight bw)); [lia |].
  destruct (connect_list_head (blocks s) w bw c bc t bt (Z.min (nHeight bt + 32) (nHeight bw)) Hm Hw Ht Hc Hwc Hq ltac:(lia))
    as (it & l & rest & -> & E & Erev). cbn [mbind option_bind]. rewrite E. cbn [mbind option_bind]. rewrite Erev. cbn [connect_all].
  unfold ConnectTip. rewrite Hc. cbn [mbind option_bind]. rewrite decide_True by congruence. rewrite Hbad.
  cbn [InvalidBlockFound mbind option_bind]. rewrite decide_False by congruence. done.
Qed.
End Damaged.


(** Blocks 100 and 102 and the header of 101 were received; block 101 came
    last and is in memory, but the file of block 101 is damaged, and block 102
    is the best one. *)
Definition damaged_ledger : Ledger unit :=
  mkLedger (fun _ copy p => match copy with
                            | None => if p =? 101 then InvalidBlock true else Connected tt 0
                            | Some _ => Connected tt 0
                            end) (fun _ _ => Some tt) (fun _ => true).
Definition damaged_ops : list Op :=
  [OpBlock demo_env (demo_arrival 100) true; demo_header 101 100; OpBlock demo_env (demo_arrival 102) true].
Definition before_damaged : ChainState unit :=
  Eval vm_compute in match run_all damaged_ledger 10 damaged_ops (initial tt) with
    | Some (_, s) => match AcceptBlock id demo_env (demo_arrival 101) true false s with Some (_, _, s) => s | None => s end
    | None => initial tt end.


(** ** A target that outlives its block *)

(** Header 101, blocks 102 and 103 on top of it before block 101: three
    blocks are linked at once. *)
Definition race_parent (p : ptr) : ptr := p - 1.
Definition race_arrival (p : ptr) : BlockArrival :=
  mkArrival p [] [] (mkHeader 0x30000000 (race_parent p) (1600000000 + p) 0x1e0fffff) [p] 1 false true Passes (Some (0, 8)).
Definition race_ledger : Ledger unit := mkLedger (fun _ _ _ => Connected tt 0) (fun _ _ => Some tt) (fun _ => true).
Definition race_ops : list Op :=
  [OpBlock demo_env (race_arrival 100) true; demo_header 101 100;
   OpBlock demo_env (race_arrival 102) true; OpBlock demo_env (race_arrival 103) true].

(** [ActivateBestChain] can connect a block that was just given up: between
    two rounds of its loop the lock is released and the target
    [pindexMostWork] is kept; when [invalidateblock] runs there, the next round
    connects the blocks up to the target without looking at their marks, and
    the active chain contains a block marked invalid. *)
Example stale_target_connects_invalidated :
  exists s0 s1 s2 s3 s4 b,
    run_all race_ledger 10 race_ops (initial tt) = Some ([true; true; true; true], s0) /\
    AcceptBlock id demo_env (race_arrival 101) true false s0 = Some (true, true, s1) /\
    ActivateBestChain_round id race_ledger None None s1 = Some (Again (Some 103) s2) /\
    InvalidateBlock id race_ledger 102 s2 = Some (true, s3) /\
    ActivateBestChain_loop id race_ledger 10 None (Some 103) s3 = Some (true, s4) /\
    blocks s4 !! 102 = Some b /\ has_flag b BLOCK_FAILED_VALID = true /\ Contains (blocks s4) (chainActive s4) 102 = Some true.
Proof.
  eexists _, _, _, _, _, _. split; [vm_compute; reflexivity |]. split; [vm_compute; reflexivity |].
  split; [vm_compute; reflexivity |]. split; [vm_compute; reflexivity |]. split; [vm_compute; reflexivity |].
  split; [vm_compute; reflexivity |]. split; vm_compute; reflexivity.
Qed.
